(* ===== verification/_CoqProject ===== *)
-Q . S2P
Prelude.v
Js.v
JsDate.v
JsJson.v
JsParse.v
Machine.v
Identifiers.v
Entities.v
DurableState.v
Thread.v
AuthTypes.v
Contract.v
AuthStore.v
Deterministic.v
InMemoryAuth.v
Permission.v
AuthContract.v
Grant.v
ActionPolicy.v
Coordination.v
Scheduler.v
CoordinationStore.v
Dispatch.v
Attention.v
AttentionStore.v
AttentionPolicy.v
Delegation.v
DelegationContract.v
DelegationRuns.v
Persistence.v
ProductState.v
RunState.v
Outbox.v
DurableEntities.v
DelegationAdapter.v
WorkspaceService.v
CommitGate.v
CommitRuns.v
WorkspaceRuns.v
RunCoordination.v
HostWorkspaceState.v
RunCoordinator.v
RunContract.v
RunExecution.v
RunGuarantees.v
RunBed.v
Approval.v
RecentAuthentication.v
SuggestionService.v
MachineSecrets.v
Reflection.v
SuggestionContract.v
SuggestionRuns.v
SuggestionAdapter.v
ReflectionRuns.v
CandidatePaths.v
ProactivityBed.v
Improvement.v
ImprovementRuns.v
ImprovementAdapter.v
ImprovementBed.v
PiProgress.v
Sqlite.v
SqliteSchema.v
SqliteWorker.v
SqliteEvents.v
SqliteStep.v
SqliteAuthority.v
SqliteCommit.v
SqliteOutbox.v
SqliteRepository.v
RunDispatch.v
DispatchGuarantees.v
DispatchProgress.v
ModelBudget.v
BackgroundWork.v
BudgetLedger.v
BudgetOperations.v
BudgetGuarantees.v
BudgetSettlement.v
