(* ===== verification/Prelude.v ===== *)
(** * A verification development for himawari-agent

    himawari-agent is an agent platform in TypeScript: Runs of an Agent act
    for an Owner through capabilities, under grants, policies and approvals;
    jobs fire on a schedule under an authority lease; results are brought to
    the Owner's attention; subtasks are delegated to Workers; changes to a
    repository are committed once, as the Owner authorized them.  This library
    models the domain package (packages/domain/src), the services of the
    application package that carry those guarantees
    (packages/application/src/services), the ports they stand on
    (packages/application/src/ports), the in-memory adapters that
    implement the ports (packages/testing/src) and the durable ones that
    implement them over a state store, the worker that keeps the product state,
    the dispatch of Runs and the budget of models in SQLite (packages/persistence-sqlite/src), and the
    guard that stops a Run which makes no progress (packages/runtime-pi/src).

    ** The parts and their files

    Language and shared ground.
    - Prelude: this file.  Strict equality, record updates [r <| f := v |>],
      the result type, the state-and-error monad [M exn W A], guards and their
      automation, list lemmas.
    - Js, JsDate, JsJson, JsParse: the parts of the JavaScript library in use:
      strings, [Map] and the 32-bit operators (for FNV-1a); UTC dates with the
      civil calendar; [JSON.stringify] with its injectivity; [JSON.parse] with
      its round trip.
    - Contract: how a port is specified (see below), and Hoare triples for code
      that runs among other clients.
    - Deterministic: packages/testing/src/deterministic.ts.

    Domain (packages/domain/src).
    - Identifiers: identifiers.ts, with [DomainError], [ApplicationPortError]
      and the exception type of errors.ts and ports/common.ts.  Entities: entities.ts, run-state.ts,
      authority.ts.  DurableState: durable-state.ts.  Thread: thread.ts.
    - Machine: the interface [StatusMachine] that the record types with a
      status table implement; reachability and finality are proved once.

    Authorization (ports/authorization.ts).
    - AuthTypes: the data and the port as a class; AuthStore: its contract,
      with its own account of the records written and of the grants that may
      be consumed; InMemoryAuth: in-memory/authorization.ts, with a concrete
      world; AuthContract: what the contract gives, and the refinement.
    - Permission: permission-service.ts; Grant: grant-service.ts;
      ActionPolicy: action-policy-service.ts.  All three see the
      store only through its contract.
    - Approval: approval-service.ts, over the same contract.
    - RecentAuthentication: recent-authentication-service.ts, with the identity
      and session records it reads.
    - MachineSecrets: machine-secret-exclusion.ts, with the part of ECMAScript's
      regular expressions it uses and the language they denote.

    Scheduling (ports/coordination.ts).
    - Coordination: jobs, trigger input, authority leases and their in-memory
      ports; CoordinationStore: what those ports promise.
    - Scheduler: scheduler-service.ts, which reads grants from the
      authorization store and jobs from the scheduler port; Dispatch: its
      theorems, against both contracts at once.

    Attention (ports/coordination.ts).
    - Attention: the data and the in-memory ports; AttentionStore: contract
      and refinement; AttentionPolicy: attention-policy-service.ts.

    Delegation (ports/delegation.ts).
    - Delegation: data, ports, delegation-transitions.ts, delegation-service.ts
      and worker-result-service.ts;
      DelegationContract: the contract and the safety theorems;
      DelegationRuns: the bookkeeping of progress, termination of [execute],
      and a concrete world.

    Product state (ports/persistence.ts).
    - Persistence: the data, the ports and in-memory/persistence.ts;
      ProductState: the contract of the product repository (states, outbox
      and commits change together), what it gives, the refinement, and a
      concrete world.
    - RunState: run-state-commit-coordinator.ts and ports/run-lifecycle.ts;
      Outbox: reliable-event-publisher.ts and the contract of its sink.
    - DurableEntities: the contract of the state store, and the entity table
      of durable-autonomy-state-adapter.ts over any state store, under any rule of what its clients may do to an
      entity; DelegationAdapter: its delegation adapter, which implements the
      contract of Delegation's port.

    Workspaces and commits (ports/workspaces.ts).
    - WorkspaceService: the data, the ports and workspace-service.ts (who owns
      the content of a file, staging);
      CommitGate: commit-gate-service.ts, and what the state port promises.
    - CommitRuns and WorkspaceRuns: what the two services then guarantee.
    - HostWorkspaceState: durable-host-workspace-state-adapter.ts, which
      implements the contract over the state store; and a concrete world, with
      a sample commit.

    Run coordination (services/run-coordinator.ts).
    - RunCoordination: the data and ports (Agent runtime, checkpoints, context
      formation, traces, execution leases) and in-memory/run-checkpoints.ts.
    - RunCoordinator: the coordinator, method by method: [execute] is
      [execute_run], its private [executeAttempt] is split at the start of the
      runtime into [admit_attempt] and [settle_attempt].
    - RunContract: the versions of the checkpoints, the Runs and what was
      published as one shared history, and the promises of the ports on it;
      RunExecution: the triples of each method; RunGuarantees: the theorems;
      RunBed: a concrete world.

    Suggestions and reflection (ports/proactivity.ts).
    - SuggestionService: the data, the ports and suggestion-service.ts (proposal, delivery, response, Task creation,
      recovery, expiry).
    - Reflection: reflection-service.ts; the attempt of a run has a local
      variable that its handler reads, so its world is paired with it; the moves
      of a checkpoint and what they keep.
    - SuggestionContract: the suggestions, the checkpoints and the Tasks as one
      shared state, the steps of both services, and the promises of the ports.
      The quota is counted as in the code, on the day in the zone the draft
      names; [maximum] bounds the quotas that proposals and definitions bring.
    - SuggestionRuns and ReflectionRuns: the triples and the theorems of the
      two services; each holds while the other one is called by anyone.
    - SuggestionAdapter: the proactivity adapter of
      durable-autonomy-state-adapter.ts, which implements the contract over
      any state store; ProactivityBed: a concrete world.

    Improvement candidates (ports/improvement.ts).
    - CandidatePaths: the functions of improvement-candidate-service.ts on
      paths (normal form, scopes, protected roots).
    - Improvement: the service: a candidate is created, built in an isolated
      workspace, compared, reviewed, and cleaned up when it expires; the moves
      of a candidate, the table of candidates and the contract of the state
      port.
    - ImprovementRuns: the triples of the service and its theorems, whose promises of the other ports are
      hypotheses of the theorems that need them.
    - ImprovementAdapter: the improvement adapter of
      durable-autonomy-state-adapter.ts, which completes candidates an older
      release stored, and implements the contract; ImprovementBed: a concrete
      world.

    SQLite persistence (packages/persistence-sqlite/src).
    - Sqlite: what the code uses of SQL: tables as lists of rows, queries,
      constraints, transactions.
    - SqliteSchema: the rows of the tables the operations read or write and the
      constraints of those they write (migrations/).
    - SqliteWorker: sqlite-worker.ts on the tables of the product core:
      deployments, authority leases, product state, command results, events.
    - SqliteEvents: the outbox of sqlite-durable-operations.ts (append, claims
      with an expiry, acknowledgement, consumption once) and the publisher of
      durable-adapters.ts.
    - SqliteStep: the steps the database takes, and that every operation, on
      every branch, takes no others.  SqliteAuthority, SqliteCommit: the
      invariants of deployments and leases, and of commands, along any steps,
      with the theorems on leases and on commits; SqliteOutbox: those on
      claims.
    - SqliteRepository: sqlite-execution-context.ts and
      product-state-repository.ts, which run the operations behind the ports
      of ports/persistence.ts and ports/coordination.ts; and a concrete
      database.

    The dispatch of Runs (the same package, over the same database).
    - RunDispatch: sqlite-run-dispatch-operations.ts: the lists of the Runs to
      execute and of those to reconcile, the execution lease of a Run (claim,
      renewal, release, the guards of other writers, its end when the Owner
      cancels the Run), and quarantine.
    - DispatchGuarantees: how long a lease is kept and what a claim was checked
      for, with a concrete database; DispatchProgress: that the Runs which are
      listed can be claimed, or quarantined.

    The budget of models (the same package, over the same tables).
    - ModelBudget: sqlite-model-budget-operations.ts: an account for each Run,
      background occurrence and memory projection, and an allocation for each
      call of a model (reserved, started, of unknown result, settled, released).
    - BackgroundWork: the occurrences of sqlite-durable-operations.ts: created,
      admitted within capacity and budget, claimed, settled.
    - BudgetLedger: the steps of the ledger and what each of them keeps;
      BudgetOperations: every operation of the two files above, on every branch,
      takes such steps and no others, along any sequence of requests;
      BudgetGuarantees: the theorems, and a concrete database; BudgetSettlement:
      that a charge is always recorded.

    The Agent runtime (packages/runtime-pi/src).
    - PiProgress: pi-tool-progress-guard.ts, against what the whole history of
      tool calls says.

    ** How the code is modelled

    A class with private fields is a record; a method is a function in
    [M exn W A], which takes the world and gives a result or an exception with
    the new world.  The dependencies of a service are type classes over the
    world [W] ([ClockPort], [AuthorizationStorePort], ...), so a definition is
    the same for every implementation.  [await] is sequencing; [try]/[catch] is
    [try_catch]; a promise that is returned out of a [try] without [await]
    escapes its handler, which is [try_tail].  A service method that is several
    calls to ports is several steps: other clients may act between any two.

    A port is specified by an abstract state, one atomic transition per
    operation, and laws ([gen_op_law]): from a world that satisfies the
    implementation's invariant, others take any number of steps, then the call
    either has its effect atomically or fails without effect.  Theorems on
    services are proved from the laws alone, with everything else (clock,
    identifiers, adapters) only required to be a frame.  The in-memory adapters
    are shown to satisfy the laws.  The ports of code outside the repository
    (a Worker, a delivery client, a verifier) are arguments.

    Numbers are integers in [Z] with [Number.isSafeInteger] written out where
    the code tests it; the scores of a candidate, which the code tests with
    [Number.isFinite], have infinities and NaN.  A sum of two safe integers is
    exact here as it is in the code up to 2^53.  FNV-1a works on the 32-bit
    operators of Js.  Strings are 8-bit.  Timestamps are strings, compared
    as strings where the code does so; [Date.parse] is modelled on the
    canonical format with a year from 0000 to 9999 and other strings are
    invalid dates.  [Object.freeze], [frozenCopy] and [structuredClone] are the
    identity on the immutable values of the model.  Object literals are
    serialized with their keys in the order the code writes them.

    A stored JSON value is a [json], whose numbers are integers and whose
    objects keep the order of their members, as JavaScript does for names that
    are not array indices; the entities of a stored table are read
    back with a decoder, so values that are no table of entities, which the
    code never writes there, are outside the model.  The digest of a text
    (ports/host-files.ts) and its SHA-256 are parameters; that two previews do not
    share a digest is a hypothesis of [commit_as_authorized], on the preview at
    hand, and that a SHA-256 is 64 hexadecimal digits one of
    [progress_guard_restored].  What a candidate workspace reports of a patch is a
    parameter of the improvement service.  Approvals
    that are plain where the code casts them to governed ones have the missing
    fields [undefined], as at run time.  The time
    zones of the IANA database (which names are zones, and the civil date of
    an instant in one) are a parameter too.

    Bounds.  The loops of the code that retry are structural on the number of
    attempts the code allows (5 in [evaluate] of AttentionPolicy, 8 in
    [updateDelegation], [createEntity], [saveEntity] and the loops of the
    suggestion and reflection services).  Only the loops over the events of a Worker and of the
    runtime have fuel, and the cancellation of the active Workers of a Run:
    one unit per event (or Worker).  [execute_terminates] and
    [execute_run_terminates] show that streams of at most N events need N + 1.

    In SQLite a statement that writes checks the constraints of its table
    afterwards, and writes nothing if one fails; a transaction that ends with
    an exception, or with the process, leaves the tables as they were.  The
    worker runs one request at a time.  The free bytes of the disk and the
    clock are inputs.  Errors of the file system and locks held by another
    process are not modelled.  The theorems are about any sequence of the
    modelled operations: the transfer of an authority to another deployment,
    the governed deletion, the typed tables of threads, and the writers of
    Runs, turns and approvals change some of these tables too, and are outside
    the model: the theorems on the dispatch of Runs allow any change of the
    other tables, and [dispatch_wf] says what database the lists are asked of.
    The lists compare the time of expiry as a text, in SQL, and a claim compares
    instants: the two agree on canonical timestamps, which [dispatch_wf] and the
    theorems of DispatchProgress ask for.  In the budget the rows of
    Runs, triggers, payloads, memories, projection jobs and execution leases are
    what the database holds: requests read them and do not change them, but for
    the occurrences.  The payload of a request has the shape its type names;
    what the parser then tests of its fields is modelled.

    In the Run coordinator an attempt is an object at an address, shared by
    its [execute] and the table.  Cancellations that the code starts together
    run one after the other; the timer of a deadline is another caller of the
    same method.  Names of Workers are not those of members of
    [Object.prototype], and a Worker that leaves the set of active ones and
    joins it again during a cancellation is cancelled once.

    ** What the theorems show

    - Who may act: [governed_allow_sound] and [evaluate_allow_sound] (an
      allowed intent is covered by a grant, a rule or the safe-read policy,
      and by no denial),
      [governed_ask_sound], [governed_evaluate_fails_closed], [risk_floor],
      [grant_create_bounded], [fingerprint_spec],
      [governed_response_checked] (which fields of the grant of an answer are
      compared with the intent, and which are not),
      [recent_authentication_sound].
    - What is kept out: [machine_secrets_recognized].
    - What is spent: [governed_intent_spends_once], [usage_spends_once],
      [grant_lifetime], [approval_settles_once], [respond_settles].
    - Scheduling: [dispatch_triggers_authorized], [version_advances_once],
      [dispatch_accounts], [job_write_once], [next_occurrence_spec],
      [disabled_reason_spec], [fencing_tokens_increase].
    - Attention: [evaluate_decides], [candidate_decided_once],
      [rate_limit_window], [base_decision_sound], [delivery_lifecycle],
      [deliver_settles].
    - Delegation: [create_attenuates] (authority is only handed down),
      [result_commit_sound] (the reads, the verifier's call and the save by
      which a call completes a delegation), [execution_exclusive],
      [update_not_lost], [delegation_lifetime], [execute_terminates].
    - Improvement candidates: [candidates_stay_sound] (what a candidate of
      each status carries), [review_earned], [expired_candidates_cleaned],
      [scopes_contain], [protected_roots], [self_activation_refused].
    - The Agent runtime: [progress_guard_spec], [progress_guard_restored].
    - SQLite: [sqlite_commit_decides] (what a commit answers and writes, on
      every branch and wherever the process ends), [sqlite_command_once],
      [sqlite_last_lease_writes] (who commits holds the last lease of the
      Agent), [sqlite_claims_exclusive], [sqlite_claims_hold].
    - The dispatch of Runs: [execution_lease_kept] (no request of another
      consumer takes a lease before it expires), [claim_sound] (what a claim
      was checked for), [listed_run_claimable] (a Run that is listed can be
      claimed), [quarantine_settles] (a Run that is left in doubt can be
      quarantined, loses nothing that was observed of it, and is listed no more).
    - The budget of models: [budget_balances] (accounts agree with their
      allocations), [budget_limits_kept] (what is reserved and spent stays in
      the limits but for charges beyond the estimates), [allocation_lifetime],
      [admission_sound], [settlement_recorded] (a charge of a started call is
      recorded, and only once).
    - Product state: [command_commits_once] (of the in-memory repository, with
      calls suspended at their [await]), [commit_fenced], [run_transition_commits], [run_roundtrip],
      [publish_pending_settles], [sink_takes_once], [outbox_drains].
    - Run coordination: [runtime_start_claimed] (the runtime is started under
      a claim on the checkpoint), [runtime_starts_apart],
      [execute_publishes_settled], [worker_result_in_budget],
      [execute_run_terminates].
    - Suggestions: [suggestions_stay_sound] (the daily quota in the zone each
      suggestion names, no two open ones of one key, Tasks only for approved
      ones), [respond_decides],
      [expire_closes], [suggestion_decision_final], [proactivity_roundtrip].
    - Reflection: [reflections_stay_sound] (three attempts, the bounds of the
      frozen definition, no secrets, and the quota of the definitions for the
      suggestions), [run_reflects],
      [reflection_settled_final].
    - Workspaces and commits: [commit_taken_once], [commit_as_authorized],
      [commit_result_stable], [snapshot_ownership],
      [owner_changes_protected], [stage_task_content].
    - Refinement: [in_memory_product_refines], [durable_delegations_refine],
      [host_workspace_refines], [durable_proactivity_refines],
      [durable_improvements_refine],
      [in_memory_store_refines], [in_memory_attention_refines],
      [in_memory_checkpoints_refine].
    - Domain: [run_lifecycle], [ownership_chain],
      [stale_fence_rejected_forever], [occurrence_accounting],
      [thread_reachable_wf].

    Some lemmas record where the code departs from what it means to do:
    [ActionPolicy.denial_lost_when_recording_fails], [CoordinationStore.claims_race],
    [AttentionPolicy.delivery_id_collision],
    [DelegationRuns.empty_reason_completes], [ProductState.fence_window],
    [RunBed.settled_run_restarted],
    [SuggestionAdapter.proactivity_keys_collide],
    [ProactivityBed.quota_depends_on_zone], [Approval.wider_grant_accepted],
    [ImprovementBed.unmarked_protected_change],
    [CandidatePaths.capability_unprotected],
    [SqliteRepository.replay_reports_later_state],
    [BudgetGuarantees.occurrence_release_shrinks],
    [BudgetGuarantees.occurrence_over_budget_lost].

    ** What is not modelled

    Input and output (HTTP, namespaces, the user interfaces); wire schemas (a
    validation library's); adapters to third-party runtimes; the services that
    route between ports and wire types.  Of the SQLite database: the tables of
    threads, memories, capabilities, artifacts and transfers, the migrations and the recovery at startup.  Of the
    application package: Thread checkpoints, the facade of Worker delegation
    and the execution in a sandbox.  Of the integrations: the batch
    continuation of the PI runtime and the address classifier of the web one. *)
From Stdlib Require Export ZArith Lia Ascii String.
From stdpp Require Export base decidable option list gmap strings pretty.

#[global] Open Scope string_scope.
#[global] Open Scope list_scope.

Declare Scope himawari_scope.
Delimit Scope himawari_scope with him.
#[global] Open Scope himawari_scope.

(** ** JavaScript strict equality on values with decidable equality *)
Notation "a === b" := (bool_decide (a = b)) (at level 35, no associativity) : himawari_scope.
Notation "a !== b" := (negb (bool_decide (a = b))) (at level 35, no associativity) : himawari_scope.

(** ** Functional record update: [r <| field := v |>]

    A record type declares its eta-expansion as an [Eta] instance; the setter
    of a field is found by abstracting that field's projection in it. *)
Class Eta (R : Type) := eta : R → R.
Class Setter {R T : Type} (proj : R → T) := set_field : T → R → R.
Arguments set_field {R T} proj {_} _ _ /.

Ltac solve_setter R T p :=
  let e := constr:(ltac:(typeclasses eauto) : Eta R) in
  let v := fresh "v" in
  let r := fresh "r" in
  red; intros v r;
  let u := eval red in (e r) in
  let u := eval cbv beta in (u : R) in
  let b := eval pattern (p r) in u in
  lazymatch b with
  | ?f _ => let t := eval cbv beta in (f v) in exact t
  end.

#[global] Hint Extern 0 (@Setter ?R ?T ?p) => solve_setter R T p : typeclass_instances.

Notation "r <| p := v |>" := (set_field p v r)
  (at level 1, left associativity, format "r  <| p  :=  v |>") : himawari_scope.

(** ** Exceptions as values

    [result X A] is the outcome of code that may throw an [X]; [M X W A] is
    code that may also change a world [W].  A throw keeps the changes made
    before it, as in JavaScript. *)
Inductive result (X A : Type) : Type :=
  | Ok (a : A)
  | Err (x : X).
Arguments Ok {X A} a.
Arguments Err {X A} x.

#[global] Instance result_eq_dec {X A} `{EqDecision X, EqDecision A} : EqDecision (result X A).
Proof. solve_decision. Defined.

#[global] Instance result_ret {X} : MRet (result X) := λ A a, Ok a.
#[global] Instance result_bind {X} : MBind (result X) := λ A B f r,
  match r with Ok a => f a | Err x => Err x end.

Definition is_ok {X A} (r : result X A) : bool :=
  match r with Ok _ => true | Err _ => false end.

(** [if (b) throw x;] *)
Definition throw_if {X} (b : bool) (x : X) : result X unit :=
  if b then Err x else Ok tt.

Definition M (X W A : Type) : Type := W → result X A * W.

Section monad.
Context {X W : Type}.
Implicit Types w : W.

#[global] Instance M_ret : MRet (M X W) := λ A a w, (Ok a, w).
#[global] Instance M_bind : MBind (M X W) := λ A B f m w,
  match m w with
  | (Ok a, w') => f a w'
  | (Err x, w') => (Err x, w')
  end.

Definition lift {A} (r : result X A) : M X W A := λ w, (r, w).
Definition throw {A} (x : X) : M X W A := lift (Err x).
Definition throwM_if (b : bool) (x : X) : M X W unit := lift (throw_if b x).
Definition gets {A} (f : W → A) : M X W A := λ w, (Ok (f w), w).
Definition modify (f : W → W) : M X W unit := λ w, (Ok tt, f w).

(** [try { return await m } catch (x) { h x }] *)
Definition try_catch {A} (m : M X W A) (h : X → M X W A) : M X W A := λ w,
  match m w with
  | (Ok a, w') => (Ok a, w')
  | (Err x, w') => h x w'
  end.

(** [try { ...; return p } catch (x) { h x }] in an [async] function: the
    promise [p] returned without [await] is run outside the handler. *)
Definition try_tail {A} (m : M X W (M X W A)) (h : X → M X W A) : M X W A := λ w,
  match m w with
  | (Ok p, w') => p w'
  | (Err x, w') => h x w'
  end.

(** [try { return await m } finally { f }] *)
Definition try_finally {A} (m : M X W A) (f : M X W unit) : M X W A := λ w,
  let '(r, w1) := m w in
  match f w1 with
  | (Ok _, w2) => (r, w2)
  | (Err x, w2) => (Err x, w2)
  end.
End monad.

(** A computation on a part of the world, run on the whole. *)
Definition zoom {X S W A : Type} (get : W → S) (set : S → W → W) (m : M X S A) : M X W A := λ w,
  let '(r, s) := m (get w) in (r, set s w).

(** ** Reasoning about exceptions and state *)
Section monad_lemmas.
Context {X W : Type}.

Lemma result_bind_Ok {A B} (r : result X A) (f : A → result X B) b :
  (a ← r; f a) = Ok b ↔ ∃ a, r = Ok a ∧ f a = Ok b.
Proof. destruct r; cbn; naive_solver. Qed.

Lemma throw_if_Ok (b : bool) (x : X) u : throw_if b x = Ok u ↔ b = false.
Proof. destruct b, u; cbn; naive_solver. Qed.

Lemma throw_if_bind {A} (b : bool) (x : X) (k : result X A) :
  (throw_if b x ;; k) = if b then Err x else k.
Proof. by destruct b. Qed.

Lemma M_bind_Ok {A B} (m : M X W A) (f : A → M X W B) b w w' :
  (a ← m; f a) w = (Ok b, w') ↔ ∃ a w1, m w = (Ok a, w1) ∧ f a w1 = (Ok b, w').
Proof. unfold mbind, M_bind. destruct (m w) as [[] ?]; naive_solver. Qed.

Lemma M_bind_Err {A B} (m : M X W A) (f : A → M X W B) x w w' :
  (a ← m; f a) w = (Err x, w') ↔
    m w = (Err x, w') ∨ ∃ a w1, m w = (Ok a, w1) ∧ f a w1 = (Err x, w').
Proof. unfold mbind, M_bind. destruct (m w) as [[] ?]; naive_solver. Qed.

Lemma try_finally_Ok {A} (m : M X W A) (f : M X W unit) a w w' :
  try_finally m f w = (Ok a, w') → ∃ u w1, m w = (Ok a, w1) ∧ f w1 = (Ok u, w').
Proof.
  unfold try_finally. destruct (m w) as [r w1]. destruct (f w1) as [[u|x] w2] eqn:E; intros H; [|done].
  injection H as -> <-. by exists u, w1.
Qed.

(** Weakest precondition of a computation: [Q] holds of outcome and world. *)
Definition wp {A} (m : M X W A) (Q : result X A → W → Prop) (w : W) : Prop :=
  Q (m w).1 (m w).2.

Lemma wp_mono {A} (m : M X W A) (P Q : result X A → W → Prop) w :
  wp m P w → (∀ r w', P r w' → Q r w') → wp m Q w.
Proof. unfold wp. auto. Qed.

Lemma wp_ret {A} (a : A) Q w : Q (Ok a) w → wp (mret a : M X W A) Q w.
Proof. done. Qed.

Lemma wp_lift {A} (r : result X A) Q w : Q r w → wp (lift r : M X W A) Q w.
Proof. done. Qed.

Lemma wp_bind {A B} (m : M X W A) (f : A → M X W B) Q w :
  wp m (λ r w', match r with Ok a => wp (f a) Q w' | Err x => Q (Err x) w' end) w →
  wp (a ← m; f a) Q w.
Proof. unfold wp, mbind, M_bind. by destruct (m w) as [[] ?]. Qed.

Lemma wp_try_catch {A} (m : M X W A) h Q w :
  wp m (λ r w', match r with Ok a => Q (Ok a) w' | Err x => wp (h x) Q w' end) w →
  wp (try_catch m h) Q w.
Proof. unfold wp, try_catch. by destruct (m w) as [[] ?]. Qed.

Lemma wp_try_tail {A} (m : M X W (M X W A)) h Q w :
  wp m (λ r w', match r with Ok p => wp p Q w' | Err x => wp (h x) Q w' end) w →
  wp (try_tail m h) Q w.
Proof. unfold wp, try_tail. by destruct (m w) as [[] ?]. Qed.

Lemma wp_try_finally {A} (m : M X W A) f Q w :
  wp m (λ r w', wp f (λ u w'', match u with Ok _ => Q r w'' | Err x => Q (Err x) w'' end) w') w →
  wp (try_finally m f) Q w.
Proof. unfold wp, try_finally. destruct (m w) as [r w1]. cbn. by destruct (f w1) as [[] ?]. Qed.
End monad_lemmas.

(** ** Arrays: the JavaScript methods the source uses on lists *)
Definition includes {A} `{EqDecision A} (x : A) (l : list A) : bool := bool_decide (x ∈ l).

(** [new Set(l).size !== l.length] *)
Definition has_duplicates {A} `{EqDecision A} (l : list A) : bool :=
  negb (bool_decide (NoDup l)).

Lemma includes_spec {A} `{EqDecision A} (x : A) l : includes x l = true ↔ x ∈ l.
Proof. unfold includes. by rewrite bool_decide_eq_true. Qed.

Lemma existsb_elem {A} (f : A → bool) l : existsb f l = true ↔ ∃ x, x ∈ l ∧ f x = true.
Proof. rewrite existsb_exists. by setoid_rewrite list_elem_of_In. Qed.

Lemma existsb_false {A} (f : A → bool) l : existsb f l = false ↔ ∀ x, x ∈ l → f x = false.
Proof.
  rewrite <-not_true_iff_false, existsb_elem. split.
  - intros H x Hx. apply not_true_iff_false. naive_solver.
  - intros H (x & Hx & Hf). by rewrite H in Hf.
Qed.

Lemma forallb_elem {A} (f : A → bool) l : forallb f l = true ↔ ∀ x, x ∈ l → f x = true.
Proof. rewrite forallb_forall. by setoid_rewrite list_elem_of_In. Qed.

Lemma find_elem {A} (f : A → bool) l x : List.find f l = Some x → x ∈ l ∧ f x = true.
Proof. intros H. apply find_some in H. by rewrite list_elem_of_In. Qed.

Lemma find_unique {A} (f : A → string) l k x y :
  NoDup (f <$> l) → x ∈ l → f x = k → List.find (λ r, f r === k) l = Some y → y = x.
Proof.
  intros Hn Hx Hf [Hy Hfy%bool_decide_eq_true]%find_elem.
  apply list_elem_of_lookup in Hx as [i Hi]. apply list_elem_of_lookup in Hy as [j Hj].
  assert (i = j) as ->; [|congruence].
  eapply (NoDup_lookup (f <$> l)); [done|rewrite list_lookup_fmap, Hi; reflexivity|].
  rewrite list_lookup_fmap, Hj. cbn. congruence.
Qed.


Lemma find_None {A} (f : A → bool) l : List.find f l = None ↔ ∀ x, x ∈ l → f x = false.
Proof.
  split.
  - intros H x Hx. by apply (find_none _ _ H), list_elem_of_In.
  - intros H. destruct (List.find f l) as [x|] eqn:E; [|done].
    apply find_elem in E as [Hx Hf]. by rewrite H in Hf.
Qed.

Lemma filter_bool_sublist {A} (f : A → bool) l : List.filter f l `sublist_of` l.
Proof. induction l as [|x l IH]; cbn; [done|]. destruct (f x); by constructor. Qed.

(** ** Booleans: turn a hypothesis about a guard into propositions *)
Create HintDb guards.
#[export] Hint Rewrite andb_true_iff andb_false_iff orb_true_iff orb_false_iff negb_true_iff
  negb_false_iff @bool_decide_eq_true @bool_decide_eq_false Z.leb_le Z.leb_gt Z.ltb_lt Z.ltb_ge
  Z.eqb_eq Z.eqb_neq @existsb_elem @existsb_false @forallb_elem @includes_spec : guards.

(** The source's [(a === b) !== (c !== d)] guard, when it does not fire. *)
Lemma xor_guard_false (P Q : Prop) `{Decision P, Decision Q} :
  (bool_decide P !== negb (bool_decide Q)) = false ↔ (P ↔ ¬ Q).
Proof.
  rewrite negb_false_iff, bool_decide_eq_true.
  destruct (decide P), (decide Q); rewrite ?(bool_decide_eq_true_2 P), ?(bool_decide_eq_false_2 P),
    ?(bool_decide_eq_true_2 Q), ?(bool_decide_eq_false_2 Q) by done; cbn; naive_solver.
Qed.

Ltac guards_in H := autorewrite with guards in H.
Ltac guards := autorewrite with guards in *.

(** Take the first guard off a chain of throwing statements that succeeded. *)
Ltac ok_guard H E :=
  rewrite ?throw_if_bind in H;
  match type of H with
  | (if ?b then _ else _) = _ => destruct b eqn:E; [discriminate H|]
  | throw_if _ _ = _ => apply throw_if_Ok in H; rename H into E
  end.

(** Split the outcome of a chain of throwing statements. *)
Ltac inv_ok :=
  repeat match goal with
  | H : Ok _ = Ok _ |- _ => injection H as H; subst
  | H : Err _ = Err _ |- _ => injection H as H; subst
  | H : Ok _ = Err _ |- _ => discriminate H
  | H : Err _ = Ok _ |- _ => discriminate H
  | H : (_, _) = (_, _) |- _ => injection H as H; subst
  | H : mret _ = _ |- _ => unfold mret, result_ret in H
  | H : mbind _ (throw_if _ _) = _ |- _ => rewrite throw_if_bind in H
  | H : (if ?b then Err _ else _) = Ok _ |- _ => destruct b eqn:?; [discriminate H|]
  | H : mbind _ _ = Ok _ |- _ => apply result_bind_Ok in H as (? & ? & H)
  | H : throw_if _ _ = Ok _ |- _ => apply throw_if_Ok in H
  end.

(** ** Truthiness of an optional string: [undefined], [null] and [""] are falsy *)
Definition truthy (o : option string) : option string :=
  match o with
  | Some EmptyString | None => None
  | Some s => Some s
  end.

Definition is_empty (s : string) : bool := s === "".

Definition is_none {A} (o : option A) : bool := match o with None => true | Some _ => false end.

(** [value ?? fallback] for a string *)
Definition or_else (o : option string) (fallback : string) : string :=
  match o with Some s => s | None => fallback end.
