(* ===== verification/Js.v ===== *)
(** The parts of the JavaScript standard library the modelled code relies on:
    safe integers, string order and search, whitespace trimming, and [Map].

    Strings are sequences of 8-bit characters: the identifiers, timestamps,
    references and reason codes of the product are ASCII, for which UTF-16
    code-unit order and length are byte order and length. *)
From S2P Require Import Prelude.
Local Open Scope Z_scope.

(** ** Numbers *)
Definition MAX_SAFE_INTEGER : Z := 9007199254740991.

Definition isSafeInteger (n : Z) : bool := Z.abs n <=? MAX_SAFE_INTEGER.

(** [String(n)] of an integer *)
Definition numToString (n : Z) : string := pretty n.

(** ** Strings: relational operators compare code units lexicographically *)
Definition str_lt (a b : string) : bool := String.ltb a b.
Definition str_le (a b : string) : bool := negb (String.ltb b a).

Definition startsWith (s prefix : string) : bool := String.prefix prefix s.

(** The ASCII part of ECMAScript's WhiteSpace and LineTerminator. *)
Definition is_space (c : ascii) : bool :=
  let n := N_of_ascii c in ((9 <=? n) && (n <=? 13) || (n =? 32))%N.

Fixpoint trim_start (s : string) : string :=
  match s with
  | EmptyString => EmptyString
  | String c r => if is_space c then trim_start r else s
  end.

Fixpoint rev_onto (s acc : string) : string :=
  match s with
  | EmptyString => acc
  | String c r => rev_onto r (String c acc)
  end.

Definition rev_string (s : string) : string := rev_onto s "".

Definition trim (s : string) : string :=
  rev_string (trim_start (rev_string (trim_start s))).

Fixpoint all_chars (p : ascii → bool) (s : string) : bool :=
  match s with
  | EmptyString => true
  | String c s => p c && all_chars p s
  end.

(** ** Append *)
Lemma append_String c a b : String c a +:+ b = String c (a +:+ b).
Proof. done. Qed.

Lemma append_assoc (a b c : string) : (a +:+ b) +:+ c = a +:+ (b +:+ c).
Proof. induction a as [|x a IH]; [done|]. by rewrite !append_String, IH. Qed.

Lemma append_nil_r (a : string) : a +:+ "" = a.
Proof. induction a as [|x a IH]; [done|]. by rewrite append_String, IH. Qed.

Lemma append_cancel_l (a b c : string) : a +:+ b = a +:+ c → b = c.
Proof. induction a as [|x a IH]; [done|]. rewrite !append_String. intros [=]. auto. Qed.

Lemma String_inv c a d b : String c a = String d b → c = d ∧ a = b.
Proof. by intros [=]. Qed.

Lemma length_append (a b : string) : String.length (a +:+ b) = (String.length a + String.length b)%nat.
Proof. induction a as [|x a IH]; [done|]. rewrite append_String. simpl. by rewrite IH. Qed.

Lemma all_chars_app p s t : all_chars p (s +:+ t) = all_chars p s && all_chars p t.
Proof. induction s as [|c s IH]; [done|]. simpl. by rewrite IH, andb_assoc. Qed.

Lemma all_chars_impl (p q : ascii → bool) s :
  (∀ c, p c = true → q c = true) → all_chars p s = true → all_chars q s = true.
Proof. intros H. induction s as [|c s IH]; simpl; [done|]. rewrite !andb_true_iff. naive_solver. Qed.

(** [a] and [b] are equal up to a separator that occurs in neither. *)
Lemma append_split_inv (p : ascii → bool) a b c d r s :
  all_chars p a = true → all_chars p b = true → p c = false → p d = false →
  a +:+ String c r = b +:+ String d s → a = b ∧ c = d ∧ r = s.
Proof.
  revert b. induction a as [|x a IH]; intros [|y b]; simpl; rewrite ?andb_true_iff; intros Ha Hb Hc Hd.
  - by intros [=].
  - rewrite append_String. intros [= ->]. destruct Hb. congruence.
  - rewrite append_String. intros [= ->]. destruct Ha. congruence.
  - rewrite !append_String. intros [= -> E]. destruct (IH b) as (-> & -> & ->); naive_solver.
Qed.

(** ** Decimal numbers *)
Definition is_digit (c : ascii) : bool := let n := N_of_ascii c in ((48 <=? n) && (n <=? 57))%N.
Definition is_num_char (c : ascii) : bool := is_digit c || Ascii.eqb c "-".

Lemma pretty_N_go_digits (x : N) s : all_chars is_digit s = true → all_chars is_digit (pretty_N_go x s) = true.
Proof.
  revert s. induction (N.lt_wf_0 x) as [x _ IH]; intros s Hs.
  destruct (decide (0 < x)%N).
  - rewrite pretty_N_go_step by done. apply IH; [by apply N.div_lt|].
    simpl. rewrite Hs, andb_true_r. unfold pretty_N_char. by repeat case_match.
  - assert (x = 0%N) as -> by lia. by rewrite pretty_N_go_0.
Qed.

Lemma pretty_N_digits (n : N) : all_chars is_digit (pretty n) = true.
Proof. unfold pretty, pretty_N. case_decide; [done|]. by apply pretty_N_go_digits. Qed.

Lemma numToString_chars n : all_chars is_num_char (numToString n) = true.
Proof.
  assert (H : ∀ m : N, all_chars is_num_char (pretty m) = true).
  { intros m. eapply all_chars_impl, pretty_N_digits. intros c Hc. unfold is_num_char. by rewrite Hc. }
  unfold numToString. destruct n as [|p|p]; [done|apply (H (N.pos p))|].
  change (pretty (Z.neg p)) with ("-" +:+ pretty (N.pos p)). rewrite all_chars_app, H. done.
Qed.

Lemma numToString_digits n : 0 ≤ n → all_chars is_digit (numToString n) = true.
Proof. intros. destruct n as [|p|p]; [done|apply (pretty_N_digits (N.pos p))|lia]. Qed.

Lemma numToString_inj n m : numToString n = numToString m → n = m.
Proof. apply (inj pretty). Qed.

Lemma pretty_N_go_length k (x : N) s :
  (x < 10 ^ N.of_nat k)%N → (String.length (pretty_N_go x s) <= k + String.length s)%nat.
Proof.
  revert x s. induction k as [|k IH]; intros x s Hx.
  - assert (x = 0%N) as -> by (simpl in Hx; lia). by rewrite pretty_N_go_0.
  - destruct (decide (0 < x)%N).
    + rewrite pretty_N_go_step by done. etrans; [apply IH|simpl; lia].
      apply N.Div0.div_lt_upper_bound. by rewrite Nat2N.inj_succ, N.pow_succ_r' in Hx.
    + assert (x = 0%N) as -> by lia. rewrite pretty_N_go_0. lia.
Qed.

Lemma numToString_nonempty n : numToString n ≠ "".
Proof.
  assert (H : ∀ m s, s ≠ "" → pretty_N_go m s ≠ "").
  { intros m. induction (N.lt_wf_0 m) as [m _ IH]; intros s Hs. destruct (decide (0 < m)%N).
    - rewrite pretty_N_go_step by done. apply IH; [by apply N.div_lt|done].
    - assert (m = 0%N) as -> by lia. by rewrite pretty_N_go_0. }
  unfold numToString. destruct n as [|p|p]; [done| |done].
  change (pretty (Z.pos p)) with (pretty_N_go (N.pos p) "").
  rewrite pretty_N_go_step by done. by apply H.
Qed.

Lemma numToString_length n k :
  0 ≤ n < 10 ^ Z.of_nat (S k) → (String.length (numToString n) <= S k)%nat.
Proof.
  intros Hn. unfold numToString. destruct n as [|p|p]; [simpl; lia| |lia].
  change (pretty (Z.pos p)) with (pretty_N_go (N.pos p) "").
  etrans; [apply (pretty_N_go_length (S k))|simpl; lia].
  apply N2Z.inj_lt. rewrite N2Z.inj_pow, nat_N_Z. lia.
Qed.

(** ** String order *)
Lemma ascii_compare_eq a b : Ascii.compare a b = Eq ↔ a = b.
Proof. split; [apply Ascii.compare_eq_iff|intros ->]. unfold Ascii.compare. apply N.compare_refl. Qed.

Lemma str_compare_refl a : String.compare a a = Eq.
Proof. induction a as [|c a IH]; cbn; [done|]. by rewrite (proj2 (ascii_compare_eq c c) eq_refl). Qed.

Lemma str_compare_lt_trans a b c :
  String.compare a b = Lt → String.compare b c = Lt → String.compare a c = Lt.
Proof.
  revert b c. induction a as [|x a IH]; intros [|y b] [|z c]; cbn; try done.
  unfold Ascii.compare.
  destruct (N.compare_spec (N_of_ascii x) (N_of_ascii y)) as [E1|L1|G1]; try done;
  destruct (N.compare_spec (N_of_ascii y) (N_of_ascii z)) as [E2|L2|G2]; try done;
  destruct (N.compare_spec (N_of_ascii x) (N_of_ascii z)) as [E3|L3|G3]; intros; try done; try lia.
  by eapply IH.
Qed.

Lemma str_lt_irrefl a : str_lt a a = false.
Proof. unfold str_lt, String.ltb. by rewrite str_compare_refl. Qed.

Lemma str_lt_trans a b c : str_lt a b = true → str_lt b c = true → str_lt a c = true.
Proof.
  unfold str_lt, String.ltb. intros H1 H2.
  destruct (String.compare a b) eqn:E1; try discriminate H1.
  destruct (String.compare b c) eqn:E2; try discriminate H2.
  by rewrite (str_compare_lt_trans _ _ _ E1 E2).
Qed.

Lemma str_lt_total a b : str_lt a b = false → str_lt b a = false → a = b.
Proof.
  unfold str_lt, String.ltb. rewrite (String.compare_antisym a b).
  destruct (String.compare b a) eqn:E; cbn; intros ? ?; try discriminate.
  symmetry. by apply String.compare_eq_iff.
Qed.

Lemma str_lt_asym a b : str_lt a b = true → str_lt b a = false.
Proof.
  intros H. destruct (str_lt b a) eqn:E; [|done].
  pose proof (str_lt_trans _ _ _ H E). by rewrite str_lt_irrefl in *.
Qed.

Lemma str_le_spec a b : str_le a b = true ↔ str_lt a b = true ∨ a = b.
Proof.
  unfold str_le. fold (str_lt b a). rewrite negb_true_iff. split.
  - intros H. destruct (str_lt a b) eqn:E; [by left|right]. by apply str_lt_total.
  - intros [H| ->]; [by apply str_lt_asym|apply str_lt_irrefl].
Qed.

Lemma str_le_trans a b c : str_le a b = true → str_le b c = true → str_le a c = true.
Proof. rewrite !str_le_spec. intros [?| ->] [?| ->]; eauto using str_lt_trans. Qed.

Lemma str_le_lt_trans a b c : str_le a b = true → str_lt b c = true → str_lt a c = true.
Proof. rewrite str_le_spec. intros [?| ->]; eauto using str_lt_trans. Qed.

Lemma str_le_false a b : str_le a b = false ↔ str_lt b a = true.
Proof. unfold str_le. fold (str_lt b a). by rewrite negb_false_iff. Qed.

Lemma str_lt_false a b : str_lt a b = false ↔ str_le b a = true.
Proof. unfold str_le. by rewrite negb_true_iff. Qed.

Lemma str_lt_le_false a b : str_lt a b = true → str_le b a = false.
Proof. intros. by apply str_le_false. Qed.

(** ** [Map]: insertion-ordered association list

    [map_set] replaces the value of a present key in place and appends a new
    key at the end, which is the iteration order of [Map.prototype.values]. *)
Abbreviation jsmap V := (list (string * V)) (only parsing).

Section jsmap.
Context {V : Type}.
Implicit Types m : jsmap V.

Fixpoint map_get (k : string) (m : jsmap V) : option V :=
  match m with
  | [] => None
  | (k', v) :: m => if String.eqb k k' then Some v else map_get k m
  end.

Fixpoint map_set (k : string) (v : V) (m : jsmap V) : jsmap V :=
  match m with
  | [] => [(k, v)]
  | (k', v') :: m => if String.eqb k k' then (k, v) :: m else (k', v') :: map_set k v m
  end.

Definition map_delete (k : string) (m : jsmap V) : jsmap V :=
  List.filter (λ e, negb (String.eqb k e.1)) m.

Definition map_has (k : string) (m : jsmap V) : bool :=
  match map_get k m with Some _ => true | None => false end.

Definition map_values (m : jsmap V) : list V := m.*2.

Lemma map_get_set_eq k v m : map_get k (map_set k v m) = Some v.
Proof.
  induction m as [|[k' v'] m IH]; simpl; [by rewrite String.eqb_refl|].
  destruct (String.eqb_spec k k') as [->|Hne]; simpl; [by rewrite String.eqb_refl|].
  by rewrite (proj2 (String.eqb_neq _ _) Hne).
Qed.

Lemma map_get_set_ne k k' v m : k ≠ k' → map_get k' (map_set k v m) = map_get k' m.
Proof.
  intros Hne. induction m as [|[k0 v0] m IH]; simpl.
  - destruct (String.eqb_spec k' k); congruence.
  - destruct (String.eqb_spec k k0) as [->|]; simpl.
    + destruct (String.eqb_spec k' k0); congruence.
    + by rewrite IH.
Qed.

Lemma map_get_set k k' v m :
  map_get k' (map_set k v m) = if decide (k = k') then Some v else map_get k' m.
Proof. case_decide; subst; [apply map_get_set_eq|by apply map_get_set_ne]. Qed.

Lemma map_has_spec k m : map_has k m = true ↔ is_Some (map_get k m).
Proof. unfold map_has. destruct (map_get k m); split; try done; by intros []. Qed.

Lemma map_get_elem k v m : map_get k m = Some v → (k, v) ∈ m.
Proof.
  induction m as [|[k' v'] m IH]; simpl; [done|].
  destruct (String.eqb_spec k k') as [->|]; [intros [= ->]; left|right; auto].
Qed.

Lemma map_get_nodup k v m : NoDup (m.*1) → (k, v) ∈ m → map_get k m = Some v.
Proof.
  induction m as [|[k' v'] m IH]; simpl; [by rewrite elem_of_nil|].
  rewrite NoDup_cons, elem_of_cons. intros [Hni Hnd] [[= -> ->]|Hin].
  - by rewrite String.eqb_refl.
  - destruct (String.eqb_spec k k') as [->|]; [|auto].
    destruct Hni. apply list_elem_of_fmap. by exists (k', v).
Qed.

Lemma map_set_keys k v m :
  (map_set k v m).*1 = if map_has k m then m.*1 else m.*1 ++ [k].
Proof.
  unfold map_has. induction m as [|[k' v'] m IH]; csimpl; [done|].
  destruct (String.eqb_spec k k') as [->|]; csimpl; [done|].
  rewrite IH. by destruct (map_get k m).
Qed.

Lemma map_set_nodup k v m : NoDup (m.*1) → NoDup ((map_set k v m).*1).
Proof.
  intros H. rewrite map_set_keys. destruct (map_has k m) eqn:E; [done|].
  apply NoDup_app. split; [done|]. split; [|apply NoDup_singleton].
  intros x Hx Hk%list_elem_of_singleton. subst. apply list_elem_of_fmap in Hx as ([k' v'] & -> & Hx).
  unfold map_has in E. simpl in *. by rewrite (map_get_nodup _ _ _ H Hx) in E.
Qed.

Lemma map_values_elem v m : v ∈ map_values m ↔ ∃ k, (k, v) ∈ m.
Proof.
  unfold map_values. rewrite list_elem_of_fmap. split.
  - intros ([k v'] & -> & Hin). by exists k.
  - intros [k Hin]. by exists (k, v).
Qed.

Lemma map_set_elem k v k' v' m :
  (k', v') ∈ map_set k v m → (k', v') = (k, v) ∨ (k', v') ∈ m.
Proof.
  induction m as [|[k0 v0] m IH]; simpl; [set_solver|].
  destruct (String.eqb k k0); set_solver.
Qed.
End jsmap.

(** ** [Array.prototype.sort(compare)]

    The sort is stable; for a comparator that is consistent the result is the
    one of insertion sort. *)
Section sort.
Context {A : Type} (compare : A → A → Z).

Fixpoint sort_insert (x : A) (l : list A) : list A :=
  match l with
  | [] => [x]
  | y :: l' => if compare x y <=? 0 then x :: l else y :: sort_insert x l'
  end.

Definition sort_by (l : list A) : list A := foldr sort_insert [] l.

Lemma sort_insert_perm x l : sort_insert x l ≡ₚ x :: l.
Proof.
  induction l as [|y l IH]; cbn; [done|]. destruct (_ <=? _); [done|]. rewrite IH. constructor.
Qed.

Lemma sort_by_perm l : sort_by l ≡ₚ l.
Proof. induction l as [|x l IH]; cbn; [done|]. by rewrite sort_insert_perm, IH. Qed.
End sort.

(** ** [s.padStart(n, c)] for a fill of one character *)
Fixpoint repeat_char (n : nat) (c : ascii) : string :=
  match n with O => EmptyString | S n => String c (repeat_char n c) end.

Definition padStart (s : string) (n : nat) (c : ascii) : string :=
  repeat_char (n - String.length s) c +:+ s.

(** ** Lists of strings: [l.sort()] and [[...new Set(l)]] *)
Definition compareStrings (a b : string) : Z := if str_lt a b then -1 else if str_lt b a then 1 else 0.
Definition sort_strings (l : list string) : list string := sort_by compareStrings l.
Definition unique (l : list string) : list string :=
  foldl (λ seen x, if includes x seen then seen else seen ++ [x]) [] l.

Lemma unique_spec l : NoDup (unique l) ∧ ∀ x, x ∈ unique l ↔ x ∈ l.
Proof.
  unfold unique. assert (∀ seen, NoDup seen → NoDup (foldl (λ seen x, if includes x seen then seen else seen ++ [x]) seen l)
    ∧ ∀ x, x ∈ foldl (λ seen x, if includes x seen then seen else seen ++ [x]) seen l ↔ x ∈ seen ∨ x ∈ l) as H.
  { induction l as [|y l IH]; intros seen Hn; cbn; [set_solver|].
    destruct (includes y seen) eqn:E; [apply includes_spec in E|].
    - destruct (IH _ Hn) as [H1 H2]. split; [done|]. set_solver.
    - assert (y ∉ seen) as Hy by (intros Hy%includes_spec; congruence).
      destruct (IH (seen ++ [y])) as [H1 H2]; [by apply NoDup_app; split; [|split; [set_solver|apply NoDup_singleton]]|].
      split; [done|]. set_solver. }
  destruct (H [] (NoDup_nil_2)) as [H1 H2]. split; [done|]. set_solver.
Qed.

Lemma sort_strings_elem l x : x ∈ sort_strings l ↔ x ∈ l.
Proof. unfold sort_strings. by rewrite sort_by_perm. Qed.

(** [createHash("sha256").update(text).digest("hex")] *)
Class Sha256 := sha256_hex : string → string.

(** ** JavaScript's 32-bit integer operators on numbers that are integers:
    [ToInt32], [^], [Math.imul], [>>> 0], and [toString(16)]. *)

Definition two32 : Z := 4294967296.

Definition toInt32 (z : Z) : Z :=
  let m := z mod two32 in if m <? 2147483648 then m else m - two32.

(** [a ^ b], [Math.imul(a, b)] and [a >>> 0]. *)
Definition bit_xor (a b : Z) : Z := toInt32 (Z.lxor (toInt32 a) (toInt32 b)).
Definition imul (a b : Z) : Z := toInt32 (toInt32 a * toInt32 b).
Definition toUint32 (z : Z) : Z := z mod two32.

Definition hexChar (d : Z) : ascii :=
  ascii_of_N (Z.to_N (if d <? 10 then 48 + d else 87 + d)).

(** [z.toString(16)] of a number of at most [fuel] digits. *)
Fixpoint hexDigits (fuel : nat) (z : Z) (acc : string) : string :=
  match fuel with
  | O => acc
  | S fuel =>
      let acc := String (hexChar (z mod 16)) acc in
      if z <? 16 then acc else hexDigits fuel (z / 16) acc
  end.

(** A 32-bit number has at most eight hexadecimal digits. *)
Definition hexOfUint32 (z : Z) : string := hexDigits 8 z "".

Example hex_example : hexOfUint32 3735928559 = "deadbeef".
Proof. reflexivity. Qed.

Definition is_hex (c : ascii) : bool :=
  let n := N_of_ascii c in (((48 <=? n) && (n <=? 57)) || ((97 <=? n) && (n <=? 102)))%N.

Lemma hexChar_is_hex d : 0 ≤ d < 16 → is_hex (hexChar d) = true.
Proof.
  intros H. rewrite <-(Z2Nat.id d) by lia.
  assert (Z.to_nat d < 16)%nat as Hn by lia. revert Hn. generalize (Z.to_nat d). clear.
  intros n Hn. do 16 (destruct n as [|n]; [done|]). lia.
Qed.

Lemma hexDigits_chars fuel z acc :
  0 ≤ z → all_chars is_hex acc = true → all_chars is_hex (hexDigits fuel z acc) = true.
Proof.
  revert z acc. induction fuel as [|fuel IH]; intros z acc Hz Ha; [done|]. cbn.
  assert (all_chars is_hex (String (hexChar (z mod 16)) acc) = true) as Hs.
  { cbn. rewrite hexChar_is_hex; [done|]. apply Z.mod_pos_bound. lia. }
  destruct (z <? 16); [done|]. apply IH; [|done]. apply Z.div_pos; lia.
Qed.

Lemma hexDigits_length fuel z acc :
  0 ≤ z → z < 16 ^ Z.of_nat fuel →
  (String.length (hexDigits fuel z acc) ≤ fuel + String.length acc)%nat.
Proof.
  revert z acc. induction fuel as [|fuel IH]; intros z acc Hz Hb; [done|]. cbn [hexDigits].
  destruct (z <? 16) eqn:E; [cbn; lia|].
  apply Z.ltb_ge in E. rewrite Nat2Z.inj_succ, Z.pow_succ_r in Hb by lia.
  etransitivity; [apply IH; [apply Z.div_pos; lia|]|cbn; lia].
  apply Z.div_lt_upper_bound; lia.
Qed.

Lemma toUint32_range z : 0 ≤ toUint32 z < two32.
Proof. apply Z.mod_pos_bound. done. Qed.

Lemma toUint32_toInt32 z : toUint32 (toInt32 z) = toUint32 z.
Proof.
  unfold toUint32, toInt32. destruct (_ <? _).
  - by rewrite Z.mod_mod.
  - by rewrite <-Zminus_mod_idemp_r, Z_mod_same_full, Z.sub_0_r, Z.mod_mod.
Qed.

Lemma toUint32_lxor a b : toUint32 (Z.lxor a b) = Z.lxor (toUint32 a) (toUint32 b).
Proof.
  unfold toUint32, two32. change 4294967296 with (2 ^ 32).
  rewrite <-!Z.land_ones by lia. apply Z.bits_inj'. intros n Hn.
  rewrite !Z.land_spec, !Z.lxor_spec, !Z.land_spec.
  by destruct (Z.testbit a n), (Z.testbit b n), (Z.testbit (Z.ones 32) n).
Qed.

Lemma toUint32_bit_xor a b : toUint32 (bit_xor a b) = Z.lxor (toUint32 a) (toUint32 b).
Proof. unfold bit_xor. by rewrite toUint32_toInt32, toUint32_lxor, !toUint32_toInt32. Qed.

Lemma toUint32_imul a b : toUint32 (imul a b) = toUint32 (toUint32 a * b).
Proof.
  unfold imul. rewrite toUint32_toInt32. unfold toUint32 at 1. rewrite Zmult_mod.
  fold (toUint32 (toInt32 a)) (toUint32 (toInt32 b)). rewrite !toUint32_toInt32.
  unfold toUint32. by rewrite Zmult_mod_idemp_r.
Qed.

(** [new TextEncoder().encode(s)] for characters U+0000 to U+00FF. *)
Fixpoint utf8 (s : string) : list Z :=
  match s with
  | EmptyString => []
  | String c s =>
      let n := Z.of_N (N_of_ascii c) in
      if n <? 128 then n :: utf8 s
      else Z.lor 192 (Z.shiftr n 6) :: Z.lor 128 (Z.land n 63) :: utf8 s
  end.
