(* ===== verification/JsDate.v ===== *)
(** ECMAScript dates in UTC: [Date.prototype.toISOString], [Date.parse] on that
    format, [getUTCHours]/[getUTCMinutes], and the two facts the product
    depends on when it keeps timestamps as strings: parsing inverts printing,
    and string order is chronological order.

    A time value is an integer number of milliseconds since the epoch; [None]
    stands for an invalid date ([NaN]).  [Date.parse] is modelled on the
    format [toISOString] produces for the years 0 to 9999; every other string
    reads as invalid. *)
From S2P Require Import Prelude Js.
Local Open Scope Z_scope.

Definition msPerDay : Z := 86400000.
Definition MAX_TIME : Z := 8640000000000000.

(** ** Years, months and days (ECMA-262, "Time Values and Time Range") *)
Definition dayFromYear (y : Z) : Z :=
  365 * (y - 1970) + (y - 1969) / 4 - (y - 1901) / 100 + (y - 1601) / 400.

Definition inLeapYear (y : Z) : bool :=
  (y mod 4 =? 0) && (negb (y mod 100 =? 0) || (y mod 400 =? 0)).

(** Estimate from the mean length of a Gregorian year, then correct by one. *)
Definition yearFromDay (d : Z) : Z :=
  let y := 1970 + d * 400 / 146097 in
  if d <? dayFromYear y then y - 1
  else if dayFromYear (y + 1) <=? d then y + 1
  else y.

(** Days before month [m] (1 to 13) of a year. *)
Definition daysBeforeMonth (leap : bool) (m : Z) : Z :=
  let l := if leap then 1 else 0 in
  if m <=? 1 then 0 else if m =? 2 then 31 else
  (if m =? 3 then 59 else if m =? 4 then 90 else if m =? 5 then 120 else if m =? 6 then 151
   else if m =? 7 then 181 else if m =? 8 then 212 else if m =? 9 then 243 else if m =? 10 then 273
   else if m =? 11 then 304 else if m =? 12 then 334 else 365) + l.

Definition monthFromDay (leap : bool) (n : Z) : Z :=
  let before m := n <? daysBeforeMonth leap m in
  if before 2 then 1 else if before 3 then 2 else if before 4 then 3 else if before 5 then 4
  else if before 6 then 5 else if before 7 then 6 else if before 8 then 7 else if before 9 then 8
  else if before 10 then 9 else if before 11 then 10 else if before 12 then 11 else 12.

Record civil := mkCivil { c_year : Z; c_month : Z; c_day : Z }.

Definition civilFromDay (d : Z) : civil :=
  let y := yearFromDay d in
  let n := d - dayFromYear y in
  let m := monthFromDay (inLeapYear y) n in
  mkCivil y m (n - daysBeforeMonth (inLeapYear y) m + 1).

Definition dayFromCivil (c : civil) : Z :=
  dayFromYear (c_year c) + daysBeforeMonth (inLeapYear (c_year c)) (c_month c) + c_day c - 1.

(** ** Fixed-width decimal numbers *)
Definition digit (d : Z) : ascii := ascii_of_N (48 + Z.to_N d).

Fixpoint pad (k : nat) (n : Z) : string :=
  match k with
  | O => ""
  | S k => String (digit (n / 10 ^ Z.of_nat k)) (pad k (n mod 10 ^ Z.of_nat k))
  end.

Definition digitValue (c : ascii) : option Z :=
  let n := Z.of_N (N_of_ascii c) in
  if (48 <=? n) && (n <=? 57) then Some (n - 48) else None.

Fixpoint parseDigits (k : nat) (acc : Z) (s : string) : option (Z * string) :=
  match k with
  | O => Some (acc, s)
  | S k =>
      match s with
      | String c s => d ← digitValue c; parseDigits k (acc * 10 + d) s
      | EmptyString => None
      end
  end.

Definition parseChar (c : ascii) (s : string) : option string :=
  match s with
  | String c' s => if Ascii.eqb c c' then Some s else None
  | EmptyString => None
  end.

(** ** Printing and parsing *)
Definition hour (t : Z) : Z := (t mod msPerDay) / 3600000.
Definition minute (t : Z) : Z := (t mod msPerDay) / 60000 mod 60.
Definition second (t : Z) : Z := (t mod msPerDay) / 1000 mod 60.
Definition millisecond (t : Z) : Z := t mod 1000.

Definition printTime (t : Z) : string :=
  pad 2 (hour t) +:+ String ":" (pad 2 (minute t) +:+ String ":" (pad 2 (second t) +:+
  String "." (pad 3 (millisecond t) +:+ "Z"))).

Definition printYear (y : Z) : string :=
  if (0 <=? y) && (y <=? 9999) then pad 4 y
  else if y <? 0 then String "-" (pad 6 (- y)) else String "+" (pad 6 y).

(** [toISOString] of a valid date; an invalid one raises [RangeError]. *)
Definition toISOString (t : Z) : string :=
  let c := civilFromDay (t / msPerDay) in
  printYear (c_year c) +:+ String "-" (pad 2 (c_month c) +:+ String "-" (pad 2 (c_day c) +:+
  String "T" (printTime t))).

Definition dateParse (s : string) : option Z :=
  '(y, s) ← parseDigits 4 0 s; s ← parseChar "-" s;
  '(mo, s) ← parseDigits 2 0 s; s ← parseChar "-" s;
  '(d, s) ← parseDigits 2 0 s; s ← parseChar "T" s;
  '(h, s) ← parseDigits 2 0 s; s ← parseChar ":" s;
  '(mi, s) ← parseDigits 2 0 s; s ← parseChar ":" s;
  '(sec, s) ← parseDigits 2 0 s; s ← parseChar "." s;
  '(ms, s) ← parseDigits 3 0 s; s ← parseChar "Z" s;
  if (s === "") && (1 <=? mo) && (mo <=? 12) && (1 <=? d) && (d <=? 31) &&
     ((h <=? 23) || (h =? 24) && (mi =? 0) && (sec =? 0) && (ms =? 0)) &&
     (mi <=? 59) && (sec <=? 59)
  then Some (dayFromCivil (mkCivil y mo d) * msPerDay + h * 3600000 + mi * 60000 + sec * 1000 + ms)
  else None.

(** [new Date(s)] is valid and prints back as [s]. *)
Definition isCanonicalTimestamp (value : string) : bool :=
  match dateParse value with
  | Some t => (Z.abs t <=? MAX_TIME) && (toISOString t === value)
  | None => false
  end.

(** Time values whose year is 0 to 9999. *)
Definition FIRST_MS : Z := dayFromYear 0 * msPerDay.
Definition LAST_MS : Z := dayFromYear 10000 * msPerDay - 1.
Definition fourDigitYear (t : Z) : Prop := FIRST_MS ≤ t ≤ LAST_MS.

Example iso_epoch : toISOString 0 = "1970-01-01T00:00:00.000Z".
Proof. vm_compute. reflexivity. Qed.
Example iso_2024 : toISOString 1709210096789 = "2024-02-29T12:34:56.789Z".
Proof. vm_compute. reflexivity. Qed.
Example iso_neg : toISOString (-62167219200001) = "-000001-12-31T23:59:59.999Z".
Proof. vm_compute. reflexivity. Qed.
Example parse_2024 : dateParse "2024-02-29T12:34:56.789Z" = Some 1709210096789.
Proof. vm_compute. reflexivity. Qed.
Example canon_bad : isCanonicalTimestamp "2023-02-29T12:34:56.789Z" = false.
Proof. vm_compute. reflexivity. Qed.

(** ** Calendar lemmas *)
Lemma dayFromYear_succ y :
  dayFromYear (y + 1) = dayFromYear y + 365 + (if inLeapYear y then 1 else 0).
Proof.
  unfold dayFromYear, inLeapYear.
  destruct (Z.eqb_spec (y mod 4) 0), (Z.eqb_spec (y mod 100) 0), (Z.eqb_spec (y mod 400) 0);
    cbn [andb orb negb]; Z.to_euclidean_division_equations; lia.
Qed.

Lemma dayFromYear_mono a b : a ≤ b → dayFromYear a ≤ dayFromYear b.
Proof. unfold dayFromYear. intros. Z.to_euclidean_division_equations; lia. Qed.

Lemma yearFromDay_spec d :
  dayFromYear (yearFromDay d) ≤ d < dayFromYear (yearFromDay d + 1).
Proof.
  unfold yearFromDay.
  set (y := 1970 + d * 400 / 146097).
  assert (dayFromYear (y - 1) ≤ d < dayFromYear (y + 2)) as [Hlo Hhi].
  { unfold dayFromYear, y. Z.to_euclidean_division_equations; lia. }
  destruct (Z.ltb_spec d (dayFromYear y)); [by rewrite Z.sub_add|].
  destruct (Z.leb_spec (dayFromYear (y + 1)) d); [|lia].
  replace (y + 1 + 1) with (y + 2) by lia. lia.
Qed.

Ltac month_cases :=
  unfold monthFromDay, daysBeforeMonth in *;
  repeat match goal with
  | |- context [if ?b then _ else _] => destruct b eqn:?; try lia
  | H : context [if ?b then _ else _] |- _ => destruct b eqn:?; try lia
  end.

(** Evaluate the month table at the constants a case split has fixed. *)
Ltac eval_month :=
  repeat match goal with
  | |- context [daysBeforeMonth ?l ?m] =>
      let v := eval vm_compute in (daysBeforeMonth l m) in change (daysBeforeMonth l m) with v
  | H : context [daysBeforeMonth ?l ?m] |- _ =>
      let v := eval vm_compute in (daysBeforeMonth l m) in change (daysBeforeMonth l m) with v in H
  end.

Definition yearLength (leap : bool) : Z := if leap then 366 else 365.

Lemma monthFromDay_spec leap n :
  0 ≤ n < yearLength leap →
  let m := monthFromDay leap n in
  1 ≤ m ≤ 12 ∧ 1 ≤ n - daysBeforeMonth leap m + 1 ≤ 31 ∧
  n < daysBeforeMonth leap (m + 1).
Proof.
  intros H. unfold yearLength in H. cbv zeta. unfold monthFromDay.
  repeat match goal with
  | |- context [if ?b then _ else _] =>
      lazymatch b with context [daysBeforeMonth] => destruct b eqn:? end
  end; destruct leap; eval_month; lia.
Qed.

Lemma daysBeforeMonth_mono leap a b :
  a ≤ b → daysBeforeMonth leap a ≤ daysBeforeMonth leap b.
Proof. intros. month_cases. Qed.

Lemma dayOfYear_bounds d :
  let y := yearFromDay d in 0 ≤ d - dayFromYear y < yearLength (inLeapYear y).
Proof.
  cbv zeta. pose proof (yearFromDay_spec d) as H. rewrite dayFromYear_succ in H.
  unfold yearLength. destruct (inLeapYear (yearFromDay d)); lia.
Qed.

Lemma civilFromDay_bounds d :
  1 ≤ c_month (civilFromDay d) ≤ 12 ∧ 1 ≤ c_day (civilFromDay d) ≤ 31.
Proof.
  pose proof (monthFromDay_spec _ _ (dayOfYear_bounds d)) as H.
  unfold civilFromDay. cbv zeta in *. cbn [c_month c_day]. lia.
Qed.

Lemma dayFromCivil_civilFromDay d : dayFromCivil (civilFromDay d) = d.
Proof. unfold dayFromCivil, civilFromDay. cbn [c_year c_month c_day]. lia. Qed.

Lemma civilFromDay_year_bounds t :
  fourDigitYear t → 0 ≤ c_year (civilFromDay (t / msPerDay)) ≤ 9999.
Proof.
  unfold fourDigitYear, FIRST_MS, LAST_MS, msPerDay. cbn [civilFromDay c_year].
  set (d := t / 86400000). intros [Hlo Hhi].
  assert (dayFromYear 0 ≤ d < dayFromYear 10000) as [Hd1 Hd2].
  { unfold d. clear -Hlo Hhi. revert Hlo Hhi. generalize (dayFromYear 0), (dayFromYear 10000).
    intros. Z.to_euclidean_division_equations; lia. }
  pose proof (yearFromDay_spec d) as [H1 H2]. split.
  - destruct (Z.le_gt_cases 0 (yearFromDay d)); [done|].
    pose proof (dayFromYear_mono (yearFromDay d + 1) 0). lia.
  - destruct (Z.le_gt_cases (yearFromDay d) 9999); [done|].
    pose proof (dayFromYear_mono 10000 (yearFromDay d)). lia.
Qed.

(** ** Fixed-width numbers: parsing and order *)
Lemma N_of_digit d : 0 ≤ d ≤ 9 → N_of_ascii (digit d) = (48 + Z.to_N d)%N.
Proof. intros. unfold digit. apply N_ascii_embedding. lia. Qed.

Lemma digitValue_digit d : 0 ≤ d ≤ 9 → digitValue (digit d) = Some d.
Proof.
  intros. unfold digitValue. rewrite N_of_digit by done.
  replace (Z.of_N (48 + Z.to_N d)) with (48 + d) by lia.
  rewrite (proj2 (Z.leb_le 48 (48 + d))), (proj2 (Z.leb_le (48 + d) 57)) by lia.
  cbn [andb]. f_equal. lia.
Qed.

Lemma digit_compare a b : 0 ≤ a ≤ 9 → 0 ≤ b ≤ 9 → Ascii.compare (digit a) (digit b) = (a ?= b).
Proof. intros. unfold Ascii.compare. rewrite !N_of_digit by done. destruct (Z.compare_spec a b), (N.compare_spec (48 + Z.to_N a) (48 + Z.to_N b)); lia || done. Qed.

Lemma pow10_pos k : 0 < 10 ^ Z.of_nat k.
Proof. apply Z.pow_pos_nonneg; lia. Qed.

Lemma pow10_succ k : 10 ^ Z.of_nat (S k) = 10 * 10 ^ Z.of_nat k.
Proof. rewrite Nat2Z.inj_succ, Z.pow_succ_r; lia. Qed.

(** The leading digit and the rest of a [k+1]-digit number. *)
Lemma leading_digit k n :
  0 ≤ n < 10 ^ Z.of_nat (S k) →
  0 ≤ n / 10 ^ Z.of_nat k ≤ 9 ∧ 0 ≤ n mod 10 ^ Z.of_nat k < 10 ^ Z.of_nat k ∧
  n = n / 10 ^ Z.of_nat k * 10 ^ Z.of_nat k + n mod 10 ^ Z.of_nat k.
Proof.
  rewrite pow10_succ. pose proof (pow10_pos k). intros.
  pose proof (Z.div_mod n (10 ^ Z.of_nat k)). pose proof (Z.mod_pos_bound n (10 ^ Z.of_nat k)).
  pose proof (Z.div_lt_upper_bound n (10 ^ Z.of_nat k) 10).
  pose proof (Z.div_pos n (10 ^ Z.of_nat k)). lia.
Qed.

Lemma parseDigits_pad k n acc s :
  0 ≤ n < 10 ^ Z.of_nat k →
  parseDigits k acc (pad k n +:+ s) = Some (acc * 10 ^ Z.of_nat k + n, s).
Proof.
  revert n acc. induction k as [|k IH]; intros n acc Hn.
  - cbn in *. repeat f_equal. lia.
  - destruct (leading_digit k n Hn) as (Hd & Hr & Heq).
    simpl. rewrite digitValue_digit by done. simpl. rewrite IH by done.
    rewrite pow10_succ. do 2 f_equal.
    rewrite Heq at 3. generalize (n / 10 ^ Z.of_nat k), (n mod 10 ^ Z.of_nat k). intros. ring.
Qed.

Lemma compare_pad k a b s t :
  0 ≤ a < 10 ^ Z.of_nat k → 0 ≤ b < 10 ^ Z.of_nat k →
  String.compare (pad k a +:+ s) (pad k b +:+ t) =
    match a ?= b with Eq => String.compare s t | c => c end.
Proof.
  revert a b. induction k as [|k IH]; intros a b Ha Hb.
  - cbn in Ha, Hb. replace a with b by lia. by rewrite Z.compare_refl.
  - destruct (leading_digit k a Ha) as (Hda & Hra & Ea), (leading_digit k b Hb) as (Hdb & Hrb & Eb).
    simpl. rewrite digit_compare, IH by done. clear IH Ha Hb.
    set (p := 10 ^ Z.of_nat k) in *. clearbody p.
    set (qa := a / p) in *. set (qb := b / p) in *. clearbody qa qb.
    destruct (Z.compare_spec qa qb) as [->|L|G].
    + destruct (Z.compare_spec (a mod p) (b mod p)), (Z.compare_spec a b); lia || done.
    + assert (0 ≤ (qb - qa - 1) * p) by nia. destruct (Z.compare_spec a b); lia || done.
    + assert (0 ≤ (qa - qb - 1) * p) by nia. destruct (Z.compare_spec a b); lia || done.
Qed.

Lemma compare_same_char c s t : String.compare (String c s) (String c t) = String.compare s t.
Proof. simpl. by rewrite (proj2 (ascii_compare_eq c c) eq_refl). Qed.

(** ** The clock part of a timestamp *)
Lemma clock_bounds t :
  0 ≤ hour t ≤ 23 ∧ 0 ≤ minute t ≤ 59 ∧ 0 ≤ second t ≤ 59 ∧ 0 ≤ millisecond t ≤ 999 ∧
  t = t / msPerDay * msPerDay + hour t * 3600000 + minute t * 60000 + second t * 1000 + millisecond t.
Proof. unfold hour, minute, second, millisecond, msPerDay. Z.to_euclidean_division_equations; lia. Qed.

(** ** Parsing inverts printing, and string order is time order *)
Lemma printYear_4 y : 0 ≤ y ≤ 9999 → printYear y = pad 4 y.
Proof.
  intros. unfold printYear.
  by rewrite (proj2 (Z.leb_le 0 y)), (proj2 (Z.leb_le y 9999)) by lia.
Qed.

Lemma some_bind {A B} (x : A) (f : A → option B) : (Some x ≫= f) = f x.
Proof. done. Qed.

Lemma parseChar_same c s : parseChar c (String c s) = Some s.
Proof. simpl. by rewrite Ascii.eqb_refl. Qed.

Ltac width_bound := cbn [Z.of_nat Pos.of_succ_nat Pos.succ]; lia.

Lemma dateParse_toISOString t : fourDigitYear t → dateParse (toISOString t) = Some t.
Proof.
  intros Ht. pose proof (civilFromDay_year_bounds t Ht) as Hy.
  destruct (civilFromDay_bounds (t / msPerDay)) as [Hm Hd].
  destruct (clock_bounds t) as (Hh & Hmi & Hs & Hms & Et).
  unfold dateParse, toISOString, printTime. rewrite printYear_4 by done.
  repeat (first [rewrite parseDigits_pad by width_bound | rewrite parseChar_same
                | rewrite some_bind]; rewrite ?Z.mul_0_l, ?Z.add_0_l; cbv beta iota).
  rewrite bool_decide_true by done. rewrite !(proj2 (Z.leb_le _ _)) by lia. cbn [andb orb]. f_equal.
  pose proof (dayFromCivil_civilFromDay (t / msPerDay)) as E.
  destruct (civilFromDay (t / msPerDay)); cbn [c_year c_month c_day] in *. rewrite E. lia.
Qed.

(** Lexicographic combination of two comparisons. *)
Definition lex (c d : comparison) : comparison := match c with Eq => d | c => c end.

Lemma lex_assoc c d e : lex (lex c d) e = lex c (lex d e).
Proof. by destruct c. Qed.

Lemma civilFromDay_compare d e :
  lex (c_year (civilFromDay d) ?= c_year (civilFromDay e))
    (lex (c_month (civilFromDay d) ?= c_month (civilFromDay e))
         (c_day (civilFromDay d) ?= c_day (civilFromDay e))) = (d ?= e).
Proof.
  unfold civilFromDay. cbn [c_year c_month c_day].
  pose proof (yearFromDay_spec d) as Yd. pose proof (yearFromDay_spec e) as Ye.
  destruct (Z.compare_spec (yearFromDay d) (yearFromDay e)) as [E|L|G]; cbn [lex].
  - pose proof (monthFromDay_spec _ _ (dayOfYear_bounds d)) as Md.
    pose proof (monthFromDay_spec _ _ (dayOfYear_bounds e)) as Me.
    cbv zeta in *. rewrite E in *. revert Md Me.
    generalize (monthFromDay (inLeapYear (yearFromDay e)) (d - dayFromYear (yearFromDay e))).
    generalize (monthFromDay (inLeapYear (yearFromDay e)) (e - dayFromYear (yearFromDay e))).
    intros n m Md Me.
    destruct (Z.compare_spec m n) as [->|L|G]; cbn [lex].
    + destruct (Z.compare_spec d e), (Z.compare_spec (d - dayFromYear (yearFromDay e) -
        daysBeforeMonth (inLeapYear (yearFromDay e)) n + 1) (e - dayFromYear (yearFromDay e) -
        daysBeforeMonth (inLeapYear (yearFromDay e)) n + 1)); lia || done.
    + pose proof (daysBeforeMonth_mono (inLeapYear (yearFromDay e)) (m + 1) n).
      destruct (Z.compare_spec d e); lia || done.
    + pose proof (daysBeforeMonth_mono (inLeapYear (yearFromDay e)) (n + 1) m).
      destruct (Z.compare_spec d e); lia || done.
  - pose proof (dayFromYear_mono (yearFromDay d + 1) (yearFromDay e)).
    destruct (Z.compare_spec d e); lia || done.
  - pose proof (dayFromYear_mono (yearFromDay e + 1) (yearFromDay d)).
    destruct (Z.compare_spec d e); lia || done.
Qed.

Lemma clock_compare t u :
  lex (t / msPerDay ?= u / msPerDay)
    (lex (hour t ?= hour u) (lex (minute t ?= minute u)
      (lex (second t ?= second u) (millisecond t ?= millisecond u)))) = (t ?= u).
Proof.
  destruct (clock_bounds t) as (? & ? & ? & ? & Et), (clock_bounds u) as (? & ? & ? & ? & Eu).
  unfold msPerDay in *. revert Et Eu.
  generalize dependent (hour t). generalize dependent (minute t).
  generalize dependent (second t). generalize dependent (millisecond t).
  generalize dependent (hour u). generalize dependent (minute u).
  generalize dependent (second u). generalize dependent (millisecond u).
  generalize (t / 86400000), (u / 86400000). intros.
  repeat match goal with
  | |- context [lex (?a ?= ?b) _] => destruct (Z.compare_spec a b); cbn [lex]
  end;
  repeat match goal with
  | |- context [?a ?= ?b] => destruct (Z.compare_spec a b)
  end; lia || done.
Qed.

Lemma toISOString_compare t u :
  fourDigitYear t → fourDigitYear u →
  String.compare (toISOString t) (toISOString u) = (t ?= u).
Proof.
  intros Ht Hu.
  pose proof (civilFromDay_year_bounds t Ht) as Hyt. pose proof (civilFromDay_year_bounds u Hu) as Hyu.
  destruct (civilFromDay_bounds (t / msPerDay)) as [Hmt Hdt].
  destruct (civilFromDay_bounds (u / msPerDay)) as [Hmu Hdu].
  destruct (clock_bounds t) as (? & ? & ? & ? & _), (clock_bounds u) as (? & ? & ? & ? & _).
  rewrite <-(clock_compare t u), <-civilFromDay_compare, !lex_assoc.
  unfold toISOString, printTime. rewrite !printYear_4 by done.
  repeat first [rewrite compare_pad by width_bound | rewrite compare_same_char].
  rewrite str_compare_refl.
  by destruct (c_year _ ?= _), (c_month _ ?= _), (c_day _ ?= _), (hour t ?= _), (minute t ?= _),
    (second t ?= _), (millisecond t ?= _).
Qed.

Lemma toISOString_lt t u :
  fourDigitYear t → fourDigitYear u → str_lt (toISOString t) (toISOString u) = (t <? u).
Proof. intros. unfold str_lt, String.ltb, Z.ltb. rewrite toISOString_compare by done. by destruct (t ?= u). Qed.

Lemma toISOString_le t u :
  fourDigitYear t → fourDigitYear u → str_le (toISOString t) (toISOString u) = (t <=? u).
Proof. intros. unfold str_le. fold (str_lt (toISOString u) (toISOString t)). rewrite toISOString_lt by done. lia. Qed.

(** The year of a canonical timestamp has four digits. *)
Lemma parseDigits_head k acc s r : (0 < k)%nat → parseDigits k acc s = Some r →
  ∃ c s' d, s = String c s' ∧ digitValue c = Some d.
Proof.
  destruct k as [|k]; [lia|]. intros _. destruct s as [|c s]; simpl; [done|].
  destruct (digitValue c) eqn:E; simpl; [eauto|done].
Qed.

Lemma dateParse_fourDigit t : is_Some (dateParse (toISOString t)) → Z.abs t ≤ MAX_TIME → fourDigitYear t.
Proof.
  intros [u Hu] _. unfold dateParse, toISOString in Hu.
  destruct (parseDigits 4 0 _) as [r|] eqn:E; [|done]. clear Hu.
  apply parseDigits_head in E as (c & s' & d & Es & Ec); [|lia].
  unfold printYear in Es.
  destruct (Z.leb_spec 0 (c_year (civilFromDay (t / msPerDay)))) as [H0|H0]; cbn [andb] in Es.
  - destruct (Z.leb_spec (c_year (civilFromDay (t / msPerDay))) 9999) as [H9|H9].
    + clear -H0 H9. cbn [c_year civilFromDay] in H0, H9.
      pose proof (yearFromDay_spec (t / msPerDay)) as [Hlo Hhi].
      pose proof (dayFromYear_mono 0 (yearFromDay (t / msPerDay)) H0).
      pose proof (dayFromYear_mono (yearFromDay (t / msPerDay) + 1) 10000).
      assert (dayFromYear 0 ≤ t / msPerDay < dayFromYear 10000) as [Ha Hb] by lia.
      revert Ha Hb. unfold fourDigitYear, FIRST_MS, LAST_MS, msPerDay.
      generalize (dayFromYear 0), (dayFromYear 10000). intros.
      Z.to_euclidean_division_equations; lia.
    + rewrite (proj2 (Z.ltb_ge _ _)) in Es by lia. inversion Es; subst. discriminate Ec.
  - rewrite (proj2 (Z.ltb_lt _ _)) in Es by lia. inversion Es; subst. discriminate Ec.
Qed.

(** A string is a canonical timestamp exactly when it prints a valid time. *)
Lemma isCanonicalTimestamp_spec s :
  isCanonicalTimestamp s = true ↔ ∃ t, fourDigitYear t ∧ s = toISOString t.
Proof.
  unfold isCanonicalTimestamp. split.
  - destruct (dateParse s) as [t|] eqn:E; [|done]. intros [Hm Hs]%andb_prop.
    apply bool_decide_eq_true in Hs. exists t. subst. split; [|done].
    apply dateParse_fourDigit; [by rewrite E|lia].
  - intros (t & Ht & ->). rewrite dateParse_toISOString by done.
    apply andb_true_intro. split; [|by apply bool_decide_eq_true].
    unfold fourDigitYear in Ht. revert Ht.
    change FIRST_MS with (-62167219200000). change LAST_MS with 253402300799999.
    unfold MAX_TIME. lia.
Qed.

(** The time value of a canonical timestamp. *)
Lemma isCanonicalTimestamp_inv s :
  isCanonicalTimestamp s = true → ∃ t, fourDigitYear t ∧ s = toISOString t ∧ dateParse s = Some t.
Proof.
  intros (t & Ht & ->)%isCanonicalTimestamp_spec. exists t. by rewrite dateParse_toISOString.
Qed.

#[global] Arguments dateParse : simpl never.
#[global] Arguments toISOString : simpl never.
