(* ===== verification/JsJson.v ===== *)
(** [JSON.stringify] on the plain data the product serializes (strings,
    integers, booleans, [null], arrays and object literals), and the fact that
    makes its output usable as a fingerprint source: it is injective. *)
From S2P Require Import Prelude Js.
Local Open Scope Z_scope.

#[local] Set Warnings "-register-all".
Inductive json :=
  | JNull
  | JBool (b : bool)
  | JNum (n : Z)
  | JStr (s : string)
  | JArr (l : list json)
  | JObj (l : list (string * json)).

Definition hexDigit (n : N) : ascii :=
  if (n <? 10)%N then ascii_of_N (48 + n) else ascii_of_N (87 + n).

Definition DQUOTE : ascii := ascii_of_N 34.
Definition BACKSLASH : ascii := ascii_of_N 92.

(** QuoteJSONString on one code unit below 256. *)
Definition escapeChar (c : ascii) : string :=
  let n := N_of_ascii c in
  if (n =? 34)%N then String BACKSLASH (String DQUOTE "")
  else if (n =? 92)%N then String BACKSLASH (String BACKSLASH "")
  else if (n =? 8)%N then String BACKSLASH "b"
  else if (n =? 9)%N then String BACKSLASH "t"
  else if (n =? 10)%N then String BACKSLASH "n"
  else if (n =? 12)%N then String BACKSLASH "f"
  else if (n =? 13)%N then String BACKSLASH "r"
  else if (n <? 32)%N then
    String BACKSLASH (String "u" (String "0" (String "0"
      (String (hexDigit (n / 16)) (String (hexDigit (n mod 16)) "")))))
  else String c "".

Fixpoint escape (s : string) : string :=
  match s with
  | EmptyString => ""
  | String c s => escapeChar c +:+ escape s
  end.

Definition quote (s : string) : string := String DQUOTE (escape s +:+ String DQUOTE "").

(** The text after the first element of an array or object. *)
Fixpoint stringify (j : json) : string :=
  match j with
  | JNull => "null"
  | JBool b => if b then "true" else "false"
  | JNum n => numToString n
  | JStr s => quote s
  | JArr [] => "[]"
  | JArr (j :: l) =>
      String "[" (stringify j +:+
        (fix rest l := match l with [] => "]" | j :: l => String "," (stringify j +:+ rest l) end) l)
  | JObj [] => "{}"
  | JObj ((k, j) :: l) =>
      String "{" (quote k +:+ String ":" (stringify j +:+
        (fix rest l := match l with
         | [] => "}"
         | (k, j) :: l => String "," (quote k +:+ String ":" (stringify j +:+ rest l))
         end) l))
  end.

Definition JStrs (l : list string) : json := JArr (JStr <$> l).
Definition JOptStr (o : option string) : json := match o with Some s => JStr s | None => JNull end.
Definition JOptNum (o : option Z) : json := match o with Some n => JNum n | None => JNull end.

Example stringify_example :
  stringify (JObj [("a", JArr [JNum (-3); JBool true]); ("b", JOptStr None)]) =
  String "{" (quote "a" +:+ ":[-3,true]," +:+ quote "b" +:+ ":null}").
Proof. reflexivity. Qed.

(** ** Injectivity

    [follows r]: the text after a complete value inside a larger document. *)
Definition follows (r : string) : Prop :=
  match r with
  | EmptyString => True
  | String c _ => c = ","%char ∨ c = "]"%char ∨ c = "}"%char
  end.

(** *** Strings: one escaped character can be read back *)
Definition hexValue (c : ascii) : N :=
  let n := N_of_ascii c in if (n <? 58)%N then n - 48 else n - 87.

Definition unescapeChar (s : string) : option (ascii * string) :=
  match s with
  | String c s =>
      if Ascii.eqb c BACKSLASH then
        match s with
        | String "b" r => Some (ascii_of_N 8, r)
        | String "t" r => Some (ascii_of_N 9, r)
        | String "n" r => Some (ascii_of_N 10, r)
        | String "f" r => Some (ascii_of_N 12, r)
        | String "r" r => Some (ascii_of_N 13, r)
        | String "u" (String _ (String _ (String h (String l r)))) =>
            Some (ascii_of_N (16 * hexValue h + hexValue l), r)
        | String e r => Some (e, r)
        | EmptyString => None
        end
      else Some (c, s)
  | EmptyString => None
  end.

Lemma unescapeChar_escapeChar c r : unescapeChar (escapeChar c +:+ r) = Some (c, r).
Proof. by destruct c as [[] [] [] [] [] [] [] []]. Qed.

Lemma escapeChar_head c r : ∃ d t, escapeChar c +:+ r = String d t ∧ d ≠ DQUOTE.
Proof. destruct c as [[] [] [] [] [] [] [] []]; do 2 eexists; (split; [reflexivity|done]). Qed.

Lemma escape_inj s1 s2 r1 r2 :
  escape s1 +:+ String DQUOTE r1 = escape s2 +:+ String DQUOTE r2 → s1 = s2 ∧ r1 = r2.
Proof.
  revert s2. induction s1 as [|c s1 IH]; intros [|d s2]; simpl; rewrite ?append_assoc.
  - by intros [=].
  - destruct (escapeChar_head d (escape s2 +:+ String DQUOTE r2)) as (e & t & -> & He).
    intros [=]. congruence.
  - destruct (escapeChar_head c (escape s1 +:+ String DQUOTE r1)) as (e & t & -> & He).
    intros [=]. congruence.
  - intros H. apply (f_equal unescapeChar) in H. rewrite !unescapeChar_escapeChar in H.
    injection H as -> H. apply IH in H as [-> ->]. done.
Qed.

Lemma quote_inj s1 s2 r1 r2 : quote s1 +:+ r1 = quote s2 +:+ r2 → s1 = s2 ∧ r1 = r2.
Proof.
  unfold quote. rewrite !append_String, !append_assoc, !append_String. intros [= H].
  by apply escape_inj in H.
Qed.

(** *** Numbers: the digits end at the first other character *)
Lemma follows_not_num r : follows r → r = "" ∨ ∃ c s, r = String c s ∧ is_num_char c = false.
Proof. destruct r as [|c r]; [by left|]. intros [->|[->| ->]]; right; eauto. Qed.

Lemma num_inj n m r1 r2 :
  follows r1 → follows r2 → numToString n +:+ r1 = numToString m +:+ r2 → n = m ∧ r1 = r2.
Proof.
  intros H1%follows_not_num H2%follows_not_num H.
  cut (numToString n = numToString m ∧ r1 = r2); [intros [->%numToString_inj ->]; done|].
  pose proof (numToString_chars n) as Ha. pose proof (numToString_chars m) as Hb.
  revert H Ha Hb. generalize (numToString n), (numToString m). intros a.
  induction a as [|x a IH]; intros [|y b]; rewrite ?append_String; simpl; rewrite ?andb_true_iff.
  - done.
  - destruct H1 as [->|(c & s & -> & Hc)]; intros [=]; subst; naive_solver congruence.
  - destruct H2 as [->|(c & s & -> & Hc)]; intros [=]; subst; naive_solver congruence.
  - intros [= -> E] [_ Ha] [_ Hb]. destruct (IH b E Ha Hb) as [-> ->]. done.
Qed.

(** *** Values are told apart by their first character *)
Definition ctor (j : json) : nat :=
  match j with
  | JNull => 0 | JBool _ => 1 | JNum _ => 2 | JStr _ => 3 | JArr _ => 4 | JObj _ => 5
  end.

Definition headClass (c : ascii) : nat :=
  if is_num_char c then 2
  else if Ascii.eqb c "n" then 0
  else if Ascii.eqb c DQUOTE then 3
  else if Ascii.eqb c "[" then 4
  else if Ascii.eqb c "{" then 5
  else 1.

Fixpoint arrRest (l : list json) : string :=
  match l with [] => "]" | j :: l => String "," (stringify j +:+ arrRest l) end.

Fixpoint objRest (l : list (string * json)) : string :=
  match l with
  | [] => "}"
  | (k, j) :: l => String "," (quote k +:+ String ":" (stringify j +:+ objRest l))
  end.

Lemma stringify_arr j l : stringify (JArr (j :: l)) = String "[" (stringify j +:+ arrRest l).
Proof. done. Qed.

Lemma stringify_obj k j l :
  stringify (JObj ((k, j) :: l)) = String "{" (quote k +:+ String ":" (stringify j +:+ objRest l)).
Proof. done. Qed.

Lemma numToString_head n : ∃ c t, numToString n = String c t ∧ is_num_char c = true.
Proof.
  pose proof (numToString_chars n) as H. destruct (numToString n) as [|c t] eqn:E.
  - assert (n = 0) as -> by (destruct n; [done|..]; exfalso; revert E; by apply numToString_nonempty).
    done.
  - simpl in H. apply andb_prop in H as [H _]. eauto.
Qed.

Lemma stringify_head j r : ∃ c t, stringify j +:+ r = String c t ∧ headClass c = ctor j.
Proof.
  destruct j as [|[]|n|s|[|j l]|[|[k j] l]]; try (do 2 eexists; split; [reflexivity|done]).
  destruct (numToString_head n) as (c & t & E & Hc). simpl. rewrite E, append_String.
  do 2 eexists. split; [done|]. unfold headClass. by rewrite Hc.
Qed.

Lemma stringify_not_bracket j r s : String "]" s ≠ stringify j +:+ r.
Proof.
  destruct (stringify_head j r) as (c & t & E & Hc). rewrite E. intros [= <- _].
  destruct j as [|[]|n|x|l|l]; by inversion E.
Qed.

Lemma same_ctor j1 j2 r1 r2 : stringify j1 +:+ r1 = stringify j2 +:+ r2 → ctor j1 = ctor j2.
Proof.
  destruct (stringify_head j1 r1) as (c & t & -> & <-), (stringify_head j2 r2) as (d & u & -> & <-).
  by intros [= ->].
Qed.

Lemma arrRest_follows l r : follows (arrRest l +:+ r).
Proof. destruct l; simpl; auto. Qed.

Lemma objRest_follows l r : follows (objRest l +:+ r).
Proof. destruct l as [|[]]; simpl; auto. Qed.

(** *** The induction on the value *)
Fixpoint json_size (j : json) : nat :=
  match j with
  | JArr l => S (list_sum (json_size <$> l))
  | JObj l => S (list_sum ((λ e, json_size e.2) <$> l))
  | _ => 1
  end.

Definition prefix_free (j1 : json) : Prop := ∀ j2 r1 r2,
  follows r1 → follows r2 → stringify j1 +:+ r1 = stringify j2 +:+ r2 → j1 = j2 ∧ r1 = r2.

Lemma arrRest_inj l1 l2 r1 r2 :
  Forall prefix_free l1 → arrRest l1 +:+ r1 = arrRest l2 +:+ r2 → l1 = l2 ∧ r1 = r2.
Proof.
  intros Hl. revert l2. induction Hl as [|j l1 Hj _ IH]; intros [|k l2]; simpl;
    rewrite ?append_String, ?append_assoc; intros [= E]; [done|].
  apply Hj in E as [-> E]; [|apply arrRest_follows..]. by destruct (IH _ E) as [-> ->].
Qed.

Lemma objRest_inj l1 l2 r1 r2 :
  Forall (λ e, prefix_free e.2) l1 → objRest l1 +:+ r1 = objRest l2 +:+ r2 → l1 = l2 ∧ r1 = r2.
Proof.
  intros Hl. revert l2. induction Hl as [|[k1 j1] l1 Hj _ IH]; intros [|[k2 j2] l2]; simpl;
    rewrite ?append_String, ?append_assoc, ?append_String, ?append_assoc;
    intros [C E]%String_inv; try discriminate C; [done|].
  apply quote_inj in E as [-> [_ E]%String_inv].
  cbn in Hj. apply Hj in E as [-> E]; [|apply objRest_follows..]. by destruct (IH _ E) as [-> ->].
Qed.

Lemma list_sum_elem {A} (f : A → nat) x l : x ∈ l → (f x <= list_sum (f <$> l))%nat.
Proof. induction 1; csimpl; lia. Qed.

Lemma stringify_prefix_free j : prefix_free j.
Proof.
  induction j as [j IH] using (induction_ltof1 _ json_size). unfold ltof in IH.
  intros j2 r1 r2 F1 F2 E. pose proof (same_ctor _ _ _ _ E) as C.
  destruct j as [|b|n|s|l1|l1], j2 as [|b'|n'|s'|l2|l2]; try discriminate C; clear C.
  - split; [done|]. by apply append_cancel_l in E.
  - destruct b, b'; [|by inversion E|by inversion E|];
      (split; [done|by apply append_cancel_l in E]).
  - by destruct (num_inj _ _ _ _ F1 F2 E) as [-> ->].
  - by destruct (quote_inj _ _ _ _ E) as [-> ->].
  - assert (Forall prefix_free l1) as Hl.
    { apply Forall_forall. intros x Hx. apply IH. simpl. pose proof (list_sum_elem json_size x l1 Hx). lia. }
    destruct l1 as [|x l1], l2 as [|y l2]; rewrite ?stringify_arr in E; revert E; cbn [stringify];
      rewrite ?append_String, ?append_assoc; intros [= E].
    + done.
    + by apply stringify_not_bracket in E.
    + by apply eq_sym, stringify_not_bracket in E.
    + apply Forall_cons in Hl as [Hx Hl]. apply Hx in E as [-> E]; [|apply arrRest_follows..].
      by destruct (arrRest_inj _ _ _ _ Hl E) as [-> ->].
  - assert (Forall (λ e, prefix_free e.2) l1) as Hl.
    { apply Forall_forall. intros x Hx. apply IH. simpl.
      pose proof (list_sum_elem (λ e : string * json, json_size e.2) x l1 Hx). lia. }
    destruct l1 as [|[k1 x] l1], l2 as [|[k2 y] l2]; rewrite ?stringify_obj in E; revert E; cbn [stringify];
      rewrite ?append_String, ?append_assoc, ?append_String, ?append_assoc;
      intros [_ E]%String_inv.
    + split; [done|]. by apply String_inv in E as [_ E].
    + by apply String_inv in E as [C _].
    + by apply String_inv in E as [C _].
    + apply Forall_cons in Hl as [Hx Hl]. apply quote_inj in E as [-> [_ E]%String_inv].
      cbn in Hx. apply Hx in E as [-> E]; [|apply objRest_follows..].
      by destruct (objRest_inj _ _ _ _ Hl E) as [-> ->].
Qed.

Lemma stringify_inj j1 j2 : stringify j1 = stringify j2 → j1 = j2.
Proof.
  intros E. eapply (stringify_prefix_free j1 j2 "" ""); [done|done|]. by rewrite !append_nil_r.
Qed.

(** ** Equations of JSON values *)
#[local] Instance JStr_Inj : Inj (=) (=) JStr.
Proof. intros s s'. congruence. Qed.

Lemma JStrs_inj l l' : JStrs l = JStrs l' → l = l'.
Proof.
  intros H. assert (JStr <$> l = JStr <$> l') as Hm by (unfold JStrs in H; congruence).
  by apply (inj (fmap JStr)) in Hm.
Qed.

Lemma cons_inv {A} (x y : A) l k : x :: l = y :: k → x = y ∧ l = k.
Proof. split; congruence. Qed.

Lemma JStr_inj s s' : JStr s = JStr s' → s = s'.
Proof. congruence. Qed.

Lemma JNum_inj n n' : JNum n = JNum n' → n = n'.
Proof. congruence. Qed.

Lemma JObj_fields l l' : JObj l = JObj l' → l = l'.
Proof. congruence. Qed.

Lemma field_inj (k : string) (j j' : json) : (k, j) = (k, j') → j = j'.
Proof. congruence. Qed.

(** Split an equation of two lists of JSON values into equations of their parts. *)
Ltac json_split := repeat
  match goal with
  | H : _ :: _ = _ :: _ |- _ => apply cons_inv in H as [? H]
  | H : (_, _) = (_, _) |- _ => apply field_inj in H
  | H : JStr _ = JStr _ |- _ => apply JStr_inj in H
  | H : JNum _ = JNum _ |- _ => apply JNum_inj in H
  | H : JStrs _ = JStrs _ |- _ => apply JStrs_inj in H
  | H : JObj _ = JObj _ |- _ => apply JObj_fields in H
  end.
