(* ===== verification/JsParse.v ===== *)
(** [JSON.parse], on texts whose numbers are integers and whose strings are
    8-bit, and the fact the durable adapters rely on: parsing what
    [JSON.stringify] wrote gives the value back. *)
From S2P Require Import Prelude Js JsJson.
Local Open Scope Z_scope.

(** ** Tokens *)
Definition is_json_space (c : ascii) : bool :=
  let n := N_of_ascii c in ((n =? 32) || (n =? 9) || (n =? 10) || (n =? 13))%N.

Fixpoint skip_ws (s : string) : string :=
  match s with
  | String c r => if is_json_space c then skip_ws r else s
  | EmptyString => s
  end.

(** [s] without the prefix [p]. *)
Fixpoint strip (p s : string) : option string :=
  match p, s with
  | EmptyString, _ => Some s
  | String a p, String b s => if Ascii.eqb a b then strip p s else None
  | String _ _, EmptyString => None
  end.

Fixpoint take_digits (s : string) : string * string :=
  match s with
  | String c r => if is_digit c then let '(d, t) := take_digits r in (String c d, t) else ("", s)
  | EmptyString => ("", s)
  end.

Fixpoint digits_value (acc : N) (s : string) : N :=
  match s with
  | EmptyString => acc
  | String c s => digits_value (acc * 10 + (N_of_ascii c - 48))%N s
  end.

(** A number token: no leading zero, and no fraction or exponent after it. *)
Definition ends_number (r : string) : bool :=
  match r with
  | String c _ => negb (Ascii.eqb c "." || Ascii.eqb c "e" || Ascii.eqb c "E")
  | EmptyString => true
  end.

Definition parse_natural (s : string) : option (N * string) :=
  let '(d, r) := take_digits s in
  match d with
  | EmptyString => None
  | String c t =>
      if (Ascii.eqb c "0" && negb (String.eqb t "")) || negb (ends_number r) then None
      else Some (digits_value 0 d, r)
  end.

Definition parse_number (s : string) : option (Z * string) :=
  match s with
  | String c r =>
      if Ascii.eqb c "-" then '(n, r) ← parse_natural r; Some (- Z.of_N n, r)
      else '(n, r) ← parse_natural s; Some (Z.of_N n, r)
  | EmptyString => None
  end.

Definition parse_hex (c : ascii) : option N :=
  let n := N_of_ascii c in
  if ((48 <=? n) && (n <=? 57))%N then Some (n - 48)%N
  else if ((97 <=? n) && (n <=? 102))%N then Some (n - 87)%N
  else if ((65 <=? n) && (n <=? 70))%N then Some (n - 55)%N
  else None.

(** The character after a backslash, other than [u]. *)
Definition unescape (c : ascii) : option ascii :=
  if Ascii.eqb c "b" then Some (ascii_of_N 8)
  else if Ascii.eqb c "t" then Some (ascii_of_N 9)
  else if Ascii.eqb c "n" then Some (ascii_of_N 10)
  else if Ascii.eqb c "f" then Some (ascii_of_N 12)
  else if Ascii.eqb c "r" then Some (ascii_of_N 13)
  else if Ascii.eqb c DQUOTE || Ascii.eqb c BACKSLASH || Ascii.eqb c "/" then Some c
  else None.

Definition cons_char (c : ascii) (p : string * string) : string * string := (String c p.1, p.2).

(** The characters of a string token up to its closing quote. *)
Fixpoint parse_chars (s : string) : option (string * string) :=
  match s with
  | EmptyString => None
  | String c r =>
      if Ascii.eqb c DQUOTE then Some ("", r)
      else if Ascii.eqb c BACKSLASH then
        match r with
        | String e r1 =>
            if Ascii.eqb e "u" then
              match r1 with
              | String a (String b (String h (String l r2))) =>
                  if Ascii.eqb a "0" && Ascii.eqb b "0" then
                    match parse_hex h, parse_hex l with
                    | Some h, Some l => cons_char (ascii_of_N (16 * h + l)) <$> parse_chars r2
                    | _, _ => None
                    end
                  else None
              | _ => None
              end
            else match unescape e with Some d => cons_char d <$> parse_chars r1 | None => None end
        | EmptyString => None
        end
      else if (N_of_ascii c <? 32)%N then None
      else cons_char c <$> parse_chars r
  end.

Definition parse_string (s : string) : option (string * string) :=
  match s with
  | String c r => if Ascii.eqb c DQUOTE then parse_chars r else None
  | EmptyString => None
  end.

(** One given character, after white space. *)
Definition expect (c : ascii) (s : string) : option string :=
  match skip_ws s with
  | String d r => if Ascii.eqb c d then Some r else None
  | EmptyString => None
  end.

Definition parse_keyword (s : string) : option (json * string) :=
  match strip "null" s, strip "true" s, strip "false" s with
  | Some r, _, _ => Some (JNull, r)
  | _, Some r, _ => Some (JBool true, r)
  | _, _, Some r => Some (JBool false, r)
  | _, _, _ => None
  end.

(** ** Values.  A later member replaces an earlier one of the same name. *)
Fixpoint parse_value (fuel : nat) (s : string) : option (json * string) :=
  match fuel with
  | O => None
  | S fuel =>
      match skip_ws s with
      | EmptyString => None
      | String c r as s =>
          if Ascii.eqb c "[" then
            match expect "]" r with
            | Some r => Some (JArr [], r)
            | None => '(l, r) ← parse_items fuel r; Some (JArr l, r)
            end
          else if Ascii.eqb c "{" then
            match expect "}" r with
            | Some r => Some (JObj [], r)
            | None => '(l, r) ← parse_members fuel [] r; Some (JObj l, r)
            end
          else if Ascii.eqb c DQUOTE then '(t, r) ← parse_chars r; Some (JStr t, r)
          else if is_num_char c then '(n, r) ← parse_number s; Some (JNum n, r)
          else parse_keyword s
      end
  end
with parse_items (fuel : nat) (s : string) : option (list json * string) :=
  match fuel with
  | O => None
  | S fuel =>
      '(j, r) ← parse_value fuel s;
      match expect "," r with
      | Some r => '(l, r) ← parse_items fuel r; Some (j :: l, r)
      | None => r ← expect "]" r; Some ([j], r)
      end
  end
with parse_members (fuel : nat) (acc : jsmap json) (s : string) : option (jsmap json * string) :=
  match fuel with
  | O => None
  | S fuel =>
      '(k, r) ← parse_string (skip_ws s);
      r ← expect ":" r;
      '(j, r) ← parse_value fuel r;
      let acc := map_set k j acc in
      match expect "," r with
      | Some r => parse_members fuel acc r
      | None => r ← expect "}" r; Some (acc, r)
      end
  end.

(** [JSON.parse]; a value takes at most two units of fuel per character. *)
Definition JSON_parse (s : string) : option json :=
  match parse_value (S (2 * String.length s)) s with
  | Some (j, r) => if String.eqb (skip_ws r) "" then Some j else None
  | None => None
  end.

Example JSON_parse_example :
  JSON_parse (" { " +:+ quote "a" +:+ " : [ 1 , -20, true ], " +:+ quote "b" +:+ ":null, "
              +:+ quote "a" +:+ ":" +:+ quote "x/y" +:+ "} ") =
  Some (JObj [("a", JStr "x/y"); ("b", JNull)]) ∧
  JSON_parse "[01]" = None ∧ JSON_parse "[1,]" = None ∧ JSON_parse "nul" = None.
Proof. vm_compute. repeat split. Qed.

(** ** Reading back what [JSON.stringify] wrote

    A value of the language has one member per name. *)
Fixpoint json_wf (j : json) : Prop :=
  match j with
  | JArr l => (fix all l := match l with [] => True | j :: l => json_wf j ∧ all l end) l
  | JObj l => NoDup l.*1 ∧ (fix all l := match l with [] => True | (_, j) :: l => json_wf j ∧ all l end) l
  | _ => True
  end.

Lemma json_wf_arr l : json_wf (JArr l) ↔ Forall json_wf l.
Proof.
  induction l as [|j l IH]; [by split|]. rewrite Forall_cons, <-IH. done.
Qed.

Lemma json_wf_obj l : json_wf (JObj l) ↔ NoDup l.*1 ∧ Forall (λ e, json_wf e.2) l.
Proof.
  cbn [json_wf]. assert (∀ l : list (string * json),
    (fix all l := match l with [] => True | (_, j) :: l => json_wf j ∧ all l end) l ↔ Forall (λ e, json_wf e.2) l) as ->;
    [|done].
  clear. induction l as [|[k j] l IH]; [by split|]. rewrite Forall_cons, <-IH. done.
Qed.

(** *** Tokens *)
Lemma strip_app p r : strip p (p +:+ r) = Some r.
Proof. induction p as [|c p IH]; [done|]. rewrite append_String. cbn. by rewrite Ascii.eqb_refl. Qed.

Lemma follows_no_digit r : follows r → take_digits r = ("", r) ∧ ends_number r = true.
Proof. destruct r as [|c r]; [done|]. by intros [->|[->| ->]]. Qed.

Lemma take_digits_app d r : all_chars is_digit d = true → follows r → take_digits (d +:+ r) = (d, r).
Proof.
  intros Hd Hr. induction d as [|c d IH]; [by apply follows_no_digit|].
  cbn in Hd. apply andb_true_iff in Hd as [Hc Hd]. rewrite append_String. cbn. by rewrite Hc, IH.
Qed.

(** *** Numbers *)
Lemma pretty_N_char_spec (x : N) : (x < 10)%N →
  (N_of_ascii (pretty_N_char x) - 48)%N = x ∧ is_digit (pretty_N_char x) = true ∧
  (Ascii.eqb (pretty_N_char x) "0" = true → x = 0%N).
Proof.
  intros Hx. destruct (decide (x ∈ (N.of_nat <$> seq 0 10))) as [Hin|Hni].
  - revert Hin. clear Hx. revert x. apply Forall_forall. repeat constructor; intros [=].
  - exfalso. apply Hni. apply list_elem_of_fmap. exists (N.to_nat x). rewrite N2Nat.id. split; [done|].
    apply elem_of_seq. lia.
Qed.

Lemma digits_value_go (x : N) s : digits_value 0 (pretty_N_go x s) = digits_value x s.
Proof.
  revert s. induction (N.lt_wf_0 x) as [x _ IH]; intros s. destruct (decide (0 < x)%N).
  - rewrite pretty_N_go_step by done. rewrite IH by (by apply N.div_lt). cbn.
    rewrite (proj1 (pretty_N_char_spec _ (N.mod_lt x 10 ltac:(done)))).
    by rewrite N.mul_comm, <-N.Div0.div_mod.
  - assert (x = 0%N) as -> by lia. by rewrite pretty_N_go_0.
Qed.

Lemma pretty_N_go_head (x : N) s : (0 < x)%N → ∃ c t, pretty_N_go x s = String c t ∧ Ascii.eqb c "0" = false.
Proof.
  revert s. induction (N.lt_wf_0 x) as [x _ IH]; intros s Hx. rewrite pretty_N_go_step by done.
  destruct (N.eq_0_gt_0_cases (x / 10)) as [Hd|Hd]; [|apply IH; [by apply N.div_lt|done]].
  rewrite Hd, pretty_N_go_0. do 2 eexists. split; [done|].
  destruct (Ascii.eqb _ "0") eqn:E; [|done]. exfalso.
  apply (pretty_N_char_spec _ (N.mod_lt x 10 ltac:(done))) in E.
  rewrite (N.Div0.div_mod x 10), Hd, E in Hx. done.
Qed.

Lemma parse_natural_pretty (x : N) r : follows r → parse_natural (pretty x +:+ r) = Some (x, r).
Proof.
  intros Hr. unfold parse_natural. rewrite take_digits_app by (done || apply pretty_N_digits).
  destruct (follows_no_digit _ Hr) as [_ He]. rewrite He. destruct (decide (0 < x)%N) as [Hx|Hx].
  - assert (pretty x = pretty_N_go x "") as -> by (unfold pretty, pretty_N; case_decide; [lia|done]).
    destruct (pretty_N_go_head x "" Hx) as (c & t & Hp & Hc). pose proof (digits_value_go x "") as Hv.
    rewrite Hp in Hv |- *. cbn [andb orb negb]. rewrite Hc. cbn [andb orb negb]. by rewrite Hv.
  - assert (x = 0%N) as -> by lia. done.
Qed.

Lemma parse_number_pretty n r : follows r → parse_number (numToString n +:+ r) = Some (n, r).
Proof.
  intros Hr. unfold numToString. destruct n as [|p|p].
  - unfold parse_number. pose proof (parse_natural_pretty 0 r Hr) as H. change (pretty 0) with "0".
    change (pretty 0%N) with "0" in H. cbn [String.append append] in *. by rewrite append_String in *; cbn -[parse_natural]; rewrite H.
  - pose proof (parse_natural_pretty (N.pos p) r Hr) as H. change (pretty (Z.pos p)) with (pretty (N.pos p)).
    destruct (pretty_N_go_head (N.pos p) "" eq_refl) as (c & t & Hp & _).
    assert (is_digit c = true) as Hc.
    { pose proof (pretty_N_digits (N.pos p)) as Hd. change (pretty (N.pos p)) with (pretty_N_go (N.pos p) "") in Hd.
      rewrite Hp in Hd. cbn in Hd. by apply andb_true_iff in Hd as [Hd _]. }
    change (pretty (N.pos p)) with (pretty_N_go (N.pos p) "") in *. rewrite Hp, append_String in *.
    unfold parse_number. destruct (Ascii.eqb_spec c "-") as [->|_]; [done|]. by rewrite H.
  - change (pretty (Z.neg p)) with (String "-" (pretty (N.pos p))). rewrite append_String. unfold parse_number.
    rewrite Ascii.eqb_refl, parse_natural_pretty by done. done.
Qed.

(** *** Strings *)
Lemma parse_chars_char c t : parse_chars (escapeChar c +:+ t) = cons_char c <$> parse_chars t.
Proof. by destruct c as [[] [] [] [] [] [] [] []]. Qed.

Lemma parse_chars_escape s r : parse_chars (escape s +:+ String DQUOTE r) = Some (s, r).
Proof.
  induction s as [|c s IH]; [done|]. cbn [escape]. rewrite append_assoc, parse_chars_char, IH. done.
Qed.

Lemma quote_head s r : quote s +:+ r = String DQUOTE (escape s +:+ String DQUOTE r).
Proof. unfold quote. by rewrite append_String, append_assoc. Qed.

Lemma parse_string_quote s r : parse_string (quote s +:+ r) = Some (s, r).
Proof. rewrite quote_head. cbn. apply parse_chars_escape. Qed.

(** *** The text of a value begins with its own character *)
Lemma json_space_class c : is_json_space c = true → headClass c = 1%nat.
Proof. by destruct c as [[] [] [] [] [] [] [] []]. Qed.

Lemma stringify_skip j r : skip_ws (stringify j +:+ r) = stringify j +:+ r.
Proof.
  destruct (decide (ctor j = 1%nat)) as [Hj|Hj]; [by destruct j as [|[]| | | |]|].
  destruct (stringify_head j r) as (c & t & -> & Hc). cbn. destruct (is_json_space c) eqn:E; [|done].
  apply json_space_class in E. congruence.
Qed.

Lemma expect_here c r : is_json_space c = false → expect c (String c r) = Some r.
Proof. intros Hc. unfold expect. cbn. by rewrite Hc, Ascii.eqb_refl. Qed.

Lemma expect_other c d r : is_json_space d = false → Ascii.eqb c d = false → expect c (String d r) = None.
Proof. intros Hd Hc. unfold expect. cbn. by rewrite Hd, Hc. Qed.

Lemma expect_value c j r : headClass c = 1%nat → Ascii.eqb c "t" = false → Ascii.eqb c "f" = false →
  expect c (stringify j +:+ r) = None.
Proof.
  intros Hc Ht Hf. unfold expect. rewrite stringify_skip. destruct (decide (ctor j = 1%nat)) as [Hj|Hj].
  - destruct j as [|[]| | | |]; try done; cbn -[Ascii.eqb]; by rewrite append_String, ?Ht, ?Hf.
  - destruct (stringify_head j r) as (d & t & -> & Hd). destruct (Ascii.eqb_spec c d) as [->|]; [congruence|done].
Qed.

(** ** Values *)
Definition items_size (l : list json) : nat := S (list_sum ((λ j, (2 * json_size j)%nat) <$> l)).
Definition members_size (l : list (string * json)) : nat := S (list_sum ((λ e, (2 * json_size e.2)%nat) <$> l)).

Definition parses (fuel : nat) : Prop := ∀ j r,
  json_wf j → (2 * json_size j <= fuel)%nat → follows r → parse_value fuel (stringify j +:+ r) = Some (j, r).

Lemma list_sum_cons x l : list_sum (x :: l) = (x + list_sum l)%nat.
Proof. done. Qed.

Lemma items_size_cons j l : items_size (j :: l) = (2 * json_size j + items_size l)%nat.
Proof. unfold items_size. rewrite fmap_cons. rewrite list_sum_cons. lia. Qed.

Lemma members_size_cons k j l : members_size ((k, j) :: l) = (2 * json_size j + members_size l)%nat.
Proof. unfold members_size. rewrite fmap_cons. rewrite list_sum_cons. cbn [snd]. lia. Qed.

Lemma json_size_pos j : (1 <= json_size j)%nat.
Proof. destruct j; cbn; lia. Qed.

Lemma parse_items_stringify fuel : (∀ n, (n < fuel)%nat → parses n) → ∀ j l r,
  Forall json_wf (j :: l) → (items_size (j :: l) <= fuel)%nat →
  parse_items fuel (stringify j +:+ arrRest l +:+ r) = Some (j :: l, r).
Proof.
  induction fuel as [|fuel IH]; intros Hv j l r [Hj Hl]%Forall_cons Hn; [unfold items_size in Hn; lia|].
  pose proof (json_size_pos j) as Hp. rewrite items_size_cons in Hn.
  assert (1 <= items_size l)%nat by (unfold items_size; lia).
  cbn [parse_items]. rewrite Hv by (done || lia || apply arrRest_follows). cbn [mbind option_bind].
  destruct l as [|k l]; cbn [arrRest].
  - rewrite append_String. rewrite expect_other, expect_here by done. done.
  - rewrite append_String, append_assoc, expect_here by done.
    rewrite IH; [done|intros; apply Hv; lia|done|lia].
Qed.

Lemma map_set_fresh {V} k (v : V) m : (k ∉ m.*1) → map_set k v m = m ++ [(k, v)].
Proof.
  induction m as [|[k' v'] m IH]; [done|]. cbn. rewrite not_elem_of_cons. intros [Hk Hm].
  destruct (String.eqb_spec k k') as [->|_]; [done|]. by rewrite IH.
Qed.

Lemma parse_members_stringify fuel : (∀ n, (n < fuel)%nat → parses n) → ∀ k j l acc r,
  NoDup (acc ++ (k, j) :: l).*1 → Forall (λ e, json_wf e.2) ((k, j) :: l) → (members_size ((k, j) :: l) <= fuel)%nat →
  parse_members fuel acc (quote k +:+ String ":" (stringify j +:+ objRest l +:+ r)) = Some (acc ++ (k, j) :: l, r).
Proof.
  induction fuel as [|fuel IH]; intros Hv k j l acc r Hnd [Hj Hl]%Forall_cons Hn; [unfold members_size in Hn; lia|].
  pose proof (json_size_pos j) as Hp. rewrite members_size_cons in Hn.
  assert (1 <= members_size l)%nat by (unfold members_size; lia). cbn [parse_members].
  assert (skip_ws (quote k +:+ String ":" (stringify j +:+ objRest l +:+ r))
          = quote k +:+ String ":" (stringify j +:+ objRest l +:+ r)) as -> by by rewrite quote_head.
  rewrite parse_string_quote. cbn [mbind option_bind]. rewrite expect_here by done. cbn [mbind option_bind].
  rewrite Hv by (done || lia || apply objRest_follows). cbn [mbind option_bind].
  assert (k ∉ acc.*1) as Hk.
  { rewrite fmap_app in Hnd. apply NoDup_app in Hnd as (_ & Hnd & _). intros Hin. apply (Hnd k Hin). by left. }
  rewrite map_set_fresh by done. destruct l as [|[k2 j2] l]; cbn [objRest].
  - rewrite append_String, expect_other, expect_here by done. done.
  - rewrite append_String, !append_assoc, append_String, append_assoc, expect_here by done.
    rewrite IH; [by rewrite <-app_assoc|intros; apply Hv; lia|by rewrite <-app_assoc|done|lia].
Qed.

Lemma num_char_value c : is_num_char c = true →
  Ascii.eqb c "[" = false ∧ Ascii.eqb c "{" = false ∧ Ascii.eqb c DQUOTE = false.
Proof. by destruct c as [[] [] [] [] [] [] [] []]. Qed.

Lemma json_size_arr l : (2 * json_size (JArr l) = S (items_size l))%nat.
Proof.
  unfold items_size. cbn [json_size]. induction l as [|j l IH]; [done|].
  rewrite !fmap_cons, !list_sum_cons. lia.
Qed.

Lemma json_size_obj l : (2 * json_size (JObj l) = S (members_size l))%nat.
Proof.
  unfold members_size. cbn [json_size]. induction l as [|[k j] l IH]; [done|].
  rewrite !fmap_cons, !list_sum_cons. cbn [snd]. lia.
Qed.

Lemma parse_value_number fuel n r : follows r → parse_value (S fuel) (numToString n +:+ r) = Some (JNum n, r).
Proof.
  intros Hr. change (numToString n) with (stringify (JNum n)). cbn [parse_value].
  rewrite stringify_skip. cbn [stringify].
  pose proof (parse_number_pretty n r Hr) as Hp. destruct (numToString_head n) as (c & t & Hc & Hn).
  rewrite Hc, append_String in *. destruct (num_char_value c Hn) as (-> & -> & ->). by rewrite Hn, Hp.
Qed.

Lemma parse_value_array fuel r : parse_value (S fuel) (String "[" r) =
  match expect "]" r with
  | Some r => Some (JArr [], r)
  | None => '(l, r) ← parse_items fuel r; Some (JArr l, r)
  end.
Proof. done. Qed.

Lemma parse_value_object fuel r : parse_value (S fuel) (String "{" r) =
  match expect "}" r with
  | Some r => Some (JObj [], r)
  | None => '(l, r) ← parse_members fuel [] r; Some (JObj l, r)
  end.
Proof. done. Qed.

Lemma parse_value_quoted fuel r : parse_value (S fuel) (String DQUOTE r) = '(t, r) ← parse_chars r; Some (JStr t, r).
Proof. done. Qed.

Lemma parse_value_stringify fuel : parses fuel.
Proof.
  induction (lt_wf fuel) as [fuel _ IH]. intros j r Hwf Hn Hr.
  destruct fuel as [|fuel]; [pose proof (json_size_pos j); lia|].
  destruct j as [|[]|n|s|[|j l]|[|[k j] l]]; try reflexivity.
  - by apply parse_value_number.
  - cbn [stringify]. by rewrite quote_head, parse_value_quoted, parse_chars_escape.
  - rewrite json_size_arr in Hn. apply json_wf_arr in Hwf.
    rewrite stringify_arr, append_String, append_assoc, parse_value_array.
    rewrite expect_value, parse_items_stringify by (done || lia || (intros; apply IH; lia)). done.
  - rewrite json_size_obj in Hn. apply json_wf_obj in Hwf as [Hnd Hl].
    rewrite stringify_obj, append_String, append_assoc, append_String, append_assoc, parse_value_object.
    assert (expect "}" (quote k +:+ String ":" (stringify j +:+ objRest l +:+ r)) = None) as -> by by rewrite quote_head.
    rewrite parse_members_stringify by (done || lia || (intros; apply IH; lia)). done.
Qed.

Lemma arrRest_length l : Forall (λ j, json_size j <= String.length (stringify j))%nat l →
  (list_sum (json_size <$> l) <= String.length (arrRest l))%nat.
Proof.
  induction 1 as [|j l Hj _ IH]; [cbn; lia|]. rewrite fmap_cons, list_sum_cons. cbn [arrRest String.length].
  rewrite length_append. lia.
Qed.

Lemma objRest_length l : Forall (λ e : string * json, json_size e.2 <= String.length (stringify e.2))%nat l →
  (list_sum ((λ e, json_size e.2) <$> l) <= String.length (objRest l))%nat.
Proof.
  induction 1 as [|[k j] l Hj _ IH]; [cbn; lia|]. rewrite fmap_cons, list_sum_cons. cbn [objRest String.length snd] in *.
  rewrite length_append. cbn [String.length]. rewrite length_append. lia.
Qed.

Lemma json_size_length j : (json_size j <= String.length (stringify j))%nat.
Proof.
  induction j as [j IH] using (induction_ltof1 _ json_size). unfold ltof in IH.
  destruct j as [|[]|n|s|l|l]; try (cbn; lia).
  - pose proof (numToString_nonempty n). cbn. destruct (numToString n); [done|cbn; lia].
  - assert (Forall (λ j, json_size j <= String.length (stringify j))%nat l) as Hl.
    { apply Forall_forall. intros x Hx. apply IH. cbn. pose proof (list_sum_elem json_size x l Hx). lia. }
    destruct l as [|j l]; [cbn; lia|]. apply Forall_cons in Hl as [Hj Hl%arrRest_length].
    rewrite stringify_arr. cbn [json_size String.length]. rewrite fmap_cons, list_sum_cons, length_append. lia.
  - assert (Forall (λ e : string * json, json_size e.2 <= String.length (stringify e.2))%nat l) as Hl.
    { apply Forall_forall. intros x Hx. apply IH. cbn.
      pose proof (list_sum_elem (λ e : string * json, json_size e.2) x l Hx). lia. }
    destruct l as [|[k j] l]; [cbn; lia|]. apply Forall_cons in Hl as [Hj Hl%objRest_length].
    rewrite stringify_obj. cbn [json_size String.length snd] in *. rewrite fmap_cons, list_sum_cons, length_append.
    cbn [String.length snd]. rewrite length_append. lia.
Qed.

(** Parsing the text of a value gives the value. *)
Lemma JSON_parse_stringify j : json_wf j → JSON_parse (stringify j) = Some j.
Proof.
  intros Hj. unfold JSON_parse. pose proof (parse_value_stringify (S (2 * String.length (stringify j))) j "" Hj) as H.
  rewrite append_nil_r in H. rewrite H; [done| |done]. pose proof (json_size_length j). lia.
Qed.

Lemma JStrs_wf l : json_wf (JStrs l).
Proof. apply json_wf_arr, Forall_forall. intros j (s & -> & _)%list_elem_of_fmap. done. Qed.
