(* ===== verification/Machine.v ===== *)
(** Status machines: the interface shared by the records of the domain whose
    [transitionX] function looks the requested status up in a table.

    [StatusMachine] states what such a function promises; the lemmas below are
    proved once against it and used by the invariants of every record. *)
From S2P Require Import Prelude.

(** A record [R] with a status [S], moved by [sm_step] with an argument [A]. *)
Class StatusMachine (R S A E : Type) := {
  sm_status : R → S;
  sm_table : S → list S;
  sm_step : R → S → A → result E R;
  sm_step_ok : ∀ r s a r',
    sm_step r s a = Ok r' → s ∈ sm_table (sm_status r) ∧ sm_status r' = s;
}.

Lemma last_cons_default {A} (x d : A) l : List.last (x :: l) d = List.last l x.
Proof. revert x d. induction l as [|y l IH]; intros x d; [done|]. by rewrite (IH y x), <-(IH y d). Qed.

(** ** Paths of a transition table *)
Section table.
Context {S : Type} (table : S → list S).
Implicit Types (s t p : S) (l : list S).

(** The statuses that a sequence of table moves from [s] can visit. *)
Fixpoint table_path s l : Prop :=
  match l with
  | [] => True
  | s' :: l => s' ∈ table s ∧ table_path s' l
  end.

(** If [p] is the only predecessor of [t], a path that ends in [t] visits [p]. *)
Lemma table_path_through `{!EqDecision S} p t s l :
  (∀ s', t ∈ table s' → s' = p) →
  table_path s l → List.last l s = t → s ≠ t → s = p ∨ p ∈ l.
Proof.
  intros Ht. revert s. induction l as [|s1 l IH]; intros s Hp Hl Hn; [done|].
  rewrite last_cons_default in Hl. destruct Hp as [Hin Hp].
  destruct (decide (s1 = t)) as [->|Hn1]; [left; by apply Ht|].
  right. destruct (IH s1) as [->|]; try done; set_solver.
Qed.

(** If every table move lowers a rank, a path is no longer than the rank. *)
Lemma table_path_rank (rank : S → nat) s l :
  (∀ s s', s' ∈ table s → (rank s' < rank s)%nat) →
  table_path s l → (List.length l ≤ rank s)%nat.
Proof.
  intros Hr. revert s. induction l as [|s' l IH]; intros s; cbn; [lia|].
  intros [Hin Hp]. apply Hr in Hin. apply IH in Hp. lia.
Qed.
End table.

Section machine.
Context {R S A E : Type} `{!StatusMachine R S A E}.
Implicit Types (r : R) (s : S).

(** One successful transition, whatever status was requested. *)
Definition sm_next r r' : Prop := ∃ s a, sm_step r s a = Ok r'.

(** A sequence of requests; the first failure ends it. *)
Fixpoint sm_run r (l : list (S * A)) : result E R :=
  match l with
  | [] => Ok r
  | (s, a) :: l => r' ← sm_step r s a; sm_run r' l
  end.

Lemma sm_run_path r l r' :
  sm_run r l = Ok r' →
  table_path sm_table (sm_status r) l.*1 ∧ sm_status r' = List.last l.*1 (sm_status r).
Proof.
  revert r. induction l as [|[s a] l IH]; intros r H; cbn [sm_run] in H.
  { injection H as <-. exact (conj I eq_refl). }
  apply result_bind_Ok in H as (r1 & Hs & H). apply sm_step_ok in Hs as [Hin <-].
  apply IH in H as [Hp Hl]. csimpl. split; [done|].
  rewrite Hl. symmetry. apply last_cons_default.
Qed.

(** A property of one step that is additive holds of a run. *)
Lemma sm_run_count (m : R → Z) (c : S → Z) r l r' :
  (∀ r s a r', sm_step r s a = Ok r' → m r' = (m r + c s)%Z) →
  sm_run r l = Ok r' →
  m r' = (m r + foldr (λ s n, c s + n) 0 l.*1)%Z.
Proof.
  intros Hc. revert r. induction l as [|[s a] l IH]; intros r H; cbn [sm_run] in H.
  { injection H as <-. cbn. lia. }
  apply result_bind_Ok in H as (r1 & Hs & H). apply Hc in Hs. apply IH in H. csimpl. lia.
Qed.

(** A field incremented by every step counts the requests. *)
Lemma sm_run_length (m : R → Z) r l r' :
  (∀ r s a r', sm_step r s a = Ok r' → m r' = (m r + 1)%Z) →
  sm_run r l = Ok r' → m r' = (m r + Z.of_nat (List.length l))%Z.
Proof.
  intros Hm Hr. rewrite (sm_run_count m (λ _, 1%Z) r l r' Hm Hr). f_equal.
  clear. induction l as [|[s a] l IH]; csimpl; [done|]. lia.
Qed.

(** A field incremented by the entries into [s0] counts these entries. *)
Lemma sm_run_entries `{!EqDecision S} (s0 : S) (m : R → Z) r l r' :
  (∀ r s a r', sm_step r s a = Ok r' → m r' = if s === s0 then (m r + 1)%Z else m r) →
  sm_run r l = Ok r' → m r' = (m r + Z.of_nat (count_occ (λ x y, decide (x = y)) l.*1 s0))%Z.
Proof.
  intros Hm Hr. rewrite (sm_run_count m (λ s, if s === s0 then 1%Z else 0%Z) r l r'); [|clear Hr|done].
  - f_equal. clear. induction (l.*1) as [|s l1 IH]; [done|]. cbn [foldr count_occ]. rewrite IH.
    case_bool_decide; destruct (decide _); try done; lia.
  - intros r1 s a r2 Hs. rewrite (Hm _ _ _ _ Hs). case_bool_decide; lia.
Qed.

(** An invariant of the single transitions is an invariant of the runs. *)
Lemma sm_next_invariant (P : R → Prop) r r' :
  (∀ r r', P r → sm_next r r' → P r') → P r → rtc sm_next r r' → P r'.
Proof. intros Hstep HP Hr. induction Hr; eauto. Qed.

(** A record in a status without successors never moves again. *)
Lemma sm_terminal r r' : sm_table (sm_status r) = [] → rtc sm_next r r' → r' = r.
Proof.
  intros Ht Hr. inversion Hr as [|? r1 ? (s & a & Hs) _]; [done|].
  apply sm_step_ok in Hs as [Hin _]. rewrite Ht in Hin. by apply not_elem_of_nil in Hin.
Qed.
End machine.

(** Requests of a machine whose step takes no argument. *)
Definition requests {S} (l : list S) : list (S * unit) := map (λ s, (s, tt)) l.

Lemma requests_fst {S} (l : list S) : (requests l).*1 = l.
Proof. unfold requests. induction l as [|s l IH]; [done|]. csimpl. by f_equal. Qed.

Lemma requests_length {S} (l : list S) : List.length (requests l) = List.length l.
Proof. apply length_map. Qed.
