(* ===== verification/Identifiers.v ===== *)
(** The two error classes of the product: [DomainError]
    (packages/domain/src/errors.ts) and [ApplicationPortError]
    (packages/application/src/ports/common.ts), and the exceptions an
    application service can raise. *)
From S2P Require Import Prelude Js.

(** ** packages/domain/src/errors.ts *)
Inductive DomainErrorCode :=
  | INVALID_IDENTIFIER
  | OWNERSHIP_MISMATCH
  | INVALID_RUN_TRANSITION
  | RUN_ALREADY_TERMINAL
  | AUTHORITY_LEASE_CONFLICT
  | AUTHORITY_LEASE_NOT_HELD
  | AUTHORITY_LEASE_SCOPE_MISMATCH
  | INVALID_STATE_TRANSITION
  | STALE_AUTHORITY_FENCE
  | INVALID_STATE_VALUE.

#[global] Instance DomainErrorCode_eq_dec : EqDecision DomainErrorCode.
Proof. solve_decision. Defined.

Definition DOMAIN_ERROR_CODES (c : DomainErrorCode) : string :=
  match c with
  | INVALID_IDENTIFIER => "DOMAIN_INVALID_IDENTIFIER"
  | OWNERSHIP_MISMATCH => "DOMAIN_OWNERSHIP_MISMATCH"
  | INVALID_RUN_TRANSITION => "DOMAIN_INVALID_RUN_TRANSITION"
  | RUN_ALREADY_TERMINAL => "DOMAIN_RUN_ALREADY_TERMINAL"
  | AUTHORITY_LEASE_CONFLICT => "DOMAIN_AUTHORITY_LEASE_CONFLICT"
  | AUTHORITY_LEASE_NOT_HELD => "DOMAIN_AUTHORITY_LEASE_NOT_HELD"
  | AUTHORITY_LEASE_SCOPE_MISMATCH => "DOMAIN_AUTHORITY_LEASE_SCOPE_MISMATCH"
  | INVALID_STATE_TRANSITION => "DOMAIN_INVALID_STATE_TRANSITION"
  | STALE_AUTHORITY_FENCE => "DOMAIN_STALE_AUTHORITY_FENCE"
  | INVALID_STATE_VALUE => "DOMAIN_INVALID_STATE_VALUE"
  end.

(** [details] is the record's entries in the order of the object literal. *)
Record DomainError := mkDomainError {
  de_code : DomainErrorCode;
  de_message : string;
  de_details : list (string * string);
}.

#[global] Instance DomainError_eq_dec : EqDecision DomainError.
Proof. solve_decision. Defined.

(** ** packages/application/src/ports/common.ts *)
Inductive PortErrorCode :=
  | CONFLICT
  | NOT_FOUND
  | DUPLICATE
  | INVALID_OPERATION
  | NOT_AUTHORITATIVE
  | OPERATION_NOT_INSTALLED
  | PROVIDER_FAILURE
  | HANDLE_REVOKED
  | INJECTED_FAILURE.

#[global] Instance PortErrorCode_eq_dec : EqDecision PortErrorCode.
Proof. solve_decision. Defined.

Definition PORT_ERROR_CODES (c : PortErrorCode) : string :=
  match c with
  | CONFLICT => "PORT_CONFLICT"
  | NOT_FOUND => "PORT_NOT_FOUND"
  | DUPLICATE => "PORT_DUPLICATE"
  | INVALID_OPERATION => "PORT_INVALID_OPERATION"
  | NOT_AUTHORITATIVE => "PORT_NOT_AUTHORITATIVE"
  | OPERATION_NOT_INSTALLED => "PORT_OPERATION_NOT_INSTALLED"
  | PROVIDER_FAILURE => "PORT_PROVIDER_FAILURE"
  | HANDLE_REVOKED => "PORT_HANDLE_REVOKED"
  | INJECTED_FAILURE => "PORT_INJECTED_FAILURE"
  end.

Record ApplicationPortError := mkPortError {
  pe_code : PortErrorCode;
  pe_message : string;
  pe_details : list (string * string);
}.

#[global] Instance ApplicationPortError_eq_dec : EqDecision ApplicationPortError.
Proof. solve_decision. Defined.

(** Anything an application service can throw: one of the two classes above,
    or an exception of the runtime or of an adapter ([TypeError], ...). *)
Inductive exn :=
  | PortError (e : ApplicationPortError)
  | DomainErr (e : DomainError)
  | OtherError (name message : string).

#[global] Instance exn_eq_dec : EqDecision exn.
Proof. solve_decision. Defined.

(** [throw new ApplicationPortError(code, message, details)] *)
Definition portError (c : PortErrorCode) (message : string) (details : list (string * string)) : exn :=
  PortError (mkPortError c message details).

(** [throw new TypeError(message)] *)
Definition typeError (message : string) : exn := OtherError "TypeError" message.

(** [error instanceof ApplicationPortError && error.code === CONFLICT] *)
Definition is_conflict (x : exn) : bool :=
  match x with
  | PortError e => pe_code e === CONFLICT
  | _ => false
  end.

(** ** packages/domain/src/identifiers.ts: machine identifiers and their
    constructors.  A branded [Identifier<Kind>] is a string at run time, so
    each brand is an alias of [string]; the constructors are the only checked
    way into a brand. *)

Abbreviation OwnerId := string (only parsing).
Abbreviation AgentId := string (only parsing).
Abbreviation ThreadId := string (only parsing).
Abbreviation SessionId := string (only parsing).
Abbreviation RunId := string (only parsing).
Abbreviation TurnId := string (only parsing).
Abbreviation TriggerId := string (only parsing).
Abbreviation IdempotencyKey := string (only parsing).
Abbreviation AuthorityLeaseId := string (only parsing).
Abbreviation AuthorityHolderId := string (only parsing).
Abbreviation DeploymentId := string (only parsing).
Abbreviation MessageId := string (only parsing).
Abbreviation CheckpointJobId := string (only parsing).
Abbreviation MemoryGenerationId := string (only parsing).
Abbreviation MemoryId := string (only parsing).
Abbreviation DeviceId := string (only parsing).
Abbreviation JobId := string (only parsing).
Abbreviation OccurrenceId := string (only parsing).
Abbreviation GitHubReceiptId := string (only parsing).
Abbreviation CoverageGapId := string (only parsing).
Abbreviation BackupId := string (only parsing).
Abbreviation TransferId := string (only parsing).
Abbreviation HealthSnapshotId := string (only parsing).

(** Character classes of [/^[A-Za-z0-9][A-Za-z0-9._:-]{0,127}$/]. *)
Definition between (lo hi c : Ascii.ascii) : bool :=
  (Ascii.N_of_ascii lo <=? Ascii.N_of_ascii c)%N && (Ascii.N_of_ascii c <=? Ascii.N_of_ascii hi)%N.

Definition is_alnum (c : Ascii.ascii) : bool :=
  between "A"%char "Z"%char c || between "a"%char "z"%char c || between "0"%char "9"%char c.

Definition is_machine_char (c : Ascii.ascii) : bool :=
  is_alnum c || includes c ["."%char; "_"%char; ":"%char; "-"%char].

(** [MACHINE_IDENTIFIER_PATTERN.test(value)]: one alphanumeric character, then
    at most 127 machine characters up to the end of the input. *)
Definition MACHINE_IDENTIFIER_PATTERN (value : string) : bool :=
  match value with
  | EmptyString => false
  | String c rest => is_alnum c && all_chars is_machine_char rest && (String.length rest <=? 127)%nat
  end.

Definition createIdentifier (value kind : string) : result DomainError string :=
  throw_if (negb (MACHINE_IDENTIFIER_PATTERN value))
    (mkDomainError INVALID_IDENTIFIER
       (kind +:+ " must be a 1-128 character machine identifier")
       [("kind", kind); ("value", value)]) ;;
  Ok value.

Definition createOwnerId (value : string) : result DomainError string := createIdentifier value "OwnerId".
Definition createAgentId (value : string) : result DomainError string := createIdentifier value "AgentId".
Definition createThreadId (value : string) : result DomainError string := createIdentifier value "ThreadId".
Definition createSessionId (value : string) : result DomainError string := createIdentifier value "SessionId".
Definition createRunId (value : string) : result DomainError string := createIdentifier value "RunId".
Definition createTurnId (value : string) : result DomainError string := createIdentifier value "TurnId".
Definition createTriggerId (value : string) : result DomainError string := createIdentifier value "TriggerId".
Definition createIdempotencyKey (value : string) : result DomainError string := createIdentifier value "IdempotencyKey".
Definition createAuthorityLeaseId (value : string) : result DomainError string := createIdentifier value "AuthorityLeaseId".
Definition createAuthorityHolderId (value : string) : result DomainError string := createIdentifier value "AuthorityHolderId".
Definition createDeploymentId (value : string) : result DomainError string := createIdentifier value "DeploymentId".
Definition createMessageId (value : string) : result DomainError string := createIdentifier value "MessageId".
Definition createCheckpointJobId (value : string) : result DomainError string := createIdentifier value "CheckpointJobId".
Definition createMemoryGenerationId (value : string) : result DomainError string := createIdentifier value "MemoryGenerationId".
Definition createMemoryId (value : string) : result DomainError string := createIdentifier value "MemoryId".
Definition createDeviceId (value : string) : result DomainError string := createIdentifier value "DeviceId".
Definition createJobId (value : string) : result DomainError string := createIdentifier value "JobId".
Definition createOccurrenceId (value : string) : result DomainError string := createIdentifier value "OccurrenceId".
Definition createGitHubReceiptId (value : string) : result DomainError string := createIdentifier value "GitHubReceiptId".
Definition createCoverageGapId (value : string) : result DomainError string := createIdentifier value "CoverageGapId".
Definition createBackupId (value : string) : result DomainError string := createIdentifier value "BackupId".
Definition createTransferId (value : string) : result DomainError string := createIdentifier value "TransferId".
Definition createHealthSnapshotId (value : string) : result DomainError string := createIdentifier value "HealthSnapshotId".
Definition createSuggestionId (value : string) : result DomainError string := createIdentifier value "SuggestionId".
Definition createReflectionId (value : string) : result DomainError string := createIdentifier value "ReflectionId".
Definition createDelegationId (value : string) : result DomainError string := createIdentifier value "DelegationId".
Definition createWorkerRunId (value : string) : result DomainError string := createIdentifier value "WorkerRunId".
Definition createImprovementId (value : string) : result DomainError string := createIdentifier value "ImprovementId".
Definition createRunExecutionLeaseId (value : string) : result DomainError string := createIdentifier value "RunExecutionLeaseId".

(** *** Properties of identifiers *)
Lemma createIdentifier_Ok value kind v :
  createIdentifier value kind = Ok v ↔ v = value ∧ MACHINE_IDENTIFIER_PATTERN value = true.
Proof.
  unfold createIdentifier. rewrite throw_if_bind.
  destruct (MACHINE_IDENTIFIER_PATTERN value); cbn; naive_solver.
Qed.
