(* ===== verification/Entities.v ===== *)
(** packages/domain/src/entities.ts, run-state.ts and authority.ts: the Owner,
    Agent, Thread, Session, Trigger, Run, Turn graph with its ownership
    checks, the Run state machine, and the logical authority slot of an Agent. *)
From S2P Require Import Prelude Identifiers Machine.

(** ** entities.ts *)
Record Owner := mkOwner { owner_id : OwnerId }.

Record Agent := mkAgent { agent_id : AgentId; agent_ownerId : OwnerId }.

Record Thread := mkThread {
  thread_id : ThreadId; thread_ownerId : OwnerId; thread_agentId : AgentId }.

Record Session := mkSession {
  session_id : SessionId; session_ownerId : OwnerId; session_agentId : AgentId;
  session_threadId : option ThreadId }.

Record Trigger := mkTrigger {
  trigger_id : TriggerId; trigger_idempotencyKey : IdempotencyKey;
  trigger_ownerId : OwnerId; trigger_agentId : AgentId;
  trigger_threadId : option ThreadId }.

(** ** run-state.ts: statuses and the Run record *)
Inductive RunStatus :=
  | accepted
  | building_context
  | running
  | awaiting_approval
  | reconciling_external_result
  | completed
  | failed
  | cancelled.

#[global] Instance RunStatus_eq_dec : EqDecision RunStatus.
Proof. solve_decision. Defined.

Definition RUN_STATUSES : list RunStatus :=
  [accepted; building_context; running; awaiting_approval; reconciling_external_result;
   completed; failed; cancelled].

Definition run_status_string (s : RunStatus) : string :=
  match s with
  | accepted => "accepted"
  | building_context => "building_context"
  | running => "running"
  | awaiting_approval => "awaiting_approval"
  | reconciling_external_result => "reconciling_external_result"
  | completed => "completed"
  | failed => "failed"
  | cancelled => "cancelled"
  end.

Record Run := mkRun {
  run_id : RunId; run_ownerId : OwnerId; run_agentId : AgentId; run_sessionId : SessionId;
  run_triggerId : TriggerId; run_threadId : option ThreadId; run_status : RunStatus }.

#[global] Instance eta_Run : Eta Run := λ r,
  mkRun (run_id r) (run_ownerId r) (run_agentId r) (run_sessionId r) (run_triggerId r)
    (run_threadId r) (run_status r).

Record Turn := mkTurn {
  turn_id : TurnId; turn_ownerId : OwnerId; turn_agentId : AgentId;
  turn_sessionId : SessionId; turn_runId : RunId; turn_threadId : option ThreadId }.

(** ** entities.ts: constructors *)
Definition assertThreadOwnership (agent : Agent) (thread : Thread) (operation : string)
    : result DomainError unit :=
  throw_if
    (thread_ownerId thread !== agent_ownerId agent || thread_agentId thread !== agent_id agent)
    (mkDomainError OWNERSHIP_MISMATCH
       (operation +:+ " requires Thread and Agent ownership to match")
       [("operation", operation);
        ("agentId", agent_id agent);
        ("agentOwnerId", agent_ownerId agent);
        ("threadId", thread_id thread);
        ("threadAgentId", thread_agentId thread);
        ("threadOwnerId", thread_ownerId thread)]).

Definition createOwner (id : OwnerId) : Owner := mkOwner id.

Definition createAgent (id : AgentId) (owner : Owner) : Agent := mkAgent id (owner_id owner).

Definition createThread (id : ThreadId) (agent : Agent) : Thread :=
  mkThread id (agent_ownerId agent) (agent_id agent).

(** [if (input.thread) assertThreadOwnership(...)] *)
Definition assertOptionalThread (agent : Agent) (thread : option Thread) (operation : string)
    : result DomainError unit :=
  match thread with
  | Some t => assertThreadOwnership agent t operation
  | None => Ok tt
  end.

Definition createSession (id : SessionId) (agent : Agent) (thread : option Thread)
    : result DomainError Session :=
  assertOptionalThread agent thread "createSession" ;;
  Ok (mkSession id (agent_ownerId agent) (agent_id agent) (thread_id <$> thread)).

Definition createTrigger (id : TriggerId) (idempotencyKey : IdempotencyKey) (agent : Agent)
    (thread : option Thread) : result DomainError Trigger :=
  assertOptionalThread agent thread "createTrigger" ;;
  Ok (mkTrigger id idempotencyKey (agent_ownerId agent) (agent_id agent) (thread_id <$> thread)).

Definition createTurn (id : TurnId) (run : Run) : Turn :=
  mkTurn id (run_ownerId run) (run_agentId run) (run_sessionId run) (run_id run)
    (truthy (run_threadId run)).

(** ** run-state.ts: creation and transitions *)
Definition TERMINAL_RUN_STATUSES : list RunStatus := [completed; failed; cancelled].

Definition ALLOWED_TRANSITIONS (s : RunStatus) : list RunStatus :=
  match s with
  | accepted => [building_context; reconciling_external_result; failed; cancelled]
  | building_context => [running; reconciling_external_result; failed; cancelled]
  | running => [awaiting_approval; reconciling_external_result; completed; failed; cancelled]
  | awaiting_approval => [running; failed; cancelled]
  | reconciling_external_result => [completed; failed; cancelled]
  | completed => []
  | failed => []
  | cancelled => []
  end.

Definition assertRunOwnership (session : Session) (trigger : Trigger) : result DomainError unit :=
  let triggerThreadConflicts :=
    trigger_threadId trigger !== None && trigger_threadId trigger !== session_threadId session in
  throw_if
    (trigger_ownerId trigger !== session_ownerId session
     || trigger_agentId trigger !== session_agentId session
     || triggerThreadConflicts)
    (mkDomainError OWNERSHIP_MISMATCH
       "createRun requires Session and Trigger ownership to match"
       [("sessionId", session_id session);
        ("sessionAgentId", session_agentId session);
        ("sessionOwnerId", session_ownerId session);
        ("sessionThreadId", or_else (session_threadId session) "");
        ("triggerId", trigger_id trigger);
        ("triggerAgentId", trigger_agentId trigger);
        ("triggerOwnerId", trigger_ownerId trigger);
        ("triggerThreadId", or_else (trigger_threadId trigger) "")]).

Definition createRun (id : RunId) (session : Session) (trigger : Trigger)
    : result DomainError Run :=
  assertRunOwnership session trigger ;;
  Ok (mkRun id (session_ownerId session) (session_agentId session) (session_id session)
        (trigger_id trigger) (truthy (session_threadId session)) accepted).

Definition run_error_details (run : Run) (next : RunStatus) : list (string * string) :=
  [("runId", run_id run); ("currentStatus", run_status_string (run_status run));
   ("requestedStatus", run_status_string next)].

Definition transitionRun (run : Run) (next : RunStatus) : result DomainError Run :=
  throw_if (includes (run_status run) TERMINAL_RUN_STATUSES)
    (mkDomainError RUN_ALREADY_TERMINAL
       ("Run " +:+ run_id run +:+ " is already terminal in " +:+ run_status_string (run_status run))
       (run_error_details run next)) ;;
  throw_if (negb (includes next (ALLOWED_TRANSITIONS (run_status run))))
    (mkDomainError INVALID_RUN_TRANSITION
       ("Run " +:+ run_id run +:+ " cannot transition from " +:+
        run_status_string (run_status run) +:+ " to " +:+ run_status_string next)
       (run_error_details run next)) ;;
  Ok (run <| run_status := next |>).

(** ** authority.ts: the logical authority slot of an Agent *)
Record AgentAuthorityLease := mkLease {
  lease_id : AuthorityLeaseId; lease_agentId : AgentId; lease_ownerId : OwnerId;
  lease_holderId : AuthorityHolderId }.

#[global] Instance AgentAuthorityLease_eq_dec : EqDecision AgentAuthorityLease.
Proof. solve_decision. Defined.

Definition createAgentAuthorityLease (id : AuthorityLeaseId) (agent : Agent)
    (holderId : AuthorityHolderId) : AgentAuthorityLease :=
  mkLease id (agent_id agent) (agent_ownerId agent) holderId.

Definition claimAgentAuthority (current : option AgentAuthorityLease)
    (requested : AgentAuthorityLease) : result DomainError AgentAuthorityLease :=
  match current with
  | None => Ok requested
  | Some current =>
      throw_if
        (lease_agentId current !== lease_agentId requested
         || lease_ownerId current !== lease_ownerId requested)
        (mkDomainError AUTHORITY_LEASE_SCOPE_MISMATCH
           "An Agent authority slot cannot contain a lease for another Agent"
           [("currentAgentId", lease_agentId current);
            ("requestedAgentId", lease_agentId requested)]) ;;
      if (lease_id current === lease_id requested)
         && (lease_holderId current === lease_holderId requested)
      then Ok current
      else Err (mkDomainError AUTHORITY_LEASE_CONFLICT
             ("Agent " +:+ lease_agentId current +:+
              " already has an active logical authority lease")
             [("agentId", lease_agentId current);
              ("currentLeaseId", lease_id current);
              ("currentHolderId", lease_holderId current);
              ("requestedLeaseId", lease_id requested);
              ("requestedHolderId", lease_holderId requested)])
  end.

Definition releaseAgentAuthority (current : option AgentAuthorityLease)
    (leaseId : AuthorityLeaseId) : result DomainError (option AgentAuthorityLease) :=
  throw_if
    (match current with None => true | Some c => lease_id c !== leaseId end)
    (mkDomainError AUTHORITY_LEASE_NOT_HELD
       ("Authority lease " +:+ leaseId +:+ " is not currently held")
       [("leaseId", leaseId); ("currentLeaseId", or_else (lease_id <$> current) "")]) ;;
  Ok None.

(** ** The Run as a status machine *)
Lemma transitionRun_Ok r s r' :
  transitionRun r s = Ok r' ↔ s ∈ ALLOWED_TRANSITIONS (run_status r) ∧ r' = r <| run_status := s |>.
Proof.
  unfold transitionRun. rewrite !throw_if_bind.
  destruct (includes (run_status r) _) eqn:Ht.
  - apply includes_spec in Ht. split; [done|]. intros [Hin _]. exfalso. revert Ht Hin.
    destruct (run_status r); cbn; set_solver.
  - destruct (includes s _) eqn:Hs; cbn; rewrite <-includes_spec, Hs; naive_solver.
Qed.

#[global] Program Instance run_machine : StatusMachine Run RunStatus unit DomainError :=
  {| sm_status := run_status; sm_table := ALLOWED_TRANSITIONS;
     sm_step := λ r s _, transitionRun r s |}.
Next Obligation. cbn. intros r s _ r' H. by apply transitionRun_Ok in H as [? ->]. Qed.

Lemma run_status_rest r r' :
  run_id r' = run_id r → run_ownerId r' = run_ownerId r → run_agentId r' = run_agentId r →
  run_sessionId r' = run_sessionId r → run_triggerId r' = run_triggerId r →
  run_threadId r' = run_threadId r → r' = r <| run_status := run_status r' |>.
Proof. destruct r, r'. cbn. by intros -> -> -> -> -> ->. Qed.

(** The only moves back are between [running] and [awaiting_approval]. *)
Definition run_phase (s : RunStatus) : nat :=
  match s with
  | accepted => 0
  | building_context => 1
  | running | awaiting_approval => 2
  | reconciling_external_result => 3
  | completed | failed | cancelled => 4
  end.

Lemma run_phase_step s s' :
  s' ∈ ALLOWED_TRANSITIONS s → (run_phase s ≤ run_phase s')%nat ∧
  (run_phase s = run_phase s' → (s = running ∧ s' = awaiting_approval) ∨
                                (s = awaiting_approval ∧ s' = running)).
Proof. destruct s; cbn; rewrite ?elem_of_cons, ?elem_of_nil; intros; destruct_or?; subst; cbn; naive_solver lia. Qed.

Lemma run_steps_phase r r' :
  rtc sm_next r r' →
  (run_phase (run_status r) ≤ run_phase (run_status r'))%nat ∧
  r' = r <| run_status := run_status r' |>.
Proof.
  induction 1 as [r|r r1 r' (s & [] & Hs) _ [IHp IHr]].
  - split; [lia|]. by destruct r.
  - cbn in Hs. apply transitionRun_Ok in Hs as [Hin ->]. apply run_phase_step in Hin as [Hin _].
    cbn in *. split; [lia|]. rewrite IHr. by destruct r.
Qed.

(** ** Ownership checks *)
Lemma assertThreadOwnership_Ok agent thread op u :
  assertThreadOwnership agent thread op = Ok u ↔
  thread_ownerId thread = agent_ownerId agent ∧ thread_agentId thread = agent_id agent.
Proof.
  unfold assertThreadOwnership. rewrite throw_if_Ok, orb_false_iff, !negb_false_iff, !bool_decide_eq_true.
  done.
Qed.

Lemma createRun_Ok id session trigger run :
  createRun id session trigger = Ok run ↔
  trigger_ownerId trigger = session_ownerId session ∧
  trigger_agentId trigger = session_agentId session ∧
  (trigger_threadId trigger = None ∨ trigger_threadId trigger = session_threadId session) ∧
  run = mkRun id (session_ownerId session) (session_agentId session) (session_id session)
          (trigger_id trigger) (truthy (session_threadId session)) accepted.
Proof.
  unfold createRun, assertRunOwnership. rewrite throw_if_bind.
  repeat case_bool_decide; cbn; naive_solver.
Qed.

(** ** Properties *)

(** A Run advances: along any transitions its phase never decreases (the
    only revisited statuses are [running] and [awaiting_approval]), everything
    but its status is immutable, and a terminal Run never changes again; a
    transition is granted exactly when the table allows it, and a refused one
    says whether the Run was already terminal. *)
Theorem run_lifecycle r r' s :
  rtc sm_next r r' →
  (run_phase (run_status r) ≤ run_phase (run_status r'))%nat ∧
  r' = r <| run_status := run_status r' |> ∧
  (run_status r ∈ TERMINAL_RUN_STATUSES → r' = r) ∧
  match transitionRun r' s with
  | Ok r'' => s ∈ ALLOWED_TRANSITIONS (run_status r') ∧ r'' = r' <| run_status := s |>
  | Err x => (s ∉ ALLOWED_TRANSITIONS (run_status r')) ∧
             de_code x = (if includes (run_status r') TERMINAL_RUN_STATUSES
                          then RUN_ALREADY_TERMINAL else INVALID_RUN_TRANSITION)
  end.
Proof.
  intros Hr. destruct (run_steps_phase _ _ Hr) as [Hp Hf]. split; [done|]. split; [done|]. split.
  - intros Ht. apply (sm_terminal r r'); [|done]. cbn.
    destruct (run_status r); cbn in *; set_solver.
  - destruct (transitionRun r' s) as [r''|x] eqn:E; [by apply transitionRun_Ok in E|]. split.
    + intros Hin. assert (transitionRun r' s = Ok (r' <| run_status := s |>)) as E'
        by (by apply transitionRun_Ok). congruence.
    + unfold transitionRun in E. rewrite !throw_if_bind in E.
      destruct (includes (run_status r') _); [by injection E as <-|].
      destruct (negb _); [by injection E as <-|done].
Qed.

Lemma run_lifecycle_witness :
  let r := mkRun "r" "o" "a" "s" "t" None accepted in
  let r' := mkRun "r" "o" "a" "s" "t" None failed in
  (run_phase (run_status r) ≤ run_phase (run_status r'))%nat.
Proof.
  intros r r'. refine (proj1 (run_lifecycle r r' running _)).
  apply rtc_once. exists failed, tt. reflexivity.
Defined.

(** Ownership is transitive by construction: a Turn of a Run of a Session
    and a Trigger that could be created belongs to the Owner and Agent of the
    Session and of the Trigger, and to the Session's Thread; a Session with a
    Thread has that Thread's Owner and Agent; a Trigger that names a Thread
    can only start a Run in a Session of the same Thread. *)
Theorem ownership_chain sid agent thread session tid key tagent tthread trigger rid run turnId :
  createSession sid agent thread = Ok session →
  createTrigger tid key tagent tthread = Ok trigger →
  createRun rid session trigger = Ok run →
  let turn := createTurn turnId run in
  (turn_ownerId turn = agent_ownerId agent ∧ turn_agentId turn = agent_id agent) ∧
  (agent_ownerId tagent = agent_ownerId agent ∧ agent_id tagent = agent_id agent) ∧
  turn_sessionId turn = sid ∧ turn_runId turn = rid ∧ run_triggerId run = tid ∧
  run_status run = accepted ∧
  (∀ t, thread = Some t → thread_ownerId t = agent_ownerId agent ∧
     thread_agentId t = agent_id agent ∧
     (thread_id t ≠ "" → turn_threadId turn = Some (thread_id t))) ∧
  (∀ t, tthread = Some t → ∃ t', thread = Some t' ∧ thread_id t' = thread_id t).
Proof.
  unfold createSession, createTrigger. intros H1 H2 H3. cbv zeta.
  apply result_bind_Ok in H1 as ([] & H1 & [= <-]).
  apply result_bind_Ok in H2 as ([] & _ & [= <-]).
  apply createRun_Ok in H3 as (Ho & Ha & Ht & ->). cbn in Ho, Ha, Ht |- *.
  split; [done|]. split; [by split; congruence|]. do 4 (split; [done|]). split.
  - intros t ->. apply assertThreadOwnership_Ok in H1 as [-> ->]. do 2 (split; [done|]).
    intros Hne. cbn. by destruct (thread_id t).
  - intros t ->. cbn in Ht. destruct Ht as [|Ht]; [done|]. destruct thread as [t'|]; [|done].
    exists t'. by injection Ht as ->.
Qed.

Lemma ownership_chain_witness :
  let agent := mkAgent "a" "o" in
  let th := mkThread "th" "o" "a" in
  turn_threadId (createTurn "u" (mkRun "r" "o" "a" "s" "t" (Some "th") accepted)) = Some "th".
Proof.
  intros agent th.
  destruct (ownership_chain "s" agent (Some th) (mkSession "s" "o" "a" (Some "th")) "t" "k" agent
    (Some th) (mkTrigger "t" "k" "o" "a" (Some "th")) "r"
    (mkRun "r" "o" "a" "s" "t" (Some "th") accepted) "u" eq_refl eq_refl eq_refl)
    as (_ & _ & _ & _ & _ & _ & H & _).
  apply (H th eq_refl). discriminate.
Defined.

(** *** The authority slot *)
(** A request on the slot; a refused one leaves it as it was. *)
Inductive slot_request :=
  | Claim (requested : AgentAuthorityLease)
  | Release (leaseId : AuthorityLeaseId).

Definition slot_after (c : option AgentAuthorityLease) (q : slot_request)
    : option AgentAuthorityLease :=
  match q with
  | Claim r => match claimAgentAuthority c r with Ok l => Some l | Err _ => c end
  | Release id => match releaseAgentAuthority c id with Ok c' => c' | Err _ => c end
  end.

Lemma claimAgentAuthority_Ok c l l' :
  claimAgentAuthority c l = Ok l' ↔ l' = l ∧ (c = None ∨ c = Some l).
Proof.
  unfold claimAgentAuthority. destruct c as [c|]; [|naive_solver].
  rewrite throw_if_bind. destruct c as [i a o h], l as [i' a' o' h']. cbn.
  repeat case_bool_decide; cbn; naive_solver.
Qed.

Lemma releaseAgentAuthority_Ok c id c' :
  releaseAgentAuthority c id = Ok c' ↔ c' = None ∧ ∃ l, c = Some l ∧ lease_id l = id.
Proof.
  unfold releaseAgentAuthority. rewrite throw_if_bind.
  destruct c as [l|]; cbn; repeat case_bool_decide; cbn; naive_solver.
Qed.

(** The authority slot of an Agent is exclusive: while a lease is held a
    claim succeeds exactly for that very lease and a release exactly for its
    identifier, so through any sequence of requests of any parties that does
    not name the held lease in a release, the slot keeps it. *)
Theorem authority_slot_exclusive l :
  (∀ r, is_ok (claimAgentAuthority (Some l) r) = true ↔ r = l) ∧
  (∀ id, is_ok (releaseAgentAuthority (Some l) id) = true ↔ id = lease_id l) ∧
  (∀ qs, Release (lease_id l) ∉ qs → foldl slot_after (Some l) qs = Some l).
Proof.
  split; [|split].
  - intros r. destruct (claimAgentAuthority (Some l) r) as [l'|] eqn:E; cbn.
    + apply claimAgentAuthority_Ok in E. naive_solver.
    + split; [done|]. intros ->. by rewrite (proj2 (claimAgentAuthority_Ok (Some l) l l)) in E by eauto.
  - intros id. destruct (releaseAgentAuthority (Some l) id) eqn:E; cbn.
    + apply releaseAgentAuthority_Ok in E. naive_solver.
    + split; [done|]. intros ->.
      by rewrite (proj2 (releaseAgentAuthority_Ok (Some l) (lease_id l) None)) in E by eauto.
  - induction qs as [|q qs IH]; [done|]. intros [Hq Hqs]%not_elem_of_cons.
    cbn. assert (slot_after (Some l) q = Some l) as ->; [|by apply IH].
    destruct q as [r|id]; unfold slot_after.
    + destruct (claimAgentAuthority (Some l) r) eqn:E; [|done].
      apply claimAgentAuthority_Ok in E. naive_solver.
    + destruct (releaseAgentAuthority (Some l) id) eqn:E; [|done].
      apply releaseAgentAuthority_Ok in E. naive_solver.
Qed.

Lemma authority_slot_exclusive_witness :
  let l := mkLease "lease-1" "a" "o" "h1" in
  foldl slot_after (Some l) [Claim (mkLease "lease-2" "a" "o" "h2"); Release "lease-2"] = Some l.
Proof.
  intros l. apply (authority_slot_exclusive l). subst l. cbn.
  rewrite !not_elem_of_cons. split; [discriminate|]. split; [discriminate|]. apply not_elem_of_nil.
Defined.
