(* ===== verification/DurableState.v ===== *)
(** packages/domain/src/durable-state.ts: the durable product records and their
    transition functions.  Every [transitionX] of the source has the same first
    step (look the requested status up in a table, else throw); the table and
    the record update are kept per machine. *)
From S2P Require Import Prelude Js Identifiers Machine.
Local Open Scope Z_scope.

Inductive ProductDataClassification := data_public | data_private | data_sensitive | data_restricted.

#[global] Instance ProductDataClassification_eq_dec : EqDecision ProductDataClassification.
Proof. solve_decision. Defined.

(** ** Shared failures *)
Definition invalidTransition {A} (kind current next : string) : result DomainError A :=
  Err (mkDomainError INVALID_STATE_TRANSITION
    (kind +:+ " cannot transition from " +:+ current +:+ " to " +:+ next)
    [("kind", kind); ("current", current); ("next", next)]).

Definition assertPositiveInteger (value : Z) (field : string) : result DomainError unit :=
  throw_if (negb (isSafeInteger value) || (value <? 1))
    (mkDomainError INVALID_STATE_VALUE (field +:+ " must be a positive safe integer")
       [("field", field); ("value", numToString value)]).

(** [if (!TABLE[current].has(next)) return invalidTransition(kind, current, next)] *)
Definition assertTransition {S} `{EqDecision S} (kind : string) (name : S → string)
    (table : S → list S) (current next : S) : result DomainError unit :=
  if includes next (table current) then Ok tt
  else invalidTransition kind (name current) (name next).

(** ** Deployment authority *)
Record ProductAuthorityFence := mkFence {
  fence_deploymentId : DeploymentId; fence_authorityEpoch : Z; fence_fencingToken : Z }.

#[global] Instance ProductAuthorityFence_eq_dec : EqDecision ProductAuthorityFence.
Proof. solve_decision. Defined.

Inductive DeploymentStatus :=
  deployment_inactive_ready | deployment_active | deployment_retired_pending_transfer | deployment_retired.

#[global] Instance DeploymentStatus_eq_dec : EqDecision DeploymentStatus.
Proof. solve_decision. Defined.

Definition deployment_name (s : DeploymentStatus) : string :=
  match s with
  | deployment_inactive_ready => "inactive_ready"
  | deployment_active => "active"
  | deployment_retired_pending_transfer => "retired_pending_transfer"
  | deployment_retired => "retired"
  end.

Record DeploymentAuthorityState := mkDeployment {
  dep_id : DeploymentId; dep_ownerId : OwnerId; dep_agentId : AgentId; dep_revision : Z;
  dep_status : DeploymentStatus; dep_authorityEpoch : Z; dep_fencingToken : Z;
  dep_transferId : option TransferId }.

#[global] Instance eta_Deployment : Eta DeploymentAuthorityState := λ r,
  mkDeployment (dep_id r) (dep_ownerId r) (dep_agentId r) (dep_revision r) (dep_status r)
    (dep_authorityEpoch r) (dep_fencingToken r) (dep_transferId r).

Definition activateDeployment (deployment : DeploymentAuthorityState)
    (authorityEpoch fencingToken : Z) : result DomainError DeploymentAuthorityState :=
  if dep_status deployment !== deployment_inactive_ready
  then invalidTransition "deployment" (deployment_name (dep_status deployment)) "active"
  else
    assertPositiveInteger authorityEpoch "authorityEpoch" ;;
    assertPositiveInteger fencingToken "fencingToken" ;;
    throw_if (authorityEpoch <=? dep_authorityEpoch deployment)
      (mkDomainError STALE_AUTHORITY_FENCE
         "A deployment must activate with a monotonically higher authority epoch"
         [("currentEpoch", numToString (dep_authorityEpoch deployment));
          ("requestedEpoch", numToString authorityEpoch)]) ;;
    Ok (deployment <| dep_revision := dep_revision deployment + 1 |>
          <| dep_status := deployment_active |>
          <| dep_authorityEpoch := authorityEpoch |>
          <| dep_fencingToken := fencingToken |>).

(** [next] ranges over ["retired_pending_transfer" | "retired"]. *)
Inductive RetireTarget := to_retired_pending_transfer | to_retired.

Definition retire_status (next : RetireTarget) : DeploymentStatus :=
  match next with
  | to_retired_pending_transfer => deployment_retired_pending_transfer
  | to_retired => deployment_retired
  end.

Definition retireDeployment (deployment : DeploymentAuthorityState) (next : RetireTarget)
    : result DomainError DeploymentAuthorityState :=
  let allowed :=
    dep_status deployment === deployment_active
      && retire_status next === deployment_retired_pending_transfer
    || dep_status deployment === deployment_retired_pending_transfer
      && retire_status next === deployment_retired in
  if negb allowed
  then invalidTransition "deployment" (deployment_name (dep_status deployment))
         (deployment_name (retire_status next))
  else Ok (deployment <| dep_revision := dep_revision deployment + 1 |>
             <| dep_status := retire_status next |>).

Definition assertAuthorityFence (deployment : DeploymentAuthorityState)
    (fence : ProductAuthorityFence) : result DomainError unit :=
  throw_if
    (dep_status deployment !== deployment_active
     || dep_id deployment !== fence_deploymentId fence
     || dep_authorityEpoch deployment !== fence_authorityEpoch fence
     || dep_fencingToken deployment !== fence_fencingToken fence)
    (mkDomainError STALE_AUTHORITY_FENCE
       "The operation does not carry the active deployment authority fence"
       [("deploymentId", dep_id deployment);
        ("status", deployment_name (dep_status deployment));
        ("authorityEpoch", numToString (dep_authorityEpoch deployment));
        ("fencingToken", numToString (dep_fencingToken deployment))]).

(** ** Thread messages *)
Inductive MessageRole := role_owner | role_agent | role_system.
Inductive MessageStatus := message_committed | message_partial | message_failed.

Record ProductThreadMessage := mkMessage {
  msg_id : MessageId; msg_ownerId : OwnerId; msg_agentId : AgentId; msg_threadId : ThreadId;
  msg_turnId : option TurnId; msg_runId : option RunId; msg_sequence : Z; msg_role : MessageRole;
  msg_contentRef : string; msg_dataClassification : ProductDataClassification;
  msg_status : MessageStatus; msg_committedAt : string }.

Definition createProductThreadMessage (input : ProductThreadMessage)
    : result DomainError ProductThreadMessage :=
  assertPositiveInteger (msg_sequence input) "message.sequence" ;;
  throw_if (String.length (msg_contentRef input) =? 0)%nat
    (mkDomainError INVALID_STATE_VALUE "A committed message requires a Payload reference"
       [("field", "contentRef"); ("value", "")]) ;;
  Ok input.

(** ** Thread checkpoints *)
Inductive ThreadCheckpointStatus :=
  checkpoint_pending | checkpoint_running | checkpoint_completed | checkpoint_retry_wait
  | checkpoint_failed_terminal.

#[global] Instance ThreadCheckpointStatus_eq_dec : EqDecision ThreadCheckpointStatus.
Proof. solve_decision. Defined.

Definition checkpoint_name (s : ThreadCheckpointStatus) : string :=
  match s with
  | checkpoint_pending => "pending"
  | checkpoint_running => "running"
  | checkpoint_completed => "completed"
  | checkpoint_retry_wait => "retry_wait"
  | checkpoint_failed_terminal => "failed_terminal"
  end.

Record ThreadCheckpointJob := mkCheckpointJob {
  cj_id : CheckpointJobId; cj_generationId : MemoryGenerationId; cj_ownerId : OwnerId;
  cj_agentId : AgentId; cj_threadId : ThreadId; cj_sourceWatermark : Z;
  cj_policyVersion : string; cj_status : ThreadCheckpointStatus; cj_attemptCount : Z;
  cj_requestedAt : string }.

#[global] Instance eta_CheckpointJob : Eta ThreadCheckpointJob := λ r,
  mkCheckpointJob (cj_id r) (cj_generationId r) (cj_ownerId r) (cj_agentId r) (cj_threadId r)
    (cj_sourceWatermark r) (cj_policyVersion r) (cj_status r) (cj_attemptCount r) (cj_requestedAt r).

Definition createThreadCheckpointJob (id : CheckpointJobId) (generationId : MemoryGenerationId)
    (ownerId : OwnerId) (agentId : AgentId) (threadId : ThreadId) (sourceWatermark : Z)
    (policyVersion requestedAt : string) : result DomainError ThreadCheckpointJob :=
  assertPositiveInteger sourceWatermark "sourceWatermark" ;;
  Ok (mkCheckpointJob id generationId ownerId agentId threadId sourceWatermark policyVersion
        checkpoint_pending 0 requestedAt).

Definition CHECKPOINT_TRANSITIONS (s : ThreadCheckpointStatus) : list ThreadCheckpointStatus :=
  match s with
  | checkpoint_pending => [checkpoint_running]
  | checkpoint_running => [checkpoint_completed; checkpoint_retry_wait; checkpoint_failed_terminal]
  | checkpoint_retry_wait => [checkpoint_running; checkpoint_failed_terminal]
  | checkpoint_completed => []
  | checkpoint_failed_terminal => []
  end.

Definition transitionCheckpointJob (job : ThreadCheckpointJob) (next : ThreadCheckpointStatus)
    : result DomainError ThreadCheckpointJob :=
  assertTransition "thread_checkpoint" checkpoint_name CHECKPOINT_TRANSITIONS (cj_status job) next ;;
  Ok (job <| cj_status := next |>
        <| cj_attemptCount := if next === checkpoint_running
                              then cj_attemptCount job + 1 else cj_attemptCount job |>).

(** ** Memory generations *)
Inductive MemoryGenerationStatus :=
  generation_pending | generation_running | generation_completed | generation_failed_terminal.

#[global] Instance MemoryGenerationStatus_eq_dec : EqDecision MemoryGenerationStatus.
Proof. solve_decision. Defined.

Definition generation_name (s : MemoryGenerationStatus) : string :=
  match s with
  | generation_pending => "pending"
  | generation_running => "running"
  | generation_completed => "completed"
  | generation_failed_terminal => "failed_terminal"
  end.

Record MemoryGenerationState := mkGeneration {
  mg_id : MemoryGenerationId; mg_checkpointJobId : CheckpointJobId; mg_ownerId : OwnerId;
  mg_agentId : AgentId; mg_threadId : ThreadId; mg_status : MemoryGenerationStatus;
  mg_modelDescriptorRef : string; mg_policyVersion : string; mg_outputRef : option string }.

#[global] Instance eta_Generation : Eta MemoryGenerationState := λ r,
  mkGeneration (mg_id r) (mg_checkpointJobId r) (mg_ownerId r) (mg_agentId r) (mg_threadId r)
    (mg_status r) (mg_modelDescriptorRef r) (mg_policyVersion r) (mg_outputRef r).

Definition GENERATION_TRANSITIONS (s : MemoryGenerationStatus) : list MemoryGenerationStatus :=
  match s with
  | generation_pending => [generation_running; generation_failed_terminal]
  | generation_running => [generation_completed; generation_failed_terminal]
  | generation_completed => []
  | generation_failed_terminal => []
  end.

Definition transitionMemoryGeneration (generation : MemoryGenerationState)
    (next : MemoryGenerationStatus) (outputRef : option string)
    : result DomainError MemoryGenerationState :=
  assertTransition "memory_generation" generation_name GENERATION_TRANSITIONS
    (mg_status generation) next ;;
  throw_if ((next === generation_completed) !== (outputRef !== None))
    (mkDomainError INVALID_STATE_VALUE
       "Only a completed Memory generation may carry an output reference"
       [("next", generation_name next); ("outputRef", or_else outputRef "")]) ;;
  Ok (generation <| mg_status := next |> <| mg_outputRef := outputRef |>).

(** ** Browser sessions and devices *)
Inductive ActivityStatus := activity_active | activity_revoked.

#[global] Instance ActivityStatus_eq_dec : EqDecision ActivityStatus.
Proof. solve_decision. Defined.

Definition activity_name (s : ActivityStatus) : string :=
  match s with activity_active => "active" | activity_revoked => "revoked" end.

Record BrowserSessionState := mkBrowserSession {
  bs_id : SessionId; bs_ownerId : OwnerId; bs_deviceId : DeviceId; bs_status : ActivityStatus;
  bs_authenticationRef : string; bs_firstAuthenticatedAt : string; bs_lastActiveAt : string;
  bs_recentAuthenticatedAt : string; bs_revokedAt : option string }.

#[global] Instance eta_BrowserSession : Eta BrowserSessionState := λ r,
  mkBrowserSession (bs_id r) (bs_ownerId r) (bs_deviceId r) (bs_status r) (bs_authenticationRef r)
    (bs_firstAuthenticatedAt r) (bs_lastActiveAt r) (bs_recentAuthenticatedAt r) (bs_revokedAt r).

Record DeviceState := mkDevice {
  device_id : DeviceId; device_ownerId : OwnerId; device_label : string;
  device_status : ActivityStatus; device_firstSeenAt : string; device_lastSeenAt : string }.

Definition revokeBrowserSession (session : BrowserSessionState) (revokedAt : string)
    : result DomainError BrowserSessionState :=
  if bs_status session !== activity_active
  then invalidTransition "browser_session" (activity_name (bs_status session)) "revoked"
  else Ok (session <| bs_status := activity_revoked |> <| bs_revokedAt := Some revokedAt |>).

(** ** Background jobs *)
Inductive BackgroundJobStatus := job_active | job_paused | job_revoked.

#[global] Instance BackgroundJobStatus_eq_dec : EqDecision BackgroundJobStatus.
Proof. solve_decision. Defined.

Definition job_name (s : BackgroundJobStatus) : string :=
  match s with job_active => "active" | job_paused => "paused" | job_revoked => "revoked" end.

Record BackgroundJobState := mkBackgroundJob {
  bj_id : JobId; bj_ownerId : OwnerId; bj_agentId : AgentId; bj_threadId : option ThreadId;
  bj_revision : Z; bj_status : BackgroundJobStatus; bj_authorizationRef : string;
  bj_nextOccurrenceAt : option string }.

#[global] Instance eta_BackgroundJob : Eta BackgroundJobState := λ r,
  mkBackgroundJob (bj_id r) (bj_ownerId r) (bj_agentId r) (bj_threadId r) (bj_revision r)
    (bj_status r) (bj_authorizationRef r) (bj_nextOccurrenceAt r).

Definition BACKGROUND_JOB_TRANSITIONS (s : BackgroundJobStatus) : list BackgroundJobStatus :=
  match s with
  | job_active => [job_paused; job_revoked]
  | job_paused => [job_active; job_revoked]
  | job_revoked => []
  end.

Definition transitionBackgroundJob (job : BackgroundJobState) (next : BackgroundJobStatus)
    : result DomainError BackgroundJobState :=
  assertTransition "background_job" job_name BACKGROUND_JOB_TRANSITIONS (bj_status job) next ;;
  Ok (job <| bj_revision := bj_revision job + 1 |> <| bj_status := next |>).

(** ** Background occurrences *)
Inductive BackgroundOccurrenceStatus :=
  | occurrence_queued
  | occurrence_admitted
  | occurrence_running
  | occurrence_retry_wait
  | occurrence_blocked_credentials
  | occurrence_blocked_approval
  | occurrence_budget_blocked
  | occurrence_capacity_blocked
  | occurrence_completed
  | occurrence_failed_terminal
  | occurrence_missed.

#[global] Instance BackgroundOccurrenceStatus_eq_dec : EqDecision BackgroundOccurrenceStatus.
Proof. solve_decision. Defined.

Definition occurrence_name (s : BackgroundOccurrenceStatus) : string :=
  match s with
  | occurrence_queued => "queued"
  | occurrence_admitted => "admitted"
  | occurrence_running => "running"
  | occurrence_retry_wait => "retry_wait"
  | occurrence_blocked_credentials => "blocked_credentials"
  | occurrence_blocked_approval => "blocked_approval"
  | occurrence_budget_blocked => "budget_blocked"
  | occurrence_capacity_blocked => "capacity_blocked"
  | occurrence_completed => "completed"
  | occurrence_failed_terminal => "failed_terminal"
  | occurrence_missed => "missed"
  end.

Record OccurrenceWorkLease := mkWorkLease {
  wl_id : string; wl_holderId : string; wl_acquiredAt : string; wl_expiresAt : string }.

Record BackgroundOccurrence := mkOccurrence {
  bo_id : OccurrenceId; bo_jobId : JobId; bo_ownerId : OwnerId; bo_agentId : AgentId;
  bo_revision : Z; bo_stableKey : string; bo_status : BackgroundOccurrenceStatus;
  bo_authority : ProductAuthorityFence; bo_category : string;
  bo_dataClassification : ProductDataClassification; bo_foreground : bool;
  bo_parallelSafe : bool; bo_estimatedCostMicros : Z; bo_reservedCostMicros : Z;
  bo_spentCostMicros : Z; bo_attemptCount : Z; bo_nextRetryAt : option string;
  bo_deadlineAt : string; bo_runId : option RunId; bo_workLease : option OccurrenceWorkLease;
  bo_lastErrorCode : option string }.

#[global] Instance eta_Occurrence : Eta BackgroundOccurrence := λ r,
  mkOccurrence (bo_id r) (bo_jobId r) (bo_ownerId r) (bo_agentId r) (bo_revision r)
    (bo_stableKey r) (bo_status r) (bo_authority r) (bo_category r) (bo_dataClassification r)
    (bo_foreground r) (bo_parallelSafe r) (bo_estimatedCostMicros r) (bo_reservedCostMicros r)
    (bo_spentCostMicros r) (bo_attemptCount r) (bo_nextRetryAt r) (bo_deadlineAt r) (bo_runId r)
    (bo_workLease r) (bo_lastErrorCode r).

Definition OCCURRENCE_TRANSITIONS (s : BackgroundOccurrenceStatus)
    : list BackgroundOccurrenceStatus :=
  match s with
  | occurrence_queued =>
      [occurrence_admitted; occurrence_retry_wait; occurrence_blocked_credentials;
       occurrence_blocked_approval; occurrence_budget_blocked; occurrence_capacity_blocked;
       occurrence_failed_terminal; occurrence_missed]
  | occurrence_admitted => [occurrence_running; occurrence_failed_terminal]
  | occurrence_running =>
      [occurrence_completed; occurrence_retry_wait; occurrence_failed_terminal]
  | occurrence_retry_wait => [occurrence_queued; occurrence_failed_terminal]
  | occurrence_blocked_credentials => [occurrence_queued; occurrence_failed_terminal]
  | occurrence_blocked_approval => [occurrence_queued; occurrence_failed_terminal]
  | occurrence_budget_blocked => [occurrence_queued; occurrence_failed_terminal]
  | occurrence_capacity_blocked => [occurrence_queued; occurrence_failed_terminal]
  | occurrence_completed => []
  | occurrence_failed_terminal => []
  | occurrence_missed => []
  end.

Definition transitionOccurrence (occurrence : BackgroundOccurrence)
    (next : BackgroundOccurrenceStatus) : result DomainError BackgroundOccurrence :=
  assertTransition "occurrence" occurrence_name OCCURRENCE_TRANSITIONS (bo_status occurrence) next ;;
  Ok (occurrence <| bo_revision := bo_revision occurrence + 1 |>
        <| bo_status := next |>
        <| bo_attemptCount := if next === occurrence_running
                              then bo_attemptCount occurrence + 1
                              else bo_attemptCount occurrence |>).

(** ** Memory lifecycle *)
Inductive MemoryLifecycleStatus :=
  | memory_active
  | memory_archived
  | memory_trashed
  | memory_deletion_pending
  | memory_deleted_verified.

#[global] Instance MemoryLifecycleStatus_eq_dec : EqDecision MemoryLifecycleStatus.
Proof. solve_decision. Defined.

Definition memory_name (s : MemoryLifecycleStatus) : string :=
  match s with
  | memory_active => "active"
  | memory_archived => "archived"
  | memory_trashed => "trashed"
  | memory_deletion_pending => "deletion_pending"
  | memory_deleted_verified => "deleted_verified"
  end.

Record ProductMemoryLifecycle := mkMemory {
  ml_id : MemoryId; ml_ownerId : OwnerId; ml_agentId : AgentId; ml_revision : Z;
  ml_status : MemoryLifecycleStatus; ml_providerRecordId : option string }.

#[global] Instance eta_Memory : Eta ProductMemoryLifecycle := λ r,
  mkMemory (ml_id r) (ml_ownerId r) (ml_agentId r) (ml_revision r) (ml_status r)
    (ml_providerRecordId r).

Definition MEMORY_TRANSITIONS (s : MemoryLifecycleStatus) : list MemoryLifecycleStatus :=
  match s with
  | memory_active => [memory_archived; memory_trashed; memory_deletion_pending]
  | memory_archived => [memory_active; memory_trashed; memory_deletion_pending]
  | memory_trashed => [memory_active; memory_deletion_pending]
  | memory_deletion_pending => [memory_deleted_verified]
  | memory_deleted_verified => []
  end.

Definition transitionMemoryLifecycle (memory : ProductMemoryLifecycle)
    (next : MemoryLifecycleStatus) : result DomainError ProductMemoryLifecycle :=
  assertTransition "memory" memory_name MEMORY_TRANSITIONS (ml_status memory) next ;;
  Ok (memory <| ml_revision := ml_revision memory + 1 |> <| ml_status := next |>).

(** ** GitHub webhook receipts and coverage gaps *)
Inductive GitHubReceiptStatus := receipt_received | receipt_normalized | receipt_rejected.

#[global] Instance GitHubReceiptStatus_eq_dec : EqDecision GitHubReceiptStatus.
Proof. solve_decision. Defined.

Definition receipt_name (s : GitHubReceiptStatus) : string :=
  match s with
  | receipt_received => "received"
  | receipt_normalized => "normalized"
  | receipt_rejected => "rejected"
  end.

Record GitHubWebhookReceipt := mkReceipt {
  gr_id : GitHubReceiptId; gr_ownerId : OwnerId; gr_agentId : AgentId;
  gr_providerDeliveryId : string; gr_installationRef : string; gr_repositoryRef : string;
  gr_payloadRef : string; gr_status : GitHubReceiptStatus; gr_occurrenceId : option OccurrenceId }.

#[global] Instance eta_Receipt : Eta GitHubWebhookReceipt := λ r,
  mkReceipt (gr_id r) (gr_ownerId r) (gr_agentId r) (gr_providerDeliveryId r)
    (gr_installationRef r) (gr_repositoryRef r) (gr_payloadRef r) (gr_status r) (gr_occurrenceId r).

Inductive CoverageGapStatus := gap_open | gap_closed.

#[global] Instance CoverageGapStatus_eq_dec : EqDecision CoverageGapStatus.
Proof. solve_decision. Defined.

Definition gap_name (s : CoverageGapStatus) : string :=
  match s with gap_open => "open" | gap_closed => "closed" end.

Record GitHubCoverageGap := mkCoverageGap {
  cg_id : CoverageGapId; cg_ownerId : OwnerId; cg_agentId : AgentId; cg_monitorId : JobId;
  cg_startedAt : string; cg_endedAt : option string; cg_status : CoverageGapStatus }.

#[global] Instance eta_CoverageGap : Eta GitHubCoverageGap := λ r,
  mkCoverageGap (cg_id r) (cg_ownerId r) (cg_agentId r) (cg_monitorId r) (cg_startedAt r)
    (cg_endedAt r) (cg_status r).

(** [next] ranges over ["normalized" | "rejected"]. *)
Inductive ReceiptTarget := to_normalized | to_rejected.

Definition receipt_target (next : ReceiptTarget) : GitHubReceiptStatus :=
  match next with to_normalized => receipt_normalized | to_rejected => receipt_rejected end.

Definition transitionGitHubReceipt (receipt : GitHubWebhookReceipt) (next : ReceiptTarget)
    (occurrenceId : option OccurrenceId) : result DomainError GitHubWebhookReceipt :=
  if gr_status receipt !== receipt_received
  then invalidTransition "github_receipt" (receipt_name (gr_status receipt))
         (receipt_name (receipt_target next))
  else
    throw_if ((receipt_target next === receipt_normalized) !== (occurrenceId !== None))
      (mkDomainError INVALID_STATE_VALUE
         "Only a normalized GitHub receipt may carry an occurrence ID"
         [("next", receipt_name (receipt_target next)); ("occurrenceId", or_else occurrenceId "")]) ;;
    Ok (receipt <| gr_status := receipt_target next |> <| gr_occurrenceId := occurrenceId |>).

Definition closeCoverageGap (gap : GitHubCoverageGap) (endedAt : string)
    : result DomainError GitHubCoverageGap :=
  if cg_status gap !== gap_open
  then invalidTransition "github_coverage_gap" (gap_name (cg_status gap)) "closed"
  else Ok (gap <| cg_status := gap_closed |> <| cg_endedAt := Some endedAt |>).

(** ** Recovery points *)
Inductive RecoveryPointStatus := recovery_creating | recovery_verified | recovery_failed.

#[global] Instance RecoveryPointStatus_eq_dec : EqDecision RecoveryPointStatus.
Proof. solve_decision. Defined.

Definition recovery_name (s : RecoveryPointStatus) : string :=
  match s with
  | recovery_creating => "creating"
  | recovery_verified => "verified"
  | recovery_failed => "failed"
  end.

Record RecoveryPointState := mkRecoveryPoint {
  rp_id : BackupId; rp_ownerId : OwnerId; rp_agentId : AgentId; rp_status : RecoveryPointStatus;
  rp_manifestRef : option string }.

#[global] Instance eta_RecoveryPoint : Eta RecoveryPointState := λ r,
  mkRecoveryPoint (rp_id r) (rp_ownerId r) (rp_agentId r) (rp_status r) (rp_manifestRef r).

(** [next] ranges over ["verified" | "failed"]. *)
Inductive RecoveryTarget := to_verified | to_failed.

Definition recovery_target (next : RecoveryTarget) : RecoveryPointStatus :=
  match next with to_verified => recovery_verified | to_failed => recovery_failed end.

Definition transitionRecoveryPoint (recoveryPoint : RecoveryPointState) (next : RecoveryTarget)
    (manifestRef : option string) : result DomainError RecoveryPointState :=
  if rp_status recoveryPoint !== recovery_creating
  then invalidTransition "recovery_point" (recovery_name (rp_status recoveryPoint))
         (recovery_name (recovery_target next))
  else
    throw_if ((recovery_target next === recovery_verified) !== (manifestRef !== None))
      (mkDomainError INVALID_STATE_VALUE
         "Only a verified recovery point may carry a manifest reference"
         [("next", recovery_name (recovery_target next)); ("manifestRef", or_else manifestRef "")]) ;;
    Ok (recoveryPoint <| rp_status := recovery_target next |> <| rp_manifestRef := manifestRef |>).

(** ** Deployment transfers *)
Inductive TransferStatus :=
  | transfer_proposed
  | transfer_exporting
  | transfer_exported_verified
  | transfer_importing
  | transfer_inactive_ready
  | transfer_activated
  | transfer_abandoned.

#[global] Instance TransferStatus_eq_dec : EqDecision TransferStatus.
Proof. solve_decision. Defined.

Definition transfer_name (s : TransferStatus) : string :=
  match s with
  | transfer_proposed => "proposed"
  | transfer_exporting => "exporting"
  | transfer_exported_verified => "exported_verified"
  | transfer_importing => "importing"
  | transfer_inactive_ready => "inactive_ready"
  | transfer_activated => "activated"
  | transfer_abandoned => "abandoned"
  end.

Record TransferState := mkTransfer {
  tr_id : TransferId; tr_ownerId : OwnerId; tr_agentId : AgentId;
  tr_sourceDeploymentId : DeploymentId; tr_targetDeploymentId : DeploymentId;
  tr_status : TransferStatus; tr_authorityEpoch : Z; tr_packageRef : option string }.

#[global] Instance eta_Transfer : Eta TransferState := λ r,
  mkTransfer (tr_id r) (tr_ownerId r) (tr_agentId r) (tr_sourceDeploymentId r)
    (tr_targetDeploymentId r) (tr_status r) (tr_authorityEpoch r) (tr_packageRef r).

Definition TRANSFER_TRANSITIONS (s : TransferStatus) : list TransferStatus :=
  match s with
  | transfer_proposed => [transfer_exporting; transfer_abandoned]
  | transfer_exporting => [transfer_exported_verified; transfer_abandoned]
  | transfer_exported_verified => [transfer_importing; transfer_abandoned]
  | transfer_importing => [transfer_inactive_ready; transfer_abandoned]
  | transfer_inactive_ready => [transfer_activated; transfer_abandoned]
  | transfer_activated => []
  | transfer_abandoned => []
  end.

Definition transitionTransfer (transfer : TransferState) (next : TransferStatus)
    : result DomainError TransferState :=
  assertTransition "transfer" transfer_name TRANSFER_TRANSITIONS (tr_status transfer) next ;;
  Ok (transfer <| tr_status := next |>).

(** ** Deployment health *)
Inductive DependencyHealthStatus := dependency_healthy | dependency_degraded | dependency_unavailable.

#[global] Instance DependencyHealthStatus_eq_dec : EqDecision DependencyHealthStatus.
Proof. solve_decision. Defined.

Record DependencyHealth := mkDependency {
  dh_name : string; dh_required : bool; dh_status : DependencyHealthStatus;
  dh_reasonCode : option string }.

Inductive SnapshotStatus := snapshot_healthy | snapshot_degraded | snapshot_not_ready | snapshot_not_live.

Record DeploymentHealthSnapshot := mkSnapshot {
  hs_id : HealthSnapshotId; hs_live : bool; hs_ready : bool; hs_status : SnapshotStatus;
  hs_dependencies : list DependencyHealth }.

Definition evaluateDeploymentHealth (live authorityActive : bool) (snapshotId : HealthSnapshotId)
    (dependencies : list DependencyHealth) : DeploymentHealthSnapshot :=
  let requiredUnavailable :=
    existsb (λ d, dh_required d && dh_status d !== dependency_healthy) dependencies in
  let ready := live && authorityActive && negb requiredUnavailable in
  let degraded := existsb (λ d, dh_status d !== dependency_healthy) dependencies in
  mkSnapshot snapshotId live ready
    (if negb live then snapshot_not_live
     else if negb ready then snapshot_not_ready
     else if degraded then snapshot_degraded
     else snapshot_healthy)
    dependencies.

(** ** The table-driven records as status machines *)
Lemma assertTransition_Ok {S} `{EqDecision S} kind (name : S → string) table current next u :
  assertTransition kind name table current next = Ok u ↔ next ∈ table current.
Proof.
  unfold assertTransition, invalidTransition. destruct u.
  destruct (includes _ _) eqn:E; [apply includes_spec in E; naive_solver|].
  rewrite <-includes_spec, E. naive_solver.
Qed.

(** Every table-driven transition that succeeds took a move of its table. *)
Ltac transition_ok H :=
  unfold transitionCheckpointJob, transitionMemoryGeneration, transitionBackgroundJob,
    transitionOccurrence, transitionMemoryLifecycle, transitionTransfer in H;
  inv_ok;
  repeat match goal with
  | H : assertTransition _ _ _ _ _ = Ok _ |- _ => apply assertTransition_Ok in H
  end.

#[global] Program Instance checkpoint_machine :
    StatusMachine ThreadCheckpointJob ThreadCheckpointStatus unit DomainError :=
  {| sm_status := cj_status; sm_table := CHECKPOINT_TRANSITIONS;
     sm_step := λ r s _, transitionCheckpointJob r s |}.
Next Obligation. cbn. intros r s _ r' H. transition_ok H. done. Qed.

#[global] Program Instance generation_machine :
    StatusMachine MemoryGenerationState MemoryGenerationStatus (option string) DomainError :=
  {| sm_status := mg_status; sm_table := GENERATION_TRANSITIONS;
     sm_step := transitionMemoryGeneration |}.
Next Obligation. intros r s o r' H. transition_ok H. done. Qed.

#[global] Program Instance background_job_machine :
    StatusMachine BackgroundJobState BackgroundJobStatus unit DomainError :=
  {| sm_status := bj_status; sm_table := BACKGROUND_JOB_TRANSITIONS;
     sm_step := λ r s _, transitionBackgroundJob r s |}.
Next Obligation. cbn. intros r s _ r' H. transition_ok H. done. Qed.

#[global] Program Instance occurrence_machine :
    StatusMachine BackgroundOccurrence BackgroundOccurrenceStatus unit DomainError :=
  {| sm_status := bo_status; sm_table := OCCURRENCE_TRANSITIONS;
     sm_step := λ r s _, transitionOccurrence r s |}.
Next Obligation. cbn. intros r s _ r' H. transition_ok H. done. Qed.

#[global] Program Instance memory_machine :
    StatusMachine ProductMemoryLifecycle MemoryLifecycleStatus unit DomainError :=
  {| sm_status := ml_status; sm_table := MEMORY_TRANSITIONS;
     sm_step := λ r s _, transitionMemoryLifecycle r s |}.
Next Obligation. cbn. intros r s _ r' H. transition_ok H. done. Qed.

#[global] Program Instance transfer_machine :
    StatusMachine TransferState TransferStatus unit DomainError :=
  {| sm_status := tr_status; sm_table := TRANSFER_TRANSITIONS;
     sm_step := λ r s _, transitionTransfer r s |}.
Next Obligation. cbn. intros r s _ r' H. transition_ok H. done. Qed.

(** ** The deployment as a state machine *)
Inductive deployment_step : DeploymentAuthorityState → DeploymentAuthorityState → Prop :=
  | step_activate d e f d' : activateDeployment d e f = Ok d' → deployment_step d d'
  | step_retire d n d' : retireDeployment d n = Ok d' → deployment_step d d'.

(** How far along its life a deployment is. *)
Definition deployment_rank (s : DeploymentStatus) : nat :=
  match s with
  | deployment_inactive_ready => 0
  | deployment_active => 1
  | deployment_retired_pending_transfer => 2
  | deployment_retired => 3
  end.

Lemma deployment_step_spec d d' :
  deployment_step d d' →
  deployment_rank (dep_status d') = S (deployment_rank (dep_status d)) ∧
  dep_revision d' = dep_revision d + 1 ∧ dep_id d' = dep_id d ∧
  dep_authorityEpoch d ≤ dep_authorityEpoch d' ∧
  (dep_status d' = deployment_active → dep_authorityEpoch d < dep_authorityEpoch d').
Proof.
  intros H. inversion H as [? e f ? Ha|? n ? Hn]; subst.
  - unfold activateDeployment, invalidTransition, assertPositiveInteger in Ha. inv_ok. guards.
    rewrite Heqb. cbn. repeat split; lia.
  - unfold retireDeployment, invalidTransition in Hn. inv_ok. guards.
    destruct n; cbn in *; destruct (dep_status d); cbn; naive_solver lia.
Qed.

Lemma deployment_steps_spec d d' :
  rtc deployment_step d d' →
  (deployment_rank (dep_status d) ≤ deployment_rank (dep_status d'))%nat ∧
  dep_authorityEpoch d ≤ dep_authorityEpoch d'.
Proof.
  induction 1 as [|? ? ? Hs _ IH]; [lia|]. apply deployment_step_spec in Hs. lia.
Qed.

Lemma assertAuthorityFence_Ok d f u :
  assertAuthorityFence d f = Ok u ↔
  dep_status d = deployment_active ∧ dep_id d = fence_deploymentId f ∧
  dep_authorityEpoch d = fence_authorityEpoch f ∧ dep_fencingToken d = fence_fencingToken f.
Proof.
  unfold assertAuthorityFence. rewrite throw_if_Ok, !orb_false_iff, !negb_false_iff,
    !bool_decide_eq_true. tauto.
Qed.

(** ** Single steps of the machines *)
Lemma occurrence_step_revision o s a o' :
  sm_step o s a = Ok o' → bo_revision o' = bo_revision o + 1.
Proof. cbn. intros H. by transition_ok H. Qed.

Lemma occurrence_step_attempts o s a o' :
  sm_step o s a = Ok o' →
  bo_attemptCount o' = if s === occurrence_running then bo_attemptCount o + 1 else bo_attemptCount o.
Proof. cbn. intros H. by transition_ok H. Qed.

Lemma occurrence_run_frame o l o' :
  sm_run o l = Ok o' → bo_id o' = bo_id o ∧ bo_authority o' = bo_authority o.
Proof.
  revert o. induction l as [|[s a] l IH]; intros o H; [by injection H as <-|].
  apply result_bind_Ok in H as (o1 & Hs & H). apply IH in H as [-> ->].
  cbn in Hs. by transition_ok Hs.
Qed.

Lemma occurrence_completed_from s :
  occurrence_completed ∈ OCCURRENCE_TRANSITIONS s → s = occurrence_running.
Proof. destruct s; cbn; set_solver. Qed.

(** ** Properties *)

(** A fence that was accepted is rejected for good once the deployment has
    taken any step, whatever further activations and retirements follow: no
    two deployment generations ever accept the same fence. *)
Theorem stale_fence_rejected_forever d d1 d2 f :
  assertAuthorityFence d f = Ok tt → deployment_step d d1 → rtc deployment_step d1 d2 →
  ∃ details, assertAuthorityFence d2 f =
    Err (mkDomainError STALE_AUTHORITY_FENCE
           "The operation does not carry the active deployment authority fence" details).
Proof.
  intros (Ha & _)%assertAuthorityFence_Ok Hs Hr.
  apply deployment_step_spec in Hs as [Hs _]. apply deployment_steps_spec in Hr as [Hr _].
  rewrite Ha in Hs. cbn in Hs.
  destruct (assertAuthorityFence d2 f) as [u|x] eqn:E.
  - apply assertAuthorityFence_Ok in E as [E _]. rewrite E in Hr. cbn in Hr. lia.
  - unfold assertAuthorityFence, throw_if in E. case_match; [|done]. injection E as <-. eauto.
Qed.

Lemma stale_fence_rejected_forever_witness :
  let d := mkDeployment "d1" "o" "a" 2 deployment_active 4 7 None in
  let d1 := mkDeployment "d1" "o" "a" 3 deployment_retired_pending_transfer 4 7 None in
  ∃ details, assertAuthorityFence d1 (mkFence "d1" 4 7) =
    Err (mkDomainError STALE_AUTHORITY_FENCE
           "The operation does not carry the active deployment authority fence" details).
Proof.
  intros d d1.
  assert (deployment_step d d1) as Hs by by apply (step_retire d to_retired_pending_transfer).
  exact (stale_fence_rejected_forever d d1 d1 (mkFence "d1" 4 7) eq_refl Hs (rtc_refl _ _)).
Defined.

(** The authority epoch of a deployment never decreases, an activation
    raises it strictly, and a deployment is activated at most once: from the
    moment it is active it is never [inactive_ready] or active again after a step. *)
Theorem deployment_epoch_monotone d d1 d2 :
  rtc deployment_step d d1 → deployment_step d1 d2 →
  dep_authorityEpoch d ≤ dep_authorityEpoch d2 ∧ dep_revision d2 = dep_revision d1 + 1 ∧
  (dep_status d2 = deployment_active →
     dep_authorityEpoch d < dep_authorityEpoch d2 ∧ dep_status d = deployment_inactive_ready).
Proof.
  intros Hr Hs. apply deployment_steps_spec in Hr as [Hr He].
  apply deployment_step_spec in Hs as (Hk & Hrev & _ & He1 & Hact). repeat split; try lia.
  - apply Hact in H. lia.
  - rewrite H in Hk. destruct (dep_status d), (dep_status d1); cbn in *; naive_solver lia.
Qed.

Lemma deployment_epoch_monotone_witness :
  let d := mkDeployment "d1" "o" "a" 1 deployment_inactive_ready 3 7 None in
  let d1 := mkDeployment "d1" "o" "a" 2 deployment_active 4 8 None in
  dep_authorityEpoch d < dep_authorityEpoch d1.
Proof.
  intros d d1.
  assert (deployment_step d d1) as Hs by by apply (step_activate d 4 8).
  apply (deployment_epoch_monotone d d d1 (rtc_refl _ _) Hs). reflexivity.
Defined.

(** Along any sequence of successful transitions of an occurrence that
    starts queued and never attempted, the revision counts the transitions,
    [attemptCount] counts the entries into [running], and only an occurrence
    that was attempted can be [completed]; its identity and authority fence
    are those it was created with. *)
Theorem occurrence_accounting o l o' :
  bo_status o = occurrence_queued → bo_attemptCount o = 0 →
  sm_run o (requests l) = Ok o' →
  bo_revision o' = bo_revision o + Z.of_nat (List.length l) ∧
  bo_attemptCount o' = Z.of_nat (count_occ BackgroundOccurrenceStatus_eq_dec l occurrence_running) ∧
  (bo_status o' = occurrence_completed → 1 ≤ bo_attemptCount o') ∧
  bo_id o' = bo_id o ∧ bo_authority o' = bo_authority o.
Proof.
  intros Hs Ha Hr.
  rewrite (sm_run_length bo_revision o _ o' occurrence_step_revision Hr), requests_length.
  rewrite (sm_run_entries occurrence_running bo_attemptCount o _ o' occurrence_step_attempts Hr).
  rewrite requests_fst, Ha. repeat split; [..|by eapply occurrence_run_frame|by eapply occurrence_run_frame].
  intros Hc. apply sm_run_path in Hr as [Hp Hl]. rewrite requests_fst in Hp, Hl. cbn in Hp, Hl.
  rewrite Hc, Hs in *.
  destruct (table_path_through _ _ _ _ _ occurrence_completed_from Hp)
    as [|Hin]; try done.
  apply list_elem_of_In, (count_occ_In (λ x y, decide (x = y))) in Hin. lia.
Qed.

Lemma occurrence_accounting_witness :
  let o := mkOccurrence "oc1" "j" "o" "a" 1 "k" occurrence_queued (mkFence "d" 1 1) "c" data_private
             false true 10 0 0 0 None "2026-01-01T00:00:00.000Z" None None None in
  let o' := o <| bo_revision := 8 |> <| bo_status := occurrence_completed |> <| bo_attemptCount := 2 |> in
  1 ≤ bo_attemptCount o'.
Proof.
  intros o o'.
  refine (proj1 (proj2 (proj2 (occurrence_accounting o
    [occurrence_admitted; occurrence_running; occurrence_retry_wait; occurrence_queued;
     occurrence_admitted; occurrence_running; occurrence_completed] o' eq_refl eq_refl _))) eq_refl).
  reflexivity.
Defined.

(** *** Completion evidence *)
Lemma generation_step_evidence g s o g' :
  sm_step g s o = Ok g' → mg_status g' = generation_completed ↔ mg_outputRef g' ≠ None.
Proof. cbn. intros H. transition_ok H. cbn. by apply xor_guard_false in Heqb. Qed.

(** The reference that proves an outcome is present exactly when the
    outcome was reached: a Memory generation has an output reference iff it
    is [completed], along any run from a pending one; a GitHub receipt has an
    occurrence iff it was [normalized]; a recovery point has a manifest iff
    it was [verified].  Receipts and recovery points settle exactly once. *)
Theorem outcome_evidence :
  (∀ g l g', mg_status g = generation_pending → mg_outputRef g = None → sm_run g l = Ok g' →
     mg_status g' = generation_completed ↔ mg_outputRef g' ≠ None) ∧
  (∀ r n o r', transitionGitHubReceipt r n o = Ok r' →
     (gr_status r' = receipt_normalized ↔ gr_occurrenceId r' ≠ None) ∧
     ∀ n' o', is_ok (transitionGitHubReceipt r' n' o') = false) ∧
  (∀ p n m p', transitionRecoveryPoint p n m = Ok p' →
     (rp_status p' = recovery_verified ↔ rp_manifestRef p' ≠ None) ∧
     ∀ n' m', is_ok (transitionRecoveryPoint p' n' m') = false).
Proof.
  split; [|split].
  - intros g l g' Hs Ho.
    assert (mg_status g = generation_completed ↔ mg_outputRef g ≠ None) as He
      by (rewrite Hs, Ho; split; congruence).
    clear Hs Ho. revert g He. induction l as [|[s a] l IH]; intros g He H; [by injection H as <-|].
    apply result_bind_Ok in H as (g1 & Hg & H). apply (IH g1); [|done].
    by eapply generation_step_evidence.
  - intros r n o r' H. unfold transitionGitHubReceipt, invalidTransition in *. inv_ok. cbn.
    split; [by apply xor_guard_false in Heqb0|]. by destruct n.
  - intros p n m p' H. unfold transitionRecoveryPoint, invalidTransition in *. inv_ok. cbn.
    split; [by apply xor_guard_false in Heqb0|]. by destruct n.
Qed.

Lemma outcome_evidence_witness :
  let p := mkRecoveryPoint "b" "o" "a" recovery_creating None in
  let p' := mkRecoveryPoint "b" "o" "a" recovery_verified (Some "manifest:1") in
  is_ok (transitionRecoveryPoint p' to_failed None) = false.
Proof.
  intros p p'. apply (proj2 (proj2 outcome_evidence) p to_verified (Some "manifest:1") p').
  reflexivity.
Defined.

(** *** Deletion *)
Lemma memory_deletion_from s :
  memory_deleted_verified ∈ MEMORY_TRANSITIONS s → s = memory_deletion_pending.
Proof. destruct s; cbn; set_solver. Qed.

Lemma memory_pending_path l :
  table_path MEMORY_TRANSITIONS memory_deletion_pending l → l = [] ∨ l = [memory_deleted_verified].
Proof.
  destruct l as [|s l]; [by left|]. intros [Hin Hp]. cbn in Hin.
  apply list_elem_of_singleton in Hin as ->. destruct l as [|s l]; [by right|].
  destruct Hp as [Hin _]. by apply not_elem_of_nil in Hin.
Qed.

(** Deletion of a Memory is a one-way street with a verified end: once
    deletion is pending the only thing that can still happen is its
    verification, and a Memory that was neither pending nor deleted becomes
    [deleted_verified] only by a final [deletion_pending; deleted_verified]. *)
Theorem memory_deletion_path m l m' :
  sm_run m (requests l) = Ok m' →
  (ml_status m = memory_deletion_pending → l = [] ∨ l = [memory_deleted_verified]) ∧
  (ml_status m ≠ memory_deletion_pending → ml_status m ≠ memory_deleted_verified →
   ml_status m' = memory_deleted_verified →
   ∃ l0, l = l0 ++ [memory_deletion_pending; memory_deleted_verified] ∧
         memory_deletion_pending ∉ l0).
Proof.
  intros H. apply sm_run_path in H as [Hp Hl]. rewrite requests_fst in *. cbn in Hp, Hl.
  split; [intros Hs; rewrite Hs in Hp; by apply memory_pending_path|].
  intros Hn Hd Hs. rewrite Hl in Hs. clear Hl. revert Hn Hd Hp Hs.
  generalize (ml_status m) as s. induction l as [|s1 l IH]; intros s Hn Hd Hp Hs; [done|].
  destruct Hp as [Hin Hp]. rewrite last_cons_default in Hs.
  destruct (decide (s1 = memory_deleted_verified)) as [->|Hd1].
  { by apply memory_deletion_from in Hin. }
  destruct (decide (s1 = memory_deletion_pending)) as [->|Hn1].
  - exists []. apply memory_pending_path in Hp as [->| ->]; [done|]. split; [done|]. set_solver.
  - destruct (IH s1 Hn1 Hd1 Hp Hs) as (l0 & -> & Hl0). exists (s1 :: l0). split; [done|]. set_solver.
Qed.

Lemma memory_deletion_path_witness :
  let m := mkMemory "m" "o" "a" 1 memory_active None in
  let m' := m <| ml_revision := 4 |> <| ml_status := memory_deleted_verified |> in
  ∃ l0, [memory_trashed; memory_deletion_pending; memory_deleted_verified] =
          l0 ++ [memory_deletion_pending; memory_deleted_verified] ∧ memory_deletion_pending ∉ l0.
Proof.
  intros m m'.
  apply (proj2 (memory_deletion_path m
    [memory_trashed; memory_deletion_pending; memory_deleted_verified] m' eq_refl)); done.
Defined.

(** *** Transfers *)
Definition transfer_rank (s : TransferStatus) : nat :=
  match s with
  | transfer_proposed => 5 | transfer_exporting => 4 | transfer_exported_verified => 3
  | transfer_importing => 2 | transfer_inactive_ready => 1
  | transfer_activated | transfer_abandoned => 0
  end.

Lemma transfer_rank_decreases s s' :
  s' ∈ TRANSFER_TRANSITIONS s → (transfer_rank s' < transfer_rank s)%nat.
Proof. destruct s; cbn; rewrite ?elem_of_cons; intros; destruct_or?; subst; cbn; set_solver by lia. Qed.

(** A proposed transfer settles after at most five transitions, it is
    activated only through the full export, verification, import and readiness
    chain in that order, and until it is settled it can always be abandoned. *)
Theorem transfer_chain t l t' :
  tr_status t = transfer_proposed → sm_run t (requests l) = Ok t' →
  (List.length l ≤ 5)%nat ∧
  (tr_status t' = transfer_activated →
   l = [transfer_exporting; transfer_exported_verified; transfer_importing;
        transfer_inactive_ready; transfer_activated]) ∧
  (tr_status t' ≠ transfer_activated → tr_status t' ≠ transfer_abandoned →
   is_ok (transitionTransfer t' transfer_abandoned) = true).
Proof.
  intros Hs H. apply sm_run_path in H as [Hp Hl]. rewrite requests_fst in *. cbn in Hp, Hl.
  rewrite Hs in Hp, Hl. split; [|split].
  - by apply (table_path_rank _ transfer_rank _ _ transfer_rank_decreases) in Hp.
  - intros Ha. rewrite Ha in Hl. clear Ha Hs.
    repeat match goal with
    | H : table_path _ _ ?l |- _ => is_var l; destruct l as [|? l]; [done|]; destruct H as [Hin H];
        cbn in Hin; rewrite ?elem_of_cons, elem_of_nil in Hin; destruct_or?; subst; try done
    end.
  - unfold transitionTransfer, assertTransition. by destruct (tr_status t').
Qed.

Lemma transfer_chain_witness :
  let t := mkTransfer "t" "o" "a" "d1" "d2" transfer_proposed 1 None in
  let t' := t <| tr_status := transfer_importing |> in
  is_ok (transitionTransfer t' transfer_abandoned) = true.
Proof.
  intros t t'.
  apply (transfer_chain t [transfer_exporting; transfer_exported_verified; transfer_importing] t');
    done.
Defined.

(** *** Health *)
(** A deployment is reported ready exactly when it is live, holds the
    authority and no required dependency is other than healthy; the four
    statuses are told apart by liveness, then readiness, then whether any
    dependency, required or not, is unhealthy; the identifier and the
    dependencies are reported unchanged. *)
Theorem health_snapshot_spec live authorityActive id deps :
  let s := evaluateDeploymentHealth live authorityActive id deps in
  (hs_ready s = true ↔
     live = true ∧ authorityActive = true ∧
     ∀ d, d ∈ deps → dh_required d = true → dh_status d = dependency_healthy) ∧
  hs_status s =
    match live, hs_ready s, forallb (λ d, dh_status d === dependency_healthy) deps with
    | false, _, _ => snapshot_not_live
    | true, false, _ => snapshot_not_ready
    | true, true, false => snapshot_degraded
    | true, true, true => snapshot_healthy
    end ∧
  hs_id s = id ∧ hs_live s = live ∧ hs_dependencies s = deps.
Proof.
  intros s. subst s. unfold evaluateDeploymentHealth. cbn. split; [|split; [|done]].
  - rewrite !andb_true_iff, negb_true_iff, existsb_false.
    setoid_rewrite andb_false_iff. setoid_rewrite negb_false_iff.
    setoid_rewrite bool_decide_eq_true. split.
    + intros [[-> ->] H]. repeat split. intros d Hd Hr. destruct (H d Hd); congruence.
    + intros (-> & -> & H). split; [done|]. intros d Hd. destruct (dh_required d) eqn:?; auto.
  - assert (existsb (λ d, dh_status d !== dependency_healthy) deps =
            negb (forallb (λ d, dh_status d === dependency_healthy) deps)) as ->.
    { clear. induction deps as [|d deps IH]; [done|]. cbn. rewrite IH. by case_bool_decide. }
    destruct live; cbn; [|done]. destruct (authorityActive && _); cbn; [|done].
    by destruct (forallb _ _).
Qed.
