(* ===== verification/Thread.v ===== *)
(** packages/domain/src/thread.ts: the product Thread, its life cycle, title,
    answer locale and pin order. *)
From S2P Require Import Prelude Js Identifiers Machine.
Local Open Scope Z_scope.

Inductive ThreadStatus :=
  | thread_active
  | thread_archived
  | thread_trashed
  | thread_deletion_pending
  | thread_deleted_verified.

#[global] Instance ThreadStatus_eq_dec : EqDecision ThreadStatus.
Proof. solve_decision. Defined.

Definition thread_status_name (s : ThreadStatus) : string :=
  match s with
  | thread_active => "active"
  | thread_archived => "archived"
  | thread_trashed => "trashed"
  | thread_deletion_pending => "deletion_pending"
  | thread_deleted_verified => "deleted_verified"
  end.

(** An [AnswerLocale] is a string checked at run time against this list. *)
Definition ANSWER_LOCALES : list string := ["zh-CN"; "en"; "ja"].

Inductive TitleSource := automatic | owner_title.

#[global] Instance TitleSource_eq_dec : EqDecision TitleSource.
Proof. solve_decision. Defined.

Record ThreadForkLineage := mkLineage {
  sourceThreadId : ThreadId; sourceTurnId : TurnId; sourceWatermark : Z;
  summaryRefs : list string; policyRefs : list string; sourceContentAvailable : bool;
  forkedAt : string }.

Record ProductThread := mkProductThread {
  pt_id : ThreadId; pt_ownerId : OwnerId; pt_agentId : AgentId; pt_revision : Z;
  pt_status : ThreadStatus; pt_titleRef : option string; pt_titleSource : option TitleSource;
  pt_titleRevision : Z; pt_pinOrder : option Z; pt_answerLocale : string;
  pt_messageWatermark : Z; pt_lineage : option ThreadForkLineage; pt_createdAt : string;
  pt_updatedAt : string }.

#[global] Instance eta_ProductThread : Eta ProductThread := λ r,
  mkProductThread (pt_id r) (pt_ownerId r) (pt_agentId r) (pt_revision r) (pt_status r)
    (pt_titleRef r) (pt_titleSource r) (pt_titleRevision r) (pt_pinOrder r) (pt_answerLocale r)
    (pt_messageWatermark r) (pt_lineage r) (pt_createdAt r) (pt_updatedAt r).

Definition TRANSITIONS (s : ThreadStatus) : list ThreadStatus :=
  match s with
  | thread_active => [thread_archived; thread_trashed; thread_deletion_pending]
  | thread_archived => [thread_active; thread_trashed; thread_deletion_pending]
  | thread_trashed => [thread_active; thread_archived; thread_deletion_pending]
  | thread_deletion_pending => [thread_trashed; thread_deleted_verified]
  | thread_deleted_verified => []
  end.

Definition createProductThread (id : ThreadId) (ownerId : OwnerId) (agentId : AgentId)
    (createdAt : string) (answerLocale : option string) (lineage : option ThreadForkLineage)
    : ProductThread :=
  mkProductThread id ownerId agentId 1 thread_active None None 0 None
    (or_else answerLocale "zh-CN") 0 lineage createdAt createdAt.

Definition assertAnswerLocale (value : string) : result DomainError unit :=
  throw_if (negb (includes value ANSWER_LOCALES))
    (mkDomainError INVALID_STATE_VALUE "Unsupported answer locale" [("answerLocale", value)]).

Definition transitionProductThread (current : ProductThread) (status : ThreadStatus)
    (updatedAt : string) : result DomainError ProductThread :=
  throw_if (negb (includes status (TRANSITIONS (pt_status current))))
    (mkDomainError INVALID_STATE_TRANSITION
       ("Thread cannot move from " +:+ thread_status_name (pt_status current) +:+ " to " +:+
        thread_status_name status)
       [("threadId", pt_id current); ("currentStatus", thread_status_name (pt_status current));
        ("requestedStatus", thread_status_name status)]) ;;
  Ok (current <| pt_revision := pt_revision current + 1 |> <| pt_status := status |>
        <| pt_updatedAt := updatedAt |>).

Definition renameProductThread (current : ProductThread) (titleRef : string)
    (source : TitleSource) (updatedAt : string) : result DomainError ProductThread :=
  throw_if (is_empty titleRef || (pt_status current === thread_deleted_verified))
    (mkDomainError INVALID_STATE_VALUE "Thread title cannot be updated"
       [("threadId", pt_id current)]) ;;
  throw_if ((source === automatic) && (pt_titleSource current === Some owner_title))
    (mkDomainError INVALID_STATE_TRANSITION "Automatic title cannot replace an Owner title"
       [("threadId", pt_id current)]) ;;
  Ok (current <| pt_revision := pt_revision current + 1 |>
        <| pt_titleRef := Some titleRef |>
        <| pt_titleSource := Some source |>
        <| pt_titleRevision := pt_titleRevision current + 1 |>
        <| pt_updatedAt := updatedAt |>).

Definition setThreadAnswerLocale (current : ProductThread) (answerLocale updatedAt : string)
    : result DomainError ProductThread :=
  assertAnswerLocale answerLocale ;;
  throw_if (pt_status current === thread_deleted_verified)
    (mkDomainError INVALID_STATE_TRANSITION "Deleted Thread answer locale cannot be updated"
       [("threadId", pt_id current)]) ;;
  Ok (current <| pt_revision := pt_revision current + 1 |> <| pt_answerLocale := answerLocale |>
        <| pt_updatedAt := updatedAt |>).

Definition setThreadPinOrder (current : ProductThread) (pinOrder : option Z) (updatedAt : string)
    : result DomainError ProductThread :=
  throw_if
    (match pinOrder with None => false | Some p => negb (isSafeInteger p) || (p <? 0) end
     || (pt_status current === thread_deleted_verified))
    (mkDomainError INVALID_STATE_VALUE "Thread pin order is invalid"
       [("threadId", pt_id current);
        ("pinOrder", match pinOrder with None => "null" | Some p => numToString p end)]) ;;
  Ok (current <| pt_revision := pt_revision current + 1 |> <| pt_pinOrder := pinOrder |>
        <| pt_updatedAt := updatedAt |>).

(** ** The Thread as a state machine over its five operations *)
Inductive thread_step : ProductThread → ProductThread → Prop :=
  | step_transition t s at_ t' : transitionProductThread t s at_ = Ok t' → thread_step t t'
  | step_rename t r src at_ t' : renameProductThread t r src at_ = Ok t' → thread_step t t'
  | step_locale t l at_ t' : setThreadAnswerLocale t l at_ = Ok t' → thread_step t t'
  | step_pin t p at_ t' : setThreadPinOrder t p at_ = Ok t' → thread_step t t'.

#[global] Program Instance thread_machine : StatusMachine ProductThread ThreadStatus string DomainError :=
  {| sm_status := pt_status; sm_table := TRANSITIONS; sm_step := transitionProductThread |}.
Next Obligation.
  unfold transitionProductThread. intros. inv_ok. guards. by cbn.
Qed.

(** What the fields of a Thread promise together. *)
Record thread_wf (t : ProductThread) : Prop := mk_thread_wf {
  wf_locale : pt_answerLocale t ∈ ANSWER_LOCALES;
  wf_title : pt_titleRef t = None ↔ pt_titleSource t = None;
  wf_title_text : pt_titleRef t ≠ Some "";
  wf_title_revision : pt_titleRevision t = 0 ↔ pt_titleRef t = None;
  wf_title_bound : 0 ≤ pt_titleRevision t < pt_revision t;
  wf_pin : ∀ p, pt_pinOrder t = Some p → 0 ≤ p ∧ isSafeInteger p = true;
}.

Lemma thread_step_wf t t' : thread_step t t' → thread_wf t → thread_wf t'.
Proof.
  intros Hs [Hl Ht Hx Hr Hb Hp].
  inversion Hs as [? ? ? ? H|? ? ? ? ? H|? ? ? ? H|? ? ? ? H]; subst;
    unfold transitionProductThread, renameProductThread, setThreadAnswerLocale,
      assertAnswerLocale, setThreadPinOrder in H; inv_ok; constructor; cbn; try done; try lia.
  - unfold is_empty in *. guards_in Heqb. naive_solver.
  - split; [lia|discriminate].
  - by guards.
  - intros q ->. guards_in Heqb. destruct Heqb as [[Hq ?] _]. split; [lia|done].
Qed.

(** A step keeps the identity of the Thread and its lineage, and counts one revision. *)
Lemma thread_step_frame t t' :
  thread_step t t' →
  pt_id t' = pt_id t ∧ pt_ownerId t' = pt_ownerId t ∧ pt_agentId t' = pt_agentId t ∧
  pt_createdAt t' = pt_createdAt t ∧ pt_lineage t' = pt_lineage t ∧
  pt_messageWatermark t' = pt_messageWatermark t ∧ pt_revision t' = pt_revision t + 1.
Proof.
  intros Hs. inversion Hs as [? ? ? ? H|? ? ? ? ? H|? ? ? ? H|? ? ? ? H]; subst;
    unfold transitionProductThread, renameProductThread, setThreadAnswerLocale,
      assertAnswerLocale, setThreadPinOrder in H; by inv_ok.
Qed.

(** No operation applies to a Thread whose deletion has been verified. *)
Lemma thread_deleted_final t t' :
  pt_status t = thread_deleted_verified → ¬ thread_step t t'.
Proof.
  intros Hd Hs. inversion Hs as [? ? ? ? H|? ? ? ? ? H|? ? ? ? H|? ? ? ? H]; subst;
    unfold transitionProductThread, renameProductThread, setThreadAnswerLocale,
      assertAnswerLocale, setThreadPinOrder in H; rewrite Hd in H; inv_ok; cbn in *; try done;
    try (rewrite orb_true_r in *; done).
Qed.

Lemma thread_owner_title t t' :
  thread_step t t' → pt_titleSource t = Some owner_title →
  pt_titleSource t' = Some owner_title ∧
  (pt_titleRef t' ≠ pt_titleRef t →
   ∃ r at_, renameProductThread t r owner_title at_ = Ok t').
Proof.
  intros Hs Ho. inversion Hs as [? ? ? ? H|? r src at_ ? H|? ? ? ? H|? ? ? ? H]; subst;
    pose proof H as H0;
    unfold transitionProductThread, renameProductThread, setThreadAnswerLocale,
      assertAnswerLocale, setThreadPinOrder in H; inv_ok; cbn; try done.
  rewrite Ho in *. destruct src; [done|]. eauto.
Qed.

(** ** Properties of the Thread *)

(** C38 A Thread obtained from [createProductThread] by any sequence of the
    four operations is well formed (supported locale; a title, its source and
    a positive title revision come together; a pin order is a non-negative
    safe integer), keeps its identity, and its revision counts the operations. *)
Theorem thread_reachable_wf id ownerId agentId createdAt answerLocale lineage t n :
  (∀ l, answerLocale = Some l → l ∈ ANSWER_LOCALES) →
  nsteps thread_step n (createProductThread id ownerId agentId createdAt answerLocale lineage) t →
  thread_wf t ∧ pt_id t = id ∧ pt_ownerId t = ownerId ∧ pt_agentId t = agentId ∧
  pt_createdAt t = createdAt ∧ pt_lineage t = lineage ∧ pt_revision t = 1 + Z.of_nat n.
Proof.
  intros Hl. revert t. induction n as [|n IH]; intros t Hn.
  - inversion Hn; subst. split; [|done]. constructor; cbn; try done; try lia.
    destruct answerLocale as [l|]; [by apply Hl|]. cbn. set_solver.
  - apply nsteps_inv_r in Hn as (t0 & Hn & Hs). apply IH in Hn as (Hw & <- & <- & <- & <- & <- & Hr).
    split; [by eapply thread_step_wf|].
    apply thread_step_frame in Hs as (-> & -> & -> & -> & -> & _ & ->).
    repeat split; lia.
Qed.

Lemma thread_reachable_wf_witness :
  let t := createProductThread "t1" "o" "a" "2026-01-01T00:00:00.000Z" (Some "en") None in
  let t1 := t <| pt_revision := 2 |> <| pt_titleRef := Some "payload:1" |>
              <| pt_titleSource := Some automatic |> <| pt_titleRevision := 1 |>
              <| pt_updatedAt := "2026-01-02T00:00:00.000Z" |> in
  thread_wf t1 ∧ pt_revision t1 = 2.
Proof.
  intros t t1.
  assert (nsteps thread_step 1 t t1) as Hn.
  { apply nsteps_once.
    by apply (step_rename t "payload:1" automatic "2026-01-02T00:00:00.000Z"). }
  assert (∀ l, Some "en" = Some l → l ∈ ANSWER_LOCALES) as Hl.
  { intros l [= <-]. unfold ANSWER_LOCALES. set_solver. }
  split; [|reflexivity].
  exact (proj1 (thread_reachable_wf "t1" "o" "a" "2026-01-01T00:00:00.000Z" (Some "en") None t1 1 Hl Hn)).
Defined.

(** Once the Owner has named a Thread the title stays the Owner's through
    every later operation, and no operation at all succeeds on a Thread whose
    deletion has been verified. *)
Theorem thread_owner_title_and_deletion_final t t' :
  rtc thread_step t t' →
  (pt_titleSource t = Some owner_title → pt_titleSource t' = Some owner_title) ∧
  (pt_status t = thread_deleted_verified → t' = t).
Proof.
  intros Hr. split.
  - induction Hr as [|? ? ? Hs _ IH]; [done|]. intros Ho. apply IH.
    by apply (thread_owner_title _ _ Hs).
  - intros Hd. inversion Hr as [|? ? ? Hs]; [done|]. by apply thread_deleted_final in Hs.
Qed.

Lemma thread_owner_title_and_deletion_final_witness :
  let t := (createProductThread "t1" "o" "a" "2026-01-01T00:00:00.000Z" None None)
             <| pt_titleRef := Some "payload:1" |> <| pt_titleSource := Some owner_title |> in
  let t1 := t <| pt_revision := 2 |> <| pt_status := thread_archived |> in
  pt_titleSource t1 = Some owner_title.
Proof.
  intros t t1.
  apply (thread_owner_title_and_deletion_final t t1); [|reflexivity].
  apply rtc_once. by apply (step_transition t thread_archived "2026-01-01T00:00:00.000Z").
Defined.
