(* ===== verification/AuthTypes.v ===== *)
(** packages/application/src/ports/authorization.ts: the data of authorization
    (intents, policies, grants, approvals, decisions), the operations of
    [AuthorizationStorePort], and the clock and identifier ports
    (ports/system.ts) as classes over a world. *)
From S2P Require Import Prelude Js Identifiers.
Local Open Scope Z_scope.

(** ** Enumerations *)
Inductive DataClassification := public | private | sensitive | restricted.

#[global] Instance DataClassification_eq_dec : EqDecision DataClassification.
Proof. solve_decision. Defined.

Definition classification_name (c : DataClassification) : string :=
  match c with
  | public => "public" | private => "private" | sensitive => "sensitive" | restricted => "restricted"
  end.

Lemma classification_name_inj c d : classification_name c = classification_name d → c = d.
Proof. by destruct c, d. Qed.

Inductive ActionSideEffect := effect_none | reversible_effect | irreversible_effect.

#[global] Instance ActionSideEffect_eq_dec : EqDecision ActionSideEffect.
Proof. solve_decision. Defined.

Definition side_effect_name (e : ActionSideEffect) : string :=
  match e with
  | effect_none => "none"
  | reversible_effect => "reversible"
  | irreversible_effect => "irreversible"
  end.

(** The source re-validates kinds and risk levels at run time, so a value may
    also be a string outside the list. *)
Inductive ActionKind :=
  | READ
  | CREATE_OR_UPDATE
  | DELETE
  | COMMUNICATE
  | PURCHASE_OR_FUNDS
  | CREDENTIAL_OR_ACCESS
  | PRODUCTION_OR_RECOVERY
  | PUBLICATION
  | LEGAL_COMMITMENT
  | PHYSICAL_SAFETY
  | INSTALL_OR_EXECUTE_CODE
  | OtherKind (s : string).

#[global] Instance ActionKind_eq_dec : EqDecision ActionKind.
Proof. solve_decision. Defined.

Definition ACTION_KINDS : list ActionKind :=
  [READ; CREATE_OR_UPDATE; DELETE; COMMUNICATE; PURCHASE_OR_FUNDS; CREDENTIAL_OR_ACCESS;
   PRODUCTION_OR_RECOVERY; PUBLICATION; LEGAL_COMMITMENT; PHYSICAL_SAFETY;
   INSTALL_OR_EXECUTE_CODE].

Definition kind_name (k : ActionKind) : string :=
  match k with
  | READ => "READ"
  | CREATE_OR_UPDATE => "CREATE_OR_UPDATE"
  | DELETE => "DELETE"
  | COMMUNICATE => "COMMUNICATE"
  | PURCHASE_OR_FUNDS => "PURCHASE_OR_FUNDS"
  | CREDENTIAL_OR_ACCESS => "CREDENTIAL_OR_ACCESS"
  | PRODUCTION_OR_RECOVERY => "PRODUCTION_OR_RECOVERY"
  | PUBLICATION => "PUBLICATION"
  | LEGAL_COMMITMENT => "LEGAL_COMMITMENT"
  | PHYSICAL_SAFETY => "PHYSICAL_SAFETY"
  | INSTALL_OR_EXECUTE_CODE => "INSTALL_OR_EXECUTE_CODE"
  | OtherKind s => s
  end.

Inductive ActionRiskLevel := LOW | MEDIUM | HIGH | CRITICAL | OtherRisk (s : string).

#[global] Instance ActionRiskLevel_eq_dec : EqDecision ActionRiskLevel.
Proof. solve_decision. Defined.

Definition ACTION_RISK_LEVELS : list ActionRiskLevel := [LOW; MEDIUM; HIGH; CRITICAL].

Definition risk_name (r : ActionRiskLevel) : string :=
  match r with
  | LOW => "LOW" | MEDIUM => "MEDIUM" | HIGH => "HIGH" | CRITICAL => "CRITICAL" | OtherRisk s => s
  end.

Inductive DisclosureMode := disclosure_none | same_owner | named_recipients | disclosure_public.

#[global] Instance DisclosureMode_eq_dec : EqDecision DisclosureMode.
Proof. solve_decision. Defined.

Definition disclosure_name (d : DisclosureMode) : string :=
  match d with
  | disclosure_none => "none"
  | same_owner => "same_owner"
  | named_recipients => "named_recipients"
  | disclosure_public => "public"
  end.

(** ** Intents *)
Record ActionTarget := mkTarget { target_type : string; target_ref : string }.

#[global] Instance ActionTarget_eq_dec : EqDecision ActionTarget.
Proof. solve_decision. Defined.

Inductive FactSource := product | manifest | runtime.

#[global] Instance FactSource_eq_dec : EqDecision FactSource.
Proof. solve_decision. Defined.

Definition fact_source_name (s : FactSource) : string :=
  match s with product => "product" | manifest => "manifest" | runtime => "runtime" end.

Record DeterministicPolicyFact := mkFact {
  fact_code : string; fact_minimumRisk : ActionRiskLevel; fact_source : FactSource }.

#[global] Instance DeterministicPolicyFact_eq_dec : EqDecision DeterministicPolicyFact.
Proof. solve_decision. Defined.

Record ActionFrequency := mkFrequency { freq_count : Z; freq_intervalMs : option Z }.

#[global] Instance ActionFrequency_eq_dec : EqDecision ActionFrequency.
Proof. solve_decision. Defined.

Record ActionIntent := mkIntent {
  ai_id : string; ai_ownerId : OwnerId; ai_agentId : AgentId; ai_runId : RunId;
  ai_capabilityRef : string; ai_operation : string; ai_resourceRef : string;
  ai_dataClassification : DataClassification; ai_sideEffect : ActionSideEffect;
  ai_estimatedCostMicros : Z; ai_frequency : ActionFrequency;
  ai_idempotencyKey : IdempotencyKey; ai_reversible : bool; ai_requestedAt : string }.

#[global] Instance ActionIntent_eq_dec : EqDecision ActionIntent.
Proof. solve_decision. Defined.

Record ModelClassification := mkClassification {
  mc_actionKind : ActionKind; mc_suggestedRisk : ActionRiskLevel; mc_reasonCode : string }.

#[global] Instance ModelClassification_eq_dec : EqDecision ModelClassification.
Proof. solve_decision. Defined.

(** [ga_extraKeys] are the own property names of the object that the
    interface does not declare ([Object.keys(intent)] is validated). *)
Record GovernedActionIntent := mkGoverned {
  ga_base : ActionIntent; ga_contractVersion : string; ga_threadId : string;
  ga_actionKind : ActionKind; ga_capabilityVersion : string; ga_targets : list ActionTarget;
  ga_resourceRefs : list string; ga_disclosure : DisclosureMode; ga_recipients : list string;
  ga_credentialOrAccessChange : bool; ga_expiresAt : string;
  ga_modelClassification : ModelClassification;
  ga_deterministicFacts : list DeterministicPolicyFact; ga_finalRisk : ActionRiskLevel;
  ga_extraKeys : list string }.

#[global] Instance GovernedActionIntent_eq_dec : EqDecision GovernedActionIntent.
Proof. solve_decision. Defined.

#[global] Instance eta_Governed : Eta GovernedActionIntent := λ r,
  mkGoverned (ga_base r) (ga_contractVersion r) (ga_threadId r) (ga_actionKind r)
    (ga_capabilityVersion r) (ga_targets r) (ga_resourceRefs r) (ga_disclosure r) (ga_recipients r)
    (ga_credentialOrAccessChange r) (ga_expiresAt r) (ga_modelClassification r)
    (ga_deterministicFacts r) (ga_finalRisk r) (ga_extraKeys r).

(** A variable of type [ActionIntent] may hold either object. *)
Inductive AnyIntent :=
  | PlainIntent (i : ActionIntent)
  | GovernedIntent (g : GovernedActionIntent).

#[global] Instance AnyIntent_eq_dec : EqDecision AnyIntent.
Proof. solve_decision. Defined.

Definition intent_base (i : AnyIntent) : ActionIntent :=
  match i with PlainIntent i => i | GovernedIntent g => ga_base g end.

(** ** Policies *)
Inductive RuleEffect := rule_allow | rule_deny.

#[global] Instance RuleEffect_eq_dec : EqDecision RuleEffect.
Proof. solve_decision. Defined.

Record PermissionPolicyRule := mkRule {
  rule_id : string; rule_effect : RuleEffect; rule_capabilityRefs : list string;
  rule_operations : list string; rule_resourcePrefixes : list string;
  rule_dataClassifications : list DataClassification; rule_sideEffects : list ActionSideEffect;
  rule_maxCostMicros : Z; rule_reasonCode : string }.

Record PermissionPolicy := mkPolicy {
  policy_version : string; policy_rules : list PermissionPolicyRule }.

(** ** Grants *)
(** The additional fields of a [GovernedGrantScope]. *)
Record GovernedScopeFields := mkGovernedScope {
  gs_capabilityVersion : string; gs_resourceIdentities : list string;
  gs_disclosure : DisclosureMode; gs_recipients : list string;
  gs_credentialOrAccessChange : bool }.

#[global] Instance GovernedScopeFields_eq_dec : EqDecision GovernedScopeFields.
Proof. solve_decision. Defined.

(** [sc_governed] is absent in a plain [GrantScope]. *)
Record GrantScope := mkScope {
  sc_capabilityRef : string; sc_operations : list string; sc_exactResourceRef : option string;
  sc_resourcePrefixes : list string; sc_maxDataClassification : DataClassification;
  sc_sideEffects : list ActionSideEffect; sc_maxCostMicrosPerUse : Z;
  sc_maxFrequency : ActionFrequency; sc_governed : option GovernedScopeFields }.

#[global] Instance GrantScope_eq_dec : EqDecision GrantScope.
Proof. solve_decision. Defined.

#[global] Instance eta_scope : Eta GrantScope := λ r,
  mkScope (sc_capabilityRef r) (sc_operations r) (sc_exactResourceRef r) (sc_resourcePrefixes r)
    (sc_maxDataClassification r) (sc_sideEffects r) (sc_maxCostMicrosPerUse r) (sc_maxFrequency r)
    (sc_governed r).

Record LongTermGrantScope := mkLongTerm {
  lt_capabilityRef : string; lt_operations : list string; lt_resourcePrefixes : list string;
  lt_maxDataClassification : DataClassification; lt_sideEffects : list ActionSideEffect;
  lt_maxCostMicrosPerUse : Z; lt_maxFrequency : ActionFrequency; lt_maxTotalCostMicros : Z;
  lt_maxUses : Z; lt_expiresAt : string }.

Inductive GrantKind := one_time | long_term.

#[global] Instance GrantKind_eq_dec : EqDecision GrantKind.
Proof. solve_decision. Defined.

Record GrantRecord := mkGrant {
  grant_id : string; grant_revision : Z; grant_ownerId : OwnerId; grant_agentId : AgentId;
  grant_kind : GrantKind; grant_scope : GrantScope; grant_intentFingerprint : option string;
  grant_sourceApprovalRequestId : string; grant_validFrom : string; grant_expiresAt : string;
  grant_maxUses : Z; grant_uses : Z; grant_maxTotalCostMicros : Z; grant_spentCostMicros : Z;
  grant_revokedAt : option string; grant_revocationReasonCode : option string }.

#[global] Instance GrantRecord_eq_dec : EqDecision GrantRecord.
Proof. solve_decision. Defined.

#[global] Instance eta_Grant : Eta GrantRecord := λ r,
  mkGrant (grant_id r) (grant_revision r) (grant_ownerId r) (grant_agentId r) (grant_kind r) (grant_scope r)
    (grant_intentFingerprint r) (grant_sourceApprovalRequestId r) (grant_validFrom r) (grant_expiresAt r)
    (grant_maxUses r) (grant_uses r) (grant_maxTotalCostMicros r) (grant_spentCostMicros r) (grant_revokedAt r)
    (grant_revocationReasonCode r).

(** ** Approvals *)
Inductive ApprovalStatus := approval_pending | approval_approved | approval_denied | approval_expired.

#[global] Instance ApprovalStatus_eq_dec : EqDecision ApprovalStatus.
Proof. solve_decision. Defined.

Definition approval_status_name (s : ApprovalStatus) : string :=
  match s with
  | approval_pending => "pending"
  | approval_approved => "approved"
  | approval_denied => "denied"
  | approval_expired => "expired"
  end.

Inductive DeliveryState := deliverable | queued_no_ui.

#[global] Instance DeliveryState_eq_dec : EqDecision DeliveryState.
Proof. solve_decision. Defined.

(** The fields of a [GovernedApprovalRequest] ([ap_finalRisk] on) are absent in
    a plain one; [ap_recentAuthenticationRef] is absent, [null] or a string. *)
Record ApprovalRequest := mkApproval {
  ap_policyAuthorization : option (string * Z);
  ap_id : string; ap_revision : Z; ap_ownerId : OwnerId; ap_agentId : AgentId;
  ap_runId : RunId; ap_intentId : string; ap_intentSnapshot : AnyIntent;
  ap_semanticSnapshotHash : string; ap_status : ApprovalStatus;
  ap_deliveryState : DeliveryState; ap_requestedAt : string; ap_expiresAt : string;
  ap_decidedAt : option string; ap_grantId : option string;
  ap_finalRisk : option ActionRiskLevel; ap_recentAuthenticationRequired : option bool;
  ap_recentAuthenticationRef : option (option string) }.

#[global] Instance ApprovalRequest_eq_dec : EqDecision ApprovalRequest.
Proof. solve_decision. Defined.

#[global] Instance eta_Approval : Eta ApprovalRequest := λ r,
  mkApproval (ap_policyAuthorization r) (ap_id r) (ap_revision r) (ap_ownerId r) (ap_agentId r)
    (ap_runId r) (ap_intentId r) (ap_intentSnapshot r) (ap_semanticSnapshotHash r) (ap_status r)
    (ap_deliveryState r) (ap_requestedAt r) (ap_expiresAt r) (ap_decidedAt r) (ap_grantId r)
    (ap_finalRisk r) (ap_recentAuthenticationRequired r) (ap_recentAuthenticationRef r).

(** [resolution] ranges over ["approved" | "denied" | "expired"]. *)
Inductive Resolution := resolve_approved | resolve_denied | resolve_expired.

#[global] Instance Resolution_eq_dec : EqDecision Resolution.
Proof. solve_decision. Defined.

Definition resolution_status (r : Resolution) : ApprovalStatus :=
  match r with
  | resolve_approved => approval_approved
  | resolve_denied => approval_denied
  | resolve_expired => approval_expired
  end.

Record ResolveApprovalInput := mkResolve {
  ra_approvalRequestId : string; ra_expectedRevision : Z; ra_semanticSnapshotHash : string;
  ra_resolution : Resolution; ra_decidedAt : string; ra_grant : option GrantRecord;
  ra_recentAuthenticationRef : option (option string) }.

Record ConsumeGrantInput := mkConsume {
  cg_grantId : string; cg_expectedRevision : Z; cg_costMicros : Z; cg_consumedAt : string;
  cg_usageId : option string; cg_intentId : option string; cg_runId : option RunId;
  cg_operation : option string }.

(** ** Decisions *)
Inductive AllowBasis := basis_policy (ref : string) | basis_grant (ref : string).

Inductive PermissionDecision :=
  | ALLOW (basis : AllowBasis) (executionScope : GrantScope)
  | ASK (approvalRequest : ApprovalRequest)
  | DENY (reasonCode : string) (alternativesAllowed : bool).

Inductive PermissionDecisionKind := kind_ALLOW | kind_ASK | kind_DENY.

(** ** Ports *)
Class AuthorizationStorePort (W : Type) := {
  createApproval : ApprovalRequest → M exn W ApprovalRequest;
  findApprovalByIntent : string → M exn W (option ApprovalRequest);
  getApproval : string → M exn W (option ApprovalRequest);
  listApprovals : OwnerId → AgentId → M exn W (list ApprovalRequest);
  resolveApproval : ResolveApprovalInput → M exn W ApprovalRequest;
  listGrants : OwnerId → AgentId → M exn W (list GrantRecord);
  consumeGrant : ConsumeGrantInput → M exn W GrantRecord;
  store_revokeGrant : string → string → string → option Z → M exn W GrantRecord;
}.

(** packages/application/src/ports/system.ts *)
Class ClockPort (W : Type) := clock_now : M exn W string.
Class IdGeneratorPort (W : Type) := ids_next : string → M exn W string.
