(* ===== verification/Contract.v ===== *)
(** Contracts between a stateful component and its clients.

    The component's promise is stated on an abstract state [S] that moves by
    atomic steps [step]; a world [W] of an implementation is seen through a
    [view], and [inv] is the implementation's invariant.  Between a call and
    its effect any number of steps of other clients may happen. *)
From S2P Require Import Prelude Identifiers.

Section contract.
Context {S : Type} (step : S → S → Prop).

(** [gen_op_law] says of one call: others act, then either the call fails
    without effect or its effect happens atomically. *)
Definition gen_op_law {W A : Type} (view : W → S) (inv : W → Prop)
    (effect : A → S → S → Prop) (m : M exn W A) : Prop :=
  ∀ w r w', inv w → m w = (r, w') →
    inv w' ∧ ∃ s, rtc step (view w) s ∧
      match r with Ok a => effect a s (view w') | Err _ => view w' = s end.

(** A call that only reads. *)
Definition gen_reads {A : Type} (P : A → S → Prop) (a : A) (s s' : S) : Prop :=
  P a s ∧ s' = s.

(** A computation that is no operation of the component: others may act meanwhile. *)
Definition gen_frame_law {W A : Type} (view : W → S) (inv : W → Prop) (m : M exn W A) : Prop :=
  ∀ w r w', inv w → m w = (r, w') → inv w' ∧ rtc step (view w) (view w').

(** ** Using the laws: one call that returned *)
Lemma op_law_Ok {W A} (view : W → S) inv effect (m : M exn W A) w a w' :
  gen_op_law view inv effect m → inv w → m w = (Ok a, w') →
  inv w' ∧ ∃ s, rtc step (view w) s ∧ effect a s (view w').
Proof. intros H Hi Hm. apply (H _ _ _ Hi Hm). Qed.

(** Others act between two calls, and a read sees one moment of the state. *)
Lemma reads_Ok {W A} (view : W → S) inv (P : A → S → Prop) (m : M exn W A) w a w' :
  gen_op_law view inv (gen_reads P) m → inv w → m w = (Ok a, w') →
  inv w' ∧ rtc step (view w) (view w') ∧ P a (view w').
Proof.
  intros H Hi Hm. destruct (op_law_Ok _ _ _ _ _ _ _ H Hi Hm) as (Hi' & s & Hs & HP & ->). by split.
Qed.

(** An operation whose effects are steps is a frame for everything else. *)
Lemma op_law_frame {W A} (view : W → S) inv effect (m : M exn W A) :
  (∀ a s s', effect a s s' → rtc step s s') →
  gen_op_law view inv effect m → gen_frame_law view inv m.
Proof.
  intros Heff H w r w' Hi Hm. destruct (H _ _ _ Hi Hm) as (Hi' & s & Hs & He). split; [done|].
  destruct r as [a|x]; [|by rewrite He]. transitivity s; [done|]. by eapply Heff.
Qed.

Lemma frame_ret {W A} (view : W → S) inv (a : A) : gen_frame_law view inv (mret a : M exn W A).
Proof. intros w r w' Hi H. by injection H as <- <-. Qed.

Lemma frame_lift {W A} (view : W → S) inv (r : result exn A) : gen_frame_law view inv (lift r : M exn W A).
Proof. intros w r' w' Hi H. by injection H as <- <-. Qed.

Lemma frame_bind {W A B} (view : W → S) inv (m : M exn W A) (f : A → M exn W B) :
  gen_frame_law view inv m → (∀ a, gen_frame_law view inv (f a)) →
  gen_frame_law view inv (a ← m; f a).
Proof.
  intros Hm Hf w r w' Hi H. unfold mbind, M_bind in H.
  destruct (m w) as [[a|x] w1] eqn:E; destruct (Hm _ _ _ Hi E) as [Hi1 Hs1].
  - destruct (Hf _ _ _ _ Hi1 H) as [Hi2 Hs2]. split; [done|]. by transitivity (view w1).
  - by injection H as <- <-.
Qed.

Lemma frame_try_catch {W A} (view : W → S) inv (m : M exn W A) (h : exn → M exn W A) :
  gen_frame_law view inv m → (∀ x, gen_frame_law view inv (h x)) →
  gen_frame_law view inv (try_catch m h).
Proof.
  intros Hm Hh w r w' Hi H. unfold try_catch in H.
  destruct (m w) as [[a|x] w1] eqn:E; destruct (Hm _ _ _ Hi E) as [Hi1 Hs1].
  - by injection H as <- <-.
  - destruct (Hh _ _ _ _ Hi1 H) as [Hi2 Hs2]. split; [done|]. by transitivity (view w1).
Qed.

(** A component that lives in a part of a larger world. *)
Lemma op_law_zoom {W V A} (get : W → V) (set : V → W → W) (view : V → S) inv effect (m : M exn V A) :
  (∀ v w, get (set v w) = v) →
  gen_op_law view inv effect m →
  gen_op_law (λ w, view (get w)) (λ w, inv (get w)) effect (zoom get set m).
Proof.
  intros Hget H w r w' Hi Hm. unfold zoom in Hm. destruct (m (get w)) as [r0 v] eqn:E.
  injection Hm as <- <-. rewrite Hget. by apply (H _ _ _ Hi E).
Qed.
End contract.

(** ** Hoare triples for code that runs among other clients of a shared state.

    The state moves by [step]s of anyone at any time, so what a computation
    relies on between two calls are [Stable] assertions.  A triple also says
    that the computation itself moves the state by steps only, whether it
    returns or throws. *)

Section stable.
Context {S : Type} (step : S → S → Prop).

(** An assertion that no step of anyone falsifies. *)
Class Stable (P : S → Prop) : Prop := stable : ∀ s s', P s → step s s' → P s'.

Lemma stable_rtc P `{!Stable P} s s' : P s → rtc step s s' → P s'.
Proof. intros HP Hs. induction Hs as [|s s1 s2 H _ IH]; [done|]. apply IH. by eapply stable. Qed.

#[export] Instance stable_pure (φ : Prop) : Stable (λ _, φ).
Proof. by intros s s' H _. Qed.
#[export] Instance stable_and P Q : Stable P → Stable Q → Stable (λ s, P s ∧ Q s).
Proof. intros HP HQ s s' [H1 H2] Hs. split; by eapply stable. Qed.
#[export] Instance stable_or P Q : Stable P → Stable Q → Stable (λ s, P s ∨ Q s).
Proof. intros HP HQ s s' [H|H] Hs; [left|right]; by eapply stable. Qed.
#[export] Instance stable_exist {A} (P : A → S → Prop) : (∀ a, Stable (P a)) → Stable (λ s, ∃ a, P a s).
Proof. intros HP s s' [a H] Hs. exists a. by eapply (HP a). Qed.
#[export] Instance stable_impl (φ : Prop) P : Stable P → Stable (λ s, φ → P s).
Proof. intros HP s s' H Hs Hφ. by eapply stable; [|exact Hs]; auto. Qed.
End stable.

Section triple.
Context {S W : Type} (step : S → S → Prop) (view : W → S) (inv : W → Prop).
Abbreviation frame := (gen_frame_law step view inv) (only parsing).
Abbreviation Stable P := (Stable step P) (only parsing).

Definition triple {A} (P : S → Prop) (m : M exn W A) (Q : A → S → Prop) : Prop :=
  ∀ w r w', inv w → P (view w) → m w = (r, w') →
    inv w' ∧ rtc step (view w) (view w') ∧ match r with Ok a => Q a (view w') | Err _ => True end.

Lemma triple_conseq {A} (P P' : S → Prop) (Q Q' : A → S → Prop) m :
  triple P m Q → (∀ s, P' s → P s) → (∀ a s, Q a s → Q' a s) → triple P' m Q'.
Proof.
  intros H HP HQ w r w' Hi Hp Hm. destruct (H _ _ _ Hi (HP _ Hp) Hm) as (Hi' & Hs & Hr).
  do 2 (split; [done|]). destruct r; [by apply HQ|done].
Qed.

Lemma triple_pre {A} (P P' : S → Prop) (Q : A → S → Prop) m : triple P m Q → (∀ s, P' s → P s) → triple P' m Q.
Proof. intros. by eapply triple_conseq. Qed.

Lemma triple_post {A} (P : S → Prop) (Q Q' : A → S → Prop) m :
  triple P m Q → (∀ a s, Q a s → Q' a s) → triple P m Q'.
Proof. intros. by eapply triple_conseq. Qed.

Lemma triple_ret {A} (P : S → Prop) (Q : A → S → Prop) a : (∀ s, P s → Q a s) → triple P (mret a) Q.
Proof. intros H w r w' Hi Hp Hm. injection Hm as <- <-. split; [done|]. split; [done|]. by apply H. Qed.

Lemma triple_lift {A} (P : S → Prop) (Q : A → S → Prop) r :
  (∀ a s, r = Ok a → P s → Q a s) → triple P (lift r) Q.
Proof.
  intros H w r' w' Hi Hp Hm. injection Hm as <- <-. do 2 (split; [done|]). destruct r; [by apply H|done].
Qed.

Lemma triple_throw {A} (P : S → Prop) (Q : A → S → Prop) x : triple P (throw x) Q.
Proof. by apply triple_lift. Qed.

Lemma triple_throwM_if (P : S → Prop) (Q : unit → S → Prop) b x :
  (∀ s, b = false → P s → Q tt s) → triple P (throwM_if b x) Q.
Proof. intros H. apply triple_lift. intros [] s Hb. apply H. by destruct b. Qed.

Lemma triple_bind {A B} (P : S → Prop) (Q : A → S → Prop) (R : B → S → Prop) m f :
  triple P m Q → (∀ a, triple (Q a) (f a) R) → triple P (a ← m; f a) R.
Proof.
  intros Hm Hf w r w' Hi Hp H. unfold mbind, M_bind in H. destruct (m w) as [[a|x] w1] eqn:E.
  - destruct (Hm _ _ _ Hi Hp E) as (Hi1 & Hs1 & Hq). destruct (Hf _ _ _ _ Hi1 Hq H) as (Hi2 & Hs2 & Hr).
    do 2 (split; [done || (etrans; [exact Hs1|exact Hs2])|]). done.
  - destruct (Hm _ _ _ Hi Hp E) as (Hi1 & Hs1 & _). by injection H as <- <-.
Qed.

(** A frame keeps what is stable. *)
Lemma triple_frame {A} (P : S → Prop) `{!Stable P} (m : M exn W A) : frame m → triple P m (λ _, P).
Proof.
  intros H w r w' Hi Hp Hm. destruct (H _ _ _ Hi Hm) as [Hi' Hs]. do 2 (split; [done|]).
  destruct r; [|done]. by eapply stable_rtc.
Qed.

Lemma triple_bind_frame {A B} (P : S → Prop) `{!Stable P} (Q : B → S → Prop) (m : M exn W A) f :
  frame m → (∀ a, triple P (f a) Q) → triple P (a ← m; f a) Q.
Proof. intros Hm Hf. eapply triple_bind; [by apply triple_frame|done]. Qed.

Lemma triple_is_frame {A} (Q : A → S → Prop) m : triple (λ _, True) m Q → frame m.
Proof. intros H w r w' Hi Hm. by destruct (H _ _ _ Hi I Hm) as (? & ? & _). Qed.

Lemma triple_reads {A} (P : S → Prop) `{!Stable P} (R : A → S → Prop) m :
  gen_op_law step view inv (gen_reads R) m → triple P m (λ a s, P s ∧ R a s).
Proof.
  intros H w r w' Hi Hp Hm. destruct (H _ _ _ Hi Hm) as (Hi' & s & Hs & He). split; [done|].
  assert (P s) by (by eapply stable_rtc). destruct r as [a|x]; [|by rewrite He].
  destruct He as [Hr He]. by rewrite He.
Qed.

Lemma triple_op {A} (P : S → Prop) `{!Stable P} effect (Q : A → S → Prop) m :
  gen_op_law step view inv effect m → (∀ a s s', P s → effect a s s' → rtc step s s' ∧ Q a s') →
  triple P m Q.
Proof.
  intros Hl He w r w' Hi Hp Hm. destruct (Hl _ _ _ Hi Hm) as (Hi' & s & Hs & Hr). split; [done|].
  assert (P s) by (by eapply stable_rtc). destruct r as [a|x]; [|by rewrite Hr].
  destruct (He _ _ _ ltac:(done) Hr) as [Hs' HQ]. split; [|done]. etrans; [exact Hs|exact Hs'].
Qed.

Lemma triple_gets {A} (P : S → Prop) (Q : A → S → Prop) (f : W → A) : (∀ a s, P s → Q a s) → triple P (gets f) Q.
Proof. intros H w r w' Hi Hp Hm. injection Hm as <- <-. do 2 (split; [done|]). by apply H. Qed.

Lemma triple_try_catch {A} (P : S → Prop) `{!Stable P} (Q : A → S → Prop) m h :
  triple P m Q → (∀ x, triple P (h x) Q) → triple P (try_catch m h) Q.
Proof.
  intros Hm Hh w r w' Hi Hp H. unfold try_catch in H. destruct (m w) as [[a|x] w1] eqn:E;
    destruct (Hm _ _ _ Hi Hp E) as (Hi1 & Hs1 & Hq); [by injection H as <- <-|].
  destruct (Hh x _ _ _ Hi1 ltac:(by eapply stable_rtc) H) as (Hi2 & Hs2 & Hr).
  do 2 (split; [done || (etrans; [exact Hs1|exact Hs2])|]). done.
Qed.

Lemma triple_try_finally {A} (P : S → Prop) (Q : A → S → Prop) `{!∀ a, Stable (Q a)} m f :
  triple P m Q → frame f → triple P (try_finally m f) Q.
Proof.
  intros Hm Hf w r w' Hi Hp Hrun. unfold try_finally in Hrun. destruct (m w) as [r1 w1] eqn:E.
  destruct (Hm _ _ _ Hi Hp E) as (Hi1 & Hs1 & Hq). destruct (f w1) as [u w2] eqn:E2.
  destruct (Hf _ _ _ Hi1 E2) as [Hi2 Hs2].
  assert (rtc step (view w) (view w2)) by (etrans; [exact Hs1|exact Hs2]).
  destruct u; injection Hrun as <- <-; do 2 (split; [done|]); [|done].
  destruct r1 as [b|]; [|done]. by eapply (stable_rtc step (Q b)).
Qed.

Lemma triple_pure {A} (φ : Prop) (P : S → Prop) (Q : A → S → Prop) m :
  (φ → triple P m Q) → triple (λ s, φ ∧ P s) m Q.
Proof. intros H w r w' Hi [Hφ Hp] Hm. by apply (H Hφ). Qed.

Lemma triple_exist {A B} (P : B → S → Prop) (Q : A → S → Prop) m :
  (∀ b, triple (P b) m Q) → triple (λ s, ∃ b, P b s) m Q.
Proof. intros H w r w' Hi [b Hp] Hm. by apply (H b). Qed.

Lemma triple_or {A} (P P' : S → Prop) (Q : A → S → Prop) m :
  triple P m Q → triple P' m Q → triple (λ s, P s ∨ P' s) m Q.
Proof. intros H H' w r w' Hi [Hp|Hp] Hm; [by apply H|by apply H']. Qed.

(** What is stable is kept by any code that has a triple. *)
Lemma triple_keep {A} (R P : S → Prop) `{!Stable R} (Q : A → S → Prop) m :
  triple P m Q → triple (λ s, R s ∧ P s) m (λ a s, R s ∧ Q a s).
Proof.
  intros H w r w' Hi [Hr Hp] Hm. destruct (H _ _ _ Hi Hp Hm) as (Hi' & Hs & Hq). do 2 (split; [done|]).
  destruct r; [|done]. split; [|done]. by eapply stable_rtc.
Qed.

(** The promise returned without [await] runs outside the handler. *)
Lemma triple_try_tail {A} (P : S → Prop) `{!Stable P} (Q : A → S → Prop) m h :
  triple P m (λ p s, ∃ R, R s ∧ triple R p Q) → (∀ x, triple P (h x) Q) → triple P (try_tail m h) Q.
Proof.
  intros Hm Hh w r w' Hi Hp H. unfold try_tail in H. destruct (m w) as [[p|x] w1] eqn:E;
    destruct (Hm _ _ _ Hi Hp E) as (Hi1 & Hs1 & Hq).
  - destruct Hq as (R & HR & Ht). destruct (Ht _ _ _ Hi1 HR H) as (Hi2 & Hs2 & Hr).
    do 2 (split; [done || (etrans; [exact Hs1|exact Hs2])|]). done.
  - destruct (Hh x _ _ _ Hi1 ltac:(by eapply stable_rtc) H) as (Hi2 & Hs2 & Hr).
    do 2 (split; [done || (etrans; [exact Hs1|exact Hs2])|]). done.
Qed.

(** ** Frames are closed under the ways of composing code *)
Lemma frame_gets {A} (f : W → A) : frame (gets f).
Proof. intros w r w' Hi H. by injection H as <- <-. Qed.

Lemma frame_throw {A} x : frame (throw x : M exn W A).
Proof. apply frame_lift. Qed.

Lemma frame_try_finally {A} (m : M exn W A) f : frame m → frame f → frame (try_finally m f).
Proof.
  intros Hm Hf w r w' Hi H. unfold try_finally in H. destruct (m w) as [r1 w1] eqn:E.
  destruct (Hm _ _ _ Hi E) as [Hi1 Hs1]. destruct (f w1) as [u w2] eqn:E2.
  destruct (Hf _ _ _ Hi1 E2) as [Hi2 Hs2].
  assert (rtc step (view w) (view w2)) by (etrans; [exact Hs1|exact Hs2]). by destruct u; injection H as <- <-.
Qed.
End triple.

(** [frames]: the calls known to be frames; [solve_frame] composes them. *)
Create HintDb frames.
#[export] Hint Resolve frame_ret frame_lift frame_gets frame_throw : frames.

Ltac solve_frame :=
  repeat (intros; first
    [ solve [eauto with frames]
    | apply frame_bind | apply frame_try_catch | apply frame_try_finally
    | case_match ]).
