(* ===== verification/AuthStore.v ===== *)
(** The contract of [AuthorizationStorePort]: an abstract state (approvals,
    grants and usage records by key), one atomic transition per operation, and
    the laws a store promises its clients.  Every law lets other clients act
    between a call and its effect, and lets a call fail without effect. *)
From S2P Require Import Prelude Js Identifiers Contract AuthTypes.
Local Open Scope Z_scope.

(** ** What the operations promise of the records, field by field *)
Definition resolved_approval (current : ApprovalRequest) (input : ResolveApprovalInput)
    : ApprovalRequest :=
  mkApproval (ap_policyAuthorization current) (ap_id current) (ap_revision current + 1)
    (ap_ownerId current) (ap_agentId current) (ap_runId current) (ap_intentId current)
    (ap_intentSnapshot current) (ap_semanticSnapshotHash current)
    (resolution_status (ra_resolution input)) (ap_deliveryState current)
    (ap_requestedAt current) (ap_expiresAt current) (Some (ra_decidedAt input))
    (grant_id <$> ra_grant input) (ap_finalRisk current) (ap_recentAuthenticationRequired current)
    (match ra_recentAuthenticationRef input with
     | Some ref => Some ref
     | None => ap_recentAuthenticationRef current
     end).

Definition consumed_grant (current : GrantRecord) (input : ConsumeGrantInput) : GrantRecord :=
  mkGrant (grant_id current) (grant_revision current + 1) (grant_ownerId current)
    (grant_agentId current) (grant_kind current) (grant_scope current)
    (grant_intentFingerprint current) (grant_sourceApprovalRequestId current)
    (grant_validFrom current) (grant_expiresAt current) (grant_maxUses current)
    (grant_uses current + 1) (grant_maxTotalCostMicros current)
    (grant_spentCostMicros current + cg_costMicros input) (grant_revokedAt current)
    (grant_revocationReasonCode current).

Definition revoked_grant (current : GrantRecord) (revokedAt reasonCode : string) : GrantRecord :=
  mkGrant (grant_id current) (grant_revision current + 1) (grant_ownerId current)
    (grant_agentId current) (grant_kind current) (grant_scope current)
    (grant_intentFingerprint current) (grant_sourceApprovalRequestId current)
    (grant_validFrom current) (grant_expiresAt current) (grant_maxUses current)
    (grant_uses current) (grant_maxTotalCostMicros current)
    (grant_spentCostMicros current) (Some revokedAt) (Some reasonCode).

(** A grant that a use can be taken from: not revoked, in its term, with a use
    left and the cost within what is left to spend. *)
Record consumable (g : GrantRecord) (input : ConsumeGrantInput) : Prop := mk_consumable {
  cn_revoked : grant_revokedAt g = None;
  cn_from : str_le (grant_validFrom g) (cg_consumedAt input) = true;
  cn_expires : str_lt (cg_consumedAt input) (grant_expiresAt g) = true;
  cn_uses : grant_uses g < grant_maxUses g;
  cn_cost : grant_spentCostMicros g + cg_costMicros input ≤ grant_maxTotalCostMicros g;
}.

(** ** Abstract state *)
Record auth_state := mkAuth {
  au_approvals : gmap string ApprovalRequest;
  au_grants : gmap string GrantRecord;
  au_usage : gmap string GrantRecord }.

#[global] Instance eta_auth : Eta auth_state := λ r,
  mkAuth (au_approvals r) (au_grants r) (au_usage r).

Definition auth_empty : auth_state := mkAuth ∅ ∅ ∅.

Definition put_approval (a : ApprovalRequest) (s : auth_state) : auth_state :=
  s <| au_approvals := <[ap_id a := a]> (au_approvals s) |>.

Definition put_grant (g : GrantRecord) (s : auth_state) : auth_state :=
  s <| au_grants := <[grant_id g := g]> (au_grants s) |>.

Definition put_usage (usageId : option string) (g : GrantRecord) (s : auth_state) : auth_state :=
  match truthy usageId with
  | Some u => s <| au_usage := <[u := g]> (au_usage s) |>
  | None => s
  end.

Definition replay_of (usageId : option string) (s : auth_state) : option GrantRecord :=
  u ← truthy usageId; au_usage s !! u.

(** ** Atomic effects of the operations that succeed *)
Definition create_effect (request result : ApprovalRequest) (s s' : auth_state) : Prop :=
  result = request ∧ au_approvals s !! ap_id request = None ∧ s' = put_approval request s.

Definition resolve_effect (input : ResolveApprovalInput) (result : ApprovalRequest)
    (s s' : auth_state) : Prop :=
  ∃ current,
    au_approvals s !! ra_approvalRequestId input = Some current ∧
    ap_revision current = ra_expectedRevision input ∧ ap_status current = approval_pending ∧
    ap_semanticSnapshotHash current = ra_semanticSnapshotHash input ∧
    (ra_resolution input = resolve_approved ↔ ra_grant input ≠ None) ∧
    result = resolved_approval current input ∧
    match ra_grant input with
    | Some g => au_grants s !! grant_id g = None ∧ s' = put_approval result (put_grant g s)
    | None => s' = put_approval result s
    end.

Definition consume_effect (input : ConsumeGrantInput) (result : GrantRecord)
    (s s' : auth_state) : Prop :=
  match replay_of (cg_usageId input) s with
  | Some replay => result = replay ∧ s' = s
  | None => ∃ current,
      au_grants s !! cg_grantId input = Some current ∧
      grant_revision current = cg_expectedRevision input ∧
      consumable current input ∧
      result = consumed_grant current input ∧
      s' = put_usage (cg_usageId input) result (put_grant result s)
  end.

Definition revoke_effect (grantId revokedAt reasonCode : string) (expectedRevision : option Z)
    (result : GrantRecord) (s s' : auth_state) : Prop :=
  ∃ current,
    au_grants s !! grantId = Some current ∧
    (∀ e, expectedRevision = Some e → grant_revision current = e) ∧
    (if grant_revokedAt current !== None then result = current ∧ s' = s
     else result = revoked_grant current revokedAt reasonCode ∧ s' = put_grant result s).

(** One atomic transition of the store by any of its clients. *)
Inductive auth_step (s s' : auth_state) : Prop :=
  | auth_create request result : create_effect request result s s' → auth_step s s'
  | auth_resolve input result : resolve_effect input result s s' → auth_step s s'
  | auth_consume input result : consume_effect input result s s' → auth_step s s'
  | auth_revoke grantId revokedAt reasonCode e result :
      revoke_effect grantId revokedAt reasonCode e result s s' → auth_step s s'.

(** Records are stored under their identifier. *)
Record auth_wf (s : auth_state) : Prop := mk_auth_wf {
  wf_approval_key : ∀ k a, au_approvals s !! k = Some a → ap_id a = k;
  wf_grant_key : ∀ k g, au_grants s !! k = Some g → grant_id g = k;
}.

Lemma auth_wf_empty : auth_wf auth_empty.
Proof. split; cbn; intros k x; by rewrite lookup_empty. Qed.

(** ** How records evolve *)
(** The identity, scope and limits of a grant are fixed; a revision counts
    every change, a use changes at most one unit per revision, and nothing
    happens after revocation. *)
Record grant_evolves (g g' : GrantRecord) : Prop := mk_evolves {
  ev_id : grant_id g' = grant_id g;
  ev_owner : grant_ownerId g' = grant_ownerId g;
  ev_agent : grant_agentId g' = grant_agentId g;
  ev_kind : grant_kind g' = grant_kind g;
  ev_scope : grant_scope g' = grant_scope g;
  ev_fingerprint : grant_intentFingerprint g' = grant_intentFingerprint g;
  ev_source : grant_sourceApprovalRequestId g' = grant_sourceApprovalRequestId g;
  ev_from : grant_validFrom g' = grant_validFrom g;
  ev_expires : grant_expiresAt g' = grant_expiresAt g;
  ev_maxUses : grant_maxUses g' = grant_maxUses g;
  ev_maxCost : grant_maxTotalCostMicros g' = grant_maxTotalCostMicros g;
  ev_revision : grant_revision g ≤ grant_revision g';
  ev_uses : 0 ≤ grant_uses g' - grant_uses g ≤ grant_revision g' - grant_revision g;
  ev_same : grant_revision g' = grant_revision g → g' = g;
  ev_revoked : grant_revokedAt g ≠ None → g' = g;
  ev_bounded : grant_uses g ≤ grant_maxUses g → grant_uses g' ≤ grant_maxUses g';
  ev_affordable : grant_spentCostMicros g ≤ grant_maxTotalCostMicros g →
    grant_spentCostMicros g' ≤ grant_maxTotalCostMicros g';
}.

Lemma grant_evolves_refl g : grant_evolves g g.
Proof. constructor; try done; lia. Qed.

Lemma grant_evolves_trans g1 g2 g3 :
  grant_evolves g1 g2 → grant_evolves g2 g3 → grant_evolves g1 g3.
Proof.
  intros [] []. constructor; try congruence; try lia; auto.
  - intros H. assert (grant_revision g2 = grant_revision g1) by lia.
    assert (grant_revision g3 = grant_revision g2) by lia. rewrite ev_same1; auto.
  - intros Hr. pose proof (ev_revoked0 Hr). subst g2. auto.
Qed.

Lemma consumed_evolves g input :
  consumable g input → grant_evolves g (consumed_grant g input).
Proof. intros []. constructor; cbn; try done; lia. Qed.

Lemma revoked_evolves g revokedAt reasonCode :
  grant_revokedAt g = None → grant_evolves g (revoked_grant g revokedAt reasonCode).
Proof. intros Hr. constructor; cbn; try done; lia. Qed.

(** An approval changes at most once, from pending to resolved. *)
Definition approval_evolves (a a' : ApprovalRequest) : Prop :=
  a' = a ∨ (ap_status a = approval_pending ∧ ∃ input, a' = resolved_approval a input).

Lemma resolved_status a input :
  ap_status (resolved_approval a input) = resolution_status (ra_resolution input).
Proof. unfold resolved_approval. by destruct (ra_recentAuthenticationRef input). Qed.

Lemma resolved_id a input : ap_id (resolved_approval a input) = ap_id a.
Proof. unfold resolved_approval. by destruct (ra_recentAuthenticationRef input). Qed.

Lemma approval_evolves_trans a1 a2 a3 :
  approval_evolves a1 a2 → approval_evolves a2 a3 → approval_evolves a1 a3.
Proof.
  intros [->|(Hp & input & ->)] [->|(Hp' & H)]; [by left|by right|right; eauto|].
  rewrite resolved_status in Hp'. by destruct (ra_resolution input).
Qed.

(** ** Steps of the store *)
Lemma put_usage_grants u g s : au_grants (put_usage u g s) = au_grants s.
Proof. unfold put_usage. by destruct (truthy u). Qed.

Lemma put_usage_approvals u g s : au_approvals (put_usage u g s) = au_approvals s.
Proof. unfold put_usage. by destruct (truthy u). Qed.

Lemma put_usage_wf u g s : auth_wf s → auth_wf (put_usage u g s).
Proof. intros []. by split; rewrite ?put_usage_grants, ?put_usage_approvals. Qed.

Lemma put_grant_wf g s : auth_wf s → auth_wf (put_grant g s).
Proof. intros []. split; cbn; [done|]. intros k h [[<- <-]|[? ?]]%lookup_insert_Some; auto. Qed.

Lemma put_approval_wf a s : auth_wf s → auth_wf (put_approval a s).
Proof. intros []. split; cbn; [|done]. intros k h [[<- <-]|[? ?]]%lookup_insert_Some; auto. Qed.

Lemma consume_effect_wf input g s s' : consume_effect input g s s' → auth_wf s → auth_wf s'.
Proof.
  unfold consume_effect. destruct (replay_of _ _); [by intros [_ ->]|].
  intros (? & _ & _ & _ & _ & ->) ?. by apply put_usage_wf, put_grant_wf.
Qed.

Lemma auth_step_wf s s' : auth_step s s' → auth_wf s → auth_wf s'.
Proof.
  intros [? ? (_ & _ & ->)|input ? (c & _ & _ & _ & _ & _ & _ & H)|? ? H|? ? ? ? ? (c & _ & _ & H)] Hwf.
  - by apply put_approval_wf.
  - destruct (ra_grant input); [destruct H as [_ ->]|subst s'];
      auto using put_approval_wf, put_grant_wf.
  - by eapply consume_effect_wf.
  - case_bool_decide; destruct H as [_ ->]; [|done]. by apply put_grant_wf.
Qed.

(** A grant that is put back evolved leaves every grant evolved. *)
Lemma put_evolved s g g' k h :
  au_grants s !! grant_id g = Some g → grant_evolves g g' → au_grants s !! k = Some h →
  ∃ h', au_grants (put_grant g' s) !! k = Some h' ∧ grant_evolves h h'.
Proof.
  intros Hg He Hk. cbn. rewrite (ev_id _ _ He). destruct (decide (grant_id g = k)) as [Hk'|Hne].
  - subst k. rewrite lookup_insert_eq. exists g'. split; [done|]. by simplify_eq.
  - rewrite lookup_insert_ne by done. exists h. split; [done|]. apply grant_evolves_refl.
Qed.

Lemma grant_step s s' k g :
  auth_wf s → auth_step s s' → au_grants s !! k = Some g →
  ∃ g', au_grants s' !! k = Some g' ∧ grant_evolves g g'.
Proof.
  intros Hwf [? ? (_ & _ & ->)|input ? (c & _ & _ & _ & _ & _ & _ & H)|input ? H
    |? ? ? ? ? (c & Hc & _ & H)] Hk.
  - cbn. eauto using grant_evolves_refl.
  - destruct (ra_grant input) as [h|]; [|subst s'; cbn; eauto using grant_evolves_refl].
    destruct H as [Hn ->]. cbn. exists g. split; [|apply grant_evolves_refl].
    rewrite lookup_insert_ne; [done|]. congruence.
  - unfold consume_effect in H. destruct (replay_of _ _).
    { destruct H as [_ ->]. eauto using grant_evolves_refl. }
    destruct H as (c & Hc & _ & Hn & -> & ->). rewrite put_usage_grants.
    eapply (put_evolved s c); [|by apply consumed_evolves|done].
    by rewrite (wf_grant_key _ Hwf _ _ Hc).
  - destruct (grant_revokedAt c !== None) eqn:Hr; destruct H as [-> ->].
    { eauto using grant_evolves_refl. }
    apply negb_false_iff, bool_decide_eq_true in Hr.
    eapply (put_evolved s c); [|by apply revoked_evolves|done].
    by rewrite (wf_grant_key _ Hwf _ _ Hc).
Qed.

Lemma approval_step s s' k a :
  auth_wf s → auth_step s s' → au_approvals s !! k = Some a →
  ∃ a', au_approvals s' !! k = Some a' ∧ approval_evolves a a'.
Proof.
  intros Hwf [request ? (-> & Hn & ->)|input ? (c & Hc & _ & Hp & _ & _ & -> & H)|input ? H
    |? ? ? ? ? (c & Hc & _ & H)] Hk.
  - exists a. split; [|by left]. cbn. rewrite lookup_insert_ne; [done|]. congruence.
  - assert (au_approvals s' = <[ap_id c := resolved_approval c input]> (au_approvals s)) as ->.
    { destruct (ra_grant input); [destruct H as [_ ->]|subst s']; cbn; by rewrite ?resolved_id. }
    rewrite (wf_approval_key _ Hwf _ _ Hc).
    destruct (decide (ra_approvalRequestId input = k)) as [Hk'|Hne].
    + subst k. rewrite lookup_insert_eq. eexists. split; [done|]. right. simplify_eq. eauto.
    + rewrite lookup_insert_ne by done. exists a. split; [done|by left].
  - assert (au_approvals s' = au_approvals s) as ->; [|exists a; split; [done|by left]].
    unfold consume_effect in H. destruct (replay_of _ _); [by destruct H as [_ ->]|].
    destruct H as (? & _ & _ & _ & _ & ->). by rewrite put_usage_approvals.
  - exists a. split; [|by left]. case_bool_decide; by destruct H as [_ ->].
Qed.

Lemma usage_step s s' u g :
  auth_step s s' → au_usage s !! u = Some g → au_usage s' !! u = Some g.
Proof.
  intros [? ? (_ & _ & ->)|input ? (c & _ & _ & _ & _ & _ & _ & H)|input ? H
    |? ? ? ? ? (c & Hc & _ & H)] Hu; [done| | |].
  - destruct (ra_grant input); [destruct H as [_ ->]|subst s']; done.
  - unfold consume_effect, replay_of in H. destruct (truthy (cg_usageId input)) as [v|] eqn:Hv; cbn in H.
    + destruct (au_usage s !! v) eqn:Hs; [by destruct H as [_ ->]|].
      destruct H as (? & _ & _ & _ & _ & ->). unfold put_usage. rewrite Hv. cbn.
      rewrite lookup_insert_ne; [done|]. congruence.
    + destruct H as (? & _ & _ & _ & _ & ->). unfold put_usage. by rewrite Hv.
  - case_bool_decide; by destruct H as [_ ->].
Qed.

(** *** Any number of steps: what other clients can do meanwhile *)
Abbreviation interf := (rtc auth_step).

Lemma interf_wf s s' : interf s s' → auth_wf s → auth_wf s'.
Proof. induction 1; eauto using auth_step_wf. Qed.

Lemma interf_grant s s' k g :
  auth_wf s → interf s s' → au_grants s !! k = Some g →
  ∃ g', au_grants s' !! k = Some g' ∧ grant_evolves g g'.
Proof.
  intros Hwf H. revert Hwf g. induction H as [|s s1 s2 Hs _ IH]; intros Hwf g Hk.
  { eauto using grant_evolves_refl. }
  destruct (grant_step _ _ _ _ Hwf Hs Hk) as (g1 & Hk1 & He1).
  destruct (IH (auth_step_wf _ _ Hs Hwf) _ Hk1) as (g2 & Hk2 & He2).
  eauto using grant_evolves_trans.
Qed.

Lemma interf_approval s s' k a :
  auth_wf s → interf s s' → au_approvals s !! k = Some a →
  ∃ a', au_approvals s' !! k = Some a' ∧ approval_evolves a a'.
Proof.
  intros Hwf H. revert Hwf a. induction H as [|s s1 s2 Hs _ IH]; intros Hwf a Hk.
  { exists a. split; [done|by left]. }
  destruct (approval_step _ _ _ _ Hwf Hs Hk) as (a1 & Hk1 & He1).
  destruct (IH (auth_step_wf _ _ Hs Hwf) _ Hk1) as (a2 & Hk2 & He2).
  eauto using approval_evolves_trans.
Qed.

Lemma interf_usage s s' u g : interf s s' → au_usage s !! u = Some g → au_usage s' !! u = Some g.
Proof. induction 1; eauto using usage_step. Qed.

(** A compare-and-set on the revision sees the very record that was read. *)
Lemma interf_same_revision s s' k g g' :
  auth_wf s → interf s s' → au_grants s !! k = Some g → au_grants s' !! k = Some g' →
  grant_revision g' = grant_revision g → g' = g.
Proof.
  intros Hwf Hi Hg Hg' Hr. destruct (interf_grant _ _ _ _ Hwf Hi Hg) as (h & Hh & He).
  assert (h = g') as -> by congruence. by apply (ev_same _ _ He).
Qed.

(** ** The laws of a store

    [view] is the abstract state of a world and [inv] its well-formedness. *)
Abbreviation op_law := (gen_op_law auth_step).
Abbreviation reads := (gen_reads (S:=auth_state)).
Abbreviation frame_law := (gen_frame_law auth_step).

Class AuthorizationStoreLaws (W : Type) `{!AuthorizationStorePort W}
    (view : W → auth_state) (inv : W → Prop) : Prop := {
  law_wf : ∀ w, inv w → auth_wf (view w);
  law_createApproval : ∀ request,
    op_law view inv (create_effect request) (createApproval request);
  law_findApprovalByIntent : ∀ intentId,
    op_law view inv (reads (λ o s, match o with
      | Some a => au_approvals s !! ap_id a = Some a ∧ ap_intentId a = intentId
      | None => ∀ k a, au_approvals s !! k = Some a → ap_intentId a ≠ intentId
      end)) (findApprovalByIntent intentId);
  law_getApproval : ∀ id,
    op_law view inv (reads (λ o s, o = au_approvals s !! id)) (getApproval id);
  law_listApprovals : ∀ ownerId agentId,
    op_law view inv (reads (λ l s, ∀ a, a ∈ l ↔ au_approvals s !! ap_id a = Some a ∧
      ap_ownerId a = ownerId ∧ ap_agentId a = agentId)) (listApprovals ownerId agentId);
  law_resolveApproval : ∀ input, op_law view inv (resolve_effect input) (resolveApproval input);
  law_listGrants : ∀ ownerId agentId,
    op_law view inv (reads (λ l s, ∀ g, g ∈ l ↔ au_grants s !! grant_id g = Some g ∧
      grant_ownerId g = ownerId ∧ grant_agentId g = agentId)) (listGrants ownerId agentId);
  law_consumeGrant : ∀ input, op_law view inv (consume_effect input) (consumeGrant input);
  law_revokeGrant : ∀ id at_ reason e,
    op_law view inv (revoke_effect id at_ reason e) (store_revokeGrant id at_ reason e);
}.

(** A grant that was listed is consumed as it was listed: the revision check
    excludes every change made in between. *)
Lemma consume_listed s0 s s' g input g' :
  auth_wf s0 → au_grants s0 !! grant_id g = Some g → interf s0 s →
  cg_grantId input = grant_id g → cg_expectedRevision input = grant_revision g →
  replay_of (cg_usageId input) s = None →
  consume_effect input g' s s' →
  au_grants s !! grant_id g = Some g ∧ g' = consumed_grant g input ∧
  au_grants s' !! grant_id g = Some g'.
Proof.
  intros Hwf Hg Hi Hid Hrev Hr He. unfold consume_effect in He. rewrite Hr, Hid, Hrev in He.
  destruct He as (c & Hc & Hcr & _ & -> & ->).
  pose proof (interf_same_revision _ _ _ _ _ Hwf Hi Hg Hc Hcr). subst c.
  do 2 (split; [done|]). rewrite put_usage_grants. cbn. apply lookup_insert_eq.
Qed.

(** What a resolution leaves in the store. *)
Lemma resolve_stored input a s s' :
  auth_wf s → resolve_effect input a s s' →
  au_approvals s' !! ra_approvalRequestId input = Some a ∧
  ap_id a = ra_approvalRequestId input ∧
  ap_status a = resolution_status (ra_resolution input) ∧
  ap_grantId a = grant_id <$> ra_grant input ∧
  (∀ g, ra_grant input = Some g → au_grants s' !! grant_id g = Some g).
Proof.
  intros Hwf (c & Hc & _ & _ & _ & _ & -> & H).
  assert (ap_id (resolved_approval c input) = ra_approvalRequestId input) as Hid.
  { rewrite resolved_id. by apply (wf_approval_key _ Hwf). }
  assert (au_approvals s' = <[ap_id (resolved_approval c input) := resolved_approval c input]>
    (au_approvals s)) as Ha.
  { destruct (ra_grant input); [destruct H as [_ ->]|subst s']; done. }
  rewrite Ha, <-Hid. split; [apply lookup_insert_eq|]. split; [done|].
  split; [apply resolved_status|]. split.
  - unfold resolved_approval. by destruct (ra_recentAuthenticationRef input).
  - intros g Hg. rewrite Hg in H. destruct H as [_ ->]. cbn. apply lookup_insert_eq.
Qed.

(** A consumption under a usage identifier: replayed, or recorded. *)
Lemma consume_usage input u g s s' :
  truthy (cg_usageId input) = Some u → consume_effect input g s s' →
  match au_usage s !! u with
  | Some r => g = r ∧ s' = s
  | None => au_usage s' !! u = Some g ∧ replay_of (cg_usageId input) s = None
  end.
Proof.
  intros Hu He. unfold consume_effect, replay_of, put_usage in *. rewrite Hu in *. cbn in *.
  destruct (au_usage s !! u); [done|]. destruct He as (? & _ & _ & _ & _ & ->). cbn.
  split; [apply lookup_insert_eq|done].
Qed.
