(* ===== verification/Deterministic.v ===== *)
(** packages/testing/src/deterministic.ts: the manual clock, the counting
    identifier generator and the failure scheduler that the in-memory adapters
    are driven with. *)
From S2P Require Import Prelude Js JsDate Identifiers Contract.
Local Open Scope Z_scope.

(** ** FailureScheduler: [NO_FAILURES] or a [DeterministicFailureScheduler],
    whose two maps count the attempts and hold the scheduled failures. *)
Inductive FailureScheduler :=
  | NO_FAILURES
  | DeterministicFailureScheduler (attempts : jsmap Z) (scheduled : jsmap (list Z)).

Definition failOn (point : string) (attempts : list Z) (f : FailureScheduler) : FailureScheduler :=
  match f with
  | NO_FAILURES => NO_FAILURES
  | DeterministicFailureScheduler done scheduled =>
      DeterministicFailureScheduler done (map_set point attempts scheduled)
  end.

Definition attemptsAt (point : string) (f : FailureScheduler) : Z :=
  match f with
  | NO_FAILURES => 0
  | DeterministicFailureScheduler attempts _ => default 0 (map_get point attempts)
  end.

Definition checkpoint (point : string) : M exn FailureScheduler unit := λ f,
  match f with
  | NO_FAILURES => (Ok tt, f)
  | DeterministicFailureScheduler attempts scheduled =>
      let attempt := default 0 (map_get point attempts) + 1 in
      let f := DeterministicFailureScheduler (map_set point attempt attempts) scheduled in
      if match map_get point scheduled with Some l => includes attempt l | None => false end
      then (Err (portError INJECTED_FAILURE
                   ("Injected failure at " +:+ point +:+ " attempt " +:+ numToString attempt)
                   [("point", point); ("attempt", numToString attempt)]), f)
      else (Ok tt, f)
  end.

(** ** ManualClock: the current time as an ISO string *)
Definition ManualClock := string.

Definition clock_initial : ManualClock := "2026-08-25T00:00:00.000Z".

Definition now : M exn ManualClock string := gets id.

Definition invalidTime : exn := OtherError "RangeError" "Invalid time value".

(** [new Date(t).toISOString()]: a time outside the range of [Date] throws. *)
Definition isoOfTime (t : Z) : result exn string :=
  if MAX_TIME <? Z.abs t then Err invalidTime else Ok (toISOString t).

(** [set] and [advance]; a time string is read by [dateParse]. *)
Definition clock_set (value : string) : M exn ManualClock unit := λ c,
  match (match dateParse value with None => Err invalidTime | Some t => isoOfTime t end) with
  | Ok c' => (Ok tt, c')
  | Err x => (Err x, c)
  end.

Definition advance (milliseconds : Z) : M exn ManualClock unit := λ c,
  match (match dateParse c with None => Err invalidTime | Some t => isoOfTime (t + milliseconds) end) with
  | Ok c' => (Ok tt, c')
  | Err x => (Err x, c)
  end.

(** ** DeterministicIdGenerator: one counter per namespace *)
Definition DeterministicIdGenerator := jsmap Z.

Definition next (namespace : string) : M exn DeterministicIdGenerator string := λ counters,
  let next := default 0 (map_get namespace counters) + 1 in
  (Ok (namespace +:+ "-" +:+ padStart (numToString next) 4 "0"),
   map_set namespace next counters).

(** A scheduler only ever counts: it never touches another store. *)
Lemma checkpoint_cases point f : ∃ r f', checkpoint point f = (r, f') ∧
  (r = Ok tt ∨ ∃ m d, r = Err (portError INJECTED_FAILURE m d)).
Proof. destruct f as [|a s]; cbn; [by eauto|]. case_match; eauto 10. Qed.

(** An operation of an in-memory adapter: a checkpoint, then a body that fails
    without changing anything or has its effect at once. *)
Lemma checkpoint_law {S V A} (step : S → S → Prop) (view : V → S) (inv : V → Prop)
    (get : V → FailureScheduler) (set : FailureScheduler → V → V)
    (effect : A → S → S → Prop) (body : M exn V A) point :
  (∀ f v, inv v → inv (set f v) ∧ view (set f v) = view v) →
  (∀ v r v', inv v → body v = (r, v') →
     match r with
     | Ok a => inv v' ∧ effect a (view v) (view v')
     | Err _ => v' = v
     end) →
  gen_op_law step view inv effect (zoom get set (checkpoint point) ;; body).
Proof.
  intros Hset Hbody v r v' Hinv H.
  destruct (checkpoint_cases point (get v)) as (r0 & f & Hc & Hr0).
  unfold mbind, M_bind, zoom in H. rewrite Hc in H. destruct (Hset f v Hinv) as [Hif Hvf].
  destruct Hr0 as [->|(m & d & ->)].
  - apply Hbody in H; [|done]. rewrite <-Hvf. destruct r as [a|x].
    + destruct H as [Hi He]. split; [done|]. by exists (view (set f v)).
    + subst v'. split; [done|]. by exists (view (set f v)).
  - injection H as <- <-. split; [done|]. by exists (view v).
Qed.
