(* ===== verification/InMemoryAuth.v ===== *)
(** packages/testing/src/in-memory/authorization.ts: the in-memory store, and
    the proof that it keeps the laws of [AuthorizationStorePort].

    [frozenCopy] (helpers.ts) is a deep copy: on the immutable values of this
    development it is the identity. *)
From S2P Require Import Prelude Js Identifiers Contract AuthTypes AuthStore Deterministic.
Local Open Scope Z_scope.

Record InMemoryAuthorizationStore := mkStore {
  mem_approvals : jsmap ApprovalRequest;
  mem_grants : jsmap GrantRecord;
  mem_usage : jsmap GrantRecord;
  mem_failures : FailureScheduler }.

#[global] Instance eta_store : Eta InMemoryAuthorizationStore := λ r,
  mkStore (mem_approvals r) (mem_grants r) (mem_usage r) (mem_failures r).

Definition new_store (failures : FailureScheduler) : InMemoryAuthorizationStore :=
  mkStore [] [] [] failures.

Definition frozenCopy {A} (a : A) : A := a.

(** The records that the operations build by spreading the current one, and the
    condition of [consumeGrant] under which a grant is refused. *)
Definition mem_resolved (current : ApprovalRequest) (input : ResolveApprovalInput) : ApprovalRequest :=
  let resolved :=
    current <| ap_revision := ap_revision current + 1 |>
      <| ap_status := resolution_status (ra_resolution input) |>
      <| ap_decidedAt := Some (ra_decidedAt input) |>
      <| ap_grantId := grant_id <$> ra_grant input |> in
  match ra_recentAuthenticationRef input with
  | Some ref => resolved <| ap_recentAuthenticationRef := Some ref |>
  | None => resolved
  end.

Definition mem_not_consumable (current : GrantRecord) (input : ConsumeGrantInput) : bool :=
  (grant_revokedAt current !== None)
  || str_lt (cg_consumedAt input) (grant_validFrom current)
  || str_le (grant_expiresAt current) (cg_consumedAt input)
  || (grant_maxUses current <=? grant_uses current)
  || (grant_maxTotalCostMicros current <? grant_spentCostMicros current + cg_costMicros input).

Definition mem_consumed (current : GrantRecord) (input : ConsumeGrantInput) : GrantRecord :=
  current <| grant_revision := grant_revision current + 1 |>
    <| grant_uses := grant_uses current + 1 |>
    <| grant_spentCostMicros := grant_spentCostMicros current + cg_costMicros input |>.

Definition mem_revoked (current : GrantRecord) (revokedAt reasonCode : string) : GrantRecord :=
  current <| grant_revision := grant_revision current + 1 |>
    <| grant_revokedAt := Some revokedAt |>
    <| grant_revocationReasonCode := Some reasonCode |>.

Section store.
Context (localeCompare : string → string → Z).
Abbreviation St := (M exn InMemoryAuthorizationStore) (only parsing).

Definition mem_checkpoint (point : string) : St unit :=
  zoom mem_failures (λ f w, w <| mem_failures := f |>) (checkpoint point).

Definition mem_createApproval (request : ApprovalRequest) : St ApprovalRequest :=
  mem_checkpoint "authorization.createApproval" ;;
  approvals ← gets mem_approvals;
  throwM_if (map_has (ap_id request) approvals)
    (portError DUPLICATE ("Approval " +:+ ap_id request +:+ " already exists")
       [("approvalRequestId", ap_id request)]) ;;
  modify (λ w, w <| mem_approvals := map_set (ap_id request) (frozenCopy request) (mem_approvals w) |>) ;;
  mret (frozenCopy request).

Definition mem_findApprovalByIntent (intentId : string) : St (option ApprovalRequest) :=
  mem_checkpoint "authorization.findApprovalByIntent" ;;
  approvals ← gets mem_approvals;
  let matches := List.filter (λ a, ap_intentId a === intentId) (map_values approvals) in
  mret (frozenCopy <$> list.last matches).

Definition mem_getApproval (approvalRequestId : string) : St (option ApprovalRequest) :=
  mem_checkpoint "authorization.getApproval" ;;
  approvals ← gets mem_approvals;
  mret (frozenCopy <$> map_get approvalRequestId approvals).

Definition compareApprovals (left right : ApprovalRequest) : Z :=
  let byTime := localeCompare (ap_requestedAt left) (ap_requestedAt right) in
  if byTime =? 0 then localeCompare (ap_id left) (ap_id right) else byTime.

Definition mem_listApprovals (ownerId : OwnerId) (agentId : AgentId) : St (list ApprovalRequest) :=
  mem_checkpoint "authorization.listApprovals" ;;
  approvals ← gets mem_approvals;
  mret (frozenCopy <$>
    sort_by compareApprovals
      (List.filter (λ a, (ap_ownerId a === ownerId) && (ap_agentId a === agentId))
         (map_values approvals))).

Definition mem_resolveApproval (input : ResolveApprovalInput) : St ApprovalRequest :=
  mem_checkpoint "authorization.resolveApproval" ;;
  approvals ← gets mem_approvals;
  grants ← gets mem_grants;
  match map_get (ra_approvalRequestId input) approvals with
  | None =>
      throw (portError NOT_FOUND ("Approval " +:+ ra_approvalRequestId input +:+ " not found")
               [("approvalRequestId", ra_approvalRequestId input)])
  | Some current =>
      throwM_if ((ap_revision current !== ra_expectedRevision input)
                 || (ap_status current !== approval_pending))
        (portError CONFLICT
           ("Approval " +:+ ap_id current +:+ " cannot be resolved from its current revision")
           [("approvalRequestId", ap_id current);
            ("status", approval_status_name (ap_status current))]) ;;
      throwM_if (ap_semanticSnapshotHash current !== ra_semanticSnapshotHash input)
        (portError CONFLICT ("Approval " +:+ ap_id current +:+ " semantic snapshot changed")
           [("approvalRequestId", ap_id current)]) ;;
      throwM_if ((ra_resolution input === resolve_approved) !== (ra_grant input !== None))
        (portError INVALID_OPERATION "Approved resolutions require exactly one Grant"
           [("approvalRequestId", ap_id current)]) ;;
      throwM_if (match ra_grant input with Some g => map_has (grant_id g) grants | None => false end)
        (portError DUPLICATE
           ("Grant " +:+ or_else (grant_id <$> ra_grant input) "" +:+ " already exists")
           [("grantId", or_else (grant_id <$> ra_grant input) "")]) ;;
      let resolved := frozenCopy (mem_resolved current input) in
      match ra_grant input with
      | Some g => modify (λ w, w <| mem_grants := map_set (grant_id g) (frozenCopy g) (mem_grants w) |>)
      | None => mret tt
      end ;;
      modify (λ w, w <| mem_approvals := map_set (ap_id current) resolved (mem_approvals w) |>) ;;
      mret (frozenCopy resolved)
  end.

Definition mem_listGrants (ownerId : OwnerId) (agentId : AgentId) : St (list GrantRecord) :=
  mem_checkpoint "authorization.listGrants" ;;
  grants ← gets mem_grants;
  mret (frozenCopy <$>
    List.filter (λ g, (grant_ownerId g === ownerId) && (grant_agentId g === agentId))
      (map_values grants)).

Definition grant_not_found (grantId : string) : exn :=
  portError NOT_FOUND ("Grant " +:+ grantId +:+ " not found") [("grantId", grantId)].

Definition grant_stale (current : GrantRecord) : exn :=
  portError CONFLICT ("Grant " +:+ grant_id current +:+ " has a stale revision")
    [("grantId", grant_id current)].

Definition mem_consumeGrant (input : ConsumeGrantInput) : St GrantRecord :=
  mem_checkpoint "authorization.consumeGrant" ;;
  usage ← gets mem_usage;
  grants ← gets mem_grants;
  match (u ← truthy (cg_usageId input); map_get u usage) with
  | Some replay => mret (frozenCopy replay)
  | None =>
      match map_get (cg_grantId input) grants with
      | None => throw (grant_not_found (cg_grantId input))
      | Some current =>
          throwM_if (grant_revision current !== cg_expectedRevision input) (grant_stale current) ;;
          throwM_if (mem_not_consumable current input)
            (portError INVALID_OPERATION ("Grant " +:+ grant_id current +:+ " is not consumable")
               [("grantId", grant_id current)]) ;;
          let consumed := frozenCopy (mem_consumed current input) in
          modify (λ w, w <| mem_grants := map_set (grant_id current) consumed (mem_grants w) |>) ;;
          match truthy (cg_usageId input) with
          | Some u => modify (λ w, w <| mem_usage := map_set u consumed (mem_usage w) |>)
          | None => mret tt
          end ;;
          mret (frozenCopy consumed)
      end
  end.

Definition mem_revokeGrant (grantId revokedAt reasonCode : string) (expectedRevision : option Z)
    : St GrantRecord :=
  mem_checkpoint "authorization.revokeGrant" ;;
  grants ← gets mem_grants;
  match map_get grantId grants with
  | None => throw (grant_not_found grantId)
  | Some current =>
      throwM_if (match expectedRevision with
                 | Some e => grant_revision current !== e
                 | None => false
                 end) (grant_stale current) ;;
      if grant_revokedAt current !== None then mret (frozenCopy current)
      else
        let revoked := frozenCopy (mem_revoked current revokedAt reasonCode) in
        modify (λ w, w <| mem_grants := map_set grantId revoked (mem_grants w) |>) ;;
        mret (frozenCopy revoked)
  end.

#[export] Instance mem_port : AuthorizationStorePort InMemoryAuthorizationStore := {|
  createApproval := mem_createApproval;
  findApprovalByIntent := mem_findApprovalByIntent;
  getApproval := mem_getApproval;
  listApprovals := mem_listApprovals;
  resolveApproval := mem_resolveApproval;
  listGrants := mem_listGrants;
  consumeGrant := mem_consumeGrant;
  store_revokeGrant := mem_revokeGrant;
|}.
End store.

(** *** The object's records are the promised ones *)
Lemma mem_resolved_eq current input : mem_resolved current input = resolved_approval current input.
Proof. unfold mem_resolved, resolved_approval. by destruct (ra_recentAuthenticationRef input). Qed.

Lemma mem_consumed_eq current input : mem_consumed current input = consumed_grant current input.
Proof. done. Qed.

Lemma mem_revoked_eq current t reason : mem_revoked current t reason = revoked_grant current t reason.
Proof. done. Qed.

Lemma mem_not_consumable_spec current input :
  mem_not_consumable current input = false ↔ consumable current input.
Proof.
  unfold mem_not_consumable.
  rewrite !orb_false_iff, negb_false_iff, bool_decide_eq_true, str_lt_false, str_le_false,
    Z.leb_gt, Z.ltb_ge.
  split; [intros [[[[]]]]; by constructor|by intros []].
Qed.

(** ** Refinement: the maps of the object seen as finite maps *)
Definition map_view {V} (m : jsmap V) : gmap string V := list_to_map m.
Arguments map_view : simpl never.

Definition mem_view (w : InMemoryAuthorizationStore) : auth_state :=
  mkAuth (map_view (mem_approvals w)) (map_view (mem_grants w)) (map_view (mem_usage w)).

Record mem_inv (w : InMemoryAuthorizationStore) : Prop := mk_mem_inv {
  mi_approvals : NoDup (mem_approvals w).*1;
  mi_grants : NoDup (mem_grants w).*1;
  mi_wf : auth_wf (mem_view w);
}.

Lemma map_view_lookup {V} (m : jsmap V) k : map_view m !! k = map_get k m.
Proof.
  unfold map_view. induction m as [|[k' v] m IH]; cbn; [apply lookup_empty|].
  destruct (String.eqb_spec k k') as [->|Hne]; [apply lookup_insert_eq|].
  by rewrite lookup_insert_ne by congruence.
Qed.

Lemma map_view_set {V} k (v : V) m : map_view (map_set k v m) = <[k := v]> (map_view m).
Proof.
  apply map_eq. intros k'. rewrite map_view_lookup, map_get_set.
  destruct (decide (k = k')) as [->|Hne].
  - by rewrite lookup_insert_eq.
  - by rewrite lookup_insert_ne, map_view_lookup.
Qed.

(** The values of a map stored under [key], filtered. *)
Lemma map_values_view {V} (key : V → string) (m : jsmap V) v :
  NoDup m.*1 → (∀ k x, map_view m !! k = Some x → key x = k) →
  v ∈ map_values m ↔ map_view m !! key v = Some v.
Proof.
  intros Hnd Hk. rewrite map_values_elem, map_view_lookup. split.
  - intros [k Hin]. apply map_get_nodup in Hin; [|done].
    rewrite <-map_view_lookup in Hin. pose proof (Hk _ _ Hin). subst k. by rewrite <-map_view_lookup.
  - intros H. exists (key v). by apply map_get_elem.
Qed.

(** A body that fails without changing the store, or has its effect at once. *)
Lemma mem_law {A} (effect : A → auth_state → auth_state → Prop)
    (body : M exn InMemoryAuthorizationStore A) point :
  (∀ a s s', effect a s s' → auth_wf s → auth_wf s') →
  (∀ w r w', mem_inv w → body w = (r, w') →
     match r with
     | Ok a => effect a (mem_view w) (mem_view w') ∧
               NoDup (mem_approvals w').*1 ∧ NoDup (mem_grants w').*1
     | Err _ => w' = w
     end) →
  op_law mem_view mem_inv effect (mem_checkpoint point ;; body).
Proof.
  intros Heff Hbody. unfold mem_checkpoint. apply checkpoint_law.
  - intros f v Hinv. split; [destruct Hinv; by split|done].
  - intros w r w' Hinv H. specialize (Hbody w r w' Hinv H). destruct r as [a|x]; [|done].
    destruct Hbody as (He & ? & ?). split; [|done].
    split; [done..|]. eapply Heff; [done|]. apply Hinv.
Qed.

Lemma reads_wf {A} (P : A → auth_state → Prop) a s s' : reads P a s s' → auth_wf s → auth_wf s'.
Proof. by intros [_ ->]. Qed.

Lemma filter_elem {A} (f : A → bool) l x : x ∈ List.filter f l ↔ x ∈ l ∧ f x = true.
Proof. rewrite !list_elem_of_In. apply filter_In. Qed.

Ltac mem_unfold H :=
  unfold mbind, mret, M_bind, M_ret, gets, modify, throwM_if, throw_if, throw, lift, frozenCopy in H.

Lemma mem_create_law request : op_law mem_view mem_inv (create_effect request) (mem_createApproval request).
Proof.
  apply mem_law.
  { intros a s s' He. apply auth_step_wf. by eapply auth_create. }
  intros w r w' [Ha Hg Hwf] H. mem_unfold H.
  destruct (map_has _ _) eqn:Hh; [by injection H as <- <-|]. injection H as <- <-.
  split; [|split; [by apply map_set_nodup|done]].
  repeat split.
  - unfold map_has in Hh. cbn. rewrite map_view_lookup. by destruct (map_get _ _).
  - unfold mem_view, put_approval. cbn. by rewrite map_view_set.
Qed.

Lemma mem_find_law intentId :
  op_law mem_view mem_inv (reads (λ o s, match o with
    | Some a => au_approvals s !! ap_id a = Some a ∧ ap_intentId a = intentId
    | None => ∀ k a, au_approvals s !! k = Some a → ap_intentId a ≠ intentId
    end)) (mem_findApprovalByIntent intentId).
Proof.
  apply mem_law; [apply reads_wf|].
  intros w r w' [Ha Hg Hwf] H. mem_unfold H. injection H as <- <-.
  split; [|done]. split; [|done].
  set (l := List.filter _ _). assert (∀ a, a ∈ l ↔ au_approvals (mem_view w) !! ap_id a = Some a ∧
    ap_intentId a = intentId) as Hl.
  { intros a. subst l. rewrite filter_elem, bool_decide_eq_true.
    by rewrite (map_values_view ap_id) by (done || apply Hwf). }
  destruct (list.last l) as [a|] eqn:E; cbn.
  - apply Hl. by apply last_Some_elem_of.
  - apply last_None in E. intros k a Hk Hi. pose proof (wf_approval_key _ Hwf _ _ Hk). subst k.
    apply (not_elem_of_nil a). rewrite <-E. by apply Hl.
Qed.

Lemma mem_get_law id :
  op_law mem_view mem_inv (reads (λ o s, o = au_approvals s !! id)) (mem_getApproval id).
Proof.
  apply mem_law; [apply reads_wf|].
  intros w r w' [Ha Hg Hwf] H. mem_unfold H. injection H as <- <-.
  split; [|done]. split; [|done]. cbn. rewrite map_view_lookup. by destruct (map_get _ _).
Qed.

Lemma mem_listApprovals_law cmp ownerId agentId :
  op_law mem_view mem_inv (reads (λ l s, ∀ a, a ∈ l ↔ au_approvals s !! ap_id a = Some a ∧
    ap_ownerId a = ownerId ∧ ap_agentId a = agentId)) (mem_listApprovals cmp ownerId agentId).
Proof.
  apply mem_law; [apply reads_wf|].
  intros w r w' [Ha Hg Hwf] H. mem_unfold H. injection H as <- <-.
  split; [|done]. split; [|done]. intros a. rewrite list_fmap_id, sort_by_perm, filter_elem.
  rewrite andb_true_iff, !bool_decide_eq_true.
  by rewrite (map_values_view ap_id) by (done || apply Hwf).
Qed.

Lemma mem_listGrants_law ownerId agentId :
  op_law mem_view mem_inv (reads (λ l s, ∀ g, g ∈ l ↔ au_grants s !! grant_id g = Some g ∧
    grant_ownerId g = ownerId ∧ grant_agentId g = agentId)) (mem_listGrants ownerId agentId).
Proof.
  apply mem_law; [apply reads_wf|].
  intros w r w' [Ha Hg Hwf] H. mem_unfold H. injection H as <- <-.
  split; [|done]. split; [|done]. intros g. rewrite list_fmap_id, filter_elem.
  rewrite andb_true_iff, !bool_decide_eq_true.
  by rewrite (map_values_view grant_id) by (done || apply Hwf).
Qed.

Lemma map_has_false {V} k (m : jsmap V) : map_has k m = false → map_view m !! k = None.
Proof. unfold map_has. rewrite map_view_lookup. by destruct (map_get k m). Qed.

Lemma replay_of_view u w :
  replay_of u (mem_view w) = (u ← truthy u; map_get u (mem_usage w)).
Proof. unfold replay_of. destruct (truthy u) as [v|]; [|done]. cbn. apply map_view_lookup. Qed.

(** Peel the guards off a body: each either throws or is known false. *)
Ltac mem_guard H :=
  match type of H with
  | context [if ?b then (Err _, _) else _] =>
      let E := fresh "E" in destruct b eqn:E; [by injection H as <- <-|]
  | context [if ?b then Err _ else Ok tt] =>
      let E := fresh "E" in destruct b eqn:E; [by injection H as <- <-|]
  end.

Lemma mem_resolve_law input : op_law mem_view mem_inv (resolve_effect input) (mem_resolveApproval input).
Proof.
  apply mem_law.
  { intros a s s' He. apply auth_step_wf. by eapply auth_resolve. }
  intros w r w' [Ha Hg Hwf] H. mem_unfold H.
  destruct (map_get _ _) as [c|] eqn:Hc; [|by injection H as <- <-].
  rewrite <-map_view_lookup in Hc. pose proof (wf_approval_key _ Hwf _ _ Hc) as Hid.
  do 4 mem_guard H.
  apply orb_false_iff in E as [Er%negb_false_iff%bool_decide_eq_true Ep%negb_false_iff%bool_decide_eq_true].
  apply negb_false_iff, bool_decide_eq_true in E0. apply xor_guard_false in E1.
  rewrite mem_resolved_eq in H.
  assert (au_approvals (mem_view w) !! ra_approvalRequestId input = Some c) as Hc' by done.
  destruct (ra_grant input) as [g|] eqn:Hgr; injection H as <- <-; cbn.
  - split; [|split; by apply map_set_nodup]. exists c. rewrite Hgr.
    do 6 (split; [done|]). split; [by apply map_has_false|].
    unfold mem_view, put_approval, put_grant. cbn. by rewrite !map_view_set, ?resolved_id.
  - split; [|split; [by apply map_set_nodup|done]]. exists c. rewrite Hgr.
    do 6 (split; [done|]).
    unfold mem_view, put_approval. cbn. by rewrite !map_view_set, ?resolved_id.
Qed.

Lemma mem_consume_law input : op_law mem_view mem_inv (consume_effect input) (mem_consumeGrant input).
Proof.
  apply mem_law.
  { intros a s s'. apply consume_effect_wf. }
  intros w r w' [Ha Hg Hwf] H. mem_unfold H. rewrite <-replay_of_view in H.
  unfold consume_effect. destruct (replay_of _ _) as [replay|] eqn:Hr.
  { by injection H as <- <-. }
  destruct (map_get _ _) as [c|] eqn:Hc; [|by injection H as <- <-].
  rewrite <-map_view_lookup in Hc. pose proof (wf_grant_key _ Hwf _ _ Hc) as Hid.
  do 2 mem_guard H.
  apply negb_false_iff, bool_decide_eq_true in E. apply mem_not_consumable_spec in E0.
  rewrite mem_consumed_eq in H.
  destruct (truthy (cg_usageId input)) as [u|] eqn:Hu; injection H as <- <-; cbn.
  - split; [|split; [done|by apply map_set_nodup]]. exists c. do 4 (split; [done|]).
    unfold put_usage, mem_view, put_grant. rewrite Hu. cbn. by rewrite !map_view_set.
  - split; [|split; [done|by apply map_set_nodup]]. exists c. do 4 (split; [done|]).
    unfold put_usage, mem_view, put_grant. rewrite Hu. cbn. by rewrite !map_view_set.
Qed.

Lemma mem_revoke_law id at_ reason e :
  op_law mem_view mem_inv (revoke_effect id at_ reason e) (mem_revokeGrant id at_ reason e).
Proof.
  apply mem_law.
  { intros a s s' He. apply auth_step_wf. by eapply auth_revoke. }
  intros w r w' [Ha Hg Hwf] H. mem_unfold H.
  destruct (map_get _ _) as [c|] eqn:Hc; [|by injection H as <- <-].
  rewrite <-map_view_lookup in Hc. pose proof (wf_grant_key _ Hwf _ _ Hc) as Hid.
  mem_guard H.
  assert (∀ e', e = Some e' → grant_revision c = e') as He.
  { intros e' ->. by apply negb_false_iff, bool_decide_eq_true in E. }
  rewrite mem_revoked_eq in H.
  destruct (grant_revokedAt c !== None) eqn:Hr; injection H as <- <-; cbn.
  - split; [|done]. exists c. rewrite Hr. done.
  - split; [|split; [done|by apply map_set_nodup]]. exists c. rewrite Hr. do 3 (split; [done|]).
    unfold mem_view, put_grant. cbn. by rewrite map_view_set, Hid.
Qed.

#[export] Instance mem_laws cmp :
  @AuthorizationStoreLaws InMemoryAuthorizationStore (mem_port cmp) mem_view mem_inv.
Proof.
  constructor; cbn.
  - by intros w [].
  - apply mem_create_law.
  - apply mem_find_law.
  - apply mem_get_law.
  - apply mem_listApprovals_law.
  - apply mem_resolve_law.
  - apply mem_listGrants_law.
  - apply mem_consume_law.
  - apply mem_revoke_law.
Qed.

Lemma mem_inv_new failures : mem_inv (new_store failures).
Proof. split; [constructor..|apply auth_wf_empty]. Qed.

(** ** A concrete world for the witnesses: the in-memory authorization store, the
    manual clock and the counting identifier generator of packages/testing,
    side by side, with the proof that the store's laws hold of the whole. *)

Record World := mkWorld {
  w_store : InMemoryAuthorizationStore;
  w_clock : ManualClock;
  w_ids : DeterministicIdGenerator }.

#[global] Instance eta_World : Eta World := λ r, mkWorld (w_store r) (w_clock r) (w_ids r).

(** An instance of the locale's comparison. *)
Definition byCodeUnit (a b : string) : Z :=
  match String.compare a b with Lt => -1 | Eq => 0 | Gt => 1 end.

Definition on_store {A} (m : M exn InMemoryAuthorizationStore A) : M exn World A :=
  zoom w_store (λ s w, w <| w_store := s |>) m.

#[export] Instance world_port : AuthorizationStorePort World := {|
  createApproval r := on_store (@createApproval _ (mem_port byCodeUnit) r);
  findApprovalByIntent i := on_store (@findApprovalByIntent _ (mem_port byCodeUnit) i);
  getApproval i := on_store (@getApproval _ (mem_port byCodeUnit) i);
  listApprovals o a := on_store (@listApprovals _ (mem_port byCodeUnit) o a);
  resolveApproval i := on_store (@resolveApproval _ (mem_port byCodeUnit) i);
  listGrants o a := on_store (@listGrants _ (mem_port byCodeUnit) o a);
  consumeGrant i := on_store (@consumeGrant _ (mem_port byCodeUnit) i);
  store_revokeGrant g t r e := on_store (@store_revokeGrant _ (mem_port byCodeUnit) g t r e);
|}.

#[export] Instance world_clock : ClockPort World := zoom w_clock (λ c w, w <| w_clock := c |>) now.
#[export] Instance world_ids : IdGeneratorPort World := λ ns,
  zoom w_ids (λ i w, w <| w_ids := i |>) (next ns).

Definition world_view (w : World) : auth_state := mem_view (w_store w).
Definition world_inv (w : World) : Prop := mem_inv (w_store w).

Definition world_at (time : string) : World := mkWorld (new_store NO_FAILURES) time [].

Lemma op_law_on_store {A} effect (m : M exn InMemoryAuthorizationStore A) :
  op_law mem_view mem_inv effect m → op_law world_view world_inv effect (on_store m).
Proof. intros H. by apply (op_law_zoom auth_step w_store _ mem_view mem_inv). Qed.

#[export] Instance world_laws : AuthorizationStoreLaws World world_view world_inv.
Proof.
  destruct (mem_laws byCodeUnit). constructor; intros; try (apply op_law_on_store; auto).
  by apply (law_wf (w_store w)).
Qed.

Lemma world_clock_frame : frame_law world_view world_inv clock_now.
Proof. intros w r w' Hi H. injection H as <- <-. by split. Qed.

Lemma world_ids_frame ns : frame_law world_view world_inv (ids_next ns).
Proof. intros w r w' Hi H. injection H as <- <-. by split. Qed.

Lemma world_inv_at time : world_inv (world_at time).
Proof. apply mem_inv_new. Qed.
