(* ===== verification/Permission.v ===== *)
(** packages/application/src/services/permission-service.ts: the fingerprint
    of an intent, when a grant covers an intent, and [PermissionService]. *)
From S2P Require Import Prelude Contract Js JsJson Identifiers.
From S2P Require Import AuthTypes AuthStore InMemoryAuth Deterministic.
Local Open Scope Z_scope.

Definition CLASSIFICATION_RANK (c : DataClassification) : Z :=
  match c with public => 0 | private => 1 | sensitive => 2 | restricted => 3 end.

(** ** The fingerprint of an intent *)
Definition fnv1a (value : string) : string :=
  let hash := foldl (λ hash byte, imul (bit_xor hash byte) 16777619) 2166136261 (utf8 value) in
  "intent-" +:+ padStart (hexOfUint32 (toUint32 hash)) 8 "0".

Definition json_frequency (f : ActionFrequency) : json :=
  JObj [("count", JNum (freq_count f)); ("intervalMs", JOptNum (freq_intervalMs f))].

Definition json_target (t : ActionTarget) : json :=
  JObj [("type", JStr (target_type t)); ("ref", JStr (target_ref t))].

Definition json_classification (c : ModelClassification) : json :=
  JObj [("actionKind", JStr (kind_name (mc_actionKind c)));
        ("suggestedRisk", JStr (risk_name (mc_suggestedRisk c)));
        ("reasonCode", JStr (mc_reasonCode c))].

Definition json_fact (f : DeterministicPolicyFact) : json :=
  JObj [("code", JStr (fact_code f)); ("minimumRisk", JStr (risk_name (fact_minimumRisk f)));
        ("source", JStr (fact_source_name (fact_source f)))].

Definition base_fields (i : ActionIntent) : list (string * json) :=
  [("id", JStr (ai_id i)); ("ownerId", JStr (ai_ownerId i)); ("agentId", JStr (ai_agentId i));
   ("runId", JStr (ai_runId i)); ("capabilityRef", JStr (ai_capabilityRef i));
   ("operation", JStr (ai_operation i)); ("resourceRef", JStr (ai_resourceRef i));
   ("dataClassification", JStr (classification_name (ai_dataClassification i)));
   ("sideEffect", JStr (side_effect_name (ai_sideEffect i)));
   ("estimatedCostMicros", JNum (ai_estimatedCostMicros i));
   ("frequency", json_frequency (ai_frequency i));
   ("idempotencyKey", JStr (ai_idempotencyKey i)); ("reversible", JBool (ai_reversible i));
   ("requestedAt", JStr (ai_requestedAt i))].

Definition governed_fields (g : GovernedActionIntent) : list (string * json) :=
  [("contractVersion", JStr (ga_contractVersion g)); ("threadId", JStr (ga_threadId g));
   ("actionKind", JStr (kind_name (ga_actionKind g)));
   ("capabilityVersion", JStr (ga_capabilityVersion g));
   ("targets", JArr (json_target <$> ga_targets g)); ("resourceRefs", JStrs (ga_resourceRefs g));
   ("disclosure", JStr (disclosure_name (ga_disclosure g)));
   ("recipients", JStrs (ga_recipients g));
   ("credentialOrAccessChange", JBool (ga_credentialOrAccessChange g));
   ("expiresAt", JStr (ga_expiresAt g));
   ("modelClassification", json_classification (ga_modelClassification g));
   ("deterministicFacts", JArr (json_fact <$> ga_deterministicFacts g));
   ("finalRisk", JStr (risk_name (ga_finalRisk g)))].

(** The object that [actionIntentFingerprint] serializes. *)
Definition fingerprint_object (intent : AnyIntent) : json :=
  JObj (base_fields (intent_base intent) ++
        match intent with
        | GovernedIntent g =>
            if ga_contractVersion g === "authorization.v2" then governed_fields g else []
        | PlainIntent _ => []
        end).

Definition actionIntentFingerprint (intent : AnyIntent) : string :=
  fnv1a (stringify (fingerprint_object intent)).
Arguments actionIntentFingerprint : simpl never.

(** ** Rules, scopes and coverage *)
Definition matchesRule (rule : PermissionPolicyRule) (intent : ActionIntent) : bool :=
  includes (ai_capabilityRef intent) (rule_capabilityRefs rule)
  && includes (ai_operation intent) (rule_operations rule)
  && existsb (λ prefix, startsWith (ai_resourceRef intent) prefix) (rule_resourcePrefixes rule)
  && includes (ai_dataClassification intent) (rule_dataClassifications rule)
  && includes (ai_sideEffect intent) (rule_sideEffects rule)
  && (ai_estimatedCostMicros intent <=? rule_maxCostMicros rule).

Definition exactScope (intent : ActionIntent) : GrantScope :=
  mkScope (ai_capabilityRef intent) [ai_operation intent] (Some (ai_resourceRef intent)) []
    (ai_dataClassification intent) [ai_sideEffect intent] (ai_estimatedCostMicros intent)
    (ai_frequency intent) None.

Definition longTermScope (scope : LongTermGrantScope) : GrantScope :=
  mkScope (lt_capabilityRef scope) (lt_operations scope) None (lt_resourcePrefixes scope)
    (lt_maxDataClassification scope) (lt_sideEffects scope) (lt_maxCostMicrosPerUse scope)
    (lt_maxFrequency scope) None.

Definition frequencyWithinScope (intent : ActionIntent) (scope : GrantScope) : bool :=
  if freq_count (sc_maxFrequency scope) <? freq_count (ai_frequency intent) then false
  else match freq_intervalMs (ai_frequency intent) with
       | None => true
       | Some interval =>
           match freq_intervalMs (sc_maxFrequency scope) with
           | None => false
           | Some minimum => minimum <=? interval
           end
       end.

Definition grantCoversIntent (grant : GrantRecord) (any : AnyIntent) (now : string) : bool :=
  let intent := intent_base any in
  let scope := grant_scope grant in
  let resourceMatches :=
    (sc_exactResourceRef scope === Some (ai_resourceRef intent))
    || existsb (λ prefix, startsWith (ai_resourceRef intent) prefix) (sc_resourcePrefixes scope) in
  (grant_ownerId grant === ai_ownerId intent)
  && (grant_agentId grant === ai_agentId intent)
  && (grant_revokedAt grant === None)
  && str_le (grant_validFrom grant) now
  && str_lt now (grant_expiresAt grant)
  && (grant_uses grant <? grant_maxUses grant)
  && (grant_spentCostMicros grant + ai_estimatedCostMicros intent <=? grant_maxTotalCostMicros grant)
  && (sc_capabilityRef scope === ai_capabilityRef intent)
  && includes (ai_operation intent) (sc_operations scope)
  && resourceMatches
  && (CLASSIFICATION_RANK (ai_dataClassification intent)
        <=? CLASSIFICATION_RANK (sc_maxDataClassification scope))
  && includes (ai_sideEffect intent) (sc_sideEffects scope)
  && (ai_estimatedCostMicros intent <=? sc_maxCostMicrosPerUse scope)
  && frequencyWithinScope intent scope
  && ((grant_intentFingerprint grant === None)
      || (grant_intentFingerprint grant === Some (actionIntentFingerprint any))).

(** ** PermissionService *)
Record PermissionEvaluationOptions := mkOptions {
  uiAvailable : bool; approvalExpiresAt : string }.

Inductive ApprovalDecision :=
  | decide_denied
  | decide_one_time
  | decide_long_term (scope : LongTermGrantScope).

Record ApprovalResponseInput := mkResponse {
  rs_approvalRequestId : string; rs_semanticSnapshotHash : string; rs_decision : ApprovalDecision }.

Section service.
Context {W : Type} `{!AuthorizationStorePort W, !ClockPort W, !IdGeneratorPort W}.
Context (policy : PermissionPolicy).

Definition deny (reasonCode : string) (alternativesAllowed : bool) : PermissionDecision :=
  DENY reasonCode alternativesAllowed.

Definition expire (current : ApprovalRequest) : M exn W ApprovalRequest :=
  now ← clock_now;
  resolveApproval (mkResolve (ap_id current) (ap_revision current)
    (ap_semanticSnapshotHash current) resolve_expired now None None).

Definition requireApproval (approvalRequestId : string) : M exn W ApprovalRequest :=
  approval ← getApproval approvalRequestId;
  match approval with
  | None => throw (portError NOT_FOUND ("Approval " +:+ approvalRequestId +:+ " not found")
                     [("approvalRequestId", approvalRequestId)])
  | Some approval => mret approval
  end.

(** The request that [evaluate] creates. *)
Definition newApproval (id : string) (intent : AnyIntent) (options : PermissionEvaluationOptions)
    (now : string) : ApprovalRequest :=
  mkApproval None id 1 (ai_ownerId (intent_base intent)) (ai_agentId (intent_base intent))
    (ai_runId (intent_base intent)) (ai_id (intent_base intent)) intent
    (actionIntentFingerprint intent) approval_pending
    (if uiAvailable options then deliverable else queued_no_ui) now (approvalExpiresAt options)
    None None None None None.

Definition evaluate_without_rule (intent : AnyIntent) (options : PermissionEvaluationOptions)
    (now : string) : M exn W PermissionDecision :=
  existing ← findApprovalByIntent (ai_id (intent_base intent));
  let ask :=
    if str_le (approvalExpiresAt options) now then mret (deny "approval_expiry_invalid" true)
    else
      id ← ids_next "approval";
      approvalRequest ← createApproval (newApproval id intent options now);
      mret (ASK approvalRequest) in
  match existing with
  | None => ask
  | Some existing =>
      match ap_status existing with
      | approval_pending =>
          if str_le (ap_expiresAt existing) now
          then expire existing ;; mret (deny "approval_expired" true)
          else mret (ASK existing)
      | approval_expired => mret (deny "approval_expired" true)
      | approval_denied => mret (deny "approval_denied" true)
      | approval_approved => ask
      end
  end.

Definition evaluate_guarded (intent : AnyIntent) (options : PermissionEvaluationOptions)
    (now : string) : M exn W PermissionDecision :=
  let base := intent_base intent in
  grants ← listGrants (ai_ownerId base) (ai_agentId base);
  match List.find (λ grant, grantCoversIntent grant intent now) grants with
  | Some grant =>
      consumed ← consumeGrant (mkConsume (grant_id grant) (grant_revision grant)
        (ai_estimatedCostMicros base) now None None None None);
      mret (ALLOW (basis_grant (grant_id consumed)) (grant_scope consumed))
  | None =>
      match List.find (λ rule, (rule_effect rule === rule_deny) && matchesRule rule base)
              (policy_rules policy) with
      | Some denied => mret (deny (rule_reasonCode denied) false)
      | None =>
          match List.find (λ rule, (rule_effect rule === rule_allow) && matchesRule rule base)
                  (policy_rules policy) with
          | Some allowed => mret (ALLOW (basis_policy (rule_id allowed)) (exactScope base))
          | None => evaluate_without_rule intent options now
          end
      end
  end.

Definition evaluate (sourceIntent : AnyIntent) (options : PermissionEvaluationOptions)
    : M exn W PermissionDecision :=
  now ← clock_now;
  try_catch (evaluate_guarded sourceIntent options now)
    (λ _, mret (deny "permission_component_error" false)).

Definition createGrant (approval : ApprovalRequest) (term : option LongTermGrantScope)
    (now : string) : M exn W GrantRecord :=
  let snapshot := ap_intentSnapshot approval in
  let scope := match term with None => exactScope (intent_base snapshot) | Some s => longTermScope s end in
  let expiresAt := match term with None => ap_expiresAt approval | Some s => lt_expiresAt s end in
  let maxUses := match term with None => 1 | Some s => lt_maxUses s end in
  let maxTotalCostMicros :=
    match term with
    | None => ai_estimatedCostMicros (intent_base snapshot)
    | Some s => lt_maxTotalCostMicros s
    end in
  throwM_if (str_le expiresAt now || (maxUses <? 1) || (maxTotalCostMicros <? 0))
    (portError INVALID_OPERATION "Grant lifetime and budgets must be positive"
       [("approvalRequestId", ap_id approval)]) ;;
  id ← ids_next "grant";
  mret (mkGrant id 1 (ap_ownerId approval) (ap_agentId approval)
    (match term with None => one_time | Some _ => long_term end) scope
    (match term with None => Some (actionIntentFingerprint snapshot) | Some _ => None end)
    (ap_id approval) now expiresAt maxUses 0 maxTotalCostMicros 0 None None).

Definition respond_approved (current : ApprovalRequest) (input : ApprovalResponseInput)
    (term : option LongTermGrantScope) (now : string) : M exn W ApprovalRequest :=
  grant ← createGrant current term now;
  throwM_if (negb (grantCoversIntent grant (ap_intentSnapshot current) now))
    (portError INVALID_OPERATION ("Grant scope does not cover approval " +:+ ap_id current)
       [("approvalRequestId", ap_id current)]) ;;
  resolveApproval (mkResolve (ap_id current) (ap_revision current)
    (rs_semanticSnapshotHash input) resolve_approved now (Some grant) None).

Definition respond (input : ApprovalResponseInput) : M exn W ApprovalRequest :=
  current ← requireApproval (rs_approvalRequestId input);
  now ← clock_now;
  throwM_if (ap_status current !== approval_pending)
    (portError INVALID_OPERATION
       ("Approval " +:+ ap_id current +:+ " is already " +:+ approval_status_name (ap_status current))
       [("approvalRequestId", ap_id current); ("status", approval_status_name (ap_status current))]) ;;
  throwM_if (ap_semanticSnapshotHash current !== rs_semanticSnapshotHash input)
    (portError CONFLICT ("Approval " +:+ ap_id current +:+ " semantic snapshot changed")
       [("approvalRequestId", ap_id current)]) ;;
  if str_le (ap_expiresAt current) now then expire current
  else
    match rs_decision input with
    | decide_denied =>
        resolveApproval (mkResolve (ap_id current) (ap_revision current)
          (rs_semanticSnapshotHash input) resolve_denied now None None)
    | decide_one_time => respond_approved current input None now
    | decide_long_term scope => respond_approved current input (Some scope) now
    end.

Definition resume (approvalRequestId : string) : M exn W ApprovalRequest :=
  current ← requireApproval approvalRequestId;
  if ap_status current === approval_pending then
    now ← clock_now;
    if str_le (ap_expiresAt current) now then expire current else mret current
  else mret current.

Definition revokeGrant (grantId reasonCode : string) : M exn W GrantRecord :=
  now ← clock_now;
  store_revokeGrant grantId now reasonCode None.
End service.

(** ** Fingerprints *)
(** The reference: FNV-1a on unsigned 32-bit words. *)
Definition fnv1a_unsigned (bytes : list Z) : Z :=
  foldl (λ hash byte, (Z.lxor hash byte * 16777619) mod two32) 2166136261 bytes.

Lemma utf8_bytes s : Forall (λ b, 0 ≤ b < 256) (utf8 s).
Proof.
  induction s as [|c s IH]; cbn; [constructor|].
  assert (0 ≤ Z.of_N (N_of_ascii c) < 256) as Hc by (pose proof (N_ascii_bounded c); lia).
  destruct (_ <? 128) eqn:E; [apply Z.ltb_lt in E; constructor; [lia|done]|]. apply Z.ltb_ge in E.
  revert Hc E. generalize (Z.of_N (N_of_ascii c)). intros n Hn E.
  constructor; [|constructor; [|done]].
  - rewrite Z.shiftr_div_pow2 by lia. change (2 ^ 6) with 64.
    assert (n / 64 = 2 ∨ n / 64 = 3) as [-> | ->] by (Z.to_euclidean_division_equations; lia); done.
  - change 63 with (Z.ones 6). rewrite Z.land_ones by lia. change (2 ^ 6) with 64.
    pose proof (Z.mod_pos_bound n 64). pose proof (Z.add_lor_land 128 (n mod 64)) as Hadd.
    assert (Z.land 128 (n mod 64) = 0) as Hz; [|lia]. clear Hadd.
    change 128 with (Z.shiftl 2 6). apply Z.bits_inj'. intros k Hk.
    rewrite Z.land_spec, Z.bits_0, Z.shiftl_spec by lia.
    destruct (decide (k < 6)); [by rewrite Z.testbit_neg_r by lia|].
    rewrite andb_comm. rewrite (Z.bits_above_log2 (n mod 64)); [done|lia|].
    destruct (decide (n mod 64 = 0)) as [->|]; [cbn; lia|].
    assert (Z.log2 (n mod 64) < 6); [|lia]. apply Z.log2_lt_pow2; lia.
Qed.

Lemma fnv1a_fold bytes h :
  Forall (λ b, 0 ≤ b < 256) bytes →
  toUint32 (foldl (λ hash byte, imul (bit_xor hash byte) 16777619) h bytes) =
  foldl (λ hash byte, (Z.lxor hash byte * 16777619) mod two32) (toUint32 h) bytes.
Proof.
  intros Hb. revert h. induction Hb as [|b bytes Hb _ IH]; intros h; [done|]. cbn [foldl].
  rewrite IH. f_equal. rewrite toUint32_imul, toUint32_bit_xor.
  assert (toUint32 b = b) as ->; [|done]. apply Z.mod_small. unfold two32. lia.
Qed.

Lemma padStart_chars p s n c :
  all_chars p s = true → p c = true → all_chars p (padStart s n c) = true.
Proof.
  intros Hs Hc. unfold padStart. rewrite all_chars_app, Hs, andb_true_r.
  induction (n - String.length s)%nat as [|k IH]; cbn; [done|]. by rewrite Hc.
Qed.

Lemma padStart_length s n c :
  (String.length s ≤ n)%nat → String.length (padStart s n c) = n.
Proof.
  intros Hs. unfold padStart. rewrite length_append.
  assert (∀ k, String.length (repeat_char k c) = k) as ->; [|lia].
  intros k. induction k as [|k IH]; cbn; [done|]. by rewrite IH.
Qed.

Lemma side_effect_name_inj c d : side_effect_name c = side_effect_name d → c = d.
Proof. by destruct c, d. Qed.

Lemma disclosure_name_inj c d : disclosure_name c = disclosure_name d → c = d.
Proof. by destruct c, d. Qed.

Lemma JObj_inj l1 l2 : JObj l1 = JObj l2 → l1 = l2.
Proof. congruence. Qed.

Lemma JOptNum_inj o1 o2 : JOptNum o1 = JOptNum o2 → o1 = o2.
Proof. destruct o1, o2; cbn; congruence. Qed.

Lemma base_fields_inj i1 i2 : base_fields i1 = base_fields i2 → i1 = i2.
Proof.
  destruct i1 as [? ? ? ? ? ? ? ? ? ? [] ? ? ?], i2 as [? ? ? ? ? ? ? ? ? ? [] ? ? ?].
  unfold base_fields, json_frequency. cbn. intros H. injection H. intros.
  repeat match goal with
  | H : classification_name _ = _ |- _ => apply classification_name_inj in H
  | H : side_effect_name _ = _ |- _ => apply side_effect_name_inj in H
  | H : JOptNum _ = _ |- _ => apply JOptNum_inj in H
  end. by subst.
Qed.

(** What the serialized object determines of a governed intent. *)
Definition same_governed (g1 g2 : GovernedActionIntent) : Prop :=
  ga_threadId g1 = ga_threadId g2 ∧ kind_name (ga_actionKind g1) = kind_name (ga_actionKind g2) ∧
  ga_capabilityVersion g1 = ga_capabilityVersion g2 ∧ ga_targets g1 = ga_targets g2 ∧
  ga_resourceRefs g1 = ga_resourceRefs g2 ∧ ga_disclosure g1 = ga_disclosure g2 ∧
  ga_recipients g1 = ga_recipients g2 ∧
  ga_credentialOrAccessChange g1 = ga_credentialOrAccessChange g2 ∧
  ga_expiresAt g1 = ga_expiresAt g2 ∧ risk_name (ga_finalRisk g1) = risk_name (ga_finalRisk g2).

Lemma fmap_JStr_inj (l1 l2 : list string) : JStr <$> l1 = JStr <$> l2 → l1 = l2.
Proof. apply list_fmap_eq_inj. by intros ?? [=]. Qed.

Lemma fmap_target_inj (l1 l2 : list ActionTarget) : json_target <$> l1 = json_target <$> l2 → l1 = l2.
Proof. apply list_fmap_eq_inj. intros [] []. unfold json_target. cbn. by intros [= -> ->]. Qed.

Lemma governed_fields_inj g1 g2 : governed_fields g1 = governed_fields g2 → same_governed g1 g2.
Proof.
  unfold governed_fields, same_governed, JStrs. intros H. injection H. intros.
  repeat match goal with
  | H : disclosure_name _ = _ |- _ => apply disclosure_name_inj in H
  | H : fmap JStr _ = _ |- _ => apply fmap_JStr_inj in H
  | H : fmap json_target _ = _ |- _ => apply fmap_target_inj in H
  end. done.
Qed.

(** ** Coverage *)
(** [grantCoversIntent], clause by clause. *)
Record covers (grant : GrantRecord) (any : AnyIntent) (now : string) : Prop := mk_covers {
  cv_owner : grant_ownerId grant = ai_ownerId (intent_base any);
  cv_agent : grant_agentId grant = ai_agentId (intent_base any);
  cv_live : grant_revokedAt grant = None;
  cv_from : str_le (grant_validFrom grant) now = true;
  cv_until : str_lt now (grant_expiresAt grant) = true;
  cv_uses : grant_uses grant < grant_maxUses grant;
  cv_budget : grant_spentCostMicros grant + ai_estimatedCostMicros (intent_base any)
                ≤ grant_maxTotalCostMicros grant;
  cv_capability : sc_capabilityRef (grant_scope grant) = ai_capabilityRef (intent_base any);
  cv_operation : ai_operation (intent_base any) ∈ sc_operations (grant_scope grant);
  cv_resource :
    sc_exactResourceRef (grant_scope grant) = Some (ai_resourceRef (intent_base any)) ∨
    ∃ prefix, prefix ∈ sc_resourcePrefixes (grant_scope grant) ∧
      startsWith (ai_resourceRef (intent_base any)) prefix = true;
  cv_classification : CLASSIFICATION_RANK (ai_dataClassification (intent_base any))
                        ≤ CLASSIFICATION_RANK (sc_maxDataClassification (grant_scope grant));
  cv_effect : ai_sideEffect (intent_base any) ∈ sc_sideEffects (grant_scope grant);
  cv_cost : ai_estimatedCostMicros (intent_base any) ≤ sc_maxCostMicrosPerUse (grant_scope grant);
  cv_frequency : frequencyWithinScope (intent_base any) (grant_scope grant) = true;
  cv_fingerprint : grant_intentFingerprint grant = None ∨
                   grant_intentFingerprint grant = Some (actionIntentFingerprint any);
}.

Lemma grantCoversIntent_spec grant any now : grantCoversIntent grant any now = true ↔ covers grant any now.
Proof.
  unfold grantCoversIntent.
  rewrite !andb_true_iff, !orb_true_iff, existsb_elem, !bool_decide_eq_true, !includes_spec,
    !Z.leb_le, !Z.ltb_lt.
  split; [intros H; decompose [and] H; by constructor|]. intros []. tauto.
Qed.

(** A covering grant is one the store lets its client consume. *)
Lemma covers_consumable grant any now usageId e i r o :
  covers grant any now →
  consumable grant (mkConsume (grant_id grant) e (ai_estimatedCostMicros (intent_base any)) now
    usageId i r o).
Proof. intros []. by constructor. Qed.

(** ** Correctness of the service, against the laws of the store *)
Section correctness.
Context {W : Type} `{!AuthorizationStorePort W, !ClockPort W, !IdGeneratorPort W}.
Context (policy : PermissionPolicy) (view : W → auth_state) (inv : W → Prop).
Context `{!AuthorizationStoreLaws W view inv}.
Hypothesis clock_frame : frame_law view inv clock_now.
Hypothesis ids_frame : ∀ ns, frame_law view inv (ids_next ns).

(** The deciding part, from the moment the grants were listed. *)
Lemma evaluate_guarded_allow intent options now w basis scope w' :
  inv w → evaluate_guarded policy intent options now w = (Ok (ALLOW basis scope), w') →
  match basis with
  | basis_grant ref => ∃ g s,
      interf (view w) s ∧ au_grants s !! ref = Some g ∧ covers g intent now ∧
      scope = grant_scope g ∧
      ∃ g', au_grants (view w') !! ref = Some g' ∧
        grant_uses g' = grant_uses g + 1 ∧
        grant_spentCostMicros g' = grant_spentCostMicros g + ai_estimatedCostMicros (intent_base intent)
  | basis_policy ref =>
      (∃ rule, rule ∈ policy_rules policy ∧ rule_id rule = ref ∧ rule_effect rule = rule_allow ∧
         matchesRule rule (intent_base intent) = true) ∧
      (∀ rule, rule ∈ policy_rules policy → rule_effect rule = rule_deny →
         matchesRule rule (intent_base intent) = false) ∧
      scope = exactScope (intent_base intent)
  end.
Proof.
  intros Hi H. unfold evaluate_guarded in H. apply M_bind_Ok in H as (grants & w1 & Hl & H).
  destruct (reads_Ok _ _ _ _ _ _ _ _ (law_listGrants _ _) Hi Hl) as (Hi1 & Hs1 & Hgrants).
  destruct (List.find _ grants) as [g|] eqn:Hf.
  - apply find_elem in Hf as [Hg Hc]. apply grantCoversIntent_spec in Hc.
    apply Hgrants in Hg as (Hg & _ & _).
    apply M_bind_Ok in H as (g' & w2 & Hk & H). injection H as <- <- <-.
    destruct (op_law_Ok _ _ _ _ _ _ _ _ (law_consumeGrant _) Hi1 Hk) as (Hi2 & s & Hs & He).
    apply (consume_listed (view w1) s _ g) in He as (Hgs & Hg' & Hput); [|by apply law_wf|done..].
    subst g'. exists g, s. cbn. split; [by transitivity (view w1)|]. do 3 (split; [done|]).
    eexists. split; [exact Hput|]. done.
  - destruct (List.find _ (policy_rules policy)) as [r|] eqn:Hd; [by injection H|].
    destruct (List.find (λ rule, (rule_effect rule === rule_allow) && _) _) as [r|] eqn:Ha.
    + injection H as <- <- <-. apply find_elem in Ha as [Hr Hm].
      apply andb_true_iff in Hm as [He%bool_decide_eq_true Hm].
      split; [by exists r|]. split; [|done]. intros rule Hrule Hdeny.
      pose proof (proj1 (find_None _ _) Hd rule Hrule) as Hn. cbn in Hn.
      by rewrite bool_decide_eq_true_2 in Hn.
    + exfalso. clear -H. unfold evaluate_without_rule in H.
      apply M_bind_Ok in H as ([e|] & w2 & _ & H);
        [destruct (ap_status e)|]; repeat (destruct (str_le _ _));
        repeat (apply M_bind_Ok in H as (? & ? & _ & H)); by injection H.
Qed.

(** What [PermissionService.evaluate] allows is authorized, whatever other
    clients of the store do meanwhile: an ALLOW on a grant consumed exactly
    that grant, which at that moment covered the intent at the time read from
    the clock (owner, agent, life time, remaining uses and budget, capability,
    operation, resource, classification, side effect, cost, frequency and
    fingerprint), for one use and the intent's cost; an ALLOW on the policy
    comes from a matching ALLOW rule that no matching DENY rule opposes, with
    a scope reduced to the intent. *)
Theorem evaluate_allow_sound intent options w basis scope w' :
  inv w → evaluate policy intent options w = (Ok (ALLOW basis scope), w') →
  ∃ now w0, clock_now w = (Ok now, w0) ∧
  match basis with
  | basis_grant ref => ∃ g s,
      interf (view w) s ∧ au_grants s !! ref = Some g ∧ covers g intent now ∧
      scope = grant_scope g ∧
      ∃ g', au_grants (view w') !! ref = Some g' ∧
        grant_uses g' = grant_uses g + 1 ∧
        grant_spentCostMicros g' = grant_spentCostMicros g + ai_estimatedCostMicros (intent_base intent)
  | basis_policy ref =>
      (∃ rule, rule ∈ policy_rules policy ∧ rule_id rule = ref ∧ rule_effect rule = rule_allow ∧
         matchesRule rule (intent_base intent) = true) ∧
      (∀ rule, rule ∈ policy_rules policy → rule_effect rule = rule_deny →
         matchesRule rule (intent_base intent) = false) ∧
      scope = exactScope (intent_base intent)
  end.
Proof.
  intros Hi H. unfold evaluate in H. apply M_bind_Ok in H as (now & w0 & Hn & H).
  exists now, w0. split; [done|]. destruct (clock_frame _ _ _ Hi Hn) as [Hi0 Hs0].
  unfold try_catch in H. destruct (evaluate_guarded _ _ _ _ _) as [[d|x] w1] eqn:E; [|by injection H].
  injection H as -> ->. apply evaluate_guarded_allow in E; [|done].
  destruct basis; [done|]. destruct E as (g & s & Hs & E). exists g, s.
  split; [by transitivity (view w0)|done].
Qed.

(** *** Answering an approval request *)
(** A grant that [createGrant] makes of an approval. *)
Record granted (approval : ApprovalRequest) (term : option LongTermGrantScope) (now : string)
    (g : GrantRecord) : Prop := mk_granted {
  gd_owner : grant_ownerId g = ap_ownerId approval;
  gd_agent : grant_agentId g = ap_agentId approval;
  gd_source : grant_sourceApprovalRequestId g = ap_id approval;
  gd_from : grant_validFrom g = now;
  gd_until : str_lt now (grant_expiresAt g) = true;
  gd_unused : grant_uses g = 0 ∧ 1 ≤ grant_maxUses g;
  gd_unspent : grant_spentCostMicros g = 0 ∧ 0 ≤ grant_maxTotalCostMicros g;
  gd_live : grant_revokedAt g = None;
  gd_one_time : term = None →
    grant_maxUses g = 1 ∧ grant_expiresAt g = ap_expiresAt approval ∧
    grant_scope g = exactScope (intent_base (ap_intentSnapshot approval)) ∧
    grant_intentFingerprint g = Some (actionIntentFingerprint (ap_intentSnapshot approval));
}.

Lemma createGrant_Ok approval term now w g w' :
  createGrant approval term now w = (Ok g, w') →
  granted approval term now g ∧ ∃ id, ids_next "grant" w = (Ok id, w').
Proof.
  unfold createGrant. intros H. apply M_bind_Ok in H as (u & w1 & Hg & H).
  injection Hg as Hg <-. apply throw_if_Ok in Hg.
  rewrite !orb_false_iff, Z.ltb_ge, Z.ltb_ge, str_le_false in Hg. destruct Hg as [[Hu Hm] Hc].
  apply M_bind_Ok in H as (id & w2 & Hid & H). injection H as <- <-. split; [|by exists id].
  constructor; cbn; try done; try lia. by intros ->.
Qed.

Lemma expire_Ok current w a w' :
  inv w → expire current w = (Ok a, w') →
  inv w' ∧ au_approvals (view w') !! ap_id current = Some a ∧ ap_status a = approval_expired.
Proof.
  intros Hi H. unfold expire in H. apply M_bind_Ok in H as (now & w0 & Hn & H).
  destruct (clock_frame _ _ _ Hi Hn) as [Hi0 _].
  destruct (op_law_Ok _ _ _ _ _ _ _ _ (law_resolveApproval _) Hi0 H) as (Hi' & s & Hs & He).
  apply resolve_stored in He as (Ha & _ & Hst & _ & _); [by split|].
  eapply interf_wf; [done|by apply law_wf].
Qed.

Lemma respond_approved_Ok current input term now w a w' :
  inv w → respond_approved current input term now w = (Ok a, w') →
  inv w' ∧ au_approvals (view w') !! ap_id current = Some a ∧ ap_status a = approval_approved ∧
  ∃ g, granted current term now g ∧ covers g (ap_intentSnapshot current) now ∧
    ap_grantId a = Some (grant_id g) ∧ au_grants (view w') !! grant_id g = Some g.
Proof.
  intros Hi H. unfold respond_approved in H. apply M_bind_Ok in H as (g & w1 & Hg & H).
  apply createGrant_Ok in Hg as [Hg [id Hid]]. destruct (ids_frame _ _ _ _ Hi Hid) as [Hi1 _].
  apply M_bind_Ok in H as (u & w2 & Hc & H). injection Hc as Hc <-.
  apply throw_if_Ok, negb_false_iff, grantCoversIntent_spec in Hc.
  destruct (op_law_Ok _ _ _ _ _ _ _ _ (law_resolveApproval _) Hi1 H) as (Hi' & s & Hs & He).
  apply resolve_stored in He as (Ha & _ & Hst & Hgr & Hput).
  - cbn in *. do 3 (split; [done|]). exists g. auto.
  - eapply interf_wf; [done|by apply law_wf].
Qed.

(** An answered approval is settled as the Owner answered and as time
    allows: the answer must name the snapshot that was asked about, an answer
    after the deadline only expires the request, a refusal creates no grant,
    and an approval stores, with the settled request, one live and unused
    grant of the request's Owner and Agent that covers the approved intent;
    a one-time grant is limited to one use, to the request's life time, to the
    exact scope and to the fingerprint of the approved intent. *)
Theorem respond_settles input w a w' :
  inv w → respond input w = (Ok a, w') →
  ∃ current now w0 w1,
    getApproval (rs_approvalRequestId input) w = (Ok (Some current), w0) ∧
    au_approvals (view w0) !! rs_approvalRequestId input = Some current ∧ interf (view w) (view w0) ∧
    clock_now w0 = (Ok now, w1) ∧ ap_status current = approval_pending ∧
    ap_semanticSnapshotHash current = rs_semanticSnapshotHash input ∧
    au_approvals (view w') !! ap_id current = Some a ∧
    if str_le (ap_expiresAt current) now then ap_status a = approval_expired else
    match rs_decision input with
    | decide_denied => ap_status a = approval_denied ∧ ap_grantId a = None
    | decide_one_time | decide_long_term _ =>
        let term := match rs_decision input with decide_long_term s => Some s | _ => None end in
        ap_status a = approval_approved ∧
        ∃ g, granted current term now g ∧ covers g (ap_intentSnapshot current) now ∧
          ap_grantId a = Some (grant_id g) ∧ au_grants (view w') !! grant_id g = Some g
    end.
Proof.
  intros Hi H. unfold respond, requireApproval in H.
  apply M_bind_Ok in H as (current & w0 & Hc & H).
  apply M_bind_Ok in Hc as (o & w0' & Hget & Hc).
  destruct o as [c|]; [|done]. injection Hc as -> ->.
  destruct (reads_Ok _ _ _ _ _ _ _ _ (law_getApproval _) Hi Hget) as (Hi0 & Hs0 & Hcur).
  apply M_bind_Ok in H as (now & w1 & Hn & H). destruct (clock_frame _ _ _ Hi0 Hn) as [Hi1 _].
  apply M_bind_Ok in H as (u1 & w2 & Hp & H). injection Hp as Hp <-.
  apply throw_if_Ok, negb_false_iff, bool_decide_eq_true in Hp.
  apply M_bind_Ok in H as (u2 & w2 & Hh & H). injection Hh as Hh <-.
  apply throw_if_Ok, negb_false_iff, bool_decide_eq_true in Hh.
  exists current, now, w0, w1. do 6 (split; [done|]).
  destruct (str_le (ap_expiresAt current) now); [by apply expire_Ok in H as (_ & ? & ?)|].
  destruct (rs_decision input) as [| |scope];
    [|by apply respond_approved_Ok in H as (_ & ? & ? & ?)..].
  destruct (op_law_Ok _ _ _ _ _ _ _ _ (law_resolveApproval _) Hi1 H) as (Hi' & s & Hs & He).
  apply resolve_stored in He as (Ha & _ & Hst & Hgr & _); [done|].
  eapply interf_wf; [done|by apply law_wf].
Qed.
End correctness.

(** [PermissionService.evaluate] fails closed: once the clock is read it
    always returns a decision, and a failure of any component it calls (the
    store or the identifier generator, at any point) is the decision DENY. *)
Theorem evaluate_fails_closed `{!AuthorizationStorePort W, !ClockPort W, !IdGeneratorPort W}
    (policy : PermissionPolicy) intent options (w : W) now w0 :
  clock_now w = (Ok now, w0) →
  ∃ d w', evaluate policy intent options w = (Ok d, w') ∧
    match evaluate_guarded policy intent options now w0 with
    | (Ok d', w1) => d = d' ∧ w' = w1
    | (Err _, w1) => d = DENY "permission_component_error" false ∧ w' = w1
    end.
Proof.
  intros Hn. unfold evaluate, try_catch. unfold mbind, M_bind. rewrite Hn.
  destruct (evaluate_guarded _ _ _ _ _) as [[d|x] w1]; by eexists _, _.
Qed.

(** ** Concrete inputs *)
Definition sample_time : string := "2026-01-01T12:00:00.000Z".

Definition sample_intent : ActionIntent :=
  mkIntent "intent-1" "owner" "agent" "run-1" "cap:files" "read" "workspace:notes/a.md" private
    effect_none 5 (mkFrequency 1 None) "key-1" true sample_time.

Definition sample_scope : GrantScope :=
  mkScope "cap:files" ["read"] None ["workspace:notes/"] private [effect_none] 10
    (mkFrequency 3 None) None.

Definition sample_grant : GrantRecord :=
  mkGrant "grant-1" 1 "owner" "agent" long_term sample_scope None "approval-1"
    "2026-01-01T00:00:00.000Z" "2026-02-01T00:00:00.000Z" 3 0 100 0 None None.

Definition sample_options : PermissionEvaluationOptions := mkOptions true "2026-01-01T13:00:00.000Z".

Definition sample_approval : ApprovalRequest :=
  newApproval "approval-0001" (PlainIntent sample_intent) sample_options sample_time.

Definition sample_world : World :=
  mkWorld (mkStore [("approval-0001", sample_approval)] [("grant-1", sample_grant)] [] NO_FAILURES)
    sample_time [].

Lemma sample_world_inv : world_inv sample_world.
Proof.
  split; cbn; [apply NoDup_singleton..|]. split; unfold mem_view; cbn; intros k x;
    rewrite map_view_lookup; cbn;
    match goal with |- context [String.eqb k ?s] => destruct (String.eqb_spec k s) as [->|] end;
    try done; by intros [= <-].
Qed.

Lemma evaluate_allow_sound_witness :
  ∃ g now, covers g (PlainIntent sample_intent) now ∧ grant_scope g = sample_scope.
Proof.
  assert (evaluate (mkPolicy "v1" []) (PlainIntent sample_intent) sample_options sample_world =
    (Ok (ALLOW (basis_grant "grant-1") sample_scope),
     (evaluate (mkPolicy "v1" []) (PlainIntent sample_intent) sample_options sample_world).2)) as H
    by reflexivity.
  destruct (evaluate_allow_sound _ _ _ world_clock_frame _ _ _ _ _ _ sample_world_inv H)
    as (now & w0 & _ & g & s & _ & _ & Hc & Hs & _).
  exists g, now. split; [exact Hc|exact (eq_sym Hs)].
Defined.

Lemma evaluate_fails_closed_witness :
  ∃ d w', evaluate (mkPolicy "v1" []) (PlainIntent sample_intent) sample_options
    (mkWorld (new_store (DeterministicFailureScheduler [] [("authorization.listGrants", [1])]))
       sample_time []) = (Ok d, w') ∧ d = DENY "permission_component_error" false.
Proof.
  destruct (evaluate_fails_closed (mkPolicy "v1" []) (PlainIntent sample_intent) sample_options
    (mkWorld (new_store (DeterministicFailureScheduler [] [("authorization.listGrants", [1])]))
       sample_time []) sample_time _ eq_refl) as (d & w' & He & Hd).
  exists d, w'. split; [exact He|exact (proj1 Hd)].
Defined.

Definition sample_response : ApprovalResponseInput :=
  mkResponse "approval-0001" (actionIntentFingerprint (PlainIntent sample_intent)) decide_one_time.

Lemma respond_settles_witness :
  let w' := (respond sample_response sample_world).2 in
  ∃ a g, au_approvals (world_view w') !! "approval-0001" = Some a ∧ ap_status a = approval_approved ∧
    ap_grantId a = Some (grant_id g) ∧ au_grants (world_view w') !! grant_id g = Some g ∧
    grant_maxUses g = 1.
Proof.
  destruct (respond sample_response sample_world) as [[a|x] w'] eqn:E; [|vm_compute in E; discriminate E].
  destruct (respond_settles world_view world_inv world_clock_frame world_ids_frame sample_response
    sample_world a w' sample_world_inv E) as (c & now & w0 & w1 & Hc & _ & _ & Hn & _ & _ & Hst & H).
  injection Hc as <- <-. injection Hn as <- <-.
  change (str_le _ _) with false in H. destruct H as (Ha & g & Hg & _ & Hgr & Hput).
  exists a, g. repeat (split; [assumption|]). apply (gd_one_time _ _ _ _ Hg). reflexivity.
Defined.

(** The fingerprint of an intent is [intent-] and the eight lower-case
    hexadecimal digits of the 32-bit FNV-1a hash of its serialization: the
    signed arithmetic of the code ([^], [Math.imul], [>>> 0]) agrees with the
    unsigned reference.  The serialization itself loses nothing it is given:
    two intents with the same text are equal in every field of the base
    contract, and both or neither are [authorization.v2] intents, which then
    agree on targets, resources, disclosure, recipients, expiry and risk. *)
Theorem fingerprint_spec :
  (∀ intent, actionIntentFingerprint intent =
     "intent-" +:+ padStart
       (hexOfUint32 (fnv1a_unsigned (utf8 (stringify (fingerprint_object intent))))) 8 "0") ∧
  (∀ intent, ∃ hex, actionIntentFingerprint intent = "intent-" +:+ hex ∧
     String.length hex = 8%nat ∧ all_chars is_hex hex = true) ∧
  (∀ i1 i2, stringify (fingerprint_object i1) = stringify (fingerprint_object i2) →
     intent_base i1 = intent_base i2 ∧
     ∀ g1, i1 = GovernedIntent g1 → ga_contractVersion g1 = "authorization.v2" →
       ∃ g2, i2 = GovernedIntent g2 ∧ ga_contractVersion g2 = "authorization.v2" ∧ same_governed g1 g2).
Proof.
  assert (∀ v, fnv1a v = "intent-" +:+ padStart (hexOfUint32 (fnv1a_unsigned (utf8 v))) 8 "0") as Hf.
  { intros v. unfold fnv1a. by rewrite fnv1a_fold by apply utf8_bytes. }
  split; [intros intent; apply Hf|]. split.
  - intros intent. exists (padStart (hexOfUint32 (toUint32 (foldl (λ hash byte,
      imul (bit_xor hash byte) 16777619) 2166136261 (utf8 (stringify (fingerprint_object intent)))))) 8 "0").
    split; [done|]. set (z := toUint32 _). pose proof (toUint32_range (foldl (λ hash byte,
      imul (bit_xor hash byte) 16777619) 2166136261 (utf8 (stringify (fingerprint_object intent))))) as Hz.
    fold z in Hz. split.
    + apply padStart_length. unfold hexOfUint32.
      etransitivity; [apply hexDigits_length; [lia|unfold two32 in Hz; lia]|done].
    + apply padStart_chars; [|done]. apply hexDigits_chars; [lia|done].
  - intros i1 i2 H%stringify_inj%JObj_inj. apply app_inj_1 in H as [Hb Hg]; [|done]. split; [by apply base_fields_inj|].
    intros g1 -> Hv. rewrite Hv, bool_decide_eq_true_2 in Hg by done.
    destruct i2 as [i2|g2]; [done|]. exists g2. split; [done|].
    destruct (decide (ga_contractVersion g2 = "authorization.v2")) as [Hv2|Hn].
    + split; [done|]. rewrite Hv2, bool_decide_eq_true_2 in Hg by done. by apply governed_fields_inj.
    + by rewrite bool_decide_eq_false_2 in Hg.
Qed.

Lemma fingerprint_spec_witness :
  intent_base (PlainIntent sample_intent) = intent_base (PlainIntent sample_intent).
Proof. apply (proj1 (proj2 (proj2 fingerprint_spec) _ _ eq_refl)). Defined.
