(* ===== verification/AuthContract.v ===== *)
(** What the contract of the authorization store gives every client: the life
    of a grant, approvals that settle once, spending at most once per usage
    identifier, and the refinement by the in-memory store. *)
From S2P Require Import Prelude Js Identifiers Contract AuthTypes AuthStore Deterministic.
From S2P Require Import InMemoryAuth Permission.
Local Open Scope Z_scope.

(** Under any interleaving of store operations by any clients, a stored
    grant stays stored with the same identity, scope, limits and validity; its
    uses never exceed its maximum nor its spending its budget if they did not
    to begin with; each use costs a revision, a record is determined by its
    revision, and after revocation it never changes again. *)
Theorem grant_lifetime s s' k g :
  auth_wf s → interf s s' → au_grants s !! k = Some g →
  ∃ g', au_grants s' !! k = Some g' ∧
    grant_id g' = k ∧ grant_ownerId g' = grant_ownerId g ∧ grant_agentId g' = grant_agentId g ∧
    grant_scope g' = grant_scope g ∧ grant_intentFingerprint g' = grant_intentFingerprint g ∧
    grant_expiresAt g' = grant_expiresAt g ∧ grant_maxUses g' = grant_maxUses g ∧
    (grant_uses g ≤ grant_maxUses g → grant_uses g' ≤ grant_maxUses g) ∧
    (grant_spentCostMicros g ≤ grant_maxTotalCostMicros g →
       grant_spentCostMicros g' ≤ grant_maxTotalCostMicros g) ∧
    0 ≤ grant_uses g' - grant_uses g ≤ grant_revision g' - grant_revision g ∧
    (grant_revision g' = grant_revision g → g' = g) ∧
    (grant_revokedAt g ≠ None → g' = g).
Proof.
  intros Hwf Hi Hk. destruct (interf_grant _ _ _ _ Hwf Hi Hk) as (g' & Hk' & []).
  exists g'. split; [done|]. split; [by apply (wf_grant_key _ (interf_wf _ _ Hi Hwf))|].
  rewrite ev_maxUses in ev_bounded. rewrite ev_maxCost in ev_affordable. auto 20.
Qed.

(** An approval is settled at most once: from the moment it is no longer
    pending no operation of any client changes it, and while it is pending
    the only change is one resolution. *)
Theorem approval_settles_once s s' k a :
  auth_wf s → interf s s' → au_approvals s !! k = Some a →
  ∃ a', au_approvals s' !! k = Some a' ∧
    (ap_status a ≠ approval_pending → a' = a) ∧
    (a' ≠ a → ap_revision a' = ap_revision a + 1 ∧ ap_status a' ≠ approval_pending ∧
       ap_intentSnapshot a' = ap_intentSnapshot a ∧
       ap_semanticSnapshotHash a' = ap_semanticSnapshotHash a ∧ ap_expiresAt a' = ap_expiresAt a).
Proof.
  intros Hwf Hi Hk. destruct (interf_approval _ _ _ _ Hwf Hi Hk) as (a' & Hk' & He).
  exists a'. split; [done|]. destruct He as [->|(Hp & input & ->)]; [done|].
  split; [done|]. intros _. rewrite resolved_status.
  unfold resolved_approval. destruct (ra_recentAuthenticationRef input); cbn;
    by destruct (ra_resolution input).
Qed.

(** A usage identifier spends at most once: after a successful
    [consumeGrant] that carries one, every later [consumeGrant] with the same
    identifier that succeeds, in whatever world other clients have made of the
    store meanwhile and for whatever grant or cost it names, returns the first
    record again, and the store is what the other clients made of it. *)
Theorem usage_spends_once `{!AuthorizationStorePort W} view inv
    `{!AuthorizationStoreLaws W view inv} input u g w w1 w2 input' g' w3 :
  inv w → truthy (cg_usageId input) = Some u → cg_usageId input' = cg_usageId input →
  consumeGrant input w = (Ok g, w1) → inv w2 → interf (view w1) (view w2) →
  consumeGrant input' w2 = (Ok g', w3) →
  g' = g ∧ interf (view w2) (view w3) ∧ au_usage (view w3) !! u = Some g.
Proof.
  intros Hi Hu Hu' Hc Hi2 Hint Hc'.
  destruct (op_law_Ok _ _ _ _ _ _ _ _ (law_consumeGrant _) Hi Hc) as (_ & s & _ & He).
  assert (au_usage (view w1) !! u = Some g) as Hg.
  { unfold consume_effect, replay_of, put_usage in He. rewrite Hu in He. cbn in He.
    destruct (au_usage s !! u) eqn:E; [by destruct He as [-> ->]|].
    destruct He as (? & _ & _ & _ & _ & ->). cbn. apply lookup_insert_eq. }
  apply (interf_usage _ _ _ _ Hint) in Hg.
  destruct (op_law_Ok _ _ _ _ _ _ _ _ (law_consumeGrant _) Hi2 Hc') as (_ & s' & Hs' & He').
  apply (interf_usage _ _ _ _ Hs') in Hg.
  unfold consume_effect, replay_of in He'. rewrite Hu', Hu in He'. cbn in He'. rewrite Hg in He'.
  destruct He' as [-> ->]. done.
Qed.

(** C25 The in-memory store refines the abstract store: from the empty object
    on, each of the eight operations of the port either fails and changes no
    record, or returns and does what the atomic specification of the operation
    says, and the maps stay keyed by identifier without duplicates.  The
    specification has its own account of the records written, field by field,
    and of the grants that may be consumed; lookups answer with what is
    stored, and for an intent with one of its approvals, if there is one. *)
Theorem in_memory_store_refines localeCompare failures :
  mem_inv (new_store failures) ∧ mem_view (new_store failures) = auth_empty ∧
  (∀ r, op_law mem_view mem_inv (create_effect r) (mem_createApproval r)) ∧
  (∀ i, op_law mem_view mem_inv (reads (λ o s, match o with
     | Some a => au_approvals s !! ap_id a = Some a ∧ ap_intentId a = i
     | None => ∀ k a, au_approvals s !! k = Some a → ap_intentId a ≠ i
     end)) (mem_findApprovalByIntent i)) ∧
  (∀ id, op_law mem_view mem_inv (reads (λ o s, o = au_approvals s !! id)) (mem_getApproval id)) ∧
  (∀ o a, op_law mem_view mem_inv (reads (λ l s, ∀ x, x ∈ l ↔ au_approvals s !! ap_id x = Some x ∧
     ap_ownerId x = o ∧ ap_agentId x = a)) (mem_listApprovals localeCompare o a)) ∧
  (∀ i, op_law mem_view mem_inv (resolve_effect i) (mem_resolveApproval i)) ∧
  (∀ o a, op_law mem_view mem_inv (reads (λ l s, ∀ g, g ∈ l ↔ au_grants s !! grant_id g = Some g ∧
     grant_ownerId g = o ∧ grant_agentId g = a)) (mem_listGrants o a)) ∧
  (∀ i, op_law mem_view mem_inv (consume_effect i) (mem_consumeGrant i)) ∧
  (∀ k t r e, op_law mem_view mem_inv (revoke_effect k t r e) (mem_revokeGrant k t r e)).
Proof.
  split; [apply mem_inv_new|]. split; [done|].
  split; [apply mem_create_law|]. split; [apply mem_find_law|]. split; [apply mem_get_law|].
  split; [apply mem_listApprovals_law|]. split; [apply mem_resolve_law|].
  split; [apply mem_listGrants_law|]. split; [apply mem_consume_law|apply mem_revoke_law].
Qed.

(** ** Concrete inputs *)
Definition sample_consume : ConsumeGrantInput :=
  mkConsume "grant-1" 1 5 sample_time (Some "usage-1") None None None.

Definition sample_state : auth_state := world_view sample_world.

Lemma sample_consume_step :
  interf sample_state (world_view (consumeGrant sample_consume sample_world).2).
Proof.
  destruct (law_consumeGrant sample_consume sample_world _ _ sample_world_inv (surjective_pairing _))
    as (_ & s & Hs & He).
  transitivity s; [exact Hs|].
  destruct (consumeGrant sample_consume sample_world) as [[g|x] w']; cbn in He |- *.
  - apply rtc_once. by eapply auth_consume.
  - by rewrite He.
Qed.

Lemma sample_state_wf : auth_wf sample_state.
Proof. apply (law_wf sample_world), sample_world_inv. Qed.

Lemma grant_lifetime_witness :
  ∃ g', au_grants (world_view (consumeGrant sample_consume sample_world).2) !! "grant-1" = Some g' ∧
    grant_scope g' = sample_scope.
Proof.
  destruct (grant_lifetime _ _ "grant-1" sample_grant sample_state_wf sample_consume_step eq_refl)
    as (g' & Hg & _ & _ & _ & Hs & _).
  exists g'. split; [exact Hg|exact Hs].
Defined.

Lemma approval_settles_once_witness :
  ∃ a', au_approvals (world_view (consumeGrant sample_consume sample_world).2) !! "approval-0001"
    = Some a'.
Proof.
  destruct (approval_settles_once _ _ "approval-0001" sample_approval sample_state_wf
    sample_consume_step eq_refl) as (a' & Ha & _).
  exists a'. exact Ha.
Defined.

Lemma usage_spends_once_witness :
  let w1 := (consumeGrant sample_consume sample_world).2 in
  ∃ g w3, consumeGrant sample_consume sample_world = (Ok g, w1) ∧
    consumeGrant sample_consume w1 = (Ok g, w3) ∧ grant_uses g = 1.
Proof.
  intros w1.
  destruct (consumeGrant sample_consume sample_world) as [[g|x] w] eqn:E;
    [|vm_compute in E; discriminate E].
  destruct (consumeGrant sample_consume w) as [[g'|x] w3] eqn:E';
    [|injection E as _ <-; vm_compute in E'; discriminate E'].
  pose proof (law_consumeGrant sample_consume _ _ _ sample_world_inv E) as [Hi _].
  destruct (usage_spends_once world_view world_inv sample_consume "usage-1" g sample_world w w
    sample_consume g' w3 sample_world_inv eq_refl eq_refl E Hi (reflexivity _) E') as [Hg _].
  exists g, w3. split; [reflexivity|]. rewrite <-Hg at 1. split; [exact E'|].
  injection E as <- _. reflexivity.
Defined.
