(* ===== verification/Grant.v ===== *)
(** packages/application/src/services/grant-service.ts: [GrantService], which
    creates, consumes and revokes the grants of governed intents. *)
From S2P Require Import Prelude Js Identifiers Contract AuthTypes AuthStore.
From S2P Require Import Deterministic InMemoryAuth Permission.
Local Open Scope Z_scope.

Definition invalid_operation (message : string) : exn := portError INVALID_OPERATION message [].

Definition bounded (values : list string) (name : string) : result exn unit :=
  throw_if
    ((List.length values =? 0)%nat
     || has_duplicates values
     || existsb (λ value, is_empty value || (value === "*") || (value === "/") || (value === "home:")
                          || (value === "account:*")) values)
    (invalid_operation (name +:+ " must contain explicit bounded values")).

(** The scope of a governed grant: the plain scope and the governed fields. *)
Record GovernedGrantInput := mkGrantInput {
  gi_kind : GrantKind; gi_intent : GovernedActionIntent; gi_approvalRequestId : string;
  gi_scope : GrantScope; gi_governed : GovernedScopeFields; gi_expiresAt : string;
  gi_maxUses : Z; gi_maxTotalCostMicros : Z }.

Section service.
Context {W : Type} `{!AuthorizationStorePort W, !ClockPort W, !IdGeneratorPort W}.

Definition create_long_term_checks (input : GovernedGrantInput) : result exn unit :=
  let scope := gi_scope input in
  throw_if
    ((ga_actionKind (gi_intent input) !== READ)
     || (ga_finalRisk (gi_intent input) !== LOW)
     || existsb (λ effect, effect !== effect_none) (sc_sideEffects scope)
     || (gs_disclosure (gi_governed input) !== disclosure_none)
     || (0 <? List.length (gs_recipients (gi_governed input)))%nat
     || (sc_maxDataClassification scope === sensitive)
     || (sc_maxDataClassification scope === restricted))
    (invalid_operation "Long-term Grants are limited to bounded safe READ actions") ;;
  throw_if
    ((List.length (gs_resourceIdentities (gi_governed input)) =? 0)%nat
     && (List.length (sc_resourcePrefixes scope) =? 0)%nat)
    (invalid_operation "Long-term Grants require bounded resource identities or prefixes") ;;
  throw_if
    (existsb (λ prefix, (String.length prefix <? 3)%nat || (prefix === "/")) (sc_resourcePrefixes scope))
    (invalid_operation "Long-term Grant resource prefixes are too broad").

Definition create_checks (input : GovernedGrantInput) (now : string) : result exn unit :=
  let scope := gi_scope input in
  bounded (sc_operations scope) "Grant operations" ;;
  throw_if (sc_capabilityRef scope !== ai_capabilityRef (ga_base (gi_intent input)))
    (invalid_operation "Grant capability does not match the approved intent") ;;
  throw_if (gs_capabilityVersion (gi_governed input) !== ga_capabilityVersion (gi_intent input))
    (invalid_operation "Grant version does not match the approved intent") ;;
  throw_if
    (gs_credentialOrAccessChange (gi_governed input)
     || str_le (gi_expiresAt input) now
     || (gi_maxUses input <? 1)
     || (gi_maxTotalCostMicros input <? 0)
     || (sc_maxCostMicrosPerUse scope <? 0)
     || (freq_count (sc_maxFrequency scope) <? 1))
    (invalid_operation "Grant lifetime, authority and budgets must be bounded") ;;
  if gi_kind input === long_term then create_long_term_checks input else Ok tt.

Definition create (input : GovernedGrantInput) : M exn W GrantRecord :=
  now ← clock_now;
  lift (create_checks input now) ;;
  let base := ga_base (gi_intent input) in
  let oneTime := gi_kind input === one_time in
  id ← ids_next "grant";
  mret (mkGrant id 1 (ai_ownerId base) (ai_agentId base) (gi_kind input)
    ((gi_scope input) <| sc_governed := Some (gi_governed input) |>)
    (if oneTime then Some (actionIntentFingerprint (GovernedIntent (gi_intent input))) else None)
    (gi_approvalRequestId input) now (gi_expiresAt input)
    (if oneTime then 1 else gi_maxUses input) 0
    (if oneTime then ai_estimatedCostMicros base else gi_maxTotalCostMicros input) 0 None None).

Definition usage_id (intent : GovernedActionIntent) : string :=
  "authorization-usage:" +:+ ai_id (ga_base intent).
Arguments usage_id : simpl never.

Definition consume (grant : GrantRecord) (intent : GovernedActionIntent) : M exn W GrantRecord :=
  let base := ga_base intent in
  now ← clock_now;
  consumeGrant (mkConsume (grant_id grant) (grant_revision grant) (ai_estimatedCostMicros base) now
    (Some (usage_id intent)) (Some (ai_id base)) (Some (ai_runId base)) (Some (ai_operation base))).

Definition revoke (grantId reasonCode : string) (expectedRevision : option Z) : M exn W GrantRecord :=
  now ← clock_now;
  store_revokeGrant grantId now reasonCode expectedRevision.
End service.

Definition frequencyWithin (requested maximum : ActionFrequency) : bool :=
  (freq_count requested <=? freq_count maximum)
  && match freq_intervalMs requested with
     | None => true
     | Some r => match freq_intervalMs maximum with None => false | Some m => m <=? r end
     end.

(** The two frequency checks of the product are the same function. *)
Lemma frequencyWithin_scope intent scope :
  frequencyWithinScope intent scope = frequencyWithin (ai_frequency intent) (sc_maxFrequency scope).
Proof.
  unfold frequencyWithinScope, frequencyWithin.
  rewrite Z.ltb_antisym. by destruct (freq_count (ai_frequency intent) <=? _).
Qed.


(** ** Properties *)
Definition UNBOUNDED_VALUES : list string := [""; "*"; "/"; "home:"; "account:*"].

Lemma bounded_Ok values name u :
  bounded values name = Ok u ↔
  values ≠ [] ∧ NoDup values ∧ ∀ v, v ∈ values → v ∉ UNBOUNDED_VALUES.
Proof.
  unfold bounded, has_duplicates, is_empty, UNBOUNDED_VALUES.
  rewrite throw_if_Ok, !orb_false_iff, negb_false_iff, bool_decide_eq_true, existsb_false, Nat.eqb_neq,
    length_zero_iff_nil.
  split.
  - intros [[Hn Hd] Hv]. do 2 (split; [done|]). intros v Hin. specialize (Hv v Hin).
    rewrite !orb_false_iff, !bool_decide_eq_false in Hv. set_solver.
  - intros (Hn & Hd & Hv). split; [done|]. intros v Hin. specialize (Hv v Hin).
    rewrite !orb_false_iff, !bool_decide_eq_false. set_solver.
Qed.

Lemma create_checks_Ok input now u :
  create_checks input now = Ok u →
  let scope := gi_scope input in
  (sc_operations scope ≠ [] ∧ NoDup (sc_operations scope) ∧
   ∀ v, v ∈ sc_operations scope → v ∉ UNBOUNDED_VALUES) ∧
  sc_capabilityRef scope = ai_capabilityRef (ga_base (gi_intent input)) ∧
  gs_capabilityVersion (gi_governed input) = ga_capabilityVersion (gi_intent input) ∧
  gs_credentialOrAccessChange (gi_governed input) = false ∧
  str_lt now (gi_expiresAt input) = true ∧ 1 ≤ gi_maxUses input ∧
  0 ≤ gi_maxTotalCostMicros input ∧ 0 ≤ sc_maxCostMicrosPerUse scope ∧
  1 ≤ freq_count (sc_maxFrequency scope) ∧
  (gi_kind input = long_term → create_long_term_checks input = Ok u).
Proof.
  unfold create_checks. intros H. cbv zeta.
  apply result_bind_Ok in H as (? & Hb%bounded_Ok & H). rewrite !throw_if_bind in H.
  destruct (sc_capabilityRef _ !== _) eqn:E1; [done|].
  destruct (gs_capabilityVersion _ !== _) eqn:E2; [done|].
  destruct (gs_credentialOrAccessChange _ || _ || _ || _ || _ || _) eqn:E3; [done|].
  apply negb_false_iff, bool_decide_eq_true in E1. apply negb_false_iff, bool_decide_eq_true in E2.
  rewrite !orb_false_iff, !Z.ltb_ge, str_le_false in E3.
  destruct E3 as [[[[[Hc Ht] Hu] Hm] Hp] Hf].
  do 9 (split; [done|]). intros Hk. by rewrite Hk, bool_decide_eq_true_2 in H.
Qed.

Lemma create_long_term_checks_Ok input u :
  create_long_term_checks input = Ok u →
  ga_actionKind (gi_intent input) = READ ∧ ga_finalRisk (gi_intent input) = LOW ∧
  (∀ e, e ∈ sc_sideEffects (gi_scope input) → e = effect_none) ∧
  gs_disclosure (gi_governed input) = disclosure_none ∧ gs_recipients (gi_governed input) = [] ∧
  (sc_maxDataClassification (gi_scope input) = public ∨
   sc_maxDataClassification (gi_scope input) = private) ∧
  (gs_resourceIdentities (gi_governed input) ≠ [] ∨ sc_resourcePrefixes (gi_scope input) ≠ []) ∧
  (∀ p, p ∈ sc_resourcePrefixes (gi_scope input) → (3 ≤ String.length p)%nat).
Proof.
  unfold create_long_term_checks. intros H. rewrite !throw_if_bind in H.
  destruct (_ || _) eqn:E1 in H; [done|]. destruct (_ && _) eqn:E2 in H; [done|].
  apply throw_if_Ok in H.
  rewrite !orb_false_iff, !negb_false_iff, !bool_decide_eq_true, !bool_decide_eq_false, existsb_false,
    Nat.ltb_ge in E1.
  destruct E1 as [[[[[[Hk Hr] He] Hd] Hre] Hs] Hx].
  rewrite existsb_false in H.
  split; [done|]. split; [done|]. split.
  { intros e Hin. specialize (He e Hin). by apply negb_false_iff, bool_decide_eq_true in He. }
  split; [done|]. split; [destruct (gs_recipients _); [done|cbn in Hre; lia]|].
  split; [by destruct (sc_maxDataClassification _); auto|]. split.
  - apply andb_false_iff in E2. rewrite !Nat.eqb_neq, !length_zero_iff_nil in E2. done.
  - intros p Hp. specialize (H p Hp). apply orb_false_iff in H as [H%Nat.ltb_ge _]. done.
Qed.

(** A grant that [GrantService.create] makes is bounded from the start: it
    is unused, unspent, live, expires after the present, belongs to the
    intent's Owner, Agent, capability and capability version, and names
    explicit operations only.  A one-time grant has a single use, costs no
    more than the intent and covers no intent with another fingerprint.  A
    long-term grant stems from a low-risk READ and, whatever intent it ever
    covers, that intent has no side effect and only public or private data
    of an exact resource or a prefix of at least three characters. *)
Theorem grant_create_bounded `{!ClockPort W, !IdGeneratorPort W} input (w : W) g w' :
  create input w = (Ok g, w') →
  let base := ga_base (gi_intent input) in
  (grant_uses g = 0 ∧ 1 ≤ grant_maxUses g ∧ grant_spentCostMicros g = 0 ∧
   grant_revision g = 1 ∧ grant_revokedAt g = None ∧
   str_lt (grant_validFrom g) (grant_expiresAt g) = true) ∧
  (grant_ownerId g = ai_ownerId base ∧ grant_agentId g = ai_agentId base ∧
   sc_capabilityRef (grant_scope g) = ai_capabilityRef base ∧
   sc_governed (grant_scope g) = Some (gi_governed input) ∧
   gs_capabilityVersion (gi_governed input) = ga_capabilityVersion (gi_intent input)) ∧
  (∀ op, op ∈ sc_operations (grant_scope g) → op ∉ UNBOUNDED_VALUES) ∧
  match grant_kind g with
  | one_time => grant_maxUses g = 1 ∧ grant_maxTotalCostMicros g = ai_estimatedCostMicros base ∧
      ∀ any t, covers g any t →
        actionIntentFingerprint any = actionIntentFingerprint (GovernedIntent (gi_intent input))
  | long_term => 0 ≤ grant_maxTotalCostMicros g ∧
      ga_actionKind (gi_intent input) = READ ∧ ga_finalRisk (gi_intent input) = LOW ∧
      ∀ any t, covers g any t →
        ai_sideEffect (intent_base any) = effect_none ∧
        (ai_dataClassification (intent_base any) = public ∨
         ai_dataClassification (intent_base any) = private) ∧
        (sc_exactResourceRef (grant_scope g) = Some (ai_resourceRef (intent_base any)) ∨
         ∃ p, p ∈ sc_resourcePrefixes (grant_scope g) ∧ (3 ≤ String.length p)%nat ∧
           startsWith (ai_resourceRef (intent_base any)) p = true)
  end.
Proof.
  intros H base. unfold create in H. apply M_bind_Ok in H as (now & w0 & _ & H).
  apply M_bind_Ok in H as (u & w1 & Hc & H). injection Hc as Hc _.
  apply M_bind_Ok in H as (id & w2 & _ & H). injection H as <- _.
  apply create_checks_Ok in Hc as ((_ & _ & Hops) & Hcap & Hver & _ & Ht & Hu & Hm & _ & _ & Hlong).
  cbn. split; [|split; [|split]]; try done.
  - repeat (split; [done|]). split; [|done].
    by destruct (gi_kind input).
  - destruct (gi_kind input); cbn.
    + do 2 (split; [done|]). intros any t Hcv.
      destruct (cv_fingerprint _ _ _ Hcv) as [Hn|Hs]; [discriminate Hn|].
      symmetry. by apply (inj Some).
    + destruct (create_long_term_checks_Ok _ _ (Hlong eq_refl))
        as (Hk & Hr & He & _ & _ & Hdata & _ & Hp).
      do 3 (split; [done|]). intros any t Hcv.
      split; [by apply He, (cv_effect _ _ _ Hcv)|]. split.
      * pose proof (cv_classification _ _ _ Hcv) as Hcl. cbn in Hcl.
        destruct (ai_dataClassification _); auto; destruct Hdata as [Hd|Hd]; rewrite Hd in Hcl;
          cbn in Hcl; lia.
      * destruct (cv_resource _ _ _ Hcv) as [|(p & Hin & Hs)]; [by left|]. right. eauto.
Qed.

(** ** Concrete inputs *)
Definition sample_governed : GovernedActionIntent :=
  mkGoverned sample_intent "authorization.v2" "thread-1" READ "1.0.0"
    [mkTarget "file" "workspace:notes/a.md"] ["workspace:notes/a.md"] disclosure_none [] false
    "2026-01-02T00:00:00.000Z" (mkClassification READ LOW "reads_a_note") [] LOW [].

Definition sample_governed_scope : GovernedScopeFields :=
  mkGovernedScope "1.0.0" ["workspace:notes/a.md"] disclosure_none [] false.

Definition sample_grant_input : GovernedGrantInput :=
  mkGrantInput long_term sample_governed "approval-1" sample_scope sample_governed_scope
    "2026-02-01T00:00:00.000Z" 3 100.

Lemma grant_create_bounded_witness :
  ∃ g, (create sample_grant_input sample_world).1 = Ok g ∧
    ∀ any t, covers g any t → ai_sideEffect (intent_base any) = effect_none.
Proof.
  destruct (create sample_grant_input sample_world) as [[g|x] w'] eqn:E; [|discriminate E].
  exists g. split; [reflexivity|]. intros any t Hc.
  pose proof (grant_create_bounded _ _ _ _ E) as (_ & _ & _ & H).
  injection E as <- _. destruct H as (_ & _ & _ & H). exact (proj1 (H any t Hc)).
Defined.
