(* ===== verification/ActionPolicy.v ===== *)
(** packages/application/src/services/action-policy-service.ts: the risk of a
    governed intent, its validation, and [ActionPolicyService]. *)
From S2P Require Import Prelude Js Identifiers Contract AuthTypes AuthStore.
From S2P Require Import Deterministic InMemoryAuth Permission Grant.
Local Open Scope Z_scope.

(** ** Risk *)
(** A level outside the list has no rank ([undefined]); comparisons with
    [undefined] are false. *)
Definition RISK_RANK (r : ActionRiskLevel) : option Z :=
  match r with
  | LOW => Some 0
  | MEDIUM => Some 1
  | HIGH => Some 2
  | CRITICAL => Some 3
  | OtherRisk _ => None
  end.

Definition rank_gt (a b : option Z) : bool :=
  match a, b with Some a, Some b => b <? a | _, _ => false end.

(** A kind outside the list has no baseline ([undefined]). *)
Definition ACTION_KIND_RISK_BASELINE (k : ActionKind) : option ActionRiskLevel :=
  match k with
  | READ => Some LOW
  | CREATE_OR_UPDATE => Some MEDIUM
  | DELETE => Some HIGH
  | COMMUNICATE => Some HIGH
  | PURCHASE_OR_FUNDS => Some CRITICAL
  | CREDENTIAL_OR_ACCESS => Some CRITICAL
  | PRODUCTION_OR_RECOVERY => Some CRITICAL
  | PUBLICATION => Some CRITICAL
  | LEGAL_COMMITMENT => Some CRITICAL
  | PHYSICAL_SAFETY => Some CRITICAL
  | INSTALL_OR_EXECUTE_CODE => Some HIGH
  | OtherKind _ => None
  end.

Definition option_rank (r : option ActionRiskLevel) : option Z := r ≫= RISK_RANK.

(** [risks.reduce(...)] without an initial value, on a list that has a first. *)
Definition highestRisk (first : option ActionRiskLevel) (rest : list ActionRiskLevel)
    : option ActionRiskLevel :=
  foldl (λ highest current,
    if rank_gt (RISK_RANK current) (option_rank highest) then Some current else highest) first rest.

Definition risk_facts (intent : GovernedActionIntent) : list ActionRiskLevel :=
  (fact_minimumRisk <$> ga_deterministicFacts intent)
  ++ (if (ga_actionKind intent === DELETE) && negb (ai_reversible (ga_base intent)) then [CRITICAL] else [])
  ++ (if ga_credentialOrAccessChange intent then [CRITICAL] else [])
  ++ (if ga_disclosure intent === disclosure_public then [CRITICAL] else []).

Definition computeActionRisk (intent : GovernedActionIntent) : option ActionRiskLevel :=
  highestRisk (ACTION_KIND_RISK_BASELINE (ga_actionKind intent))
    (mc_suggestedRisk (ga_modelClassification intent) :: risk_facts intent).

(** ** Validation *)
Definition requiredText (value name : string) : result exn unit :=
  throw_if (String.length (trim value) =? 0)%nat
    (portError INVALID_OPERATION (name +:+ " is required") []).

Fixpoint requireTexts (l : list (string * string)) : result exn unit :=
  match l with
  | [] => Ok tt
  | (name, value) :: l => requiredText value name ;; requireTexts l
  end.

Definition invalid_intent (intent : GovernedActionIntent) (message : string) : exn :=
  portError INVALID_OPERATION message [("intentId", ai_id (ga_base intent))].

Definition required_texts (intent : GovernedActionIntent) : list (string * string) :=
  let base := ga_base intent in
  [("intent id", ai_id base); ("thread id", ga_threadId intent);
   ("capability ref", ai_capabilityRef base); ("capability version", ga_capabilityVersion intent);
   ("operation", ai_operation base); ("resource ref", ai_resourceRef base);
   ("idempotency key", ai_idempotencyKey base);
   ("classification reason", mc_reasonCode (ga_modelClassification intent))].

Definition validateGovernedActionIntent (intent : GovernedActionIntent) : result exn unit :=
  let base := ga_base intent in
  let model := ga_modelClassification intent in
  throw_if
    ((ga_contractVersion intent !== "authorization.v2")
     || negb (includes (ga_actionKind intent) ACTION_KINDS)
     || negb (includes (mc_actionKind model) ACTION_KINDS)
     || negb (includes (mc_suggestedRisk model) ACTION_RISK_LEVELS))
    (portError INVALID_OPERATION "ActionIntent contains an unknown contract, kind, or risk" []) ;;
  throw_if (negb (List.length (ga_extraKeys intent) =? 0)%nat)
    (invalid_intent intent "ActionIntent contains undeclared semantic parameters") ;;
  requireTexts (required_texts intent) ;;
  throw_if
    ((List.length (ga_targets intent) =? 0)%nat
     || (List.length (ga_resourceRefs intent) =? 0)%nat
     || negb (includes (ai_resourceRef base) (ga_resourceRefs intent))
     || existsb (λ t, is_empty (target_type t) || is_empty (target_ref t)) (ga_targets intent)
     || has_duplicates (ga_resourceRefs intent)
     || has_duplicates (ga_recipients intent)
     || (freq_count (ai_frequency base) <? 1)
     || match freq_intervalMs (ai_frequency base) with Some i => i <? 1 | None => false end
     || (ai_estimatedCostMicros base <? 0)
     || str_le (ga_expiresAt intent) (ai_requestedAt base))
    (invalid_intent intent "ActionIntent is incomplete or internally inconsistent") ;;
  throw_if (mc_actionKind model !== ga_actionKind intent)
    (invalid_intent intent "Model classification does not match the fixed action kind") ;;
  throw_if (computeActionRisk intent !== Some (ga_finalRisk intent))
    (portError NOT_AUTHORITATIVE "Model-provided risk cannot lower the deterministic risk floor"
       [("intentId", ai_id base)]).

Definition freezeGovernedActionIntent (intent : GovernedActionIntent)
    : result exn GovernedActionIntent :=
  validateGovernedActionIntent intent ;;
  Ok intent.

(** ** Completeness: the fields a partial candidate may lack *)
Record PartialIntent := mkPartial {
  pa_targets : option (list ActionTarget); pa_resourceRefs : option (list string);
  pa_capabilityRef : option string; pa_capabilityVersion : option string;
  pa_operation : option string; pa_frequency : option ActionFrequency;
  pa_estimatedCostMicros : option Z; pa_disclosure : option DisclosureMode;
  pa_recipients : option (list string) }.

Definition text_missing (v : option string) : bool :=
  match v with None | Some EmptyString => true | Some _ => false end.

Definition array_missing {A} (v : option (list A)) : bool :=
  match v with None | Some [] => true | Some _ => false end.

Definition value_missing {A} (v : option A) : bool :=
  match v with None => true | Some _ => false end.

Definition missing_fields (c : PartialIntent) : list string :=
  fst <$> List.filter snd
    [("targets", array_missing (pa_targets c)); ("resourceRefs", array_missing (pa_resourceRefs c));
     ("capabilityRef", text_missing (pa_capabilityRef c));
     ("capabilityVersion", text_missing (pa_capabilityVersion c));
     ("operation", text_missing (pa_operation c)); ("frequency", value_missing (pa_frequency c));
     ("estimatedCostMicros", value_missing (pa_estimatedCostMicros c));
     ("disclosure", value_missing (pa_disclosure c)); ("recipients", value_missing (pa_recipients c))].

Inductive CompletenessResult :=
  | Complete (intent : GovernedActionIntent)
  | Clarification (missingFields : list string).

(** [rest] supplies the fields that the loop does not look at; a candidate
    that lacks one of the nine never reaches the validation. *)
Definition assessActionIntentCompleteness (c : PartialIntent) (rest : GovernedActionIntent)
    : CompletenessResult :=
  match missing_fields c with
  | [] =>
      match pa_targets c, pa_resourceRefs c, pa_capabilityRef c, pa_capabilityVersion c,
            pa_operation c, pa_frequency c, pa_estimatedCostMicros c, pa_disclosure c,
            pa_recipients c with
      | Some targets, Some resourceRefs, Some capabilityRef, Some version, Some operation,
        Some frequency, Some cost, Some disclosure, Some recipients =>
          let b := ga_base rest in
          let base := mkIntent (ai_id b) (ai_ownerId b) (ai_agentId b) (ai_runId b) capabilityRef
            operation (ai_resourceRef b) (ai_dataClassification b) (ai_sideEffect b) cost frequency
            (ai_idempotencyKey b) (ai_reversible b) (ai_requestedAt b) in
          let candidate := mkGoverned base (ga_contractVersion rest) (ga_threadId rest)
            (ga_actionKind rest) version targets resourceRefs disclosure recipients
            (ga_credentialOrAccessChange rest) (ga_expiresAt rest) (ga_modelClassification rest)
            (ga_deterministicFacts rest) (ga_finalRisk rest) (ga_extraKeys rest) in
          match freezeGovernedActionIntent candidate with
          | Ok intent => Complete intent
          | Err _ => Clarification ["invalid_semantics"]
          end
      | _, _, _, _, _, _, _, _, _ => Clarification []
      end
  | missing => Clarification missing
  end.

(** ** Capability facts: the fields of the registry that are consulted *)
Inductive CapabilityRegistryLifecycle :=
  | discovered
  | review_required
  | installation_proposed
  | installation_approved
  | capability_active
  | update_proposed
  | update_approved
  | capability_disabled
  | capability_revoked
  | uninstalled.

#[global] Instance CapabilityRegistryLifecycle_eq_dec : EqDecision CapabilityRegistryLifecycle.
Proof. solve_decision. Defined.

Definition capabilityLifecycleHasActiveAuthority (lifecycle : CapabilityRegistryLifecycle) : bool :=
  (lifecycle === capability_active) || (lifecycle === update_proposed) || (lifecycle === update_approved).

Inductive CapabilityHealth := healthy | degraded | unhealthy | health_unknown.

#[global] Instance CapabilityHealth_eq_dec : EqDecision CapabilityHealth.
Proof. solve_decision. Defined.

Record CapabilityAuthorizationFacts := mkFacts {
  cf_lifecycle : CapabilityRegistryLifecycle; cf_health : CapabilityHealth; cf_version : string;
  cf_operations : list string; cf_dataClassifications : list DataClassification }.

(** The input of [AuthorizationDecisionTracePort.record]. *)
Record DecisionTrace := mkTrace {
  dt_intentId : string; dt_policyVersion : string; dt_facts : list string;
  dt_modelRisk : ActionRiskLevel; dt_finalRisk : ActionRiskLevel;
  dt_decision : PermissionDecisionKind; dt_reasonCode : string; dt_occurredAt : string }.

(** ** ActionPolicyService *)
Definition capabilityDenial (facts : option CapabilityAuthorizationFacts)
    (intent : GovernedActionIntent) : option string :=
  match facts with
  | None => Some "capability_not_registered"
  | Some facts =>
      if negb (capabilityLifecycleHasActiveAuthority (cf_lifecycle facts)) then Some "capability_not_active"
      else if cf_health facts !== healthy then Some "capability_not_healthy"
      else if cf_version facts !== ga_capabilityVersion intent then Some "capability_version_mismatch"
      else if negb (includes (ai_operation (ga_base intent)) (cf_operations facts))
      then Some "operation_not_declared"
      else if negb (includes (ai_dataClassification (ga_base intent)) (cf_dataClassifications facts))
      then Some "data_scope_not_declared"
      else None
  end.

(** The predicate of the DENY rules. *)
Definition denyRuleMatches (intent : GovernedActionIntent) (rule : PermissionPolicyRule) : bool :=
  (rule_effect rule === rule_deny)
  && includes (ai_capabilityRef (ga_base intent)) (rule_capabilityRefs rule)
  && includes (ai_operation (ga_base intent)) (rule_operations rule)
  && existsb (λ prefix, forallb (λ ref, startsWith ref prefix) (ga_resourceRefs intent))
       (rule_resourcePrefixes rule).

Definition governedGrantCovers (grant : GrantRecord) (intent : GovernedActionIntent) (now : string)
    : bool :=
  let scope := grant_scope grant in
  let base := ga_base intent in
  let replay :=
    (grant_intentFingerprint grant === Some (actionIntentFingerprint (GovernedIntent intent)))
    && (0 <? grant_uses grant)
    && (grant_ownerId grant === ai_ownerId base)
    && (grant_agentId grant === ai_agentId base)
    && (grant_revokedAt grant === None)
    && str_lt now (grant_expiresAt grant) in
  match sc_governed scope with
  | None => false
  | Some governed =>
      (gs_capabilityVersion governed === ga_capabilityVersion intent)
      && (gs_disclosure governed === ga_disclosure intent)
      && forallb (λ recipient, includes recipient (gs_recipients governed)) (ga_recipients intent)
      && forallb (λ ref, includes ref (gs_resourceIdentities governed)
                         || existsb (λ prefix, startsWith ref prefix) (sc_resourcePrefixes scope))
           (ga_resourceRefs intent)
      && (grantCoversIntent grant (GovernedIntent intent) now || replay)
  end.

Definition safePolicyRead (rule : PermissionPolicyRule) (intent : GovernedActionIntent) : bool :=
  let base := ga_base intent in
  (ga_actionKind intent === READ)
  && (ga_finalRisk intent === LOW)
  && (ai_sideEffect base === effect_none)
  && (ga_disclosure intent === disclosure_none)
  && (List.length (ga_recipients intent) =? 0)%nat
  && negb (ga_credentialOrAccessChange intent)
  && (ai_dataClassification base !== sensitive)
  && (ai_dataClassification base !== restricted)
  && includes (ai_capabilityRef base) (rule_capabilityRefs rule)
  && includes (ai_operation base) (rule_operations rule)
  && forallb (λ ref, existsb (λ prefix, (1 <? String.length prefix)%nat && startsWith ref prefix)
                       (rule_resourcePrefixes rule)) (ga_resourceRefs intent)
  && includes (ai_dataClassification base) (rule_dataClassifications rule)
  && includes (ai_sideEffect base) (rule_sideEffects rule)
  && (ai_estimatedCostMicros base <=? rule_maxCostMicros rule).

Section service.
Context {W : Type} `{!AuthorizationStorePort W, !ClockPort W, !IdGeneratorPort W}.
Context (policy : PermissionPolicy).
Context (inspect : string → M exn W (option CapabilityAuthorizationFacts)).
Context (record : option (DecisionTrace → M exn W unit)).

Definition trace (intent : GovernedActionIntent) (decision : PermissionDecisionKind)
    (reasonCode now : string) : M exn W unit :=
  match record with
  | None => mret tt
  | Some record =>
      record (mkTrace (ai_id (ga_base intent)) (policy_version policy)
        (fact_code <$> ga_deterministicFacts intent)
        (mc_suggestedRisk (ga_modelClassification intent)) (ga_finalRisk intent) decision reasonCode now)
  end.

Definition finish (intent : GovernedActionIntent) (reasonCode now : string)
    (alternativesAllowed : bool) : M exn W PermissionDecision :=
  trace intent kind_DENY reasonCode now ;;
  mret (DENY reasonCode alternativesAllowed).

Definition existingApproval (intent : GovernedActionIntent) (approval : ApprovalRequest) (now : string)
    : M exn W PermissionDecision :=
  if ap_semanticSnapshotHash approval !== actionIntentFingerprint (GovernedIntent intent)
  then finish intent "approval_hash_mismatch" now false
  else if ap_status approval !== approval_pending
  then finish intent ("approval_" +:+ approval_status_name (ap_status approval)) now true
  else if str_le (ap_expiresAt approval) now then finish intent "approval_expired" now true
  else
    trace intent kind_ASK "approval_pending" now ;;
    mret (ASK approval).

(** The request that [evaluate] creates. *)
Definition newGovernedApproval (id : string) (intent : GovernedActionIntent)
    (options : PermissionEvaluationOptions) (now : string) : ApprovalRequest :=
  let base := ga_base intent in
  mkApproval None id 1 (ai_ownerId base) (ai_agentId base) (ai_runId base) (ai_id base)
    (GovernedIntent intent) (actionIntentFingerprint (GovernedIntent intent)) approval_pending
    (if uiAvailable options then deliverable else queued_no_ui) now (approvalExpiresAt options)
    None None (Some (ga_finalRisk intent)) (Some (ga_finalRisk intent === CRITICAL)) (Some None).

(** The approval part; [mret p] stands for [return p] of a promise that is not awaited. *)
Definition evaluate_approval (intent : GovernedActionIntent) (options : PermissionEvaluationOptions)
    (now : string) : M exn W (M exn W PermissionDecision) :=
  if str_le (approvalExpiresAt options) now || str_lt (ga_expiresAt intent) (approvalExpiresAt options)
  then mret (finish intent "approval_expiry_invalid" now true)
  else
    existing ← findApprovalByIntent (ai_id (ga_base intent));
    match existing with
    | Some existing => mret (existingApproval intent existing now)
    | None =>
        id ← ids_next "approval";
        stored ← createApproval (newGovernedApproval id intent options now);
        trace intent kind_ASK
          (if uiAvailable options then "approval_required" else "approval_queued_no_ui") now ;;
        mret (mret (ASK stored))
    end.

Definition evaluate_authority (intent : GovernedActionIntent) (options : PermissionEvaluationOptions)
    (now : string) : M exn W (M exn W PermissionDecision) :=
  let base := ga_base intent in
  grants ← listGrants (ai_ownerId base) (ai_agentId base);
  match List.find (λ grant, governedGrantCovers grant intent now) grants with
  | Some grant =>
      consumed ← consumeGrant (mkConsume (grant_id grant) (grant_revision grant)
        (ai_estimatedCostMicros base) now (Some (usage_id intent)) (Some (ai_id base))
        (Some (ai_runId base)) (Some (ai_operation base)));
      trace intent kind_ALLOW "grant" now ;;
      mret (mret (ALLOW (basis_grant (grant_id consumed)) (grant_scope consumed)))
  | None =>
      match List.find (λ rule, (rule_effect rule === rule_allow) && safePolicyRead rule intent)
              (policy_rules policy) with
      | Some rule =>
          trace intent kind_ALLOW (rule_reasonCode rule) now ;;
          mret (mret (ALLOW (basis_policy (rule_id rule)) (exactScope base)))
      | None => evaluate_approval intent options now
      end
  end.

Definition evaluate_body (source : GovernedActionIntent) (options : PermissionEvaluationOptions)
    : M exn W (M exn W PermissionDecision) :=
  intent ← lift (freezeGovernedActionIntent source);
  now ← clock_now;
  capability ← inspect (ai_capabilityRef (ga_base intent));
  match capabilityDenial capability intent with
  | Some denial => mret (finish intent denial now false)
  | None =>
      match List.find (denyRuleMatches intent) (policy_rules policy) with
      | Some deniedRule => mret (finish intent (rule_reasonCode deniedRule) now false)
      | None => evaluate_authority intent options now
      end
  end.

Definition evaluate (source : GovernedActionIntent) (options : PermissionEvaluationOptions)
    : M exn W PermissionDecision :=
  try_tail (evaluate_body source options)
    (λ _, mret (DENY "authorization_component_error" false)).
End service.

(** ** Risk: the highest of the list *)
Definition rank_le (a b : option Z) : Prop :=
  match a, b with Some a, Some b => a ≤ b | None, _ => True | _, None => False end.

Lemma highestRisk_spec r rest z :
  RISK_RANK r = Some z →
  ∃ h z', highestRisk (Some r) rest = Some h ∧ RISK_RANK h = Some z' ∧ z ≤ z' ∧
    (h = r ∨ h ∈ rest) ∧ ∀ x, x ∈ rest → rank_le (RISK_RANK x) (Some z').
Proof.
  unfold highestRisk. revert r z. induction rest as [|c rest IH]; intros r z Hr; cbn [foldl].
  { exists r, z. repeat split; auto; [lia|]. intros x Hx. by apply not_elem_of_nil in Hx. }
  cbn [option_rank mbind option_bind]. rewrite Hr.
  destruct (rank_gt (RISK_RANK c) (Some z)) eqn:E.
  - destruct (RISK_RANK c) as [zc|] eqn:Hc; [|done]. apply Z.ltb_lt in E.
    destruct (IH c zc Hc) as (h & z' & -> & Hh & Hle & Hin & Hall).
    exists h, z'. repeat split; try done; [lia| |].
    + right. apply elem_of_cons. naive_solver.
    + intros x [->|Hx]%elem_of_cons; [rewrite Hc; cbn; lia|auto].
  - destruct (IH r z Hr) as (h & z' & -> & Hh & Hle & Hin & Hall).
    exists h, z'. repeat split; try done.
    + destruct Hin; [by left|right; by apply elem_of_cons; right].
    + intros x [->|Hx]%elem_of_cons; [|auto].
      destruct (RISK_RANK c) as [zc|]; cbn in *; [|done]. apply Z.ltb_ge in E. lia.
Qed.

Lemma validate_Ok intent u :
  validateGovernedActionIntent intent = Ok u →
  ga_contractVersion intent = "authorization.v2" ∧ ga_actionKind intent ∈ ACTION_KINDS ∧
  mc_suggestedRisk (ga_modelClassification intent) ∈ ACTION_RISK_LEVELS ∧
  mc_actionKind (ga_modelClassification intent) = ga_actionKind intent ∧
  ai_resourceRef (ga_base intent) ∈ ga_resourceRefs intent ∧
  NoDup (ga_resourceRefs intent) ∧ NoDup (ga_recipients intent) ∧ ga_extraKeys intent = [] ∧
  1 ≤ freq_count (ai_frequency (ga_base intent)) ∧ 0 ≤ ai_estimatedCostMicros (ga_base intent) ∧
  str_lt (ai_requestedAt (ga_base intent)) (ga_expiresAt intent) = true ∧
  computeActionRisk intent = Some (ga_finalRisk intent).
Proof.
  unfold validateGovernedActionIntent. intros H. ok_guard H E1. ok_guard H E2.
  apply result_bind_Ok in H as (? & _ & H). ok_guard H E3. ok_guard H E4. ok_guard H E5.
  unfold has_duplicates in E3.
  rewrite !orb_false_iff, !negb_false_iff, ?bool_decide_eq_true, !includes_spec in *.
  rewrite !Z.ltb_ge, str_le_false in E3.
  rewrite Nat.eqb_eq, length_zero_iff_nil in E2.
  destruct E1 as [[[? ?] ?] ?], E3 as [[[[[[[[[? ?] ?] ?] ?] ?] ?] ?] ?] ?]. done.
Qed.

(** The risk of an accepted intent cannot be talked down: its final risk is
    at least the baseline of its kind, the model's suggestion and every
    deterministic fact, is one of these, and is CRITICAL for an irreversible
    deletion, a change of credentials or access, and a public disclosure. *)
Theorem risk_floor intent :
  is_ok (validateGovernedActionIntent intent) = true →
  ∃ baseline z, ACTION_KIND_RISK_BASELINE (ga_actionKind intent) = Some baseline ∧
    RISK_RANK (ga_finalRisk intent) = Some z ∧
    rank_le (RISK_RANK baseline) (Some z) ∧
    rank_le (RISK_RANK (mc_suggestedRisk (ga_modelClassification intent))) (Some z) ∧
    (∀ f, f ∈ ga_deterministicFacts intent → rank_le (RISK_RANK (fact_minimumRisk f)) (Some z)) ∧
    (ga_finalRisk intent = baseline ∨
     ga_finalRisk intent ∈ mc_suggestedRisk (ga_modelClassification intent) :: risk_facts intent) ∧
    (ga_actionKind intent = DELETE ∧ ai_reversible (ga_base intent) = false ∨
     ga_credentialOrAccessChange intent = true ∨ ga_disclosure intent = disclosure_public →
     ga_finalRisk intent = CRITICAL).
Proof.
  destruct (validateGovernedActionIntent intent) as [u|] eqn:E; [|done]. intros _.
  apply validate_Ok in E as (_ & Hk & _ & _ & _ & _ & _ & _ & _ & _ & _ & Hrisk).
  assert (∃ b z0, ACTION_KIND_RISK_BASELINE (ga_actionKind intent) = Some b ∧ RISK_RANK b = Some z0)
    as (b & z0 & Hb & Hz0).
  { unfold ACTION_KINDS in Hk. rewrite !elem_of_cons, elem_of_nil in Hk.
    destruct_or?; try done; match goal with H : ga_actionKind _ = _ |- _ => rewrite H end; cbn; eauto. }
  unfold computeActionRisk in Hrisk. rewrite Hb in Hrisk.
  destruct (highestRisk_spec b (mc_suggestedRisk (ga_modelClassification intent) :: risk_facts intent)
    z0 Hz0) as (h & z & Hh & Hz & Hle & Hin & Hall).
  rewrite Hh in Hrisk. injection Hrisk as Hrisk. rewrite Hrisk in Hz, Hin.
  exists b, z. do 2 (split; [done|]). split; [by rewrite Hz0|]. split; [apply Hall; left|].
  split.
  { intros f Hf. apply Hall. apply elem_of_cons. right. unfold risk_facts. apply elem_of_app. left.
    apply list_elem_of_fmap. eauto. }
  split; [done|]. intros Hc.
  assert (CRITICAL ∈ risk_facts intent) as Hcr.
  { unfold risk_facts. rewrite !elem_of_app. right.
    destruct Hc as [[-> ->]|[->| ->]]; cbn; [left|right; left|right; right]; apply list_elem_of_here. }
  specialize (Hall CRITICAL). rewrite elem_of_cons in Hall. specialize (Hall (or_intror Hcr)). cbn in Hall.
  destruct (ga_finalRisk intent); cbn in Hz; try done; injection Hz as <-; lia.
Qed.

(** ** Correctness of the service, against the laws of the store *)
Lemma truthy_usage_id intent : truthy (Some (usage_id intent)) = Some (usage_id intent).
Proof. done. Qed.

(** ** The guards, condition by condition *)
Record capability_ready (facts : CapabilityAuthorizationFacts) (intent : GovernedActionIntent) : Prop :=
  mk_ready {
    cp_lifecycle : cf_lifecycle facts = capability_active ∨ cf_lifecycle facts = update_proposed ∨
      cf_lifecycle facts = update_approved;
    cp_health : cf_health facts = healthy;
    cp_version : cf_version facts = ga_capabilityVersion intent;
    cp_operation : ai_operation (ga_base intent) ∈ cf_operations facts;
    cp_class : ai_dataClassification (ga_base intent) ∈ cf_dataClassifications facts;
  }.

Lemma capabilityDenial_spec facts intent :
  capabilityDenial (Some facts) intent = None ↔ capability_ready facts intent.
Proof.
  unfold capabilityDenial, capabilityLifecycleHasActiveAuthority. split.
  - intros H. repeat (case_match; [done|]).
    repeat match goal with H : negb _ = false |- _ => apply negb_false_iff in H end.
    guards. split; naive_solver.
  - intros [H1 H2 H3 H4 H5]. apply includes_spec in H4, H5. rewrite H2, H3, H4, H5.
    rewrite !(bool_decide_eq_true_2 (_ = _) eq_refl). destruct H1 as [-> | [-> | ->]]; done.
Qed.

(** A DENY rule that applies to the intent. *)
Definition denies (rule : PermissionPolicyRule) (intent : GovernedActionIntent) : Prop :=
  rule_effect rule = rule_deny ∧ ai_capabilityRef (ga_base intent) ∈ rule_capabilityRefs rule ∧
  ai_operation (ga_base intent) ∈ rule_operations rule ∧
  ∃ prefix, prefix ∈ rule_resourcePrefixes rule ∧
    ∀ ref, ref ∈ ga_resourceRefs intent → startsWith ref prefix = true.

Lemma denyRuleMatches_spec intent rule : denyRuleMatches intent rule = true ↔ denies rule intent.
Proof.
  unfold denyRuleMatches, denies. rewrite !andb_true_iff, existsb_elem, bool_decide_eq_true, !includes_spec.
  setoid_rewrite forallb_elem. tauto.
Qed.

(** A grant that the intent has spent, presented again for the same intent. *)
Record spent_by (grant : GrantRecord) (intent : GovernedActionIntent) (now : string) : Prop := mk_spent {
  sp_fingerprint : grant_intentFingerprint grant = Some (actionIntentFingerprint (GovernedIntent intent));
  sp_used : 0 < grant_uses grant;
  sp_owner : grant_ownerId grant = ai_ownerId (ga_base intent);
  sp_agent : grant_agentId grant = ai_agentId (ga_base intent);
  sp_live : grant_revokedAt grant = None;
  sp_until : str_lt now (grant_expiresAt grant) = true;
}.

Definition governed_covers (grant : GrantRecord) (intent : GovernedActionIntent) (now : string) : Prop :=
  ∃ gs, sc_governed (grant_scope grant) = Some gs ∧
    gs_capabilityVersion gs = ga_capabilityVersion intent ∧ gs_disclosure gs = ga_disclosure intent ∧
    (∀ recipient, recipient ∈ ga_recipients intent → recipient ∈ gs_recipients gs) ∧
    (∀ ref, ref ∈ ga_resourceRefs intent → ref ∈ gs_resourceIdentities gs ∨
       ∃ prefix, prefix ∈ sc_resourcePrefixes (grant_scope grant) ∧ startsWith ref prefix = true) ∧
    (covers grant (GovernedIntent intent) now ∨ spent_by grant intent now).

Lemma governedGrantCovers_spec grant intent now :
  governedGrantCovers grant intent now = true ↔ governed_covers grant intent now.
Proof.
  unfold governedGrantCovers, governed_covers. destruct (sc_governed _) as [gs|]; [|naive_solver].
  rewrite !andb_true_iff, orb_true_iff, grantCoversIntent_spec, !andb_true_iff, !bool_decide_eq_true,
    !forallb_elem, Z.ltb_lt.
  setoid_rewrite orb_true_iff. setoid_rewrite existsb_elem. setoid_rewrite includes_spec.
  split.
  - intros [[[[Hv Hd] Hr] Hf] Hc]. exists gs. do 5 (split; [done|]).
    destruct Hc as [Hc|Hc]; [by left|right]. destruct_and!. by split.
  - intros (? & [= <-] & Hv & Hd & Hr & Hf & Hc). split_and!; try done.
    destruct Hc as [Hc|[]]; [by left|right]. by split_and!.
Qed.

(** A read that a policy rule may allow without a grant. *)
Record safe_read (rule : PermissionPolicyRule) (intent : GovernedActionIntent) : Prop := mk_safe_read {
  sr_kind : ga_actionKind intent = READ;
  sr_risk : ga_finalRisk intent = LOW;
  sr_effect : ai_sideEffect (ga_base intent) = effect_none;
  sr_disclosure : ga_disclosure intent = disclosure_none;
  sr_recipients : ga_recipients intent = [];
  sr_credentials : ga_credentialOrAccessChange intent = false;
  sr_class : ai_dataClassification (ga_base intent) ≠ sensitive ∧
    ai_dataClassification (ga_base intent) ≠ restricted;
  sr_capability : ai_capabilityRef (ga_base intent) ∈ rule_capabilityRefs rule;
  sr_operation : ai_operation (ga_base intent) ∈ rule_operations rule;
  sr_resources : ∀ ref, ref ∈ ga_resourceRefs intent → ∃ prefix, prefix ∈ rule_resourcePrefixes rule ∧
    (1 < String.length prefix)%nat ∧ startsWith ref prefix = true;
  sr_classes : ai_dataClassification (ga_base intent) ∈ rule_dataClassifications rule;
  sr_effects : ai_sideEffect (ga_base intent) ∈ rule_sideEffects rule;
  sr_cost : ai_estimatedCostMicros (ga_base intent) ≤ rule_maxCostMicros rule;
}.

Lemma safePolicyRead_spec rule intent : safePolicyRead rule intent = true ↔ safe_read rule intent.
Proof.
  unfold safePolicyRead. rewrite !andb_true_iff, !negb_true_iff, !bool_decide_eq_true,
    !bool_decide_eq_false, !includes_spec, forallb_elem, Nat.eqb_eq, length_zero_iff_nil, Z.leb_le.
  setoid_rewrite existsb_elem. setoid_rewrite andb_true_iff. setoid_rewrite Nat.ltb_lt.
  split; [intros; destruct_and!; by split|intros []; destruct_and!; by split_and!].
Qed.

Section correctness.
Context {W : Type} `{!AuthorizationStorePort W, !ClockPort W, !IdGeneratorPort W}.
Context (policy : PermissionPolicy).
Context (inspect : string → M exn W (option CapabilityAuthorizationFacts)).
Context (record : option (DecisionTrace → M exn W unit)).
Context (view : W → auth_state) (inv : W → Prop).
Context `{!AuthorizationStoreLaws W view inv}.
Hypothesis clock_frame : frame_law view inv clock_now.
Hypothesis ids_frame : ∀ ns, frame_law view inv (ids_next ns).
Hypothesis inspect_frame : ∀ ref, frame_law view inv (inspect ref).
Hypothesis record_frame : ∀ r t, record = Some r → frame_law view inv (r t).

Lemma trace_frame intent k reason now : frame_law view inv (trace policy record intent k reason now).
Proof.
  intros w r w' Hi H. unfold trace in H. destruct record as [rec|] eqn:E.
  - by apply (record_frame rec _ eq_refl _ _ _ Hi H).
  - injection H as <- <-. by split.
Qed.

Lemma finish_Ok intent reason now alt w d w' :
  finish policy record intent reason now alt w = (Ok d, w') → d = DENY reason alt.
Proof. unfold finish. intros H. apply M_bind_Ok in H as (? & ? & _ & H). by injection H as <- _. Qed.

Lemma existingApproval_Ok intent a now w d w' :
  existingApproval policy record intent a now w = (Ok d, w') →
  (∃ reason alt, d = DENY reason alt) ∨
  (d = ASK a ∧ ap_status a = approval_pending ∧ str_lt now (ap_expiresAt a) = true ∧
   ap_semanticSnapshotHash a = actionIntentFingerprint (GovernedIntent intent)).
Proof.
  unfold existingApproval. intros H.
  destruct (ap_semanticSnapshotHash a !== _) eqn:E1; [left; apply finish_Ok in H; eauto|].
  destruct (ap_status a !== _) eqn:E2; [left; apply finish_Ok in H; eauto|].
  destruct (str_le _ _) eqn:E3; [left; apply finish_Ok in H; eauto|].
  apply M_bind_Ok in H as (? & ? & _ & H). injection H as <- _. right.
  apply negb_false_iff, bool_decide_eq_true in E1. apply negb_false_iff, bool_decide_eq_true in E2.
  apply str_le_false in E3. done.
Qed.

(** The consumption that an intent pays a grant with. *)
Definition use_of (g : GrantRecord) (source : GovernedActionIntent) (now : string) : ConsumeGrantInput :=
  mkConsume (grant_id g) (grant_revision g) (ai_estimatedCostMicros (ga_base source)) now
    (Some (usage_id source)) (Some (ai_id (ga_base source))) (Some (ai_runId (ga_base source)))
    (Some (ai_operation (ga_base source))).

(** The authority part, on the run itself: [w1] is the world in which the
    grants are listed, and after the consumption the decision is only recorded.  On a grant: the listed grant [g] covers the intent, and
    the decision is the answer [g'] of [consumeGrant] on [g], at the revision
    that was listed, for the intent's own cost and usage identifier.  On the
    policy: no listed grant covers, and a safe read rule allows. *)
Definition allowed_by (source : GovernedActionIntent) (now : string) (w1 : W)
    (basis : AllowBasis) (scope : GrantScope) (w' : W) : Prop :=
  ∃ grants w2,
    listGrants (ai_ownerId (ga_base source)) (ai_agentId (ga_base source)) w1 = (Ok grants, w2) ∧
    match basis with
    | basis_grant ref => ∃ g g' w3 s,
        g ∈ grants ∧ au_grants (view w2) !! grant_id g = Some g ∧ governed_covers g source now ∧
        consumeGrant (use_of g source now) w2 = (Ok g', w3) ∧
        interf (view w2) s ∧ consume_effect (use_of g source now) g' s (view w3) ∧
        (au_usage s !! usage_id source = None →
           au_grants s !! grant_id g = Some g ∧ g' = consumed_grant g (use_of g source now) ∧
           au_grants (view w3) !! grant_id g = Some g') ∧
        (∃ u, trace policy record source kind_ALLOW "grant" now w3 = (Ok u, w')) ∧
        interf (view w3) (view w') ∧ au_usage (view w') !! usage_id source = Some g' ∧
        ref = grant_id g' ∧ scope = grant_scope g'
    | basis_policy ref => ∃ rule,
        (∀ g, g ∈ grants → ¬ governed_covers g source now) ∧
        rule ∈ policy_rules policy ∧ rule_effect rule = rule_allow ∧ rule_id rule = ref ∧
        safe_read rule source ∧ scope = exactScope (ga_base source) ∧
        ∃ u, trace policy record source kind_ALLOW (rule_reasonCode rule) now w2 = (Ok u, w')
    end.

Lemma evaluate_approval_tail source options now w p w1 basis scope w' :
  evaluate_approval policy record source options now w = (Ok p, w1) →
  p w1 ≠ (Ok (ALLOW basis scope), w').
Proof.
  unfold evaluate_approval. intros H Hp. destruct (_ || _).
  { injection H as <- <-. by apply finish_Ok in Hp. }
  apply M_bind_Ok in H as ([a|] & w2 & _ & H).
  - injection H as <- <-. apply existingApproval_Ok in Hp as [(? & ? & ?)|[? _]]; done.
  - apply M_bind_Ok in H as (? & ? & _ & H). apply M_bind_Ok in H as (? & ? & _ & H).
    apply M_bind_Ok in H as (? & ? & _ & H). injection H as <- <-. by injection Hp.
Qed.

Lemma evaluate_authority_allow source options now w p w1 basis scope w' :
  inv w → evaluate_authority policy record source options now w = (Ok p, w1) →
  p w1 = (Ok (ALLOW basis scope), w') → allowed_by source now w basis scope w'.
Proof.
  intros Hi H Hp. unfold evaluate_authority in H.
  apply M_bind_Ok in H as (grants & w2 & Hl & H). exists grants, w2. split; [done|].
  destruct (reads_Ok _ _ _ _ _ _ _ _ (law_listGrants _ _) Hi Hl) as (Hi2 & Hs2 & Hgrants).
  destruct (List.find _ grants) as [g|] eqn:Hf.
  - apply find_elem in Hf as [Hin Hcov%governedGrantCovers_spec].
    pose proof (proj1 (proj1 (Hgrants g) Hin)) as Hg.
    apply M_bind_Ok in H as (g' & w3 & Hk & H). apply M_bind_Ok in H as (u & w4 & Ht & H).
    injection H as <- <-. injection Hp as <- <- <-.
    destruct (op_law_Ok _ _ _ _ _ _ _ _ (law_consumeGrant _) Hi2 Hk) as (Hi3 & s & Hs & He).
    destruct (trace_frame _ _ _ _ _ _ _ Hi3 Ht) as [_ Hs4].
    exists g, g', w3, s. do 6 (split; [done|]). split; [|split; [by exists u|split; [done|split; [|done]]]].
    + intros Hn. apply (consume_listed (view w2) s (view w3) g (use_of g source now)); try done.
      by apply law_wf.
    + apply (interf_usage _ _ _ _ Hs4). apply (consume_usage _ (usage_id source)) in He; [|done].
      destruct (au_usage s !! usage_id source) as [r|] eqn:Hr; [|by destruct He].
      destruct He as [-> Hv]. by rewrite Hv.
  - destruct (List.find _ (policy_rules policy)) as [rule|] eqn:Ha.
    + apply find_elem in Ha as [Hr Hm]. apply andb_true_iff in Hm as [He%bool_decide_eq_true Hsafe%safePolicyRead_spec].
      apply M_bind_Ok in H as (u & w3 & Ht & H). injection H as <- <-. injection Hp as <- <- <-.
      exists rule. split; [|do 5 (split; [done|]); by exists u]. intros g Hg Hcov%governedGrantCovers_spec.
      by rewrite (proj1 (find_None _ _) Hf _ Hg) in Hcov.
    + by apply (evaluate_approval_tail _ _ _ _ _ _ _ _ _ H) in Hp.
Qed.

(** A decision on a grant is the record of the intent's usage identifier, an
    earlier one if there is one. *)
Lemma evaluate_authority_usage source options now w p w1 ref scope w' :
  inv w → evaluate_authority policy record source options now w = (Ok p, w1) →
  p w1 = (Ok (ALLOW (basis_grant ref) scope), w') →
  ∃ g', au_usage (view w') !! usage_id source = Some g' ∧ ref = grant_id g' ∧ scope = grant_scope g' ∧
    ∀ r, au_usage (view w) !! usage_id source = Some r → g' = r.
Proof.
  intros Hi H Hp.
  destruct (evaluate_authority_allow _ _ _ _ _ _ _ _ _ Hi H Hp) as (grants & w2 & Hl & Hall).
  destruct Hall as (g & g' & w3 & s & _ & _ & _ & _ & Hs & He & _ & _ & Hs4 & Hu & -> & ->).
  exists g'. do 3 (split; [done|]). intros r Hr.
  destruct (reads_Ok _ _ _ _ _ _ _ _ (law_listGrants _ _) Hi Hl) as (_ & Hs2 & _).
  assert (interf (view w) (view w')) as Hsw.
  { transitivity (view w2); [done|]. transitivity s; [done|].
    transitivity (view w3); [|done]. apply rtc_once. by eapply auth_consume. }
  apply (interf_usage _ _ _ _ Hsw) in Hr. congruence.
Qed.

(** The parts of [evaluate] that every decision but a failure goes through. *)
Lemma evaluate_inv source options w d w' :
  inv w → evaluate policy inspect record source options w = (Ok d, w') →
  (∃ reason alt, d = DENY reason alt) ∨
  ∃ now w0 facts w1 p w2,
    validateGovernedActionIntent source = Ok tt ∧ clock_now w = (Ok now, w0) ∧
    inspect (ai_capabilityRef (ga_base source)) w0 = (Ok (Some facts), w1) ∧
    capabilityDenial (Some facts) source = None ∧
    (∀ rule, rule ∈ policy_rules policy → denyRuleMatches source rule = false) ∧
    inv w1 ∧ interf (view w) (view w1) ∧
    evaluate_authority policy record source options now w1 = (Ok p, w2) ∧ p w2 = (Ok d, w').
Proof.
  intros Hi H. unfold evaluate, try_tail in H.
  destruct (evaluate_body _ _ _ _ _ w) as [[p|x] w2] eqn:E; [|injection H as <- _; left; eauto].
  unfold evaluate_body in E. apply M_bind_Ok in E as (intent & w0' & Hv & E).
  injection Hv as Hv <-. unfold freezeGovernedActionIntent in Hv.
  apply result_bind_Ok in Hv as ([] & Hv & [= <-]).
  apply M_bind_Ok in E as (now & w0 & Hn & E). destruct (clock_frame _ _ _ Hi Hn) as [Hi0 Hs0].
  apply M_bind_Ok in E as (facts & w1 & Hf & E). destruct (inspect_frame _ _ _ _ Hi0 Hf) as [Hi1 Hs1].
  destruct (capabilityDenial facts source) as [reason|] eqn:Hd.
  { injection E as <- <-. apply finish_Ok in H. left. eauto. }
  destruct (List.find _ _) as [rule|] eqn:Hr.
  { injection E as <- <-. apply finish_Ok in H. left. eauto. }
  right. destruct facts as [facts|]; [|done]. exists now, w0, facts, w1, p, w2.
  do 4 (split; [done|]). split; [by apply find_None|].
  split; [done|]. split; [by transitivity (view w0)|done].
Qed.

(** C1 What [ActionPolicyService.evaluate] allows is authorized, whatever
    other clients of the store do meanwhile.  The intent passed validation
    (so its risk respects the floor), its capability is registered, active,
    healthy, of the intent's version and declares the operation and the data
    class, and no DENY rule matches.  An ALLOW on a grant rests on a grant
    that this call listed and that was stored then, that covers the intent
    (version, disclosure, recipients, every resource, and the plain coverage
    or a replay of its own use), and is the answer of the store's consumption
    of that very grant, at the listed revision, for the intent's own cost and
    usage identifier: unless the store had this use recorded already, the
    grant is consumed once from the record that was listed.  After it the call
    only records its decision.  Either way the use stays recorded under the identifier, and the decision's reference and
    scope are those of the record.  An ALLOW on the policy means that no
    listed grant covered the intent, which is a safe read under an ALLOW rule,
    with the exact scope. *)
Theorem governed_allow_sound source options w basis scope w' :
  inv w → evaluate policy inspect record source options w = (Ok (ALLOW basis scope), w') →
  ∃ now w0 facts w1,
    validateGovernedActionIntent source = Ok tt ∧ clock_now w = (Ok now, w0) ∧
    inspect (ai_capabilityRef (ga_base source)) w0 = (Ok (Some facts), w1) ∧
    capability_ready facts source ∧
    (∀ rule, rule ∈ policy_rules policy → ¬ denies rule source) ∧
    interf (view w) (view w1) ∧
    allowed_by source now w1 basis scope w'.
Proof.
  intros Hi H. apply evaluate_inv in H as [(? & ? & ?)|H]; [done| |done].
  destruct H as (now & w0 & facts & w1 & p & w2 & Hv & Hn & Hf & Hd & Hr & Hi1 & Hs1 & He & Hp).
  exists now, w0, facts, w1. do 3 (split; [done|]). split; [by apply capabilityDenial_spec|].
  split; [intros rule Hin Hden%denyRuleMatches_spec; by rewrite (Hr _ Hin) in Hden|].
  split; [done|]. by eapply evaluate_authority_allow.
Qed.

(** C28 An intent is paid for at most once: of two ALLOW decisions on grants
    for intents with the same identifier, however far apart and whatever
    other clients do in between, the second is for the same consumed record:
    the same grant with the same scope. *)
Theorem governed_intent_spends_once source source' options options' w ref scope w1 w2 ref' scope' w3 :
  inv w → inv w2 → interf (view w1) (view w2) →
  ai_id (ga_base source') = ai_id (ga_base source) →
  evaluate policy inspect record source options w = (Ok (ALLOW (basis_grant ref) scope), w1) →
  evaluate policy inspect record source' options' w2 = (Ok (ALLOW (basis_grant ref') scope'), w3) →
  ref' = ref ∧ scope' = scope.
Proof.
  intros Hi Hi2 Hs Hid H1 H2.
  apply evaluate_inv in H1 as [(? & ? & ?)|H1]; [done| |done].
  apply evaluate_inv in H2 as [(? & ? & ?)|H2]; [done| |done].
  destruct H1 as (n1 & a1 & f1 & b1 & p1 & c1 & _ & _ & _ & _ & _ & Hb1 & _ & H1 & Hp1).
  destruct H2 as (n2 & a2 & f2 & b2 & p2 & c2 & _ & _ & _ & _ & _ & Hb2 & Hsb2 & H2 & Hp2).
  destruct (evaluate_authority_usage _ _ _ _ _ _ _ _ _ Hb1 H1 Hp1) as (g1 & Hg1 & -> & ->  & _).
  destruct (evaluate_authority_usage _ _ _ _ _ _ _ _ _ Hb2 H2 Hp2) as (g2 & _ & -> & -> & Hkeep).
  assert (usage_id source' = usage_id source) as Hu by (unfold usage_id; by rewrite Hid).
  rewrite Hu in Hkeep.
  apply (interf_usage _ _ _ _ Hs), (interf_usage _ _ _ _ Hsb2) in Hg1.
  specialize (Hkeep _ Hg1). by subst g2.
Qed.

Lemma evaluate_approval_ask source options now w p w1 a w' :
  inv w → evaluate_approval policy record source options now w = (Ok p, w1) →
  p w1 = (Ok (ASK a), w') →
  ap_status a = approval_pending ∧ str_lt now (ap_expiresAt a) = true ∧
  ap_semanticSnapshotHash a = actionIntentFingerprint (GovernedIntent source) ∧
  (∃ s, interf (view w) s ∧ au_approvals s !! ap_id a = Some a) ∧
  ∃ found w2, findApprovalByIntent (ai_id (ga_base source)) w = (Ok found, w2) ∧
    match found with
    | Some existing => a = existing ∧ ap_intentId a = ai_id (ga_base source)
    | None => a = newGovernedApproval (ap_id a) source options now ∧
        str_le (ap_expiresAt a) (ga_expiresAt source) = true
    end.
Proof.
  intros Hi H Hp. unfold evaluate_approval in H. destruct (_ || _) eqn:Et.
  { injection H as <- <-. by apply finish_Ok in Hp. }
  apply orb_false_iff in Et as [Hnow%str_le_false Hend].
  apply M_bind_Ok in H as (found & w2 & Hf & H).
  destruct (reads_Ok _ _ _ _ _ _ _ _ (law_findApprovalByIntent _) Hi Hf) as (Hi2 & Hs2 & Hfound).
  destruct found as [existing|].
  - injection H as <- <-.
    apply existingApproval_Ok in Hp as [(? & ? & ?)|([= ->] & Hst & Ht & Hh)]; [done|].
    destruct Hfound as [Hs Hid]. do 3 (split; [done|]). split; [by exists (view w2)|].
    by exists (Some existing), w2.
  - apply M_bind_Ok in H as (id & w3 & Hid & H). destruct (ids_frame _ _ _ _ Hi2 Hid) as [Hi3 Hs3].
    apply M_bind_Ok in H as (stored & w4 & Hc & H).
    destruct (op_law_Ok _ _ _ _ _ _ _ _ (law_createApproval _) Hi3 Hc) as (Hi4 & s & Hs & -> & Hn & Hv).
    apply M_bind_Ok in H as (u & w5 & Ht & H). injection H as <- <-. injection Hp as <- _.
    do 3 (split; [done|]). split.
    + exists (view w4). split; [|rewrite Hv; cbn; apply lookup_insert_eq].
      transitivity (view w2); [done|]. transitivity (view w3); [done|]. transitivity s; [done|].
      apply rtc_once. by eapply auth_create.
    + exists None, w2. split; [done|]. split; [done|]. unfold str_le. cbn.
      unfold str_lt in Hend. by rewrite Hend.
Qed.

(** When the governed policy asks, it asks about this very intent: the
    request is pending, carries the intent's fingerprint, was in the store
    under its own identifier, and its deadline lies in the future.  It is the
    request already recorded for the intent if there is one; else a new one,
    which ends with the intent at the latest and requires recent
    authentication exactly for CRITICAL risk. *)
Theorem governed_ask_sound source options w a w' :
  inv w → evaluate policy inspect record source options w = (Ok (ASK a), w') →
  ∃ now w0, clock_now w = (Ok now, w0) ∧
    ap_status a = approval_pending ∧ str_lt now (ap_expiresAt a) = true ∧
    ap_semanticSnapshotHash a = actionIntentFingerprint (GovernedIntent source) ∧
    (∃ s, interf (view w) s ∧ au_approvals s !! ap_id a = Some a) ∧
    ∃ found w2 w3, findApprovalByIntent (ai_id (ga_base source)) w2 = (Ok found, w3) ∧
      match found with
      | Some existing => a = existing ∧ ap_intentId a = ai_id (ga_base source)
      | None => a = newGovernedApproval (ap_id a) source options now ∧
          str_le (ap_expiresAt a) (ga_expiresAt source) = true ∧
          (ap_recentAuthenticationRequired a = Some true ↔ ga_finalRisk source = CRITICAL)
      end.
Proof.
  intros Hi H. apply evaluate_inv in H as [(? & ? & ?)|H]; [done| |done].
  destruct H as (now & w0 & facts & w1 & p & w2 & _ & Hn & _ & _ & _ & Hi1 & Hs1 & He & Hp).
  exists now, w0. split; [done|]. unfold evaluate_authority in He.
  apply M_bind_Ok in He as (grants & w3 & Hl & He).
  destruct (reads_Ok _ _ _ _ _ _ _ _ (law_listGrants _ _) Hi1 Hl) as (Hi3 & Hs3 & _).
  destruct (List.find _ grants) as [g|].
  { apply M_bind_Ok in He as (? & ? & _ & He). apply M_bind_Ok in He as (? & ? & _ & He).
    injection He as <- <-. by injection Hp. }
  destruct (List.find _ (policy_rules policy)) as [rule|].
  { apply M_bind_Ok in He as (? & ? & _ & He). injection He as <- <-. by injection Hp. }
  destruct (evaluate_approval_ask _ _ _ _ _ _ _ _ Hi3 He Hp)
    as (Hst & Ht & Hh & (s & Hs & Ha) & found & w4 & Hf & Hm).
  do 3 (split; [done|]). split.
  { exists s. split; [|done]. transitivity (view w1); [done|]. by transitivity (view w3). }
  exists found, w3, w4. split; [done|]. destruct found as [b|]; [done|].
  destruct Hm as [Ha' He']. split; [done|]. split; [done|]. rewrite Ha'. cbn.
  case_bool_decide; naive_solver.
Qed.
End correctness.

(** *** Failures *)
Section failures.
Context {W : Type} `{!AuthorizationStorePort W, !ClockPort W, !IdGeneratorPort W}.
Context (policy : PermissionPolicy).
Context (inspect : string → M exn W (option CapabilityAuthorizationFacts)).
Context (record : option (DecisionTrace → M exn W unit)).

(** [evaluate] can only throw what recording a decision threw. *)
Definition recorder_threw (x : exn) (w' : W) : Prop :=
  ∃ rec t w0, record = Some rec ∧ rec t w0 = (Err x, w') ∧ dt_decision t ≠ kind_ALLOW.

Lemma trace_Err intent k reason now w x w' :
  k ≠ kind_ALLOW → trace policy record intent k reason now w = (Err x, w') → recorder_threw x w'.
Proof.
  unfold trace. intros Hk H. destruct record as [rec|] eqn:E; [|done].
  exists rec. eexists _, w. split; [done|]. by split; [exact H|].
Qed.

Lemma finish_Err intent reason now alt w x w' :
  finish policy record intent reason now alt w = (Err x, w') → recorder_threw x w'.
Proof.
  unfold finish. intros H. apply M_bind_Err in H as [H|(? & ? & _ & H)]; [|done].
  eapply trace_Err; [|done]. done.
Qed.

Lemma existingApproval_Err intent a now w x w' :
  existingApproval policy record intent a now w = (Err x, w') → recorder_threw x w'.
Proof.
  unfold existingApproval. intros H.
  repeat case_match; try (by eapply finish_Err).
  apply M_bind_Err in H as [H|(? & ? & _ & H)]; [|done]. eapply trace_Err; [|done]. done.
Qed.

Lemma evaluate_body_tail source options w p w1 x w' :
  evaluate_body policy inspect record source options w = (Ok p, w1) →
  p w1 = (Err x, w') → recorder_threw x w'.
Proof.
  unfold evaluate_body. intros H Hp.
  apply M_bind_Ok in H as (intent & w2 & _ & H). apply M_bind_Ok in H as (now & w3 & _ & H).
  apply M_bind_Ok in H as (facts & w4 & _ & H).
  destruct (capabilityDenial _ _); [injection H as <- <-; by eapply finish_Err|].
  destruct (List.find _ _); [injection H as <- <-; by eapply finish_Err|].
  apply M_bind_Ok in H as (grants & w5 & _ & H). destruct (List.find _ grants).
  { apply M_bind_Ok in H as (? & ? & _ & H). apply M_bind_Ok in H as (? & ? & _ & H).
    injection H as <- <-. by injection Hp. }
  destruct (List.find _ (policy_rules policy)).
  { apply M_bind_Ok in H as (? & ? & _ & H). injection H as <- <-. by injection Hp. }
  unfold evaluate_approval in H. destruct (_ || _); [injection H as <- <-; by eapply finish_Err|].
  apply M_bind_Ok in H as ([a|] & w6 & _ & H).
  { injection H as <- <-. by eapply existingApproval_Err. }
  apply M_bind_Ok in H as (? & ? & _ & H). apply M_bind_Ok in H as (? & ? & _ & H).
  apply M_bind_Ok in H as (? & ? & _ & H). injection H as <- <-. by injection Hp.
Qed.

(** C37 [ActionPolicyService.evaluate] fails closed: an intent that does not
    validate is denied before any component is called; a failure of the
    clock, the registry, the store, the identifiers or the recording of an
    ALLOW is a DENY; and the only way the call can throw is that recording a
    DENY or a pending ASK threw, so a failure never turns into an ALLOW and,
    with a recorder that does not throw, every call returns a decision. *)
Theorem governed_evaluate_fails_closed source options w :
  (is_ok (validateGovernedActionIntent source) = false →
     evaluate policy inspect record source options w =
       (Ok (DENY "authorization_component_error" false), w)) ∧
  match evaluate policy inspect record source options w with
  | (Err x, w') => recorder_threw x w'
  | (Ok d, w') =>
      match evaluate_body policy inspect record source options w with
      | (Err _, w1) => d = DENY "authorization_component_error" false ∧ w' = w1
      | (Ok p, w1) => p w1 = (Ok d, w')
      end
  end.
Proof.
  split.
  - intros Hv. unfold evaluate, try_tail, evaluate_body, freezeGovernedActionIntent.
    destruct (validateGovernedActionIntent source); [done|reflexivity].
  - unfold evaluate, try_tail.
    destruct (evaluate_body _ _ _ _ _ w) as [[p|x] w1] eqn:E; [|done].
    destruct (p w1) as [[d|x] w'] eqn:Ep; [done|]. by eapply evaluate_body_tail.
Qed.
End failures.

(** ** Concrete inputs *)
Definition sample_facts : CapabilityAuthorizationFacts :=
  mkFacts capability_active healthy "1.0.0" ["read"] [private].

Definition sample_inspect (ref : string) : M exn World (option CapabilityAuthorizationFacts) :=
  mret (Some sample_facts).

Lemma sample_inspect_frame ref : frame_law world_view world_inv (sample_inspect ref).
Proof. intros w r w' Hi H. injection H as <- <-. by split. Qed.

Lemma no_record_frame (r : DecisionTrace → M exn World unit) t :
  None = Some r → frame_law world_view world_inv (r t).
Proof. done. Qed.

Definition sample_governed_grant : GrantRecord :=
  sample_grant <| grant_scope := sample_scope <| sc_governed := Some sample_governed_scope |> |>.

(** A store with, or without, the grant. *)
Definition governed_world (grants : jsmap GrantRecord) : World :=
  mkWorld (mkStore [] grants [] NO_FAILURES) sample_time [].

Lemma governed_world_inv : world_inv (governed_world [("grant-1", sample_governed_grant)]).
Proof.
  split; cbn; [constructor|apply NoDup_singleton|]. split; unfold mem_view; cbn; intros k x;
    rewrite map_view_lookup; cbn; [done|].
  destruct (String.eqb_spec k "grant-1") as [->|]; [by intros [= <-]|done].
Qed.

Abbreviation sample_evaluate := (evaluate (mkPolicy "v1" []) sample_inspect None) (only parsing).

Definition granted_run : result exn PermissionDecision * World :=
  sample_evaluate sample_governed sample_options (governed_world [("grant-1", sample_governed_grant)]).

Lemma granted_run_eq :
  sample_evaluate sample_governed sample_options (governed_world [("grant-1", sample_governed_grant)])
  = (Ok (ALLOW (basis_grant "grant-1") (grant_scope sample_governed_grant)), granted_run.2).
Proof. vm_compute. reflexivity. Qed.

Lemma governed_allow_sound_witness :
  validateGovernedActionIntent sample_governed = Ok tt ∧
  allowed_by (mkPolicy "v1" []) None world_view sample_governed sample_time
    (governed_world [("grant-1", sample_governed_grant)]) (basis_grant "grant-1")
    (grant_scope sample_governed_grant) granted_run.2.
Proof.
  destruct (governed_allow_sound _ _ _ _ _ world_clock_frame sample_inspect_frame no_record_frame
    _ _ _ _ _ _ governed_world_inv granted_run_eq)
    as (now & w0 & facts & w1 & Hv & Hn & Hf & _ & _ & _ & Hall).
  split; [exact Hv|]. injection Hn as <- <-. injection Hf as <- <-. exact Hall.
Defined.

Definition sample_use : ConsumeGrantInput :=
  mkConsume "grant-1" 1 5 sample_time (Some "authorization-usage:intent-1") (Some "intent-1")
    (Some "run-1") (Some "read").

Lemma granted_world_inv : world_inv granted_run.2.
Proof.
  assert (granted_run.2 =
    (consumeGrant sample_use (governed_world [("grant-1", sample_governed_grant)])).2) as ->
    by (vm_compute; reflexivity).
  apply (proj1 (law_consumeGrant sample_use _ _ _ governed_world_inv (surjective_pairing _))).
Qed.

Lemma granted_again_eq : sample_evaluate sample_governed sample_options granted_run.2
  = (Ok (ALLOW (basis_grant "grant-1") (grant_scope sample_governed_grant)),
     (sample_evaluate sample_governed sample_options granted_run.2).2).
Proof. vm_compute. reflexivity. Qed.

Lemma governed_intent_spends_once_witness :
  match granted_run.1, (sample_evaluate sample_governed sample_options granted_run.2).1 with
  | Ok (ALLOW (basis_grant ref) scope), Ok (ALLOW (basis_grant ref') scope') =>
      ref' = ref ∧ scope' = scope
  | _, _ => False
  end.
Proof.
  rewrite granted_again_eq. unfold granted_run at 1. rewrite granted_run_eq.
  exact (governed_intent_spends_once _ _ _ _ _ world_clock_frame sample_inspect_frame no_record_frame
    sample_governed sample_governed _ _ _ _ _ _ _ _ _ _ governed_world_inv granted_world_inv
    (reflexivity _) eq_refl granted_run_eq granted_again_eq).
Defined.

Definition asked_run : result exn PermissionDecision * World :=
  sample_evaluate sample_governed sample_options (governed_world []).

Definition asked_approval : ApprovalRequest :=
  newGovernedApproval "approval-0001" sample_governed sample_options sample_time.

Lemma asked_run_eq : sample_evaluate sample_governed sample_options (governed_world [])
  = (Ok (ASK asked_approval), asked_run.2).
Proof. vm_compute. reflexivity. Qed.

Lemma governed_ask_sound_witness :
  ap_semanticSnapshotHash asked_approval = actionIntentFingerprint (GovernedIntent sample_governed).
Proof.
  destruct (governed_ask_sound _ _ _ _ _ world_clock_frame world_ids_frame sample_inspect_frame
    _ _ _ _ _ (world_inv_at sample_time) asked_run_eq)
    as (now & w0 & _ & _ & _ & Hh & _).
  exact Hh.
Defined.

Lemma risk_floor_witness :
  ∃ baseline z, ACTION_KIND_RISK_BASELINE (ga_actionKind sample_governed) = Some baseline ∧
    RISK_RANK (ga_finalRisk sample_governed) = Some z ∧ rank_le (RISK_RANK baseline) (Some z).
Proof.
  destruct (risk_floor sample_governed ltac:(vm_compute; reflexivity)) as (b & z & Hb & Hz & Hle & _).
  exists b, z. split; [exact Hb|]. split; [exact Hz|exact Hle].
Defined.

Lemma governed_evaluate_fails_closed_witness :
  sample_evaluate (sample_governed <| ga_finalRisk := CRITICAL |>) sample_options (governed_world [])
  = (Ok (DENY "authorization_component_error" false), governed_world []).
Proof. apply (proj1 (governed_evaluate_fails_closed _ _ _ _ _ _)). vm_compute. reflexivity. Defined.

(** A denial is lost when its recording fails: the promise of [finish] is
    returned from the [try] block without [await], so its rejection is not
    caught there and reaches the caller instead of a decision. *)
Lemma denial_lost_when_recording_fails :
  ∃ record : DecisionTrace → M exn World unit,
    (evaluate (mkPolicy "v1" []) (λ _, mret None) (Some record) sample_governed sample_options
       (governed_world [])).1 = Err (OtherError "Error" "trace store unavailable").
Proof. exists (λ _, throw (OtherError "Error" "trace store unavailable")). vm_compute. reflexivity. Qed.
