(* ===== verification/Coordination.v ===== *)
(** packages/application/src/ports/coordination.ts (scheduled jobs, trigger
    admission, authority leases), the execution claim of ports/run-dispatch.ts,
    and the in-memory scheduler and lease port of
    packages/testing/src/in-memory/coordination.ts. *)
From S2P Require Import Prelude Js JsDate Identifiers Contract Entities.
From S2P Require Import AuthTypes Deterministic InMemoryAuth.
Local Open Scope Z_scope.

(** ** The execution claim of a Run (ports/run-dispatch.ts) *)
Record RunExecutionLeaseClaim := mkLeaseClaim {
  el_executionLeaseId : string; el_expectedLeaseRevision : Z; el_authorityLeaseId : AuthorityLeaseId;
  el_authorityFencingToken : Z; el_deploymentId : DeploymentId; el_authorityEpoch : Z; el_fencingToken : Z;
  el_consumerId : string }.

(** ** Scheduled jobs *)
Inductive JobStatus := scheduled_active | scheduled_paused | scheduled_cancelled.

#[global] Instance JobStatus_eq_dec : EqDecision JobStatus.
Proof. solve_decision. Defined.

Record ScheduledJob := mkJob {
  sj_id : string; sj_revision : Z; sj_ownerId : OwnerId; sj_agentId : AgentId;
  sj_threadId : option ThreadId; sj_payloadRef : string; sj_sourceProofRef : string;
  sj_dataClassification : DataClassification; sj_authorizationRef : string;
  sj_taskScopeRef : string; sj_capabilityRef : string; sj_operation : string;
  sj_resourceRef : string; sj_sideEffect : ActionSideEffect; sj_estimatedCostMicros : Z;
  sj_intervalMs : Z; sj_minimumIntervalMs : Z; sj_expiresAt : string; sj_revokedAt : option string;
  sj_nextRunAt : string; sj_occurrence : Z; sj_status : JobStatus }.

#[global] Instance ScheduledJob_eq_dec : EqDecision ScheduledJob.
Proof. solve_decision. Defined.

#[global] Instance eta_Job : Eta ScheduledJob := λ r,
  mkJob (sj_id r) (sj_revision r) (sj_ownerId r) (sj_agentId r) (sj_threadId r) (sj_payloadRef r)
    (sj_sourceProofRef r) (sj_dataClassification r) (sj_authorizationRef r) (sj_taskScopeRef r)
    (sj_capabilityRef r) (sj_operation r) (sj_resourceRef r) (sj_sideEffect r)
    (sj_estimatedCostMicros r) (sj_intervalMs r) (sj_minimumIntervalMs r) (sj_expiresAt r)
    (sj_revokedAt r) (sj_nextRunAt r) (sj_occurrence r) (sj_status r).

(** A [ScheduledJobWrite] is a job whose revision is not looked at. *)
Class SchedulerPort (W : Type) := {
  scheduler_read : string → M exn W (option ScheduledJob);
  upsert : ScheduledJob → option Z → M exn W ScheduledJob;
  listDue : string → Z → M exn W (list ScheduledJob);
  scheduler_cancel : string → Z → M exn W ScheduledJob;
}.

(** ** Trigger admission *)
Record TriggerAdmissionResult := mkAdmission { ta_resultRef : string; ta_replayed : bool }.

(** packages/application/src/services/unified-trigger-ingestion-service.ts *)
Inductive UnifiedTriggerSource := source_user_message | source_schedule | source_external_event.

Inductive UnifiedTriggerActorType :=
  actor_owner | actor_client | actor_scheduler | actor_external_adapter | actor_system.

Record UnifiedTriggerInput := mkTriggerInput {
  ti_messageId : string; ti_correlationId : string; ti_causationId : option string;
  ti_idempotencyKey : string; ti_ownerId : OwnerId; ti_agentId : AgentId;
  ti_actorType : UnifiedTriggerActorType; ti_actorId : string;
  ti_dataClassification : DataClassification; ti_triggerId : string;
  ti_sourceType : UnifiedTriggerSource; ti_sourceId : string; ti_occurredAt : string;
  ti_threadId : option ThreadId; ti_payloadRef : string; ti_sourceProofRef : string }.

Class UnifiedTriggerPort (W : Type) := ingest : UnifiedTriggerInput → M exn W TriggerAdmissionResult.

(** ** Authority leases *)
Record AuthorityLeaseRecord := mkLeaseRecord {
  lr_lease : AgentAuthorityLease; lr_fencingToken : Z; lr_acquiredAt : string; lr_expiresAt : string }.

#[global] Instance AuthorityLeaseRecord_eq_dec : EqDecision AuthorityLeaseRecord.
Proof. solve_decision. Defined.

#[global] Instance eta_LeaseRecord : Eta AuthorityLeaseRecord := λ r,
  mkLeaseRecord (lr_lease r) (lr_fencingToken r) (lr_acquiredAt r) (lr_expiresAt r).

Class AuthorityLeasePort (W : Type) := {
  lease_claim : AgentAuthorityLease → Z → M exn W AuthorityLeaseRecord;
  lease_current : AgentId → M exn W (option AuthorityLeaseRecord);
  lease_renew : AuthorityLeaseId → Z → M exn W AuthorityLeaseRecord;
  lease_release : AuthorityLeaseId → M exn W unit;
}.

(** ** InMemoryScheduler *)
Record InMemoryScheduler := mkScheduler {
  is_jobs : jsmap ScheduledJob; is_failures : FailureScheduler }.

#[global] Instance eta_Scheduler : Eta InMemoryScheduler := λ r,
  mkScheduler (is_jobs r) (is_failures r).

Definition nullable (n : option Z) : string :=
  match n with None => "null" | Some n => numToString n end.

Definition job_conflict (jobId expectedRevision currentRevision : string) : exn :=
  portError CONFLICT ("Scheduled job " +:+ jobId +:+ " revision conflict")
    [("jobId", jobId); ("expectedRevision", expectedRevision); ("currentRevision", currentRevision)].

Section scheduler.
Context (localeCompare : string → string → Z).
Abbreviation Sch := (M exn InMemoryScheduler) (only parsing).

Definition sched_checkpoint (point : string) : Sch unit :=
  zoom is_failures (λ f w, w <| is_failures := f |>) (checkpoint point).

Definition sched_read (jobId : string) : Sch (option ScheduledJob) :=
  jobs ← gets is_jobs;
  mret (frozenCopy <$> map_get jobId jobs).

Definition sched_upsert (job : ScheduledJob) (expectedRevision : option Z) : Sch ScheduledJob :=
  sched_checkpoint "scheduler.upsert" ;;
  jobs ← gets is_jobs;
  let current := map_get (sj_id job) jobs in
  let currentRevision := sj_revision <$> current in
  throwM_if (currentRevision !== expectedRevision)
    (job_conflict (sj_id job) (nullable expectedRevision) (nullable currentRevision)) ;;
  let stored := frozenCopy (job <| sj_revision := default 0 currentRevision + 1 |>) in
  modify (λ w, w <| is_jobs := map_set (sj_id job) stored (is_jobs w) |>) ;;
  mret (frozenCopy stored).

Definition compareJobs (left right : ScheduledJob) : Z :=
  let byTime := localeCompare (sj_nextRunAt left) (sj_nextRunAt right) in
  if byTime =? 0 then localeCompare (sj_id left) (sj_id right) else byTime.

(** [l.slice(0, limit)]: a negative limit counts from the end. *)
Definition slice0 {A} (limit : Z) (l : list A) : list A :=
  take (Z.to_nat (if limit <? 0 then Z.of_nat (List.length l) + limit else limit)) l.

Definition sched_listDue (at_ : string) (limit : Z) : Sch (list ScheduledJob) :=
  jobs ← gets is_jobs;
  mret (frozenCopy <$>
    slice0 limit
      (sort_by compareJobs
        (List.filter (λ job, (sj_status job === scheduled_active) && str_le (sj_nextRunAt job) at_)
           (map_values jobs)))).

Definition sched_cancel (jobId : string) (expectedRevision : Z) : Sch ScheduledJob :=
  sched_checkpoint "scheduler.cancel" ;;
  jobs ← gets is_jobs;
  match map_get jobId jobs with
  | None => throw (portError NOT_FOUND ("Job " +:+ jobId +:+ " not found") [("jobId", jobId)])
  | Some current =>
      throwM_if (sj_revision current !== expectedRevision)
        (job_conflict jobId (numToString expectedRevision) (numToString (sj_revision current))) ;;
      if sj_status current === scheduled_cancelled then mret (frozenCopy current)
      else
        let cancelled := frozenCopy
          (current <| sj_revision := sj_revision current + 1 |> <| sj_status := scheduled_cancelled |>) in
        modify (λ w, w <| is_jobs := map_set jobId cancelled (is_jobs w) |>) ;;
        mret (frozenCopy cancelled)
  end.

#[export] Instance sched_port : SchedulerPort InMemoryScheduler := {|
  scheduler_read := sched_read;
  upsert := sched_upsert;
  listDue := sched_listDue;
  scheduler_cancel := sched_cancel;
|}.
End scheduler.

(** ** InMemoryAuthorityLeasePort: the clock it was given is part of its world *)
Record InMemoryAuthorityLeasePort := mkLeasePort {
  ip_records : jsmap AuthorityLeaseRecord; ip_fencingTokens : jsmap Z;
  ip_clock : ManualClock; ip_failures : FailureScheduler }.

#[global] Instance eta_LeasePort : Eta InMemoryAuthorityLeasePort := λ r,
  mkLeasePort (ip_records r) (ip_fencingTokens r) (ip_clock r) (ip_failures r).

Abbreviation Lp := (M exn InMemoryAuthorityLeasePort) (only parsing).

Definition lp_checkpoint (point : string) : Lp unit :=
  zoom ip_failures (λ f w, w <| ip_failures := f |>) (checkpoint point).

Definition lp_now : Lp string := zoom ip_clock (λ c w, w <| ip_clock := c |>) now.

Definition assertDuration (durationMs : Z) : result exn unit :=
  throw_if (negb (isSafeInteger durationMs) || (durationMs <=? 0))
    (portError INVALID_OPERATION "Authority lease duration must be a positive integer"
       [("durationMs", numToString durationMs)]).

Definition lp_expiresAt (durationMs : Z) : Lp string :=
  now ← lp_now;
  lift (match dateParse now with None => Err invalidTime | Some t => isoOfTime (t + durationMs) end).

Definition lp_current (agentId : AgentId) : Lp (option AuthorityLeaseRecord) :=
  records ← gets ip_records;
  match map_get agentId records with
  | None => mret None
  | Some current =>
      now ← lp_now;
      if str_le (lr_expiresAt current) now then
        modify (λ w, w <| ip_records := map_delete agentId (ip_records w) |>) ;;
        mret None
      else mret (Some (frozenCopy current))
  end.

(** [claim] up to its [await], and the rest: other calls can run in between. *)
Definition lp_claim_check (lease : AgentAuthorityLease) (durationMs : Z)
    : Lp (option AuthorityLeaseRecord) :=
  lp_checkpoint "authority.claim" ;;
  lift (assertDuration durationMs) ;;
  lp_current (lease_agentId lease).

Definition lp_claim_commit (lease : AgentAuthorityLease) (durationMs : Z)
    (current : option AuthorityLeaseRecord) : Lp AuthorityLeaseRecord :=
  let agentId := lease_agentId lease in
  match current with
  | Some current =>
      if (lease_id (lr_lease current) === lease_id lease)
         && (lease_holderId (lr_lease current) === lease_holderId lease)
      then mret (frozenCopy current)
      else throw (portError CONFLICT ("Agent " +:+ agentId +:+ " already has a live authority lease")
                    [("agentId", agentId); ("currentLeaseId", lease_id (lr_lease current))])
  | None =>
      tokens ← gets ip_fencingTokens;
      let fencingToken := default 0 (map_get agentId tokens) + 1 in
      modify (λ w, w <| ip_fencingTokens := map_set agentId fencingToken (ip_fencingTokens w) |>) ;;
      acquiredAt ← lp_now;
      expiresAt ← lp_expiresAt durationMs;
      let record := frozenCopy (mkLeaseRecord lease fencingToken acquiredAt expiresAt) in
      modify (λ w, w <| ip_records := map_set agentId record (ip_records w) |>) ;;
      mret (frozenCopy record)
  end.

Definition lp_claim (lease : AgentAuthorityLease) (durationMs : Z) : Lp AuthorityLeaseRecord :=
  current ← lp_claim_check lease durationMs;
  lp_claim_commit lease durationMs current.

(** [[...records.entries()].find(([, record]) => record.lease.id === leaseId)] *)
Definition find_lease (leaseId : AuthorityLeaseId) (records : jsmap AuthorityLeaseRecord)
    : option (string * AuthorityLeaseRecord) :=
  List.find (λ e, lease_id (lr_lease e.2) === leaseId) records.

Definition lease_not_found (leaseId suffix : string) : exn :=
  portError NOT_FOUND ("Authority lease " +:+ leaseId +:+ suffix) [("leaseId", leaseId)].

(** [renew] up to its [await], and the rest. *)
Definition lp_renew_check (leaseId : AuthorityLeaseId) (durationMs : Z)
    : Lp (string * option AuthorityLeaseRecord) :=
  lp_checkpoint "authority.renew" ;;
  lift (assertDuration durationMs) ;;
  records ← gets ip_records;
  match find_lease leaseId records with
  | None => throw (lease_not_found leaseId " not found")
  | Some (agentId, _) =>
      current ← lp_current agentId;
      mret (agentId, current)
  end.

Definition lp_renew_commit (leaseId : AuthorityLeaseId) (durationMs : Z) (agentId : string)
    (current : option AuthorityLeaseRecord) : Lp AuthorityLeaseRecord :=
  match current with
  | None => throw (lease_not_found leaseId " is not live")
  | Some current =>
      throwM_if (lease_id (lr_lease current) !== leaseId) (lease_not_found leaseId " is not live") ;;
      expiresAt ← lp_expiresAt durationMs;
      let renewed := frozenCopy (current <| lr_expiresAt := expiresAt |>) in
      modify (λ w, w <| ip_records := map_set agentId renewed (ip_records w) |>) ;;
      mret (frozenCopy renewed)
  end.

Definition lp_renew (leaseId : AuthorityLeaseId) (durationMs : Z) : Lp AuthorityLeaseRecord :=
  found ← lp_renew_check leaseId durationMs;
  lp_renew_commit leaseId durationMs found.1 found.2.

Definition lp_release (leaseId : AuthorityLeaseId) : Lp unit :=
  lp_checkpoint "authority.release" ;;
  records ← gets ip_records;
  match find_lease leaseId records with
  | None => throw (lease_not_found leaseId " not found")
  | Some (agentId, _) =>
      modify (λ w, w <| ip_records := map_delete agentId (ip_records w) |>)
  end.

#[export] Instance lease_port : AuthorityLeasePort InMemoryAuthorityLeasePort := {|
  lease_claim := lp_claim;
  lease_current := lp_current;
  lease_renew := lp_renew;
  lease_release := lp_release;
|}.

(** ** The contract of [SchedulerPort]: jobs by identifier, moved by
    compare-and-set on their revision *)
Abbreviation jobs_state := (gmap string ScheduledJob).

Definition upsert_effect (job : ScheduledJob) (expectedRevision : option Z) (result : ScheduledJob)
    (s s' : jobs_state) : Prop :=
  sj_revision <$> s !! sj_id job = expectedRevision ∧
  result = job <| sj_revision := default 0 expectedRevision + 1 |> ∧
  s' = <[sj_id job := result]> s.

Definition cancel_effect (jobId : string) (expectedRevision : Z) (result : ScheduledJob)
    (s s' : jobs_state) : Prop :=
  ∃ current, s !! jobId = Some current ∧ sj_revision current = expectedRevision ∧
    (if sj_status current === scheduled_cancelled then result = current ∧ s' = s
     else result = current <| sj_revision := sj_revision current + 1 |>
                     <| sj_status := scheduled_cancelled |> ∧
          s' = <[jobId := result]> s).

Inductive sched_step (s s' : jobs_state) : Prop :=
  | sched_upserted job e result : upsert_effect job e result s s' → sched_step s s'
  | sched_cancelled id e result : cancel_effect id e result s s' → sched_step s s'.

Definition jobs_wf (s : jobs_state) : Prop := ∀ k j, s !! k = Some j → sj_id j = k.

Definition due (at_ : string) (job : ScheduledJob) : Prop :=
  sj_status job = scheduled_active ∧ str_le (sj_nextRunAt job) at_ = true.

Record due_list (at_ : string) (limit : Z) (l : list ScheduledJob) (s : jobs_state) : Prop :=
  mk_due_list {
    dl_due : ∀ j, j ∈ l → s !! sj_id j = Some j ∧ due at_ j;
    dl_once : NoDup (sj_id <$> l);
    dl_limit : (List.length l ≤ Z.to_nat limit)%nat;
    dl_all : (List.length l < Z.to_nat limit)%nat → ∀ j, s !! sj_id j = Some j → due at_ j → j ∈ l;
  }.

Class SchedulerLaws (W : Type) `{!SchedulerPort W} (view : W → jobs_state) (inv : W → Prop) : Prop := {
  law_jobs_wf : ∀ w, inv w → jobs_wf (view w);
  law_read : ∀ id, gen_op_law sched_step view inv (gen_reads (λ o s, o = s !! id)) (scheduler_read id);
  law_upsert : ∀ job e, gen_op_law sched_step view inv (upsert_effect job e) (upsert job e);
  law_listDue : ∀ at_ limit, 0 ≤ limit →
    gen_op_law sched_step view inv (gen_reads (due_list at_ limit)) (listDue at_ limit);
  law_upsert_conflict : ∀ job e w x w', inv w → upsert job e w = (Err x, w') → is_conflict x = true →
    sj_revision <$> view w' !! sj_id job ≠ e;
  law_cancel : ∀ id e, gen_op_law sched_step view inv (cancel_effect id e) (scheduler_cancel id e);
}.

(** A job never disappears, and its revision counts its changes. *)
Definition job_evolves (j j' : ScheduledJob) : Prop :=
  sj_id j' = sj_id j ∧ sj_revision j ≤ sj_revision j' ∧ (sj_revision j' = sj_revision j → j' = j).

Lemma job_step s s' k j :
  jobs_wf s → sched_step s s' → s !! k = Some j → ∃ j', s' !! k = Some j' ∧ job_evolves j j'.
Proof.
  intros Hwf [job e result (He & -> & ->)|id e result (c & Hc & He & H)] Hk.
  - destruct (decide (sj_id job = k)) as [Hid|Hne].
    + subst k. rewrite lookup_insert_eq. eexists. split; [done|]. rewrite Hk in He. cbn in He.
      subst e. unfold job_evolves. cbn. rewrite (Hwf _ _ Hk). repeat split; [lia|]. intros. lia.
    + rewrite lookup_insert_ne by done. exists j. split; [done|]. by split.
  - case_bool_decide; destruct H as [-> ->]; [exists j; split; [done|]; by split|].
    destruct (decide (id = k)) as [Hid|Hne].
    + subst id. rewrite lookup_insert_eq. eexists. split; [done|]. simplify_eq.
      unfold job_evolves. cbn. repeat split; [lia|]. intros. lia.
    + rewrite lookup_insert_ne by done. exists j. split; [done|]. by split.
Qed.

Lemma job_step_wf s s' : sched_step s s' → jobs_wf s → jobs_wf s'.
Proof.
  intros [job e result (He & -> & ->)|id e result (c & Hc & He & H)] Hwf k j.
  - intros [[<- <-]|[_ Hk]]%lookup_insert_Some; [done|by apply Hwf].
  - case_bool_decide; destruct H as [-> ->]; [by apply Hwf|].
    intros [[<- <-]|[_ Hk]]%lookup_insert_Some; [cbn|]; by apply Hwf.
Qed.

Lemma jobs_steps_wf s s' : rtc sched_step s s' → jobs_wf s → jobs_wf s'.
Proof. induction 1; eauto using job_step_wf. Qed.

Lemma job_steps s s' k j :
  jobs_wf s → rtc sched_step s s' → s !! k = Some j → ∃ j', s' !! k = Some j' ∧ job_evolves j j'.
Proof.
  intros Hwf H. revert Hwf j. induction H as [|s s1 s2 Hs _ IH]; intros Hwf j Hk.
  { exists j. split; [done|]. by split. }
  destruct (job_step _ _ _ _ Hwf Hs Hk) as (j1 & Hk1 & Hid1 & Hr1 & Hs1).
  destruct (IH (job_step_wf _ _ Hs Hwf) _ Hk1) as (j2 & Hk2 & Hid2 & Hr2 & Hs2).
  exists j2. split; [done|]. split; [congruence|]. split; [lia|]. intros Hr.
  assert (sj_revision j1 = sj_revision j) by lia. rewrite Hs2 by lia. auto.
Qed.
