(* ===== verification/Scheduler.v ===== *)
(** packages/application/src/services/scheduler-service.ts: [SchedulerService],
    which dispatches the due jobs of an Agent under its authority lease. *)
From S2P Require Import Prelude Js JsDate Identifiers Contract Entities.
From S2P Require Import AuthTypes AuthStore Deterministic InMemoryAuth Permission.
From S2P Require Import Coordination.
Local Open Scope Z_scope.

Record SchedulerAuthorityFence := mkFence { sf_leaseId : AuthorityLeaseId; sf_fencingToken : Z }.

Record DispatchDueInput := mkDispatch { dd_authority : SchedulerAuthorityFence; dd_limit : Z }.

Inductive DispatchOutcome := dispatched | duplicate | disabled.

#[global] Instance DispatchOutcome_eq_dec : EqDecision DispatchOutcome.
Proof. solve_decision. Defined.

Record SchedulerDispatchRecord := mkRecord {
  sr_jobId : string; sr_outcome : DispatchOutcome; sr_reasonCode : string;
  sr_triggerResultRef : option string; sr_nextRunAt : option string }.

Record DispatchDueResult := mkResult {
  dr_checkedAt : string; dr_records : list SchedulerDispatchRecord }.

Definition assertScheduleShape (job : ScheduledJob) : result exn unit :=
  let numericValues :=
    [sj_intervalMs job; sj_minimumIntervalMs job; sj_occurrence job; sj_estimatedCostMicros job] in
  throw_if
    (negb (forallb (λ value, isSafeInteger value && (0 <=? value)) numericValues)
     || (sj_intervalMs job <=? 0)
     || negb (isCanonicalTimestamp (sj_nextRunAt job))
     || negb (isCanonicalTimestamp (sj_expiresAt job))
     || match sj_revokedAt job with Some r => negb (isCanonicalTimestamp r) | None => false end
     || (64 <? String.length (sj_id job))%nat
     || (String.length (sj_authorizationRef job) =? 0)%nat
     || (String.length (sj_taskScopeRef job) =? 0)%nat)
    (portError INVALID_OPERATION ("Scheduled job " +:+ sj_id job +:+ " has an invalid schedule")
       [("jobId", sj_id job)]).

(** [new Date(a).valueOf() <= new Date(b).valueOf()]; an invalid date is [NaN]. *)
Definition date_le (a b : string) : bool :=
  match dateParse a, dateParse b with Some t, Some u => t <=? u | _, _ => false end.

Definition grantAllowsJob (grant : GrantRecord) (job : ScheduledJob) : bool :=
  let scope := grant_scope grant in
  let intervalAllowed :=
    (1 <=? freq_count (sc_maxFrequency scope))
    && match freq_intervalMs (sc_maxFrequency scope) with
       | Some interval => interval <=? sj_intervalMs job
       | None => false
       end in
  let resourceAllowed :=
    (sc_exactResourceRef scope === Some (sj_resourceRef job))
    || existsb (λ prefix, startsWith (sj_resourceRef job) prefix) (sc_resourcePrefixes scope) in
  (grant_kind grant === long_term)
  && (grant_ownerId grant === sj_ownerId job)
  && (grant_agentId grant === sj_agentId job)
  && (sc_capabilityRef scope === sj_capabilityRef job)
  && includes (sj_operation job) (sc_operations scope)
  && resourceAllowed
  && (CLASSIFICATION_RANK (sj_dataClassification job)
        <=? CLASSIFICATION_RANK (sc_maxDataClassification scope))
  && includes (sj_sideEffect job) (sc_sideEffects scope)
  && (sj_estimatedCostMicros job <=? sc_maxCostMicrosPerUse scope)
  && intervalAllowed
  && date_le (sj_expiresAt job) (grant_expiresAt grant)
  && (grant_uses grant <? grant_maxUses grant)
  && (grant_spentCostMicros grant + sj_estimatedCostMicros job <=? grant_maxTotalCostMicros grant).

Definition disabledReason (job : ScheduledJob) (grant : option GrantRecord) (now : string)
    : option string :=
  if sj_revokedAt job !== None then Some "SCHEDULE_AUTHORIZATION_REVOKED"
  else if str_le (sj_expiresAt job) now then Some "SCHEDULE_AUTHORIZATION_EXPIRED"
  else if sj_intervalMs job <? sj_minimumIntervalMs job then Some "SCHEDULE_FREQUENCY_EXCEEDS_SCOPE"
  else
    match grant with
    | None => Some "SCHEDULE_AUTHORIZATION_NOT_FOUND"
    | Some grant =>
        if grant_revokedAt grant !== None then Some "SCHEDULE_AUTHORIZATION_REVOKED"
        else if str_lt now (grant_validFrom grant) || str_le (grant_expiresAt grant) now
        then Some "SCHEDULE_AUTHORIZATION_EXPIRED"
        else if negb (grantAllowsJob grant job) then Some "SCHEDULE_TASK_OUTSIDE_GRANT_SCOPE"
        else None
    end.

(** The number of intervals to skip, from the time stamps in milliseconds. *)
Definition intervalsElapsed (scheduledAt nowMs interval : Z) : Z :=
  Z.max 1 ((nowMs - scheduledAt) / interval + 1).

(** The next occurrence number and run time; an invalid or out-of-range date
    makes [toISOString] throw. *)
Definition nextOccurrence (job : ScheduledJob) (now : string) : result exn (Z * string) :=
  match dateParse (sj_nextRunAt job), dateParse now with
  | Some scheduledAt, Some nowMs =>
      let n := intervalsElapsed scheduledAt nowMs (sj_intervalMs job) in
      nextRunAt ← isoOfTime (scheduledAt + n * sj_intervalMs job);
      Ok (sj_occurrence job + n, nextRunAt)
  | _, _ => Err invalidTime
  end.

Definition stableOccurrenceRef (job : ScheduledJob) : string :=
  sj_id job +:+ ":" +:+ numToString (sj_occurrence job).

(** The trigger that announces one occurrence of a job. *)
Definition occurrenceTrigger (job : ScheduledJob) : UnifiedTriggerInput :=
  let occurrenceRef := stableOccurrenceRef job in
  mkTriggerInput ("schedule-message:" +:+ occurrenceRef) ("schedule-correlation:" +:+ occurrenceRef)
    (Some ("schedule-job:" +:+ sj_id job)) ("schedule-command:" +:+ occurrenceRef) (sj_ownerId job)
    (sj_agentId job) actor_scheduler ("scheduler:" +:+ sj_id job) (sj_dataClassification job)
    ("schedule-trigger:" +:+ occurrenceRef) source_schedule (sj_id job) (sj_nextRunAt job)
    (sj_threadId job) (sj_payloadRef job) (sj_sourceProofRef job).

Section service.
Context {W : Type} `{!SchedulerPort W, !UnifiedTriggerPort W, !AuthorityLeasePort W,
  !AuthorizationStorePort W, !ClockPort W}.

Definition not_authoritative (agentId : AgentId) : exn :=
  portError NOT_AUTHORITATIVE ("Scheduler does not hold current authority for Agent " +:+ agentId)
    [("agentId", agentId)].

Definition holds_fence (expected : SchedulerAuthorityFence) (current : option AuthorityLeaseRecord)
    : bool :=
  match current with
  | None => false
  | Some current =>
      (lease_id (lr_lease current) === sf_leaseId expected)
      && (lr_fencingToken current === sf_fencingToken expected)
  end.

Definition assertAuthority (agentId : AgentId) (expected : SchedulerAuthorityFence) : M exn W unit :=
  current ← lease_current agentId;
  throwM_if (negb (holds_fence expected current)) (not_authoritative agentId).

Definition disable (job : ScheduledJob) : M exn W unit :=
  try_catch (upsert (job <| sj_status := scheduled_cancelled |>) (Some (sj_revision job)) ;; mret tt)
    (λ error, if is_conflict error then mret tt else throw error).

(** [try { await upsert(...); ... } catch (error) { ... }] *)
Definition advance_job (job : ScheduledJob) (admission : TriggerAdmissionResult) (next : Z * string)
    : M exn W SchedulerDispatchRecord :=
  try_catch
    (upsert (job <| sj_occurrence := next.1 |> <| sj_nextRunAt := next.2 |>) (Some (sj_revision job)) ;;
     mret (mkRecord (sj_id job) (if ta_replayed admission then duplicate else dispatched)
       (if ta_replayed admission then "TRIGGER_ALREADY_ADMITTED" else "TRIGGER_ADMITTED")
       (Some (ta_resultRef admission)) (Some next.2)))
    (λ error,
      if is_conflict error then
        current ← scheduler_read (sj_id job);
        mret (mkRecord (sj_id job) duplicate "SCHEDULE_ALREADY_ADVANCED"
          (Some (ta_resultRef admission)) (sj_nextRunAt <$> current))
      else throw error).

(** One turn of the loop of [dispatchDue]. *)
Definition dispatch_job (authority : SchedulerAuthorityFence) (now : string) (job : ScheduledJob)
    : M exn W SchedulerDispatchRecord :=
  lift (assertScheduleShape job) ;;
  assertAuthority (sj_agentId job) authority ;;
  grants ← listGrants (sj_ownerId job) (sj_agentId job);
  let grant := List.find (λ g, grant_id g === sj_authorizationRef job) grants in
  match disabledReason job grant now with
  | Some reasonCode =>
      disable job ;;
      mret (mkRecord (sj_id job) disabled reasonCode None None)
  | None =>
      admission ← ingest (occurrenceTrigger job);
      next ← lift (nextOccurrence job now);
      advance_job job admission next
  end.

Fixpoint dispatch_jobs (authority : SchedulerAuthorityFence) (now : string) (jobs : list ScheduledJob)
    : M exn W (list SchedulerDispatchRecord) :=
  match jobs with
  | [] => mret []
  | job :: jobs =>
      record ← dispatch_job authority now job;
      records ← dispatch_jobs authority now jobs;
      mret (record :: records)
  end.

Definition dispatchDue (input : DispatchDueInput) : M exn W DispatchDueResult :=
  throwM_if (negb (isSafeInteger (dd_limit input)) || (dd_limit input <=? 0))
    (portError INVALID_OPERATION "Scheduler dispatch limit must be a positive integer" []) ;;
  now ← clock_now;
  jobs ← listDue now (dd_limit input);
  records ← dispatch_jobs (dd_authority input) now jobs;
  mret (mkResult now records).
End service.
