(* ===== verification/CoordinationStore.v ===== *)
(** The in-memory scheduler of packages/testing/src/in-memory/coordination.ts
    keeps the contract of [SchedulerPort], and what the contract gives. *)
From S2P Require Import Prelude Js Identifiers Contract AuthTypes Deterministic InMemoryAuth.
From S2P Require Import Coordination JsDate Entities.
Local Open Scope Z_scope.

Definition new_scheduler (failures : FailureScheduler) : InMemoryScheduler := mkScheduler [] failures.

Definition sched_view (w : InMemoryScheduler) : jobs_state := map_view (is_jobs w).

Definition sched_inv (w : InMemoryScheduler) : Prop := NoDup (is_jobs w).*1 ∧ jobs_wf (sched_view w).

Section laws.
Context (localeCompare : string → string → Z).

(** A mutation: a checkpoint, then a body with an atomic effect. *)
Lemma sched_law {A} (effect : A → jobs_state → jobs_state → Prop) (body : M exn InMemoryScheduler A) point :
  (∀ a s s', effect a s s' → sched_step s s') →
  (∀ w r w', sched_inv w → body w = (r, w') →
     match r with
     | Ok a => effect a (sched_view w) (sched_view w') ∧ NoDup (is_jobs w').*1
     | Err _ => w' = w
     end) →
  gen_op_law sched_step sched_view sched_inv effect (sched_checkpoint point ;; body).
Proof.
  intros Heff Hbody. apply checkpoint_law; [done|].
  intros w r w' Hinv H. specialize (Hbody w r w' Hinv H). destruct r as [a|x]; [|done].
  destruct Hbody as [He Hn]. split; [|done]. split; [done|].
  eapply job_step_wf; [by eapply Heff|apply Hinv].
Qed.

Lemma sched_read_law id :
  gen_op_law sched_step sched_view sched_inv (gen_reads (λ o s, o = s !! id)) (sched_read id).
Proof.
  intros w r w' Hi H. mem_unfold H. injection H as <- <-. split; [done|].
  exists (sched_view w). split; [done|]. split; [|done]. unfold sched_view.
  rewrite map_view_lookup. by destruct (map_get _ _).
Qed.

Lemma sched_upsert_law job e :
  gen_op_law sched_step sched_view sched_inv (upsert_effect job e) (sched_upsert job e).
Proof.
  apply sched_law; [intros a s s' He; by eapply sched_upserted|].
  intros w r w' [Hn Hwf] H. mem_unfold H. mem_guard H. injection H as <- <-.
  apply negb_false_iff, bool_decide_eq_true in E. subst e. cbn.
  unfold upsert_effect, sched_view. cbn. rewrite map_view_lookup, map_view_set.
  split; [done|by apply map_set_nodup].
Qed.

Lemma sched_upsert_conflict job e w x w' :
  sched_upsert job e w = (Err x, w') → is_conflict x = true →
  sj_revision <$> sched_view w' !! sj_id job ≠ e.
Proof.
  intros H Hx. unfold sched_upsert, sched_checkpoint in H.
  destruct (checkpoint_cases "scheduler.upsert" (is_failures w)) as (r & f & Hc & Hr).
  unfold mbind, M_bind, zoom in H. rewrite Hc in H. destruct Hr as [->|(m & d & ->)].
  - cbn in H. unfold throwM_if, throw_if, lift in H. destruct (_ !== _) eqn:E; [|done].
    injection H as _ <-. apply negb_true_iff, bool_decide_eq_false in E.
    unfold sched_view. cbn. by rewrite map_view_lookup.
  - injection H as <- <-. done.
Qed.

Lemma sched_cancel_law id e :
  gen_op_law sched_step sched_view sched_inv (cancel_effect id e) (sched_cancel id e).
Proof.
  apply sched_law; [intros a s s' He; by eapply sched_cancelled|].
  intros w r w' [Hn Hwf] H. mem_unfold H.
  destruct (map_get _ _) as [c|] eqn:Hc; [|by injection H as <- <-].
  mem_guard H. apply negb_false_iff, bool_decide_eq_true in E.
  rewrite <-map_view_lookup in Hc.
  destruct (sj_status c === scheduled_cancelled) eqn:Hs; injection H as <- <-.
  - split; [|done]. exists c. by rewrite Hs.
  - split; [|by apply map_set_nodup]. exists c. rewrite Hs. unfold sched_view. cbn.
    by rewrite map_view_set.
Qed.

Lemma slice0_nonneg {A} limit (l : list A) : 0 ≤ limit → slice0 limit l = take (Z.to_nat limit) l.
Proof. intros H. unfold slice0. destruct (Z.ltb_spec limit 0); [lia|done]. Qed.

(** The values of a map keyed by an identifier have distinct identifiers. *)
Lemma map_values_keys {V} (key : V → string) (m : jsmap V) :
  NoDup m.*1 → (∀ k x, map_view m !! k = Some x → key x = k) → NoDup (key <$> map_values m).
Proof.
  intros Hn Hk. assert (key <$> map_values m = m.*1) as ->; [|done].
  unfold map_values. rewrite <-list_fmap_compose. apply list_fmap_ext. intros i [k x] Hi. cbn.
  apply Hk. rewrite map_view_lookup. apply map_get_nodup; [done|]. by eapply list_elem_of_lookup_2.
Qed.

Lemma sched_listDue_law at_ limit : 0 ≤ limit →
  gen_op_law sched_step sched_view sched_inv (gen_reads (due_list at_ limit))
    (sched_listDue localeCompare at_ limit).
Proof.
  intros Hl w r w' [Hn Hwf] H. mem_unfold H. injection H as <- <-. split; [done|].
  exists (sched_view w). split; [done|]. split; [|done].
  rewrite list_fmap_id, slice0_nonneg by done.
  set (f := List.filter _ _).
  assert (Hf : ∀ j, j ∈ f ↔ sched_view w !! sj_id j = Some j ∧ due at_ j).
  { intros j. subst f. rewrite filter_elem, andb_true_iff, bool_decide_eq_true.
    by rewrite (map_values_view sj_id) by done. }
  assert (Hfn : NoDup (sj_id <$> f)).
  { subst f. apply (sublist_NoDup _ (sj_id <$> map_values (is_jobs w))).
    - by apply (map_values_keys sj_id).
    - apply fmap_sublist, filter_bool_sublist. }
  assert (Hp : sort_by (compareJobs localeCompare) f ≡ₚ f) by apply sort_by_perm.
  split.
  - intros j Hj%elem_of_take. destruct Hj as (i & Hi & _). apply Hf. rewrite <-Hp.
    by eapply list_elem_of_lookup_2.
  - rewrite fmap_take. apply (sublist_NoDup _ (sj_id <$> sort_by (compareJobs localeCompare) f)).
    + by rewrite Hp.
    + apply sublist_take.
  - rewrite length_take. lia.
  - rewrite length_take. intros Hlt j Hj Hd. rewrite take_ge by lia. rewrite Hp. by apply Hf.
Qed.

#[export] Instance sched_laws :
  @SchedulerLaws InMemoryScheduler (sched_port localeCompare) sched_view sched_inv.
Proof.
  constructor; cbn.
  - by intros w [].
  - apply sched_read_law.
  - apply sched_upsert_law.
  - apply sched_listDue_law.
  - intros job e w x w' _. apply sched_upsert_conflict.
  - apply sched_cancel_law.
Qed.
End laws.

Lemma sched_inv_new failures : sched_inv (new_scheduler failures).
Proof. split; [constructor|]. intros k j Hk. unfold sched_view in Hk. by rewrite map_view_lookup in Hk. Qed.

(** The in-memory scheduler refines the contract: from the empty object on,
    a write either fails and changes no job or compares and sets one job
    atomically, and [listDue] returns due active jobs, each stored, none
    twice, at most [limit] of them, and all of them when they are fewer. *)
Theorem in_memory_scheduler_refines localeCompare failures :
  sched_inv (new_scheduler failures) ∧ sched_view (new_scheduler failures) = ∅ ∧
  (∀ job e, gen_op_law sched_step sched_view sched_inv (upsert_effect job e) (sched_upsert job e)) ∧
  (∀ id e, gen_op_law sched_step sched_view sched_inv (cancel_effect id e) (sched_cancel id e)) ∧
  (∀ id, gen_op_law sched_step sched_view sched_inv (gen_reads (λ o s, o = s !! id)) (sched_read id)) ∧
  (∀ at_ limit, 0 ≤ limit → gen_op_law sched_step sched_view sched_inv
     (gen_reads (due_list at_ limit)) (sched_listDue localeCompare at_ limit)).
Proof.
  split; [apply sched_inv_new|]. split; [done|].
  split; [apply sched_upsert_law|]. split; [apply sched_cancel_law|].
  split; [apply sched_read_law|apply sched_listDue_law].
Qed.

(** Compare-and-set on jobs: of two writes to one job that expect the same
    revision (or the same absence), whatever other clients do in between, at
    most one succeeds; the job stays stored under its identifier with a
    revision above the expected one. *)
Theorem job_write_once `{!SchedulerPort W} view inv `{!SchedulerLaws W view inv}
    job job' e j1 w w1 w2 :
  inv w → upsert job e w = (Ok j1, w1) → inv w2 → rtc sched_step (view w1) (view w2) →
  sj_id job' = sj_id job →
  (∃ x w3, upsert job' e w2 = (Err x, w3)) ∧
  ∃ j2, view w2 !! sj_id job = Some j2 ∧ sj_id j2 = sj_id job ∧
    (∀ n, e = Some n → n < sj_revision j2).
Proof.
  intros Hi Hu Hi2 Hs Hid.
  destruct (op_law_Ok _ _ _ _ _ _ _ _ (law_upsert _ _) Hi Hu) as (Hi1 & s & _ & He & -> & Hv).
  assert (Hk : view w1 !! sj_id job = Some (job <| sj_revision := default 0 e + 1 |>))
    by (rewrite Hv; apply lookup_insert_eq).
  assert (Hgrow : ∀ s', rtc sched_step (view w1) s' →
    ∃ j2, s' !! sj_id job = Some j2 ∧ sj_id j2 = sj_id job ∧ ∀ n, e = Some n → n < sj_revision j2).
  { intros s' Hs'. destruct (job_steps _ _ _ _ (law_jobs_wf _ Hi1) Hs' Hk) as (j2 & Hk2 & Hj2 & Hr & _).
    exists j2. split; [done|]. split; [done|]. intros n ->. cbn in Hr. lia. }
  split; [|by apply Hgrow].
  destruct (upsert job' e w2) as [[j3|x] w3] eqn:Hu3; [exfalso|by eauto].
  destruct (op_law_Ok _ _ _ _ _ _ _ _ (law_upsert _ _) Hi2 Hu3) as (_ & s3 & Hs3 & He3 & _ & _).
  destruct (Hgrow s3) as (j2 & Hk2 & _ & Hr); [by etrans|].
  rewrite Hid, Hk2 in He3. specialize (Hr _ (eq_sym He3)). lia.
Qed.

(** The life of a job under any interleaving of writes by any clients: it
    never disappears and keeps its identifier, its revision never decreases,
    and a job read twice at the same revision is the same job. *)
Theorem job_lifetime s s' k j :
  jobs_wf s → rtc sched_step s s' → s !! k = Some j →
  ∃ j', s' !! k = Some j' ∧ sj_id j' = k ∧ sj_revision j ≤ sj_revision j' ∧
    (sj_revision j' = sj_revision j → j' = j).
Proof.
  intros Hwf Hs Hk. destruct (job_steps _ _ _ _ Hwf Hs Hk) as (j' & Hk' & Hid & Hr & Hsame).
  exists j'. split; [done|]. split; [|done]. rewrite Hid. by apply Hwf.
Qed.

(** ** Concrete inputs *)
Definition sample_job : ScheduledJob :=
  mkJob "job-1" 1 "owner" "agent" None "payload-1" "proof-1" public "grant-1" "task-1"
    "cap:files" "read" "workspace:notes/a.md" effect_none 5 3600000 3600000
    "2026-01-20T00:00:00.000Z" None "2026-01-01T10:30:00.000Z" 7 scheduled_active.

Definition sample_scheduler : InMemoryScheduler := mkScheduler [("job-1", sample_job)] NO_FAILURES.

Lemma sample_scheduler_inv : sched_inv sample_scheduler.
Proof.
  split; [apply NoDup_singleton|]. intros k j Hk. unfold sched_view in Hk.
  rewrite map_view_lookup in Hk. cbn in Hk. destruct (String.eqb_spec k "job-1") as [->|]; [|done].
  by injection Hk as <-.
Qed.

#[local] Instance sample_port : SchedulerPort InMemoryScheduler := sched_port byCodeUnit.

Lemma job_write_once_witness :
  let w1 := (sched_upsert sample_job (Some 1) sample_scheduler).2 in
  ∃ x w3, sched_upsert (sample_job <| sj_occurrence := 9 |>) (Some 1) w1 = (Err x, w3).
Proof.
  intros w1.
  assert (sched_upsert sample_job (Some 1) sample_scheduler =
    (Ok (sample_job <| sj_revision := 2 |>), w1)) as H by reflexivity.
  pose proof (sched_upsert_law sample_job (Some 1) _ _ _ sample_scheduler_inv H) as [Hi _].
  refine (proj1 (job_write_once (SchedulerPort0 := sample_port) sched_view sched_inv sample_job
    (sample_job <| sj_occurrence := 9 |>) (Some 1) _ _ _ w1 sample_scheduler_inv H Hi
    (rtc_refl _ _) _)).
  reflexivity.
Defined.

Lemma job_lifetime_witness :
  ∃ j', sched_view (sched_cancel "job-1" 1 sample_scheduler).2 !! "job-1" = Some j' ∧ 1 ≤ sj_revision j'.
Proof.
  set (w1 := (sched_cancel "job-1" 1 sample_scheduler).2).
  assert (rtc sched_step (sched_view sample_scheduler) (sched_view w1)) as Hs.
  { eapply (op_law_frame sched_step sched_view sched_inv _ _
      (λ a s s' He, rtc_once _ _ (sched_cancelled _ _ "job-1" 1 a He))
      (sched_cancel_law "job-1" 1) sample_scheduler _ _ sample_scheduler_inv (surjective_pairing _)). }
  destruct (job_lifetime _ _ "job-1" sample_job (proj2 sample_scheduler_inv) Hs eq_refl)
    as (j' & Hj & _ & Hr & _).
  exists j'. split; [exact Hj|exact Hr].
Defined.

(** ** The in-memory authority leases of packages/testing/src/in-memory/
    coordination.ts: what one call does, fencing under interleaving, and the
    window between the check and the write of [claim]. *)

Definition new_lease_port (clock : ManualClock) (failures : FailureScheduler)
    : InMemoryAuthorityLeasePort := mkLeasePort [] [] clock failures.

(** The last fencing token handed out for an Agent. *)
Definition last_token (agentId : AgentId) (w : InMemoryAuthorityLeasePort) : Z :=
  default 0 (map_get agentId (ip_fencingTokens w)).

(** What runs without interruption: the part of a call up to its [await], the
    part after it, and the clock. *)
Inductive lease_step (w : InMemoryAuthorityLeasePort) : InMemoryAuthorityLeasePort → Prop :=
  | step_claim_check lease d : lease_step w (lp_claim_check lease d w).2
  | step_claim_commit lease d current : lease_step w (lp_claim_commit lease d current w).2
  | step_current agentId : lease_step w (lp_current agentId w).2
  | step_renew_check leaseId d : lease_step w (lp_renew_check leaseId d w).2
  | step_renew_commit leaseId d agentId current :
      lease_step w (lp_renew_commit leaseId d agentId current w).2
  | step_release leaseId : lease_step w (lp_release leaseId w).2
  | step_clock c : lease_step w (w <| ip_clock := c |>).

Ltac lp_unfold := unfold lp_checkpoint, lp_now, lp_expiresAt, zoom, now, mbind, mret, M_bind, M_ret,
  gets, modify, throwM_if, throw_if, throw, lift, frozenCopy, id in *.

(** The tokens are written by a fresh claim only. *)
Lemma lp_current_tokens agentId w : ip_fencingTokens (lp_current agentId w).2 = ip_fencingTokens w.
Proof. unfold lp_current. lp_unfold. by repeat (case_match; cbn). Qed.

Lemma lp_checkpoint_tokens point w : ip_fencingTokens (lp_checkpoint point w).2 = ip_fencingTokens w.
Proof. lp_unfold. by destruct (checkpoint _ _). Qed.

Lemma bind_tokens {A B} (m : M exn InMemoryAuthorityLeasePort A) f w t :
  (∀ w, ip_fencingTokens w = t → ip_fencingTokens (m w).2 = t) →
  (∀ a w, ip_fencingTokens w = t → ip_fencingTokens ((f a : M exn _ B) w).2 = t) →
  ip_fencingTokens w = t → ip_fencingTokens ((a ← m; f a) w).2 = t.
Proof.
  intros Hm Hf Hw. specialize (Hm w Hw). unfold mbind, M_bind. destruct (m w) as [[a|x] w1]; [|done].
  by apply Hf.
Qed.

Lemma renew_commit_tokens leaseId d agentId current w :
  ip_fencingTokens (lp_renew_commit leaseId d agentId current w).2 = ip_fencingTokens w.
Proof. unfold lp_renew_commit. lp_unfold. by repeat (case_match; cbn in *; simplify_eq). Qed.

Lemma claim_check_tokens lease d w :
  ip_fencingTokens (lp_claim_check lease d w).2 = ip_fencingTokens w.
Proof.
  unfold lp_claim_check. apply bind_tokens; [intros w' <-; apply lp_checkpoint_tokens| |done].
  intros _ w1 <-. apply bind_tokens; [done| |done]. intros _ w2 <-. apply lp_current_tokens.
Qed.

Lemma renew_check_tokens leaseId d w :
  ip_fencingTokens (lp_renew_check leaseId d w).2 = ip_fencingTokens w.
Proof.
  unfold lp_renew_check. apply bind_tokens; [intros w' <-; apply lp_checkpoint_tokens| |done].
  intros _ w1 <-. apply bind_tokens; [done| |done]. intros _ w2 <-.
  apply bind_tokens; [done| |done]. intros records w3 <-.
  destruct (find_lease _ _) as [[agentId r]|]; [|done].
  apply bind_tokens; [intros w' <-; apply lp_current_tokens|done|done].
Qed.

Lemma release_tokens leaseId w : ip_fencingTokens (lp_release leaseId w).2 = ip_fencingTokens w.
Proof.
  unfold lp_release. apply bind_tokens; [intros w' <-; apply lp_checkpoint_tokens| |done].
  intros _ w1 <-. apply bind_tokens; [done| |done]. intros records w3 <-.
  by destruct (find_lease _ _) as [[agentId r]|].
Qed.

(** A fresh claim takes the next token, and stores the record it returns. *)
Lemma claim_commit_fresh lease d w r w' :
  lp_claim_commit lease d None w = (Ok r, w') →
  ∃ t, dateParse (ip_clock w) = Some t ∧ isoOfTime (t + d) = Ok (lr_expiresAt r) ∧
    r = mkLeaseRecord lease (last_token (lease_agentId lease) w + 1) (ip_clock w) (lr_expiresAt r) ∧
    ip_records w' = map_set (lease_agentId lease) r (ip_records w) ∧
    ip_fencingTokens w' = map_set (lease_agentId lease) (lr_fencingToken r) (ip_fencingTokens w) ∧
    ip_clock w' = ip_clock w.
Proof.
  unfold lp_claim_commit. lp_unfold. cbn. destruct (dateParse (ip_clock w)) as [t|]; [|done].
  destruct (isoOfTime (t + d)) as [e|x] eqn:He; [|done]. intros H. injection H as <- <-.
  exists t. done.
Qed.

Lemma claim_commit_tokens lease d current agentId w :
  last_token agentId w ≤ last_token agentId (lp_claim_commit lease d current w).2.
Proof.
  destruct current as [c|].
  - unfold lp_claim_commit. destruct (_ && _); done.
  - unfold lp_claim_commit. lp_unfold. cbn.
    assert (last_token agentId w ≤ default 0 (map_get agentId
      (map_set (lease_agentId lease) (last_token (lease_agentId lease) w + 1) (ip_fencingTokens w)))).
    { unfold last_token. rewrite map_get_set. case_decide as Hk; [rewrite <-Hk; cbn; lia|lia]. }
    destruct (match dateParse _ with Some _ => _ | None => _ end); done.
Qed.

Lemma lease_step_tokens agentId w w' : lease_step w w' → last_token agentId w ≤ last_token agentId w'.
Proof.
  intros []; try apply claim_commit_tokens; unfold last_token;
    rewrite ?claim_check_tokens, ?lp_current_tokens, ?renew_check_tokens, ?renew_commit_tokens,
      ?release_tokens; done.
Qed.

Lemma lease_steps_tokens agentId w w' :
  rtc lease_step w w' → last_token agentId w ≤ last_token agentId w'.
Proof. induction 1 as [|w w1 w2 H _ IH]; [done|]. etrans; [by apply lease_step_tokens|done]. Qed.

(** Fencing: whatever calls run in between, and however their checks and
    writes interleave, a later fresh claim of an Agent's authority gets a
    strictly larger fencing token than an earlier one. *)
Theorem fencing_tokens_increase lease d r w w1 w2 lease' d' r' w3 :
  lp_claim_commit lease d None w = (Ok r, w1) → rtc lease_step w1 w2 →
  lp_claim_commit lease' d' None w2 = (Ok r', w3) → lease_agentId lease' = lease_agentId lease →
  lr_fencingToken r < lr_fencingToken r'.
Proof.
  intros H1 Hs H2 Ha. apply claim_commit_fresh in H1 as (_ & _ & _ & _ & _ & Ht & _).
  apply claim_commit_fresh in H2 as (_ & _ & _ & Hr' & _).
  rewrite Hr', Ha. cbn. apply (lease_steps_tokens (lease_agentId lease)) in Hs.
  unfold last_token in Hs at 1. rewrite Ht, map_get_set_eq in Hs. cbn in Hs. lia.
Qed.

(** ** One uninterrupted [claim] *)
Definition live_record (agentId : AgentId) (w : InMemoryAuthorityLeasePort) : option AuthorityLeaseRecord :=
  r ← map_get agentId (ip_records w);
  if str_le (lr_expiresAt r) (ip_clock w) then None else Some r.

Definition same_lease (a b : AgentAuthorityLease) : Prop :=
  lease_id a = lease_id b ∧ lease_holderId a = lease_holderId b.

Lemma lp_current_run agentId w : ∃ w', lp_current agentId w = (Ok (live_record agentId w), w') ∧
  ip_fencingTokens w' = ip_fencingTokens w ∧ ip_clock w' = ip_clock w.
Proof.
  unfold lp_current, live_record. lp_unfold.
  destruct (map_get _ _) as [r|]; cbn; [|by eauto].
  destruct (str_le _ _); by eauto.
Qed.

(** One uninterrupted [claim] hands out authority exclusively: while an
    Agent has a live lease, only the same lease and holder get it back, with
    its fencing token unchanged, and every other claim fails; otherwise the
    claim makes a new record for the asked lease with the next token, from the
    current time to [durationMs] later, and stores it.  A duration that is not
    a positive safe integer never succeeds. *)
Theorem claim_exclusive lease d w r w' :
  lp_claim lease d w = (r, w') →
  match r with
  | Err _ => True
  | Ok r =>
      0 < d ≤ MAX_SAFE_INTEGER ∧
      match live_record (lease_agentId lease) w with
      | Some c => r = c ∧ same_lease (lr_lease c) lease
      | None => lr_lease r = lease ∧ lr_fencingToken r = last_token (lease_agentId lease) w + 1 ∧
          lr_acquiredAt r = ip_clock w ∧ map_get (lease_agentId lease) (ip_records w') = Some r ∧
          last_token (lease_agentId lease) w' = lr_fencingToken r ∧
          ∃ t, dateParse (ip_clock w) = Some t ∧ isoOfTime (t + d) = Ok (lr_expiresAt r)
      end
  end ∧
  (∀ c, live_record (lease_agentId lease) w = Some c → ¬ same_lease (lr_lease c) lease →
     is_ok r = false).
Proof.
  unfold lp_claim, lp_claim_check. intros H.
  assert (Hcp : ∃ o w0, lp_checkpoint "authority.claim" w = (o, w0) ∧ ip_records w0 = ip_records w ∧
    ip_clock w0 = ip_clock w ∧ ip_fencingTokens w0 = ip_fencingTokens w).
  { unfold lp_checkpoint, zoom. destruct (checkpoint _ _). by eexists _, _. }
  destruct Hcp as (o & w0 & Hcp & Hr & Hc & Ht).
  assert (Hlive : live_record (lease_agentId lease) w0 = live_record (lease_agentId lease) w)
    by (unfold live_record; by rewrite Hr, Hc).
  unfold mbind, M_bind, lift in H. rewrite Hcp in H.
  destruct o as [u|x]; [|injection H as <- <-; done].
  destruct (assertDuration d) as [u'|x] eqn:Hd; [|injection H as <- <-; done].
  apply throw_if_Ok, orb_false_iff in Hd as [Hd1%negb_false_iff Hd2%Z.leb_gt].
  unfold isSafeInteger in Hd1. apply Z.leb_le in Hd1.
  destruct (lp_current_run (lease_agentId lease) w0) as (w1 & Hcur & Ht1 & Hc1).
  rewrite Hcur, Hlive in H. destruct (live_record _ w) as [c|].
  - unfold lp_claim_commit in H. destruct (_ && _) eqn:E; injection H as <- <-.
    + apply andb_true_iff in E as [E1%bool_decide_eq_true E2%bool_decide_eq_true].
      split; [|intros c' [= <-] []; done]. split; [lia|done].
    + done.
  - split; [|done]. destruct r as [r|x]; [|done]. split; [lia|].
    apply claim_commit_fresh in H as (t & Hp & He & -> & Hrec & Htok & _). cbn in *.
    split; [done|]. split; [unfold last_token; by rewrite Ht1, Ht|]. split; [congruence|].
    split; [by rewrite Hrec, map_get_set_eq|].
    split; [unfold last_token at 1; by rewrite Htok, map_get_set_eq|].
    exists t. by rewrite <-Hc, <-Hc1.
Qed.

(** ** Concrete inputs *)
Definition lease_a : AgentAuthorityLease := mkLease "lease-a" "agent" "owner" "host-a".
Definition lease_b : AgentAuthorityLease := mkLease "lease-b" "agent" "owner" "host-b".

Definition sample_leases : InMemoryAuthorityLeasePort :=
  new_lease_port "2026-01-01T12:00:00.000Z" NO_FAILURES.

(** Two claims whose checks both run before either write both succeed: the
    second holder replaces the first, which keeps a live record of its own. *)
Lemma claims_race :
  let w1 := (lp_claim_check lease_a 60000 sample_leases).2 in
  let w2 := (lp_claim_check lease_b 60000 w1).2 in
  ∃ ra rb w3 w4,
    (lp_claim_check lease_a 60000 sample_leases).1 = Ok None ∧
    (lp_claim_check lease_b 60000 w1).1 = Ok None ∧
    lp_claim_commit lease_a 60000 None w2 = (Ok ra, w3) ∧
    lp_claim_commit lease_b 60000 None w3 = (Ok rb, w4) ∧
    str_lt (ip_clock w4) (lr_expiresAt ra) = true ∧ live_record "agent" w4 = Some rb.
Proof. intros w1 w2. eexists _, _, _, _. split; [vm_compute; reflexivity|]. split; [vm_compute; reflexivity|].
  split; [vm_compute; reflexivity|]. split; [vm_compute; reflexivity|]. split; vm_compute; reflexivity. Qed.

Lemma fencing_tokens_increase_witness :
  let w1 := (lp_claim_commit lease_a 60000 None sample_leases).2 in
  ∃ r r', lp_claim_commit lease_a 60000 None sample_leases = (Ok r, w1) ∧
    (lp_claim_commit lease_b 60000 None w1).1 = Ok r' ∧ lr_fencingToken r < lr_fencingToken r'.
Proof.
  intros w1.
  destruct (lp_claim_commit lease_a 60000 None sample_leases) as [[r|x] w] eqn:E;
    [|vm_compute in E; discriminate E].
  destruct (lp_claim_commit lease_b 60000 None w) as [[r'|x] w'] eqn:E';
    [|injection E as _ <-; vm_compute in E'; discriminate E'].
  exists r, r'. split; [reflexivity|]. split; [subst w1; cbn [snd]; by rewrite E'|].
  exact (fencing_tokens_increase _ _ _ _ _ _ _ _ _ _ E (rtc_refl _ _) E' eq_refl).
Defined.

Lemma claim_exclusive_witness :
  let w1 := (lp_claim lease_a 60000 sample_leases).2 in
  is_ok (lp_claim lease_b 60000 w1).1 = false.
Proof.
  intros w1.
  destruct (claim_exclusive lease_b 60000 w1 _ _ (surjective_pairing _)) as [_ H].
  refine (H _ (eq_refl (Some _)) _).
  intros [Hid _]. discriminate Hid.
Defined.
