(* ===== verification/Dispatch.v ===== *)
(** The theorems on the scheduler service of Scheduler.v: the arithmetic of
    occurrences, the authorization decision, the identity of triggers, and the
    dispatch loop against the contracts of the job store and the grant store. *)
From S2P Require Import Prelude Js JsDate Identifiers Contract.
From S2P Require Import Entities AuthTypes AuthStore Deterministic InMemoryAuth.
From S2P Require Import Permission Coordination CoordinationStore Scheduler.
Local Open Scope Z_scope.

(** ** Occurrences *)
Lemma intervalsElapsed_spec scheduledAt nowMs interval :
  0 < interval →
  let n := intervalsElapsed scheduledAt nowMs interval in
  1 ≤ n ∧ nowMs < scheduledAt + n * interval ∧
  (n = 1 ∨ scheduledAt + (n - 1) * interval ≤ nowMs).
Proof.
  intros Hi n. subst n. unfold intervalsElapsed.
  pose proof (Z.div_mod (nowMs - scheduledAt) interval ltac:(lia)) as Hd.
  pose proof (Z.mod_pos_bound (nowMs - scheduledAt) interval Hi) as Hm.
  set (q := (nowMs - scheduledAt) / interval) in *.
  destruct (Z.max_spec 1 (q + 1)) as [[Hlt ->]|[Hge ->]].
  - split; [lia|]. split; [nia|]. right. nia.
  - split; [lia|]. split; [|by left]. assert (q ≤ 0) by lia. nia.
Qed.

Lemma isoOfTime_Ok t s : isoOfTime t = Ok s ↔ s = toISOString t ∧ Z.abs t ≤ MAX_TIME.
Proof. unfold isoOfTime. destruct (Z.ltb_spec MAX_TIME (Z.abs t)); split; intros; inv_ok; naive_solver lia. Qed.

(** A job advances to the first of its future run times: for a schedule
    and a time in canonical form, [nextOccurrence] skips a whole number [n] of
    intervals, at least one, and adds [n] to the occurrence number; the new
    time is after [now], and no smaller positive number of intervals gives one
    that is (string order agrees, since both are canonical).  It throws only
    when the new time is outside the range of a date. *)
Theorem next_occurrence_spec job now :
  0 < sj_intervalMs job → isCanonicalTimestamp (sj_nextRunAt job) = true →
  isCanonicalTimestamp now = true →
  ∃ s t n, sj_nextRunAt job = toISOString s ∧ now = toISOString t ∧ 1 ≤ n ∧
    t < s + n * sj_intervalMs job ∧
    (∀ m, 1 ≤ m → t < s + m * sj_intervalMs job → n ≤ m) ∧
    nextOccurrence job now =
      (if MAX_TIME <? Z.abs (s + n * sj_intervalMs job) then Err invalidTime
       else Ok (sj_occurrence job + n, toISOString (s + n * sj_intervalMs job))) ∧
    (fourDigitYear (s + n * sj_intervalMs job) →
       str_lt now (toISOString (s + n * sj_intervalMs job)) = true).
Proof.
  intros Hi (s & Hs & Hns)%isCanonicalTimestamp_spec (t & Ht & Hnow)%isCanonicalTimestamp_spec.
  set (n := intervalsElapsed s t (sj_intervalMs job)).
  destruct (intervalsElapsed_spec s t _ Hi) as (H1 & H2 & H3). fold n in H1, H2, H3.
  exists s, t, n. do 4 (split; [done|]). split; [|split].
  - intros m Hm Hlt. destruct H3 as [->|H3]; [done|].
    assert ((n - 1) * sj_intervalMs job < m * sj_intervalMs job) as Hmul by lia.
    apply Z.mul_lt_mono_pos_r in Hmul; lia.
  - unfold nextOccurrence. rewrite Hns, Hnow, !dateParse_toISOString by done. fold n.
    unfold isoOfTime. by destruct (_ <? _).
  - intros Hf. rewrite Hnow, toISOString_lt by done. by apply Z.ltb_lt.
Qed.

(** ** Authorization of a job *)
Record grant_allows (grant : GrantRecord) (job : ScheduledJob) : Prop := mk_allows {
  al_kind : grant_kind grant = long_term;
  al_owner : grant_ownerId grant = sj_ownerId job;
  al_agent : grant_agentId grant = sj_agentId job;
  al_capability : sc_capabilityRef (grant_scope grant) = sj_capabilityRef job;
  al_operation : sj_operation job ∈ sc_operations (grant_scope grant);
  al_resource : sc_exactResourceRef (grant_scope grant) = Some (sj_resourceRef job) ∨
    ∃ prefix, prefix ∈ sc_resourcePrefixes (grant_scope grant) ∧
      startsWith (sj_resourceRef job) prefix = true;
  al_class : CLASSIFICATION_RANK (sj_dataClassification job)
    ≤ CLASSIFICATION_RANK (sc_maxDataClassification (grant_scope grant));
  al_effect : sj_sideEffect job ∈ sc_sideEffects (grant_scope grant);
  al_cost : sj_estimatedCostMicros job ≤ sc_maxCostMicrosPerUse (grant_scope grant);
  al_count : 1 ≤ freq_count (sc_maxFrequency (grant_scope grant));
  al_interval : ∃ i, freq_intervalMs (sc_maxFrequency (grant_scope grant)) = Some i ∧
    i ≤ sj_intervalMs job;
  al_expiry : ∃ t u, dateParse (sj_expiresAt job) = Some t ∧
    dateParse (grant_expiresAt grant) = Some u ∧ t ≤ u;
  al_uses : grant_uses grant < grant_maxUses grant;
  al_budget : grant_spentCostMicros grant + sj_estimatedCostMicros job
    ≤ grant_maxTotalCostMicros grant;
}.

Record job_authorized (job : ScheduledJob) (grant : GrantRecord) (now : string) : Prop := mk_authorized {
  ja_live : sj_revokedAt job = None;
  ja_unexpired : str_lt now (sj_expiresAt job) = true;
  ja_minimum : sj_minimumIntervalMs job ≤ sj_intervalMs job;
  ja_grant_live : grant_revokedAt grant = None;
  ja_grant_from : str_le (grant_validFrom grant) now = true;
  ja_grant_until : str_lt now (grant_expiresAt grant) = true;
  ja_allows : grant_allows grant job;
}.

Lemma date_le_spec a b : date_le a b = true ↔
  ∃ t u, dateParse a = Some t ∧ dateParse b = Some u ∧ t ≤ u.
Proof.
  unfold date_le. destruct (dateParse a), (dateParse b); [|naive_solver..].
  rewrite Z.leb_le. naive_solver.
Qed.

Lemma interval_allowed_spec (i : option Z) n :
  match i with Some interval => interval <=? n | None => false end = true ↔ ∃ j, i = Some j ∧ j ≤ n.
Proof. destruct i; [rewrite Z.leb_le|]; naive_solver. Qed.

Lemma grantAllowsJob_spec grant job : grantAllowsJob grant job = true ↔ grant_allows grant job.
Proof.
  unfold grantAllowsJob. rewrite !andb_true_iff, orb_true_iff, existsb_elem, date_le_spec,
    interval_allowed_spec, !includes_spec, !bool_decide_eq_true, !Z.leb_le, !Z.ltb_lt.
  split; [intros; destruct_and!; by split|by intros []].
Qed.

Lemma disabledReason_None job grant now :
  disabledReason job grant now = None ↔ ∃ g, grant = Some g ∧ job_authorized job g now.
Proof.
  unfold disabledReason. split.
  - intros H.
    destruct (sj_revokedAt job !== None) eqn:E1; [done|].
    destruct (str_le (sj_expiresAt job) now) eqn:E2; [done|]. destruct (_ <? _) eqn:E3; [done|].
    destruct grant as [g|]; [|done]. destruct (grant_revokedAt g !== None) eqn:E4; [done|].
    destruct (_ || _) eqn:E5; [done|]. destruct (negb (grantAllowsJob _ _)) eqn:E6; [done|].
    exists g. split; [done|]. apply orb_false_iff in E5 as [E5 E7].
    apply str_le_false in E2, E7. apply str_lt_false in E5.
    apply negb_false_iff, grantAllowsJob_spec in E6. guards_in E1. guards_in E3. guards_in E4. by split.
  - intros (g & -> & [H1 H2 H3 H4 H5 H6 H7]). rewrite H1, H4.
    apply str_le_false in H2, H6. apply str_lt_false in H5. rewrite H2, H5, H6.
    apply grantAllowsJob_spec in H7. rewrite H7. destruct (Z.ltb_spec (sj_intervalMs job) (sj_minimumIntervalMs job)); [lia|].
    done.
Qed.

(** The scheduler's authorization decision is exactly the list of
    conditions: [disabledReason] finds nothing wrong if and only if the job
    names a grant and job and grant meet every condition of
    [job_authorized]. *)
Theorem disabled_reason_spec job grant now :
  disabledReason job grant now = None ↔ ∃ g, grant = Some g ∧ job_authorized job g now.
Proof. apply disabledReason_None. Qed.

(** ** Trigger identity *)
Lemma append_eq_inv (a b r s : string) : a +:+ r = b +:+ s →
  ∃ x, (a = b +:+ x ∧ s = x +:+ r) ∨ (b = a +:+ x ∧ r = x +:+ s).
Proof.
  revert b. induction a as [|c a IH]; intros [|d b]; rewrite ?append_String; intros H.
  - exists "". by left.
  - exists (String d b). right. done.
  - exists (String c a). left. done.
  - apply String_inv in H as [-> H]. destruct (IH b H) as (x & [[-> ->]|[-> ->]]); exists x; auto.
Qed.

(** A suffix behind the last occurrence of a character it does not contain. *)
Lemma append_last_inv (p : ascii → bool) c a b r s :
  p c = false → all_chars p r = true → all_chars p s = true →
  a +:+ String c r = b +:+ String c s → a = b ∧ r = s.
Proof.
  intros Hc Hr Hs H. destruct (append_eq_inv _ _ _ _ H) as ([|d x] & [[-> E]|[-> E]]).
  - rewrite append_nil_r. by apply String_inv in E as [_ ->].
  - rewrite append_nil_r. by apply String_inv in E as [_ ->].
  - rewrite append_String in E. apply String_inv in E as [<- ->].
    rewrite all_chars_app in Hs. cbn in Hs. rewrite Hc, andb_false_r in Hs. done.
  - rewrite append_String in E. apply String_inv in E as [<- ->].
    rewrite all_chars_app in Hr. cbn in Hr. rewrite Hc, andb_false_r in Hr. done.
Qed.

Lemma stableOccurrenceRef_inj job job' :
  stableOccurrenceRef job = stableOccurrenceRef job' →
  sj_id job = sj_id job' ∧ sj_occurrence job = sj_occurrence job'.
Proof.
  intros H. destruct (append_last_inv is_num_char ":" _ _ _ _ eq_refl (numToString_chars _)
    (numToString_chars _) H) as [Hid Hn]. split; [done|]. by apply numToString_inj.
Qed.

Lemma is_digit_machine c : is_digit c = true → is_machine_char c = true.
Proof.
  unfold is_digit, is_machine_char, is_alnum, between. intros H.
  replace (N_of_ascii "0") with 48%N by done. replace (N_of_ascii "9") with 57%N by done.
  rewrite H. by rewrite orb_true_r.
Qed.

(** A prefix, a job identifier of at most 64 machine characters and a safe
    occurrence number make a machine identifier. *)
Lemma derived_identifier prefix job :
  MACHINE_IDENTIFIER_PATTERN prefix = true → (String.length prefix <= 46)%nat →
  all_chars is_machine_char (sj_id job) = true → (String.length (sj_id job) <= 64)%nat →
  0 ≤ sj_occurrence job ≤ MAX_SAFE_INTEGER →
  MACHINE_IDENTIFIER_PATTERN (prefix +:+ stableOccurrenceRef job) = true.
Proof.
  destruct prefix as [|c prefix]; [done|]. cbn [MACHINE_IDENTIFIER_PATTERN].
  rewrite !andb_true_iff, Nat.leb_le. intros [[Hc Hp] Hl] Hlen Hid Hidl Ho.
  rewrite append_String. cbn [MACHINE_IDENTIFIER_PATTERN]. rewrite !andb_true_iff, Nat.leb_le.
  unfold stableOccurrenceRef.
  assert (all_chars is_machine_char (numToString (sj_occurrence job)) = true) as Hn.
  { eapply all_chars_impl, numToString_digits; [apply is_digit_machine|lia]. }
  assert (String.length (numToString (sj_occurrence job)) <= 16)%nat as Hnl.
  { apply numToString_length. unfold MAX_SAFE_INTEGER in Ho. cbn. lia. }
  rewrite !all_chars_app, !length_append, Hp, Hid, Hn. cbn [String.length] in *.
  repeat split; [done|]. cbn. lia.
Qed.

(** Triggers name their occurrence: two jobs announce the same command
    (idempotency key) or trigger identifier only for the same job identifier
    and occurrence number; and for a job whose shape the scheduler accepts and
    whose identifier is made of machine characters, every derived identifier
    is a valid machine identifier. *)
Theorem trigger_identity job job' :
  (ti_idempotencyKey (occurrenceTrigger job) = ti_idempotencyKey (occurrenceTrigger job') ∨
   ti_triggerId (occurrenceTrigger job) = ti_triggerId (occurrenceTrigger job') →
     sj_id job = sj_id job' ∧ sj_occurrence job = sj_occurrence job') ∧
  (assertScheduleShape job = Ok tt → all_chars is_machine_char (sj_id job) = true →
     MACHINE_IDENTIFIER_PATTERN (ti_messageId (occurrenceTrigger job)) = true ∧
     MACHINE_IDENTIFIER_PATTERN (ti_correlationId (occurrenceTrigger job)) = true ∧
     MACHINE_IDENTIFIER_PATTERN (ti_idempotencyKey (occurrenceTrigger job)) = true ∧
     MACHINE_IDENTIFIER_PATTERN (ti_triggerId (occurrenceTrigger job)) = true).
Proof.
  split.
  - intros [H|H]; apply append_cancel_l in H; by apply stableOccurrenceRef_inj.
  - intros Hs Hid. apply throw_if_Ok in Hs. repeat apply orb_false_iff in Hs as [Hs ?].
    apply negb_false_iff in Hs. rewrite forallb_elem in Hs.
    assert (Ho : isSafeInteger (sj_occurrence job) && (0 <=? sj_occurrence job) = true)
      by (apply Hs; set_solver).
    apply andb_true_iff in Ho as [Ho1%Z.leb_le Ho2%Z.leb_le].
    match goal with H : (64 <? _)%nat = false |- _ => apply Nat.ltb_ge in H as Hl end.
    cbn. repeat split; apply derived_identifier; (done || cbn; lia || lia).
Qed.

(** ** The dispatch loop against the contracts of its ports

    [jview] and [aview] are the job store and the authorization store of a
    world, [log] the triggers that were handed to ingestion. *)
Section world.
Context {W : Type} (jview : W → jobs_state) (aview : W → auth_state) (inv : W → Prop)
  (log : W → list UnifiedTriggerInput).

(** A call that hands over no trigger; other clients may act meanwhile. *)
Record quiet (w w' : W) : Prop := mk_quiet {
  q_inv : inv w';
  q_jobs : rtc sched_step (jview w) (jview w');
  q_auth : rtc auth_step (aview w) (aview w');
  q_log : log w' = log w;
}.

Definition quiet_law {A} (m : M exn W A) : Prop := ∀ w r w', inv w → m w = (r, w') → quiet w w'.
End world.

Class DispatchWorld (W : Type) `{!SchedulerPort W, !UnifiedTriggerPort W, !AuthorityLeasePort W,
    !AuthorizationStorePort W, !ClockPort W} (jview : W → jobs_state) (aview : W → auth_state)
    (inv : W → Prop) (log : W → list UnifiedTriggerInput) : Prop := {
  dw_jobs :: SchedulerLaws W jview inv;
  dw_grants :: AuthorizationStoreLaws W aview inv;
  dw_clock : quiet_law jview aview inv log clock_now;
  dw_current : ∀ agentId, quiet_law jview aview inv log (lease_current agentId);
  dw_listDue : ∀ at_ limit, 0 ≤ limit → quiet_law jview aview inv log (listDue at_ limit);
  dw_listGrants : ∀ o a, quiet_law jview aview inv log (listGrants o a);
  dw_read : ∀ id, quiet_law jview aview inv log (scheduler_read id);
  dw_upsert : ∀ job e, quiet_law jview aview inv log (upsert job e);
  dw_ingest : ∀ input w r w', inv w → ingest input w = (r, w') →
    inv w' ∧ rtc sched_step (jview w) (jview w') ∧ rtc auth_step (aview w) (aview w') ∧
    (log w' = log w ∨ log w' = log w ++ [input]);
}.

Section dispatch.
Context {W : Type} `{!SchedulerPort W, !UnifiedTriggerPort W, !AuthorityLeasePort W,
  !AuthorizationStorePort W, !ClockPort W} (jview : W → jobs_state) (aview : W → auth_state)
  (inv : W → Prop) (log : W → list UnifiedTriggerInput)
  `{!DispatchWorld W jview aview inv log}.
Abbreviation quiet := (quiet jview aview inv log).
Abbreviation quiet_law := (quiet_law jview aview inv log).

Lemma quiet_refl w : inv w → quiet w w.
Proof. by split. Qed.

Lemma quiet_trans w1 w2 w3 : quiet w1 w2 → quiet w2 w3 → quiet w1 w3.
Proof. intros [] []. split; [done|by etrans..|congruence]. Qed.

Lemma quiet_bind {A B} (m : M exn W A) (f : A → M exn W B) :
  quiet_law m → (∀ a, quiet_law (f a)) → quiet_law (a ← m; f a).
Proof.
  intros Hm Hf w r w' Hi H. unfold mbind, M_bind in H.
  destruct (m w) as [[a|x] w1] eqn:E; pose proof (Hm _ _ _ Hi E) as Hq.
  - eapply quiet_trans; [exact Hq|]. eapply Hf; [apply Hq|exact H].
  - by injection H as <- <-.
Qed.

Lemma quiet_lift {A} (r : result exn A) : quiet_law (lift r).
Proof. intros w r' w' Hi H. injection H as <- <-. by apply quiet_refl. Qed.

Lemma quiet_try_catch {A} (m : M exn W A) h : quiet_law m → (∀ x, quiet_law (h x)) → quiet_law (try_catch m h).
Proof.
  intros Hm Hh w r w' Hi H. unfold try_catch in H.
  destruct (m w) as [[a|x] w1] eqn:E; pose proof (Hm _ _ _ Hi E) as Hq.
  - by injection H as <- <-.
  - eapply quiet_trans; [exact Hq|]. eapply Hh; [apply Hq|exact H].
Qed.

Lemma quiet_ret {A} (a : A) : quiet_law (mret a).
Proof. apply (quiet_lift (Ok a)). Qed.

Create HintDb quiet.
#[local] Hint Resolve dw_clock dw_current dw_listDue dw_listGrants dw_read dw_upsert
  quiet_bind quiet_lift quiet_ret quiet_try_catch : quiet.

Lemma disable_quiet job : quiet_law (disable job).
Proof. unfold disable. apply quiet_try_catch; [eauto with quiet|]. intros x. destruct (is_conflict x); [eauto with quiet|apply quiet_lift]. Qed.

Lemma advance_quiet job admission next : quiet_law (advance_job job admission next).
Proof.
  unfold advance_job. apply quiet_try_catch; [eauto with quiet|].
  intros x. destruct (is_conflict x); [eauto with quiet|apply quiet_lift].
Qed.

(** The version of a stored job that was read is gone. *)
Definition consumed (job : ScheduledJob) (s : jobs_state) : Prop :=
  ∃ j, s !! sj_id job = Some j ∧ sj_revision job < sj_revision j.

(** [job] was stored at some moment up to the state [s]. *)
Definition was_stored (job : ScheduledJob) (s : jobs_state) : Prop :=
  ∃ s0, jobs_wf s0 ∧ s0 !! sj_id job = Some job ∧ rtc sched_step s0 s.

Lemma was_stored_step job s s' : was_stored job s → rtc sched_step s s' → was_stored job s'.
Proof. intros (s0 & Hwf & Hk & Hs) Hs'. exists s0. do 2 (split; [done|]). by etrans. Qed.

Lemma consumed_step job s s' : jobs_wf s → consumed job s → rtc sched_step s s' → consumed job s'.
Proof.
  intros Hwf (j & Hk & Hr) Hs. destruct (job_steps _ _ _ _ Hwf Hs Hk) as (j' & Hk' & _ & Hr' & _).
  exists j'. split; [done|]. lia.
Qed.

(** A write that expects the version read consumes it, also when it conflicts. *)
Lemma upsert_consumes job new w r w' :
  inv w → was_stored job (jview w) → sj_id new = sj_id job →
  upsert new (Some (sj_revision job)) w = (r, w') →
  match r with Ok _ => True | Err x => is_conflict x = true end →
  consumed job (jview w').
Proof.
  intros Hi Hst Hid H Hr. destruct r as [a|x].
  - destruct (op_law_Ok _ _ _ _ _ _ _ _ (law_upsert _ _) Hi H) as (_ & s & _ & _ & -> & ->).
    rewrite Hid. eexists. split; [apply lookup_insert_eq|]. cbn. lia.
  - pose proof (law_upsert_conflict _ _ _ _ _ Hi H Hr) as Hne. rewrite Hid in Hne.
    apply (was_stored_step _ _ (jview w')) in Hst; [|apply (dw_upsert _ _ _ _ _ Hi H)].
    destruct Hst as (s0 & Hwf & Hk & Hs). destruct (job_steps _ _ _ _ Hwf Hs Hk) as (j & Hj & _ & Hle & _).
    exists j. split; [done|]. rewrite Hj in Hne. cbn in Hne.
    assert (sj_revision j ≠ sj_revision job) by congruence. lia.
Qed.

Lemma disable_consumes job w w' u :
  inv w → was_stored job (jview w) → disable job w = (Ok u, w') → consumed job (jview w').
Proof.
  intros Hi Hst H. unfold disable, try_catch, mbind, M_bind in H.
  destruct (upsert _ _ w) as [r w1] eqn:E. destruct r as [a|x].
  - injection H as _ <-. by refine (upsert_consumes job _ w (Ok a) w1 Hi Hst _ E _).
  - destruct (is_conflict x) eqn:Hx; [|done]. injection H as _ <-.
    by refine (upsert_consumes job _ w (Err x) w1 Hi Hst _ E _).
Qed.

(** The records one job can get. *)
Inductive record_of (now : string) (job : ScheduledJob) : SchedulerDispatchRecord → Prop :=
  | of_disabled reason grant :
      disabledReason job grant now = Some reason →
      record_of now job (mkRecord (sj_id job) disabled reason None None)
  | of_dispatched ref n next :
      nextOccurrence job now = Ok (n, next) →
      record_of now job (mkRecord (sj_id job) dispatched "TRIGGER_ADMITTED" (Some ref) (Some next))
  | of_replayed ref n next :
      nextOccurrence job now = Ok (n, next) →
      record_of now job (mkRecord (sj_id job) duplicate "TRIGGER_ALREADY_ADMITTED" (Some ref) (Some next))
  | of_advanced ref next :
      record_of now job (mkRecord (sj_id job) duplicate "SCHEDULE_ALREADY_ADVANCED" (Some ref) next).

Lemma advance_Ok job admission next now w rec w' :
  inv w → was_stored job (jview w) → nextOccurrence job now = Ok next →
  advance_job job admission next w = (Ok rec, w') →
  consumed job (jview w') ∧ record_of now job rec.
Proof.
  intros Hi Hst Hn H. unfold advance_job, try_catch, mbind, M_bind in H.
  destruct (upsert _ _ w) as [r w1] eqn:E. destruct next as [n next]. destruct r as [a|x].
  - injection H as <- <-. split; [by refine (upsert_consumes job _ w (Ok a) w1 Hi Hst _ E _)|].
    destruct (ta_replayed admission); by econstructor.
  - destruct (is_conflict x) eqn:Hx; [|done].
    assert (consumed job (jview w1)) as Hc by by refine (upsert_consumes job _ w (Err x) w1 Hi Hst _ E _).
    pose proof (q_inv _ _ _ _ _ _ (dw_upsert _ _ _ _ _ Hi E)) as Hi1.
    destruct (scheduler_read _ w1) as [[c|y] w2] eqn:E2; [|done].
    pose proof (dw_read _ _ _ _ Hi1 E2) as Hq. injection H as <- <-.
    split; [|constructor]. eapply consumed_step; [by apply law_jobs_wf|exact Hc|apply Hq].
Qed.

(** Up to the decision a turn of the loop is quiet; it goes on only under the
    lease it was given, with the grants listed for the job's Owner and Agent. *)
Lemma dispatch_job_inv authority now job w r w' :
  inv w → dispatch_job authority now job w = (r, w') →
  (∃ x, r = Err x ∧ quiet w w') ∨
  ∃ current grants w1 w2,
    assertScheduleShape job = Ok tt ∧
    lease_current (sj_agentId job) w = (Ok current, w1) ∧ holds_fence authority current = true ∧
    listGrants (sj_ownerId job) (sj_agentId job) w1 = (Ok grants, w2) ∧
    quiet w w1 ∧ quiet w1 w2 ∧
    (match disabledReason job (List.find (λ g, grant_id g === sj_authorizationRef job) grants) now with
     | Some reasonCode =>
         disable job ;; mret (mkRecord (sj_id job) disabled reasonCode None None)
     | None =>
         admission ← ingest (occurrenceTrigger job);
         next ← lift (nextOccurrence job now);
         advance_job job admission next
     end) w2 = (r, w').
Proof.
  intros Hi H. unfold dispatch_job in H. unfold mbind at 1, M_bind at 1, lift at 1 in H.
  destruct (assertScheduleShape job) as [[]|x] eqn:Hs;
    [|left; injection H as <- <-; exists x; split; [done|by apply quiet_refl]].
  unfold mbind at 1, M_bind at 1, assertAuthority in H. unfold mbind at 1, M_bind at 1 in H.
  destruct (lease_current _ w) as [[current|x] w1] eqn:Hc;
    pose proof (dw_current _ _ _ _ Hi Hc) as Hq1;
    [|left; injection H as <- <-; by exists x].
  unfold throwM_if, throw_if, lift in H. destruct (holds_fence authority current) eqn:Hf;
    [cbn [negb] in H|left; injection H as <- <-; by eexists].
  unfold mbind at 1, M_bind at 1 in H.
  destruct (listGrants _ _ w1) as [[grants|x] w2] eqn:Hg;
    pose proof (dw_listGrants _ _ _ _ _ (q_inv _ _ _ _ _ _ Hq1) Hg) as Hq2.
  - right. by exists current, grants, w1, w2.
  - left. injection H as <- <-. exists x. split; [done|]. by eapply quiet_trans.
Qed.

(** One turn of the loop that returned consumed the version it was given. *)
Lemma dispatch_job_Ok authority now job w rec w' :
  inv w → was_stored job (jview w) → dispatch_job authority now job w = (Ok rec, w') →
  consumed job (jview w') ∧ record_of now job rec.
Proof.
  intros Hi Hst H. apply dispatch_job_inv in H as [(x & ? & _)|H]; [done| |done].
  destruct H as (current & grants & w1 & w2 & _ & _ & _ & _ & Hq1 & Hq2 & H).
  assert (Hq : quiet w w2) by by eapply quiet_trans.
  assert (was_stored job (jview w2)) as Hst2 by (eapply was_stored_step; [exact Hst|apply Hq]).
  destruct (disabledReason _ _ _) as [reason|] eqn:Hd; unfold mbind at 1, M_bind at 1 in H.
  - destruct (disable job w2) as [[u|x] w3] eqn:E; [|done]. injection H as <- <-.
    split; [|by econstructor]. by apply (disable_consumes _ w2 _ u (q_inv _ _ _ _ _ _ Hq)).
  - destruct (ingest _ w2) as [[admission|x] w3] eqn:E; [|done].
    destruct (dw_ingest _ _ _ _ (q_inv _ _ _ _ _ _ Hq) E) as (Hi3 & Hs3 & _).
    unfold mbind, M_bind, lift in H. destruct (nextOccurrence job now) as [next|x] eqn:Hn; [|done].
    eapply advance_Ok; [exact Hi3| |exact Hn|exact H]. by eapply was_stored_step.
Qed.

(** What must hold before a job's trigger is handed over: an accepted shape,
    the caller's lease read as current, and then a stored grant that
    authorizes the job. *)
Record trigger_grounds (authority : SchedulerAuthorityFence) (now : string) (w : W)
    (job : ScheduledJob) : Prop := mk_grounds {
  tg_shape : assertScheduleShape job = Ok tt;
  tg_authority : ∃ w1 w2 current s g,
    rtc auth_step (aview w) (aview w1) ∧
    lease_current (sj_agentId job) w1 = (Ok (Some current), w2) ∧
    lease_id (lr_lease current) = sf_leaseId authority ∧
    lr_fencingToken current = sf_fencingToken authority ∧
    rtc auth_step (aview w2) s ∧ au_grants s !! sj_authorizationRef job = Some g ∧
    job_authorized job g now;
}.

Lemma grounds_before authority now w w' job :
  rtc auth_step (aview w) (aview w') → trigger_grounds authority now w' job →
  trigger_grounds authority now w job.
Proof.
  intros Hs [Hsh (w1 & w2 & c & s & g & H1 & H)]. split; [done|].
  exists w1, w2, c, s, g. split; [by etrans|done].
Qed.

Lemma holds_fence_Some authority current :
  holds_fence authority current = true → ∃ c, current = Some c ∧
    lease_id (lr_lease c) = sf_leaseId authority ∧ lr_fencingToken c = sf_fencingToken authority.
Proof.
  destruct current as [c|]; [|done]. cbn. intros [H1 H2]%andb_true_iff. guards_in H1. guards_in H2.
  by exists c.
Qed.

Lemma dispatch_job_log authority now job w r w' :
  inv w → dispatch_job authority now job w = (r, w') →
  inv w' ∧ rtc sched_step (jview w) (jview w') ∧ rtc auth_step (aview w) (aview w') ∧
  (log w' = log w ∨
   log w' = log w ++ [occurrenceTrigger job] ∧ trigger_grounds authority now w job).
Proof.
  intros Hi H. apply dispatch_job_inv in H as [(x & _ & [])|H]; [by auto| |done].
  destruct H as (current & grants & w1 & w2 & Hsh & Hc & Hf & Hg & Hq1 & Hq2 & H).
  assert (Hq : quiet w w2) by by eapply quiet_trans.
  destruct (disabledReason _ _ _) as [reason|] eqn:Hd.
  - assert (quiet w2 w') as Hq'.
    { eapply (quiet_bind _ _ (disable_quiet job)); [intros; apply quiet_ret| |exact H].
      apply Hq. }
    destruct (quiet_trans _ _ _ Hq Hq'). by auto.
  - unfold mbind at 1, M_bind at 1 in H. destruct (ingest _ w2) as [ra w3] eqn:E.
    destruct (dw_ingest _ _ _ _ (q_inv _ _ _ _ _ _ Hq) E) as (Hi3 & Hs3 & Ha3 & Hl3).
    assert (quiet w3 w') as Hq3.
    { destruct ra as [admission|x]; [|injection H as _ <-; by apply quiet_refl].
      eapply (quiet_bind (lift (nextOccurrence job now)) _ (quiet_lift _)); [|exact Hi3|exact H].
      intros next. apply advance_quiet. }
    split; [apply Hq3|]. split; [etrans; [apply Hq|]; etrans; [exact Hs3|apply Hq3]|].
    split; [etrans; [apply Hq|]; etrans; [exact Ha3|apply Hq3]|].
    rewrite (q_log _ _ _ _ _ _ Hq3). rewrite (q_log _ _ _ _ _ _ Hq) in Hl3.
    destruct Hl3 as [-> | ->]; [by left|right]. split; [done|]. split; [done|].
    apply disabledReason_None in Hd as (g & Hfind & Hauth).
    apply find_elem in Hfind as [Hin Hid%bool_decide_eq_true].
    apply holds_fence_Some in Hf as (c & -> & Hlid & Htok).
    destruct (reads_Ok _ _ _ _ _ _ _ _ (law_listGrants _ _) (q_inv _ _ _ _ _ _ Hq1) Hg) as (_ & Hs & HP).
    apply HP in Hin as [Hin _]. rewrite Hid in Hin.
    exists w, w1, c, (aview w2), g. done.
Qed.

(** The loop: its triggers, in order, are those of some of the jobs. *)
Lemma dispatch_jobs_log authority now jobs w r w' :
  inv w → dispatch_jobs authority now jobs w = (r, w') →
  rtc sched_step (jview w) (jview w') ∧
  ∃ sent, sent `sublist_of` jobs ∧ log w' = log w ++ (occurrenceTrigger <$> sent) ∧
    ∀ job, job ∈ sent → trigger_grounds authority now w job.
Proof.
  revert w r. induction jobs as [|job jobs IH]; intros w r Hi H; cbn in H.
  { injection H as <- <-. split; [done|]. exists []. split; [constructor|].
    split; [by rewrite app_nil_r|]. by intros ? ?%not_elem_of_nil. }
  unfold mbind at 1, M_bind at 1 in H. destruct (dispatch_job _ _ _ w) as [ro w1] eqn:E.
  destruct (dispatch_job_log _ _ _ _ _ _ Hi E) as (Hi1 & Hs1 & Ha1 & Hl1).
  assert (rtc sched_step (jview w1) (jview w') ∧ ∃ sent, sent `sublist_of` jobs ∧
    log w' = log w1 ++ (occurrenceTrigger <$> sent) ∧
    ∀ job, job ∈ sent → trigger_grounds authority now w job) as (Hs2 & sent & Hsub & Hl2 & Hgr).
  { destruct ro as [record|x].
    - unfold mbind, M_bind in H. destruct (dispatch_jobs _ _ _ w1) as [rs w2] eqn:E2.
      assert (w2 = w') as -> by (destruct rs; by injection H).
      destruct (IH _ _ Hi1 E2) as (Hs2 & sent & Hsub & Hl2 & Hgr). split; [done|].
      exists sent. split; [done|]. split; [done|]. intros j Hj.
      eapply grounds_before; [exact Ha1|by apply Hgr].
    - injection H as _ <-. split; [done|]. exists []. split; [apply sublist_nil_l|].
      split; [by rewrite app_nil_r|]. by intros ? ?%not_elem_of_nil. }
  split; [by etrans|]. rewrite Hl2. destruct Hl1 as [->|[-> Hg]].
  - exists sent. split; [by constructor|done].
  - exists (job :: sent). split; [by constructor|]. split; [by rewrite fmap_cons, <-app_assoc|].
    intros j [->|Hj]%elem_of_cons; [done|by apply Hgr].
Qed.

Lemma dispatch_jobs_Ok authority now jobs w records w' :
  inv w → (∀ job, job ∈ jobs → was_stored job (jview w)) →
  dispatch_jobs authority now jobs w = (Ok records, w') →
  Forall2 (record_of now) jobs records ∧ (∀ job, job ∈ jobs → consumed job (jview w')).
Proof.
  revert w records. induction jobs as [|job jobs IH]; intros w records Hi Hst H; cbn in H.
  { injection H as <- <-. split; [constructor|]. by intros ? ?%not_elem_of_nil. }
  unfold mbind at 1, M_bind at 1 in H. destruct (dispatch_job _ _ _ w) as [[d|x] w1] eqn:E; [|done].
  destruct (dispatch_job_log _ _ _ _ _ _ Hi E) as (Hi1 & Hs1 & _).
  destruct (dispatch_job_Ok _ _ _ _ _ _ Hi (Hst _ (list_elem_of_here _ _)) E) as [Hc Hr].
  unfold mbind, M_bind in H. destruct (dispatch_jobs _ _ _ w1) as [[res|x] w2] eqn:E2; [|done].
  injection H as <- <-.
  assert (∀ j, j ∈ jobs → was_stored j (jview w1)) as Hst1.
  { intros j Hj. eapply was_stored_step; [|exact Hs1]. apply Hst. by apply list_elem_of_further. }
  destruct (IH _ _ Hi1 Hst1 E2) as [Hrs Hcs].
  split; [by constructor|]. intros j [->|Hj]%elem_of_cons; [|by apply Hcs].
  eapply consumed_step; [by apply law_jobs_wf|exact Hc|]. by apply dispatch_jobs_log in E2 as [? _].
Qed.

Lemma dispatchDue_inv input w r w' :
  inv w → dispatchDue input w = (r, w') →
  (is_ok r = false ∧ quiet w w') ∨
  ∃ now jobs records w1 w2,
    0 < dd_limit input ≤ MAX_SAFE_INTEGER ∧
    clock_now w = (Ok now, w1) ∧ quiet w w2 ∧ due_list now (dd_limit input) jobs (jview w2) ∧
    dispatch_jobs (dd_authority input) now jobs w2 = (records, w') ∧
    r = (l ← records; Ok (mkResult now l)).
Proof.
  intros Hi H. unfold dispatchDue in H. unfold mbind at 1, M_bind at 1, throwM_if, throw_if, lift in H.
  destruct (_ || _) eqn:Hl; [left; injection H as <- <-; by split; [|apply quiet_refl]|].
  apply orb_false_iff in Hl as [Hl1%negb_false_iff%Z.leb_le Hl2%Z.leb_gt].
  assert (0 ≤ dd_limit input) as Hl0 by lia.
  unfold mbind at 1, M_bind at 1 in H. destruct (clock_now w) as [[now|x] w1] eqn:Hc;
    pose proof (dw_clock _ _ _ Hi Hc) as Hq1; [|left; by injection H as <- <-].
  unfold mbind at 1, M_bind at 1 in H. destruct (listDue _ _ w1) as [[jobs|x] w2] eqn:Hd;
    pose proof (dw_listDue _ _ Hl0 _ _ _ (q_inv _ _ _ _ _ _ Hq1) Hd) as Hq2;
    [|left; injection H as <- <-; split; [done|by eapply quiet_trans]].
  right. unfold mbind, M_bind in H. destruct (dispatch_jobs _ _ _ w2) as [records w3] eqn:E.
  assert (w3 = w' ∧ r = (l ← records; Ok (mkResult now l))) as [-> ->]
    by (destruct records; by injection H as <- <-).
  exists now, jobs, records, w1, w2. split; [lia|]. split; [done|].
  split; [by eapply quiet_trans|]. split; [|done].
  by apply (reads_Ok _ _ _ _ _ _ _ _ (law_listDue _ _ Hl0) (q_inv _ _ _ _ _ _ Hq1) Hd).
Qed.

(** C2 The scheduler never triggers unauthorized work: whatever a call of
    [dispatchDue] returns, and also when it throws half-way, the triggers it
    handed over are, in order, those of distinct jobs that were stored, active
    and due at the time of the call's clock, each after the caller's lease was
    read as current for the job's Agent and then a stored grant was found
    that authorizes the job. *)
Theorem dispatch_triggers_authorized input w r w' :
  inv w → dispatchDue input w = (r, w') →
  ∃ sent, log w' = log w ++ (occurrenceTrigger <$> sent) ∧ NoDup (sj_id <$> sent) ∧
    Z.of_nat (List.length sent) ≤ Z.max 0 (dd_limit input) ∧
    ∀ job, job ∈ sent → ∃ now w1 s,
      clock_now w = (Ok now, w1) ∧
      rtc sched_step (jview w) s ∧ s !! sj_id job = Some job ∧ due now job ∧
      trigger_grounds (dd_authority input) now w job.
Proof.
  intros Hi H. apply dispatchDue_inv in H as [[_ []]|H]; [| |done].
  { exists []. split; [by rewrite app_nil_r|]. split; [constructor|]. split; [cbn; lia|].
    by intros ? ?%not_elem_of_nil. }
  destruct H as (now & jobs & records & w1 & w2 & Hl & Hc & Hq & [Hdue Hnd Hlen _] & Hr & _).
  apply dispatch_jobs_log in Hr as (_ & sent & Hsub & Hlog & Hg); [|apply Hq].
  exists sent. rewrite Hlog, (q_log _ _ _ _ _ _ Hq). split; [done|].
  split; [by eapply sublist_NoDup; [exact Hnd|apply fmap_sublist]|].
  split; [apply sublist_length in Hsub; lia|].
  intros job Hj. destruct (Hdue job) as [Hk Hd]; [by eapply elem_of_sublist|].
  exists now, w1, (jview w2). do 2 (split; [done || apply Hq|]). split; [done|]. split; [done|].
  eapply grounds_before; [apply Hq|by apply Hg].
Qed.

(** A dispatch that returns accounts for every due job: one record per job
    that [listDue] gave, in its order and for the time of the call's clock,
    with the outcome and reason the job's authorization and next occurrence
    call for; and each listed version of a job is consumed, so that the next
    dispatch cannot list it again. *)
Theorem dispatch_accounts input w result w' :
  inv w → dispatchDue input w = (Ok result, w') →
  ∃ jobs s, rtc sched_step (jview w) s ∧
    due_list (dr_checkedAt result) (dd_limit input) jobs s ∧
    Forall2 (record_of (dr_checkedAt result)) jobs (dr_records result) ∧
    (sr_jobId <$> dr_records result) = (sj_id <$> jobs) ∧
    (∀ job, job ∈ jobs → consumed job (jview w') ∧ jview w' !! sj_id job ≠ Some job).
Proof.
  intros Hi H. apply dispatchDue_inv in H as [[? _]|H]; [done| |done].
  destruct H as (now & jobs & records & w1 & w2 & Hl & Hc & Hq & Hd & Hr & Hres).
  destruct records as [records|x]; [|done]. injection Hres as ->. cbn.
  assert (∀ job, job ∈ jobs → was_stored job (jview w2)) as Hst.
  { intros job Hj. exists (jview w2). split; [apply law_jobs_wf, Hq|].
    split; [by apply (dl_due _ _ _ _ Hd)|done]. }
  destruct (dispatch_jobs_Ok _ _ _ _ _ _ (q_inv _ _ _ _ _ _ Hq) Hst Hr) as [Hf Hcs].
  exists jobs, (jview w2). split; [apply Hq|]. split; [done|]. split; [done|]. split.
  - clear -Hf. induction Hf as [|job rec jobs records Hr _ IH]; [done|].
    rewrite !fmap_cons, IH. by destruct Hr.
  - intros job Hj. pose proof (Hcs _ Hj) as (j & Hk & Hlt). split; [by exists j|].
    rewrite Hk. intros [= ->]. lia.
Qed.

(** One version of a job advances its schedule at most once, whoever
    dispatches it: after a turn of the loop that returned, any later turn on
    the same version, by any scheduler and at any time, either throws, or
    reports the job disabled or already advanced. *)
Theorem version_advances_once authority now job w rec w1 w2 authority' now' rec' w3 :
  inv w → was_stored job (jview w) → dispatch_job authority now job w = (Ok rec, w1) →
  inv w2 → rtc sched_step (jview w1) (jview w2) →
  dispatch_job authority' now' job w2 = (Ok rec', w3) →
  sr_outcome rec' = disabled ∨ sr_reasonCode rec' = "SCHEDULE_ALREADY_ADVANCED".
Proof.
  intros Hi Hst H Hi2 Hs2 H'.
  destruct (dispatch_job_log _ _ _ _ _ _ Hi H) as (Hi1 & _ & _).
  destruct (dispatch_job_Ok _ _ _ _ _ _ Hi Hst H) as [Hc _].
  assert (consumed job (jview w2)) as Hc2 by (apply (consumed_step job (jview w1)); [by apply law_jobs_wf|done..]).
  apply dispatch_job_inv in H' as [(x & ? & _)|H']; [done| |done].
  destruct H' as (current & grants & w4 & w5 & _ & _ & _ & _ & Hq4 & Hq5 & H').
  pose proof (quiet_trans _ _ _ Hq4 Hq5) as Hq.
  destruct (disabledReason _ _ _); unfold mbind at 1, M_bind at 1 in H'.
  { destruct (disable job w5) as [[]]; [|done]. injection H' as <- _. by left. }
  right. destruct (ingest _ w5) as [[admission|x] w6] eqn:E; [|done].
  destruct (dw_ingest _ _ _ _ (q_inv _ _ _ _ _ _ Hq) E) as (Hi6 & Hs6 & _).
  unfold mbind, M_bind, lift in H'. destruct (nextOccurrence job now') as [next|x]; [|done].
  unfold advance_job, try_catch, mbind, M_bind in H'.
  destruct (upsert _ _ w6) as [[a|x] w7] eqn:Hu.
  - exfalso. destruct (op_law_Ok _ _ _ _ _ _ _ _ (law_upsert _ _) Hi6 Hu) as (_ & s & Hs7 & He & _).
    assert (consumed job s) as (j & Hk & Hlt).
    { apply (consumed_step job (jview w2)); [by apply law_jobs_wf|exact Hc2|]. etrans; [apply Hq|]. by etrans. }
    cbn in He. rewrite Hk in He. cbn in He. assert (sj_revision j = sj_revision job) by congruence. lia.
  - destruct (is_conflict x); [|done]. destruct (scheduler_read _ w7) as [[c|y] w8]; [|done].
    by injection H' as <- _.
Qed.
End dispatch.

(** ** A concrete world: the in-memory scheduler, leases and authorization
    store, and an ingestion that admits an idempotency key once *)
Record SchedWorld := mkSchedWorld {
  sw_jobs : InMemoryScheduler; sw_leases : InMemoryAuthorityLeasePort; sw_auth : World;
  sw_triggers : list UnifiedTriggerInput }.

#[global] Instance eta_SchedWorld : Eta SchedWorld := λ r,
  mkSchedWorld (sw_jobs r) (sw_leases r) (sw_auth r) (sw_triggers r).

Definition on_jobs {A} (m : M exn InMemoryScheduler A) : M exn SchedWorld A :=
  zoom sw_jobs (λ s w, w <| sw_jobs := s |>) m.
Definition on_leases {A} (m : M exn InMemoryAuthorityLeasePort A) : M exn SchedWorld A :=
  zoom sw_leases (λ s w, w <| sw_leases := s |>) m.
Definition on_auth {A} (m : M exn World A) : M exn SchedWorld A :=
  zoom sw_auth (λ s w, w <| sw_auth := s |>) m.

#[export] Instance sw_sched_port : SchedulerPort SchedWorld := {|
  scheduler_read i := on_jobs (sched_read i);
  upsert j e := on_jobs (sched_upsert j e);
  listDue a l := on_jobs (sched_listDue byCodeUnit a l);
  scheduler_cancel i e := on_jobs (sched_cancel i e);
|}.

#[export] Instance sw_lease_port : AuthorityLeasePort SchedWorld := {|
  lease_claim l d := on_leases (lp_claim l d);
  lease_current a := on_leases (lp_current a);
  lease_renew i d := on_leases (lp_renew i d);
  lease_release i := on_leases (lp_release i);
|}.

#[export] Instance sw_auth_port : AuthorizationStorePort SchedWorld := {|
  createApproval r := on_auth (createApproval r);
  findApprovalByIntent i := on_auth (findApprovalByIntent i);
  getApproval i := on_auth (getApproval i);
  listApprovals o a := on_auth (listApprovals o a);
  resolveApproval i := on_auth (resolveApproval i);
  listGrants o a := on_auth (listGrants o a);
  consumeGrant i := on_auth (consumeGrant i);
  store_revokeGrant g t r e := on_auth (store_revokeGrant g t r e);
|}.

#[export] Instance sw_clock : ClockPort SchedWorld := on_auth clock_now.

#[export] Instance sw_ingest : UnifiedTriggerPort SchedWorld := λ input w,
  let ref := "result:" +:+ ti_idempotencyKey input in
  if existsb (λ t, ti_idempotencyKey t === ti_idempotencyKey input) (sw_triggers w)
  then (Ok (mkAdmission ref true), w)
  else (Ok (mkAdmission ref false), w <| sw_triggers := sw_triggers w ++ [input] |>).

Definition sw_jview (w : SchedWorld) : jobs_state := sched_view (sw_jobs w).
Definition sw_aview (w : SchedWorld) : auth_state := world_view (sw_auth w).
Definition sw_inv (w : SchedWorld) : Prop := sched_inv (sw_jobs w) ∧ world_inv (sw_auth w).

(** An operation of one part has its law on the whole and is quiet. *)
Lemma on_jobs_law {A} effect (m : M exn InMemoryScheduler A) :
  gen_op_law sched_step sched_view sched_inv effect m →
  gen_op_law sched_step sw_jview sw_inv effect (on_jobs m).
Proof.
  intros H w r w' [Hj Ha] Hm. unfold on_jobs, zoom in Hm. destruct (m (sw_jobs w)) as [r0 v] eqn:E.
  injection Hm as <- <-. destruct (H _ _ _ Hj E) as [Hi Hs]. done.
Qed.

Lemma on_auth_law {A} effect (m : M exn World A) :
  op_law world_view world_inv effect m → op_law sw_aview sw_inv effect (on_auth m).
Proof.
  intros H w r w' [Hj Ha] Hm. unfold on_auth, zoom in Hm. destruct (m (sw_auth w)) as [r0 v] eqn:E.
  injection Hm as <- <-. destruct (H _ _ _ Ha E) as [Hi Hs]. done.
Qed.

Lemma on_jobs_quiet {A} (m : M exn InMemoryScheduler A) :
  gen_frame_law sched_step sched_view sched_inv m →
  quiet_law sw_jview sw_aview sw_inv sw_triggers (on_jobs m).
Proof.
  intros H w r w' [Hj Ha] Hm. unfold on_jobs, zoom in Hm. destruct (m (sw_jobs w)) as [r0 v] eqn:E.
  injection Hm as <- <-. by destruct (H _ _ _ Hj E).
Qed.

Lemma on_leases_quiet {A} (m : M exn InMemoryAuthorityLeasePort A) :
  quiet_law sw_jview sw_aview sw_inv sw_triggers (on_leases m).
Proof.
  intros w r w' [Hj Ha] Hm. unfold on_leases, zoom in Hm. destruct (m (sw_leases w)) as [r0 v] eqn:E.
  injection Hm as <- <-. done.
Qed.

Lemma on_auth_quiet {A} (m : M exn World A) :
  frame_law world_view world_inv m →
  quiet_law sw_jview sw_aview sw_inv sw_triggers (on_auth m).
Proof.
  intros H w r w' [Hj Ha] Hm. unfold on_auth, zoom in Hm. destruct (m (sw_auth w)) as [r0 v] eqn:E.
  injection Hm as <- <-. by destruct (H _ _ _ Ha E).
Qed.

Lemma reads_frame {S W A} (step : S → S → Prop) view inv (P : A → S → Prop) (m : M exn W A) :
  gen_op_law step view inv (gen_reads P) m → gen_frame_law step view inv m.
Proof. apply op_law_frame. by intros a s s' [_ ->]. Qed.

#[export] Instance sw_jobs_laws : SchedulerLaws SchedWorld sw_jview sw_inv.
Proof.
  destruct (sched_laws byCodeUnit). constructor; intros; try (apply on_jobs_law; eauto).
  - by apply (law_jobs_wf (sw_jobs w)), H.
  - cbn in H0. unfold on_jobs, zoom in H0. destruct (sched_upsert job e (sw_jobs w)) as [r0 v] eqn:E.
    injection H0 as -> <-. eapply law_upsert_conflict; [apply H|exact E|done].
Qed.

#[export] Instance sw_auth_laws : AuthorizationStoreLaws SchedWorld sw_aview sw_inv.
Proof.
  destruct world_laws. constructor; intros; try (apply on_auth_law; auto).
  by apply (law_wf (sw_auth w)), H.
Qed.

#[export] Instance sw_dispatch : DispatchWorld SchedWorld sw_jview sw_aview sw_inv sw_triggers.
Proof.
  constructor; try apply _; intros.
  - apply on_auth_quiet, world_clock_frame.
  - apply on_leases_quiet.
  - apply on_jobs_quiet. by eapply reads_frame, sched_listDue_law.
  - apply on_auth_quiet. eapply reads_frame, law_listGrants.
  - apply on_jobs_quiet. eapply reads_frame, sched_read_law.
  - apply on_jobs_quiet. eapply op_law_frame; [|apply sched_upsert_law].
    intros a s s' He. by eapply rtc_once, sched_upserted.
  - unfold ingest, sw_ingest in H0. destruct (existsb _ _); injection H0 as <- <-;
    (split; [done|]; split; [done|]; split; [done|]); auto.
Qed.

Definition sample_job_scope : GrantScope :=
  mkScope "cap:files" ["read"] None ["workspace:notes/"] private [effect_none] 10
    (mkFrequency 1 (Some 3600000)) None.

Definition sample_job_grant : GrantRecord :=
  mkGrant "grant-1" 1 "owner" "agent" long_term sample_job_scope None "approval-1"
    "2026-01-01T00:00:00.000Z" "2026-02-01T00:00:00.000Z" 3 0 100 0 None None.

Definition sample_sched_world : SchedWorld :=
  mkSchedWorld sample_scheduler (lp_claim lease_a 3600000 sample_leases).2
    (mkWorld (mkStore [] [("grant-1", sample_job_grant)] [] NO_FAILURES) sample_time []) [].

Definition sample_dispatch : DispatchDueInput := mkDispatch (mkFence "lease-a" 1) 10.

Lemma sample_sched_world_inv : sw_inv sample_sched_world.
Proof.
  split; [apply sample_scheduler_inv|]. split; cbn; [apply NoDup_nil_2|apply NoDup_singleton|].
  split; intros k x Hk; cbn in Hk; rewrite map_view_lookup in Hk; cbn in Hk; [done|].
  destruct (String.eqb_spec k "grant-1") as [->|]; [|done]. by injection Hk as <-.
Qed.

Lemma dispatch_triggers_authorized_witness :
  let w' := (dispatchDue sample_dispatch sample_sched_world).2 in
  sw_triggers w' = [occurrenceTrigger sample_job] ∧
  ∃ sent, sw_triggers w' = occurrenceTrigger <$> sent.
Proof.
  intros w'. split; [vm_compute; reflexivity|].
  destruct (dispatch_triggers_authorized sw_jview sw_aview sw_inv sw_triggers sample_dispatch
    sample_sched_world _ w' sample_sched_world_inv (surjective_pairing _)) as (sent & Hs & _).
  exists sent. exact Hs.
Defined.

Lemma dispatch_accounts_witness :
  ∃ result w', dispatchDue sample_dispatch sample_sched_world = (Ok result, w') ∧
    (sr_outcome <$> dr_records result) = [dispatched] ∧
    ∃ jobs, (sr_jobId <$> dr_records result) = (sj_id <$> jobs).
Proof.
  destruct (dispatchDue sample_dispatch sample_sched_world) as [[result|x] w'] eqn:E;
    [|vm_compute in E; discriminate E].
  exists result, w'. split; [reflexivity|]. split; [vm_compute in E; injection E as <- _; reflexivity|].
  destruct (dispatch_accounts sw_jview sw_aview sw_inv sw_triggers sample_dispatch
    sample_sched_world result w' sample_sched_world_inv E) as (jobs & s & _ & _ & _ & Hids & _).
  exists jobs. exact Hids.
Defined.

Definition sample_fence : SchedulerAuthorityFence := mkFence "lease-a" 1.

Lemma version_advances_once_witness :
  ∃ rec w1, dispatch_job sample_fence sample_time sample_job sample_sched_world = (Ok rec, w1) ∧
    sr_outcome rec = dispatched ∧
    ∃ rec' w3, dispatch_job sample_fence sample_time sample_job w1 = (Ok rec', w3) ∧
    (sr_outcome rec' = disabled ∨ sr_reasonCode rec' = "SCHEDULE_ALREADY_ADVANCED").
Proof.
  destruct (dispatch_job sample_fence sample_time sample_job sample_sched_world) as [[rec|x] w1] eqn:E;
    [|vm_compute in E; discriminate E].
  exists rec, w1. split; [reflexivity|].
  split; [vm_compute in E; injection E as <- _; reflexivity|].
  destruct (dispatch_job sample_fence sample_time sample_job w1) as [[rec'|x] w3] eqn:E'.
  2: { vm_compute in E. injection E as _ <-. vm_compute in E'. discriminate E'. }
  exists rec', w3. split; [reflexivity|].
  assert (was_stored sample_job (sw_jview sample_sched_world)) as Hst.
  { exists (sw_jview sample_sched_world). split; [apply sample_scheduler_inv|]. split; [reflexivity|].
    apply rtc_refl. }
  pose proof (proj1 (dispatch_job_log sw_jview sw_aview sw_inv sw_triggers sample_fence sample_time
    sample_job sample_sched_world _ _ sample_sched_world_inv E)) as Hi.
  exact (version_advances_once sw_jview sw_aview sw_inv sw_triggers sample_fence sample_time sample_job
    sample_sched_world rec w1 w1 sample_fence sample_time rec' w3 sample_sched_world_inv Hst E Hi
    (rtc_refl _ _) E').
Defined.

Lemma next_occurrence_spec_witness :
  nextOccurrence sample_job sample_time = Ok (9, "2026-01-01T12:30:00.000Z") ∧
  ∃ n, 1 ≤ n ∧ ∃ s, sj_nextRunAt sample_job = toISOString s.
Proof.
  split; [vm_compute; reflexivity|].
  destruct (next_occurrence_spec sample_job sample_time ltac:(cbn; lia) ltac:(vm_compute; reflexivity)
    ltac:(vm_compute; reflexivity)) as (s & t & n & Hs & _ & Hn & _).
  exists n. split; [exact Hn|]. exists s. exact Hs.
Defined.
