(* ===== verification/Attention.v ===== *)
(** packages/application/src/ports/coordination.ts (attention decisions and
    delivery requests) and their in-memory ports in packages/testing/src/
    in-memory/coordination.ts. *)
From S2P Require Import Prelude Js JsJson Identifiers Contract.
From S2P Require Import AuthTypes Deterministic InMemoryAuth.
Local Open Scope Z_scope.

(** A JavaScript number: a whole number, or one that is not finite. *)
Inductive number := Finite (n : Z) | PositiveInfinity | NegativeInfinity | NotANumber.

#[global] Instance number_eq_dec : EqDecision number.
Proof. solve_decision. Defined.

(** [a < b], with [NaN] below and above nothing. *)
Definition num_lt (a b : number) : bool :=
  match a, b with
  | NotANumber, _ | _, NotANumber => false
  | Finite a, Finite b => a <? b
  | NegativeInfinity, NegativeInfinity | PositiveInfinity, PositiveInfinity => false
  | NegativeInfinity, _ | _, PositiveInfinity => true
  | _, _ => false
  end.

(** [a <= b]: false when either is [NaN]. *)
Definition num_le (a b : number) : bool :=
  match a, b with
  | NotANumber, _ | _, NotANumber => false
  | _, _ => negb (num_lt b a)
  end.

Definition isFinite (a : number) : bool := match a with Finite _ => true | _ => false end.

Inductive DeviceAvailability := available | unavailable | device_unknown.

#[global] Instance DeviceAvailability_eq_dec : EqDecision DeviceAvailability.
Proof. solve_decision. Defined.

Record AttentionCandidate := mkCandidate {
  ac_id : string; ac_ownerId : OwnerId; ac_agentId : AgentId; ac_runId : RunId;
  ac_sessionId : SessionId; ac_threadId : option ThreadId; ac_resultRef : string;
  ac_dataClassification : DataClassification; ac_urgency : number; ac_confidence : number;
  ac_duplicateKey : string; ac_generatedAt : string; ac_deviceState : DeviceAvailability;
  ac_interruptAuthorizationRef : option string }.

Inductive AttentionLevel := SILENT | INBOX | DIGEST | NOTIFY | INTERRUPT.

#[global] Instance AttentionLevel_eq_dec : EqDecision AttentionLevel.
Proof. solve_decision. Defined.

Record AttentionDecision := mkDecision {
  de_candidateId : string; de_level : AttentionLevel; de_reasonCode : string;
  de_interruptAuthorizationRef : option string }.

#[global] Instance AttentionDecision_eq_dec : EqDecision AttentionDecision.
Proof. solve_decision. Defined.

Record AttentionDecisionRecord := mkAttRecord {
  ar_candidateId : string; ar_candidateFingerprint : string; ar_ownerId : OwnerId;
  ar_agentId : AgentId; ar_runId : RunId; ar_duplicateKey : string;
  ar_decision : AttentionDecision; ar_deliveryRequestId : option string; ar_decidedAt : string }.

#[global] Instance AttentionDecisionRecord_eq_dec : EqDecision AttentionDecisionRecord.
Proof. solve_decision. Defined.

Inductive DeliveryStatus := delivery_pending | delivering | delivered.

#[global] Instance DeliveryStatus_eq_dec : EqDecision DeliveryStatus.
Proof. solve_decision. Defined.

Record DeliveryRequest := mkDelivery {
  dq_id : string; dq_revision : Z; dq_candidateId : string; dq_ownerId : OwnerId;
  dq_agentId : AgentId; dq_runId : RunId; dq_resultRef : string;
  dq_dataClassification : DataClassification; dq_level : AttentionLevel;
  dq_status : DeliveryStatus; dq_assignedClientId : option string; dq_attempts : Z;
  dq_acknowledgementRef : option string; dq_lastErrorCode : option string;
  dq_createdAt : string; dq_updatedAt : string }.

#[global] Instance eta_Delivery : Eta DeliveryRequest := λ r,
  mkDelivery (dq_id r) (dq_revision r) (dq_candidateId r) (dq_ownerId r) (dq_agentId r) (dq_runId r)
    (dq_resultRef r) (dq_dataClassification r) (dq_level r) (dq_status r) (dq_assignedClientId r)
    (dq_attempts r) (dq_acknowledgementRef r) (dq_lastErrorCode r) (dq_createdAt r) (dq_updatedAt r).

#[global] Instance DeliveryRequest_eq_dec : EqDecision DeliveryRequest.
Proof. solve_decision. Defined.

Record AttentionPolicyState := mkPolicyState {
  as_revision : Z; as_decisions : list AttentionDecisionRecord }.

(** A [DeliveryRequestWrite] is a request whose revision is not looked at. *)
Record AttentionDecisionCommit := mkCommit {
  co_ownerId : OwnerId; co_agentId : AgentId; co_expectedRevision : Z;
  co_record : AttentionDecisionRecord; co_delivery : option DeliveryRequest }.

Record AttentionDecisionCommitResult := mkCommitResult {
  cr_state : AttentionPolicyState; cr_record : AttentionDecisionRecord;
  cr_delivery : option DeliveryRequest }.

Record DeliveryClaim := mkClaim {
  dc_claimed : bool; dc_request : DeliveryRequest; dc_reasonCode : string }.

Inductive DeliveryOutcome := outcome_delivered | outcome_unavailable | outcome_failed.

#[global] Instance DeliveryOutcome_eq_dec : EqDecision DeliveryOutcome.
Proof. solve_decision. Defined.

Record DeliverySettlement := mkSettlement {
  ds_requestId : string; ds_expectedRevision : Z; ds_clientId : string;
  ds_outcome : DeliveryOutcome; ds_acknowledgementRef : option string;
  ds_errorCode : option string; ds_settledAt : string }.

Class AttentionStatePort (W : Type) := {
  readPolicyState : OwnerId → AgentId → M exn W AttentionPolicyState;
  commitDecision : AttentionDecisionCommit → M exn W AttentionDecisionCommitResult;
  readDelivery : string → M exn W (option DeliveryRequest);
  claimDelivery : string → string → string → M exn W DeliveryClaim;
  settleDelivery : DeliverySettlement → M exn W DeliveryRequest;
}.

Record DeliveryAttempt := mkAttempt { da_request : DeliveryRequest; da_clientId : string }.

Record DeliveryAttemptResult := mkAttemptResult {
  dar_outcome : DeliveryOutcome; dar_acknowledgementRef : option string;
  dar_errorCode : option string }.

Class DeliveryPort (W : Type) := deliver_attempt : DeliveryAttempt → M exn W DeliveryAttemptResult.

(** ** InMemoryAttentionStatePort *)
Record InMemoryAttentionStatePort := mkAttentionState {
  im_policies : jsmap AttentionPolicyState; im_deliveries : jsmap DeliveryRequest;
  im_failures : FailureScheduler }.

#[global] Instance eta_AttentionState : Eta InMemoryAttentionStatePort := λ r,
  mkAttentionState (im_policies r) (im_deliveries r) (im_failures r).

Abbreviation At := (M exn InMemoryAttentionStatePort) (only parsing).

Definition attentionScopeKey (ownerId agentId : string) : string := stringify (JStrs [ownerId; agentId]).
Arguments attentionScopeKey : simpl never.

Definition no_decisions : AttentionPolicyState := mkPolicyState 0 [].

Definition att_checkpoint (point : string) : At unit :=
  zoom im_failures (λ f w, w <| im_failures := f |>) (checkpoint point).

Definition im_readPolicyState (ownerId agentId : string) : At AttentionPolicyState :=
  policies ← gets im_policies;
  mret (frozenCopy (default no_decisions (map_get (attentionScopeKey ownerId agentId) policies))).

(** A decision and its delivery request fit together. *)
Definition deliveryMatches (record : AttentionDecisionRecord) (delivery : option DeliveryRequest) : bool :=
  if de_level (ar_decision record) === SILENT
  then (ar_deliveryRequestId record === None) && (delivery === None)
  else
    match delivery with
    | None => false
    | Some delivery =>
        (ar_deliveryRequestId record === Some (dq_id delivery))
        && (ar_candidateId record === dq_candidateId delivery)
        && (ar_ownerId record === dq_ownerId delivery)
        && (ar_agentId record === dq_agentId delivery)
        && (ar_runId record === dq_runId delivery)
        && (de_level (ar_decision record) === dq_level delivery)
        && (dq_status delivery === delivery_pending)
        && (dq_assignedClientId delivery === None)
        && (dq_attempts delivery =? 0)
    end.

Definition im_commitDecision (input : AttentionDecisionCommit) : At AttentionDecisionCommitResult :=
  att_checkpoint "attention.commitDecision" ;;
  policies ← gets im_policies;
  deliveries ← gets im_deliveries;
  let key := attentionScopeKey (co_ownerId input) (co_agentId input) in
  let current := default no_decisions (map_get key policies) in
  let candidateId := ar_candidateId (co_record input) in
  throwM_if (as_revision current !== co_expectedRevision input)
    (portError CONFLICT "Attention policy state revision conflict"
       [("expectedRevision", numToString (co_expectedRevision input));
        ("currentRevision", numToString (as_revision current))]) ;;
  throwM_if
    ((ar_ownerId (co_record input) !== co_ownerId input)
     || (ar_agentId (co_record input) !== co_agentId input)
     || existsb (λ d, ar_candidateId d === candidateId) (as_decisions current))
    (portError CONFLICT ("Attention decision " +:+ candidateId +:+ " conflicts with current state")
       [("candidateId", candidateId)]) ;;
  throwM_if (negb (deliveryMatches (co_record input) (co_delivery input)))
    (portError INVALID_OPERATION
       ("Attention decision " +:+ candidateId +:+ " does not match its Delivery Request")
       [("candidateId", candidateId)]) ;;
  throwM_if (match co_delivery input with Some d => map_has (dq_id d) deliveries | None => false end)
    (portError CONFLICT
       ("Delivery request " +:+ or_else (dq_id <$> co_delivery input) "" +:+ " already exists")
       [("requestId", or_else (dq_id <$> co_delivery input) "")]) ;;
  let state := frozenCopy
    (mkPolicyState (as_revision current + 1) (as_decisions current ++ [co_record input])) in
  let delivery := (λ d : DeliveryRequest, frozenCopy (d <| dq_revision := 1 |>)) <$> co_delivery input in
  modify (λ w, w <| im_policies := map_set key state (im_policies w) |>) ;;
  match delivery with
  | Some d => modify (λ w, w <| im_deliveries := map_set (dq_id d) d (im_deliveries w) |>)
  | None => mret tt
  end ;;
  mret (frozenCopy (mkCommitResult state (co_record input) delivery)).

Definition im_readDelivery (requestId : string) : At (option DeliveryRequest) :=
  deliveries ← gets im_deliveries;
  mret (frozenCopy <$> map_get requestId deliveries).

Definition delivery_not_found (requestId : string) : exn :=
  portError NOT_FOUND ("Delivery request " +:+ requestId +:+ " not found") [("requestId", requestId)].

Definition claimed_delivery (current : DeliveryRequest) (clientId claimedAt : string) : DeliveryRequest :=
  current <| dq_revision := dq_revision current + 1 |> <| dq_status := delivering |>
    <| dq_assignedClientId := Some clientId |> <| dq_attempts := dq_attempts current + 1 |>
    <| dq_updatedAt := claimedAt |>.

Definition im_claimDelivery (requestId clientId claimedAt : string) : At DeliveryClaim :=
  att_checkpoint "attention.claimDelivery" ;;
  deliveries ← gets im_deliveries;
  match map_get requestId deliveries with
  | None => throw (delivery_not_found requestId)
  | Some current =>
      match dq_status current with
      | delivered => mret (frozenCopy (mkClaim false current "ALREADY_DELIVERED"))
      | delivering => mret (frozenCopy (mkClaim false current "ALREADY_CLAIMED"))
      | delivery_pending =>
          let claimed := frozenCopy (claimed_delivery current clientId claimedAt) in
          modify (λ w, w <| im_deliveries := map_set requestId claimed (im_deliveries w) |>) ;;
          mret (frozenCopy (mkClaim true claimed "CLAIMED"))
      end
  end.

Definition validAcknowledgement (input : DeliverySettlement) : bool :=
  if ds_outcome input === outcome_delivered
  then (ds_acknowledgementRef input !== None) && (ds_errorCode input === None)
  else ds_acknowledgementRef input === None.

(** The request after a settlement. *)
Definition settled_delivery (current : DeliveryRequest) (input : DeliverySettlement) : DeliveryRequest :=
  let done := ds_outcome input === outcome_delivered in
  current <| dq_revision := dq_revision current + 1 |>
    <| dq_status := if done then delivered else delivery_pending |>
    <| dq_assignedClientId := if done then dq_assignedClientId current else None |>
    <| dq_acknowledgementRef := if done then ds_acknowledgementRef input else None |>
    <| dq_lastErrorCode :=
         if done then None else Some (or_else (ds_errorCode input) "DELIVERY_UNAVAILABLE") |>
    <| dq_updatedAt := ds_settledAt input |>.

(** A settlement that the current request refuses. *)
Definition cannot_settle (current : DeliveryRequest) (input : DeliverySettlement) : bool :=
  (dq_status current !== delivering)
  || (dq_revision current !== ds_expectedRevision input)
  || (dq_assignedClientId current !== Some (ds_clientId input))
  || negb (validAcknowledgement input).

Definition im_settleDelivery (input : DeliverySettlement) : At DeliveryRequest :=
  att_checkpoint "attention.settleDelivery" ;;
  deliveries ← gets im_deliveries;
  match map_get (ds_requestId input) deliveries with
  | None => throw (delivery_not_found (ds_requestId input))
  | Some current =>
      throwM_if (cannot_settle current input)
        (portError CONFLICT
           ("Delivery request " +:+ ds_requestId input +:+ " cannot settle from its current state")
           [("requestId", ds_requestId input)]) ;;
      let settled := frozenCopy (settled_delivery current input) in
      modify (λ w, w <| im_deliveries := map_set (ds_requestId input) settled (im_deliveries w) |>) ;;
      mret (frozenCopy settled)
  end.

#[export] Instance im_port : AttentionStatePort InMemoryAttentionStatePort := {|
  readPolicyState := im_readPolicyState;
  commitDecision := im_commitDecision;
  readDelivery := im_readDelivery;
  claimDelivery := im_claimDelivery;
  settleDelivery := im_settleDelivery;
|}.

(** ** DeterministicDeliveryPort: a result per client, and the attempts seen *)
Record DeterministicDeliveryPort := mkDeliveryPort {
  dp_results : jsmap DeliveryAttemptResult; dp_defaultResult : DeliveryAttemptResult;
  dp_attempts : list DeliveryAttempt }.

#[global] Instance eta_DeliveryPort : Eta DeterministicDeliveryPort := λ r,
  mkDeliveryPort (dp_results r) (dp_defaultResult r) (dp_attempts r).

Definition new_delivery_port (results : jsmap DeliveryAttemptResult) : DeterministicDeliveryPort :=
  mkDeliveryPort results (mkAttemptResult outcome_unavailable None (Some "CLIENT_UNAVAILABLE")) [].

Definition dp_deliver (input : DeliveryAttempt) : M exn DeterministicDeliveryPort DeliveryAttemptResult :=
  throwM_if
    ((dq_status (da_request input) !== delivering)
     || (dq_assignedClientId (da_request input) !== Some (da_clientId input)))
    (portError INVALID_OPERATION "Delivery adapter requires a request claimed by the same client"
       [("requestId", dq_id (da_request input)); ("clientId", da_clientId input)]) ;;
  modify (λ w, w <| dp_attempts := dp_attempts w ++ [frozenCopy input] |>) ;;
  results ← gets dp_results;
  defaultResult ← gets dp_defaultResult;
  mret (frozenCopy (default defaultResult (map_get (da_clientId input) results))).

#[export] Instance delivery_port : DeliveryPort DeterministicDeliveryPort := dp_deliver.

(** ** ScriptedAttentionPort *)
Definition scripted_evaluate (decision : AttentionDecision) (candidate : AttentionCandidate)
    : result exn AttentionDecision :=
  throw_if (ac_id candidate !== de_candidateId decision)
    (portError INVALID_OPERATION "Attention decision does not match the candidate"
       [("candidateId", ac_id candidate); ("decisionCandidateId", de_candidateId decision)]) ;;
  throw_if
    ((de_level decision === INTERRUPT)
     && ((de_interruptAuthorizationRef decision === None)
         || (de_interruptAuthorizationRef decision !== ac_interruptAuthorizationRef candidate)))
    (portError INVALID_OPERATION "INTERRUPT requires matching explicit authorization"
       [("candidateId", ac_id candidate)]) ;;
  Ok (frozenCopy decision).
