(* ===== verification/AttentionStore.v ===== *)
(** The contract of [AttentionStatePort]: decisions appended by compare-and-set
    on the policy state of an Owner and Agent, delivery requests that one
    client at a time may claim and settle.  What holds under any interleaving
    of clients, and the refinement by the in-memory port of Attention.v. *)
From S2P Require Import Prelude Js JsJson Identifiers Contract.
From S2P Require Import AuthTypes Deterministic InMemoryAuth Attention.
Local Open Scope Z_scope.

Record att_state := mkAtt {
  at_policies : gmap string AttentionPolicyState;
  at_deliveries : gmap string DeliveryRequest }.

Definition policy_of (ownerId agentId : string) (s : att_state) : AttentionPolicyState :=
  default no_decisions (at_policies s !! attentionScopeKey ownerId agentId).

Definition put_policy (key : string) (p : AttentionPolicyState) (s : att_state) : att_state :=
  mkAtt (<[key := p]> (at_policies s)) (at_deliveries s).

Definition put_delivery (d : DeliveryRequest) (s : att_state) : att_state :=
  mkAtt (at_policies s) (<[dq_id d := d]> (at_deliveries s)).

Definition put_delivery_opt (d : option DeliveryRequest) (s : att_state) : att_state :=
  match d with Some d => put_delivery d s | None => s end.

(** ** The operations' effects *)
Record commit_effect (input : AttentionDecisionCommit) (result : AttentionDecisionCommitResult)
    (s s' : att_state) : Prop := mk_commit_effect {
  ce_revision : as_revision (policy_of (co_ownerId input) (co_agentId input) s) = co_expectedRevision input;
  ce_owner : ar_ownerId (co_record input) = co_ownerId input;
  ce_agent : ar_agentId (co_record input) = co_agentId input;
  ce_new : ∀ r, r ∈ as_decisions (policy_of (co_ownerId input) (co_agentId input) s) →
    ar_candidateId r ≠ ar_candidateId (co_record input);
  ce_matches : deliveryMatches (co_record input) (co_delivery input) = true;
  ce_fresh : ∀ d, co_delivery input = Some d → at_deliveries s !! dq_id d = None;
  ce_result : result = mkCommitResult
    (mkPolicyState (as_revision (policy_of (co_ownerId input) (co_agentId input) s) + 1)
       (as_decisions (policy_of (co_ownerId input) (co_agentId input) s) ++ [co_record input]))
    (co_record input) ((λ d : DeliveryRequest, d <| dq_revision := 1 |>) <$> co_delivery input);
  ce_state : s' = put_delivery_opt (cr_delivery result)
    (put_policy (attentionScopeKey (co_ownerId input) (co_agentId input)) (cr_state result) s);
}.

Definition claim_effect (requestId clientId claimedAt : string) (result : DeliveryClaim)
    (s s' : att_state) : Prop :=
  ∃ current, at_deliveries s !! requestId = Some current ∧
    match dq_status current with
    | delivered => result = mkClaim false current "ALREADY_DELIVERED" ∧ s' = s
    | delivering => result = mkClaim false current "ALREADY_CLAIMED" ∧ s' = s
    | delivery_pending =>
        result = mkClaim true (claimed_delivery current clientId claimedAt) "CLAIMED" ∧
        s' = put_delivery (claimed_delivery current clientId claimedAt) s
    end.

Definition settle_effect (input : DeliverySettlement) (result : DeliveryRequest) (s s' : att_state) : Prop :=
  ∃ current, at_deliveries s !! ds_requestId input = Some current ∧
    cannot_settle current input = false ∧
    result = settled_delivery current input ∧ s' = put_delivery result s.

Inductive att_step (s s' : att_state) : Prop :=
  | att_committed input result : commit_effect input result s s' → att_step s s'
  | att_claimed id client t result : claim_effect id client t result s s' → att_step s s'
  | att_settled input result : settle_effect input result s s' → att_step s s'.

(** ** Invariants *)
Definition delivery_wf (d : DeliveryRequest) : Prop :=
  0 ≤ dq_attempts d ∧
  match dq_status d with
  | delivery_pending => dq_assignedClientId d = None
  | delivering => is_Some (dq_assignedClientId d) ∧ 1 ≤ dq_attempts d
  | delivered => is_Some (dq_assignedClientId d) ∧ 1 ≤ dq_attempts d ∧
      is_Some (dq_acknowledgementRef d) ∧ dq_lastErrorCode d = None
  end.

Record policy_wf (p : AttentionPolicyState) (s : att_state) : Prop := mk_policy_wf {
  pw_revision : as_revision p = Z.of_nat (List.length (as_decisions p));
  pw_once : NoDup (ar_candidateId <$> as_decisions p);
  pw_delivery : ∀ r, r ∈ as_decisions p →
    match ar_deliveryRequestId r with
    | None => de_level (ar_decision r) = SILENT
    | Some id => de_level (ar_decision r) ≠ SILENT ∧ ∃ d, at_deliveries s !! id = Some d ∧
        dq_candidateId d = ar_candidateId r ∧ dq_ownerId d = ar_ownerId r ∧
        dq_agentId d = ar_agentId r ∧ dq_level d = de_level (ar_decision r)
    end;
}.

Record att_wf (s : att_state) : Prop := mk_att_wf {
  aw_delivery : ∀ k d, at_deliveries s !! k = Some d → dq_id d = k ∧ delivery_wf d;
  aw_policy : ∀ k p, at_policies s !! k = Some p → policy_wf p s;
}.

(** ** How one delivery request evolves *)
Record delivery_evolves (d d' : DeliveryRequest) : Prop := mk_delivery_evolves {
  dv_id : dq_id d' = dq_id d;
  dv_candidate : dq_candidateId d' = dq_candidateId d;
  dv_owner : dq_ownerId d' = dq_ownerId d;
  dv_agent : dq_agentId d' = dq_agentId d;
  dv_result : dq_resultRef d' = dq_resultRef d;
  dv_level : dq_level d' = dq_level d;
  dv_attempts : dq_attempts d ≤ dq_attempts d';
  dv_revision : dq_revision d ≤ dq_revision d';
  dv_same : dq_revision d' = dq_revision d → d' = d;
  dv_final : dq_status d = delivered → d' = d;
}.

Lemma delivery_evolves_refl d : delivery_evolves d d.
Proof. by split. Qed.

Lemma delivery_evolves_trans d1 d2 d3 :
  delivery_evolves d1 d2 → delivery_evolves d2 d3 → delivery_evolves d1 d3.
Proof.
  intros [] []. split; try congruence; try lia.
  - intros H. rewrite dv_same1 by lia. apply dv_same0. lia.
  - intros H. rewrite dv_final1; [by apply dv_final0|]. by rewrite dv_final0.
Qed.

Lemma claimed_evolves d client t : dq_status d = delivery_pending → delivery_evolves d (claimed_delivery d client t).
Proof. intros H. split; cbn; try done; try lia. congruence. Qed.

Lemma cannot_settle_false d input : cannot_settle d input = false →
  dq_status d = delivering ∧ dq_revision d = ds_expectedRevision input ∧
  dq_assignedClientId d = Some (ds_clientId input) ∧ validAcknowledgement input = true.
Proof. unfold cannot_settle. rewrite !orb_false_iff, !negb_false_iff, !bool_decide_eq_true. naive_solver. Qed.

Lemma settled_evolves d input : cannot_settle d input = false → delivery_evolves d (settled_delivery d input).
Proof.
  intros (Hs & _ & _ & _)%cannot_settle_false. split; cbn; try done; try lia. congruence.
Qed.

Lemma claimed_wf d client t : delivery_wf d → delivery_wf (claimed_delivery d client t).
Proof. intros [Ha _]. split; cbn; [lia|]. split; [done|lia]. Qed.

Lemma settled_wf d input : cannot_settle d input = false → delivery_wf d → delivery_wf (settled_delivery d input).
Proof.
  intros (Hs & _ & Hc & Hv)%cannot_settle_false [Ha Hd]. rewrite Hs in Hd. destruct Hd as [Hd Ha1].
  unfold validAcknowledgement in Hv. split; [done|]. unfold settled_delivery. cbn.
  destruct (ds_outcome input === outcome_delivered); [|done].
  apply andb_true_iff in Hv as [Hv _]. guards_in Hv.
  split; [done|]. split; [done|]. split; [|done]. destruct (ds_acknowledgementRef input); done.
Qed.

Lemma put_delivery_opt_lookup o s k d :
  at_deliveries s !! k = Some d → (∀ n, o = Some n → at_deliveries s !! dq_id n = None) →
  at_deliveries (put_delivery_opt o s) !! k = Some d.
Proof.
  intros Hk Hn. destruct o as [n|]; [|done]. cbn. rewrite lookup_insert_ne; [done|].
  intros Heq. specialize (Hn n eq_refl). congruence.
Qed.

Lemma put_delivery_opt_policies o s : at_policies (put_delivery_opt o s) = at_policies s.
Proof. by destruct o. Qed.

Lemma delivery_step s s' k d :
  att_wf s → att_step s s' → at_deliveries s !! k = Some d →
  ∃ d', at_deliveries s' !! k = Some d' ∧ delivery_evolves d d'.
Proof.
  intros Hwf [input result H|id client t result (c & Hc & H)|input result (c & Hc & Hs & -> & ->)] Hk.
  - exists d. split; [|apply delivery_evolves_refl]. rewrite (ce_state _ _ _ _ H).
    apply put_delivery_opt_lookup; [done|]. intros n. rewrite (ce_result _ _ _ _ H). cbn.
    intros (d0 & Hd0 & ->)%fmap_Some. exact (ce_fresh _ _ _ _ H _ Hd0).
  - destruct (dq_status c) eqn:E; destruct H as [-> ->];
      [|by exists d; split; [|apply delivery_evolves_refl]..].
    destruct (aw_delivery _ Hwf _ _ Hc) as [Hid _]. unfold put_delivery. cbn. rewrite Hid.
    destruct (decide (id = k)) as [Heq|Hne].
    + subst k. rewrite lookup_insert_eq. eexists. split; [done|]. rewrite Hc in Hk.
      injection Hk as <-. by apply claimed_evolves.
    + rewrite lookup_insert_ne by done. exists d. split; [done|apply delivery_evolves_refl].
  - destruct (aw_delivery _ Hwf _ _ Hc) as [Hid _]. unfold put_delivery. cbn. rewrite Hid.
    destruct (decide (ds_requestId input = k)) as [Heq|Hne].
    + rewrite Heq, lookup_insert_eq. eexists. split; [done|]. rewrite Heq, Hk in Hc.
      injection Hc as <-. by apply settled_evolves.
    + rewrite lookup_insert_ne by done. exists d. split; [done|apply delivery_evolves_refl].
Qed.

(** ** Policies *)
Lemma policy_wf_of o a s : att_wf s → policy_wf (policy_of o a s) s.
Proof.
  intros Hwf. unfold policy_of. destruct (at_policies s !! _) as [p|] eqn:E; cbn.
  - by eapply aw_policy.
  - split; [done|constructor|]. by intros r ?%not_elem_of_nil.
Qed.

Lemma policy_wf_mono p s s' :
  (∀ k d, at_deliveries s !! k = Some d → ∃ d', at_deliveries s' !! k = Some d' ∧ delivery_evolves d d') →
  policy_wf p s → policy_wf p s'.
Proof.
  intros Hd [Hr Hn Hp]. split; [done..|]. intros r Hin. specialize (Hp r Hin).
  destruct (ar_deliveryRequestId r) as [id|]; [|done].
  destruct Hp as (Hl & d & Hk & ? & ? & ? & ?). split; [done|].
  destruct (Hd _ _ Hk) as (d' & Hk' & []). exists d'. split; [done|]. repeat split; congruence.
Qed.

Lemma matches_silent record delivery : deliveryMatches record delivery = true →
  match ar_deliveryRequestId record with
  | None => de_level (ar_decision record) = SILENT ∧ delivery = None
  | Some id => de_level (ar_decision record) ≠ SILENT ∧ ∃ d, delivery = Some d ∧ dq_id d = id ∧
      dq_candidateId d = ar_candidateId record ∧ dq_ownerId d = ar_ownerId record ∧
      dq_agentId d = ar_agentId record ∧ dq_level d = de_level (ar_decision record) ∧
      dq_status d = delivery_pending ∧ dq_assignedClientId d = None ∧ dq_attempts d = 0
  end.
Proof.
  unfold deliveryMatches. destruct (_ === SILENT) eqn:E; guards_in E.
  - intros [H1 H2]%andb_true_iff. guards_in H1. guards_in H2. by rewrite H1.
  - destruct delivery as [d|]; [|done]. rewrite !andb_true_iff, !bool_decide_eq_true, Z.eqb_eq.
    intros H. destruct_and!. destruct (ar_deliveryRequestId record) as [id|]; [|done]. simplify_eq.
    split; [done|]. exists d. by repeat split.
Qed.

Lemma policy_step s s' o a :
  att_step s s' → ∃ added, as_decisions (policy_of o a s') = as_decisions (policy_of o a s) ++ added ∧
    as_revision (policy_of o a s') = as_revision (policy_of o a s) + Z.of_nat (List.length added).
Proof.
  intros [input result H|id client t result (c & Hc & H)|input result (c & Hc & Hs & -> & ->)].
  - rewrite (ce_state _ _ _ _ H). unfold policy_of. rewrite put_delivery_opt_policies.
    rewrite (ce_result _ _ _ _ H). unfold policy_of. cbn.
    destruct (decide (attentionScopeKey (co_ownerId input) (co_agentId input) = attentionScopeKey o a))
      as [Heq|Hne].
    + rewrite Heq, lookup_insert_eq. by exists [co_record input].
    + rewrite lookup_insert_ne by done. exists []. rewrite app_nil_r. cbn. split; [done|]. lia.
  - exists []. rewrite app_nil_r. cbn. destruct (dq_status c); destruct H as [_ ->];
      (split; [done|unfold policy_of; cbn; lia]).
  - exists []. rewrite app_nil_r. split; [done|]. unfold policy_of. cbn. lia.
Qed.

Lemma commit_wf input result s s' : commit_effect input result s s' → att_wf s → att_wf s'.
Proof.
  intros H Hwf. pose proof (delivery_step s s') as Hmono.
  assert (att_step s s') as Hstep by by eapply att_committed.
  pose proof (policy_wf_of (co_ownerId input) (co_agentId input) s Hwf) as [Hr Hn Hp].
  destruct H as [Hrev Ho Ha Hnew Hm Hf -> ->]. cbn [cr_state cr_delivery] in *.
  pose proof (matches_silent _ _ Hm) as Hms.
  split.
  - intros k d Hk. destruct (co_delivery input) as [d0|] eqn:Hd; cbn in Hk.
    + apply lookup_insert_Some in Hk as [[<- <-]|[_ Hk]]; [|by eapply aw_delivery].
      split; [done|]. destruct (ar_deliveryRequestId _); [|by destruct Hms].
      destruct Hms as (_ & d & [= <-] & _ & _ & _ & _ & _ & Hst & Has & Hat).
      split; cbn; [lia|]. by rewrite Hst.
    + by eapply aw_delivery.
  - intros k p Hk. rewrite put_delivery_opt_policies in Hk. cbn in Hk.
    apply lookup_insert_Some in Hk as [[<- <-]|[_ Hk]].
    2: { eapply policy_wf_mono; [|by eapply aw_policy]. intros k' d'. by apply Hmono. }
    split; cbn.
    + rewrite length_app, Hr. cbn. lia.
    + rewrite fmap_app. apply NoDup_app. split; [done|]. split; [|apply NoDup_singleton].
      intros x (r & -> & Hin)%list_elem_of_fmap Hx%list_elem_of_singleton. by apply (Hnew r).
    + intros r [Hin|Heq%list_elem_of_singleton]%elem_of_app; [|subst r].
      * specialize (Hp r Hin). destruct (ar_deliveryRequestId r) as [id|]; [|done].
        destruct Hp as (Hl & d & Hk & Hrest). split; [done|]. exists d. split; [|done].
        apply put_delivery_opt_lookup; [done|]. intros n (d0 & Hd0 & ->)%fmap_Some. exact (Hf _ Hd0).
      * destruct (ar_deliveryRequestId _) as [id|]; [|apply Hms].
        destruct Hms as (Hl & d & -> & <- & ? & ? & ? & ? & _). split; [done|]. cbn.
        rewrite lookup_insert_eq. eexists. split; [done|]. by repeat split.
Qed.

Lemma put_delivery_wf s d d' :
  att_wf s → at_deliveries s !! dq_id d' = Some d → delivery_wf d' → att_step s (put_delivery d' s) →
  att_wf (put_delivery d' s).
Proof.
  intros Hwf Hk Hd Hstep. split; cbn.
  - intros k x [[<- <-]|[_ Hx]]%lookup_insert_Some; [done|]. by eapply aw_delivery.
  - intros k p Hp. eapply policy_wf_mono; [|by eapply aw_policy]. intros k' x. by apply delivery_step.
Qed.

Lemma att_step_wf s s' : att_step s s' → att_wf s → att_wf s'.
Proof.
  intros Hstep Hwf. pose proof Hstep as Hstep'.
  destruct Hstep as [input result H|id client t result (c & Hc & H)|input result (c & Hc & Hs & -> & ->)].
  - by eapply commit_wf.
  - destruct (aw_delivery _ Hwf _ _ Hc) as [Hid Hd].
    destruct (dq_status c); destruct H as [-> ->]; [|done..].
    apply (put_delivery_wf s c); [done|cbn; by rewrite Hid|by apply claimed_wf|done].
  - destruct (aw_delivery _ Hwf _ _ Hc) as [Hid Hd].
    apply (put_delivery_wf s c); [done|cbn; by rewrite Hid|by apply settled_wf|done].
Qed.

(** ** Any number of steps *)
Lemma att_steps_wf s s' : rtc att_step s s' → att_wf s → att_wf s'.
Proof. induction 1; eauto using att_step_wf. Qed.

Lemma delivery_steps s s' k d :
  att_wf s → rtc att_step s s' → at_deliveries s !! k = Some d →
  ∃ d', at_deliveries s' !! k = Some d' ∧ delivery_evolves d d'.
Proof.
  intros Hwf H. revert Hwf d. induction H as [|s s1 s2 Hs _ IH]; intros Hwf d Hk.
  { exists d. split; [done|apply delivery_evolves_refl]. }
  destruct (delivery_step _ _ _ _ Hwf Hs Hk) as (d1 & Hk1 & He1).
  destruct (IH (att_step_wf _ _ Hs Hwf) _ Hk1) as (d2 & Hk2 & He2).
  exists d2. split; [done|]. by eapply delivery_evolves_trans.
Qed.

Lemma policy_steps s s' o a : rtc att_step s s' →
  ∃ added, as_decisions (policy_of o a s') = as_decisions (policy_of o a s) ++ added ∧
    as_revision (policy_of o a s') = as_revision (policy_of o a s) + Z.of_nat (List.length added).
Proof.
  induction 1 as [s|s s1 s2 Hs _ (l2 & H2 & R2)].
  - exists []. rewrite app_nil_r. split; [done|]. cbn. lia.
  - destruct (policy_step _ _ o a Hs) as (l1 & H1 & R1). exists (l1 ++ l2).
    rewrite H2, H1, app_assoc. split; [done|]. rewrite length_app. lia.
Qed.

Lemma policy_same_revision s s' o a : rtc att_step s s' →
  as_revision (policy_of o a s') = as_revision (policy_of o a s) →
  as_decisions (policy_of o a s') = as_decisions (policy_of o a s).
Proof.
  intros H R. destruct (policy_steps _ _ o a H) as (l & Hl & Hr).
  assert (List.length l = O) as Hz by lia. apply nil_length_inv in Hz. subst l.
  by rewrite app_nil_r in Hl.
Qed.

(** ** The laws of a port *)
Class AttentionLaws (W : Type) `{!AttentionStatePort W} (view : W → att_state) (inv : W → Prop) : Prop := {
  law_att_wf : ∀ w, inv w → att_wf (view w);
  law_readPolicyState : ∀ o a,
    gen_op_law att_step view inv (gen_reads (λ p s, p = policy_of o a s)) (readPolicyState o a);
  law_commitDecision : ∀ input, gen_op_law att_step view inv (commit_effect input) (commitDecision input);
  law_readDelivery : ∀ id,
    gen_op_law att_step view inv (gen_reads (λ o s, o = at_deliveries s !! id)) (readDelivery id);
  law_claimDelivery : ∀ id client t,
    gen_op_law att_step view inv (claim_effect id client t) (claimDelivery id client t);
  law_settleDelivery : ∀ input,
    gen_op_law att_step view inv (settle_effect input) (settleDelivery input);
}.

(** ** The in-memory port *)
Definition new_attention_state (failures : FailureScheduler) : InMemoryAttentionStatePort :=
  mkAttentionState [] [] failures.

Definition im_view (w : InMemoryAttentionStatePort) : att_state :=
  mkAtt (map_view (im_policies w)) (map_view (im_deliveries w)).

Definition im_inv (w : InMemoryAttentionStatePort) : Prop := att_wf (im_view w).

Lemma im_policy_of o a w :
  policy_of o a (im_view w) = default no_decisions (map_get (attentionScopeKey o a) (im_policies w)).
Proof. unfold policy_of. cbn. by rewrite map_view_lookup. Qed.

Lemma im_law {A} (effect : A → att_state → att_state → Prop) (body : M exn InMemoryAttentionStatePort A) point :
  (∀ a s s', effect a s s' → att_step s s') →
  (∀ w r w', im_inv w → body w = (r, w') →
     match r with Ok a => effect a (im_view w) (im_view w') | Err _ => w' = w end) →
  gen_op_law att_step im_view im_inv effect (att_checkpoint point ;; body).
Proof.
  intros Heff Hbody. apply checkpoint_law; [done|].
  intros w r w' Hinv H. specialize (Hbody w r w' Hinv H). destruct r as [a|x]; [|done].
  split; [|done]. eapply att_step_wf; [by eapply Heff|done].
Qed.

Lemma im_read_law o a :
  gen_op_law att_step im_view im_inv (gen_reads (λ p s, p = policy_of o a s)) (im_readPolicyState o a).
Proof.
  intros w r w' Hi H. mem_unfold H. injection H as <- <-. split; [done|].
  exists (im_view w). split; [done|]. split; [|done]. by rewrite im_policy_of.
Qed.

Lemma im_readDelivery_law id :
  gen_op_law att_step im_view im_inv (gen_reads (λ o s, o = at_deliveries s !! id)) (im_readDelivery id).
Proof.
  intros w r w' Hi H. mem_unfold H. injection H as <- <-. split; [done|].
  exists (im_view w). split; [done|]. split; [|done]. cbn. rewrite map_view_lookup. by destruct (map_get _ _).
Qed.

Lemma im_commit_law input :
  gen_op_law att_step im_view im_inv (commit_effect input) (im_commitDecision input).
Proof.
  apply im_law; [intros a s s' He; by eapply att_committed|].
  intros w r w' Hi H. mem_unfold H. rewrite <-im_policy_of in H.
  do 4 mem_guard H. guards_in E. apply orb_false_iff in E0 as [E0 E3].
  apply orb_false_iff in E0 as [E0 E4]. guards_in E0. guards_in E4. rewrite existsb_false in E3.
  apply negb_false_iff in E1.
  destruct (co_delivery input) as [d|] eqn:Hd; injection H as <- <-; split; rewrite ?Hd; try done.
  - intros r Hr. apply E3 in Hr. by apply bool_decide_eq_false in Hr.
  - intros d' [= <-]. cbn. by apply map_has_false.
  - unfold im_view, put_policy, put_delivery. cbn. by rewrite !map_view_set.
  - intros r Hr. apply E3 in Hr. by apply bool_decide_eq_false in Hr.
  - unfold im_view, put_policy. cbn. by rewrite !map_view_set.
Qed.

Lemma im_claim_law id client t :
  gen_op_law att_step im_view im_inv (claim_effect id client t) (im_claimDelivery id client t).
Proof.
  apply im_law; [intros a s s' He; by eapply att_claimed|].
  intros w r w' Hi H. mem_unfold H. destruct (map_get _ _) as [c|] eqn:Hc; [|by injection H as <- <-].
  rewrite <-map_view_lookup in Hc. destruct (aw_delivery _ Hi _ _ Hc) as [Hid _].
  unfold claim_effect.
  destruct (dq_status c) eqn:Hs; injection H as <- <-; exists c; rewrite Hs; split; try done.
  split; [done|]. unfold im_view, put_delivery. cbn. by rewrite map_view_set, Hid.
Qed.

Lemma im_settle_law input :
  gen_op_law att_step im_view im_inv (settle_effect input) (im_settleDelivery input).
Proof.
  apply im_law; [intros a s s' He; by eapply att_settled|].
  intros w r w' Hi H. mem_unfold H. destruct (map_get _ _) as [c|] eqn:Hc; [|by injection H as <- <-].
  rewrite <-map_view_lookup in Hc. destruct (aw_delivery _ Hi _ _ Hc) as [Hid _].
  mem_guard H. injection H as <- <-. exists c. split; [done|]. split; [done|]. split; [done|].
  unfold im_view, put_delivery. cbn. by rewrite map_view_set, Hid.
Qed.

#[export] Instance im_laws : AttentionLaws InMemoryAttentionStatePort im_view im_inv.
Proof.
  constructor; cbn.
  - done.
  - apply im_read_law.
  - apply im_commit_law.
  - apply im_readDelivery_law.
  - apply im_claim_law.
  - apply im_settle_law.
Qed.

Lemma im_inv_new failures : im_inv (new_attention_state failures).
Proof. split; intros k x Hk; cbn in Hk; by rewrite map_view_lookup in Hk. Qed.

(** The in-memory attention state refines the contract: from the empty
    object on, every operation fails without changing a decision or delivery,
    or has exactly its atomic effect; and every state reached by operations of
    any clients is well formed: a policy's revision counts its decisions, no
    candidate is decided twice, every decision but a silent one has its stored
    delivery request, and a request has a client exactly when it is claimed or
    delivered, and an acknowledgement when it is delivered. *)
Theorem in_memory_attention_refines failures :
  im_inv (new_attention_state failures) ∧
  (∀ s s', att_wf s → rtc att_step s s' → att_wf s') ∧
  (∀ o a, gen_op_law att_step im_view im_inv (gen_reads (λ p s, p = policy_of o a s)) (im_readPolicyState o a)) ∧
  (∀ input, gen_op_law att_step im_view im_inv (commit_effect input) (im_commitDecision input)) ∧
  (∀ id, gen_op_law att_step im_view im_inv (gen_reads (λ o s, o = at_deliveries s !! id)) (im_readDelivery id)) ∧
  (∀ id client t, gen_op_law att_step im_view im_inv (claim_effect id client t) (im_claimDelivery id client t)) ∧
  (∀ input, gen_op_law att_step im_view im_inv (settle_effect input) (im_settleDelivery input)).
Proof.
  split; [apply im_inv_new|]. split; [eauto using att_steps_wf|]. split; [apply im_read_law|].
  split; [apply im_commit_law|]. split; [apply im_readDelivery_law|].
  split; [apply im_claim_law|apply im_settle_law].
Qed.

(** ** Claimed requests *)
Definition settled_by (k : string) (d : DeliveryRequest) (s s' : att_state) : Prop :=
  ∃ s1 s2 input result, rtc att_step s s1 ∧ settle_effect input result s1 s2 ∧ rtc att_step s2 s' ∧
    ds_requestId input = k ∧ dq_assignedClientId d = Some (ds_clientId input) ∧
    ds_expectedRevision input = dq_revision d.

Lemma delivering_step s s' k d :
  att_wf s → att_step s s' → at_deliveries s !! k = Some d → dq_status d = delivering →
  at_deliveries s' !! k = Some d ∨ settled_by k d s s'.
Proof.
  intros Hwf [input result H|id client t result (c & Hc & H)|input result (c & Hc & Hs & Hres & Hs')] Hk Hd.
  - left. rewrite (ce_state _ _ _ _ H). apply put_delivery_opt_lookup; [done|]. intros n.
    rewrite (ce_result _ _ _ _ H). cbn. intros (d0 & Hd0 & ->)%fmap_Some. exact (ce_fresh _ _ _ _ H _ Hd0).
  - left. destruct (dq_status c) eqn:E; destruct H as [-> ->]; [|done..].
    destruct (aw_delivery _ Hwf _ _ Hc) as [Hid _]. unfold put_delivery. cbn. rewrite Hid.
    rewrite lookup_insert_ne; [done|]. intros ->. congruence.
  - destruct (decide (ds_requestId input = k)) as [Heq|Hne].
    + right. rewrite Heq, Hk in Hc. injection Hc as <-. exists s, s', input, result.
      pose proof (cannot_settle_false _ _ Hs) as (_ & Hr & Ha & _). split; [done|].
      split; [|done]. exists d. by rewrite Heq.
    + left. destruct (aw_delivery _ Hwf _ _ Hc) as [Hid _]. subst result s'. unfold put_delivery. cbn.
      by rewrite Hid, lookup_insert_ne.
Qed.

(** The life of a delivery request under any interleaving of clients: it
    stays stored with its candidate, Owner, Agent, result and level; its
    revision and its attempts never decrease and a record is determined by its
    revision; once delivered it never changes; and while one client has
    claimed it, it changes only after a settlement by that very client for
    that very claim. *)
Theorem delivery_lifecycle s s' k d :
  att_wf s → rtc att_step s s' → at_deliveries s !! k = Some d →
  ∃ d', at_deliveries s' !! k = Some d' ∧ delivery_wf d' ∧ delivery_evolves d d' ∧
    (dq_status d = delivered → d' = d) ∧
    (dq_status d = delivering → d' = d ∨ settled_by k d s s').
Proof.
  intros Hwf Hs Hk. destruct (delivery_steps _ _ _ _ Hwf Hs Hk) as (d' & Hk' & He).
  exists d'. split; [done|]. split; [by eapply aw_delivery, Hk'; eapply att_steps_wf|].
  split; [done|]. split; [apply He|]. intros Hd. revert Hwf Hk Hk'. clear He.
  induction Hs as [|s s1 s2 Hs Hss IH]; intros Hwf Hk Hk'.
  { left. congruence. }
  destruct (delivering_step _ _ _ _ Hwf Hs Hk Hd) as [Hk1|(a & b & i & r & H1 & H2 & H3 & H)].
  - destruct (IH (att_step_wf _ _ Hs Hwf) Hk1 Hk') as [->|(a & b & i & r & H1 & H)]; [by left|right].
    exists a, b, i, r. split; [by eapply rtc_l|done].
  - right. exists a, b, i, r. split; [done|]. split; [done|]. split; [by etrans|done].
Qed.

(** ** Concrete inputs *)
Definition sample_delivery : DeliveryRequest :=
  mkDelivery "delivery:owner:agent:candidate-1" 2 "candidate-1" "owner" "agent" "run-1" "result-1" private
    NOTIFY delivering (Some "client-1") 1 None None "2026-01-01T12:00:00.000Z" "2026-01-01T12:00:01.000Z".

Definition sample_attention : InMemoryAttentionStatePort :=
  mkAttentionState [] [("delivery:owner:agent:candidate-1", sample_delivery)] NO_FAILURES.

Lemma sample_attention_inv : im_inv sample_attention.
Proof.
  split; intros k x Hk; cbn in Hk; rewrite map_view_lookup in Hk; [|done]. cbn in Hk.
  destruct (String.eqb_spec k "delivery:owner:agent:candidate-1") as [->|]; [|done].
  injection Hk as <-. split; [done|]. split; [done|]. by split.
Qed.

Definition sample_settlement : DeliverySettlement :=
  mkSettlement "delivery:owner:agent:candidate-1" 2 "client-1" outcome_delivered (Some "ack-1") None
    "2026-01-01T12:00:02.000Z".

Lemma delivery_lifecycle_witness :
  ∃ d', at_deliveries (im_view (im_settleDelivery sample_settlement sample_attention).2)
    !! "delivery:owner:agent:candidate-1" = Some d' ∧ dq_status d' = delivered.
Proof.
  assert (rtc att_step (im_view sample_attention)
    (im_view (im_settleDelivery sample_settlement sample_attention).2)) as Hs.
  { eapply (op_law_frame att_step im_view im_inv _ _
      (λ a s s' He, rtc_once _ _ (att_settled _ _ sample_settlement a He))
      (im_settle_law sample_settlement) sample_attention _ _ sample_attention_inv
      (surjective_pairing _)). }
  destruct (delivery_lifecycle _ _ "delivery:owner:agent:candidate-1" sample_delivery
    sample_attention_inv Hs eq_refl) as (d' & Hd & _).
  exists d'. split; [exact Hd|]. vm_compute in Hd. injection Hd as <-. reflexivity.
Defined.
