(* ===== verification/AttentionPolicy.v ===== *)
(** packages/application/src/services/attention-policy-service.ts:
    [AttentionPolicyService], which decides how much attention a result gets
    and hands its delivery to a client. *)
From S2P Require Import Prelude Js JsDate JsJson Identifiers Contract.
From S2P Require Import AuthTypes Deterministic InMemoryAuth Attention AttentionStore.
Local Open Scope Z_scope.

Record QuietHours := mkQuiet { qh_startMinute : Z; qh_endMinute : Z; qh_utcOffsetMinutes : Z }.

Record AttentionPolicyConfig := mkConfig {
  pc_duplicateWindowMs : Z; pc_rateLimitWindowMs : Z; pc_maxImmediateDeliveries : Z;
  pc_quietHours : option QuietHours; pc_authorizedInterruptRefs : list string }.

Record AttentionEvaluationResult := mkEvaluation {
  ev_record : AttentionDecisionRecord; ev_delivery : option DeliveryRequest; ev_replayed : bool }.

Inductive DeliverOutcome := deliver_delivered | deliver_pending | deliver_duplicate.

Record AttentionDeliveryResult := mkDeliveryResult {
  ad_request : DeliveryRequest; ad_outcome : DeliverOutcome; ad_reasonCode : string }.

Definition device_name (d : DeviceAvailability) : string :=
  match d with
  | available => "available" | unavailable => "unavailable" | device_unknown => "unknown"
  end.

(** [JSON.stringify] writes a number that is not finite as [null]. *)
Definition JNumber (n : number) : json := match n with Finite n => JNum n | _ => JNull end.

Definition candidate_fields (candidate : AttentionCandidate) : list json :=
  [JStr (ac_id candidate); JStr (ac_ownerId candidate); JStr (ac_agentId candidate);
   JStr (ac_runId candidate); JStr (ac_sessionId candidate); JOptStr (ac_threadId candidate);
   JStr (ac_resultRef candidate); JStr (classification_name (ac_dataClassification candidate));
   JNumber (ac_urgency candidate); JNumber (ac_confidence candidate);
   JStr (ac_duplicateKey candidate); JStr (ac_generatedAt candidate);
   JStr (device_name (ac_deviceState candidate)); JOptStr (ac_interruptAuthorizationRef candidate)].

Definition candidateFingerprint (candidate : AttentionCandidate) : string :=
  stringify (JArr (candidate_fields candidate)).
Arguments candidateFingerprint : simpl never.

(** An invalid [nowMs] is [None]: every comparison with it is false. *)
Definition withinWindow (timestamp : string) (nowMs : option Z) (windowMs : Z) : bool :=
  match dateParse timestamp, nowMs with
  | Some value, Some nowMs => (nowMs - windowMs <=? value) && (value <=? nowMs)
  | _, _ => false
  end.

(** [new Date(t)]: a time value out of range is [NaN]. *)
Definition timeClip (t : Z) : option Z := if MAX_TIME <? Z.abs t then None else Some t.

Definition minuteOfDay (now : string) (utcOffsetMinutes : Z) : option Z :=
  t ← dateParse now;
  t ← timeClip (t + utcOffsetMinutes * 60000);
  Some (hour t * 60 + minute t).

Definition isQuietHours (now : string) (policy : AttentionPolicyConfig) : bool :=
  match pc_quietHours policy with
  | None => false
  | Some (mkQuiet startMinute endMinute utcOffsetMinutes) =>
      if startMinute =? endMinute then true
      else
        match minuteOfDay now utcOffsetMinutes with
        | None => false
        | Some minute =>
            if startMinute <? endMinute then (startMinute <=? minute) && (minute <? endMinute)
            else (startMinute <=? minute) || (minute <? endMinute)
        end
  end.

Definition assertCandidate (candidate : AttentionCandidate) : result exn unit :=
  throw_if
    (negb (isFinite (ac_urgency candidate))
     || num_lt (ac_urgency candidate) (Finite 0) || num_lt (Finite 100) (ac_urgency candidate)
     || negb (isFinite (ac_confidence candidate))
     || num_lt (ac_confidence candidate) (Finite 0) || num_lt (Finite 100) (ac_confidence candidate)
     || negb (isCanonicalTimestamp (ac_generatedAt candidate)))
    (portError INVALID_OPERATION ("Attention candidate " +:+ ac_id candidate +:+ " is invalid")
       [("candidateId", ac_id candidate)]).

Definition assertPolicy (policy : AttentionPolicyConfig) : result exn unit :=
  let nonNegative := forallb (λ value, isSafeInteger value && (0 <=? value))
    [pc_duplicateWindowMs policy; pc_rateLimitWindowMs policy; pc_maxImmediateDeliveries policy] in
  let quietValid :=
    match pc_quietHours policy with
    | None => true
    | Some (mkQuiet startMinute endMinute utcOffsetMinutes) =>
        isSafeInteger startMinute && (0 <=? startMinute) && (startMinute <? 1440)
        && isSafeInteger endMinute && (0 <=? endMinute) && (endMinute <? 1440)
        && isSafeInteger utcOffsetMinutes && (-840 <=? utcOffsetMinutes)
        && (utcOffsetMinutes <=? 840)
    end in
  throw_if (negb nonNegative || negb quietValid)
    (portError INVALID_OPERATION "Attention policy configuration is invalid" []).

Definition isImmediate (level : AttentionLevel) : bool := (level === NOTIFY) || (level === INTERRUPT).

(** The decisions that delivered at once inside the rate-limit window. *)
Definition recentImmediate (decisions : list AttentionDecisionRecord) (nowMs : option Z) (windowMs : Z) : Z :=
  Z.of_nat (List.length (List.filter
    (λ r, isImmediate (de_level (ar_decision r)) && withinWindow (ar_decidedAt r) nowMs windowMs)
    decisions)).

Definition interruptAuthorized (candidate : AttentionCandidate) (policy : AttentionPolicyConfig) : bool :=
  num_le (Finite 90) (ac_urgency candidate)
  && num_le (Finite 85) (ac_confidence candidate)
  && match ac_interruptAuthorizationRef candidate with
     | Some ref => includes ref (pc_authorizedInterruptRefs policy)
     | None => false
     end.

Definition baseDecision (candidate : AttentionCandidate) (state : AttentionPolicyState) (now : string)
    (policy : AttentionPolicyConfig) : AttentionDecision :=
  let nowMs := dateParse now in
  let plain level reasonCode := mkDecision (ac_id candidate) level reasonCode None in
  if existsb (λ r, (ar_duplicateKey r === ac_duplicateKey candidate)
                   && withinWindow (ar_decidedAt r) nowMs (pc_duplicateWindowMs policy))
       (as_decisions state)
  then plain SILENT "duplicate_result"
  else if num_lt (ac_urgency candidate) (Finite 20) || num_lt (ac_confidence candidate) (Finite 20)
  then plain SILENT "low_signal"
  else if num_lt (ac_urgency candidate) (Finite 40) || num_lt (ac_confidence candidate) (Finite 50)
  then plain INBOX "passive_result"
  else if num_lt (ac_urgency candidate) (Finite 70) || num_lt (ac_confidence candidate) (Finite 70)
  then plain DIGEST "digest_result"
  else
    let decision :=
      if interruptAuthorized candidate policy
      then mkDecision (ac_id candidate) INTERRUPT "authorized_urgent_result"
             (ac_interruptAuthorizationRef candidate)
      else plain NOTIFY "notifiable_result" in
    if pc_maxImmediateDeliveries policy
         <=? recentImmediate (as_decisions state) nowMs (pc_rateLimitWindowMs policy)
    then plain DIGEST "rate_limited"
    else if ac_deviceState candidate === unavailable then plain INBOX "client_unavailable"
    else if (de_level decision === NOTIFY) && isQuietHours now policy
    then plain DIGEST "quiet_hours"
    else decision.

Definition deliveryIdOf (candidate : AttentionCandidate) : string :=
  "delivery:" +:+ ac_ownerId candidate +:+ ":" +:+ ac_agentId candidate +:+ ":" +:+ ac_id candidate.

(** The commit that [evaluate] asks for, from the state it read. *)
Definition decisionCommit (candidate : AttentionCandidate) (state : AttentionPolicyState) (now : string)
    (policy : AttentionPolicyConfig) : AttentionDecisionCommit :=
  let decision := baseDecision candidate state now policy in
  let deliveryId := if de_level decision === SILENT then None else Some (deliveryIdOf candidate) in
  let record := mkAttRecord (ac_id candidate) (candidateFingerprint candidate) (ac_ownerId candidate)
    (ac_agentId candidate) (ac_runId candidate) (ac_duplicateKey candidate) decision deliveryId now in
  let delivery := (λ id, mkDelivery id 0 (ac_id candidate) (ac_ownerId candidate) (ac_agentId candidate)
    (ac_runId candidate) (ac_resultRef candidate) (ac_dataClassification candidate) (de_level decision)
    delivery_pending None 0 None None now now) <$> deliveryId in
  mkCommit (ac_ownerId candidate) (ac_agentId candidate) (as_revision state) record delivery.

Section service.
Context {W : Type} `{!AttentionStatePort W, !DeliveryPort W, !ClockPort W}.
Variable policy : AttentionPolicyConfig.

Definition conflict_error (candidate : AttentionCandidate) (text : string) : exn :=
  portError CONFLICT ("Attention candidate " +:+ ac_id candidate +:+ text)
    [("candidateId", ac_id candidate)].

(** The answer to a candidate that was decided before. *)
Definition replay_decision (candidate : AttentionCandidate) (existing : AttentionDecisionRecord)
    : M exn W AttentionEvaluationResult :=
  throwM_if (ar_candidateFingerprint existing !== candidateFingerprint candidate)
    (conflict_error candidate " was reused with different content") ;;
  delivery ← match truthy (ar_deliveryRequestId existing) with
             | Some id => readDelivery id
             | None => mret None
             end;
  throwM_if ((truthy (ar_deliveryRequestId existing) !== None) && (delivery === None))
    (portError INVALID_OPERATION
       ("Attention decision " +:+ ac_id candidate +:+ " has no matching Delivery Request")
       [("candidateId", ac_id candidate);
        ("requestId", or_else (ar_deliveryRequestId existing) "")]) ;;
  mret (mkEvaluation existing delivery true).

(** One attempt: a decision, or [None] after a conflict. *)
Definition evaluate_attempt (candidate : AttentionCandidate) : M exn W (option AttentionEvaluationResult) :=
  state ← readPolicyState (ac_ownerId candidate) (ac_agentId candidate);
  match List.find (λ r, ar_candidateId r === ac_id candidate) (as_decisions state) with
  | Some existing => r ← replay_decision candidate existing; mret (Some r)
  | None =>
      now ← clock_now;
      try_catch
        (committed ← commitDecision (decisionCommit candidate state now policy);
         mret (Some (mkEvaluation (cr_record committed) (cr_delivery committed) false)))
        (λ error, if is_conflict error then mret None else throw error)
  end.

Fixpoint evaluate_loop (attempts : nat) (candidate : AttentionCandidate)
    : M exn W AttentionEvaluationResult :=
  match attempts with
  | O => throw (conflict_error candidate " could not be committed after concurrent changes")
  | S attempts =>
      r ← evaluate_attempt candidate;
      match r with Some r => mret r | None => evaluate_loop attempts candidate end
  end.

Definition evaluate (candidate : AttentionCandidate) : M exn W AttentionEvaluationResult :=
  lift (assertCandidate candidate) ;;
  evaluate_loop 5 candidate.

Definition adapter_failure : DeliveryAttemptResult :=
  mkAttemptResult outcome_failed None (Some "DELIVERY_ADAPTER_FAILURE").

Definition deliver (requestId clientId : string) : M exn W AttentionDeliveryResult :=
  now ← clock_now;
  claim ← claimDelivery requestId clientId now;
  if negb (dc_claimed claim)
  then mret (mkDeliveryResult (dc_request claim) deliver_duplicate (dc_reasonCode claim))
  else
    attempt ← try_catch (deliver_attempt (mkAttempt (dc_request claim) clientId))
                (λ _, mret adapter_failure);
    settledAt ← clock_now;
    settled ← settleDelivery
      (mkSettlement requestId (dq_revision (dc_request claim)) clientId (dar_outcome attempt)
         (dar_acknowledgementRef attempt) (dar_errorCode attempt) settledAt);
    mret (mkDeliveryResult settled
      (if dar_outcome attempt === outcome_delivered then deliver_delivered else deliver_pending)
      (if dar_outcome attempt === outcome_delivered then "DELIVERY_ACKNOWLEDGED"
       else or_else (dar_errorCode attempt) "DELIVERY_UNAVAILABLE")).
End service.

(** [new AttentionPolicyService(dependencies)] checks its policy. *)
Definition new_service (policy : AttentionPolicyConfig) : result exn AttentionPolicyConfig :=
  assertPolicy policy ;; Ok policy.

(** ** The decision *)
Definition duplicate_of (candidate : AttentionCandidate) (decisions : list AttentionDecisionRecord)
    (now : string) (policy : AttentionPolicyConfig) : Prop :=
  ∃ r, r ∈ decisions ∧ ar_duplicateKey r = ac_duplicateKey candidate ∧
    withinWindow (ar_decidedAt r) (dateParse now) (pc_duplicateWindowMs policy) = true.

Definition below (candidate : AttentionCandidate) (urgency confidence : Z) : Prop :=
  num_lt (ac_urgency candidate) (Finite urgency) = true ∨
  num_lt (ac_confidence candidate) (Finite confidence) = true.

(** What a decision promises: it is about its candidate; it is silent
    exactly for a duplicate inside the window or a low signal; it interrupts
    only with high urgency and confidence and an authorization the policy
    lists, which it names, and no other decision names one; and whatever is
    delivered at once has a strong signal, is no duplicate, stays under the
    rate limit and has a client that is not unavailable, and a notification is
    outside quiet hours. *)
Theorem base_decision_sound candidate state now policy :
  let d := baseDecision candidate state now policy in
  de_candidateId d = ac_id candidate ∧
  (de_level d = SILENT ↔
     duplicate_of candidate (as_decisions state) now policy ∨ below candidate 20 20) ∧
  (de_level d = INTERRUPT → ∃ ref, ac_interruptAuthorizationRef candidate = Some ref ∧
     ref ∈ pc_authorizedInterruptRefs policy ∧ de_interruptAuthorizationRef d = Some ref ∧
     num_le (Finite 90) (ac_urgency candidate) = true ∧
     num_le (Finite 85) (ac_confidence candidate) = true) ∧
  (de_level d ≠ INTERRUPT → de_interruptAuthorizationRef d = None) ∧
  (de_level d = NOTIFY → isQuietHours now policy = false) ∧
  (isImmediate (de_level d) = true →
     ¬ duplicate_of candidate (as_decisions state) now policy ∧ ¬ below candidate 70 70 ∧
     recentImmediate (as_decisions state) (dateParse now) (pc_rateLimitWindowMs policy)
       < pc_maxImmediateDeliveries policy ∧
     ac_deviceState candidate ≠ unavailable).
Proof.
  cbv zeta. unfold baseDecision.
  assert (Hdup : existsb (λ r, (ar_duplicateKey r === ac_duplicateKey candidate)
    && withinWindow (ar_decidedAt r) (dateParse now) (pc_duplicateWindowMs policy)) (as_decisions state) = true
    ↔ duplicate_of candidate (as_decisions state) now policy).
  { rewrite existsb_elem. unfold duplicate_of. setoid_rewrite andb_true_iff.
    by setoid_rewrite bool_decide_eq_true. }
  assert (Hbelow : ∀ u c, num_lt (ac_urgency candidate) (Finite u) || num_lt (ac_confidence candidate) (Finite c) = true
    ↔ below candidate u c) by (intros; apply orb_true_iff).
  destruct (existsb _ _) eqn:E1; [naive_solver|].
  assert (¬ duplicate_of candidate (as_decisions state) now policy) as Hnd by (rewrite <-Hdup; done).
  destruct (num_lt (ac_urgency candidate) (Finite 20) || _) eqn:E2.
  { apply Hbelow in E2. naive_solver. }
  assert (¬ below candidate 20 20) as Hb20 by (rewrite <-Hbelow, E2; done).
  destruct (num_lt (ac_urgency candidate) (Finite 40) || _) eqn:E3; [naive_solver|].
  destruct (num_lt (ac_urgency candidate) (Finite 70) || _) eqn:E4; [naive_solver|].
  assert (¬ below candidate 70 70) as Hb70 by (rewrite <-Hbelow, E4; done).
  destruct (_ <=? recentImmediate _ _ _) eqn:E5; [naive_solver|]. apply Z.leb_gt in E5.
  destruct (ac_deviceState candidate === unavailable) eqn:E6; [naive_solver|]. guards_in E6.
  destruct (interruptAuthorized candidate policy) eqn:E7; cbn.
  - unfold interruptAuthorized in E7. apply andb_true_iff in E7 as [E7 E8].
    apply andb_true_iff in E7 as [E7 E9].
    destruct (ac_interruptAuthorizationRef candidate) as [ref|]; [|done].
    apply includes_spec in E8. naive_solver.
  - destruct (isQuietHours now policy) eqn:E8; cbn; naive_solver.
Qed.

Lemma baseDecision_immediate candidate state now policy :
  isImmediate (de_level (baseDecision candidate state now policy)) = true →
  recentImmediate (as_decisions state) (dateParse now) (pc_rateLimitWindowMs policy)
    < pc_maxImmediateDeliveries policy.
Proof.
  unfold baseDecision. do 4 (case_match; [done|]). destruct (_ <=? _) eqn:E; [done|]. by apply Z.leb_gt in E.
Qed.

(** ** The rate limit over a history *)
Lemma filter_count_mono {A} (f g : A → bool) l :
  (∀ x, x ∈ l → f x = true → g x = true) →
  (List.length (List.filter f l) ≤ List.length (List.filter g l))%nat.
Proof.
  induction l as [|x l IH]; intros H; cbn; [done|].
  assert (List.length (List.filter f l) ≤ List.length (List.filter g l))%nat as Hl.
  { apply IH. intros y Hy. apply H. by apply list_elem_of_further. }
  destruct (f x) eqn:E.
  - rewrite (H x (list_elem_of_here _ _) E). cbn. lia.
  - destruct (g x); cbn; lia.
Qed.

Lemma recentImmediate_snoc l r nowMs windowMs :
  recentImmediate (l ++ [r]) nowMs windowMs = recentImmediate l nowMs windowMs +
    (if isImmediate (de_level (ar_decision r)) && withinWindow (ar_decidedAt r) nowMs windowMs then 1 else 0).
Proof.
  unfold recentImmediate. rewrite List.filter_app, length_app. cbn [List.filter].
  destruct (_ && _); cbn [List.length]; lia.
Qed.

Lemma withinWindow_spec at_ T w : withinWindow at_ (Some T) w = true ↔
  ∃ t, dateParse at_ = Some t ∧ T - w ≤ t ≤ T.
Proof.
  unfold withinWindow. destruct (dateParse at_) as [t|]; [|naive_solver].
  rewrite andb_true_iff, !Z.leb_le. naive_solver.
Qed.

(** Decisions made one after the other by one policy, on a clock that does
    not run backwards. *)
Inductive decision_history (policy : AttentionPolicyConfig) : list AttentionDecisionRecord → Prop :=
  | history_nil : decision_history policy []
  | history_snoc candidate state record :
      decision_history policy (as_decisions state) →
      ar_decision record = baseDecision candidate state (ar_decidedAt record) policy →
      (∀ r t u, r ∈ as_decisions state → dateParse (ar_decidedAt r) = Some t →
         dateParse (ar_decidedAt record) = Some u → t ≤ u) →
      decision_history policy (as_decisions state ++ [record]).

(** The rate limit holds of every stretch of time: in the decisions a
    policy makes one after the other, whatever window of the configured length
    one looks at, ending at any time, at most [maxImmediateDeliveries] of the
    decisions in it notify or interrupt. *)
Theorem rate_limit_window policy decisions T :
  decision_history policy decisions →
  recentImmediate decisions (Some T) (pc_rateLimitWindowMs policy)
    ≤ Z.max 0 (pc_maxImmediateDeliveries policy).
Proof.
  intros H. revert T. induction H as [|candidate state record Hh IH Hd Ho]; intros T;
    [change (0 ≤ Z.max 0 (pc_maxImmediateDeliveries policy)); lia|].
  rewrite recentImmediate_snoc. destruct (_ && _) eqn:E; [|specialize (IH T); lia].
  apply andb_true_iff in E as [Him (t & Ht & Hw)%withinWindow_spec].
  pose proof (baseDecision_immediate candidate state (ar_decidedAt record) policy) as Hlt.
  rewrite <-Hd, Ht in Hlt. specialize (Hlt Him).
  assert (recentImmediate (as_decisions state) (Some T) (pc_rateLimitWindowMs policy)
    ≤ recentImmediate (as_decisions state) (Some t) (pc_rateLimitWindowMs policy)); [|lia].
  apply Nat2Z.inj_le, filter_count_mono. intros r Hr [Hi (v & Hv & Hvw)%withinWindow_spec]%andb_true_iff.
  rewrite Hi. apply withinWindow_spec. exists v. split; [done|].
  specialize (Ho r v t Hr Hv Ht). lia.
Qed.

(** ** Deciding a candidate *)
Lemma candidateFingerprint_inj c c' :
  isFinite (ac_urgency c) = true → isFinite (ac_urgency c') = true →
  isFinite (ac_confidence c) = true → isFinite (ac_confidence c') = true →
  candidateFingerprint c = candidateFingerprint c' → c = c'.
Proof.
  intros Hu Hu' Hc Hc' H. apply stringify_inj in H.
  destruct c as [i o a r s t rr dc u cf dk g ds ir], c' as [i' o' a' r' s' t' rr' dc' u' cf' dk' g' ds' ir'].
  cbn in *. destruct u, u', cf, cf'; try done. unfold candidate_fields in H. cbn in H. simplify_eq.
  assert (dc = dc') as -> by (by destruct dc, dc').
  assert (ds = ds') as -> by (by destruct ds, ds').
  destruct t, t', ir, ir'; cbn in *; by simplify_eq.
Qed.

(** ** The service against the contract of its state port *)
Section contract.
Context {W : Type} `{!AttentionStatePort W, !DeliveryPort W, !ClockPort W}
  (view : W → att_state) (inv : W → Prop) `{!AttentionLaws W view inv}.
Variable clock_frame : gen_frame_law att_step view inv clock_now.
Variable policy : AttentionPolicyConfig.

Abbreviation scope c s := (policy_of (ac_ownerId c) (ac_agentId c) s) (only parsing).

(** [e] is the decision on [c]: the one that is stored, or a new one, made by
    [baseDecision] from the very state it was appended to. *)
Definition decided (c : AttentionCandidate) (w w' : W) (e : AttentionEvaluationResult) : Prop :=
  ∃ s, rtc att_step (view w) s ∧
    if ev_replayed e
    then ev_record e ∈ as_decisions (scope c s) ∧ ar_candidateId (ev_record e) = ac_id c ∧
      ar_candidateFingerprint (ev_record e) = candidateFingerprint c ∧ rtc att_step s (view w') ∧
      match truthy (ar_deliveryRequestId (ev_record e)) with
      | None => ev_delivery e = None
      | Some id => ∃ d, ev_delivery e = Some d ∧ at_deliveries (view w') !! id = Some d
      end
    else ∃ now w1 w2 result, clock_now w1 = (Ok now, w2) ∧ rtc att_step (view w) (view w1) ∧
      commit_effect (decisionCommit c (scope c s) now policy) result s (view w') ∧
      ev_record e = cr_record result ∧ ev_delivery e = cr_delivery result.

Lemma decided_before c w w1 w' e :
  rtc att_step (view w) (view w1) → decided c w1 w' e → decided c w w' e.
Proof.
  intros Hs (s & Hs1 & H). exists s. split; [by etrans|]. destruct (ev_replayed e); [done|].
  destruct H as (now & w2 & w3 & result & Hc & Hs2 & H). exists now, w2, w3, result.
  split; [done|]. split; [by etrans|done].
Qed.

Lemma policy_state_eq s s' o a : rtc att_step s s' →
  as_revision (policy_of o a s') = as_revision (policy_of o a s) → policy_of o a s' = policy_of o a s.
Proof.
  intros Hs Hr. pose proof (policy_same_revision _ _ o a Hs Hr) as Hd.
  destruct (policy_of o a s'), (policy_of o a s). cbn in *. by subst.
Qed.

Lemma replay_Ok c existing w e w' :
  inv w → existing ∈ as_decisions (scope c (view w)) → ar_candidateId existing = ac_id c →
  replay_decision c existing w = (Ok e, w') → inv w' ∧ decided c w w' e ∧ ev_record e = existing ∧
    ev_replayed e = true.
Proof.
  intros Hi Hin Hid H. unfold replay_decision in H.
  unfold mbind at 1, M_bind at 1, throwM_if at 1, throw_if at 1, lift at 1 in H.
  destruct (_ !== _) eqn:Ef in H; [done|]. guards_in Ef.
  unfold mbind at 1, M_bind at 1 in H.
  destruct (truthy (ar_deliveryRequestId existing)) as [id|] eqn:Ht.
  - destruct (readDelivery id w) as [[d|x] w1] eqn:Er; [|done].
    destruct (reads_Ok _ _ _ _ _ _ _ _ (law_readDelivery _) Hi Er) as (Hi1 & Hs & Hd).
    unfold mbind, M_bind, throwM_if, throw_if, lift in H.
    destruct d as [d|]; cbn in H; [|done]. injection H as <- <-. split; [done|]. split; [|done].
    exists (view w). split; [done|]. cbn. rewrite Ht. do 4 (split; [done|]). by exists d.
  - cbn in H. injection H as <- <-. split; [done|]. split; [|done].
    exists (view w). split; [done|]. cbn. by rewrite Ht.
Qed.

Lemma attempt_spec c w r w' :
  inv w → evaluate_attempt policy c w = (r, w') →
  match r with
  | Ok (Some e) => inv w' ∧ decided c w w' e
  | Ok None => inv w' ∧ rtc att_step (view w) (view w')
  | Err _ => True
  end.
Proof.
  intros Hi H. destruct r as [[e|]|x]; [| |done].
  all: unfold evaluate_attempt in H; unfold mbind at 1, M_bind at 1 in H.
  all: destruct (readPolicyState _ _ w) as [[state|x] w1] eqn:E1; [|done].
  all: destruct (reads_Ok _ _ _ _ _ _ _ _ (law_readPolicyState _ _) Hi E1) as (Hi1 & Hs1 & Hst).
  all: destruct (List.find _ _) as [existing|] eqn:Ef.
  1,3: unfold mbind, M_bind in H; destruct (replay_decision c existing w1) as [[e'|x] w2] eqn:Er; [|done].
  - injection H as <- <-. apply find_elem in Ef as [Hin Hid%bool_decide_eq_true]. rewrite Hst in Hin.
    destruct (replay_Ok _ _ _ _ _ Hi1 Hin Hid Er) as (Hi2 & Hd & _). split; [done|].
    by eapply decided_before.
  - done.
  - unfold mbind at 1, M_bind at 1 in H. destruct (clock_now w1) as [[now|x] w2] eqn:Ec; [|done].
    destruct (clock_frame _ _ _ Hi1 Ec) as [Hi2 Hs2].
    unfold try_catch, mbind, M_bind in H. destruct (commitDecision _ w2) as [[cr|x] w3] eqn:Em.
    + injection H as <- <-. destruct (op_law_Ok _ _ _ _ _ _ _ _ (law_commitDecision _) Hi2 Em)
        as (Hi3 & s & Hs3 & He). split; [done|].
      assert (Heq : scope c s = state).
      { rewrite Hst. apply policy_state_eq; [by etrans|]. rewrite <-Hst. apply (ce_revision _ _ _ _ He). }
      exists s. split; [etrans; [exact Hs1|]; by etrans|]. cbn. exists now, w1, w2, cr.
      rewrite Heq. done.
    + destruct (is_conflict x); done.
  - unfold mbind at 1, M_bind at 1 in H. destruct (clock_now w1) as [[now|x] w2] eqn:Ec; [|done].
    destruct (clock_frame _ _ _ Hi1 Ec) as [Hi2 Hs2].
    unfold try_catch, mbind, M_bind in H. destruct (commitDecision _ w2) as [[cr|x] w3] eqn:Em; [done|].
    destruct (law_commitDecision _ _ _ _ Hi2 Em) as (Hi3 & s & Hs3 & <-).
    destruct (is_conflict x); [|done]. assert (w3 = w') as <- by by injection H. split; [done|]. etrans; [exact Hs1|]. by etrans.
Qed.

Lemma loop_spec n c w e w' :
  inv w → evaluate_loop policy n c w = (Ok e, w') → inv w' ∧ decided c w w' e.
Proof.
  revert w. induction n as [|n IH]; intros w Hi H; cbn in H; [done|].
  unfold mbind, M_bind in H. destruct (evaluate_attempt policy c w) as [[[e'|]|x] w1] eqn:E; [| |done];
    apply attempt_spec in E; try done.
  - by injection H as <- <-.
  - destruct E as [Hi1 Hs]. destruct (IH _ Hi1 H) as [Hi2 Hd]. split; [done|]. by eapply decided_before.
Qed.

Lemma policy_keeps o a s s' r : rtc att_step s s' →
  r ∈ as_decisions (policy_of o a s) → r ∈ as_decisions (policy_of o a s').
Proof. intros Hs Hr. destruct (policy_steps _ _ o a Hs) as (l & -> & _). apply elem_of_app. by left. Qed.

(** The record of a decision is stored with its candidate's fingerprint. *)
Lemma decided_stored c w w' e : decided c w w' e →
  ev_record e ∈ as_decisions (scope c (view w')) ∧ ar_candidateId (ev_record e) = ac_id c ∧
  ar_candidateFingerprint (ev_record e) = candidateFingerprint c.
Proof.
  intros (s & Hs & H). destruct (ev_replayed e).
  - destruct H as (Hin & Hid & Hf & Hs' & _). split; [by eapply policy_keeps|done].
  - destruct H as (now & w1 & w2 & result & _ & _ & He & Hr & _).
    assert (ev_record e = co_record (decisionCommit c (scope c s) now policy)) as ->
      by (rewrite Hr, (ce_result _ _ _ _ He); done).
    split; [|done]. rewrite (ce_state _ _ _ _ He). unfold policy_of.
    rewrite put_delivery_opt_policies, (ce_result _ _ _ _ He). cbn.
    rewrite lookup_insert_eq. cbn. apply elem_of_app. right. by apply list_elem_of_singleton.
Qed.

Lemma evaluate_decided c w e w' :
  inv w → evaluate policy c w = (Ok e, w') → assertCandidate c = Ok tt ∧ inv w' ∧ decided c w w' e.
Proof.
  intros Hi H. unfold evaluate in H. unfold mbind, M_bind, lift in H.
  destruct (assertCandidate c) as [[]|x]; [|done]. split; [done|]. by eapply loop_spec.
Qed.

(** C24 A candidate is decided on the state its decision joins: [evaluate]
    returns only for a valid candidate, and then either the decision already
    stored for the same content, unchanged, with its delivery request; or a
    new one, which [baseDecision] makes for the clock's time from the very
    policy state it is appended to, with its delivery request created in the
    same step, however other clients' decisions interleave. *)
Theorem evaluate_decides c w e w' :
  inv w → evaluate policy c w = (Ok e, w') → assertCandidate c = Ok tt ∧ inv w' ∧ decided c w w' e.
Proof. apply evaluate_decided. Qed.

Lemma assertCandidate_finite c : assertCandidate c = Ok tt →
  isFinite (ac_urgency c) = true ∧ isFinite (ac_confidence c) = true.
Proof.
  intros H%throw_if_Ok. repeat apply orb_false_iff in H as [H ?]. guards. by split.
Qed.

(** A candidate is decided once: after [evaluate] returned for a candidate,
    every later [evaluate] for the same Owner, Agent and candidate identifier,
    whatever other clients did in between, either throws or was given exactly
    the same candidate and returns exactly the same record as a replay. *)
Theorem candidate_decided_once c c' w e w1 w2 e' w3 :
  inv w → evaluate policy c w = (Ok e, w1) → inv w2 → rtc att_step (view w1) (view w2) →
  ac_ownerId c' = ac_ownerId c → ac_agentId c' = ac_agentId c → ac_id c' = ac_id c →
  evaluate policy c' w2 = (Ok e', w3) →
  c' = c ∧ ev_record e' = ev_record e ∧ ev_replayed e' = true.
Proof.
  intros Hi H Hi2 Hs Ho Ha Hid H'.
  destruct (evaluate_decided _ _ _ _ Hi H) as (Hc & Hi1 & Hd).
  destruct (evaluate_decided _ _ _ _ Hi2 H') as (Hc' & _ & Hd').
  apply decided_stored in Hd as (Hin & Hcid & Hf).
  apply decided_stored in Hd' as (_ & _ & Hf').
  assert (ev_record e' = ev_record e ∧ ev_replayed e' = true) as [Hr Hrep].
  { clear Hf'. unfold evaluate in H'. unfold mbind, M_bind, lift in H'. rewrite Hc' in H'.
    cbn [evaluate_loop] in H'. unfold evaluate_attempt in H'. unfold mbind, M_bind in H'.
    destruct (readPolicyState _ _ w2) as [[state|x] w4] eqn:E; [|done].
    destruct (reads_Ok _ _ _ _ _ _ _ _ (law_readPolicyState _ _) Hi2 E) as (Hi4 & Hs4 & Hst).
    assert (ev_record e ∈ as_decisions state) as Hin4.
    { rewrite Hst, Ho, Ha. eapply policy_keeps, Hin. by etrans. }
    destruct (List.find _ _) as [existing|] eqn:Ef.
    - assert (existing = ev_record e) as ->.
      { eapply find_unique; [|exact Hin4| |exact Ef]; [|congruence].
        rewrite Hst. apply policy_wf_of, law_att_wf, Hi4. }
      destruct (replay_decision c' _ w4) as [[e''|x] w5] eqn:Er; [|done]. injection H' as <- <-.
      eapply replay_Ok in Er; [|done| |congruence].
      + by destruct Er as (_ & _ & ? & ?).
      + by rewrite <-Hst.
    - exfalso. eapply find_None in Ef; [|exact Hin4]. apply bool_decide_eq_false in Ef. congruence. }
  split; [|done]. apply assertCandidate_finite in Hc as [], Hc' as [].
  apply candidateFingerprint_inj; congruence.
Qed.

(** Delivering settles what it claimed: when [deliver] returns, either the
    request was not pending and nothing was sent; or it was claimed by this
    client, one attempt was made (a throwing adapter counts as a failed one),
    and the request was settled in that claim: delivered with its
    acknowledgement exactly when the attempt says so, pending again without a
    client and with an error code otherwise. *)
Theorem deliver_settles requestId clientId w r w' :
  (∀ a, gen_frame_law att_step view inv (deliver_attempt a)) →
  inv w → deliver requestId clientId w = (Ok r, w') →
  inv w' ∧
  match ad_outcome r with
  | deliver_duplicate => dq_status (ad_request r) ≠ delivery_pending ∧
      rtc att_step (view w) (view w')
  | o => ∃ current s1 now s2 attempt settledAt,
      rtc att_step (view w) s1 ∧ at_deliveries s1 !! requestId = Some current ∧
      dq_status current = delivery_pending ∧
      rtc att_step (put_delivery (claimed_delivery current clientId now) s1) s2 ∧
      settle_effect (mkSettlement requestId (dq_revision current + 1) clientId (dar_outcome attempt)
        (dar_acknowledgementRef attempt) (dar_errorCode attempt) settledAt) (ad_request r) s2 (view w') ∧
      dq_attempts (ad_request r) = dq_attempts current + 1 ∧
      match o with
      | deliver_delivered => dar_outcome attempt = outcome_delivered ∧
          dq_status (ad_request r) = delivered ∧ is_Some (dq_acknowledgementRef (ad_request r)) ∧
          dq_assignedClientId (ad_request r) = Some clientId
      | _ => dar_outcome attempt ≠ outcome_delivered ∧ dq_status (ad_request r) = delivery_pending ∧
          dq_assignedClientId (ad_request r) = None ∧ is_Some (dq_lastErrorCode (ad_request r))
      end
  end.
Proof.
  intros Hframe Hi H. unfold deliver in H. unfold mbind at 1, M_bind at 1 in H.
  destruct (clock_now w) as [[now|x] w1] eqn:Ec; [|done]. destruct (clock_frame _ _ _ Hi Ec) as [Hi1 Hs1].
  unfold mbind at 1, M_bind at 1 in H.
  destruct (claimDelivery _ _ _ w1) as [[cl|x] w2] eqn:Ecl; [|done].
  destruct (op_law_Ok _ _ _ _ _ _ _ _ (law_claimDelivery _ _ _) Hi1 Ecl) as (Hi2 & s & Hs2 & current & Hk & Hcl).
  assert (rtc att_step (view w) s) as Hs by by etrans.
  destruct (dq_status current) eqn:Est; destruct Hcl as [-> Hv2]; cbn in H.
  2,3: injection H as <- <-; split; [done|]; cbn; split; [congruence|by rewrite Hv2].
  unfold mbind at 1, M_bind at 1 in H. destruct (try_catch _ _ w2) as [[attempt|x] w3] eqn:Ea; [|done].
  assert (inv w3 ∧ rtc att_step (view w2) (view w3)) as [Hi3 Hs3].
  { eapply (frame_try_catch att_step view inv); [apply Hframe|intros y; apply frame_ret|exact Hi2|exact Ea]. }
  unfold mbind at 1, M_bind at 1 in H. destruct (clock_now w3) as [[settledAt|x] w4] eqn:Ec4; [|done].
  destruct (clock_frame _ _ _ Hi3 Ec4) as [Hi4 Hs4].
  unfold mbind, M_bind in H. destruct (settleDelivery _ w4) as [[settled|x] w5] eqn:Es; [|done].
  destruct (op_law_Ok _ _ _ _ _ _ _ _ (law_settleDelivery _) Hi4 Es) as (Hi5 & s2 & Hs5 & Hse).
  injection H as <- <-. split; [done|].
  assert (rtc att_step (put_delivery (claimed_delivery current clientId now) s) s2) as Hs2'.
  { rewrite <-Hv2. etrans; [exact Hs3|]. by etrans. }
  assert (Hres : settled = settled_delivery (claimed_delivery current clientId now)
    (mkSettlement requestId (dq_revision current + 1) clientId (dar_outcome attempt)
      (dar_acknowledgementRef attempt) (dar_errorCode attempt) settledAt) ∧
    validAcknowledgement (mkSettlement requestId (dq_revision current + 1) clientId
      (dar_outcome attempt) (dar_acknowledgementRef attempt) (dar_errorCode attempt) settledAt) = true).
  { destruct Hse as (c & Hc & Hcan & -> & _).
    pose proof (cannot_settle_false _ _ Hcan) as (_ & Hrev & _ & Hva).
    rewrite <-Hv2 in Hs2'. assert (at_deliveries (view w2) !! requestId =
      Some (claimed_delivery current clientId now)) as Hk2.
    { rewrite Hv2. cbn. assert (att_wf s) as Hwf.
      { eapply att_steps_wf; [exact Hs2|by apply law_att_wf]. }
      destruct (aw_delivery _ Hwf _ _ Hk) as [<- _]. apply lookup_insert_eq. }
    destruct (delivery_steps _ _ _ _ (law_att_wf _ Hi2) Hs2' Hk2) as (c' & Hc' & He).
    cbn in Hc. rewrite Hc in Hc'. injection Hc' as <-. rewrite (dv_same _ _ He Hrev). done. }
  destruct Hres as [-> Hva]. unfold validAcknowledgement in Hva. cbn in Hva.
  cbn. destruct (dar_outcome attempt === outcome_delivered) eqn:Eo; cbn;
    exists current, s, now, s2, attempt, settledAt; guards_in Eo;
    (do 5 (split; [done|])); (split; [done|]).
  - apply andb_true_iff in Hva as [Hva _]. guards_in Hva. split; [done|]. split; [done|].
    split; [|done]. destruct (dar_acknowledgementRef attempt); done.
  - by split_and!.
Qed.
End contract.

(** ** A concrete world: the in-memory state, the manual clock and the
    deterministic delivery port *)
Record AttWorld := mkAttWorld {
  aw_state : InMemoryAttentionStatePort; aw_clock : ManualClock; aw_client : DeterministicDeliveryPort }.

#[global] Instance eta_AttWorld : Eta AttWorld := λ r, mkAttWorld (aw_state r) (aw_clock r) (aw_client r).

Definition on_state {A} (m : M exn InMemoryAttentionStatePort A) : M exn AttWorld A :=
  zoom aw_state (λ s w, w <| aw_state := s |>) m.

#[export] Instance aw_state_port : AttentionStatePort AttWorld := {|
  readPolicyState o a := on_state (im_readPolicyState o a);
  commitDecision i := on_state (im_commitDecision i);
  readDelivery i := on_state (im_readDelivery i);
  claimDelivery i c t := on_state (im_claimDelivery i c t);
  settleDelivery i := on_state (im_settleDelivery i);
|}.
#[export] Instance aw_clock_port : ClockPort AttWorld := zoom aw_clock (λ c w, w <| aw_clock := c |>) now.
#[export] Instance aw_delivery_port : DeliveryPort AttWorld := λ a,
  zoom aw_client (λ c w, w <| aw_client := c |>) (dp_deliver a).

Definition aw_view (w : AttWorld) : att_state := im_view (aw_state w).
Definition aw_inv (w : AttWorld) : Prop := im_inv (aw_state w).

#[export] Instance aw_laws : AttentionLaws AttWorld aw_view aw_inv.
Proof.
  destruct im_laws. constructor; intros;
    try (by apply (op_law_zoom att_step aw_state _ im_view im_inv); [|auto]).
  by apply (law_att_wf (aw_state w)).
Qed.

Lemma aw_clock_frame : gen_frame_law att_step aw_view aw_inv clock_now.
Proof. intros w r w' Hi H. injection H as <- <-. by split. Qed.

Lemma aw_delivery_frame a : gen_frame_law att_step aw_view aw_inv (deliver_attempt a).
Proof.
  intros w r w' Hi H. unfold deliver_attempt, aw_delivery_port, zoom in H.
  destruct (dp_deliver a (aw_client w)) as [r0 c]. injection H as <- <-. by split.
Qed.

Definition sample_policy : AttentionPolicyConfig :=
  mkConfig 60000 3600000 2 (Some (mkQuiet 1320 420 60)) ["auth-1"].

Definition sample_candidate : AttentionCandidate :=
  mkCandidate "candidate-1" "owner" "agent" "run-1" "session-1" None "result-1" private (Finite 80)
    (Finite 90) "key-1" "2026-01-01T11:59:00.000Z" available None.

Definition sample_att_world : AttWorld :=
  mkAttWorld (new_attention_state NO_FAILURES) "2026-01-01T12:00:00.000Z"
    (new_delivery_port [("client-1", mkAttemptResult outcome_delivered (Some "ack-1") None)]).

Lemma sample_att_world_inv : aw_inv sample_att_world.
Proof. apply im_inv_new. Qed.

Lemma evaluate_decides_witness :
  ∃ e w', evaluate sample_policy sample_candidate sample_att_world = (Ok e, w') ∧
    de_level (ar_decision (ev_record e)) = NOTIFY ∧
    decided aw_view sample_policy sample_candidate sample_att_world w' e.
Proof.
  destruct (evaluate sample_policy sample_candidate sample_att_world) as [[e|x] w'] eqn:E;
    [|vm_compute in E; discriminate E].
  exists e, w'. split; [reflexivity|]. split; [vm_compute in E; injection E as <- _; reflexivity|].
  exact (proj2 (proj2 (evaluate_decides aw_view aw_inv aw_clock_frame sample_policy sample_candidate
    sample_att_world e w' sample_att_world_inv E))).
Defined.

Lemma candidate_decided_once_witness :
  ∃ e w1 e' w3, evaluate sample_policy sample_candidate sample_att_world = (Ok e, w1) ∧
    evaluate sample_policy sample_candidate w1 = (Ok e', w3) ∧
    ev_replayed e = false ∧ ev_record e' = ev_record e ∧ ev_replayed e' = true.
Proof.
  destruct (evaluate sample_policy sample_candidate sample_att_world) as [[e|x] w1] eqn:E;
    [|vm_compute in E; discriminate E].
  destruct (evaluate sample_policy sample_candidate w1) as [[e'|x] w3] eqn:E'.
  2: { vm_compute in E. injection E as _ <-. vm_compute in E'. discriminate E'. }
  exists e, w1, e', w3. split; [reflexivity|]. split; [exact E'|].
  split; [vm_compute in E; injection E as <- _; reflexivity|].
  assert (aw_inv w1) as Hi.
  { apply (evaluate_decided aw_view aw_inv aw_clock_frame sample_policy sample_candidate
      sample_att_world e w1 sample_att_world_inv E). }
  exact (proj2 (candidate_decided_once aw_view aw_inv aw_clock_frame sample_policy sample_candidate
    sample_candidate sample_att_world e w1 w1 e' w3 sample_att_world_inv E Hi (rtc_refl _ _)
    eq_refl eq_refl eq_refl E')).
Defined.

Definition sample_decided_world : AttWorld := (evaluate sample_policy sample_candidate sample_att_world).2.

Lemma sample_decided_world_inv : aw_inv sample_decided_world.
Proof.
  destruct (evaluate sample_policy sample_candidate sample_att_world) as [[e|x] w1] eqn:E;
    [|vm_compute in E; discriminate E].
  unfold sample_decided_world. rewrite E. cbn.
  apply (evaluate_decided aw_view aw_inv aw_clock_frame _ _ _ _ _ sample_att_world_inv E).
Qed.

Lemma deliver_settles_witness :
  ∃ r w', deliver "delivery:owner:agent:candidate-1" "client-1" sample_decided_world = (Ok r, w') ∧
    aw_inv w' ∧ ad_outcome r = deliver_delivered ∧ dq_status (ad_request r) = delivered.
Proof.
  destruct (deliver "delivery:owner:agent:candidate-1" "client-1" sample_decided_world) as [[r|x] w'] eqn:E;
    [|vm_compute in E; discriminate E].
  destruct (deliver_settles aw_view aw_inv aw_clock_frame "delivery:owner:agent:candidate-1" "client-1"
    sample_decided_world r w' aw_delivery_frame sample_decided_world_inv E) as [Hi _].
  exists r, w'. split; [reflexivity|]. split; [exact Hi|].
  split; vm_compute in E; injection E as <- _; reflexivity.
Defined.

Definition sample_record : AttentionDecisionRecord :=
  co_record (decisionCommit sample_candidate no_decisions "2026-01-01T12:00:00.000Z" sample_policy).

Lemma rate_limit_window_witness :
  recentImmediate [sample_record] (Some 1767268800000) (pc_rateLimitWindowMs sample_policy) ≤ 2.
Proof.
  refine (rate_limit_window sample_policy [sample_record] 1767268800000 _).
  refine (history_snoc sample_policy sample_candidate no_decisions sample_record _ _ _).
  - exact (history_nil sample_policy).
  - reflexivity.
  - intros r t u Hr. destruct (not_elem_of_nil _ Hr).
Defined.

(** Two candidates of different Agents whose delivery requests get the same
    identifier: [':'] may occur in identifiers, and the parts are joined with
    it.  The second one can never be decided, with nobody else around. *)
Definition colliding_candidate (agent id : string) : AttentionCandidate :=
  mkCandidate id "owner" agent "run-1" "session-1" None "result-1" private (Finite 80)
    (Finite 90) "key-1" "2026-01-01T11:59:00.000Z" available None.

Lemma delivery_id_collision :
  let w1 := (evaluate sample_policy (colliding_candidate "agent" "x:candidate") sample_att_world).2 in
  is_ok (evaluate sample_policy (colliding_candidate "agent" "x:candidate") sample_att_world).1 = true ∧
  MACHINE_IDENTIFIER_PATTERN "agent:x" = true ∧
  ∃ e w2, evaluate sample_policy (colliding_candidate "agent:x" "candidate") w1 = (Err e, w2) ∧
    e = conflict_error (colliding_candidate "agent:x" "candidate")
          " could not be committed after concurrent changes".
Proof.
  intros w1. split; [vm_compute; reflexivity|]. split; [reflexivity|].
  eexists _, _. split; vm_compute; reflexivity.
Qed.
