(* ===== verification/Delegation.v ===== *)
(** packages/application/src/ports/delegation.ts, the Worker run port of
    ports/coordination.ts, and services/delegation-transitions.ts: the data of
    a delegation, the transitions that are allowed, and the update loop all
    services change delegations with. *)
From S2P Require Import Prelude Js JsDate JsJson Identifiers Contract AuthTypes Deterministic.
Local Open Scope Z_scope.

(** ** Worker runs (ports/coordination.ts) *)
Record WorkerRunBudget := mkRunBudget {
  rb_maxDurationMs : Z; rb_maxCostMicros : Z; rb_maxProgressEvents : Z }.

(** An output schema is any JSON object. *)
Record WorkerRunRequest := mkRunRequest {
  rr_workerRunId : string; rr_idempotencyKey : string; rr_ownerId : OwnerId; rr_agentId : AgentId;
  rr_parentRunId : RunId; rr_taskRef : string; rr_selectedModelRef : string;
  rr_allowedModelRefs : list string; rr_outputSchema : json; rr_delegatedContextRefs : list string;
  rr_capabilityHandleRefs : list string; rr_secretRefs : list string;
  rr_dataClassification : DataClassification; rr_budget : WorkerRunBudget; rr_deadlineAt : string }.

Inductive WorkerRunEvent :=
  | worker_progress (workerRunId : string) (sequence : Z) (payloadRef : option string) (occurredAt : string)
  | worker_completed (workerRunId resultRef : string) (costMicros durationMs : Z) (occurredAt : string)
  | worker_failed (workerRunId errorCode occurredAt : string)
  | worker_result_unknown (workerRunId externalActionId occurredAt : string)
  | worker_cancelled (workerRunId reasonCode occurredAt : string).

Definition event_workerRunId (e : WorkerRunEvent) : string :=
  match e with
  | worker_progress w _ _ _ | worker_completed w _ _ _ _ | worker_failed w _ _
  | worker_result_unknown w _ _ | worker_cancelled w _ _ => w
  end.

(** [run(request)] is an asynchronous iterable: [worker_next request n] is the
    [n]-th call of its [next()], [None] when it is done. *)
Class WorkerRunPort (W : Type) := {
  worker_next : WorkerRunRequest → nat → M exn W (option WorkerRunEvent);
  worker_cancel : string → string → M exn W unit;
}.

(** ** Delegations (ports/delegation.ts) *)
Record DelegationBudget := mkBudget {
  db_maximumDurationMs : Z; db_maximumCostMicros : Z; db_maximumProgressEvents : Z }.

Inductive DelegationStatus :=
  | delegation_created | delegation_running | delegation_validating
  | delegation_completed | delegation_failed | delegation_cancelled.

#[global] Instance DelegationStatus_eq_dec : EqDecision DelegationStatus.
Proof. solve_decision. Defined.

Record WorkerResult := mkWorkerResult {
  wr_workerRunId : string; wr_conclusionRef : string; wr_citationRefs : list string;
  wr_artifactRefs : list string; wr_unresolvedRefs : list string; wr_actualModelRef : string;
  wr_inputTokens : Z; wr_outputTokens : Z; wr_costMicros : Z; wr_durationMs : Z;
  wr_executionRecordRefs : list string; wr_dataClassification : DataClassification;
  wr_output : json }.

Record ExecutionClaim := mkExecutionClaim { xc_id : string; xc_leaseUntil : string }.

Record Delegation := mkDelegation {
  dl_id : string; dl_revision : Z; dl_ownerId : OwnerId; dl_agentId : AgentId; dl_parentRunId : RunId;
  dl_traceRef : string; dl_workerRunId : string; dl_subtaskRef : string; dl_outputSchema : json;
  dl_contextRefs : list string; dl_capabilityHandleRefs : list string;
  dl_allowedModelRefs : list string; dl_selectedModelRef : string;
  dl_dataClassification : DataClassification; dl_budget : DelegationBudget;
  dl_progressEventsObserved : Z; dl_progressReceipts : list (Z * string);
  dl_executionGeneration : Z; dl_executionClaim : option ExecutionClaim;
  dl_pendingResultRef : option string; dl_handlesEndedAt : option string;
  dl_workerCancelledAt : option string; dl_deadlineAt : string; dl_depth : Z;
  dl_status : DelegationStatus; dl_proposalRef : option string; dl_failureReasonCode : option string;
  dl_workerResult : option WorkerResult; dl_createdAt : string; dl_updatedAt : string }.

#[global] Instance eta_Delegation : Eta Delegation := λ r,
  mkDelegation (dl_id r) (dl_revision r) (dl_ownerId r) (dl_agentId r) (dl_parentRunId r) (dl_traceRef r)
    (dl_workerRunId r) (dl_subtaskRef r) (dl_outputSchema r) (dl_contextRefs r)
    (dl_capabilityHandleRefs r) (dl_allowedModelRefs r) (dl_selectedModelRef r)
    (dl_dataClassification r) (dl_budget r) (dl_progressEventsObserved r) (dl_progressReceipts r)
    (dl_executionGeneration r) (dl_executionClaim r) (dl_pendingResultRef r) (dl_handlesEndedAt r)
    (dl_workerCancelledAt r) (dl_deadlineAt r) (dl_depth r) (dl_status r) (dl_proposalRef r)
    (dl_failureReasonCode r) (dl_workerResult r) (dl_createdAt r) (dl_updatedAt r).

Record AutonomyScope := mkScope_ { sp_ownerId : OwnerId; sp_agentId : AgentId }.

(** A delegation is passed where a scope is expected. *)
Definition delegation_scope (d : Delegation) : AutonomyScope := mkScope_ (dl_ownerId d) (dl_agentId d).

Class DelegationStatePort (W : Type) := {
  delegation_read : AutonomyScope → string → M exn W (option Delegation);
  delegation_create : Delegation → M exn W Delegation;
  delegation_save : Delegation → Z → M exn W Delegation;
}.

Class DelegationHandleLifecyclePort (W : Type) :=
  endHandles : OwnerId → AgentId → RunId → list string → string → M exn W unit.

Record ScopeExpansion := mkExpansion {
  se_ownerId : OwnerId; se_agentId : AgentId; se_parentRunId : RunId;
  se_requestedContextRefs : list string; se_requestedCapabilityHandleRefs : list string;
  se_requestedModelRefs : list string; se_requestedCostMicros : Z; se_requestedRecipientRef : option string }.

Class DelegationProposalPort (W : Type) := protectScopeExpansion : ScopeExpansion → M exn W string.

Class WorkerResultReaderPort (W : Type) := result_read : string → M exn W WorkerResult.

Record WorkerVerification := mkVerification {
  wv_valid : bool; wv_conflictRefs : list string; wv_invalidCitationRefs : list string;
  wv_reasonCode : option string }.

Class WorkerResultVerificationPort (W : Type) :=
  verify_result : Delegation → WorkerResult → M exn W WorkerVerification.

(** ** delegation-transitions.ts *)
Definition delegationIsTerminal (value : Delegation) : bool :=
  (dl_status value === delegation_completed) || (dl_status value === delegation_failed)
  || (dl_status value === delegation_cancelled).

Definition ownsDelegationClaim (value : Delegation) (claimId now : string) : bool :=
  negb (delegationIsTerminal value)
  && match dl_executionClaim value with
     | Some claim => (xc_id claim === claimId) && str_lt now (xc_leaseUntil claim)
     | None => false
     end.

Definition budget_json (b : DelegationBudget) : json :=
  JObj [("maximumDurationMs", JNum (db_maximumDurationMs b));
        ("maximumCostMicros", JNum (db_maximumCostMicros b));
        ("maximumProgressEvents", JNum (db_maximumProgressEvents b))].

Definition immutable (value : Delegation) : list json :=
  [JStr (dl_id value); JStr (dl_ownerId value); JStr (dl_agentId value); JStr (dl_parentRunId value);
   JStr (dl_workerRunId value); JStr (dl_traceRef value); JStr (dl_subtaskRef value);
   dl_outputSchema value; JStrs (dl_contextRefs value); JStrs (dl_capabilityHandleRefs value);
   JStrs (dl_allowedModelRefs value); JStr (dl_selectedModelRef value); budget_json (dl_budget value);
   JStr (dl_deadlineAt value); JStr (classification_name (dl_dataClassification value));
   JNum (dl_depth value); JStr (dl_createdAt value)].

Definition result_json (r : option WorkerResult) : json :=
  match r with
  | None => JNull
  | Some r => JObj
      [("workerRunId", JStr (wr_workerRunId r)); ("conclusionRef", JStr (wr_conclusionRef r));
       ("citationRefs", JStrs (wr_citationRefs r)); ("artifactRefs", JStrs (wr_artifactRefs r));
       ("unresolvedRefs", JStrs (wr_unresolvedRefs r)); ("actualModelRef", JStr (wr_actualModelRef r));
       ("usage", JObj [("inputTokens", JNum (wr_inputTokens r)); ("outputTokens", JNum (wr_outputTokens r))]);
       ("costMicros", JNum (wr_costMicros r)); ("durationMs", JNum (wr_durationMs r));
       ("executionRecordRefs", JStrs (wr_executionRecordRefs r));
       ("dataClassification", JStr (classification_name (wr_dataClassification r)));
       ("output", wr_output r)]
  end.

Definition delegation_states (s : DelegationStatus) : list DelegationStatus :=
  match s with
  | delegation_created => [delegation_created; delegation_running; delegation_failed; delegation_cancelled]
  | delegation_running =>
      [delegation_running; delegation_validating; delegation_failed; delegation_cancelled]
  | delegation_validating =>
      [delegation_validating; delegation_completed; delegation_failed; delegation_cancelled]
  | delegation_completed => [delegation_completed]
  | delegation_failed => [delegation_failed]
  | delegation_cancelled => [delegation_cancelled]
  end.

Definition assertDelegationTransition (previous next : Delegation) : result exn unit :=
  throw_if
    ((stringify (JArr (immutable previous)) !== stringify (JArr (immutable next)))
     || negb (includes (dl_status next) (delegation_states (dl_status previous)))
     || (dl_progressEventsObserved next <? dl_progressEventsObserved previous)
     || (dl_executionGeneration next <? dl_executionGeneration previous)
     || (delegationIsTerminal next && negb (is_none (dl_executionClaim next)))
     || ((dl_status next === delegation_completed) && is_none (dl_workerResult next))
     || ((dl_status next !== delegation_completed) && negb (is_none (dl_workerResult next)))
     || (delegationIsTerminal previous
         && ((dl_failureReasonCode previous !== dl_failureReasonCode next)
             || (stringify (result_json (dl_workerResult previous))
                   !== stringify (result_json (dl_workerResult next))))))
    (portError INVALID_OPERATION "Invalid Delegation state transition" []).

Section transitions.
Context {W : Type} `{!DelegationStatePort W, !DelegationHandleLifecyclePort W}.

(** The update function returns [None] for the very object it was given. *)
Fixpoint update_attempts (attempts : nat) (scope : AutonomyScope) (id : string)
    (update : Delegation → M exn W (option Delegation)) : M exn W Delegation :=
  match attempts with
  | O => throw (portError CONFLICT "Delegation remained concurrent" [])
  | S attempts =>
      current ← delegation_read scope id;
      match current with
      | None => throw (portError NOT_FOUND "Delegation was not found" [])
      | Some current =>
          updated ← update current;
          match updated with
          | None => mret current
          | Some updated =>
              let next := updated <| dl_revision := dl_revision current + 1 |> in
              lift (assertDelegationTransition current next) ;;
              saved ← try_catch (d ← delegation_save next (dl_revision current); mret (Some d))
                        (λ error, if is_conflict error then mret None else throw error);
              match saved with
              | Some d => mret d
              | None => update_attempts attempts scope id update
              end
          end
      end
  end.

Definition updateDelegation (scope : AutonomyScope) (id : string)
    (update : Delegation → M exn W (option Delegation)) : M exn W Delegation :=
  update_attempts 8 scope id update.

(** The update that marks the handles of [delegation] ended. *)
Definition handlesEnded (delegation current : Delegation) : M exn W (option Delegation) :=
  if negb (is_none (dl_handlesEndedAt current)) then mret None
  else mret (Some (current <| dl_handlesEndedAt := Some (dl_updatedAt delegation) |>)).

Definition settleDelegationHandles (delegation : Delegation) : M exn W Delegation :=
  if negb (delegationIsTerminal delegation) || negb (is_none (dl_handlesEndedAt delegation))
  then mret delegation
  else
    endHandles (dl_ownerId delegation) (dl_agentId delegation) (dl_parentRunId delegation)
      (dl_capabilityHandleRefs delegation) (dl_updatedAt delegation) ;;
    updateDelegation (delegation_scope delegation) (dl_id delegation) (handlesEnded delegation).
End transitions.

(** ** packages/application/src/services/worker-result-service.ts and
    delegation-service.ts: the commit of a Worker's result, and the creation,
    execution and cancellation of delegations. *)

(** ** WorkerResultService *)
Section results.
Context {W : Type} `{!DelegationStatePort W, !DelegationHandleLifecyclePort W,
  !WorkerResultVerificationPort W, !ClockPort W}.

(** The result's own claims against the delegation's bounds. *)
Definition result_out_of_scope (latest : Delegation) (result : WorkerResult) : bool :=
  (wr_workerRunId result !== dl_workerRunId latest)
  || (wr_costMicros result <? 0)
  || (wr_durationMs result <? 0)
  || (db_maximumCostMicros (dl_budget latest) <? wr_costMicros result)
  || (db_maximumDurationMs (dl_budget latest) <? wr_durationMs result)
  || (wr_dataClassification result !== dl_dataClassification latest)
  || (wr_actualModelRef result !== dl_selectedModelRef latest)
  || negb (includes (wr_actualModelRef result) (dl_allowedModelRefs latest)).

(** The reason to refuse the result, if any. *)
Definition resultRefusal (latest : Delegation) (result : WorkerResult) : M exn W (option string) :=
  if result_out_of_scope latest result then mret (Some "WORKER_RESULT_SCOPE_INVALID")
  else
    verification ← verify_result latest result;
    if negb (wv_valid verification)
       || (0 <? List.length (wv_conflictRefs verification))%nat
       || (0 <? List.length (wv_invalidCitationRefs verification))%nat
    then mret (Some (or_else (wv_reasonCode verification) "WORKER_RESULT_VERIFICATION_FAILED"))
    else mret None.

(** The update that settles a validated result; an empty reason code counts as none. *)
Definition commitResult (claimId : string) (reason : option string) (result : WorkerResult)
    (current : Delegation) : M exn W (option Delegation) :=
  now ← clock_now;
  if negb (ownsDelegationClaim current claimId now) || (dl_status current !== delegation_validating)
  then mret None
  else
    updatedAt ← clock_now;
    let refused := negb (is_none (truthy reason)) in
    mret (Some (current
      <| dl_status := if refused then delegation_failed else delegation_completed |>
      <| dl_failureReasonCode := reason |>
      <| dl_workerResult := if refused then None else Some result |>
      <| dl_executionClaim := None |>
      <| dl_updatedAt := updatedAt |>)).

Definition validateAndCommit (delegation : Delegation) (result : WorkerResult) : M exn W Delegation :=
  latest ← delegation_read (delegation_scope delegation) (dl_id delegation);
  match latest with
  | None => throw (portError NOT_FOUND "Delegation disappeared" [])
  | Some latest =>
      if delegationIsTerminal latest then settleDelegationHandles latest
      else
        match truthy (xc_id <$> dl_executionClaim delegation) with
        | None => mret latest
        | Some claimId =>
            now ← clock_now;
            if negb (ownsDelegationClaim latest claimId now) then mret latest
            else
              throwM_if (dl_status latest !== delegation_validating)
                (portError INVALID_OPERATION "Delegation has not reserved a result for validation" []) ;;
              reason ← resultRefusal latest result;
              terminal ← updateDelegation (delegation_scope latest) (dl_id latest)
                (commitResult claimId reason result);
              settleDelegationHandles terminal
        end
  end.
End results.

(** ** DelegationService *)
Record CreateDelegationInput := mkCreate {
  cd_ownerId : OwnerId; cd_agentId : AgentId; cd_parentRunId : RunId; cd_traceRef : string;
  cd_subtaskRef : string; cd_outputSchema : json; cd_requestedContextRefs : list string;
  cd_requestedCapabilityHandleRefs : list string; cd_requestedModelRefs : list string;
  cd_selectedModelRef : string; cd_parentContextRefs : list string;
  cd_ownerGrantedContextRefs : list string; cd_parentCapabilityHandleRefs : list string;
  cd_ownerGrantedCapabilityHandleRefs : list string; cd_parentModelRefs : list string;
  cd_ownerGrantedModelRefs : list string; cd_requestedRecipientRef : option string;
  cd_dataClassification : DataClassification; cd_maximumDurationMs : Z; cd_requestedCostMicros : Z;
  cd_parentCostMicros : Z; cd_ownerGrantedCostMicros : Z; cd_maximumProgressEvents : Z;
  cd_deadlineAt : string; cd_depth : Z }.

Inductive CreateDelegationResult :=
  | outcome_created (delegation : Delegation)
  | outcome_proposal_required (proposalRef : string).

Definition subset (requested allowed : list string) : bool :=
  forallb (λ value, includes value allowed) requested.

Definition delegationAuthorized (input : CreateDelegationInput) : bool :=
  subset (cd_requestedContextRefs input) (cd_parentContextRefs input)
  && subset (cd_requestedContextRefs input) (cd_ownerGrantedContextRefs input)
  && subset (cd_requestedCapabilityHandleRefs input) (cd_parentCapabilityHandleRefs input)
  && subset (cd_requestedCapabilityHandleRefs input) (cd_ownerGrantedCapabilityHandleRefs input)
  && subset (cd_requestedModelRefs input) (cd_parentModelRefs input)
  && subset (cd_requestedModelRefs input) (cd_ownerGrantedModelRefs input)
  && (cd_requestedCostMicros input <=? cd_parentCostMicros input)
  && (cd_requestedCostMicros input <=? cd_ownerGrantedCostMicros input)
  && (cd_requestedRecipientRef input === None).

Definition newDelegation (input : CreateDelegationInput) (id workerRunId now : string) : Delegation :=
  mkDelegation id 1 (cd_ownerId input) (cd_agentId input) (cd_parentRunId input) (cd_traceRef input)
    workerRunId (cd_subtaskRef input) (cd_outputSchema input) (cd_requestedContextRefs input)
    (cd_requestedCapabilityHandleRefs input) (cd_requestedModelRefs input) (cd_selectedModelRef input)
    (cd_dataClassification input)
    (mkBudget (cd_maximumDurationMs input) (cd_requestedCostMicros input) (cd_maximumProgressEvents input))
    0 [] 0 None None None None (cd_deadlineAt input) 1 delegation_created None None None now now.

(** [JSON.stringify(event)] of a progress event, its keys in declaration order. *)
Definition progress_fingerprint (workerRunId : string) (sequence : Z) (payloadRef : option string)
    (occurredAt : string) : string :=
  stringify (JObj [("type", JStr "worker.progress"); ("workerRunId", JStr workerRunId);
    ("sequence", JNum sequence); ("payloadRef", JOptStr payloadRef); ("occurredAt", JStr occurredAt)]).
Arguments progress_fingerprint : simpl never.

Section service.
Context {W : Type} `{!DelegationStatePort W, !DelegationHandleLifecyclePort W,
  !WorkerResultVerificationPort W, !WorkerResultReaderPort W, !WorkerRunPort W,
  !DelegationProposalPort W, !ClockPort W, !IdGeneratorPort W}.

Definition create (input : CreateDelegationInput) : M exn W CreateDelegationResult :=
  (if (cd_depth input !== 1) || negb (includes (cd_selectedModelRef input) (cd_requestedModelRefs input))
   then throw (portError INVALID_OPERATION "Worker delegation is recursive, expired, or unbounded" [])
   else
     now ← clock_now;
     throwM_if
       (str_le (cd_deadlineAt input) now || (cd_maximumDurationMs input <? 1)
        || (cd_maximumProgressEvents input <? 1) || (cd_requestedCostMicros input <? 0))
       (portError INVALID_OPERATION "Worker delegation is recursive, expired, or unbounded" [])) ;;
  if negb (delegationAuthorized input)
  then
    proposalRef ← protectScopeExpansion
      (mkExpansion (cd_ownerId input) (cd_agentId input) (cd_parentRunId input)
         (cd_requestedContextRefs input) (cd_requestedCapabilityHandleRefs input)
         (cd_requestedModelRefs input) (cd_requestedCostMicros input) (cd_requestedRecipientRef input));
    mret (outcome_proposal_required proposalRef)
  else
    now ← clock_now;
    id ← ids_next "delegation";
    workerRunId ← ids_next "worker-run";
    created ← delegation_create (newDelegation input id workerRunId now);
    mret (outcome_created created).

(** [#terminal] *)
Definition terminal (current : Delegation) (status : DelegationStatus) (reasonCode : string)
    : M exn W Delegation :=
  updatedAt ← clock_now;
  mret (current <| dl_status := status |> <| dl_failureReasonCode := Some reasonCode |>
    <| dl_workerResult := None |> <| dl_executionClaim := None |> <| dl_updatedAt := updatedAt |>).

Definition terminal_update (current : Delegation) (status : DelegationStatus) (reasonCode : string)
    : M exn W (option Delegation) :=
  d ← terminal current status reasonCode; mret (Some d).

(** [#updateClaim] *)
Definition claim_update (claimId : string) (update : Delegation → M exn W (option Delegation))
    (current : Delegation) : M exn W (option Delegation) :=
  now ← clock_now;
  if delegationIsTerminal current then mret None
  else
    match dl_executionClaim current with
    | None => mret None
    | Some claim =>
        if xc_id claim !== claimId then mret None
        else if str_le (xc_leaseUntil claim) now then mret None
        else if str_le (dl_deadlineAt current) now
        then terminal_update current delegation_cancelled "DEADLINE_EXPIRED"
        else update current
    end.

Definition updateClaim (delegation : Delegation) (claimId : string)
    (update : Delegation → M exn W (option Delegation)) : M exn W Delegation :=
  updateDelegation (delegation_scope delegation) (dl_id delegation) (claim_update claimId update).

(** The update that marks the Worker cancelled. *)
Definition workerCancelled (latest : Delegation) : M exn W (option Delegation) :=
  if negb (is_none (dl_workerCancelledAt latest)) then mret None
  else mret (Some (latest <| dl_workerCancelledAt := Some (dl_updatedAt latest) |>)).

(** [#settleTerminal] *)
Definition settleTerminal (delegation : Delegation) : M exn W Delegation :=
  if negb (delegationIsTerminal delegation) then mret delegation
  else
    current ← settleDelegationHandles delegation;
    if (dl_status current === delegation_cancelled) && is_none (dl_workerCancelledAt current)
    then
      worker_cancel (dl_workerRunId current) (or_else (dl_failureReasonCode current) "CANCELLED") ;;
      updateDelegation (delegation_scope current) (dl_id current) workerCancelled
    else mret current.

(** [#validatePending] *)
Definition validatePending (delegation : Delegation) : M exn W Delegation :=
  match truthy (dl_pendingResultRef delegation) with
  | None => throw (OtherError "TypeError" "Delegation has no pending result")
  | Some ref =>
      result ← result_read ref;
      validateAndCommit delegation result
  end.

(** The lease runs for the budgeted duration, but not past the deadline. *)
Definition leaseUntil (current : Delegation) (now : string) : result exn string :=
  match dateParse (dl_deadlineAt current), dateParse now with
  | Some deadline, Some nowMs =>
      isoOfTime (Z.min deadline (nowMs + db_maximumDurationMs (dl_budget current)))
  | _, _ => Err invalidTime
  end.

(** The update that claims a delegation for execution. *)
Definition claimExecution (claimId : string) (current : Delegation) : M exn W (option Delegation) :=
  now ← clock_now;
  if delegationIsTerminal current
     || match dl_executionClaim current with
        | Some claim => str_lt now (xc_leaseUntil claim)
        | None => false
        end
  then mret None
  else if str_le (dl_deadlineAt current) now
  then terminal_update current delegation_cancelled "DEADLINE_EXPIRED"
  else
    until ← lift (leaseUntil current now);
    mret (Some (current
      <| dl_status := if is_none (truthy (dl_pendingResultRef current))
                      then delegation_running else delegation_validating |>
      <| dl_executionGeneration := dl_executionGeneration current + 1 |>
      <| dl_executionClaim := Some (mkExecutionClaim claimId until) |>
      <| dl_updatedAt := now |>)).

(** The update for one event of the Worker. *)
Definition apply_event (event : WorkerRunEvent) (current : Delegation) : M exn W (option Delegation) :=
  match event with
  | worker_progress workerRunId sequence payloadRef occurredAt =>
      if negb (isSafeInteger sequence) || (sequence <? 1)
      then terminal_update current delegation_failed "WORKER_PROGRESS_SEQUENCE_INVALID"
      else
        let fingerprint := progress_fingerprint workerRunId sequence payloadRef occurredAt in
        match List.find (λ r : Z * string, r.1 =? sequence) (dl_progressReceipts current) with
        | Some previous =>
            if previous.2 === fingerprint then mret None
            else terminal_update current delegation_failed "WORKER_PROGRESS_REPLAY_CONFLICT"
        | None =>
            if db_maximumProgressEvents (dl_budget current) <=? dl_progressEventsObserved current
            then terminal_update current delegation_cancelled "PROGRESS_BUDGET_EXCEEDED"
            else
              updatedAt ← clock_now;
              mret (Some (current
                <| dl_progressEventsObserved := dl_progressEventsObserved current + 1 |>
                <| dl_progressReceipts := dl_progressReceipts current ++ [(sequence, fingerprint)] |>
                <| dl_updatedAt := updatedAt |>))
        end
  | worker_completed _ resultRef _ _ _ =>
      updatedAt ← clock_now;
      mret (Some (current <| dl_status := delegation_validating |>
        <| dl_pendingResultRef := Some resultRef |> <| dl_updatedAt := updatedAt |>))
  | worker_cancelled _ reasonCode _ => terminal_update current delegation_cancelled reasonCode
  | worker_failed _ errorCode _ => terminal_update current delegation_failed errorCode
  | worker_result_unknown _ _ _ => terminal_update current delegation_failed "RESULT_UNKNOWN"
  end.

Definition run_request (active : Delegation) : WorkerRunRequest :=
  mkRunRequest (dl_workerRunId active) (dl_id active) (dl_ownerId active) (dl_agentId active)
    (dl_parentRunId active) (dl_subtaskRef active) (dl_selectedModelRef active)
    (dl_allowedModelRefs active) (dl_outputSchema active) (dl_contextRefs active)
    (dl_capabilityHandleRefs active) [] (dl_dataClassification active)
    (mkRunBudget (db_maximumDurationMs (dl_budget active)) (db_maximumCostMicros (dl_budget active))
       (db_maximumProgressEvents (dl_budget active)))
    (dl_deadlineAt active).

Definition releaseClaim (current : Delegation) : M exn W (option Delegation) :=
  mret (Some (current <| dl_executionClaim := None |>)).

(** The [catch] of [execute], for a step taken while [active] was current. *)
Definition release_on_error {A} (active : Delegation) (claimId : string) (m : M exn W A) : M exn W A :=
  try_catch m (λ error,
    updateClaim active claimId releaseClaim ;;
    throw (match error with
           | PortError _ => error
           | _ => portError PROVIDER_FAILURE "Worker process failed" []
           end)).

(** The update when the Worker's events end without a result. *)
Definition streamEnded (current : Delegation) : M exn W (option Delegation) :=
  terminal_update current delegation_failed "WORKER_TERMINATED_WITHOUT_RESULT".

(** The event loop of [execute]; [None] when the Worker has sent [fuel] events
    and the loop goes on. *)
Fixpoint execute_events (fuel : nat) (request : WorkerRunRequest) (n : nat) (claimId : string)
    (active : Delegation) : M exn W (option Delegation) :=
  match fuel with
  | O => mret None
  | S fuel =>
      event ← release_on_error active claimId (worker_next request n);
      match event with
      | None =>
          active ← release_on_error active claimId
            (updateClaim active claimId streamEnded);
          d ← settleTerminal active; mret (Some d)
      | Some event =>
          release_on_error active claimId
            (throwM_if (event_workerRunId event !== dl_workerRunId active)
               (portError PROVIDER_FAILURE "Worker emitted an event for another run" [])) ;;
          active ← release_on_error active claimId (updateClaim active claimId (apply_event event));
          now ← release_on_error active claimId clock_now;
          if negb (ownsDelegationClaim active claimId now)
          then d ← settleTerminal active; mret (Some d)
          else if negb (is_none (truthy (dl_pendingResultRef active)))
          then d ← release_on_error active claimId (validatePending active); mret (Some d)
          else execute_events fuel request (S n) claimId active
      end
  end.

Definition execute (fuel : nat) (scope : AutonomyScope) (delegationId : string)
    : M exn W (option Delegation) :=
  claimId ← ids_next "delegation-attempt";
  active ← updateDelegation scope delegationId (claimExecution claimId);
  now ← clock_now;
  if negb (ownsDelegationClaim active claimId now)
  then d ← settleTerminal active; mret (Some d)
  else if negb (is_none (truthy (dl_pendingResultRef active)))
  then d ← release_on_error active claimId (validatePending active); mret (Some d)
  else execute_events fuel (run_request active) 0 claimId active.

Definition cancelWith (reasonCode : string) (current : Delegation) : M exn W (option Delegation) :=
  if delegationIsTerminal current then mret None
  else terminal_update current delegation_cancelled reasonCode.

Definition cancel (scope : AutonomyScope) (delegationId reasonCode : string) : M exn W Delegation :=
  cancelled ← updateDelegation scope delegationId (cancelWith reasonCode);
  settleTerminal cancelled.
End service.
