(* ===== verification/DelegationContract.v ===== *)
(** The contract of [DelegationStatePort] and what it gives: delegations that
    only change along the allowed transitions, and updates that are never
    lost.  The theorems on the services of Delegation.v. *)
From S2P Require Import Prelude Js JsDate JsJson Identifiers Contract.
From S2P Require Import AuthTypes Deterministic Delegation.
Local Open Scope Z_scope.

(** ** The allowed transitions, condition by condition *)
Record same_terms (d d' : Delegation) : Prop := mk_same_terms {
  st_id : dl_id d' = dl_id d;
  st_owner : dl_ownerId d' = dl_ownerId d;
  st_agent : dl_agentId d' = dl_agentId d;
  st_parent : dl_parentRunId d' = dl_parentRunId d;
  st_worker : dl_workerRunId d' = dl_workerRunId d;
  st_trace : dl_traceRef d' = dl_traceRef d;
  st_subtask : dl_subtaskRef d' = dl_subtaskRef d;
  st_schema : dl_outputSchema d' = dl_outputSchema d;
  st_context : dl_contextRefs d' = dl_contextRefs d;
  st_handles : dl_capabilityHandleRefs d' = dl_capabilityHandleRefs d;
  st_models : dl_allowedModelRefs d' = dl_allowedModelRefs d;
  st_selected : dl_selectedModelRef d' = dl_selectedModelRef d;
  st_budget : dl_budget d' = dl_budget d;
  st_deadline : dl_deadlineAt d' = dl_deadlineAt d;
  st_class : dl_dataClassification d' = dl_dataClassification d;
  st_depth : dl_depth d' = dl_depth d;
  st_created : dl_createdAt d' = dl_createdAt d;
}.

Lemma same_terms_refl d : same_terms d d.
Proof. by split. Qed.

Lemma same_terms_trans d1 d2 d3 : same_terms d1 d2 → same_terms d2 d3 → same_terms d1 d3.
Proof. intros [] []. split; congruence. Qed.

Record transition_ok (d d' : Delegation) : Prop := mk_transition_ok {
  to_terms : same_terms d d';
  to_status : dl_status d' ∈ delegation_states (dl_status d);
  to_progress : dl_progressEventsObserved d ≤ dl_progressEventsObserved d';
  to_generation : dl_executionGeneration d ≤ dl_executionGeneration d';
  to_claim : delegationIsTerminal d' = true → dl_executionClaim d' = None;
  to_result : dl_status d' = delegation_completed ↔ is_Some (dl_workerResult d');
  to_final : delegationIsTerminal d = true →
    dl_failureReasonCode d' = dl_failureReasonCode d ∧ dl_workerResult d' = dl_workerResult d;
}.

(** Equations of JSON values, classifications included. *)
Ltac delegation_split := json_split;
  repeat match goal with
  | H : classification_name _ = classification_name _ |- _ => apply classification_name_inj in H
  end.

Lemma budget_json_inj b b' : budget_json b = budget_json b' → b = b'.
Proof. destruct b, b'. unfold budget_json. cbn. intros H. delegation_split. congruence. Qed.

Lemma immutable_inj d d' : immutable d = immutable d' → same_terms d d'.
Proof.
  unfold immutable. intros H. delegation_split.
  match goal with H : budget_json _ = budget_json _ |- _ => apply budget_json_inj in H end.
  by split.
Qed.

Lemma immutable_same d d' : same_terms d d' → immutable d = immutable d'.
Proof. intros []. unfold immutable. congruence. Qed.

Lemma result_json_inj r r' : result_json r = result_json r' → r = r'.
Proof.
  destruct r as [r|], r' as [r'|]; [|done..]. intros H. cbn in H. delegation_split.
  destruct r, r'. cbn in *. by subst.
Qed.

Lemma assertDelegationTransition_spec d d' :
  assertDelegationTransition d d' = Ok tt ↔ transition_ok d d'.
Proof.
  unfold assertDelegationTransition. rewrite throw_if_Ok. split.
  - intros H. repeat apply orb_false_iff in H as [H ?].
    repeat match goal with
    | H : negb _ = false |- _ => apply negb_false_iff in H
    | H : bool_decide _ = true |- _ => apply bool_decide_eq_true in H
    | H : (_ <? _) = false |- _ => apply Z.ltb_ge in H
    | H : includes _ _ = true |- _ => apply includes_spec in H
    end.
    apply stringify_inj in H. assert (immutable d = immutable d') as Him by congruence.
    split; [by apply immutable_inj|done|done|done| | |].
    + intros Ht. rewrite Ht in *. cbn in *. by destruct (dl_executionClaim d').
    + destruct (decide (dl_status d' = delegation_completed)) as [Hd|Hd].
      * rewrite (bool_decide_eq_true_2 _ Hd) in *. cbn in *. by destruct (dl_workerResult d').
      * rewrite (bool_decide_eq_false_2 _ Hd) in *. cbn in *. destruct (dl_workerResult d'); [done|].
        split; [done|]. by intros [].
    + intros Ht. rewrite Ht in *. cbn in *.
      match goal with H : _ || _ = false |- _ => apply orb_false_iff in H as [Hf Hr] end.
      apply negb_false_iff, bool_decide_eq_true in Hf, Hr. apply stringify_inj, result_json_inj in Hr.
      done.
  - intros [Ht Hs Hp Hg Hc Hr Hf]. rewrite (immutable_same _ _ Ht), bool_decide_eq_true_2 by done.
    apply includes_spec in Hs. rewrite Hs. apply Z.ltb_ge in Hp, Hg. rewrite Hp, Hg. cbn.
    destruct (decide (dl_status d' = delegation_completed)) as [Hd|Hd].
    + rewrite (bool_decide_eq_true_2 _ Hd). destruct (proj1 Hr Hd) as [r Er]. rewrite Er. cbn.
      assert (delegationIsTerminal d' = true) as Htd by (unfold delegationIsTerminal; by rewrite Hd).
      rewrite (Hc Htd), Htd. cbn. destruct (delegationIsTerminal d) eqn:Htt; [|done]. cbn.
      destruct (Hf eq_refl) as [-> Hw]. rewrite <-Hw, Er. by rewrite !bool_decide_eq_true_2.
    + rewrite (bool_decide_eq_false_2 _ Hd). destruct (dl_workerResult d') as [r|] eqn:Er;
      [exfalso; apply Hd, Hr; by exists r|].
      cbn. assert (delegationIsTerminal d' && negb (is_none (dl_executionClaim d')) = false) as ->.
      { destruct (delegationIsTerminal d') eqn:Htd; [|done]. by rewrite Hc. }
      cbn. destruct (delegationIsTerminal d) eqn:Htt; [|done]. cbn.
      destruct (Hf eq_refl) as [-> Hw]. rewrite <-Hw. by rewrite !bool_decide_eq_true_2.
Qed.

(** ** The contract: delegations by identifier, created at revision 1 and
    replaced by compare-and-set along the allowed transitions *)
Abbreviation delegations := (gmap string Delegation).

Definition in_scope (scope : AutonomyScope) (d : Delegation) : bool :=
  (dl_ownerId d === sp_ownerId scope) && (dl_agentId d === sp_agentId scope).

Definition lookup_delegation (scope : AutonomyScope) (id : string) (s : delegations) : option Delegation :=
  d ← s !! id; if in_scope scope d then Some d else None.

Definition del_create_effect (d result : Delegation) (s s' : delegations) : Prop :=
  dl_revision d = 1 ∧ s !! dl_id d = None ∧ result = d ∧ s' = <[dl_id d := d]> s.

Definition save_effect (next : Delegation) (expectedRevision : Z) (result : Delegation)
    (s s' : delegations) : Prop :=
  ∃ previous, s !! dl_id next = Some previous ∧ dl_revision previous = expectedRevision ∧
    dl_revision next = expectedRevision + 1 ∧ transition_ok previous next ∧
    result = next ∧ s' = <[dl_id next := next]> s.

Inductive del_step (s s' : delegations) : Prop :=
  | del_created d result : del_create_effect d result s s' → del_step s s'
  | del_saved next e result : save_effect next e result s s' → del_step s s'.

Definition dels_wf (s : delegations) : Prop := ∀ k d, s !! k = Some d → dl_id d = k.

Class DelegationLaws (W : Type) `{!DelegationStatePort W} (view : W → delegations) (inv : W → Prop) : Prop := {
  law_dels_wf : ∀ w, inv w → dels_wf (view w);
  law_delegation_read : ∀ scope id,
    gen_op_law del_step view inv (gen_reads (λ o s, o = lookup_delegation scope id s))
      (delegation_read scope id);
  law_delegation_create : ∀ d,
    gen_op_law del_step view inv (del_create_effect d) (delegation_create d);
  law_delegation_save : ∀ d e,
    gen_op_law del_step view inv (save_effect d e) (delegation_save d e);
}.

(** ** How one delegation evolves *)
Definition status_rank (s : DelegationStatus) : Z :=
  match s with
  | delegation_created => 0 | delegation_running => 1 | delegation_validating => 2
  | delegation_completed | delegation_failed | delegation_cancelled => 3
  end.

Record delegation_evolves (d d' : Delegation) : Prop := mk_del_evolves {
  ev_terms : same_terms d d';
  ev_rank : status_rank (dl_status d) ≤ status_rank (dl_status d');
  ev_progress : dl_progressEventsObserved d ≤ dl_progressEventsObserved d';
  ev_generation : dl_executionGeneration d ≤ dl_executionGeneration d';
  ev_revision : dl_revision d ≤ dl_revision d';
  ev_same : dl_revision d' = dl_revision d → d' = d;
  ev_final : delegationIsTerminal d = true →
    dl_status d' = dl_status d ∧ dl_failureReasonCode d' = dl_failureReasonCode d ∧
    dl_workerResult d' = dl_workerResult d;
  ev_completed : d' = d ∨
    (dl_status d' = delegation_completed ↔ is_Some (dl_workerResult d')) ∧
    (delegationIsTerminal d' = true → dl_executionClaim d' = None);
}.

Lemma evolves_refl d : delegation_evolves d d.
Proof. split; try done. by left. Qed.

Lemma terminal_status d d' : dl_status d' = dl_status d → delegationIsTerminal d' = delegationIsTerminal d.
Proof. unfold delegationIsTerminal. by intros ->. Qed.

Lemma evolves_trans d1 d2 d3 : delegation_evolves d1 d2 → delegation_evolves d2 d3 → delegation_evolves d1 d3.
Proof.
  intros [T1 R1 P1 G1 V1 S1 F1 C1] [T2 R2 P2 G2 V2 S2 F2 C2].
  split; try lia; [by eapply same_terms_trans| | |].
  - intros H. assert (d2 = d1) by (apply S1; lia). assert (d3 = d2) by (apply S2; lia). congruence.
  - intros H. destruct (F1 H) as (E1 & E2 & E3). rewrite <-(terminal_status _ _ E1) in H.
    destruct (F2 H) as (E4 & E5 & E6). repeat split; congruence.
  - destruct C2 as [->|C2]; [done|by right].
Qed.

Lemma states_forward a b : b ∈ delegation_states a →
  status_rank a ≤ status_rank b ∧ (status_rank a = 3 → b = a).
Proof.
  intros H%includes_spec. destruct a, b; vm_compute in H; (discriminate H || (split; [done|intros [=]; done])).
Qed.

Lemma transition_evolves d d' : transition_ok d d' → dl_revision d' = dl_revision d + 1 → delegation_evolves d d'.
Proof.
  intros [Ht Hs Hp Hg Hc Hr Hf] Hv. split; try done; try lia.
  - by apply states_forward.
  - intros Htd. destruct (Hf Htd) as [-> ->]. split; [|done]. unfold delegationIsTerminal in Htd.
    apply states_forward in Hs as [_ Hs]. apply Hs.
    destruct (dl_status d); (done || discriminate Htd).
  - by right.
Qed.

Lemma del_step_evolves s s' k d :
  dels_wf s → del_step s s' → s !! k = Some d → ∃ d', s' !! k = Some d' ∧ delegation_evolves d d'.
Proof.
  intros Hwf [x result (_ & Hn & _ & ->)|next e result (p & Hp & He & Hr & Ht & _ & ->)] Hk.
  - rewrite lookup_insert_ne by (intros Heq; rewrite Heq in Hn; congruence). exists d. split; [done|apply evolves_refl].
  - destruct (decide (dl_id next = k)) as [Heq|Hne].
    + rewrite Heq, lookup_insert_eq. rewrite Heq, Hk in Hp. injection Hp as <-.
      exists next. split; [done|]. apply transition_evolves; [done|lia].
    + rewrite lookup_insert_ne by done. exists d. split; [done|apply evolves_refl].
Qed.

Lemma del_step_wf s s' : del_step s s' → dels_wf s → dels_wf s'.
Proof.
  intros [x result (_ & Hn & _ & ->)|next e result (p & Hp & He & Hr & Ht & _ & ->)] Hwf k d;
    intros [[<- <-]|[_ Hk]]%lookup_insert_Some; [done|by apply Hwf|done|by apply Hwf].
Qed.

Lemma del_steps_evolve s s' k d :
  dels_wf s → rtc del_step s s' → s !! k = Some d → ∃ d', s' !! k = Some d' ∧ delegation_evolves d d'.
Proof.
  intros Hwf H. revert Hwf d. induction H as [|s s1 s2 Hs _ IH]; intros Hwf d Hk.
  { exists d. split; [done|apply evolves_refl]. }
  destruct (del_step_evolves _ _ _ _ Hwf Hs Hk) as (d1 & Hk1 & He1).
  destruct (IH (del_step_wf _ _ Hs Hwf) _ Hk1) as (d2 & Hk2 & He2).
  exists d2. split; [done|]. by eapply evolves_trans.
Qed.

(** The life of a delegation under any interleaving of services: it stays
    stored; its terms (scope, parent Run, task, contexts, capability handles,
    models, budget, deadline, data class) never change; its status only moves
    forward; its revision, execution generation and progress count never
    decrease, and a record is determined by its revision; once it is completed,
    failed or cancelled its status, failure reason and result are final; and
    whatever was written carries a result exactly when it is completed, and no
    execution claim when it is terminal. *)
Theorem delegation_lifetime s s' k d :
  dels_wf s → rtc del_step s s' → s !! k = Some d →
  ∃ d', s' !! k = Some d' ∧ dl_id d' = k ∧ same_terms d d' ∧
    status_rank (dl_status d) ≤ status_rank (dl_status d') ∧
    dl_revision d ≤ dl_revision d' ∧ dl_executionGeneration d ≤ dl_executionGeneration d' ∧
    dl_progressEventsObserved d ≤ dl_progressEventsObserved d' ∧
    (dl_revision d' = dl_revision d → d' = d) ∧
    (delegationIsTerminal d = true → dl_status d' = dl_status d ∧
       dl_failureReasonCode d' = dl_failureReasonCode d ∧ dl_workerResult d' = dl_workerResult d) ∧
    (d' = d ∨ (dl_status d' = delegation_completed ↔ is_Some (dl_workerResult d')) ∧
       (delegationIsTerminal d' = true → dl_executionClaim d' = None)).
Proof.
  intros Hwf Hs Hk. destruct (del_steps_evolve _ _ _ _ Hwf Hs Hk) as (d' & Hk' & []).
  exists d'. split; [done|]. split; [by rewrite (st_id _ _ ev_terms0); apply Hwf|]. auto 20.
Qed.

(** ** The update loop *)
Section update.
Context {W : Type} `{!DelegationStatePort W} (view : W → delegations) (inv : W → Prop)
  `{!DelegationLaws W view inv}.
Abbreviation frame := (gen_frame_law del_step view inv) (only parsing).

(** A call that ends with [d] because the update function, run on the stored
    [current], left it alone, or gave [u], which replaced it. *)
Definition updated_by (scope : AutonomyScope) (id : string)
    (update : Delegation → M exn W (option Delegation)) (w w' : W) (d : Delegation) : Prop :=
  ∃ s current w1 o w2,
    rtc del_step (view w) s ∧ lookup_delegation scope id s = Some current ∧
    inv w1 ∧ rtc del_step s (view w1) ∧ update current w1 = (Ok o, w2) ∧
    rtc del_step (view w1) (view w2) ∧
    match o with
    | None => d = current ∧ rtc del_step (view w2) (view w')
    | Some u => ∃ s2, rtc del_step (view w2) s2 ∧ s2 !! id = Some current ∧
        d = u <| dl_revision := dl_revision current + 1 |> ∧ transition_ok current d ∧
        view w' = <[id := d]> s2
    end.

Lemma updated_before scope id update w w1 w' d :
  rtc del_step (view w) (view w1) → updated_by scope id update w1 w' d → updated_by scope id update w w' d.
Proof.
  intros Hs (s & c & w2 & o & w3 & H1 & H). exists s, c, w2, o, w3. split; [by etrans|done].
Qed.

Lemma lookup_delegation_Some scope id s d : lookup_delegation scope id s = Some d →
  s !! id = Some d ∧ dl_ownerId d = sp_ownerId scope ∧ dl_agentId d = sp_agentId scope.
Proof.
  unfold lookup_delegation, in_scope. destruct (s !! id) as [x|]; [cbn|done].
  destruct (_ && _) eqn:E; [|done]. intros [= ->].
  apply andb_true_iff in E as [E1%bool_decide_eq_true E2%bool_decide_eq_true]. done.
Qed.

Lemma update_attempts_Ok n scope id update w d w' :
  (∀ c, frame (update c)) → inv w → update_attempts n scope id update w = (Ok d, w') →
  inv w' ∧ updated_by scope id update w w' d.
Proof.
  intros Hu. revert w. induction n as [|n IH]; intros w Hi H; cbn [update_attempts] in H; [done|].
  apply M_bind_Ok in H as (o & w1 & Hr & H).
  destruct (reads_Ok _ _ _ _ _ _ _ _ (law_delegation_read _ _) Hi Hr) as (Hi1 & Hs1 & Ho).
  destruct o as [current|]; [|done]. apply M_bind_Ok in H as (updated & w2 & Hup & H).
  destruct (Hu _ _ _ _ Hi1 Hup) as [Hi2 Hs2]. destruct updated as [u|].
  2: { injection H as <- <-. split; [done|]. exists (view w1), current, w1, None, w2. done. }
  apply M_bind_Ok in H as ([] & w3 & Ht & H). injection Ht as Ht <-.
  apply assertDelegationTransition_spec in Ht.
  apply M_bind_Ok in H as (saved & w4 & Hsv & H). unfold try_catch, mbind, M_bind in Hsv.
  destruct (delegation_save _ _ w2) as [[x|x] w5] eqn:Es.
  - injection Hsv as <- <-. injection H as <- <-.
    destruct (op_law_Ok _ _ _ _ _ _ _ _ (law_delegation_save _ _) Hi2 Es)
      as (Hi5 & s & Hs5 & p & Hp & Hrev & _ & Htr & -> & Hv). split; [done|].
    destruct (lookup_delegation_Some _ _ _ _ (eq_sym Ho)) as (Hk & _ & _).
    assert (dl_id u = id) as Hid.
    { pose proof (st_id _ _ (to_terms _ _ Ht)) as Hid. cbn in Hid. rewrite Hid.
      by apply (law_dels_wf _ Hi1). }
    set (d := u <| dl_revision := dl_revision current + 1 |>) in *.
    change (dl_id d) with (dl_id u) in Hp, Hv. rewrite Hid in Hp, Hv.
    assert (p = current) as ->.
    { assert (rtc del_step (view w1) s) as Hs6 by by etrans.
      destruct (del_steps_evolve _ _ _ _ (law_dels_wf _ Hi1) Hs6 Hk) as (p' & Hp' & He).
      rewrite Hp in Hp'. injection Hp' as <-. by apply (ev_same _ _ He). }
    exists (view w1), current, w1, (Some u), w2. do 6 (split; [done|]). exists s.
    split; [done|]. split; [done|]. split; [done|]. split; [done|]. exact Hv.
  - destruct (is_conflict x); [|done]. injection Hsv as <- <-.
    destruct (law_delegation_save _ _ _ _ _ Hi2 Es) as (Hi5 & s & Hs5 & <-).
    destruct (IH _ Hi5 H) as [Hi' Hd]. split; [done|]. eapply updated_before; [|exact Hd].
    etrans; [exact Hs1|]. by etrans.
Qed.

(** The worlds in which an attempt of the loop starts: the attempts before it
    read a delegation, updated it, and were refused with a conflict. *)
Inductive attempt (scope : AutonomyScope) (id : string)
    (update : Delegation → M exn W (option Delegation)) (w : W) : W → Prop :=
  | attempt_first : attempt scope id update w w
  | attempt_next w1 current w2 u w3 x w4 :
      attempt scope id update w w1 →
      delegation_read scope id w1 = (Ok (Some current), w2) → update current w2 = (Ok (Some u), w3) →
      delegation_save (u <| dl_revision := dl_revision current + 1 |>) (dl_revision current) w3 = (Err x, w4) →
      is_conflict x = true → attempt scope id update w w4.

(** The last attempt of a call that answers [d]: the only one that can save. *)
Lemma update_attempts_run n scope id update w d w' :
  (∀ c, frame (update c)) → inv w → update_attempts n scope id update w = (Ok d, w') →
  ∃ w1 current w2 o w3, attempt scope id update w w1 ∧
    delegation_read scope id w1 = (Ok (Some current), w2) ∧ update current w2 = (Ok o, w3) ∧
    match o with
    | None => d = current ∧ w' = w3
    | Some u => d = u <| dl_revision := dl_revision current + 1 |> ∧
        delegation_save d (dl_revision current) w3 = (Ok d, w')
    end.
Proof.
  intros Hu Hi. cut (∀ w1, attempt scope id update w w1 → inv w1 →
    update_attempts n scope id update w1 = (Ok d, w') → ∃ w2 current w3 o w4, attempt scope id update w w2 ∧
    delegation_read scope id w2 = (Ok (Some current), w3) ∧ update current w3 = (Ok o, w4) ∧
    match o with
    | None => d = current ∧ w' = w4
    | Some u => d = u <| dl_revision := dl_revision current + 1 |> ∧
        delegation_save d (dl_revision current) w4 = (Ok d, w')
    end); [intros Hc; apply Hc; [constructor|done]|].
  clear Hi. induction n as [|n IH]; intros w1 Ha Hi H; cbn [update_attempts] in H; [done|].
  apply M_bind_Ok in H as (o & w2 & Hr & H).
  destruct (reads_Ok _ _ _ _ _ _ _ _ (law_delegation_read _ _) Hi Hr) as (Hi2 & _ & _).
  destruct o as [current|]; [|done]. apply M_bind_Ok in H as (updated & w3 & Hup & H).
  destruct (Hu _ _ _ _ Hi2 Hup) as [Hi3 _]. destruct updated as [u|].
  2: { injection H as <- <-. by exists w1, current, w2, None, w3. }
  apply M_bind_Ok in H as ([] & w4 & Ht & H). injection Ht as _ <-.
  apply M_bind_Ok in H as (saved & w5 & Hsv & H). unfold try_catch, mbind, M_bind in Hsv.
  destruct (delegation_save _ _ w3) as [[x|x] w6] eqn:Es.
  - injection Hsv as <- <-. injection H as <- <-.
    destruct (op_law_Ok _ _ _ _ _ _ _ _ (law_delegation_save _ _) Hi3 Es)
      as (_ & s & _ & p & _ & _ & _ & _ & -> & _).
    by exists w1, current, w2, (Some u), w3.
  - destruct (is_conflict x) eqn:Ex; [|done]. injection Hsv as <- <-.
    destruct (law_delegation_save _ _ _ _ _ Hi3 Es) as (Hi6 & _).
    apply (IH w6); [|done|done]. by eapply attempt_next.
Qed.

(** [d] was stored under its identifier at some moment up to the state [s]. *)
Definition seen (d : Delegation) (s : delegations) : Prop :=
  ∃ s0, dels_wf s0 ∧ s0 !! dl_id d = Some d ∧ rtc del_step s0 s.

Lemma seen_step d s s' : seen d s → rtc del_step s s' → seen d s'.
Proof. intros (s0 & Hwf & Hk & Hs) Hs'. exists s0. do 2 (split; [done|]). by etrans. Qed.

Lemma seen_lookup scope id s d : dels_wf s → lookup_delegation scope id s = Some d → seen d s ∧ dl_id d = id.
Proof.
  intros Hwf (Hk & _)%lookup_delegation_Some. pose proof (Hwf _ _ Hk) as Hid. split; [|done].
  exists s. rewrite Hid. done.
Qed.

(** What an update answers evolved from every version seen before. *)
Lemma updated_evolves scope id update w w' d x :
  inv w → updated_by scope id update w w' d → inv w' → seen x (view w) → dl_id x = id →
  delegation_evolves x d ∧ seen d (view w').
Proof.
  intros Hi (s & current & w1 & o & w2 & Hs & Hc & Hi1 & Hs1 & _ & Hs2 & Ho) Hi' (s0 & Hwf & Hk & Hs0) Hid.
  assert (rtc del_step s0 s) as Hs0s by by etrans.
  assert (dels_wf s) as Hwfs.
  { clear -Hwf Hs0s. revert Hwf. induction Hs0s; [done|]. intros. by eapply IHHs0s, del_step_wf. }
  destruct (seen_lookup _ _ _ _ Hwfs Hc) as [Hseen Hcid].
  destruct (lookup_delegation_Some _ _ _ _ Hc) as (Hcs & _).
  destruct (del_steps_evolve _ _ _ _ Hwf Hs0s Hk) as (c & Hc' & He). rewrite Hid, Hcs in Hc'.
  injection Hc' as <-. destruct o as [u|].
  - destruct Ho as (s2 & Hs3 & Hk2 & Hd & Ht & Hv). split.
    + eapply evolves_trans; [exact He|]. apply transition_evolves; [done|]. by rewrite Hd.
    + exists (view w'). split; [by apply law_dels_wf|]. split; [|done]. rewrite Hv.
      rewrite (st_id _ _ (to_terms _ _ Ht)), Hcid. apply lookup_insert_eq.
  - destruct Ho as [-> Hs3]. split; [done|]. eapply seen_step; [exact Hseen|]. etrans; [exact Hs1|]. by etrans.
Qed.

(** No update is lost: when [updateDelegation] returns, either the update
    function left the stored delegation it was given alone, and that is the
    answer; or the delegation it was given was still the stored one at the
    moment its update replaced it, one revision later, along an allowed
    transition, whatever other services did meanwhile. *)
Theorem update_not_lost scope id update w d w' :
  (∀ c, frame (update c)) → inv w → updateDelegation scope id update w = (Ok d, w') →
  inv w' ∧ updated_by scope id update w w' d.
Proof. apply update_attempts_Ok. Qed.
End update.

(** ** The services *)
Section services.
Context {W : Type} `{!DelegationStatePort W, !DelegationHandleLifecyclePort W,
  !WorkerResultVerificationPort W, !WorkerResultReaderPort W, !WorkerRunPort W,
  !DelegationProposalPort W, !ClockPort W, !IdGeneratorPort W}
  (view : W → delegations) (inv : W → Prop) `{!DelegationLaws W view inv}.
Abbreviation frame := (gen_frame_law del_step view inv) (only parsing).
Hypothesis clock_frame : frame clock_now.
Hypothesis ids_frame : ∀ ns, frame (ids_next ns).
Hypothesis handles_frame : ∀ o a r l t, frame (endHandles o a r l t).
Hypothesis proposal_frame : ∀ e, frame (protectScopeExpansion e).
Hypothesis verify_frame : ∀ d r, frame (verify_result d r).

(** The conditions of [create] on the authority that is handed down. *)
Record attenuated (input : CreateDelegationInput) : Prop := mk_attenuated {
  at_contexts : ∀ x, x ∈ cd_requestedContextRefs input →
    x ∈ cd_parentContextRefs input ∧ x ∈ cd_ownerGrantedContextRefs input;
  at_handles : ∀ x, x ∈ cd_requestedCapabilityHandleRefs input →
    x ∈ cd_parentCapabilityHandleRefs input ∧ x ∈ cd_ownerGrantedCapabilityHandleRefs input;
  at_models : ∀ x, x ∈ cd_requestedModelRefs input →
    x ∈ cd_parentModelRefs input ∧ x ∈ cd_ownerGrantedModelRefs input;
  at_cost : cd_requestedCostMicros input ≤ cd_parentCostMicros input ∧
    cd_requestedCostMicros input ≤ cd_ownerGrantedCostMicros input;
  at_recipient : cd_requestedRecipientRef input = None;
}.

Lemma subset_spec l l' : subset l l' = true ↔ ∀ x, x ∈ l → x ∈ l'.
Proof. unfold subset. rewrite forallb_elem. by setoid_rewrite includes_spec. Qed.

Lemma delegationAuthorized_spec input : delegationAuthorized input = true ↔ attenuated input.
Proof.
  unfold delegationAuthorized. rewrite !andb_true_iff, !subset_spec, !Z.leb_le, bool_decide_eq_true.
  split; [intros; destruct_and!; by split; eauto|].
  intros [H1 H2 H3 [H4 H5] H6]. split_and!; try done; intros x Hx; by apply H1 || apply H2 || apply H3.
Qed.

(** A new delegation has the terms of the request, and nothing has happened to it. *)
Record as_requested (input : CreateDelegationInput) (d : Delegation) : Prop := mk_as_requested {
  ar_scope : dl_ownerId d = cd_ownerId input ∧ dl_agentId d = cd_agentId input ∧
    dl_parentRunId d = cd_parentRunId input;
  ar_contexts : dl_contextRefs d = cd_requestedContextRefs input;
  ar_handles : dl_capabilityHandleRefs d = cd_requestedCapabilityHandleRefs input;
  ar_models : dl_allowedModelRefs d = cd_requestedModelRefs input ∧
    dl_selectedModelRef d = cd_selectedModelRef input;
  ar_class : dl_dataClassification d = cd_dataClassification input;
  ar_budget : db_maximumCostMicros (dl_budget d) = cd_requestedCostMicros input ∧
    db_maximumDurationMs (dl_budget d) = cd_maximumDurationMs input ∧
    db_maximumProgressEvents (dl_budget d) = cd_maximumProgressEvents input;
  ar_deadline : dl_deadlineAt d = cd_deadlineAt input;
  ar_depth : dl_depth d = 1;
  ar_new : dl_revision d = 1 ∧ dl_status d = delegation_created ∧ dl_executionClaim d = None ∧
    dl_executionGeneration d = 0 ∧ dl_progressEventsObserved d = 0 ∧ dl_workerResult d = None;
}.


(** *** Frames of the update functions *)
Lemma frame_terminal current status reason : frame (terminal_update current status reason).
Proof.
  unfold terminal_update, terminal. apply frame_bind; [|intros; apply frame_ret].
  apply frame_bind; [apply clock_frame|intros; apply frame_ret].
Qed.

Lemma frame_commitResult claimId reason result current : frame (commitResult claimId reason result current).
Proof.
  unfold commitResult. apply frame_bind; [apply clock_frame|intros now].
  destruct (_ || _); [apply frame_ret|]. apply frame_bind; [apply clock_frame|intros; apply frame_ret].
Qed.

Lemma frame_resultRefusal latest result : frame (resultRefusal latest result).
Proof.
  unfold resultRefusal. destruct (result_out_of_scope _ _); [apply frame_ret|].
  apply frame_bind; [apply verify_frame|]. intros v. destruct (_ || _); apply frame_ret.
Qed.

Lemma settle_spec x w d w' :
  inv w → seen x (view w) → settleDelegationHandles x w = (Ok d, w') →
  inv w' ∧ delegation_evolves x d ∧ seen d (view w').
Proof.
  intros Hi Hx H. unfold settleDelegationHandles in H. destruct (_ || _).
  { injection H as <- <-. split; [done|]. split; [apply evolves_refl|done]. }
  apply M_bind_Ok in H as ([] & w1 & He & H). destruct (handles_frame _ _ _ _ _ _ _ _ Hi He) as [Hi1 Hs1].
  apply (update_attempts_Ok view inv 8) in H as [Hi' Hu];
    [|intros c; unfold handlesEnded; destruct (negb _); apply frame_ret|done].
  split; [done|]. eapply (updated_evolves view inv); try done. by eapply seen_step.
Qed.

(** ** Committing a result *)
Record result_in_scope (d : Delegation) (result : WorkerResult) : Prop := mk_result_in_scope {
  rs_worker : wr_workerRunId result = dl_workerRunId d;
  rs_cost : 0 ≤ wr_costMicros result ≤ db_maximumCostMicros (dl_budget d);
  rs_duration : 0 ≤ wr_durationMs result ≤ db_maximumDurationMs (dl_budget d);
  rs_class : wr_dataClassification result = dl_dataClassification d;
  rs_model : wr_actualModelRef result = dl_selectedModelRef d ∧
    wr_actualModelRef result ∈ dl_allowedModelRefs d;
}.

Lemma result_out_of_scope_spec d result : result_out_of_scope d result = false ↔ result_in_scope d result.
Proof.
  unfold result_out_of_scope. rewrite !orb_false_iff, !negb_false_iff, !bool_decide_eq_true, !Z.ltb_ge,
    includes_spec.
  split; [intros; destruct_and!; by split|intros []; destruct_and!; by split_and!].
Qed.

Lemma in_scope_terms d d' result : same_terms d d' → result_in_scope d result → result_in_scope d' result.
Proof. intros [] []. split; congruence. Qed.

(** What the verifier has to answer for a result to be taken: it passed it, or
    refused it with an empty reason code. *)
Definition verdict_passes (v : WorkerVerification) : Prop :=
  wv_valid v = true ∧ wv_conflictRefs v = [] ∧ wv_invalidCitationRefs v = [] ∨
  wv_reasonCode v = Some "".

Lemma resultRefusal_None latest result w reason w' :
  resultRefusal latest result w = (Ok reason, w') → truthy reason = None →
  result_in_scope latest result ∧ ∃ v, verify_result latest result w = (Ok v, w') ∧ verdict_passes v.
Proof.
  unfold resultRefusal. destruct (result_out_of_scope latest result) eqn:E.
  { intros H. by injection H as <- <-. }
  apply result_out_of_scope_spec in E. intros H Ht. split; [done|].
  apply M_bind_Ok in H as (v & w1 & Hv & H). exists v.
  destruct (negb (wv_valid v) || _ || _) eqn:Eg; injection H as <- <-; (split; [done|]).
  - right. destruct (wv_reasonCode v) as [[|]|]; done.
  - left. repeat apply orb_false_iff in Eg as [Eg ?]. rewrite Nat.ltb_ge in *.
    split; [by apply negb_false_iff|]. split; apply length_zero_iff_nil; lia.
Qed.

(** The claim under which [d] was given still holds in [current] at [now]. *)
Definition holds_claim (d current : Delegation) (now : string) : Prop :=
  ∃ claim c, dl_executionClaim d = Some claim ∧ dl_executionClaim current = Some c ∧
    xc_id c = xc_id claim ∧ str_lt now (xc_leaseUntil c) = true.

Lemma ownsDelegationClaim_spec d claimId now : ownsDelegationClaim d claimId now = true ↔
  delegationIsTerminal d = false ∧
  ∃ c, dl_executionClaim d = Some c ∧ xc_id c = claimId ∧ str_lt now (xc_leaseUntil c) = true.
Proof.
  unfold ownsDelegationClaim. rewrite andb_true_iff, negb_true_iff.
  destruct (dl_executionClaim d) as [c|]; [|naive_solver].
  rewrite andb_true_iff, bool_decide_eq_true. naive_solver.
Qed.

Lemma completed_terminal d : dl_status d = delegation_completed → delegationIsTerminal d = true.
Proof. unfold delegationIsTerminal. by intros ->. Qed.

Lemma completed_not_open d : dl_status d = delegation_completed → delegationIsTerminal d = false → False.
Proof. intros Hd. by rewrite (completed_terminal _ Hd). Qed.

Lemma evolves_completed d d' : delegationIsTerminal d = true → delegation_evolves d d' →
  dl_status d' = delegation_completed → dl_status d = delegation_completed ∧ dl_workerResult d' = dl_workerResult d.
Proof. intros Ht He Hd. destruct (ev_final _ _ He Ht) as (H1 & _ & H2). split; congruence. Qed.

(** [commitResult] wrote a completed delegation: the claim held and the reason was empty. *)
Lemma commitResult_completed claimId reason result current w u w' :
  commitResult claimId reason result current w = (Ok (Some u), w') → dl_status u = delegation_completed →
  truthy reason = None ∧ dl_workerResult u = Some result ∧ dl_status current = delegation_validating ∧
  ∃ now w1 c, clock_now w = (Ok now, w1) ∧
    dl_executionClaim current = Some c ∧ xc_id c = claimId ∧ str_lt now (xc_leaseUntil c) = true.
Proof.
  unfold commitResult. intros H Hd. apply M_bind_Ok in H as (now & w1 & Hn & H).
  destruct (_ || _) eqn:E; [done|]. apply orb_false_iff in E as [E1 E2].
  apply negb_false_iff, ownsDelegationClaim_spec in E1 as (_ & c & Hc). guards_in E2.
  apply M_bind_Ok in H as (t & w2 & _ & H). injection H as <- <-. cbn in Hd |- *.
  destruct (truthy reason); [done|]. split; [done|]. split; [done|]. split; [done|]. by exists now, w1, c.
Qed.

(** This call's own completion of the delegation it first read as [latest], in
    the world [w0] left by that read: the claim was held, the result was in
    scope and passed by the verifier; then, in the last attempt of the update
    loop (no attempt before it saved), the delegation read was still
    validating under the same claim, with the lease running at the clock's
    time, and was replaced by its completion with the result. *)
Definition committed_here (delegation latest : Delegation) (result : WorkerResult) (w0 : W) : Prop :=
  ∃ claim now w1 v w2,
    dl_executionClaim delegation = Some claim ∧ clock_now w0 = (Ok now, w1) ∧
    ownsDelegationClaim latest (xc_id claim) now = true ∧ dl_status latest = delegation_validating ∧
    result_in_scope latest result ∧
    verify_result latest result w1 = (Ok v, w2) ∧ verdict_passes v ∧
    ∃ reason w3 current w4 now' w5 u0 u w6 w7,
      attempt (delegation_scope latest) (dl_id latest) (commitResult (xc_id claim) reason result) w2 w3 ∧
      delegation_read (delegation_scope latest) (dl_id latest) w3 = (Ok (Some current), w4) ∧
      clock_now w4 = (Ok now', w5) ∧ dl_status current = delegation_validating ∧
      holds_claim delegation current now' ∧
      commitResult (xc_id claim) reason result current w4 = (Ok (Some u0), w6) ∧
      u = u0 <| dl_revision := dl_revision current + 1 |> ∧
      dl_status u = delegation_completed ∧ dl_workerResult u = Some result ∧
      delegation_save u (dl_revision current) w6 = (Ok u, w7).

(** The delegation was completed already when this call read it: at first, or
    in an attempt of its update loop, before it saved anything. *)
Definition completed_before (delegation latest d : Delegation) (result : WorkerResult) (w0 : W) : Prop :=
  dl_status latest = delegation_completed ∧ dl_workerResult d = dl_workerResult latest ∨
  ∃ claim now w1 reason w2 w3 current w4,
    dl_executionClaim delegation = Some claim ∧ clock_now w0 = (Ok now, w1) ∧
    resultRefusal latest result w1 = (Ok reason, w2) ∧
    attempt (delegation_scope latest) (dl_id latest) (commitResult (xc_id claim) reason result) w2 w3 ∧
    delegation_read (delegation_scope latest) (dl_id latest) w3 = (Ok (Some current), w4) ∧
    dl_status current = delegation_completed ∧ dl_workerResult d = dl_workerResult current.

(** C26 A delegation is only ever completed with a result that was checked.
    When [validateAndCommit] answers with a completed delegation, it first
    read the stored delegation, and either it read the delegation completed,
    then or in its update loop before it saved anything, with the result it
    answers with; or this very call completed it with the given result.  In
    that case the result is from the delegation's Worker and within its budget,
    data class and models; the verifier was called on it and passed it (or
    refused it with an empty reason code); and the delegation that the
    completion replaced was read after that, still validating under the
    caller's execution claim, whose lease had not expired at the time the
    clock then gave. *)
Theorem result_commit_sound delegation result w d w' :
  inv w → validateAndCommit delegation result w = (Ok d, w') → dl_status d = delegation_completed →
  ∃ latest w0,
    delegation_read (delegation_scope delegation) (dl_id delegation) w = (Ok (Some latest), w0) ∧
    dl_id latest = dl_id delegation ∧ delegation_scope latest = delegation_scope delegation ∧
    (completed_before delegation latest d result w0 ∨
     dl_workerResult d = Some result ∧ result_in_scope d result ∧ committed_here delegation latest result w0).
Proof.
  intros Hi H Hd. unfold validateAndCommit in H. apply M_bind_Ok in H as (o & w1 & Hr & H).
  destruct (reads_Ok _ _ _ _ _ _ _ _ (law_delegation_read _ _) Hi Hr) as (Hi1 & _ & Ho).
  destruct o as [latest|]; [|done]. exists latest, w1. split; [done|].
  destruct (seen_lookup _ _ _ _ (law_dels_wf _ Hi1) (eq_sym Ho)) as [Hseen Hid].
  destruct (lookup_delegation_Some _ _ _ _ (eq_sym Ho)) as (_ & Hown & Hag).
  split; [done|]. split; [unfold delegation_scope; cbn in Hown, Hag; congruence|].
  destruct (delegationIsTerminal latest) eqn:Ht.
  { left. left. destruct (settle_spec _ _ _ _ Hi1 Hseen H) as (_ & He & _). by apply evolves_completed. }
  pose proof completed_not_open as Hnt.
  destruct (dl_executionClaim delegation) as [claim|] eqn:Edc; [|injection H as <- <-; exfalso; by eapply Hnt].
  destruct (truthy (xc_id <$> Some claim)) as [claimId|] eqn:Ecl; [|injection H as <- <-; exfalso; by eapply Hnt].
  assert (claimId = xc_id claim) as -> by (cbn in Ecl; destruct (xc_id claim); cbn in Ecl; congruence).
  apply M_bind_Ok in H as (now & w2 & Hn & H). destruct (clock_frame _ _ _ Hi1 Hn) as [Hi2 Hs2].
  destruct (negb (ownsDelegationClaim latest _ now)) eqn:Eo; [injection H as <- <-; exfalso; by eapply Hnt|].
  apply negb_false_iff in Eo.
  apply M_bind_Ok in H as ([] & w3 & Hv & H). injection Hv as Hv <-. apply throw_if_Ok in Hv. guards_in Hv.
  apply M_bind_Ok in H as (reason & w4 & Hre & H).
  destruct (frame_resultRefusal latest result _ _ _ Hi2 Hre) as [Hi4 Hs4].
  apply M_bind_Ok in H as (terminal & w5 & Hup & H).
  pose proof (frame_commitResult (xc_id claim) reason result) as Hfr.
  destruct (update_attempts_run view inv 8 _ _ _ _ _ _ Hfr Hi4 Hup)
    as (wk & current & wr & o & wu & Hat & Hrd & Hco & Hres).
  apply (update_attempts_Ok view inv 8) in Hup as [Hi5 Hu]; [|exact Hfr|done].
  destruct (updated_evolves view inv _ _ _ _ _ _ latest Hi4 Hu Hi5) as [Hev Hsn]; [|done|].
  { eapply seen_step; [exact Hseen|]. by etrans. }
  destruct (settle_spec _ _ _ _ Hi5 Hsn H) as (_ & Hes & _).
  assert (delegationIsTerminal terminal = true) as Htt.
  { destruct (delegationIsTerminal terminal) eqn:E; [done|]. exfalso.
    unfold settleDelegationHandles in H. rewrite E in H. cbn in H. injection H as <- <-. by eapply Hnt. }
  destruct (evolves_completed _ _ Htt Hes Hd) as [Htd Htr]. destruct o as [u|].
  - right. destruct Hres as [Hterm Hsv].
    assert (dl_status u = delegation_completed) as Hud by (by rewrite Hterm in Htd).
    destruct (commitResult_completed _ _ _ _ _ _ _ Hco Hud)
      as (Hreason & Hur & Hval & now' & wn & c & Hn' & Hcl & Hcid & Hlt).
    destruct (resultRefusal_None _ _ _ _ _ Hre Hreason) as [Hsc (v & Hver & Hpass)].
    split; [by rewrite Htr, Hterm|]. split.
    { eapply in_scope_terms; [|exact Hsc]. apply (same_terms_trans _ terminal); [apply Hev|apply Hes]. }
    exists claim, now, w2, v, w4. do 7 (split; [done|]).
    exists reason, wk, current, wr, now', wn, u, terminal, wu, w5. do 4 (split; [done|]).
    split; [by exists claim, c|]. do 3 (split; [done|]). split; [by rewrite Hterm|done].
  - left. right. destruct Hres as [-> ->].
    by exists claim, now, w2, reason, w4, wk, current, wr.
Qed.

(** ** Execution claims *)

(** One execution at a time: a delegation is claimed only when no claim on
    it is live at the clock's time and its deadline is ahead, and the new claim
    starts a new execution generation and ends no later than the deadline; and
    whatever is written under a claim replaces a delegation that still carries
    that claim, with its lease not expired. *)
Theorem execution_exclusive scope id claimId w d w' :
  inv w →
  (updateDelegation scope id (claimExecution claimId) w = (Ok d, w') →
   ∃ s current, rtc del_step (view w) s ∧ s !! id = Some current ∧
     (d = current ∨ delegationIsTerminal d = true ∨
      ∃ now until, str_lt now (dl_deadlineAt current) = true ∧
        (∀ c, dl_executionClaim current = Some c → str_le (xc_leaseUntil c) now = true) ∧
        dl_executionClaim d = Some (mkExecutionClaim claimId until) ∧
        leaseUntil current now = Ok until ∧
        dl_executionGeneration d = dl_executionGeneration current + 1)) ∧
  (∀ update, (∀ c, frame (update c)) →
   updateDelegation scope id (claim_update claimId update) w = (Ok d, w') →
   ∃ s current, rtc del_step (view w) s ∧ s !! id = Some current ∧
     (d = current ∨ ∃ c now, delegationIsTerminal current = false ∧
        dl_executionClaim current = Some c ∧ xc_id c = claimId ∧ str_lt now (xc_leaseUntil c) = true)).
Proof.
  intros Hi. split.
  - intros H. apply (update_attempts_Ok view inv 8) in H as [Hi' Hu]; [| |done].
    2: { intros c. unfold claimExecution. apply frame_bind; [apply clock_frame|intros now].
      destruct (_ || _); [apply frame_ret|]. destruct (str_le _ _); [apply frame_terminal|].
      apply frame_bind; [apply frame_lift|intros; apply frame_ret]. }
    destruct Hu as (s & current & w1 & o & w2 & Hs & Hc & Hi1 & Hs1 & Hup & _ & Ho).
    destruct (lookup_delegation_Some _ _ _ _ Hc) as (Hk & _). exists s, current.
    split; [done|]. split; [done|]. destruct o as [u|]; [|left; by destruct Ho]. right.
    destruct Ho as (s2 & _ & _ & Hd & _ & _). unfold claimExecution in Hup.
    apply M_bind_Ok in Hup as (now & w3 & _ & Hup). destruct (_ || _) eqn:E; [done|].
    apply orb_false_iff in E as [E1 E2]. destruct (str_le (dl_deadlineAt current) now) eqn:E3.
    + left. unfold terminal_update, terminal in Hup. apply M_bind_Ok in Hup as (x & w4 & Hx & Hup).
      apply M_bind_Ok in Hx as (t & w5 & _ & Hx). injection Hx as <- <-. injection Hup as <- <-. by rewrite Hd.
    + right. apply M_bind_Ok in Hup as (until & w4 & Hl & Hup). injection Hl as Hl <-.
      injection Hup as <- <-. exists now, until. split; [by apply negb_false_iff in E3|].
      split; [|by rewrite Hd]. intros c Hcl. rewrite Hcl in E2. unfold str_le. by apply negb_true_iff.
  - intros update Hf H. apply (update_attempts_Ok view inv 8) in H as [Hi' Hu]; [| |done].
    2: { intros c. unfold claim_update. apply frame_bind; [apply clock_frame|intros now].
      destruct (delegationIsTerminal c); [apply frame_ret|].
      destruct (dl_executionClaim c); [|apply frame_ret]. destruct (_ !== _); [apply frame_ret|].
      destruct (str_le _ _); [apply frame_ret|]. destruct (str_le _ _); [apply frame_terminal|apply Hf]. }
    destruct Hu as (s & current & w1 & o & w2 & Hs & Hc & Hi1 & Hs1 & Hup & _ & Ho).
    destruct (lookup_delegation_Some _ _ _ _ Hc) as (Hk & _). exists s, current.
    split; [done|]. split; [done|]. destruct o as [u|]; [|left; by destruct Ho]. right.
    unfold claim_update in Hup. apply M_bind_Ok in Hup as (now & w3 & _ & Hup).
    destruct (delegationIsTerminal current) eqn:E1; [done|].
    destruct (dl_executionClaim current) as [c|]; [|done]. destruct (_ !== _) eqn:E2; [done|].
    destruct (str_le (xc_leaseUntil c) now) eqn:E3; [done|]. guards_in E2. exists c, now.
    split; [done|]. split; [done|]. split; [done|]. by apply negb_false_iff in E3.
Qed.
End services.
