(* ===== verification/DelegationRuns.v ===== *)
(** What the services of Delegation.v write, update function by update
    function; that [execute] ends; and a concrete world in which the theorems
    on delegations apply. *)
From S2P Require Import Prelude Js JsDate JsJson Identifiers Contract.
From S2P Require Import AuthTypes Deterministic Delegation.
From S2P Require Import DelegationContract.
Local Open Scope Z_scope.

(** ** The update functions of the services *)
Section updates.
Context {W : Type} `{!DelegationStatePort W, !DelegationHandleLifecyclePort W,
  !WorkerResultVerificationPort W, !WorkerResultReaderPort W, !WorkerRunPort W,
  !DelegationProposalPort W, !ClockPort W, !IdGeneratorPort W}.

(** Every update function the services give to [updateDelegation]. *)
Inductive service_update : (Delegation → M exn W (option Delegation)) → Prop :=
  | su_claim claimId : service_update (claimExecution claimId)
  | su_event claimId event : service_update (claim_update claimId (apply_event event))
  | su_ended claimId : service_update (claim_update claimId streamEnded)
  | su_release claimId : service_update (claim_update claimId releaseClaim)
  | su_commit claimId reason result : service_update (commitResult claimId reason result)
  | su_handles d : service_update (handlesEnded d)
  | su_worker : service_update workerCancelled
  | su_cancel reasonCode : service_update (cancelWith reasonCode).

(** The bookkeeping of a delegation. *)
Record delegation_ok (d : Delegation) : Prop := mk_delegation_ok {
  ok_observed : dl_progressEventsObserved d = Z.of_nat (List.length (dl_progressReceipts d));
  ok_distinct : NoDup (dl_progressReceipts d).*1;
  ok_positive : ∀ r, r ∈ dl_progressReceipts d → 1 ≤ r.1 ≤ MAX_SAFE_INTEGER;
  ok_budget : dl_progressEventsObserved d ≤ db_maximumProgressEvents (dl_budget d);
  ok_claimed : is_Some (dl_executionClaim d) →
    dl_status d = delegation_running ∨ dl_status d = delegation_validating;
  ok_generation : 0 ≤ dl_executionGeneration d;
  ok_started : dl_executionGeneration d = 0 → dl_executionClaim d = None ∧ dl_progressReceipts d = [];
}.

Lemma ok_unclaimed d d' :
  delegation_ok d → dl_progressEventsObserved d' = dl_progressEventsObserved d →
  dl_progressReceipts d' = dl_progressReceipts d → dl_budget d' = dl_budget d →
  dl_executionGeneration d' = dl_executionGeneration d → dl_executionClaim d' = None → delegation_ok d'.
Proof.
  intros [H1 H2 H3 H4 H5 H6 H7] E1 E2 E3 E4 E5.
  split; rewrite ?E1, ?E2, ?E3, ?E4, ?E5; try done.
  intros H. split; [done|]. by apply H7.
Qed.

Lemma terminal_update_Ok current status reason w o w' :
  terminal_update current status reason w = (Ok o, w') → ∃ t, o = Some (current
    <| dl_status := status |> <| dl_failureReasonCode := Some reason |> <| dl_workerResult := None |>
    <| dl_executionClaim := None |> <| dl_updatedAt := t |>).
Proof.
  unfold terminal_update, terminal. intros H. apply M_bind_Ok in H as (d & w1 & H & H').
  apply M_bind_Ok in H as (t & w2 & _ & H). injection H as <- <-. injection H' as <- <-. by exists t.
Qed.

Lemma ok_terminal current status reason w d w' :
  delegation_ok current → terminal_update current status reason w = (Ok (Some d), w') → delegation_ok d.
Proof. intros Hok (t & [= ->])%terminal_update_Ok. by eapply ok_unclaimed. Qed.

(** One event of the Worker: a progress event is recorded once. *)
Lemma ok_event event current w d w' :
  delegation_ok current → is_Some (dl_executionClaim current) →
  dl_status current = delegation_running ∨ dl_status current = delegation_validating →
  apply_event event current w = (Ok (Some d), w') → delegation_ok d.
Proof.
  intros Hok Hcl Hst H.
  destruct event as [wid seq ref at_|wid ref cost dur at_|wid code at_|wid act at_|wid code at_];
    cbn [apply_event] in H; try (by eapply ok_terminal).
  - destruct (negb (isSafeInteger seq) || _) eqn:Eg; [by eapply ok_terminal|].
    destruct (List.find _ _) as [previous|] eqn:Ef.
    { destruct (_ === _); [done|by eapply ok_terminal]. }
    destruct (_ <=? _) eqn:Eb; [by eapply ok_terminal|].
    apply M_bind_Ok in H as (t & w1 & _ & H). injection H as <- <-.
    apply orb_false_iff in Eg as [Es%negb_false_iff E1%Z.ltb_ge]. apply Z.leb_gt in Eb.
    unfold isSafeInteger in Es. apply Z.leb_le in Es.
    destruct Hok as [H1 H2 H3 H4 H5 H6 H7]. split; cbn.
    + rewrite length_app, H1. cbn. lia.
    + rewrite fmap_app. apply NoDup_app. split; [done|]. split; [|apply NoDup_singleton].
      intros x Hx Hs. apply list_elem_of_singleton in Hs as ->.
      apply list_elem_of_fmap in Hx as (r & Hr & Hin).
      pose proof (proj1 (find_None _ _) Ef _ Hin) as Hf. cbn in Hf. apply Z.eqb_neq in Hf. by subst.
    + intros r [Hr | ->%list_elem_of_singleton]%elem_of_app; [by apply H3|cbn; lia].
    + lia.
    + done.
    + done.
    + intros H0. destruct (H7 H0) as [Hn _]. rewrite Hn in Hcl. by destruct Hcl.
  - apply M_bind_Ok in H as (t & w1 & _ & H). injection H as <- <-.
    destruct Hok as [H1 H2 H3 H4 H5 H6 H7]. split; cbn; try done. by right.
Qed.

Lemma ok_claim claimId current w d w' :
  delegation_ok current → claimExecution claimId current w = (Ok (Some d), w') → delegation_ok d.
Proof.
  intros Hok H. unfold claimExecution in H. apply M_bind_Ok in H as (now & w1 & _ & H).
  destruct (_ || _); [done|]. destruct (str_le _ _); [by eapply ok_terminal|].
  apply M_bind_Ok in H as (until & w2 & _ & H). injection H as <- <-.
  destruct Hok as [H1 H2 H3 H4 H5 H6 H7]. split; cbn; try done; try lia.
  intros _. destruct (is_none _); [by left|by right].
Qed.

Lemma ok_claim_update claimId update current w d w' :
  (∀ w w', is_Some (dl_executionClaim current) → update current w = (Ok (Some d), w') → delegation_ok d) →
  delegation_ok current → claim_update claimId update current w = (Ok (Some d), w') → delegation_ok d.
Proof.
  intros Hu Hok H. unfold claim_update in H. apply M_bind_Ok in H as (now & w1 & _ & H).
  destruct (delegationIsTerminal current); [done|]. destruct (dl_executionClaim current) as [c|]; [|done].
  destruct (_ !== _); [done|]. destruct (str_le _ _); [done|].
  destruct (str_le _ _); [by eapply ok_terminal|]. by eapply Hu.
Qed.

(** The books of a delegation balance: a new delegation, and everything any
    update function of the services makes of a delegation, counts exactly the
    progress receipts it keeps, one per sequence number, all sequence numbers
    positive safe integers, never more than the progress budget; carries an
    execution claim only while running or validating; and has an execution
    generation that is 0 only before the first claim. *)
Theorem progress_accounting :
  (∀ input id workerRunId now, 1 ≤ cd_maximumProgressEvents input →
     delegation_ok (newDelegation input id workerRunId now)) ∧
  (∀ update current w d w', service_update update → delegation_ok current →
     update current w = (Ok (Some d), w') → delegation_ok d).
Proof.
  split.
  { intros input id wid now Hm. split; cbn; try done; try lia; [constructor|].
    intros r Hr. by apply not_elem_of_nil in Hr. }
  intros update current w d w' Hsu Hok H. destruct Hsu as [cl|cl ev|cl|cl|cl re res|x| |code].
  - by eapply ok_claim.
  - eapply ok_claim_update in H; [done| |done]. intros w0 w1 Hs. apply ok_event; [done|done|]. by apply Hok.
  - eapply ok_claim_update in H; [done| |done]. intros w0 w1 _ H0. by eapply ok_terminal.
  - eapply ok_claim_update in H; [done| |done]. intros w0 w1 _ H0. injection H0 as <- <-. by eapply ok_unclaimed.
  - unfold commitResult in H. apply M_bind_Ok in H as (now & w1 & _ & H). destruct (_ || _); [done|].
    apply M_bind_Ok in H as (t & w2 & _ & H). injection H as <- <-. by eapply ok_unclaimed.
  - unfold handlesEnded in H. destruct (negb _); [done|]. injection H as <- <-. by destruct Hok.
  - unfold workerCancelled in H. destruct (negb _); [done|]. injection H as <- <-. by destruct Hok.
  - unfold cancelWith in H. destruct (delegationIsTerminal _); [done|]. by eapply ok_terminal.
Qed.

(** A verifier that refuses a result with an empty reason code: the result is
    committed and the delegation completed. *)
Lemma empty_reason_completes claimId result current w now :
  clock_now w = (Ok now, w) → ownsDelegationClaim current claimId now = true →
  dl_status current = delegation_validating → result_out_of_scope current result = false →
  verify_result current result w = (Ok (mkVerification false [] [] (Some "")), w) →
  ∃ reason d, resultRefusal current result w = (Ok reason, w) ∧
    commitResult claimId reason result current w = (Ok (Some d), w) ∧
    dl_status d = delegation_completed ∧ dl_workerResult d = Some result.
Proof.
  intros Hn Ho Hv Hs Hw. exists (Some "").
  assert (resultRefusal current result w = (Ok (Some ""), w)) as ->.
  { unfold resultRefusal, mbind, M_bind. by rewrite Hs, Hw. }
  unfold commitResult, mbind, M_bind. rewrite Hn, Ho, Hv. cbn [negb]. rewrite bool_decide_eq_true_2 by done.
  cbn [negb orb]. rewrite Hn. by eexists.
Qed.

(** ** [execute] ends *)
Lemma release_on_error_Ok {A} active claimId (m : M exn W A) w a w' :
  release_on_error active claimId m w = (Ok a, w') → m w = (Ok a, w').
Proof.
  unfold release_on_error, try_catch. destruct (m w) as [[x|x] w1]; [done|].
  intros H. apply M_bind_Ok in H as (d & w2 & _ & H). by destruct x.
Qed.

Section ends.
Variables (request : WorkerRunRequest) (N : nat).
Hypothesis stream_ends : ∀ n w e w', (N ≤ n)%nat → worker_next request n w ≠ (Ok (Some e), w').

Lemma execute_events_fuel fuel fuel' n claimId active w :
  (n ≤ N)%nat → (N < n + fuel)%nat → (N < n + fuel')%nat →
  execute_events fuel request n claimId active w = execute_events fuel' request n claimId active w ∧
  (execute_events fuel request n claimId active w).1 ≠ Ok None.
Proof.
  revert fuel' n active w. induction fuel as [|fuel IH]; intros fuel' n active w Hn Hf Hf'; [clear -Hn Hf; lia|].
  destruct fuel' as [|fuel']; [clear -Hn Hf'; lia|].
  cbn [execute_events]. unfold mbind, M_bind.
  destruct (release_on_error active claimId (worker_next request n) w) as [[ev|x] w1] eqn:E; [|done].
  apply release_on_error_Ok in E. destruct ev as [event|].
  2: { destruct (release_on_error _ _ _ _) as [[d|x] w2]; [|done].
    by destruct (settleTerminal d w2) as [[d'|x] w3]. }
  assert (n < N)%nat as Hlt by (destruct (decide (N ≤ n)%nat) as [Hle|]; [by apply stream_ends in E|by apply Nat.nle_gt]).
  destruct (release_on_error _ _ _ w1) as [[[]|x] w2]; [|done].
  destruct (release_on_error _ _ _ w2) as [[d|x] w3]; [|done].
  destruct (release_on_error _ _ _ w3) as [[now|x] w4]; [|done].
  destruct (negb _). { by destruct (settleTerminal d w4) as [[d'|x] w5]. }
  destruct (negb _). { by destruct (release_on_error _ _ _ w4) as [[d'|x] w5]. }
  apply IH; clear -Hlt Hf Hf'; lia.
Qed.
End ends.

(** The execution of a delegation ends: when the Worker of the delegation
    sends at most [N] events, [execute] with fuel for [N + 1] rounds answers or
    throws, and more fuel changes nothing. *)
Theorem execute_terminates scope id N fuel w :
  (∀ request n w e w', (N ≤ n)%nat → worker_next request n w ≠ (Ok (Some e), w')) →
  (N < fuel)%nat →
  execute fuel scope id w = execute (S N) scope id w ∧ (execute fuel scope id w).1 ≠ Ok None.
Proof.
  intros Hends Hf. unfold execute, mbind, M_bind.
  destruct (ids_next _ w) as [[claimId|x] w1]; [|done].
  destruct (updateDelegation _ _ _ w1) as [[active|x] w2]; [|done].
  destruct (clock_now w2) as [[now|x] w3]; [|done].
  destruct (negb _). { by destruct (settleTerminal active w3) as [[d'|x] w5]. }
  destruct (negb _). { by destruct (release_on_error _ _ _ w3) as [[d'|x] w5]. }
  apply (execute_events_fuel _ N); [intros; by apply Hends|clear -Hf; lia..].
Qed.
End updates.

(** ** A concrete world: delegations in memory, a fixed clock, a Worker that
    sends the first eight of a given list of events, and a verifier with a given answer *)
Record DelWorld := mkDelWorld {
  dw_delegations : delegations; dw_now : string; dw_ids : DeterministicIdGenerator;
  dw_events : list WorkerRunEvent; dw_results : list (string * WorkerResult);
  dw_verification : WorkerVerification; dw_ended : list (list string) }.

#[global] Instance eta_DelWorld : Eta DelWorld := λ r,
  mkDelWorld (dw_delegations r) (dw_now r) (dw_ids r) (dw_events r) (dw_results r) (dw_verification r)
    (dw_ended r).

#[export] Instance dw_state : DelegationStatePort DelWorld := {|
  delegation_read scope id := gets (λ w, lookup_delegation scope id (dw_delegations w));
  delegation_create d := λ w,
    match dw_delegations w !! dl_id d with
    | Some _ => (Err (portError CONFLICT "Delegation exists" []), w)
    | None =>
        if dl_revision d !== 1 then (Err (portError INVALID_OPERATION "Delegation is not new" []), w)
        else (Ok d, w <| dw_delegations := <[dl_id d := d]> (dw_delegations w) |>)
    end;
  delegation_save next expectedRevision := λ w,
    match dw_delegations w !! dl_id next with
    | None => (Err (portError NOT_FOUND "Delegation was not found" []), w)
    | Some previous =>
        if (dl_revision previous !== expectedRevision) || (dl_revision next !== (expectedRevision + 1))
        then (Err (portError CONFLICT "Delegation revision is stale" []), w)
        else
          match assertDelegationTransition previous next with
          | Err x => (Err x, w)
          | Ok _ => (Ok next, w <| dw_delegations := <[dl_id next := next]> (dw_delegations w) |>)
          end
    end;
|}.
#[export] Instance dw_clock_port : ClockPort DelWorld := gets dw_now.
#[export] Instance dw_ids_port : IdGeneratorPort DelWorld := λ ns,
  zoom dw_ids (λ i w, w <| dw_ids := i |>) (Deterministic.next ns).
#[export] Instance dw_worker : WorkerRunPort DelWorld := {|
  worker_next _ n := gets (λ w, take 8 (dw_events w) !! n);
  worker_cancel _ _ := mret tt;
|}.
#[export] Instance dw_handles : DelegationHandleLifecyclePort DelWorld := λ _ _ _ refs _,
  modify (λ w, w <| dw_ended := dw_ended w ++ [refs] |>).
#[export] Instance dw_proposals : DelegationProposalPort DelWorld := λ _, mret "proposal-1".
#[export] Instance dw_verifier : WorkerResultVerificationPort DelWorld := λ _ _, gets dw_verification.
#[export] Instance dw_reader : WorkerResultReaderPort DelWorld := λ ref w,
  (match map_get ref (dw_results w) with
   | Some r => Ok r
   | None => Err (portError NOT_FOUND "Worker result was not found" [])
   end, w).

Definition dw_inv (w : DelWorld) : Prop := dels_wf (dw_delegations w).

#[export] Instance dw_laws : DelegationLaws DelWorld dw_delegations dw_inv.
Proof.
  constructor; [done|intros..].
  - intros w r w' Hi H. injection H as <- <-. split; [done|]. by exists (dw_delegations w).
  - intros w r w' Hi H. cbn in H. destruct (dw_delegations w !! dl_id d) eqn:Hk.
    { injection H as <- <-. split; [done|]. by exists (dw_delegations w). }
    destruct (dl_revision d !== 1) eqn:Er; injection H as <- <-.
    { split; [done|]. by exists (dw_delegations w). }
    guards_in Er. assert (del_create_effect d d (dw_delegations w) (<[dl_id d := d]> (dw_delegations w)))
      as He by done.
    split; [exact (del_step_wf _ _ (del_created _ _ _ _ He) Hi)|]. by exists (dw_delegations w).
  - intros w r w' Hi H. cbn in H. destruct (dw_delegations w !! dl_id d) as [p|] eqn:Hk.
    2: { injection H as <- <-. split; [done|]. by exists (dw_delegations w). }
    destruct (_ || _) eqn:Er; [injection H as <- <-; split; [done|]; by exists (dw_delegations w)|].
    apply orb_false_iff in Er as [Er1 Er2]. guards_in Er1. guards_in Er2.
    destruct (assertDelegationTransition p d) as [[]|x] eqn:Et; injection H as <- <-.
    2: { split; [done|]. by exists (dw_delegations w). }
    apply assertDelegationTransition_spec in Et.
    assert (save_effect d e d (dw_delegations w) (<[dl_id d := d]> (dw_delegations w))) as He
      by by exists p.
    split; [exact (del_step_wf _ _ (del_saved _ _ _ _ _ He) Hi)|]. by exists (dw_delegations w).
Qed.

Lemma dw_frame {A} (m : M exn DelWorld A) :
  (∀ w, dw_delegations (m w).2 = dw_delegations w) → gen_frame_law del_step dw_delegations dw_inv m.
Proof.
  intros Hm w r w' Hi H. specialize (Hm w). rewrite H in Hm. cbn in Hm. unfold dw_inv. rewrite Hm. done.
Qed.

Lemma dw_clock_frame : gen_frame_law del_step dw_delegations dw_inv clock_now.
Proof. by apply dw_frame. Qed.
Lemma dw_ids_frame ns : gen_frame_law del_step dw_delegations dw_inv (ids_next ns).
Proof.
  apply dw_frame. intros w. unfold ids_next, dw_ids_port, zoom. by destruct (Deterministic.next ns (dw_ids w)).
Qed.
Lemma dw_handles_frame o a r l t : gen_frame_law del_step dw_delegations dw_inv (endHandles o a r l t).
Proof. by apply dw_frame. Qed.
Lemma dw_proposal_frame e : gen_frame_law del_step dw_delegations dw_inv (protectScopeExpansion e).
Proof. by apply dw_frame. Qed.
Lemma dw_verify_frame d r : gen_frame_law del_step dw_delegations dw_inv (verify_result d r).
Proof. by apply dw_frame. Qed.

(** ** The theorems on a sample delegation *)
Definition sample_create : CreateDelegationInput :=
  mkCreate "owner" "agent" "run-1" "trace-1" "task-1" (JObj []) ["context-1"] ["handle-1"] ["model-1"]
    "model-1" ["context-1"; "context-2"] ["context-1"] ["handle-1"] ["handle-1"] ["model-1"] ["model-1"]
    None private 60000 500 1000 800 3 "2026-01-01T13:00:00.000Z" 1.

Definition sample_scope : AutonomyScope := mkScope_ "owner" "agent".

Definition sample_result : WorkerResult :=
  mkWorkerResult "worker-run-0001" "conclusion-1" [] [] [] "model-1" 10 20 400 5000 [] private (JObj []).

Definition sample_events : list WorkerRunEvent :=
  [worker_progress "worker-run-0001" 1 None "2026-01-01T12:00:01.000Z";
   worker_progress "worker-run-0001" 1 None "2026-01-01T12:00:01.000Z";
   worker_completed "worker-run-0001" "result-1" 400 5000 "2026-01-01T12:00:02.000Z"].

Definition sample_del_world : DelWorld :=
  mkDelWorld ∅ "2026-01-01T12:00:00.000Z" [] sample_events [("result-1", sample_result)]
    (mkVerification true [] [] None) [].

Definition sample_delegation : Delegation :=
  newDelegation sample_create "delegation-0001" "worker-run-0001" "2026-01-01T12:00:00.000Z".

Definition sample_created_world : DelWorld := (create sample_create sample_del_world).2.

(** The Worker has completed: the delegation waits for its result to be validated. *)
Definition sample_validating : Delegation := sample_delegation
  <| dl_status := delegation_validating |> <| dl_pendingResultRef := Some "result-1" |>
  <| dl_executionGeneration := 1 |> <| dl_revision := 3 |>
  <| dl_executionClaim := Some (mkExecutionClaim "attempt-1" "2026-01-01T12:01:00.000Z") |>.

Definition sample_validating_world : DelWorld :=
  sample_del_world <| dw_delegations := {["delegation-0001" := sample_validating]} |>.

Lemma sample_del_world_inv : dw_inv sample_del_world.
Proof. intros k d H. change ((∅ : delegations) !! k = Some d) in H. by rewrite lookup_empty in H. Qed.

Lemma sample_created_inv : dw_inv sample_created_world.
Proof.
  intros k d H. assert (dw_delegations sample_created_world = {["delegation-0001" := sample_delegation]}) as E
    by (vm_compute; reflexivity).
  rewrite E in H. apply lookup_singleton_Some in H as [<- <-]. reflexivity.
Qed.

Lemma sample_validating_inv : dw_inv sample_validating_world.
Proof. intros k d H.
  change (({["delegation-0001" := sample_validating]} : delegations) !! k = Some d) in H.
  apply lookup_singleton_Some in H as [<- <-]. reflexivity.
Qed.

(** The whole run: created, claimed, one progress event and its replay,
    completed, validated and settled. *)
Example sample_run :
  match execute 9 sample_scope "delegation-0001" sample_created_world with
  | (Ok (Some d), w) => dl_status d = delegation_completed ∧ dl_workerResult d = Some sample_result ∧
      dl_progressEventsObserved d = 1 ∧ dl_revision d = 6 ∧ dw_ended w = [["handle-1"]]
  | _ => False
  end.
Proof. vm_compute. auto. Qed.


Lemma update_not_lost_witness :
  ∃ d w', updateDelegation sample_scope "delegation-0001" (cancelWith "OWNER_REQUEST") sample_created_world
      = (Ok d, w') ∧ dl_status d = delegation_cancelled ∧ dl_revision d = 2 ∧ dw_inv w'.
Proof.
  destruct (updateDelegation sample_scope "delegation-0001" (cancelWith "OWNER_REQUEST") sample_created_world)
    as [[d|x] w'] eqn:E; [|vm_compute in E; discriminate E].
  exists d, w'. split; [reflexivity|].
  split; [vm_compute in E; injection E as <- _; reflexivity|].
  split; [vm_compute in E; injection E as <- _; reflexivity|].
  refine (proj1 (update_not_lost dw_delegations dw_inv sample_scope "delegation-0001"
    (cancelWith "OWNER_REQUEST") sample_created_world d w' _ sample_created_inv E)).
  intros c. apply dw_frame. intros w. unfold cancelWith. destruct (delegationIsTerminal c); reflexivity.
Defined.

Lemma sample_save : save_effect
  (sample_validating <| dl_revision := 4 |> <| dl_status := delegation_failed |> <| dl_executionClaim := None |>) 3
  (sample_validating <| dl_revision := 4 |> <| dl_status := delegation_failed |> <| dl_executionClaim := None |>)
  {["delegation-0001" := sample_validating]}
  (<["delegation-0001" := sample_validating <| dl_revision := 4 |> <| dl_status := delegation_failed |>
     <| dl_executionClaim := None |>]> {["delegation-0001" := sample_validating]}).
Proof.
  exists sample_validating. split; [reflexivity|]. do 2 (split; [reflexivity|]).
  split; [|done]. apply assertDelegationTransition_spec. vm_compute. reflexivity.
Qed.

Lemma delegation_lifetime_witness :
  ∃ d', (<["delegation-0001" := sample_validating <| dl_revision := 4 |> <| dl_status := delegation_failed |>
     <| dl_executionClaim := None |>]> {["delegation-0001" := sample_validating]} : delegations)
     !! "delegation-0001" = Some d' ∧ same_terms sample_validating d'.
Proof.
  destruct (delegation_lifetime _ _ "delegation-0001" sample_validating sample_validating_inv
    (rtc_once _ _ (del_saved _ _ _ _ _ sample_save)) eq_refl) as (d' & H1 & _ & H2 & _).
  exists d'. split; [exact H1|exact H2].
Defined.

Lemma result_commit_sound_witness :
  ∃ d w' latest w0, validateAndCommit sample_validating sample_result sample_validating_world = (Ok d, w') ∧
    dl_status d = delegation_completed ∧
    (completed_before sample_validating latest d sample_result w0 ∨
     dl_workerResult d = Some sample_result ∧ result_in_scope d sample_result ∧
       committed_here sample_validating latest sample_result w0).
Proof.
  destruct (validateAndCommit sample_validating sample_result sample_validating_world) as [[d|x] w'] eqn:E;
    [|vm_compute in E; discriminate E].
  assert (dl_status d = delegation_completed) as Hd by (vm_compute in E; injection E as <- _; reflexivity).
  destruct (result_commit_sound dw_delegations dw_inv dw_clock_frame dw_handles_frame dw_verify_frame
    sample_validating sample_result sample_validating_world d w' sample_validating_inv E Hd)
    as (latest & w0 & _ & _ & _ & H).
  exists d, w', latest, w0. split; [reflexivity|]. split; [exact Hd|exact H].
Defined.

Lemma execution_exclusive_witness :
  ∃ d w', updateDelegation sample_scope "delegation-0001" (claimExecution "attempt-1") sample_created_world
      = (Ok d, w') ∧ dl_executionClaim d = Some (mkExecutionClaim "attempt-1" "2026-01-01T12:01:00.000Z") ∧
    ∃ s current, rtc del_step (dw_delegations sample_created_world) s ∧ s !! "delegation-0001" = Some current.
Proof.
  destruct (updateDelegation sample_scope "delegation-0001" (claimExecution "attempt-1") sample_created_world)
    as [[d|x] w'] eqn:E; [|vm_compute in E; discriminate E].
  exists d, w'. split; [reflexivity|].
  split; [vm_compute in E; injection E as <- _; reflexivity|].
  destruct (proj1 (execution_exclusive dw_delegations dw_inv dw_clock_frame sample_scope "delegation-0001"
    "attempt-1" sample_created_world d w' sample_created_inv) E) as (s & current & H1 & H2 & _).
  exists s, current. split; [exact H1|exact H2].
Defined.

Lemma progress_accounting_witness :
  delegation_ok sample_delegation ∧
  ∃ d w', claimExecution "attempt-1" sample_delegation sample_del_world = (Ok (Some d), w') ∧ delegation_ok d.
Proof.
  assert (delegation_ok sample_delegation) as H0.
  { refine (proj1 (@progress_accounting DelWorld _) sample_create _ _ _ _). vm_compute. discriminate. }
  split; [exact H0|].
  destruct (claimExecution "attempt-1" sample_delegation sample_del_world) as [[[d|]|x] w'] eqn:E;
    [|vm_compute in E; discriminate E..].
  exists d, w'. split; [reflexivity|].
  exact (proj2 (@progress_accounting DelWorld _) _ _ _ _ _ (su_claim "attempt-1") H0 E).
Defined.

Lemma execute_terminates_witness :
  (execute 20 sample_scope "delegation-0001" sample_created_world).1 ≠ Ok None.
Proof.
  refine (proj2 (execute_terminates sample_scope "delegation-0001" 8 20 sample_created_world _ _)); [|lia].
  intros request n w e w' Hn H. cbn in H. injection H as H _.
  rewrite lookup_take_ge in H by lia. discriminate H.
Defined.
