(* ===== verification/Persistence.v ===== *)
(** packages/application/src/ports/persistence.ts (state records, reliable
    events, idempotent commands) and packages/testing/src/in-memory/
    persistence.ts, the in-memory adapters that implement its ports. *)
From S2P Require Import Prelude Js JsJson Identifiers Contract Entities.
From S2P Require Import AuthTypes Deterministic InMemoryAuth Coordination.
Local Open Scope Z_scope.

(** ** ports/persistence.ts *)
Definition JsonObject := list (string * json).

(** [value[field]]: [None] for [undefined]. *)
Definition readField (value : JsonObject) (field : string) : option json :=
  snd <$> List.find (λ e, String.eqb field e.1) value.

Record StateRecord := mkStateRecord { sr_key : string; sr_revision : Z; sr_value : JsonObject }.

Record CompareAndSetStateInput := mkCas {
  cs_key : string; cs_expectedRevision : option Z; cs_value : JsonObject }.

Class StateStorePort (W : Type) := {
  store_read : string → M exn W (option StateRecord);
  compareAndSet : CompareAndSetStateInput → M exn W StateRecord;
}.

Record ReliableEvent := mkEvent {
  ev_id : string; ev_idempotencyKey : IdempotencyKey; ev_topic : string; ev_payloadRef : string;
  ev_occurredAt : string }.

Record ReliableEventRecord := mkEventRecord { er_event : ReliableEvent; er_publishedAt : option string }.

#[global] Instance eta_EventRecord : Eta ReliableEventRecord := λ r,
  mkEventRecord (er_event r) (er_publishedAt r).

Definition er_id (r : ReliableEventRecord) : string := ev_id (er_event r).

Class ReliableEventPort (W : Type) := {
  event_append : ReliableEvent → M exn W ReliableEventRecord;
  event_listPending : Z → M exn W (list ReliableEventRecord);
  event_markPublished : string → string → M exn W ReliableEventRecord;
}.

Record AuthorityFence := mkFence { af_leaseId : AuthorityLeaseId; af_fencingToken : Z }.

Record CommandResultLookup := mkLookup {
  lk_ownerId : OwnerId; lk_agentId : AgentId; lk_idempotencyKey : IdempotencyKey }.

Record IdempotentAgentCommand := mkCommand {
  cmd_lookup : CommandResultLookup; cmd_commandType : string; cmd_commandFingerprint : string;
  cmd_authority : AuthorityFence }.

Record CommandResultRecord := mkCommandResult {
  cr_lookup : CommandResultLookup; cr_commandType : string; cr_commandFingerprint : string;
  cr_resultRef : string; cr_stateKey : string; cr_stateRevision : Z; cr_committedAt : string }.

Record CommitStateAndEventsInput := mkCommit {
  ci_command : IdempotentAgentCommand; ci_state : CompareAndSetStateInput;
  ci_events : list ReliableEvent; ci_resultRef : string; ci_committedAt : string }.

Record CommitStateAndEventsResult := mkCommitResult {
  cm_state : StateRecord; cm_events : list ReliableEventRecord; cm_commandResult : CommandResultRecord;
  cm_replayed : bool }.

#[global] Instance eta_CommitResult : Eta CommitStateAndEventsResult := λ r,
  mkCommitResult (cm_state r) (cm_events r) (cm_commandResult r) (cm_replayed r).

Class ProductStateRepositoryPort (W : Type) := {
  product_read : string → M exn W (option StateRecord);
  product_listPending : Z → M exn W (list ReliableEventRecord);
  product_markPublished : string → string → M exn W ReliableEventRecord;
  findCommandResult : CommandResultLookup → M exn W (option CommandResultRecord);
  findCommandCommit : CommandResultLookup → M exn W (option CommitStateAndEventsResult);
  commitStateAndEvents : CommitStateAndEventsInput → M exn W CommitStateAndEventsResult;
}.

Inductive DeliveredOutcome := event_published | event_duplicate.

#[global] Instance DeliveredOutcome_eq_dec : EqDecision DeliveredOutcome.
Proof. solve_decision. Defined.

Record ReliableEventDelivery := mkEventDelivery { ed_eventId : string; ed_outcome : DeliveredOutcome }.

Class ReliableEventSinkPort (W : Type) := sink_publish : ReliableEventRecord → M exn W ReliableEventDelivery.

(** [JSON.stringify(record)] of an event record, its keys in declaration order. *)
Definition event_json (r : ReliableEventRecord) : json :=
  let e := er_event r in
  JObj [("id", JStr (ev_id e)); ("idempotencyKey", JStr (ev_idempotencyKey e)); ("topic", JStr (ev_topic e));
        ("payloadRef", JStr (ev_payloadRef e)); ("occurredAt", JStr (ev_occurredAt e));
        ("publishedAt", JOptStr (er_publishedAt r))].

(** helpers.ts *)
Definition valuesEqual (left right : json) : bool := stringify left === stringify right.

Definition nullableNumber (o : option Z) : string :=
  match o with Some n => numToString n | None => "null" end.

(** ** InMemoryStateStore *)
Record InMemoryStateStore := mkStateStore {
  ss_records : jsmap StateRecord; ss_failures : FailureScheduler }.

#[global] Instance eta_StateStore : Eta InMemoryStateStore := λ r,
  mkStateStore (ss_records r) (ss_failures r).

Definition new_state_store (failures : FailureScheduler) : InMemoryStateStore := mkStateStore [] failures.

Definition ss_checkpoint (point : string) : M exn InMemoryStateStore unit :=
  zoom ss_failures (λ f w, w <| ss_failures := f |>) (checkpoint point).

Definition ss_read (key : string) : M exn InMemoryStateStore (option StateRecord) :=
  records ← gets ss_records;
  mret (frozenCopy <$> map_get key records).

Definition revision_conflict (input : CompareAndSetStateInput) (currentRevision : option Z) : exn :=
  portError CONFLICT ("State revision conflict for " +:+ cs_key input)
    [("key", cs_key input); ("expectedRevision", nullableNumber (cs_expectedRevision input));
     ("currentRevision", nullableNumber currentRevision)].

Definition assertRevision (input : CompareAndSetStateInput) (current : option StateRecord) : result exn unit :=
  let currentRevision := sr_revision <$> current in
  throw_if (currentRevision !== cs_expectedRevision input) (revision_conflict input currentRevision).

(** [{ key, revision: (current?.revision ?? 0) + 1, value }] *)
Definition next_record (input : CompareAndSetStateInput) (current : option StateRecord) : StateRecord :=
  mkStateRecord (cs_key input) (default 0 (sr_revision <$> current) + 1) (cs_value input).

Definition ss_compareAndSet (input : CompareAndSetStateInput) : M exn InMemoryStateStore StateRecord :=
  ss_checkpoint "state.compareAndSet" ;;
  records ← gets ss_records;
  let current := map_get (cs_key input) records in
  lift (assertRevision input current) ;;
  let record := frozenCopy (next_record input current) in
  modify (λ w, w <| ss_records := map_set (cs_key input) record (ss_records w) |>) ;;
  mret (frozenCopy record).

#[export] Instance ss_port : StateStorePort InMemoryStateStore := {|
  store_read := ss_read;
  compareAndSet := ss_compareAndSet;
|}.

(** ** InMemoryReliableEventPort *)
Record InMemoryReliableEventPort := mkEventPort {
  ie_records : jsmap ReliableEventRecord; ie_failures : FailureScheduler }.

#[global] Instance eta_EventPort : Eta InMemoryReliableEventPort := λ r,
  mkEventPort (ie_records r) (ie_failures r).

Definition new_event_port (failures : FailureScheduler) : InMemoryReliableEventPort := mkEventPort [] failures.

Definition ie_checkpoint (point : string) : M exn InMemoryReliableEventPort unit :=
  zoom ie_failures (λ f w, w <| ie_failures := f |>) (checkpoint point).

Definition event_conflict (eventId : string) : exn :=
  portError CONFLICT ("Reliable event " +:+ eventId +:+ " already exists with different content")
    [("eventId", eventId)].

Definition ie_append (event : ReliableEvent) : M exn InMemoryReliableEventPort ReliableEventRecord :=
  ie_checkpoint "reliableEvents.append" ;;
  records ← gets ie_records;
  match map_get (ev_id event) records with
  | Some existing =>
      if valuesEqual (event_json (existing <| er_publishedAt := None |>)) (event_json (mkEventRecord event None))
      then mret (frozenCopy existing)
      else throw (event_conflict (ev_id event))
  | None =>
      let record := frozenCopy (mkEventRecord event None) in
      modify (λ w, w <| ie_records := map_set (ev_id event) record (ie_records w) |>) ;;
      mret (frozenCopy record)
  end.

Definition ie_listPending (limit : Z) : M exn InMemoryReliableEventPort (list ReliableEventRecord) :=
  records ← gets ie_records;
  mret (frozenCopy <$> slice0 limit (List.filter (λ r, er_publishedAt r === None) (map_values records))).

Definition event_not_found (eventId : string) : exn :=
  portError NOT_FOUND ("Event " +:+ eventId +:+ " not found") [("eventId", eventId)].

Definition ie_markPublished (eventId publishedAt : string) : M exn InMemoryReliableEventPort ReliableEventRecord :=
  records ← gets ie_records;
  match map_get eventId records with
  | None => throw (event_not_found eventId)
  | Some current =>
      if er_publishedAt current !== None then mret (frozenCopy current)
      else
        ie_checkpoint "reliableEvents.markPublished" ;;
        let record := frozenCopy (current <| er_publishedAt := Some publishedAt |>) in
        modify (λ w, w <| ie_records := map_set eventId record (ie_records w) |>) ;;
        mret (frozenCopy record)
  end.

#[export] Instance ie_port : ReliableEventPort InMemoryReliableEventPort := {|
  event_append := ie_append;
  event_listPending := ie_listPending;
  event_markPublished := ie_markPublished;
|}.

(** ** InMemoryProductStateRepository

    [V] is the world of the authority lease port it was given. *)
Definition commandKey (lookup : CommandResultLookup) : string :=
  stringify (JStrs [lk_ownerId lookup; lk_agentId lookup; lk_idempotencyKey lookup]).
Arguments commandKey : simpl never.

Section product.
Context {V : Type} `{!AuthorityLeasePort V}.

Record InMemoryProductStateRepository := mkProductRepo {
  pr_states : jsmap StateRecord; pr_events : jsmap ReliableEventRecord;
  pr_commandCommits : jsmap CommitStateAndEventsResult; pr_authority : V; pr_failures : FailureScheduler }.

#[global] Instance eta_ProductRepo : Eta InMemoryProductStateRepository := λ r,
  mkProductRepo (pr_states r) (pr_events r) (pr_commandCommits r) (pr_authority r) (pr_failures r).

Abbreviation Pr := (M exn InMemoryProductStateRepository) (only parsing).

Definition new_product_repo (authority : V) (failures : FailureScheduler) : InMemoryProductStateRepository :=
  mkProductRepo [] [] [] authority failures.

(** The two tables, whose operations are those of the two adapters above. *)
Definition on_states {A} (m : M exn InMemoryStateStore A) : Pr A :=
  zoom (λ w, mkStateStore (pr_states w) (pr_failures w))
    (λ s w, w <| pr_states := ss_records s |> <| pr_failures := ss_failures s |>) m.

Definition on_events {A} (m : M exn InMemoryReliableEventPort A) : Pr A :=
  zoom (λ w, mkEventPort (pr_events w) (pr_failures w))
    (λ s w, w <| pr_events := ie_records s |> <| pr_failures := ie_failures s |>) m.

Definition pr_checkpoint (point : string) : Pr unit :=
  zoom pr_failures (λ f w, w <| pr_failures := f |>) (checkpoint point).

Definition pr_read (key : string) : Pr (option StateRecord) := on_states (ss_read key).
Definition pr_compareAndSet (input : CompareAndSetStateInput) : Pr StateRecord := on_states (ss_compareAndSet input).
Definition pr_append (event : ReliableEvent) : Pr ReliableEventRecord := on_events (ie_append event).
Definition pr_listPending (limit : Z) : Pr (list ReliableEventRecord) := on_events (ie_listPending limit).
Definition pr_markPublished (eventId publishedAt : string) : Pr ReliableEventRecord :=
  on_events (ie_markPublished eventId publishedAt).

Definition pr_findCommandResult (lookup : CommandResultLookup) : Pr (option CommandResultRecord) :=
  commits ← gets pr_commandCommits;
  mret (frozenCopy <$> (cm_commandResult <$> map_get (commandKey lookup) commits)).

Definition pr_findCommandCommit (lookup : CommandResultLookup) : Pr (option CommitStateAndEventsResult) :=
  commits ← gets pr_commandCommits;
  mret (frozenCopy <$> map_get (commandKey lookup) commits).

Definition key_reused (key : IdempotencyKey) : exn :=
  portError CONFLICT ("Idempotency key " +:+ key +:+ " was already used by another command")
    [("idempotencyKey", key)].

Definition replayExistingCommit (key : string) (input : CommitStateAndEventsInput)
    : Pr (option CommitStateAndEventsResult) :=
  commits ← gets pr_commandCommits;
  match map_get key commits with
  | None => mret None
  | Some existingCommit =>
      let existing := cm_commandResult existingCommit in
      if (cr_commandType existing === cmd_commandType (ci_command input))
         && (cr_commandFingerprint existing === cmd_commandFingerprint (ci_command input))
      then mret (Some (frozenCopy (existingCommit <| cm_replayed := true |>)))
      else throw (key_reused (lk_idempotencyKey (cmd_lookup (ci_command input))))
  end.

(** The record of the authority port is the one the command is fenced by. *)
Definition fence_current (command : IdempotentAgentCommand) (current : option AuthorityLeaseRecord) : bool :=
  match current with
  | None => false
  | Some c =>
      (lease_ownerId (lr_lease c) === lk_ownerId (cmd_lookup command))
      && (lease_id (lr_lease c) === af_leaseId (cmd_authority command))
      && (lr_fencingToken c === af_fencingToken (cmd_authority command))
  end.

Definition not_authoritative (command : IdempotentAgentCommand) : exn :=
  let agentId := lk_agentId (cmd_lookup command) in
  portError NOT_AUTHORITATIVE
    ("Command does not hold the current authority fence for Agent " +:+ agentId)
    [("agentId", agentId); ("leaseId", af_leaseId (cmd_authority command));
     ("fencingToken", numToString (af_fencingToken (cmd_authority command)))].

Definition assertFence (input : CommitStateAndEventsInput) : Pr unit :=
  current ← zoom pr_authority (λ a w, w <| pr_authority := a |>)
              (lease_current (lk_agentId (cmd_lookup (ci_command input))));
  throwM_if (negb (fence_current (ci_command input) current)) (not_authoritative (ci_command input)).

Definition foreign_event (eventId : string) : exn :=
  portError INVALID_OPERATION
    "Reliable events in a product-state commit must share the command idempotency key" [("eventId", eventId)].

Definition event_exists (eventId : string) : exn :=
  portError CONFLICT ("Reliable event " +:+ eventId +:+ " already exists") [("eventId", eventId)].

Fixpoint eventsCanAppend (key : IdempotencyKey) (stored : jsmap ReliableEventRecord) (inputIds : list string)
    (events : list ReliableEvent) : result exn unit :=
  match events with
  | [] => Ok tt
  | event :: events =>
      throw_if (ev_idempotencyKey event !== key) (foreign_event (ev_id event)) ;;
      throw_if (includes (ev_id event) inputIds || map_has (ev_id event) stored) (event_exists (ev_id event)) ;;
      eventsCanAppend key stored (ev_id event :: inputIds) events
  end.

Definition assertEventsCanAppend (input : CommitStateAndEventsInput) : Pr unit :=
  stored ← gets pr_events;
  lift (eventsCanAppend (lk_idempotencyKey (cmd_lookup (ci_command input))) stored [] (ci_events input)).

Definition new_commit (input : CommitStateAndEventsInput) (current : option StateRecord)
    : CommitStateAndEventsResult :=
  let state := next_record (ci_state input) current in
  mkCommitResult state ((λ e, mkEventRecord e None) <$> ci_events input)
    (mkCommandResult (cmd_lookup (ci_command input)) (cmd_commandType (ci_command input))
       (cmd_commandFingerprint (ci_command input)) (ci_resultRef input) (sr_key state) (sr_revision state)
       (ci_committedAt input))
    false.

(** [for (const event of events) this.events.set(event.id, event)] *)
Definition set_events (events : list ReliableEventRecord) (stored : jsmap ReliableEventRecord)
    : jsmap ReliableEventRecord :=
  foldl (λ stored event, map_set (er_id event) event stored) stored events.

(** [commitStateAndEvents] after its [await]: other calls can run before. *)
Definition commit_finish (input : CommitStateAndEventsInput) : Pr CommitStateAndEventsResult :=
  let key := commandKey (cmd_lookup (ci_command input)) in
  concurrentCommit ← replayExistingCommit key input;
  match concurrentCommit with
  | Some c => mret c
  | None =>
      states ← gets pr_states;
      let current := map_get (cs_key (ci_state input)) states in
      lift (assertRevision (ci_state input) current) ;;
      assertEventsCanAppend input ;;
      pr_checkpoint "productState.commit.before" ;;
      let commit := frozenCopy (new_commit input current) in
      modify (λ w, w <| pr_states := map_set (sr_key (cm_state commit)) (cm_state commit) (pr_states w) |>
                     <| pr_events := set_events (cm_events commit) (pr_events w) |>
                     <| pr_commandCommits := map_set key commit (pr_commandCommits w) |>) ;;
      mret (frozenCopy commit)
  end.

(** [Some] commit to replay, or the fence was current and the call goes on. *)
Definition commit_check (input : CommitStateAndEventsInput) : Pr (option CommitStateAndEventsResult) :=
  existingCommit ← replayExistingCommit (commandKey (cmd_lookup (ci_command input))) input;
  match existingCommit with
  | Some c => mret (Some c)
  | None => assertFence input ;; mret None
  end.

Definition pr_commitStateAndEvents (input : CommitStateAndEventsInput) : Pr CommitStateAndEventsResult :=
  existingCommit ← commit_check input;
  match existingCommit with
  | Some c => mret c
  | None => commit_finish input
  end.

#[export] Instance pr_port : ProductStateRepositoryPort InMemoryProductStateRepository := {|
  product_read := pr_read;
  product_listPending := pr_listPending;
  product_markPublished := pr_markPublished;
  findCommandResult := pr_findCommandResult;
  findCommandCommit := pr_findCommandCommit;
  commitStateAndEvents := pr_commitStateAndEvents;
|}.
End product.
Arguments InMemoryProductStateRepository : clear implicits.

(** ** InMemoryReliableEventSink *)
Record InMemoryReliableEventSink := mkEventSink {
  es_events : jsmap ReliableEventRecord; es_attempts : jsmap Z; es_failures : FailureScheduler }.

#[global] Instance eta_EventSink : Eta InMemoryReliableEventSink := λ r,
  mkEventSink (es_events r) (es_attempts r) (es_failures r).

Definition new_event_sink (failures : FailureScheduler) : InMemoryReliableEventSink := mkEventSink [] [] failures.

Definition es_checkpoint (point : string) : M exn InMemoryReliableEventSink unit :=
  zoom es_failures (λ f w, w <| es_failures := f |>) (checkpoint point).

Definition es_publish (event : ReliableEventRecord) : M exn InMemoryReliableEventSink ReliableEventDelivery :=
  es_checkpoint "reliableEventSink.publish" ;;
  modify (λ w, w <| es_attempts :=
    map_set (er_id event) (default 0 (map_get (er_id event) (es_attempts w)) + 1) (es_attempts w) |>) ;;
  events ← gets es_events;
  match map_get (er_id event) events with
  | Some existing =>
      throwM_if (negb (valuesEqual (event_json existing) (event_json event)))
        (portError CONFLICT ("Reliable event " +:+ er_id event +:+ " was redelivered with different content")
           [("eventId", er_id event)]) ;;
      mret (mkEventDelivery (er_id event) event_duplicate)
  | None =>
      modify (λ w, w <| es_events := map_set (er_id event) (frozenCopy event) (es_events w) |>) ;;
      mret (mkEventDelivery (er_id event) event_published)
  end.

#[export] Instance es_port : ReliableEventSinkPort InMemoryReliableEventSink := es_publish.

Definition deliveredEvents (w : InMemoryReliableEventSink) : list ReliableEventRecord :=
  frozenCopy <$> map_values (es_events w).

Definition attemptsFor (eventId : string) (w : InMemoryReliableEventSink) : Z :=
  default 0 (map_get eventId (es_attempts w)).
