(* ===== verification/ProductState.v ===== *)
(** The contract of [ProductStateRepositoryPort] (state records, an outbox of
    reliable events and the results of idempotent commands, written together),
    what holds of it under any interleaving of clients, and the refinement by
    the in-memory repository of Persistence.v. *)
From S2P Require Import Prelude Js JsJson Identifiers Contract Entities AuthTypes Deterministic.
From S2P Require Import InMemoryAuth Coordination CoordinationStore Persistence.
Local Open Scope Z_scope.

(** ** The abstract state and its atomic transitions *)
Record product_state := mkPS {
  ps_states : gmap string StateRecord; ps_events : gmap string ReliableEventRecord;
  ps_commits : gmap string CommitStateAndEventsResult }.

#[global] Instance eta_product_state : Eta product_state := λ r,
  mkPS (ps_states r) (ps_events r) (ps_commits r).

Definition put_events (events : list ReliableEventRecord) (m : gmap string ReliableEventRecord)
    : gmap string ReliableEventRecord :=
  foldl (λ m e, <[er_id e := e]> m) m events.

Definition cas_effect (input : CompareAndSetStateInput) (result : StateRecord) (s s' : product_state) : Prop :=
  let current := ps_states s !! cs_key input in
  sr_revision <$> current = cs_expectedRevision input ∧ result = next_record input current ∧
  s' = s <| ps_states := <[cs_key input := result]> (ps_states s) |>.

Definition append_effect (event : ReliableEvent) (result : ReliableEventRecord) (s s' : product_state) : Prop :=
  match ps_events s !! ev_id event with
  | Some r => er_event r = event ∧ result = r ∧ s' = s
  | None => result = mkEventRecord event None ∧
      s' = s <| ps_events := <[ev_id event := result]> (ps_events s) |>
  end.

Definition mark_effect (eventId publishedAt : string) (result : ReliableEventRecord) (s s' : product_state)
    : Prop :=
  ∃ c, ps_events s !! eventId = Some c ∧
    match er_publishedAt c with
    | Some _ => result = c ∧ s' = s
    | None => result = c <| er_publishedAt := Some publishedAt |> ∧
        s' = s <| ps_events := <[eventId := result]> (ps_events s) |>
    end.

Definition command_key (input : CommitStateAndEventsInput) : string :=
  commandKey (cmd_lookup (ci_command input)).

(** The command of [input] is the one whose result [r] is. *)
Definition same_command (input : CommitStateAndEventsInput) (r : CommandResultRecord) : Prop :=
  cr_commandType r = cmd_commandType (ci_command input) ∧
  cr_commandFingerprint r = cmd_commandFingerprint (ci_command input).

Definition commit_replay (input : CommitStateAndEventsInput) (result : CommitStateAndEventsResult)
    (s s' : product_state) : Prop :=
  ∃ c, ps_commits s !! command_key input = Some c ∧ same_command input (cm_commandResult c) ∧
    result = c <| cm_replayed := true |> ∧ s' = s.

(** The state after a fresh commit: record, events and result in one step. *)
Definition commit_into (input : CommitStateAndEventsInput) (s : product_state) : product_state :=
  let result := new_commit input (ps_states s !! cs_key (ci_state input)) in
  mkPS (<[cs_key (ci_state input) := cm_state result]> (ps_states s))
    (put_events (cm_events result) (ps_events s))
    (<[command_key input := result]> (ps_commits s)).

Definition commit_fresh (input : CommitStateAndEventsInput) (result : CommitStateAndEventsResult)
    (s s' : product_state) : Prop :=
  let current := ps_states s !! cs_key (ci_state input) in
  ps_commits s !! command_key input = None ∧
  sr_revision <$> current = cs_expectedRevision (ci_state input) ∧
  (∀ e, e ∈ ci_events input → ev_idempotencyKey e = lk_idempotencyKey (cmd_lookup (ci_command input)) ∧
     ps_events s !! ev_id e = None) ∧
  NoDup (ev_id <$> ci_events input) ∧
  result = new_commit input current ∧ s' = commit_into input s.

Definition commit_effect (input : CommitStateAndEventsInput) (result : CommitStateAndEventsResult)
    (s s' : product_state) : Prop :=
  commit_replay input result s s' ∨ commit_fresh input result s s'.

Inductive product_step (s s' : product_state) : Prop :=
  | product_cas input r : cas_effect input r s s' → product_step s s'
  | product_append e r : append_effect e r s s' → product_step s s'
  | product_mark id t r : mark_effect id t r s s' → product_step s s'
  | product_commit input r : commit_effect input r s s' → product_step s s'.

Record product_wf (s : product_state) : Prop := mk_product_wf {
  pw_state : ∀ k r, ps_states s !! k = Some r → sr_key r = k ∧ 1 ≤ sr_revision r;
  pw_event : ∀ k e, ps_events s !! k = Some e → er_id e = k;
  pw_key : ∀ k c, ps_commits s !! k = Some c →
    commandKey (cr_lookup (cm_commandResult c)) = k ∧ cm_replayed c = false;
  pw_outbox : ∀ k c e, ps_commits s !! k = Some c → e ∈ cm_events c →
    ∃ r, ps_events s !! er_id e = Some r ∧ er_event r = er_event e;
  pw_written : ∀ k c, ps_commits s !! k = Some c →
    ∃ r, ps_states s !! sr_key (cm_state c) = Some r ∧ sr_revision (cm_state c) ≤ sr_revision r ∧
      (sr_revision r = sr_revision (cm_state c) → r = cm_state c);
}.

(** At most [limit] events that are stored and not published, none twice, and
    all of them when they are fewer. *)
Record pending_list (limit : Z) (l : list ReliableEventRecord) (s : product_state) : Prop := mk_pending_list {
  pl_pending : ∀ r, r ∈ l → ps_events s !! er_id r = Some r ∧ er_publishedAt r = None;
  pl_once : NoDup (er_id <$> l);
  pl_limit : (List.length l ≤ Z.to_nat limit)%nat;
  pl_all : (List.length l < Z.to_nat limit)%nat → ∀ r,
    ps_events s !! er_id r = Some r → er_publishedAt r = None → r ∈ l;
}.

Class ProductStateLaws (W : Type) `{!ProductStateRepositoryPort W} (view : W → product_state)
    (inv : W → Prop) : Prop := {
  law_product_wf : ∀ w, inv w → product_wf (view w);
  law_product_read : ∀ key,
    gen_op_law product_step view inv (gen_reads (λ o s, o = ps_states s !! key)) (product_read key);
  law_listPending : ∀ limit, 0 ≤ limit →
    gen_op_law product_step view inv (gen_reads (pending_list limit)) (product_listPending limit);
  law_markPublished : ∀ id t,
    gen_op_law product_step view inv (mark_effect id t) (product_markPublished id t);
  law_findCommandResult : ∀ lookup, gen_op_law product_step view inv
    (gen_reads (λ o s, o = cm_commandResult <$> ps_commits s !! commandKey lookup)) (findCommandResult lookup);
  law_findCommandCommit : ∀ lookup, gen_op_law product_step view inv
    (gen_reads (λ o s, o = ps_commits s !! commandKey lookup)) (findCommandCommit lookup);
  law_commit : ∀ input, gen_op_law product_step view inv (commit_effect input) (commitStateAndEvents input);
}.

(** ** Keys, and tables of events *)
Lemma commandKey_inj a b : commandKey a = commandKey b → a = b.
Proof.
  unfold commandKey. intros H%stringify_inj. unfold JStrs in H. cbn in H. destruct a, b. cbn in H. congruence.
Qed.

Lemma put_events_lookup_ne events m k :
  (∀ e, e ∈ events → er_id e ≠ k) → put_events events m !! k = m !! k.
Proof.
  unfold put_events. revert m. induction events as [|e events IH]; intros m Hk; cbn; [done|].
  rewrite IH by (intros; apply Hk; by right). apply lookup_insert_ne, Hk. by left.
Qed.

Lemma put_events_lookup events m e :
  NoDup (er_id <$> events) → e ∈ events → put_events events m !! er_id e = Some e.
Proof.
  revert m. induction events as [|x events IH]; intros m Hn He; [by apply not_elem_of_nil in He|].
  cbn in Hn. apply NoDup_cons in Hn as [Hx Hn]. change (put_events events (<[er_id x := x]> m) !! er_id e = Some e).
  apply elem_of_cons in He as [-> | He]; [|by apply IH].
  rewrite put_events_lookup_ne; [apply lookup_insert_eq|].
  intros y Hy Heq. apply Hx. rewrite <-Heq. by apply list_elem_of_fmap_2.
Qed.

Lemma put_events_cases events m k :
  (∃ e, e ∈ events ∧ er_id e = k ∧ put_events events m !! k = Some e) ∨
  (∀ e, e ∈ events → er_id e ≠ k) ∧ put_events events m !! k = m !! k.
Proof.
  unfold put_events. revert m. induction events as [|x events IH]; intros m; cbn; [right; by split; [set_solver|]|].
  destruct (IH (<[er_id x := x]> m)) as [(e & He & Hk & ->)|[Hne ->]].
  - left. exists e. split; [by right|done].
  - destruct (decide (er_id x = k)) as [<-|Hx].
    + left. exists x. split; [by left|]. split; [done|apply lookup_insert_eq].
    + right. rewrite lookup_insert_ne by done. split; [set_solver|done].
Qed.

Definition committed_event (e : ReliableEvent) : ReliableEventRecord := mkEventRecord e None.

Lemma committed_elem input current e :
  e ∈ cm_events (new_commit input current) ↔ ∃ x, x ∈ ci_events input ∧ e = committed_event x.
Proof. cbn. rewrite list_elem_of_fmap. naive_solver. Qed.

Lemma committed_ids input current : er_id <$> cm_events (new_commit input current) = ev_id <$> ci_events input.
Proof. cbn. by rewrite <-list_fmap_compose. Qed.

(** ** How the state evolves *)
Record product_evolves (s s' : product_state) : Prop := mk_product_evolves {
  pe_state : ∀ k r, ps_states s !! k = Some r → ∃ r', ps_states s' !! k = Some r' ∧
    sr_revision r ≤ sr_revision r' ∧ (sr_revision r' = sr_revision r → r' = r);
  pe_event : ∀ k e, ps_events s !! k = Some e → ∃ e', ps_events s' !! k = Some e' ∧
    er_event e' = er_event e ∧ (e' = e ∨ er_publishedAt e = None);
  pe_commit : ∀ k c, ps_commits s !! k = Some c → ps_commits s' !! k = Some c;
}.

#[global] Instance product_evolves_preorder : PreOrder product_evolves.
Proof.
  split.
  - intros s. split; intros k x H; [exists x..|done]; split; auto; split; auto; lia.
  - intros s1 s2 s3 [S1 E1 C1] [S2 E2 C2]. split.
    + intros k r (r1 & H1 & Hle1 & Heq1)%S1. apply S2 in H1 as (r2 & H2 & Hle2 & Heq2).
      exists r2. split; [done|]. split; [lia|]. intros H. assert (r1 = r) as -> by (apply Heq1; lia). by apply Heq2.
    + intros k e (e1 & H1 & He1 & Hp1)%E1. apply E2 in H1 as (e2 & H2 & He2 & Hp2).
      exists e2. split; [done|]. split; [congruence|]. destruct Hp1 as [-> | ?]; [done|by right].
    + auto.
Qed.

Lemma insert_state_evolves (m : gmap string StateRecord) k0 k input current r :
  m !! k0 = current → m !! k = Some r →
  ∃ r', <[k0 := next_record input current]> m !! k = Some r' ∧
    sr_revision r ≤ sr_revision r' ∧ (sr_revision r' = sr_revision r → r' = r).
Proof.
  intros <- Hk. destruct (decide (k0 = k)) as [->|Hne].
  - rewrite lookup_insert_eq, Hk. eexists. split; [done|]. cbn. lia.
  - rewrite lookup_insert_ne by done. exists r. split; [done|]. split; [lia|done].
Qed.

Lemma insert_event_evolves (m : gmap string ReliableEventRecord) k0 k e x :
  (∀ y, m !! k0 = Some y → er_event x = er_event y ∧ er_publishedAt y = None) → m !! k = Some e →
  ∃ e', <[k0 := x]> m !! k = Some e' ∧ er_event e' = er_event e ∧ (e' = e ∨ er_publishedAt e = None).
Proof.
  intros Hx Hk. destruct (decide (k0 = k)) as [->|Hne].
  - rewrite lookup_insert_eq. destruct (Hx _ Hk). by eauto 10.
  - rewrite lookup_insert_ne by done. by eauto 10.
Qed.

Lemma commit_fresh_evolves input r s s' : commit_fresh input r s s' → product_evolves s s'.
Proof.
  intros (Hc & Hr & He & Hn & -> & ->). split; cbn -[new_commit].
  - intros k x Hk. by apply insert_state_evolves.
  - intros k e Hk. exists e. split; [|by auto]. rewrite put_events_lookup_ne; [done|].
    intros y (x & Hx & ->)%committed_elem Heq. change (ev_id x = k) in Heq. rewrite <-Heq in Hk.
    destruct (He _ Hx) as [_ Hf]. congruence.
  - intros k c Hk. rewrite lookup_insert_ne; [done|]. intros Heq. rewrite Heq in Hc. congruence.
Qed.

Lemma product_step_evolves s s' : product_step s s' → product_evolves s s'.
Proof.
  intros [input r (Hr & -> & ->)|e r H|id t r (c & Hc & H)|input r [(c & Hc & _ & -> & ->)|H]].
  - split; cbn; [|by eauto 10..]. intros k x Hk. by apply insert_state_evolves.
  - unfold append_effect in H. destruct (ps_events s !! ev_id e) as [x|] eqn:Hx.
    { by destruct H as (_ & _ & ->). }
    destruct H as [-> ->]. split; cbn; [|intros k y Hy; apply insert_event_evolves; [congruence|done]|done].
    intros k y Hy. exists y. split; [done|]. split; [lia|done].
  - destruct (er_publishedAt c) eqn:Hp; destruct H as [-> ->]; [done|].
    split; cbn; [|intros k y Hy; apply insert_event_evolves; [|done]|done].
    + intros k y Hy. exists y. split; [done|]. split; [lia|done].
    + intros z Hz. rewrite Hc in Hz. by injection Hz as <-.
  - done.
  - by eapply commit_fresh_evolves.
Qed.

Lemma product_steps_evolve s s' : rtc product_step s s' → product_evolves s s'.
Proof. induction 1 as [|s s1 s2 H _ IH]; [done|]. etrans; [by apply product_step_evolves|done]. Qed.

(** ** Well-formedness *)
Lemma wf_outbox_evolves s s' k c e :
  product_wf s → product_evolves s s' → ps_commits s !! k = Some c → e ∈ cm_events c →
  ∃ r, ps_events s' !! er_id e = Some r ∧ er_event r = er_event e.
Proof.
  intros Hwf Hev Hc He. destruct (pw_outbox _ Hwf _ _ _ Hc He) as (r & Hr & Hre).
  apply (pe_event _ _ Hev) in Hr as (r' & Hr' & Hre' & _). exists r'. split; [done|congruence].
Qed.

Lemma wf_written_evolves s s' k c :
  product_wf s → product_evolves s s' → ps_commits s !! k = Some c →
  ∃ r, ps_states s' !! sr_key (cm_state c) = Some r ∧ sr_revision (cm_state c) ≤ sr_revision r ∧
    (sr_revision r = sr_revision (cm_state c) → r = cm_state c).
Proof.
  intros Hwf Hev Hc. destruct (pw_written _ Hwf _ _ Hc) as (r & Hr & Hle & Heq).
  apply (pe_state _ _ Hev) in Hr as (r' & Hr' & Hle' & Heq'). exists r'. split; [done|]. split; [lia|].
  intros H. assert (r' = r) as -> by (apply Heq'; lia). by apply Heq.
Qed.

(** A step that leaves the commits alone. *)
Lemma wf_same_commits s s' :
  product_wf s → product_evolves s s' → ps_commits s' = ps_commits s →
  (∀ k r, ps_states s' !! k = Some r → sr_key r = k ∧ 1 ≤ sr_revision r) →
  (∀ k e, ps_events s' !! k = Some e → er_id e = k) → product_wf s'.
Proof.
  intros Hwf Hev Hc Hs He. split; [done|done|rewrite Hc; by apply Hwf|..].
  - intros k c e. rewrite Hc. by apply wf_outbox_evolves.
  - intros k c. rewrite Hc. by apply wf_written_evolves.
Qed.

Lemma insert_state_wf s k0 input k r :
  product_wf s → cs_key input = k0 →
  <[k0 := next_record input (ps_states s !! k0)]> (ps_states s) !! k = Some r →
  sr_key r = k ∧ 1 ≤ sr_revision r.
Proof.
  intros Hwf <- [[<- <-]|[_ Hk]]%lookup_insert_Some; [|by apply Hwf].
  split; [done|]. cbn. destruct (ps_states s !! cs_key input) as [x|] eqn:Hx; cbn; [|lia].
  apply (pw_state _ Hwf) in Hx. lia.
Qed.

Lemma commit_fresh_wf input r s s' : commit_fresh input r s s' → product_wf s → product_wf s'.
Proof.
  intros H Hwf. pose proof (commit_fresh_evolves _ _ _ _ H) as Hev.
  destruct H as (Hc & Hr & He & Hn & -> & ->). split; cbn -[new_commit].
  - intros k x Hx. exact (insert_state_wf s _ (ci_state input) k x Hwf eq_refl Hx).
  - intros k e Hk. destruct (put_events_cases (cm_events (new_commit input (ps_states s !! cs_key (ci_state input))))
      (ps_events s) k) as [(x & _ & <- & H)|[_ H]]; rewrite H in Hk; [by injection Hk as <-|by apply Hwf].
  - intros k c [[<- <-]|[_ Hk]]%lookup_insert_Some; [done|by apply Hwf].
  - intros k c e [[<- <-]|[_ Hk]]%lookup_insert_Some Hin.
    + exists e. split; [|done]. apply put_events_lookup; [|done]. by rewrite committed_ids.
    + by apply (wf_outbox_evolves _ _ _ _ _ Hwf Hev Hk).
  - intros k c [[<- <-]|[_ Hk]]%lookup_insert_Some.
    + eexists. split; [cbn; apply lookup_insert_eq|done].
    + by apply (wf_written_evolves _ _ _ _ Hwf Hev Hk).
Qed.

Lemma product_step_wf s s' : product_step s s' → product_wf s → product_wf s'.
Proof.
  intros H Hwf. pose proof (product_step_evolves _ _ H) as Hev.
  destruct H as [input r (Hr & -> & ->)|e r H|id t r (c & Hc & H)|input r [(c & Hc & _ & -> & ->)|H]].
  - apply (wf_same_commits s); [done..| |apply Hwf].
    intros k x Hx. exact (insert_state_wf s _ input k x Hwf eq_refl Hx).
  - unfold append_effect in H. destruct (ps_events s !! ev_id e) as [x|]; [by destruct H as (_ & _ & ->)|].
    destruct H as [-> ->]. apply (wf_same_commits s); [done..|apply Hwf|].
    cbn. intros k y [[<- <-]|[_ Hk]]%lookup_insert_Some; [done|by apply Hwf].
  - destruct (er_publishedAt c) eqn:Hp; destruct H as [-> ->]; [done|].
    apply (wf_same_commits s); [done..|apply Hwf|].
    cbn. intros k y [[<- <-]|[_ Hk]]%lookup_insert_Some; [by apply (pw_event _ Hwf) in Hc|by apply Hwf].
  - done.
  - by eapply commit_fresh_wf.
Qed.

Lemma product_steps_wf s s' : rtc product_step s s' → product_wf s → product_wf s'.
Proof. induction 1; [done|]. eauto using product_step_wf. Qed.

(** ** What every client of the contract can rely on *)
Section clients.
Context {W : Type} `{!ProductStateRepositoryPort W} (view : W → product_state) (inv : W → Prop)
  `{!ProductStateLaws W view inv}.

(** [c] is the stored commit that a call with [input] answered [r] from. *)
Definition answered_from (input : CommitStateAndEventsInput) (r c : CommitStateAndEventsResult)
    (s : product_state) : Prop :=
  ps_commits s !! command_key input = Some c ∧ same_command input (cm_commandResult c) ∧
  r = c <| cm_replayed := cm_replayed r |>.

Lemma commit_answered input r s s' :
  product_wf s → commit_effect input r s s' → ∃ c, answered_from input r c s'.
Proof.
  intros Hwf [(c & Hc & Hs & -> & ->)|(Hc & Hr & He & Hn & -> & ->)].
  - by exists c.
  - eexists. split; [cbn -[new_commit]; apply lookup_insert_eq|]. done.
Qed.

Lemma commit_Ok input w r w' : inv w → commitStateAndEvents input w = (Ok r, w') →
  inv w' ∧ ∃ s, rtc product_step (view w) s ∧ product_wf s ∧ commit_effect input r s (view w').
Proof.
  intros Hi H. destruct (op_law_Ok _ _ _ _ _ _ _ _ (law_commit _) Hi H) as (Hi' & s & Hs & He).
  split; [done|]. exists s. split; [done|]. split; [|done]. eapply product_steps_wf; [done|by apply law_product_wf].
Qed.

(** A commit is durable and complete: once [commitStateAndEvents] returned,
    then at every later moment, whatever other clients do, the stored result of
    the command is the one returned; each of its events is in the outbox with
    its content unchanged; and the state record it wrote is stored with at least
    the revision it reported, unchanged while the revision is that one. *)
Theorem commit_durable input w r w' s :
  inv w → commitStateAndEvents input w = (Ok r, w') → rtc product_step (view w') s →
  ∃ c, answered_from input r c s ∧
    (∀ e, e ∈ cm_events r → ∃ stored, ps_events s !! er_id e = Some stored ∧ er_event stored = er_event e) ∧
    ∃ stored, ps_states s !! sr_key (cm_state r) = Some stored ∧
      sr_revision (cm_state r) ≤ sr_revision stored ∧
      (sr_revision stored = sr_revision (cm_state r) → stored = cm_state r).
Proof.
  intros Hi H Hs. destruct (commit_Ok _ _ _ _ Hi H) as (Hi' & s0 & _ & Hwf0 & He).
  destruct (commit_answered _ _ _ _ Hwf0 He) as (c & Hc & Hsame & Hr).
  pose proof (product_steps_wf _ _ Hs (law_product_wf _ Hi')) as Hwf.
  apply (pe_commit _ _ (product_steps_evolve _ _ Hs)) in Hc. exists c. split; [done|].
  rewrite Hr. split; [intros e Hin; by apply (pw_outbox _ Hwf _ _ _ Hc)|by apply (pw_written _ Hwf _ _ Hc)].
Qed.
End clients.

(** ** The in-memory repository keeps the contract *)
Section in_memory.
Context {V : Type} `{!AuthorityLeasePort V}.
Abbreviation Repo := (InMemoryProductStateRepository V) (only parsing).

Definition pr_view (w : Repo) : product_state :=
  mkPS (map_view (pr_states w)) (map_view (pr_events w)) (map_view (pr_commandCommits w)).

Definition pr_inv (w : Repo) : Prop := NoDup (pr_events w).*1 ∧ product_wf (pr_view w).

(** The three tables are the same. *)
Definition same_tables (w w' : Repo) : Prop :=
  pr_states w' = pr_states w ∧ pr_events w' = pr_events w ∧ pr_commandCommits w' = pr_commandCommits w.

Lemma same_tables_view w w' : same_tables w w' → pr_view w' = pr_view w ∧ (pr_inv w → pr_inv w').
Proof.
  intros (E1 & E2 & E3). assert (pr_view w' = pr_view w) as Hv by (unfold pr_view; by rewrite E1, E2, E3).
  split; [done|]. unfold pr_inv. by rewrite Hv, E2.
Qed.

Lemma fence_tables input w r w' : assertFence input w = (r, w') → same_tables w w'.
Proof.
  unfold assertFence, mbind, M_bind, zoom. destruct (lease_current _ _) as [[c|x] a]; intros H;
    by injection H as <- <-.
Qed.

Lemma pr_checkpoint_tables point w r w' : pr_checkpoint point w = (r, w') → same_tables w w'.
Proof. unfold pr_checkpoint, zoom. destruct (checkpoint _ _). intros H. by injection H as <- <-. Qed.

Lemma replay_cases key input w : ∃ r, replayExistingCommit key input w = (r, w) ∧
  match r with
  | Ok (Some result) => ∃ c, ps_commits (pr_view w) !! key = Some c ∧
      same_command input (cm_commandResult c) ∧ result = c <| cm_replayed := true |>
  | Ok None => ps_commits (pr_view w) !! key = None
  | Err x => ∃ c, ps_commits (pr_view w) !! key = Some c ∧ ¬ same_command input (cm_commandResult c) ∧
      x = key_reused (lk_idempotencyKey (cmd_lookup (ci_command input)))
  end.
Proof.
  unfold replayExistingCommit, mbind, M_bind, gets. cbn. rewrite map_view_lookup.
  destruct (map_get key (pr_commandCommits w)) as [c|]; [|by eexists].
  destruct (_ && _) eqn:E; eexists; (split; [done|]); exists c; (split; [done|]).
  - apply andb_true_iff in E as [E1%bool_decide_eq_true E2%bool_decide_eq_true]. by split.
  - split; [|done]. intros [E1 E2]. rewrite E1, E2, !bool_decide_eq_true_2 in E by done. done.
Qed.

Lemma eventsCanAppend_Ok key stored seen events u : eventsCanAppend key stored seen events = Ok u →
  (∀ e, e ∈ events → ev_idempotencyKey e = key ∧ (ev_id e ∉ seen) ∧ map_get (ev_id e) stored = None) ∧
  NoDup (ev_id <$> events).
Proof.
  revert seen. induction events as [|e events IH]; intros seen H; [split; [set_solver|constructor]|].
  cbn [eventsCanAppend] in H. rewrite !throw_if_bind in H.
  destruct (_ !== _) eqn:E1; [done|]. destruct (includes _ _ || _) eqn:E2; [done|].
  apply orb_false_iff in E2 as [E2 E3]. guards_in E1. unfold map_has in E3.
  apply IH in H as [Hall Hn]. split.
  - intros x [-> | Hx]%elem_of_cons.
    + split; [done|]. split; [intros Hin; by apply includes_spec in Hin; rewrite Hin in E2|].
      by destruct (map_get _ _).
    + destruct (Hall _ Hx) as (? & ? & ?). set_solver.
  - cbn. constructor; [|done]. intros (x & Heq & Hx)%list_elem_of_fmap. destruct (Hall _ Hx) as (_ & Hs & _). set_solver.
Qed.

Lemma map_view_set_events events m : map_view (set_events events m) = put_events events (map_view m).
Proof.
  unfold set_events, put_events. revert m. induction events as [|e events IH]; intros m; cbn; [done|].
  by rewrite IH, map_view_set.
Qed.

Lemma set_events_nodup events (m : jsmap ReliableEventRecord) : NoDup m.*1 → NoDup (set_events events m).*1.
Proof.
  unfold set_events. revert m. induction events as [|e events IH]; intros m Hn; cbn; [done|].
  by apply IH, map_set_nodup.
Qed.

(** After the [await], the whole of a commit happens at once. *)
Lemma commit_finish_law input : gen_op_law product_step pr_view pr_inv (commit_effect input) (commit_finish input).
Proof.
  intros w r w' Hi H. unfold commit_finish, mbind, M_bind in H.
  destruct (replay_cases (command_key input) input w) as (r0 & Hr0 & Hc). fold (command_key input) in H.
  rewrite Hr0 in H. destruct r0 as [[c|]|x].
  1: { injection H as <- <-. split; [done|]. exists (pr_view w). split; [done|]. left.
    by destruct Hc as (c0 & ? & ? & ->); exists c0. }
  2: { injection H as <- <-. split; [done|]. by exists (pr_view w). }
  cbn -[new_commit] in H. unfold lift in H.
  destruct (assertRevision _ _) as [[]|x] eqn:Er; [|injection H as <- <-; split; [done|]; by exists (pr_view w)].
  unfold assertEventsCanAppend, mbind, M_bind, gets, lift in H.
  destruct (eventsCanAppend _ _ _ _) as [[]|x] eqn:Ee; [|injection H as <- <-; split; [done|]; by exists (pr_view w)].
  apply throw_if_Ok in Er. guards_in Er. apply eventsCanAppend_Ok in Ee as [Hev Hn].
  destruct (pr_checkpoint _ w) as [[[]|x] w1] eqn:Ek; destruct (pr_checkpoint_tables _ _ _ _ Ek) as (E1 & E2 & E3).
  2: { injection H as <- <-. destruct (same_tables_view w w1) as [Hv Hi1]; [done|].
    split; [by apply Hi1|]. exists (pr_view w). by rewrite Hv. }
  injection H as <- <-. destruct Hi as [Hnd Hwf].
  assert (commit_fresh input (new_commit input (map_get (cs_key (ci_state input)) (pr_states w))) (pr_view w)
    (commit_into input (pr_view w))) as Hf.
  { unfold commit_fresh. split; [exact Hc|]. cbn -[new_commit commit_into]. rewrite map_view_lookup.
    split; [done|]. split; [|done].
    intros e He. rewrite map_view_lookup. destruct (Hev _ He) as (? & _ & ?). done. }
  match goal with |- pr_inv ?v ∧ _ => assert (pr_view v = commit_into input (pr_view w)) as Hv end.
  { unfold commit_into, pr_view. cbn -[new_commit].
    by rewrite E1, E2, E3, !map_view_set, map_view_set_events, map_view_lookup. }
  split; [split|].
  - cbn -[new_commit]. rewrite E2. by apply set_events_nodup.
  - rewrite Hv. by eapply commit_fresh_wf.
  - exists (pr_view w). split; [done|]. right. by rewrite Hv.
Qed.

Lemma pr_commit_law input :
  gen_op_law product_step pr_view pr_inv (commit_effect input) (pr_commitStateAndEvents input).
Proof.
  intros w r w' Hi H. unfold pr_commitStateAndEvents, commit_check in H.
  destruct (replay_cases (command_key input) input w) as (r0 & Hr0 & Hc). fold (command_key input) in H.
  unfold mbind, M_bind in H. rewrite Hr0 in H. destruct r0 as [[c|]|x].
  - injection H as <- <-. split; [done|]. exists (pr_view w). split; [done|]. left.
    by destruct Hc as (c0 & ? & ? & ->); exists c0.
  - destruct (assertFence input w) as [[u|x] w1] eqn:Ef;
      destruct (same_tables_view _ _ (fence_tables _ _ _ _ Ef)) as [Hv Hi1].
    + destruct (commit_finish_law input _ _ _ (Hi1 Hi) H) as (Hi' & s & Hs & He).
      split; [done|]. exists s. by rewrite <-Hv.
    + injection H as <- <-. split; [by apply Hi1|]. exists (pr_view w). by rewrite Hv.
  - injection H as <- <-. split; [done|]. by exists (pr_view w).
Qed.

Lemma pr_mark_law id t : gen_op_law product_step pr_view pr_inv (mark_effect id t) (pr_markPublished id t).
Proof.
  intros w r w' Hi H. unfold pr_markPublished, on_events, zoom, ie_markPublished in H.
  unfold mbind, mret, M_bind, M_ret, gets, modify, throw, lift, frozenCopy, ie_checkpoint, zoom in H. cbn in H.
  destruct (map_get id (pr_events w)) as [c|] eqn:Hc; rewrite <-map_view_lookup in Hc.
  2: { injection H as <- <-. split; [done|]. by exists (pr_view w). }
  destruct (er_publishedAt c !== None) eqn:Hp.
  { injection H as <- <-. split; [done|]. exists (pr_view w). split; [done|]. exists c. split; [done|].
    by destruct (er_publishedAt c). }
  destruct (checkpoint _ _) as [[u|x] f]; injection H as <- <-.
  2: { split; [done|]. by exists (pr_view w). }
  guards_in Hp. destruct Hi as [Hn Hwf].
  assert (mark_effect id t (c <| er_publishedAt := Some t |>) (pr_view w)
    ((pr_view w) <| ps_events := <[id := c <| er_publishedAt := Some t |>]> (ps_events (pr_view w)) |>)) as He.
  { exists c. split; [done|]. by rewrite Hp. }
  match goal with |- pr_inv ?v ∧ _ => assert (pr_view v = (pr_view w) <| ps_events :=
    <[id := c <| er_publishedAt := Some t |>]> (ps_events (pr_view w)) |>) as Hv end.
  { unfold pr_view. cbn. by rewrite map_view_set. }
  split; [split|].
  - by apply map_set_nodup.
  - rewrite Hv. eapply product_step_wf; [by eapply product_mark|done].
  - exists (pr_view w). split; [done|]. by rewrite Hv.
Qed.

Lemma pr_listPending_law limit : 0 ≤ limit →
  gen_op_law product_step pr_view pr_inv (gen_reads (pending_list limit)) (pr_listPending limit).
Proof.
  intros Hl w r w' [Hn Hwf] H. unfold pr_listPending, on_events, zoom, ie_listPending in H.
  unfold mbind, mret, M_bind, M_ret, gets in H. cbn in H. injection H as <- <-. split; [done|].
  exists (pr_view w). split; [done|]. split; [|done]. rewrite list_fmap_id, slice0_nonneg by done.
  fold (map_values (pr_events w)). set (f := List.filter _ _).
  assert (Hf : ∀ e, e ∈ f ↔ ps_events (pr_view w) !! er_id e = Some e ∧ er_publishedAt e = None).
  { intros e. subst f. rewrite filter_elem, bool_decide_eq_true.
    by rewrite (map_values_view er_id) by (done || apply Hwf). }
  assert (Hfn : NoDup (er_id <$> f)).
  { subst f. apply (sublist_NoDup _ (er_id <$> map_values (pr_events w))).
    - apply (map_values_keys er_id); [done|apply Hwf].
    - apply fmap_sublist, filter_bool_sublist. }
  split.
  - intros e (i & Hi & _)%elem_of_take. apply Hf. by eapply list_elem_of_lookup_2.
  - rewrite fmap_take. eapply sublist_NoDup; [exact Hfn|apply sublist_take].
  - rewrite length_take. lia.
  - rewrite length_take. intros Hlt e He Hp. rewrite take_ge by lia. by apply Hf.
Qed.

#[export] Instance pr_laws : ProductStateLaws (InMemoryProductStateRepository V) pr_view pr_inv.
Proof.
  constructor.
  - by intros w [].
  - intros key w r w' Hi H. injection H as <- <-. split; [done|]. exists (pr_view w). split; [done|].
    split; [|done]. cbn. rewrite map_view_lookup. by destruct (map_get key (pr_states w)).
  - apply pr_listPending_law.
  - apply pr_mark_law.
  - intros lookup w r w' Hi H. injection H as <- <-. split; [done|]. exists (pr_view w). split; [done|].
    split; [|done]. cbn. rewrite map_view_lookup. by destruct (map_get _ _).
  - intros lookup w r w' Hi H. injection H as <- <-. split; [done|]. exists (pr_view w). split; [done|].
    split; [|done]. cbn. rewrite map_view_lookup. by destruct (map_get _ _).
  - apply pr_commit_law.
Qed.

(** *** What the object's clients do: calls of its methods, a call of
    [commitStateAndEvents] being one step or, when it is suspended at its
    [await], two with anything in between; and the authority port moves. *)
Inductive repo_step (w w' : Repo) : Prop :=
  | repo_read key r : pr_read key w = (r, w') → repo_step w w'
  | repo_cas input r : pr_compareAndSet input w = (r, w') → repo_step w w'
  | repo_append event r : pr_append event w = (r, w') → repo_step w w'
  | repo_pending limit r : pr_listPending limit w = (r, w') → repo_step w w'
  | repo_mark id t r : pr_markPublished id t w = (r, w') → repo_step w w'
  | repo_result lookup r : pr_findCommandResult lookup w = (r, w') → repo_step w w'
  | repo_find lookup r : pr_findCommandCommit lookup w = (r, w') → repo_step w w'
  | repo_commit input r : pr_commitStateAndEvents input w = (r, w') → repo_step w w'
  | repo_check input r : commit_check input w = (r, w') → repo_step w w'
  | repo_finish input r : commit_finish input w = (r, w') → repo_step w w'
  | repo_authority authority : w' = w <| pr_authority := authority |> → repo_step w w'.

(** A call of [commitStateAndEvents], run at once or resumed after its [await]. *)
Definition commit_call (input : CommitStateAndEventsInput) (w : Repo)
    (out : result exn CommitStateAndEventsResult * Repo) : Prop :=
  pr_commitStateAndEvents input w = out ∨ commit_finish input w = out.

Lemma on_states_commits {A} (m : M exn InMemoryStateStore A) (w : Repo) r w' :
  on_states m w = (r, w') → pr_commandCommits w' = pr_commandCommits w.
Proof. unfold on_states, zoom. destruct (m _). intros H. by injection H as <- <-. Qed.

Lemma on_events_commits {A} (m : M exn InMemoryReliableEventPort A) (w : Repo) r w' :
  on_events m w = (r, w') → pr_commandCommits w' = pr_commandCommits w.
Proof. unfold on_events, zoom. destruct (m _). intros H. by injection H as <- <-. Qed.

Lemma commit_check_tables input (w : Repo) r w' : commit_check input w = (r, w') → same_tables w w'.
Proof.
  unfold commit_check, mbind, M_bind.
  destruct (replay_cases (command_key input) input w) as (r0 & Hr0 & _). fold (command_key input). rewrite Hr0.
  destruct r0 as [[c|]|x]; [intros H; by injection H as <- <-| |intros H; by injection H as <- <-].
  destruct (assertFence input w) as [[u|x] w1] eqn:Ef; intros H; injection H as <- <-; by eapply fence_tables.
Qed.

(** The rest of a commit after its [await]: it fails and leaves the results, or
    answers from the result then stored under the command's key; the results
    stored before stay. *)
Lemma commit_finish_results input (w : Repo) r w' : commit_finish input w = (r, w') →
  (∀ k c, map_get k (pr_commandCommits w) = Some c → map_get k (pr_commandCommits w') = Some c) ∧
  ∀ a, r = Ok a → ∃ c, map_get (command_key input) (pr_commandCommits w') = Some c ∧
    same_command input (cm_commandResult c) ∧ a = c <| cm_replayed := cm_replayed a |>.
Proof.
  unfold commit_finish, mbind, M_bind.
  destruct (replay_cases (command_key input) input w) as (r0 & Hr0 & Hc). fold (command_key input). rewrite Hr0.
  cbn [ps_commits pr_view] in Hc. rewrite map_view_lookup in Hc. destruct r0 as [[c|]|x].
  1: { intros H. injection H as <- <-. split; [done|]. intros a [= <-].
    destruct Hc as (c0 & ? & ? & ->). by exists c0. }
  2: { intros H. by injection H as <- <-. }
  cbn -[new_commit]. unfold lift, assertEventsCanAppend, mbind, M_bind, gets, lift.
  destruct (assertRevision _ _) as [[]|x]; [|intros H; by injection H as <- <-].
  destruct (eventsCanAppend _ _ _ _) as [[]|x]; [|intros H; by injection H as <- <-].
  destruct (pr_checkpoint _ w) as [[[]|x] w1] eqn:Ek; destruct (pr_checkpoint_tables _ _ _ _ Ek) as (_ & _ & E).
  2: { intros H. injection H as <- <-. by rewrite E. }
  intros H. injection H as <- <-. cbn -[new_commit]. rewrite E. split.
  - intros k c Hk. rewrite map_get_set. case_decide as Hd; [|done]. subst k. congruence.
  - intros a [= <-]. eexists. rewrite map_get_set, decide_True by done. done.
Qed.

Lemma commit_results input (w : Repo) out : commit_call input w out →
  (∀ k c, map_get k (pr_commandCommits w) = Some c → map_get k (pr_commandCommits out.2) = Some c) ∧
  ∀ a, out.1 = Ok a → ∃ c, map_get (command_key input) (pr_commandCommits out.2) = Some c ∧
    same_command input (cm_commandResult c) ∧ a = c <| cm_replayed := cm_replayed a |>.
Proof.
  destruct out as [r w']. intros [H|H]; [|by apply commit_finish_results].
  unfold pr_commitStateAndEvents, mbind, M_bind in H.
  destruct (commit_check input w) as [[o|x] w1] eqn:Ek; destruct (commit_check_tables _ _ _ _ Ek) as (_ & _ & E).
  2: { injection H as <- <-. cbn. by rewrite E. }
  destruct o as [c|]; [|apply commit_finish_results in H; by rewrite <-E].
  injection H as <- <-. cbn. rewrite E. split; [done|]. intros a [= <-].
  unfold commit_check, mbind, M_bind in Ek.
  destruct (replay_cases (command_key input) input w) as (r0 & Hr0 & Hc). fold (command_key input) in Ek.
  rewrite Hr0 in Ek. destruct r0 as [[c'|]|x]; [|by destruct (assertFence input w) as [[]]|done].
  injection Ek as -> _. destruct Hc as (c0 & Hc0 & Hs & ->). exists c0. cbn in Hc0. by rewrite map_view_lookup in Hc0.
Qed.

Lemma repo_step_results (w w' : Repo) k c :
  repo_step w w' → map_get k (pr_commandCommits w) = Some c → map_get k (pr_commandCommits w') = Some c.
Proof.
  intros [? ? H|? ? H|? ? H|? ? H|? ? ? H|? ? H|? ? H|input r H|input r H|input r H|v ->] Hk.
  1,2: by rewrite (on_states_commits _ _ _ _ H).
  1-3: by rewrite (on_events_commits _ _ _ _ H).
  1,2: by injection H as _ <-.
  - by apply (proj1 (commit_results input w (r, w') (or_introl H))).
  - destruct (commit_check_tables _ _ _ _ H) as (_ & _ & E). by rewrite E.
  - by apply (proj1 (commit_results input w (r, w') (or_intror H))).
  - done.
Qed.

Lemma repo_steps_results (w w' : Repo) k c :
  rtc repo_step w w' → map_get k (pr_commandCommits w) = Some c → map_get k (pr_commandCommits w') = Some c.
Proof. induction 1; eauto using repo_step_results. Qed.

(** A call for a command whose result is stored. *)
Lemma commit_stored input (w : Repo) out c :
  commit_call input w out → map_get (command_key input) (pr_commandCommits w) = Some c →
  out = (if decide (same_command input (cm_commandResult c)) then Ok (c <| cm_replayed := true |>)
         else Err (key_reused (lk_idempotencyKey (cmd_lookup (ci_command input)))), w).
Proof.
  intros H Hc. destruct (replay_cases (command_key input) input w) as (r0 & Hr0 & Hr).
  cbn in Hr. rewrite map_view_lookup, Hc in Hr.
  unfold commit_call, pr_commitStateAndEvents, commit_check, commit_finish, mbind, M_bind in H.
  fold (command_key input) in H. rewrite Hr0 in H.
  destruct r0 as [[a|]|x]; [|done|]; destruct Hr as (c' & Hc' & Hs & ->); injection Hc' as <-;
    case_decide; try done; by destruct H as [<-|<-].
Qed.

(** C4 A command is executed once by the in-memory repository.  After a call
    of [commitStateAndEvents] answered for an Owner, Agent and idempotency key,
    and whatever calls, suspended ones included, and moves of the authority
    port came in between, every call with that key leaves the object as it is:
    it returns the first result, marked as a replay, if it is the same command
    (type and fingerprint), and throws that the key was reused otherwise.  This
    holds of a call that runs at once and of one that passed its fence check
    before the first call answered and is resumed after it. *)
Theorem command_commits_once input input' (w : Repo) r w1 w2 out :
  commit_call input w (Ok r, w1) → rtc repo_step w1 w2 →
  cmd_lookup (ci_command input') = cmd_lookup (ci_command input) →
  commit_call input' w2 out →
  out = (if decide (cmd_commandType (ci_command input') = cmd_commandType (ci_command input) ∧
                    cmd_commandFingerprint (ci_command input') = cmd_commandFingerprint (ci_command input))
         then Ok (r <| cm_replayed := true |>)
         else Err (key_reused (lk_idempotencyKey (cmd_lookup (ci_command input)))), w2).
Proof.
  intros H Hs Hk H'. destruct (proj2 (commit_results _ _ _ H) r eq_refl) as (c & Hc & [Ht Hf] & ->).
  apply (repo_steps_results _ _ _ _ Hs) in Hc.
  assert (command_key input' = command_key input) as Hkey by (unfold command_key; by rewrite Hk).
  rewrite <-Hkey in Hc. rewrite (commit_stored _ _ _ _ H' Hc), Hk. f_equal.
  unfold same_command. rewrite Ht, Hf. repeat case_decide; naive_solver.
Qed.

Lemma pr_inv_new authority failures : pr_inv (new_product_repo authority failures).
Proof.
  split; [constructor|]. split; cbn; intros k x; rewrite map_view_lookup; done.
Qed.
End in_memory.

(** The in-memory repository refines the contract: from the empty object
    on, with any authority port and any injected failures, a commit (and the
    part of it after its [await], whatever ran before) either fails without
    effect or replays a stored result or writes state record, events and result
    at once; [markPublished] settles one event; and [listPending] returns
    pending events, none twice, and all of them when they are fewer than the
    limit. *)
Theorem in_memory_product_refines {V : Type} `{!AuthorityLeasePort V} (authority : V) failures :
  pr_inv (new_product_repo authority failures) ∧
  (∀ input, gen_op_law product_step (@pr_view V) pr_inv (commit_effect input) (pr_commitStateAndEvents input)) ∧
  (∀ input, gen_op_law product_step (@pr_view V) pr_inv (commit_effect input) (commit_finish input)) ∧
  (∀ id t, gen_op_law product_step (@pr_view V) pr_inv (mark_effect id t) (pr_markPublished id t)) ∧
  (∀ limit, 0 ≤ limit →
     gen_op_law product_step (@pr_view V) pr_inv (gen_reads (pending_list limit)) (pr_listPending limit)).
Proof.
  split; [apply pr_inv_new|]. split; [apply pr_commit_law|]. split; [apply commit_finish_law|].
  split; [apply pr_mark_law|apply pr_listPending_law].
Qed.

(** ** Fencing *)

Lemma fence_current_spec command current :
  fence_current command current = true ↔ ∃ c, current = Some c ∧
    lease_ownerId (lr_lease c) = lk_ownerId (cmd_lookup command) ∧
    lease_id (lr_lease c) = af_leaseId (cmd_authority command) ∧
    lr_fencingToken c = af_fencingToken (cmd_authority command).
Proof.
  unfold fence_current. destruct current as [c|]; [|split; [done|intros (c & [=] & _)]].
  rewrite !andb_true_iff, !bool_decide_eq_true. split; [intros [[? ?] ?]; eauto 6|]. intros (c0 & Hc & ? & ? & ?). injection Hc as <-. done.
Qed.

(** Writes are fenced: a call of [commitStateAndEvents] that is not a
    replay succeeds only if, in that very call, the authority port named the
    command's Owner, lease and fencing token as the current ones of the Agent;
    when it names others, or none, or fails, the call fails and no table
    changes. *)
Theorem commit_fenced {V : Type} `{!AuthorityLeasePort V} input
    (w : InMemoryProductStateRepository V) r w' :
  pr_commitStateAndEvents input w = (r, w') →
  ps_commits (pr_view w) !! command_key input = None →
  (∃ c, (lease_current (lk_agentId (cmd_lookup (ci_command input))) (pr_authority w)).1 = Ok (Some c) ∧
     lease_ownerId (lr_lease c) = lk_ownerId (cmd_lookup (ci_command input)) ∧
     lease_id (lr_lease c) = af_leaseId (cmd_authority (ci_command input)) ∧
     lr_fencingToken c = af_fencingToken (cmd_authority (ci_command input))) ∨
  (∃ x, r = Err x) ∧ same_tables w w'.
Proof.
  intros H Hn. unfold pr_commitStateAndEvents, commit_check in H.
  destruct (replay_cases (command_key input) input w) as (r0 & Hr0 & Hc). fold (command_key input) in H.
  unfold mbind, M_bind in H. rewrite Hr0 in H.
  destruct r0 as [[c|]|x]; [by destruct Hc as (c0 & ? & _); congruence| |by destruct Hc as (c0 & ? & _); congruence].
  unfold assertFence, mbind, M_bind, zoom in H.
  destruct (lease_current _ _) as [[current|x] a]; cbn [fst]; [|injection H as <- <-; right; by split; [eexists|]].
  unfold throwM_if, lift in H. destruct (fence_current _ _) eqn:Ef.
  - apply fence_current_spec in Ef as (c & -> & Hc'). left. eauto.
  - cbn in H. injection H as <- <-. right. by split; [eexists|].
Qed.

(** ** A concrete world for the product state: the in-memory repository over the
    in-memory authority leases, the in-memory event sink and a clock, side by
    side; the theorems of ProductState.v at a sample commit; and the window
    between the fence check and the write of the in-memory repository. *)

Abbreviation LeasedRepository := (InMemoryProductStateRepository InMemoryAuthorityLeasePort).

Record ProductWorld := mkProductWorld {
  pw_repo : LeasedRepository; pw_sink : InMemoryReliableEventSink; pw_clock : ManualClock }.

#[global] Instance eta_ProductWorld : Eta ProductWorld := λ r,
  mkProductWorld (pw_repo r) (pw_sink r) (pw_clock r).

Definition on_repo {A} (m : M exn LeasedRepository A) : M exn ProductWorld A :=
  zoom pw_repo (λ r w, w <| pw_repo := r |>) m.

#[export] Instance pw_port : ProductStateRepositoryPort ProductWorld := {|
  product_read k := on_repo (pr_read k);
  product_listPending l := on_repo (pr_listPending l);
  product_markPublished i t := on_repo (pr_markPublished i t);
  findCommandResult l := on_repo (pr_findCommandResult l);
  findCommandCommit l := on_repo (pr_findCommandCommit l);
  commitStateAndEvents i := on_repo (pr_commitStateAndEvents i);
|}.
#[export] Instance pw_sink_port : ReliableEventSinkPort ProductWorld := λ e,
  zoom pw_sink (λ s w, w <| pw_sink := s |>) (es_publish e).
#[export] Instance pw_clock_port : ClockPort ProductWorld := gets pw_clock.

Definition pw_view (w : ProductWorld) : product_state := pr_view (pw_repo w).
Definition pw_inv (w : ProductWorld) : Prop := pr_inv (pw_repo w).

#[export] Instance pw_laws : ProductStateLaws ProductWorld pw_view pw_inv.
Proof.
  destruct (pr_laws (V := InMemoryAuthorityLeasePort)). constructor; intros;
    try (by apply (op_law_zoom product_step pw_repo _ pr_view pr_inv); [|auto]).
  by apply (law_product_wf (pw_repo w)).
Qed.

Lemma pw_frame {A} (m : M exn ProductWorld A) :
  (∀ w, pw_repo (m w).2 = pw_repo w) → gen_frame_law product_step pw_view pw_inv m.
Proof.
  intros Hm w r w' Hi H. specialize (Hm w). rewrite H in Hm. cbn in Hm.
  unfold pw_inv, pw_view. by rewrite Hm.
Qed.

Lemma pw_clock_frame : gen_frame_law product_step pw_view pw_inv clock_now.
Proof. by apply pw_frame. Qed.

(** ** A sample world: an authority lease is held *)
Definition sample_lease : AgentAuthorityLease := mkLease "lease-1" "agent" "owner" "holder-1".

Definition sample_leases : InMemoryAuthorityLeasePort :=
  (lp_claim sample_lease 60000 (new_lease_port "2026-01-01T12:00:00.000Z" NO_FAILURES)).2.

Definition sample_product : ProductWorld :=
  mkProductWorld (new_product_repo sample_leases NO_FAILURES) (new_event_sink NO_FAILURES)
    "2026-01-01T12:00:01.000Z".

Lemma sample_product_inv : pw_inv sample_product.
Proof. apply pr_inv_new. Qed.

Definition sample_command : IdempotentAgentCommand :=
  mkCommand (mkLookup "owner" "agent" "key-1") "sample" "print-1" (mkFence "lease-1" 1).

Definition sample_input : CommitStateAndEventsInput :=
  mkCommit sample_command (mkCas "state-1" None [("n", JNum 1)])
    [mkEvent "event-1" "key-1" "topic" "payload-1" "2026-01-01T12:00:01.000Z"] "state-1"
    "2026-01-01T12:00:01.000Z".

Lemma commit_durable_witness :
  ∃ r w' c, commitStateAndEvents sample_input sample_product = (Ok r, w') ∧ cm_replayed r = false ∧
    answered_from sample_input r c (pw_view w').
Proof.
  destruct (commitStateAndEvents sample_input sample_product) as [[r|x] w'] eqn:E; [|vm_compute in E; discriminate E].
  destruct (commit_durable pw_view pw_inv sample_input sample_product r w' (pw_view w') sample_product_inv E
    (rtc_refl _ _)) as (c & Hc & _).
  exists r, w', c. split; [reflexivity|]. split; [vm_compute in E; injection E as <- _; reflexivity|exact Hc].
Defined.

Lemma command_commits_once_witness :
  ∃ r w1, pr_commitStateAndEvents sample_input (pw_repo sample_product) = (Ok r, w1) ∧
    commit_finish sample_input w1 = (Ok (r <| cm_replayed := true |>), w1).
Proof.
  destruct (pr_commitStateAndEvents sample_input (pw_repo sample_product)) as [[r|x] w1] eqn:E;
    [|vm_compute in E; discriminate E].
  exists r, w1. split; [reflexivity|].
  rewrite (command_commits_once sample_input sample_input (pw_repo sample_product) r w1 w1
    (commit_finish sample_input w1) (or_introl E) (rtc_refl _ _) eq_refl (or_intror eq_refl)).
  rewrite decide_True by (split; reflexivity). reflexivity.
Defined.

Definition stale_input : CommitStateAndEventsInput :=
  mkCommit (mkCommand (mkLookup "owner" "agent" "key-1") "sample" "print-1" (mkFence "lease-1" 0))
    (mkCas "state-1" None []) [] "state-1" "2026-01-01T12:00:01.000Z".

Lemma commit_fenced_witness :
  ∃ x, (pr_commitStateAndEvents stale_input (pw_repo sample_product)).1 = Err x.
Proof.
  destruct (pr_commitStateAndEvents stale_input (pw_repo sample_product)) as [r w'] eqn:E.
  pose proof (commit_fenced stale_input (pw_repo sample_product) r w' E eq_refl) as [H|[H _]]; [|exact H].
  destruct H as (c & Hc & _ & _ & Ht). vm_compute in Hc. injection Hc as <-. discriminate Ht.
Defined.

(** The fence is checked before an [await]: when the lease is released and
    claimed by another holder in between, the rest of the call still commits
    under the old fence. *)
Example fence_window :
  let w := pw_repo sample_product in
  let w1 := (commit_check sample_input w).2 in
  let leases := (lp_claim (mkLease "lease-2" "agent" "owner" "holder-2") 60000
                   (lp_release "lease-1" (pr_authority w1)).2).2 in
  let w2 := w1 <| pr_authority := leases |> in
  (commit_check sample_input w).1 = Ok None ∧
  (∃ c, (lp_current "agent" leases).1 = Ok (Some c) ∧ lr_fencingToken c = 2) ∧
  ∃ r, (commit_finish sample_input w2).1 = Ok r ∧
    af_fencingToken (cmd_authority (ci_command sample_input)) = 1.
Proof.
  split; [vm_compute; reflexivity|]. split; [eexists; split; [vm_compute; reflexivity|reflexivity]|].
  eexists. split; [vm_compute; reflexivity|reflexivity].
Qed.
