(* ===== verification/RunState.v ===== *)
(** packages/application/src/services/run-state-commit-coordinator.ts: Runs are
    stored as state records of the product repository, and every change of a
    Run is one idempotent, fenced commit with one event. *)
From S2P Require Import Prelude Js JsJson Identifiers Contract Entities.
From S2P Require Import AuthTypes Deterministic InMemoryAuth Coordination Persistence ProductState.
Local Open Scope Z_scope.

(** ** ports/run-lifecycle.ts

    The execution lease of a command is not read by the coordinator. *)
Record RunCommandContext := mkRunContext {
  rx_ownerId : OwnerId; rx_agentId : AgentId; rx_idempotencyKey : IdempotencyKey;
  rx_commandFingerprint : string; rx_authority : AuthorityFence; rx_payloadRef : string }.

#[global] Instance eta_RunContext : Eta RunCommandContext := λ r,
  mkRunContext (rx_ownerId r) (rx_agentId r) (rx_idempotencyKey r) (rx_commandFingerprint r)
    (rx_authority r) (rx_payloadRef r).

Record TransitionRunStateInput := mkTransition {
  ti_context : RunCommandContext; ti_runId : RunId; ti_expectedRevision : Z; ti_nextStatus : RunStatus }.

Record StoredRun := mkStoredRun { sn_run : Run; sn_revision : Z }.

Inductive RuntimeSuccessfulOutput := assistant_answer (contentRef : string) | no_answer.

#[global] Instance RuntimeSuccessfulOutput_eq_dec : EqDecision RuntimeSuccessfulOutput.
Proof. solve_decision. Defined.

Record RunCompletionInput := mkCompletion {
  cp_context : RunCommandContext; cp_runId : RunId; cp_expectedRevision : Z;
  cp_output : RuntimeSuccessfulOutput; cp_dataClassification : DataClassification }.

(** The owner, agent and fence of the context are those of the Run and the input. *)
Record AdmitRunStateInput := mkAdmit {
  ad_run : Run; ad_idempotencyKey : IdempotencyKey; ad_commandFingerprint : string;
  ad_authority : AuthorityFence; ad_payloadRef : string }.

(** ** Runs as records *)
Definition runStateKey (runId : RunId) : string := "run:" +:+ runId.

Definition serializedRun (run : Run) : JsonObject :=
  [("id", JStr (run_id run)); ("ownerId", JStr (run_ownerId run)); ("agentId", JStr (run_agentId run));
   ("sessionId", JStr (run_sessionId run)); ("triggerId", JStr (run_triggerId run))]
  ++ match truthy (run_threadId run) with Some t => [("threadId", JStr t)] | None => [] end
  ++ [("status", JStr (run_status_string (run_status run)))].

Definition requiredString (value : option json) (field : string) : result exn string :=
  match value with
  | Some (JStr s) => Ok s
  | _ => Err (portError INVALID_OPERATION ("Stored Run field " +:+ field +:+ " must be a string")
                [("field", field)])
  end.

Definition parse_status (status : string) : option RunStatus :=
  List.find (λ s, String.eqb status (run_status_string s)) RUN_STATUSES.

Arguments parse_status : simpl never.

(** A constructor of the domain, whose exceptions pass through. *)
Definition of_domain {A} (r : result DomainError A) : result exn A :=
  match r with Ok a => Ok a | Err e => Err (DomainErr e) end.

Definition unsupported_status (key status : string) : exn :=
  portError INVALID_OPERATION ("Stored Run has unsupported status " +:+ status)
    [("key", key); ("status", status)].

Definition bad_threadId (key : string) : exn :=
  portError INVALID_OPERATION "Stored Run field threadId must be a string when present" [("key", key)].

Definition read_threadId (record : StateRecord) : result exn (option string) :=
  match readField (sr_value record) "threadId" with
  | None => Ok None
  | Some (JStr t) => Ok (Some t)
  | Some _ => Err (bad_threadId (sr_key record))
  end.

Definition deserializeRun (record : StateRecord) : result exn Run :=
  let value := sr_value record in
  status ← requiredString (readField value "status") "status";
  match parse_status status with
  | None => Err (unsupported_status (sr_key record) status)
  | Some s =>
      threadId ← read_threadId record;
      id ← requiredString (readField value "id") "id"; id ← of_domain (createRunId id);
      ownerId ← requiredString (readField value "ownerId") "ownerId"; ownerId ← of_domain (createOwnerId ownerId);
      agentId ← requiredString (readField value "agentId") "agentId"; agentId ← of_domain (createAgentId agentId);
      sessionId ← requiredString (readField value "sessionId") "sessionId";
      sessionId ← of_domain (createSessionId sessionId);
      triggerId ← requiredString (readField value "triggerId") "triggerId";
      triggerId ← of_domain (createTriggerId triggerId);
      threadId ← match truthy threadId with
                 | Some t => t ← of_domain (createThreadId t); Ok (Some t)
                 | None => Ok None
                 end;
      Ok (mkRun id ownerId agentId sessionId triggerId threadId s)
  end.

(** ** RunStateCommitCoordinator *)
Record RunCommit := mkRunCommit {
  rc_context : RunCommandContext; rc_commandType : string; rc_state : CompareAndSetStateInput;
  rc_eventTopic : string; rc_resultRef : string }.

Definition context_lookup (c : RunCommandContext) : CommandResultLookup :=
  mkLookup (rx_ownerId c) (rx_agentId c) (rx_idempotencyKey c).

(** The argument of [commitStateAndEvents] that [commit] builds. *)
Definition run_commit_input (input : RunCommit) (occurredAt : string) : CommitStateAndEventsInput :=
  let c := rc_context input in
  mkCommit
    (mkCommand (context_lookup c) (rc_commandType input) (rx_commandFingerprint c) (rx_authority c))
    (rc_state input)
    [mkEvent ("event:" +:+ rx_idempotencyKey c) (rx_idempotencyKey c) (rc_eventTopic input) (rx_payloadRef c)
       occurredAt]
    (rc_resultRef input) occurredAt.

Definition run_not_found (runId : RunId) : exn :=
  portError NOT_FOUND ("Run " +:+ runId +:+ " not found") [("runId", runId)].

Definition run_scope_mismatch (runId : RunId) : exn :=
  portError INVALID_OPERATION "Run command scope does not match stored Run ownership" [("runId", runId)].

Definition output_json (o : RuntimeSuccessfulOutput) : json :=
  match o with
  | assistant_answer ref => JObj [("kind", JStr "assistant-answer"); ("contentRef", JStr ref)]
  | no_answer => JObj [("kind", JStr "no-answer")]
  end.

(** The fingerprint of a completion covers its output and data class. *)
Definition completion_fingerprint (input : RunCompletionInput) : string :=
  stringify (JArr [JStr "run.complete"; JStr (rx_commandFingerprint (cp_context input));
    output_json (cp_output input); JStr (classification_name (cp_dataClassification input))]).
Arguments completion_fingerprint : simpl never.

Section coordinator.
Context {W : Type} `{!ProductStateRepositoryPort W, !ClockPort W}.

Definition lookupCommand (lookup : CommandResultLookup) : M exn W (option CommandResultRecord) :=
  findCommandResult lookup.

Definition readRun (runId : RunId) : M exn W (option StoredRun) :=
  state ← product_read (runStateKey runId);
  match state with
  | None => mret None
  | Some state => run ← lift (deserializeRun state); mret (Some (mkStoredRun run (sr_revision state)))
  end.

Definition rc_replay (context : RunCommandContext) (commandType : string)
    : M exn W (option CommitStateAndEventsResult) :=
  existingCommit ← findCommandCommit (context_lookup context);
  match existingCommit with
  | None => mret None
  | Some c =>
      let existing := cm_commandResult c in
      throwM_if ((cr_commandType existing !== commandType)
                 || (cr_commandFingerprint existing !== rx_commandFingerprint context))
        (key_reused (rx_idempotencyKey context)) ;;
      mret (Some (c <| cm_replayed := true |>))
  end.

Definition rc_commit (input : RunCommit) : M exn W CommitStateAndEventsResult :=
  replayed ← rc_replay (rc_context input) (rc_commandType input);
  match replayed with
  | Some r => mret r
  | None => occurredAt ← clock_now; commitStateAndEvents (run_commit_input input occurredAt)
  end.

Definition admitRun (input : AdmitRunStateInput) : M exn W CommitStateAndEventsResult :=
  let run := ad_run input in
  throwM_if (run_status run !== accepted)
    (portError INVALID_OPERATION "A newly admitted Run must be in accepted state"
       [("runId", run_id run); ("status", run_status_string (run_status run))]) ;;
  rc_commit (mkRunCommit
    (mkRunContext (run_ownerId run) (run_agentId run) (ad_idempotencyKey input) (ad_commandFingerprint input)
       (ad_authority input) (ad_payloadRef input))
    "run.admit" (mkCas (runStateKey (run_id run)) None (serializedRun run)) "run.accepted"
    (runStateKey (run_id run))).

(** The commit of a transition to [nextRun]. *)
Definition transition_commit (input : TransitionRunStateInput) (nextRun : Run) : RunCommit :=
  mkRunCommit (ti_context input) "run.transition"
    (mkCas (runStateKey (ti_runId input)) (Some (ti_expectedRevision input)) (serializedRun nextRun))
    ("run." +:+ run_status_string (ti_nextStatus input)) (runStateKey (ti_runId input)).

Definition rc_transitionRun (input : TransitionRunStateInput) : M exn W CommitStateAndEventsResult :=
  let context := ti_context input in
  replayed ← rc_replay context "run.transition";
  match replayed with
  | Some r => mret r
  | None =>
      stored ← readRun (ti_runId input);
      match stored with
      | None => throw (run_not_found (ti_runId input))
      | Some stored =>
          throwM_if ((run_ownerId (sn_run stored) !== rx_ownerId context)
                     || (run_agentId (sn_run stored) !== rx_agentId context))
            (run_scope_mismatch (ti_runId input)) ;;
          nextRun ← lift (of_domain (transitionRun (sn_run stored) (ti_nextStatus input)));
          rc_commit (transition_commit input nextRun)
      end
  end.

Definition completeRun (input : RunCompletionInput) : M exn W CommitStateAndEventsResult :=
  stored ← readRun (cp_runId input);
  match stored with
  | None => throw (portError NOT_FOUND "Run not found" [])
  | Some stored =>
      throwM_if (match truthy (run_threadId (sn_run stored)) with
                 | Some _ => cp_output input === no_answer
                 | None => false
                 end)
        (portError INVALID_OPERATION "Thread completion requires an assistant answer" []) ;;
      throwM_if (match cp_output input with
                 | assistant_answer ref => is_empty (trim ref)
                 | no_answer => false
                 end)
        (portError INVALID_OPERATION "Final answer reference is empty" []) ;;
      rc_transitionRun (mkTransition
        ((cp_context input) <| rx_commandFingerprint := completion_fingerprint input |>)
        (cp_runId input) (cp_expectedRevision input) completed)
  end.

Definition cancelRun (context : RunCommandContext) (runId : RunId) (expectedRevision : Z)
    : M exn W CommitStateAndEventsResult :=
  rc_transitionRun (mkTransition context runId expectedRevision cancelled).
End coordinator.

(** ** Reading back what was written *)
Record run_valid (run : Run) : Prop := mk_run_valid {
  rv_id : MACHINE_IDENTIFIER_PATTERN (run_id run) = true;
  rv_owner : MACHINE_IDENTIFIER_PATTERN (run_ownerId run) = true;
  rv_agent : MACHINE_IDENTIFIER_PATTERN (run_agentId run) = true;
  rv_session : MACHINE_IDENTIFIER_PATTERN (run_sessionId run) = true;
  rv_trigger : MACHINE_IDENTIFIER_PATTERN (run_triggerId run) = true;
  rv_thread : ∀ t, run_threadId run = Some t → MACHINE_IDENTIFIER_PATTERN t = true;
}.

Lemma parse_status_string s : parse_status (run_status_string s) = Some s.
Proof. by destruct s. Qed.

Lemma of_domain_createIdentifier value kind v :
  of_domain (createIdentifier value kind) = Ok v ↔ v = value ∧ MACHINE_IDENTIFIER_PATTERN value = true.
Proof.
  rewrite <-(createIdentifier_Ok _ kind). destruct (createIdentifier value kind); cbn; naive_solver.
Qed.

Lemma truthy_Some o t : truthy o = Some t → o = Some t.
Proof. by destruct o as [[|]|]. Qed.

Lemma valid_truthy t : MACHINE_IDENTIFIER_PATTERN t = true → truthy (Some t) = Some t.
Proof. by destruct t. Qed.

(** What is read is a valid Run. *)
Lemma deserializeRun_valid record run : deserializeRun record = Ok run → run_valid run.
Proof.
  unfold deserializeRun. intros H. apply result_bind_Ok in H as (status & _ & H).
  destruct (parse_status status) as [s|]; [|done].
  repeat (apply result_bind_Ok in H as (? & ? & H)). injection H as <-.
  repeat match goal with H : of_domain _ = Ok _ |- _ => apply of_domain_createIdentifier in H as [-> ?] end.
  split; cbn; try done. intros t ->.
  match goal with H : match truthy ?o with Some _ => _ | None => _ end = _ |- _ =>
    destruct (truthy o); [apply result_bind_Ok in H as (? & Ht & [= <-])|done] end.
  by apply of_domain_createIdentifier in Ht as [-> ?].
Qed.

(** A Run survives storage: what [serializedRun] writes, [deserializeRun]
    reads back as the same Run exactly when its identifiers are machine
    identifiers; and nothing else can be read at all. *)
Theorem run_roundtrip run key revision :
  (deserializeRun (mkStateRecord key revision (serializedRun run)) = Ok run ↔ run_valid run) ∧
  (∀ record run', deserializeRun record = Ok run' → run_valid run' ∧
     deserializeRun (mkStateRecord (sr_key record) (sr_revision record) (serializedRun run')) = Ok run').
Proof.
  assert (∀ run k rev, run_valid run → deserializeRun (mkStateRecord k rev (serializedRun run)) = Ok run) as Hr.
  { intros [id o a s t th st] k rev [H1 H2 H3 H4 H5 H6]. cbn in *. unfold deserializeRun, read_threadId, serializedRun.
    cbn [run_id run_ownerId run_agentId run_sessionId run_triggerId run_threadId run_status sr_value].
    assert (∀ v kind, MACHINE_IDENTIFIER_PATTERN v = true → of_domain (createIdentifier v kind) = Ok v) as Hc
      by (intros; by apply of_domain_createIdentifier).
    destruct th as [th|]; cbn.
    - specialize (H6 _ eq_refl). pose proof (valid_truthy _ H6) as Ht. cbn in Ht. rewrite Ht. cbn.
      rewrite parse_status_string. cbn. unfold createRunId, createOwnerId, createAgentId, createSessionId, createTriggerId.
      do 5 (rewrite Hc by done; cbn). rewrite Ht. unfold createThreadId. by rewrite Hc.
    - rewrite parse_status_string. cbn. unfold createRunId, createOwnerId, createAgentId, createSessionId, createTriggerId.
      by do 5 (rewrite Hc by done; cbn). }
  split; [split; [apply deserializeRun_valid|apply Hr]|].
  intros record run' H%deserializeRun_valid. auto.
Qed.

(** ** Transitions *)
Section transitions.
Context {W : Type} `{!ProductStateRepositoryPort W, !ClockPort W} (view : W → product_state) (inv : W → Prop)
  `{!ProductStateLaws W view inv}.
Hypothesis clock_frame : gen_frame_law product_step view inv clock_now.

(** [r] replays the stored commit of the same command. *)
Definition replay_of_command (context : RunCommandContext) (commandType : string)
    (r : CommitStateAndEventsResult) (s : product_state) : Prop :=
  ∃ c, ps_commits s !! commandKey (context_lookup context) = Some c ∧
    cr_commandType (cm_commandResult c) = commandType ∧
    cr_commandFingerprint (cm_commandResult c) = rx_commandFingerprint context ∧
    r = c <| cm_replayed := true |>.

Lemma rc_replay_Ok context commandType w o w' :
  inv w → rc_replay context commandType w = (Ok o, w') →
  inv w' ∧ rtc product_step (view w) (view w') ∧
  ∀ r, o = Some r → replay_of_command context commandType r (view w').
Proof.
  intros Hi H. unfold rc_replay in H. apply M_bind_Ok in H as (c & w1 & Hc & H).
  destruct (reads_Ok _ _ _ _ _ _ _ _ (law_findCommandCommit _) Hi Hc) as (Hi1 & Hs1 & Hv).
  destruct c as [c|]; [|by injection H as <- <-].
  apply M_bind_Ok in H as ([] & w2 & Ht & H). injection H as <- <-. injection Ht as Ht <-.
  apply throw_if_Ok, orb_false_iff in Ht as [H1 H2]. guards_in H1. guards_in H2.
  do 2 (split; [done|]). intros r [= <-]. by exists c.
Qed.

(** The commit was made now, from the state [s]. *)
Definition committed_now (input : RunCommit) (r : CommitStateAndEventsResult) (s s' : product_state) : Prop :=
  ∃ now, commit_fresh (run_commit_input input now) r s s'.

Lemma rc_commit_Ok input w r w' :
  inv w → rc_commit input w = (Ok r, w') →
  inv w' ∧ ∃ s, rtc product_step (view w) s ∧
    (replay_of_command (rc_context input) (rc_commandType input) r (view w') ∨
     committed_now input r s (view w')).
Proof.
  intros Hi H. unfold rc_commit in H. apply M_bind_Ok in H as (o & w1 & Hr & H).
  destruct (rc_replay_Ok _ _ _ _ _ Hi Hr) as (Hi1 & Hs1 & Ho). destruct o as [c|].
  { injection H as <- <-. split; [done|]. exists (view w1). split; [done|]. left. by apply Ho. }
  apply M_bind_Ok in H as (now & w2 & Hn & H). destruct (clock_frame _ _ _ Hi1 Hn) as [Hi2 Hs2].
  destruct (op_law_Ok _ _ _ _ _ _ _ _ (law_commit _) Hi2 H) as (Hi' & s & Hs & He).
  split; [done|]. exists s. split; [by do 2 (etrans; [eassumption|])|].
  destruct He as [(c & Hc & [H1 H2] & -> & ->)|He]; [left; by exists c|right; by exists now].
Qed.

Lemma readRun_Ok runId w o w' :
  inv w → readRun runId w = (Ok o, w') → inv w' ∧ rtc product_step (view w) (view w') ∧
  ∀ stored, o = Some stored → ∃ record, ps_states (view w') !! runStateKey runId = Some record ∧
    deserializeRun record = Ok (sn_run stored) ∧ sr_revision record = sn_revision stored.
Proof.
  intros Hi H. unfold readRun in H. apply M_bind_Ok in H as (state & w1 & Hr & H).
  destruct (reads_Ok _ _ _ _ _ _ _ _ (law_product_read _) Hi Hr) as (Hi1 & Hs1 & Hv).
  destruct state as [record|]; [|by injection H as <- <-].
  apply M_bind_Ok in H as (run & w2 & Hd & H). injection Hd as Hd <-. injection H as <- <-.
  do 2 (split; [done|]). intros stored [= <-]. by exists record.
Qed.

(** C27 A Run only moves along its state machine, one revision and one event at
    a time: when [transitionRun] returns, for a caller that has seen the
    revision it expects, then either the answer replays the same command's
    stored result; or, at the moment of the commit, the stored Run was at the
    expected revision, belonged to the command's Owner and Agent and allowed the
    transition, and it was replaced, together with exactly one event for the
    new status, by the same Run in that status. *)
Theorem run_transition_commits input w r w' seen :
  inv w → rc_transitionRun input w = (Ok r, w') →
  ps_states (view w) !! runStateKey (ti_runId input) = Some seen →
  ti_expectedRevision input ≤ sr_revision seen →
  inv w' ∧
  (replay_of_command (ti_context input) "run.transition" r (view w') ∨
   ∃ s current run, rtc product_step (view w) s ∧
     ps_states s !! runStateKey (ti_runId input) = Some current ∧
     sr_revision current = ti_expectedRevision input ∧ deserializeRun current = Ok run ∧
     run_ownerId run = rx_ownerId (ti_context input) ∧ run_agentId run = rx_agentId (ti_context input) ∧
     ti_nextStatus input ∈ ALLOWED_TRANSITIONS (run_status run) ∧
     committed_now (transition_commit input (run <| run_status := ti_nextStatus input |>)) r s (view w')).
Proof.
  intros Hi H Hseen Hrev. unfold rc_transitionRun in H. apply M_bind_Ok in H as (o & w1 & Hr & H).
  destruct (rc_replay_Ok _ _ _ _ _ Hi Hr) as (Hi1 & Hs1 & Ho). destruct o as [c|].
  { injection H as <- <-. split; [done|]. left. by apply Ho. }
  apply M_bind_Ok in H as (stored & w2 & Hrd & H).
  destruct (readRun_Ok _ _ _ _ Hi1 Hrd) as (Hi2 & Hs2 & Hst).
  destruct stored as [stored|]; [|done]. destruct (Hst _ eq_refl) as (record & Hrec & Hdes & Hrv).
  apply M_bind_Ok in H as ([] & w3 & Hg & H). injection Hg as Hg <-.
  apply throw_if_Ok, orb_false_iff in Hg as [Hg1 Hg2]. guards_in Hg1. guards_in Hg2.
  apply M_bind_Ok in H as (next & w4 & Hn & H). injection Hn as Hn <-.
  destruct (transitionRun (sn_run stored) (ti_nextStatus input)) as [nr|] eqn:Et; [|done].
  injection Hn as ->. apply transitionRun_Ok in Et as [Hal ->].
  destruct (rc_commit_Ok _ _ _ _ Hi2 H) as (Hi' & s & Hs & [He|He]);
    (split; [done|]); [left; exact He|right].
  assert (rtc product_step (view w) s) as Hws by (by do 2 (etrans; [eassumption|])).
  assert (product_evolves (view w) (view w2)) as E02 by (apply product_steps_evolve; etrans; [exact Hs1|exact Hs2]).
  destruct (pe_state _ _ E02 _ _ Hseen) as (rec2 & Hrec2 & Hle & _).
  rewrite Hrec in Hrec2. injection Hrec2 as <-.
  destruct (pe_state _ _ (product_steps_evolve _ _ Hs) _ _ Hrec) as (current & Hcur & Hle' & Heq).
  destruct He as (now & He). pose proof He as (_ & Hexp & _). cbn in Hexp. rewrite Hcur in Hexp. injection Hexp as Hexp.
  assert (current = record) as -> by (apply Heq; lia).
  exists s, record, (sn_run stored). do 7 (split; [done|]). by exists now.
Qed.
End transitions.

(** ** A sample Run *)
Definition sample_run_record : Run := mkRun "run-1" "owner" "agent" "session-1" "trigger-1" (Some "thread-1") accepted.

Definition sample_context (key : string) : RunCommandContext :=
  mkRunContext "owner" "agent" key ("print-" +:+ key) (mkFence "lease-1" 1) ("payload-" +:+ key).

Definition sample_admit : AdmitRunStateInput :=
  mkAdmit sample_run_record "key-1" "print-1" (mkFence "lease-1" 1) "payload-1".

Definition admitted_product : ProductWorld := (admitRun sample_admit sample_product).2.

Lemma admitted_product_inv : pw_inv admitted_product.
Proof.
  destruct (admitRun sample_admit sample_product) as [[r|x] w'] eqn:E; [|vm_compute in E; discriminate E].
  unfold admitted_product. rewrite E. unfold admitRun in E.
  apply M_bind_Ok in E as ([] & w1 & Ht & E). injection Ht as <-.
  exact (proj1 (rc_commit_Ok pw_view pw_inv pw_clock_frame _ _ _ _ sample_product_inv E)).
Qed.

Definition sample_transition : TransitionRunStateInput :=
  mkTransition (sample_context "key-2") "run-1" 1 building_context.

Lemma run_transition_commits_witness :
  ∃ r w', rc_transitionRun sample_transition admitted_product = (Ok r, w') ∧
    sr_revision (cm_state r) = 2 ∧ cm_replayed r = false ∧ pw_inv w'.
Proof.
  destruct (rc_transitionRun sample_transition admitted_product) as [[r|x] w'] eqn:E;
    [|vm_compute in E; discriminate E].
  exists r, w'. split; [reflexivity|].
  split; [vm_compute in E; injection E as <- _; reflexivity|].
  split; [vm_compute in E; injection E as <- _; reflexivity|].
  refine (proj1 (run_transition_commits pw_view pw_inv pw_clock_frame sample_transition admitted_product r w'
    (mkStateRecord "run:run-1" 1 (serializedRun sample_run_record)) admitted_product_inv E _ _)).
  - vm_compute. reflexivity.
  - cbn. lia.
Defined.

(** A whole life: admitted, prepared, running, completed; the completion of a
    Run on a Thread needs an answer. *)
Example sample_run_life :
  let w1 := (rc_transitionRun sample_transition admitted_product).2 in
  let w2 := (rc_transitionRun (mkTransition (sample_context "key-3") "run-1" 2 running) w1).2 in
  is_ok (completeRun (mkCompletion (sample_context "key-4") "run-1" 3 no_answer private) w2).1 = false ∧
  match completeRun (mkCompletion (sample_context "key-4") "run-1" 3 (assistant_answer "answer-1") private) w2 with
  | (Ok r, w3) => sr_revision (cm_state r) = 4 ∧
      (readRun "run-1" w3).1 = Ok (Some (mkStoredRun (sample_run_record <| run_status := completed |>) 4))
  | _ => False
  end.
Proof. vm_compute. auto. Qed.
