(* ===== verification/Outbox.v ===== *)
(** packages/application/src/services/reliable-event-publisher.ts: the events a
    commit put in the outbox are published to a sink and then marked.  The
    contract of the sink, at-least-once delivery with exactly-once effect, and
    that the outbox drains. *)
From S2P Require Import Prelude Js JsJson Identifiers Contract Entities.
From S2P Require Import AuthTypes Deterministic InMemoryAuth Coordination Persistence ProductState.
Local Open Scope Z_scope.

(** ** The service *)
Record PublishPendingResult := mkPublished { pp_attempted : Z; pp_published : Z; pp_duplicates : Z }.

Section publisher.
Context {W : Type} `{!ProductStateRepositoryPort W, !ReliableEventSinkPort W, !ClockPort W}.

(** The loop of [publishPending], with its two counters. *)
Fixpoint publish_events (events : list ReliableEventRecord) (published duplicates : Z) : M exn W (Z * Z) :=
  match events with
  | [] => mret (published, duplicates)
  | event :: events =>
      delivery ← sink_publish event;
      let is_published := ed_outcome delivery === event_published in
      now ← clock_now;
      product_markPublished (er_id event) now ;;
      publish_events events (if is_published then published + 1 else published)
        (if is_published then duplicates else duplicates + 1)
  end.

Definition publishPending (limit : Z) : M exn W PublishPendingResult :=
  pending ← product_listPending limit;
  counts ← publish_events pending 0 0;
  mret (mkPublished (Z.of_nat (List.length pending)) counts.1 counts.2).
End publisher.

(** ** The contract of the sink: an event is taken once, by its identifier *)
Abbreviation sink_state := (gmap string ReliableEventRecord).

Definition publish_effect (event : ReliableEventRecord) (d : ReliableEventDelivery) (s s' : sink_state) : Prop :=
  ed_eventId d = er_id event ∧
  match s !! er_id event with
  | None => ed_outcome d = event_published ∧ s' = <[er_id event := event]> s
  | Some existing => existing = event ∧ ed_outcome d = event_duplicate ∧ s' = s
  end.

Inductive sink_step (s s' : sink_state) : Prop :=
  | sink_published e d : publish_effect e d s s' → sink_step s s'.

Class SinkLaws (W : Type) `{!ReliableEventSinkPort W} (view : W → sink_state) (inv : W → Prop) : Prop :=
  law_publish : ∀ e, gen_op_law sink_step view inv (publish_effect e) (sink_publish e).

(** What the sink has taken stays as it is. *)
Lemma sink_steps_keep s s' k e : rtc sink_step s s' → s !! k = Some e → s' !! k = Some e.
Proof.
  induction 1 as [|s s1 s2 [x d [_ H]] _ IH]; [done|]. intros Hk. apply IH.
  destruct (s !! er_id x) as [y|] eqn:Hx; [by destruct H as (_ & _ & ->)|].
  destruct H as [_ ->]. rewrite lookup_insert_ne; [done|]. intros Heq. rewrite Heq in Hx. congruence.
Qed.

Section publishing.
Context {W : Type} `{!ProductStateRepositoryPort W, !ReliableEventSinkPort W, !ClockPort W}
  (pview : W → product_state) (sview : W → sink_state) (inv : W → Prop)
  `{!ProductStateLaws W pview inv, !SinkLaws W sview inv}.
Hypothesis clock_pframe : gen_frame_law product_step pview inv clock_now.
Hypothesis clock_sframe : gen_frame_law sink_step sview inv clock_now.
Hypothesis sink_pframe : ∀ e, gen_frame_law product_step pview inv (sink_publish e).
Hypothesis mark_sframe : ∀ id t, gen_frame_law sink_step sview inv (product_markPublished id t).
Hypothesis list_sframe : ∀ limit, gen_frame_law sink_step sview inv (product_listPending limit).

(** [event] is with the sink, and settled in the outbox. *)
Definition settled (event : ReliableEventRecord) (p : product_state) (s : sink_state) : Prop :=
  s !! er_id event = Some event ∧
  ∃ stored, ps_events p !! er_id event = Some stored ∧ is_Some (er_publishedAt stored).

Lemma settled_keep e p p' s s' :
  rtc product_step p p' → rtc sink_step s s' → settled e p s → settled e p' s'.
Proof.
  intros Hp Hs [He (stored & Hk & t & Ht)]. split; [by eapply sink_steps_keep|].
  destruct (pe_event _ _ (product_steps_evolve _ _ Hp) _ _ Hk) as (e' & Hk' & _ & Hd).
  exists e'. split; [done|]. destruct Hd as [-> | Hn]; [by exists t|congruence].
Qed.

Lemma publish_Ok e w r w' : inv w → sink_publish e w = (r, w') →
  inv w' ∧ rtc product_step (pview w) (pview w') ∧ rtc sink_step (sview w) (sview w') ∧
  ∀ d, r = Ok d → sview w' !! er_id e = Some e.
Proof.
  intros Hi H. destruct (sink_pframe e _ _ _ Hi H) as [Hi' Hp]. do 2 (split; [done|]).
  destruct (law_publish e _ _ _ Hi H) as (_ & s & Hs & He). destruct r as [d|x].
  - split; [etrans; [exact Hs|apply rtc_once; by eapply sink_published]|]. intros d' _.
    destruct He as [_ He]. destruct (s !! er_id e) as [y|] eqn:Hy.
    + destruct He as (-> & _ & ->). done.
    + destruct He as [_ ->]. apply lookup_insert_eq.
  - rewrite He. done.
Qed.

Lemma mark_Ok id t w r w' : inv w → product_markPublished id t w = (r, w') →
  inv w' ∧ rtc product_step (pview w) (pview w') ∧ rtc sink_step (sview w) (sview w') ∧
  ∀ x, r = Ok x → ∃ stored, ps_events (pview w') !! id = Some stored ∧ is_Some (er_publishedAt stored).
Proof.
  intros Hi H. destruct (mark_sframe id t _ _ _ Hi H) as [Hi' Hs].
  destruct (law_markPublished id t _ _ _ Hi H) as (_ & p & Hp & He). destruct r as [x|x].
  - split; [done|]. split; [etrans; [exact Hp|apply rtc_once; by eapply product_mark]|]. split; [done|].
    intros y _. destruct He as (c & Hc & He). destruct (er_publishedAt c) as [t'|] eqn:Ht.
    + destruct He as [-> ->]. exists c. by rewrite Ht.
    + destruct He as [-> ->]. eexists. split; [apply lookup_insert_eq|done].
  - by rewrite He.
Qed.

(** A prefix of [events] is settled, and all of them if the loop returned. *)
Definition settled_prefix (events : list ReliableEventRecord) (pub dup : Z) (r : result exn (Z * Z))
    (p : product_state) (s : sink_state) : Prop :=
  ∃ done_ rest, events = done_ ++ rest ∧ (∀ e, e ∈ done_ → settled e p s) ∧
    ∀ counts, r = Ok counts → rest = [] ∧
      counts.1 + counts.2 = pub + dup + Z.of_nat (List.length events) ∧ pub ≤ counts.1 ∧ dup ≤ counts.2.

Lemma settled_prefix_Err events pub dup x p s : settled_prefix events pub dup (Err x) p s.
Proof. exists [], events. split; [done|]. split; [intros e He; by apply not_elem_of_nil in He|done]. Qed.

Lemma settled_prefix_nil pub dup p s : settled_prefix [] pub dup (Ok (pub, dup)) p s.
Proof.
  exists [], []. split; [done|]. split; [intros e He; by apply not_elem_of_nil in He|].
  intros counts [= <-]. cbn. split; [done|]. lia.
Qed.

Lemma settled_prefix_cons e events (b : bool) pub dup r p s :
  settled e p s →
  settled_prefix events (if b then pub + 1 else pub) (if b then dup else dup + 1) r p s →
  settled_prefix (e :: events) pub dup r p s.
Proof.
  intros He (l1 & l2 & -> & Hl & Hc). exists (e :: l1), l2. split; [done|]. split.
  - intros z [-> | Hz]%elem_of_cons; [done|by apply Hl].
  - intros counts Hr. destruct (Hc _ Hr) as (-> & Hsum & H1 & H2). split; [done|]. cbn [app List.length].
    destruct b; lia.
Qed.

Lemma publish_events_spec events pub dup w r w' : inv w → publish_events events pub dup w = (r, w') →
  inv w' ∧ rtc product_step (pview w) (pview w') ∧ rtc sink_step (sview w) (sview w') ∧
  settled_prefix events pub dup r (pview w') (sview w').
Proof.
  revert pub dup w. induction events as [|e events IH]; intros pub dup w Hi H; cbn [publish_events] in H.
  { injection H as <- <-. do 3 (split; [done|]). apply settled_prefix_nil. }
  unfold mbind, M_bind in H. destruct (sink_publish e w) as [[d|x] w1] eqn:E1;
    destruct (publish_Ok _ _ _ _ Hi E1) as (Hi1 & Hp1 & Hs1 & Hd).
  2: { injection H as <- <-. do 3 (split; [done|]). apply settled_prefix_Err. }
  destruct (clock_now w1) as [[t|x] w2] eqn:E2; destruct (clock_pframe _ _ _ Hi1 E2) as [Hi2 Hp2];
    destruct (clock_sframe _ _ _ Hi1 E2) as [_ Hs2].
  2: { injection H as <- <-. split; [done|]. do 2 (split; [by etrans|]). apply settled_prefix_Err. }
  destruct (product_markPublished _ _ w2) as [[y|x] w3] eqn:E3;
    destruct (mark_Ok _ _ _ _ _ Hi2 E3) as (Hi3 & Hp3 & Hs3 & Hm);
    assert (rtc product_step (pview w) (pview w3)) as Hp03 by (do 2 (etrans; [eassumption|]); done);
    assert (rtc sink_step (sview w) (sview w3)) as Hs03 by (do 2 (etrans; [eassumption|]); done).
  2: { injection H as <- <-. do 3 (split; [done|]). apply settled_prefix_Err. }
  apply IH in H as (Hi' & Hp & Hs & Hl); [|done]. split; [done|]. do 2 (split; [by etrans|]).
  eapply settled_prefix_cons; [|exact Hl]. apply (settled_keep _ (pview w3) _ (sview w3)); [done..|].
  split; [|by eapply Hm]. eapply sink_steps_keep; [|by eapply Hd]. by etrans.
Qed.

(** Publishing is at least once and never lost: of the events
    [publishPending] lists (pending ones, none twice, all of them below the
    limit) a prefix ends up with the sink, content unchanged, and marked in the
    outbox, whatever other publishers do; and if the call returns, that is all
    of them and its counts add up. *)
Theorem publish_pending_settles limit w r w' :
  0 ≤ limit → inv w → publishPending limit w = (r, w') →
  inv w' ∧
  match product_listPending limit w with
  | (Err x, w1) => r = Err x ∧ w' = w1
  | (Ok pending, w1) =>
      pending_list limit pending (pview w1) ∧ rtc product_step (pview w) (pview w1) ∧
      ∃ done_ rest, pending = done_ ++ rest ∧
        (∀ e, e ∈ done_ → settled e (pview w') (sview w')) ∧
        ∀ res, r = Ok res → rest = [] ∧ pp_attempted res = Z.of_nat (List.length pending) ∧
          pp_published res + pp_duplicates res = pp_attempted res
  end.
Proof.
  intros Hl Hi H. unfold publishPending, mbind, M_bind in H.
  destruct (product_listPending limit w) as [[pending|x] w1] eqn:E.
  2: { injection H as <- <-. by destruct (list_sframe limit _ _ _ Hi E). }
  destruct (reads_Ok _ _ _ _ _ _ _ _ (law_listPending _ Hl) Hi E) as (Hi1 & Hp1 & Hpl).
  destruct (publish_events pending 0 0 w1) as [rc w2] eqn:Ep.
  destruct (publish_events_spec _ _ _ _ _ _ Hi1 Ep) as (Hi2 & Hp2 & _ & l1 & l2 & Heq & Hset & Hc).
  destruct rc as [counts|x]; injection H as <- <-.
  - split; [done|]. do 2 (split; [done|]). exists l1, l2. do 2 (split; [done|]). intros res [= <-].
    destruct (Hc _ eq_refl) as (Hr & Hsum & _). cbn. split; [done|]. split; [done|]. lia.
  - split; [done|]. do 2 (split; [done|]). by exists l1, l2.
Qed.
End publishing.

(** The sink takes an event once: after it took an event, whatever others
    publish in between, every later delivery of an event with that identifier
    either throws or has the same content and is reported as a duplicate. *)
Theorem sink_takes_once {W : Type} `{!ReliableEventSinkPort W} (view : W → sink_state) (inv : W → Prop)
    `{!SinkLaws W view inv} e w d w1 w2 e' d' w3 :
  inv w → sink_publish e w = (Ok d, w1) → inv w2 → rtc sink_step (view w1) (view w2) → er_id e' = er_id e →
  sink_publish e' w2 = (Ok d', w3) → e' = e ∧ ed_outcome d' = event_duplicate ∧ view w3 !! er_id e = Some e.
Proof.
  intros Hi H Hi2 Hs Hid H'.
  destruct (op_law_Ok _ _ _ _ _ _ _ _ (law_publish e) Hi H) as (_ & s & _ & _ & He).
  assert (view w1 !! er_id e = Some e) as Hin.
  { destruct (s !! er_id e) as [y|] eqn:Hy; [by destruct He as (-> & _ & ->)|].
    destruct He as [_ ->]. apply lookup_insert_eq. }
  destruct (op_law_Ok _ _ _ _ _ _ _ _ (law_publish e') Hi2 H') as (_ & s2 & Hs2 & _ & He').
  assert (s2 !! er_id e = Some e) as Hin2 by (eapply sink_steps_keep; [|exact Hin]; by etrans).
  rewrite Hid, Hin2 in He'. destruct He' as (-> & Hd & ->). done.
Qed.

(** ** The in-memory sink *)
Definition es_view (w : InMemoryReliableEventSink) : sink_state := map_view (es_events w).

Definition es_inv (w : InMemoryReliableEventSink) : Prop := True.

Lemma event_json_inj r r' : event_json r = event_json r' → r = r'.
Proof.
  destruct r as [[] [|]], r' as [[] [|]]; unfold event_json; cbn; congruence.
Qed.

Lemma valuesEqual_events r r' : valuesEqual (event_json r) (event_json r') = true ↔ r = r'.
Proof.
  unfold valuesEqual. rewrite bool_decide_eq_true. split; [|by intros ->].
  intros H. by apply event_json_inj, stringify_inj.
Qed.

Lemma es_publish_law e : gen_op_law sink_step es_view es_inv (publish_effect e) (es_publish e).
Proof.
  intros w r w' Hi H. split; [done|]. unfold es_publish, es_checkpoint in H.
  destruct (checkpoint_cases "reliableEventSink.publish" (es_failures w)) as (r0 & f & Hc & Hr0).
  unfold mbind, mret, M_bind, M_ret, gets, modify, throwM_if, lift, zoom, frozenCopy in H. rewrite Hc in H.
  destruct Hr0 as [->|(m & d & ->)]; [|injection H as <- <-; by exists (es_view w)].
  cbn in H. destruct (map_get (er_id e) (es_events w)) as [existing|] eqn:Hk.
  - unfold throw_if in H. destruct (valuesEqual _ _) eqn:Ev; cbn in H; injection H as <- <-.
    + apply valuesEqual_events in Ev as ->. exists (es_view w). split; [done|]. split; [done|].
      unfold es_view. cbn. by rewrite map_view_lookup, Hk.
    + by exists (es_view w).
  - injection H as <- <-. exists (es_view w). split; [done|]. split; [done|].
    unfold es_view. cbn. rewrite map_view_lookup, Hk. by rewrite map_view_set.
Qed.

Definition pw_sview (w : ProductWorld) : sink_state := es_view (pw_sink w).

#[export] Instance pw_sink_laws : SinkLaws ProductWorld pw_sview pw_inv.
Proof.
  intros e w r w' Hi H.
  assert (gen_op_law sink_step (λ w, es_view (pw_sink w)) (λ w, es_inv (pw_sink w)) (publish_effect e)
    (sink_publish e)) as Hlaw by (apply op_law_zoom; [done|apply es_publish_law]).
  destruct (Hlaw w r w' I H) as (_ & s & Hs & He).
  split; [|by exists s]. unfold sink_publish, pw_sink_port, zoom in H.
  destruct (es_publish e (pw_sink w)) as [r0 k]. by injection H as <- <-.
Qed.

Lemma pw_clock_sframe : gen_frame_law sink_step pw_sview pw_inv clock_now.
Proof. intros v r v' Hi Hr. by injection Hr as <- <-. Qed.

Lemma pw_sink_pframe e : gen_frame_law product_step pw_view pw_inv (sink_publish e).
Proof.
  apply pw_frame. intros v. unfold sink_publish, pw_sink_port, zoom. by destruct (es_publish e (pw_sink v)).
Qed.

Lemma on_repo_sframe {A} (m : M exn LeasedRepository A) :
  (∀ w r w', pw_inv w → on_repo m w = (r, w') → pw_inv w') → gen_frame_law sink_step pw_sview pw_inv (on_repo m).
Proof.
  intros Hm v r v' Hi Hr. split; [by eapply Hm|]. unfold on_repo, zoom in Hr.
  destruct (m (pw_repo v)). by injection Hr as <- <-.
Qed.

Lemma pw_mark_sframe id t : gen_frame_law sink_step pw_sview pw_inv (product_markPublished id t).
Proof. apply on_repo_sframe. intros w r w' Hi H. exact (proj1 (law_markPublished (W := ProductWorld) id t w r w' Hi H)). Qed.

Lemma pw_list_sframe limit : gen_frame_law sink_step pw_sview pw_inv (product_listPending limit).
Proof. apply on_repo_sframe. intros w r w' Hi H. by injection H as <- <-. Qed.

(** ** The outbox drains *)

(** Nothing fails, and what the sink has taken of the pending events is those events. *)
Record quiet_world (w : ProductWorld) : Prop := mk_quiet {
  qw_inv : pw_inv w;
  qw_repo : pr_failures (pw_repo w) = NO_FAILURES;
  qw_sink : es_failures (pw_sink w) = NO_FAILURES;
  qw_same : ∀ e r, es_view (pw_sink w) !! er_id r = Some e →
    ps_events (pw_view w) !! er_id r = Some r → er_publishedAt r = None → e = r;
}.

Definition pending (w : ProductWorld) (r : ReliableEventRecord) : Prop :=
  ps_events (pw_view w) !! er_id r = Some r ∧ er_publishedAt r = None.

Lemma quiet_publish e w : quiet_world w → pending w e →
  ∃ d w', sink_publish e w = (Ok d, w') ∧ pw_repo w' = pw_repo w ∧ es_failures (pw_sink w') = NO_FAILURES ∧
    es_view (pw_sink w') = <[er_id e := e]> (es_view (pw_sink w)).
Proof.
  intros [Hi Hf Hsf Hsame] [He Hp]. unfold sink_publish, pw_sink_port, zoom, es_publish, es_checkpoint.
  unfold mbind, mret, M_bind, M_ret, gets, modify, throwM_if, lift, zoom, frozenCopy. rewrite Hsf. cbn.
  specialize (Hsame) with (r := e). unfold es_view in *. rewrite map_view_lookup in Hsame.
  destruct (map_get (er_id e) (es_events (pw_sink w))) as [x|] eqn:Hx.
  - rewrite (Hsame x) by done. rewrite (proj2 (valuesEqual_events e e) eq_refl). cbn.
    do 2 eexists. do 3 (split; [done|]). cbn. rewrite insert_id; [done|]. rewrite map_view_lookup, Hx. f_equal. by apply Hsame.
  - do 2 eexists. do 3 (split; [done|]). cbn. by rewrite map_view_set.
Qed.

Lemma quiet_published e w w1 :
  quiet_world w → pending w e → pw_repo w1 = pw_repo w → es_failures (pw_sink w1) = NO_FAILURES →
  es_view (pw_sink w1) = <[er_id e := e]> (es_view (pw_sink w)) → quiet_world w1 ∧ pending w1 e.
Proof.
  intros [Hi Hf Hsf Hsame] He Hr1 Hs1 Hv1. unfold pending, pw_view in *. rewrite Hr1. split; [|done].
  split; [unfold pw_inv; by rewrite Hr1|by rewrite Hr1|done|].
  intros y r Hy Hr Hnone. unfold pw_view in Hr. rewrite Hr1 in Hr. rewrite Hv1 in Hy.
  destruct (decide (er_id e = er_id r)) as [Hd|Hd].
  - rewrite Hd, lookup_insert_eq in Hy. injection Hy as <-. rewrite <-Hd in Hr. destruct He. congruence.
  - rewrite lookup_insert_ne in Hy by done. by apply Hsame.
Qed.

Lemma quiet_mark e t w : quiet_world w → pending w e →
  ∃ w', product_markPublished (er_id e) t w = (Ok (e <| er_publishedAt := Some t |>), w') ∧
    pw_sink w' = pw_sink w ∧ pr_failures (pw_repo w') = NO_FAILURES ∧ pw_inv w' ∧
    ps_events (pw_view w') = <[er_id e := e <| er_publishedAt := Some t |>]> (ps_events (pw_view w)).
Proof.
  intros [Hi Hf Hsf Hsame] [He Hp].
  assert (map_get (er_id e) (pr_events (pw_repo w)) = Some e) as Hg by (by rewrite <-map_view_lookup).
  destruct (product_markPublished (er_id e) t w) as [r w'] eqn:E.
  destruct (law_markPublished (er_id e) t w r w' Hi E) as [Hi' _].
  unfold product_markPublished, pw_port, on_repo, zoom, pr_markPublished, on_events, ie_markPublished, ie_checkpoint in E.
  unfold mbind, mret, M_bind, M_ret, gets, modify, throw, lift, zoom, frozenCopy in E. cbn in E.
  rewrite Hg in E. cbn in E. rewrite Hp in E. cbn in E. rewrite Hf in E. cbn in E. injection E as <- <-.
  eexists. split; [done|]. split; [done|]. split; [done|]. split; [done|].
  unfold pw_view, pr_view. cbn. by rewrite map_view_set.
Qed.

Lemma quiet_step e w w1 w2 t :
  quiet_world w → pending w e → pw_repo w1 = pw_repo w → es_failures (pw_sink w1) = NO_FAILURES →
  es_view (pw_sink w1) = <[er_id e := e]> (es_view (pw_sink w)) →
  product_markPublished (er_id e) t w1 = (Ok (e <| er_publishedAt := Some t |>), w2) →
  pw_sink w2 = pw_sink w1 → pr_failures (pw_repo w2) = NO_FAILURES → pw_inv w2 →
  ps_events (pw_view w2) = <[er_id e := e <| er_publishedAt := Some t |>]> (ps_events (pw_view w)) →
  quiet_world w2 ∧ (∀ x, er_id x ≠ er_id e → pending w x ↔ pending w2 x) ∧ (∀ x, er_id x = er_id e → ¬ pending w2 x).
Proof.
  intros [Hi Hf Hsf Hsame] [He Hp] Hr1 Hs1 Hv1 _ Hs2 Hf2 Hi2 Hev.
  assert (∀ x, er_id x ≠ er_id e → pending w x ↔ pending w2 x) as Hne.
  { intros x Hx. unfold pending. by rewrite Hev, lookup_insert_ne. }
  assert (∀ x, er_id x = er_id e → ¬ pending w2 x) as Heq.
  { intros x Hx [H1 H2]. rewrite Hev, Hx, lookup_insert_eq in H1. injection H1 as <-. done. }
  split; [|done]. split; [done|done|by rewrite Hs2|].
  intros y r Hy Hr Hn. rewrite Hs2, Hv1 in Hy.
  destruct (decide (er_id r = er_id e)) as [Hd|Hd]; [by destruct (Heq r Hd)|].
  rewrite lookup_insert_ne in Hy by done. destruct (proj2 (Hne r Hd)) as [H1 H2]; [done|]. by apply Hsame.
Qed.

Lemma publish_events_quiet events pub dup w :
  quiet_world w → (∀ e, e ∈ events → pending w e) → NoDup (er_id <$> events) →
  ∃ counts w', publish_events events pub dup w = (Ok counts, w') ∧ quiet_world w' ∧
    (∀ x, pending w' x ↔ pending w x ∧ (er_id x ∉ er_id <$> events)).
Proof.
  revert pub dup w. induction events as [|e events IH]; intros pub dup w Hq Hp Hn; cbn [publish_events].
  { do 2 eexists. split; [done|]. split; [done|]. intros x. cbn. rewrite elem_of_nil. tauto. }
  assert (pending w e) as He by (apply Hp; by left).
  destruct (quiet_publish e w Hq He) as (d & w1 & E1 & Hr1 & Hs1 & Hv1).
  destruct (quiet_published e w w1 Hq He Hr1 Hs1 Hv1) as [Hq1 He1].
  destruct (quiet_mark e (pw_clock w1) w1 Hq1 He1) as (w2 & E2 & Hs2 & Hf2 & Hi2 & Hev).
  destruct (quiet_step e w w1 w2 (pw_clock w1)) as (Hq2 & Hne & Heq); try done.
  { unfold pw_view in *. by rewrite Hr1 in Hev. }
  unfold mbind, M_bind. rewrite E1. cbn [fst snd]. change (clock_now w1) with (Ok (pw_clock w1) : result exn string, w1).
  cbn match. rewrite E2. cbn in Hn. apply NoDup_cons in Hn as [Hni Hn].
  assert (∀ x, x ∈ events → pending w2 x) as Hp2.
  { intros x Hx. apply Hne; [|apply Hp; by right]. intros Hd. apply Hni. rewrite <-Hd. by apply list_elem_of_fmap_2. }
  destruct (IH (if ed_outcome d === event_published then pub + 1 else pub)
    (if ed_outcome d === event_published then dup else dup + 1) w2 Hq2 Hp2 Hn) as (counts & w' & E & Hq' & Hx).
  exists counts, w'. split; [exact E|]. split; [done|]. intros x. rewrite Hx. cbn. rewrite not_elem_of_cons.
  destruct (decide (er_id x = er_id e)) as [Hd|Hd].
  - split; [intros [H _]; by destruct (Heq x Hd)|tauto].
  - rewrite (Hne x Hd). tauto.
Qed.

(** C36 The outbox drains: in a world without failures, whose sink has not been
    given other content under the identifier of a pending event,
    [publishPending] with a limit above the number of listed events returns, no
    event is pending any more, and the sink has every event that was. *)
Theorem outbox_drains limit w listed :
  quiet_world w → 0 ≤ limit → (product_listPending limit w).1 = Ok listed →
  (List.length listed < Z.to_nat limit)%nat →
  ∃ res w', publishPending limit w = (Ok res, w') ∧ quiet_world w' ∧ (∀ r, ¬ pending w' r) ∧
    (∀ r, pending w r → es_view (pw_sink w') !! er_id r = Some r) ∧ pp_attempted res = Z.of_nat (List.length listed).
Proof.
  intros Hq Hl H Hlen. unfold publishPending, mbind, M_bind.
  destruct (product_listPending limit w) as [r w1] eqn:E. cbn in H. subst r.
  assert (w1 = w) as ->.
  { destruct w as [[] s c]. cbn in E. injection E as _ <-. done. }
  destruct (reads_Ok _ _ _ _ _ _ _ _ (law_listPending _ Hl) (qw_inv _ Hq) E) as (_ & _ & [Hpl Hn _ Hall]).
  destruct (publish_events_quiet listed 0 0 w Hq Hpl Hn) as (counts & w' & Ep & Hq' & Hx). rewrite Ep.
  eexists _, w'. split; [done|]. split; [done|].
  assert (∀ x, pending w x → x ∈ listed) as Hin by (intros x [H1 H2]; by apply Hall).
  split; [|split; [|done]].
  - intros x [H1 H2]%Hx. apply H2. by apply list_elem_of_fmap_2, Hin.
  - intros x Hpx. destruct (publish_events_spec pw_view pw_sview pw_inv pw_clock_frame pw_clock_sframe pw_sink_pframe
      pw_mark_sframe listed 0 0 w (Ok counts) w' (qw_inv _ Hq) Ep) as (_ & _ & _ & done_ & rest & Heq & Hset & Hc).
    destruct (Hc _ eq_refl) as (-> & _). rewrite app_nil_r in Heq. subst done_. by apply Hset, Hin.
Qed.

(** ** Samples: a commit leaves an event in the outbox, and it drains *)
Definition committed_product : ProductWorld := (commitStateAndEvents sample_input sample_product).2.

Lemma committed_product_quiet : quiet_world committed_product.
Proof.
  destruct (commitStateAndEvents sample_input sample_product) as [r w'] eqn:E.
  assert (pw_inv w') as Hi by apply (law_commit sample_input _ _ _ sample_product_inv E).
  unfold committed_product. rewrite E. split; [exact Hi| | |]; vm_compute in E; injection E as _ <-.
  - reflexivity.
  - reflexivity.
  - intros e x Hx. discriminate Hx.
Qed.

Definition published_sample : ProductWorld := (publishPending 10 committed_product).2.

Example publish_sample :
  (publishPending 10 committed_product).1 = Ok (mkPublished 1 1 0) ∧
  (publishPending 10 published_sample).1 = Ok (mkPublished 0 0 0).
Proof. vm_compute. auto. Qed.

Lemma outbox_drains_witness :
  ∃ res w', publishPending 10 committed_product = (Ok res, w') ∧ (∀ r, ¬ pending w' r) ∧ pp_attempted res = 1.
Proof.
  destruct (outbox_drains 10 committed_product
    [mkEventRecord (mkEvent "event-1" "key-1" "topic" "payload-1" "2026-01-01T12:00:01.000Z") None]
    committed_product_quiet ltac:(lia) eq_refl ltac:(vm_compute; lia)) as (res & w' & H1 & _ & H2 & _ & H3).
  exists res, w'. split; [exact H1|]. split; [exact H2|exact H3].
Defined.

Lemma publish_pending_settles_witness :
  ∃ w', publishPending 10 committed_product = (Ok (mkPublished 1 1 0), w') ∧ pw_inv w'.
Proof.
  destruct (publishPending 10 committed_product) as [r w'] eqn:E.
  assert (r = Ok (mkPublished 1 1 0)) as -> by (vm_compute in E; injection E as <- _; reflexivity).
  exists w'. split; [reflexivity|].
  refine (proj1 (publish_pending_settles pw_view pw_sview pw_inv pw_clock_frame pw_clock_sframe pw_sink_pframe
    pw_mark_sframe pw_list_sframe 10 committed_product _ w' _ (qw_inv _ committed_product_quiet) E)). lia.
Defined.

Lemma sink_takes_once_witness :
  let e := mkEventRecord (mkEvent "event-1" "key-1" "topic" "payload-1" "2026-01-01T12:00:01.000Z") None in
  ∃ w1 d' w3, sink_publish e sample_product = (Ok (mkEventDelivery "event-1" event_published), w1) ∧
    sink_publish e w1 = (Ok d', w3) ∧ ed_outcome d' = event_duplicate.
Proof.
  intros e. destruct (sink_publish e sample_product) as [[d|x] w1] eqn:E; [|vm_compute in E; discriminate E].
  destruct (sink_publish e w1) as [[d'|x] w3] eqn:E'.
  2: { vm_compute in E. injection E as _ <-. vm_compute in E'. discriminate E'. }
  exists w1, d', w3. split; [vm_compute in E; injection E as <- <-; reflexivity|]. split; [exact E'|].
  assert (pw_inv w1) as Hi by exact (proj1 (law_publish e _ _ _ sample_product_inv E)).
  exact (proj1 (proj2 (sink_takes_once pw_sview pw_inv e sample_product d w1 w1 e d' w3 sample_product_inv E Hi
    (rtc_refl _ _) eq_refl E'))).
Defined.
