(* ===== verification/DurableEntities.v ===== *)
(** The contract of [StateStorePort] (packages/application/src/ports/persistence.ts):
    records by key, replaced by compare-and-set, under any interference; and
    the proof that the in-memory store keeps it. *)
From S2P Require Import Prelude Js JsJson Identifiers Contract Deterministic InMemoryAuth Persistence.
From S2P Require Import AuthTypes Delegation.
Local Open Scope Z_scope.

(** ** The contract of [StateStorePort], under any interference [step] *)
Abbreviation store_state := (gmap string StateRecord).

Definition store_cas (input : CompareAndSetStateInput) (result : StateRecord) (s s' : store_state) : Prop :=
  sr_revision <$> s !! cs_key input = cs_expectedRevision input ∧
  result = next_record input (s !! cs_key input) ∧ s' = <[cs_key input := result]> s.

Class StateStoreLaws (W : Type) `{!StateStorePort W} (step : store_state → store_state → Prop)
    (view : W → store_state) (inv : W → Prop) : Prop := {
  law_store_read : ∀ key, gen_op_law step view inv (gen_reads (λ o s, o = s !! key)) (store_read key);
  law_store_cas : ∀ input, gen_op_law step view inv (store_cas input) (compareAndSet input);
}.

(** Compare-and-set: a record is determined by its revision. *)
Lemma store_cas_evolves input result s s' k r :
  store_cas input result s s' → s !! k = Some r →
  ∃ r', s' !! k = Some r' ∧ sr_revision r ≤ sr_revision r' ∧ (sr_revision r' = sr_revision r → r' = r).
Proof.
  intros (_ & -> & ->) Hk. destruct (decide (cs_key input = k)) as [->|Hne].
  - rewrite lookup_insert_eq, Hk. eexists. split; [done|]. cbn. lia.
  - rewrite lookup_insert_ne by done. exists r. split; [done|]. split; [lia|done].
Qed.

(** The in-memory store keeps the contract under any interference. *)
Definition ss_view (w : InMemoryStateStore) : store_state := map_view (ss_records w).

#[export] Instance ss_laws step : StateStoreLaws InMemoryStateStore step ss_view (λ _, True).
Proof.
  constructor.
  - intros key w r w' _ H. injection H as <- <-. split; [done|]. exists (ss_view w). split; [done|].
    split; [|done]. unfold ss_view. rewrite map_view_lookup. unfold frozenCopy. by destruct (map_get _ _).
  - intros input w r w' _ H. split; [done|]. exists (ss_view w). split; [done|].
    unfold compareAndSet, ss_port, ss_compareAndSet, ss_checkpoint, zoom, mbind, M_bind, gets, lift in H.
    destruct (checkpoint _ _) as [[[]|x] f]; [|by injection H as <- <-]. cbn in H.
    unfold assertRevision in H. destruct (_ !== _) eqn:E in H; injection H as <- <-; [done|]. guards_in E.
    unfold store_cas, ss_view. rewrite map_view_lookup. split; [done|]. split; [done|]. apply map_view_set.
Qed.

(** ** Interference by compare-and-set only: unchanged revision, unchanged record *)
Section evolution.
Context (step : store_state → store_state → Prop)
  (Hstep : ∀ s s', step s s' → ∃ input r, store_cas input r s s').

Lemma cas_steps_record s s' k r : rtc step s s' → s !! k = Some r →
  ∃ r', s' !! k = Some r' ∧ sr_revision r ≤ sr_revision r' ∧ (sr_revision r' = sr_revision r → r' = r).
Proof.
  intros H. revert r. induction H as [|s s1 s2 (input & x & Hc)%Hstep _ IH]; intros r Hr.
  { exists r. split; [done|]. split; [lia|done]. }
  destruct (store_cas_evolves _ _ _ _ _ _ Hc Hr) as (r1 & Hr1 & Hle & Heq).
  destruct (IH _ Hr1) as (r2 & Hr2 & Hle2 & Heq2). exists r2. split; [done|]. split; [lia|].
  intros H. assert (r1 = r) as <- by (apply Heq; lia). by apply Heq2.
Qed.

Lemma record_same s s' k : rtc step s s' →
  sr_revision <$> s' !! k = sr_revision <$> s !! k → s' !! k = s !! k.
Proof.
  intros Hs Hr. destruct (s !! k) as [r|] eqn:Hk.
  - destruct (cas_steps_record _ _ _ _ Hs Hk) as (r' & Hk' & _ & Heq). rewrite Hk' in Hr |- *.
    injection Hr as Hr. f_equal. by apply Heq.
  - by destruct (s' !! k).
Qed.
End evolution.

(** ** Reading the fields of stored JSON values: a decoder per type, and the
    rewriting lemmas ([codec]) that a decoder undoes its encoder. *)

(** ** Reading JSON values back *)
Definition as_str (j : json) : option string := match j with JStr s => Some s | _ => None end.
Definition as_num (j : json) : option Z := match j with JNum n => Some n | _ => None end.
Definition as_strs (j : json) : option (list string) :=
  match j with JArr l => mapM as_str l | _ => None end.
Definition as_bool (j : json) : option bool := match j with JBool b => Some b | _ => None end.
Definition as_object (j : json) : option JsonObject := match j with JObj l => Some l | _ => None end.

(** One field of an object, which must be there. *)
Definition read {A} (decode : json → option A) (o : JsonObject) (field : string) : option A :=
  match readField o field with Some j => decode j | None => None end.

(** One field of an object, which may be missing. *)
Definition read_optional {A} (decode : json → option A) (o : JsonObject) (field : string) : option (option A) :=
  match readField o field with Some j => Some <$> decode j | None => Some None end.

(** An array of values. *)
Definition as_values {A} (decode : json → option A) (j : json) : option (list A) :=
  match j with JArr l => mapM decode l | _ => None end.

(** A member of an enumeration. *)
Definition named {A} (parse : string → option A) (j : json) : option A :=
  match j with JStr s => parse s | _ => None end.

(** A value that may be [null]. *)
Definition or_null {A} (read : json → option A) (j : json) : option (option A) :=
  match j with JNull => Some None | j => Some <$> read j end.

Lemma as_strs_JStrs l : as_strs (JStrs l) = Some l.
Proof. unfold as_strs, JStrs. cbn. induction l as [|s l IH]; cbn; [done|]. cbn in IH. by rewrite IH. Qed.

Lemma or_null_JOptStr o : or_null as_str (JOptStr o) = Some o.
Proof. by destruct o. Qed.

Lemma as_values_list {A} (decode : json → option A) (encode : A → json) l :
  (∀ a, decode (encode a) = Some a) → as_values decode (JArr (encode <$> l)) = Some l.
Proof.
  intros H. cbn. induction l as [|a l IH]; [done|]. cbn. rewrite H. cbn. cbn in IH. by rewrite IH.
Qed.

#[export] Hint Rewrite as_strs_JStrs or_null_JOptStr : codec.

#[global] Arguments as_strs : simpl never.
#[global] Arguments JStrs : simpl never.
#[global] Arguments JOptStr : simpl never.
#[global] Arguments or_null : simpl never.
#[global] Arguments named : simpl never.
#[global] Arguments as_values : simpl never.

(** ** Packages/application/src/services/durable-autonomy-state-adapter.ts: the
    abstract class [DurableEntityStateAdapter], which keeps a table of entities
    in one record of a [StateStorePort], changed by compare-and-set with
    retries; and the refinement: on such a store it is an atomic table of
    entities, among users of the table whose steps are given ([rely]). *)

(** ** Entities *)
Class DurableEntity (T : Type) := {
  ent_id : T → string;
  ent_revision : T → Z;
  ent_ownerId : T → OwnerId;
  ent_agentId : T → AgentId;
  ent_json : T → json;
  ent_of_json : json → option T;
  ent_prefix : string;
  validateTransition : T → T → result exn unit;
  ent_roundtrip : ∀ x, ent_of_json (ent_json x) = Some x;
}.

Section adapter.
Context {T : Type} `{!DurableEntity T}.

(** [(clone(value) as { entities?: readonly T[] }).entities ?? []].  A value
    that is no table of entities is outside the model: here it throws. *)
Definition entities_of (value : JsonObject) : result exn (list T) :=
  match readField value "entities" with
  | None | Some JNull => Ok []
  | Some (JArr l) =>
      match mapM ent_of_json l with
      | Some l => Ok l
      | None => Err (typeError "not an entity")
      end
  | Some _ => Err (typeError "not a table of entities")
  end.

(** [asJson({ entities })] *)
Definition entities_json (l : list T) : JsonObject := [("entities", JArr (ent_json <$> l))].

Definition with_id (id : string) (e : T) : bool := ent_id e === id.
Arguments with_id : simpl never.

Section operations.
Context {W : Type} `{!StateStorePort W}.

Definition entities_in (record : option StateRecord) : result exn (list T) :=
  entities_of (default [] (sr_value <$> record)).

Definition readEntity (scope : AutonomyScope) (id : string) : M exn W (option T) :=
  record ← store_read ent_prefix;
  match record with
  | None => mret None
  | Some record =>
      values ← lift (entities_of (sr_value record));
      match List.find (with_id id) values with
      | None => mret None
      | Some value =>
          if (ent_ownerId value !== sp_ownerId scope) || (ent_agentId value !== sp_agentId scope) then mret None
          else
            throwM_if (ent_revision value <? 1) (typeError (ent_prefix +:+ " durable revision is invalid")) ;;
            mret (Some value)
      end
  end.

Definition listEntities (ownerId : OwnerId) (agentId : AgentId) : M exn W (list T) :=
  record ← store_read ent_prefix;
  values ← lift (entities_in record);
  mret (List.filter (λ e, (ent_ownerId e === ownerId) && (ent_agentId e === agentId)) values).

(** [compareAndSet] of the table, [false] when it conflicted. *)
Definition writeEntities (current : option StateRecord) (values : list T) : M exn W bool :=
  try_catch
    (compareAndSet (mkCas ent_prefix (sr_revision <$> current) (entities_json values)) ;; mret true)
    (λ error, if is_conflict error then mret false else throw error).

Fixpoint create_attempts (attempts : nat) (entity : T) : M exn W T :=
  match attempts with
  | O => throw (typeError (ent_prefix +:+ " create remained concurrent"))
  | S attempts =>
      current ← store_read ent_prefix;
      values ← lift (entities_in current);
      throwM_if (existsb (with_id (ent_id entity)) values)
        (typeError (ent_prefix +:+ " identity already exists")) ;;
      written ← writeEntities current (values ++ [entity]);
      if (written : bool) then mret entity else create_attempts attempts entity
  end.

Definition createEntity (entity : T) : M exn W T :=
  throwM_if (ent_revision entity !== 1) (typeError (ent_prefix +:+ " must start at revision 1")) ;;
  create_attempts 8 entity.

(** [values.findIndex(...)], with the value found. *)
Definition findIndex (id : string) (values : list T) : option (nat * T) :=
  list_find (λ e, ent_id e = id) values.

Fixpoint save_attempts (attempts : nat) (entity : T) (expectedRevision : Z) : M exn W T :=
  match attempts with
  | O => throw (typeError (ent_prefix +:+ " save remained concurrent"))
  | S attempts =>
      current ← store_read ent_prefix;
      values ← lift (entities_in current);
      match findIndex (ent_id entity) values with
      | None => throw (portError CONFLICT (ent_prefix +:+ " entity revision conflict") [])
      | Some (index, previous) =>
          throwM_if (ent_revision previous !== expectedRevision)
            (portError CONFLICT (ent_prefix +:+ " entity revision conflict") []) ;;
          throwM_if ((ent_ownerId previous !== ent_ownerId entity) || (ent_agentId previous !== ent_agentId entity))
            (portError NOT_AUTHORITATIVE (ent_prefix +:+ " scope cannot change") []) ;;
          lift (validateTransition previous entity) ;;
          written ← writeEntities current (<[index := entity]> values);
          if (written : bool) then mret entity else save_attempts attempts entity expectedRevision
      end
  end.

Definition saveEntity (entity : T) (expectedRevision : Z) : M exn W T :=
  throwM_if (ent_revision entity !== (expectedRevision + 1))
    (typeError (ent_prefix +:+ " revision must advance exactly once")) ;;
  save_attempts 8 entity expectedRevision.
End operations.
End adapter.

(** ** The abstract table: entities by identifier *)
Section refinement.
Context {T : Type} `{!DurableEntity T}.
Abbreviation entities := (gmap string T) (only parsing).

Definition ent_created (x result : T) (e e' : entities) : Prop :=
  ent_revision x = 1 ∧ e !! ent_id x = None ∧ result = x ∧ e' = <[ent_id x := x]> e.

Definition ent_saved (next : T) (expectedRevision : Z) (result : T) (e e' : entities) : Prop :=
  ∃ previous, e !! ent_id next = Some previous ∧ ent_revision previous = expectedRevision ∧
    ent_revision next = expectedRevision + 1 ∧ ent_ownerId previous = ent_ownerId next ∧
    ent_agentId previous = ent_agentId next ∧ validateTransition previous next = Ok tt ∧
    result = next ∧ e' = <[ent_id next := next]> e.

Inductive ent_step (e e' : entities) : Prop :=
  | step_created x r : ent_created x r e e' → ent_step e e'
  | step_saved next v r : ent_saved next v r e e' → ent_step e e'.

Definition ent_lookup (scope : AutonomyScope) (id : string) (e : entities) : option T :=
  x ← e !! id;
  if (ent_ownerId x === sp_ownerId scope) && (ent_agentId x === sp_agentId scope) then Some x else None.

(** The table in a store. *)
Definition table (s : store_state) : list T :=
  match entities_in (s !! ent_prefix) with Ok l => l | Err _ => [] end.

Definition ents_of (l : list T) : entities := list_to_map ((λ x, (ent_id x, x)) <$> l).

Definition ents (s : store_state) : entities := ents_of (table s).

Definition list_ok (l : list T) : Prop := NoDup (ent_id <$> l) ∧ ∀ x, x ∈ l → 1 ≤ ent_revision x.

Definition table_ok (s : store_state) : Prop :=
  ∀ r, s !! ent_prefix = Some r → ∃ l, sr_value r = entities_json l ∧ list_ok l.

(** A write of the table. *)
Definition table_written (l : list T) (s s' : store_state) : Prop :=
  ∃ input r, store_cas input r s s' ∧ cs_key input = ent_prefix ∧ cs_value input = entities_json l ∧ list_ok l.

(** What the users of the store do: other records, or the given steps of the table. *)
Definition ent_store_step (rely : entities → entities → Prop) (s s' : store_state) : Prop :=
  (∃ input r, store_cas input r s s' ∧ cs_key input ≠ ent_prefix) ∨
  (∃ l, table_written l s s' ∧ rely (ents s) (ents_of l)).

(** *** Tables as lists *)
Lemma mapM_json l : mapM ent_of_json (ent_json <$> l) = Some l.
Proof. induction l as [|x l IH]; cbn; [done|]. rewrite ent_roundtrip. cbn. cbn in IH. by rewrite IH. Qed.

Lemma entities_of_json l : entities_of (entities_json l) = Ok l.
Proof. unfold entities_of, entities_json. cbn. by rewrite mapM_json. Qed.

Lemma ents_of_lookup l k : ents_of l !! k = List.find (with_id k) l.
Proof.
  unfold ents_of. induction l as [|x l IH]; cbn; [apply lookup_empty|]. unfold with_id at 1.
  case_bool_decide as Hk; [rewrite Hk; apply lookup_insert_eq|].
  rewrite lookup_insert_ne by done. apply IH.
Qed.

Lemma ents_of_elem l x : NoDup (ent_id <$> l) → x ∈ l → ents_of l !! ent_id x = Some x.
Proof.
  intros Hn Hx. unfold ents_of. apply elem_of_list_to_map_1.
  - rewrite <-list_fmap_compose. exact Hn.
  - by apply (list_elem_of_fmap_2 (λ x, (ent_id x, x))).
Qed.

Lemma ents_of_Some l k x : ents_of l !! k = Some x → x ∈ l ∧ ent_id x = k.
Proof. rewrite ents_of_lookup. intros [Hx Hk]%find_elem. by apply bool_decide_eq_true in Hk. Qed.

Lemma ents_of_None l k : ents_of l !! k = None ↔ k ∉ ent_id <$> l.
Proof.
  rewrite ents_of_lookup, find_None. unfold with_id. split.
  - intros H (x & -> & Hx)%list_elem_of_fmap. specialize (H _ Hx). by apply bool_decide_eq_false in H.
  - intros H x Hx. apply bool_decide_eq_false. intros <-. apply H. by apply list_elem_of_fmap_2.
Qed.

Lemma ents_of_app l x : (ent_id x ∉ ent_id <$> l) → ents_of (l ++ [x]) = <[ent_id x := x]> (ents_of l).
Proof.
  intros Hx. apply map_eq. intros k. destruct (decide (ent_id x = k)) as [<-|Hk].
  - rewrite lookup_insert_eq, ents_of_lookup. rewrite <-ents_of_None, ents_of_lookup in Hx.
    induction l as [|y l IH]; cbn in *; [unfold with_id; by rewrite bool_decide_eq_true_2|].
    destruct (with_id (ent_id x) y); [done|by apply IH].
  - rewrite lookup_insert_ne by done. rewrite !ents_of_lookup.
    induction l as [|y l IH]; cbn; [unfold with_id; by rewrite bool_decide_eq_false_2|].
    destruct (with_id k y); [done|]. apply IH. clear -Hx. cbn in Hx. rewrite not_elem_of_cons in Hx. tauto.
Qed.

(** Replacing an entity by one with its identifier. *)
Lemma ids_insert (l : list T) i x y : l !! i = Some y → ent_id y = ent_id x → ent_id <$> <[i := x]> l = ent_id <$> l.
Proof.
  intros Hi Hid. rewrite list_fmap_insert. apply list_insert_id. rewrite list_lookup_fmap, Hi. cbn. congruence.
Qed.

Lemma ents_of_insert l i x y : NoDup (ent_id <$> l) → l !! i = Some y → ent_id y = ent_id x →
  ents_of (<[i := x]> l) = <[ent_id x := x]> (ents_of l).
Proof.
  intros Hn Hi Hid. apply map_eq. intros k. destruct (decide (ent_id x = k)) as [<-|Hk].
  - rewrite lookup_insert_eq. apply ents_of_elem; [by rewrite (ids_insert _ _ _ y)|].
    apply list_elem_of_lookup_2 with i, list_lookup_insert_eq. by eapply lookup_lt_Some.
  - rewrite lookup_insert_ne by done. rewrite !ents_of_lookup. revert i Hi.
    clear Hn. induction l as [|z l IH]; intros [|i] Hi; cbn in *; [done|done| |].
    + injection Hi as ->. unfold with_id at 1 3. rewrite !bool_decide_eq_false_2 by congruence. done.
    + destruct (with_id k z); [done|]. by apply IH.
Qed.

Lemma list_ok_snoc l x : list_ok l → (ent_id x ∉ ent_id <$> l) → ent_revision x = 1 → list_ok (l ++ [x]).
Proof.
  intros [Hn Hr] Hx H1. split.
  - rewrite fmap_app. apply NoDup_app. split; [done|]. split; [|apply NoDup_singleton].
    intros k Hk Hs. apply list_elem_of_singleton in Hs as ->. done.
  - intros y [Hy | ->%list_elem_of_singleton]%elem_of_app; [by apply Hr|lia].
Qed.

Lemma list_ok_insert l i x y : list_ok l → l !! i = Some y → ent_id y = ent_id x → 1 ≤ ent_revision x →
  list_ok (<[i := x]> l).
Proof.
  intros [Hn Hr] Hi Hid Hx. split; [by rewrite (ids_insert _ _ _ y)|].
  intros z Hz. apply list_elem_of_lookup in Hz as [j Hj]. apply list_lookup_insert_Some in Hj as [(_ & <- & _)|[_ Hj]]; [done|].
  apply Hr. by eapply list_elem_of_lookup_2.
Qed.

(** *** Stores that only users of the table touch *)
Lemma table_cas input r s s' : store_cas input r s s' → cs_key input ≠ ent_prefix →
  table s' = table s ∧ (table_ok s → table_ok s').
Proof.
  intros (_ & _ & ->) Hk. unfold table, table_ok. rewrite lookup_insert_ne by done. done.
Qed.

Lemma table_write l s s' : table_written l s s' → table s' = l ∧ table_ok s'.
Proof.
  intros (input & r & (_ & -> & ->) & Hk & Hv & Hl). unfold table, table_ok, entities_in. rewrite Hk, lookup_insert_eq. cbn.
  rewrite Hv, entities_of_json. split; [done|]. intros x [= <-]. exists l. by rewrite <-Hv.
Qed.

Section rely.
Context (rely : entities → entities → Prop).
Abbreviation ent_store_step := (ent_store_step rely) (only parsing).

Lemma ent_store_step_table s s' : ent_store_step s s' →
  rtc rely (ents s) (ents s') ∧ (table_ok s → table_ok s').
Proof.
  intros [(input & r & Hc & Hk)|(l & Hw & Hs)].
  - destruct (table_cas _ _ _ _ Hc Hk) as [Ht Hok]. unfold ents. rewrite Ht. done.
  - destruct (table_write _ _ _ Hw) as [Ht Hok]. unfold ents at 2. rewrite Ht. split; [by apply rtc_once|auto].
Qed.

Lemma ent_store_steps_table s s' : rtc ent_store_step s s' →
  rtc rely (ents s) (ents s') ∧ (table_ok s → table_ok s').
Proof.
  induction 1 as [|s s1 s2 H _ [IH1 IH2]]; [done|]. destruct (ent_store_step_table _ _ H) as [H1 H2].
  split; [by etrans|auto].
Qed.

Lemma ent_store_step_cas s s' : ent_store_step s s' → ∃ input r, store_cas input r s s'.
Proof. intros [(input & r & Hc & _)|(l & (input & r & Hc & _) & _)]; by exists input, r. Qed.

(** *** The operations *)
Section laws.
Context {W : Type} `{!StateStorePort W} (sview : W → store_state) (sinv : W → Prop)
  `{!StateStoreLaws W ent_store_step sview sinv}.

Definition eview (w : W) : gmap string T := ents (sview w).
Definition einv (w : W) : Prop := sinv w ∧ table_ok (sview w).

(** One read of the record: others may have acted, and its table can be read. *)
Lemma read_record w r w' : einv w → store_read ent_prefix w = (r, w') →
  einv w' ∧ rtc ent_store_step (sview w) (sview w') ∧
  match r with
  | Ok current => current = sview w' !! ent_prefix ∧ entities_in current = Ok (table (sview w')) ∧
      list_ok (table (sview w'))
  | Err _ => True
  end.
Proof.
  intros [Hi Hok] H. destruct (law_store_read _ _ _ _ Hi H) as (Hi' & s & Hs & He).
  destruct (ent_store_steps_table _ _ Hs) as [_ Hok']. destruct r as [current|x].
  2: { rewrite He. split; [split; [done|rewrite He; by apply Hok']|]. done. }
  destruct He as [Hc Hv]. rewrite Hv. split; [split; [done|rewrite Hv; by apply Hok']|]. split; [done|].
  split; [done|]. rewrite Hc. unfold table.
  destruct (s !! ent_prefix) as [rec|] eqn:Hk; cbn.
  - destruct (Hok' Hok _ Hk) as (l & Hl & Hlok). unfold entities_in. cbn. rewrite Hl, entities_of_json. done.
  - split; [done|]. split; [constructor|]. intros x Hx. by apply not_elem_of_nil in Hx.
Qed.

(** One write of the table: it happens on the very record that was read. *)
Lemma write_record w current values r w' :
  einv w → writeEntities current values w = (r, w') →
  sinv w' ∧ ∃ s, rtc ent_store_step (sview w) s ∧
    match r with
    | Ok true => sr_revision <$> s !! ent_prefix = sr_revision <$> current ∧
        ∃ result, store_cas (mkCas ent_prefix (sr_revision <$> current) (entities_json values)) result s (sview w')
    | _ => sview w' = s
    end.
Proof.
  intros [Hi Hok] H. unfold writeEntities, try_catch in H.
  unfold mbind, M_bind in H. destruct (compareAndSet _ w) as [[rec|x] w1] eqn:E.
  - injection H as <- <-. destruct (law_store_cas _ _ _ _ Hi E) as (Hi' & s & Hs & He).
    split; [done|]. exists s. split; [done|]. pose proof He as (Hr & _). split; [done|by exists rec].
  - destruct (law_store_cas _ _ _ _ Hi E) as (Hi' & s & Hs & He).
    destruct (is_conflict x); injection H as <- <-; (split; [done|]); by exists s.
Qed.

(** A loop that reads the table, may stop, writes it, and starts again on a conflict. *)
Lemma attempt_written w1 current values w2 :
  einv w1 → current = sview w1 !! ent_prefix → writeEntities current values w1 = (Ok true, w2) →
  list_ok values →
  einv w2 ∧ ∃ s, rtc ent_store_step (sview w1) s ∧ table s = table (sview w1) ∧
    ents (sview w2) = ents_of values ∧ table_written values s (sview w2).
Proof.
  intros Hi1 -> H Hok. destruct (write_record _ _ _ _ _ Hi1 H) as (Hi2 & s & Hs & Hr & result & Hc).
  pose proof (record_same _ ent_store_step_cas _ _ _ Hs Hr) as Hsame.
  assert (table s = table (sview w1)) as Hts by (unfold table; by rewrite Hsame).
  assert (table_written values s (sview w2)) as Hw by (by do 2 eexists).
  destruct (table_write _ _ _ Hw) as [Ht Htok]. split; [by split|]. exists s. split; [done|]. split; [done|].
  split; [unfold ents; by rewrite Ht|done].
Qed.

Lemma attempt_conflict w1 current values r w2 :
  einv w1 → writeEntities current values w1 = (r, w2) → r ≠ Ok true →
  einv w2 ∧ rtc ent_store_step (sview w1) (sview w2).
Proof.
  intros [Hi1 Hok] H Hr. destruct (write_record _ _ _ _ _ (conj Hi1 Hok) H) as (Hi2 & s & Hs & He).
  assert (sview w2 = s) as Hv by (by destruct r as [[]|]).
  split; [|by rewrite Hv]. split; [done|]. rewrite Hv. by apply (ent_store_steps_table _ _ Hs).
Qed.

(** An operation that writes the table, which is [effect] on it. *)
Definition writes_table {A} (effect : A → gmap string T → gmap string T → Prop) (a : A) (s s' : store_state) : Prop :=
  (∃ l, table_written l s s') ∧ effect a (ents s) (ents s').

Abbreviation slaw effect := (gen_op_law ent_store_step sview einv effect) (only parsing).
Abbreviation elaw effect := (gen_op_law rely eview einv effect) (only parsing).

Lemma writes_table_law {A} effect (m : M exn W A) : slaw (writes_table effect) m → elaw effect m.
Proof.
  intros H w r w' Hi Hm. destruct (H _ _ _ Hi Hm) as (Hi' & s & Hs & He). split; [done|]. exists (ents s).
  split; [by apply ent_store_steps_table|]. unfold eview. destruct r; [by apply He|by rewrite He].
Qed.

Lemma reads_table_law {A} (P : A → gmap string T → Prop) (m : M exn W A) :
  slaw (gen_reads (λ a s, P a (ents s))) m → elaw (gen_reads P) m.
Proof.
  intros H w r w' Hi Hm. destruct (H _ _ _ Hi Hm) as (Hi' & s & Hs & He). split; [done|]. exists (ents s).
  split; [by apply ent_store_steps_table|]. unfold eview. destruct r; [|by rewrite He].
  destruct He as [HP ->]. by split.
Qed.

(** Writes that are steps of the table are steps of the store. *)
Lemma writes_table_frame {A} effect (m : M exn W A) : (∀ a e e', effect a e e' → rely e e') →
  slaw (writes_table effect) m → gen_frame_law ent_store_step sview einv m.
Proof.
  intros Hr. apply op_law_frame. intros a s s' [[l Hw] He]. apply rtc_once. right. exists l. split; [done|].
  apply Hr in He. unfold ents at 2 in He. by rewrite (proj1 (table_write _ _ _ Hw)) in He.
Qed.

(** A failure, after others acted. *)
Lemma slaw_Err w w' :
  einv w' → rtc ent_store_step (sview w) (sview w') →
  einv w' ∧ ∃ s, rtc ent_store_step (sview w) s ∧ sview w' = s.
Proof. intros Hi Hs. split; [done|]. by exists (sview w'). Qed.

Lemma create_attempts_law n x : ent_revision x = 1 → slaw (writes_table (ent_created x)) (create_attempts n x).
Proof.
  intros H1. induction n as [|n IH]; intros w r w' Hi H; cbn [create_attempts] in H.
  { injection H as <- <-. by apply slaw_Err. }
  unfold mbind, M_bind in H. destruct (store_read ent_prefix w) as [[current|y] w1] eqn:E;
    destruct (read_record _ _ _ Hi E) as (Hi1 & Hs1 & Hc); [|injection H as <- <-; by apply slaw_Err].
  destruct Hc as (Hcur & Hin & Hl). unfold lift at 1 in H. rewrite Hin in H. unfold throwM_if, lift, throw_if in H.
  destruct (existsb _ _) eqn:Ex; [injection H as <- <-; by apply slaw_Err|].
  assert (ent_id x ∉ ent_id <$> table (sview w1)) as Hfresh.
  { intros (y & Hy & Hin')%list_elem_of_fmap. rewrite existsb_false in Ex. specialize (Ex _ Hin').
    unfold with_id in Ex. apply bool_decide_eq_false in Ex. congruence. }
  destruct (writeEntities _ _ w1) as [b w2] eqn:Ew.
  destruct (decide (b = Ok true)) as [->|Hb].
  - injection H as <- <-.
    assert (ent_created x x (ents_of (table (sview w1))) (ents_of (table (sview w1) ++ [x]))) as Hc.
    { split; [done|]. split; [by apply ents_of_None|]. split; [done|]. by apply ents_of_app. }
    destruct (attempt_written _ _ _ _ Hi1 Hcur Ew) as (Hi2 & s & Hs & Ht & Hv & Hstep);
      [by apply list_ok_snoc|].
    split; [done|]. exists s. split; [by etrans|]. split; [by eexists|]. rewrite Hv. unfold ents. by rewrite Ht.
  - destruct (attempt_conflict _ _ _ _ _ Hi1 Ew Hb) as [Hi2 Hs2].
    destruct b as [[]|y]; [done| |injection H as <- <-; apply slaw_Err; [done|by etrans]].
    destruct (IH _ _ _ Hi2 H) as (Hi' & s & Hs & Hr). split; [done|]. exists s. split; [|done].
    etrans; [exact Hs1|]. by etrans.
Qed.

Lemma findIndex_Some id (l : list T) i y : findIndex id l = Some (i, y) → l !! i = Some y ∧ ent_id y = id.
Proof. intros (H1 & H2 & _)%list_find_Some. done. Qed.

Lemma save_attempts_law n x v : ent_revision x = v + 1 → slaw (writes_table (ent_saved x v)) (save_attempts n x v).
Proof.
  intros H1. induction n as [|n IH]; intros w r w' Hi H; cbn [save_attempts] in H.
  { injection H as <- <-. by apply slaw_Err. }
  unfold mbind, M_bind in H. destruct (store_read ent_prefix w) as [[current|y] w1] eqn:E;
    destruct (read_record _ _ _ Hi E) as (Hi1 & Hs1 & Hc); [|injection H as <- <-; by apply slaw_Err].
  destruct Hc as (Hcur & Hin & Hl). unfold lift at 1 in H. rewrite Hin in H.
  destruct (findIndex _ _) as [[i previous]|] eqn:Ef; [|injection H as <- <-; by apply slaw_Err].
  apply findIndex_Some in Ef as [Hi0 Hid].
  unfold mbind, M_bind, throwM_if, lift, throw_if in H.
  destruct (ent_revision previous !== v) eqn:E1; [injection H as <- <-; by apply slaw_Err|]. guards_in E1.
  destruct (_ || _) eqn:E2; [injection H as <- <-; by apply slaw_Err|].
  apply orb_false_iff in E2 as [E2 E3]. guards_in E2. guards_in E3.
  destruct (validateTransition previous x) as [[]|y] eqn:E4; [|injection H as <- <-; by apply slaw_Err].
  destruct (writeEntities _ _ w1) as [b w2] eqn:Ew.
  destruct (decide (b = Ok true)) as [->|Hb].
  - injection H as <- <-. destruct Hl as [Hn Hrev].
    pose proof (Hrev previous (list_elem_of_lookup_2 _ _ _ Hi0)) as Hp1.
    assert (ent_saved x v x (ents_of (table (sview w1))) (ents_of (<[i := x]> (table (sview w1))))) as Hc.
    { exists previous. split; [rewrite <-Hid; apply ents_of_elem; [done|by eapply list_elem_of_lookup_2]|].
      do 6 (split; [done|]). by eapply ents_of_insert. }
    destruct (attempt_written _ _ _ _ Hi1 Hcur Ew) as (Hi2 & s & Hs & Ht & Hv & Hstep);
      [eapply list_ok_insert; [by split|done..|clear -Hp1 E1 H1; lia]|].
    split; [done|]. exists s. split; [by etrans|]. split; [by eexists|]. rewrite Hv. unfold ents. by rewrite Ht.
  - destruct (attempt_conflict _ _ _ _ _ Hi1 Ew Hb) as [Hi2 Hs2].
    destruct b as [[]|y]; [done| |injection H as <- <-; apply slaw_Err; [done|by etrans]].
    destruct (IH _ _ _ Hi2 H) as (Hi' & s & Hs & Hr). split; [done|]. exists s. split; [|done].
    etrans; [exact Hs1|]. by etrans.
Qed.

Lemma create_law x : slaw (writes_table (ent_created x)) (createEntity x).
Proof.
  intros w r w' Hi H. unfold createEntity, throwM_if, lift, throw_if, mbind, M_bind in H.
  destruct (ent_revision x !== 1) eqn:E; [injection H as <- <-; by apply slaw_Err|]. guards_in E.
  by eapply create_attempts_law.
Qed.

Lemma save_law x v : slaw (writes_table (ent_saved x v)) (saveEntity x v).
Proof.
  intros w r w' Hi H. unfold saveEntity, throwM_if, lift, throw_if, mbind, M_bind in H.
  destruct (ent_revision x !== (v + 1)) eqn:E; [injection H as <- <-; by apply slaw_Err|]. guards_in E.
  by eapply save_attempts_law.
Qed.

Lemma read_law scope id : slaw (gen_reads (λ o s, o = ent_lookup scope id (ents s))) (readEntity scope id).
Proof.
  intros w r w' Hi H. unfold readEntity, mbind, M_bind in H.
  destruct (store_read ent_prefix w) as [[current|y] w1] eqn:E;
    destruct (read_record _ _ _ Hi E) as (Hi1 & Hs1 & Hc); [|injection H as <- <-; by apply slaw_Err].
  destruct Hc as (Hcur & Hin & Hn & Hrev).
  assert (Hread : ∀ o, r = Ok o → w' = w1 → o = ent_lookup scope id (ents (sview w1)) →
    einv w' ∧ ∃ s, rtc ent_store_step (sview w) s ∧
      match r with Ok a => gen_reads (λ o s, o = ent_lookup scope id (ents s)) a s (sview w') | Err _ => sview w' = s end).
  { intros o -> -> ->. split; [done|]. by exists (sview w1). }
  assert (Hlk : ents (sview w1) !! id = List.find (with_id id) (table (sview w1))) by apply ents_of_lookup.
  destruct current as [record|].
  2: { injection H as <- <-. apply (Hread None); [done..|]. unfold ent_lookup. rewrite Hlk.
    unfold entities_in in Hin. cbn in Hin. injection Hin as Hin. by rewrite <-Hin. }
  unfold entities_in in Hin. cbn in Hin. unfold lift in H. rewrite Hin in H.
  destruct (List.find _ _) as [x|] eqn:Ef.
  2: { injection H as <- <-. apply (Hread None); [done..|]. unfold ent_lookup. by rewrite Hlk. }
  destruct (_ || _) eqn:Eg.
  { injection H as <- <-. apply (Hread None); [done..|]. unfold ent_lookup. rewrite Hlk. cbn.
    rewrite <-negb_andb in Eg. apply negb_true_iff in Eg. by rewrite Eg. }
  rewrite <-negb_andb in Eg. apply negb_false_iff in Eg.
  apply find_elem in Ef as [Hx _]. unfold throwM_if, lift, throw_if, mbind, M_bind in H.
  destruct (Z.ltb_spec (ent_revision x) 1) as [Hlt|_]; [specialize (Hrev _ Hx); lia|].
  injection H as <- <-. apply (Hread (Some x)); [done..|]. unfold ent_lookup. rewrite Hlk. cbn. by rewrite Eg.
Qed.

Lemma list_law ownerId agentId :
  slaw (gen_reads (λ l s, ∀ x, x ∈ l ↔ ∃ k, ent_lookup (mkScope_ ownerId agentId) k (ents s) = Some x))
    (listEntities ownerId agentId).
Proof.
  intros w r w' Hi H. unfold listEntities, mbind, M_bind in H.
  destruct (store_read ent_prefix w) as [[current|y] w1] eqn:E;
    destruct (read_record _ _ _ Hi E) as (Hi1 & Hs1 & Hc); [|injection H as <- <-; by apply slaw_Err].
  destruct Hc as (Hcur & Hin & Hn & _). unfold lift in H. rewrite Hin in H. injection H as <- <-.
  split; [done|]. exists (sview w1). split; [done|]. split; [|done]. intros x. unfold ent_lookup, ents.
  rewrite list_elem_of_In, filter_In, <-list_elem_of_In. split.
  - intros [Hx Hg]. exists (ent_id x). rewrite ents_of_elem by done. cbn. by rewrite Hg.
  - intros [k Hk]. destruct (ents_of _ !! k) as [y|] eqn:Hy; [|done]. apply ents_of_Some in Hy as [Hy _].
    cbn in Hk. destruct (_ && _) eqn:Hg; [|done]. by injection Hk as ->.
Qed.
End laws.
End rely.
End refinement.
