(* ===== verification/DelegationAdapter.v ===== *)
(** packages/application/src/services/durable-autonomy-state-adapter.ts, the
    class [DurableDelegationStateAdapter]: delegations as JSON, and the proof
    that the adapter implements the contract of [DelegationStatePort] that the
    delegation services are verified against, over any state store. *)
From S2P Require Import Prelude Js JsDate JsJson Identifiers Contract.
From S2P Require Import AuthTypes Deterministic InMemoryAuth Persistence DurableEntities Delegation.
From S2P Require Import DelegationContract DelegationRuns.
Local Open Scope Z_scope.

(** ** Enumerations *)
Definition parse_classification (s : string) : option DataClassification :=
  List.find (λ c, String.eqb s (classification_name c)) [public; private; sensitive; restricted].

Definition delegation_status_name (s : DelegationStatus) : string :=
  match s with
  | delegation_created => "created" | delegation_running => "running"
  | delegation_validating => "validating" | delegation_completed => "completed"
  | delegation_failed => "failed" | delegation_cancelled => "cancelled"
  end.

Definition parse_delegation_status (s : string) : option DelegationStatus :=
  List.find (λ c, String.eqb s (delegation_status_name c))
    [delegation_created; delegation_running; delegation_validating;
     delegation_completed; delegation_failed; delegation_cancelled].

Lemma parse_classification_name c : named parse_classification (JStr (classification_name c)) = Some c.
Proof. by destruct c. Qed.

Lemma parse_delegation_status_name s : named parse_delegation_status (JStr (delegation_status_name s)) = Some s.
Proof. by destruct s. Qed.

#[export] Hint Rewrite parse_classification_name parse_delegation_status_name : codec.

(** ** The parts of a delegation *)
Definition budget_of_json (j : json) : option DelegationBudget :=
  o ← as_object j;
  maximumDurationMs ← read as_num o "maximumDurationMs";
  maximumCostMicros ← read as_num o "maximumCostMicros";
  maximumProgressEvents ← read as_num o "maximumProgressEvents";
  Some (mkBudget maximumDurationMs maximumCostMicros maximumProgressEvents).

Definition receipt_json (r : Z * string) : json :=
  JObj [("sequence", JNum r.1); ("fingerprint", JStr r.2)].

Definition receipt_of_json (j : json) : option (Z * string) :=
  o ← as_object j;
  sequence ← read as_num o "sequence";
  fingerprint ← read as_str o "fingerprint";
  Some (sequence, fingerprint).

Definition receipts_of_json (j : json) : option (list (Z * string)) :=
  match j with JArr l => mapM receipt_of_json l | _ => None end.

Definition claim_json (c : option ExecutionClaim) : json :=
  match c with
  | None => JNull
  | Some c => JObj [("id", JStr (xc_id c)); ("leaseUntil", JStr (xc_leaseUntil c))]
  end.

Definition claim_of_json (j : json) : option ExecutionClaim :=
  o ← as_object j;
  id ← read as_str o "id";
  leaseUntil ← read as_str o "leaseUntil";
  Some (mkExecutionClaim id leaseUntil).

Definition result_of_json (j : json) : option WorkerResult :=
  o ← as_object j;
  workerRunId ← read as_str o "workerRunId";
  conclusionRef ← read as_str o "conclusionRef";
  citationRefs ← read as_strs o "citationRefs";
  artifactRefs ← read as_strs o "artifactRefs";
  unresolvedRefs ← read as_strs o "unresolvedRefs";
  actualModelRef ← read as_str o "actualModelRef";
  usage ← read as_object o "usage";
  inputTokens ← read as_num usage "inputTokens";
  outputTokens ← read as_num usage "outputTokens";
  costMicros ← read as_num o "costMicros";
  durationMs ← read as_num o "durationMs";
  executionRecordRefs ← read as_strs o "executionRecordRefs";
  dataClassification ← read (named parse_classification) o "dataClassification";
  output ← readField o "output";
  Some (mkWorkerResult workerRunId conclusionRef citationRefs artifactRefs unresolvedRefs actualModelRef
    inputTokens outputTokens costMicros durationMs executionRecordRefs dataClassification output).

Lemma budget_codec b : budget_of_json (budget_json b) = Some b.
Proof. by destruct b. Qed.

Lemma claim_codec c : or_null claim_of_json (claim_json c) = Some c.
Proof. by destruct c as [[]|]. Qed.

Lemma result_codec r : or_null result_of_json (result_json r) = Some r.
Proof.
  destruct r as [[]|]; [|done]. unfold result_json, or_null, result_of_json.
  repeat (cbn -[as_strs JStrs named]; autorewrite with codec). done.
Qed.

Lemma receipts_codec l : receipts_of_json (JArr (receipt_json <$> l)) = Some l.
Proof. cbn. induction l as [|[] l IH]; [done|]. cbn. cbn in IH. by rewrite IH. Qed.

#[export] Hint Rewrite budget_codec claim_codec result_codec receipts_codec : codec.

(** ** Delegations *)
Definition delegation_json (d : Delegation) : json :=
  JObj [("id", JStr (dl_id d)); ("revision", JNum (dl_revision d)); ("ownerId", JStr (dl_ownerId d));
        ("agentId", JStr (dl_agentId d)); ("parentRunId", JStr (dl_parentRunId d));
        ("traceRef", JStr (dl_traceRef d)); ("workerRunId", JStr (dl_workerRunId d));
        ("subtaskRef", JStr (dl_subtaskRef d)); ("outputSchema", dl_outputSchema d);
        ("contextRefs", JStrs (dl_contextRefs d)); ("capabilityHandleRefs", JStrs (dl_capabilityHandleRefs d));
        ("allowedModelRefs", JStrs (dl_allowedModelRefs d)); ("selectedModelRef", JStr (dl_selectedModelRef d));
        ("dataClassification", JStr (classification_name (dl_dataClassification d)));
        ("budget", budget_json (dl_budget d)); ("progressEventsObserved", JNum (dl_progressEventsObserved d));
        ("progressReceipts", JArr (receipt_json <$> dl_progressReceipts d));
        ("executionGeneration", JNum (dl_executionGeneration d));
        ("executionClaim", claim_json (dl_executionClaim d));
        ("pendingResultRef", JOptStr (dl_pendingResultRef d)); ("handlesEndedAt", JOptStr (dl_handlesEndedAt d));
        ("workerCancelledAt", JOptStr (dl_workerCancelledAt d)); ("deadlineAt", JStr (dl_deadlineAt d));
        ("depth", JNum (dl_depth d)); ("status", JStr (delegation_status_name (dl_status d)));
        ("proposalRef", JOptStr (dl_proposalRef d)); ("failureReasonCode", JOptStr (dl_failureReasonCode d));
        ("workerResult", result_json (dl_workerResult d)); ("createdAt", JStr (dl_createdAt d));
        ("updatedAt", JStr (dl_updatedAt d))].

Definition delegation_of_json (j : json) : option Delegation :=
  o ← as_object j;
  id ← read as_str o "id";
  revision ← read as_num o "revision";
  ownerId ← read as_str o "ownerId";
  agentId ← read as_str o "agentId";
  parentRunId ← read as_str o "parentRunId";
  traceRef ← read as_str o "traceRef";
  workerRunId ← read as_str o "workerRunId";
  subtaskRef ← read as_str o "subtaskRef";
  outputSchema ← readField o "outputSchema";
  contextRefs ← read as_strs o "contextRefs";
  capabilityHandleRefs ← read as_strs o "capabilityHandleRefs";
  allowedModelRefs ← read as_strs o "allowedModelRefs";
  selectedModelRef ← read as_str o "selectedModelRef";
  dataClassification ← read (named parse_classification) o "dataClassification";
  budget ← read budget_of_json o "budget";
  progressEventsObserved ← read as_num o "progressEventsObserved";
  progressReceipts ← read receipts_of_json o "progressReceipts";
  executionGeneration ← read as_num o "executionGeneration";
  executionClaim ← read (or_null claim_of_json) o "executionClaim";
  pendingResultRef ← read (or_null as_str) o "pendingResultRef";
  handlesEndedAt ← read (or_null as_str) o "handlesEndedAt";
  workerCancelledAt ← read (or_null as_str) o "workerCancelledAt";
  deadlineAt ← read as_str o "deadlineAt";
  depth ← read as_num o "depth";
  status ← read (named parse_delegation_status) o "status";
  proposalRef ← read (or_null as_str) o "proposalRef";
  failureReasonCode ← read (or_null as_str) o "failureReasonCode";
  workerResult ← read (or_null result_of_json) o "workerResult";
  createdAt ← read as_str o "createdAt";
  updatedAt ← read as_str o "updatedAt";
  Some (mkDelegation id revision ownerId agentId parentRunId traceRef workerRunId subtaskRef outputSchema
    contextRefs capabilityHandleRefs allowedModelRefs selectedModelRef dataClassification budget
    progressEventsObserved progressReceipts executionGeneration executionClaim pendingResultRef
    handlesEndedAt workerCancelledAt deadlineAt depth status proposalRef failureReasonCode workerResult
    createdAt updatedAt).

Arguments budget_of_json : simpl never.
Arguments budget_json : simpl never.
Arguments claim_json : simpl never.
Arguments result_json : simpl never.
Arguments receipts_of_json : simpl never.

Lemma delegation_codec d : delegation_of_json (delegation_json d) = Some d.
Proof. destruct d. unfold delegation_of_json, delegation_json. repeat (cbn; autorewrite with codec). done. Qed.

(** ** The adapter *)
#[export] Instance durable_delegation : DurableEntity Delegation := {|
  ent_id := dl_id;
  ent_revision := dl_revision;
  ent_ownerId := dl_ownerId;
  ent_agentId := dl_agentId;
  ent_json := delegation_json;
  ent_of_json := delegation_of_json;
  ent_prefix := "delegation";
  validateTransition := assertDelegationTransition;
  ent_roundtrip := delegation_codec;
|}.

Section adapter.
Context {W : Type} `{!StateStorePort W}.

#[export] Instance DurableDelegationStateAdapter : DelegationStatePort W := {|
  delegation_read := readEntity;
  delegation_create := createEntity;
  delegation_save := saveEntity;
|}.

Definition delegation_list (ownerId : OwnerId) (agentId : AgentId) : M exn W (list Delegation) :=
  listEntities ownerId agentId.
End adapter.

(** The abstract table of delegations is the state of [DelegationStatePort]. *)
Lemma saved_transition next v r (s s' : gmap string Delegation) :
  ent_saved next v r s s' → save_effect next v r s s'.
Proof.
  intros (p & Hp & Hv & Hr & _ & _ & Ht & -> & ->). exists p.
  do 3 (split; [done|]). split; [by apply assertDelegationTransition_spec|]. done.
Qed.

Lemma ent_step_delegation (s s' : gmap string Delegation) : ent_step s s' → del_step s s'.
Proof.
  intros [x r Hc|next v r Hs]; [by apply (del_created _ _ x r)|].
  by apply (del_saved _ _ next v r), saved_transition.
Qed.

Lemma ent_steps_delegation (s s' : gmap string Delegation) : rtc ent_step s s' → rtc del_step s s'.
Proof. apply rtc_subrel. intros ??. apply ent_step_delegation. Qed.

Lemma op_law_delegation {W A} (view : W → delegations) inv (effect effect' : A → delegations → delegations → Prop) m :
  (∀ a s s', effect a s s' → effect' a s s') →
  gen_op_law ent_step view inv effect m → gen_op_law del_step view inv effect' m.
Proof.
  intros Hi H w r w' Hw Hm. destruct (H _ _ _ Hw Hm) as (Hw' & s & Hs & He). split; [done|]. exists s.
  split; [by apply ent_steps_delegation|]. destruct r; [by apply Hi|done].
Qed.

Lemma ent_lookup_delegation scope id (s : gmap string Delegation) :
  ent_lookup scope id s = lookup_delegation scope id s.
Proof. done. Qed.

Section refinement.
Context {W : Type} `{!StateStorePort W} (sview : W → store_state) (sinv : W → Prop)
  `{!StateStoreLaws W (ent_store_step ent_step) sview sinv}.

(** C29 The durable delegation adapter implements the port the delegation
    services are verified against, on any state store whose other users write
    the table of delegations only as the adapter does: in spite of reading and
    replacing the whole table, with other writers in between and up to eight
    attempts, each of its operations fails without effect or is one atomic step
    of a table of delegations (created at revision 1 under a new identifier;
    replaced at the expected revision along an allowed transition; read in
    scope), and its own writes are again such writes. *)
Theorem durable_delegations_refine :
  DelegationLaws W (eview sview) (einv sview sinv) ∧
  (∀ d, gen_frame_law (ent_store_step ent_step) sview (einv sview sinv) (delegation_create d)) ∧
  (∀ d v, gen_frame_law (ent_store_step ent_step) sview (einv sview sinv) (delegation_save d v)) ∧
  (∀ ownerId agentId, gen_op_law del_step (eview sview) (einv sview sinv)
    (gen_reads (λ l s, ∀ d, d ∈ l ↔ ∃ id, lookup_delegation (mkScope_ ownerId agentId) id s = Some d))
    (delegation_list ownerId agentId)).
Proof.
  split; [constructor|split; [|split]]; intros.
  - intros k d Hk. by apply ents_of_Some in Hk as [_ Hk].
  - exact (op_law_delegation _ _ _ _ _ (λ _ _ _ H, H) (reads_table_law _ _ _ _ _ (read_law _ _ _ scope id))).
  - exact (op_law_delegation _ _ _ _ _ (λ _ _ _ H, H) (writes_table_law _ _ _ _ _ (create_law _ _ _ d))).
  - exact (op_law_delegation _ _ _ _ _ (saved_transition d e) (writes_table_law _ _ _ _ _ (save_law _ _ _ d e))).
  - exact (writes_table_frame _ _ _ _ _ (λ r e e', step_created e e' d r) (create_law _ _ _ d)).
  - exact (writes_table_frame _ _ _ _ _ (λ r e e', step_saved e e' d v r) (save_law _ _ _ d v)).
  - exact (op_law_delegation _ _ _ _ _ (λ _ _ _ H, H) (reads_table_law _ _ _ _ _ (list_law _ _ _ ownerId agentId))).
Qed.
End refinement.

(** ** A concrete store *)
Definition quiet_store : InMemoryStateStore := new_state_store NO_FAILURES.

Definition durable_created : InMemoryStateStore := (delegation_create sample_delegation quiet_store).2.

(** Creating, listing, and updating through the update loop of the services. *)
Example durable_sample :
  (delegation_list "owner" "agent" durable_created).1 = Ok [sample_delegation] ∧
  (delegation_create sample_delegation durable_created).1 = Err (typeError "delegation identity already exists") ∧
  (let running := sample_delegation <| dl_status := delegation_running |> in
   let '(r, w) := updateDelegation sample_scope "delegation-0001" (λ d, mret (Some (d <| dl_status := delegation_running |>)))
     durable_created in
   r = Ok (running <| dl_revision := 2 |>) ∧
   (delegation_read sample_scope "delegation-0001" w).1 = Ok (Some (running <| dl_revision := 2 |>)) ∧
   is_conflict <$> match (delegation_save (running <| dl_revision := 2 |>) 1 w).1 with Err x => Some x | Ok _ => None end = Some true).
Proof. vm_compute. repeat split. Qed.

Lemma durable_delegations_refine_witness :
  einv ss_view (λ _, True) quiet_store ∧
  DelegationLaws InMemoryStateStore (eview ss_view) (einv ss_view (λ _, True)).
Proof.
  split; [split; [done|]; intros r Hr; discriminate Hr|].
  apply (durable_delegations_refine (W := InMemoryStateStore) ss_view (λ _, True)).
Defined.
