(* ===== verification/WorkspaceService.v ===== *)
(** packages/application/src/ports/workspaces.ts (workspace snapshots, commit
    previews and their ports) and the digest port of ports/host-files.ts. *)
From S2P Require Import Prelude Js JsJson Identifiers Contract AuthTypes.
Local Open Scope Z_scope.

(** ** Observations of files *)
Inductive FileState := file_clean | file_staged | file_unstaged | file_staged_and_unstaged | file_untracked.

#[global] Instance FileState_eq_dec : EqDecision FileState.
Proof. solve_decision. Defined.

Inductive FileOwner := owner_owner | task_owner | concurrent_unowned.

#[global] Instance FileOwner_eq_dec : EqDecision FileOwner.
Proof. solve_decision. Defined.

(** A path, and the digests of its content before and after the write; [null]: no file. *)
Record WorkspaceControlledWrite := mkWrite {
  wc_path : string; wc_beforeDigest : option string; wc_afterDigest : option string }.

Record TaskWrite := mkTaskWrite { tw_write : WorkspaceControlledWrite; tw_beforeSnapshotId : string }.

Record WorkspaceFileObservation := mkObservation {
  fo_path : string; fo_indexDigest : option string; fo_worktreeDigest : option string;
  fo_state : FileState; fo_owner : FileOwner; fo_hunkFingerprints : list string;
  fo_taskWrite : option TaskWrite }.

#[global] Instance eta_Observation : Eta WorkspaceFileObservation := λ r,
  mkObservation (fo_path r) (fo_indexDigest r) (fo_worktreeDigest r) (fo_state r) (fo_owner r)
    (fo_hunkFingerprints r) (fo_taskWrite r).

(** ** Snapshots: what the platform observes, and what is stored *)
Inductive RepositoryKind := git_repository | non_git_repository.

#[global] Instance RepositoryKind_eq_dec : EqDecision RepositoryKind.
Proof. solve_decision. Defined.

Record ObservedWorkspace := mkObserved {
  ow_workspaceId : string; ow_hostId : string; ow_rootIdentity : string; ow_repositoryKind : RepositoryKind;
  ow_branch : option string; ow_head : option string; ow_upstreamObservation : option string;
  ow_detached : bool; ow_unborn : bool; ow_files : list WorkspaceFileObservation;
  ow_submoduleRefs : list string; ow_worktreeRefs : list string; ow_nestedRepositoryRefs : list string }.

#[global] Instance eta_Observed : Eta ObservedWorkspace := λ r,
  mkObserved (ow_workspaceId r) (ow_hostId r) (ow_rootIdentity r) (ow_repositoryKind r) (ow_branch r)
    (ow_head r) (ow_upstreamObservation r) (ow_detached r) (ow_unborn r) (ow_files r)
    (ow_submoduleRefs r) (ow_worktreeRefs r) (ow_nestedRepositoryRefs r).

Record WorkspaceSnapshot := mkSnapshot {
  ws_id : string; ws_revision : Z; ws_observed : ObservedWorkspace;
  ws_taskChangeSetRevision : Z; ws_capturedAt : string }.

Definition ws_files (s : WorkspaceSnapshot) : list WorkspaceFileObservation := ow_files (ws_observed s).

(** ** Commits *)
Record CommitState := mkCommitState {
  ct_branch : option string; ct_head : string; ct_indexTree : string; ct_ownerIndexDigest : string;
  ct_stagedDiffRef : string; ct_stagedDiffDigest : string; ct_stagedFiles : list string;
  ct_remainingDirtyRefs : list string; ct_hooksDigest : string; ct_configurationDigest : string }.

(** What is previewed: the state of the repository and the terms of the commit. *)
Record CommitBasis := mkBasis {
  cb_state : CommitState; cb_workspaceId : string; cb_stagingRef : string; cb_taskChangeSetRevision : Z;
  cb_validationResultRefs : list string; cb_message : string; cb_expiresAt : string }.

Inductive PreviewStatus :=
  | preview_prepared | preview_committing | preview_confirmed_succeeded | preview_unknown | preview_invalidated.

#[global] Instance PreviewStatus_eq_dec : EqDecision PreviewStatus.
Proof. solve_decision. Defined.

Record CommitPreview := mkPreview {
  cp_id : string; cp_revision : Z; cp_basis : CommitBasis; cp_canonicalHash : string;
  cp_status : PreviewStatus }.

#[global] Instance eta_Preview : Eta CommitPreview := λ r,
  mkPreview (cp_id r) (cp_revision r) (cp_basis r) (cp_canonicalHash r) (cp_status r).

Record CommitExecutionHandle := mkCommitHandle {
  ch_ref : string; ch_previewId : string; ch_previewHash : string; ch_operationId : string;
  ch_recentAuthenticationRef : string; ch_authorityFence : Z; ch_expiresAt : string; ch_maxUses : Z }.

Record StageRequest := mkStageRequest {
  sq_workspaceId : string; sq_expectedHead : string; sq_files : list WorkspaceFileObservation }.

Record StageResult := mkStageResult {
  sg_stagingRef : string; sg_indexTree : string; sg_stagedFiles : list string }.

Record CommitRequest := mkCommitRequest {
  cq_workspaceId : string; cq_stagingRef : string; cq_message : string; cq_operationId : string;
  cq_expectedHead : string; cq_expectedBranch : option string; cq_expectedIndexTree : string;
  cq_expectedOwnerIndexDigest : string; cq_expectedHooksDigest : string; cq_expectedConfigurationDigest : string }.

Record CommitResult := mkCommitResult {
  co_commit : string; co_parent : string; co_remainingDirtyRefs : list string }.

Record ReconcileRequest := mkReconcile {
  rq_workspaceId : string; rq_expectedParent : string; rq_operationId : string; rq_stagingRef : string }.

Record ReconcileResult := mkReconciled {
  rv_commit : option string; rv_parent : option string; rv_remainingDirtyRefs : list string }.

Record CommitOperation := mkOperation { op_previewId : string; op_resultRef : option string }.

Record AdmittedOperation := mkAdmitted { ao_replayed : bool; ao_resultRef : option string }.

(** ** Ports *)
Class WorkspacePlatformPort (W : Type) := {
  platform_snapshot : string → string → string → M exn W ObservedWorkspace;
  platform_stageTaskChanges : StageRequest → M exn W StageResult;
  inspectCommitState : string → string → M exn W CommitState;
  platform_commit : CommitRequest → M exn W CommitResult;
  reconcileCommit : ReconcileRequest → M exn W ReconcileResult;
}.

Class WorkspaceStatePort (W : Type) := {
  saveSnapshot : WorkspaceSnapshot → M exn W WorkspaceSnapshot;
  readSnapshot : string → M exn W (option WorkspaceSnapshot);
  saveCommitPreview : CommitPreview → option Z → M exn W CommitPreview;
  readCommitPreview : string → M exn W (option CommitPreview);
  readCommitOperation : string → M exn W (option CommitOperation);
  createCommitOperation : string → string → M exn W AdmittedOperation;
  finishCommitOperation : string → string → M exn W unit;
}.

(** [HostFileDigestPort.digestCanonical]: a function of the text. *)
Class HostFileDigestPort := digestCanonical : string → string.

(** ** packages/application/src/services/workspace-service.ts: who owns the
    content of each file of a workspace, and which files may be staged. *)

(** [new Map(entries)]: the last entry of a key stays. *)
Definition new_Map {V} (entries : list (string * V)) : jsmap V :=
  foldl (λ m e, map_set e.1 e.2 m) [] entries.

Definition by_path (files : list WorkspaceFileObservation) : jsmap WorkspaceFileObservation :=
  new_Map ((λ f, (fo_path f, f)) <$> files).

Definition join (separator : string) (l : list string) : string :=
  match l with [] => "" | x :: l => foldl (λ s y, s +:+ separator +:+ y) x l end.

Record SnapshotInput := mkSnapshotInput {
  si_workspaceId : string; si_hostId : string; si_root : string; si_previousSnapshotId : option string;
  si_controlledWritePaths : list string; si_controlledWrites : list WorkspaceControlledWrite }.

(** The controlled write of the file that explains its content, if there is one. *)
Definition controlled_evidence (controlledWritePaths : list string) (controlledWrites : list WorkspaceControlledWrite)
    (prior : option WorkspaceFileObservation) (file : WorkspaceFileObservation) : option WorkspaceControlledWrite :=
  if includes (fo_path file) controlledWritePaths then
    match map_get (fo_path file) (new_Map ((λ w, (wc_path w, w)) <$> controlledWrites)) with
    | Some evidence =>
        if (wc_beforeDigest evidence === (prior ≫= fo_worktreeDigest))
           && (wc_afterDigest evidence === fo_worktreeDigest file)
           && (fo_indexDigest file === (prior ≫= fo_indexDigest))
        then Some evidence else None
    | None => None
    end
  else None.

Definition owner_dirty (prior : option WorkspaceFileObservation) : bool :=
  match prior with
  | Some p => (fo_state p !== file_clean) && (fo_owner p === owner_owner)
  | None => false
  end.

Definition may_become_task (prior : option WorkspaceFileObservation) : bool :=
  match prior with
  | None => true
  | Some p => (fo_state p === file_clean) || (fo_owner p === task_owner)
  end.

(** Without evidence, an unchanged file keeps its owner. *)
Definition carry_file (prior : option WorkspaceFileObservation) (file : WorkspaceFileObservation) : WorkspaceFileObservation :=
  match prior with
  | None => file <| fo_owner := concurrent_unowned |>
  | Some p =>
      if (fo_indexDigest p !== fo_indexDigest file) || (fo_worktreeDigest p !== fo_worktreeDigest file)
      then file <| fo_owner := concurrent_unowned |>
      else
        match fo_taskWrite p with
        | Some t => (file <| fo_owner := fo_owner p |>) <| fo_taskWrite := Some t |>
        | None => file <| fo_owner := fo_owner p |>
        end
  end.

(** The function that [observed.files.map] applies. *)
Definition classify_file (previous : option WorkspaceSnapshot) (controlledWritePaths : list string)
    (controlledWrites : list WorkspaceControlledWrite) (file : WorkspaceFileObservation) : WorkspaceFileObservation :=
  match previous with
  | None => file <| fo_owner := owner_owner |>
  | Some previous =>
      let prior := map_get (fo_path file) (by_path (ws_files previous)) in
      let evidence := controlled_evidence controlledWritePaths controlledWrites prior file in
      if owner_dirty prior then file <| fo_owner := owner_owner |>
      else
        match evidence, may_become_task prior with
        | Some evidence, true =>
            file <| fo_owner := task_owner |> <| fo_taskWrite := Some (mkTaskWrite evidence (ws_id previous)) |>
        | _, _ => carry_file prior file
        end
  end.

(** The baseline a snapshot is compared with must be the one of this workspace. *)
Definition baseline_mismatch (input : SnapshotInput) (previous : option WorkspaceSnapshot)
    (observed : ObservedWorkspace) : bool :=
  match truthy (si_previousSnapshotId input), previous with
  | None, _ => false
  | Some _, None => true
  | Some _, Some p =>
      (ow_workspaceId (ws_observed p) !== si_workspaceId input)
      || (ow_hostId (ws_observed p) !== si_hostId input)
      || (ow_rootIdentity (ws_observed p) !== ow_rootIdentity observed)
      || (ow_head (ws_observed p) !== ow_head observed)
  end.

Definition missing_baseline : exn :=
  portError CONFLICT "Workspace baseline is missing or changed" [].

Definition unsafe_paths (snapshot : WorkspaceSnapshot) (paths : list string) : list string :=
  List.filter (λ path,
    match map_get path (by_path (ws_files snapshot)) with
    | Some file =>
        (fo_owner file !== task_owner)
        || match fo_taskWrite file with
           | Some t => wc_afterDigest (tw_write t) !== fo_worktreeDigest file
           | None => true
           end
    | None => true
    end) paths.

Definition assertTaskOwned (snapshot : WorkspaceSnapshot) (paths : list string) : result exn unit :=
  match unsafe_paths snapshot paths with
  | [] => Ok tt
  | unsafe => Err (portError CONFLICT "Workspace change set overlaps Owner or concurrent changes"
                    [("paths", join "," unsafe)])
  end.

Definition changed_outside (before : WorkspaceSnapshot) (expected : list string) (file : WorkspaceFileObservation) : bool :=
  ((fo_owner file !== task_owner) || negb (includes (fo_path file) expected))
  && match map_get (fo_path file) (by_path (ws_files before)) with
     | None => true
     | Some previous =>
         (fo_indexDigest previous !== fo_indexDigest file) || (fo_worktreeDigest previous !== fo_worktreeDigest file)
     end.

Record ReconcileCommandInput := mkReconcileCommand {
  rm_workspaceId : string; rm_hostId : string; rm_root : string; rm_previousSnapshotId : string;
  rm_expectedWritePaths : list string; rm_controlledWrites : list WorkspaceControlledWrite }.

Definition not_stageable : exn :=
  portError INVALID_OPERATION "A Git workspace snapshot with a concrete HEAD is required" [].

Definition nothing_to_stage : exn :=
  portError INVALID_OPERATION "At least one task-owned path is required for staging" [].

Definition disappeared (path : string) : exn :=
  portError CONFLICT "Task-owned path disappeared before staging" [("path", path)].

(** [uniquePaths.map(path => observations.get(path) ?? throw)] *)
Fixpoint observations_of (files : jsmap WorkspaceFileObservation) (paths : list string)
    : result exn (list WorkspaceFileObservation) :=
  match paths with
  | [] => Ok []
  | path :: paths =>
      match map_get path files with
      | None => Err (disappeared path)
      | Some o => rest ← observations_of files paths; Ok (o :: rest)
      end
  end.

(** What [stageTaskChanges] asks of the platform, from the snapshot it read. *)
Definition stage_request (snapshot : option WorkspaceSnapshot) (paths : list string) : result exn StageRequest :=
  match snapshot with
  | None => Err not_stageable
  | Some snapshot =>
      match ow_repositoryKind (ws_observed snapshot), truthy (ow_head (ws_observed snapshot)) with
      | git_repository, Some head =>
          let uniquePaths := sort_strings (unique paths) in
          throw_if (uniquePaths === []) nothing_to_stage ;;
          assertTaskOwned snapshot uniquePaths ;;
          files ← observations_of (by_path (ws_files snapshot)) uniquePaths;
          Ok (mkStageRequest (ow_workspaceId (ws_observed snapshot)) head files)
      | _, _ => Err not_stageable
      end
  end.

Section service.
Context {W : Type} `{!WorkspacePlatformPort W, !WorkspaceStatePort W, !ClockPort W, !IdGeneratorPort W}.

Definition ws_snapshot (input : SnapshotInput) : M exn W WorkspaceSnapshot :=
  observed ← platform_snapshot (si_workspaceId input) (si_hostId input) (si_root input);
  previous ← match truthy (si_previousSnapshotId input) with
             | Some id => readSnapshot id
             | None => mret None
             end;
  throwM_if (baseline_mismatch input previous observed) missing_baseline ;;
  let files := classify_file previous (si_controlledWritePaths input) (si_controlledWrites input)
                 <$> ow_files observed in
  id ← ids_next "workspace-snapshot";
  now ← clock_now;
  saveSnapshot
    (mkSnapshot id 1 (observed <| ow_files := files |>)
       (default 0 (ws_taskChangeSetRevision <$> previous) + 1) now).

Definition reconcileControlledCommand (input : ReconcileCommandInput) : M exn W WorkspaceSnapshot :=
  let expected := sort_strings (unique (rm_expectedWritePaths input)) in
  throwM_if (expected === [])
    (portError INVALID_OPERATION "A controlled command must freeze its expected write scope" []) ;;
  before ← readSnapshot (rm_previousSnapshotId input);
  match before with
  | None => throw (portError NOT_FOUND "Previous workspace snapshot missing" [])
  | Some before =>
      snapshot ← ws_snapshot (mkSnapshotInput (rm_workspaceId input) (rm_hostId input) (rm_root input)
        (Some (rm_previousSnapshotId input)) expected (rm_controlledWrites input));
      let expanded := sort_strings (fo_path <$> List.filter (changed_outside before expected) (ws_files snapshot)) in
      throwM_if (expanded !== [])
        (portError CONFLICT "Command changed paths outside its frozen scope"
           [("snapshotId", ws_id snapshot); ("paths", join "," expanded)]) ;;
      mret snapshot
  end.

Definition stageTaskChanges (snapshotId : string) (paths : list string) : M exn W StageResult :=
  snapshot ← readSnapshot snapshotId;
  request ← lift (stage_request snapshot paths);
  platform_stageTaskChanges request.
End service.
