(* ===== verification/CommitGate.v ===== *)
(** packages/application/src/services/commit-gate-service.ts: a commit to the
    Owner's repository is previewed, authorized by a handle that names the
    hash of the preview, and executed at most once. *)
From S2P Require Import Prelude Js JsJson JsParse Identifiers Contract AuthTypes Persistence.
From S2P Require Import WorkspaceService DurableEntities.
Local Open Scope Z_scope.

(** ** Values as JSON *)
Definition basis_json (b : CommitBasis) : json :=
  let s := cb_state b in
  JObj [("branch", JOptStr (ct_branch s)); ("head", JStr (ct_head s)); ("indexTree", JStr (ct_indexTree s));
        ("ownerIndexDigest", JStr (ct_ownerIndexDigest s)); ("stagedDiffRef", JStr (ct_stagedDiffRef s));
        ("stagedDiffDigest", JStr (ct_stagedDiffDigest s)); ("stagedFiles", JStrs (ct_stagedFiles s));
        ("remainingDirtyRefs", JStrs (ct_remainingDirtyRefs s)); ("hooksDigest", JStr (ct_hooksDigest s));
        ("configurationDigest", JStr (ct_configurationDigest s)); ("workspaceId", JStr (cb_workspaceId b));
        ("stagingRef", JStr (cb_stagingRef b)); ("taskChangeSetRevision", JNum (cb_taskChangeSetRevision b));
        ("validationResultRefs", JStrs (cb_validationResultRefs b)); ("message", JStr (cb_message b));
        ("expiresAt", JStr (cb_expiresAt b))].

Definition commit_result_json (r : CommitResult) : json :=
  JObj [("commit", JStr (co_commit r)); ("parent", JStr (co_parent r));
        ("remainingDirtyRefs", JStrs (co_remainingDirtyRefs r))].

Definition commit_result_of_json (j : json) : option CommitResult :=
  o ← as_object j;
  commit ← read as_str o "commit";
  parent ← read as_str o "parent";
  remainingDirtyRefs ← read as_strs o "remainingDirtyRefs";
  Some (mkCommitResult commit parent remainingDirtyRefs).

(** [JSON.parse(value)], cast to a result.  Other values are outside the model: here they throw. *)
Definition parseResult (value : string) : result exn CommitResult :=
  match JSON_parse value with
  | None => Err (OtherError "SyntaxError" "Unexpected token in JSON")
  | Some j =>
      match commit_result_of_json j with
      | Some r => Ok r
      | None => Err (OtherError "TypeError" "not a commit result")
      end
  end.

(** ** Requests and refusals *)
Record PrepareCommitInput := mkPrepareCommit {
  pi_workspaceId : string; pi_stagingRef : string; pi_taskChangeSetRevision : Z;
  pi_validationResultRefs : list string; pi_message : string; pi_expiresAt : string }.

Record CommitInput := mkCommitInput { ci_handle : CommitExecutionHandle; ci_authorityFence : Z }.

Definition preview_incomplete : exn := portError INVALID_OPERATION "Commit preview is incomplete" [].
Definition handle_stale : exn := portError INVALID_OPERATION "Commit Handle is stale or out of scope" [].
Definition result_unknown : exn :=
  portError PROVIDER_FAILURE "Commit result is unknown; automatic retry is forbidden" [].
Definition repository_changed : exn :=
  portError CONFLICT "HEAD, index, hooks, configuration, or preview changed" [].

(** The checks of the handle against the stored operation and preview. *)
Definition handle_mismatch (input : CommitInput) (existing : option CommitOperation) (preview : CommitPreview) : bool :=
  let handle := ci_handle input in
  match existing with Some o => op_previewId o !== cp_id preview | None => false end
  || (cp_canonicalHash preview !== ch_previewHash handle)
  || (ch_maxUses handle !== 1)
  || (ch_authorityFence handle !== ci_authorityFence input)
  || (trim (ch_recentAuthenticationRef handle) === "").

Definition state_changed (current : CommitState) (b : CommitBasis) : bool :=
  let s := cb_state b in
  (ct_head current !== ct_head s) || (ct_indexTree current !== ct_indexTree s)
  || (ct_ownerIndexDigest current !== ct_ownerIndexDigest s) || (ct_branch current !== ct_branch s)
  || (ct_stagedDiffDigest current !== ct_stagedDiffDigest s) || (ct_hooksDigest current !== ct_hooksDigest s)
  || (ct_configurationDigest current !== ct_configurationDigest s).

Definition with_status (status : PreviewStatus) (p : CommitPreview) : CommitPreview :=
  (p <| cp_revision := cp_revision p + 1 |>) <| cp_status := status |>.

Definition commit_request (operationId : string) (b : CommitBasis) : CommitRequest :=
  let s := cb_state b in
  mkCommitRequest (cb_workspaceId b) (cb_stagingRef b) (cb_message b) operationId (ct_head s) (ct_branch s)
    (ct_indexTree s) (ct_ownerIndexDigest s) (ct_hooksDigest s) (ct_configurationDigest s).

Definition reconcile_request (operationId : string) (b : CommitBasis) : ReconcileRequest :=
  mkReconcile (cb_workspaceId b) (ct_head (cb_state b)) operationId (cb_stagingRef b).

(** A reconciliation that found the commit on the previewed parent. *)
Definition reconciled_result (b : CommitBasis) (r : ReconcileResult) : option CommitResult :=
  match truthy (rv_commit r), rv_parent r with
  | Some commit, Some parent =>
      if parent === ct_head (cb_state b) then Some (mkCommitResult commit parent (rv_remainingDirtyRefs r)) else None
  | _, _ => None
  end.

Section service.
Context {W : Type} `{!WorkspacePlatformPort W, !WorkspaceStatePort W, !ClockPort W, !IdGeneratorPort W}
  `{!HostFileDigestPort}.

Definition prepare (input : PrepareCommitInput) : M exn W CommitPreview :=
  state ← inspectCommitState (pi_workspaceId input) (pi_stagingRef input);
  throwM_if ((ct_head state === "") || (ct_stagedFiles state === []) || (trim (pi_message input) === ""))
    preview_incomplete ;;
  now ← clock_now;
  throwM_if (str_le (pi_expiresAt input) now) preview_incomplete ;;
  let basis := mkBasis state (pi_workspaceId input) (pi_stagingRef input) (pi_taskChangeSetRevision input)
                 (pi_validationResultRefs input) (trim (pi_message input)) (pi_expiresAt input) in
  id ← ids_next "commit-preview";
  saveCommitPreview (mkPreview id 1 basis (digestCanonical (stringify (basis_json basis))) preview_prepared) None.

Definition recordResult (previewId operationId : string) (result : CommitResult) : M exn W CommitResult :=
  finishCommitOperation operationId (stringify (commit_result_json result)) ;;
  current ← readCommitPreview previewId;
  match current with
  | Some current =>
      if cp_status current !== preview_confirmed_succeeded then
        saveCommitPreview (with_status preview_confirmed_succeeded current) (Some (cp_revision current)) ;;
        mret result
      else mret result
  | None => mret result
  end.

(** Ask the platform what became of the commit: record it, or give up. *)
Definition reconcile (operationId : string) (preview : CommitPreview) : M exn W CommitResult :=
  recovered ← reconcileCommit (reconcile_request operationId (cp_basis preview));
  match reconciled_result (cp_basis preview) recovered with
  | Some result => recordResult (cp_id preview) operationId result
  | None => throw result_unknown
  end.

(** The preview waits to be committed, and neither it nor the handle has expired. *)
Definition assert_fresh (handle : CommitExecutionHandle) (preview : CommitPreview) : M exn W unit :=
  throwM_if (cp_status preview !== preview_prepared) handle_stale ;;
  now ← clock_now;
  throwM_if (str_le (ch_expiresAt handle) now) handle_stale ;;
  now ← clock_now;
  throwM_if (str_le (cb_expiresAt (cp_basis preview)) now) handle_stale.

(** Take the preview for execution: from here on it is committing. *)
Definition take_preview (preview : CommitPreview) : M exn W (CommitResult + CommitPreview) :=
  saveCommitPreview (with_status preview_committing preview) (Some (cp_revision preview)) ;;
  mret (inr preview).

(** [commit] from the inspection of the repository up to the execution. *)
Definition inspect_and_take (operationId : string) (preview : CommitPreview) : M exn W (CommitResult + CommitPreview) :=
  current ← inspectCommitState (cb_workspaceId (cp_basis preview)) (cb_stagingRef (cp_basis preview));
  if state_changed current (cp_basis preview) then
    saveCommitPreview (with_status preview_invalidated preview) (Some (cp_revision preview)) ;;
    throw repository_changed
  else
    admitted ← createCommitOperation operationId (cp_id preview);
    match ao_replayed admitted, truthy (ao_resultRef admitted) with
    | true, Some resultRef => result ← lift (parseResult resultRef); mret (inl result)
    | _, _ => take_preview preview
    end.

(** [commit] up to the execution: the result that is known already, or the
    preview whose commit this call may now execute. *)
Definition commit_admission (input : CommitInput) : M exn W (CommitResult + CommitPreview) :=
  let handle := ci_handle input in
  let operationId := ch_operationId handle in
  existing ← readCommitOperation operationId;
  preview ← readCommitPreview (ch_previewId handle);
  match preview with
  | None => throw handle_stale
  | Some preview =>
      throwM_if (handle_mismatch input existing preview) handle_stale ;;
      match truthy (existing ≫= op_resultRef), existing with
      | Some resultRef, _ => result ← lift (parseResult resultRef); mret (inl result)
      | None, existing =>
          if (existing !== None) && includes (cp_status preview) [preview_committing; preview_unknown]
          then result ← reconcile operationId preview; mret (inl result)
          else
            assert_fresh handle preview ;;
            inspect_and_take operationId preview
      end
  end.

(** The execution: whatever goes wrong, the platform is not asked to commit again. *)
Definition commit_execution (operationId : string) (preview : CommitPreview) : M exn W CommitResult :=
  try_catch
    (result ← platform_commit (commit_request operationId (cp_basis preview));
     recordResult (cp_id preview) operationId result)
    (λ _, reconcile operationId preview).

Definition commit (input : CommitInput) : M exn W CommitResult :=
  admission ← commit_admission input;
  match admission with
  | inl result => mret result
  | inr preview => commit_execution (ch_operationId (ci_handle input)) preview
  end.
End service.

(** ** The contract of [WorkspaceStatePort] and what it gives the commit gate: a
    previewed commit is executed at most once, as it was previewed, and an
    operation has one result. *)

(** ** Snapshots whose task-owned content is attested

    The content of a task-owned file is what a controlled write reported. *)
Definition attested (f : WorkspaceFileObservation) : Prop :=
  fo_owner f = task_owner → ∃ t, fo_taskWrite f = Some t ∧
    wc_path (tw_write t) = fo_path f ∧ wc_afterDigest (tw_write t) = fo_worktreeDigest f.

Definition snapshot_attested (s : WorkspaceSnapshot) : Prop := ∀ f, f ∈ ws_files s → attested f.

Section contract.
Context {digest : HostFileDigestPort}.

(** The hash of a preview is the digest of what is previewed. *)
Definition hash_ok (p : CommitPreview) : Prop :=
  cp_canonicalHash p = digestCanonical (stringify (basis_json (cp_basis p))).

(** ** The abstract state *)
Record gate_state := mkGate {
  gs_snapshots : gmap string WorkspaceSnapshot; gs_previews : gmap string CommitPreview;
  gs_operations : gmap string CommitOperation }.

#[global] Instance eta_gate : Eta gate_state := λ r,
  mkGate (gs_snapshots r) (gs_previews r) (gs_operations r).

Definition put_snapshot (s : WorkspaceSnapshot) (g : gate_state) : gate_state :=
  g <| gs_snapshots := <[ws_id s := s]> (gs_snapshots g) |>.
Definition put_preview (p : CommitPreview) (g : gate_state) : gate_state :=
  g <| gs_previews := <[cp_id p := p]> (gs_previews g) |>.
Definition put_operation (id : string) (o : CommitOperation) (g : gate_state) : gate_state :=
  g <| gs_operations := <[id := o]> (gs_operations g) |>.

(** A preview that is prepared can be invalidated or committed, and whatever
    is not confirmed can be found to have succeeded. *)
Definition status_allowed (status next : PreviewStatus) : Prop :=
  match next with
  | preview_invalidated | preview_committing => status = preview_prepared
  | preview_confirmed_succeeded => status ≠ preview_confirmed_succeeded
  | preview_prepared | preview_unknown => False
  end.

Inductive gate_step (g : gate_state) : gate_state → Prop :=
  | gate_snapshot s :
      gs_snapshots g !! ws_id s = None → snapshot_attested s → gate_step g (put_snapshot s g)
  | gate_prepared p :
      gs_previews g !! cp_id p = None → cp_revision p = 1 → cp_status p = preview_prepared → hash_ok p →
      gate_step g (put_preview p g)
  | gate_status p status :
      gs_previews g !! cp_id p = Some p → status_allowed (cp_status p) status →
      gate_step g (put_preview (with_status status p) g)
  | gate_operation id previewId :
      gs_operations g !! id = None → gate_step g (put_operation id (mkOperation previewId None) g)
  | gate_finished id previewId result :
      gs_operations g !! id = Some (mkOperation previewId None) →
      gate_step g (put_operation id (mkOperation previewId (Some (stringify (commit_result_json result)))) g).

Record gate_wf (g : gate_state) : Prop := mk_gate_wf {
  gw_snapshots : ∀ k s, gs_snapshots g !! k = Some s → ws_id s = k ∧ snapshot_attested s;
  gw_previews : ∀ k p, gs_previews g !! k = Some p → cp_id p = k ∧ 1 ≤ cp_revision p ∧ hash_ok p;
  gw_operations : ∀ k o r, gs_operations g !! k = Some o → op_resultRef o = Some r →
    ∃ result, r = stringify (commit_result_json result);
}.

(** ** The operations *)
Definition snapshot_effect (s r : WorkspaceSnapshot) (g g' : gate_state) : Prop :=
  gs_snapshots g !! ws_id s = None ∧ r = s ∧ g' = put_snapshot s g.

Definition preview_effect (p : CommitPreview) (expectedRevision : option Z) (r : CommitPreview)
    (g g' : gate_state) : Prop :=
  cp_revision <$> gs_previews g !! cp_id p = expectedRevision ∧ r = p ∧ g' = put_preview p g.

Definition create_operation_effect (id previewId : string) (r : AdmittedOperation) (g g' : gate_state) : Prop :=
  match gs_operations g !! id with
  | Some o => op_previewId o = previewId ∧ r = mkAdmitted true (op_resultRef o) ∧ g' = g
  | None => r = mkAdmitted false None ∧ g' = put_operation id (mkOperation previewId None) g
  end.

Definition finish_operation_effect (id resultRef : string) (_ : unit) (g g' : gate_state) : Prop :=
  ∃ o, gs_operations g !! id = Some o ∧
    match op_resultRef o with
    | Some r => r = resultRef ∧ g' = g
    | None => g' = put_operation id (mkOperation (op_previewId o) (Some resultRef)) g
    end.

Class WorkspaceStateLaws (W : Type) `{!WorkspaceStatePort W} (view : W → gate_state) (inv : W → Prop) : Prop := {
  law_gate_wf : ∀ w, inv w → gate_wf (view w);
  law_save_snapshot : ∀ s, snapshot_attested s →
    gen_op_law gate_step view inv (snapshot_effect s) (saveSnapshot s);
  law_read_snapshot : ∀ id,
    gen_op_law gate_step view inv (gen_reads (λ o g, o = gs_snapshots g !! id)) (readSnapshot id);
  law_save_preview : ∀ p expectedRevision, cp_revision p = default 0 expectedRevision + 1 → hash_ok p →
    1 ≤ cp_revision p →
    gen_op_law gate_step view inv (preview_effect p expectedRevision) (saveCommitPreview p expectedRevision);
  law_read_preview : ∀ id,
    gen_op_law gate_step view inv (gen_reads (λ o g, o = gs_previews g !! id)) (readCommitPreview id);
  law_read_operation : ∀ id,
    gen_op_law gate_step view inv (gen_reads (λ o g, o = gs_operations g !! id)) (readCommitOperation id);
  law_create_operation : ∀ id previewId,
    gen_op_law gate_step view inv (create_operation_effect id previewId) (createCommitOperation id previewId);
  law_finish_operation : ∀ id result,
    gen_op_law gate_step view inv (finish_operation_effect id (stringify (commit_result_json result)))
      (finishCommitOperation id (stringify (commit_result_json result)));
}.
End contract.
