(* ===== verification/CommitRuns.v ===== *)
(** What the contract of [WorkspaceStatePort] gives the commit gate
    (CommitGate.v): a preview is taken for execution once, as it was
    authorized; an operation has one result; and the gate itself keeps the
    contract's steps. *)
From S2P Require Import Prelude Js JsJson JsParse Identifiers Contract AuthTypes Persistence DurableEntities.
From S2P Require Import WorkspaceService CommitGate.
Local Open Scope Z_scope.

(** ** Results as text *)
Lemma commit_result_codec r : commit_result_of_json (commit_result_json r) = Some r.
Proof.
  destruct r. unfold commit_result_of_json, commit_result_json. repeat (cbn; autorewrite with codec). done.
Qed.

Lemma commit_result_wf r : json_wf (commit_result_json r).
Proof.
  apply json_wf_obj. split; [cbn; apply (bool_decide_unpack _); by vm_compute|].
  repeat constructor; cbn; (done || apply JStrs_wf).
Qed.

Lemma parseResult_stringify r : parseResult (stringify (commit_result_json r)) = Ok r.
Proof. unfold parseResult. by rewrite JSON_parse_stringify, commit_result_codec by apply commit_result_wf. Qed.

Lemma truthy_result r : truthy (Some (stringify (commit_result_json r))) = Some (stringify (commit_result_json r)).
Proof. done. Qed.

Section evolution.
Context {digest : HostFileDigestPort}.

(** ** How previews evolve *)
Record preview_evolves (p p' : CommitPreview) : Prop := mk_preview_evolves {
  pe_id : cp_id p' = cp_id p;
  pe_basis : cp_basis p' = cp_basis p;
  pe_hash : cp_canonicalHash p' = cp_canonicalHash p;
  pe_revision : cp_revision p ≤ cp_revision p';
  pe_same : cp_revision p' = cp_revision p → p' = p;
  pe_prepared : cp_status p' = preview_prepared → p' = p;
}.

Lemma preview_evolves_refl p : preview_evolves p p.
Proof. by split. Qed.

Lemma preview_evolves_trans p1 p2 p3 : preview_evolves p1 p2 → preview_evolves p2 p3 → preview_evolves p1 p3.
Proof.
  intros [] []. split; try congruence; try lia.
  - intros Hr. assert (p2 = p1) as <- by (apply pe_same0; lia). auto.
  - intros Hr. pose proof (pe_prepared1 Hr) as Hp. subst p3. auto.
Qed.

Lemma with_status_evolves p status : status ≠ preview_prepared → preview_evolves p (with_status status p).
Proof. intros Hs. split; cbn; try done; lia. Qed.

Lemma status_allowed_ne s s' : status_allowed s s' → s' ≠ preview_prepared.
Proof. by destruct s'. Qed.

Lemma gate_step_preview g g' k p : gate_step g g' → gs_previews g !! k = Some p →
  ∃ p', gs_previews g' !! k = Some p' ∧ preview_evolves p p'.
Proof.
  intros [s _ _|q Hq _ _ _|q status Hq Hs|id pid _|id pid r _] Hk; cbn;
    try (exists p; split; [done|apply preview_evolves_refl]).
  - rewrite lookup_insert_ne by congruence. exists p. split; [done|apply preview_evolves_refl].
  - destruct (decide (cp_id q = k)) as [<-|Hne].
    + rewrite lookup_insert_eq. rewrite Hq in Hk. injection Hk as ->. eexists. split; [done|].
      by eapply with_status_evolves, status_allowed_ne.
    + rewrite lookup_insert_ne by done. exists p. split; [done|apply preview_evolves_refl].
Qed.

Lemma gate_steps_preview g g' k p : rtc gate_step g g' → gs_previews g !! k = Some p →
  ∃ p', gs_previews g' !! k = Some p' ∧ preview_evolves p p'.
Proof.
  intros Hrtc. revert p. induction Hrtc as [g|g g1 g2 Hs _ IH]; intros p Hk.
  { exists p. split; [done|apply preview_evolves_refl]. }
  destruct (gate_step_preview _ _ _ _ Hs Hk) as (p1 & Hk1 & He1).
  destruct (IH _ Hk1) as (p2 & Hk2 & He2). exists p2. split; [done|]. by eapply preview_evolves_trans.
Qed.

(** A preview at the revision it was read at is the preview that was read. *)
Lemma preview_unchanged g g' k p : rtc gate_step g g' → gs_previews g !! k = Some p →
  cp_revision <$> gs_previews g' !! k = Some (cp_revision p) → gs_previews g' !! k = Some p.
Proof.
  intros Hs Hk Hr. destruct (gate_steps_preview _ _ _ _ Hs Hk) as (p' & Hk' & He). rewrite Hk' in *.
  injection Hr as Hr. by rewrite (pe_same _ _ He Hr).
Qed.

(** ** How operations evolve *)
Definition operation_evolves (o o' : CommitOperation) : Prop :=
  op_previewId o' = op_previewId o ∧ (is_Some (op_resultRef o) → o' = o).

Lemma gate_step_operation g g' id o : gate_step g g' → gs_operations g !! id = Some o →
  ∃ o', gs_operations g' !! id = Some o' ∧ operation_evolves o o'.
Proof.
  intros [s _ _|q _ _ _ _|q status _ _|i pid Hi|i pid r Hi] Hk; cbn; try (by exists o).
  - rewrite lookup_insert_ne by congruence. by exists o.
  - destruct (decide (i = id)) as [->|Hne]; [|rewrite lookup_insert_ne by done; by exists o].
    rewrite lookup_insert_eq. rewrite Hi in Hk. injection Hk as <-. eexists. split; [done|].
    split; [done|]. by intros [].
Qed.

Lemma gate_steps_operation g g' id o : rtc gate_step g g' → gs_operations g !! id = Some o →
  ∃ o', gs_operations g' !! id = Some o' ∧ operation_evolves o o'.
Proof.
  intros Hrtc. revert o. induction Hrtc as [g|g g1 g2 Hs _ IH]; intros o Hk; [by exists o|].
  destruct (gate_step_operation _ _ _ _ Hs Hk) as (o1 & Hk1 & Hp1 & He1).
  destruct (IH _ Hk1) as (o2 & Hk2 & Hp2 & He2). exists o2. split; [done|]. split; [congruence|].
  intros Hr. specialize (He1 Hr). subst. auto.
Qed.

(** ** Well-formed states *)
Lemma put_preview_wf p g : gate_wf g → 1 ≤ cp_revision p → hash_ok p → gate_wf (put_preview p g).
Proof.
  intros [] Hr Hh. split; [done| |done]. intros k q. cbn. intros [[<- <-]|[_ Hk]]%lookup_insert_Some; [done|auto].
Qed.

Lemma gate_step_wf g g' : gate_step g g' → gate_wf g → gate_wf g'.
Proof.
  intros [s _ Hs|q _ Hr _ Hh|q status Hq _|i pid Hi|i pid r Hi] Hwf.
  - destruct Hwf. split; [|done..]. intros k x. cbn. intros [[<- <-]|[_ Hk]]%lookup_insert_Some; [done|auto].
  - apply put_preview_wf; [done|lia|done].
  - destruct (gw_previews _ Hwf _ _ Hq) as (_ & Hr & Hh). apply put_preview_wf; [done|cbn; lia|done].
  - destruct Hwf. split; [done..|]. intros k o r. cbn. intros [[<- <-]|[_ Hk]]%lookup_insert_Some; [done|eauto].
  - destruct Hwf. split; [done..|]. intros k o x. cbn.
    intros [[<- <-]|[_ Hk]]%lookup_insert_Some; [|eauto]. intros [= <-]. by exists r.
Qed.

Lemma rtc_wf g g' : rtc gate_step g g' → gate_wf g → gate_wf g'.
Proof. induction 1; eauto using gate_step_wf. Qed.
End evolution.

(** ** The operations of the gate *)
Section gate.
Context {digest : HostFileDigestPort} {W : Type}
  `{!WorkspacePlatformPort W, !WorkspaceStatePort W, !ClockPort W, !IdGeneratorPort W}
  (view : W → gate_state) (inv : W → Prop) `{!WorkspaceStateLaws W view inv}.
Abbreviation frame := (gen_frame_law gate_step view inv) (only parsing).

(** Everything that is no call of the state port leaves its state to others. *)
Context (clock_frame : frame (clock_now (W := W)))
  (ids_frame : ∀ name, frame (ids_next name))
  (inspect_frame : ∀ workspaceId stagingRef, frame (inspectCommitState workspaceId stagingRef))
  (commit_frame : ∀ request, frame (platform_commit request))
  (reconcile_frame : ∀ request, frame (reconcileCommit request)).

(** [result] is the recorded result of an operation. *)
Definition recorded (operationId : string) (result : CommitResult) (g : gate_state) : Prop :=
  ∃ o, gs_operations g !! operationId = Some o ∧
    op_resultRef o = Some (stringify (commit_result_json result)).

Lemma recorded_stays operationId result g g' :
  rtc gate_step g g' → recorded operationId result g → recorded operationId result g'.
Proof.
  intros Hs (o & Ho & Hr). destruct (gate_steps_operation _ _ _ _ Hs Ho) as (o' & Ho' & _ & He).
  rewrite Hr in He. exists o'. split; [done|]. by rewrite He.
Qed.

Lemma recorded_unique operationId r r' g : recorded operationId r g → recorded operationId r' g → r = r'.
Proof.
  intros (o & Ho & Hr) (o' & Ho' & Hr'). assert (o' = o) as -> by congruence. rewrite Hr in Hr'.
  apply Some_inj in Hr'. pose proof (parseResult_stringify r) as Hp. rewrite Hr', parseResult_stringify in Hp. congruence.
Qed.

(** A stored reference is the text of a result, and reads back as that result. *)
Lemma stored_result w operationId o ref : inv w → gs_operations (view w) !! operationId = Some o →
  truthy (op_resultRef o) = Some ref →
  ∃ result, parseResult ref = Ok result ∧ recorded operationId result (view w).
Proof.
  intros Hi Ho Hr. assert (op_resultRef o = Some ref) as Href.
  { unfold truthy in Hr. destruct (op_resultRef o) as [x|]; [|done]. by case_match. }
  destruct (gw_operations _ (law_gate_wf _ Hi) _ _ _ Ho Href) as [result ->].
  exists result. split; [apply parseResult_stringify|]. by exists o.
Qed.

(** Changing the status of a preview that was read before. *)
Lemma save_status g p status w r w' :
  inv w → rtc gate_step g (view w) → gs_previews g !! cp_id p = Some p → gate_wf g →
  status_allowed (cp_status p) status →
  saveCommitPreview (with_status status p) (Some (cp_revision p)) w = (r, w') →
  inv w' ∧ rtc gate_step (view w) (view w') ∧
  match r with
  | Ok _ => ∃ s, rtc gate_step (view w) s ∧ gs_previews s !! cp_id p = Some p ∧
      view w' = put_preview (with_status status p) s
  | Err _ => True
  end.
Proof.
  intros Hi Hg Hp Hwf Hst H. destruct (gw_previews _ Hwf _ _ Hp) as (_ & Hr & Hh).
  destruct (law_save_preview (with_status status p) (Some (cp_revision p)) eq_refl Hh ltac:(cbn; lia) _ _ _ Hi H)
    as (Hi' & s & Hs & He). split; [done|]. destruct r as [q|x]; [|by rewrite He].
  destruct He as (Hrev & _ & Hv). assert (gs_previews s !! cp_id p = Some p) as Hps.
  { eapply preview_unchanged; [|done|exact Hrev]. by etrans. }
  split; [|by exists s]. etrans; [exact Hs|]. apply rtc_once. rewrite Hv. by apply gate_status.
Qed.

Lemma finish_steps id result g g' :
  finish_operation_effect id (stringify (commit_result_json result)) tt g g' →
  rtc gate_step g g' ∧ recorded id result g'.
Proof.
  intros ([pid ref] & Ho & He). cbn in He. destruct ref as [ref|].
  - destruct He as [-> ->]. split; [done|]. by eexists.
  - rewrite He. split; [apply rtc_once; by apply gate_finished|]. eexists. cbn. by rewrite lookup_insert_eq.
Qed.

Lemma recordResult_spec previewId operationId result w r w' :
  inv w → recordResult previewId operationId result w = (r, w') →
  inv w' ∧ rtc gate_step (view w) (view w') ∧
  ∀ x, r = Ok x → x = result ∧ recorded operationId result (view w').
Proof.
  intros Hi H. unfold recordResult, mbind, M_bind in H.
  destruct (finishCommitOperation _ _ w) as [[[]|x] w1] eqn:E1;
    destruct (law_finish_operation _ _ _ _ _ Hi E1) as (Hi1 & s1 & Hs1 & He1).
  2: { injection H as <- <-. rewrite He1. split; [done|]. by split. }
  destruct (finish_steps _ _ _ _ He1) as [Hf Hrec]. assert (rtc gate_step (view w) (view w1)) as Hw1 by by etrans.
  destruct (readCommitPreview _ w1) as [[current|x] w2] eqn:E2;
    destruct (law_read_preview _ _ _ _ Hi1 E2) as (Hi2 & s2 & Hs2 & He2).
  2: { injection H as <- <-. rewrite He2. split; [done|]. split; [by etrans|done]. }
  destruct He2 as [-> Hv2]. rewrite <-Hv2 in Hs2. pose proof (recorded_stays _ _ _ _ Hs2 Hrec) as Hrec2.
  assert (rtc gate_step (view w) (view w2)) as Hw2 by by etrans. rewrite <-Hv2 in H.
  assert (Hdone : ∀ x, (Ok result : Prelude.result exn CommitResult) = Ok x → x = result ∧ recorded operationId result (view w2))
    by (intros x [= <-]; done).
  destruct (gs_previews (view w2) !! previewId) as [p|] eqn:Hp; [|injection H as <- <-; done].
  destruct (cp_status p !== _) eqn:Est; [|injection H as <- <-; done].
  destruct (gw_previews _ (law_gate_wf _ Hi2) _ _ Hp) as (<- & _).
  destruct (saveCommitPreview _ _ w2) as [s w3] eqn:E3. guards_in Est.
  destruct (save_status _ _ preview_confirmed_succeeded _ _ _ Hi2 (rtc_refl _ _) Hp (law_gate_wf _ Hi2) Est E3)
    as (Hi3 & Hw3 & _).
  destruct s as [q|x]; injection H as <- <-; (split; [done|]; split; [by etrans|done || idtac]).
  intros x [= <-]. split; [done|]. by eapply recorded_stays.
Qed.

Lemma reconcile_spec operationId preview w r w' :
  inv w → reconcile operationId preview w = (r, w') →
  inv w' ∧ rtc gate_step (view w) (view w') ∧ ∀ x, r = Ok x → recorded operationId x (view w').
Proof.
  intros Hi H. unfold reconcile, mbind, M_bind in H.
  destruct (reconcileCommit _ w) as [[rec|x] w1] eqn:E1; destruct (reconcile_frame _ _ _ _ Hi E1) as [Hi1 Hs1].
  2: { by injection H as <- <-. }
  destruct (reconciled_result _ _) as [result|]; [|by injection H as <- <-].
  destruct (recordResult_spec _ _ _ _ _ _ Hi1 H) as (Hi2 & Hs2 & Hr). split; [done|]. split; [by etrans|].
  intros x Hx. by destruct (Hr _ Hx) as [-> ?].
Qed.
(** The platform, asked at [w], finds the repository as previewed. *)
Definition unchanged (p : CommitPreview) (w : W) : Prop :=
  ∃ st w', inspectCommitState (cb_workspaceId (cp_basis p)) (cb_stagingRef (cp_basis p)) w = (Ok st, w') ∧
    state_changed st (cp_basis p) = false.

(** The step that takes a preview. *)
Definition takes (p : CommitPreview) (w w' : W) : Prop :=
  ∃ s, rtc gate_step (view w) s ∧ gs_previews s !! cp_id p = Some p ∧ gate_wf s ∧
    view w' = put_preview (with_status preview_committing p) s.

(** The clock, read twice, is before both expiries. *)
Definition fresh (handle : CommitExecutionHandle) (p : CommitPreview) (w w' : W) : Prop :=
  ∃ t1 w1 t2, clock_now w = (Ok t1, w1) ∧ clock_now w1 = (Ok t2, w') ∧
    str_lt t1 (ch_expiresAt handle) = true ∧ str_lt t2 (cb_expiresAt (cp_basis p)) = true.

(** What holds when a call takes a preview [p] for execution: the handle
    matched it, neither had expired, the repository was as previewed, and by
    one step of this call the preview went from prepared to committing. *)
Record taken (input : CommitInput) (p : CommitPreview) (w w' : W) : Prop := mk_taken {
  tk_id : cp_id p = ch_previewId (ci_handle input);
  tk_prepared : cp_status p = preview_prepared;
  tk_step : takes p w w';
  tk_handle : handle_mismatch input None p = false;
  tk_time : ∃ w1 w2, fresh (ci_handle input) p w1 w2;
  tk_state : ∃ w1, rtc gate_step (view w) (view w1) ∧ unchanged p w1;
}.

Definition admission_outcome (input : CommitInput) (w w' : W) (r : result exn (CommitResult + CommitPreview)) : Prop :=
  inv w' ∧ rtc gate_step (view w) (view w') ∧
  match r with
  | Ok (inl result) => recorded (ch_operationId (ci_handle input)) result (view w')
  | Ok (inr p) => taken input p w w'
  | Err _ => True
  end.

Lemma handle_mismatch_None input existing p :
  handle_mismatch input existing p = false → handle_mismatch input None p = false.
Proof. unfold handle_mismatch. destruct existing; [|done]. rewrite !orb_false_iff. tauto. Qed.

Lemma outcome_Err input w w' x : inv w' → rtc gate_step (view w) (view w') → admission_outcome input w w' (Err x).
Proof. done. Qed.

Lemma admit_operation_spec operationId previewId w r w' :
  inv w → createCommitOperation operationId previewId w = (r, w') →
  inv w' ∧ rtc gate_step (view w) (view w') ∧
  ∀ a ref, r = Ok a → truthy (ao_resultRef a) = Some ref →
    ∃ result, parseResult ref = Ok result ∧ recorded operationId result (view w').
Proof.
  intros Hi H. destruct (law_create_operation _ _ _ _ _ Hi H) as (Hi' & s & Hs & He). split; [done|].
  destruct r as [a|x]; [|by rewrite He]. unfold create_operation_effect in He.
  destruct (gs_operations s !! _) as [o|] eqn:Ho; [destruct He as (_ & -> & Hv)|destruct He as [-> Hv]].
  - split; [by rewrite Hv|]. intros a ref [= <-] Hr. cbn in Hr. rewrite <-Hv in Ho. by eapply stored_result.
  - split; [|by intros a ref [= <-]]. etrans; [exact Hs|]. rewrite Hv. apply rtc_once. by apply gate_operation.
Qed.

Lemma takes_before p w w1 w' : rtc gate_step (view w) (view w1) → takes p w1 w' → takes p w w'.
Proof. intros Hs (s & Hs1 & Ht). exists s. split; [|done]. etrans; [exact Hs|exact Hs1]. Qed.

Lemma take_spec g p w r w' :
  inv w → rtc gate_step g (view w) → gs_previews g !! cp_id p = Some p → gate_wf g →
  cp_status p = preview_prepared → take_preview p w = (r, w') →
  inv w' ∧ rtc gate_step (view w) (view w') ∧
  match r with Ok (inl _) => False | Ok (inr q) => q = p ∧ takes p w w' | Err _ => True end.
Proof.
  intros Hi Hg Hp Hwf Hst H. unfold take_preview, mbind, M_bind in H.
  destruct (saveCommitPreview _ _ w) as [s w1] eqn:E.
  destruct (save_status _ _ preview_committing _ _ _ Hi Hg Hp Hwf Hst E) as (Hi' & Hs & Ht).
  destruct s as [q|x]; injection H as <- <-; [|done]. do 3 (split; [done|]).
  destruct Ht as (s & Hs' & Hps & Hv). exists s. do 2 (split; [done|]). split; [|done].
  apply (rtc_wf (view w)); [done|by apply law_gate_wf].
Qed.

Lemma inspect_and_take_spec input p w0 w r w' :
  inv w0 → inv w → rtc gate_step (view w0) (view w) → gs_previews (view w0) !! cp_id p = Some p →
  cp_status p = preview_prepared → inspect_and_take (ch_operationId (ci_handle input)) p w = (r, w') →
  inv w' ∧ rtc gate_step (view w) (view w') ∧
  match r with
  | Ok (inl result) => recorded (ch_operationId (ci_handle input)) result (view w')
  | Ok (inr q) => q = p ∧ takes p w w' ∧ unchanged p w
  | Err _ => True
  end.
Proof.
  intros Hi0 Hi Hs0 Hp Hst H. unfold inspect_and_take, mbind, M_bind in H.
  pose proof (law_gate_wf _ Hi0) as Hwf.
  destruct (inspectCommitState _ _ w) as [[st|x] w1] eqn:E1; destruct (inspect_frame _ _ _ _ _ Hi E1) as [Hi1 Hs1];
    [|by injection H as <- <-].
  assert (rtc gate_step (view w0) (view w1)) as Hs01 by (etrans; [exact Hs0|exact Hs1]).
  destruct (state_changed st _) eqn:Ec.
  { destruct (saveCommitPreview _ _ w1) as [s w2] eqn:E2.
    destruct (save_status _ _ preview_invalidated _ _ _ Hi1 Hs01 Hp Hwf Hst E2) as (Hi2 & Hs2 & _).
    assert (rtc gate_step (view w) (view w2)) by (etrans; [exact Hs1|exact Hs2]). by destruct s; injection H as <- <-. }
  destruct (createCommitOperation _ _ w1) as [a w2] eqn:E2.
  destruct (admit_operation_spec _ _ _ _ _ Hi1 E2) as (Hi2 & Hs2 & Href).
  assert (rtc gate_step (view w) (view w2)) as Hw2 by (etrans; [exact Hs1|exact Hs2]).
  assert (rtc gate_step (view w0) (view w2)) as Hw02 by (etrans; [exact Hs0|exact Hw2]).
  destruct a as [a|x]; [|by injection H as <- <-].
  assert (Hend : take_preview p w2 = (r, w') → inv w' ∧ rtc gate_step (view w) (view w') ∧ match r with
    | Ok (inl result) => recorded (ch_operationId (ci_handle input)) result (view w')
    | Ok (inr q) => q = p ∧ takes p w w' ∧ unchanged p w
    | Err _ => True end).
  { intros H3. destruct (take_spec _ _ _ _ _ Hi2 Hw02 Hp Hwf Hst H3) as (Hi3 & Hs3 & Hr).
    split; [done|]. split; [etrans; [exact Hw2|exact Hs3]|]. destruct r as [[]|]; [done| |done].
    destruct Hr as [-> Ht]. split; [done|]. split; [by eapply takes_before, Ht|by exists st, w1]. }
  destruct (ao_replayed a); [|exact (Hend H)]. destruct (truthy (ao_resultRef a)) as [ref|] eqn:Er; [|exact (Hend H)].
  destruct (Href _ _ eq_refl Er) as (result & Hpr & Hrec). unfold lift in H. rewrite Hpr in H.
  by injection H as <- <-.
Qed.
Lemma reads_operation operationId w o w' : inv w → readCommitOperation operationId w = (Ok o, w') →
  inv w' ∧ rtc gate_step (view w) (view w') ∧ o = gs_operations (view w') !! operationId.
Proof. intros Hi H. by eapply reads_Ok in H; [|apply law_read_operation|]. Qed.

Lemma reads_preview previewId w o w' : inv w → readCommitPreview previewId w = (Ok o, w') →
  inv w' ∧ rtc gate_step (view w) (view w') ∧ o = gs_previews (view w') !! previewId.
Proof. intros Hi H. by eapply reads_Ok in H; [|apply law_read_preview|]. Qed.

Lemma assert_fresh_spec handle p w r w' : inv w → assert_fresh handle p w = (r, w') →
  inv w' ∧ rtc gate_step (view w) (view w') ∧
  (r = Ok tt → cp_status p = preview_prepared ∧ fresh handle p w w').
Proof.
  intros Hi H. unfold assert_fresh, throwM_if, lift, throw_if, mbind, M_bind in H.
  destruct (cp_status p !== preview_prepared) eqn:Est; [by injection H as <- <-|]. guards_in Est.
  destruct (clock_now w) as [[t1|x] w1] eqn:E1; destruct (clock_frame _ _ _ Hi E1) as [Hi1 Hs1];
    [|by injection H as <- <-].
  destruct (str_le _ t1) eqn:Et1; [by injection H as <- <-|].
  destruct (clock_now w1) as [[t2|x] w2] eqn:E2; destruct (clock_frame _ _ _ Hi1 E2) as [Hi2 Hs2];
    (assert (rtc gate_step (view w) (view w2)) by (etrans; [exact Hs1|exact Hs2])); [|by injection H as <- <-].
  injection H as <- <-. do 2 (split; [done|]). destruct (str_le _ t2) eqn:Et2; [done|]. intros _.
  apply str_le_false in Et1, Et2. split; [done|]. unfold fresh. eauto 8.
Qed.

Lemma admission_spec input w r w' :
  inv w → commit_admission input w = (r, w') → admission_outcome input w w' r.
Proof.
  intros Hi H. unfold commit_admission, mbind, M_bind in H.
  destruct (readCommitOperation _ w) as [[existing|x] w1] eqn:E1.
  2: { injection H as <- <-. destruct (law_read_operation _ _ _ _ Hi E1) as (Hi1 & s & Hs & <-). by apply outcome_Err. }
  destruct (reads_operation _ _ _ _ Hi E1) as (Hi1 & Hs1 & Hex).
  destruct (readCommitPreview _ w1) as [[preview|x] w2] eqn:E2.
  2: { injection H as <- <-. destruct (law_read_preview _ _ _ _ Hi1 E2) as (Hi2 & s & Hs & He).
    apply outcome_Err; [done|]. rewrite He. etrans; [exact Hs1|exact Hs]. }
  destruct (reads_preview _ _ _ _ Hi1 E2) as (Hi2 & Hs2 & Hpr).
  assert (rtc gate_step (view w) (view w2)) as Hw2 by (etrans; [exact Hs1|exact Hs2]).
  destruct preview as [p|]; [|injection H as <- <-; by apply outcome_Err].
  symmetry in Hpr. destruct (gw_previews _ (law_gate_wf _ Hi2) _ _ Hpr) as (Hid & _).
  unfold throwM_if, lift, throw_if in H.
  destruct (handle_mismatch _ _ p) eqn:Em; [injection H as <- <-; by apply outcome_Err|].
  apply handle_mismatch_None in Em.
  destruct (truthy _) as [ref|] eqn:Er.
  { destruct existing as [o|]; [|done]. cbn in Er. destruct (stored_result _ _ _ _ Hi1 (eq_sym Hex) Er) as (res & Hp & Hrec).
    rewrite Hp in H. injection H as <- <-. split; [done|]. split; [done|]. exact (recorded_stays _ _ _ _ Hs2 Hrec). }
  destruct (_ && _) eqn:Ec.
  { destruct (reconcile _ p w2) as [q w3] eqn:E3. destruct (reconcile_spec _ _ _ _ _ Hi2 E3) as (Hi3 & Hs3 & Hq).
    assert (rtc gate_step (view w) (view w3)) by (etrans; [exact Hw2|exact Hs3]).
    destruct q as [q|x]; injection H as <- <-; (split; [done|]; split; [done|]); [by apply Hq|done]. }
  destruct (assert_fresh _ p w2) as [f w4] eqn:E3. destruct (assert_fresh_spec _ _ _ _ _ Hi2 E3) as (Hi4 & Hw24 & Hf).
  assert (rtc gate_step (view w) (view w4)) as Hw4 by (etrans; [exact Hw2|exact Hw24]).
  destruct f as [[]|x]; [|injection H as <- <-; by apply outcome_Err]. destruct (Hf eq_refl) as [Est Hfr].
  rewrite <-Hid in Hpr.
  destruct (inspect_and_take_spec input p _ _ _ _ Hi2 Hi4 Hw24 Hpr Est H) as (Hi5 & Hs5 & Hr).
  split; [done|]. split; [etrans; [exact Hw4|exact Hs5]|]. destruct r as [[res|q]|x]; [done| |done].
  destruct Hr as (-> & Ht & Hu). split; [done|done| |done| |by exists w4].
  - by eapply takes_before, Ht.
  - by exists w2, w4.
Qed.

Lemma execution_spec operationId p w r w' : inv w → commit_execution operationId p w = (r, w') →
  inv w' ∧ rtc gate_step (view w) (view w') ∧ ∀ x, r = Ok x → recorded operationId x (view w').
Proof.
  intros Hi H. unfold commit_execution, try_catch, mbind, M_bind in H.
  destruct (platform_commit _ w) as [[res|x] w1] eqn:E1; destruct (commit_frame _ _ _ _ Hi E1) as [Hi1 Hs1].
  - destruct (recordResult _ _ _ w1) as [q w2] eqn:E2.
    destruct (recordResult_spec _ _ _ _ _ _ Hi1 E2) as (Hi2 & Hs2 & Hq).
    assert (rtc gate_step (view w) (view w2)) as Hw2 by (etrans; [exact Hs1|exact Hs2]). destruct q as [q|x].
    + injection H as <- <-. split; [done|]. split; [done|]. intros y [= <-]. by destruct (Hq _ eq_refl) as [-> ?].
    + destruct (reconcile_spec _ _ _ _ _ Hi2 H) as (Hi3 & Hs3 & Hr). split; [done|]. split; [|done].
      etrans; [exact Hw2|exact Hs3].
  - destruct (reconcile_spec _ _ _ _ _ Hi1 H) as (Hi3 & Hs3 & Hr). split; [done|]. split; [|done].
    etrans; [exact Hs1|exact Hs3].
Qed.

Lemma commit_spec input w r w' : inv w → commit input w = (r, w') →
  inv w' ∧ rtc gate_step (view w) (view w') ∧
  ∀ x, r = Ok x → recorded (ch_operationId (ci_handle input)) x (view w').
Proof.
  intros Hi H. unfold commit, mbind, M_bind in H.
  destruct (commit_admission input w) as [a w1] eqn:E1.
  destruct (admission_spec _ _ _ _ Hi E1) as (Hi1 & Hs1 & Ha). destruct a as [[res|p]|x].
  - injection H as <- <-. split; [done|]. split; [done|]. by intros y [= <-].
  - destruct (execution_spec _ _ _ _ _ Hi1 H) as (Hi2 & Hs2 & Hr). split; [done|]. split; [|done].
    etrans; [exact Hs1|exact Hs2].
  - by injection H as <- <-.
Qed.
Lemma JOptStr_inj o o' : JOptStr o = JOptStr o' → o = o'.
Proof. unfold JOptStr. destruct o, o'; congruence. Qed.

Lemma basis_json_inj b b' : basis_json b = basis_json b' → b = b'.
Proof.
  destruct b as [[]], b' as [[]]. unfold basis_json. intros H. apply JObj_fields in H. cbn in H. json_split.
  repeat match goal with H : JOptStr _ = JOptStr _ |- _ => apply JOptStr_inj in H end. congruence.
Qed.

(** After a preview is committing it is never prepared again. *)
Lemma not_prepared_again p g g' k q : rtc gate_step g g' → gs_previews g !! k = Some p →
  cp_status p ≠ preview_prepared → gs_previews g' !! k = Some q → cp_status q ≠ preview_prepared.
Proof.
  intros Hs Hk Hp Hq Hst. destruct (gate_steps_preview _ _ _ _ Hs Hk) as (q' & Hq' & He).
  assert (q' = q) as -> by congruence. by rewrite (pe_prepared _ _ He Hst) in Hst.
Qed.

Lemma put_preview_lookup p status g :
  gs_previews (put_preview (with_status status p) g) !! cp_id p = Some (with_status status p).
Proof. apply lookup_insert_eq. Qed.

(** C16 A previewed commit is executed at most once, whatever other calls do
    meanwhile: the call that goes on to ask the platform for the commit has, by
    one step of its own, taken the preview from prepared to committing; no call
    had taken it before, and in no state reachable afterwards is it prepared,
    so that no call can take it again. *)
Theorem commit_taken_once input w p w' :
  inv w → commit_admission input w = (Ok (inr p), w') →
  ∃ s, rtc gate_step (view w) s ∧ gs_previews s !! cp_id p = Some p ∧ cp_status p = preview_prepared ∧
    gate_step s (view w') ∧ view w' = put_preview (with_status preview_committing p) s ∧
    (∀ g q, cp_id q = cp_id p → ¬ rtc gate_step (put_preview (with_status preview_committing q) g) s) ∧
    (∀ g q, rtc gate_step (view w') g → gs_previews g !! cp_id p = Some q → cp_status q ≠ preview_prepared).
Proof.
  intros Hi H. destruct (admission_spec _ _ _ _ Hi H) as (_ & _ & []).
  destruct tk_step0 as (s & Hs & Hp & _ & Hv). exists s. do 3 (split; [done|]).
  split; [rewrite Hv; by apply gate_status|]. split; [done|]. split.
  - intros g q Hid Hq. eapply not_prepared_again; [exact Hq|apply put_preview_lookup| |by rewrite Hid|]; done.
  - intros g q Hg. eapply not_prepared_again; [exact Hg|rewrite Hv; apply put_preview_lookup|done].
Qed.

(** What is executed is what was authorized: when the handle carries the
    hash of [b] and no other preview has that hash, a call that goes on to ask
    the platform for the commit asks exactly for [b] (message, parent, branch,
    trees and digests); in that very call the repository was still as in [b],
    the clock was before the expiry of the handle and of [b], and the handle
    was for one use, under the current authority fence, with a recent
    authentication. *)
Theorem commit_as_authorized input b w p w' :
  inv w → commit_admission input w = (Ok (inr p), w') →
  ch_previewHash (ci_handle input) = digestCanonical (stringify (basis_json b)) →
  (∀ b', digestCanonical (stringify (basis_json b')) = digestCanonical (stringify (basis_json b)) →
     stringify (basis_json b') = stringify (basis_json b)) →
  commit_request (ch_operationId (ci_handle input)) (cp_basis p) =
    commit_request (ch_operationId (ci_handle input)) b ∧
  (∃ w1 st w2, rtc gate_step (view w) (view w1) ∧
     inspectCommitState (cb_workspaceId b) (cb_stagingRef b) w1 = (Ok st, w2) ∧ state_changed st b = false) ∧
  (∃ w1 t1 w2 t2 w3, clock_now w1 = (Ok t1, w2) ∧ clock_now w2 = (Ok t2, w3) ∧
     str_lt t1 (ch_expiresAt (ci_handle input)) = true ∧ str_lt t2 (cb_expiresAt b) = true) ∧
  ch_maxUses (ci_handle input) = 1 ∧ ch_authorityFence (ci_handle input) = ci_authorityFence input ∧
  trim (ch_recentAuthenticationRef (ci_handle input)) ≠ "".
Proof.
  intros Hi H Hh Hd. destruct (admission_spec _ _ _ _ Hi H) as (_ & _ & []).
  destruct tk_step0 as (s & _ & Hp & Hwf & _). destruct (gw_previews _ Hwf _ _ Hp) as (_ & _ & Hok).
  unfold handle_mismatch in tk_handle0. rewrite !orb_false_iff in tk_handle0.
  destruct tk_handle0 as [[[[_ Hhash] Huses] Hfence] Hauth]. guards_in Hhash. guards_in Huses. guards_in Hfence.
  apply bool_decide_eq_false in Hauth.
  assert (cp_basis p = b) as Hb.
  { apply basis_json_inj, stringify_inj, Hd. rewrite <-Hh, <-Hhash. symmetry. exact Hok. }
  rewrite Hb in *. split; [done|]. split; [|split; [|done]].
  - destruct tk_state0 as (w1 & Hw1 & st & w2 & Hst & Hu). rewrite Hb in *. eauto 6.
  - destruct tk_time0 as (w1 & w3 & t1 & w2 & t2 & H1 & H2 & H3 & H4). rewrite Hb in *. eauto 9.
Qed.

(** An operation has one result: a call of [commit] that returns has
    recorded its result as the text of its operation, and every later call for
    that operation that returns gives the same result, read back from it. *)
Theorem commit_result_stable input w r w' input2 w2 r2 w2' :
  inv w → commit input w = (Ok r, w') →
  inv w2 → rtc gate_step (view w') (view w2) → commit input2 w2 = (Ok r2, w2') →
  ch_operationId (ci_handle input2) = ch_operationId (ci_handle input) →
  r2 = r ∧ ∃ o, gs_operations (view w2') !! ch_operationId (ci_handle input) = Some o ∧
    op_resultRef o = Some (stringify (commit_result_json r)) ∧
    parseResult (stringify (commit_result_json r)) = Ok r.
Proof.
  intros Hi H Hi2 Hs H2 Hop. destruct (commit_spec _ _ _ _ Hi H) as (_ & _ & Hr).
  destruct (commit_spec _ _ _ _ Hi2 H2) as (_ & Hs2 & Hr2). rewrite Hop in Hr2.
  assert (recorded (ch_operationId (ci_handle input)) r (view w2')) as Hrec.
  { eapply recorded_stays; [exact Hs2|]. eapply recorded_stays; [exact Hs|]. by apply Hr. }
  split; [by eapply recorded_unique; [apply Hr2|]|]. destruct Hrec as (o & Ho & Href). exists o.
  split; [done|]. split; [done|]. apply parseResult_stringify.
Qed.
(** A preview that was prepared is stored, for the state the platform
    reported and the trimmed message, under the digest of both. *)
Lemma prepare_spec input w r w' : inv w → prepare input w = (r, w') →
  inv w' ∧ rtc gate_step (view w) (view w') ∧
  ∀ p, r = Ok p → gs_previews (view w') !! cp_id p = Some p ∧ hash_ok p ∧ cp_revision p = 1 ∧
    cp_status p = preview_prepared ∧ cb_message (cp_basis p) = trim (pi_message input) ∧
    cb_message (cp_basis p) ≠ "" ∧ ct_stagedFiles (cb_state (cp_basis p)) ≠ [] ∧
    cb_expiresAt (cp_basis p) = pi_expiresAt input.
Proof.
  intros Hi H. unfold prepare, throwM_if, lift, throw_if, mbind, M_bind in H.
  destruct (inspectCommitState _ _ w) as [[st|x] w1] eqn:E1; destruct (inspect_frame _ _ _ _ _ Hi E1) as [Hi1 Hs1];
    [|by injection H as <- <-].
  destruct (_ || _) eqn:Eg; [by injection H as <- <-|]. rewrite !orb_false_iff in Eg. destruct Eg as [[_ Ef] Em].
  apply bool_decide_eq_false in Ef, Em.
  destruct (clock_now w1) as [[t|x] w2] eqn:E2; destruct (clock_frame _ _ _ Hi1 E2) as [Hi2 Hs2];
    (assert (rtc gate_step (view w) (view w2)) as Hw2 by (etrans; [exact Hs1|exact Hs2])); [|by injection H as <- <-].
  destruct (str_le _ t) eqn:Et; [by injection H as <- <-|].
  destruct (ids_next _ w2) as [[id|x] w3] eqn:E3; destruct (ids_frame _ _ _ _ Hi2 E3) as [Hi3 Hs3];
    (assert (rtc gate_step (view w) (view w3)) as Hw3 by (etrans; [exact Hw2|exact Hs3])); [|by injection H as <- <-].
  match type of H with saveCommitPreview ?p _ _ = _ =>
    destruct (law_save_preview p None eq_refl eq_refl (Z.le_refl 1) _ _ _ Hi3 H) as (Hi4 & s & Hs4 & He)
  end. split; [done|]. destruct r as [p|x]; [|by rewrite He; split; [etrans; [exact Hw3|exact Hs4]|]].
  destruct He as (Hn & -> & Hv). split.
  - etrans; [exact Hw3|]. etrans; [exact Hs4|]. apply rtc_once. rewrite Hv. apply gate_prepared; [|done..].
    by destruct (gs_previews s !! _).
  - intros p [= <-]. split; [rewrite Hv; apply lookup_insert_eq|done].
Qed.
End gate.
