(* ===== verification/WorkspaceRuns.v ===== *)
(** What the workspace service guarantees (WorkspaceService.v): only content
    that a controlled write of the task reported is ever task-owned, changes of
    the Owner stay the Owner's, and only task-owned files are staged. *)
From S2P Require Import Prelude Js JsJson Identifiers Contract AuthTypes WorkspaceService.
From S2P Require Import CommitGate CommitRuns.
Local Open Scope Z_scope.

(** ** [new Map] *)
Lemma new_Map_app {V} (l : list (string * V)) e : new_Map (l ++ [e]) = map_set e.1 e.2 (new_Map l).
Proof. unfold new_Map. by rewrite foldl_app. Qed.

(** The value of a key is one of its entries. *)
Lemma new_Map_get {V} (l : list (string * V)) k v : map_get k (new_Map l) = Some v → (k, v) ∈ l.
Proof.
  induction l as [|[k' v'] l IH] using rev_ind; [done|]. rewrite new_Map_app, map_get_set. cbn.
  rewrite elem_of_app, list_elem_of_singleton. case_decide; [intros [= <-]; right; by subst|auto].
Qed.

Lemma new_Map_None {V} (l : list (string * V)) k : map_get k (new_Map l) = None ↔ k ∉ l.*1.
Proof.
  induction l as [|[k' v'] l IH] using rev_ind; [by split; [set_solver|]|].
  rewrite new_Map_app, map_get_set, fmap_app, not_elem_of_app. cbn. rewrite list_elem_of_singleton.
  case_decide; naive_solver.
Qed.

Lemma by_path_get k files f : map_get k (by_path files) = Some f → f ∈ files ∧ fo_path f = k.
Proof. intros (g & [= -> ->] & Hg)%new_Map_get%list_elem_of_fmap. done. Qed.

(** ** Sets of paths *)
Lemma unique_paths_spec l : NoDup (sort_strings (unique l)) ∧ ∀ x, x ∈ sort_strings (unique l) ↔ x ∈ l.
Proof.
  destruct (unique_spec l) as [H1 H2]. split; [unfold sort_strings; by rewrite sort_by_perm|].
  intros x. by rewrite sort_strings_elem.
Qed.

(** ** Classification of one file *)
Definition prior_of (prev : WorkspaceSnapshot) (f : WorkspaceFileObservation) : option WorkspaceFileObservation :=
  map_get (fo_path f) (by_path (ws_files prev)).

Lemma carry_path prior f : fo_path (carry_file prior f) = fo_path f ∧
  fo_indexDigest (carry_file prior f) = fo_indexDigest f ∧
  fo_worktreeDigest (carry_file prior f) = fo_worktreeDigest f ∧ fo_state (carry_file prior f) = fo_state f.
Proof. unfold carry_file. repeat case_match; done. Qed.

Lemma classify_path prev paths writes f : fo_path (classify_file prev paths writes f) = fo_path f ∧
  fo_indexDigest (classify_file prev paths writes f) = fo_indexDigest f ∧
  fo_worktreeDigest (classify_file prev paths writes f) = fo_worktreeDigest f ∧
  fo_state (classify_file prev paths writes f) = fo_state f.
Proof. unfold classify_file. repeat case_match; done || apply carry_path. Qed.

(** The content of [f] is the result of a controlled write on what the task or
    nobody had changed in [prev]. *)
Definition written_now (prev : WorkspaceSnapshot) (paths : list string) (writes : list WorkspaceControlledWrite)
    (f : WorkspaceFileObservation) : Prop :=
  ∃ w, w ∈ writes ∧ fo_path f ∈ paths ∧ wc_path w = fo_path f ∧
    wc_beforeDigest w = (prior_of prev f ≫= fo_worktreeDigest) ∧ wc_afterDigest w = fo_worktreeDigest f ∧
    fo_indexDigest f = (prior_of prev f ≫= fo_indexDigest) ∧
    (∀ p, prior_of prev f = Some p → fo_state p = file_clean ∨ fo_owner p = task_owner) ∧
    fo_taskWrite f = Some (mkTaskWrite w (ws_id prev)).

(** [f] was the task's in [prev], and is unchanged. *)
Definition carried_over (prev : WorkspaceSnapshot) (f : WorkspaceFileObservation) : Prop :=
  ∃ p, prior_of prev f = Some p ∧ fo_owner p = task_owner ∧ fo_indexDigest f = fo_indexDigest p ∧
    fo_worktreeDigest f = fo_worktreeDigest p ∧ (is_Some (fo_taskWrite p) → fo_taskWrite f = fo_taskWrite p).

Lemma controlled_evidence_Some paths writes prior f e : controlled_evidence paths writes prior f = Some e →
  e ∈ writes ∧ fo_path f ∈ paths ∧ wc_path e = fo_path f ∧ wc_beforeDigest e = (prior ≫= fo_worktreeDigest) ∧
  wc_afterDigest e = fo_worktreeDigest f ∧ fo_indexDigest f = (prior ≫= fo_indexDigest).
Proof.
  unfold controlled_evidence. destruct (includes _ _) eqn:E; [|done]. apply includes_spec in E.
  destruct (map_get _ _) as [e'|] eqn:Em; [|done].
  apply new_Map_get, list_elem_of_fmap in Em as (x & [= Hp ->] & Hx).
  destruct (_ && _) eqn:Ea; [|done]. intros [= <-]. rewrite !andb_true_iff, !bool_decide_eq_true in Ea.
  destruct Ea as [[? ?] ?]. done.
Qed.

Lemma carry_task prior f : fo_owner (carry_file prior f) = task_owner →
  ∃ p, prior = Some p ∧ fo_owner p = task_owner ∧ fo_indexDigest f = fo_indexDigest p ∧
    fo_worktreeDigest f = fo_worktreeDigest p ∧
    (is_Some (fo_taskWrite p) → fo_taskWrite (carry_file prior f) = fo_taskWrite p).
Proof.
  unfold carry_file. destruct prior as [p|]; [|done]. destruct (_ || _) eqn:E; [done|].
  apply orb_false_iff in E as [E1 E2]. guards_in E1. guards_in E2.
  intros Ho. exists p. split; [done|]. destruct (fo_taskWrite p) as [t|] eqn:Et; (repeat split; [done..|]);
    [done|by intros []].
Qed.

Lemma classify_task previous paths writes f : fo_owner (classify_file previous paths writes f) = task_owner →
  ∃ prev, previous = Some prev ∧
    (written_now prev paths writes (classify_file previous paths writes f) ∨
     carried_over prev (classify_file previous paths writes f)).
Proof.
  destruct previous as [prev|]; [|done]. intros Ho. exists prev. split; [done|]. revert Ho.
  cbn [classify_file]. fold (prior_of prev f). destruct (owner_dirty (prior_of prev f)) eqn:Ed; [done|].
  assert (Hc : fo_owner (carry_file (prior_of prev f) f) = task_owner →
    carried_over prev (carry_file (prior_of prev f) f)).
  { intros (p & Hp & Ho & Hi & Hw & Ht)%carry_task. exists p. unfold prior_of at 1.
    destruct (carry_path (prior_of prev f) f) as (-> & -> & -> & _). done. }
  destruct (controlled_evidence _ _ _ f) as [e|] eqn:Ee; [|by right; apply Hc].
  destruct (may_become_task _) eqn:Em; [|by right; apply Hc]. intros _. left.
  apply controlled_evidence_Some in Ee as (H1 & H2 & H3 & H4 & H5 & H6). exists e.
  do 6 (split; [done|]). split; [|done]. intros p Hp. unfold prior_of in Hp, Em. cbn in Hp. rewrite Hp in Em.
  cbn in Em. apply orb_true_iff in Em as [H%bool_decide_eq_true|H%bool_decide_eq_true]; auto.
Qed.

(** *** Task-owned content is attested *)
Lemma classify_attested previous paths writes f :
  (∀ prev, previous = Some prev → snapshot_attested prev) → attested (classify_file previous paths writes f).
Proof.
  intros Hprev Ho. destruct (classify_task _ _ _ _ Ho) as (prev & -> & [(w & _ & _ & Hp & _ & Ha & _ & _ & Ht)|Hc]).
  - by exists (mkTaskWrite w (ws_id prev)).
  - destruct Hc as (p & Hp & Hpo & _ & Hw & Ht). apply by_path_get in Hp as [Hin Hpath].
    destruct (Hprev _ eq_refl p Hin Hpo) as (t & Het & Htp & Hta). exists t.
    rewrite Ht, Het by (by exists t). split; [done|]. split; congruence.
Qed.

(** *** Changes of the Owner stay the Owner's *)
Lemma by_path_map (g : WorkspaceFileObservation → WorkspaceFileObservation) files k :
  (∀ f, fo_path (g f) = fo_path f) → map_get k (by_path (g <$> files)) = g <$> map_get k (by_path files).
Proof.
  intros Hg. unfold by_path. induction files as [|f files IH] using rev_ind; [done|].
  rewrite !fmap_app. cbn [fmap list_fmap]. rewrite !new_Map_app, !map_get_set. cbn. rewrite Hg.
  case_decide; [done|]. exact IH.
Qed.

Definition owner_changed (k : string) (s : WorkspaceSnapshot) : Prop :=
  ∃ f, map_get k (by_path (ws_files s)) = Some f ∧ fo_state f ≠ file_clean ∧ fo_owner f = owner_owner.

Definition still_changed (k : string) (s : WorkspaceSnapshot) : Prop :=
  ∃ f, map_get k (by_path (ws_files s)) = Some f ∧ fo_state f ≠ file_clean.

(** [s'] was classified with [s] as its baseline. *)
Definition successor (s s' : WorkspaceSnapshot) : Prop :=
  ∃ paths writes files, ws_files s' = classify_file (Some s) paths writes <$> files.

Lemma owner_changed_step k s s' : successor s s' → still_changed k s' → owner_changed k s → owner_changed k s'.
Proof.
  intros (paths & writes & files & Hs') (f & Hf & Hst) (p & Hp & Hpst & Hpo). exists f. split; [done|]. split; [done|].
  rewrite Hs', by_path_map in Hf by (intros; apply classify_path).
  destruct (map_get k (by_path files)) as [g|] eqn:Hg; [|done]. injection Hf as <-.
  apply by_path_get in Hg as [_ Hk]. cbn [classify_file]. rewrite Hk, Hp. cbn [owner_dirty].
  by rewrite Hpo, (bool_decide_eq_false_2 _ Hpst), bool_decide_eq_true_2.
Qed.

(** ** Staging *)
Lemma truthy_iff o t : truthy o = Some t ↔ o = Some t ∧ t ≠ "".
Proof. unfold truthy. destruct o as [[]|]; split; try done; naive_solver. Qed.

Lemma list_nil_elem {A} (l : list A) : l = [] ↔ ∀ x, ¬ x ∈ l.
Proof. split; [intros ->; set_solver|]. destruct l as [|x l]; [done|]. intros H. destruct (H x). by left. Qed.

Definition task_content (s : WorkspaceSnapshot) (path : string) (f : WorkspaceFileObservation) : Prop :=
  map_get path (by_path (ws_files s)) = Some f ∧ fo_owner f = task_owner ∧
  ∃ t, fo_taskWrite f = Some t ∧ wc_afterDigest (tw_write t) = fo_worktreeDigest f.

Lemma assertTaskOwned_Ok s paths u :
  assertTaskOwned s paths = Ok u ↔ ∀ path, path ∈ paths → ∃ f, task_content s path f.
Proof.
  assert (assertTaskOwned s paths = Ok u ↔ unsafe_paths s paths = []) as ->.
  { unfold assertTaskOwned. destruct u, (unsafe_paths s paths); split; done. }
  unfold unsafe_paths, task_content. split.
  - intros H path Hp. assert (path ∉ List.filter (λ path,
      match map_get path (by_path (ws_files s)) with
      | Some file => (fo_owner file !== task_owner) || match fo_taskWrite file with
          | Some t => wc_afterDigest (tw_write t) !== fo_worktreeDigest file | None => true end
      | None => true end) paths) as Hn by (rewrite H; apply not_elem_of_nil).
    rewrite list_elem_of_In, filter_In, <-list_elem_of_In in Hn.
    destruct (map_get path _) as [f|]; [|by destruct Hn]. exists f. split; [done|].
    destruct (_ || _) eqn:E; [by destruct Hn|]. apply orb_false_iff in E as [E1 E2]. guards_in E1. split; [done|].
    destruct (fo_taskWrite f) as [t|]; [|done]. guards_in E2. by exists t.
  - intros H. destruct (List.filter _ paths) as [|path l] eqn:E; [done|]. exfalso.
    assert (path ∈ path :: l) as Hin by left. rewrite <-E, list_elem_of_In, filter_In, <-list_elem_of_In in Hin.
    destruct Hin as [Hp Hu]. destruct (H _ Hp) as (f & Hf & Ho & t & Ht & Ha). rewrite Hf, Ho, Ht, Ha in Hu.
    by rewrite !bool_decide_eq_true_2 in Hu.
Qed.

Lemma observations_of_spec files paths : (∀ path, path ∈ paths → is_Some (map_get path files)) →
  ∃ l, observations_of files paths = Ok l ∧ Forall2 (λ path f, map_get path files = Some f) paths l.
Proof.
  induction paths as [|path paths IH]; intros H; [by exists []|].
  destruct (H path) as [f Hf]; [by left|]. destruct IH as (l & Hl & Hall); [intros; apply H; by right|].
  exists (f :: l). cbn. rewrite Hf, Hl. split; [done|]. by constructor.
Qed.

(** Staging: the platform is asked to stage, on the HEAD of the snapshot,
    exactly the requested paths, sorted and without duplicates, when each of
    them is task-owned with the content its controlled write reported; when the
    snapshot is missing, is not of a Git repository with a HEAD, or when no
    path or a path of someone else is requested, the platform is asked nothing. *)
Theorem stage_task_content s paths q :
  stage_request (Some s) paths = Ok q ↔
  ow_repositoryKind (ws_observed s) = git_repository ∧ sq_expectedHead q ≠ "" ∧
  ow_head (ws_observed s) = Some (sq_expectedHead q) ∧ sq_workspaceId q = ow_workspaceId (ws_observed s) ∧
  paths ≠ [] ∧ Forall2 (task_content s) (sort_strings (unique paths)) (sq_files q).
Proof.
  unfold stage_request. destruct (unique_paths_spec paths) as [_ Hu]. set (l := sort_strings (unique paths)) in *.
  assert (Hl : l = [] ↔ paths = []) by (rewrite !list_nil_elem; by setoid_rewrite Hu).
  destruct (ow_repositoryKind (ws_observed s)); [|split; [done|by intros [? _]]].
  destruct (truthy (ow_head (ws_observed s))) as [head|] eqn:Hh.
  2: { split; [done|]. intros (_ & Hne & He & _). by rewrite (proj2 (truthy_iff _ _) (conj He Hne)) in Hh. }
  apply truthy_iff in Hh as [Hh Hne]. rewrite throw_if_bind. case_bool_decide as Hn.
  { split; [done|]. intros (_ & _ & _ & _ & Hp & _). by rewrite Hl in Hn. }
  rewrite Hl in Hn. rewrite result_bind_Ok. split.
  - intros (u & Ha & Hq). rewrite assertTaskOwned_Ok in Ha.
    destruct (observations_of_spec (by_path (ws_files s)) l) as (fs & Hfs & Hall).
    { intros path Hp. destruct (Ha _ Hp) as (f & Hf & _). by exists f. }
    rewrite Hfs in Hq. injection Hq as <-. do 5 (split; [done|]).
    apply Forall2_same_length_lookup_2; [by eapply Forall2_length|]. intros i path f Hpath Hf.
    pose proof (Forall2_lookup_lr _ _ _ _ _ _ Hall Hpath Hf) as Hg.
    destruct (Ha path) as (f' & Hc); [by eapply list_elem_of_lookup_2|]. destruct Hc as [Hf' Hc].
    assert (f' = f) as -> by congruence. done.
  - intros (_ & Hqn & Hqh & Hqw & _ & Hall). destruct q as [qw qh qf]. cbn in *. subst qw.
    assert (qh = head) as -> by congruence.
    exists tt. split.
    + apply assertTaskOwned_Ok. intros path (i & Hi)%list_elem_of_lookup.
      destruct (Forall2_lookup_l _ _ _ _ _ Hall Hi) as (f & _ & Hf). by exists f.
    + destruct (observations_of_spec (by_path (ws_files s)) l) as (fs & Hfs & Hall').
      { intros path (i & Hi)%list_elem_of_lookup. destruct (Forall2_lookup_l _ _ _ _ _ Hall Hi) as (f & _ & Hf & _). by exists f. }
      rewrite Hfs. cbn. do 2 f_equal. clear -Hall Hall'. revert fs Hall'.
      induction Hall as [|path f l fl [Hf _] _ IH]; intros fs Hfs; inversion Hfs; subst; [done|]. f_equal; [congruence|auto].
Qed.

(** What the Owner changed is not taken over: along any chain of snapshots,
    each classified against the one before whatever controlled writes are
    reported, a path the Owner had changed stays the Owner's as long as it is
    seen changed, and no request with that path can be staged. *)
Theorem owner_changes_protected k s s' paths :
  owner_changed k s → rtc (λ s s', successor s s' ∧ still_changed k s') s s' →
  owner_changed k s' ∧ (k ∈ paths → ∀ q, stage_request (Some s') paths ≠ Ok q).
Proof.
  intros Ho Hs. assert (owner_changed k s') as Ho'.
  { induction Hs as [|s1 s2 s3 [Hs1 Hc] _ IH]; [done|]. apply IH. by eapply owner_changed_step. }
  split; [done|]. destruct Ho' as (f & Hf & _ & Hfo). intros Hk q Hq. unfold stage_request in Hq.
  repeat case_match; try done. rewrite throw_if_bind in Hq. case_match; [done|].
  apply result_bind_Ok in Hq as (u & Ha & _). rewrite assertTaskOwned_Ok in Ha.
  destruct (Ha k) as (g & Hg & Hgo & _); [by apply unique_paths_spec|]. congruence.
Qed.

Section service.
Context {digest : HostFileDigestPort} {W : Type}
  `{!WorkspacePlatformPort W, !WorkspaceStatePort W, !ClockPort W, !IdGeneratorPort W}
  (view : W → gate_state) (inv : W → Prop) `{!WorkspaceStateLaws W view inv}.
Abbreviation frame := (gen_frame_law gate_step view inv) (only parsing).
Context (clock_frame : frame (clock_now (W := W)))
  (ids_frame : ∀ name, frame (ids_next name))
  (snapshot_frame : ∀ workspaceId hostId root, frame (platform_snapshot workspaceId hostId root)).

Definition read_baseline (id : option string) : M exn W (option WorkspaceSnapshot) :=
  match truthy id with Some id => readSnapshot id | None => mret None end.

Lemma read_baseline_spec id w r w' : inv w → read_baseline id w = (r, w') →
  inv w' ∧ rtc gate_step (view w) (view w') ∧
  ∀ prev, r = Ok (Some prev) → id = Some (ws_id prev) ∧ gs_snapshots (view w') !! ws_id prev = Some prev ∧
    snapshot_attested prev.
Proof.
  intros Hi H. unfold read_baseline in H. destruct (truthy id) as [k|] eqn:Ek; [|by injection H as <- <-].
  apply truthy_iff in Ek as [-> _]. destruct (law_read_snapshot _ _ _ _ Hi H) as (Hi' & s & Hs & He).
  split; [done|]. destruct r as [o|x]; [|by rewrite He]. destruct He as [-> He].
  split; [by rewrite He|]. intros prev [= Hp]. rewrite <-He in Hp.
  destruct (gw_snapshots _ (law_gate_wf _ Hi') _ _ Hp) as [<- Ha]. done.
Qed.

Lemma gate_steps_snapshot g g' k s : rtc gate_step g g' →
  gs_snapshots g !! k = Some s → gs_snapshots g' !! k = Some s.
Proof.
  intros Hs. revert s. induction Hs as [|g g1 g2 H _ IH]; intros s Hk; [done|]. apply IH.
  destruct H as [x Hx _|p _ _ _ _|p st _ _|id pid _|id pid res _]; cbn; try done.
  rewrite lookup_insert_ne; [done|congruence].
Qed.

Lemma save_snapshot_spec s w r w' : inv w → snapshot_attested s → saveSnapshot s w = (r, w') →
  inv w' ∧ rtc gate_step (view w) (view w') ∧
  ∀ s', r = Ok s' → s' = s ∧ gs_snapshots (view w') !! ws_id s = Some s.
Proof.
  intros Hi Ha H. destruct (law_save_snapshot _ Ha _ _ _ Hi H) as (Hi' & g & Hs & He). split; [done|].
  destruct r as [s'|x]; [|by rewrite He]. destruct He as (Hn & -> & Hv). split.
  - etrans; [exact Hs|]. apply rtc_once. rewrite Hv. by apply gate_snapshot.
  - intros ? [= <-]. split; [done|]. rewrite Hv. apply lookup_insert_eq.
Qed.

(** What is said of a snapshot that was just stored. *)
Definition ownership (input : SnapshotInput) (s : WorkspaceSnapshot) (g : gate_state) : Prop :=
  gs_snapshots g !! ws_id s = Some s ∧
  ∀ f, f ∈ ws_files s → fo_owner f = task_owner →
    ∃ prev, si_previousSnapshotId input = Some (ws_id prev) ∧ gs_snapshots g !! ws_id prev = Some prev ∧
      (written_now prev (si_controlledWritePaths input) (si_controlledWrites input) f ∨ carried_over prev f).

Lemma classified_ownership input previous files w0 w s r w' :
  inv w → rtc gate_step (view w0) (view w) →
  (∀ prev, previous = Some prev → si_previousSnapshotId input = Some (ws_id prev) ∧
     gs_snapshots (view w0) !! ws_id prev = Some prev ∧ snapshot_attested prev) →
  ws_files s = classify_file previous (si_controlledWritePaths input) (si_controlledWrites input) <$> files →
  saveSnapshot s w = (r, w') →
  inv w' ∧ rtc gate_step (view w0) (view w') ∧ ∀ s, r = Ok s → ownership input s (view w').
Proof.
  intros Hi Hs0 Hp Hf H.
  assert (Hfile : ∀ f, f ∈ ws_files s → ∃ g, f = classify_file previous
    (si_controlledWritePaths input) (si_controlledWrites input) g).
  { intros f Hin. rewrite Hf in Hin. apply list_elem_of_fmap in Hin as (g & -> & _). by exists g. }
  destruct (save_snapshot_spec s w r w') as (Hi' & Hs & Hr); [done| |done|].
  { intros f (g & ->)%Hfile. apply classify_attested. intros prev Hprev. by destruct (Hp _ Hprev) as (_ & _ & ?). }
  assert (rtc gate_step (view w0) (view w')) as Hs' by (etrans; [exact Hs0|exact Hs]).
  do 2 (split; [done|]). intros s' Hs''. destruct (Hr _ Hs'') as [-> Hst]. split; [done|].
  intros f (g & ->)%Hfile Ho. destruct (classify_task _ _ _ _ Ho) as (prev & Hprev & Hc). exists prev.
  destruct (Hp _ Hprev) as (Hid & Hlk & _). split; [done|]. split; [by eapply gate_steps_snapshot|done].
Qed.

(** C33 Snapshots: in every stored snapshot the content of each task-owned file
    is what a controlled write reported, and a call of [snapshot], with any
    other calls in between, stores one more such snapshot; in it a file is the
    task's only if a write reported in this very call leads from its baseline,
    where nobody but the task had changed it, to the content observed, with the
    Git index untouched, or if it was the task's in the baseline and is
    unchanged. *)
Theorem snapshot_ownership input w r w' :
  inv w → ws_snapshot input w = (r, w') →
  rtc gate_step (view w) (view w') ∧
  (∀ k s, gs_snapshots (view w') !! k = Some s → snapshot_attested s) ∧
  ∀ s, r = Ok s → ownership input s (view w').
Proof.
  intros Hi H. unfold ws_snapshot in H. fold (read_baseline (si_previousSnapshotId input)) in H.
  unfold throwM_if, lift, throw_if, mbind, M_bind in H.
  cut (inv w' ∧ rtc gate_step (view w) (view w') ∧ ∀ s, r = Ok s → ownership input s (view w')).
  { intros (Hi' & Hs & Hr). split; [done|]. split; [|done]. intros k s Hk.
    by destruct (gw_snapshots _ (law_gate_wf _ Hi') _ _ Hk). }
  destruct (platform_snapshot _ _ _ w) as [[obs|x] w1] eqn:E1;
    destruct (snapshot_frame _ _ _ _ _ _ Hi E1) as [Hi1 Hs1]; [|by injection H as <- <-].
  destruct (read_baseline _ w1) as [p w2] eqn:E2. destruct (read_baseline_spec _ _ _ _ Hi1 E2) as (Hi2 & Hs2 & Hp).
  assert (rtc gate_step (view w) (view w2)) as Hw2 by (etrans; [exact Hs1|exact Hs2]).
  destruct p as [prev|x]; [|by injection H as <- <-].
  destruct (baseline_mismatch _ _ _); [by injection H as <- <-|].
  destruct (ids_next _ w2) as [[id|x] w3] eqn:E3; destruct (ids_frame _ _ _ _ Hi2 E3) as [Hi3 Hs3];
    (assert (rtc gate_step (view w) (view w3)) as Hw3 by (etrans; [exact Hw2|exact Hs3])); [|by injection H as <- <-].
  destruct (clock_now w3) as [[t|x] w4] eqn:E4; destruct (clock_frame _ _ _ Hi3 E4) as [Hi4 Hs4];
    [|injection H as <- <-; split; [done|]; split; [etrans; [exact Hw3|exact Hs4]|done]].
  assert (rtc gate_step (view w2) (view w4)) as Hs24 by (etrans; [exact Hs3|exact Hs4]).
  eapply (classified_ownership input prev (ow_files obs)) in H as (Hi5 & Hs5 & Hr); [|done|exact Hs24| |done].
  2: { intros p ->. by apply Hp. }
  split; [done|]. split; [etrans; [exact Hw2|exact Hs5]|done].
Qed.
End service.
