(* ===== verification/RunCoordination.v ===== *)
(** The data and the ports of Run coordination: ports/run-checkpoints.ts, the
    Agent runtime of ports/intelligence.ts, the request of services/context-formation-service.ts,
    the trace input of services/session-trace-recorder.ts, and the in-memory
    checkpoint store (testing/src/in-memory/run-checkpoints.ts). *)
From S2P Require Import Prelude Js JsJson Identifiers Contract Entities AuthTypes.
From S2P Require Import Coordination Persistence Delegation RunState.
Local Open Scope Z_scope.

(** ** The Agent runtime (ports/intelligence.ts) *)
Record RuntimeApprovalWait := mkApprovalWait {
  aw_approvalRequestId : string; aw_semanticSnapshotHash : string; aw_expiresAt : string }.

Inductive MessagePhase := message_started | message_updated | message_ended.
Inductive ProviderPhase := provider_request | provider_response.

Inductive RuntimeEvent :=
  | runtime_suspended (runId : RunId) (continuationRef : string) (approval : RuntimeApprovalWait) (occurredAt : string)
  | runtime_result_unknown (runId : RunId) (toolCallId capabilityRef : string) (externalActionId : option string)
      (occurredAt : string)
  | runtime_model_started (modelRef thinkingLevel : option string) (runId : RunId) (occurredAt : string)
  | runtime_completed (runId : RunId) (occurredAt : string) (output : RuntimeSuccessfulOutput)
  | runtime_turn_started (runId : RunId) (turnIndex : Z) (occurredAt : string)
  | runtime_message (runId : RunId) (phase : MessagePhase) (role : string) (sequence : Z) (payloadRef occurredAt : string)
  | runtime_model_output (runId : RunId) (sequence : Z) (payloadRef occurredAt : string)
  | runtime_provider_observation (runId : RunId) (phase : ProviderPhase) (payloadRef occurredAt : string)
  | runtime_compaction_proposed (runId : RunId) (proposalRef occurredAt : string)
  | runtime_cancelled (runId : RunId) (reasonCode occurredAt : string)
  | runtime_tool_intent (runId : RunId) (capabilityRef payloadRef occurredAt : string)
  | runtime_tool_result (runId : RunId) (capabilityRef payloadRef occurredAt : string)
  | runtime_turn_completed (runId : RunId) (turnId : TurnId) (occurredAt : string)
  | runtime_failed (runId : RunId) (errorCode occurredAt : string).

(** [event.runId], [event.occurredAt], [event.type] *)
Definition runtime_event_runId (e : RuntimeEvent) : RunId :=
  match e with
  | runtime_suspended r _ _ _ | runtime_result_unknown r _ _ _ _ | runtime_model_started _ _ r _
  | runtime_completed r _ _ | runtime_turn_started r _ _ | runtime_message r _ _ _ _ _
  | runtime_model_output r _ _ _ | runtime_provider_observation r _ _ _ | runtime_compaction_proposed r _ _
  | runtime_cancelled r _ _ | runtime_tool_intent r _ _ _ | runtime_tool_result r _ _ _
  | runtime_turn_completed r _ _ | runtime_failed r _ _ => r
  end.

Definition runtime_event_occurredAt (e : RuntimeEvent) : string :=
  match e with
  | runtime_suspended _ _ _ t | runtime_result_unknown _ _ _ _ t | runtime_model_started _ _ _ t
  | runtime_completed _ t _ | runtime_turn_started _ _ t | runtime_message _ _ _ _ _ t
  | runtime_model_output _ _ _ t | runtime_provider_observation _ _ _ t | runtime_compaction_proposed _ _ t
  | runtime_cancelled _ _ t | runtime_tool_intent _ _ _ t | runtime_tool_result _ _ _ t
  | runtime_turn_completed _ _ t | runtime_failed _ _ t => t
  end.

Definition runtime_event_type (e : RuntimeEvent) : string :=
  match e with
  | runtime_suspended _ _ _ _ => "runtime.suspended"
  | runtime_result_unknown _ _ _ _ _ => "runtime.result_unknown"
  | runtime_model_started _ _ _ _ => "runtime.model_started"
  | runtime_completed _ _ _ => "runtime.completed"
  | runtime_turn_started _ _ _ => "runtime.turn_started"
  | runtime_message _ _ _ _ _ _ => "runtime.message"
  | runtime_model_output _ _ _ _ => "runtime.model_output"
  | runtime_provider_observation _ _ _ _ => "runtime.provider_observation"
  | runtime_compaction_proposed _ _ _ => "runtime.compaction_proposed"
  | runtime_cancelled _ _ _ => "runtime.cancelled"
  | runtime_tool_intent _ _ _ _ => "runtime.tool_intent"
  | runtime_tool_result _ _ _ _ => "runtime.tool_result"
  | runtime_turn_completed _ _ _ => "runtime.turn_completed"
  | runtime_failed _ _ _ => "runtime.failed"
  end.

(** [Omit<RuntimeRequest, "contextEnvelopeRef" | "workerResultRefs" |
    "executionLease" | "executionDeadlineAt">] *)
Record RuntimeInput := mkRuntimeInput {
  ri_thinkingLevel : option string; ri_continuationRef : option string; ri_ownerId : OwnerId;
  ri_agentId : AgentId; ri_runId : RunId; ri_sessionId : SessionId; ri_threadId : option ThreadId;
  ri_modelRef : string; ri_systemInstructionRef : string; ri_capabilityHandleRefs : list string;
  ri_budget : json; ri_correlationId : string; ri_dataClassification : DataClassification }.

Record RuntimeWorkerResultReference := mkResultReference { wf_workerRunId : string; wf_resultRef : string }.

(** A whole request.  The coordinator casts a context reference that may be [null]. *)
Record RuntimeRequest := mkRuntimeRequest {
  qr_runtime : RuntimeInput; qr_continuationRef : option string; qr_executionLease : RunExecutionLeaseClaim;
  qr_executionDeadlineAt : option string; qr_contextEnvelopeRef : option string;
  qr_workerResultRefs : list RuntimeWorkerResultReference }.

(** [run(request)] is an asynchronous iterable: [runtime_next request n] is the
    [n]-th call of its [next()], [None] when it is done, and [runtime_return]
    closes it early. *)
Class AgentRuntimePort (W : Type) := {
  runtime_next : RuntimeRequest → nat → M exn W (option RuntimeEvent);
  runtime_return : RuntimeRequest → nat → M exn W unit;
  runtime_cancel : RunId → M exn W unit;
}.

(** ** Checkpoints (ports/run-checkpoints.ts) *)
Inductive RunCheckpointPhase :=
  | phase_accepted | phase_context_formed | phase_workers_running | phase_runtime_running
  | phase_awaiting_approval | phase_runtime_settled | phase_reconciling_external_result
  | phase_completed | phase_failed | phase_cancelled.

#[global] Instance RunCheckpointPhase_eq_dec : EqDecision RunCheckpointPhase.
Proof. solve_decision. Defined.

Inductive CheckpointTerminalStatus := settled_completed | settled_failed | settled_cancelled.

#[global] Instance CheckpointTerminalStatus_eq_dec : EqDecision CheckpointTerminalStatus.
Proof. solve_decision. Defined.

Record RunSuspension := mkSuspension {
  su_continuationRef : string; su_approval : RuntimeApprovalWait; su_executionDeadlineAt : option string }.

Record RunCheckpoint := mkCheckpoint {
  rk_suspension : option RunSuspension; rk_phase : RunCheckpointPhase; rk_contextRef : option string;
  rk_workerResults : jsmap string; rk_runtimeEventCount : Z; rk_lastTraceEventId : option string;
  rk_terminalStatus : option CheckpointTerminalStatus; rk_output : option RuntimeSuccessfulOutput;
  rk_diagnosticCode : option string }.

#[global] Instance eta_RunCheckpoint : Eta RunCheckpoint := λ r,
  mkCheckpoint (rk_suspension r) (rk_phase r) (rk_contextRef r) (rk_workerResults r) (rk_runtimeEventCount r)
    (rk_lastTraceEventId r) (rk_terminalStatus r) (rk_output r) (rk_diagnosticCode r).

Record StoredRunCheckpoint := mkStoredCheckpoint {
  sk_runId : RunId; sk_revision : Z; sk_checkpoint : RunCheckpoint }.

Record CompareAndSetRunCheckpointInput := mkCheckpointCas {
  ck_runId : RunId; ck_expectedRevision : option Z; ck_checkpoint : RunCheckpoint;
  ck_executionLease : option RunExecutionLeaseClaim }.

Class RunCheckpointStore (W : Type) := {
  checkpoint_read : RunId → M exn W (option StoredRunCheckpoint);
  checkpoint_compareAndSet : CompareAndSetRunCheckpointInput → M exn W StoredRunCheckpoint;
}.

(** *** testing/src/in-memory/run-checkpoints.ts *)
Definition InMemoryRunCheckpointStore : Type := jsmap StoredRunCheckpoint.

#[export] Instance in_memory_checkpoints : RunCheckpointStore InMemoryRunCheckpointStore := {|
  checkpoint_read runId := gets (map_get runId);
  checkpoint_compareAndSet input := λ records,
    let current := map_get (ck_runId input) records in
    if (sk_revision <$> current) !== ck_expectedRevision input
    then (Err (portError CONFLICT "Run checkpoint revision conflict" []), records)
    else
      let record := mkStoredCheckpoint (ck_runId input) (default 0 (sk_revision <$> current) + 1)
        (ck_checkpoint input) in
      (Ok record, map_set (ck_runId input) record records);
|}.

(** ** Context formation (services/context-formation-service.ts) *)
Inductive ContextTriggerSource := context_user_message | context_schedule | context_external_event.
Inductive ContextMessageRole := role_user | role_assistant | role_system | role_tool.

(** The state of a message's Run (ports/context-projection.ts) is passed on as JSON. *)
Record ContextThreadMessage := mkContextMessage {
  cm_id : string; cm_role : ContextMessageRole; cm_payloadRef : string; cm_occurredAt : string;
  cm_sourceRef : option string; cm_dataClassification : option DataClassification;
  cm_relevanceScore : option Z; cm_sequence : option Z; cm_runState : option json }.

Record ContextPolicySummary := mkPolicySummary { ps_ref : string; ps_payloadRef : string }.

Record ContextCapabilitySummary := mkCapabilitySummary {
  cs_ref : string; cs_version : string; cs_summaryRef : string; cs_authorizationRef : option string }.

Record ContextTrigger := mkContextTrigger {
  ct_id : string; ct_sourceType : ContextTriggerSource; ct_payloadRef : string; ct_occurredAt : string }.

Record ContextFormationRequest := mkContextRequest {
  cf_executionLease : option RunExecutionLeaseClaim; cf_ownerId : OwnerId; cf_agentId : AgentId;
  cf_sessionId : SessionId; cf_threadId : option ThreadId; cf_runId : RunId; cf_trigger : ContextTrigger;
  cf_threadMessages : list ContextThreadMessage; cf_policies : list ContextPolicySummary;
  cf_answerLocalePolicy : option (ContextPolicySummary * string);
  cf_historyCandidates : option (list ContextThreadMessage); cf_sourceWatermark : option Z;
  cf_policyVersion : string; cf_maxThreadMessages : option Z; cf_memoryQueryRef : string;
  cf_memoryQueryTerms : list string; cf_memoryLimit : Z; cf_maxSelectedMemories : Z;
  cf_maxMemoryClassification : DataClassification; cf_capabilities : list ContextCapabilitySummary;
  cf_correlationId : string; cf_causationId : string; cf_parentEventId : option string; cf_actorId : string;
  cf_dataClassification : DataClassification }.

(** Of a formed context, what the coordinator reads. *)
Record FormedContext := mkFormedContext { fc_contextEnvelopeRef : string; fc_traceEventIds : list string }.

(** The request, the attempt whose abort signal goes with it, and the deadline. *)
Class ContextFormationPort (W : Type) :=
  context_form : ContextFormationRequest → nat → option string → M exn W FormedContext.

(** ** Traces (services/session-trace-recorder.ts) *)
Inductive TracePayload :=
  | trace_worker_request (request : WorkerRunRequest)
  | trace_worker_event (event : WorkerRunEvent)
  | trace_runtime_event (event : RuntimeEvent).

Record TraceScope := mkTraceScope {
  ts_ownerId : OwnerId; ts_agentId : AgentId; ts_sessionId : SessionId; ts_threadId : option ThreadId;
  ts_runId : RunId; ts_correlationId : string; ts_actorId : string; ts_dataClassification : DataClassification }.

Record RecordTraceInput := mkTraceInput {
  ti_scope : TraceScope; ti_parentEventId : option string; ti_causationId : option string;
  ti_eventType : string; ti_occurredAt : option string; ti_payload : TracePayload }.

(** [record] gives the identifier of the event it wrote. *)
Class SessionTraceRecorder (W : Type) := trace_record : RecordTraceInput → M exn W string.

(** ** Runs (ports/run-lifecycle.ts) *)
Record RunTransitionReceipt := mkReceipt { rp_commandResult : CommandResultRecord; rp_replayed : bool }.

(** The inputs of [transitionRun], [cancelRun] and [completeRun]; an execution
    names its lease, an explicit cancellation has none. *)
Class RunLifecyclePort (W : Type) := {
  runs_readRun : RunId → M exn W (option StoredRun);
  runs_transitionRun : TransitionRunStateInput → option RunExecutionLeaseClaim → M exn W RunTransitionReceipt;
  runs_cancelRun : RunCommandContext → RunId → Z → M exn W RunTransitionReceipt;
  runs_completeRun : RunCompletionInput → option RunExecutionLeaseClaim → M exn W RunTransitionReceipt;
}.
