(* ===== verification/HostWorkspaceState.v ===== *)
(** packages/application/src/services/durable-host-workspace-state-adapter.ts:
    the class [DurableHostWorkspaceStateAdapter], as far as it implements
    [WorkspaceStatePort]: one record of the state store per snapshot, preview
    and operation; and the proof that it keeps the port's contract. *)
From S2P Require Import Prelude Js JsJson JsParse Identifiers Contract AuthTypes Deterministic.
From S2P Require Import InMemoryAuth Persistence DurableEntities WorkspaceService CommitGate.
From S2P Require Import CommitRuns WorkspaceRuns.
Local Open Scope Z_scope.

(** ** Values as JSON *)
Definition file_state_name (s : FileState) : string :=
  match s with
  | file_clean => "clean" | file_staged => "staged" | file_unstaged => "unstaged"
  | file_staged_and_unstaged => "staged_and_unstaged" | file_untracked => "untracked"
  end.
Definition parse_file_state (s : string) : option FileState :=
  List.find (λ c, String.eqb s (file_state_name c))
    [file_clean; file_staged; file_unstaged; file_staged_and_unstaged; file_untracked].

Definition file_owner_name (o : FileOwner) : string :=
  match o with owner_owner => "owner" | task_owner => "task" | concurrent_unowned => "concurrent_unowned" end.
Definition parse_file_owner (s : string) : option FileOwner :=
  List.find (λ c, String.eqb s (file_owner_name c)) [owner_owner; task_owner; concurrent_unowned].

Definition repository_kind_name (k : RepositoryKind) : string :=
  match k with git_repository => "git" | non_git_repository => "non_git" end.
Definition parse_repository_kind (s : string) : option RepositoryKind :=
  List.find (λ c, String.eqb s (repository_kind_name c)) [git_repository; non_git_repository].

Definition preview_status_name (s : PreviewStatus) : string :=
  match s with
  | preview_prepared => "prepared" | preview_committing => "committing"
  | preview_confirmed_succeeded => "confirmed_succeeded" | preview_unknown => "unknown"
  | preview_invalidated => "invalidated"
  end.
Definition parse_preview_status (s : string) : option PreviewStatus :=
  List.find (λ c, String.eqb s (preview_status_name c))
    [preview_prepared; preview_committing; preview_confirmed_succeeded; preview_unknown; preview_invalidated].

Lemma parse_file_state_name s : named parse_file_state (JStr (file_state_name s)) = Some s.
Proof. by destruct s. Qed.
Lemma parse_file_owner_name o : named parse_file_owner (JStr (file_owner_name o)) = Some o.
Proof. by destruct o. Qed.
Lemma parse_repository_kind_name k : named parse_repository_kind (JStr (repository_kind_name k)) = Some k.
Proof. by destruct k. Qed.
Lemma parse_preview_status_name s : named parse_preview_status (JStr (preview_status_name s)) = Some s.
Proof. by destruct s. Qed.
#[export] Hint Rewrite parse_file_state_name parse_file_owner_name parse_repository_kind_name
  parse_preview_status_name : codec.

Definition task_write_json (t : TaskWrite) : json :=
  JObj [("path", JStr (wc_path (tw_write t))); ("beforeDigest", JOptStr (wc_beforeDigest (tw_write t)));
        ("afterDigest", JOptStr (wc_afterDigest (tw_write t))); ("beforeSnapshotId", JStr (tw_beforeSnapshotId t))].

Definition task_write_of_json (j : json) : option TaskWrite :=
  o ← as_object j;
  path ← read as_str o "path";
  beforeDigest ← read (or_null as_str) o "beforeDigest";
  afterDigest ← read (or_null as_str) o "afterDigest";
  beforeSnapshotId ← read as_str o "beforeSnapshotId";
  Some (mkTaskWrite (mkWrite path beforeDigest afterDigest) beforeSnapshotId).

Definition observation_json (f : WorkspaceFileObservation) : json :=
  JObj ([("path", JStr (fo_path f)); ("indexDigest", JOptStr (fo_indexDigest f));
         ("worktreeDigest", JOptStr (fo_worktreeDigest f)); ("state", JStr (file_state_name (fo_state f)));
         ("owner", JStr (file_owner_name (fo_owner f))); ("hunkFingerprints", JStrs (fo_hunkFingerprints f))]
        ++ match fo_taskWrite f with Some t => [("taskWrite", task_write_json t)] | None => [] end).

Definition observation_of_json (j : json) : option WorkspaceFileObservation :=
  o ← as_object j;
  path ← read as_str o "path";
  indexDigest ← read (or_null as_str) o "indexDigest";
  worktreeDigest ← read (or_null as_str) o "worktreeDigest";
  state ← read (named parse_file_state) o "state";
  owner ← read (named parse_file_owner) o "owner";
  hunkFingerprints ← read as_strs o "hunkFingerprints";
  taskWrite ← read_optional task_write_of_json o "taskWrite";
  Some (mkObservation path indexDigest worktreeDigest state owner hunkFingerprints taskWrite).

Lemma task_write_codec t : task_write_of_json (task_write_json t) = Some t.
Proof. destruct t as [[]]. unfold task_write_of_json, task_write_json. repeat (cbn; autorewrite with codec). done. Qed.

Lemma observation_codec f : observation_of_json (observation_json f) = Some f.
Proof.
  destruct f as [p i w st ow h [t|]]; unfold observation_of_json, observation_json;
    repeat (cbn -[task_write_json task_write_of_json]; autorewrite with codec); [|done].
  unfold read_optional. cbn -[task_write_json task_write_of_json]. by rewrite task_write_codec.
Qed.

Definition observations_of_json : json → option (list WorkspaceFileObservation) := as_values observation_of_json.

Definition snapshot_object (s : WorkspaceSnapshot) : JsonObject :=
  let o := ws_observed s in
  [("id", JStr (ws_id s)); ("revision", JNum (ws_revision s)); ("workspaceId", JStr (ow_workspaceId o));
   ("hostId", JStr (ow_hostId o)); ("rootIdentity", JStr (ow_rootIdentity o));
   ("repositoryKind", JStr (repository_kind_name (ow_repositoryKind o))); ("branch", JOptStr (ow_branch o));
   ("head", JOptStr (ow_head o)); ("upstreamObservation", JOptStr (ow_upstreamObservation o));
   ("detached", JBool (ow_detached o)); ("unborn", JBool (ow_unborn o));
   ("files", JArr (observation_json <$> ow_files o)); ("submoduleRefs", JStrs (ow_submoduleRefs o));
   ("worktreeRefs", JStrs (ow_worktreeRefs o)); ("nestedRepositoryRefs", JStrs (ow_nestedRepositoryRefs o));
   ("taskChangeSetRevision", JNum (ws_taskChangeSetRevision s)); ("capturedAt", JStr (ws_capturedAt s))].

Definition snapshot_of_object (o : JsonObject) : option WorkspaceSnapshot :=
  id ← read as_str o "id";
  revision ← read as_num o "revision";
  workspaceId ← read as_str o "workspaceId";
  hostId ← read as_str o "hostId";
  rootIdentity ← read as_str o "rootIdentity";
  repositoryKind ← read (named parse_repository_kind) o "repositoryKind";
  branch ← read (or_null as_str) o "branch";
  head ← read (or_null as_str) o "head";
  upstreamObservation ← read (or_null as_str) o "upstreamObservation";
  detached ← read as_bool o "detached";
  unborn ← read as_bool o "unborn";
  files ← read observations_of_json o "files";
  submoduleRefs ← read as_strs o "submoduleRefs";
  worktreeRefs ← read as_strs o "worktreeRefs";
  nestedRepositoryRefs ← read as_strs o "nestedRepositoryRefs";
  taskChangeSetRevision ← read as_num o "taskChangeSetRevision";
  capturedAt ← read as_str o "capturedAt";
  Some (mkSnapshot id revision
    (mkObserved workspaceId hostId rootIdentity repositoryKind branch head upstreamObservation detached unborn
       files submoduleRefs worktreeRefs nestedRepositoryRefs)
    taskChangeSetRevision capturedAt).

Definition preview_object (p : CommitPreview) : JsonObject :=
  let b := cp_basis p in
  let s := cb_state b in
  [("id", JStr (cp_id p)); ("revision", JNum (cp_revision p)); ("branch", JOptStr (ct_branch s));
   ("head", JStr (ct_head s)); ("indexTree", JStr (ct_indexTree s));
   ("ownerIndexDigest", JStr (ct_ownerIndexDigest s)); ("stagedDiffRef", JStr (ct_stagedDiffRef s));
   ("stagedDiffDigest", JStr (ct_stagedDiffDigest s)); ("stagedFiles", JStrs (ct_stagedFiles s));
   ("remainingDirtyRefs", JStrs (ct_remainingDirtyRefs s)); ("hooksDigest", JStr (ct_hooksDigest s));
   ("configurationDigest", JStr (ct_configurationDigest s)); ("workspaceId", JStr (cb_workspaceId b));
   ("stagingRef", JStr (cb_stagingRef b)); ("taskChangeSetRevision", JNum (cb_taskChangeSetRevision b));
   ("validationResultRefs", JStrs (cb_validationResultRefs b)); ("message", JStr (cb_message b));
   ("expiresAt", JStr (cb_expiresAt b)); ("canonicalHash", JStr (cp_canonicalHash p));
   ("status", JStr (preview_status_name (cp_status p)))].

Definition preview_of_object (o : JsonObject) : option CommitPreview :=
  id ← read as_str o "id";
  revision ← read as_num o "revision";
  branch ← read (or_null as_str) o "branch";
  head ← read as_str o "head";
  indexTree ← read as_str o "indexTree";
  ownerIndexDigest ← read as_str o "ownerIndexDigest";
  stagedDiffRef ← read as_str o "stagedDiffRef";
  stagedDiffDigest ← read as_str o "stagedDiffDigest";
  stagedFiles ← read as_strs o "stagedFiles";
  remainingDirtyRefs ← read as_strs o "remainingDirtyRefs";
  hooksDigest ← read as_str o "hooksDigest";
  configurationDigest ← read as_str o "configurationDigest";
  workspaceId ← read as_str o "workspaceId";
  stagingRef ← read as_str o "stagingRef";
  taskChangeSetRevision ← read as_num o "taskChangeSetRevision";
  validationResultRefs ← read as_strs o "validationResultRefs";
  message ← read as_str o "message";
  expiresAt ← read as_str o "expiresAt";
  canonicalHash ← read as_str o "canonicalHash";
  status ← read (named parse_preview_status) o "status";
  Some (mkPreview id revision
    (mkBasis
       (mkCommitState branch head indexTree ownerIndexDigest stagedDiffRef stagedDiffDigest stagedFiles
          remainingDirtyRefs hooksDigest configurationDigest)
       workspaceId stagingRef taskChangeSetRevision validationResultRefs message expiresAt)
    canonicalHash status).

Definition operation_object (o : CommitOperation) : JsonObject :=
  [("previewId", JStr (op_previewId o)); ("resultRef", JOptStr (op_resultRef o))].

Definition operation_of_object (o : JsonObject) : option CommitOperation :=
  previewId ← read as_str o "previewId";
  resultRef ← read (or_null as_str) o "resultRef";
  Some (mkOperation previewId resultRef).

Lemma snapshot_codec s : snapshot_of_object (snapshot_object s) = Some s.
Proof.
  destruct s as [? ? [] ? ?]. unfold snapshot_of_object, snapshot_object, observations_of_json.
  repeat (cbn; autorewrite with codec; rewrite ?as_values_list by apply observation_codec). done.
Qed.

Lemma preview_codec p : preview_of_object (preview_object p) = Some p.
Proof.
  destruct p as [? ? [[]] ? ?]. unfold preview_of_object, preview_object. repeat (cbn; autorewrite with codec). done.
Qed.

Lemma operation_codec o : operation_of_object (operation_object o) = Some o.
Proof. destruct o. unfold operation_of_object, operation_object. repeat (cbn; autorewrite with codec). done. Qed.

(** ** The adapter *)
Definition record_key (kind id : string) : string := "host-workspace:" +:+ kind +:+ ":" +:+ id.

Arguments record_key : simpl never.

Definition unsafe_id : exn := portError INVALID_OPERATION "Host/workspace record ID is unsafe" [].

Definition hw_key (kind id : string) : result exn string :=
  if MACHINE_IDENTIFIER_PATTERN id then Ok (record_key kind id) else Err unsafe_id.

(** A stored value that is no record of the kind is outside the model: here it throws. *)
Definition decoded {A} (decode : JsonObject → option A) (value : JsonObject) : result exn A :=
  match decode value with Some a => Ok a | None => Err (OtherError "TypeError" "not a record of this kind") end.

Section adapter.
Context {W : Type} `{!StateStorePort W}.

Definition hw_save {A} (kind id : string) (object : JsonObject) (value : A) (expectedRevision : option Z) : M exn W A :=
  key ← lift (hw_key kind id);
  compareAndSet (mkCas key expectedRevision object) ;;
  mret value.

Definition hw_read {A} (kind id : string) (decode : JsonObject → option A) : M exn W (option A) :=
  key ← lift (hw_key kind id);
  record ← store_read key;
  match record with
  | None => mret None
  | Some record => value ← lift (decoded decode (sr_value record)); mret (Some value)
  end.

Definition hw_createCommitOperation (operationId previewId : string) : M exn W AdmittedOperation :=
  stateKey ← lift (hw_key "commit-operation" operationId);
  current ← store_read stateKey;
  match current with
  | Some current =>
      value ← lift (decoded operation_of_object (sr_value current));
      throwM_if (op_previewId value !== previewId) (portError CONFLICT "Commit operation identity collision" []) ;;
      mret (mkAdmitted true (op_resultRef value))
  | None =>
      compareAndSet (mkCas stateKey None (operation_object (mkOperation previewId None))) ;;
      mret (mkAdmitted false None)
  end.

Definition hw_finishCommitOperation (operationId resultRef : string) : M exn W unit :=
  stateKey ← lift (hw_key "commit-operation" operationId);
  current ← store_read stateKey;
  match current with
  | None => throw (portError NOT_FOUND "Commit operation missing" [])
  | Some current =>
      value ← lift (decoded operation_of_object (sr_value current));
      match op_resultRef value with
      | Some stored =>
          throwM_if (stored !== resultRef) (portError CONFLICT "Commit operation result cannot change" [])
      | None =>
          compareAndSet (mkCas stateKey (Some (sr_revision current))
            (operation_object (mkOperation (op_previewId value) (Some resultRef)))) ;;
          mret tt
      end
  end.

#[export] Instance DurableHostWorkspaceStateAdapter : WorkspaceStatePort W := {|
  saveSnapshot s := hw_save "workspace-snapshot" (ws_id s) (snapshot_object s) s None;
  readSnapshot id := hw_read "workspace-snapshot" id snapshot_of_object;
  saveCommitPreview p e := hw_save "commit-preview" (cp_id p) (preview_object p) p e;
  readCommitPreview id := hw_read "commit-preview" id preview_of_object;
  readCommitOperation id := hw_read "commit-operation" id operation_of_object;
  createCommitOperation := hw_createCommitOperation;
  finishCommitOperation := hw_finishCommitOperation;
|}.
End adapter.

(** ** The records of a kind, as a table *)
Lemma strip_Some p s r : strip p s = Some r ↔ s = p +:+ r.
Proof.
  split; [|intros ->; apply strip_app]. revert s. induction p as [|a p IH]; intros s; [by intros [= <-]|].
  destruct s as [|b s]; [done|]. cbn. destruct (Ascii.eqb_spec a b) as [->|]; [|done].
  rewrite append_String. intros H. by rewrite (IH _ H).
Qed.

Section collect.
Context {A : Type} (kind : string) (decode : JsonObject → option A).

Definition collect_entry (e : string * StateRecord) : option (string * A) :=
  match strip (record_key kind "") e.1, decode (sr_value e.2) with
  | Some id, Some a => Some (id, a)
  | _, _ => None
  end.

Definition collect (s : store_state) : gmap string A := list_to_map (omap collect_entry (map_to_list s)).

Lemma collect_entry_Some k r id a :
  collect_entry (k, r) = Some (id, a) ↔ k = record_key kind id ∧ decode (sr_value r) = Some a.
Proof.
  unfold collect_entry. cbn. assert (record_key kind id = record_key kind "" +:+ id) as ->.
  { unfold record_key. by rewrite !append_assoc. }
  rewrite <-strip_Some. destruct (strip _ k), (decode _); naive_solver.
Qed.

Lemma collect_lookup s id : collect s !! id = s !! record_key kind id ≫= λ r, decode (sr_value r).
Proof.
  unfold collect. destruct (s !! record_key kind id ≫= _) as [a|] eqn:E.
  - apply bind_Some in E as (r & Hr & Ha). apply elem_of_list_to_map_1'.
    + intros b ([k r'] & Hin & Hb)%list_elem_of_omap. apply collect_entry_Some in Hb as [-> Hb].
      apply elem_of_map_to_list in Hin. congruence.
    + apply list_elem_of_omap. exists (record_key kind id, r). split; [by apply elem_of_map_to_list|].
      by apply collect_entry_Some.
  - apply not_elem_of_list_to_map_1. intros ([id' a] & Hid & Hin)%list_elem_of_fmap. cbn in Hid. subst id'.
    apply list_elem_of_omap in Hin as ([k r] & Hin & Ha). apply collect_entry_Some in Ha as [-> Ha].
    apply elem_of_map_to_list in Hin. rewrite Hin in E. cbn in E. congruence.
Qed.

Lemma record_key_inj id id' : record_key kind id = record_key kind id' → id = id'.
Proof. unfold record_key. intros H. by do 3 apply append_cancel_l in H. Qed.

Lemma collect_write s id r a : decode (sr_value r) = Some a →
  collect (<[record_key kind id := r]> s) = <[id := a]> (collect s).
Proof.
  intros Ha. apply map_eq. intros k. rewrite collect_lookup. destruct (decide (id = k)) as [<-|Hk].
  - rewrite !lookup_insert_eq. done.
  - rewrite !lookup_insert_ne by (done || (intros H; by apply record_key_inj in H)). symmetry. apply collect_lookup.
Qed.

Lemma collect_other s k r : (∀ id, record_key kind id ≠ k) → collect (<[k := r]> s) = collect s.
Proof.
  intros Hk. apply map_eq. intros id. rewrite !collect_lookup. by rewrite lookup_insert_ne by apply not_eq_sym, Hk.
Qed.
End collect.

(** The kinds are told apart by their keys. *)
Lemma snapshot_key_ne id id' : record_key "workspace-snapshot" id ≠ record_key "commit-preview" id' ∧
  record_key "workspace-snapshot" id ≠ record_key "commit-operation" id'.
Proof. split; intros [=]. Qed.
Lemma preview_key_ne id id' : record_key "commit-preview" id ≠ record_key "workspace-snapshot" id' ∧
  record_key "commit-preview" id ≠ record_key "commit-operation" id'.
Proof. split; intros [=]. Qed.
Lemma operation_key_ne id id' : record_key "commit-operation" id ≠ record_key "workspace-snapshot" id' ∧
  record_key "commit-operation" id ≠ record_key "commit-preview" id'.
Proof. split; intros [=]. Qed.

Section refinement.
Context {digest : HostFileDigestPort}.

Definition gview (s : store_state) : gate_state :=
  mkGate (collect "workspace-snapshot" snapshot_of_object s) (collect "commit-preview" preview_of_object s)
    (collect "commit-operation" operation_of_object s).

Lemma gview_snapshot s r x : sr_value r = snapshot_object x →
  gview (<[record_key "workspace-snapshot" (ws_id x) := r]> s) = put_snapshot x (gview s).
Proof.
  intros Hr. unfold gview, put_snapshot. cbn. f_equal.
  - apply collect_write. by rewrite Hr, snapshot_codec.
  - apply collect_other. intros id. apply not_eq_sym, snapshot_key_ne.
  - apply collect_other. intros id. apply not_eq_sym, snapshot_key_ne.
Qed.

Lemma gview_preview s r p : sr_value r = preview_object p →
  gview (<[record_key "commit-preview" (cp_id p) := r]> s) = put_preview p (gview s).
Proof.
  intros Hr. unfold gview, put_preview. cbn. f_equal.
  - apply collect_other. intros id. apply not_eq_sym, preview_key_ne.
  - apply collect_write. by rewrite Hr, preview_codec.
  - apply collect_other. intros id. apply not_eq_sym, preview_key_ne.
Qed.

Lemma gview_operation s r id o : sr_value r = operation_object o →
  gview (<[record_key "commit-operation" id := r]> s) = put_operation id o (gview s).
Proof.
  intros Hr. unfold gview, put_operation. cbn. f_equal.
  - apply collect_other. intros k. apply not_eq_sym, operation_key_ne.
  - apply collect_other. intros k. apply not_eq_sym, operation_key_ne.
  - apply collect_write. by rewrite Hr, operation_codec.
Qed.

(** *** Well-formed stores: values can be read, and revisions agree *)
Record store_ok (s : store_state) : Prop := mk_store_ok {
  so_wf : gate_wf (gview s);
  so_snapshot : ∀ id r, s !! record_key "workspace-snapshot" id = Some r → is_Some (snapshot_of_object (sr_value r));
  so_preview : ∀ id r, s !! record_key "commit-preview" id = Some r →
    ∃ p, preview_of_object (sr_value r) = Some p ∧ cp_revision p = sr_revision r;
  so_operation : ∀ id r, s !! record_key "commit-operation" id = Some r → is_Some (operation_of_object (sr_value r));
}.

(** What the other users of the store do: they keep it so, and move its tables
    by the steps of the contract. *)
Definition host_step (s s' : store_state) : Prop :=
  (∃ input r, store_cas input r s s') ∧ rtc gate_step (gview s) (gview s') ∧ (store_ok s → store_ok s').

Lemma host_steps s s' : rtc host_step s s' → rtc gate_step (gview s) (gview s') ∧ (store_ok s → store_ok s').
Proof.
  induction 1 as [|s s1 s2 (_ & Hg & Hok) _ [IH1 IH2]]; [done|]. split; [by etrans|auto].
Qed.

Lemma host_step_cas s s' : host_step s s' → ∃ input r, store_cas input r s s'.
Proof. by intros [? _]. Qed.

(** *** One write keeps the store well-formed *)
Lemma preview_revision s id : store_ok s →
  cp_revision <$> gs_previews (gview s) !! id = sr_revision <$> s !! record_key "commit-preview" id.
Proof.
  intros Hok. cbn. rewrite collect_lookup. destruct (s !! _) as [r|] eqn:Hr; [|done].
  destruct (so_preview _ Hok _ _ Hr) as (p & Hp & Hrev). cbn. rewrite Hp. cbn. by rewrite Hrev.
Qed.

Lemma snapshot_absent s id : store_ok s → s !! record_key "workspace-snapshot" id = None →
  gs_snapshots (gview s) !! id = None.
Proof. intros _ H. cbn. by rewrite collect_lookup, H. Qed.

Lemma write_snapshot s r x : store_ok s → sr_value r = snapshot_object x → snapshot_attested x →
  store_ok (<[record_key "workspace-snapshot" (ws_id x) := r]> s).
Proof.
  intros [] Hr Ha. split.
  - rewrite (gview_snapshot _ _ _ Hr). destruct so_wf0. split; [|done..]. intros k y. cbn.
    intros [[<- <-]|[_ Hk]]%lookup_insert_Some; [done|auto].
  - intros id r'. cbn. intros [[_ <-]|[_ Hk]]%lookup_insert_Some; [|eauto]. rewrite Hr, snapshot_codec. by eexists.
  - intros id r'. rewrite lookup_insert_ne by apply snapshot_key_ne. by eauto.
  - intros id r'. rewrite lookup_insert_ne by apply snapshot_key_ne. by eauto.
Qed.

Lemma write_preview s r p : store_ok s → sr_value r = preview_object p → sr_revision r = cp_revision p →
  hash_ok p → 1 ≤ cp_revision p → store_ok (<[record_key "commit-preview" (cp_id p) := r]> s).
Proof.
  intros [] Hr Hrev Hh H1. split.
  - rewrite (gview_preview _ _ _ Hr). by apply put_preview_wf.
  - intros id r'. rewrite lookup_insert_ne by apply preview_key_ne. by eauto.
  - intros id r'. cbn. intros [[_ <-]|[_ Hk]]%lookup_insert_Some; [|eauto]. exists p. by rewrite Hr, preview_codec.
  - intros id r'. rewrite lookup_insert_ne by apply preview_key_ne. by eauto.
Qed.

Lemma write_operation s r id o : store_ok s → sr_value r = operation_object o →
  (∀ ref, op_resultRef o = Some ref → ∃ result, ref = stringify (commit_result_json result)) →
  store_ok (<[record_key "commit-operation" id := r]> s).
Proof.
  intros [] Hr Ho. split.
  - rewrite (gview_operation _ _ _ _ Hr). destruct so_wf0. split; [done..|]. intros k o' ref. cbn.
    intros [[<- <-]|[_ Hk]]%lookup_insert_Some; [apply Ho|eauto].
  - intros k r'. rewrite lookup_insert_ne by apply operation_key_ne. by eauto.
  - intros k r'. rewrite lookup_insert_ne by apply operation_key_ne. by eauto.
  - intros k r'. cbn. intros [[_ <-]|[_ Hk]]%lookup_insert_Some; [|eauto]. rewrite Hr, operation_codec. by eexists.
Qed.

(** *** The laws *)
Section laws.
Context {W : Type} `{!StateStorePort W} (sview : W → store_state) (sinv : W → Prop)
  `{!StateStoreLaws W host_step sview sinv}.

Definition hview (w : W) : gate_state := gview (sview w).
Definition hinv (w : W) : Prop := sinv w ∧ store_ok (sview w).
Abbreviation hlaw effect := (gen_op_law gate_step hview hinv effect) (only parsing).

(** A failure, after others acted on the store. *)
Lemma host_Err w w' : sinv w' → store_ok (sview w) → rtc host_step (sview w) (sview w') →
  hinv w' ∧ ∃ g, rtc gate_step (hview w) g ∧ hview w' = g.
Proof.
  intros Hi Hok Hs. destruct (host_steps _ _ Hs) as [Hg Hok']. split; [split; [done|auto]|]. by exists (hview w').
Qed.

Lemma store_read_spec key w r w' : hinv w → store_read key w = (r, w') →
  hinv w' ∧ rtc host_step (sview w) (sview w') ∧ ∀ o, r = Ok o → o = sview w' !! key.
Proof.
  intros [Hi Hok] H. destruct (law_store_read _ _ _ _ Hi H) as (Hi' & s & Hs & He).
  destruct (host_steps _ _ Hs) as [_ Hok']. destruct r as [o|x].
  - destruct He as [-> Hv]. rewrite <-Hv in *. split; [split; [done|auto]|]. split; [done|]. by intros ? [= <-].
  - rewrite <-He in *. split; [split; [done|auto]|]. done.
Qed.

Lemma compareAndSet_spec input w r w' : hinv w → compareAndSet input w = (r, w') →
  sinv w' ∧ ∃ s, rtc host_step (sview w) s ∧ store_ok s ∧
    match r with
    | Ok rec => sr_revision <$> s !! cs_key input = cs_expectedRevision input ∧
        sr_revision rec = default 0 (cs_expectedRevision input) + 1 ∧ sr_value rec = cs_value input ∧
        sview w' = <[cs_key input := rec]> s
    | Err _ => sview w' = s
    end.
Proof.
  intros [Hi Hok] H. destruct (law_store_cas _ _ _ _ Hi H) as (Hi' & s & Hs & He). split; [done|].
  exists s. split; [done|]. split; [by apply (host_steps _ _ Hs)|]. destruct r as [rec|]; [|done].
  destruct He as (Hr & -> & Hv). rewrite <-Hr. done.
Qed.

Lemma hw_read_law {A} kind (decode : JsonObject → option A) (get : gate_state → gmap string A) id :
  (∀ s, get (gview s) = collect kind decode s) →
  (∀ s id r, store_ok s → s !! record_key kind id = Some r → is_Some (decode (sr_value r))) →
  hlaw (gen_reads (λ o g, o = get g !! id)) (hw_read kind id decode).
Proof.
  intros Hget Hdec w r w' Hw H. pose proof Hw as [Hi Hok]. unfold hw_read, hw_key, lift, mbind, M_bind in H.
  destruct (MACHINE_IDENTIFIER_PATTERN id); [|injection H as <- <-; by apply host_Err].
  destruct (store_read _ w) as [q w1] eqn:E. destruct (store_read_spec _ _ _ _ Hw E) as ([Hi1 Hok1] & Hs & Ho).
  destruct q as [o|x]; [|injection H as <- <-; by apply host_Err]. specialize (Ho _ eq_refl).
  assert (Hread : get (hview w1) !! id = o ≫= λ r, decode (sr_value r)).
  { unfold hview. rewrite Hget, collect_lookup, Ho. done. }
  destruct o as [rec|].
  - destruct (Hdec _ _ _ Hok1 (eq_sym Ho)) as [a Ha]. unfold decoded in H. rewrite Ha in H. injection H as <- <-.
    split; [done|]. exists (hview w1). split; [by apply host_steps|]. split; [|done]. rewrite Hread. cbn. by rewrite Ha.
  - injection H as <- <-. split; [done|]. exists (hview w1). split; [by apply host_steps|]. by split.
Qed.

Lemma hw_save_law {A} kind id object (value : A) e (effect : A → gate_state → gate_state → Prop) :
  (∀ s r, store_ok s → sr_revision <$> s !! record_key kind id = e → sr_revision r = default 0 e + 1 →
     sr_value r = object → store_ok (<[record_key kind id := r]> s) ∧
     effect value (gview s) (gview (<[record_key kind id := r]> s))) →
  hlaw effect (hw_save kind id object value e).
Proof.
  intros Hw w r w' Hi H. pose proof Hi as [Hsi Hok]. unfold hw_save, hw_key, lift, mbind, M_bind in H.
  destruct (MACHINE_IDENTIFIER_PATTERN id); [|injection H as <- <-; by apply host_Err].
  destruct (compareAndSet _ w) as [q w1] eqn:E. destruct (compareAndSet_spec _ _ _ _ Hi E) as (Hi1 & s & Hs & Hoks & He).
  destruct q as [rec|x]; injection H as <- <-; [|rewrite <-He in Hs; by apply host_Err].
  cbn in He. destruct He as (Hrev & Hrev' & Hval & Hv). destruct (Hw s rec Hoks Hrev Hrev' Hval) as [Hok' Heff].
  rewrite <-Hv in *. split; [done|]. exists (gview s). split; [by apply host_steps|done].
Qed.
Lemma snapshot_law x : snapshot_attested x → hlaw (snapshot_effect x) (saveSnapshot x).
Proof.
  intros Ha. apply hw_save_law. intros s r Hok Hrev _ Hr. split; [by apply write_snapshot|].
  rewrite (gview_snapshot _ _ _ Hr). split; [|done]. apply snapshot_absent; [done|]. by destruct (s !! _).
Qed.

Lemma preview_law p e : cp_revision p = default 0 e + 1 → hash_ok p → 1 ≤ cp_revision p →
  hlaw (preview_effect p e) (saveCommitPreview p e).
Proof.
  intros Hrev Hh H1. apply hw_save_law. intros s r Hok Hs Hr Hv.
  split; [apply write_preview; [done..|congruence|done|done]|].
  rewrite (gview_preview _ _ _ Hv). split; [|done]. by rewrite preview_revision.
Qed.

(** A stored operation, read from its record. *)
Lemma operation_read s id rec : store_ok s → s !! record_key "commit-operation" id = Some rec →
  ∃ o, operation_of_object (sr_value rec) = Some o ∧ gs_operations (gview s) !! id = Some o.
Proof.
  intros Hok Hr. destruct (so_operation _ Hok _ _ Hr) as [o Ho]. exists o. split; [done|]. cbn.
  by rewrite collect_lookup, Hr.
Qed.

Lemma create_operation_law id previewId :
  hlaw (create_operation_effect id previewId) (createCommitOperation id previewId).
Proof.
  intros w r w' Hi H. pose proof Hi as [Hsi Hok]. cbn in H.
  unfold hw_createCommitOperation, hw_key, throwM_if, lift, throw_if, mbind, M_bind in H.
  destruct (MACHINE_IDENTIFIER_PATTERN id); [|injection H as <- <-; by apply host_Err].
  destruct (store_read _ w) as [q w1] eqn:E1. destruct (store_read_spec _ _ _ _ Hi E1) as (Hi1 & Hs1 & Ho).
  pose proof Hi1 as [Hsi1 Hok1]. destruct q as [o|x]; [|injection H as <- <-; by apply host_Err].
  specialize (Ho _ eq_refl). destruct o as [rec|].
  - destruct (operation_read _ _ _ Hok1 (eq_sym Ho)) as (o & Hdec & Hop). unfold decoded in H. rewrite Hdec in H.
    destruct (op_previewId o !== previewId) eqn:Ep; injection H as <- <-; [by apply host_Err|]. guards_in Ep.
    split; [done|]. exists (hview w1). split; [by apply host_steps|]. unfold create_operation_effect, hview.
    by rewrite Hop.
  - destruct (compareAndSet _ w1) as [c w2] eqn:E2. destruct (compareAndSet_spec _ _ _ _ Hi1 E2) as (Hi2 & s & Hs & Hoks & He).
    assert (rtc host_step (sview w) s) as Hws by (etrans; [exact Hs1|exact Hs]).
    destruct c as [rec|x]; injection H as <- <-; [|rewrite <-He in Hws; by apply host_Err].
    cbn in He. destruct He as (Hrev & _ & Hval & Hv). split.
    + split; [done|]. rewrite Hv. by eapply write_operation.
    + exists (gview s). split; [by apply host_steps|]. unfold create_operation_effect, hview.
      rewrite Hv, (gview_operation _ _ _ _ Hval). cbn. rewrite collect_lookup. by destruct (s !! _).
Qed.

Lemma finish_operation_law id result :
  hlaw (finish_operation_effect id (stringify (commit_result_json result)))
    (finishCommitOperation id (stringify (commit_result_json result))).
Proof.
  remember (stringify (commit_result_json result)) as ref eqn:Href. intros w r w' Hi H. pose proof Hi as [Hsi Hok]. cbn in H.
  unfold hw_finishCommitOperation, hw_key, throwM_if, lift, throw_if, mbind, M_bind in H.
  destruct (MACHINE_IDENTIFIER_PATTERN id); [|injection H as <- <-; by apply host_Err].
  destruct (store_read _ w) as [q w1] eqn:E1. destruct (store_read_spec _ _ _ _ Hi E1) as (Hi1 & Hs1 & Ho).
  pose proof Hi1 as [Hsi1 Hok1]. destruct q as [o|x]; [|injection H as <- <-; by apply host_Err].
  specialize (Ho _ eq_refl). destruct o as [rec|]; [|injection H as <- <-; by apply host_Err].
  symmetry in Ho. destruct (operation_read _ _ _ Hok1 Ho) as (o & Hdec & Hop). unfold decoded in H. rewrite Hdec in H.
  destruct (op_resultRef o) as [stored|] eqn:Eref.
  { destruct (stored !== ref) eqn:Es; injection H as <- <-; [by apply host_Err|]. guards_in Es.
    split; [done|]. exists (hview w1). split; [by apply host_steps|]. exists o. by rewrite Eref. }
  destruct (compareAndSet _ w1) as [c w2] eqn:E2. destruct (compareAndSet_spec _ _ _ _ Hi1 E2) as (Hi2 & s & Hs & Hoks & He).
  assert (rtc host_step (sview w) s) as Hws by (etrans; [exact Hs1|exact Hs]).
  destruct c as [rec'|x]; injection H as <- <-; [|rewrite <-He in Hws; by apply host_Err].
  cbn in He. destruct He as (Hrev & _ & Hval & Hv).
  assert (s !! record_key "commit-operation" id = Some rec) as Hsame.
  { rewrite <-Ho. apply (record_same _ host_step_cas _ _ _ Hs). by rewrite Hrev, Ho. }
  destruct (operation_read _ _ _ Hoks Hsame) as (o' & Hdec' & Hop'). assert (o' = o) as -> by congruence. split.
  - split; [done|]. rewrite Hv. eapply write_operation; [done|exact Hval|]. intros ? [= <-]. by exists result.
  - exists (gview s). split; [by apply host_steps|]. exists o. split; [done|]. rewrite Eref. unfold hview.
    by rewrite Hv, (gview_operation _ _ _ _ Hval).
Qed.

Lemma host_workspace_laws : WorkspaceStateLaws W hview hinv.
Proof.
  constructor.
  - intros w [_ Hok]. apply (so_wf _ Hok).
  - apply snapshot_law.
  - intros id. apply hw_read_law; [done|]. intros s k r Hok. by apply so_snapshot.
  - apply preview_law.
  - intros id. apply hw_read_law; [done|]. intros s k r Hok Hr. destruct (so_preview _ Hok _ _ Hr) as (p & -> & _). by eexists.
  - intros id. apply hw_read_law; [done|]. intros s k r Hok. by apply so_operation.
  - apply create_operation_law.
  - apply finish_operation_law.
Qed.

Lemma collect_empty {A} kind (decode : JsonObject → option A) : collect kind decode ∅ = ∅.
Proof. apply map_eq. intros k. by rewrite collect_lookup, !lookup_empty. Qed.

Lemma gview_empty : gview ∅ = mkGate ∅ ∅ ∅.
Proof. unfold gview. by rewrite !collect_empty. Qed.

Lemma store_ok_empty : store_ok ∅.
Proof. split; [rewrite gview_empty; split|..]; cbn; intros *; by rewrite lookup_empty. Qed.

(** C35 The durable adapter keeps the contract of [WorkspaceStatePort]: over
    any state store whose other users move the tables of snapshots, previews
    and operations only along the contract's steps, each of its operations
    fails without effect or is one atomic operation on those tables (a
    snapshot is stored once; a preview is replaced at the revision it is
    expected at; an operation is created for one preview, and gets one
    result), and what was stored can be read back; and an empty store is a
    state to start from, with empty tables. *)
Theorem host_workspace_refines :
  WorkspaceStateLaws W hview hinv ∧
  (∀ w, sinv w → sview w = ∅ → hinv w ∧ hview w = mkGate ∅ ∅ ∅).
Proof.
  split; [apply host_workspace_laws|]. intros w Hi Hw. unfold hinv, hview. rewrite Hw.
  split; [split; [done|apply store_ok_empty]|apply gview_empty].
Qed.
End laws.
End refinement.

(** ** A concrete world for the workspace and commit services: the durable
    adapter over the in-memory store, a repository of one branch, a clock and
    identifiers; and the theorems of WorkspaceRuns.v, CommitRuns.v and
    HostWorkspaceState.v on a sample commit, with the response of the platform
    lost on the way. *)

(** A repository: its state, what is observed of its files, the commits made
    by operation, and whether the response to a commit gets lost. *)
Record Repository := mkRepository {
  rp_state : CommitState; rp_observed : ObservedWorkspace; rp_log : jsmap CommitResult; rp_lossy : bool }.

Record HostWorld := mkHostWorld {
  hb_store : InMemoryStateStore; hb_repository : Repository; hb_now : string; hb_ids : DeterministicIdGenerator }.

#[global] Instance eta_HostWorld : Eta HostWorld := λ r,
  mkHostWorld (hb_store r) (hb_repository r) (hb_now r) (hb_ids r).

#[export] Instance hb_digest : HostFileDigestPort := λ text, text.

#[export] Instance hb_store_port : StateStorePort HostWorld := {|
  store_read k := zoom hb_store (λ s w, w <| hb_store := s |>) (store_read k);
  compareAndSet i := zoom hb_store (λ s w, w <| hb_store := s |>) (compareAndSet i);
|}.
#[export] Instance hb_clock : ClockPort HostWorld := gets hb_now.
#[export] Instance hb_ids_port : IdGeneratorPort HostWorld := λ ns,
  zoom hb_ids (λ i w, w <| hb_ids := i |>) (Deterministic.next ns).

Definition repository_commit (q : CommitRequest) (r : Repository) : result exn CommitResult * Repository :=
  if ct_head (rp_state r) !== cq_expectedHead q then (Err (portError CONFLICT "HEAD moved" []), r)
  else
    let result := mkCommitResult ("commit-" +:+ cq_operationId q) (ct_head (rp_state r)) [] in
    let s := rp_state r in
    let after := mkCommitState (ct_branch s) (co_commit result) (ct_indexTree s) (ct_ownerIndexDigest s)
      (ct_stagedDiffRef s) (ct_stagedDiffDigest s) [] (ct_remainingDirtyRefs s) (ct_hooksDigest s)
      (ct_configurationDigest s) in
    (if rp_lossy r then Err (portError PROVIDER_FAILURE "response lost" []) else Ok result,
     mkRepository after (rp_observed r) (map_set (cq_operationId q) result (rp_log r)) (rp_lossy r)).

#[export] Instance hb_platform : WorkspacePlatformPort HostWorld := {|
  platform_snapshot _ _ _ := gets (λ w, rp_observed (hb_repository w));
  platform_stageTaskChanges q := mret (mkStageResult "staging-1" "tree-1" (fo_path <$> sq_files q));
  inspectCommitState _ _ := gets (λ w, rp_state (hb_repository w));
  platform_commit q := zoom hb_repository (λ r w, w <| hb_repository := r |>) (repository_commit q);
  reconcileCommit q := gets (λ w,
    match map_get (rq_operationId q) (rp_log (hb_repository w)) with
    | Some r => mkReconciled (Some (co_commit r)) (Some (co_parent r)) (co_remainingDirtyRefs r)
    | None => mkReconciled None None []
    end);
|}.

Definition hb_sview (w : HostWorld) : store_state := ss_view (hb_store w).

#[export] Instance hb_laws : StateStoreLaws HostWorld host_step hb_sview (λ _, True).
Proof.
  destruct (ss_laws host_step). constructor; intros;
    by apply (op_law_zoom host_step hb_store _ ss_view (λ _, True)); [|auto].
Qed.

Abbreviation hb_view := (hview hb_sview).
Abbreviation hb_inv := (hinv hb_sview (λ _, True)).

#[export] Instance hb_state_laws : WorkspaceStateLaws HostWorld hb_view hb_inv := host_workspace_laws _ _.

(** Calls that leave the store alone. *)
Lemma hb_frame {A} (m : M exn HostWorld A) :
  (∀ w, hb_store (m w).2 = hb_store w) → gen_frame_law gate_step hb_view hb_inv m.
Proof.
  intros Hm w r w' Hi H. specialize (Hm w). rewrite H in Hm. cbn in Hm.
  unfold hinv, hview, hb_sview in *. by rewrite Hm.
Qed.

Lemma hb_clock_frame : gen_frame_law gate_step hb_view hb_inv clock_now.
Proof. by apply hb_frame. Qed.
Lemma hb_ids_frame ns : gen_frame_law gate_step hb_view hb_inv (ids_next ns).
Proof.
  apply hb_frame. intros w. unfold ids_next, hb_ids_port, zoom. by destruct (Deterministic.next ns (hb_ids w)).
Qed.
Lemma hb_snapshot_frame a b c : gen_frame_law gate_step hb_view hb_inv (platform_snapshot a b c).
Proof. by apply hb_frame. Qed.
Lemma hb_inspect_frame a b : gen_frame_law gate_step hb_view hb_inv (inspectCommitState a b).
Proof. by apply hb_frame. Qed.
Lemma hb_commit_frame q : gen_frame_law gate_step hb_view hb_inv (platform_commit q).
Proof.
  apply hb_frame. intros w. unfold platform_commit, hb_platform, zoom. by destruct (repository_commit q _).
Qed.
Lemma hb_reconcile_frame q : gen_frame_law gate_step hb_view hb_inv (reconcileCommit q).
Proof. by apply hb_frame. Qed.

Lemma hb_inv_new w : ss_records (hb_store w) = [] → hb_inv w.
Proof. intros Hw. split; [done|]. unfold hb_sview, ss_view. rewrite Hw. apply store_ok_empty. Qed.

(** ** A sample commit *)
Definition sample_state : CommitState :=
  mkCommitState (Some "main") "head-1" "tree-1" "owner-index-1" "diff-1" "diff-digest-1" ["src/a.ts"] []
    "hooks-1" "config-1".

Definition sample_file : WorkspaceFileObservation :=
  mkObservation "src/a.ts" (Some "i1") (Some "w1") file_clean owner_owner [] None.

Definition sample_observed (f : WorkspaceFileObservation) : ObservedWorkspace :=
  mkObserved "workspace-1" "host-1" "root-1" git_repository (Some "main") (Some "head-1") None false false [f] [] [] [].

Definition sample_host (lossy : bool) : HostWorld :=
  mkHostWorld (new_state_store NO_FAILURES) (mkRepository sample_state (sample_observed sample_file) [] lossy)
    "2026-01-01T12:00:00.000Z" [].

Definition sample_prepare : PrepareCommitInput :=
  mkPrepareCommit "workspace-1" "staging-1" 1 ["validation-1"] " fix: a " "2026-01-01T13:00:00.000Z".

Definition sample_basis : CommitBasis :=
  mkBasis sample_state "workspace-1" "staging-1" 1 ["validation-1"] "fix: a" "2026-01-01T13:00:00.000Z".

Definition sample_commit_input : CommitInput :=
  mkCommitInput
    (mkCommitHandle "handle-1" "commit-preview-0001" (digestCanonical (stringify (basis_json sample_basis)))
       "operation-1" "recent-1" 7 "2026-01-01T12:30:00.000Z" 1) 7.

Definition prepared_host (lossy : bool) : HostWorld := (prepare sample_prepare (sample_host lossy)).2.
Definition committed_host (lossy : bool) : HostWorld := (commit sample_commit_input (prepared_host lossy)).2.

(** The commit is made once: when its response is lost it is found by its
    operation, and a second call returns the recorded result. *)
Example commit_sample lossy :
  let result := mkCommitResult "commit-operation-1" "head-1" [] in
  (commit sample_commit_input (prepared_host lossy)).1 = Ok result ∧
  rp_log (hb_repository (committed_host lossy)) = [("operation-1", result)] ∧
  commit sample_commit_input (committed_host lossy) = (Ok result, committed_host lossy).
Proof. destruct lossy; vm_compute; repeat split. Qed.

Lemma prepared_host_inv lossy : hb_inv (prepared_host lossy).
Proof.
  unfold prepared_host. destruct (prepare sample_prepare (sample_host lossy)) as [r w'] eqn:E.
  exact (proj1 (prepare_spec hb_view hb_inv hb_clock_frame hb_ids_frame hb_inspect_frame _ _ _ _
    (hb_inv_new (sample_host lossy) eq_refl) E)).
Qed.

Definition sample_admission := commit_admission sample_commit_input (prepared_host true).
Definition sample_preview : CommitPreview :=
  match sample_admission.1 with
  | Ok (inr p) => p
  | _ => mkPreview "" 0 sample_basis "" preview_unknown
  end.

Lemma sample_admitted : sample_admission = (Ok (inr sample_preview), sample_admission.2).
Proof. vm_compute. reflexivity. Qed.

Lemma commit_taken_once_witness : cp_status sample_preview = preview_prepared.
Proof.
  destruct (commit_taken_once hb_view hb_inv hb_clock_frame hb_inspect_frame hb_reconcile_frame
    sample_commit_input (prepared_host true) sample_preview sample_admission.2 (prepared_host_inv true)
    sample_admitted) as (s & _ & _ & Hp & _).
  exact Hp.
Defined.

Lemma commit_as_authorized_witness :
  commit_request "operation-1" (cp_basis sample_preview) = commit_request "operation-1" sample_basis.
Proof.
  exact (proj1 (commit_as_authorized hb_view hb_inv hb_clock_frame hb_inspect_frame hb_reconcile_frame
    sample_commit_input sample_basis (prepared_host true) sample_preview sample_admission.2
    (prepared_host_inv true) sample_admitted eq_refl (λ b' H, H))).
Defined.

Lemma commit_result_stable_witness :
  ∃ r w' r2 w2, commit sample_commit_input (prepared_host true) = (Ok r, w') ∧
    commit sample_commit_input w' = (Ok r2, w2) ∧ r2 = r.
Proof.
  destruct (commit sample_commit_input (prepared_host true)) as [[r|x] w'] eqn:E; [|vm_compute in E; discriminate E].
  destruct (commit sample_commit_input w') as [[r2|x] w2] eqn:E2.
  2: { vm_compute in E. injection E as _ <-. vm_compute in E2. discriminate E2. }
  pose proof (prepared_host_inv true) as Hi.
  assert (hb_inv w') as Hi'.
  { exact (proj1 (commit_spec hb_view hb_inv hb_clock_frame hb_inspect_frame hb_commit_frame hb_reconcile_frame
      _ _ _ _ Hi E)). }
  exists r, w', r2, w2. split; [reflexivity|]. split; [exact E2|].
  exact (proj1 (commit_result_stable hb_view hb_inv hb_clock_frame hb_inspect_frame hb_commit_frame
    hb_reconcile_frame _ _ _ _ _ _ _ _ Hi E Hi' (rtc_refl _ _) E2 eq_refl)).
Defined.

(** ** A sample snapshot *)
Definition sample_snapshot_input (previous : option string) : SnapshotInput :=
  mkSnapshotInput "workspace-1" "host-1" "root-1" previous ["src/a.ts"] [mkWrite "src/a.ts" (Some "w1") (Some "w2")].

Lemma snapshot_ownership_witness :
  ∃ s w', ws_snapshot (sample_snapshot_input None) (sample_host false) = (Ok s, w') ∧ snapshot_attested s.
Proof.
  destruct (ws_snapshot (sample_snapshot_input None) (sample_host false)) as [[s|x] w'] eqn:E;
    [|vm_compute in E; discriminate E].
  destruct (snapshot_ownership hb_view hb_inv hb_clock_frame hb_ids_frame hb_snapshot_frame
    _ _ _ _ (hb_inv_new (sample_host false) eq_refl) E) as (_ & Ha & Ho).
  exists s, w'. split; [reflexivity|]. exact (Ha _ _ (proj1 (Ho _ eq_refl))).
Defined.

(** The Owner changed a file, the task reports that it wrote it. *)
Definition owner_file : WorkspaceFileObservation :=
  mkObservation "src/a.ts" (Some "i1") (Some "w1") file_unstaged owner_owner [] None.
Definition overwritten_file : WorkspaceFileObservation := owner_file <| fo_worktreeDigest := Some "w2" |>.

Definition owner_snapshot : WorkspaceSnapshot :=
  mkSnapshot "snapshot-1" 1 (sample_observed owner_file) 1 "2026-01-01T12:00:00.000Z".
Definition task_snapshot : WorkspaceSnapshot :=
  mkSnapshot "snapshot-2" 1
    (sample_observed (classify_file (Some owner_snapshot) ["src/a.ts"]
       [mkWrite "src/a.ts" (Some "w1") (Some "w2")] overwritten_file)) 2 "2026-01-01T12:05:00.000Z".

Lemma owner_changes_protected_witness : owner_changed "src/a.ts" task_snapshot.
Proof.
  assert (owner_changed "src/a.ts" owner_snapshot) as H1 by (exists owner_file; split; [|split]; done).
  assert (still_changed "src/a.ts" task_snapshot) as H2.
  { eexists. split; [vm_compute; reflexivity|done]. }
  assert (successor owner_snapshot task_snapshot) as H3.
  { exists ["src/a.ts"], [mkWrite "src/a.ts" (Some "w1") (Some "w2")], [overwritten_file]. reflexivity. }
  exact (proj1 (owner_changes_protected "src/a.ts" _ _ ["src/a.ts"] H1 (rtc_once _ _ (conj H3 H2)))).
Defined.

Lemma host_workspace_refines_witness : hb_inv (sample_host true) ∧ hb_view (sample_host true) = mkGate ∅ ∅ ∅.
Proof. exact (proj2 (host_workspace_refines hb_sview (λ _, True)) (sample_host true) I eq_refl). Defined.
