(* ===== verification/RunCoordinator.v ===== *)
(** packages/application/src/services/run-coordinator.ts: one Run is driven
    from its checkpoint through context formation, Worker delegations and the
    Agent runtime to a terminal status, or to reconciliation. *)
From S2P Require Import Prelude Js JsDate JsJson Identifiers Contract Entities AuthTypes.
From S2P Require Import Coordination Persistence Delegation RunState RunCoordination Scheduler.
Local Open Scope Z_scope.

(** ** The fingerprint of a command (services/thread-command-service.ts)

    Two 64-bit products over the UTF-8 bytes of a canonical text. *)
Definition asUintN64 (z : Z) : Z := z mod 18446744073709551616.

Definition fingerprint_step (h : Z * Z) (byte : Z) : Z * Z :=
  (asUintN64 (Z.lxor h.1 byte * 1099511628211), asUintN64 (Z.lxor h.2 (byte + 1) * 14029467366897019727)).

(** [threadCommandFingerprint] of a value whose canonical text is [text]. *)
Definition threadCommandFingerprint (text : string) : string :=
  let h := foldl fingerprint_step (14695981039346656037, 1099511628211) (utf8 text) in
  "thread-command:v1:" +:+ padStart (hexDigits 16 h.1 "") 16 "0" +:+ padStart (hexDigits 16 h.2 "") 16 "0".

(** ** Inputs and results *)
Record RunTransitionCommand := mkTransitionCommand {
  tc_idempotencyKey : IdempotencyKey; tc_commandFingerprint : string; tc_payloadRef : string }.

Record RunCoordinatorCommands := mkCommands {
  cc_buildingContext : RunTransitionCommand; cc_running : RunTransitionCommand;
  cc_reconcilingExternalResult : RunTransitionCommand; cc_completed : RunTransitionCommand;
  cc_failed : RunTransitionCommand; cc_cancelled : RunTransitionCommand }.

Record WorkerDelegation := mkWorkerDelegation {
  wd_request : WorkerRunRequest; wd_parentTraceEventId : option string }.

(** [xi_leaseFrozen]: the caller froze the claim ([Object.isFrozen]). *)
Record ExecuteCoordinatedRunInput := mkExecuteInput {
  xi_ownerId : OwnerId; xi_agentId : AgentId; xi_runId : RunId; xi_authority : AuthorityFence;
  xi_executionLease : RunExecutionLeaseClaim; xi_leaseFrozen : bool; xi_executionDeadlineAt : option string;
  xi_context : ContextFormationRequest; xi_runtime : RuntimeInput; xi_workers : list WorkerDelegation;
  xi_delegableCapabilityHandleRefs : list string; xi_delegableContextRefs : list string;
  xi_commands : RunCoordinatorCommands }.

Record CoordinatedRunResult := mkCoordinated {
  cr_run : StoredRun; cr_checkpoint : RunCheckpoint; cr_workerResultRefs : list string; cr_resumed : bool }.

Record CancelCoordinatedRunInput := mkCancelInput {
  cn_ownerId : OwnerId; cn_agentId : AgentId; cn_runId : RunId; cn_authority : AuthorityFence;
  cn_command : RunTransitionCommand; cn_reasonCode : string }.

Record InterruptCoordinatedRunInput := mkInterrupt {
  in_runId : RunId; in_executionLeaseId : string; in_reasonCode : string }.

Inductive InterruptionTarget := target_runtime | target_worker (workerRunId : string) | target_resource.

Record ExecutionInterruptionResult := mkInterruption {
  ir_input : InterruptCoordinatedRunInput; ir_runtimeCancellationAttempted : bool;
  ir_workerRunIds : list string; ir_failures : list (InterruptionTarget * exn) }.

Definition RunExecutionInterruptedError (i : InterruptCoordinatedRunInput) : exn :=
  OtherError "RunExecutionInterruptedError"
    ("Execution attempt for Run " +:+ in_runId i +:+ " was interrupted: " +:+ in_reasonCode i).

Definition defaultCheckpoint : RunCheckpoint :=
  mkCheckpoint None phase_accepted None [] 0 None None None None.

Definition isTerminalStatus (s : RunStatus) : bool := (s === completed) || (s === failed) || (s === cancelled).

(** ** Attempts

    An attempt is an object that the table of the coordinator and the running
    [execute] share: it lives at an address. *)
Record ExecutionAttempt := mkAttempt {
  ea_aborted : bool; ea_runId : RunId; ea_executionLeaseId : string; ea_activeWorkerRunIds : list string;
  ea_deadlineAt : option Z; ea_interrupted : option InterruptCoordinatedRunInput; ea_interruption : bool;
  ea_interruptionResult : option ExecutionInterruptionResult; ea_runtimeActive : bool;
  ea_runtimeCancellationIssued : bool; ea_cancelledWorkerRunIds : list string }.

#[global] Instance eta_ExecutionAttempt : Eta ExecutionAttempt := λ r,
  mkAttempt (ea_aborted r) (ea_runId r) (ea_executionLeaseId r) (ea_activeWorkerRunIds r) (ea_deadlineAt r)
    (ea_interrupted r) (ea_interruption r) (ea_interruptionResult r) (ea_runtimeActive r)
    (ea_runtimeCancellationIssued r) (ea_cancelledWorkerRunIds r).

Definition new_attempt (runId : RunId) (executionLeaseId : string) (deadlineAt : option Z) : ExecutionAttempt :=
  mkAttempt false runId executionLeaseId [] deadlineAt None false None false false [].

(** The private fields.  The sets of [activeWorkers] are only reached through the map. *)
Record Coordinator := mkCoordinator {
  co_activeWorkers : jsmap (list string); co_cancelledRuns : list RunId;
  co_attempts : gmap nat ExecutionAttempt; co_next : nat; co_executionAttempts : jsmap nat }.

#[global] Instance eta_Coordinator : Eta Coordinator := λ r,
  mkCoordinator (co_activeWorkers r) (co_cancelledRuns r) (co_attempts r) (co_next r) (co_executionAttempts r).

Definition new_coordinator : Coordinator := mkCoordinator [] [] ∅ 0 [].

(** The attempt at an address; every address in use was allocated. *)
Definition attempt_at (a : nat) (c : Coordinator) : ExecutionAttempt :=
  default (new_attempt "" "" None) (co_attempts c !! a).

Definition set_add (x : string) (l : list string) : list string := if includes x l then l else l ++ [x].
Definition set_delete (x : string) (l : list string) : list string := List.filter (λ y, y !== x) l.

(** [await_interruption a]: [await attempt.interruption]; [background m]: [m] is
    started and not awaited, and its exceptions are dropped. *)
Class CoordinatorState (W : Type) := {
  co_get : W → Coordinator;
  co_set : Coordinator → W → W;
  await_interruption : nat → M exn W unit;
  background : M exn W unit → M exn W unit;
}.

(** Optional dependencies, and [Date.now()]. *)
Class CoordinatorDependencies (W : Type) := {
  coordinator_clock : option (M exn W string);
  date_now : M exn W Z;
  stopRun : option (RunId → M exn W bool);
  coordinator_workers : option (WorkerRunPort W);
  worker_return : WorkerRunRequest → nat → M exn W unit;
}.

(** ** Errors *)
Definition lease_mismatch (runId : RunId) : exn :=
  portError NOT_AUTHORITATIVE "Execution lease claim does not match the active authority fence" [("runId", runId)].
Definition input_mismatch (runId : RunId) : exn :=
  portError INVALID_OPERATION "Run Coordinator input scopes do not match" [("runId", runId)].
Definition runtime_scope_mismatch : exn :=
  portError NOT_AUTHORITATIVE "Runtime scope does not match the canonical Run" [].
Definition expired_scope_mismatch : exn :=
  portError NOT_AUTHORITATIVE "Expired approval Run scope mismatch" [].
Definition suspension_missing : exn := OtherError "Error" "RUN_SUSPENSION_MISSING".
Definition no_terminal_event (runId : RunId) : exn :=
  portError INVALID_OPERATION ("Runtime for Run " +:+ runId +:+ " ended without a terminal event") [("runId", runId)].
Definition runtime_event_mismatch (event : RuntimeEvent) (runId : RunId) : exn :=
  portError INVALID_OPERATION ("Runtime event scope does not match Run " +:+ runId)
    [("eventRunId", runtime_event_runId event); ("runId", runId)].
Definition worker_event_mismatch (event : WorkerRunEvent) (workerRunId : string) : exn :=
  portError INVALID_OPERATION ("Worker event scope does not match " +:+ workerRunId)
    [("eventWorkerRunId", event_workerRunId event); ("workerRunId", workerRunId)].
Definition worker_no_terminal (workerRunId : string) : exn :=
  portError INVALID_OPERATION ("Worker " +:+ workerRunId +:+ " ended without a terminal event") [].
Definition delegation_exceeded (workerRunId : string) (runId : RunId) : exn :=
  portError NOT_AUTHORITATIVE ("Worker " +:+ workerRunId +:+ " exceeds its explicit delegation")
    [("workerRunId", workerRunId); ("runId", runId)].
Definition attempt_active (runId : RunId) (executionLeaseId : string) : exn :=
  portError CONFLICT "An execution attempt is already active for this execution lease"
    [("runId", runId); ("executionLeaseId", executionLeaseId)].

(** ** Scope checks *)
Definition lease_matches (input : ExecuteCoordinatedRunInput) : bool :=
  let lease := xi_executionLease input in
  let authority := xi_authority input in
  xi_leaseFrozen input && (el_authorityLeaseId lease === af_leaseId authority)
  && (el_authorityFencingToken lease === af_fencingToken authority)
  && (el_fencingToken lease === af_fencingToken authority).

Definition scopes_match (input : ExecuteCoordinatedRunInput) : bool :=
  let c := xi_context input in
  let r := xi_runtime input in
  (cf_ownerId c === xi_ownerId input) && (cf_agentId c === xi_agentId input) && (cf_runId c === xi_runId input)
  && (ri_ownerId r === xi_ownerId input) && (ri_agentId r === xi_agentId input) && (ri_runId r === xi_runId input)
  && (ri_sessionId r === cf_sessionId c) && (ri_threadId r === cf_threadId c).

Definition assertScope (input : ExecuteCoordinatedRunInput) : result exn unit :=
  throw_if (negb (lease_matches input)) (lease_mismatch (xi_runId input)) ;;
  throw_if (negb (scopes_match input)) (input_mismatch (xi_runId input)).

(** The stored Run is the one the input speaks of. *)
Definition run_out_of_scope (input : ExecuteCoordinatedRunInput) (run : Run) : bool :=
  (run_ownerId run !== xi_ownerId input) || (run_agentId run !== xi_agentId input)
  || (run_sessionId run !== ri_sessionId (xi_runtime input))
  || (run_threadId run !== ri_threadId (xi_runtime input)).

Definition delegation_valid (input : ExecuteCoordinatedRunInput) (worker : WorkerRunRequest) : bool :=
  let budget := rr_budget worker in
  let validBudget := forallb (λ value, isSafeInteger value && (0 <=? value))
    [rb_maxDurationMs budget; rb_maxCostMicros budget; rb_maxProgressEvents budget] in
  let allowedContext := xi_delegableContextRefs input ++ (cm_payloadRef <$> cf_threadMessages (xi_context input))
    ++ [ct_payloadRef (cf_trigger (xi_context input))] in
  (rr_ownerId worker === xi_ownerId input) && (rr_agentId worker === xi_agentId input)
  && (rr_parentRunId worker === xi_runId input)
  && forallb (λ ref, includes ref (xi_delegableCapabilityHandleRefs input)) (rr_capabilityHandleRefs worker)
  && forallb (λ ref, includes ref allowedContext) (rr_delegatedContextRefs worker)
  && (rr_secretRefs worker === []) && includes (rr_selectedModelRef worker) (rr_allowedModelRefs worker)
  && validBudget && negb (is_none (dateParse (rr_deadlineAt worker))).

Definition assertWorkerDelegation (input : ExecuteCoordinatedRunInput) (worker : WorkerRunRequest) : result exn unit :=
  throw_if (negb (delegation_valid input worker)) (delegation_exceeded (rr_workerRunId worker) (xi_runId input)).

Definition coordinated_result (run : StoredRun) (checkpoint : RunCheckpoint) (resumed : bool) : CoordinatedRunResult :=
  mkCoordinated run checkpoint (map_values (rk_workerResults checkpoint)) resumed.

Definition traceScope (input : ExecuteCoordinatedRunInput) : TraceScope :=
  let c := xi_context input in
  mkTraceScope (xi_ownerId input) (xi_agentId input) (cf_sessionId c) (cf_threadId c) (xi_runId input)
    (cf_correlationId c) (cf_actorId c) (cf_dataClassification c).

(** A loop over an asynchronous iterable goes on, or is left early. *)
Inductive flow (A : Type) := Continue (a : A) | Break (a : A).
Arguments Continue {A} a.
Arguments Break {A} a.

Section coordinator.
Context {W : Type} `{!CoordinatorState W, !CoordinatorDependencies W, !RunLifecyclePort W, !RunCheckpointStore W,
  !ContextFormationPort W, !AgentRuntimePort W, !SessionTraceRecorder W}.

(** ** Access to the attempts *)
Definition get_attempt (a : nat) : M exn W ExecutionAttempt := gets (λ w, attempt_at a (co_get w)).
Definition modify_coordinator (f : Coordinator → Coordinator) : M exn W unit := modify (λ w, co_set (f (co_get w)) w).
Definition modify_attempt (a : nat) (f : ExecutionAttempt → ExecutionAttempt) : M exn W unit :=
  modify_coordinator (λ c, c <| co_attempts := <[a := f (attempt_at a c)]> (co_attempts c) |>).

Definition executionNow : M exn W Z :=
  now ← match coordinator_clock with
        | Some clock => t ← clock; mret (dateParse t)
        | None => t ← date_now; mret (Some t)
        end;
  match now with
  | Some now => mret now
  | None => throw (portError INVALID_OPERATION "Run clock is invalid" [])
  end.

Definition requireWorkers : M exn W (WorkerRunPort W) :=
  match coordinator_workers with
  | Some workers => mret workers
  | None => throw (portError INVALID_OPERATION "WORKER_SUBTASK_ADAPTER_UNAVAILABLE" [])
  end.

(** ** Interruption *)
Inductive Cancellation := cancel_resources | cancel_runtime | cancel_worker (workerRunId : string).

Definition cancellation_target (c : Cancellation) : InterruptionTarget :=
  match c with
  | cancel_resources => target_resource | cancel_runtime => target_runtime | cancel_worker w => target_worker w
  end.

(** The cancellations that are still to be issued for an attempt, in the order they start in. *)
Definition cancellations_of (attempt : ExecutionAttempt) : list Cancellation :=
  match stopRun (W := W) with Some _ => [cancel_resources] | None => [] end
  ++ (if ea_runtimeActive attempt && negb (ea_runtimeCancellationIssued attempt) then [cancel_runtime] else [])
  ++ (cancel_worker <$> List.filter (λ w, negb (includes w (ea_cancelledWorkerRunIds attempt)))
                          (ea_activeWorkerRunIds attempt)).

(** The attempt once its interruption has begun. *)
Definition interrupted_attempt (input : InterruptCoordinatedRunInput) (attempt : ExecutionAttempt) : ExecutionAttempt :=
  attempt <| ea_interrupted := Some input |> <| ea_aborted := true |> <| ea_interruption := true |>
    <| ea_runtimeCancellationIssued := ea_runtimeCancellationIssued attempt || ea_runtimeActive attempt |>
    <| ea_cancelledWorkerRunIds := foldl (λ l w, set_add w l) (ea_cancelledWorkerRunIds attempt)
         (ea_activeWorkerRunIds attempt) |>.

Definition issue_cancellation (input : InterruptCoordinatedRunInput) (c : Cancellation) : M exn W unit :=
  match c with
  | cancel_resources =>
      match stopRun with Some stop => stop (in_runId input) ;; mret tt | None => mret tt end
  | cancel_runtime => runtime_cancel (in_runId input)
  | cancel_worker w => workers ← requireWorkers; worker_cancel w (in_reasonCode input)
  end.

(** The cancellations run concurrently: here one after the other, and each failure is kept. *)
Fixpoint run_cancellations (input : InterruptCoordinatedRunInput) (cs : list Cancellation)
    : M exn W (list (InterruptionTarget * exn)) :=
  match cs with
  | [] => mret []
  | c :: cs =>
      failure ← try_catch (issue_cancellation input c ;; mret []) (λ x, mret [(cancellation_target c, x)]);
      failures ← run_cancellations input cs;
      mret (failure ++ failures)
  end.

(** What [interruptExecution] does after its first step. *)
Definition finish_interruption (a : nat) (input : InterruptCoordinatedRunInput) (attempt : ExecutionAttempt)
    : M exn W unit :=
  failures ← run_cancellations input (cancellations_of attempt);
  modify_attempt a (λ now, now <| ea_interruptionResult :=
    Some (mkInterruption input (ea_runtimeCancellationIssued now) (ea_activeWorkerRunIds attempt) failures) |>).

Definition begin_interruption (a : nat) (input : InterruptCoordinatedRunInput) : M exn W (M exn W unit) :=
  attempt ← get_attempt a;
  modify_attempt a (interrupted_attempt input) ;;
  mret (finish_interruption a input attempt).

Definition interruptExecution (input : InterruptCoordinatedRunInput) : M exn W (option ExecutionInterruptionResult) :=
  address ← gets (λ w, map_get (in_runId input) (co_executionAttempts (co_get w)));
  match address with
  | None => mret None
  | Some a =>
      attempt ← get_attempt a;
      if ea_executionLeaseId attempt !== in_executionLeaseId input then mret None
      else
        (if ea_interruption attempt then await_interruption a
         else rest ← begin_interruption a input; rest) ;;
        now ← get_attempt a;
        mret (ea_interruptionResult now)
  end.

(** The interruptions of [interruptAllExecutions] run concurrently: here one after the other. *)
Fixpoint interrupt_each (reasonCode : string) (attempts : list ExecutionAttempt) : M exn W unit :=
  match attempts with
  | [] => mret tt
  | attempt :: attempts =>
      interruptExecution (mkInterrupt (ea_runId attempt) (ea_executionLeaseId attempt) reasonCode) ;;
      interrupt_each reasonCode attempts
  end.

Definition interruptAllExecutions (reasonCode : string) : M exn W unit :=
  attempts ← gets (λ w, let c := co_get w in (λ a, attempt_at a c) <$> map_values (co_executionAttempts c));
  interrupt_each reasonCode attempts.

(** [void interruptExecution(...).catch(...)]: its first step happens now, the
    rest is not awaited.  The attempt is the one registered for its Run, whose
    interruption has not begun. *)
Definition interruptForDeadline (a : nat) : M exn W unit :=
  attempt ← get_attempt a;
  let input := mkInterrupt (ea_runId attempt) (ea_executionLeaseId attempt) "RUN_EXECUTION_DEADLINE_EXCEEDED" in
  registered ← gets (λ w, map_get (ea_runId attempt) (co_executionAttempts (co_get w)));
  if (registered === Some a) && negb (ea_interruption attempt)
  then rest ← begin_interruption a input; background rest
  else background (interruptExecution input ;; mret tt).

Definition assertExecutionActive (a : nat) : M exn W unit :=
  attempt ← get_attempt a;
  match ea_deadlineAt attempt with
  | Some deadlineAt =>
      now ← executionNow;
      attempt ← get_attempt a;
      if (deadlineAt <=? now) && is_none (ea_interrupted attempt) then interruptForDeadline a else mret tt
  | None => mret tt
  end ;;
  attempt ← get_attempt a;
  match ea_interrupted attempt with
  | Some i => throw (RunExecutionInterruptedError i)
  | None => mret tt
  end.

(** ** Reads and writes of the stored Run and its checkpoint *)
Definition requireRun (runId : RunId) : M exn W StoredRun :=
  stored ← runs_readRun runId;
  match stored with Some stored => mret stored | None => throw (run_not_found runId) end.

Definition saveCheckpoint (input : ExecuteCoordinatedRunInput) (current : StoredRunCheckpoint)
    (checkpoint : RunCheckpoint) : M exn W StoredRunCheckpoint :=
  try_catch
    (checkpoint_compareAndSet (mkCheckpointCas (xi_runId input)
       (if sk_revision current =? 0 then None else Some (sk_revision current)) checkpoint
       (Some (xi_executionLease input))))
    (λ error,
      if is_conflict error then
        latest ← checkpoint_read (xi_runId input);
        match latest with
        | Some latest => if negb (is_none (rk_terminalStatus (sk_checkpoint latest))) then mret latest else throw error
        | None => throw error
        end
      else throw error).

Definition transitionWithCommand (ownerId : OwnerId) (agentId : AgentId) (authority : AuthorityFence)
    (stored : StoredRun) (nextStatus : RunStatus) (command : RunTransitionCommand)
    (executionLease : RunExecutionLeaseClaim) : M exn W StoredRun :=
  latest ← requireRun (run_id (sn_run stored));
  if run_status (sn_run latest) === nextStatus then mret latest
  else if isTerminalStatus (run_status (sn_run latest)) then mret latest
  else
    runs_transitionRun (mkTransition
      (mkRunContext ownerId agentId (tc_idempotencyKey command) (tc_commandFingerprint command) authority
         (tc_payloadRef command))
      (run_id (sn_run latest)) (sn_revision latest) nextStatus) (Some executionLease) ;;
    requireRun (run_id (sn_run latest)).

(** The command of a status, and its key when the transition belongs to a suspension. *)
Definition command_for (commands : RunCoordinatorCommands) (nextStatus : RunStatus) (continuationRef : option string)
    : result exn RunTransitionCommand :=
  match nextStatus with
  | building_context => Ok (cc_buildingContext commands)
  | running => Ok (cc_running commands)
  | reconciling_external_result => Ok (cc_reconcilingExternalResult commands)
  | completed => Ok (cc_completed commands)
  | failed => Ok (cc_failed commands)
  | cancelled => Ok (cc_cancelled commands)
  | awaiting_approval =>
      match truthy continuationRef with Some _ => Ok (cc_running commands) | None => Err suspension_missing end
  | accepted => Err (OtherError "TypeError" "Cannot read properties of undefined")
  end.

Definition suspension_fingerprint (runId : RunId) (continuationRef : string) (nextStatus : RunStatus) : string :=
  threadCommandFingerprint (stringify (JObj [("continuationRef", JStr continuationRef);
    ("nextStatus", JStr (run_status_string nextStatus)); ("runId", JStr runId)])).

Definition suspension_command (runId : RunId) (nextStatus : RunStatus) (continuationRef : option string)
    (command : RunTransitionCommand) : result exn RunTransitionCommand :=
  match truthy continuationRef with
  | Some continuationRef =>
      let fingerprint := suspension_fingerprint runId continuationRef nextStatus in
      key ← of_domain (createIdempotencyKey fingerprint);
      Ok (mkTransitionCommand key fingerprint (tc_payloadRef command))
  | None => Ok command
  end.

Definition transition (input : ExecuteCoordinatedRunInput) (stored : StoredRun) (nextStatus : RunStatus)
    (continuationRef : option string) : M exn W StoredRun :=
  if run_status (sn_run stored) === nextStatus then mret stored
  else
    command ← lift (command_for (xi_commands input) nextStatus continuationRef);
    command ← lift (suspension_command (xi_runId input) nextStatus continuationRef command);
    transitionWithCommand (xi_ownerId input) (xi_agentId input) (xi_authority input) stored nextStatus command
      (xi_executionLease input).

(** ** The beginning and the end of an attempt *)
Definition finishExpiredApprovalWait (input : ExecuteCoordinatedRunInput) : M exn W (option CoordinatedRunResult) :=
  match xi_executionDeadlineAt input ≫= dateParse with
  | None => mret None
  | Some deadlineAt =>
      now ← executionNow;
      if now <? deadlineAt then mret None
      else
        checkpoint ← checkpoint_read (xi_runId input);
        match checkpoint with
        | None => mret None
        | Some checkpoint =>
            if rk_phase (sk_checkpoint checkpoint) !== phase_awaiting_approval then mret None
            else
              stored ← requireRun (xi_runId input);
              throwM_if (run_out_of_scope input (sn_run stored)) expired_scope_mismatch ;;
              if isTerminalStatus (run_status (sn_run stored))
              then mret (Some (coordinated_result stored (sk_checkpoint checkpoint) true))
              else
                run ← transition input stored failed None;
                saved ← saveCheckpoint input checkpoint
                  ((sk_checkpoint checkpoint) <| rk_phase := phase_failed |> <| rk_terminalStatus := Some settled_failed |>
                     <| rk_output := None |> <| rk_diagnosticCode := Some "RUN_EXECUTION_DEADLINE_EXCEEDED" |>);
                mret (Some (coordinated_result run (sk_checkpoint saved) true))
        end
  end.

(** The absolute deadline of an attempt; the timer that goes off then is one
    of the other callers of [interruptForDeadline]. *)
Definition attempt_deadline (executionDeadlineAt : option string) : M exn W (option Z) :=
  match executionDeadlineAt with
  | None => mret None
  | Some text =>
      match dateParse text with
      | None => throw (portError INVALID_OPERATION "Run execution deadline is invalid" [])
      | Some deadlineAt =>
          now ← executionNow;
          throwM_if (86400000 <? Z.max 0 (deadlineAt - now))
            (portError INVALID_OPERATION "Run execution deadline exceeds one day" []) ;;
          mret (Some deadlineAt)
      end
  end.

Definition beginExecutionAttempt (input : ExecuteCoordinatedRunInput) : M exn W nat :=
  let runId := xi_runId input in
  let leaseId := el_executionLeaseId (xi_executionLease input) in
  active ← gets (λ w, map_has runId (co_executionAttempts (co_get w)));
  throwM_if active (attempt_active runId leaseId) ;;
  deadlineAt ← attempt_deadline (xi_executionDeadlineAt input);
  address ← gets (λ w, co_next (co_get w));
  modify_coordinator (λ c,
    c <| co_next := S address |> <| co_attempts := <[address := new_attempt runId leaseId deadlineAt]> (co_attempts c) |>
      <| co_executionAttempts := map_set runId address (co_executionAttempts c) |>) ;;
  mret address.

Definition endExecutionAttempt (a : nat) : M exn W unit :=
  attempt ← get_attempt a;
  modify_coordinator (λ c,
    if map_get (ea_runId attempt) (co_executionAttempts c) === Some a
    then c <| co_executionAttempts := map_delete (ea_runId attempt) (co_executionAttempts c) |> else c).

(** The [finally] of [execute]. *)
Definition close_attempt (a : nat) : M exn W unit :=
  attempt ← get_attempt a;
  (if ea_interruption attempt then await_interruption a else mret tt) ;;
  endExecutionAttempt a.

(** ** Workers *)
Definition worker_event_type (e : WorkerRunEvent) : string :=
  match e with
  | worker_progress _ _ _ _ => "worker.progress" | worker_completed _ _ _ _ _ => "worker.completed"
  | worker_failed _ _ _ => "worker.failed" | worker_result_unknown _ _ _ => "worker.result_unknown"
  | worker_cancelled _ _ _ => "worker.cancelled"
  end.

Definition worker_event_occurredAt (e : WorkerRunEvent) : string :=
  match e with
  | worker_progress _ _ _ t | worker_completed _ _ _ _ t | worker_failed _ _ t
  | worker_result_unknown _ _ t | worker_cancelled _ _ t => t
  end.

(** Record an event, then save the checkpoint that names it. *)
Definition record_event (input : ExecuteCoordinatedRunInput) (a : nat) (trace : RecordTraceInput)
    (current : StoredRunCheckpoint) (update : string → RunCheckpoint → RunCheckpoint) : M exn W StoredRunCheckpoint :=
  id ← trace_record trace;
  assertExecutionActive a ;;
  saved ← saveCheckpoint input current (update id (sk_checkpoint current));
  assertExecutionActive a ;;
  mret saved.

Definition with_trace (id : string) (c : RunCheckpoint) : RunCheckpoint := c <| rk_lastTraceEventId := Some id |>.

Definition worker_trace (input : ExecuteCoordinatedRunInput) (parent causation : option string) (event : WorkerRunEvent)
    : RecordTraceInput :=
  mkTraceInput (traceScope input) parent causation (worker_event_type event) (Some (worker_event_occurredAt event))
    (trace_worker_event event).

(** An exception in the body of [for await] closes the iterable and goes on. *)
Definition close_on_throw {A} (close : M exn W unit) (m : M exn W A) : M exn W A :=
  try_catch m (λ x, try_catch close (λ _, mret tt) ;; throw x).

Record worker_progress_state := mkWorkerProgress {
  wp_count : Z; wp_terminal : option WorkerRunEvent; wp_checkpoint : StoredRunCheckpoint }.

(** The body of the loop over the events of a Worker. *)
Definition worker_step (input : ExecuteCoordinatedRunInput) (a : nat) (request : WorkerRunRequest) (delegated : string)
    (s : worker_progress_state) (event : WorkerRunEvent) : M exn W (flow worker_progress_state) :=
  assertExecutionActive a ;;
  throwM_if (event_workerRunId event !== rr_workerRunId request) (worker_event_mismatch event (rr_workerRunId request)) ;;
  let '(count, terminal) :=
    match event with
    | worker_progress _ _ _ _ => (wp_count s + 1, wp_terminal s)
    | _ => (wp_count s, Some event)
    end in
  if match event with worker_progress _ _ _ _ => rb_maxProgressEvents (rr_budget request) <? count | _ => false end then
    workers ← requireWorkers;
    worker_cancel (rr_workerRunId request) "WORKER_PROGRESS_BUDGET" ;;
    mret (Break (mkWorkerProgress count
      (Some (worker_failed (rr_workerRunId request) "WORKER_PROGRESS_BUDGET_EXCEEDED" (worker_event_occurredAt event)))
      (wp_checkpoint s)))
  else
    saved ← record_event input a
      (worker_trace input (rk_lastTraceEventId (sk_checkpoint (wp_checkpoint s))) (Some delegated) event)
      (wp_checkpoint s) with_trace;
    let s := mkWorkerProgress count terminal saved in
    mret (if is_none terminal then Continue s else Break s).

(** [for await (const event of workers.run(request))]; [None]: out of fuel. *)
Fixpoint worker_events (fuel : nat) (workers : WorkerRunPort W) (input : ExecuteCoordinatedRunInput) (a : nat)
    (request : WorkerRunRequest) (delegated : string) (n : nat) (s : worker_progress_state)
    : M exn W (option worker_progress_state) :=
  match fuel with
  | O => mret None
  | S fuel =>
      event ← worker_next request n;
      match event with
      | None => mret (Some s)
      | Some event =>
          next ← close_on_throw (worker_return request n) (worker_step input a request delegated s event);
          match next with
          | Continue s => worker_events fuel workers input a request delegated (S n) s
          | Break s => worker_return request n ;; mret (Some s)
          end
      end
  end.

(** What remains of the event that ended a Worker, under its budget. *)
Definition budgeted_terminal (request : WorkerRunRequest) (terminal : WorkerRunEvent) : WorkerRunEvent :=
  match terminal with
  | worker_completed _ _ costMicros durationMs occurredAt =>
      if (rb_maxCostMicros (rr_budget request) <? costMicros) || (rb_maxDurationMs (rr_budget request) <? durationMs)
      then worker_failed (rr_workerRunId request) "WORKER_BUDGET_EXCEEDED" occurredAt else terminal
  | _ => terminal
  end.

Definition budget_failure (terminal : WorkerRunEvent) : bool :=
  match terminal with
  | worker_failed _ errorCode _ =>
      (errorCode === "WORKER_PROGRESS_BUDGET_EXCEEDED") || (errorCode === "WORKER_BUDGET_EXCEEDED")
  | _ => false
  end.

Definition with_worker_result (workerRunId resultRef : string) (c : RunCheckpoint) : RunCheckpoint :=
  c <| rk_workerResults := map_set workerRunId resultRef (rk_workerResults c) |>.

(** Save a checkpoint between two checks. *)
Definition guarded_save (input : ExecuteCoordinatedRunInput) (a : nat) (current : StoredRunCheckpoint)
    (checkpoint : RunCheckpoint) : M exn W StoredRunCheckpoint :=
  assertExecutionActive a ;;
  saved ← saveCheckpoint input current checkpoint;
  assertExecutionActive a ;;
  mret saved.

Definition guarded_transition (input : ExecuteCoordinatedRunInput) (a : nat) (run : StoredRun) (next : RunStatus)
    : M exn W StoredRun :=
  assertExecutionActive a ;;
  run ← transition input run next None;
  assertExecutionActive a ;;
  mret run.

(** A Worker that did not complete: the Run goes with it. *)
Definition worker_stops (input : ExecuteCoordinatedRunInput) (a : nat) (run : StoredRun) (current : StoredRunCheckpoint)
    (status : RunStatus) (update : RunCheckpoint → RunCheckpoint) : M exn W (StoredRun * StoredRunCheckpoint) :=
  run ← guarded_transition input a run status;
  saved ← saveCheckpoint input current (update (sk_checkpoint current));
  assertExecutionActive a ;;
  mret (run, saved).

(** The end of one Worker: its result is kept and the loop goes on, or the Run stops. *)
Definition worker_settles (input : ExecuteCoordinatedRunInput) (a : nat) (request : WorkerRunRequest) (delegated : string)
    (run : StoredRun) (current : StoredRunCheckpoint) (terminal : WorkerRunEvent)
    : M exn W (flow (StoredRun * StoredRunCheckpoint)) :=
  current ← (if budget_failure terminal then
               assertExecutionActive a ;;
               record_event input a
                 (worker_trace input (rk_lastTraceEventId (sk_checkpoint current)) (Some delegated) terminal)
                 current with_trace
             else mret current);
  match terminal with
  | worker_completed _ resultRef _ _ _ =>
      saved ← guarded_save input a current (with_worker_result (rr_workerRunId request) resultRef (sk_checkpoint current));
      mret (Continue (run, saved))
  | worker_result_unknown _ _ _ =>
      stopped ← worker_stops input a run current reconciling_external_result
        (λ c, c <| rk_phase := phase_reconciling_external_result |>);
      mret (Break stopped)
  | worker_cancelled _ _ _ =>
      stopped ← worker_stops input a run current cancelled
        (λ c, c <| rk_phase := phase_cancelled |> <| rk_terminalStatus := Some settled_cancelled |>);
      mret (Break stopped)
  | _ =>
      stopped ← worker_stops input a run current failed
        (λ c, c <| rk_phase := phase_failed |> <| rk_terminalStatus := Some settled_failed |>);
      mret (Break stopped)
  end.

Definition set_active (runId : RunId) (f : list string → list string) : M exn W unit :=
  modify_coordinator (λ c, c <| co_activeWorkers := map_set runId (f (default [] (map_get runId (co_activeWorkers c))))
    (co_activeWorkers c) |>).

(** The [try] of the loop over the events, with its [finally]. *)
Definition worker_attempt (fuel : nat) (input : ExecuteCoordinatedRunInput) (a : nat) (request : WorkerRunRequest)
    (delegated : string) (current : StoredRunCheckpoint) : M exn W (option worker_progress_state) :=
  let workerRunId := rr_workerRunId request in
  try_finally
    (assertExecutionActive a ;;
     modify_attempt a (λ t, t <| ea_activeWorkerRunIds := set_add workerRunId (ea_activeWorkerRunIds t) |>) ;;
     assertExecutionActive a ;;
     workers ← requireWorkers;
     worker_events fuel workers input a request delegated 0 (mkWorkerProgress 0 None current))
    (modify_attempt a (λ t, t <| ea_activeWorkerRunIds := set_delete workerRunId (ea_activeWorkerRunIds t) |>) ;;
     set_active (xi_runId input) (set_delete workerRunId)).

(** One iteration of the loop over the delegations. *)
Definition run_worker (fuel : nat) (input : ExecuteCoordinatedRunInput) (a : nat) (delegation : WorkerDelegation)
    (run : StoredRun) (current : StoredRunCheckpoint) : M exn W (option (flow (StoredRun * StoredRunCheckpoint))) :=
  let request := wd_request delegation in
  let lastTraceEventId := rk_lastTraceEventId (sk_checkpoint current) in
  assertExecutionActive a ;;
  match truthy (map_get (rr_workerRunId request) (rk_workerResults (sk_checkpoint current))) with
  | Some _ => mret (Some (Continue (run, current)))
  | None =>
      lift (assertWorkerDelegation input request) ;;
      set_active (xi_runId input) (set_add (rr_workerRunId request)) ;;
      delegated ← trace_record (mkTraceInput (traceScope input)
        (match wd_parentTraceEventId delegation with Some p => Some p | None => lastTraceEventId end)
        lastTraceEventId "worker.delegated" None (trace_worker_request request));
      current ← guarded_save input a current
        ((sk_checkpoint current) <| rk_phase := phase_workers_running |> <| rk_lastTraceEventId := Some delegated |>);
      ended ← worker_attempt fuel input a request delegated current;
      match ended with
      | None => mret None
      | Some s =>
          assertExecutionActive a ;;
          match wp_terminal s with
          | None => throw (worker_no_terminal (rr_workerRunId request))
          | Some terminal =>
              next ← worker_settles input a request delegated run (wp_checkpoint s) (budgeted_terminal request terminal);
              mret (Some next)
          end
      end
  end.

Fixpoint run_delegations (fuel : nat) (input : ExecuteCoordinatedRunInput) (a : nat) (delegations : list WorkerDelegation)
    (run : StoredRun) (current : StoredRunCheckpoint) : M exn W (option (StoredRun * StoredRunCheckpoint)) :=
  match delegations with
  | [] => mret (Some (run, current))
  | delegation :: delegations =>
      next ← run_worker fuel input a delegation run current;
      match next with
      | None => mret None
      | Some (Continue (run, current)) => run_delegations fuel input a delegations run current
      | Some (Break stopped) => mret (Some stopped)
      end
  end.

Definition runWorkers (fuel : nat) (input : ExecuteCoordinatedRunInput) (run : StoredRun) (current : StoredRunCheckpoint)
    (a : nat) : M exn W (option (StoredRun * StoredRunCheckpoint)) :=
  set_active (xi_runId input) id ;;
  run_delegations fuel input a (xi_workers input) run current.

(** ** The runtime *)
Definition runtime_request (input : ExecuteCoordinatedRunInput) (c : RunCheckpoint) : RuntimeRequest :=
  mkRuntimeRequest (xi_runtime input)
    (match rk_suspension c with Some s => Some (su_continuationRef s) | None => ri_continuationRef (xi_runtime input) end)
    (xi_executionLease input) (xi_executionDeadlineAt input) (rk_contextRef c)
    ((λ e, mkResultReference e.1 e.2) <$> rk_workerResults c).

Definition runtimeTerminalStatus (e : RuntimeEvent) : option CheckpointTerminalStatus :=
  match e with
  | runtime_completed _ _ _ => Some settled_completed
  | runtime_cancelled _ _ _ => Some settled_cancelled
  | runtime_failed _ _ _ => Some settled_failed
  | _ => None
  end.

(** A final answer that may not complete this Run. *)
Definition invalid_output (input : ExecuteCoordinatedRunInput) (e : RuntimeEvent) : bool :=
  match e with
  | runtime_completed _ _ no_answer => negb (is_none (ri_threadId (xi_runtime input)))
  | runtime_completed _ _ (assistant_answer ref) => trim ref === ""
  | _ => false
  end.

(** The checkpoint after the [observed]-th event, recorded as [id]. *)
Definition event_checkpoint (input : ExecuteCoordinatedRunInput) (e : RuntimeEvent) (observed : Z) (id : string)
    (c : RunCheckpoint) : RunCheckpoint :=
  match e with
  | runtime_suspended _ continuationRef approval _ =>
      mkCheckpoint (Some (mkSuspension continuationRef approval (xi_executionDeadlineAt input)))
        phase_awaiting_approval (rk_contextRef c) (rk_workerResults c) observed (Some id) None None None
  | runtime_result_unknown _ _ _ _ _ =>
      mkCheckpoint (rk_suspension c) phase_reconciling_external_result (rk_contextRef c) (rk_workerResults c) observed
        (Some id) None None (Some "RUNTIME_TOOL_RESULT_UNKNOWN")
  | _ =>
      let invalidOutput := invalid_output input e in
      let terminalStatus := if invalidOutput then Some settled_failed else runtimeTerminalStatus e in
      mkCheckpoint (rk_suspension c) (if is_none terminalStatus then phase_runtime_running else phase_runtime_settled)
        (rk_contextRef c) (rk_workerResults c) observed (Some id) terminalStatus
        (match e with runtime_completed _ _ output => if invalidOutput then None else Some output | _ => None end)
        (if invalidOutput then Some "RUNTIME_FINAL_ANSWER_INVALID"
         else match e with runtime_failed _ errorCode _ => Some errorCode | _ => None end)
  end.

(** The loop is left after a suspension, an unknown result and a terminal event. *)
Definition ends_runtime (input : ExecuteCoordinatedRunInput) (e : RuntimeEvent) : bool :=
  match e with
  | runtime_suspended _ _ _ _ | runtime_result_unknown _ _ _ _ _ => true
  | _ => invalid_output input e || negb (is_none (runtimeTerminalStatus e))
  end.

(** The body of the loop; after a suspension is saved there is no further check. *)
Definition runtime_step (input : ExecuteCoordinatedRunInput) (a : nat) (current : StoredRunCheckpoint) (observed : Z)
    (event : RuntimeEvent) : M exn W (flow StoredRunCheckpoint) :=
  assertExecutionActive a ;;
  throwM_if (runtime_event_runId event !== xi_runId input) (runtime_event_mismatch event (xi_runId input)) ;;
  let c := sk_checkpoint current in
  id ← trace_record (mkTraceInput (traceScope input) (rk_lastTraceEventId c) (rk_lastTraceEventId c)
    (runtime_event_type event) (Some (runtime_event_occurredAt event)) (trace_runtime_event event));
  assertExecutionActive a ;;
  saved ← saveCheckpoint input current (event_checkpoint input event observed id c);
  (match event with runtime_suspended _ _ _ _ => mret tt | _ => assertExecutionActive a end) ;;
  mret (if ends_runtime input event then Break saved else Continue saved).

(** [for await (const event of runtime.run(request))]; [None]: out of fuel. *)
Fixpoint runtime_events (fuel : nat) (input : ExecuteCoordinatedRunInput) (a : nat) (request : RuntimeRequest) (n : nat)
    (observed : Z) (current : StoredRunCheckpoint) : M exn W (option StoredRunCheckpoint) :=
  match fuel with
  | O => mret None
  | S fuel =>
      event ← runtime_next request n;
      match event with
      | None => mret (Some current)
      | Some event =>
          next ← close_on_throw (runtime_return request n) (runtime_step input a current (observed + 1) event);
          match next with
          | Continue current => runtime_events fuel input a request (S n) (observed + 1) current
          | Break current => runtime_return request n ;; mret (Some current)
          end
      end
  end.

(** [runRuntime] in two parts: up to its start, and the loop. *)
Definition set_runtime_active (a : nat) (active : bool) : M exn W unit :=
  modify_attempt a (λ t, t <| ea_runtimeActive := active |>).

Definition runRuntime (fuel : nat) (input : ExecuteCoordinatedRunInput) (current : StoredRunCheckpoint) (a : nat)
    : M exn W (option StoredRunCheckpoint) :=
  let c := sk_checkpoint current in
  assertExecutionActive a ;;
  set_runtime_active a true ;;
  try_finally
    (assertExecutionActive a ;;
     runtime_events fuel input a (runtime_request input c) 0 (rk_runtimeEventCount c) current)
    (set_runtime_active a false).

(** ** One attempt, up to the runtime *)
Definition interrupted_checkpoint (c : RunCheckpoint) : bool :=
  (rk_phase c === phase_runtime_running) && is_none (rk_terminalStatus c).

Definition missing_output (c : RunCheckpoint) : bool :=
  (rk_terminalStatus c === Some settled_completed) && is_none (rk_output c).

Definition needs_reconciliation (c : RunCheckpoint) : bool :=
  interrupted_checkpoint c || missing_output c || (rk_phase c === phase_reconciling_external_result).

Definition reconciling_checkpoint (c : RunCheckpoint) : RunCheckpoint :=
  c <| rk_phase := phase_reconciling_external_result |>
    <| rk_diagnosticCode :=
         if interrupted_checkpoint c then Some "RUNTIME_ATTEMPT_INTERRUPTED"
         else if missing_output c then Some "RUNTIME_COMPLETION_OUTPUT_MISSING" else rk_diagnosticCode c |>.

Definition load_attempt (input : ExecuteCoordinatedRunInput) (a : nat) : M exn W (bool * StoredRun * StoredRunCheckpoint) :=
  initialCheckpoint ← checkpoint_read (xi_runId input);
  assertExecutionActive a ;;
  storedRun ← requireRun (xi_runId input);
  assertExecutionActive a ;;
  throwM_if (run_out_of_scope input (sn_run storedRun)) runtime_scope_mismatch ;;
  mret (negb (is_none initialCheckpoint), storedRun,
        default (mkStoredCheckpoint (xi_runId input) 0 defaultCheckpoint) initialCheckpoint).

Definition form_context (input : ExecuteCoordinatedRunInput) (a : nat) (current : StoredRunCheckpoint)
    : M exn W StoredRunCheckpoint :=
  match rk_contextRef (sk_checkpoint current) with
  | Some _ => mret current
  | None =>
      formed ← context_form (xi_context input) a (xi_executionDeadlineAt input);
      guarded_save input a current
        ((sk_checkpoint current) <| rk_phase := phase_context_formed |>
           <| rk_contextRef := Some (fc_contextEnvelopeRef formed) |>
           <| rk_lastTraceEventId := last (fc_traceEventIds formed) |>)
  end.

(** The Run is brought to [running] from where it is. *)
Definition start_building (input : ExecuteCoordinatedRunInput) (a : nat) (run : StoredRun) : M exn W StoredRun :=
  if run_status (sn_run run) === accepted then guarded_transition input a run building_context else mret run.

Definition start_running (input : ExecuteCoordinatedRunInput) (a : nat) (run : StoredRun) (current : StoredRunCheckpoint)
    : M exn W StoredRun :=
  run ← (if run_status (sn_run run) === awaiting_approval then
           match rk_suspension (sk_checkpoint current) with
           | None => throw suspension_missing
           | Some s => transition input run running (Some (su_continuationRef s))
           end
         else mret run);
  if run_status (sn_run run) === building_context then guarded_transition input a run running else mret run.

(** What an attempt comes to before it would start the runtime. *)
Inductive admission :=
  | finished (result : CoordinatedRunResult)
  | settled (resumed : bool) (run : StoredRun) (current : StoredRunCheckpoint)
  | to_run (resumed : bool) (run : StoredRun) (current : StoredRunCheckpoint).

(** From the Workers to the checkpoint under which the runtime is started. *)
Definition admit_runtime (fuel : nat) (input : ExecuteCoordinatedRunInput) (a : nat) (resumed : bool) (run : StoredRun)
    (current : StoredRunCheckpoint) : M exn W (option admission) :=
  assertExecutionActive a ;;
  outcome ← (if is_none (rk_terminalStatus (sk_checkpoint current)) then runWorkers fuel input run current a
             else mret (Some (run, current)));
  match outcome with
  | None => mret None
  | Some (run, current) =>
      assertExecutionActive a ;;
      if isTerminalStatus (run_status (sn_run run)) || (run_status (sn_run run) === reconciling_external_result)
      then mret (Some (finished (coordinated_result run (sk_checkpoint current) resumed)))
      else if is_none (rk_terminalStatus (sk_checkpoint current)) then
        saved ← guarded_save input a current ((sk_checkpoint current) <| rk_phase := phase_runtime_running |>);
        mret (Some (to_run resumed run saved))
      else mret (Some (settled resumed run current))
  end.

(** The Run was cancelled while this attempt was on its way. *)
Definition stop_cancelled (input : ExecuteCoordinatedRunInput) (a : nat) (resumed : bool) (run : StoredRun)
    (current : StoredRunCheckpoint) : M exn W admission :=
  run ← guarded_transition input a run cancelled;
  saved ← saveCheckpoint input current
    ((sk_checkpoint current) <| rk_phase := phase_cancelled |> <| rk_terminalStatus := Some settled_cancelled |>);
  assertExecutionActive a ;;
  mret (finished (coordinated_result run (sk_checkpoint saved) resumed)).

Definition reconcile_attempt (input : ExecuteCoordinatedRunInput) (a : nat) (resumed : bool) (run : StoredRun)
    (current : StoredRunCheckpoint) : M exn W admission :=
  saved ← guarded_save input a current (reconciling_checkpoint (sk_checkpoint current));
  run ← transition input run reconciling_external_result None;
  assertExecutionActive a ;;
  mret (finished (coordinated_result run (sk_checkpoint saved) resumed)).

Definition admit_attempt (fuel : nat) (input : ExecuteCoordinatedRunInput) (a : nat) : M exn W (option admission) :=
  '(resumed, run, current) ← load_attempt input a;
  if isTerminalStatus (run_status (sn_run run))
  then mret (Some (finished (coordinated_result run (sk_checkpoint current) resumed)))
  else if needs_reconciliation (sk_checkpoint current)
  then done ← reconcile_attempt input a resumed run current; mret (Some done)
  else
    run ← start_building input a run;
    current ← form_context input a current;
    run ← start_running input a run current;
    cancelled ← gets (λ w, includes (xi_runId input) (co_cancelledRuns (co_get w)));
    if (cancelled : bool) then done ← stop_cancelled input a resumed run current; mret (Some done)
    else admit_runtime fuel input a resumed run current.

(** ** After the runtime *)
Definition classification_index (c : DataClassification) : Z :=
  match c with public => 0 | private => 1 | sensitive => 2 | restricted => 3 end.

Definition classification_max (c d : DataClassification) : DataClassification :=
  if classification_index c <? classification_index d then d else c.

(** What [completeRun] is asked to do. *)
Definition completion_input (input : ExecuteCoordinatedRunInput) (latest : StoredRun) (output : RuntimeSuccessfulOutput)
    : RunCompletionInput :=
  let command := cc_completed (xi_commands input) in
  mkCompletion
    (mkRunContext (xi_ownerId input) (xi_agentId input) (tc_idempotencyKey command) (tc_commandFingerprint command)
       (xi_authority input) (tc_payloadRef command))
    (xi_runId input) (sn_revision latest) output
    (classification_max (ri_dataClassification (xi_runtime input)) (cf_dataClassification (xi_context input))).

Definition output_missing : exn := portError INVALID_OPERATION "Runtime completion output is missing" [].

(** Publish the output the runtime completed with, unless the Run has ended meanwhile. *)
Definition complete_run (input : ExecuteCoordinatedRunInput) (a : nat) (c : RunCheckpoint) : M exn W StoredRun :=
  match rk_output c with
  | None => throw output_missing
  | Some output =>
      latest ← requireRun (xi_runId input);
      assertExecutionActive a ;;
      (if isTerminalStatus (run_status (sn_run latest)) then mret tt
       else runs_completeRun (completion_input input latest output) (Some (xi_executionLease input)) ;; mret tt) ;;
      assertExecutionActive a ;;
      requireRun (xi_runId input)
  end.

Definition settled_status (s : CheckpointTerminalStatus) : RunStatus :=
  match s with settled_completed => completed | settled_failed => failed | settled_cancelled => cancelled end.
Definition settled_phase (s : CheckpointTerminalStatus) : RunCheckpointPhase :=
  match s with settled_completed => phase_completed | settled_failed => phase_failed | settled_cancelled => phase_cancelled end.

(** The status the final checkpoint records: a Run that was cancelled or has failed stays so. *)
Definition final_status (run : Run) (terminal : CheckpointTerminalStatus) : CheckpointTerminalStatus :=
  match run_status run with cancelled => settled_cancelled | failed => settled_failed | _ => terminal end.

Definition finish_run (input : ExecuteCoordinatedRunInput) (a : nat) (resumed : bool) (run : StoredRun)
    (current : StoredRunCheckpoint) (terminal : CheckpointTerminalStatus) : M exn W CoordinatedRunResult :=
  run ← (if terminal === settled_completed then complete_run input a (sk_checkpoint current)
         else guarded_transition input a run (settled_status terminal));
  saved ← guarded_save input a current
    ((sk_checkpoint current) <| rk_phase := settled_phase (final_status (sn_run run) terminal) |>
       <| rk_terminalStatus := Some (final_status (sn_run run) terminal) |>);
  mret (coordinated_result run (sk_checkpoint saved) resumed).

(** The Run leaves its resources: [Some false] when they may still be in use. *)
Definition stop_resources (runId : RunId) : M exn W (option bool) :=
  match stopRun with Some stop => released ← stop runId; mret (Some released) | None => mret None end.

Definition settle_attempt (input : ExecuteCoordinatedRunInput) (a : nat) (resumed : bool) (run : StoredRun)
    (current : StoredRunCheckpoint) : M exn W CoordinatedRunResult :=
  let c := sk_checkpoint current in
  match rk_phase c with
  | phase_awaiting_approval =>
      run ← transition input run awaiting_approval (su_continuationRef <$> rk_suspension c);
      mret (coordinated_result run c resumed)
  | phase_reconciling_external_result =>
      assertExecutionActive a ;;
      run ← transition input run reconciling_external_result None;
      mret (coordinated_result run c resumed)
  | _ =>
      match rk_terminalStatus c with
      | None => throw (no_terminal_event (xi_runId input))
      | Some terminal =>
          released ← stop_resources (xi_runId input);
          if (terminal === settled_completed) && (released === Some false) then
            saved ← saveCheckpoint input current
              (c <| rk_phase := phase_reconciling_external_result |> <| rk_terminalStatus := None |>
                 <| rk_diagnosticCode := Some "RUN_RESOURCE_CLEANUP_UNCONFIRMED" |>);
            run ← transition input run reconciling_external_result None;
            mret (coordinated_result run (sk_checkpoint saved) resumed)
          else finish_run input a resumed run current terminal
      end
  end.

(** [None]: a Worker or the runtime had more events than there was fuel for. *)
Definition executeAttempt (fuel : nat) (input : ExecuteCoordinatedRunInput) (a : nat)
    : M exn W (option CoordinatedRunResult) :=
  admitted ← admit_attempt fuel input a;
  match admitted with
  | None => mret None
  | Some (finished result) => mret (Some result)
  | Some (settled resumed run current) =>
      result ← settle_attempt input a resumed run current; mret (Some result)
  | Some (to_run resumed run current) =>
      ended ← runRuntime fuel input current a;
      match ended with
      | None => mret None
      | Some current =>
          assertExecutionActive a ;;
          result ← settle_attempt input a resumed run current; mret (Some result)
      end
  end.

Definition execute_run (fuel : nat) (input : ExecuteCoordinatedRunInput) : M exn W (option CoordinatedRunResult) :=
  lift (assertScope input) ;;
  expiredWait ← finishExpiredApprovalWait input;
  match expiredWait with
  | Some result => mret (Some result)
  | None =>
      a ← beginExecutionAttempt input;
      try_finally (executeAttempt fuel input a) (close_attempt a)
  end.

(** ** Cancellation by the Owner *)
Definition abort_registered (runId : RunId) : M exn W unit :=
  modify_coordinator (λ c,
    match map_get runId (co_executionAttempts c) with
    | Some a => c <| co_attempts := <[a := (attempt_at a c) <| ea_aborted := true |>]> (co_attempts c) |>
    | None => c
    end).

(** The loop walks over the set of active Workers while others change it: each
    Worker in it is cancelled once; [false]: out of fuel. *)
Fixpoint cancel_workers (fuel : nat) (runId : RunId) (reasonCode : string) (visited : list string) : M exn W bool :=
  match fuel with
  | O => mret false
  | S fuel =>
      active ← gets (λ w, default [] (map_get runId (co_activeWorkers (co_get w))));
      match List.find (λ w, negb (includes w visited)) active with
      | None => mret true
      | Some w =>
          workers ← requireWorkers;
          worker_cancel w reasonCode ;;
          cancel_workers fuel runId reasonCode (visited ++ [w])
      end
  end.

Definition cancel_scope_mismatch : exn :=
  portError NOT_AUTHORITATIVE "Cancellation scope does not match the canonical Run" [].

(** [cancelRun] has been asked for: is the Run cancelled now? *)
Definition cancel_canonical (input : CancelCoordinatedRunInput) (existing : StoredRun) : M exn W StoredRun :=
  let command := cn_command input in
  runs_cancelRun
    (mkRunContext (cn_ownerId input) (cn_agentId input) (tc_idempotencyKey command) (tc_commandFingerprint command)
       (cn_authority input) (tc_payloadRef command))
    (cn_runId input) (sn_revision existing) ;;
  requireRun (cn_runId input).

(** [cancel]; [None]: out of fuel. *)
Definition cancel_coordinated (fuel : nat) (input : CancelCoordinatedRunInput) : M exn W (option StoredRun) :=
  existing ← requireRun (cn_runId input);
  throwM_if ((run_ownerId (sn_run existing) !== cn_ownerId input) || (run_agentId (sn_run existing) !== cn_agentId input))
    cancel_scope_mismatch ;;
  if isTerminalStatus (run_status (sn_run existing)) then
    (if (run_status (sn_run existing) === cancelled) || (run_status (sn_run existing) === failed)
     then stop_resources (cn_runId input) ;; mret tt else mret tt) ;;
    mret (Some existing)
  else
    storedRun ← cancel_canonical input existing;
    if run_status (sn_run storedRun) !== cancelled then mret (Some storedRun)
    else
      modify_coordinator (λ c, c <| co_cancelledRuns := set_add (cn_runId input) (co_cancelledRuns c) |>) ;;
      abort_registered (cn_runId input) ;;
      runtime_cancel (cn_runId input) ;;
      stop_resources (cn_runId input) ;;
      all ← cancel_workers fuel (cn_runId input) (cn_reasonCode input) [];
      mret (if (all : bool) then Some storedRun else None).
End coordinator.
