(* ===== verification/RunContract.v ===== *)
(** What Run coordination stands on: the versions of the checkpoint of each
    Run, its status and what was published, as one shared history that anyone
    extends by the same steps; and the promises of the ports on it. *)
From S2P Require Import Prelude Js JsJson Identifiers Contract Entities AuthTypes.
From S2P Require Import Coordination Persistence Delegation RunState RunCoordination RunCoordinator.
Local Open Scope Z_scope.

(** ** The shared history

    Every version of a Run's checkpoint, oldest first, with the execution lease
    it was written under; the Runs; and the outputs that were published. *)
Definition version : Type := RunCheckpoint * option RunExecutionLeaseClaim.

Record run_history := mkHistory {
  rh_versions : gmap string (list version); rh_runs : gmap string StoredRun;
  rh_published : gmap string RuntimeSuccessfulOutput }.

#[global] Instance eta_run_history : Eta run_history := λ r,
  mkHistory (rh_versions r) (rh_runs r) (rh_published r).

Definition versions (id : RunId) (g : run_history) : list version := default [] (rh_versions g !! id).

Definition push_version (id : RunId) (v : version) (g : run_history) : run_history :=
  g <| rh_versions := <[id := versions id g ++ [v]]> (rh_versions g) |>.

(** The checkpoint that is stored now. *)
Definition latest (id : RunId) (g : run_history) : option StoredRunCheckpoint :=
  (λ v, mkStoredCheckpoint id (Z.of_nat (length (versions id g))) v.1) <$> last (versions id g).

(** A checkpoint of the Run has settled as completed with this output. *)
Definition publishable (id : RunId) (o : RuntimeSuccessfulOutput) (g : run_history) : Prop :=
  ∃ v, v ∈ versions id g ∧ rk_terminalStatus v.1 = Some settled_completed ∧ rk_output v.1 = Some o.

Definition moved (stored : StoredRun) (s : RunStatus) : StoredRun :=
  mkStoredRun ((sn_run stored) <| run_status := s |>) (sn_revision stored + 1).

Inductive run_step (g : run_history) : run_history → Prop :=
  | run_saved id v : run_step g (push_version id v g)
  | run_admitted run :
      rh_runs g !! run_id run = None → run_status run = accepted →
      run_step g (g <| rh_runs := <[run_id run := mkStoredRun run 1]> (rh_runs g) |>)
  | run_moved id stored s :
      rh_runs g !! id = Some stored → s ∈ ALLOWED_TRANSITIONS (run_status (sn_run stored)) →
      run_step g (g <| rh_runs := <[id := moved stored s]> (rh_runs g) |>)
  | run_published id stored o :
      rh_runs g !! id = Some stored → completed ∈ ALLOWED_TRANSITIONS (run_status (sn_run stored)) →
      publishable id o g →
      run_step g (g <| rh_runs := <[id := moved stored completed]> (rh_runs g) |>
                    <| rh_published := <[id := o]> (rh_published g) |>).

(** What was published had been the settled output of a checkpoint of that
    Run, and the Run is completed. *)
Definition published_wf (g : run_history) : Prop := ∀ id o, rh_published g !! id = Some o →
  publishable id o g ∧ ∃ stored, rh_runs g !! id = Some stored ∧ run_status (sn_run stored) = completed.

Definition later_status : relation RunStatus := rtc (λ s s', s' ∈ ALLOWED_TRANSITIONS s).

(** The Run has been in status [s]. *)
Definition reached (id : RunId) (s : RunStatus) (g : run_history) : Prop :=
  ∃ stored, rh_runs g !! id = Some stored ∧ later_status s (run_status (sn_run stored)).

(** [k] is what the Run's checkpoint was at its revision; revision 0 is the default. *)
Definition held (id : RunId) (k : StoredRunCheckpoint) (g : run_history) : Prop :=
  (sk_revision k = 0 ∧ sk_checkpoint k = defaultCheckpoint) ∨
  ∃ i lease, versions id g !! i = Some (sk_checkpoint k, lease) ∧ sk_revision k = Z.of_nat (S i).

(** ** The effect of the store's operations *)
Definition cas_effect (input : CompareAndSetRunCheckpointInput) (r : StoredRunCheckpoint) (g g' : run_history) : Prop :=
  let id := ck_runId input in
  (sk_revision <$> latest id g) = ck_expectedRevision input ∧
  r = mkStoredCheckpoint id (Z.of_nat (S (length (versions id g)))) (ck_checkpoint input) ∧
  g' = push_version id (ck_checkpoint input, ck_executionLease input) g.

Section laws.
Context {W : Type} `{!CoordinatorState W, !CoordinatorDependencies W, !RunLifecyclePort W, !RunCheckpointStore W,
  !ContextFormationPort W, !AgentRuntimePort W, !SessionTraceRecorder W}.
Context (view : W → run_history) (inv : W → Prop).

Class RunHistoryLaws : Prop := {
  law_checkpoint_read : ∀ id, gen_op_law run_step view inv (gen_reads (λ o g, o = latest id g)) (checkpoint_read id);
  law_checkpoint_cas : ∀ input, gen_op_law run_step view inv (cas_effect input) (checkpoint_compareAndSet input);
  law_readRun : ∀ id, gen_op_law run_step view inv
    (gen_reads (λ o g, o = rh_runs g !! id ∧ ∀ stored, o = Some stored → run_id (sn_run stored) = id)) (runs_readRun id);
  law_transitionRun : ∀ input lease, triple run_step view inv (λ _, True) (runs_transitionRun input lease)
    (λ _, reached (ti_runId input) (ti_nextStatus input));
  law_cancelRun : ∀ context id revision, gen_frame_law run_step view inv (runs_cancelRun context id revision);
  law_completeRun : ∀ input lease, triple run_step view inv (publishable (cp_runId input) (cp_output input))
    (runs_completeRun input lease) (λ _, reached (cp_runId input) completed);
}.

(** Everything else leaves the history to others; a Worker need do so only for
    the requests it may be sent. *)
Class RunFrames (may_run : WorkerRunRequest → Prop) : Prop := {
  frame_co_set : ∀ c w, inv w → inv (co_set c w) ∧ view (co_set c w) = view w;
  frame_await : ∀ a, gen_frame_law run_step view inv (await_interruption a);
  frame_background : ∀ m, gen_frame_law run_step view inv m → gen_frame_law run_step view inv (background m);
  frame_clock : ∀ clock, coordinator_clock = Some clock → gen_frame_law run_step view inv clock;
  frame_date_now : gen_frame_law run_step view inv date_now;
  frame_stopRun : ∀ stop id, stopRun = Some stop → gen_frame_law run_step view inv (stop id);
  frame_worker_next : ∀ workers request n, coordinator_workers = Some workers → may_run request →
    gen_frame_law run_step view inv (worker_next (WorkerRunPort := workers) request n);
  frame_worker_cancel : ∀ workers id reasonCode, coordinator_workers = Some workers →
    gen_frame_law run_step view inv (worker_cancel (WorkerRunPort := workers) id reasonCode);
  frame_worker_return : ∀ request n, gen_frame_law run_step view inv (worker_return request n);
  frame_context_form : ∀ request a deadlineAt, gen_frame_law run_step view inv (context_form request a deadlineAt);
  frame_runtime_next : ∀ request n, gen_frame_law run_step view inv (runtime_next request n);
  frame_runtime_return : ∀ request n, gen_frame_law run_step view inv (runtime_return request n);
  frame_runtime_cancel : ∀ id, gen_frame_law run_step view inv (runtime_cancel id);
  frame_trace_record : ∀ input, gen_frame_law run_step view inv (trace_record input);
}.
End laws.

(** ** What only grows *)
Lemma versions_push id v id' g :
  versions id' (push_version id v g) = if decide (id' = id) then versions id g ++ [v] else versions id' g.
Proof.
  unfold push_version, versions. cbn. case_decide as H; [subst; by rewrite lookup_insert_eq|].
  by rewrite lookup_insert_ne by done.
Qed.

Lemma step_versions g g' id : run_step g g' → versions id g `prefix_of` versions id g'.
Proof.
  intros [id' v| | |]; [|done..]. rewrite versions_push. case_decide; [subst; by exists [v]|done].
Qed.

#[export] Instance held_stable id k : Stable run_step (held id k).
Proof.
  intros g g' [H|(i & lease & Hi & Hr)] Hs; [by left|]. right. exists i, lease. split; [|done].
  by eapply prefix_lookup_Some, step_versions.
Qed.

#[export] Instance publishable_stable id o : Stable run_step (publishable id o).
Proof.
  intros g g' (v & Hv & H) Hs. exists v. split; [|done]. destruct (step_versions _ _ id Hs) as [l ->].
  apply elem_of_app. by left.
Qed.

#[export] Instance reached_stable id s : Stable run_step (reached id s).
Proof.
  intros g g' (stored & Hst & Hl) Hs.
  assert (∀ s', s' ∈ ALLOWED_TRANSITIONS (run_status (sn_run stored)) → later_status s s') as Hm.
  { intros s' Hs'. by eapply rtc_r. }
  destruct Hs as [| run Hn _|id' st' s' Hst' Hs'|id' st' o Hst' Hs' _]; [by exists stored| | |].
  all: destruct (decide (id = run_id run)) as [->|] || destruct (decide (id = id')) as [->|];
    [|exists stored; cbn; by rewrite lookup_insert_ne].
  - congruence.
  - assert (st' = stored) as -> by congruence. eexists. cbn. rewrite lookup_insert_eq. split; [done|]. by apply Hm.
  - assert (st' = stored) as -> by congruence. eexists. cbn. rewrite lookup_insert_eq. split; [done|]. by apply Hm.
Qed.

(** At least so many versions have been written. *)
#[export] Instance length_stable id n : Stable run_step (λ g, (n ≤ length (versions id g))%nat).
Proof. intros g g' H Hs. pose proof (prefix_length _ _ (step_versions _ _ id Hs)). lia. Qed.

Lemma published_wf_step g g' : run_step g g' → published_wf g → published_wf g'.
Proof.
  intros Hs Hwf id o. assert (∀ id o, publishable id o g → publishable id o g') as Hp.
  { intros i o' H. by eapply (stable run_step). }
  assert (∀ s, s ∈ ALLOWED_TRANSITIONS completed → False) as Hc by (intros s; cbn; set_solver).
  destruct Hs as [i v|run Hn _|i st s Hst Hal|i st o' Hst Hal Hpub]; cbn; intros Ho.
  - destruct (Hwf _ _ Ho) as [? ?]. split; [by apply Hp|done].
  - destruct (Hwf _ _ Ho) as [? (st & Hst & ?)]. split; [by apply Hp|]. exists st. split; [|done].
    rewrite lookup_insert_ne; [done|]. congruence.
  - destruct (Hwf _ _ Ho) as [? (st' & Hst' & Hco)]. split; [by apply Hp|]. exists st'. split; [|done].
    rewrite lookup_insert_ne; [done|]. intros ->. assert (st' = st) as -> by congruence. rewrite Hco in Hal. by apply Hc in Hal.
  - apply lookup_insert_Some in Ho as [[<- <-]|[Hne Ho]].
    + split; [by apply Hp|]. rewrite lookup_insert_eq. by eexists.
    + destruct (Hwf _ _ Ho) as [? (st' & Hst' & ?)]. split; [by apply Hp|]. rewrite lookup_insert_ne by done. by exists st'.
Qed.

Lemma published_wf_rtc g g' : rtc run_step g g' → published_wf g → published_wf g'.
Proof. induction 1; eauto using published_wf_step. Qed.

(** A Run that was in reconciliation or at an end is there or at an end. *)
Lemma later_terminal s s' : later_status s s' →
  isTerminalStatus s || (s === reconciling_external_result) = true →
  isTerminalStatus s' || (s' === reconciling_external_result) = true.
Proof.
  induction 1 as [s|s s1 s2 H1 _ IH]; [done|]. intros H. apply IH.
  destruct s; try discriminate H; cbn in H1; set_unfold in H1; naive_solver.
Qed.
