(* ===== verification/RunExecution.v ===== *)
(** What Run coordination guarantees (RunCoordinator.v), from the promises of
    its ports (RunContract.v): the runtime is started under a checkpoint that
    this attempt has claimed, and what is published had settled before. *)
From S2P Require Import Prelude Js JsJson Identifiers Contract Entities AuthTypes.
From S2P Require Import Coordination Persistence Delegation RunState RunCoordination RunCoordinator RunContract.
Local Open Scope Z_scope.

Section execution.
Context {W : Type} `{!CoordinatorState W, !CoordinatorDependencies W, !RunLifecyclePort W, !RunCheckpointStore W,
  !ContextFormationPort W, !AgentRuntimePort W, !SessionTraceRecorder W}.
Context (view : W → run_history) (inv : W → Prop) (may_run : WorkerRunRequest → Prop)
  `{!RunHistoryLaws view inv, !RunFrames view inv may_run}.
Abbreviation frame := (gen_frame_law run_step view inv) (only parsing).
Abbreviation triple := (triple run_step view inv) (only parsing).

(** ** Code that leaves the history alone *)
Hint Resolve frame_await frame_clock frame_date_now frame_stopRun frame_worker_next frame_worker_cancel
  frame_worker_return frame_context_form frame_runtime_next frame_runtime_return frame_runtime_cancel
  frame_trace_record law_cancelRun : frames.

Lemma frame_modify_coordinator f : frame (modify_coordinator f).
Proof.
  intros w r w' Hi H. injection H as <- <-. destruct (frame_co_set view inv (f (co_get w)) w Hi) as [Hi' Hv].
  split; [done|]. by rewrite Hv.
Qed.
Hint Resolve frame_modify_coordinator : frames.

Lemma frame_modify_attempt a f : frame (modify_attempt a f).
Proof. apply frame_modify_coordinator. Qed.
Hint Resolve frame_modify_attempt : frames.

Lemma frame_get_attempt a : frame (get_attempt a).
Proof. apply frame_gets. Qed.
Hint Resolve frame_get_attempt : frames.

Lemma frame_executionNow : frame executionNow.
Proof. unfold executionNow. solve_frame. Qed.
Hint Resolve frame_executionNow : frames.

Lemma frame_requireWorkers : frame requireWorkers.
Proof. unfold requireWorkers. solve_frame. Qed.
Hint Resolve frame_requireWorkers : frames.

(** [requireWorkers] gives the Workers there are. *)
Lemma frame_with_workers {A} (k : WorkerRunPort W → M exn W A) :
  (∀ workers, coordinator_workers = Some workers → frame (k workers)) → frame (workers ← requireWorkers; k workers).
Proof.
  intros Hk w r w' Hi H. unfold requireWorkers, mbind, M_bind in H.
  destruct coordinator_workers as [workers|]; [|by injection H as <- <-]. exact (Hk workers eq_refl _ _ _ Hi H).
Qed.

Lemma frame_issue_cancellation request c : frame (issue_cancellation request c).
Proof.
  destruct c as [| |w]; cbn.
  - destruct stopRun as [stop|] eqn:E; [|apply frame_ret]. apply frame_bind; [by eapply frame_stopRun|]. intros. apply frame_ret.
  - by eapply frame_runtime_cancel.
  - apply frame_with_workers. intros workers E. by eapply frame_worker_cancel.
Qed.
Hint Resolve frame_issue_cancellation : frames.

Lemma frame_run_cancellations request cs : frame (run_cancellations request cs).
Proof. induction cs as [|c cs IH]; cbn [run_cancellations]; solve_frame. Qed.
Hint Resolve frame_run_cancellations : frames.

Lemma frame_finish_interruption a request attempt : frame (finish_interruption a request attempt).
Proof. unfold finish_interruption. solve_frame. Qed.
Hint Resolve frame_finish_interruption : frames.

(** The rest of an interruption is a frame too. *)
Lemma frame_begin_interruption {A} a request (k : M exn W unit → M exn W A) :
  (∀ rest, frame rest → frame (k rest)) → frame (rest ← begin_interruption a request; k rest).
Proof.
  intros Hk w r w' Hi H. unfold begin_interruption, mbind, M_bind in H. cbn in H.
  match type of H with k ?m (co_set ?c w) = _ =>
    destruct (frame_co_set view inv c w Hi) as [Hi' Hv]; destruct (Hk m ltac:(auto with frames) _ _ _ Hi' H) as [Hi'' Hs]
  end.
  by rewrite Hv in Hs.
Qed.

Lemma frame_interruptExecution request : frame (interruptExecution request).
Proof.
  unfold interruptExecution. apply frame_bind; [apply frame_gets|]. intros [a|]; [|apply frame_ret].
  apply frame_bind; [apply frame_get_attempt|]. intros attempt. case_match; [apply frame_ret|].
  apply frame_bind; [|solve_frame]. case_match; [by eapply frame_await|]. by apply frame_begin_interruption.
Qed.
Hint Resolve frame_interruptExecution : frames.

Lemma frame_interruptForDeadline a : frame (interruptForDeadline a).
Proof.
  unfold interruptForDeadline. apply frame_bind; [apply frame_get_attempt|]. intros attempt.
  apply frame_bind; [apply frame_gets|]. intros registered. case_match.
  - apply frame_begin_interruption. intros. by eapply frame_background.
  - eapply frame_background; [done|]. solve_frame.
Qed.
Hint Resolve frame_interruptForDeadline : frames.

Lemma frame_assertExecutionActive a : frame (assertExecutionActive a).
Proof. unfold assertExecutionActive. solve_frame. Qed.
Hint Resolve frame_assertExecutionActive : frames.

(** ** The checkpoint that an attempt holds *)
Section attempt.
Variable input : ExecuteCoordinatedRunInput.
Abbreviation runId := (xi_runId input).
Hypothesis delegated_may_run : ∀ request, delegation_valid input request = true → may_run request.

(** [n0] versions had been written when the call began. *)
Variable n0 : nat.
Definition began (g : run_history) : Prop := (n0 ≤ length (versions runId g))%nat.
#[local] Instance began_stable : Stable run_step began := length_stable runId n0.

(** [k] is [c], written under the lease of this attempt right after [current]. *)
Definition written (current : StoredRunCheckpoint) (c : RunCheckpoint) (k : StoredRunCheckpoint) (g : run_history) : Prop :=
  sk_checkpoint k = c ∧ sk_revision k = sk_revision current + 1 ∧ Z.of_nat n0 < sk_revision k ∧
  versions runId g !! Z.to_nat (sk_revision current) = Some (c, Some (xi_executionLease input)).

#[local] Instance written_stable current c k : Stable run_step (written current c k).
Proof.
  intros g g' (H1 & H2 & H3 & H4) Hs. do 3 (split; [done|]). by eapply prefix_lookup_Some, step_versions.
Qed.

(** Another attempt had settled the checkpoint. *)
Definition lost (k : StoredRunCheckpoint) : Prop := rk_terminalStatus (sk_checkpoint k) ≠ None.

Lemma held_latest k g : latest runId g = Some k → held runId k g.
Proof.
  unfold latest. rewrite last_lookup. intros ([c lease] & Hv & ->)%fmap_Some. right. exists (pred (length (versions runId g))), lease.
  split; [done|]. apply lookup_lt_Some in Hv. cbn [sk_revision].
  unfold version in *. lia.
Qed.

Lemma cas_held current c lease r g :
  held runId current g → began g →
  cas_effect (mkCheckpointCas runId (if sk_revision current =? 0 then None else Some (sk_revision current)) c (Some lease)) r g
    (push_version runId (c, Some lease) g) →
  lease = xi_executionLease input →
  held runId r (push_version runId (c, Some lease) g) ∧ written current c r (push_version runId (c, Some lease) g).
Proof.
  intros Hh Hn (He & -> & _) ->. cbn in *. set (l := versions runId g) in *.
  assert (Z.of_nat (length l) = sk_revision current) as Hlen.
  { unfold latest in He. fold l in He. destruct (sk_revision current =? 0) eqn:E.
    - apply Z.eqb_eq in E. destruct (last l) eqn:El; [done|]. apply last_None in El. by rewrite El, E.
    - destruct (last l); [|done]. by injection He as ->. }
  assert (versions runId (push_version runId (c, Some (xi_executionLease input)) g) !! length l =
    Some (c, Some (xi_executionLease input))) as Hv.
  { rewrite versions_push, decide_True by done. by rewrite list_lookup_middle. }
  split.
  - right. exists (length l), (Some (xi_executionLease input)). done.
  - unfold written. cbn. split; [done|]. split; [lia|]. split; [unfold began in Hn; fold l in Hn; lia|].
    by rewrite <-Hlen, Nat2Z.id.
Qed.

(** A save leaves a checkpoint that is held: the one that was to be written,
    or, when the save came too late, the settled one that is there. *)
Lemma save_triple current c :
  triple (λ g, held runId current g ∧ began g) (saveCheckpoint input current c)
    (λ k g, (held runId k g ∧ began g) ∧ held runId current g ∧ (lost k ∨ written current c k g)).
Proof.
  unfold saveCheckpoint. apply triple_try_catch; [apply _| |].
  - eapply triple_op; [apply _|apply (law_checkpoint_cas view inv)|]. intros r g g' [Hh Hn] He. pose proof He as (_ & _ & Hg). cbn in Hg.
    rewrite Hg in He |- *. assert (run_step g (push_version runId (c, Some (xi_executionLease input)) g)) as Hs by constructor.
    split; [by apply rtc_once|]. destruct (cas_held _ _ _ _ _ Hh Hn He eq_refl) as [Hk Hw].
    split; [|split; [by eapply (stable run_step)|by right]]. split; [done|by eapply (stable run_step)].
  - intros x. case_match; [|apply triple_throw]. eapply triple_bind; [eapply triple_reads; [apply _|apply (law_checkpoint_read view inv)]|].
    intros [k|]; [|apply triple_throw]. cbn. destruct (rk_terminalStatus (sk_checkpoint k)) eqn:Et; cbn; [|apply triple_throw].
    apply triple_ret. intros g [[Hh Hn] Hk]. split; [split; [by apply held_latest|done]|]. split; [done|]. left. unfold lost. by rewrite Et.
Qed.

(** ** Transitions *)
Lemma requireRun_triple (P : run_history → Prop) `{!Stable run_step P} id :
  triple P (requireRun id) (λ stored g, P g ∧ rh_runs g !! id = Some stored ∧ run_id (sn_run stored) = id).
Proof.
  unfold requireRun. eapply triple_bind; [eapply triple_reads; [apply _|apply (law_readRun view inv)]|].
  intros [stored|]; [|apply triple_throw]. apply triple_ret. intros g (HP & Hr & Hid). auto.
Qed.

(** The Run got where it was sent, or ended some other way. *)
Definition came_to (next : RunStatus) (run : StoredRun) : Prop :=
  later_status next (run_status (sn_run run)) ∨ isTerminalStatus (run_status (sn_run run)) = true.

Lemma transition_triple (P : run_history → Prop) `{!Stable run_step P} run next continuationRef :
  triple P (transition input run next continuationRef) (λ run' g, P g ∧ came_to next run').
Proof.
  unfold transition. case_bool_decide as Hst.
  { apply triple_ret. intros g HP. split; [done|]. left. rewrite Hst. apply rtc_refl. }
  eapply triple_bind; [by apply triple_frame, frame_lift|]. intros command.
  eapply triple_bind; [by apply triple_frame, frame_lift|]. intros command'. unfold transitionWithCommand.
  eapply triple_bind; [by apply requireRun_triple|]. intros latest. cbn beta.
  case_bool_decide as Hl; [apply triple_ret; intros g [HP _]; split; [done|]; left; rewrite Hl; apply rtc_refl|].
  destruct (isTerminalStatus _) eqn:Et; [apply triple_ret; intros g [HP _]; split; [done|by right]|].
  eapply triple_bind with (Q := λ _ g, P g ∧ reached (run_id (sn_run latest)) next g).
  - intros w r w' Hi (HP & _) H.
    destruct (law_transitionRun view inv _ _ _ _ _ Hi I H) as (Hi' & Hs & Hr). do 2 (split; [done|]).
    destruct r; [|done]. split; [by eapply (stable_rtc run_step P)|exact Hr].
  - intros _. eapply triple_post; [apply requireRun_triple; apply _|]. intros stored g ((HP & st & Hst' & Hl') & Hr & _).
    split; [done|]. left. assert (stored = st) as -> by congruence. done.
Qed.

Lemma guarded_transition_triple (P : run_history → Prop) `{!Stable run_step P} a run next :
  triple P (guarded_transition input a run next) (λ run' g, P g ∧ came_to next run').
Proof.
  unfold guarded_transition. apply triple_bind_frame; [done|solve_frame|]. intros _.
  eapply triple_bind; [by apply transition_triple|]. intros run'.
  apply triple_bind_frame; [apply _|solve_frame|]. intros _. by apply triple_ret.
Qed.

(** A Run at an end or in reconciliation. *)
Definition stopped (run : StoredRun) : bool :=
  isTerminalStatus (run_status (sn_run run)) || (run_status (sn_run run) === reconciling_external_result).

Lemma came_to_stopped next run :
  isTerminalStatus next || (next === reconciling_external_result) = true → came_to next run → stopped run = true.
Proof.
  intros Hn [Hl|Ht]; unfold stopped; [by eapply later_terminal|by rewrite Ht].
Qed.

(** ** What the runtime may be started from *)
Definition ready (c : RunCheckpoint) : Prop := rk_terminalStatus c = None →
  rk_phase c ≠ phase_runtime_running ∧ rk_phase c ≠ phase_reconciling_external_result.

Definition holds_ready (k : StoredRunCheckpoint) (g : run_history) : Prop :=
  (held runId k g ∧ began g) ∧ ready (sk_checkpoint k).

#[local] Instance holds_ready_stable k : Stable run_step (holds_ready k).
Proof. unfold holds_ready. apply _. Qed.

Lemma save_ready current c : ready c →
  triple (λ g, held runId current g ∧ began g) (saveCheckpoint input current c) (λ k, holds_ready k).
Proof.
  intros Hc. eapply triple_post; [apply save_triple|]. intros k g (Hk & _ & Hl). split; [done|].
  destruct Hl as [Hl|(-> & _)]; [|done]. intros Hn. by destruct Hl.
Qed.

Lemma guarded_save_ready a current c : ready c →
  triple (holds_ready current) (guarded_save input a current c) (λ k, holds_ready k).
Proof.
  intros Hc. unfold guarded_save. apply triple_bind_frame; [apply _|solve_frame|]. intros _.
  eapply triple_bind; [eapply triple_pre; [by apply save_ready|by intros g [? _]]|]. intros k. cbn beta.
  apply triple_bind_frame; [apply _|solve_frame|]. intros _. by apply triple_ret.
Qed.

Lemma record_event_ready a trace current update :
  (ready (sk_checkpoint current) → ∀ id, ready (update id (sk_checkpoint current))) →
  triple (holds_ready current) (record_event input a trace current update) (λ k, holds_ready k).
Proof.
  intros Hu. unfold record_event. apply triple_bind_frame; [apply _|solve_frame|]. intros id.
  apply triple_bind_frame; [apply _|solve_frame|]. intros _.
  eapply triple_bind.
  - intros w r w' Hi [Hh Hr]. by apply (save_ready current (update id (sk_checkpoint current)) (Hu Hr id)).
  - intros k. cbn beta. apply triple_bind_frame; [apply _|solve_frame|]. intros _. by apply triple_ret.
Qed.

(** ** Workers *)
Lemma triple_with_workers {A} (P : run_history → Prop) (Q : A → run_history → Prop) (k : WorkerRunPort W → M exn W A) :
  (∀ workers, coordinator_workers = Some workers → triple P (k workers) Q) → triple P (workers ← requireWorkers; k workers) Q.
Proof.
  intros Hk w r w' Hi HP H. unfold requireWorkers, mbind, M_bind in H.
  destruct coordinator_workers as [workers|]; [exact (Hk workers eq_refl _ _ _ Hi HP H)|by injection H as <- <-].
Qed.

Definition flow_value {A} (f : flow A) : A := match f with Continue a | Break a => a end.

Lemma worker_step_ready a request delegated s event :
  triple (holds_ready (wp_checkpoint s)) (worker_step input a request delegated s event)
    (λ next, holds_ready (wp_checkpoint (flow_value next))).
Proof.
  unfold worker_step. apply triple_bind_frame; [apply _|solve_frame|]. intros _.
  apply triple_bind_frame; [apply _|apply frame_lift|]. intros _.
  destruct (match event with worker_progress _ _ _ _ => _ | _ => _ end) as [count terminal]. case_match.
  - apply triple_with_workers. intros workers Hw. apply triple_bind_frame; [apply _|by eapply frame_worker_cancel|].
    intros _. by apply triple_ret.
  - eapply triple_bind; [by apply record_event_ready|]. intros k. cbn beta. apply triple_ret. by destruct terminal.
Qed.

Lemma close_on_throw_triple {A} (P : run_history → Prop) `{!Stable run_step P} (Q : A → run_history → Prop) close m :
  frame close → triple P m Q → triple P (close_on_throw close m) Q.
Proof.
  intros Hc Hm. unfold close_on_throw. apply triple_try_catch; [done|done|]. intros x.
  apply triple_bind_frame; [done|apply frame_try_catch; solve_frame|]. intros _. apply triple_throw.
Qed.

Lemma worker_events_ready fuel workers a request delegated n s :
  coordinator_workers = Some workers → may_run request →
  triple (holds_ready (wp_checkpoint s)) (worker_events fuel workers input a request delegated n s)
    (λ o g, match o with Some s => holds_ready (wp_checkpoint s) g | None => True end).
Proof.
  intros Hw Hm. revert n s. induction fuel as [|fuel IH]; intros n s; [by apply triple_ret|]. cbn [worker_events].
  apply triple_bind_frame; [apply _|by eapply frame_worker_next|]. intros [event|]; [|by apply triple_ret].
  eapply triple_bind; [apply close_on_throw_triple; [apply _|by eapply frame_worker_return|apply worker_step_ready]|].
  intros [s'|s']; cbn; [apply IH|]. apply triple_bind_frame; [apply _|by eapply frame_worker_return|].
  intros _. by apply triple_ret.
Qed.

Lemma option_stable {A} (P : A → run_history → Prop) o : (∀ a, Stable run_step (P a)) →
  Stable run_step (λ g, match o with Some a => P a g | None => True end).
Proof. intros HP. destruct o as [a|]; [exact (HP a)|apply _]. Qed.

Lemma worker_attempt_ready fuel a request delegated current : may_run request →
  triple (holds_ready current) (worker_attempt fuel input a request delegated current)
    (λ o g, match o with Some s => holds_ready (wp_checkpoint s) g | None => True end).
Proof.
  intros Hm. unfold worker_attempt. apply triple_try_finally; [intros o; by apply option_stable; apply _| |unfold set_active; solve_frame].
  do 3 (apply triple_bind_frame; [apply _|solve_frame|]; intros _).
  apply triple_with_workers. intros workers Hw. by apply (worker_events_ready fuel workers a request delegated 0 (mkWorkerProgress 0 None current)).
Qed.

Definition settled_ready (next : flow (StoredRun * StoredRunCheckpoint)) (g : run_history) : Prop :=
  match next with
  | Continue (_, k) => holds_ready k g
  | Break (run, k) => (held runId k g ∧ began g) ∧ stopped run = true
  end.

#[local] Instance settled_ready_stable next : Stable run_step (settled_ready next).
Proof. destruct next as [[]|[]]; apply _. Qed.

Lemma worker_stops_triple a run current status update :
  isTerminalStatus status || (status === reconciling_external_result) = true →
  triple (holds_ready current) (worker_stops input a run current status update)
    (λ p g, settled_ready (Break p) g).
Proof.
  intros Hs. unfold worker_stops. eapply triple_bind; [apply guarded_transition_triple; apply _|]. intros run'. cbn beta.
  apply (triple_pre _ _ _ (λ g, came_to status run' ∧ (held runId current g ∧ began g))); [|by intros g [[? _] ?]].
  apply triple_pure. intros Hc%came_to_stopped; [|done].
  eapply triple_bind; [eapply triple_post; [apply save_triple|]; intros k g (Hk & _); exact Hk|]. intros k. cbn beta.
  apply triple_bind_frame; [apply _|solve_frame|]. intros _. by apply triple_ret.
Qed.

Lemma worker_settles_ready a request delegated run current terminal :
  triple (holds_ready current) (worker_settles input a request delegated run current terminal) settled_ready.
Proof.
  unfold worker_settles. eapply triple_bind with (Q := λ k, holds_ready k).
  { case_match; [|by apply triple_ret]. apply triple_bind_frame; [apply _|solve_frame|]. intros _. by apply record_event_ready. }
  intros k. assert (Hstop : ∀ status update,
    isTerminalStatus status || (status === reconciling_external_result) = true →
    triple (holds_ready k) (p ← worker_stops input a run k status update; mret (Break p)) settled_ready).
  { intros status update Hs. eapply triple_bind; [by apply worker_stops_triple|]. intros p. by apply triple_ret. }
  destruct terminal; try by apply Hstop.
  intros w r w' Hi HJ. assert (ready (sk_checkpoint k)) as Hr by apply HJ. revert w r w' Hi HJ.
  eapply triple_bind; [by apply guarded_save_ready|]. intros k'. by apply triple_ret.
Qed.

Definition ran_ready (o : option (flow (StoredRun * StoredRunCheckpoint))) (g : run_history) : Prop :=
  match o with Some next => settled_ready next g | None => True end.

Lemma run_worker_ready fuel a delegation run current :
  triple (holds_ready current) (run_worker fuel input a delegation run current) ran_ready.
Proof.
  unfold run_worker. apply triple_bind_frame; [apply _|solve_frame|]. intros _.
  destruct (truthy _); [by apply triple_ret|].
  eapply triple_bind with (Q := λ _ g, delegation_valid input (wd_request delegation) = true ∧ holds_ready current g).
  { apply triple_lift. intros [] g Hv. split; [|done]. unfold assertWorkerDelegation in Hv. apply throw_if_Ok in Hv. by destruct delegation_valid. }
  intros _. apply triple_pure. intros Hv. apply triple_bind_frame; [apply _|unfold set_active; solve_frame|]. intros _.
  apply triple_bind_frame; [apply _|solve_frame|]. intros delegated.
  eapply triple_bind; [by apply guarded_save_ready|]. intros k. cbn beta.
  eapply triple_bind; [apply worker_attempt_ready; by apply delegated_may_run|]. intros [s|]; [|by apply triple_ret].
  apply triple_bind_frame; [apply _|solve_frame|]. intros _. destruct (wp_terminal s); [|apply triple_throw].
  eapply triple_bind; [apply worker_settles_ready|]. intros next. by apply triple_ret.
Qed.

Lemma run_delegations_ready fuel a delegations run current :
  triple (holds_ready current) (run_delegations fuel input a delegations run current)
    (λ o g, match o with Some (run, k) => (held runId k g ∧ began g) ∧ (stopped run = true ∨ ready (sk_checkpoint k))
            | None => True end).
Proof.
  revert run current. induction delegations as [|d ds IH]; intros run current; cbn [run_delegations].
  { apply triple_ret. intros g [? ?]. auto. }
  eapply triple_bind; [apply run_worker_ready|]. intros [[[run' k]|[run' k]]|]; cbn; [apply IH| |by apply triple_ret].
  apply triple_ret. intros g [? ?]. auto.
Qed.

(** ** The claim under which the runtime is started *)
Definition startable (c : RunCheckpoint) : Prop := rk_terminalStatus c = None ∧
  rk_phase c ≠ phase_runtime_running ∧ rk_phase c ≠ phase_reconciling_external_result.

(** [k] says that the runtime runs, was written by this attempt, and what it
    replaced says that the runtime does not run. *)
Definition claimed (k : StoredRunCheckpoint) (g : run_history) : Prop :=
  ∃ previous, held runId previous g ∧ startable (sk_checkpoint previous) ∧
    written previous ((sk_checkpoint previous) <| rk_phase := phase_runtime_running |>) k g.

Definition admitted_well (o : option admission) (g : run_history) : Prop :=
  match o with
  | Some (to_run _ _ k) => (held runId k g ∧ began g) ∧ (lost k ∨ claimed k g)
  | Some (settled _ _ k) => held runId k g ∧ began g
  | _ => True
  end.

Lemma guarded_save_triple a current c :
  triple (λ g, held runId current g ∧ began g) (guarded_save input a current c)
    (λ k g, (held runId k g ∧ began g) ∧ held runId current g ∧ (lost k ∨ written current c k g)).
Proof.
  unfold guarded_save. apply triple_bind_frame; [apply _|solve_frame|]. intros _.
  eapply triple_bind; [apply save_triple|]. intros k. cbn beta.
  apply triple_bind_frame; [apply _|solve_frame|]. intros _. by apply triple_ret.
Qed.

Lemma admit_runtime_triple fuel a resumed run current :
  triple (holds_ready current) (admit_runtime fuel input a resumed run current) admitted_well.
Proof.
  unfold admit_runtime. apply triple_bind_frame; [apply _|solve_frame|]. intros _.
  eapply triple_bind with (Q := λ o g, match o with
    | Some (run, k) => (held runId k g ∧ began g) ∧ (stopped run = true ∨ ready (sk_checkpoint k)) | None => True end).
  { case_match; [|apply triple_ret; intros g [? ?]; auto]. unfold runWorkers, set_active.
    apply triple_bind_frame; [apply _|solve_frame|]. intros _. apply run_delegations_ready. }
  intros [[run' k]|]; [|by apply triple_ret]. apply triple_bind_frame; [apply _|solve_frame|]. intros _.
  fold (stopped run'). destruct (stopped run') eqn:Es; [by apply triple_ret|].
  destruct (rk_terminalStatus (sk_checkpoint k)) eqn:Et; cbn [is_none]; [apply triple_ret; by intros g [? _]|].
  apply (triple_pre _ _ _ (λ g, startable (sk_checkpoint k) ∧ (held runId k g ∧ began g))).
  2: { intros g [Hk [Hs|Hr]]; [done|]. split; [|done]. split; [done|by apply Hr]. }
  apply triple_pure. intros Hs. eapply triple_bind; [apply guarded_save_triple|]. intros k'. cbn beta.
  apply triple_ret. intros g (Hk' & Hk & [Hl|Hw]); (split; [done|]); [by left|right]. by exists k.
Qed.

Lemma load_attempt_triple a :
  triple began (load_attempt input a) (λ x g, held runId x.2 g ∧ began g).
Proof.
  unfold load_attempt. eapply triple_bind; [eapply triple_reads; [apply _|apply (law_checkpoint_read view inv)]|].
  intros initial. cbn beta.
  set (k := default (mkStoredCheckpoint runId 0 defaultCheckpoint) initial).
  apply (triple_pre _ _ _ (λ g, held runId k g ∧ began g)).
  2: { intros g [Hb Hk]. split; [|done]. subst k. destruct initial as [k|]; [by apply held_latest|by left]. }
  apply triple_bind_frame; [apply _|solve_frame|]. intros _.
  eapply triple_bind; [apply requireRun_triple; apply _|]. intros run. cbn beta.
  apply (triple_pre _ _ _ (λ g, held runId k g ∧ began g)); [|by intros g [? _]].
  apply triple_bind_frame; [apply _|solve_frame|]. intros _.
  apply triple_bind_frame; [apply _|apply frame_lift|]. intros _. by apply triple_ret.
Qed.

(** What need not be reconciled is ready. *)
Lemma needs_no_reconciliation c : needs_reconciliation c = false → ready c.
Proof.
  unfold needs_reconciliation, interrupted_checkpoint. intros H Hn. rewrite Hn in H. cbn in H.
  rewrite andb_true_r, !orb_false_iff in H. destruct H as [[H1 _] H2]. by guards.
Qed.

Lemma form_context_ready a current :
  triple (holds_ready current) (form_context input a current) (λ k, holds_ready k).
Proof.
  unfold form_context. case_match; [by apply triple_ret|].
  apply triple_bind_frame; [apply _|by eapply frame_context_form|]. intros formed. by apply guarded_save_ready.
Qed.

Lemma start_running_triple (P : run_history → Prop) `{!Stable run_step P} a run current :
  triple P (start_running input a run current) (λ _, P).
Proof.
  unfold start_running. eapply triple_bind with (Q := λ _, P).
  { case_match; [|by apply triple_ret]. case_match; [|apply triple_throw].
    eapply triple_post; [by apply transition_triple|]. by intros ? g [? _]. }
  intros run'. case_match; [|by apply triple_ret].
  eapply triple_post; [by apply guarded_transition_triple|]. by intros ? g [? _].
Qed.

Lemma start_building_triple (P : run_history → Prop) `{!Stable run_step P} a run :
  triple P (start_building input a run) (λ _, P).
Proof.
  unfold start_building. case_match; [|by apply triple_ret].
  eapply triple_post; [by apply guarded_transition_triple|]. by intros ? g [? _].
Qed.

Lemma stop_cancelled_triple a resumed run current :
  triple (λ g, held runId current g ∧ began g) (stop_cancelled input a resumed run current)
    (λ done _, ∃ r, done = finished r).
Proof.
  unfold stop_cancelled. eapply triple_bind; [apply guarded_transition_triple; apply _|]. intros run'. cbn beta.
  eapply triple_bind; [eapply triple_pre; [apply save_triple|by intros g [? _]]|]. intros k. cbn beta.
  apply triple_bind_frame; [apply _|solve_frame|]. intros _. apply triple_ret. intros. by eexists.
Qed.

Lemma reconcile_attempt_triple a resumed run current :
  triple (λ g, held runId current g ∧ began g) (reconcile_attempt input a resumed run current)
    (λ done _, ∃ r, done = finished r).
Proof.
  unfold reconcile_attempt. eapply triple_bind; [apply guarded_save_triple|]. intros k. cbn beta.
  eapply triple_bind; [apply transition_triple; apply _|]. intros run'. cbn beta.
  apply triple_bind_frame; [apply _|solve_frame|]. intros _. apply triple_ret. intros. by eexists.
Qed.

Lemma admit_attempt_triple fuel a : triple began (admit_attempt fuel input a) admitted_well.
Proof.
  unfold admit_attempt. eapply triple_bind; [apply load_attempt_triple|]. intros [[resumed run] current]. cbn [snd].
  case_match; [by apply triple_ret|].
  assert (Hfin : ∀ m : M exn W admission, triple (λ g, held runId current g ∧ began g) m (λ done _, ∃ r, done = finished r) →
    triple (λ g, held runId current g ∧ began g) (done ← m; mret (Some done)) admitted_well).
  { intros m Hm. eapply triple_bind; [exact Hm|]. intros done. apply triple_ret. by intros g [r ->]. }
  destruct (needs_reconciliation (sk_checkpoint current)) eqn:En; [apply Hfin, reconcile_attempt_triple|].
  apply needs_no_reconciliation in En.
  apply (triple_pre _ _ _ (holds_ready current)); [|done].
  eapply triple_bind; [apply start_building_triple; apply _|]. intros run1. cbn beta.
  eapply triple_bind; [apply form_context_ready|]. intros k. cbn beta.
  eapply triple_bind; [apply start_running_triple; apply _|]. intros run2. cbn beta.
  apply triple_bind_frame; [apply _|apply frame_gets|]. intros [|]; [|apply admit_runtime_triple].
  eapply triple_bind; [eapply triple_pre; [apply stop_cancelled_triple|by intros g [? _]]|].
  intros done. apply triple_ret. by intros g [r ->].
Qed.

(** ** The runtime and after *)
Definition holds (k : StoredRunCheckpoint) (g : run_history) : Prop := held runId k g ∧ began g.

#[local] Instance holds_stable k : Stable run_step (holds k).
Proof. unfold holds. apply _. Qed.

Lemma save_holds current c : triple (holds current) (saveCheckpoint input current c) (λ k, holds k).
Proof. eapply triple_post; [apply save_triple|]. by intros k g [? _]. Qed.

Lemma runtime_step_holds a current observed event :
  triple (holds current) (runtime_step input a current observed event) (λ next, holds (flow_value next)).
Proof.
  unfold runtime_step. apply triple_bind_frame; [apply _|solve_frame|]. intros _.
  apply triple_bind_frame; [apply _|apply frame_lift|]. intros _.
  apply triple_bind_frame; [apply _|solve_frame|]. intros id.
  apply triple_bind_frame; [apply _|solve_frame|]. intros _.
  eapply triple_bind; [apply save_holds|]. intros k. cbn beta.
  apply triple_bind_frame; [apply _|solve_frame|]. intros _. apply triple_ret. by destruct ends_runtime.
Qed.

Definition ended_holds (o : option StoredRunCheckpoint) (g : run_history) : Prop :=
  match o with Some k => holds k g | None => True end.

Lemma runtime_events_holds fuel a request n observed current :
  triple (holds current) (runtime_events fuel input a request n observed current) ended_holds.
Proof.
  revert n observed current. induction fuel as [|fuel IH]; intros n observed current; [by apply triple_ret|].
  cbn [runtime_events]. apply triple_bind_frame; [apply _|solve_frame|]. intros [event|]; [|by apply triple_ret].
  eapply triple_bind; [apply close_on_throw_triple; [apply _|solve_frame|apply runtime_step_holds]|].
  intros [k|k]; cbn; [apply IH|]. apply triple_bind_frame; [apply _|solve_frame|]. intros _. by apply triple_ret.
Qed.

Lemma runRuntime_holds fuel current a : triple (holds current) (runRuntime fuel input current a) ended_holds.
Proof.
  unfold runRuntime, set_runtime_active. do 2 (apply triple_bind_frame; [apply _|solve_frame|]; intros _).
  apply triple_try_finally; [intros o; by apply option_stable; apply _| |solve_frame].
  apply triple_bind_frame; [apply _|solve_frame|]. intros _. apply runtime_events_holds.
Qed.

(** A held checkpoint that is completed with an output can be published. *)
Lemma held_publishable k g o : held runId k g → rk_terminalStatus (sk_checkpoint k) = Some settled_completed →
  rk_output (sk_checkpoint k) = Some o → publishable runId o g.
Proof.
  intros [[_ Hd]|(i & lease & Hi & _)] Ht Ho; [by rewrite Hd in Ht|].
  exists (sk_checkpoint k, lease). split; [by eapply list_elem_of_lookup_2|done].
Qed.

Lemma complete_run_triple a k : rk_terminalStatus (sk_checkpoint k) = Some settled_completed →
  triple (holds k) (complete_run input a (sk_checkpoint k)) (λ _, holds k).
Proof.
  intros Ht. unfold complete_run. destruct (rk_output (sk_checkpoint k)) as [o|] eqn:Eo; [|apply triple_throw].
  eapply triple_bind; [apply requireRun_triple; apply _|]. intros latest. cbn beta.
  apply (triple_pre _ _ _ (holds k)); [|by intros g [? _]].
  apply triple_bind_frame; [apply _|solve_frame|]. intros _.
  eapply triple_bind with (Q := λ _, holds k).
  { case_match; [by apply triple_ret|]. eapply triple_bind with (Q := λ _, holds k); [|intros; by apply triple_ret].
    intros w r w' Hi Hh Hrun. assert (publishable (cp_runId (completion_input input latest o))
      (cp_output (completion_input input latest o)) (view w)) as Hp by (eapply held_publishable; [apply Hh|done|done]).
    destruct (law_completeRun view inv _ _ _ _ _ Hi Hp Hrun) as (Hi' & Hs & _).
    do 2 (split; [done|]). destruct r; [|done]. by eapply (stable_rtc run_step (holds k)). }
  intros _. apply triple_bind_frame; [apply _|solve_frame|]. intros _.
  eapply triple_post; [apply requireRun_triple; apply _|]. by intros ? g [? _].
Qed.

Lemma finish_run_triple a resumed run k terminal : rk_terminalStatus (sk_checkpoint k) = Some terminal →
  triple (holds k) (finish_run input a resumed run k terminal) (λ _ _, True).
Proof.
  intros Ht. unfold finish_run. eapply triple_bind with (Q := λ _, holds k).
  { case_bool_decide; [subst; by apply complete_run_triple|].
    eapply triple_post; [apply guarded_transition_triple; apply _|]. by intros ? g [? _]. }
  intros run'. eapply triple_bind; [apply guarded_save_triple|]. intros k'. by apply triple_ret.
Qed.

Lemma transition_is_frame run next continuationRef : frame (transition input run next continuationRef).
Proof. eapply triple_is_frame, transition_triple. apply _. Qed.

Lemma frame_stop_resources id : frame (stop_resources id).
Proof. unfold stop_resources. solve_frame. Qed.

Lemma settle_attempt_triple a resumed run k :
  triple (holds k) (settle_attempt input a resumed run k) (λ _ _, True).
Proof.
  assert (Hend : ∀ next c, triple (λ _, True) (run ← transition input run next c; mret (coordinated_result run (sk_checkpoint k) resumed)) (λ _ _, True)).
  { intros next c. apply triple_bind_frame; [apply _|apply transition_is_frame|]. intros. by apply triple_ret. }
  assert (Hrest : triple (holds k) (match rk_terminalStatus (sk_checkpoint k) with
    | None => throw (no_terminal_event (xi_runId input))
    | Some terminal =>
        released ← stop_resources (xi_runId input);
        if (terminal === settled_completed) && (released === Some false) then
          saved ← saveCheckpoint input k
            ((sk_checkpoint k) <| rk_phase := phase_reconciling_external_result |> <| rk_terminalStatus := None |>
               <| rk_diagnosticCode := Some "RUN_RESOURCE_CLEANUP_UNCONFIRMED" |>);
          run ← transition input run reconciling_external_result None;
          mret (coordinated_result run (sk_checkpoint saved) resumed)
        else finish_run input a resumed run k terminal
    end) (λ _ _, True)).
  { destruct (rk_terminalStatus (sk_checkpoint k)) as [terminal|] eqn:Et; [|apply triple_throw].
    apply triple_bind_frame; [apply _|apply frame_stop_resources|]. intros released. case_match; [|by apply finish_run_triple].
    eapply triple_bind; [apply save_holds|]. intros k'. cbn beta.
    apply triple_bind_frame; [apply _|apply transition_is_frame|]. intros. by apply triple_ret. }
  unfold settle_attempt. destruct (rk_phase (sk_checkpoint k)); try exact Hrest.
  - eapply triple_pre; [apply Hend|done].
  - apply triple_bind_frame; [apply _|solve_frame|]. intros _. eapply triple_pre; [apply Hend|done].
Qed.

Lemma executeAttempt_triple fuel a : triple began (executeAttempt fuel input a) (λ _ _, True).
Proof.
  unfold executeAttempt. eapply triple_bind; [apply admit_attempt_triple|].
  intros [[result|resumed run k|resumed run k]|]; try by apply triple_ret.
  - eapply triple_bind; [apply settle_attempt_triple|]. intros. by apply triple_ret.
  - eapply triple_bind; [eapply triple_pre; [apply runRuntime_holds|by intros g [? _]]|].
    intros [k'|]; [|by apply triple_ret]. apply triple_bind_frame; [apply _|solve_frame|]. intros _.
    eapply triple_bind; [apply settle_attempt_triple|]. intros. by apply triple_ret.
Qed.

(** ** The start of the runtime *)
Lemma assert_not_interrupted a w u w' :
  assertExecutionActive a w = (Ok u, w') → ea_interrupted (attempt_at a (co_get w')) = None.
Proof.
  unfold assertExecutionActive. intros H. apply M_bind_Ok in H as (attempt & w1 & _ & H).
  apply M_bind_Ok in H as ([] & w2 & _ & H). apply M_bind_Ok in H as (now & w3 & Hn & H). injection Hn as <- <-.
  destruct (ea_interrupted _) eqn:E; [done|]. by injection H as _ <-.
Qed.

Lemma guarded_save_not_interrupted a current c w k w' :
  guarded_save input a current c w = (Ok k, w') → ea_interrupted (attempt_at a (co_get w')) = None.
Proof.
  unfold guarded_save. intros H. apply M_bind_Ok in H as ([] & w1 & _ & H). apply M_bind_Ok in H as (k' & w2 & _ & H).
  apply M_bind_Ok in H as ([] & w3 & Ha & H). injection H as _ <-. by eapply assert_not_interrupted.
Qed.

Lemma admit_runtime_not_interrupted fuel a resumed run current w resumed' run' k w' :
  admit_runtime fuel input a resumed run current w = (Ok (Some (to_run resumed' run' k)), w') →
  ea_interrupted (attempt_at a (co_get w')) = None.
Proof.
  unfold admit_runtime. intros H. apply M_bind_Ok in H as ([] & w1 & _ & H). apply M_bind_Ok in H as (o & w2 & _ & H).
  destruct o as [[run1 k1]|]; [|done]. apply M_bind_Ok in H as ([] & w3 & _ & H). case_match; [done|].
  case_match; [|done]. apply M_bind_Ok in H as (k2 & w4 & Hs & H). injection H as _ _ _ <-.
  by eapply guarded_save_not_interrupted.
Qed.

(** Only the last way out leads to the runtime. *)
Lemma finishing_not_to_run (m : M exn W admission) w resumed run k w' :
  (∀ w d w', m w = (Ok d, w') → ∃ r, d = finished r) →
  (d ← m; mret (Some d)) w ≠ (Ok (Some (to_run resumed run k)), w').
Proof. intros Hm H. apply M_bind_Ok in H as (d & w1 & Hd & H). apply Hm in Hd as [r ->]. by injection H. Qed.

Lemma stop_cancelled_finishes a resumed run current w d w' :
  stop_cancelled input a resumed run current w = (Ok d, w') → ∃ r, d = finished r.
Proof.
  unfold stop_cancelled. intros H. do 3 apply M_bind_Ok in H as (? & ? & _ & H). injection H as <- _. by eexists.
Qed.

Lemma reconcile_attempt_finishes a resumed run current w d w' :
  reconcile_attempt input a resumed run current w = (Ok d, w') → ∃ r, d = finished r.
Proof.
  unfold reconcile_attempt. intros H. do 3 apply M_bind_Ok in H as (? & ? & _ & H). injection H as <- _. by eexists.
Qed.

Lemma admit_attempt_not_interrupted fuel a w resumed run k w' :
  admit_attempt fuel input a w = (Ok (Some (to_run resumed run k)), w') →
  ea_interrupted (attempt_at a (co_get w')) = None.
Proof.
  unfold admit_attempt. intros H. apply M_bind_Ok in H as ([[r0 run0] k0] & w1 & _ & H). case_match; [done|].
  case_match; [by apply finishing_not_to_run in H; [|intros; by eapply reconcile_attempt_finishes]|].
  do 4 apply M_bind_Ok in H as (? & ? & _ & H). case_match; [|by eapply admit_runtime_not_interrupted].
  by apply finishing_not_to_run in H; [|intros; by eapply stop_cancelled_finishes].
Qed.
End attempt.

(** The rest of [execute]. *)
Lemma frame_requireRun id : frame (requireRun id).
Proof. eapply triple_is_frame, requireRun_triple. apply _. Qed.
Hint Resolve frame_requireRun : frames.

Lemma frame_checkpoint_read id : frame (checkpoint_read id).
Proof.
  intros w r w' Hi H. destruct (law_checkpoint_read view inv _ _ _ _ Hi H) as (Hi' & s & Hs & He). split; [done|].
  destruct r; [by destruct He as [_ ->]|by rewrite He].
Qed.
Hint Resolve frame_checkpoint_read : frames.

Lemma frame_saveCheckpoint input current c : frame (saveCheckpoint input current c).
Proof.
  unfold saveCheckpoint. apply frame_try_catch; [|solve_frame].
  intros w r w' Hi H. destruct (law_checkpoint_cas view inv _ _ _ _ Hi H) as (Hi' & s & Hs & He). split; [done|].
  destruct r; [|by rewrite He]. destruct He as (_ & _ & ->). etrans; [exact Hs|]. apply rtc_once. constructor.
Qed.

Lemma frame_finishExpiredApprovalWait input : frame (finishExpiredApprovalWait input).
Proof.
  unfold finishExpiredApprovalWait. pose proof frame_saveCheckpoint. pose proof transition_is_frame. solve_frame.
Qed.

Lemma frame_beginExecutionAttempt input : frame (beginExecutionAttempt input).
Proof. unfold beginExecutionAttempt, attempt_deadline. solve_frame. Qed.

Lemma frame_close_attempt a : frame (close_attempt a).
Proof. unfold close_attempt, endExecutionAttempt. solve_frame. Qed.
End execution.
