(* ===== verification/RunGuarantees.v ===== *)
(** The theorems on Run coordination: the claim under which the runtime is
    started, what is published, what a Worker's result must keep to, and
    termination. *)
From S2P Require Import Prelude Js JsJson Identifiers Contract Entities AuthTypes.
From S2P Require Import Coordination Persistence Delegation RunState RunCoordination RunCoordinator RunContract RunExecution.
Local Open Scope Z_scope.

(** ** Claims *)
Lemma claimed_running input n0 k g : claimed input n0 k g → 0 ≤ sk_revision k - 1 ∧
  interrupted_checkpoint (sk_checkpoint k) = true ∧
  versions (xi_runId input) g !! Z.to_nat (sk_revision k - 1) = Some (sk_checkpoint k, Some (xi_executionLease input)).
Proof.
  intros (p & Hh & (Ht & _) & Hk & Hr & _ & Hv). assert (0 ≤ sk_revision p) as Hp.
  { destruct Hh as [[-> _]|(i & lease & _ & ->)]; lia. }
  split; [lia|]. rewrite Hr, Hk. split; [unfold interrupted_checkpoint; cbn; by rewrite Ht|].
  by replace (sk_revision p + 1 - 1) with (sk_revision p) by lia.
Qed.

(** Starts of the runtime are apart: of two claims on one Run, either both
    are one write under one execution lease, or between them the checkpoint
    said that the runtime does not run and that the Run is not to be
    reconciled; so an interrupted runtime is not started again. *)
Theorem runtime_starts_apart input input' n0 n0' k k' g :
  claimed input n0 k g → claimed input' n0' k' g → xi_runId input' = xi_runId input →
  sk_revision k ≤ sk_revision k' →
  (sk_revision k = sk_revision k' ∧ xi_executionLease input = xi_executionLease input') ∨
  ∃ between lease, sk_revision k < sk_revision between < sk_revision k' ∧ startable (sk_checkpoint between) ∧
    versions (xi_runId input) g !! Z.to_nat (sk_revision between - 1) = Some (sk_checkpoint between, lease).
Proof.
  intros Hc Hc' Hid Hle. pose proof (claimed_running _ _ _ _ Hc) as (Hk0 & Hrun & Hv).
  pose proof (claimed_running _ _ _ _ Hc') as (Hk0' & _ & Hv'). rewrite Hid in Hv'.
  destruct (decide (sk_revision k = sk_revision k')) as [He|Hne].
  { left. split; [done|]. rewrite <-He, Hv in Hv'. congruence. }
  right. destruct Hc' as (p & Hh & Hs & _ & Hr' & _). rewrite Hid in Hh.
  assert (sk_revision k ≠ sk_revision p) as Hkp.
  { intros He. destruct Hh as [[Hz _]|(i & lease & Hi & Hi')]; [lia|].
    assert (Z.to_nat (sk_revision k - 1) = i) as Hk by lia. rewrite Hk, Hi in Hv. injection Hv as Hv _.
    destruct Hs as (Ht & Hp & _). unfold interrupted_checkpoint in Hrun. rewrite <-Hv, Ht in Hrun. cbn in Hrun.
    rewrite andb_true_r, bool_decide_eq_true in Hrun. congruence. }
  destruct Hh as [[Hz _]|(i & lease & Hi & Hi')]; [lia|].
  exists p, lease. split; [lia|]. split; [done|]. by replace (Z.to_nat (sk_revision p - 1)) with i by lia.
Qed.

Section guarantees.
Context {W : Type} `{!CoordinatorState W, !CoordinatorDependencies W, !RunLifecyclePort W, !RunCheckpointStore W,
  !ContextFormationPort W, !AgentRuntimePort W, !SessionTraceRecorder W}.

Section history.
Context (view : W → run_history) (inv : W → Prop) (may_run : WorkerRunRequest → Prop)
  `{!RunHistoryLaws view inv, !RunFrames view inv may_run}.


(** C18 Publication: [execute] asks for the completion of a Run only with an
    output that a checkpoint of that Run has settled with before, and sends
    Workers nothing but delegations that are within its input; together with
    everyone else's steps it keeps the published outputs among the settled
    ones, each of a completed Run. *)
Theorem execute_publishes_settled fuel input w r w' :
  (∀ request, delegation_valid input request = true → may_run request) →
  inv w → execute_run fuel input w = (r, w') →
  inv w' ∧ rtc run_step (view w) (view w') ∧ (published_wf (view w) → published_wf (view w')).
Proof.
  intros Hm Hi H. cut (inv w' ∧ rtc run_step (view w) (view w')).
  { intros [Hi' Hs]. do 2 (split; [done|]). by apply published_wf_rtc. }
  cut (gen_frame_law run_step view inv (execute_run fuel input)); [intros Hf; by eapply Hf|]. unfold execute_run.
  apply frame_bind; [apply frame_lift|]. intros _.
  apply frame_bind; [by eapply frame_finishExpiredApprovalWait|]. intros [res|]; [apply frame_ret|].
  apply frame_bind; [by eapply frame_beginExecutionAttempt|]. intros a.
  apply frame_try_finally; [|by eapply frame_close_attempt].
  eapply triple_is_frame, triple_pre; [by eapply (executeAttempt_triple view inv may_run input Hm 0)|].
  intros g _. apply Nat.le_0_l.
Qed.
End history.

(** ** Workers *)
Definition is_progress (e : WorkerRunEvent) : bool := match e with worker_progress _ _ _ _ => true | _ => false end.

(** [e] is what the Worker said last, after at most as many progress events as it may send. *)
Definition said_last (request : WorkerRunRequest) (workers : WorkerRunPort W) (e : WorkerRunEvent) : Prop :=
  ∃ n w w', worker_next (WorkerRunPort := workers) request n w = (Ok (Some e), w') ∧
    Z.of_nat n ≤ rb_maxProgressEvents (rr_budget request) ∧ is_progress e = false ∧
    event_workerRunId e = rr_workerRunId request.

Definition progress_exceeded (e : WorkerRunEvent) : Prop :=
  ∃ id t, e = worker_failed id "WORKER_PROGRESS_BUDGET_EXCEEDED" t.

Lemma worker_step_terminal input a request delegated s event n w next w' :
  worker_step input a request delegated s event w = (Ok next, w') → wp_terminal s = None → wp_count s = Z.of_nat n →
  event_workerRunId event = rr_workerRunId request ∧
  match next with
  | Continue s' => wp_terminal s' = None ∧ wp_count s' = Z.of_nat (S n) ∧
      Z.of_nat (S n) ≤ rb_maxProgressEvents (rr_budget request)
  | Break s' => ∃ e, wp_terminal s' = Some e ∧ (e = event ∧ is_progress e = false ∨ progress_exceeded e)
  end.
Proof.
  intros H Ht Hn. unfold worker_step in H. apply M_bind_Ok in H as ([] & w1 & _ & H).
  apply M_bind_Ok in H as ([] & w2 & Hid & H). injection Hid as Hid _. apply throw_if_Ok in Hid. guards_in Hid.
  split; [done|]. destruct event as [id sequence ref t|? ? ? ? ?|? ? ?|? ? ?|? ? ?]; cbn [is_progress] in *.
  - destruct (rb_maxProgressEvents (rr_budget request) <? wp_count s + 1) eqn:E.
    + apply M_bind_Ok in H as (ws & w3 & _ & H). apply M_bind_Ok in H as (? & w4 & _ & H). injection H as <- _.
      eexists. split; [done|]. right. by do 2 eexists.
    + apply M_bind_Ok in H as (k & w3 & _ & H). rewrite Ht in H. injection H as <- _. cbn. split; [done|]. lia.
  - apply M_bind_Ok in H as (k & w3 & _ & H). injection H as <- _. eexists. split; [done|by left].
  - apply M_bind_Ok in H as (k & w3 & _ & H). injection H as <- _. eexists. split; [done|by left].
  - apply M_bind_Ok in H as (k & w3 & _ & H). injection H as <- _. eexists. split; [done|by left].
  - apply M_bind_Ok in H as (k & w3 & _ & H). injection H as <- _. eexists. split; [done|by left].
Qed.

Lemma worker_events_terminal fuel workers input a request delegated n s w s' w' :
  worker_events fuel workers input a request delegated n s w = (Ok (Some s'), w') →
  wp_terminal s = None → wp_count s = Z.of_nat n → Z.of_nat n ≤ rb_maxProgressEvents (rr_budget request) →
  ∀ e, wp_terminal s' = Some e → said_last request workers e ∨ progress_exceeded e.
Proof.
  revert n s w. induction fuel as [|fuel IH]; intros n s w H Ht Hn Hle e He; [done|]. cbn [worker_events] in H.
  apply M_bind_Ok in H as (event & w1 & Hev & H). destruct event as [event|]; [|injection H as <- _; congruence].
  apply M_bind_Ok in H as (next & w2 & Hst & H).
  assert (worker_step input a request delegated s event w1 = (Ok next, w2)) as Hstep.
  { unfold close_on_throw, try_catch in Hst. destruct (worker_step _ _ _ _ _ _ w1) as [[y|x] w3]; [congruence|].
    apply M_bind_Ok in Hst as (? & ? & _ & Hst). by injection Hst. }
  destruct (worker_step_terminal _ _ _ _ _ _ n _ _ _ Hstep Ht Hn) as [Hid Hnext]. destruct next as [s1|s1].
  - destruct Hnext as (Ht1 & Hn1 & Hle1). exact (IH _ _ _ H Ht1 Hn1 Hle1 e He).
  - apply M_bind_Ok in H as ([] & w3 & _ & H). injection H as <- _. destruct Hnext as (e' & He' & Hor).
    assert (e' = e) as -> by congruence. destruct Hor as [[-> Hp]|Hp]; [left|by right]. by exists n, w, w1.
Qed.

Lemma worker_attempt_terminal fuel input a request delegated current w s w' e :
  worker_attempt fuel input a request delegated current w = (Ok (Some s), w') → wp_terminal s = Some e →
  0 ≤ rb_maxProgressEvents (rr_budget request) →
  ∃ workers, coordinator_workers = Some workers ∧ (said_last request workers e ∨ progress_exceeded e).
Proof.
  unfold worker_attempt. intros (u & w1 & E & _)%try_finally_Ok He Hb.
  do 3 apply M_bind_Ok in E as ([] & ? & _ & E). apply M_bind_Ok in E as (workers & w3 & Hw & E).
  unfold requireWorkers in Hw. destruct coordinator_workers as [ws|]; [|done]. injection Hw as -> _.
  exists workers. split; [done|]. by eapply (worker_events_terminal _ _ _ _ _ _ 0).
Qed.

Lemma worker_settles_continues input a request delegated run current terminal w run' k w' :
  worker_settles input a request delegated run current terminal w = (Ok (Continue (run', k)), w') →
  run' = run ∧ ∃ id resultRef cost duration t before w1,
    terminal = worker_completed id resultRef cost duration t ∧
    guarded_save input a before (with_worker_result (rr_workerRunId request) resultRef (sk_checkpoint before)) w1 = (Ok k, w').
Proof.
  unfold worker_settles. intros H. apply M_bind_Ok in H as (before & w1 & _ & H). destruct terminal as [|id ref cost duration t| | |].
  2: { apply M_bind_Ok in H as (k' & w2 & Hs & H). injection H as <- <- <-. split; [done|].
       by exists id, ref, cost, duration, t, before, w1. }
  all: by apply M_bind_Ok in H as (stopped & w2 & _ & H).
Qed.

Lemma budgeted_completed request e id ref cost duration t :
  budgeted_terminal request e = worker_completed id ref cost duration t →
  e = worker_completed id ref cost duration t ∧
  cost ≤ rb_maxCostMicros (rr_budget request) ∧ duration ≤ rb_maxDurationMs (rr_budget request).
Proof.
  unfold budgeted_terminal. destruct e; try done. case_match eqn:E; [done|]. apply orb_false_iff in E as [? ?].
  injection 1 as -> -> -> -> ->. split; [done|]. lia.
Qed.

Lemma delegation_valid_budget input request : delegation_valid input request = true →
  0 ≤ rb_maxProgressEvents (rr_budget request).
Proof. unfold delegation_valid. cbn. intros H. guards_in H. lia. Qed.

(** A result of a Worker is kept only within its delegation: when the loop
    over the delegations goes on past a Worker whose result was not there yet,
    the delegation is within the input of the Run, the Worker said as its last
    event, after at most the allowed number of progress events, that it had
    completed, at a cost and in a time within its budget, and the checkpoint
    was saved with its result; the Run did not move. *)
Theorem worker_result_in_budget fuel input a delegation run current w run' k w' :
  let request := wd_request delegation in
  run_worker fuel input a delegation run current w = (Ok (Some (Continue (run', k))), w') →
  truthy (map_get (rr_workerRunId request) (rk_workerResults (sk_checkpoint current))) = None →
  run' = run ∧ delegation_valid input request = true ∧
  ∃ workers resultRef cost duration t before w1,
    coordinator_workers = Some workers ∧
    said_last request workers (worker_completed (rr_workerRunId request) resultRef cost duration t) ∧
    cost ≤ rb_maxCostMicros (rr_budget request) ∧ duration ≤ rb_maxDurationMs (rr_budget request) ∧
    guarded_save input a before (with_worker_result (rr_workerRunId request) resultRef (sk_checkpoint before)) w1 = (Ok k, w').
Proof.
  intros request H Hnew. unfold run_worker in H. fold request in H. apply M_bind_Ok in H as ([] & w1 & _ & H).
  rewrite Hnew in H. apply M_bind_Ok in H as ([] & w2 & Hv & H). injection Hv as Hv _.
  apply throw_if_Ok, negb_false_iff in Hv. apply M_bind_Ok in H as ([] & w3 & _ & H). apply M_bind_Ok in H as (delegated & w4 & _ & H).
  apply M_bind_Ok in H as (k1 & w5 & _ & H). apply M_bind_Ok in H as (o & w6 & Hat & H). destruct o as [s|]; [|done].
  apply M_bind_Ok in H as ([] & w7 & _ & H). destruct (wp_terminal s) as [e|] eqn:Ee; [|done].
  apply M_bind_Ok in H as (next & w8 & Hset & H). injection H as -> <-.
  apply worker_attempt_terminal with (e := e) in Hat as (workers & Hws & He);
    [|done|by eapply delegation_valid_budget].
  apply worker_settles_continues in Hset as (-> & id & ref & cost & duration & t & before & w9 & Hterm & Hsave).
  apply budgeted_completed in Hterm as (-> & Hcost & Hdur).
  destruct He as [He|(? & ? & [=])]. split; [done|]. split; [done|].
  assert (id = rr_workerRunId request) as -> by (destruct He as (? & ? & ? & _ & _ & _ & Hid); exact Hid).
  by exists workers, ref, cost, duration, t, before, w9.
Qed.

(** ** Termination

    A computation does not run out of fuel; a stream of events ends before its
    [N]-th event. *)
Definition in_fuel {A} (m : M exn W (option A)) : Prop := ∀ w w', m w ≠ (Ok None, w').
Definition ends_by {E} (N : nat) (next : nat → M exn W (option E)) : Prop :=
  ∀ n w e w', (N ≤ n)%nat → next n w ≠ (Ok (Some e), w').

Lemma in_fuel_some {A} (a : A) : in_fuel (mret (Some a)).
Proof. done. Qed.
Lemma in_fuel_throw {A} x : in_fuel (throw x : M exn W (option A)).
Proof. done. Qed.
Lemma in_fuel_bind {A B} (m : M exn W A) (f : A → M exn W (option B)) : (∀ a, in_fuel (f a)) → in_fuel (a ← m; f a).
Proof. intros Hf w w' H. apply M_bind_Ok in H as (a & w1 & _ & H). by apply Hf in H. Qed.
Lemma in_fuel_option {A B} (m : M exn W (option A)) (f : option A → M exn W (option B)) :
  in_fuel m → (∀ a, in_fuel (f (Some a))) → in_fuel (a ← m; f a).
Proof.
  intros Hm Hf w w' H. apply M_bind_Ok in H as ([a|] & w1 & H1 & H); [by apply Hf in H|by apply Hm in H1].
Qed.
Lemma in_fuel_try_finally {A} (m : M exn W (option A)) f : in_fuel m → in_fuel (try_finally m f).
Proof.
  intros Hm w w' (u & w1 & H & _)%try_finally_Ok. by apply Hm in H.
Qed.

Section termination.
Context (N fuel : nat) (Hfuel : (N < fuel)%nat).
Context (Hworkers : ∀ workers request, coordinator_workers = Some workers → ends_by N (worker_next (WorkerRunPort := workers) request)).
Context (Hruntime : ∀ request, ends_by N (runtime_next request)).

Create HintDb in_fuel.
#[local] Hint Resolve in_fuel_some in_fuel_throw : in_fuel.
Ltac solve_in_fuel := repeat (intros; first
  [solve [eauto with in_fuel] | apply in_fuel_try_finally | apply in_fuel_option; [solve [eauto with in_fuel]|] | apply in_fuel_bind | case_match]).

Lemma worker_events_in_fuel more workers input a request delegated n s :
  ends_by N (worker_next (WorkerRunPort := workers) request) → (n ≤ N < n + more)%nat →
  in_fuel (worker_events more workers input a request delegated n s).
Proof.
  intros HN. revert n s. induction more as [|more IH]; intros n s Hlt; [lia|]. cbn [worker_events]. intros w w' H.
  apply M_bind_Ok in H as ([e|] & w1 & He & H); [|done].
  assert (n < N)%nat by (destruct (decide (N ≤ n)%nat) as [Hn|]; [by apply (HN _ _ _ _ Hn) in He|lia]).
  revert H. apply in_fuel_bind. intros [s'|s']; [apply IH; lia|solve_in_fuel].
Qed.

Lemma runtime_events_in_fuel more input a request n observed current : (n ≤ N < n + more)%nat →
  in_fuel (runtime_events more input a request n observed current).
Proof.
  revert n observed current. induction more as [|more IH]; intros n observed current Hlt; [lia|].
  cbn [runtime_events]. intros w w' H. apply M_bind_Ok in H as ([e|] & w1 & He & H); [|done].
  assert (n < N)%nat by (destruct (decide (N ≤ n)%nat) as [Hn|]; [by apply (Hruntime _ _ _ _ _ Hn) in He|lia]).
  revert H. apply in_fuel_bind. intros [k|k]; [apply IH; lia|solve_in_fuel].
Qed.

Lemma worker_attempt_in_fuel input a request delegated current : in_fuel (worker_attempt fuel input a request delegated current).
Proof.
  unfold worker_attempt. apply in_fuel_try_finally. do 3 (apply in_fuel_bind; intros _). intros w w' H.
  unfold requireWorkers in H. destruct coordinator_workers as [workers|] eqn:E; [|done].
  eapply (worker_events_in_fuel fuel workers); [by apply Hworkers| |exact H]. lia.
Qed.
#[local] Hint Resolve worker_attempt_in_fuel : in_fuel.

Lemma run_worker_in_fuel input a delegation run current : in_fuel (run_worker fuel input a delegation run current).
Proof. unfold run_worker. solve_in_fuel. Qed.
#[local] Hint Resolve run_worker_in_fuel : in_fuel.

Lemma run_delegations_in_fuel input a delegations run current : in_fuel (run_delegations fuel input a delegations run current).
Proof. revert run current. induction delegations as [|d ds IH]; intros; cbn [run_delegations]; solve_in_fuel. Qed.
#[local] Hint Resolve run_delegations_in_fuel : in_fuel.

Lemma runRuntime_in_fuel input current a : in_fuel (runRuntime fuel input current a).
Proof.
  unfold runRuntime. do 2 (apply in_fuel_bind; intros _). apply in_fuel_try_finally, in_fuel_bind. intros _.
  apply runtime_events_in_fuel. lia.
Qed.
#[local] Hint Resolve runRuntime_in_fuel : in_fuel.

Lemma admit_attempt_in_fuel input a : in_fuel (admit_attempt fuel input a).
Proof.
  unfold admit_attempt, admit_runtime, runWorkers. apply in_fuel_bind. intros [[resumed run] current].
  do 2 (case_match; [solve_in_fuel|]). do 4 (apply in_fuel_bind; intros ?). case_match; [solve_in_fuel|].
  apply in_fuel_bind. intros _. apply in_fuel_option; [case_match; solve_in_fuel|]. solve_in_fuel.
Qed.
#[local] Hint Resolve admit_attempt_in_fuel : in_fuel.

(** [execute] comes to an end: when the streams of the Workers and of the
    runtime end before their [N]-th event, [N + 1] units of fuel are enough
    for an outcome, a result or an exception. *)
Theorem execute_run_terminates input w : ∀ w', execute_run fuel input w ≠ (Ok None, w').
Proof.
  revert w. change (in_fuel (execute_run fuel input)). unfold execute_run, executeAttempt.
  do 2 (apply in_fuel_bind; intros ?). case_match; [apply in_fuel_some|]. apply in_fuel_bind. intros attempt.
  apply in_fuel_try_finally, in_fuel_option; [apply admit_attempt_in_fuel|]. intros []; solve_in_fuel.
Qed.
End termination.
End guarantees.
