(* ===== verification/RunBed.v ===== *)
(** A concrete world for Run coordination: the in-memory checkpoint store with
    its versions kept, a table of Runs, a scripted runtime and a scripted
    Worker; the in-memory store keeps to its promise; and the theorems of
    RunGuarantees.v on samples. *)
From S2P Require Import Prelude Js JsJson Identifiers Contract Entities AuthTypes.
From S2P Require Import Coordination Persistence Delegation RunState RunCoordination RunCoordinator RunContract.
From S2P Require Import RunExecution RunGuarantees.
Local Open Scope Z_scope.

(** ** The in-memory checkpoint store *)

(** [records] is what is left of the history when only the last versions are kept. *)
Definition keeps_latest (records : InMemoryRunCheckpointStore) (g : run_history) : Prop :=
  ∀ id, map_get id records = latest id g.

Lemma latest_push id v id' g :
  latest id' (push_version id v g) =
    if decide (id' = id) then Some (mkStoredCheckpoint id (Z.of_nat (S (length (versions id g)))) v.1) else latest id' g.
Proof.
  unfold latest. rewrite versions_push. case_decide; [|done]. subst. rewrite last_snoc, length_app. cbn.
  do 2 f_equal. unfold version. lia.
Qed.

Lemma latest_revision id g : default 0 (sk_revision <$> latest id g) = Z.of_nat (length (versions id g)).
Proof. unfold latest. destruct (versions id g) as [|v l] eqn:E using rev_ind; [done|]. by rewrite last_snoc. Qed.

Lemma keeps_latest_push records g id c lease : keeps_latest records g →
  keeps_latest (map_set id (mkStoredCheckpoint id (Z.of_nat (S (length (versions id g)))) c) records)
    (push_version id (c, lease) g).
Proof.
  intros HR id'. rewrite latest_push. case_decide as H; [subst; by rewrite map_get_set_eq|].
  by rewrite map_get_set_ne.
Qed.

Lemma in_memory_cas records g input : keeps_latest records g →
  match checkpoint_compareAndSet input records with
  | (Ok k, records') => cas_effect input k g (push_version (ck_runId input) (ck_checkpoint input, ck_executionLease input) g) ∧
      keeps_latest records' (push_version (ck_runId input) (ck_checkpoint input, ck_executionLease input) g)
  | (Err x, records') => records' = records ∧ is_conflict x = true ∧
      (sk_revision <$> latest (ck_runId input) g) ≠ ck_expectedRevision input
  end.
Proof.
  intros HR. cbn. rewrite HR. case_bool_decide as He; cbn; [|done]. rewrite latest_revision.
  replace (Z.of_nat (length (versions (ck_runId input) g)) + 1)
    with (Z.of_nat (S (length (versions (ck_runId input) g)))) by lia.
  split; [done|by apply keeps_latest_push].
Qed.

(** The in-memory checkpoint store implements the versioned one: a read
    gives the latest version; a compare-and-set with the current revision adds
    one version, and any other one fails with CONFLICT and changes nothing. *)
Theorem in_memory_checkpoints_refine records g input : keeps_latest records g →
  (checkpoint_read (ck_runId input) records = (Ok (latest (ck_runId input) g), records)) ∧
  match checkpoint_compareAndSet input records with
  | (Ok k, records') => ∃ g', cas_effect input k g g' ∧ keeps_latest records' g'
  | (Err x, records') => records' = records ∧ is_conflict x = true ∧
      (sk_revision <$> latest (ck_runId input) g) ≠ ck_expectedRevision input
  end.
Proof.
  intros HR. split; [cbn; unfold gets; by rewrite HR|]. pose proof (in_memory_cas records g input HR) as H.
  destruct (checkpoint_compareAndSet input records) as [[k|x] records']; [by eexists|done].
Qed.

(** ** The world *)
Record RunWorld := mkRunWorld {
  bd_store : InMemoryRunCheckpointStore; bd_history : run_history; bd_coordinator : Coordinator; bd_now : Z;
  bd_runtime : list RuntimeEvent; bd_worker : list WorkerRunEvent; bd_traces : list string; bd_starts : nat;
  bd_meanwhile : list (string * version) }.

#[global] Instance eta_RunWorld : Eta RunWorld := λ r,
  mkRunWorld (bd_store r) (bd_history r) (bd_coordinator r) (bd_now r) (bd_runtime r) (bd_worker r) (bd_traces r)
    (bd_starts r) (bd_meanwhile r).

(** A version that is written by anyone. *)
Definition bed_push (id : string) (v : version) (w : RunWorld) : RunWorld :=
  w <| bd_store := map_set id (mkStoredCheckpoint id (Z.of_nat (S (length (versions id (bd_history w))))) v.1) (bd_store w) |>
    <| bd_history := push_version id v (bd_history w) |>.

Definition bed_move (id : string) (stored : StoredRun) (s : RunStatus) (w : RunWorld) : RunWorld :=
  w <| bd_history := (bd_history w) <| rh_runs := <[id := moved stored s]> (rh_runs (bd_history w)) |> |>.

Definition bed_publish (id : string) (o : RuntimeSuccessfulOutput) (w : RunWorld) : RunWorld :=
  w <| bd_history := (bd_history w) <| rh_published := <[id := o]> (rh_published (bd_history w)) |> |>.

(** A Run moves from the revision that was read, as its table allows; the other
    attempt, when there is one, writes its checkpoints right after. *)
Definition bed_transition (id : string) (revision : Z) (s : RunStatus) : M exn RunWorld StoredRun := λ w,
  match rh_runs (bd_history w) !! id with
  | None => (Err (run_not_found id), w)
  | Some stored =>
      if (sn_revision stored === revision) && bool_decide (s ∈ ALLOWED_TRANSITIONS (run_status (sn_run stored)))
      then (Ok (moved stored s), bed_move id stored s w)
      else (Err (portError CONFLICT "Run revision conflict" []), w)
  end.

Definition bed_receipt : RunTransitionReceipt :=
  mkReceipt (mkCommandResult (mkLookup "" "" "") "" "" "" "" 0 "") false.

Definition bed_others : M exn RunWorld unit := modify (λ w,
  foldl (λ w v, bed_push v.1 v.2 w) (w <| bd_meanwhile := [] |>) (bd_meanwhile w)).

#[export] Instance bed_runs : RunLifecyclePort RunWorld := {|
  runs_readRun id := gets (λ w, rh_runs (bd_history w) !! id);
  runs_transitionRun input _ :=
    bed_transition (ti_runId input) (ti_expectedRevision input) (ti_nextStatus input) ;; bed_others ;; mret bed_receipt;
  runs_cancelRun _ id revision := bed_transition id revision cancelled ;; mret bed_receipt;
  runs_completeRun input _ :=
    bed_transition (cp_runId input) (cp_expectedRevision input) completed ;;
    modify (bed_publish (cp_runId input) (cp_output input)) ;; mret bed_receipt;
|}.

#[export] Instance bed_checkpoints : RunCheckpointStore RunWorld := {|
  checkpoint_read id := zoom bd_store (λ s w, w <| bd_store := s |>) (checkpoint_read id);
  checkpoint_compareAndSet input := λ w,
    match checkpoint_compareAndSet input (bd_store w) with
    | (Ok k, s) => (Ok k, w <| bd_store := s |> <| bd_history := push_version (ck_runId input)
                                 (ck_checkpoint input, ck_executionLease input) (bd_history w) |>)
    | (Err x, s) => (Err x, w <| bd_store := s |>)
    end;
|}.

#[export] Instance bed_state : CoordinatorState RunWorld := {|
  co_get := bd_coordinator;
  co_set c w := w <| bd_coordinator := c |>;
  await_interruption _ := mret tt;
  background m := try_catch m (λ _, mret tt);
|}.

Definition bed_worker_port : WorkerRunPort RunWorld := {|
  worker_next _ n := gets (λ w, if (n <? 8)%nat then bd_worker w !! n else None);
  worker_cancel _ _ := mret tt;
|}.

#[export] Instance bed_dependencies : CoordinatorDependencies RunWorld := {|
  coordinator_clock := None;
  date_now := gets bd_now;
  stopRun := Some (λ _, mret true);
  coordinator_workers := Some bed_worker_port;
  worker_return _ _ := mret tt;
|}.

#[export] Instance bed_context : ContextFormationPort RunWorld := λ request _ _,
  mret (mkFormedContext ("context-of-" +:+ cf_runId request) []).

(** The runtime counts how often it is started.  Neither stream has more than eight events. *)
#[export] Instance bed_runtime_port : AgentRuntimePort RunWorld := {|
  runtime_next _ n :=
    modify (λ w, w <| bd_starts := if (n =? 0)%nat then S (bd_starts w) else bd_starts w |>) ;;
    gets (λ w, if (n <? 8)%nat then bd_runtime w !! n else None);
  runtime_return _ _ := mret tt;
  runtime_cancel _ := mret tt;
|}.

#[export] Instance bed_trace : SessionTraceRecorder RunWorld := λ input,
  modify (λ w, w <| bd_traces := bd_traces w ++ [ti_eventType input] |>) ;;
  gets (λ w, "event-" +:+ pretty (N.of_nat (length (bd_traces w)))).

(** ** It keeps to the promises *)
Definition bed_inv (w : RunWorld) : Prop :=
  keeps_latest (bd_store w) (bd_history w) ∧
  ∀ id stored, rh_runs (bd_history w) !! id = Some stored → run_id (sn_run stored) = id.

(** What leaves the store and the history alone is a frame. *)
Lemma bed_frame {A} (m : M exn RunWorld A) :
  (∀ w, bd_store (m w).2 = bd_store w ∧ bd_history (m w).2 = bd_history w) → gen_frame_law run_step bd_history bed_inv m.
Proof.
  intros Hm w r w' [Hk Hids] H. destruct (Hm w) as [H1 H2]. rewrite H in H1, H2. cbn in H1, H2.
  unfold bed_inv. by rewrite H1, H2.
Qed.

Lemma bed_push_inv id v w : bed_inv w → bed_inv (bed_push id v w).
Proof. destruct v as [c lease]. intros [Hk Hids]. split; [|done]. by apply keeps_latest_push. Qed.

Lemma bed_pushes l w : bed_inv w →
  bed_inv (foldl (λ w v, bed_push v.1 v.2 w) w l) ∧
  rtc run_step (bd_history w) (bd_history (foldl (λ w v, bed_push v.1 v.2 w) w l)).
Proof.
  revert w. induction l as [|[id v] l IH]; intros w Hi; [done|]. cbn.
  destruct (IH (bed_push id v w)) as [Hi1 Hs1]; [by apply bed_push_inv|].
  split; [done|]. eapply rtc_l; [|exact Hs1]. constructor.
Qed.

Lemma bed_others_triple (P : run_history → Prop) `{!Stable run_step P} : triple run_step bd_history bed_inv P bed_others (λ _, P).
Proof.
  apply triple_frame; [done|]. intros w r w' Hi H. injection H as _ <-.
  assert (bed_inv (w <| bd_meanwhile := [] |>)) as Hi' by exact Hi. exact (bed_pushes (bd_meanwhile w) _ Hi').
Qed.

Lemma bed_transition_Ok id revision s w stored' w' : bed_transition id revision s w = (Ok stored', w') →
  ∃ stored, rh_runs (bd_history w) !! id = Some stored ∧ s ∈ ALLOWED_TRANSITIONS (run_status (sn_run stored)) ∧
    w' = bed_move id stored s w.
Proof.
  unfold bed_transition. destruct (rh_runs (bd_history w) !! id) as [stored|] eqn:E; [|done].
  case_match eqn:Eb; [|done]. intros H. injection H as _ <-. apply andb_true_iff in Eb as [_ Eb%bool_decide_eq_true].
  by exists stored.
Qed.

Lemma bed_transition_Err id revision s w x w' : bed_transition id revision s w = (Err x, w') → w' = w.
Proof. unfold bed_transition. case_match; [case_match|]; by intros [= _ <-]. Qed.

Lemma bed_move_inv id stored s w : bed_inv w → rh_runs (bd_history w) !! id = Some stored → bed_inv (bed_move id stored s w).
Proof.
  intros [Hk Hids] Hst. split; [done|]. intros id' stored' H. cbn in H.
  apply lookup_insert_Some in H as [[<- <-]|[_ H]]; [|by apply Hids]. cbn. by apply Hids.
Qed.

Lemma bed_moved_reached id stored s w : reached id s (bd_history (bed_move id stored s w)).
Proof. eexists. cbn. rewrite lookup_insert_eq. split; [done|apply rtc_refl]. Qed.

Lemma bed_transition_triple id revision s :
  triple run_step bd_history bed_inv (λ _, True) (bed_transition id revision s) (λ _, reached id s).
Proof.
  intros w r w' Hi _ H. destruct r as [stored'|x].
  - apply bed_transition_Ok in H as (stored & Hst & Hal & ->). split; [by apply bed_move_inv|].
    split; [|apply bed_moved_reached]. apply rtc_once. by eapply run_moved.
  - apply bed_transition_Err in H as ->. done.
Qed.

Lemma bed_cas input w : checkpoint_compareAndSet input w =
  match checkpoint_compareAndSet input (bd_store w) with
  | (Ok k, s) => (Ok k, w <| bd_store := s |> <| bd_history := push_version (ck_runId input)
                               (ck_checkpoint input, ck_executionLease input) (bd_history w) |>)
  | (Err x, s) => (Err x, w <| bd_store := s |>)
  end.
Proof. done. Qed.

#[export] Instance bed_laws : RunHistoryLaws bd_history bed_inv.
Proof.
  constructor.
  - intros id. intros w r w' [Hk Hids] H. injection H as <- <-. split; [done|]. exists (bd_history w).
    split; [done|]. split; [apply Hk|done].
  - intros input w r w' [Hk Hids] H. rewrite bed_cas in H.
    pose proof (in_memory_cas _ _ input Hk) as Hc.
    destruct (checkpoint_compareAndSet input (bd_store w)) as [[k|x] s]; injection H as <- <-.
    + destruct Hc as [He Hk']. split; [done|]. by exists (bd_history w).
    + destruct Hc as (-> & _ & _). split; [done|]. by exists (bd_history w).
  - intros id w r w' [Hk Hids] H. injection H as <- <-. split; [done|]. exists (bd_history w). split; [done|].
    split; [|done]. split; [done|]. intros stored. apply Hids.
  - intros input lease. eapply triple_bind; [apply bed_transition_triple|]. intros ?. cbn beta.
    eapply triple_bind; [apply bed_others_triple; apply _|]. intros ?. by apply triple_ret.
  - intros context id revision. apply (triple_is_frame run_step bd_history bed_inv (λ _ _, True)). eapply triple_bind; [apply bed_transition_triple|].
    intros ?. by apply triple_ret.
  - intros input lease w r w' Hi Hp H. cbn in H. unfold mbind, M_bind in H.
    destruct (bed_transition _ _ _ w) as [[stored'|x] w1] eqn:E.
    + apply bed_transition_Ok in E as (stored & Hst & Hal & ->). injection H as <- <-.
      split; [by destruct (bed_move_inv _ _ completed _ Hi Hst)|]. split; [|by apply (bed_moved_reached _ stored)].
      apply rtc_once. by eapply (run_published (bd_history w)).
    + apply bed_transition_Err in E as ->. by injection H as <- <-.
Qed.

#[export] Instance bed_frames : RunFrames bd_history bed_inv (λ _, True).
Proof.
  constructor; try (intros; by apply bed_frame).
  - done.
  - intros m Hm. apply frame_try_catch; [done|]. intros. apply frame_ret.
  - intros stop id Hs. cbn in Hs. injection Hs as <-. by apply bed_frame.
  - intros workers request n Hw _. cbn in Hw. injection Hw as <-. by apply bed_frame.
  - intros workers id reasonCode Hw. cbn in Hw. injection Hw as <-. by apply bed_frame.
Qed.

(** ** Samples *)
Definition sample_lease (n : string) : RunExecutionLeaseClaim :=
  mkLeaseClaim ("lease-" +:+ n) 1 "authority-1" 7 "deployment-1" 1 7 ("consumer-" +:+ n).

Definition sample_command (name : string) : RunTransitionCommand := mkTransitionCommand name name ("payload-" +:+ name).

Definition sample_commands : RunCoordinatorCommands :=
  mkCommands (sample_command "building") (sample_command "running") (sample_command "reconciling")
    (sample_command "completed") (sample_command "failed") (sample_command "cancelled").

Definition sample_context : ContextFormationRequest :=
  mkContextRequest None "owner-1" "agent-1" "session-1" None "run-1"
    (mkContextTrigger "trigger-1" context_schedule "trigger-payload" "2026-01-01T12:00:00.000Z") [] [] None None None
    "policy-1" None "memory-query" [] 4 2 private [] "correlation-1" "causation-1" None "actor-1" private.

Definition sample_runtime_input : RuntimeInput :=
  mkRuntimeInput None None "owner-1" "agent-1" "run-1" "session-1" None "model-1" "instruction-1" [] JNull
    "correlation-1" private.

Definition sample_worker_request : WorkerRunRequest :=
  mkRunRequest "worker-1" "key-1" "owner-1" "agent-1" "run-1" "task-1" "model-1" ["model-1"] JNull ["trigger-payload"]
    [] [] private (mkRunBudget 60000 500 2) "2026-01-01T13:00:00.000Z".

Definition sample_execute (lease : string) (workers : list WorkerDelegation) : ExecuteCoordinatedRunInput :=
  mkExecuteInput "owner-1" "agent-1" "run-1" (mkFence "authority-1" 7) (sample_lease lease) true None sample_context
    sample_runtime_input workers [] [] sample_commands.

Definition sample_delegations : list WorkerDelegation := [mkWorkerDelegation sample_worker_request None].

Definition sample_run : StoredRun :=
  mkStoredRun (mkRun "run-1" "owner-1" "agent-1" "session-1" "trigger-1" None accepted) 1.

Definition sample_time : string := "2026-01-01T12:00:01.000Z".

Definition sample_world (meanwhile : list (string * version)) : RunWorld :=
  mkRunWorld [] (mkHistory ∅ {["run-1" := sample_run]} ∅) new_coordinator 0
    [runtime_turn_started "run-1" 1 sample_time; runtime_completed "run-1" sample_time no_answer]
    [worker_progress "worker-1" 1 None sample_time; worker_completed "worker-1" "result-1" 400 5000 sample_time]
    [] 0 meanwhile.

Lemma sample_world_ok meanwhile : bed_inv (sample_world meanwhile).
Proof.
  split; [intros id; unfold latest, versions; cbn; by rewrite lookup_empty|].
  intros id stored H. cbn in H. by apply lookup_singleton_Some in H as [<- <-].
Qed.

(** The statuses of the Run, its checkpoints, and what was published. *)
Definition sample_outcome (w : RunWorld) : RunStatus * list (RunCheckpointPhase * option CheckpointTerminalStatus) * option RuntimeSuccessfulOutput :=
  (default accepted ((λ s, run_status (sn_run s)) <$> rh_runs (bd_history w) !! "run-1"),
   (λ v : version, (rk_phase v.1, rk_terminalStatus v.1)) <$> versions "run-1" (bd_history w),
   rh_published (bd_history w) !! "run-1").

Definition sample_end (o : result exn (option CoordinatedRunResult) * RunWorld) := (is_ok o.1, sample_outcome o.2, bd_starts o.2).

Example sample_execution : sample_end (execute_run 3 (sample_execute "1" sample_delegations) (sample_world [])) =
  (true, (completed,
    [(phase_context_formed, None); (phase_workers_running, None); (phase_workers_running, None);
     (phase_workers_running, None); (phase_workers_running, None); (phase_runtime_running, None);
     (phase_runtime_running, None); (phase_runtime_settled, Some settled_completed);
     (phase_completed, Some settled_completed)], Some no_answer), 1%nat).
Proof. vm_compute. reflexivity. Qed.

(** Another attempt settles the checkpoint while this one brings the Run to
    [running]: the settled checkpoint that [saveCheckpoint] gives is taken for
    the own claim, and the runtime is started on a settled Run. *)
Definition settled_meanwhile : version :=
  (mkCheckpoint None phase_runtime_settled (Some "context-of-run-1") [] 2 None (Some settled_completed) (Some no_answer) None,
   Some (sample_lease "2")).

Definition sample_overtaken : RunWorld :=
  bed_move "run-1" sample_run building_context (sample_world [("run-1", settled_meanwhile)]).

Example settled_run_restarted :
  sample_end (execute_run 3 (sample_execute "1" []) sample_overtaken) =
  (true, (completed,
    [(phase_context_formed, None); (phase_runtime_settled, Some settled_completed); (phase_runtime_running, None);
     (phase_runtime_settled, Some settled_completed); (phase_completed, Some settled_completed)], Some no_answer), 1%nat).
Proof. vm_compute. reflexivity. Qed.

(** ** The theorems on the samples *)

(** The runtime ran, asked for an approval, and ran again under another lease. *)
Definition resumed_history : run_history :=
  mkHistory {["run-1" := [
    (defaultCheckpoint <| rk_phase := phase_runtime_running |>, Some (sample_lease "1"));
    (defaultCheckpoint <| rk_phase := phase_awaiting_approval |>, Some (sample_lease "1"));
    (defaultCheckpoint <| rk_phase := phase_runtime_running |>, Some (sample_lease "2"))]]} ∅ ∅.

Definition resumed_claim (revision : Z) : StoredRunCheckpoint :=
  mkStoredCheckpoint "run-1" revision (defaultCheckpoint <| rk_phase := phase_runtime_running |>).

Lemma runtime_starts_apart_witness :
  ∃ between lease, 1 < sk_revision between < 3 ∧ startable (sk_checkpoint between) ∧
    versions "run-1" resumed_history !! Z.to_nat (sk_revision between - 1) = Some (sk_checkpoint between, lease).
Proof.
  assert (claimed (sample_execute "1" []) 0 (resumed_claim 1) resumed_history) as H1.
  { exists (mkStoredCheckpoint "run-1" 0 defaultCheckpoint). split; [by left|]. split; [done|]. by repeat split. }
  assert (claimed (sample_execute "2" []) 2 (resumed_claim 3) resumed_history) as H2.
  { exists (mkStoredCheckpoint "run-1" 2 (defaultCheckpoint <| rk_phase := phase_awaiting_approval |>)).
    split; [right; by exists 1%nat, (Some (sample_lease "1"))|]. split; [done|]. by repeat split. }
  destruct (runtime_starts_apart _ _ _ _ _ _ _ H1 H2) as [[? _]|H]; [done|done|done|]. exact H.
Defined.

(** The attempt that [execute] begins. *)
Definition sample_begun : RunWorld := (beginExecutionAttempt (sample_execute "1" sample_delegations) (sample_world [])).2.

Lemma sample_begun_ok : bed_inv sample_begun.
Proof. exact (sample_world_ok []). Qed.


Lemma execute_publishes_settled_witness :
  published_wf (bd_history (execute_run 3 (sample_execute "1" sample_delegations) (sample_world [])).2).
Proof.
  destruct (execute_run 3 (sample_execute "1" sample_delegations) (sample_world [])) as [r w'] eqn:E.
  apply (execute_publishes_settled bd_history bed_inv (λ _, True) 3 (sample_execute "1" sample_delegations)
    (sample_world []) r w' (λ _ _, I) (sample_world_ok []) E).
  intros id o H. cbn in H. by rewrite lookup_empty in H.
Defined.

(** The Worker of the sample: what it cost is within its budget. *)
Lemma worker_result_in_budget_witness :
  ∃ resultRef cost duration t,
    said_last sample_worker_request bed_worker_port (worker_completed "worker-1" resultRef cost duration t) ∧
    cost ≤ 500 ∧ duration ≤ 60000.
Proof.
  destruct (run_worker 3 (sample_execute "1" sample_delegations) 0 (mkWorkerDelegation sample_worker_request None) sample_run
    (mkStoredCheckpoint "run-1" 0 defaultCheckpoint) sample_begun) as [[[[[run' k]|[run' k]]|]|x] w'] eqn:E;
    try (exfalso; apply (f_equal (λ o, match o.1 with Ok (Some (Continue _)) => true | _ => false end)) in E;
         vm_compute in E; discriminate E).
  destruct (worker_result_in_budget _ _ _ _ _ _ _ _ _ _ E eq_refl) as
    (_ & _ & workers & ref & cost & duration & t & before & w1 & Hw & Hs & Hc & Hd & _).
  cbn in Hw. injection Hw as <-. exists ref, cost, duration, t. exact (conj Hs (conj Hc Hd)).
Defined.

Lemma bed_worker_ends workers request : coordinator_workers = Some workers →
  ends_by 8 (worker_next (WorkerRunPort := workers) request).
Proof.
  intros Hw n w e w1 Hn H. cbn in Hw. injection Hw as <-. unfold worker_next, bed_worker_port, gets in H.
  destruct (Nat.ltb_spec n 8); [lia|discriminate H].
Qed.

Lemma bed_runtime_ends request : ends_by 8 (runtime_next request : nat → M exn RunWorld _).
Proof.
  intros n w e w1 Hn H. unfold runtime_next, bed_runtime_port, gets, mbind, M_bind, modify in H.
  destruct (Nat.ltb_spec n 8); [lia|discriminate H].
Qed.

Lemma execute_run_terminates_witness :
  ∃ o w', execute_run 9 (sample_execute "1" sample_delegations) (sample_world []) = (o, w') ∧ o ≠ Ok None.
Proof.
  destruct (execute_run 9 (sample_execute "1" sample_delegations) (sample_world [])) as [o w'] eqn:E.
  exists o, w'. split; [done|]. intros ->.
  exact (execute_run_terminates 8 9 ltac:(lia) bed_worker_ends bed_runtime_ends _ _ _ E).
Defined.

Lemma in_memory_checkpoints_refine_witness :
  keeps_latest [] (mkHistory ∅ ∅ ∅) ∧
  ∃ g', cas_effect (mkCheckpointCas "run-1" None defaultCheckpoint None) (mkStoredCheckpoint "run-1" 1 defaultCheckpoint)
    (mkHistory ∅ ∅ ∅) g'.
Proof.
  assert (keeps_latest [] (mkHistory ∅ ∅ ∅)) as Hk by (intros id; unfold latest, versions; cbn; by rewrite lookup_empty).
  split; [done|].
  destruct (in_memory_checkpoints_refine _ _ (mkCheckpointCas "run-1" None defaultCheckpoint None) Hk) as [_ (g' & H & _)].
  exists g'. exact H.
Defined.
