(* ===== verification/Approval.v ===== *)
(** packages/application/src/services/approval-service.ts: the Owner's answer
    to a governed approval, and which fields of its grant are checked against
    the intent it was asked about. *)
From S2P Require Import Prelude Js Identifiers Contract AuthTypes AuthStore Deterministic InMemoryAuth.
From S2P Require Import Permission Grant.
Local Open Scope Z_scope.

(** [approved]: a grant and the reference of a recent authentication, or [null]. *)
Inductive GovernedApprovalResponse :=
  | response_denied
  | response_approved (grant : GrantRecord) (recentAuthenticationRef : option string).

Record GovernedApprovalInput := mkGovernedResponse {
  aq_approvalRequestId : string; aq_expectedRevision : Z; aq_semanticSnapshotHash : string;
  aq_response : GovernedApprovalResponse }.

Definition approval_not_found : exn := portError NOT_FOUND "Approval not found" [].
Definition approval_stale : exn := portError CONFLICT "Approval response is stale or duplicated" [].
Definition approval_hash_changed : exn := portError CONFLICT "Approval semantic snapshot hash changed" [].
Definition recent_authentication_missing : exn :=
  portError NOT_AUTHORITATIVE "Recent Owner authentication is required" [].
Definition scope_expanded : exn :=
  portError NOT_AUTHORITATIVE "Approval response expands or changes intent scope" [].

(** ** The scope check

    The records may hold plain values where the code casts them to governed
    ones; the governed fields of those are [undefined]. *)
Definition governed_field {A} (f : GovernedActionIntent → A) (intent : AnyIntent) : option A :=
  match intent with PlainIntent _ => None | GovernedIntent g => Some (f g) end.

(** [values.some((v) => !allowed.includes(v))] *)
Definition some_outside (values allowed : option (list string)) : result exn bool :=
  match values, allowed with
  | None, _ => Err (typeError "Cannot read properties of undefined (reading 'some')")
  | Some [], _ => Ok false
  | Some _, None => Err (typeError "Cannot read properties of undefined (reading 'includes')")
  | Some values, Some allowed => Ok (existsb (λ v, negb (includes v allowed)) values)
  end.

(** [a || b], where [b] may throw. *)
Definition or_throwing (a : bool) (b : result exn bool) : result exn bool := if a then Ok true else b.

Definition grantExpands (intent : AnyIntent) (grant : GrantRecord) : result exn bool :=
  let scope := grant_scope grant in
  let base := intent_base intent in
  or_throwing ((grant_ownerId grant !== ai_ownerId base) || (grant_agentId grant !== ai_agentId base)
      || (sc_capabilityRef scope !== ai_capabilityRef base)
      || ((gs_capabilityVersion <$> sc_governed scope) !== governed_field ga_capabilityVersion intent)
      || existsb (λ operation, operation !== ai_operation base) (sc_operations scope)
      || (sc_resourcePrefixes scope !== []))
    (identities ← some_outside (gs_resourceIdentities <$> sc_governed scope) (governed_field ga_resourceRefs intent);
     or_throwing identities
       (recipients ← some_outside (gs_recipients <$> sc_governed scope) (governed_field ga_recipients intent);
        or_throwing recipients (Ok (ai_estimatedCostMicros base <? sc_maxCostMicrosPerUse scope)))).

Definition assertGrantDoesNotExpand (intent : AnyIntent) (grant : GrantRecord) : result exn unit :=
  expands ← grantExpands intent grant;
  throw_if expands scope_expanded.

(** ** The service *)
Section service.
Context {W : Type} `{!AuthorizationStorePort W, !ClockPort W}.

Definition response_resolution (response : GovernedApprovalResponse) : Resolution :=
  match response with response_denied => resolve_denied | response_approved _ _ => resolve_approved end.
Definition response_grant (response : GovernedApprovalResponse) : option GrantRecord :=
  match response with response_denied => None | response_approved grant _ => Some grant end.
Definition response_recent (response : GovernedApprovalResponse) : option string :=
  match response with response_denied => None | response_approved _ ref => ref end.

Definition governed_respond (input : GovernedApprovalInput) : M exn W ApprovalRequest :=
  current ← getApproval (aq_approvalRequestId input);
  match current with
  | None => throw approval_not_found
  | Some current =>
      throwM_if ((ap_status current !== approval_pending) || (ap_revision current !== aq_expectedRevision input))
        approval_stale ;;
      throwM_if ((ap_semanticSnapshotHash current !== aq_semanticSnapshotHash input)
                 || (actionIntentFingerprint (ap_intentSnapshot current) !== aq_semanticSnapshotHash input))
        approval_hash_changed ;;
      now ← clock_now;
      if str_le (ap_expiresAt current) now then
        resolveApproval (mkResolve (ap_id current) (ap_revision current) (ap_semanticSnapshotHash current)
          resolve_expired now None None)
      else
        let response := aq_response input in
        throwM_if ((response_resolution response === resolve_approved)
                   && default false (ap_recentAuthenticationRequired current)
                   && is_none (truthy (response_recent response))) recent_authentication_missing ;;
        lift (match response with
              | response_denied => Ok tt
              | response_approved grant _ => assertGrantDoesNotExpand (ap_intentSnapshot current) grant
              end) ;;
        resolveApproval (mkResolve (ap_id current) (ap_revision current) (ap_semanticSnapshotHash current)
          (response_resolution response) now (response_grant response) (Some (response_recent response)))
  end.
End service.

(** ** What the scope check lets through

    The Owner, the Agent, the capability and its version, the operations, the
    resources, the recipients and the cost per use.  Nothing else of the grant
    is compared: see [wider_grant_accepted]. *)
Record within_intent (intent : AnyIntent) (grant : GrantRecord) : Prop := {
  wi_owner : grant_ownerId grant = ai_ownerId (intent_base intent);
  wi_agent : grant_agentId grant = ai_agentId (intent_base intent);
  wi_capability : sc_capabilityRef (grant_scope grant) = ai_capabilityRef (intent_base intent);
  wi_operations : ∀ o, o ∈ sc_operations (grant_scope grant) → o = ai_operation (intent_base intent);
  wi_prefixes : sc_resourcePrefixes (grant_scope grant) = [];
  wi_cost : sc_maxCostMicrosPerUse (grant_scope grant) ≤ ai_estimatedCostMicros (intent_base intent);
  wi_governed : ∃ fields, sc_governed (grant_scope grant) = Some fields ∧
    governed_field ga_capabilityVersion intent = Some (gs_capabilityVersion fields) ∧
    (∀ r, r ∈ gs_resourceIdentities fields → ∃ l, governed_field ga_resourceRefs intent = Some l ∧ r ∈ l) ∧
    (∀ r, r ∈ gs_recipients fields → ∃ l, governed_field ga_recipients intent = Some l ∧ r ∈ l);
}.

Lemma or_throwing_false a b : or_throwing a b = Ok false ↔ a = false ∧ b = Ok false.
Proof. destruct a; cbn; naive_solver. Qed.

Lemma some_outside_false values allowed : some_outside values allowed = Ok false ↔
  ∃ l, values = Some l ∧ ∀ v, v ∈ l → ∃ l', allowed = Some l' ∧ v ∈ l'.
Proof.
  destruct values as [[|v l]|]; unfold some_outside; [|destruct allowed as [l'|]|].
  - split; [intros _; exists []; split; [done|set_solver]|done].
  - split.
    + intros H. assert (existsb (λ v, negb (includes v l')) (v :: l) = false) as H' by (by injection H).
      clear H. rename H' into H. rewrite existsb_false in H. exists (v :: l). split; [done|]. intros x Hx. exists l'.
      split; [done|]. by apply includes_spec, negb_false_iff, H.
    + intros (? & [= <-] & H). f_equal. apply existsb_false. intros x Hx.
      apply negb_false_iff, includes_spec. by destruct (H x Hx) as (? & [= <-] & ?).
  - split; [done|]. intros (? & [= <-] & H). by destruct (H v (list_elem_of_here _ _)) as (? & ? & _).
  - split; [done|]. by intros (? & ? & _).
Qed.

Lemma assertGrantDoesNotExpand_Ok intent grant :
  assertGrantDoesNotExpand intent grant = Ok tt ↔ within_intent intent grant.
Proof.
  unfold assertGrantDoesNotExpand. split; intros H.
  - apply result_bind_Ok in H as (b & Hb & H). apply throw_if_Ok in H as ->.
    apply or_throwing_false in Hb as [Hb H]. rewrite !orb_false_iff in Hb. destruct Hb as [[[[[Ho Ha] Hc] Hv] Hop] Hp]. guards.
    apply result_bind_Ok in H as (b1 & H1 & H). apply or_throwing_false in H as [-> H].
    apply result_bind_Ok in H as (b2 & H2 & H). apply or_throwing_false in H as [-> [= H%Z.ltb_ge]].
    apply some_outside_false in H1 as (l1 & Hl1 & H1). apply some_outside_false in H2 as (l2 & Hl2 & H2).
    split; try done.
    + intros o Hin. specialize (Hop o Hin). by guards.
    + destruct (sc_governed _) as [fields|] eqn:E; [|done]. exists fields. cbn in *. injection Hl1 as <-. injection Hl2 as <-.
      by repeat split.
  - destruct H as [Ho Ha Hc Hop Hp Hm (fields & Hf & Hv & Hr & Hrec)].
    assert (grantExpands intent grant = Ok false) as ->; [|done].
    unfold grantExpands. apply or_throwing_false. split.
    + rewrite Hf, !orb_false_iff, !negb_false_iff, !bool_decide_eq_true. repeat split; try done.
      apply existsb_false. intros o Hin. by apply negb_false_iff, bool_decide_eq_true, Hop.
    + rewrite Hf. cbn [fmap option_fmap option_map].
      assert (some_outside (Some (gs_resourceIdentities fields)) (governed_field ga_resourceRefs intent) = Ok false)
        as -> by (apply some_outside_false; eauto).
      assert (some_outside (Some (gs_recipients fields)) (governed_field ga_recipients intent) = Ok false)
        as -> by (apply some_outside_false; eauto).
      cbn. f_equal. by apply Z.ltb_ge.
Qed.

(** The request that is resolved is the one that was read. *)
Lemma resolve_read s0 s s' input a current :
  auth_wf s0 → au_approvals s0 !! ra_approvalRequestId input = Some current → interf s0 s → resolve_effect input a s s' →
  a = resolved_approval current input.
Proof.
  intros Hwf Hc Hs (c & Hc' & _ & Hp & _ & _ & -> & _).
  destruct (interf_approval _ _ _ _ Hwf Hs Hc) as (c' & H & He). replace c' with c in He by congruence.
  destruct He as [->|(_ & i & ->)]; [done|]. rewrite resolved_status in Hp. by destruct (ra_resolution i).
Qed.

Section correctness.
Context {W : Type} `{!AuthorizationStorePort W, !ClockPort W}.
Context (view : W → auth_state) (inv : W → Prop) `{!AuthorizationStoreLaws W view inv}.
Context (clock_frame : frame_law view inv clock_now).

(** A resolution of the approval that was read at [s0]. *)
Lemma resolve_current s0 current input w a w' :
  inv w → resolveApproval input w = (Ok a, w') →
  auth_wf s0 → au_approvals s0 !! ra_approvalRequestId input = Some current → interf s0 (view w) →
  a = resolved_approval current input ∧ au_approvals (view w') !! ra_approvalRequestId input = Some a ∧
  ap_status a = resolution_status (ra_resolution input) ∧ ap_grantId a = grant_id <$> ra_grant input ∧
  (∀ g, ra_grant input = Some g → au_grants (view w') !! grant_id g = Some g).
Proof.
  intros Hi H Hwf Hc Hs. destruct (op_law_Ok _ _ _ _ _ _ _ _ (law_resolveApproval _) Hi H) as (Hi' & s & Hs' & He).
  assert (interf s0 s) as Hs0 by by etrans. pose proof (resolve_read _ _ _ _ _ _ Hwf Hc Hs0 He) as Ha.
  apply resolve_stored in He as (Hst & _ & Hstat & Hg & Hput); [done|]. by eapply interf_wf.
Qed.

(** C23 What [ApprovalService.respond] checks of an answer.  The request was read
    pending, at the revision the answer names, with the hash of its own intent
    and of the answer; the time of the decision is that of the clock; after the
    deadline the request only expires; a denial makes no grant; an approval
    stores the grant of the answer and carries a recent authentication when the
    request requires one.  The grant is compared with the intent in its Owner,
    Agent, capability and capability version, operations, resource identities
    (and no prefixes), recipients and cost per use, and the check passes exactly
    the grants that agree there.  Its disclosure, data classification, side
    effects, frequency, kind, number of uses and life time are not compared. *)
Theorem governed_response_checked input w a w' :
  inv w → governed_respond input w = (Ok a, w') →
  ∃ current w0 now w1 resolved,
    getApproval (aq_approvalRequestId input) w = (Ok (Some current), w0) ∧ clock_now w0 = (Ok now, w1) ∧
    interf (view w) (view w0) ∧ au_approvals (view w0) !! aq_approvalRequestId input = Some current ∧
    ap_status current = approval_pending ∧ ap_revision current = aq_expectedRevision input ∧
    ap_semanticSnapshotHash current = aq_semanticSnapshotHash input ∧
    actionIntentFingerprint (ap_intentSnapshot current) = aq_semanticSnapshotHash input ∧
    a = resolved_approval current resolved ∧ ra_decidedAt resolved = now ∧
    au_approvals (view w') !! aq_approvalRequestId input = Some a ∧
    (∀ g, assertGrantDoesNotExpand (ap_intentSnapshot current) g = Ok tt ↔
       within_intent (ap_intentSnapshot current) g) ∧
    if str_le (ap_expiresAt current) now then ap_status a = approval_expired ∧ ap_grantId a = None else
    match aq_response input with
    | response_denied => ap_status a = approval_denied ∧ ap_grantId a = None
    | response_approved g ref =>
        ap_status a = approval_approved ∧ ap_grantId a = Some (grant_id g) ∧ au_grants (view w') !! grant_id g = Some g ∧
        within_intent (ap_intentSnapshot current) g ∧
        (ap_recentAuthenticationRequired current = Some true → truthy ref ≠ None)
    end.
Proof.
  intros Hi H. unfold governed_respond in H. apply M_bind_Ok in H as (o & w0 & Hget & H).
  destruct (reads_Ok _ _ _ _ _ _ _ _ (law_getApproval _) Hi Hget) as (Hi0 & Hs0 & Hcur). destruct o as [current|]; [|done].
  pose proof (law_wf _ Hi0) as Hwf. pose proof (wf_approval_key _ Hwf _ _ (eq_sym Hcur)) as Hid.
  assert (au_approvals (view w0) !! ap_id current = Some current) as Hc by by rewrite Hid.
  apply M_bind_Ok in H as (u1 & w2 & Hp & H). injection Hp as Hp <-. apply throw_if_Ok, orb_false_iff in Hp as [Hp Hr].
  apply M_bind_Ok in H as (u2 & w2 & Hh & H). injection Hh as Hh <-. apply throw_if_Ok, orb_false_iff in Hh as [Hh Hf].
  apply M_bind_Ok in H as (now & w1 & Hn & H). destruct (clock_frame _ _ _ Hi0 Hn) as [Hi1 Hs1]. guards.
  destruct (str_le (ap_expiresAt current) now) eqn:Hx.
  - destruct (resolve_current _ _ _ _ _ _ Hi1 H Hwf Hc Hs1) as (Ha & Hst & Hstat & Hg & _).
    cbn in Hst. rewrite Hid in Hst. exists current, w0, now, w1, (mkResolve (ap_id current) (ap_revision current)
      (ap_semanticSnapshotHash current) resolve_expired now None None). rewrite Hx.
    repeat (split; [done|]). split; [intros g; apply assertGrantDoesNotExpand_Ok|done].
  - apply M_bind_Ok in H as (u3 & w3 & Hq & H). injection Hq as Hq <-. apply throw_if_Ok in Hq.
    apply M_bind_Ok in H as (u4 & w3 & He & H). injection He as He <-.
    destruct (resolve_current _ _ _ _ _ _ Hi1 H Hwf Hc Hs1) as (Ha & Hst & Hstat & Hg & Hput).
    cbn in Hst. rewrite Hid in Hst. eexists current, w0, now, w1, _. rewrite Hx. repeat (split; [done|]).
    split; [intros g; apply assertGrantDoesNotExpand_Ok|].
    destruct (aq_response input) as [|g ref]; [done|]. cbn in Hstat, Hg. split; [done|]. split; [done|].
    split; [by apply Hput|]. split; [destruct u4; by apply assertGrantDoesNotExpand_Ok|]. intros Hreq Hnone. rewrite Hreq in Hq. cbn in Hq. by rewrite Hnone in Hq.
Qed.
End correctness.

(** ** Concrete inputs *)
Definition governed_approval : ApprovalRequest :=
  let intent := GovernedIntent sample_governed in
  mkApproval None "approval-0001" 1 (ai_ownerId sample_intent) (ai_agentId sample_intent) (ai_runId sample_intent)
    (ai_id sample_intent) intent (actionIntentFingerprint intent) approval_pending deliverable sample_time
    "2026-01-01T13:00:00.000Z" None None (Some LOW) (Some true) (Some None).

Definition approval_world : World :=
  mkWorld (mkStore [("approval-0001", governed_approval)] [] [] NO_FAILURES) sample_time [].

Definition answer_scope (disclosure : DisclosureMode) (classification : DataClassification)
    (sideEffects : list ActionSideEffect) : GrantScope :=
  mkScope (ai_capabilityRef sample_intent) [ai_operation sample_intent] None [] classification sideEffects
    (ai_estimatedCostMicros sample_intent) (mkFrequency 1000 None)
    (Some (mkGovernedScope "1.0.0" ["workspace:notes/a.md"] disclosure [] false)).

Definition answer_grant (scope : GrantScope) (uses : Z) : GrantRecord :=
  mkGrant "grant-1" 1 (ai_ownerId sample_intent) (ai_agentId sample_intent) long_term scope None "approval-0001"
    sample_time "2036-01-01T00:00:00.000Z" uses 0 1000000 0 None None.

Definition answer_with (grant : GrantRecord) (ref : option string) : GovernedApprovalInput :=
  mkGovernedResponse "approval-0001" 1 (ap_semanticSnapshotHash governed_approval) (response_approved grant ref).

Definition narrow_answer : GovernedApprovalInput :=
  answer_with (answer_grant (answer_scope disclosure_none (ai_dataClassification sample_intent) [effect_none]) 1) (Some "auth-1").

Lemma approval_world_inv : world_inv approval_world.
Proof.
  split; cbn; [apply NoDup_singleton || constructor..|]. split; unfold mem_view; cbn; intros k x;
    rewrite map_view_lookup; cbn; [|done].
  destruct (String.eqb_spec k "approval-0001") as [->|]; [|done]. by intros [= <-].
Qed.

Lemma narrow_answer_approved :
  match governed_respond narrow_answer approval_world with (Ok a, _) => ap_status a = approval_approved | _ => False end.
Proof. vm_compute. reflexivity. Qed.

Lemma governed_response_checked_witness :
  match governed_respond narrow_answer approval_world with
  | (Ok a, w') => ap_status a = approval_approved ∧ ap_grantId a = Some "grant-1"
  | _ => False
  end.
Proof.
  pose proof narrow_answer_approved as Hr. destruct (governed_respond narrow_answer approval_world) as [[a|x] w'] eqn:E; [|exact Hr].
  destruct (governed_response_checked world_view world_inv world_clock_frame narrow_answer approval_world a w'
    approval_world_inv E) as (c & w0 & now & w1 & rs & _ & _ & _ & _ & _ & _ & _ & _ & Ha & Hn & _ & _ & H).
  destruct (str_le (ap_expiresAt c) now); [destruct H as [H _]; congruence|]. split; [exact Hr|exact (proj1 (proj2 H))].
Defined.

(** The answer without a recent authentication, and one for a stale revision, change nothing. *)
Example bad_answers :
  (governed_respond (answer_with (answer_grant (answer_scope disclosure_none sensitive []) 1) (Some "")) approval_world) =
    (Err recent_authentication_missing, approval_world) ∧
  (governed_respond (mkGovernedResponse "approval-0001" 2 "" response_denied) approval_world) =
    (Err approval_stale, approval_world).
Proof. vm_compute. split; reflexivity. Qed.

(** What the scope check does not compare: the disclosure, the classification
    of the data, the side effects, the kind of grant, its uses and its life
    time.  An intent that reads without disclosing is answered with a grant
    for a thousand public disclosures of restricted data over ten years. *)
Lemma wider_grant_accepted :
  let wide := answer_grant (answer_scope disclosure_public restricted [irreversible_effect]) 1000 in
  match governed_respond (answer_with wide (Some "auth-1")) approval_world with
  | (Ok a, w') => ap_status a = approval_approved ∧ map_get "grant-1" (mem_grants (w_store w')) = Some wide
  | _ => False
  end.
Proof. vm_compute. split; reflexivity. Qed.
