(* ===== verification/RecentAuthentication.v ===== *)
(** packages/application/src/services/recent-authentication-service.ts: the
    guard that demands evidence of a recent authentication of the Owner, bound
    to the very session, device and identity of the request. *)
From S2P Require Import Prelude Js JsDate Identifiers Contract AuthTypes.
Local Open Scope Z_scope.

(** ** Data (ports/identity.ts, ports/recent-authentication.ts, ports/gateway.ts) *)
Inductive SessionStatus := session_active | session_revoked.

#[global] Instance SessionStatus_eq_dec : EqDecision SessionStatus.
Proof. solve_decision. Defined.

Record ProductSessionRecord := mkProductSession {
  ss_id : string; ss_ownerId : OwnerId; ss_deviceId : string; ss_revision : Z; ss_authenticationRef : string;
  ss_status : SessionStatus; ss_firstAuthenticatedAt : string; ss_lastActiveAt : string;
  ss_recentAuthenticatedAt : string; ss_revokedAt : option string }.

Inductive BindingStatus := binding_active | binding_disabled.

#[global] Instance BindingStatus_eq_dec : EqDecision BindingStatus.
Proof. solve_decision. Defined.

Record OwnerIdentityBindingRecord := mkBinding {
  ib_ownerId : OwnerId; ib_externalSubjectRef : string; ib_boundAt : string; ib_status : BindingStatus }.

(** The source is what arrives at run time, a string. *)
Record RecentAuthenticationEvidence := mkEvidence {
  ev_source : string; ev_externalSubjectRef : string; ev_ownerId : OwnerId; ev_deviceId : string;
  ev_authenticationRef : string; ev_authenticatedAt : string; ev_expiresAt : string }.

Record RecentAuthenticationPolicy := mkRecentPolicy { rp_maximumAgeMilliseconds : Z; rp_clockSkewMilliseconds : Z }.

Record GatewayAuthenticationContext := mkAuthentication {
  gx_subjectId : string; gx_ownerId : string; gx_deviceId : string; gx_authenticatedAt : string;
  gx_authenticationRef : string; gx_sessionId : option string;
  gx_recentAuthenticationEvidence : option RecentAuthenticationEvidence }.

(** The reads of the two ports that the guard uses. *)
Class OwnerIdentityStatePort (W : Type) := {
  readBySubject : string → M exn W (option OwnerIdentityBindingRecord);
  readByOwner : OwnerId → M exn W (option OwnerIdentityBindingRecord);
}.

Class SessionDeviceStatePort (W : Type) :=
  findSessionByAuthenticationRef : string → M exn W (option ProductSessionRecord).

(** ** The guard *)
Definition RECENT_AUTH_REASON : string := "RECENT_AUTH_REQUIRED".

Definition reject_reason (reason : string) : exn :=
  portError NOT_AUTHORITATIVE "Recent Owner authentication evidence is required"
    [("reasonCode", RECENT_AUTH_REASON); ("reason", reason)].

Definition validNonNegativeInteger (value : Z) : bool := isSafeInteger value && (0 <=? value).

Definition validSource (value : string) : bool :=
  (value === "cloudflare_access_login_time") || (value === "provider_step_up") || (value === "built_in_mfa").

Definition new_RecentAuthenticationGuard (policy : RecentAuthenticationPolicy) : result exn RecentAuthenticationPolicy :=
  throw_if (negb (validNonNegativeInteger (rp_maximumAgeMilliseconds policy))
            || negb (validNonNegativeInteger (rp_clockSkewMilliseconds policy)))
    (typeError "Recent authentication policy must use finite non-negative integers") ;;
  Ok policy.

(** What is wrong with evidence of an authentication at [authenticatedAt] until [expiresAt]. *)
Definition evidence_expired (policy : RecentAuthenticationPolicy) (now authenticatedAt expiresAt : Z) : bool :=
  let skew := rp_clockSkewMilliseconds policy in
  (now + skew <? authenticatedAt) || (expiresAt <? authenticatedAt - skew)
  || (rp_maximumAgeMilliseconds policy + skew <? now - authenticatedAt) || (expiresAt + skew <? now).

Definition evidence_mismatch (authentication : GatewayAuthenticationContext) (evidence : RecentAuthenticationEvidence) : bool :=
  (ev_authenticationRef evidence !== gx_authenticationRef authentication)
  || (ev_ownerId evidence !== gx_ownerId authentication) || (ev_deviceId evidence !== gx_deviceId authentication)
  || negb (validSource (ev_source evidence)).

Definition binding_mismatch (authentication : GatewayAuthenticationContext) (evidence : RecentAuthenticationEvidence)
    (binding ownerBinding : option OwnerIdentityBindingRecord) : bool :=
  match binding with
  | None => true
  | Some binding =>
      (ib_status binding !== binding_active)
      || match ownerBinding with
         | None => true
         | Some ownerBinding =>
             (ib_status ownerBinding !== binding_active)
             || (ib_externalSubjectRef ownerBinding !== ev_externalSubjectRef evidence)
         end
      || (ib_ownerId binding !== gx_ownerId authentication) || (ib_ownerId binding !== ev_ownerId evidence)
      || (gx_subjectId authentication !== ib_ownerId binding)
  end.

Definition session_mismatch (authentication : GatewayAuthenticationContext) (evidence : RecentAuthenticationEvidence)
    (session : option ProductSessionRecord) : bool :=
  match session with
  | None => true
  | Some session =>
      (ss_status session !== session_active) || (ss_ownerId session !== gx_ownerId authentication)
      || (ss_deviceId session !== gx_deviceId authentication) || (ss_deviceId session !== ev_deviceId evidence)
  end.

Section guard.
Context {W : Type} `{!OwnerIdentityStatePort W, !SessionDeviceStatePort W, !ClockPort W}.

Definition assertRecentAuthentication (policy : RecentAuthenticationPolicy) (authentication : GatewayAuthenticationContext)
    (expectedAuthenticationRef : option string) : M exn W RecentAuthenticationEvidence :=
  throwM_if match truthy expectedAuthenticationRef with
            | None => true
            | Some ref => ref !== gx_authenticationRef authentication
            end (reject_reason "authentication_ref_mismatch") ;;
  match gx_recentAuthenticationEvidence authentication with
  | None => throw (reject_reason "evidence_missing")
  | Some evidence =>
      throwM_if (evidence_mismatch authentication evidence) (reject_reason "evidence_session_mismatch") ;;
      now ← clock_now;
      match dateParse now, dateParse (ev_authenticatedAt evidence), dateParse (ev_expiresAt evidence) with
      | Some now, Some authenticatedAt, Some expiresAt =>
          throwM_if (evidence_expired policy now authenticatedAt expiresAt) (reject_reason "timestamp_expired") ;;
          binding ← readBySubject (ev_externalSubjectRef evidence);
          ownerId ← lift (match createOwnerId (gx_ownerId authentication) with
                          | Ok ownerId => Ok ownerId
                          | Err _ => Err (reject_reason "identity_owner_invalid")
                          end);
          ownerBinding ← readByOwner ownerId;
          throwM_if (binding_mismatch authentication evidence binding ownerBinding)
            (reject_reason "identity_binding_mismatch") ;;
          session ← findSessionByAuthenticationRef (gx_authenticationRef authentication);
          throwM_if (session_mismatch authentication evidence session) (reject_reason "session_inactive_or_mismatch") ;;
          mret evidence
      | _, _, _ => throw (reject_reason "timestamp_invalid")
      end
  end.
End guard.

Definition recentAuthenticationEvidence (source externalSubjectRef expiresAt ownerId deviceId authenticationRef authenticatedAt : string)
    : RecentAuthenticationEvidence :=
  mkEvidence source externalSubjectRef ownerId deviceId authenticationRef authenticatedAt expiresAt.

(** ** What the guard guarantees

    The identities and sessions as others may change them: bindings by subject
    and by Owner, sessions by authentication reference. *)
Record identity_state := mkIdentity {
  is_bySubject : gmap string OwnerIdentityBindingRecord;
  is_byOwner : gmap string OwnerIdentityBindingRecord;
  is_sessions : gmap string ProductSessionRecord }.

Class IdentityLaws (W : Type) `{!OwnerIdentityStatePort W, !SessionDeviceStatePort W, !ClockPort W}
    (step : identity_state → identity_state → Prop) (view : W → identity_state) (inv : W → Prop) : Prop := {
  law_readBySubject : ∀ ref, gen_op_law step view inv (gen_reads (λ o s, o = is_bySubject s !! ref)) (readBySubject ref);
  law_readByOwner : ∀ owner, gen_op_law step view inv (gen_reads (λ o s, o = is_byOwner s !! owner)) (readByOwner owner);
  law_findSession : ∀ ref, gen_op_law step view inv (gen_reads (λ o s, o = is_sessions s !! ref))
    (findSessionByAuthenticationRef ref);
  frame_identity_clock : gen_frame_law step view inv clock_now;
}.

(** Evidence that is in time, with the skew the policy allows. *)
Record evidence_in_time (policy : RecentAuthenticationPolicy) (now authenticatedAt expiresAt : Z) : Prop := {
  it_past : authenticatedAt ≤ now + rp_clockSkewMilliseconds policy;
  it_order : authenticatedAt - rp_clockSkewMilliseconds policy ≤ expiresAt;
  it_recent : now - authenticatedAt ≤ rp_maximumAgeMilliseconds policy + rp_clockSkewMilliseconds policy;
  it_live : now ≤ expiresAt + rp_clockSkewMilliseconds policy;
}.

(** Evidence of this authentication: its reference, Owner and device. *)
Record evidence_bound (authentication : GatewayAuthenticationContext) (evidence : RecentAuthenticationEvidence) : Prop := {
  eb_ref : ev_authenticationRef evidence = gx_authenticationRef authentication;
  eb_owner : ev_ownerId evidence = gx_ownerId authentication;
  eb_device : ev_deviceId evidence = gx_deviceId authentication;
  eb_source : ev_source evidence ∈ ["cloudflare_access_login_time"; "provider_step_up"; "built_in_mfa"];
}.

(** The subject is the Owner's own, in both directions. *)
Definition identity_bound (authentication : GatewayAuthenticationContext) (evidence : RecentAuthenticationEvidence)
    (bySubject byOwner : identity_state) : Prop :=
  ∃ b b', is_bySubject bySubject !! ev_externalSubjectRef evidence = Some b ∧
    is_byOwner byOwner !! gx_ownerId authentication = Some b' ∧
    ib_status b = binding_active ∧ ib_status b' = binding_active ∧
    ib_externalSubjectRef b' = ev_externalSubjectRef evidence ∧
    ib_ownerId b = gx_ownerId authentication ∧ gx_subjectId authentication = ib_ownerId b.

Definition session_bound (authentication : GatewayAuthenticationContext) (s : identity_state) : Prop :=
  ∃ session, is_sessions s !! gx_authenticationRef authentication = Some session ∧ ss_status session = session_active ∧
    ss_ownerId session = gx_ownerId authentication ∧ ss_deviceId session = gx_deviceId authentication.

Lemma evidence_expired_false policy now a e : evidence_expired policy now a e = false ↔ evidence_in_time policy now a e.
Proof.
  unfold evidence_expired. rewrite !orb_false_iff, !Z.ltb_ge. split.
  - intros [[[??]?]?]. by split.
  - by intros [].
Qed.

Lemma evidence_mismatch_false a e : evidence_mismatch a e = false → evidence_bound a e.
Proof.
  unfold evidence_mismatch, validSource. rewrite !orb_false_iff, !negb_false_iff, !orb_true_iff. intros [[[??]?] Hs].
  guards. split; try done. set_solver.
Qed.

Lemma binding_mismatch_false a e b b' s s' :
  binding_mismatch a e b b' = false → b = is_bySubject s !! ev_externalSubjectRef e → b' = is_byOwner s' !! gx_ownerId a →
  identity_bound a e s s'.
Proof.
  unfold binding_mismatch. destruct b as [b|]; [|done]. rewrite !orb_false_iff. intros [[[[H1 H2] H3] _] H4] Hb Hb'.
  destruct b' as [b'|]; [|done]. apply orb_false_iff in H2 as [H2 H5]. guards. exists b, b'. by repeat split.
Qed.

Lemma session_mismatch_false a e s :
  session_mismatch a e (is_sessions s !! gx_authenticationRef a) = false → session_bound a s.
Proof.
  unfold session_mismatch. destruct (is_sessions s !! _) as [x|] eqn:E; [|done]. rewrite !orb_false_iff.
  intros [[[H1 H2] H3] _]. guards. exists x. by repeat split.
Qed.

Section guarantees.
Context {W : Type} `{!OwnerIdentityStatePort W, !SessionDeviceStatePort W, !ClockPort W}.
Context (step : identity_state → identity_state → Prop) (view : W → identity_state) (inv : W → Prop).
Context `{!IdentityLaws W step view inv}.

(** C31 The guard lets only recent evidence of this very session pass: the
    evidence it returns is that of the request, with the reference that was
    expected; at the time of the clock it is in time; while the call ran, its
    subject was bound to the Owner and the Owner to it, both actively; and at
    the end the session of the reference is active, of this Owner and device. *)
Theorem recent_authentication_sound policy authentication expected w e w' :
  inv w → assertRecentAuthentication policy authentication expected w = (Ok e, w') →
  gx_recentAuthenticationEvidence authentication = Some e ∧ expected = Some (gx_authenticationRef authentication) ∧
  evidence_bound authentication e ∧
  (∃ w1 w2 now t a x, clock_now w1 = (Ok now, w2) ∧ dateParse now = Some t ∧ dateParse (ev_authenticatedAt e) = Some a ∧
     dateParse (ev_expiresAt e) = Some x ∧ evidence_in_time policy t a x) ∧
  (∃ s1 s2, rtc step (view w) s1 ∧ rtc step s1 s2 ∧ rtc step s2 (view w') ∧ identity_bound authentication e s1 s2) ∧
  session_bound authentication (view w').
Proof.
  intros Hi H. unfold assertRecentAuthentication in H. apply M_bind_Ok in H as (u & w0 & Hr & H). injection Hr as Hr <-.
  apply throw_if_Ok in Hr. destruct (truthy expected) as [ref|] eqn:Hx; [|done]. guards. subst ref.
  destruct (gx_recentAuthenticationEvidence authentication) as [e0|]; [|done].
  apply M_bind_Ok in H as (u1 & w1 & Hm & H). injection Hm as Hm <-. apply throw_if_Ok, evidence_mismatch_false in Hm.
  apply M_bind_Ok in H as (now & w1 & Hn & H). destruct (frame_identity_clock _ _ _ Hi Hn) as [Hi1 Hs1].
  destruct (dateParse now) as [t|] eqn:Et; [|done]. destruct (dateParse (ev_authenticatedAt e0)) as [a|] eqn:Ea; [|done].
  destruct (dateParse (ev_expiresAt e0)) as [x|] eqn:Ee; [|done].
  apply M_bind_Ok in H as (u2 & w2 & Ht & H). injection Ht as Ht <-. apply throw_if_Ok, evidence_expired_false in Ht.
  apply M_bind_Ok in H as (b & w3 & Hb & H). destruct (reads_Ok _ _ _ _ _ _ _ _ (law_readBySubject _) Hi1 Hb) as (Hi3 & Hs3 & Hb').
  apply M_bind_Ok in H as (o & w4 & Ho & H). injection Ho as Ho <-.
  destruct (createOwnerId _) as [o'|] eqn:Eo in Ho; [|done]. injection Ho as <-. apply createIdentifier_Ok in Eo as [-> _].
  apply M_bind_Ok in H as (b2 & w5 & Hb2 & H). destruct (reads_Ok _ _ _ _ _ _ _ _ (law_readByOwner _) Hi3 Hb2) as (Hi5 & Hs5 & Hb2').
  apply M_bind_Ok in H as (u3 & w6 & Hbm & H). injection Hbm as Hbm <-. apply throw_if_Ok in Hbm.
  apply M_bind_Ok in H as (ss & w6 & Hss & H). destruct (reads_Ok _ _ _ _ _ _ _ _ (law_findSession _) Hi5 Hss) as (Hi6 & Hs6 & ->).
  apply M_bind_Ok in H as (u4 & w7 & Hsm & H). injection Hsm as Hsm <-. apply throw_if_Ok in Hsm. injection H as <- <-.
  split; [done|]. split; [by destruct expected as [[]|]|]. split; [done|]. split; [by exists w, w1, now, t, a, x|].
  split; [|by eapply session_mismatch_false]. exists (view w3), (view w5). split; [by etrans|]. do 2 (split; [done|]).
  by eapply binding_mismatch_false.
Qed.
End guarantees.

(** ** A sample request *)
Record IdentityWorld := mkIdentityWorld { iw_state : identity_state; iw_now : string }.

#[export] Instance iw_identities : OwnerIdentityStatePort IdentityWorld := {|
  readBySubject ref := gets (λ w, is_bySubject (iw_state w) !! ref);
  readByOwner owner := gets (λ w, is_byOwner (iw_state w) !! owner);
|}.
#[export] Instance iw_sessions : SessionDeviceStatePort IdentityWorld := λ ref, gets (λ w, is_sessions (iw_state w) !! ref).
#[export] Instance iw_clock : ClockPort IdentityWorld := gets iw_now.

#[export] Instance iw_laws step : IdentityLaws IdentityWorld step iw_state (λ _, True).
Proof.
  constructor.
  - intros ref w r w' _ H. injection H as <- <-. split; [done|]. by exists (iw_state w).
  - intros ref w r w' _ H. injection H as <- <-. split; [done|]. by exists (iw_state w).
  - intros ref w r w' _ H. injection H as <- <-. split; [done|]. by exists (iw_state w).
  - intros w r w' _ H. by injection H as <- <-.
Qed.

Definition sample_evidence : RecentAuthenticationEvidence :=
  recentAuthenticationEvidence "built_in_mfa" "subject-1" "2026-01-01T13:00:00.000Z" "owner-1" "device-1" "auth-1"
    "2026-01-01T11:58:00.000Z".

Definition sample_authentication : GatewayAuthenticationContext :=
  mkAuthentication "owner-1" "owner-1" "device-1" "2026-01-01T11:00:00.000Z" "auth-1" None (Some sample_evidence).

Definition sample_identities (status : SessionStatus) : identity_state :=
  let binding := mkBinding "owner-1" "subject-1" "2025-01-01T00:00:00.000Z" binding_active in
  mkIdentity {["subject-1" := binding]} {["owner-1" := binding]}
    {["auth-1" := mkProductSession "session-1" "owner-1" "device-1" 1 "auth-1" status "2026-01-01T11:00:00.000Z"
        "2026-01-01T11:59:00.000Z" "2026-01-01T11:58:00.000Z" None]}.

Definition five_minutes : RecentAuthenticationPolicy := mkRecentPolicy 300000 1000.

Definition asked_at (now : string) (status : SessionStatus) : result exn RecentAuthenticationEvidence :=
  (assertRecentAuthentication five_minutes sample_authentication (Some "auth-1")
     (mkIdentityWorld (sample_identities status) now)).1.

(** Five minutes and the skew after the authentication it is no longer recent. *)
Example guard_samples :
  asked_at "2026-01-01T12:03:01.000Z" session_active = Ok sample_evidence ∧
  asked_at "2026-01-01T12:03:01.001Z" session_active = Err (reject_reason "timestamp_expired") ∧
  asked_at "2026-01-01T12:00:00.000Z" session_revoked = Err (reject_reason "session_inactive_or_mismatch") ∧
  asked_at "yesterday" session_active = Err (reject_reason "timestamp_invalid").
Proof. vm_compute. repeat split. Qed.

Lemma recent_authentication_sound_witness :
  evidence_bound sample_authentication sample_evidence ∧ session_bound sample_authentication (sample_identities session_active).
Proof.
  pose (w := mkIdentityWorld (sample_identities session_active) "2026-01-01T12:00:00.000Z").
  assert (assertRecentAuthentication five_minutes sample_authentication (Some "auth-1") w = (Ok sample_evidence, w)) as E
    by (vm_compute; reflexivity).
  destruct (recent_authentication_sound (λ _ _, False) iw_state (λ _, True) _ _ _ _ _ _ I E) as (_ & _ & Hb & _ & _ & Hs).
  split; [exact Hb|exact Hs].
Defined.
