(* ===== verification/SuggestionService.v ===== *)
(** The data and the ports of suggestions and reflection
    (packages/application/src/ports/proactivity.ts). *)
From S2P Require Import Prelude Js JsJson Identifiers Contract AuthTypes Persistence JsDate.
From S2P Require Import Delegation WorkspaceService.
Local Open Scope Z_scope.

(** ** Suggestions *)
Inductive SuggestionStatus :=
  | suggestion_candidate | suggestion_delivered | suggestion_approved | suggestion_rejected
  | suggestion_expired | suggestion_superseded.

#[global] Instance SuggestionStatus_eq_dec : EqDecision SuggestionStatus.
Proof. solve_decision. Defined.

(** Its [trigger] is always [owner_approved_suggestion]. *)
Record SuggestionTaskDraft := mkTaskDraft {
  td_goalRef : string; td_capabilityRefs : list string; td_dataClassification : DataClassification;
  td_estimatedCostMicros : Z; td_timezone : string; td_timeoutMs : Z }.

Record SuggestionCandidate := mkSuggestion {
  sg_id : string; sg_revision : Z; sg_ownerId : OwnerId; sg_agentId : AgentId; sg_generationRunId : RunId;
  sg_traceRef : string; sg_kind : string; sg_titleRef : string; sg_bodyRef : string; sg_evidenceRefs : list string;
  sg_sourceWatermark : string; sg_goalRef : option string; sg_commitmentRef : option string;
  sg_taskDraft : SuggestionTaskDraft; sg_confidencePermille : Z; sg_noveltyPermille : Z; sg_semanticKey : string;
  sg_evidenceFingerprint : string; sg_ownerScopeRevision : Z; sg_estimatedDataClasses : list DataClassification;
  sg_createdAt : string; sg_expiresAt : string; sg_status : SuggestionStatus; sg_deliveryRef : option string;
  sg_taskRef : option string; sg_taskCreationKey : option string; sg_responseIdempotencyKeys : list string }.

#[global] Instance eta_SuggestionCandidate : Eta SuggestionCandidate := λ r,
  mkSuggestion (sg_id r) (sg_revision r) (sg_ownerId r) (sg_agentId r) (sg_generationRunId r) (sg_traceRef r)
    (sg_kind r) (sg_titleRef r) (sg_bodyRef r) (sg_evidenceRefs r) (sg_sourceWatermark r) (sg_goalRef r)
    (sg_commitmentRef r) (sg_taskDraft r) (sg_confidencePermille r) (sg_noveltyPermille r) (sg_semanticKey r)
    (sg_evidenceFingerprint r) (sg_ownerScopeRevision r) (sg_estimatedDataClasses r) (sg_createdAt r) (sg_expiresAt r)
    (sg_status r) (sg_deliveryRef r) (sg_taskRef r) (sg_taskCreationKey r) (sg_responseIdempotencyKeys r).

Record ReflectionCandidateDraft := mkDraft {
  rd_kind : string; rd_titleRef : string; rd_bodyRef : string; rd_evidenceRefs : list string; rd_sourceWatermark : string;
  rd_goalRef : option string; rd_commitmentRef : option string; rd_taskDraft : SuggestionTaskDraft;
  rd_confidencePermille : Z; rd_noveltyPermille : Z; rd_targetEntity : string; rd_proposedAction : string;
  rd_ownerScopeRevision : Z; rd_estimatedDataClasses : list DataClassification; rd_expiresAt : string }.

#[global] Instance eta_ReflectionCandidateDraft : Eta ReflectionCandidateDraft := λ r,
  mkDraft (rd_kind r) (rd_titleRef r) (rd_bodyRef r) (rd_evidenceRefs r) (rd_sourceWatermark r) (rd_goalRef r)
    (rd_commitmentRef r) (rd_taskDraft r) (rd_confidencePermille r) (rd_noveltyPermille r) (rd_targetEntity r)
    (rd_proposedAction r) (rd_ownerScopeRevision r) (rd_estimatedDataClasses r) (rd_expiresAt r).

(** ** Reflection *)
Record ReflectionDefinition := mkReflectionDefinition {
  df_id : string; df_revision : Z; df_ownerId : OwnerId; df_agentId : AgentId; df_schedule : string;
  df_timezone : string; df_dailySuggestionQuota : Z; df_maximumContextItems : Z; df_maximumCostMicros : Z;
  df_timeoutMs : Z; df_maximumCandidates : Z; df_enabled : bool }.

Inductive ReflectionOutcome :=
  | reflection_running | reflection_no_change | reflection_candidates | reflection_missed | reflection_failed.

#[global] Instance ReflectionOutcome_eq_dec : EqDecision ReflectionOutcome.
Proof. solve_decision. Defined.

Record ReflectionContext := mkReflectionContext { rc_inputRef : string; rc_watermark : string; rc_itemCount : Z }.

(** What [ReflectionModelPort.reflect] gives. *)
Record ReflectionOutput := mkReflectionOutput {
  ro_changed : bool; ro_candidates : list ReflectionCandidateDraft; ro_costMicros : Z; ro_metadata : JsonObject }.

Record ReflectionClaim := mkReflectionClaim { rl_id : string; rl_generation : Z; rl_leaseUntil : string }.

Record ReflectionCheckpoint := mkReflectionCheckpoint {
  rf_id : string; rf_ownerId : OwnerId; rf_agentId : AgentId; rf_generationRunId : RunId; rf_traceRef : string;
  rf_scheduledAt : string; rf_inputWatermark : string; rf_outcome : ReflectionOutcome; rf_candidateRefs : list string;
  rf_costMicros : Z; rf_attempts : Z; rf_errorCode : option string; rf_completedAt : string;
  rf_definition : ReflectionDefinition; rf_context : option ReflectionContext; rf_output : option ReflectionOutput;
  rf_claim : option ReflectionClaim; rf_reservedCostMicros : Z }.

#[global] Instance eta_ReflectionCheckpoint : Eta ReflectionCheckpoint := λ r,
  mkReflectionCheckpoint (rf_id r) (rf_ownerId r) (rf_agentId r) (rf_generationRunId r) (rf_traceRef r)
    (rf_scheduledAt r) (rf_inputWatermark r) (rf_outcome r) (rf_candidateRefs r) (rf_costMicros r) (rf_attempts r)
    (rf_errorCode r) (rf_completedAt r) (rf_definition r) (rf_context r) (rf_output r) (rf_claim r)
    (rf_reservedCostMicros r).

(** ** The state of one Owner and Agent *)
Record ProactivityState := mkProactivity {
  ps_ownerId : OwnerId; ps_agentId : AgentId; ps_suggestions : list SuggestionCandidate;
  ps_reflectionDefinition : option ReflectionDefinition; ps_reflectionCheckpoints : list ReflectionCheckpoint;
  ps_quotaOverflowByCivilDay : jsmap Z }.

#[global] Instance eta_ProactivityState : Eta ProactivityState := λ r,
  mkProactivity (ps_ownerId r) (ps_agentId r) (ps_suggestions r) (ps_reflectionDefinition r)
    (ps_reflectionCheckpoints r) (ps_quotaOverflowByCivilDay r).

Record StoredProactivity := mkStoredProactivity { pv_revision : Z; pv_state : ProactivityState }.

(** [compareAndSet] of an Owner and Agent: the revision that is expected, and the new state. *)
Class ProactivityStatePort (W : Type) := {
  proactivity_read : OwnerId → AgentId → M exn W StoredProactivity;
  proactivity_compareAndSet : OwnerId → AgentId → Z → ProactivityState → M exn W StoredProactivity;
}.

(** [enqueue] of a suggestion at the level [INBOX]: it, the key, the result. *)
Class SuggestionDeliveryPort (W : Type) :=
  suggestion_enqueue : SuggestionCandidate → string → string → M exn W string.

(** A Task without capability handles and approvals. *)
Record OrdinaryTaskInput := mkOrdinaryTask {
  ot_ownerId : OwnerId; ot_agentId : AgentId; ot_suggestionId : string; ot_draft : SuggestionTaskDraft;
  ot_idempotencyKey : string }.

Class SuggestionTaskCreationPort (W : Type) := createOrdinaryTask : OrdinaryTaskInput → M exn W string.

(** [select] of an Owner and Agent after a watermark, at most so many items. *)
Class ReflectionContextPort (W : Type) :=
  reflection_select : OwnerId → AgentId → string → Z → M exn W ReflectionContext.

Record ReflectInput := mkReflectInput {
  ri_idempotencyKey : string; ri_contextRef : string; ri_maximumCandidates : Z; ri_maximumCostMicros : Z;
  ri_timeoutMs : Z }.

Class ReflectionModelPort (W : Type) := reflect : ReflectInput → M exn W ReflectionOutput.

(** ** Time zones

    The IANA database behind [Intl.DateTimeFormat]: the zones it knows, and the
    year, month and day of an instant there, as the two- and four-digit texts
    of the format [en-CA]. *)
Class TimeZones := {
  zone_known : string → bool;
  zone_date : string → Z → string * string * string;
}.

(** ** packages/application/src/services/suggestion-service.ts: suggestions are
    proposed under a daily quota and without duplicates, delivered, answered by
    the Owner, and an approved one becomes one Task. *)

Definition SUGGESTION_CAS_ATTEMPTS : nat := 8.

(** ** Civil days *)
Section zones.
Context {zones : TimeZones}.

Definition assertTimezone (timezone : string) : result exn unit :=
  throw_if (negb (zone_known timezone)) (portError INVALID_OPERATION ("Invalid IANA timezone " +:+ timezone) []).

Definition civilDay (instant timezone : string) : result exn string :=
  assertTimezone timezone ;;
  match dateParse instant with
  | None => Err (OtherError "RangeError" "Invalid time value")
  | Some t => let '(year, month, day) := zone_date timezone t in Ok (year +:+ "-" +:+ month +:+ "-" +:+ day)
  end.

(** [["rejected", "superseded"].includes(status)] *)
Definition uncounted (s : SuggestionStatus) : bool := (s === suggestion_rejected) || (s === suggestion_superseded).

Definition counts_today (timezone day : string) (candidate : SuggestionCandidate) : result exn bool :=
  created ← civilDay (sg_createdAt candidate) timezone;
  Ok ((created === day) && negb (uncounted (sg_status candidate))).

Definition accepted_today (timezone day : string) (suggestions : list SuggestionCandidate) : result exn Z :=
  counted ← mapM (counts_today timezone day) suggestions;
  Ok (Z.of_nat (length (List.filter (λ b, b) counted))).
End zones.

(** ** Duplicates *)
Definition activeForDedupe (now : string) (candidate : SuggestionCandidate) : bool :=
  str_lt now (sg_expiresAt candidate)
  && ((sg_status candidate === suggestion_candidate) || (sg_status candidate === suggestion_delivered)
      || (sg_status candidate === suggestion_approved)).

Definition is_duplicate (now semanticKey evidenceFingerprint : string) (ownerScopeRevision : Z)
    (candidate : SuggestionCandidate) : bool :=
  (sg_semanticKey candidate === semanticKey)
  && (activeForDedupe now candidate
      || ((sg_status candidate === suggestion_rejected) && (sg_evidenceFingerprint candidate === evidenceFingerprint)
          && (sg_ownerScopeRevision candidate === ownerScopeRevision))).

(** ** Inputs and results *)
Record ProposeInput := mkPropose {
  sp_owner : OwnerId; sp_agent : AgentId; sp_generationRunId : RunId; sp_traceRef : string;
  sp_draft : ReflectionCandidateDraft; sp_dailyQuota : option Z }.

Inductive ProposeOutcome :=
  | proposal_accepted (candidate : SuggestionCandidate)
  | proposal_duplicate (candidate : SuggestionCandidate)
  | proposal_quota_exhausted.

Inductive SuggestionDecision := approve_suggestion | reject_suggestion.

Record SuggestionResponse := mkSuggestionResponse {
  sr_owner : OwnerId; sr_agent : AgentId; sr_suggestionId : string; sr_decision : SuggestionDecision;
  sr_idempotencyKey : string; sr_expectedRevision : option Z }.

Definition decided_status (d : SuggestionDecision) : SuggestionStatus :=
  match d with approve_suggestion => suggestion_approved | reject_suggestion => suggestion_rejected end.

(** ** Errors *)
Definition draft_error : exn :=
  portError INVALID_OPERATION "Suggestion candidate is incomplete or outside its bounded contract" [].
Definition quota_error : exn :=
  portError INVALID_OPERATION "Daily suggestion quota must be an integer from 1 to 20" [].
Definition quota_concurrent : exn := portError CONFLICT "Suggestion quota state remained concurrent" [].
Definition update_concurrent : exn := portError CONFLICT "Suggestion update remained concurrent" [].
Definition expiry_concurrent : exn := portError CONFLICT "Suggestion expiry remained concurrent" [].
Definition suggestion_not_found : exn := portError NOT_FOUND "Suggestion was not found" [].
Definition key_changed_decision : exn := portError CONFLICT "Suggestion response key changed decision" [].
Definition suggestion_revision_changed : exn := portError CONFLICT "Suggestion revision changed" [].
Definition not_awaiting_response : exn :=
  portError INVALID_OPERATION "Suggestion is not awaiting an Owner response" [].
Definition no_task_intent : exn := portError INVALID_OPERATION "Approved suggestion has no Task intent" [].
Definition task_intent_changed : exn := portError CONFLICT "Suggestion Task intent changed" [].
Definition task_idempotency_violated : exn :=
  portError CONFLICT "Task creation violated its idempotency contract" [].

Definition taskCreationKey (c : SuggestionCandidate) : string :=
  "suggestion:" +:+ sg_ownerId c +:+ ":" +:+ sg_agentId c +:+ ":" +:+ sg_id c +:+ ":task".

Section service.
Context {W : Type} {zones : TimeZones} {digest : HostFileDigestPort}.
Context `{!ProactivityStatePort W, !SuggestionDeliveryPort W, !SuggestionTaskCreationPort W, !ClockPort W, !IdGeneratorPort W}.

Definition assertDraft (draft : ReflectionCandidateDraft) : M exn W unit :=
  now ← (if (trim (rd_kind draft) === EmptyString) || (rd_evidenceRefs draft === []) then mret None
         else now ← clock_now; mret (Some now));
  let task := rd_taskDraft draft in
  throwM_if
    match now with
    | None => true
    | Some now =>
        str_le (rd_expiresAt draft) now || (rd_confidencePermille draft <? 0) || (1000 <? rd_confidencePermille draft)
        || (rd_noveltyPermille draft <? 0) || (1000 <? rd_noveltyPermille draft)
        || (td_estimatedCostMicros task <? 0) || (td_timeoutMs task <=? 0)
    end draft_error ;;
  lift (assertTimezone (td_timezone task)).

Definition draft_fingerprint (draft : ReflectionCandidateDraft) : string :=
  digestCanonical (stringify (JStrs (sort_strings (rd_evidenceRefs draft)))).

Definition draft_semanticKey (draft : ReflectionCandidateDraft) : string :=
  digestCanonical (stringify (JObj [("kind", JStr (rd_kind draft)); ("targetEntity", JStr (rd_targetEntity draft));
    ("proposedAction", JStr (rd_proposedAction draft)); ("evidenceFingerprint", JStr (draft_fingerprint draft))])).

Definition new_suggestion (id : string) (input : ProposeInput) (now : string) : SuggestionCandidate :=
  let d := sp_draft input in
  mkSuggestion id 1 (sp_owner input) (sp_agent input) (sp_generationRunId input) (sp_traceRef input) (rd_kind d)
    (rd_titleRef d) (rd_bodyRef d) (rd_evidenceRefs d) (rd_sourceWatermark d) (rd_goalRef d) (rd_commitmentRef d)
    (rd_taskDraft d) (rd_confidencePermille d) (rd_noveltyPermille d) (draft_semanticKey d) (draft_fingerprint d)
    (rd_ownerScopeRevision d) (rd_estimatedDataClasses d) now (rd_expiresAt d) suggestion_candidate None None None [].

(** A compare-and-set that loses its race is tried again. *)
Definition unless_conflict {A} (m : M exn W A) : M exn W (option A) :=
  try_catch (a ← m; mret (Some a)) (λ error, if is_conflict error then mret None else throw error).

(** [#transition]: [update] gives [None] for the suggestion it was given. *)
Fixpoint transition_attempts (attempts : nat) (ownerId : OwnerId) (agentId : AgentId) (suggestionId : string)
    (update : SuggestionCandidate → M exn W (option SuggestionCandidate)) : M exn W SuggestionCandidate :=
  match attempts with
  | O => throw update_concurrent
  | S attempts =>
      current ← proactivity_read ownerId agentId;
      let suggestions := ps_suggestions (pv_state current) in
      match list_find (λ c, sg_id c = suggestionId) suggestions with
      | None => throw suggestion_not_found
      | Some (index, previous) =>
          updated ← update previous;
          match updated with
          | None => mret previous
          | Some updated =>
              let next := updated <| sg_revision := sg_revision previous + 1 |> in
              saved ← unless_conflict (proactivity_compareAndSet ownerId agentId (pv_revision current)
                ((pv_state current) <| ps_suggestions := <[index := next]> suggestions |>));
              match saved with
              | Some _ => mret next
              | None => transition_attempts attempts ownerId agentId suggestionId update
              end
          end
      end
  end.

Definition suggestion_transition := transition_attempts SUGGESTION_CAS_ATTEMPTS.

(** ** Delivery *)
Definition deliver_update (deliveryRef : string) (current : SuggestionCandidate) : M exn W (option SuggestionCandidate) :=
  if sg_status current !== suggestion_candidate then mret None
  else
    now ← clock_now;
    mret (Some (current <| sg_status := if str_le (sg_expiresAt current) now then suggestion_expired else suggestion_delivered |>
                  <| sg_deliveryRef := Some deliveryRef |>)).

Definition deliver_suggestion (candidate : SuggestionCandidate) : M exn W SuggestionCandidate :=
  deliveryRef ← suggestion_enqueue candidate (sg_id candidate) (sg_bodyRef candidate);
  suggestion_transition (sg_ownerId candidate) (sg_agentId candidate) (sg_id candidate) (deliver_update deliveryRef).

(** ** Proposals *)
Definition overflow_state (day : string) (s : ProactivityState) : ProactivityState :=
  s <| ps_quotaOverflowByCivilDay :=
    map_set day (default 0 (map_get day (ps_quotaOverflowByCivilDay s)) + 1) (ps_quotaOverflowByCivilDay s) |>.

Fixpoint propose_attempts (attempts : nat) (input : ProposeInput) (now day : string) (quota : Z) : M exn W ProposeOutcome :=
  match attempts with
  | O => throw quota_concurrent
  | S attempts =>
      let draft := sp_draft input in
      current ← proactivity_read (sp_owner input) (sp_agent input);
      let suggestions := ps_suggestions (pv_state current) in
      match List.find (is_duplicate now (draft_semanticKey draft) (draft_fingerprint draft) (rd_ownerScopeRevision draft))
              suggestions with
      | Some duplicate =>
          if sg_status duplicate === suggestion_candidate
          then delivered ← deliver_suggestion duplicate; mret (proposal_accepted delivered)
          else mret (proposal_duplicate duplicate)
      | None =>
          acceptedToday ← lift (accepted_today (td_timezone (rd_taskDraft draft)) day suggestions);
          if quota <=? acceptedToday then
            saved ← unless_conflict (proactivity_compareAndSet (sp_owner input) (sp_agent input) (pv_revision current)
              (overflow_state day (pv_state current)));
            match saved with
            | Some _ => mret proposal_quota_exhausted
            | None => propose_attempts attempts input now day quota
            end
          else
            id ← ids_next "suggestion";
            let candidate := new_suggestion id input now in
            outcome ← unless_conflict
              (proactivity_compareAndSet (sp_owner input) (sp_agent input) (pv_revision current)
                 ((pv_state current) <| ps_suggestions := suggestions ++ [candidate] |>) ;;
               deliver_suggestion candidate);
            match outcome with
            | Some delivered => mret (proposal_accepted delivered)
            | None => propose_attempts attempts input now day quota
            end
      end
  end.

Definition propose (input : ProposeInput) : M exn W ProposeOutcome :=
  assertDraft (sp_draft input) ;;
  now ← clock_now;
  let quota := default 3 (sp_dailyQuota input) in
  throwM_if ((quota <? 1) || (20 <? quota)) quota_error ;;
  day ← lift (civilDay now (td_timezone (rd_taskDraft (sp_draft input))));
  propose_attempts SUGGESTION_CAS_ATTEMPTS input now day quota.

(** ** Responses and Tasks *)
Definition respond_update (input : SuggestionResponse) (current : SuggestionCandidate)
    : M exn W (option SuggestionCandidate) :=
  let decision := decided_status (sr_decision input) in
  if includes (sr_idempotencyKey input) (sg_responseIdempotencyKeys current) then
    throwM_if (sg_status current !== decision) key_changed_decision ;;
    mret None
  else
    throwM_if match sr_expectedRevision input with Some r => sg_revision current !== r | None => false end
      suggestion_revision_changed ;;
    throwM_if (sg_status current !== suggestion_delivered) not_awaiting_response ;;
    now ← clock_now;
    throwM_if (str_le (sg_expiresAt current) now) not_awaiting_response ;;
    mret (Some (current <| sg_status := decision |>
      <| sg_taskCreationKey :=
           match sr_decision input with approve_suggestion => Some (taskCreationKey current) | reject_suggestion => None end |>
      <| sg_responseIdempotencyKeys := [sr_idempotencyKey input] |>)).

Definition task_update (key taskRef : string) (current : SuggestionCandidate) : M exn W (option SuggestionCandidate) :=
  throwM_if ((sg_status current !== suggestion_approved) || (sg_taskCreationKey current !== Some key)) task_intent_changed ;;
  match sg_taskRef current with
  | Some stored => throwM_if (stored !== taskRef) task_idempotency_violated ;; mret None
  | None => mret (Some (current <| sg_taskRef := Some taskRef |>))
  end.

Definition completeTaskIntent (candidate : SuggestionCandidate) : M exn W SuggestionCandidate :=
  if (sg_status candidate !== suggestion_approved) || negb (is_none (sg_taskRef candidate)) then mret candidate
  else
    match truthy (sg_taskCreationKey candidate) with
    | None => throw no_task_intent
    | Some key =>
        taskRef ← createOrdinaryTask (mkOrdinaryTask (sg_ownerId candidate) (sg_agentId candidate) (sg_id candidate)
          (sg_taskDraft candidate) key);
        suggestion_transition (sg_ownerId candidate) (sg_agentId candidate) (sg_id candidate) (task_update key taskRef)
    end.

Definition suggestion_respond (input : SuggestionResponse) : M exn W SuggestionCandidate :=
  claimed ← suggestion_transition (sr_owner input) (sr_agent input) (sr_suggestionId input) (respond_update input);
  completeTaskIntent claimed.

Fixpoint complete_each (candidates : list SuggestionCandidate) : M exn W unit :=
  match candidates with
  | [] => mret tt
  | candidate :: candidates =>
      (if (sg_status candidate === suggestion_approved) && is_none (sg_taskRef candidate)
       then completeTaskIntent candidate ;; mret tt else mret tt) ;;
      complete_each candidates
  end.

Definition recoverTaskIntents (ownerId : OwnerId) (agentId : AgentId) : M exn W unit :=
  current ← proactivity_read ownerId agentId;
  complete_each (ps_suggestions (pv_state current)).

(** ** Expiry *)
Definition expirable (now : string) (c : SuggestionCandidate) : bool :=
  str_le (sg_expiresAt c) now && ((sg_status c === suggestion_candidate) || (sg_status c === suggestion_delivered)).

Definition expire_one (now : string) (c : SuggestionCandidate) : SuggestionCandidate :=
  if expirable now c then c <| sg_revision := sg_revision c + 1 |> <| sg_status := suggestion_expired |> else c.

Fixpoint expire_attempts (attempts : nat) (ownerId : OwnerId) (agentId : AgentId) (now : string)
    : M exn W (list SuggestionCandidate) :=
  match attempts with
  | O => throw expiry_concurrent
  | S attempts =>
      current ← proactivity_read ownerId agentId;
      let suggestions := ps_suggestions (pv_state current) in
      if negb (existsb (expirable now) suggestions) then mret suggestions
      else
        saved ← unless_conflict (proactivity_compareAndSet ownerId agentId (pv_revision current)
          ((pv_state current) <| ps_suggestions := expire_one now <$> suggestions |>));
        match saved with
        | Some saved => mret (ps_suggestions (pv_state saved))
        | None => expire_attempts attempts ownerId agentId now
        end
  end.

Definition suggestion_expire (ownerId : OwnerId) (agentId : AgentId) (now : option string)
    : M exn W (list SuggestionCandidate) :=
  now ← match now with Some now => mret now | None => clock_now end;
  expire_attempts SUGGESTION_CAS_ATTEMPTS ownerId agentId now.
End service.
