(* ===== verification/Reflection.v ===== *)
(** packages/application/src/services/reflection-service.ts: a scheduled
    reflection is claimed under a lease, reads its context, asks the model once
    within its cost, and proposes what the model found as suggestions. *)
From S2P Require Import Prelude Js JsDate JsJson MachineSecrets Identifiers Contract AuthTypes.
From S2P Require Import Deterministic Persistence WorkspaceService SuggestionService.
Local Open Scope Z_scope.

Definition REFLECTION_CAS_ATTEMPTS : nat := 8.

Record RunReflectionInput := mkRunReflection {
  rn_ownerId : OwnerId; rn_agentId : AgentId; rn_generationRunId : RunId; rn_traceRef : string; rn_scheduledAt : string;
  rn_hostWasOnlineAtSchedule : bool; rn_previousWatermark : string }.

(** ** Errors *)
Definition reflection_concurrent : exn := portError CONFLICT "Reflection state remained concurrent" [].
Definition reflection_timezone_error : exn := portError INVALID_OPERATION "Invalid reflection timezone" [].
Definition definition_error : exn :=
  portError INVALID_OPERATION "Reflection definition exceeds its bounded contract" [].
Definition reflection_not_enabled : exn :=
  portError INVALID_OPERATION "Global reflection is not configured and enabled" [].
Definition context_error : exn := portError PROVIDER_FAILURE "Reflection context exceeded its bound" [].
Definition output_error : exn :=
  portError PROVIDER_FAILURE "Reflection model exceeded its frozen output or cost contract" [].
Definition checkpoint_disappeared : exn := portError NOT_FOUND "Reflection checkpoint disappeared" [].

(** The [code] of what was thrown, or the default one. *)
Definition reflection_error_code (error : exn) : string :=
  match error with
  | PortError e => PORT_ERROR_CODES (pe_code e)
  | DomainErr e => DOMAIN_ERROR_CODES (de_code e)
  | OtherError name _ => if name === "MachineSecretExclusionError" then "MACHINE_SECRET_EXCLUDED" else "REFLECTION_FAILED"
  end.

(** ** The state *)
Definition reflection_id (input : RunReflectionInput) : string :=
  "reflection:" +:+ rn_ownerId input +:+ ":" +:+ rn_agentId input +:+ ":" +:+ rn_scheduledAt input.

Definition find_checkpoint (id : string) (state : ProactivityState) : option ReflectionCheckpoint :=
  List.find (λ c, rf_id c === id) (ps_reflectionCheckpoints state).

Definition requiredCheckpoint (state : ProactivityState) (id : string) : result exn ReflectionCheckpoint :=
  match find_checkpoint id state with Some c => Ok c | None => Err checkpoint_disappeared end.

Definition put_checkpoint (checkpoint : ReflectionCheckpoint) (l : list ReflectionCheckpoint) : list ReflectionCheckpoint :=
  List.filter (λ c, rf_id c !== rf_id checkpoint) l ++ [checkpoint].

Definition replaceCheckpoint (state : ProactivityState) (checkpoint : ReflectionCheckpoint) : ProactivityState :=
  state <| ps_reflectionCheckpoints := put_checkpoint checkpoint (ps_reflectionCheckpoints state) |>.

Section definitions.
Context {zones : TimeZones}.

Definition assertDefinition (d : ReflectionDefinition) : result exn unit :=
  throw_if (negb (zone_known (df_timezone d))) reflection_timezone_error ;;
  throw_if ((df_id d !== "global-reflection") || (trim (df_schedule d) === "")
    || (df_dailySuggestionQuota d <? 1) || (20 <? df_dailySuggestionQuota d)
    || (df_maximumContextItems d <? 1) || (df_maximumCandidates d <? 1)
    || (df_dailySuggestionQuota d <? df_maximumCandidates d) || (df_maximumCostMicros d <? 0) || (df_timeoutMs d <? 1))
    definition_error.

(** The lease of a claim ends [timeoutMs] after [now]. *)
Definition lease_until (now : string) (timeoutMs : Z) : result exn string :=
  match dateParse now with None => Err invalidTime | Some t => isoOfTime (t + timeoutMs) end.

(** The checkpoint an attempt claims, or gives up: after three attempts it has
    failed, and a first one that was missed stays so. *)
Definition claimed_checkpoint (input : RunReflectionInput) (claimId now : string) (existing : option ReflectionCheckpoint)
    (definition : ReflectionDefinition) : result exn ReflectionCheckpoint :=
  let attempts := default 0 (rf_attempts <$> existing) in
  let missed := is_none existing && negb (rn_hostWasOnlineAtSchedule input) in
  let exhausted := 3 <=? attempts in
  claim ← (if missed || exhausted then Ok None
           else
             leaseUntil ← lease_until now (df_timeoutMs definition);
             Ok (Some (mkReflectionClaim claimId
               (default attempts (rl_generation <$> (existing ≫= rf_claim)) + 1) leaseUntil)));
  Ok (mkReflectionCheckpoint (reflection_id input) (rn_ownerId input) (rn_agentId input)
    (default (rn_generationRunId input) (rf_generationRunId <$> existing))
    (default (rn_traceRef input) (rf_traceRef <$> existing)) (rn_scheduledAt input)
    (default (rn_previousWatermark input) (rf_inputWatermark <$> existing))
    (if missed then reflection_missed else if exhausted then reflection_failed else reflection_running)
    (default [] (rf_candidateRefs <$> existing)) (default 0 (rf_costMicros <$> existing))
    (if missed || exhausted then attempts else attempts + 1)
    (if exhausted then Some (default "REFLECTION_ATTEMPTS_EXHAUSTED" (existing ≫= rf_errorCode)) else None) now definition
    (existing ≫= rf_context) (existing ≫= rf_output) claim (default 0 (rf_reservedCostMicros <$> existing))).

(** What the model may give within the frozen definition. *)
Definition output_exceeds (d : ReflectionDefinition) (output : ReflectionOutput) : bool :=
  (ro_costMicros output <? 0) || (df_maximumCostMicros d <? ro_costMicros output)
  || (df_maximumCandidates d <? Z.of_nat (length (ro_candidates output)))
  || (negb (ro_changed output) && negb (Z.of_nat (length (ro_candidates output)) =? 0)).

Definition proposal_candidate (outcome : ProposeOutcome) : option SuggestionCandidate :=
  match outcome with proposal_accepted c | proposal_duplicate c => Some c | proposal_quota_exhausted => None end.
End definitions.

Section service.
Context {W : Type} {zones : TimeZones} {digest : HostFileDigestPort}.
Context `{!ProactivityStatePort W, !SuggestionDeliveryPort W, !SuggestionTaskCreationPort W, !ClockPort W, !IdGeneratorPort W}.
Context `{!ReflectionContextPort W, !ReflectionModelPort W}.

(** ** [#update] and [#updateClaim]: an update gives [None] for the object it was given *)
Fixpoint update_attempts (attempts : nat) (ownerId : OwnerId) (agentId : AgentId)
    (update : ProactivityState → M exn W (option ProactivityState)) : M exn W ProactivityState :=
  match attempts with
  | O => throw reflection_concurrent
  | S attempts =>
      current ← proactivity_read ownerId agentId;
      updated ← update (pv_state current);
      match updated with
      | None => mret (pv_state current)
      | Some updated =>
          saved ← unless_conflict (proactivity_compareAndSet ownerId agentId (pv_revision current) updated);
          match saved with
          | Some saved => mret (pv_state saved)
          | None => update_attempts attempts ownerId agentId update
          end
      end
  end.

Definition update_state := update_attempts REFLECTION_CAS_ATTEMPTS.

Definition owns (checkpoint : ReflectionCheckpoint) (claimId : string) : M exn W bool :=
  match rf_claim checkpoint with
  | Some claim =>
      if (rf_outcome checkpoint === reflection_running) && (rl_id claim === claimId)
      then now ← clock_now; mret (str_lt now (rl_leaseUntil claim)) else mret false
  | None => mret false
  end.

Definition claim_update (id claimId : string) (update : ReflectionCheckpoint → M exn W (option ReflectionCheckpoint))
    (current : ProactivityState) : M exn W (option ProactivityState) :=
  latest ← lift (requiredCheckpoint current id);
  owned ← owns latest claimId;
  if negb owned then mret None
  else
    next ← update latest;
    mret (match next with Some next => Some (replaceCheckpoint current next) | None => None end).

Definition updateClaim (checkpoint : ReflectionCheckpoint) (claimId : string)
    (update : ReflectionCheckpoint → M exn W (option ReflectionCheckpoint)) : M exn W ReflectionCheckpoint :=
  state ← update_state (rf_ownerId checkpoint) (rf_agentId checkpoint) (claim_update (rf_id checkpoint) claimId update);
  lift (requiredCheckpoint state (rf_id checkpoint)).

Definition configure (definition : ReflectionDefinition) : M exn W ReflectionDefinition :=
  lift (assertDefinition definition) ;;
  state ← update_state (df_ownerId definition) (df_agentId definition)
    (λ state, mret (Some (state <| ps_reflectionDefinition := Some definition |>)));
  match ps_reflectionDefinition state with
  | None => throw (typeError "Reflection definition was not saved")
  | Some definition => mret definition
  end.

(** ** The claim *)
Definition claim_attempt (input : RunReflectionInput) (claimId : string) (state : ProactivityState)
    : M exn W (option ProactivityState) :=
  let existing := find_checkpoint (reflection_id input) state in
  now ← clock_now;
  if match existing with
     | None => false
     | Some c => (rf_outcome c !== reflection_running)
                 || match rf_claim c with Some claim => str_lt now (rl_leaseUntil claim) | None => false end
     end then mret None
  else
    match (match existing with Some c => Some (rf_definition c) | None => ps_reflectionDefinition state end) with
    | None => throw reflection_not_enabled
    | Some definition =>
        throwM_if (negb (df_enabled definition)) reflection_not_enabled ;;
        lift (assertDefinition definition) ;;
        checkpoint ← lift (claimed_checkpoint input claimId now existing definition);
        mret (Some (replaceCheckpoint state checkpoint))
    end.

(** ** The attempt

    [checkpoint] is a local variable of [run], which its handler reads too:
    the world is paired with it. *)
Definition on_world {A} (m : M exn W A) : M exn (W * ReflectionCheckpoint) A := zoom fst (λ w p, (w, p.2)) m.
Definition variable : M exn (W * ReflectionCheckpoint) ReflectionCheckpoint := gets snd.
Definition assign (m : M exn W ReflectionCheckpoint) : M exn (W * ReflectionCheckpoint) unit :=
  c ← on_world m; modify (λ p, (p.1, c)).

(** The variable is updated under the claim. *)
Definition step_claim (claimId : string) (update : ReflectionCheckpoint → M exn W (option ReflectionCheckpoint))
    : M exn (W * ReflectionCheckpoint) unit :=
  checkpoint ← variable; assign (updateClaim checkpoint claimId update).

Definition select_context (input : RunReflectionInput) (claimId : string) (definition : ReflectionDefinition)
    : M exn (W * ReflectionCheckpoint) unit :=
  checkpoint ← variable;
  match rf_context checkpoint with
  | Some _ => mret tt
  | None =>
      context ← on_world (reflection_select (rn_ownerId input) (rn_agentId input) (rf_inputWatermark checkpoint)
        (df_maximumContextItems definition));
      throwM_if ((rc_itemCount context <? 0) || (df_maximumContextItems definition <? rc_itemCount context)) context_error ;;
      step_claim claimId (λ current,
        mret (Some (current <| rf_context := Some context |> <| rf_inputWatermark := rc_watermark context |>)))
  end.

(** Whether the attempt goes on. *)
Definition reflect_output (input : RunReflectionInput) (claimId : string) (definition : ReflectionDefinition)
    : M exn (W * ReflectionCheckpoint) bool :=
  checkpoint ← variable;
  match rf_output checkpoint with
  | Some _ => mret true
  | None =>
      step_claim claimId (λ current, mret (Some (current <| rf_reservedCostMicros := df_maximumCostMicros definition |>))) ;;
      checkpoint ← variable;
      owned ← on_world (owns checkpoint claimId);
      match owned, rf_context checkpoint with
      | true, Some context =>
          output ← on_world (reflect (mkReflectInput (reflection_id input) (rc_inputRef context)
            (df_maximumCandidates definition) (df_maximumCostMicros definition) (df_timeoutMs definition)));
          on_world (lift (assertMachineSecretFree (stringify (JObj (ro_metadata output))))) ;;
          throwM_if (output_exceeds definition output) output_error ;;
          step_claim claimId (λ current, mret (Some (current <| rf_output := Some output |>
            <| rf_costMicros := ro_costMicros output |> <| rf_reservedCostMicros := 0 |>))) ;;
          mret true
      | _, _ => mret false
      end
  end.

Fixpoint propose_drafts (input : RunReflectionInput) (claimId : string) (definition : ReflectionDefinition)
    (drafts : list ReflectionCandidateDraft) : M exn (W * ReflectionCheckpoint) bool :=
  match drafts with
  | [] => mret true
  | draft :: drafts =>
      step_claim claimId (λ _, mret None) ;;
      checkpoint ← variable;
      owned ← on_world (owns checkpoint claimId);
      if negb owned then mret false
      else
        proposal ← on_world (propose (mkPropose (rn_ownerId input) (rn_agentId input) (rf_generationRunId checkpoint)
          (rf_traceRef checkpoint) (draft <| rd_sourceWatermark := rf_inputWatermark checkpoint |>)
          (Some (df_dailySuggestionQuota definition))));
        match proposal_candidate proposal with
        | Some candidate => step_claim claimId (λ current,
            mret (Some (current <| rf_candidateRefs := unique (rf_candidateRefs current ++ [sg_id candidate]) |>)))
        | None => mret tt
        end ;;
        propose_drafts input claimId definition drafts
  end.

Definition settle_reflection (checkpoint : ReflectionCheckpoint) (claimId : string) : M exn W ReflectionCheckpoint :=
  updateClaim checkpoint claimId (λ current,
    now ← clock_now;
    mret (Some (current
      <| rf_outcome := if bool_decide (rf_candidateRefs current = []) then reflection_no_change else reflection_candidates |>
      <| rf_claim := None |> <| rf_completedAt := now |>))).

(** The body of the [try]; what it returns without [await] is the result. *)
Definition attempt_body (input : RunReflectionInput) (claimId : string) (definition : ReflectionDefinition)
    : M exn (W * ReflectionCheckpoint) (M exn (W * ReflectionCheckpoint) ReflectionCheckpoint) :=
  let return_checkpoint := checkpoint ← variable; mret (mret checkpoint) in
  select_context input claimId definition ;;
  checkpoint ← variable;
  owned ← on_world (owns checkpoint claimId);
  if negb owned then return_checkpoint
  else
    goes_on ← reflect_output input claimId definition;
    if negb goes_on then return_checkpoint
    else
      checkpoint ← variable;
      owned ← on_world (owns checkpoint claimId);
      match owned, rf_output checkpoint, rf_context checkpoint with
      | true, Some output, Some _ =>
          goes_on ← propose_drafts input claimId definition (ro_candidates output);
          if negb goes_on then return_checkpoint
          else checkpoint ← variable; mret (on_world (settle_reflection checkpoint claimId))
      | _, _, _ => return_checkpoint
      end.

Definition fail_reflection (checkpoint : ReflectionCheckpoint) (claimId : string) (error : exn) : M exn W ReflectionCheckpoint :=
  updateClaim checkpoint claimId (λ current,
    now ← clock_now;
    mret (Some (current <| rf_outcome := if 3 <=? rf_attempts current then reflection_failed else reflection_running |>
      <| rf_claim := None |> <| rf_errorCode := Some (reflection_error_code error) |> <| rf_completedAt := now |>))).

Definition attempt_handler (claimId : string) (error : exn) : M exn (W * ReflectionCheckpoint) ReflectionCheckpoint :=
  checkpoint ← variable;
  saved ← on_world (fail_reflection checkpoint claimId error);
  if (rf_outcome saved !== reflection_running)
     || match rf_claim saved with Some claim => rl_id claim !== claimId | None => false end
  then mret saved else throw error.

Definition run_attempt (input : RunReflectionInput) (claimId : string) (checkpoint : ReflectionCheckpoint)
    : M exn W ReflectionCheckpoint := λ w,
  let '(r, p) := try_tail (attempt_body input claimId (rf_definition checkpoint)) (attempt_handler claimId) (w, checkpoint) in
  (r, p.1).

Definition run_reflection (input : RunReflectionInput) : M exn W ReflectionCheckpoint :=
  claimId ← ids_next "reflection-attempt";
  claimedState ← update_state (rn_ownerId input) (rn_agentId input) (claim_attempt input claimId);
  checkpoint ← lift (requiredCheckpoint claimedState (reflection_id input));
  owned ← owns checkpoint claimId;
  if negb owned then mret checkpoint else run_attempt input claimId checkpoint.
End service.

(** ** How the checkpoints of reflections change, whoever changes them: the moves
    of one checkpoint, the steps of the list, and what every step keeps. *)

Definition checkpoint_name (owner agent scheduledAt : string) : string :=
  "reflection:" +:+ owner +:+ ":" +:+ agent +:+ ":" +:+ scheduledAt.

Section steps.
Context {zones : TimeZones} (owner agent : string) (maximum : Z).

(** One change of a checkpoint that is still running. *)
Inductive checkpoint_move (p : ReflectionCheckpoint) : ReflectionCheckpoint → Prop :=
  | move_claimed claim time :
      rf_outcome p = reflection_running → rf_attempts p < 3 →
      rl_generation claim = default (rf_attempts p) (rl_generation <$> rf_claim p) + 1 →
      checkpoint_move p (p <| rf_attempts := rf_attempts p + 1 |> <| rf_errorCode := None |> <| rf_completedAt := time |>
        <| rf_claim := Some claim |>)
  | move_given_up code time :
      rf_outcome p = reflection_running → 3 ≤ rf_attempts p →
      checkpoint_move p (p <| rf_outcome := reflection_failed |> <| rf_errorCode := Some code |>
        <| rf_completedAt := time |> <| rf_claim := None |>)
  | move_context context :
      rf_claim p ≠ None → 0 ≤ rc_itemCount context ≤ df_maximumContextItems (rf_definition p) →
      checkpoint_move p (p <| rf_context := Some context |> <| rf_inputWatermark := rc_watermark context |>)
  | move_reserved :
      rf_claim p ≠ None → checkpoint_move p (p <| rf_reservedCostMicros := df_maximumCostMicros (rf_definition p) |>)
  | move_output output :
      rf_claim p ≠ None → output_exceeds (rf_definition p) output = false →
      secret_free (stringify (JObj (ro_metadata output))) →
      checkpoint_move p (p <| rf_output := Some output |> <| rf_costMicros := ro_costMicros output |>
        <| rf_reservedCostMicros := 0 |>)
  | move_candidate id :
      rf_claim p ≠ None → checkpoint_move p (p <| rf_candidateRefs := unique (rf_candidateRefs p ++ [id]) |>)
  | move_settled time :
      rf_claim p ≠ None → rf_output p ≠ None →
      checkpoint_move p (p
        <| rf_outcome := if bool_decide (rf_candidateRefs p = []) then reflection_no_change else reflection_candidates |>
        <| rf_claim := None |> <| rf_completedAt := time |>)
  | move_failed code time :
      rf_claim p ≠ None →
      checkpoint_move p (p <| rf_outcome := if 3 <=? rf_attempts p then reflection_failed else reflection_running |>
        <| rf_claim := None |> <| rf_errorCode := Some code |> <| rf_completedAt := time |>).

(** A checkpoint that is made for a schedule nobody has reflected on. *)
Record fresh_checkpoint (c : ReflectionCheckpoint) : Prop := {
  fc_scope : rf_ownerId c = owner ∧ rf_agentId c = agent;
  fc_id : rf_id c = checkpoint_name owner agent (rf_scheduledAt c);
  fc_definition : assertDefinition (rf_definition c) = Ok tt ∧ df_enabled (rf_definition c) = true;
  fc_quota : df_dailySuggestionQuota (rf_definition c) ≤ maximum;
  fc_new : rf_candidateRefs c = [] ∧ rf_costMicros c = 0 ∧ rf_context c = None ∧ rf_output c = None ∧
    rf_reservedCostMicros c = 0;
  fc_start : (rf_outcome c = reflection_missed ∧ rf_attempts c = 0 ∧ rf_claim c = None) ∨
    (rf_outcome c = reflection_running ∧ rf_attempts c = 1 ∧ ∃ claim, rf_claim c = Some claim ∧ rl_generation claim = 1);
}.

Inductive checkpoints_step (l : list ReflectionCheckpoint) : list ReflectionCheckpoint → Prop :=
  | checkpoints_same : checkpoints_step l l
  | checkpoints_new c : rf_id c ∉ rf_id <$> l → fresh_checkpoint c → checkpoints_step l (put_checkpoint c l)
  | checkpoints_moved p c : p ∈ l → checkpoint_move p c → checkpoints_step l (put_checkpoint c l).

(** ** What always holds of a checkpoint *)
Record checkpoint_sound (c : ReflectionCheckpoint) : Prop := {
  cs_scope : rf_ownerId c = owner ∧ rf_agentId c = agent;
  cs_id : rf_id c = checkpoint_name owner agent (rf_scheduledAt c);
  cs_definition : assertDefinition (rf_definition c) = Ok tt ∧ df_enabled (rf_definition c) = true;
  cs_quota : df_dailySuggestionQuota (rf_definition c) ≤ maximum;
  cs_attempts : 0 ≤ rf_attempts c ≤ 3;
  cs_claim : ∀ claim, rf_claim c = Some claim →
    rf_outcome c = reflection_running ∧ 1 ≤ rf_attempts c ∧ rl_generation claim = rf_attempts c;
  cs_cost : 0 ≤ rf_costMicros c ≤ df_maximumCostMicros (rf_definition c) ∧
    0 ≤ rf_reservedCostMicros c ≤ df_maximumCostMicros (rf_definition c);
  cs_context : ∀ context, rf_context c = Some context → 0 ≤ rc_itemCount context ≤ df_maximumContextItems (rf_definition c);
  cs_output : ∀ output, rf_output c = Some output →
    output_exceeds (rf_definition c) output = false ∧ secret_free (stringify (JObj (ro_metadata output))) ∧
    rf_costMicros c = ro_costMicros output;
  cs_refs : NoDup (rf_candidateRefs c);
  cs_outcome : match rf_outcome c with
               | reflection_running => 1 ≤ rf_attempts c
               | reflection_no_change => rf_candidateRefs c = [] ∧ rf_output c ≠ None
               | reflection_candidates => rf_candidateRefs c ≠ [] ∧ rf_output c ≠ None
               | reflection_missed => rf_attempts c = 0 ∧ rf_output c = None
               | reflection_failed => rf_attempts c = 3
               end;
}.

Record checkpoints_sound (l : list ReflectionCheckpoint) : Prop := {
  cl_ids : NoDup (rf_id <$> l);
  cl_each : Forall checkpoint_sound l;
}.

(** ** One move *)
(** A move leaves the identity and the definition alone. *)
Lemma move_keeps p c : checkpoint_move p c →
  rf_id c = rf_id p ∧ rf_ownerId c = rf_ownerId p ∧ rf_agentId c = rf_agentId p ∧ rf_scheduledAt c = rf_scheduledAt p ∧
  rf_definition c = rf_definition p ∧ rf_generationRunId c = rf_generationRunId p ∧ rf_attempts p ≤ rf_attempts c ∧
  (rf_output p ≠ None → rf_output c ≠ None) ∧ (rf_context p ≠ None → rf_context c ≠ None).
Proof. destruct 1; cbn; repeat split; try done; lia. Qed.

Lemma assertDefinition_cost d : assertDefinition d = Ok tt → 0 ≤ df_maximumCostMicros d.
Proof.
  intros H. apply result_bind_Ok in H as (u & _ & H). apply throw_if_Ok in H. rewrite !orb_false_iff, !Z.ltb_ge in H. tauto.
Qed.

Lemma output_cost d o : output_exceeds d o = false → 0 ≤ ro_costMicros o ≤ df_maximumCostMicros d.
Proof. unfold output_exceeds. rewrite !orb_false_iff, !Z.ltb_ge. tauto. Qed.

(** Only a running checkpoint moves. *)
Lemma sound_move_running p c : checkpoint_sound p → checkpoint_move p c → rf_outcome p = reflection_running.
Proof.
  intros Hp Hm. destruct Hm; try done; destruct (rf_claim p) as [claim|] eqn:E; try done; by apply (cs_claim p Hp claim).
Qed.

Lemma move_sound p c : checkpoint_sound p → checkpoint_move p c → checkpoint_sound c.
Proof.
  intros Hp Hm. pose proof (sound_move_running p c Hp Hm) as Hrun. destruct Hp as [H1 H2 H3 Hq H4 H5 H6 H7 H8 H9 H10].
  rewrite Hrun in H10. pose proof (assertDefinition_cost _ (proj1 H3)) as Hcost.
  destruct Hm as [claim time _ Ha Hg|code time _ Ha|context Hc Hctx|Hc|output Hc Ho Hs|id Hc|time Hc Ho|code time Hc];
    constructor; cbn; try done; try lia.
  - intros claim' [= <-]. split; [done|]. split; [lia|]. rewrite Hg. destruct (rf_claim p) as [old|] eqn:E; cbn; [|done].
    destruct (H5 _ eq_refl) as (_ & _ & ->). done.
  - rewrite Hrun. lia.
  - intros ? [= <-]. done.
  - by rewrite Hrun.
  - by rewrite Hrun.
  - pose proof (output_cost _ _ Ho). lia.
  - by intros ? [= <-].
  - by rewrite Hrun.
  - by apply unique_spec.
  - by rewrite Hrun.
  - case_bool_decide; done.
  - destruct (3 <=? rf_attempts p) eqn:E; lia.
Qed.

Lemma fresh_sound c : fresh_checkpoint c → checkpoint_sound c.
Proof.
  intros [H1 H2 H3 Hq (Hr & Hm & Hx & Ho & Hv) Hs]. pose proof (assertDefinition_cost _ (proj1 H3)) as Hcost.
  constructor; rewrite ?Hr, ?Hm, ?Hx, ?Ho, ?Hv; try done.
  - destruct Hs as [(_ & -> & _)|(_ & -> & _)]; lia.
  - intros claim Hc. destruct Hs as [(_ & _ & Hn)|(Hrun & Ha & claim' & Hc' & Hg)]; [congruence|].
    rewrite Hrun, Ha. replace claim with claim' by congruence. split; [done|]. split; [lia|done].
  - apply NoDup_nil_2.
  - destruct Hs as [(-> & Ha & _)|(-> & Ha & _)]; [done|]. lia.
Qed.

(** ** Steps of the list *)
Lemma put_elem c l x : x ∈ put_checkpoint c l ↔ (x ∈ l ∧ rf_id x ≠ rf_id c) ∨ x = c.
Proof.
  unfold put_checkpoint. rewrite elem_of_app, list_elem_of_singleton, list_elem_of_In, filter_In, <-list_elem_of_In.
  by rewrite negb_true_iff, bool_decide_eq_false.
Qed.

Lemma put_ids c l : NoDup (rf_id <$> l) → NoDup (rf_id <$> put_checkpoint c l).
Proof.
  intros H. unfold put_checkpoint. rewrite fmap_app. apply NoDup_app. split; [|split; [|apply NoDup_singleton]].
  - induction l as [|x l IH]; [done|]. cbn in H. apply NoDup_cons in H as [Hx H]. cbn. destruct (rf_id x !== rf_id c); [|by apply IH].
    cbn. apply NoDup_cons. split; [|by apply IH]. intros (y & He & Hy)%list_elem_of_fmap. apply Hx, list_elem_of_fmap.
    exists y. split; [done|]. apply list_elem_of_In, filter_In in Hy as [Hy _]. by apply list_elem_of_In.
  - intros id (y & -> & Hy)%list_elem_of_fmap Hc. cbn in Hc. apply list_elem_of_singleton in Hc.
    apply list_elem_of_In, filter_In in Hy as [_ Hy]. by guards.
Qed.

Lemma checkpoints_step_sound l l' : checkpoints_sound l → checkpoints_step l l' → checkpoints_sound l'.
Proof.
  intros [H1 H2] [|c _ Hc|p c Hp Hm]; [done|..]; (split; [by apply put_ids|]); apply Forall_forall; intros x Hx;
    apply put_elem in Hx as [[Hx _]| ->]; try exact (proj1 (Forall_forall _ _) H2 x Hx).
  - by apply fresh_sound.
  - eapply move_sound; [|exact Hm]. exact (proj1 (Forall_forall _ _) H2 p Hp).
Qed.

Lemma find_checkpoint_elem id state c : NoDup (rf_id <$> ps_reflectionCheckpoints state) →
  find_checkpoint id state = Some c ↔ c ∈ ps_reflectionCheckpoints state ∧ rf_id c = id.
Proof.
  intros Hn. unfold find_checkpoint. split.
  - intros [H1 H2]%find_elem. by guards.
  - intros [Hc Hid]. destruct (List.find _ _) as [x|] eqn:E; [by rewrite (find_unique rf_id (ps_reflectionCheckpoints state) id c x)|].
    eapply find_None in E; [|exact Hc]. by guards.
Qed.

(** The checkpoint with this identity came of [c] by moves. *)
Definition descends (c : ReflectionCheckpoint) (l : list ReflectionCheckpoint) : Prop :=
  ∃ c', c' ∈ l ∧ rf_id c' = rf_id c ∧ rtc checkpoint_move c c'.

Lemma descends_here c l : c ∈ l → descends c l.
Proof. intros H. by exists c. Qed.

Lemma descends_step c l l' : checkpoints_sound l → checkpoints_step l l' → descends c l → descends c l'.
Proof.
  intros [Hn _] Hs (c' & Hc & Hid & Hm). destruct Hs as [|d Hd _|p d Hp Hd]; [by exists c'|..].
  - exists c'. split; [|done]. apply put_elem. left. split; [done|]. intros He. apply Hd, list_elem_of_fmap. by exists c'.
  - destruct (decide (rf_id c' = rf_id d)) as [He|Hne].
    + assert (c' = p) as ->.
      { apply list_elem_of_lookup in Hc as [i Hi]. apply list_elem_of_lookup in Hp as [j Hj].
        assert (i = j) as ->; [|congruence]. eapply (NoDup_lookup (rf_id <$> l)); [done|by rewrite list_lookup_fmap, Hi|].
        rewrite list_lookup_fmap, Hj. cbn. f_equal. rewrite He. symmetry. by apply move_keeps. }
      exists d. split; [apply put_elem; by right|]. split; [congruence|]. by eapply rtc_r.
    + exists c'. split; [apply put_elem; by left|done].
Qed.

Lemma moves_sound c c' : rtc checkpoint_move c c' → checkpoint_sound c → checkpoint_sound c'.
Proof. induction 1; eauto using move_sound. Qed.

(** What has settled stays. *)
Lemma settled_stays c c' : checkpoint_sound c → rf_outcome c ≠ reflection_running → rtc checkpoint_move c c' → c' = c.
Proof.
  intros Hs Hr Hm. destruct Hm as [|c c1 c' H1 _]; [done|]. by destruct (Hr (sound_move_running _ _ Hs H1)).
Qed.
End steps.
