(* ===== verification/SuggestionContract.v ===== *)
(** What the suggestion service stands on: the suggestions of one Owner and
    Agent and the Tasks made of them as a shared state, the steps in which
    anyone may change it, and the promises of the ports; and what every
    sequence of such steps keeps. *)
From S2P Require Import Prelude Js JsDate JsJson Identifiers Contract AuthTypes Persistence WorkspaceService.
From S2P Require Import Delegation SuggestionService Reflection.
Local Open Scope Z_scope.

(** The stored state, and the Tasks by their keys. *)
Record shared := mkShared { sh_stored : StoredProactivity; sh_tasks : gmap string string }.

#[global] Instance eta_shared : Eta shared := λ r, mkShared (sh_stored r) (sh_tasks r).

Definition suggestions (s : shared) : list SuggestionCandidate := ps_suggestions (pv_state (sh_stored s)).

Definition stored_next (st : ProactivityState) (s : shared) : shared :=
  s <| sh_stored := mkStoredProactivity (pv_revision (sh_stored s) + 1) st |>.

Definition with_suggestions (l : list SuggestionCandidate) (s : shared) : shared :=
  stored_next ((pv_state (sh_stored s)) <| ps_suggestions := l |>) s.

(** ** The life of a suggestion *)
Inductive suggestion_moves (tasks : gmap string string) (c : SuggestionCandidate) : SuggestionCandidate → Prop :=
  | moves_delivered status deliveryRef :
      sg_status c = suggestion_candidate → status = suggestion_delivered ∨ status = suggestion_expired →
      suggestion_moves tasks c (c <| sg_status := status |> <| sg_deliveryRef := Some deliveryRef |>
        <| sg_revision := sg_revision c + 1 |>)
  | moves_decided d key :
      sg_status c = suggestion_delivered →
      suggestion_moves tasks c (c <| sg_status := decided_status d |>
        <| sg_taskCreationKey := match d with approve_suggestion => Some (taskCreationKey c) | reject_suggestion => None end |>
        <| sg_responseIdempotencyKeys := [key] |> <| sg_revision := sg_revision c + 1 |>)
  | moves_task key taskRef :
      sg_status c = suggestion_approved → sg_taskCreationKey c = Some key → tasks !! key = Some taskRef →
      sg_taskRef c = None →
      suggestion_moves tasks c (c <| sg_taskRef := Some taskRef |> <| sg_revision := sg_revision c + 1 |>)
  | moves_expired :
      sg_status c = suggestion_candidate ∨ sg_status c = suggestion_delivered →
      suggestion_moves tasks c (c <| sg_revision := sg_revision c + 1 |> <| sg_status := suggestion_expired |>).

(** Somebody approved a suggestion with this key. *)
Definition task_intent (key : string) (s : shared) : Prop :=
  ∃ c, c ∈ suggestions s ∧ sg_status c = suggestion_approved ∧ sg_taskCreationKey c = Some key.

(** The zone a suggestion is counted in: the one its Task draft names. *)
Definition sg_zone (c : SuggestionCandidate) : string := td_timezone (sg_taskDraft c).

(** The definition that is configured asks for no larger a quota. *)
Definition definition_within (maximum : Z) (st : ProactivityState) : Prop :=
  ∀ d, ps_reflectionDefinition st = Some d → df_dailySuggestionQuota d ≤ maximum.

Section steps.
Context {zones : TimeZones} (owner agent : string) (maximum : Z).

(** A new suggestion is within the quota of the day it is created on, in the
    zone that it names, and no duplicate. *)
Record admissible (c : SuggestionCandidate) (l : list SuggestionCandidate) : Prop := {
  ad_status : sg_status c = suggestion_candidate;
  ad_taskRef : sg_taskRef c = None;
  ad_scope : sg_ownerId c = owner ∧ sg_agentId c = agent;
  ad_quota : ∃ day n, civilDay (sg_createdAt c) (sg_zone c) = Ok day ∧
    accepted_today (sg_zone c) day l = Ok n ∧ n < maximum;
  ad_new : List.find (is_duplicate (sg_createdAt c) (sg_semanticKey c) (sg_evidenceFingerprint c)
             (sg_ownerScopeRevision c)) l = None;
}.

Inductive suggestion_step (s : shared) : shared → Prop :=
  | step_proposed c : admissible c (suggestions s) → suggestion_step s (with_suggestions (suggestions s ++ [c]) s)
  | step_moved l :
      Forall2 (λ c c', c' = c ∨ suggestion_moves (sh_tasks s) c c') (suggestions s) l →
      suggestion_step s (with_suggestions l s)
  | step_other st :
      ps_suggestions st = suggestions s → ps_ownerId st = ps_ownerId (pv_state (sh_stored s)) →
      ps_agentId st = ps_agentId (pv_state (sh_stored s)) →
      (definition_within maximum (pv_state (sh_stored s)) → definition_within maximum st) →
      checkpoints_step owner agent maximum (ps_reflectionCheckpoints (pv_state (sh_stored s))) (ps_reflectionCheckpoints st) →
      suggestion_step s (stored_next st s)
  | step_task key taskRef :
      sh_tasks s !! key = None → task_intent key s →
      suggestion_step s (s <| sh_tasks := <[key := taskRef]> (sh_tasks s) |>).

(** ** What always holds *)

(** Of two suggestions with one key, the first had expired when the second was
    created, or is closed. *)
Definition apart (c c' : SuggestionCandidate) : Prop :=
  sg_semanticKey c = sg_semanticKey c' →
  str_lt (sg_createdAt c') (sg_expiresAt c) = false ∨
  sg_status c = suggestion_rejected ∨ sg_status c = suggestion_expired ∨ sg_status c = suggestion_superseded.

(** The state of the suggestions: each, with those created before it, is within
    the quota of its day in its zone, not counting the ones that have been
    rejected or superseded. *)
Record suggestions_sound (s : shared) : Prop := mk_sound {
  so_scope : ps_ownerId (pv_state (sh_stored s)) = owner ∧ ps_agentId (pv_state (sh_stored s)) = agent;
  so_scopes : Forall (λ c, sg_ownerId c = owner ∧ sg_agentId c = agent) (suggestions s);
  so_definition : definition_within maximum (pv_state (sh_stored s));
  so_quota : ∀ i c, suggestions s !! i = Some c → ∃ day n, civilDay (sg_createdAt c) (sg_zone c) = Ok day ∧
    accepted_today (sg_zone c) day (take (S i) (suggestions s)) = Ok n ∧ n ≤ maximum;
  so_apart : ∀ i j c c', (i < j)%nat → suggestions s !! i = Some c → suggestions s !! j = Some c' → apart c c';
  so_tasks : ∀ key taskRef, sh_tasks s !! key = Some taskRef → task_intent key s;
  so_taskRefs : ∀ c taskRef, c ∈ suggestions s → sg_taskRef c = Some taskRef →
    sg_status c = suggestion_approved ∧ ∃ key, sg_taskCreationKey c = Some key ∧ sh_tasks s !! key = Some taskRef;
}.

(** ** The promises of the ports *)
Section laws.
Context {W : Type} `{!ProactivityStatePort W, !SuggestionDeliveryPort W, !SuggestionTaskCreationPort W, !ClockPort W, !IdGeneratorPort W}.
Context (view : W → shared) (inv : W → Prop).

Definition cas_effect (revision : Z) (st : ProactivityState) (r : StoredProactivity) (s s' : shared) : Prop :=
  pv_revision (sh_stored s) = revision ∧ r = mkStoredProactivity (revision + 1) st ∧ s' = stored_next st s.

Class ProactivityStateLaws : Prop := {
  law_proactivity_read :
    gen_op_law suggestion_step view inv (gen_reads (λ r s, r = sh_stored s)) (proactivity_read owner agent);
  law_proactivity_cas : ∀ revision st, ps_ownerId st = owner → ps_agentId st = agent →
    gen_op_law suggestion_step view inv (cas_effect revision st) (proactivity_compareAndSet owner agent revision st);
}.

(** One Task per key, also when the call is repeated; the rest leaves the state to others. *)
Class SuggestionPortLaws : Prop := {
  law_createOrdinaryTask : ∀ input, triple suggestion_step view inv (task_intent (ot_idempotencyKey input))
    (createOrdinaryTask input) (λ taskRef s, sh_tasks s !! ot_idempotencyKey input = Some taskRef);
  frame_enqueue : ∀ c key resultRef, gen_frame_law suggestion_step view inv (suggestion_enqueue c key resultRef);
  frame_suggestion_clock : gen_frame_law suggestion_step view inv clock_now;
  frame_suggestion_ids : ∀ prefix, gen_frame_law suggestion_step view inv (ids_next prefix);
}.
End laws.
End steps.

(** ** Counting *)
Section counting.
Context {zones : TimeZones} (zone : string).

Lemma accepted_nil day : accepted_today zone day [] = Ok 0.
Proof. done. Qed.

Lemma accepted_cons day c l n : accepted_today zone day (c :: l) = Ok n ↔
  ∃ b m, counts_today zone day c = Ok b ∧ accepted_today zone day l = Ok m ∧ n = (if b then 1 else 0) + m.
Proof.
  unfold accepted_today. cbn. unfold mbind, result_bind. destruct (counts_today zone day c) as [b|x]; [|naive_solver].
  cbn. destruct (mapM _ l) as [bs|x]; cbn; [|naive_solver].
  split.
  - intros [= <-]. exists b, (Z.of_nat (length (List.filter (λ b, b) bs))). do 2 (split; [done|]). destruct b; cbn; lia.
  - intros (? & ? & [= <-] & [= <-] & ->). f_equal. destruct b; cbn; lia.
Qed.

Lemma accepted_snoc day l c n b : accepted_today zone day l = Ok n → counts_today zone day c = Ok b →
  accepted_today zone day (l ++ [c]) = Ok (n + if b then 1 else 0).
Proof.
  intros Hn Hb. revert n Hn. induction l as [|c0 l IH]; intros n Hn; cbn [app].
  - injection Hn as <-. apply accepted_cons. exists b, 0. split; [done|]. split; [done|]. lia.
  - apply accepted_cons in Hn as (b0 & m & H0 & Hm & ->). apply accepted_cons. exists b0, (m + if b then 1 else 0).
    split; [done|]. split; [by apply IH|]. lia.
Qed.

(** A suggestion that moves is not counted more. *)
Lemma accepted_moved day tasks l l' n :
  Forall2 (λ c c', c' = c ∨ suggestion_moves tasks c c') l l' → accepted_today zone day l = Ok n →
  ∃ n', accepted_today zone day l' = Ok n' ∧ n' ≤ n.
Proof.
  intros Hl. revert n. induction Hl as [|c c' l l' Hc _ IH]; intros n Hn; [by exists n|].
  apply accepted_cons in Hn as (b & m & Hb & Hm & ->). destruct (IH _ Hm) as (m' & Hm' & Hle).
  assert (∃ b', counts_today zone day c' = Ok b' ∧ (if b' then 1 else 0) ≤ (if b then 1 else 0)) as (b' & Hb' & Hle').
  { destruct Hc as [->|Hc]; [by exists b|]. unfold counts_today in *. cbn in *.
    assert (sg_createdAt c' = sg_createdAt c) as -> by by destruct Hc. destruct (civilDay _ _) as [created|]; [|done].
    cbn in *. injection Hb as <-. eexists. split; [done|].
    destruct (bool_decide (created = day)); cbn; [|lia].
    destruct Hc as [status d Hs [-> | ->]|[] k Hs|k r Hs _ _ _|[Hs|Hs]];
      unfold uncounted; cbn; rewrite Hs; repeat case_bool_decide; cbn; (lia || congruence). }
  exists ((if b' then 1 else 0) + m'). split; [|lia]. apply accepted_cons. by exists b', m'.
Qed.

(** A suggestion that names the zone and counts on the day. *)
Definition named_on (day : string) (c : SuggestionCandidate) : bool :=
  (sg_zone c === zone) && match counts_today zone day c with Ok b => b | Err _ => false end.

Definition named_count (day : string) (l : list SuggestionCandidate) : Z :=
  Z.of_nat (length (List.filter (named_on day) l)).

Lemma named_accepted day l n : accepted_today zone day l = Ok n → named_count day l ≤ n.
Proof.
  unfold named_count. revert n. induction l as [|c l IH]; intros n H; [by injection H as <-|].
  apply accepted_cons in H as (b & m & Hb & Hm & ->). specialize (IH _ Hm). cbn.
  assert (named_on day c = true → b = true) as Hn.
  { unfold named_on. rewrite Hb. by intros [_ ?]%andb_true_iff. }
  destruct (named_on day c); cbn; [rewrite (Hn eq_refl); lia|destruct b; lia].
Qed.

Lemma named_snoc day l c : named_count day (l ++ [c]) = named_count day l + if named_on day c then 1 else 0.
Proof. unfold named_count. rewrite List.filter_app, length_app. cbn. destruct (named_on day c); cbn; lia. Qed.

Lemma named_day day c : named_on day c = true → sg_zone c = zone ∧ civilDay (sg_createdAt c) zone = Ok day.
Proof.
  unfold named_on, counts_today. intros [H1 H2]%andb_true_iff. guards.
  destruct (civilDay (sg_createdAt c) zone) as [d|]; [|done]. cbn in H2. apply andb_true_iff in H2 as [H2 _].
  apply bool_decide_eq_true in H2. by subst d.
Qed.
End counting.

(** ** Soundness is kept *)
Section soundness.
Context {zones : TimeZones} (owner agent : string) (maximum : Z).
Abbreviation step := (suggestion_step owner agent maximum) (only parsing).
Abbreviation sound := (suggestions_sound owner agent maximum) (only parsing).

(** What a move leaves alone. *)
Lemma moves_keep tasks c c' : suggestion_moves tasks c c' →
  sg_id c' = sg_id c ∧ sg_ownerId c' = sg_ownerId c ∧ sg_agentId c' = sg_agentId c ∧
  sg_semanticKey c' = sg_semanticKey c ∧ sg_createdAt c' = sg_createdAt c ∧ sg_expiresAt c' = sg_expiresAt c ∧
  sg_revision c' = sg_revision c + 1 ∧ sg_taskDraft c' = sg_taskDraft c.
Proof. by destruct 1. Qed.

(** A closed suggestion, and an approved one, stays as it is decided. *)
Lemma moves_final tasks c c' : suggestion_moves tasks c c' →
  sg_status c ≠ suggestion_candidate → sg_status c ≠ suggestion_delivered →
  sg_status c' = sg_status c ∧ sg_taskCreationKey c' = sg_taskCreationKey c ∧
  (sg_status c ≠ suggestion_approved → False).
Proof. destruct 1; cbn; naive_solver. Qed.

Lemma not_duplicate_apart c c' :
  is_duplicate (sg_createdAt c') (sg_semanticKey c') (sg_evidenceFingerprint c') (sg_ownerScopeRevision c') c = false →
  apart c c'.
Proof.
  intros H Hk. unfold is_duplicate, activeForDedupe in H. rewrite Hk, bool_decide_true in H by done. cbn in H.
  apply orb_false_iff in H as [H _]. apply andb_false_iff in H as [H|H]; [by left|right].
  destruct (sg_status c); naive_solver.
Qed.

(** The steps on the list of suggestions. *)
Lemma intent_suggestions key s s' : suggestions s ⊆ suggestions s' → task_intent key s → task_intent key s'.
Proof. intros Hs (c & Hc & H). exists c. split; [|done]. by apply Hs. Qed.

Lemma intent_moved key s s' :
  Forall2 (λ c c', c' = c ∨ suggestion_moves (sh_tasks s) c c') (suggestions s) (suggestions s') →
  task_intent key s → task_intent key s'.
Proof.
  intros Hl (c & (i & Hi)%list_elem_of_lookup & Hst & Hk). destruct (Forall2_lookup_l _ _ _ _ _ Hl Hi) as (c' & Hi' & Hc).
  exists c'. split; [by eapply list_elem_of_lookup_2|]. destruct Hc as [->|Hc]; [done|].
  destruct (moves_final _ _ _ Hc) as (-> & -> & _); [congruence..|done].
Qed.

#[export] Instance task_intent_stable key : Stable step (task_intent key).
Proof.
  intros s s' H Hs. destruct Hs as [c _|l Hl|st Hst _ _ _ _|k r _ _].
  - eapply intent_suggestions; [|exact H]. intros x ?; apply elem_of_app; by left.
  - by eapply intent_moved.
  - eapply intent_suggestions; [|exact H]. unfold suggestions. cbn. by rewrite Hst.
  - by eapply intent_suggestions; [|exact H].
Qed.

#[export] Instance task_stable key taskRef : Stable step (λ s, sh_tasks s !! key = Some taskRef).
Proof.
  intros s s' H [c _|l _|st _ _ _ _ _|k r Hk _]; try done. cbn. rewrite lookup_insert_ne; [done|]. congruence.
Qed.

Lemma proposed_sound s c : admissible owner agent maximum c (suggestions s) → sound s →
  sound (with_suggestions (suggestions s ++ [c]) s).
Proof.
  intros [Hst Htr Hsc (day & n & Hday & Hn & Hlt) Hnew] [H1 H2 Hd H3 H4 H5 H6]. constructor; cbn.
  - done.
  - by apply Forall_app_2; [|constructor].
  - done.
  - intros i ci Hi. change ((suggestions s ++ [c]) !! i = Some ci) in Hi. change (ps_suggestions _) with (suggestions s ++ [c]).
    apply lookup_snoc_Some in Hi as [[Hi Hci]|[-> <-]].
    + destruct (H3 _ _ Hci) as (d & m & Hd' & Hm & Hle). exists d, m. by rewrite take_app_le by lia.
    + exists day, (n + if bool_decide (day = day) && negb (uncounted (sg_status c)) then 1 else 0). split; [done|].
      rewrite take_ge by (rewrite length_app; cbn; lia). split; [|case_match; lia].
      apply accepted_snoc; [done|]. unfold counts_today. by rewrite Hday.
  - intros i j ci cj Hij Hi Hj. change ((suggestions s ++ [c]) !! i = Some ci) in Hi. change ((suggestions s ++ [c]) !! j = Some cj) in Hj.
    apply lookup_snoc_Some in Hj as [[Hj Hcj]|[-> <-]].
    + rewrite lookup_app_l in Hi by lia. exact (H4 _ _ _ _ Hij Hi Hcj).
    + rewrite lookup_app_l in Hi by done. apply not_duplicate_apart. apply (find_none _ _ Hnew).
      apply list_elem_of_In. by eapply list_elem_of_lookup_2.
  - intros key r Hr. apply (intent_suggestions key s); [intros x ?; apply elem_of_app; by left|by eapply H5].
  - intros c0 r [Hc0|Hc0%list_elem_of_singleton]%elem_of_app Hr; [by eapply H6|]. congruence.
Qed.

Lemma moved_apart tasks c1 c1' c2 c2' :
  c1' = c1 ∨ suggestion_moves tasks c1 c1' → c2' = c2 ∨ suggestion_moves tasks c2 c2' → apart c1 c2 → apart c1' c2'.
Proof.
  intros H1 H2 Ha Hk.
  assert (sg_semanticKey c2' = sg_semanticKey c2 ∧ sg_createdAt c2' = sg_createdAt c2) as [Hk2 Hc2].
  { destruct H2 as [->|(_ & _ & _ & -> & -> & _)%moves_keep]; done. }
  rewrite Hc2. destruct H1 as [->|H1]; [apply Ha; congruence|].
  pose proof (moves_keep _ _ _ H1) as (_ & _ & _ & Hk1 & _ & He & _). rewrite He.
  destruct Ha as [?|Hst]; [congruence|by left|]. right.
  destruct (moves_final _ _ _ H1) as (-> & _ & _); [by destruct Hst as [-> | [-> | ->]]..|done].
Qed.

Lemma moved_sound s l :
  Forall2 (λ c c', c' = c ∨ suggestion_moves (sh_tasks s) c c') (suggestions s) l → sound s → sound (with_suggestions l s).
Proof.
  intros Hl [H1 H2 Hd H3 H4 H5 H6]. constructor; cbn.
  - done.
  - apply Forall_lookup. intros i c' Hi. destruct (Forall2_lookup_r _ _ _ _ _ Hl Hi) as (c & Hc & Hm).
    assert (sg_ownerId c = owner ∧ sg_agentId c = agent) as [??] by exact (Forall_lookup_1 _ _ _ _ H2 Hc).
    destruct Hm as [->|(_ & -> & -> & _)%moves_keep]; done.
  - done.
  - intros i c' Hi. destruct (Forall2_lookup_r _ _ _ _ _ Hl Hi) as (c & Hc & Hm).
    assert (sg_createdAt c' = sg_createdAt c ∧ sg_zone c' = sg_zone c) as [-> ->].
    { unfold sg_zone. destruct Hm as [->|(_ & _ & _ & _ & -> & _ & _ & ->)%moves_keep]; done. }
    destruct (H3 _ _ Hc) as (day & n & Hday & Hn & Hle). exists day.
    destruct (accepted_moved (sg_zone c) day _ _ _ _ (Forall2_take _ _ _ (S i) Hl) Hn) as (n' & Hn' & ?).
    exists n'. do 2 (split; [done|]). lia.
  - intros i j ci cj Hij Hi Hj. destruct (Forall2_lookup_r _ _ _ _ _ Hl Hi) as (ci0 & Hi0 & Hmi).
    destruct (Forall2_lookup_r _ _ _ _ _ Hl Hj) as (cj0 & Hj0 & Hmj). eapply moved_apart; [exact Hmi|exact Hmj|]. by eapply H4.
  - intros key r Hr. apply (intent_moved key s); [done|by eapply H5].
  - intros c' r (i & Hi)%list_elem_of_lookup Hr. destruct (Forall2_lookup_r _ _ _ _ _ Hl Hi) as (c & Hc & Hm).
    apply list_elem_of_lookup_2 in Hc. destruct Hm as [->|Hm]; [by eapply H6|].
    destruct Hm as [st d Hs _|d k Hs|k r' Hs Hk Ht _|Hs]; cbn in *.
    + destruct (H6 _ _ Hc Hr) as [? _]. congruence.
    + destruct (H6 _ _ Hc Hr) as [? _]. congruence.
    + injection Hr as <-. split; [done|]. by exists k.
    + destruct (H6 _ _ Hc Hr) as [? _]. destruct Hs; congruence.
Qed.

Lemma step_sound s s' : step s s' → sound s → sound s'.
Proof.
  intros [c Hc|l Hl|st Hst Ho Ha Hw _|k r Hk Hi] Hs; [by apply proposed_sound|by apply moved_sound| |];
    pose proof Hs as [H1 H2 Hd H3 H4 H5 H6].
  - assert (suggestions (stored_next st s) = suggestions s) as Hl by done.
    constructor; rewrite ?Hl; try done; [cbn; by rewrite Ho, Ha|by apply Hw|].
    intros key r Hr. eapply intent_suggestions; [|by eapply H5]. by rewrite Hl.
  - constructor; try done; cbn.
    + intros key r' [[<- _]|[_ Hr]]%lookup_insert_Some; [|by eapply H5]. done.
    + intros c t Hc Ht. destruct (H6 _ _ Hc Ht) as (? & key & ? & Hr). split; [done|]. exists key. split; [done|].
      rewrite lookup_insert_ne; [done|]. congruence.
Qed.

(** On each day, no more suggestions that name a zone than the quota, not
    counting the rejected and superseded ones. *)
Lemma sound_quota s zone day : sound s → named_count zone day (suggestions s) ≤ Z.max 0 maximum.
Proof.
  intros [_ _ _ Hq _ _ _]. rewrite <-(firstn_all (suggestions s)). generalize (length (suggestions s)) as n.
  induction n as [|n IH]; [change (0 ≤ Z.max 0 maximum); lia|]. destruct (suggestions s !! n) as [c|] eqn:E.
  - rewrite (take_S_r _ _ _ E), named_snoc. destruct (named_on zone day c) eqn:Ec; [|lia].
    destruct (named_day _ _ _ Ec) as [Hz Hday]. destruct (Hq _ _ E) as (day' & m & Hday' & Hm & Hle). rewrite Hz in *.
    assert (day' = day) as -> by congruence. apply named_accepted in Hm. rewrite (take_S_r _ _ _ E), named_snoc, Ec in Hm. lia.
  - apply lookup_ge_None in E. rewrite take_ge in IH by done. by rewrite take_ge by lia.
Qed.

#[export] Instance sound_stable : Stable step sound.
Proof. intros s s' H Hs. by eapply step_sound. Qed.
End soundness.
