(* ===== verification/SuggestionRuns.v ===== *)
(** What the suggestion service guarantees (SuggestionService.v), from the
    promises of its ports (SuggestionContract.v): the daily quota in the zone
    each suggestion names, no
    duplicates, one decision of the Owner, and one Task for an approval. *)
From S2P Require Import Prelude Js JsDate JsJson Identifiers Contract AuthTypes Persistence WorkspaceService.
From S2P Require Import Reflection Delegation SuggestionService SuggestionContract.
Local Open Scope Z_scope.

Section runs.
Context {W : Type} {zones : TimeZones} {digest : HostFileDigestPort}.
Context `{!ProactivityStatePort W, !SuggestionDeliveryPort W, !SuggestionTaskCreationPort W, !ClockPort W, !IdGeneratorPort W}.
Context (owner agent : string) (maximum : Z) (view : W → shared) (inv : W → Prop).
Context `{!ProactivityStateLaws owner agent maximum view inv, !SuggestionPortLaws owner agent maximum view inv}.
Abbreviation step := (suggestion_step owner agent maximum) (only parsing).
Abbreviation sound := (suggestions_sound owner agent maximum) (only parsing).
Abbreviation triple := (triple step view inv) (only parsing).
Abbreviation frame := (gen_frame_law step view inv) (only parsing).
Hint Resolve frame_enqueue frame_suggestion_clock frame_suggestion_ids : frames.

(** ** What was read stays true of its revision *)
Definition seen (r : StoredProactivity) (s : shared) : Prop :=
  pv_revision r ≤ pv_revision (sh_stored s) ∧ (pv_revision (sh_stored s) = pv_revision r → sh_stored s = r).

#[local] Instance seen_stable r : Stable step (seen r).
Proof. intros s s' [H1 H2] [c _|l _|st _ _ _ _ _|k t _ _]; [split; cbn; lia..|done]. Qed.

#[local] Instance moves_stable c c' : Stable step (λ s, suggestion_moves (sh_tasks s) c c').
Proof.
  intros s s' H [c0 _|l _|st _ _ _ _ _|k t Hk _]; try done. cbn.
  destruct H as [|d key|key t' Hs Hc Ht Hn|]; [by constructor|by constructor| |by constructor].
  eapply moves_task; try done. rewrite lookup_insert_ne; [done|congruence].
Qed.

(** What is known of a suggestion that was stored. *)
Definition known (c : SuggestionCandidate) (s : shared) : Prop :=
  (sg_status c = suggestion_approved → ∀ key, sg_taskCreationKey c = Some key → task_intent key s) ∧
  (∀ taskRef, sg_taskRef c = Some taskRef →
     ∃ key, sg_taskCreationKey c = Some key ∧ sh_tasks s !! key = Some taskRef).

#[local] Instance known_stable c : Stable step (known c).
Proof.
  intros s s' [H1 H2] Hs. split.
  - intros Ha key Hk. eapply (stable step); [exact (H1 Ha key Hk)|exact Hs].
  - intros t Ht. destruct (H2 t Ht) as (key & Hk & Hl). exists key. split; [done|].
    exact (task_stable owner agent maximum key t _ _ Hl Hs).
Qed.

Lemma listed_known c s : sound s → c ∈ suggestions s → known c s.
Proof.
  intros Hs Hc. split.
  - intros Ha key Hk. by exists c.
  - intros t Ht. destruct (so_taskRefs _ _ _ _ Hs _ _ Hc Ht) as (_ & H). exact H.
Qed.

(** ** The calls of the state port *)
Lemma unless_conflict_triple {A} (P : shared → Prop) `{!Stable step P} (Q : A → shared → Prop) m :
  triple P m Q → triple P (unless_conflict m) (λ o s, match o with Some a => Q a s | None => P s end).
Proof.
  intros Hm. unfold unless_conflict. apply triple_try_catch; [done| |].
  - eapply triple_bind; [exact Hm|]. intros a. by apply triple_ret.
  - intros x. case_match; [by apply triple_ret|apply triple_throw].
Qed.

Lemma read_triple (P : shared → Prop) `{!Stable step P} :
  triple P (proactivity_read owner agent) (λ r s, P s ∧ sh_stored s = r).
Proof.
  eapply triple_post; [eapply triple_reads; [done|apply (law_proactivity_read owner agent maximum view inv)]|].
  intros r s [HP ->]. done.
Qed.

Lemma cas_triple (P : shared → Prop) `{!Stable step P} (Q : shared → Prop) r st :
  ps_ownerId st = owner → ps_agentId st = agent →
  (∀ s, P s → sh_stored s = r → step s (stored_next st s) ∧ Q (stored_next st s)) →
  triple (λ s, P s ∧ seen r s) (proactivity_compareAndSet owner agent (pv_revision r) st)
    (λ k s, pv_state k = st ∧ P s ∧ Q s).
Proof.
  intros Ho Ha Hst. eapply triple_op; [apply _|by apply (law_proactivity_cas owner agent maximum view inv)|].
  intros k s s' [HP [_ Hseen]] (Hr & -> & ->). destruct (Hst s HP (Hseen Hr)) as [Hstep HQ].
  split; [by apply rtc_once|]. split; [done|]. split; [|done]. by eapply (stable step).
Qed.

(** ** One suggestion is changed *)
Definition stored_as (id : string) (c : SuggestionCandidate) : Prop :=
  sg_id c = id ∧ sg_ownerId c = owner ∧ sg_agentId c = agent.

Lemma insert_moves tasks (l : list SuggestionCandidate) i c c' : l !! i = Some c → suggestion_moves tasks c c' →
  Forall2 (λ c c', c' = c ∨ suggestion_moves tasks c c') l (<[i := c']> l).
Proof.
  intros Hi Hm. apply Forall2_same_length_lookup_2; [by rewrite length_insert|].
  intros j x y Hx [[-> [<- _]]|[Hne Hy]]%list_lookup_insert_Some; [right; congruence|left; congruence].
Qed.

Lemma save_next_triple (P : shared → Prop) `{!Stable step P} r i c next :
  (∀ s, P s → sound s) → ps_ownerId (pv_state r) = owner ∧ ps_agentId (pv_state r) = agent →
  ps_suggestions (pv_state r) !! i = Some c →
  triple (λ s, (P s ∧ suggestion_moves (sh_tasks s) c next) ∧ seen r s)
    (unless_conflict (proactivity_compareAndSet owner agent (pv_revision r)
       ((pv_state r) <| ps_suggestions := <[i := next]> (ps_suggestions (pv_state r)) |>)))
    (λ o s, P s ∧ match o with Some _ => known next s | None => True end).
Proof.
  intros Hsound [Ho Ha] Hi.
  eapply triple_post; [apply unless_conflict_triple; [apply _|]; apply (cas_triple _ (known next)); [done|done|]|].
  - intros s [HP Hm] Hr. assert (Hl : suggestions s = ps_suggestions (pv_state r)) by (unfold suggestions; by rewrite Hr).
    rewrite <-Hl in Hi. assert (step s (with_suggestions (<[i := next]> (suggestions s)) s)) as Hstep.
    { apply step_moved. by apply (insert_moves _ _ i c). }
    assert (stored_next ((pv_state r) <| ps_suggestions := <[i := next]> (ps_suggestions (pv_state r)) |>) s =
      with_suggestions (<[i := next]> (suggestions s)) s) as -> by (unfold with_suggestions; by rewrite Hl, Hr).
    split; [done|]. apply listed_known; [eapply step_sound; [exact Hstep|by apply Hsound]|].
    eapply (list_elem_of_lookup_2 _ i). cbn. apply list_lookup_insert_eq. by eapply lookup_lt_Some.
  - intros [k|] s; [|tauto]. cbn. tauto.
Qed.

Lemma suggestion_transition_triple (P : shared → Prop) (Q : SuggestionCandidate → Prop) `{!Stable step P} attempts id update :
  (∀ s, P s → sound s) →
  (∀ c, stored_as id c → triple (λ s, P s ∧ known c s) (update c) (λ o s, P s ∧
     match o with
     | None => Q c
     | Some u => suggestion_moves (sh_tasks s) c (u <| sg_revision := sg_revision c + 1 |>) ∧
         Q (u <| sg_revision := sg_revision c + 1 |>)
     end)) →
  triple P (transition_attempts attempts owner agent id update) (λ c s, P s ∧ known c s ∧ stored_as id c ∧ Q c).
Proof.
  intros Hsound Hu. induction attempts as [|attempts IH]; [apply triple_throw|]. cbn [transition_attempts].
  eapply triple_bind; [apply read_triple; apply _|]. intros r. cbn beta zeta.
  destruct (list_find _ _) as [[i c]|] eqn:Hf; [|apply triple_throw].
  apply list_find_Some in Hf as (Hi & Hid & _).
  apply (triple_pre _ _ _ (λ s, (stored_as id c ∧ ps_ownerId (pv_state r) = owner ∧ ps_agentId (pv_state r) = agent) ∧
    ((P s ∧ known c s) ∧ seen r s))).
  2: { intros s [HP Hr]. assert (c ∈ suggestions s) as Hc by (unfold suggestions; rewrite Hr; by eapply list_elem_of_lookup_2).
       destruct (Hsound _ HP) as [Hscope Hscopes _ _ _ _ _]. destruct (proj1 (Forall_forall _ _) Hscopes c Hc) as [Ho Ha].
       rewrite <-Hr. split; [done|]. split; [split; [done|by apply listed_known; [apply Hsound|]]|]. split; [lia|done]. }
  apply triple_pure. intros [Has Hscope].
  eapply triple_bind with (Q := λ o s, (P s ∧ match o with None => Q c | Some u =>
      suggestion_moves (sh_tasks s) c (u <| sg_revision := sg_revision c + 1 |>) ∧
      Q (u <| sg_revision := sg_revision c + 1 |>) end) ∧ known c s ∧ seen r s).
  { intros w o w' Hi' [HP Hseen] H. destruct (Hu c Has w o w' Hi' HP H) as (Hi2 & Hs & Hpost).
    do 2 (split; [done|]). destruct o; [|done]. destruct HP as [_ HK].
    split; [done|]. split; [by eapply (stable_rtc step (known c))|by eapply (stable_rtc step (seen r))]. }
  intros [u|]; [|apply triple_ret; tauto]. set (next := u <| sg_revision := sg_revision c + 1 |>).
  apply (triple_pre _ _ _ (λ s, (stored_as id next ∧ Q next) ∧ ((P s ∧ suggestion_moves (sh_tasks s) c next) ∧ seen r s))).
  2: { intros s ([HP [Hm HQ]] & _ & Hseen). split; [|done]. split; [|done].
       destruct (moves_keep _ _ _ Hm) as (Hid' & Ho' & Ha' & _). destruct Has as (? & ? & ?).
       unfold stored_as. by rewrite Hid', Ho', Ha'. }
  apply triple_pure. intros [Has' HQ].
  eapply triple_bind; [by apply save_next_triple|]. intros [k|]; cbn beta; [apply triple_ret; tauto|].
  eapply triple_pre; [exact IH|]. tauto.
Qed.

(** ** The updates *)
Definition update_moves (Q : SuggestionCandidate → Prop) (c : SuggestionCandidate) (o : option SuggestionCandidate)
    (s : shared) : Prop :=
  match o with
  | None => Q c
  | Some u => suggestion_moves (sh_tasks s) c (u <| sg_revision := sg_revision c + 1 |>) ∧
      Q (u <| sg_revision := sg_revision c + 1 |>)
  end.

Lemma deliver_update_triple (P : shared → Prop) `{!Stable step P} deliveryRef c :
  triple P (deliver_update deliveryRef c)
    (λ o s, P s ∧ update_moves (λ c, sg_status c ≠ suggestion_candidate) c o s).
Proof.
  unfold deliver_update. case_bool_decide as Hst; cbn [negb]; [|by apply triple_ret].
  apply triple_bind_frame; [done|solve_frame|]. intros now. apply triple_ret. intros s HP. split; [done|]. split.
  - apply moves_delivered; [done|]. case_match; auto.
  - cbn. by case_match.
Qed.

Lemma respond_update_triple (P : shared → Prop) `{!Stable step P} input c :
  triple P (respond_update input c)
    (λ o s, P s ∧ update_moves (λ c, sg_status c = decided_status (sr_decision input)) c o s).
Proof.
  unfold respond_update. case_match.
  - eapply triple_bind with (Q := λ _ s, P s ∧ sg_status c = decided_status (sr_decision input)).
    + apply triple_throwM_if. intros s Hb HP. split; [done|]. by guards.
    + intros _. by apply triple_ret.
  - apply triple_bind_frame; [done|apply frame_lift|]. intros _.
    eapply triple_bind with (Q := λ _ s, sg_status c = suggestion_delivered ∧ P s).
    + apply triple_throwM_if. intros s Hb HP. split; [by guards|done].
    + intros _. apply triple_pure. intros Hst. apply triple_bind_frame; [done|solve_frame|]. intros now.
      apply triple_bind_frame; [done|apply frame_lift|]. intros _. apply triple_ret. intros s HP. split; [done|].
      split; [by apply moves_decided|done].
Qed.

Definition has_task (key taskRef : string) (c : SuggestionCandidate) : Prop :=
  sg_status c = suggestion_approved ∧ sg_taskCreationKey c = Some key ∧ sg_taskRef c = Some taskRef.

Lemma task_update_triple (P : shared → Prop) `{!Stable step P} key taskRef c :
  (∀ s, P s → sh_tasks s !! key = Some taskRef) →
  triple P (task_update key taskRef c) (λ o s, P s ∧ update_moves (has_task key taskRef) c o s).
Proof.
  intros Ht. unfold task_update.
  eapply triple_bind with (Q := λ _ s, (sg_status c = suggestion_approved ∧ sg_taskCreationKey c = Some key) ∧ P s).
  { apply triple_throwM_if. intros s Hb HP. split; [|done]. by guards. }
  intros _. apply triple_pure. intros [Hst Hk]. destruct (sg_taskRef c) as [stored|] eqn:Er.
  - eapply triple_bind with (Q := λ _ s, stored = taskRef ∧ P s).
    + apply triple_throwM_if. intros s Hb HP. split; [by guards|done].
    + intros _. apply triple_pure. intros ->. by apply triple_ret.
  - apply triple_ret. intros s HP. split; [done|]. split; [|done]. apply moves_task with (key := key); auto.
Qed.

(** ** The operations *)
Definition mine (c : SuggestionCandidate) : Prop := sg_ownerId c = owner ∧ sg_agentId c = agent.

Lemma deliver_triple (P : shared → Prop) `{!Stable step P} c : (∀ s, P s → sound s) → mine c →
  triple P (deliver_suggestion c) (λ c' s, P s ∧ sg_id c' = sg_id c ∧ sg_status c' ≠ suggestion_candidate).
Proof.
  intros Hs [Ho Ha]. unfold deliver_suggestion. rewrite Ho, Ha. apply triple_bind_frame; [done|solve_frame|]. intros ref.
  eapply triple_post; [apply (suggestion_transition_triple P (λ c, sg_status c ≠ suggestion_candidate)); [done|]|].
  - intros c0 _. eapply triple_pre; [apply (deliver_update_triple P)|by intros s [? _]].
  - cbn. intros c' s (HP & _ & (Hid & _) & Hst). auto.
Qed.

Lemma complete_triple (P : shared → Prop) `{!Stable step P} c : (∀ s, P s → sound s) → mine c →
  triple (λ s, P s ∧ known c s) (completeTaskIntent c) (λ c' s, P s ∧ known c' s ∧ sg_id c' = sg_id c ∧
    sg_status c' = sg_status c ∧ (sg_status c = suggestion_approved → sg_taskRef c' ≠ None)).
Proof.
  intros Hs [Ho Ha]. unfold completeTaskIntent. case_match eqn:Eb.
  { apply triple_ret. intros s [HP HK]. do 4 (split; [done|]). intros Hst. rewrite Hst in Eb. by destruct (sg_taskRef c). }
  apply orb_false_iff in Eb as [Hst%negb_false_iff%bool_decide_eq_true _].
  destruct (truthy (sg_taskCreationKey c)) as [key|] eqn:Ek; [|apply triple_throw].
  assert (sg_taskCreationKey c = Some key) as Hkey.
  { unfold truthy in Ek. destruct (sg_taskCreationKey c) as [[|]|]; congruence. }
  eapply triple_bind with (Q := λ taskRef s, P s ∧ sh_tasks s !! key = Some taskRef).
  { intros w r w' Hi [HP [HK _]] H.
    destruct (law_createOrdinaryTask owner agent maximum view inv
      (mkOrdinaryTask (sg_ownerId c) (sg_agentId c) (sg_id c) (sg_taskDraft c) key)
      w r w' Hi (HK Hst key Hkey) H) as (Hi' & Hsteps & Hr).
    do 2 (split; [done|]). destruct r; [|done]. split; [by eapply (stable_rtc step P)|done]. }
  intros taskRef. rewrite Ho, Ha.
  eapply triple_post; [apply (suggestion_transition_triple (λ s, P s ∧ sh_tasks s !! key = Some taskRef) (has_task key taskRef))|].
  - intros s [HP _]. by apply Hs.
  - intros c0 _. eapply triple_pre; [apply (task_update_triple (λ s, P s ∧ sh_tasks s !! key = Some taskRef)); by intros s [_ ?]|].
    by intros s [? _].
  - cbn. intros c' s ([HP _] & HK & (Hid & _) & (Hst' & _ & Ht)). do 3 (split; [done|]). rewrite Hst'. split; [done|]. by rewrite Ht.
Qed.

Lemma respond_triple input : sr_owner input = owner → sr_agent input = agent →
  triple sound (suggestion_respond input) (λ c s, sound s ∧ known c s ∧ sg_id c = sr_suggestionId input ∧
    sg_status c = decided_status (sr_decision input) ∧ (sr_decision input = approve_suggestion → sg_taskRef c ≠ None)).
Proof.
  intros Ho Ha. unfold suggestion_respond. rewrite Ho, Ha.
  eapply triple_bind; [apply (suggestion_transition_triple sound (λ c, sg_status c = decided_status (sr_decision input))); [done|]|].
  - intros c0 _. eapply triple_pre; [apply (respond_update_triple sound)|by intros s [? _]].
  - intros c. cbn beta.
    apply (triple_pre _ _ _ (λ s, (stored_as (sr_suggestionId input) c ∧ sg_status c = decided_status (sr_decision input)) ∧
      (sound s ∧ known c s))); [|tauto].
    apply triple_pure. intros [(Hid & Hmine) Hst]. eapply triple_post; [by apply (complete_triple sound)|].
    cbn. intros c' s (Hs & HK & Hid' & Hst' & Ht). do 2 (split; [done|]). split; [congruence|]. split; [congruence|].
    intros Hd. apply Ht. by rewrite Hst, Hd.
Qed.

Lemma known_all_stable l : Stable step (λ s, Forall (λ c, known c s) l).
Proof. intros s s' H Hs. eapply Forall_impl; [exact H|]. intros c Hc. exact (known_stable c s s' Hc Hs). Qed.
#[local] Existing Instance known_all_stable.

Lemma complete_each_triple l : Forall mine l →
  triple (λ s, sound s ∧ Forall (λ c, known c s) l) (complete_each l) (λ _ s, sound s).
Proof.
  induction 1 as [|c l Hc _ IH]; [apply triple_ret; tauto|]. cbn [complete_each].
  eapply triple_bind with (Q := λ _ s, sound s ∧ Forall (λ c, known c s) l); [|intros _; exact IH].
  case_match; [|apply triple_ret; intros s [Hs HK]; split; [done|by inversion HK]].
  eapply triple_bind with (Q := λ _ s, sound s ∧ Forall (λ c, known c s) l); [|intros c'; by apply triple_ret].
  eapply triple_conseq; [apply (complete_triple (λ s, sound s ∧ Forall (λ c, known c s) l) c)| |].
  - by intros s [? _].
  - done.
  - intros s [Hs HK]. inversion HK. auto.
  - cbn. tauto.
Qed.

Lemma recover_triple : triple sound (recoverTaskIntents owner agent) (λ _ s, sound s).
Proof.
  unfold recoverTaskIntents. eapply triple_bind; [apply read_triple; apply _|]. intros r. cbn beta.
  apply (triple_pre _ _ _ (λ s, Forall mine (ps_suggestions (pv_state r)) ∧
    (sound s ∧ Forall (λ c, known c s) (ps_suggestions (pv_state r))))).
  - apply triple_pure. apply complete_each_triple.
  - intros s [Hs <-]. split; [by apply (so_scopes _ _ _ _ Hs)|]. split; [done|]. apply Forall_forall.
    intros c Hc. by apply listed_known.
Qed.

(** A read, with the scope it shows. *)
Lemma read_sound_triple {A} (Q : A → shared → Prop) (f : StoredProactivity → M exn W A) :
  (∀ r, (ps_ownerId (pv_state r) = owner ∧ ps_agentId (pv_state r) = agent) ∧ Forall mine (ps_suggestions (pv_state r)) →
     triple (λ s, sound s ∧ seen r s) (f r) Q) →
  triple sound (r ← proactivity_read owner agent; f r) Q.
Proof.
  intros Hf. eapply triple_bind; [apply read_triple; apply _|]. intros r. cbn beta.
  eapply triple_pre; [apply triple_pure, Hf|]. intros s [Hs <-]. split; [by destruct Hs|].
  split; [done|]. unfold seen. split; [lia|done].
Qed.

Lemma expire_moves tasks now l :
  Forall2 (λ c c', c' = c ∨ suggestion_moves tasks c c') l (expire_one now <$> l).
Proof.
  induction l as [|c l IH]; [constructor|]. constructor; [|done]. unfold expire_one. destruct (expirable now c) eqn:E; [right|by left].
  apply moves_expired. unfold expirable in E. apply andb_true_iff in E as [_ [E|E]%orb_true_iff]; guards; auto.
Qed.

Lemma expire_one_done now c : expirable now (expire_one now c) = false.
Proof.
  unfold expire_one. destruct (expirable now c) eqn:E; [|done]. unfold expirable. cbn. by rewrite andb_false_r.
Qed.

Lemma expire_triple attempts now :
  triple sound (expire_attempts attempts owner agent now) (λ l s, sound s ∧ Forall (λ c, expirable now c = false) l).
Proof.
  induction attempts as [|attempts IH]; [apply triple_throw|]. cbn [expire_attempts].
  apply read_sound_triple. intros r [[Ho Ha] _]. cbv zeta. set (l := ps_suggestions (pv_state r)).
  destruct (existsb (expirable now) l) eqn:E; cbn [negb].
  - eapply triple_bind; [apply unless_conflict_triple; [apply _|]; apply (cas_triple sound (λ _, True)); [done|done|]|].
    + intros s Hs Hr. split; [|done]. assert (stored_next ((pv_state r) <| ps_suggestions := expire_one now <$> l |>) s =
        with_suggestions (expire_one now <$> suggestions s) s) as -> by (unfold with_suggestions, suggestions; by rewrite Hr).
      apply step_moved, expire_moves.
    + intros [k|]; [|eapply triple_pre; [exact IH|by intros s [? _]]]. cbn beta. apply triple_ret.
      intros s (Hk & Hs & _). split; [done|]. rewrite Hk. cbn. apply Forall_fmap, Forall_true. intros c. apply expire_one_done.
  - apply triple_ret. intros s [Hs _]. split; [done|]. apply Forall_forall. intros c Hc.
    destruct (expirable now c) eqn:Ec; [|done]. enough (existsb (expirable now) l = true) by congruence.
    apply existsb_exists. exists c. split; [by apply list_elem_of_In|done].
Qed.

(** ** Proposals *)
Definition proposal_ok (draft : ReflectionCandidateDraft) (o : ProposeOutcome) : Prop :=
  match o with
  | proposal_accepted c => sg_status c ≠ suggestion_candidate
  | proposal_duplicate c => sg_status c ≠ suggestion_candidate ∧ sg_semanticKey c = draft_semanticKey draft
  | proposal_quota_exhausted => True
  end.

Lemma admit_triple input now day r id n quota :
  let zone := td_timezone (rd_taskDraft (sp_draft input)) in
  sp_owner input = owner → sp_agent input = agent → civilDay now zone = Ok day →
  ps_ownerId (pv_state r) = owner → ps_agentId (pv_state r) = agent →
  List.find (is_duplicate now (draft_semanticKey (sp_draft input)) (draft_fingerprint (sp_draft input))
    (rd_ownerScopeRevision (sp_draft input))) (ps_suggestions (pv_state r)) = None →
  accepted_today zone day (ps_suggestions (pv_state r)) = Ok n → n < quota ≤ maximum →
  triple (λ s, sound s ∧ seen r s)
    (unless_conflict (proactivity_compareAndSet owner agent (pv_revision r)
       ((pv_state r) <| ps_suggestions := ps_suggestions (pv_state r) ++ [new_suggestion id input now] |>) ;;
     deliver_suggestion (new_suggestion id input now)))
    (λ o s, sound s ∧ match o with Some c => sg_status c ≠ suggestion_candidate | None => True end).
Proof.
  intros zone Hin Hain Hday Ho Ha Hnew Hn Hq. eapply triple_post.
  - apply unless_conflict_triple; [apply _|]. eapply triple_bind; [apply (cas_triple sound (λ _, True)); [done|done|]|].
    + intros s Hs Hr. split; [|done].
      assert (stored_next ((pv_state r) <| ps_suggestions := ps_suggestions (pv_state r) ++ [new_suggestion id input now] |>) s =
        with_suggestions (suggestions s ++ [new_suggestion id input now]) s) as -> by (unfold with_suggestions, suggestions; by rewrite Hr).
      apply step_proposed. unfold suggestions. rewrite Hr. constructor; try done.
      exists day, n. do 2 (split; [done|]). lia.
    + intros k. cbn beta. eapply triple_pre; [by apply (deliver_triple sound)|by intros s (_ & ? & _)].
  - intros [c|] s; [intros (? & _ & ?); done|by intros [? _]].
Qed.

Lemma propose_attempts_triple attempts input now day quota :
  sp_owner input = owner → sp_agent input = agent →
  civilDay now (td_timezone (rd_taskDraft (sp_draft input))) = Ok day → quota ≤ maximum →
  triple sound (propose_attempts attempts input now day quota) (λ o s, sound s ∧ proposal_ok (sp_draft input) o).
Proof.
  intros Ho Ha Hday Hq. induction attempts as [|attempts IH]; [apply triple_throw|]. cbn [propose_attempts].
  rewrite Ho, Ha. apply read_sound_triple. intros r [[Hro Hra] Hmine]. cbv zeta.
  destruct (List.find _ _) as [c|] eqn:Hf.
  - apply find_some in Hf as [Hin%list_elem_of_In Hdup]. case_bool_decide as Hst.
    + eapply triple_bind; [eapply triple_pre; [apply (deliver_triple sound); [done|]|by intros s [? _]]|].
      * exact (proj1 (Forall_forall _ _) Hmine c Hin).
      * intros c'. cbn beta. apply triple_ret. by intros s (? & _ & ?).
    + apply triple_ret. intros s [Hs _]. split; [done|]. split; [done|]. unfold is_duplicate in Hdup.
      apply andb_true_iff in Hdup as [Hk _]. by guards.
  - eapply triple_bind with (Q := λ n s, accepted_today (td_timezone (rd_taskDraft (sp_draft input))) day (ps_suggestions (pv_state r)) = Ok n ∧ (sound s ∧ seen r s)).
    { apply triple_lift. by intros n s Hn Hs. }
    intros n. apply triple_pure. intros Hn. destruct (quota <=? n) eqn:Eq.
    + eapply triple_bind; [apply unless_conflict_triple; [apply _|]; apply (cas_triple sound (λ _, True)); [done|done|]|].
      * intros s Hs Hr. split; [|done]. apply step_other; unfold suggestions; rewrite Hr; try done; apply checkpoints_same.
      * intros [k|]; cbn beta; [apply triple_ret; by intros s (_ & ? & _)|]. eapply triple_pre; [exact IH|by intros s [? _]].
    + apply triple_bind_frame; [apply _|solve_frame|]. intros id.
      eapply triple_bind; [apply (admit_triple input now day r id n quota); try done; lia|].
      intros [c|]; cbn beta; [apply triple_ret; by intros s [? ?]|]. eapply triple_pre; [exact IH|by intros s [? _]].
Qed.

(** A proposal for this Owner and Agent, whose quota (three by default) is at most [maximum]. *)
Definition propose_valid (input : ProposeInput) : Prop :=
  sp_owner input = owner ∧ sp_agent input = agent ∧
  default 3 (sp_dailyQuota input) ≤ maximum.

Lemma propose_triple input : propose_valid input →
  triple sound (propose input) (λ o s, sound s ∧ proposal_ok (sp_draft input) o).
Proof.
  intros (Ho & Ha & Hq). unfold propose. apply triple_bind_frame; [apply _|unfold assertDraft; solve_frame|]. intros _.
  apply triple_bind_frame; [apply _|solve_frame|]. intros now. cbv zeta.
  apply triple_bind_frame; [apply _|apply frame_lift|]. intros _.
  eapply triple_bind with (Q := λ day s, civilDay now (td_timezone (rd_taskDraft (sp_draft input))) = Ok day ∧ sound s); [apply triple_lift; auto|].
  intros day. apply triple_pure. intros Hday. by apply propose_attempts_triple.
Qed.

(** ** The calls of the service, in any order *)
Inductive suggestion_call :=
  | call_propose (input : ProposeInput) | call_respond (input : SuggestionResponse)
  | call_recover | call_expire (now : option string).

Definition call_valid (c : suggestion_call) : Prop :=
  match c with
  | call_propose input => propose_valid input
  | call_respond input => sr_owner input = owner ∧ sr_agent input = agent
  | _ => True
  end.

Definition run_call (c : suggestion_call) : M exn W unit :=
  match c with
  | call_propose input => propose input ;; mret tt
  | call_respond input => suggestion_respond input ;; mret tt
  | call_recover => recoverTaskIntents owner agent
  | call_expire now => suggestion_expire owner agent now ;; mret tt
  end.

(** Whether a call throws or not, the next one follows. *)
Fixpoint run_calls (cs : list suggestion_call) : M exn W unit :=
  match cs with
  | [] => mret tt
  | c :: cs => try_catch (run_call c) (λ _, mret tt) ;; run_calls cs
  end.

Lemma run_call_triple c : call_valid c → triple sound (run_call c) (λ _, sound).
Proof.
  assert (∀ A (m : M exn W A) Q, triple sound m Q → (∀ a s, Q a s → sound s) → triple sound (m ;; mret tt) (λ _, sound)) as Hseq.
  { intros A m Q Hm HQ. eapply triple_bind; [exact Hm|]. intros a. apply triple_ret. apply HQ. }
  destruct c as [input|input| |now]; intros Hv; cbn.
  - eapply Hseq; [by apply propose_triple|]. by intros o s [? _].
  - destruct Hv. eapply Hseq; [by apply respond_triple|]. by intros c s (? & _).
  - apply recover_triple.
  - unfold suggestion_expire. apply (Hseq _ _ (λ _, sound)); [|done].
    + apply triple_bind_frame; [apply _|destruct now; solve_frame|]. intros now'.
      eapply triple_post; [apply expire_triple|]. by intros l s [? _].
Qed.

Lemma run_calls_triple cs : Forall call_valid cs → triple sound (run_calls cs) (λ _, sound).
Proof.
  induction 1 as [|c cs Hc _ IH]; [by apply triple_ret|]. cbn [run_calls].
  eapply triple_bind with (Q := λ _, sound); [|intros _; exact IH]. apply triple_try_catch; [apply _|by apply run_call_triple|].
  intros x. by apply triple_ret.
Qed.

(** C19 The suggestions stay sound through any sequence of calls of the service
    for this Owner and Agent, with anyone else calling it meanwhile.  Here
    [maximum] is the largest quota that a proposal asks for.  Every suggestion,
    together with those created before it, is within it on the civil day of its
    creation in the time zone that its own Task draft names; so on every day
    of every zone at most that many suggestions name the zone.  As in the code,
    a suggestion that has been rejected or superseded no longer counts, and the
    suggestions that name other zones are each counted in theirs.  Of two
    suggestions of one key, the first had expired when the second was created,
    or is rejected, expired or superseded; and a Task exists only for a
    suggestion that was approved, each suggestion that names a Task naming the
    one of its key. *)
Theorem suggestions_stay_sound cs w r w' :
  Forall call_valid cs → inv w → sound (view w) → run_calls cs w = (r, w') →
  inv w' ∧ sound (view w') ∧
  ∀ zone day, named_count zone day (suggestions (view w')) ≤ Z.max 0 maximum.
Proof.
  intros Hv Hi Hs H. destruct (run_calls_triple cs Hv _ _ _ Hi Hs H) as (Hi' & Hsteps & _). split; [done|].
  assert (sound (view w')) as Hs' by by eapply (stable_rtc step sound).
  split; [done|]. intros zone day. by eapply sound_quota.
Qed.

(** A response decides: when [respond] returns, the suggestion has the
    status that was asked for, and an approved one names a Task, the one that
    exists under its key. *)
Theorem respond_decides input w c w' :
  sr_owner input = owner → sr_agent input = agent → inv w → sound (view w) → suggestion_respond input w = (Ok c, w') →
  sg_id c = sr_suggestionId input ∧ sg_status c = decided_status (sr_decision input) ∧
  (sr_decision input = approve_suggestion → ∃ key taskRef, sg_taskCreationKey c = Some key ∧
     sg_taskRef c = Some taskRef ∧ sh_tasks (view w') !! key = Some taskRef).
Proof.
  intros Ho Ha Hi Hs H. destruct (respond_triple input Ho Ha _ _ _ Hi Hs H) as (_ & _ & _ & [_ HK] & Hid & Hst & Ht).
  do 2 (split; [done|]). intros Hd. specialize (Ht Hd). destruct (sg_taskRef c) as [t|] eqn:E; [|done].
  destruct (HK t eq_refl) as (key & ? & ?). by exists key, t.
Qed.

(** After [expire] has returned, none of the suggestions it returns is
    still open at that time. *)
Theorem expire_closes now w l w' : inv w → sound (view w) → suggestion_expire owner agent (Some now) w = (Ok l, w') →
  Forall (λ c, str_le (sg_expiresAt c) now = true →
    sg_status c ≠ suggestion_candidate ∧ sg_status c ≠ suggestion_delivered) l.
Proof.
  intros Hi Hs H. destruct (expire_triple SUGGESTION_CAS_ATTEMPTS now _ _ _ Hi Hs H) as (_ & _ & _ & Hl).
  eapply Forall_impl; [exact Hl|]. intros c Hc He. unfold expirable in Hc. rewrite He in Hc.
  apply orb_false_iff in Hc as [??]. by guards.
Qed.
End runs.

(** A decision is final: a suggestion that was approved or rejected stays
    so whatever anyone does, with its key and with the Task it names. *)
Theorem suggestion_decision_final `{TimeZones} owner agent maximum s s' i c :
  rtc (suggestion_step owner agent maximum) s s' → suggestions s !! i = Some c →
  sg_status c = suggestion_approved ∨ sg_status c = suggestion_rejected →
  ∃ c', suggestions s' !! i = Some c' ∧ sg_status c' = sg_status c ∧ sg_taskCreationKey c' = sg_taskCreationKey c ∧
    (∀ taskRef, sg_taskRef c = Some taskRef → sg_taskRef c' = Some taskRef).
Proof.
  intros Hs. revert c. induction Hs as [s|s s1 s2 H1 _ IH]; intros c Hi Hst; [by exists c|].
  assert (∃ c1, suggestions s1 !! i = Some c1 ∧ sg_status c1 = sg_status c ∧ sg_taskCreationKey c1 = sg_taskCreationKey c ∧
    (∀ t, sg_taskRef c = Some t → sg_taskRef c1 = Some t)) as (c1 & Hi1 & Hst1 & Hk1 & Ht1).
  { destruct H1 as [c0 _|l Hl|st Hsame _ _ _ _|k t _ _].
    - exists c. split; [|done]. change ((suggestions s ++ [c0]) !! i = Some c). by apply lookup_app_l_Some.
    - destruct (Forall2_lookup_l _ _ _ _ _ Hl Hi) as (c' & Hi' & Hm). exists c'. split; [done|].
      destruct Hm as [->|Hm]; [done|]. destruct (moves_final _ _ _ Hm) as (-> & -> & _); [destruct Hst; congruence..|].
      do 2 (split; [done|]). destruct Hm; naive_solver congruence.
    - exists c. split; [|done]. unfold suggestions. cbn. by rewrite Hsame.
    - by exists c. }
  destruct (IH c1 Hi1) as (c2 & Hi2 & Hst2 & Hk2 & Ht2); [by rewrite Hst1|].
  exists c2. split; [done|]. split; [congruence|]. split; [congruence|]. auto.
Qed.
