(* ===== verification/SuggestionAdapter.v ===== *)
(** packages/application/src/services/durable-autonomy-state-adapter.ts, the
    class [DurableProactivityStateAdapter]: the state of an Owner and Agent as
    one JSON record, and the proof that the adapter implements the contract
    that the suggestion service is verified against, over any state store. *)
From S2P Require Import Prelude Js JsDate JsJson JsParse Identifiers Contract.
From S2P Require Import AuthTypes Deterministic InMemoryAuth Persistence DurableEntities Delegation DelegationAdapter.
From S2P Require Import WorkspaceService SuggestionService SuggestionContract.
Local Open Scope Z_scope.

(** ** Enumerations *)
Definition suggestion_status_name (s : SuggestionStatus) : string :=
  match s with
  | suggestion_candidate => "candidate" | suggestion_delivered => "delivered" | suggestion_approved => "approved"
  | suggestion_rejected => "rejected" | suggestion_expired => "expired" | suggestion_superseded => "superseded"
  end.

Definition parse_suggestion_status (s : string) : option SuggestionStatus :=
  List.find (λ c, String.eqb s (suggestion_status_name c))
    [suggestion_candidate; suggestion_delivered; suggestion_approved; suggestion_rejected; suggestion_expired;
     suggestion_superseded].

Definition reflection_outcome_name (o : ReflectionOutcome) : string :=
  match o with
  | reflection_running => "running" | reflection_no_change => "no_change" | reflection_candidates => "candidates"
  | reflection_missed => "missed" | reflection_failed => "failed"
  end.

Definition parse_reflection_outcome (s : string) : option ReflectionOutcome :=
  List.find (λ c, String.eqb s (reflection_outcome_name c))
    [reflection_running; reflection_no_change; reflection_candidates; reflection_missed; reflection_failed].

Definition changed_name (changed : bool) : string := if changed then "candidates" else "no_change".

Definition parse_changed (s : string) : option bool :=
  List.find (λ b, String.eqb s (changed_name b)) [true; false].

Lemma parse_suggestion_status_name s : named parse_suggestion_status (JStr (suggestion_status_name s)) = Some s.
Proof. by destruct s. Qed.
Lemma parse_reflection_outcome_name o : named parse_reflection_outcome (JStr (reflection_outcome_name o)) = Some o.
Proof. by destruct o. Qed.
Lemma parse_changed_name b : named parse_changed (JStr (changed_name b)) = Some b.
Proof. by destruct b. Qed.

#[export] Hint Rewrite parse_suggestion_status_name parse_reflection_outcome_name parse_changed_name : codec.

(** ** The parts of the state *)
Definition classes_json (l : list DataClassification) : json := JArr ((λ c, JStr (classification_name c)) <$> l).
Definition classes_of_json : json → option (list DataClassification) := as_values (named parse_classification).

Definition task_draft_json (d : SuggestionTaskDraft) : json :=
  JObj [("goalRef", JStr (td_goalRef d)); ("trigger", JStr "owner_approved_suggestion");
        ("capabilityRefs", JStrs (td_capabilityRefs d));
        ("dataClassification", JStr (classification_name (td_dataClassification d)));
        ("estimatedCostMicros", JNum (td_estimatedCostMicros d)); ("timezone", JStr (td_timezone d));
        ("timeoutMs", JNum (td_timeoutMs d))].

Definition task_draft_of_json (j : json) : option SuggestionTaskDraft :=
  o ← as_object j;
  goalRef ← read as_str o "goalRef";
  capabilityRefs ← read as_strs o "capabilityRefs";
  dataClassification ← read (named parse_classification) o "dataClassification";
  estimatedCostMicros ← read as_num o "estimatedCostMicros";
  timezone ← read as_str o "timezone";
  timeoutMs ← read as_num o "timeoutMs";
  Some (mkTaskDraft goalRef capabilityRefs dataClassification estimatedCostMicros timezone timeoutMs).

Definition suggestion_json (c : SuggestionCandidate) : json :=
  JObj [("id", JStr (sg_id c)); ("revision", JNum (sg_revision c)); ("ownerId", JStr (sg_ownerId c));
        ("agentId", JStr (sg_agentId c)); ("generationRunId", JStr (sg_generationRunId c));
        ("traceRef", JStr (sg_traceRef c)); ("kind", JStr (sg_kind c)); ("titleRef", JStr (sg_titleRef c));
        ("bodyRef", JStr (sg_bodyRef c)); ("evidenceRefs", JStrs (sg_evidenceRefs c));
        ("sourceWatermark", JStr (sg_sourceWatermark c)); ("goalRef", JOptStr (sg_goalRef c));
        ("commitmentRef", JOptStr (sg_commitmentRef c)); ("taskDraft", task_draft_json (sg_taskDraft c));
        ("confidencePermille", JNum (sg_confidencePermille c)); ("noveltyPermille", JNum (sg_noveltyPermille c));
        ("semanticKey", JStr (sg_semanticKey c)); ("evidenceFingerprint", JStr (sg_evidenceFingerprint c));
        ("ownerScopeRevision", JNum (sg_ownerScopeRevision c));
        ("estimatedDataClasses", classes_json (sg_estimatedDataClasses c)); ("createdAt", JStr (sg_createdAt c));
        ("expiresAt", JStr (sg_expiresAt c)); ("status", JStr (suggestion_status_name (sg_status c)));
        ("deliveryRef", JOptStr (sg_deliveryRef c)); ("taskRef", JOptStr (sg_taskRef c));
        ("taskCreationKey", JOptStr (sg_taskCreationKey c));
        ("responseIdempotencyKeys", JStrs (sg_responseIdempotencyKeys c))].

Definition suggestion_of_json (j : json) : option SuggestionCandidate :=
  o ← as_object j;
  id ← read as_str o "id"; revision ← read as_num o "revision"; ownerId ← read as_str o "ownerId";
  agentId ← read as_str o "agentId"; generationRunId ← read as_str o "generationRunId";
  traceRef ← read as_str o "traceRef"; kind ← read as_str o "kind"; titleRef ← read as_str o "titleRef";
  bodyRef ← read as_str o "bodyRef"; evidenceRefs ← read as_strs o "evidenceRefs";
  sourceWatermark ← read as_str o "sourceWatermark"; goalRef ← read (or_null as_str) o "goalRef";
  commitmentRef ← read (or_null as_str) o "commitmentRef"; taskDraft ← read task_draft_of_json o "taskDraft";
  confidencePermille ← read as_num o "confidencePermille"; noveltyPermille ← read as_num o "noveltyPermille";
  semanticKey ← read as_str o "semanticKey"; evidenceFingerprint ← read as_str o "evidenceFingerprint";
  ownerScopeRevision ← read as_num o "ownerScopeRevision";
  estimatedDataClasses ← read classes_of_json o "estimatedDataClasses"; createdAt ← read as_str o "createdAt";
  expiresAt ← read as_str o "expiresAt"; status ← read (named parse_suggestion_status) o "status";
  deliveryRef ← read (or_null as_str) o "deliveryRef"; taskRef ← read (or_null as_str) o "taskRef";
  taskCreationKey ← read (or_null as_str) o "taskCreationKey";
  responseIdempotencyKeys ← read as_strs o "responseIdempotencyKeys";
  Some (mkSuggestion id revision ownerId agentId generationRunId traceRef kind titleRef bodyRef evidenceRefs
    sourceWatermark goalRef commitmentRef taskDraft confidencePermille noveltyPermille semanticKey evidenceFingerprint
    ownerScopeRevision estimatedDataClasses createdAt expiresAt status deliveryRef taskRef taskCreationKey
    responseIdempotencyKeys).

Definition draft_json (d : ReflectionCandidateDraft) : json :=
  JObj [("kind", JStr (rd_kind d)); ("titleRef", JStr (rd_titleRef d)); ("bodyRef", JStr (rd_bodyRef d));
        ("evidenceRefs", JStrs (rd_evidenceRefs d)); ("sourceWatermark", JStr (rd_sourceWatermark d));
        ("goalRef", JOptStr (rd_goalRef d)); ("commitmentRef", JOptStr (rd_commitmentRef d));
        ("taskDraft", task_draft_json (rd_taskDraft d)); ("confidencePermille", JNum (rd_confidencePermille d));
        ("noveltyPermille", JNum (rd_noveltyPermille d)); ("targetEntity", JStr (rd_targetEntity d));
        ("proposedAction", JStr (rd_proposedAction d)); ("ownerScopeRevision", JNum (rd_ownerScopeRevision d));
        ("estimatedDataClasses", classes_json (rd_estimatedDataClasses d)); ("expiresAt", JStr (rd_expiresAt d))].

Definition draft_of_json (j : json) : option ReflectionCandidateDraft :=
  o ← as_object j;
  kind ← read as_str o "kind"; titleRef ← read as_str o "titleRef"; bodyRef ← read as_str o "bodyRef";
  evidenceRefs ← read as_strs o "evidenceRefs"; sourceWatermark ← read as_str o "sourceWatermark";
  goalRef ← read (or_null as_str) o "goalRef"; commitmentRef ← read (or_null as_str) o "commitmentRef";
  taskDraft ← read task_draft_of_json o "taskDraft"; confidencePermille ← read as_num o "confidencePermille";
  noveltyPermille ← read as_num o "noveltyPermille"; targetEntity ← read as_str o "targetEntity";
  proposedAction ← read as_str o "proposedAction"; ownerScopeRevision ← read as_num o "ownerScopeRevision";
  estimatedDataClasses ← read classes_of_json o "estimatedDataClasses"; expiresAt ← read as_str o "expiresAt";
  Some (mkDraft kind titleRef bodyRef evidenceRefs sourceWatermark goalRef commitmentRef taskDraft confidencePermille
    noveltyPermille targetEntity proposedAction ownerScopeRevision estimatedDataClasses expiresAt).

Definition definition_json (d : ReflectionDefinition) : json :=
  JObj [("id", JStr (df_id d)); ("revision", JNum (df_revision d)); ("ownerId", JStr (df_ownerId d));
        ("agentId", JStr (df_agentId d)); ("schedule", JStr (df_schedule d)); ("timezone", JStr (df_timezone d));
        ("dailySuggestionQuota", JNum (df_dailySuggestionQuota d)); ("maximumContextItems", JNum (df_maximumContextItems d));
        ("maximumCostMicros", JNum (df_maximumCostMicros d)); ("timeoutMs", JNum (df_timeoutMs d));
        ("maximumCandidates", JNum (df_maximumCandidates d)); ("enabled", JBool (df_enabled d))].

Definition definition_of_json (j : json) : option ReflectionDefinition :=
  o ← as_object j;
  id ← read as_str o "id"; revision ← read as_num o "revision"; ownerId ← read as_str o "ownerId";
  agentId ← read as_str o "agentId"; schedule ← read as_str o "schedule"; timezone ← read as_str o "timezone";
  dailySuggestionQuota ← read as_num o "dailySuggestionQuota"; maximumContextItems ← read as_num o "maximumContextItems";
  maximumCostMicros ← read as_num o "maximumCostMicros"; timeoutMs ← read as_num o "timeoutMs";
  maximumCandidates ← read as_num o "maximumCandidates"; enabled ← read as_bool o "enabled";
  Some (mkReflectionDefinition id revision ownerId agentId schedule timezone dailySuggestionQuota maximumContextItems
    maximumCostMicros timeoutMs maximumCandidates enabled).

(** A value or [null]. *)
Definition JOpt {A} (encode : A → json) (o : option A) : json := match o with Some a => encode a | None => JNull end.

Definition context_json (c : ReflectionContext) : json :=
  JObj [("inputRef", JStr (rc_inputRef c)); ("watermark", JStr (rc_watermark c)); ("itemCount", JNum (rc_itemCount c))].

Definition context_of_json (j : json) : option ReflectionContext :=
  o ← as_object j;
  inputRef ← read as_str o "inputRef"; watermark ← read as_str o "watermark"; itemCount ← read as_num o "itemCount";
  Some (mkReflectionContext inputRef watermark itemCount).

Definition output_json (r : ReflectionOutput) : json :=
  JObj [("outcome", JStr (changed_name (ro_changed r))); ("candidates", JArr (draft_json <$> ro_candidates r));
        ("costMicros", JNum (ro_costMicros r)); ("metadata", JObj (ro_metadata r))].

Definition output_of_json (j : json) : option ReflectionOutput :=
  o ← as_object j;
  changed ← read (named parse_changed) o "outcome"; candidates ← read (as_values draft_of_json) o "candidates";
  costMicros ← read as_num o "costMicros"; metadata ← read as_object o "metadata";
  Some (mkReflectionOutput changed candidates costMicros metadata).

Definition lease_json (c : ReflectionClaim) : json :=
  JObj [("id", JStr (rl_id c)); ("generation", JNum (rl_generation c)); ("leaseUntil", JStr (rl_leaseUntil c))].

Definition lease_of_json (j : json) : option ReflectionClaim :=
  o ← as_object j;
  id ← read as_str o "id"; generation ← read as_num o "generation"; leaseUntil ← read as_str o "leaseUntil";
  Some (mkReflectionClaim id generation leaseUntil).

Definition reflection_json (c : ReflectionCheckpoint) : json :=
  JObj [("id", JStr (rf_id c)); ("ownerId", JStr (rf_ownerId c)); ("agentId", JStr (rf_agentId c));
        ("generationRunId", JStr (rf_generationRunId c)); ("traceRef", JStr (rf_traceRef c));
        ("scheduledAt", JStr (rf_scheduledAt c)); ("inputWatermark", JStr (rf_inputWatermark c));
        ("outcome", JStr (reflection_outcome_name (rf_outcome c))); ("candidateRefs", JStrs (rf_candidateRefs c));
        ("costMicros", JNum (rf_costMicros c)); ("attempts", JNum (rf_attempts c)); ("errorCode", JOptStr (rf_errorCode c));
        ("completedAt", JStr (rf_completedAt c)); ("definition", definition_json (rf_definition c));
        ("context", JOpt context_json (rf_context c)); ("output", JOpt output_json (rf_output c));
        ("reservedCostMicros", JNum (rf_reservedCostMicros c)); ("claim", JOpt lease_json (rf_claim c))].

Definition reflection_of_json (j : json) : option ReflectionCheckpoint :=
  o ← as_object j;
  id ← read as_str o "id"; ownerId ← read as_str o "ownerId"; agentId ← read as_str o "agentId";
  generationRunId ← read as_str o "generationRunId"; traceRef ← read as_str o "traceRef";
  scheduledAt ← read as_str o "scheduledAt"; inputWatermark ← read as_str o "inputWatermark";
  outcome ← read (named parse_reflection_outcome) o "outcome"; candidateRefs ← read as_strs o "candidateRefs";
  costMicros ← read as_num o "costMicros"; attempts ← read as_num o "attempts";
  errorCode ← read (or_null as_str) o "errorCode"; completedAt ← read as_str o "completedAt";
  definition ← read definition_of_json o "definition"; context ← read (or_null context_of_json) o "context";
  output ← read (or_null output_of_json) o "output"; reservedCostMicros ← read as_num o "reservedCostMicros";
  claim ← read (or_null lease_of_json) o "claim";
  Some (mkReflectionCheckpoint id ownerId agentId generationRunId traceRef scheduledAt inputWatermark outcome
    candidateRefs costMicros attempts errorCode completedAt definition context output claim reservedCostMicros).

Definition numbers_json (m : jsmap Z) : json := JObj ((λ e, (e.1, JNum e.2)) <$> m).

Definition number_member (e : string * json) : option (string * Z) := n ← as_num e.2; Some (e.1, n).
Definition numbers_of_json (j : json) : option (jsmap Z) := o ← as_object j; mapM number_member o.

Definition proactivity_object (s : ProactivityState) : JsonObject :=
  [("ownerId", JStr (ps_ownerId s)); ("agentId", JStr (ps_agentId s));
   ("suggestions", JArr (suggestion_json <$> ps_suggestions s));
   ("reflectionDefinition", JOpt definition_json (ps_reflectionDefinition s));
   ("reflectionCheckpoints", JArr (reflection_json <$> ps_reflectionCheckpoints s));
   ("quotaOverflowByCivilDay", numbers_json (ps_quotaOverflowByCivilDay s))].

Definition proactivity_of_object (o : JsonObject) : option ProactivityState :=
  ownerId ← read as_str o "ownerId"; agentId ← read as_str o "agentId";
  suggestions ← read (as_values suggestion_of_json) o "suggestions";
  reflectionDefinition ← read (or_null definition_of_json) o "reflectionDefinition";
  reflectionCheckpoints ← read (as_values reflection_of_json) o "reflectionCheckpoints";
  quotaOverflowByCivilDay ← read numbers_of_json o "quotaOverflowByCivilDay";
  Some (mkProactivity ownerId agentId suggestions reflectionDefinition reflectionCheckpoints quotaOverflowByCivilDay).

(** ** Decoders undo their encoders *)
Lemma classes_codec l : classes_of_json (classes_json l) = Some l.
Proof. apply as_values_list. apply parse_classification_name. Qed.

Lemma task_draft_codec d : task_draft_of_json (task_draft_json d) = Some d.
Proof. destruct d. unfold task_draft_of_json, task_draft_json. repeat (cbn; autorewrite with codec). done. Qed.

Lemma definition_codec d : definition_of_json (definition_json d) = Some d.
Proof. destruct d. unfold definition_of_json, definition_json. repeat (cbn; autorewrite with codec). done. Qed.

#[export] Hint Rewrite classes_codec task_draft_codec definition_codec : codec.
#[global] Arguments classes_json : simpl never.
#[global] Arguments classes_of_json : simpl never.
#[global] Arguments task_draft_json : simpl never.
#[global] Arguments task_draft_of_json : simpl never.
#[global] Arguments definition_json : simpl never.
#[global] Arguments definition_of_json : simpl never.
#[global] Arguments JOpt : simpl never.

Lemma suggestion_codec c : suggestion_of_json (suggestion_json c) = Some c.
Proof. destruct c. unfold suggestion_of_json, suggestion_json. repeat (cbn; autorewrite with codec). done. Qed.

Lemma draft_codec d : draft_of_json (draft_json d) = Some d.
Proof. destruct d. unfold draft_of_json, draft_json. repeat (cbn; autorewrite with codec). done. Qed.

(** A value that may be [null], of an encoder that never gives [null]. *)
Lemma JOpt_codec {A} (encode : A → json) (decode : json → option A) o :
  (∀ a, ∃ fields, encode a = JObj fields) → (∀ a, decode (encode a) = Some a) → or_null decode (JOpt encode o) = Some o.
Proof.
  intros He Hd. destruct o as [a|]; [|done]. unfold JOpt, or_null. destruct (He a) as [l Hl].
  rewrite Hl, <-Hl, Hd. done.
Qed.

Lemma definition_option_codec o : or_null definition_of_json (JOpt definition_json o) = Some o.
Proof. apply JOpt_codec; [by eexists|apply definition_codec]. Qed.

Lemma context_option_codec o : or_null context_of_json (JOpt context_json o) = Some o.
Proof. apply JOpt_codec; [by eexists|by intros []]. Qed.

Lemma lease_option_codec o : or_null lease_of_json (JOpt lease_json o) = Some o.
Proof. apply JOpt_codec; [by eexists|by intros []]. Qed.

Lemma drafts_codec l : as_values draft_of_json (JArr (draft_json <$> l)) = Some l.
Proof. apply as_values_list, draft_codec. Qed.

#[export] Hint Rewrite suggestion_codec draft_codec definition_option_codec context_option_codec lease_option_codec
  drafts_codec : codec.

Lemma output_option_codec o : or_null output_of_json (JOpt output_json o) = Some o.
Proof.
  apply JOpt_codec; [by eexists|]. intros []. unfold output_of_json, output_json.
  repeat (cbn -[draft_json]; autorewrite with codec). done.
Qed.

#[export] Hint Rewrite output_option_codec : codec.

Lemma reflection_codec c : reflection_of_json (reflection_json c) = Some c.
Proof. destruct c. unfold reflection_of_json, reflection_json. repeat (cbn; autorewrite with codec). done. Qed.

Lemma suggestions_codec l : as_values suggestion_of_json (JArr (suggestion_json <$> l)) = Some l.
Proof. apply as_values_list, suggestion_codec. Qed.

Lemma reflections_codec l : as_values reflection_of_json (JArr (reflection_json <$> l)) = Some l.
Proof. apply as_values_list, reflection_codec. Qed.

Lemma numbers_codec m : numbers_of_json (numbers_json m) = Some m.
Proof.
  unfold numbers_of_json, numbers_json. cbn [as_object mbind option_bind].
  induction m as [|[k n] m IH]; [done|]. rewrite fmap_cons. cbn [mapM number_member fst snd as_num mbind option_bind].
  by rewrite IH.
Qed.

#[export] Hint Rewrite suggestions_codec reflections_codec numbers_codec : codec.
#[global] Arguments numbers_json : simpl never.
#[global] Arguments numbers_of_json : simpl never.

Lemma proactivity_codec s : proactivity_of_object (proactivity_object s) = Some s.
Proof.
  destruct s. unfold proactivity_of_object, proactivity_object.
  repeat (cbn -[suggestion_json reflection_json]; autorewrite with codec). done.
Qed.

(** ** The text of a state *)

(** Names of members are different: the fixed ones are, those of a record of
    days and of the model's metadata have to be. *)
Ltac solve_wf :=
  apply json_wf_obj; split; [cbn; apply (bool_decide_unpack _); by vm_compute|];
  repeat (apply List.Forall_cons || apply List.Forall_nil); cbn; try done.

Definition state_wf (s : ProactivityState) : Prop :=
  NoDup (ps_quotaOverflowByCivilDay s).*1 ∧
  Forall (λ c, ∀ o, rf_output c = Some o → json_wf (JObj (ro_metadata o))) (ps_reflectionCheckpoints s).

Lemma json_wf_list {A} (encode : A → json) l : Forall (λ a, json_wf (encode a)) l → json_wf (JArr (encode <$> l)).
Proof. intros H. by apply json_wf_arr, Forall_fmap. Qed.

Lemma json_wf_JOpt {A} (encode : A → json) o : (∀ a, o = Some a → json_wf (encode a)) → json_wf (JOpt encode o).
Proof. destruct o; [|done]. intros H. by apply H. Qed.

Lemma json_wf_JOptStr o : json_wf (JOptStr o).
Proof. by destruct o. Qed.

Lemma classes_wf l : json_wf (classes_json l).
Proof. apply json_wf_list, Forall_true. done. Qed.

Lemma task_draft_wf d : json_wf (task_draft_json d).
Proof. solve_wf. apply JStrs_wf. Qed.

Lemma suggestion_wf c : json_wf (suggestion_json c).
Proof. solve_wf; (apply JStrs_wf || apply json_wf_JOptStr || apply task_draft_wf || apply classes_wf). Qed.

Lemma draft_wf d : json_wf (draft_json d).
Proof. solve_wf; (apply JStrs_wf || apply json_wf_JOptStr || apply task_draft_wf || apply classes_wf). Qed.

Lemma definition_wf d : json_wf (definition_json d).
Proof. solve_wf. Qed.

Lemma reflection_wf c : (∀ o, rf_output c = Some o → json_wf (JObj (ro_metadata o))) → json_wf (reflection_json c).
Proof.
  intros Ho. solve_wf; try (apply JStrs_wf || apply json_wf_JOptStr || apply definition_wf); apply json_wf_JOpt; intros a Ha;
    solve_wf; [|by apply Ho]. apply json_wf_list, Forall_true, draft_wf.
Qed.

Lemma proactivity_wf s : state_wf s → json_wf (JObj (proactivity_object s)).
Proof.
  intros [Hn Hm]. solve_wf.
  - apply json_wf_list, Forall_true, suggestion_wf.
  - apply json_wf_JOpt. intros a _. apply definition_wf.
  - apply json_wf_list. eapply Forall_impl; [exact Hm|]. intros c. apply reflection_wf.
  - apply json_wf_obj. split.
    + rewrite <-list_fmap_compose. exact Hn.
    + apply Forall_fmap, Forall_true. done.
Qed.

(** A state is read back from its text as it was: [JSON.parse] of
    [JSON.stringify] of any proactivity state, with its suggestions and
    reflection checkpoints, is a record that decodes to that state. *)
Theorem proactivity_roundtrip s : state_wf s →
  ∃ o, JSON_parse (stringify (JObj (proactivity_object s))) = Some (JObj o) ∧ proactivity_of_object o = Some s.
Proof.
  intros Hs. exists (proactivity_object s). split; [by apply JSON_parse_stringify, proactivity_wf|apply proactivity_codec].
Qed.

(** ** The adapter *)
Definition emptyProactivityState (ownerId : OwnerId) (agentId : AgentId) : ProactivityState :=
  mkProactivity ownerId agentId [] None [] [].

Definition proactivity_key (ownerId : OwnerId) (agentId : AgentId) : string :=
  "proactivity:" +:+ ownerId +:+ ":" +:+ agentId.

(** A stored value that is no proactivity state is outside the model: here it throws. *)
Definition proactivity_decoded (value : JsonObject) : result exn ProactivityState :=
  match proactivity_of_object value with Some s => Ok s | None => Err (typeError "not a proactivity state") end.

Section adapter.
Context {W : Type} `{!StateStorePort W}.

Definition dp_read (ownerId : OwnerId) (agentId : AgentId) : M exn W StoredProactivity :=
  record ← store_read (proactivity_key ownerId agentId);
  match record with
  | None => mret (mkStoredProactivity 0 (emptyProactivityState ownerId agentId))
  | Some record =>
      state ← lift (proactivity_decoded (sr_value record));
      throwM_if ((ps_ownerId state !== ownerId) || (ps_agentId state !== agentId))
        (typeError "Proactivity state scope does not match its durable key") ;;
      mret (mkStoredProactivity (sr_revision record) state)
  end.

Definition dp_compareAndSet (ownerId : OwnerId) (agentId : AgentId) (expectedRevision : Z) (state : ProactivityState)
    : M exn W StoredProactivity :=
  throwM_if ((ps_ownerId state !== ownerId) || (ps_agentId state !== agentId))
    (typeError "Proactivity state scope cannot change") ;;
  record ← compareAndSet (mkCas (proactivity_key ownerId agentId)
    (if expectedRevision === 0 then None else Some expectedRevision) (proactivity_object state));
  saved ← lift (proactivity_decoded (sr_value record));
  mret (mkStoredProactivity (sr_revision record) saved).

#[export] Instance DurableProactivityStateAdapter : ProactivityStatePort W := {|
  proactivity_read := dp_read;
  proactivity_compareAndSet := dp_compareAndSet;
|}.
End adapter.

(** ** Refinement

    The record of one Owner and Agent in the store, next to the Tasks. *)
Section refinement.
Context {zones : TimeZones} (owner agent : string) (maximum : Z).
Abbreviation key := (proactivity_key owner agent) (only parsing).

Definition stored_in (s : store_state) : StoredProactivity :=
  match s !! key with
  | None => mkStoredProactivity 0 (emptyProactivityState owner agent)
  | Some r => mkStoredProactivity (sr_revision r) (default (emptyProactivityState owner agent) (proactivity_of_object (sr_value r)))
  end.

Definition pair_view (p : store_state * gmap string string) : shared := mkShared (stored_in p.1) p.2.

(** The record can be read, is of this scope, and has been written. *)
Definition record_ok (s : store_state) : Prop := ∀ r, s !! key = Some r →
  ∃ st, proactivity_of_object (sr_value r) = Some st ∧ ps_ownerId st = owner ∧ ps_agentId st = agent ∧ 1 ≤ sr_revision r.

(** What other users of the store and of the Tasks do: they keep it so, and
    change this record and the Tasks by the steps of the contract. *)
Definition pair_step (p p' : store_state * gmap string string) : Prop :=
  rtc (suggestion_step owner agent maximum) (pair_view p) (pair_view p') ∧ (record_ok p.1 → record_ok p'.1).

Lemma pair_steps p p' : rtc pair_step p p' →
  rtc (suggestion_step owner agent maximum) (pair_view p) (pair_view p') ∧ (record_ok p.1 → record_ok p'.1).
Proof. induction 1 as [|p p1 p2 [H1 H2] _ [IH1 IH2]]; [done|]. split; [by etrans|auto]. Qed.

Section laws.
Context {W : Type} `{!StateStorePort W} (pview : W → store_state * gmap string string) (pinv : W → Prop).
Context (Hread : ∀ k, gen_op_law pair_step pview pinv (gen_reads (λ o p, o = p.1 !! k)) (store_read k)).
Context (Hcas : ∀ input, gen_op_law pair_step pview pinv
  (λ r p p', store_cas input r p.1 p'.1 ∧ p'.2 = p.2) (compareAndSet input)).

Definition adapter_view (w : W) : shared := pair_view (pview w).
Definition adapter_inv (w : W) : Prop := pinv w ∧ record_ok (pview w).1.

Lemma adapter_read : gen_op_law (suggestion_step owner agent maximum) adapter_view adapter_inv
  (gen_reads (λ r s, r = sh_stored s)) (dp_read owner agent).
Proof.
  intros w r w' [Hi Hok] H. unfold dp_read in H. unfold mbind, M_bind in H.
  destruct (store_read _ w) as [[o|x] w1] eqn:E; destruct (Hread _ _ _ _ Hi E) as (Hi1 & p & Hp & He);
    destruct (pair_steps _ _ Hp) as [Hs Hok1].
  - destruct He as [-> Hw1]. rewrite <-Hw1 in *.
    assert (w' = w1 ∧ match r with Ok a => a = sh_stored (adapter_view w1) | Err _ => True end) as [-> Hr].
    { unfold adapter_view, pair_view, stored_in. cbn [sh_stored]. destruct ((pview w1).1 !! key) as [rec|] eqn:Er.
      - destruct (Hok1 Hok rec Er) as (st & Hst & Ho & Ha & _). unfold proactivity_decoded, lift in H. rewrite Hst in H |- *.
        rewrite !bool_decide_true in H by done. cbn in H. by injection H as <- <-.
      - by injection H as <- <-. }
    split; [split; [done|by apply Hok1]|]. exists (adapter_view w1). split; [exact Hs|]. by destruct r.
  - injection H as <- <-. split; [split; [done|rewrite He; by apply Hok1]|]. exists (pair_view p).
    split; [exact Hs|]. unfold adapter_view. by rewrite He.
Qed.

Lemma adapter_cas revision st : ps_ownerId st = owner → ps_agentId st = agent →
  gen_op_law (suggestion_step owner agent maximum) adapter_view adapter_inv (cas_effect revision st)
    (dp_compareAndSet owner agent revision st).
Proof.
  intros Ho Ha w r w' [Hi Hok] H. unfold dp_compareAndSet in H. rewrite (bool_decide_true _ Ho), (bool_decide_true _ Ha) in H.
  cbn [negb orb throwM_if throw_if] in H. unfold mbind, M_bind, lift at 1 in H. cbn in H.
  destruct (compareAndSet _ w) as [[rec|x] w1] eqn:E; destruct (Hcas _ _ _ _ Hi E) as (Hi1 & p & Hp & He);
    destruct (pair_steps _ _ Hp) as [Hs Hok1].
  - destruct He as [(Hrev & Hrec & Hw1) Ht]. cbn in *.
    assert (pv_revision (stored_in p.1) = revision ∧ sr_revision rec = revision + 1) as [Hr1 Hr2].
    { unfold stored_in. rewrite Hrec. unfold next_record. cbn. destruct (p.1 !! key) as [r0|] eqn:Ek; cbn in *.
      - destruct (Hok1 Hok _ Ek) as (_ & _ & _ & _ & ?). case_bool_decide; [done|]. injection Hrev as ->. done.
      - case_bool_decide; [|done]. by subst. }
    assert (sr_value rec = proactivity_object st) as Hv by (by rewrite Hrec).
    unfold proactivity_decoded, lift in H. rewrite Hv, proactivity_codec in H. cbn in H. injection H as <- <-.
    assert (adapter_view w1 = stored_next st (pair_view p)) as Hw.
    { unfold adapter_view, pair_view, stored_next, stored_in at 1. cbn. rewrite Hw1, lookup_insert_eq, Ht, Hv, proactivity_codec.
      cbn. by rewrite Hr2, Hr1. }
    split.
    + split; [done|]. rewrite Hw1. intros r0. rewrite lookup_insert_eq. intros [= <-]. exists st.
      rewrite Hv, proactivity_codec. do 3 (split; [done|]). rewrite Hrec. unfold next_record. cbn.
      destruct (p.1 !! key) as [r0|] eqn:Ek; cbn; [|lia]. destruct (Hok1 Hok _ Ek) as (_ & _ & _ & _ & ?). lia.
    + exists (pair_view p). split; [exact Hs|]. split; [done|]. split; [by rewrite Hr2|done].
  - injection H as <- <-. split; [split; [done|rewrite He; by apply Hok1]|]. exists (pair_view p).
    split; [exact Hs|]. unfold adapter_view. by rewrite He.
Qed.

(** C30 The durable adapter implements the contract of the proactivity state:
    over any store that is read and compared-and-set atomically next to the
    Tasks, reads give the state and its revision, and a write succeeds only at
    the revision it expects, under anyone's interference by the contract. *)
Theorem durable_proactivity_refines : ProactivityStateLaws owner agent maximum adapter_view adapter_inv.
Proof. constructor; [apply adapter_read|apply adapter_cas]. Qed.
End laws.
End refinement.

(** The key joins two identifiers with a colon, which both may contain: a
    second pair that gets the key of the first is refused its own state. *)
Lemma proactivity_keys_collide :
  proactivity_key "owner:1" "agent" = proactivity_key "owner" "1:agent" ∧
  MACHINE_IDENTIFIER_PATTERN "owner:1" = true ∧ MACHINE_IDENTIFIER_PATTERN "1:agent" = true.
Proof. vm_compute. repeat split. Qed.
