(* ===== verification/ReflectionRuns.v ===== *)
(** What the reflection service guarantees (Reflection.v), from the promises of
    its ports: every checkpoint stays within its frozen definition and three
    attempts, the model is asked under a claim and within the definition, and
    what has settled stays. *)
From S2P Require Import Prelude Js JsDate JsJson MachineSecrets Identifiers Contract AuthTypes Deterministic Persistence.
From S2P Require Import WorkspaceService Delegation SuggestionService Reflection.
From S2P Require Import SuggestionContract SuggestionRuns.
Local Open Scope Z_scope.

Definition checkpoints (s : shared) : list ReflectionCheckpoint := ps_reflectionCheckpoints (pv_state (sh_stored s)).

(** The model is asked for a claimed checkpoint, within its frozen definition. *)
Definition asked (input : ReflectInput) (s : shared) : Prop :=
  ∃ c, c ∈ checkpoints s ∧ rf_id c = ri_idempotencyKey input ∧ 1 ≤ rf_attempts c ∧ rf_context c ≠ None ∧
    ri_maximumCandidates input = df_maximumCandidates (rf_definition c) ∧
    ri_maximumCostMicros input = df_maximumCostMicros (rf_definition c) ∧ ri_timeoutMs input = df_timeoutMs (rf_definition c).

Definition reflections_sound {zones : TimeZones} (owner agent : string) (maximum : Z) (s : shared) : Prop :=
  checkpoints_sound owner agent maximum (checkpoints s).

(** The promises of the two ports: the selection of a context leaves the state
    to others, and so does the model, when it is asked as it may be. *)
Class ReflectionPortLaws {zones : TimeZones} (owner agent : string) (maximum : Z) {W : Type}
    `{!ReflectionContextPort W, !ReflectionModelPort W} (view : W → shared) (inv : W → Prop) : Prop := {
  frame_select : ∀ o a after items,
    gen_frame_law (suggestion_step owner agent maximum) view inv (reflection_select o a after items);
  law_reflect : ∀ input, triple (suggestion_step owner agent maximum) view inv
    (λ s, reflections_sound owner agent maximum s ∧ asked input s) (reflect input) (λ _ _, True);
}.

Section runs.
Context {W : Type} {zones : TimeZones} {digest : HostFileDigestPort}.
Context `{!ProactivityStatePort W, !SuggestionDeliveryPort W, !SuggestionTaskCreationPort W, !ClockPort W, !IdGeneratorPort W}.
Context `{!ReflectionContextPort W, !ReflectionModelPort W}.
Context (owner agent : string) (maximum : Z) (view : W → shared) (inv : W → Prop).
Context `{!ProactivityStateLaws owner agent maximum view inv, !SuggestionPortLaws owner agent maximum view inv}.
Context `{!ReflectionPortLaws owner agent maximum view inv}.
Abbreviation step := (suggestion_step owner agent maximum) (only parsing).
Abbreviation sound := (suggestions_sound owner agent maximum) (only parsing).
Abbreviation triple := (triple step view inv) (only parsing).
Abbreviation frame := (gen_frame_law step view inv) (only parsing).
Abbreviation move := (checkpoint_move) (only parsing).
Abbreviation moves := (rtc (checkpoint_move)) (only parsing).
Hint Resolve frame_suggestion_clock frame_suggestion_ids frame_select : frames.

#[local] Existing Instances seen_stable sound_stable.

(** ** What stays true *)
Definition state_sound (s : shared) : Prop := sound s ∧ reflections_sound owner agent maximum s.

Lemma step_checkpoints s s' : step s s' → checkpoints_step owner agent maximum (checkpoints s) (checkpoints s').
Proof. intros [c _|l _|st _ _ _ _ H|k t _ _]; try apply checkpoints_same. exact H. Qed.

#[local] Instance reflections_stable : Stable step (reflections_sound owner agent maximum).
Proof. intros s s' H Hs. eapply checkpoints_step_sound; [exact H|by apply step_checkpoints]. Qed.

#[local] Instance state_sound_stable : Stable step state_sound.
Proof. apply stable_and; apply _. Qed.

(** [c] is sound, and the stored checkpoint came of it. *)
Definition came_of (c : ReflectionCheckpoint) (s : shared) : Prop :=
  checkpoint_sound owner agent maximum c ∧ descends c (checkpoints s).

#[local] Instance came_of_stable c : Stable step (λ s, state_sound s ∧ came_of c s).
Proof.
  intros s s' [[Hs Hr] [Hc Hd]] Hst. split; [by eapply (stable (P := state_sound) step); [split|]|]. split; [done|].
  eapply descends_step; [exact Hr|by apply step_checkpoints|done].
Qed.

Lemma listed_came_of c s : state_sound s → c ∈ checkpoints s → came_of c s.
Proof.
  intros [_ [_ Hc]] Hin. split; [|by apply descends_here]. exact (proj1 (Forall_forall _ _) Hc c Hin).
Qed.

#[local] Instance asked_stable input : Stable step (λ s, reflections_sound owner agent maximum s ∧ asked input s).
Proof.
  intros s s' [Hr (c & Hc & Hid & Ha & Hx & Hb)] Hst. split; [by eapply (stable (P := reflections_sound owner agent maximum) step)|].
  destruct (descends_step owner agent maximum c _ _ Hr (step_checkpoints _ _ Hst)) as (c' & Hc' & Hid' & Hm); [by apply descends_here|].
  exists c'. split; [done|]. split; [congruence|]. clear -Ha Hx Hb Hm. induction Hm as [|c c1 c' H1 _ IH]; [done|].
  destruct (move_keeps _ _ H1) as (_ & _ & _ & _ & He & _ & Hle & _ & Hctx). apply IH; [lia|auto|by rewrite He].
Qed.

(** ** The state is updated *)

(** A write by this service: the suggestions and the scope are left alone. *)
Definition allowed (p st : ProactivityState) : Prop :=
  ps_suggestions st = ps_suggestions p ∧ ps_ownerId st = ps_ownerId p ∧ ps_agentId st = ps_agentId p ∧
  (definition_within maximum p → definition_within maximum st) ∧
  checkpoints_step owner agent maximum (ps_reflectionCheckpoints p) (ps_reflectionCheckpoints st).

(** [st] is sound, and each checkpoint in it leads to a stored one. *)
Definition current (st : ProactivityState) (s : shared) : Prop :=
  NoDup (rf_id <$> ps_reflectionCheckpoints st) ∧ Forall (λ c, came_of c s) (ps_reflectionCheckpoints st).

#[local] Instance current_stable st : Stable step (λ s, state_sound s ∧ current st s).
Proof.
  intros s s' [Hs [Hn Hf]] Hst. split; [by eapply (stable (P := state_sound) step)|]. split; [done|].
  eapply Forall_impl; [exact Hf|]. intros c Hc. by apply (came_of_stable c s s').
Qed.

Lemma stored_current s : state_sound s → current (pv_state (sh_stored s)) s.
Proof. intros Hs. split; [apply Hs|]. apply Forall_forall. intros c Hc. by apply listed_came_of. Qed.

Lemma update_triple attempts (P : shared → Prop) `{!Stable step P} (F : ProactivityState → Prop) update :
  (∀ s, P s → state_sound s) →
  (∀ s0, P s0 → let p := pv_state (sh_stored s0) in
    triple P (update p) (λ o s, P s ∧ match o with None => F p | Some st => allowed p st ∧ F st end)) →
  triple P (update_attempts attempts owner agent update) (λ st s, P s ∧ current st s ∧ F st).
Proof.
  intros HP Hu. induction attempts as [|attempts IH]; [apply triple_throw|]. cbn [update_attempts].
  eapply triple_bind; [apply read_triple; apply _|]. intros r. cbn beta.
  apply (triple_pre _ _ _ (λ s, (∃ s0, P s0 ∧ sh_stored s0 = r) ∧ (P s ∧ (state_sound s ∧ current (pv_state r) s)) ∧ seen r s)).
  2: { intros s [Hs <-]. split; [by exists s|]. split; [|split; [lia|done]]. split; [done|]. split; [by apply HP|].
       apply stored_current. by apply HP. }
  apply triple_pure. intros (s0 & H0 & <-). set (p := pv_state (sh_stored s0)).
  eapply triple_bind with (Q := λ o s, (P s ∧ (state_sound s ∧ current p s)) ∧ seen (sh_stored s0) s ∧
    match o with None => F p | Some st => allowed p st ∧ F st end).
  { intros w o w' Hi [[Hp Hc] Hseen] H. destruct (Hu s0 H0 _ _ _ Hi Hp H) as (Hi' & Hs & Ho). do 2 (split; [done|]).
    destruct o as [o|]; [|done]. destruct Ho as [Hp' Ho]. split; [split; [done|]|split; [|done]].
    - by eapply (stable_rtc step (λ s, state_sound s ∧ current p s)).
    - by eapply (stable_rtc step (seen (sh_stored s0))). }
  intros [st|]; cbn beta; [|apply triple_ret; tauto].
  apply (triple_pre _ _ _ (λ s, (allowed p st ∧ F st) ∧ (P s ∧ seen (sh_stored s0) s))); [|tauto].
  apply triple_pure. intros [(Hl & Ho & Ha & Hw & Hk) HF].
  destruct (HP _ H0) as [[[Ho0 Ha0] _ _ _ _ _ _] _]. eapply triple_bind.
  - apply unless_conflict_triple; [apply _|]. apply (cas_triple owner agent maximum view inv P (λ s, current st s)); [fold p in Ho0, Ha0; congruence..|].
    intros s Hs Hr. assert (step s (stored_next st s)) as Hstep.
    { apply step_other; unfold suggestions; rewrite Hr; fold p; done. }
    split; [done|]. apply (stored_current (stored_next st s)). eapply (stable (P := state_sound) step); [by apply HP|done].
  - intros [k|]; cbn beta; [|eapply triple_pre; [exact IH|by intros s [? _]]].
    apply triple_ret. intros s (Hk' & Hp & Hc). by rewrite Hk'.
Qed.

(** ** A checkpoint is updated under its claim *)
Lemma triple_known {A} (P : shared → Prop) (m : M exn W A) Q : (∀ s0, P s0 → triple P m Q) → triple P m Q.
Proof. intros H w r w' Hi Hp. by apply (H (view w)). Qed.

Lemma owns_triple (P : shared → Prop) `{!Stable step P} c claimId :
  triple P (owns c claimId) (λ b s, P s ∧ (b = true → rf_claim c ≠ None)).
Proof.
  unfold owns. destruct (rf_claim c) as [claim|]; [|apply triple_ret; intros s HP; by split].
  destruct (_ && _); [|apply triple_ret; intros s HP; by split].
  apply triple_bind_frame; [done|solve_frame|]. intros now. apply triple_ret. intros s HP. by split.
Qed.

(** The stored checkpoint that came of [c0]. *)
Lemma came_of_found c0 s : state_sound s → came_of c0 s →
  ∃ c, find_checkpoint (rf_id c0) (pv_state (sh_stored s)) = Some c ∧ moves c0 c.
Proof.
  intros [_ [Hn _]] [_ (c & Hc & Hid & Hm)]. exists c. split; [|done]. by apply find_checkpoint_elem.
Qed.

Lemma current_found id st s c : current st s → find_checkpoint id st = Some c → came_of c s.
Proof.
  intros [Hn Hf] [Hc _]%find_checkpoint_elem; [|done]. exact (proj1 (Forall_forall _ _) Hf c Hc).
Qed.

Definition leads_to (c0 : ReflectionCheckpoint) (st : ProactivityState) : Prop :=
  ∃ c, find_checkpoint (rf_id c0) st = Some c ∧ moves c0 c.

Lemma replace_found p c : NoDup (rf_id <$> ps_reflectionCheckpoints p) →
  find_checkpoint (rf_id c) (replaceCheckpoint p c) = Some c.
Proof.
  intros Hn. apply find_checkpoint_elem; [by apply put_ids|]. split; [|done]. apply put_elem. by right.
Qed.

Lemma replace_allowed p l next : l ∈ ps_reflectionCheckpoints p → move l next → allowed p (replaceCheckpoint p next).
Proof. intros Hl Hm. do 4 (split; [done|]). by eapply checkpoints_moved. Qed.

Lemma claim_update_triple (P : shared → Prop) `{!Stable step P} c0 claimId update s0 :
  (∀ s, P s → state_sound s ∧ came_of c0 s) → P s0 →
  (∀ l, checkpoint_sound owner agent maximum l → moves c0 l → rf_claim l ≠ None →
     triple P (update l) (λ o s, P s ∧ match o with Some next => move l next | None => True end)) →
  triple P (claim_update (rf_id c0) claimId update (pv_state (sh_stored s0)))
    (λ o s, P s ∧ match o with
      | None => leads_to c0 (pv_state (sh_stored s0))
      | Some st => allowed (pv_state (sh_stored s0)) st ∧ leads_to c0 st
      end).
Proof.
  intros HP H0 Hu. destruct (HP _ H0) as [Hs Hc]. destruct (came_of_found _ _ Hs Hc) as (l & Hf & Hm).
  pose proof Hs as [_ [Hn Hall]]. pose proof Hf as Hf'. apply find_checkpoint_elem in Hf' as [Hl Hid]; [|done].
  pose proof (proj1 (Forall_forall _ _) Hall l Hl) as Hsl.
  unfold claim_update, requiredCheckpoint. rewrite Hf.
  eapply triple_bind with (Q := λ x s, x = l ∧ P s); [apply triple_lift; by intros a s [= <-]|]. intros x. apply triple_pure. intros ->.
  eapply triple_bind; [by apply owns_triple|]. intros b. cbn beta.
  destruct b; cbn [negb]; [|apply triple_ret; intros s [HPs _]; split; [done|by exists l]].
  apply (triple_pre _ _ _ (λ s, rf_claim l ≠ None ∧ P s)); [apply triple_pure; intros Hcl|intros s [? H]; split; [by apply H|done]].
  eapply triple_bind; [by apply Hu|]. intros [next|]; apply triple_ret; intros s [HPs Hmv]; (split; [done|]); [|by exists l].
  split; [by eapply replace_allowed|]. exists next. split; [|by eapply rtc_r].
  assert (rf_id c0 = rf_id next) as -> by (rewrite <-Hid; symmetry; by apply (move_keeps)). by apply replace_found.
Qed.

Lemma updateClaim_triple (P : shared → Prop) `{!Stable step P} c0 claimId update :
  (∀ s, P s → state_sound s ∧ came_of c0 s) →
  (∀ l, checkpoint_sound owner agent maximum l → moves c0 l → rf_claim l ≠ None →
     triple P (update l) (λ o s, P s ∧ match o with Some next => move l next | None => True end)) →
  triple P (updateClaim c0 claimId update) (λ c s, P s ∧ came_of c s ∧ moves c0 c).
Proof.
  intros HP Hu. apply triple_known. intros s1 H1. destruct (HP _ H1) as [_ [Hc1 _]]. destruct (cs_scope _ _ _ _ Hc1) as [Ho Ha].
  unfold updateClaim. rewrite Ho, Ha. eapply triple_bind.
  - apply (update_triple _ P (leads_to c0)); [intros s Hs; by apply HP|]. intros s0 H0. by apply claim_update_triple.
  - intros st. cbn beta. apply triple_lift. intros c s Hr (HPs & Hcur & (c' & Hf & Hm)).
    unfold requiredCheckpoint in Hr. rewrite Hf in Hr. injection Hr as <-. split; [done|]. split; [by eapply current_found|done].
Qed.

(** ** Code with the local variable

    The attempt starts from the claimed checkpoint [c0]; whether code returns
    or throws, its variable holds a checkpoint that came of it. *)
Section attempt.
Context (c0 : ReflectionCheckpoint).

Definition tracked (c : ReflectionCheckpoint) (s : shared) : Prop := (state_sound s ∧ came_of c s) ∧ moves c0 c.

#[local] Instance tracked_stable c : Stable step (tracked c).
Proof. apply stable_and; apply _. Qed.

Definition ltriple {A} (P : ReflectionCheckpoint → shared → Prop) (m : M exn (W * ReflectionCheckpoint) A)
    (Q : A → ReflectionCheckpoint → shared → Prop) : Prop :=
  ∀ w c r w' c', inv w → P c (view w) → m (w, c) = (r, (w', c')) →
    inv w' ∧ rtc step (view w) (view w') ∧
    match r with Ok a => Q a c' (view w') | Err _ => tracked c' (view w') end.

Lemma lt_ret {A} P (a : A) Q : (∀ c s, P c s → Q a c s) → ltriple P (mret a) Q.
Proof. intros H w c r w' c' Hi Hp Hm. injection Hm as <- <- <-. do 2 (split; [done|]). by apply H. Qed.

Lemma lt_bind {A B} P Q R (m : M exn (W * ReflectionCheckpoint) A) (f : A → M exn (W * ReflectionCheckpoint) B) :
  ltriple P m Q → (∀ a, ltriple (Q a) (f a) R) → ltriple P (a ← m; f a) R.
Proof.
  intros Hm Hf w c r w' c' Hi Hp H. unfold mbind, M_bind in H. destruct (m (w, c)) as [[a|x] [w1 c1]] eqn:E.
  - destruct (Hm _ _ _ _ _ Hi Hp E) as (Hi1 & Hs1 & Hq). destruct (Hf _ _ _ _ _ _ Hi1 Hq H) as (Hi2 & Hs2 & Hr).
    split; [done|]. split; [etrans; [exact Hs1|exact Hs2]|done].
  - destruct (Hm _ _ _ _ _ Hi Hp E) as (Hi1 & Hs1 & Hq). injection H as <- <- <-. done.
Qed.

Lemma lt_pre {A} P P' (m : M exn (W * ReflectionCheckpoint) A) Q : ltriple P m Q → (∀ c s, P' c s → P c s) → ltriple P' m Q.
Proof. intros H HP w c r w' c' Hi Hp. apply H; auto. Qed.

Lemma lt_variable P : ltriple P variable (λ a c s, a = c ∧ P c s).
Proof. intros w c r w' c' Hi Hp H. injection H as <- <- <-. done. Qed.

(** A call on the world leaves the variable. *)
Lemma lt_world {A} (P : ReflectionCheckpoint → shared → Prop) (m : M exn W A) Q :
  (∀ c s, P c s → tracked c s) → (∀ c, triple (P c) m (λ a, Q a c)) → ltriple P (on_world m) Q.
Proof.
  intros HP Hm w c r w' c' Hi Hp H. unfold on_world, zoom in H. cbn in H. destruct (m w) as [r0 w0] eqn:E.
  injection H as <- <- <-. destruct (Hm c _ _ _ Hi Hp E) as (Hi' & Hs & Hr). do 2 (split; [done|]).
  destruct r0; [done|]. exact (stable_rtc step (tracked c) _ _ (HP _ _ Hp) Hs).
Qed.

Lemma lt_lift {A} (P : ReflectionCheckpoint → shared → Prop) (r : result exn A) (Q : A → ReflectionCheckpoint → shared → Prop) :
  (∀ c s, P c s → tracked c s) → (∀ a c s, r = Ok a → P c s → Q a c s) → ltriple P (lift r) Q.
Proof.
  intros HP HQ w c r' w' c' Hi Hp H. injection H as <- <- <-. do 2 (split; [done|]). destruct r; [by apply HQ|by apply HP].
Qed.

Lemma lt_pure {A} (φ : Prop) P (m : M exn (W * ReflectionCheckpoint) A) Q :
  (φ → ltriple P m Q) → ltriple (λ c s, φ ∧ P c s) m Q.
Proof. intros H w c r w' c' Hi [Hφ Hp] Hm. by apply (H Hφ _ _ _ _ _ Hi Hp Hm). Qed.

Lemma lt_assign P (m : M exn W ReflectionCheckpoint) (Q : unit → ReflectionCheckpoint → shared → Prop) :
  (∀ c s, P c s → tracked c s) → (∀ c, triple (P c) m (λ c' s, Q tt c' s)) → ltriple P (assign m) Q.
Proof.
  intros HP Hm. unfold assign. intros w c r w' c' Hi Hp H. unfold mbind, M_bind, on_world, zoom in H. cbn in H.
  destruct (m w) as [[c1|x] w0] eqn:E; destruct (Hm c _ _ _ Hi Hp E) as (Hi' & Hs & Hr); injection H as <- <- <-;
    do 2 (split; [done|]); [done|]. exact (stable_rtc step (tracked c) _ _ (HP _ _ Hp) Hs).
Qed.

Lemma moves_preserve (K : ReflectionCheckpoint → Prop) c c' : (∀ c c', K c → move c c' → K c') → moves c c' → K c → K c'.
Proof. intros HK. induction 1; eauto. Qed.

(** An update of the stored checkpoint that is a move of it. *)
Definition moves_by (K : ReflectionCheckpoint → Prop) (update : ReflectionCheckpoint → M exn W (option ReflectionCheckpoint)) : Prop :=
  ∀ (P : shared → Prop) l, Stable step P → checkpoint_sound owner agent maximum l → moves c0 l → K l → rf_claim l ≠ None →
    triple P (update l) (λ o s, P s ∧ match o with Some next => move l next | None => True end).

Lemma moves_by_pure (K : ReflectionCheckpoint → Prop) f :
  (∀ l, moves c0 l → K l → rf_claim l ≠ None → move l (f l)) → moves_by K (λ l, mret (Some (f l))).
Proof. intros Hf P l HP Hs Hm HK Hc. apply triple_ret. intros s H. split; [done|]. by apply Hf. Qed.

Lemma tracked_claim_triple (K : ReflectionCheckpoint → Prop) claimId update c :
  (∀ c c', K c → move c c' → K c') → moves_by K update → K c →
  triple (tracked c) (updateClaim c claimId update) (λ c' s, tracked c' s ∧ K c').
Proof.
  intros HK Hu Hc. apply triple_known. intros s0 [_ Hm0].
  eapply triple_post; [apply (updateClaim_triple (tracked c)); [by intros s [? _]|]|].
  - intros l Hs Hm Hcl. apply Hu; [apply _|done|by etrans|by eapply moves_preserve|done].
  - intros c' s ([[Hs _] _] & Hc' & Hm). split; [|by eapply moves_preserve]. split; [done|]. by etrans.
Qed.

(** [K] says what is known of the variable; no move falsifies it. *)
Lemma lt_step_claim (K : ReflectionCheckpoint → Prop) claimId update :
  (∀ c c', K c → move c c' → K c') → moves_by K update →
  ltriple (λ c s, tracked c s ∧ K c) (step_claim claimId update) (λ _ c s, tracked c s ∧ K c).
Proof.
  intros HK Hu. eapply lt_bind; [apply lt_variable|]. intros a. cbn beta. apply lt_assign; [by intros c s (_ & ? & _)|].
  intros c. apply triple_pure. intros ->. apply (triple_pre _ _ _ (λ s, K c ∧ tracked c s)); [|tauto].
  apply triple_pure. intros Hc. by apply tracked_claim_triple.
Qed.

Lemma moves_keep_all c c' : moves c c' →
  rf_id c' = rf_id c ∧ rf_definition c' = rf_definition c ∧ rf_attempts c ≤ rf_attempts c' ∧
  (rf_output c ≠ None → rf_output c' ≠ None) ∧ (rf_context c ≠ None → rf_context c' ≠ None).
Proof.
  induction 1 as [c|c c1 c' H1 _ (I1 & I2 & I3 & I4 & I5)]; [done|].
  destruct (move_keeps _ _ H1) as (H2 & _ & _ & _ & H3 & _ & H4 & H5 & H6).
  split; [congruence|]. split; [congruence|]. split; [lia|]. auto.
Qed.

Context (input : RunReflectionInput) (claimId : string).
Context (Howner : rn_ownerId input = owner) (Hagent : rn_agentId input = agent) (Hid : rf_id c0 = reflection_id input).
Abbreviation definition := (rf_definition c0) (only parsing).
Abbreviation anything := (λ c s, tracked c s ∧ True) (only parsing).
Abbreviation with_output := (λ c s, tracked c s ∧ rf_output c ≠ None) (only parsing).

(** A call that leaves the state to others. *)
Lemma lt_frame {A} P (m : M exn W A) : (∀ c, Stable step (P c)) → (∀ c s, P c s → tracked c s) → frame m →
  ltriple P (on_world m) (λ _, P).
Proof. intros HS HP Hm. apply lt_world; [done|]. intros c. by apply triple_frame. Qed.

#[local] Instance tracked_and_stable c φ : Stable step (λ s, tracked c s ∧ φ).
Proof. apply stable_and; apply _. Qed.

Lemma lt_owns (K : ReflectionCheckpoint → Prop) c1 : ltriple (λ c s, c1 = c ∧ tracked c s ∧ K c) (on_world (owns c1 claimId))
  (λ b c s, c1 = c ∧ (tracked c s ∧ K c) ∧ (b = true → rf_claim c ≠ None)).
Proof.
  apply lt_world; [tauto|]. intros c. apply triple_pure. intros ->. eapply triple_post; [apply owns_triple, _|]. cbn. tauto.
Qed.

Lemma select_context_lt : ltriple anything (select_context input claimId definition) (λ _, anything).
Proof.
  unfold select_context. eapply lt_bind; [apply lt_variable|]. intros c1. cbn beta.
  destruct (rf_context c1); [apply lt_ret; tauto|].
  apply (lt_pre anything); [|tauto]. eapply lt_bind; [apply lt_frame; [apply _|tauto|solve_frame]|]. intros context. cbn beta.
  eapply lt_bind with (Q := λ _ c s, 0 ≤ rc_itemCount context ≤ df_maximumContextItems definition ∧ anything c s).
  { apply lt_lift; [tauto|]. intros u c s Hb H. split; [|done]. apply throw_if_Ok, orb_false_iff in Hb as [?%Z.ltb_ge ?%Z.ltb_ge]. lia. }
  intros _. apply lt_pure. intros Hctx. apply (lt_step_claim (λ _, True)); [done|]. apply moves_by_pure. intros l Hm _ Hc.
  apply move_context; [done|]. by rewrite (proj1 (proj2 (moves_keep_all _ _ Hm))).
Qed.

(** What the model is asked is allowed. *)
Lemma asked_now c context s : tracked c s → rf_claim c ≠ None → rf_context c = Some context →
  asked (mkReflectInput (reflection_id input) (rc_inputRef context) (df_maximumCandidates definition)
    (df_maximumCostMicros definition) (df_timeoutMs definition)) s.
Proof.
  intros [[Hs [Hc (c' & Hin & Hid' & Hm)]] Hm0] Hcl Hctx. destruct (rf_claim c) as [claim|] eqn:E; [|done].
  destruct (cs_claim _ _ _ _ Hc claim E) as (_ & Ha & _).
  destruct (moves_keep_all _ _ Hm) as (Hi1 & Hd1 & Ha1 & _ & Hx1). destruct (moves_keep_all _ _ Hm0) as (Hi0 & Hd0 & _).
  exists c'. cbn. rewrite Hd1, Hd0. split; [done|]. split; [congruence|]. split; [lia|]. split; [|done]. apply Hx1. by rewrite Hctx.
Qed.

Lemma reflect_lt c1 context : rf_context c1 = Some context → rf_claim c1 ≠ None →
  ltriple (λ c s, c1 = c ∧ anything c s) (on_world (reflect (mkReflectInput (reflection_id input) (rc_inputRef context)
    (df_maximumCandidates definition) (df_maximumCostMicros definition) (df_timeoutMs definition))))
    (λ _ c s, anything c s).
Proof.
  intros Hctx Hcl. apply lt_world; [tauto|]. intros c. apply triple_pure. intros ->.
  intros w r w' Hi [Ht _] H. assert (reflections_sound owner agent maximum (view w)) as Hr by apply Ht.
  destruct (law_reflect _ w r w' Hi (conj Hr (asked_now _ _ _ Ht Hcl Hctx)) H) as (Hi' & Hs & _).
  do 2 (split; [done|]). destruct r; [|done]. split; [|done]. by eapply (stable_rtc step (tracked c)).
Qed.

Lemma output_kept c c' : rf_output c ≠ None → move c c' → rf_output c' ≠ None.
Proof. intros H Hm. apply move_keeps in Hm. tauto. Qed.

Lemma reflect_output_lt : ltriple anything (reflect_output input claimId definition) (λ _, anything).
Proof.
  unfold reflect_output. eapply lt_bind; [apply lt_variable|]. intros c1. cbn beta.
  destruct (rf_output c1); [apply lt_ret; tauto|].
  eapply lt_bind; [eapply (lt_pre anything); [apply (lt_step_claim (λ _, True)); [done|]|tauto]|].
  { apply moves_by_pure. intros l Hm _ Hc. rewrite <-(proj1 (proj2 (moves_keep_all _ _ Hm))). by apply move_reserved. }
  intros []. cbn beta. eapply lt_bind; [apply lt_variable|]. intros c2. cbn beta.
  eapply lt_bind; [apply (lt_owns (λ _, True))|]. intros owned. cbn beta.
  destruct owned; [|apply lt_ret; tauto]. destruct (rf_context c2) as [context|] eqn:Hctx; [|apply lt_ret; tauto].
  apply (lt_pre (λ c s, rf_claim c2 ≠ None ∧ (c2 = c ∧ anything c s))).
  2: { intros c s (-> & Ht & Hc). split; [by apply Hc|done]. }
  apply lt_pure. intros Hcl. eapply lt_bind; [by apply reflect_lt|]. intros output. cbn beta.
  eapply lt_bind with (Q := λ _ c s, secret_free (stringify (JObj (ro_metadata output))) ∧ anything c s).
  { apply lt_world; [tauto|]. intros c. apply triple_lift. intros u s Hs Ht. split; [by apply assertMachineSecretFree_Ok in Hs|done]. }
  intros _. apply lt_pure. intros Hfree. eapply lt_bind with (Q := λ _ c s, output_exceeds definition output = false ∧ anything c s).
  { apply lt_lift; [tauto|]. intros u c s Hs Ht. split; [by apply throw_if_Ok in Hs|done]. }
  intros _. apply lt_pure. intros Hin. eapply lt_bind; [apply (lt_step_claim (λ _, True)); [done|]|intros []; apply lt_ret; tauto].
  apply moves_by_pure. intros l Hm _ Hc. apply move_output; try done. by rewrite (proj1 (proj2 (moves_keep_all _ _ Hm))).
Qed.

(** A proposal of a draft, within the quota of the definition. *)
Lemma propose_lt draft c1 K : checkpoint_sound owner agent maximum c0 →
  ltriple (λ c s, c1 = c ∧ tracked c s ∧ K c) (on_world (propose (mkPropose (rn_ownerId input) (rn_agentId input)
    (rf_generationRunId c1) (rf_traceRef c1) (draft <| rd_sourceWatermark := rf_inputWatermark c1 |>)
    (Some (df_dailySuggestionQuota definition))))) (λ _ c s, tracked c s ∧ K c).
Proof.
  intros Hs0. apply lt_world; [tauto|]. intros c. apply triple_pure. intros _.
  intros w r w' Hi [Ht HK] H. assert (sound (view w)) as Hs by apply Ht.
  match type of H with propose ?i _ = _ => assert (propose_valid owner agent maximum i) as Hv end.
  { do 2 (split; [done|]). cbn. by apply (cs_quota _ _ _ _ Hs0). }
  destruct (propose_triple owner agent maximum view inv _ Hv _ _ _ Hi Hs H) as (Hi' & Hsteps & _).
  do 2 (split; [done|]). destruct r; [|done]. split; [by eapply (stable_rtc step (tracked c))|done].
Qed.

Lemma propose_drafts_lt drafts : checkpoint_sound owner agent maximum c0 →
  ltriple with_output (propose_drafts input claimId definition drafts) (λ _, with_output).
Proof.
  intros Hs0. induction drafts as [|draft drafts IH]; [by apply lt_ret|]. cbn [propose_drafts].
  eapply lt_bind; [apply (lt_step_claim (λ c, rf_output c ≠ None)); [apply output_kept|]|].
  { intros P l HP Hs Hm _ Hc. by apply triple_ret. }
  intros []. cbn beta. eapply lt_bind; [apply lt_variable|]. intros c1. cbn beta.
  eapply lt_bind; [apply (lt_owns (λ c, rf_output c ≠ None))|]. intros owned. cbn beta. destruct owned; cbn [negb]; [|apply lt_ret; tauto].
  eapply lt_bind; [eapply lt_pre; [by apply (propose_lt draft c1 (λ c, rf_output c ≠ None))|tauto]|].
  intros proposal. cbn beta. eapply lt_bind with (Q := λ _, with_output); [|intros []; exact IH]. destruct (proposal_candidate proposal); [|by apply lt_ret].
  apply (lt_step_claim (λ c, rf_output c ≠ None)); [apply output_kept|]. apply moves_by_pure. intros l _ _ Hc. by apply move_candidate.
Qed.

Lemma settle_triple c : rf_output c ≠ None → triple (tracked c) (settle_reflection c claimId) (λ c' s, tracked c' s).
Proof.
  intros Ho. eapply triple_post; [apply (tracked_claim_triple (λ c, rf_output c ≠ None)); [apply output_kept| |done]|by intros c' s [? _]].
  intros P l HP Hs Hm HK Hc. apply triple_bind_frame; [done|solve_frame|]. intros now. apply triple_ret. intros s H.
  split; [done|]. by apply move_settled.
Qed.

Lemma fail_triple c error : triple (tracked c) (fail_reflection c claimId error) (λ c' s, tracked c' s).
Proof.
  eapply triple_post; [apply (tracked_claim_triple (λ _, True)); [done| |done]|by intros c' s [? _]].
  intros P l HP Hs Hm HK Hc. apply triple_bind_frame; [done|solve_frame|]. intros now. apply triple_ret. intros s H.
  split; [done|]. by apply move_failed.
Qed.

Lemma on_world_run {A} (m : M exn W A) w (c : ReflectionCheckpoint) :
  on_world m (w, c) = let '(r, w') := m w in (r, (w', c)).
Proof. done. Qed.

(** What the body returns: the variable, or the settled checkpoint. *)
Definition result_of (p : M exn (W * ReflectionCheckpoint) ReflectionCheckpoint) (c : ReflectionCheckpoint) : Prop :=
  p = mret c ∨ (p = on_world (settle_reflection c claimId) ∧ rf_output c ≠ None).

Lemma return_variable_lt P : (∀ c s, P c s → tracked c s) →
  ltriple P (c ← variable; mret (mret c)) (λ p c s, tracked c s ∧ result_of p c).
Proof.
  intros HP. eapply lt_bind; [apply lt_variable|]. intros c1. apply lt_ret. intros c s [-> H]. split; [by apply HP|by left].
Qed.

Lemma attempt_body_lt : checkpoint_sound owner agent maximum c0 →
  ltriple anything (attempt_body input claimId definition) (λ p c s, tracked c s ∧ result_of p c).
Proof.
  intros Hs0. unfold attempt_body. eapply lt_bind; [apply select_context_lt|]. intros []. cbn beta.
  eapply lt_bind; [apply lt_variable|]. intros c1. cbn beta. eapply lt_bind; [apply (lt_owns (λ _, True))|]. intros owned. cbn beta.
  destruct owned; cbn [negb]; [|apply return_variable_lt; tauto].
  eapply lt_bind; [eapply lt_pre; [apply reflect_output_lt|tauto]|]. intros goes_on. cbn beta.
  destruct goes_on; cbn [negb]; [|apply return_variable_lt; tauto].
  eapply lt_bind; [apply lt_variable|]. intros c2. cbn beta. eapply lt_bind; [apply (lt_owns (λ _, True))|]. intros owned. cbn beta.
  destruct owned; [|apply return_variable_lt; tauto]. destruct (rf_output c2) as [output|] eqn:Ho; [|apply return_variable_lt; tauto].
  destruct (rf_context c2); [|apply return_variable_lt; tauto].
  apply (lt_pre with_output).
  2: { intros c s (-> & [Ht _] & _). split; [done|by rewrite Ho]. }
  eapply lt_bind; [by apply propose_drafts_lt|]. intros goes_on. cbn beta.
  destruct goes_on; cbn [negb]; [|apply return_variable_lt; tauto].
  eapply lt_bind; [apply lt_variable|]. intros c3. apply lt_ret. intros c s (-> & Ht & Hout). split; [done|by right].
Qed.

Lemma attempt_handler_lt error : ltriple tracked (attempt_handler claimId error) (λ a _ s, tracked a s).
Proof.
  unfold attempt_handler. eapply lt_bind; [apply lt_variable|]. intros c1. cbn beta.
  eapply lt_bind with (Q := λ saved c s, tracked saved s ∧ tracked c s).
  - apply lt_world; [tauto|]. intros c. apply triple_pure. intros -> w r w' Hi Ht H.
    destruct (fail_triple c error _ _ _ Hi Ht H) as (Hi1 & Hs1 & Hr). do 2 (split; [done|]). destruct r; [|done].
    split; [done|]. exact (stable_rtc step (tracked c) _ _ Ht Hs1).
  - intros saved. destruct (_ || _); [apply lt_ret; tauto|]. apply lt_lift; [tauto|done].
Qed.

Lemma run_attempt_triple : triple (tracked c0) (run_attempt input claimId c0) (λ c s, tracked c s).
Proof.
  intros w r w' Hi Ht H. pose proof (proj1 (proj2 (proj1 Ht))) as Hs0. unfold run_attempt, try_tail in H.
  destruct (attempt_body input claimId definition (w, c0)) as [[p|x] [w1 c1]] eqn:E;
    destruct (attempt_body_lt Hs0 _ _ _ _ _ Hi (conj Ht I) E) as (Hi1 & Hs1 & Hr).
  - destruct Hr as [Ht1 [->|[-> Ho]]]; [unfold mret, M_ret in H; by injection H as <- <-|]. rewrite on_world_run in H.
    destruct (settle_reflection c1 claimId w1) as [r2 w2] eqn:E2. injection H as <- <-.
    destruct (settle_triple c1 Ho _ _ _ Hi1 Ht1 E2) as (Hi2 & Hs2 & Hr2). split; [done|]. split; [etrans; [exact Hs1|exact Hs2]|done].
  - destruct (attempt_handler claimId x (w1, c1)) as [r2 [w2 c2]] eqn:E2. injection H as <- <-.
    destruct (attempt_handler_lt x _ _ _ _ _ Hi1 Hr E2) as (Hi2 & Hs2 & Hr2). split; [done|].
    split; [etrans; [exact Hs1|exact Hs2]|]. by destruct r2.
Qed.
End attempt.

(** ** The claim *)

Lemma claimed_new input claimId now d c : rn_ownerId input = owner → rn_agentId input = agent →
  assertDefinition d = Ok tt → df_enabled d = true → df_dailySuggestionQuota d ≤ maximum →
  claimed_checkpoint input claimId now None d = Ok c →
  fresh_checkpoint owner agent maximum c.
Proof.
  intros Ho Ha Hd He Hq H. unfold claimed_checkpoint in H. cbn in H. rewrite orb_false_r in H.
  destruct (rn_hostWasOnlineAtSchedule input); cbn in H.
  - destruct (lease_until now (df_timeoutMs d)) as [t|]; [|done]. injection H as <-. constructor; cbn; try done.
    + unfold reflection_id, checkpoint_name. by rewrite Ho, Ha.
    + right. do 2 (split; [done|]). by eexists.
  - injection H as <-. constructor; cbn; try done; [|by left].
    unfold reflection_id, checkpoint_name. by rewrite Ho, Ha.
Qed.

Lemma same_schedule input p : rn_ownerId input = owner → rn_agentId input = agent →
  rf_id p = checkpoint_name owner agent (rf_scheduledAt p) → rf_id p = reflection_id input →
  rf_scheduledAt p = rn_scheduledAt input.
Proof.
  intros Ho Ha H1 H2. rewrite H1 in H2. unfold checkpoint_name, reflection_id in H2. rewrite Ho, Ha in H2.
  by repeat apply append_cancel_l in H2.
Qed.

Lemma claimed_again input claimId now p c : rn_ownerId input = owner → rn_agentId input = agent →
  checkpoint_sound owner agent maximum p → rf_id p = reflection_id input → rf_outcome p = reflection_running →
  claimed_checkpoint input claimId now (Some p) (rf_definition p) = Ok c → move p c.
Proof.
  intros Ho Ha Hs Hid Hrun H. pose proof (same_schedule _ _ Ho Ha (cs_id _ _ _ _ Hs) Hid) as Hsch.
  destruct (cs_scope _ _ _ _ Hs) as [Hpo Hpa]. unfold claimed_checkpoint in H. cbn [is_none option_fmap option_map fmap default andb orb] in H.
  destruct (3 <=? rf_attempts p) eqn:E; cbn in H; rewrite E in H || idtac.
  - injection H as <-. apply Z.leb_le in E. eapply eq_ind; [apply (move_given_up p (default "REFLECTION_ATTEMPTS_EXHAUSTED" (rf_errorCode p)) now Hrun E)|].
    destruct p; cbn in *; subst. done.
  - destruct (lease_until now _) as [t|]; [|done]. injection H as <-. apply Z.leb_gt in E.
    eapply eq_ind; [apply (move_claimed p (mkReflectionClaim claimId (default (rf_attempts p) (rl_generation <$> rf_claim p) + 1) t) now Hrun E eq_refl)|].
    destruct p; cbn in *; subst. done.
Qed.

Definition has_checkpoint (id : string) (st : ProactivityState) : Prop := ∃ c, find_checkpoint id st = Some c.

Lemma claim_allowed input claimId now p c d :
  rn_ownerId input = owner → rn_agentId input = agent → checkpoints_sound owner agent maximum (ps_reflectionCheckpoints p) →
  assertDefinition d = Ok tt → df_enabled d = true → df_dailySuggestionQuota d ≤ maximum →
  claimed_checkpoint input claimId now (find_checkpoint (reflection_id input) p) d = Ok c →
  (∀ e, find_checkpoint (reflection_id input) p = Some e → rf_outcome e = reflection_running ∧ d = rf_definition e) →
  allowed p (replaceCheckpoint p c) ∧ has_checkpoint (reflection_id input) (replaceCheckpoint p c).
Proof.
  intros Ho Ha [Hn Hall] Hd He Hq Hc Hex.
  assert (rf_id c = reflection_id input) as Hid.
  { unfold claimed_checkpoint in Hc. apply result_bind_Ok in Hc as (cl & _ & Hc). by injection Hc as <-. }
  split; [|exists c; rewrite <-Hid; by apply replace_found].
  destruct (find_checkpoint (reflection_id input) p) as [e|] eqn:E.
  - destruct (Hex e eq_refl) as [Hrun ->]. apply find_checkpoint_elem in E as [Hin Heid]; [|done].
    eapply replace_allowed; [exact Hin|]. eapply claimed_again; try done. exact (proj1 (Forall_forall _ _) Hall e Hin).
  - do 4 (split; [done|]). apply checkpoints_new; [|by eapply claimed_new].
    intros (x & Hx & Hin)%list_elem_of_fmap. unfold find_checkpoint in E. eapply find_None in E; [|exact Hin]. guards. congruence.
Qed.

Lemma claim_attempt_triple input claimId s0 : rn_ownerId input = owner → rn_agentId input = agent → state_sound s0 →
  let p := pv_state (sh_stored s0) in
  triple state_sound (claim_attempt input claimId p) (λ o s, state_sound s ∧
    match o with None => has_checkpoint (reflection_id input) p
               | Some st => allowed p st ∧ has_checkpoint (reflection_id input) st end).
Proof.
  intros Ho Ha [Hsugg Hsound] p. unfold claim_attempt. apply triple_bind_frame; [apply _|solve_frame|]. intros now. cbv zeta.
  set (existing := find_checkpoint (reflection_id input) p).
  destruct (match existing with None => false | Some c => _ end) eqn:Eb.
  { apply triple_ret. intros s Hs. split; [done|]. unfold has_checkpoint. destruct existing as [c|] eqn:E; [by exists c|done]. }
  destruct (match existing with Some c => Some (rf_definition c) | None => _ end) as [d|] eqn:Ed; [|apply triple_throw].
  eapply triple_bind with (Q := λ _ s, df_enabled d = true ∧ state_sound s).
  { apply triple_throwM_if. intros s Hb Hs. split; [by destruct (df_enabled d)|done]. }
  intros _. apply triple_pure. intros Hen. eapply triple_bind with (Q := λ _ s, assertDefinition d = Ok tt ∧ state_sound s).
  { apply triple_lift. by intros [] s Hd Hs. }
  intros _. apply triple_pure. intros Hd.
  eapply triple_bind with (Q := λ c s, claimed_checkpoint input claimId now existing d = Ok c ∧ state_sound s).
  { apply triple_lift. by intros c s Hc Hs. }
  intros c. apply triple_pure. intros Hc. apply triple_ret. intros s Hs. split; [done|].
  assert (df_dailySuggestionQuota d ≤ maximum) as Hq.
  { destruct existing as [e|] eqn:E; [injection Ed as <-|by apply (so_definition _ _ _ _ Hsugg)].
    apply find_checkpoint_elem in E as [Hin _]; [|apply Hsound].
    exact (cs_quota _ _ _ _ (proj1 (Forall_forall _ _) (cl_each _ _ _ _ Hsound) e Hin)). }
  eapply (claim_allowed input claimId now p c d); try done. intros e He. fold existing in He. rewrite He in Eb, Ed.
  apply orb_false_iff in Eb as [Eb _]. guards. by injection Ed as <-.
Qed.

Lemma run_reflection_triple input : rn_ownerId input = owner → rn_agentId input = agent →
  triple state_sound (run_reflection input) (λ c s, state_sound s ∧ came_of c s ∧ rf_id c = reflection_id input).
Proof.
  intros Ho Ha. unfold run_reflection. apply triple_bind_frame; [apply _|solve_frame|]. intros claimId. rewrite Ho, Ha.
  eapply triple_bind; [apply (update_triple _ state_sound (has_checkpoint (reflection_id input))); [done|]|].
  { intros s0 H0. by apply claim_attempt_triple. }
  intros st. cbn beta. eapply triple_bind with (Q := λ c s, rf_id c = reflection_id input ∧ (state_sound s ∧ came_of c s)).
  { apply triple_lift. intros c s Hr (Hs & Hcur & (c' & Hf)). unfold requiredCheckpoint in Hr. rewrite Hf in Hr. injection Hr as <-.
    pose proof (current_found _ _ _ _ Hcur Hf) as Hco. destruct Hcur as [Hn _]. apply find_checkpoint_elem in Hf as [_ Hid]; [|done]. done. }
  intros c. apply triple_pure. intros Hid. eapply triple_bind; [apply owns_triple, _|]. intros owned. cbn beta.
  destruct owned; cbn [negb]; [|apply triple_ret; by intros s [[? ?] _]].
  eapply triple_pre; [eapply triple_post; [by apply run_attempt_triple|]|].
  - intros c' s [[Hs Hc] Hm]. split; [done|]. split; [done|]. rewrite <-Hid. by apply moves_keep_all.
  - intros s [H _]. by split.
Qed.

Lemma configure_triple d : df_ownerId d = owner → df_agentId d = agent → df_dailySuggestionQuota d ≤ maximum →
  triple state_sound (configure d) (λ d' s, state_sound s ∧ d' = d ∧ assertDefinition d = Ok tt).
Proof.
  intros Ho Ha Hq. unfold configure. rewrite Ho, Ha.
  eapply triple_bind with (Q := λ _ s, assertDefinition d = Ok tt ∧ state_sound s).
  { apply triple_lift. by intros [] s Hd Hs. }
  intros _. apply triple_pure. intros Hd.
  eapply triple_bind; [apply (update_triple _ state_sound (λ st, ps_reflectionDefinition st = Some d)); [done|]|].
  - intros s0 H0. cbv zeta. apply triple_ret. intros s Hs. split; [done|]. split; [|done]. do 3 (split; [done|]).
    split; [by intros _ d' [= <-]|apply checkpoints_same].
  - intros st. cbn beta. destruct (ps_reflectionDefinition st) as [d'|]; [|apply triple_throw].
    apply triple_ret. intros s (Hs & _ & Hd'). injection Hd' as ->. done.
Qed.
End runs.

(** ** The calls of both services, in any order *)
Inductive autonomy_call :=
  | call_suggestion (c : suggestion_call) | call_configure (d : ReflectionDefinition) | call_reflection (input : RunReflectionInput).

Section calls.
Context {W : Type} {zones : TimeZones} {digest : HostFileDigestPort}.
Context `{!ProactivityStatePort W, !SuggestionDeliveryPort W, !SuggestionTaskCreationPort W, !ClockPort W, !IdGeneratorPort W}.
Context `{!ReflectionContextPort W, !ReflectionModelPort W}.
Context (owner agent : string) (maximum : Z) (view : W → shared) (inv : W → Prop).
Context `{!ProactivityStateLaws owner agent maximum view inv, !SuggestionPortLaws owner agent maximum view inv}.
Context `{!ReflectionPortLaws owner agent maximum view inv}.
Abbreviation step := (suggestion_step owner agent maximum) (only parsing).
Abbreviation all_sound := (state_sound owner agent maximum) (only parsing).
Abbreviation triple := (triple step view inv) (only parsing).
#[local] Existing Instances state_sound_stable reflections_stable.

Definition autonomy_valid (c : autonomy_call) : Prop :=
  match c with
  | call_suggestion c => call_valid owner agent maximum c
  | call_configure d => df_ownerId d = owner ∧ df_agentId d = agent ∧ df_dailySuggestionQuota d ≤ maximum
  | call_reflection input => rn_ownerId input = owner ∧ rn_agentId input = agent
  end.

Definition run_autonomy_call (c : autonomy_call) : M exn W unit :=
  match c with
  | call_suggestion c => run_call owner agent c
  | call_configure d => configure d ;; mret tt
  | call_reflection input => run_reflection input ;; mret tt
  end.

(** Whether a call throws or not, the next one follows. *)
Fixpoint run_autonomy (cs : list autonomy_call) : M exn W unit :=
  match cs with
  | [] => mret tt
  | c :: cs => try_catch (run_autonomy_call c) (λ _, mret tt) ;; run_autonomy cs
  end.

Lemma run_autonomy_call_triple c : autonomy_valid c → triple all_sound (run_autonomy_call c) (λ _, all_sound).
Proof.
  destruct c as [c|d|input]; cbn; intros Hv.
  - intros w r w' Hi [Hs Hr] H. destruct (run_call_triple owner agent maximum view inv c Hv w r w' Hi Hs H) as (Hi' & Hsteps & Hq).
    do 2 (split; [done|]). destruct r; [|done]. split; [done|].
    exact (stable_rtc step (reflections_sound owner agent maximum) _ _ Hr Hsteps).
  - destruct Hv as (? & ? & ?). eapply triple_bind; [by apply configure_triple|]. intros d'. apply triple_ret. tauto.
  - destruct Hv. eapply triple_bind; [by apply run_reflection_triple|]. intros c. apply triple_ret. tauto.
Qed.

Lemma run_autonomy_triple cs : Forall autonomy_valid cs → triple all_sound (run_autonomy cs) (λ _, all_sound).
Proof.
  induction 1 as [|c cs Hc _ IH]; [by apply triple_ret|]. cbn [run_autonomy].
  eapply triple_bind with (Q := λ _, all_sound); [|intros _; exact IH].
  apply triple_try_catch; [apply _|by apply run_autonomy_call_triple|]. intros x. by apply triple_ret.
Qed.

(** C20 Checkpoints stay well formed through any sequence of calls of both
    services for this Owner and Agent, with anyone else calling them meanwhile:
    one per schedule, of this Owner and Agent, with a valid definition; at most
    three attempts, and a claim only while it runs, numbered as the attempts; a
    cost and an output within the definition, without machine secrets in its
    metadata; and an outcome that agrees with what was found.  The definition
    that is configured, and the one frozen in each checkpoint, ask for a daily
    quota of at most [maximum], the bound on the quotas that calls bring; so the
    suggestions stay sound too, whatever zones the model's drafts name: each
    zone's suggestions are within [maximum] on each of its days.  The ports are
    the ones of ReflectionPortLaws: the selection of the context, and the model
    when it is asked for a claimed checkpoint within its definition, leave the
    state to others and may answer anything. *)
Theorem reflections_stay_sound cs w r w' :
  Forall autonomy_valid cs → inv w → all_sound (view w) → run_autonomy cs w = (r, w') →
  inv w' ∧ all_sound (view w') ∧
  ∀ zone day, named_count zone day (suggestions (view w')) ≤ Z.max 0 maximum.
Proof.
  intros Hv Hi Hs H. destruct (run_autonomy_triple cs Hv _ _ _ Hi Hs H) as (Hi' & Hsteps & _). split; [done|].
  pose proof (stable_rtc step all_sound _ _ Hs Hsteps) as Hs'. split; [exact Hs'|]. intros zone day.
  eapply sound_quota. exact (proj1 Hs').
Qed.

(** A run returns the checkpoint of its schedule: well formed, and the one
    that is stored at the end unless others have moved it on; once it has
    settled it is the stored one. The model port is only trusted when it is
    asked for a stored, claimed checkpoint with the bounds of its definition. *)
Theorem run_reflects input w c w' :
  rn_ownerId input = owner → rn_agentId input = agent → inv w → all_sound (view w) → run_reflection input w = (Ok c, w') →
  rf_id c = reflection_id input ∧ checkpoint_sound owner agent maximum c ∧
  ∃ c', c' ∈ checkpoints (view w') ∧ rf_id c' = rf_id c ∧ rtc (checkpoint_move) c c' ∧
    (rf_outcome c ≠ reflection_running → c' = c).
Proof.
  intros Ho Ha Hi Hs H.
  destruct (run_reflection_triple owner agent maximum view inv input Ho Ha w (Ok c) w' Hi Hs H)
    as (_ & _ & _ & [Hc (c' & Hin & Hid & Hm)] & Hname).
  do 2 (split; [done|]). exists c'. do 3 (split; [done|]). intros Hr. by eapply settled_stays.
Qed.
End calls.

(** What a reflection has settled stays as it is, whatever anyone does; its
    definition is frozen when it is first claimed, its attempts only grow, and
    an output, once there, is not lost. *)
Theorem reflection_settled_final `{TimeZones} owner agent maximum s s' c :
  rtc (suggestion_step owner agent maximum) s s' → reflections_sound owner agent maximum s → c ∈ checkpoints s →
  ∃ c', c' ∈ checkpoints s' ∧ rf_id c' = rf_id c ∧ rf_definition c' = rf_definition c ∧ rf_attempts c ≤ rf_attempts c' ≤ 3 ∧
    (rf_output c ≠ None → rf_output c' ≠ None) ∧ (rf_outcome c ≠ reflection_running → c' = c).
Proof.
  intros Hs Hr Hc. assert (reflections_sound owner agent maximum s' ∧ descends c (checkpoints s')) as [[Hn Hall] (c' & Hin & Hid & Hm)].
  { induction Hs as [s|s s1 s2 H1 _ IH] in c, Hr, Hc |- *; [split; [done|by apply descends_here]|].
    pose proof (step_checkpoints _ _ _ _ _ H1) as Hst. pose proof (checkpoints_step_sound _ _ _ _ _ Hr Hst) as Hr1.
    destruct (descends_step _ _ _ c _ _ Hr Hst) as (c1 & Hc1 & Hid1 & Hm1); [by apply descends_here|].
    destruct (IH c1 Hr1 Hc1) as [Hr2 (c2 & Hc2 & Hid2 & Hm2)]. split; [done|]. exists c2. split; [done|]. split; [congruence|by etrans]. }
  pose proof (proj1 (Forall_forall _ _) (cl_each _ _ _ _ Hr) c Hc) as Hsc.
  pose proof (proj1 (Forall_forall _ _) Hall c' Hin) as Hsc'. destruct (moves_keep_all _ _ Hm) as (_ & Hd & Ha & Ho & _).
  exists c'. do 3 (split; [done|]). split; [split; [done|by apply (cs_attempts _ _ _ _ Hsc')]|]. split; [done|].
  intros Hrun. by eapply settled_stays.
Qed.
