(* ===== verification/CandidatePaths.v ===== *)
(** The path scopes of improvement candidates: [normalizeCandidatePath] to
    [candidatePathsWithinScopes] of packages/application/src/ports/improvement.ts
    and the protected roots of services/improvement-candidate-service.ts.
    Containment of texts is containment of paths, segment by segment. *)
From S2P Require Import Prelude Js MachineSecrets Identifiers.
Local Open Scope nat_scope.

(** ** Texts and segments *)

(** [s.split(sep)] *)
Fixpoint split_on (sep : ascii) (s : string) : list string :=
  match s with
  | EmptyString => [""]
  | String c s =>
      if Ascii.eqb c sep then "" :: split_on sep s
      else match split_on sep s with p :: ps => String c p :: ps | [] => [String c ""] end
  end.

(** [ps.join(sep)] *)
Fixpoint join_with (sep : ascii) (ps : list string) : string :=
  match ps with
  | [] => ""
  | [p] => p
  | p :: ps => p +:+ String sep (join_with sep ps)
  end.

Definition has_char (c : ascii) (s : string) : bool := negb (all_chars (λ d, negb (Ascii.eqb d c)) s).

Definition SLASH : ascii := "/".
Definition NUL : ascii := ascii_of_N 0.

(** [value.replace(/\/$/, "")] *)
Fixpoint strip_slash (s : string) : string :=
  match s with
  | EmptyString => ""
  | String c EmptyString => if Ascii.eqb c SLASH then "" else s
  | String c s => String c (strip_slash s)
  end.

Definition is_letter (c : ascii) : bool := between "A" "Z" c || between "a" "z" c.

(** A drive, [/^[A-Za-z]:/] *)
Definition drive : regex := sequence [Begin; Chr is_letter; literal ":"].

(** ** Normal paths *)
Definition bad_segment (part : string) : bool := (part === "") || (part === ".") || (part === "..").

Definition scope_invalid : exn := typeError "CANDIDATE_PATH_SCOPE_INVALID".

Definition normalizeCandidatePath (value : string) : result exn string :=
  let normalized := strip_slash value in
  throw_if ((normalized === "") || startsWith normalized "/" || has_char (ascii_of_N 92) normalized
    || has_char NUL normalized || existsb bad_segment (split_on SLASH normalized) || test drive normalized)
    scope_invalid ;;
  Ok normalized.

Fixpoint normalize_all (values : list string) : result exn (list string) :=
  match values with
  | [] => Ok []
  | value :: values => normalized ← normalizeCandidatePath value; rest ← normalize_all values; Ok (normalized :: rest)
  end.

Definition normalizeCandidateScopes (values : list string) : result exn (list string) :=
  throw_if (bool_decide (values = [])) (typeError "CANDIDATE_PATH_SCOPE_EMPTY") ;;
  normalized ← normalize_all values;
  Ok (sort_strings (unique normalized)).

Definition within_scope (relative scope : string) : bool :=
  (relative === scope) || startsWith relative (scope +:+ "/").

(** [paths.every(...)], which stops at the first path outside. *)
Fixpoint every_within (paths allowed : list string) : result exn bool :=
  match paths with
  | [] => Ok true
  | value :: paths =>
      relative ← normalizeCandidatePath value;
      if existsb (within_scope relative) allowed then every_within paths allowed else Ok false
  end.

Definition candidatePathsWithinScopes (paths scopes : list string) : result exn bool :=
  allowed ← normalizeCandidateScopes scopes;
  every_within paths allowed.

(** ** Protected roots *)
Definition segment_of (words : list regex) : regex :=
  ignore_case (sequence [Alt Begin (literal "/"); alternatives words; Alt (literal "/") End]).

Definition plural (word : string) : regex := Seq (literal word) (option_of (literal "s")).

Definition PROTECTED_ROOT_PATTERNS : list regex :=
  [segment_of [literal "identity"; literal "authorization"; plural "secret"; literal "audit"; literal "trust-root"];
   segment_of [literal "model-disclosure"; literal "upgrade"; plural "capabilitie"]].

Definition is_protected (path : string) : bool := existsb (λ pattern, test pattern path) PROTECTED_ROOT_PATTERNS.

Definition protected_facts (paths : list string) : list string :=
  (λ path, "protected-path:" +:+ path) <$> List.filter is_protected paths.

(** ** Splitting and joining *)
Lemma startsWith_spec s p : startsWith s p = true ↔ ∃ t, s = p +:+ t.
Proof.
  unfold startsWith. revert s. induction p as [|c p IH]; intros s; cbn.
  - split; [intros _; by exists s|by destruct s].
  - destruct s as [|d s]; [split; [done|intros [t Ht]; discriminate Ht]|].
    cbn [String.prefix]. destruct (ascii_dec c d) as [->|Hne].
    + rewrite IH. split; intros [t Ht]; exists t; [by rewrite append_String, Ht|].
      rewrite append_String in Ht. by apply String_inv in Ht as [_ Ht].
    + split; [done|]. intros [t Ht]. rewrite append_String in Ht. apply String_inv in Ht as [Hc _]. congruence.
Qed.

Lemma has_char_false c s : has_char c s = false ↔ all_chars (λ d, negb (Ascii.eqb d c)) s = true.
Proof. apply negb_false_iff. Qed.

Section splitting.
Context (sep : ascii).

Lemma split_on_nonempty s : split_on sep s ≠ [].
Proof. destruct s as [|c s]; cbn; [done|]. destruct (Ascii.eqb c sep); [done|]. by destruct (split_on sep s). Qed.

Lemma join_cons p ps : ps ≠ [] → join_with sep (p :: ps) = p +:+ String sep (join_with sep ps).
Proof. by destruct ps. Qed.

Lemma join_split s : join_with sep (split_on sep s) = s.
Proof.
  induction s as [|c s IH]; [done|]. cbn [split_on]. pose proof (split_on_nonempty s) as Hne.
  destruct (Ascii.eqb c sep) eqn:E.
  - apply Ascii.eqb_eq in E as ->. by rewrite join_cons, IH.
  - destruct (split_on sep s) as [|p [|q ps]]; [done|..]; cbn in *; by rewrite <-IH.
Qed.

Lemma split_app a b : split_on sep (a +:+ String sep b) = split_on sep a ++ split_on sep b.
Proof.
  induction a as [|c a IH]; [change (split_on sep (String sep b) = "" :: split_on sep b); cbn; by rewrite Ascii.eqb_refl|].
  rewrite append_String. cbn [split_on]. rewrite IH. destruct (Ascii.eqb c sep); [done|].
  pose proof (split_on_nonempty a). by destruct (split_on sep a).
Qed.

Lemma split_segment p : has_char sep p = false → split_on sep p = [p].
Proof.
  rewrite has_char_false. induction p as [|c p IH]; cbn; [done|]. rewrite andb_true_iff, negb_true_iff.
  intros [-> H]. by rewrite IH.
Qed.

Lemma split_join ps : ps ≠ [] → Forall (λ p, has_char sep p = false) ps → split_on sep (join_with sep ps) = ps.
Proof.
  intros Hne. induction 1 as [|p ps Hp Hps IH]; [done|]. destruct ps as [|q ps]; [by apply split_segment|].
  rewrite join_cons by done. by rewrite split_app, split_segment, IH.
Qed.

Lemma join_app ps qs : ps ≠ [] → qs ≠ [] → join_with sep (ps ++ qs) = join_with sep ps +:+ String sep (join_with sep qs).
Proof.
  intros Hp Hq. induction ps as [|p ps IH]; [done|]. destruct ps as [|p' ps]; [by apply join_cons|].
  rewrite <-app_comm_cons, !join_cons by done. by rewrite IH, append_assoc.
Qed.

(** No segment of a split text holds the separator. *)
Lemma split_segments s : Forall (λ p, has_char sep p = false) (split_on sep s).
Proof.
  induction s as [|c s IH]; cbn; [by repeat constructor|]. destruct (Ascii.eqb c sep) eqn:E; [by constructor|].
  destruct (split_on sep s) as [|p ps]; [repeat constructor|apply Forall_cons in IH as [Hp IH]; constructor; [|done]];
    apply has_char_false; cbn; rewrite E; [done|]. by apply has_char_false.
Qed.

(** Containment of texts is containment of their segments. *)
Lemma prefix_segments a b :
  b = a ∨ (∃ t, b = (a +:+ String sep "") +:+ t) ↔ split_on sep a `prefix_of` split_on sep b.
Proof.
  split.
  - intros [->|[t ->]]; [done|]. rewrite append_assoc, append_String. cbn [String.append].
    change (split_on sep a `prefix_of` split_on sep (a +:+ String sep t)). rewrite split_app. by eexists.
  - intros [l Hl]. destruct (decide (l = [])) as [->|Hne].
    + left. rewrite <-(join_split b), Hl, app_nil_r. apply join_split.
    + right. exists (join_with sep l). rewrite <-(join_split b) at 1.
      rewrite Hl, join_app, join_split by (done || apply split_on_nonempty). by rewrite append_assoc, append_String.
Qed.
End splitting.

(** ** Normal paths name segments *)
Lemma normalize_Ok value n : normalizeCandidatePath value = Ok n ↔
  n = strip_slash value ∧ startsWith n "/" = false ∧ has_char (ascii_of_N 92) n = false ∧ has_char NUL n = false ∧
  existsb bad_segment (split_on SLASH n) = false ∧ test drive n = false.
Proof.
  unfold normalizeCandidatePath. cbv zeta. rewrite throw_if_bind. set (s := strip_slash value). clearbody s. split.
  - destruct (_ || _) eqn:E; [done|]. intros [= <-]. rewrite !orb_false_iff in E. tauto.
  - intros (-> & H1 & H2 & H3 & H4 & H5). rewrite H1, H2, H3, H4, H5, !orb_false_r.
    case_bool_decide as He; [|done]. rewrite He in H4. discriminate H4.
Qed.

Lemma strip_slash_cases s : strip_slash s = s ∨ s = strip_slash s +:+ String SLASH "".
Proof.
  induction s as [|c [|d s] IH]; [by left|..].
  - cbn [strip_slash]. destruct (Ascii.eqb c SLASH) eqn:E; [|by left]. apply Ascii.eqb_eq in E as ->. by right.
  - change (strip_slash (String c (String d s))) with (String c (strip_slash (String d s))).
    destruct IH as [IH|IH]; [left; by rewrite IH|right]. rewrite append_String. by rewrite <-IH.
Qed.

(** Normalizing is idempotent. *)
Lemma normalize_idem value n : normalizeCandidatePath value = Ok n → normalizeCandidatePath n = Ok n.
Proof.
  intros (_ & H1 & H2 & H3 & H4 & H5)%normalize_Ok. apply normalize_Ok. split; [|done].
  destruct (strip_slash_cases n) as [|E]; [done|]. rewrite E, split_app, existsb_app in H4. cbn in H4.
  by rewrite orb_true_r in H4.
Qed.

Definition proper_segment (p : string) : Prop := bad_segment p = false ∧ has_char SLASH p = false.

(** [value] names the path of these segments. *)
Definition names (value : string) (ps : list string) : Prop :=
  normalizeCandidatePath value = Ok (join_with SLASH ps) ∧ ps ≠ [] ∧ Forall proper_segment ps.

Lemma names_split value ps : names value ps ↔ ∃ n, normalizeCandidatePath value = Ok n ∧ ps = split_on SLASH n.
Proof.
  split.
  - intros (Hn & Hne & Hp). exists (join_with SLASH ps). split; [done|]. symmetry. apply split_join; [done|].
    eapply Forall_impl; [exact Hp|]. by intros p [_ H].
  - intros (n & Hn & ->). split; [by rewrite join_split|]. split; [apply split_on_nonempty|].
    apply normalize_Ok in Hn as (_ & _ & _ & _ & Hb & _). apply Forall_forall. intros p Hp. split.
    + exact (proj1 (existsb_false _ _) Hb p Hp).
    + exact (proj1 (Forall_forall _ _) (split_segments SLASH n) p Hp).
Qed.

Lemma normalize_all_Ok values ns : normalize_all values = Ok ns →
  (∀ v, v ∈ values → ∃ n, normalizeCandidatePath v = Ok n) ∧
  ∀ n, n ∈ ns ↔ ∃ v, v ∈ values ∧ normalizeCandidatePath v = Ok n.
Proof.
  revert ns. induction values as [|v values IH]; intros ns H; cbn in H; inv_ok.
  - split; [by intros v ?%not_elem_of_nil|]. intros n. split; [by intros ?%not_elem_of_nil|]. by intros (v & ?%not_elem_of_nil & _).
  - destruct (IH _ H1) as [IH1 IH2]. split; [intros v' [->|Hv]%elem_of_cons; eauto|]. intros n. rewrite elem_of_cons, IH2. split.
    + intros [->|(v' & Hv & Hn)]; [exists v; split; [by left|done]|exists v'; split; [by right|done]].
    + intros (v' & [->|Hv]%elem_of_cons & Hn); [left; congruence|right; by exists v'].
Qed.

Lemma normalize_all_total values :
  (∀ v, v ∈ values → ∃ n, normalizeCandidatePath v = Ok n) → ∃ ns, normalize_all values = Ok ns.
Proof.
  induction values as [|v values IH]; intros H; [by exists []|]. destruct (H v) as [n Hn]; [by left|].
  destruct IH as [ns Hns]; [intros v' Hv; apply H; by right|]. exists (n :: ns). cbn. by rewrite Hn, Hns.
Qed.

Lemma scopes_Ok scopes allowed : normalizeCandidateScopes scopes = Ok allowed →
  scopes ≠ [] ∧ (∀ s, s ∈ scopes → ∃ n, normalizeCandidatePath s = Ok n) ∧
  ∀ a, a ∈ allowed ↔ ∃ s, s ∈ scopes ∧ normalizeCandidatePath s = Ok a.
Proof.
  unfold normalizeCandidateScopes. intros H. inv_ok. apply bool_decide_eq_false in Heqb.
  apply normalize_all_Ok in H0 as [H1 H2]. do 2 (split; [done|]). intros a.
  rewrite sort_strings_elem, (proj2 (unique_spec _)). apply H2.
Qed.

(** Paths are within scopes exactly when every scope and every path names
    segments, none of them empty, a dot or two dots, and the segments of each
    path begin with those of a scope: no path leaves its scope, and a name that
    merely starts with the text of a scope is outside. *)
Theorem scopes_contain paths scopes :
  candidatePathsWithinScopes paths scopes = Ok true ↔
  scopes ≠ [] ∧ (∀ s, s ∈ scopes → ∃ ps, names s ps) ∧
  ∀ p, p ∈ paths → ∃ qs, names p qs ∧ ∃ s ps, s ∈ scopes ∧ names s ps ∧ ps `prefix_of` qs.
Proof.
  assert (∀ relative allowed, existsb (within_scope relative) allowed = true ↔
    ∃ a, a ∈ allowed ∧ split_on SLASH a `prefix_of` split_on SLASH relative) as Hw.
  { intros relative allowed. rewrite existsb_elem. f_equiv. intros a. unfold within_scope.
    rewrite orb_true_iff, bool_decide_eq_true, startsWith_spec, <-prefix_segments. done. }
  assert (∀ paths allowed, every_within paths allowed = Ok true ↔
    ∀ p, p ∈ paths → ∃ n, normalizeCandidatePath p = Ok n ∧ existsb (within_scope n) allowed = true) as He.
  { clear paths scopes. intros paths allowed. induction paths as [|p paths IH]; cbn.
    - split; [by intros _ p ?%not_elem_of_nil|done].
    - destruct (normalizeCandidatePath p) as [n|x] eqn:E; cbn.
      + destruct (existsb _ _) eqn:Ex.
        * rewrite IH. split; [intros H q [->|Hq]%elem_of_cons; eauto|intros H q Hq; apply H; by right].
        * split; [done|]. intros H. destruct (H p) as (n' & Hn & Hx); [by left|]. congruence.
      + split; [done|]. intros H. destruct (H p) as (n' & Hn & Hx); [by left|]. congruence. }
  unfold candidatePathsWithinScopes. rewrite result_bind_Ok. split.
  - intros (allowed & Ha & Hp). destruct (scopes_Ok _ _ Ha) as (H1 & H2 & H3). split; [done|]. split.
    { intros s Hs. destruct (H2 _ Hs) as [n Hn]. exists (split_on SLASH n). apply names_split. by exists n. }
    intros p Hin. destruct (proj1 (He _ _) Hp p Hin) as (n & Hn & (a & (s & Hs & Hsa)%H3 & Hpre)%Hw).
    exists (split_on SLASH n). split; [apply names_split; by exists n|]. exists s, (split_on SLASH a).
    split; [done|]. split; [apply names_split; by exists a|done].
  - intros (Hne & Hs & Hp). destruct (normalize_all_total scopes) as [ns Hns].
    { intros s Hin. destruct (Hs _ Hin) as (ps & (n & Hn & _)%names_split). by exists n. }
    assert (normalizeCandidateScopes scopes = Ok (sort_strings (unique ns))) as Hallowed.
    { unfold normalizeCandidateScopes. by rewrite bool_decide_eq_false_2, Hns. }
    eexists. split; [exact Hallowed|]. apply He. intros p Hin. destruct (Hp p Hin) as (qs & (n & Hn & ->)%names_split & s & ps & Hs' & (a & Ha & ->)%names_split & Hpre).
    exists n. split; [done|]. apply Hw. exists a. split; [|done]. apply (scopes_Ok _ _ Hallowed). by exists s.
Qed.

(** ** What the protected patterns recognize *)
Fixpoint lower_string (s : string) : string :=
  match s with EmptyString => "" | String c s => String (lower c) (lower_string s) end.

(** The character before the cursor after reading [u]. *)
Fixpoint read_before (before : option ascii) (u : string) : option ascii :=
  match u with EmptyString => before | String c u => read_before (Some c) u end.

(** [k'] is [k] after reading [u]. *)
Definition reads_text (u : string) (k k' : cursor) : Prop :=
  cur_after k = u +:+ cur_after k' ∧ cur_before k' = read_before (cur_before k) u.

Lemma lower_upper d : lower (upper d) = lower d.
Proof. destruct d as [[] [] [] [] [] [] [] []]; vm_compute; reflexivity. Qed.

Lemma any_case_lower c d : lower c = c → any_case (Ascii.eqb c) d = true ↔ lower d = c.
Proof.
  intros Hc. unfold any_case. rewrite orb_true_iff, !Ascii.eqb_eq. split; [|by left].
  intros [->|Hu]; [done|]. by rewrite <-(lower_upper d), <-Hu.
Qed.

Lemma after_reads s k : after (mkCursor None s) k ↔ ∃ a, reads_text a (mkCursor None s) k.
Proof.
  unfold reads_text. cbn [cur_after cur_before]. generalize (@None ascii). intros b. split.
  - remember (mkCursor b s) as k0 eqn:E. intros Ha. revert b s E. induction Ha as [k|b c rest k _ IH]; intros b0 s E.
    + subst k. by exists "".
    + injection E as <- <-. destruct (IH (Some c) rest eq_refl) as (a & -> & Hb). exists (String c a). done.
  - intros (a & -> & Hb). revert b Hb. induction a as [|c a IH]; intros b Hb; cbn in Hb.
    + destruct k as [b' r]. cbn in Hb. subst b'. apply after_here.
    + rewrite append_String. apply after_char. by apply IH.
Qed.

Lemma matches_literal w k k' : lower_string w = w →
  matches (ignore_case (literal w)) k k' ↔ ∃ u, lower_string u = w ∧ reads_text u k k'.
Proof.
  revert k. induction w as [|c w IH]; intros k Hw; cbn [literal ignore_case].
  - split; [inversion 1; subst; by exists ""|]. intros ([|d u] & Hu & Ha & Hb); [|done].
    destruct k, k'. cbn in *. subst. constructor.
  - cbn in Hw. apply String_inv in Hw as [Hc Hw]. split.
    + intros H. inversion H as [| |? ? ? k1 ? H1 H2| | | | | | |]; subst. inversion H1 as [|? b d rest Hd| | | | | | | |]; subst.
      apply any_case_lower in Hd; [|done]. apply IH in H2 as (u & Hu & Ha & Hb); [|done]. cbn in Ha, Hb.
      exists (String d u). split; [cbn; by rewrite Hd, Hu|]. split; [cbn; by rewrite Ha|done].
    + intros ([|d u] & Hu & Ha & Hb); [done|]. cbn in Hu. apply String_inv in Hu as [Hd Hu]. destruct k as [b s]. cbn in Ha, Hb. subst s.
      rewrite append_String. eapply matches_seq; [by apply matches_chr, any_case_lower|]. apply IH; [done|]. by exists u.
Qed.

(** [r] matches exactly these words, in any case. *)
Definition spells (r : regex) (ws : list string) : Prop :=
  ∀ k k', matches (ignore_case r) k k' ↔ ∃ w, w ∈ ws ∧ matches (ignore_case (literal w)) k k'.

Lemma spells_literal w : spells (literal w) [w].
Proof. intros k k'. split; [intros H; exists w; split; [by left|done]|by intros (? & ->%list_elem_of_singleton & H)]. Qed.

Lemma lower_string_app u t : lower_string (u +:+ t) = lower_string u +:+ lower_string t.
Proof. induction u as [|c u IH]; [done|]. rewrite append_String. cbn. rewrite append_String. by f_equal. Qed.

Lemma read_before_app o u t : read_before o (u +:+ t) = read_before (read_before o u) t.
Proof. revert o. induction u as [|c u IH]; intros o; [done|]. rewrite append_String. cbn. apply IH. Qed.

Lemma reads_text_app u t k k' : reads_text (u +:+ t) k k' ↔ ∃ k1, reads_text u k k1 ∧ reads_text t k1 k'.
Proof.
  unfold reads_text. rewrite read_before_app, append_assoc. split.
  - intros [Ha Hb]. by exists (mkCursor (read_before (cur_before k) u) (t +:+ cur_after k')).
  - intros (k1 & [H1 H2] & H3 & H4). split; [by rewrite <-H3|]. by rewrite H4, H2.
Qed.

Lemma lower_string_split u w v : lower_string u = w +:+ v →
  ∃ u1 u2, u = u1 +:+ u2 ∧ lower_string u1 = w ∧ lower_string u2 = v.
Proof.
  revert u. induction w as [|c w IH]; intros u Hu; [by exists "", u|]. rewrite append_String in Hu.
  destruct u as [|d u]; [done|]. cbn in Hu. apply String_inv in Hu as [Hd Hu].
  destruct (IH _ Hu) as (u1 & u2 & -> & H1 & H2). exists (String d u1), u2. split; [done|]. split; [cbn; by rewrite Hd, H1|done].
Qed.

(** A sequence of two words is one word. *)
Lemma literal_app w v k k' : lower_string w = w → lower_string v = v →
  matches (ignore_case (literal (w +:+ v))) k k' ↔ matches (ignore_case (Seq (literal w) (literal v))) k k'.
Proof.
  intros Hw Hv. rewrite matches_literal by (by rewrite lower_string_app, Hw, Hv). split.
  - intros (u & (u1 & u2 & -> & H1 & H2)%lower_string_split & (k1 & Hr1 & Hr2)%reads_text_app).
    eapply matches_seq; (apply matches_literal; [done|]); [by exists u1|by exists u2].
  - inversion 1 as [| |? ? ? k1 ? H1 H2| | | | | | |]; subst. apply matches_literal in H1 as (u1 & Hu1 & Hr1); [|done].
    apply matches_literal in H2 as (u2 & Hu2 & Hr2); [|done]. exists (u1 +:+ u2).
    split; [by rewrite lower_string_app, Hu1, Hu2|]. apply reads_text_app. by exists k1.
Qed.

Lemma spells_plural w : lower_string w = w → spells (plural w) [w; w +:+ "s"].
Proof.
  intros Hw k k'. split.
  - inversion 1 as [| |? ? ? k1 ? H1 H2| | | | | | |]; subst. inversion H2 as [| | |? ? ? ? H3|? ? ? ? H3| | | | |]; subst.
    + exists (w +:+ "s"). split; [by right; left|]. apply literal_app; [done..|]. by eapply matches_seq.
    + inversion H3; subst. exists w. split; [by left|done].
  - intros (v & [->|Hv%list_elem_of_singleton]%elem_of_cons & H).
    + eapply matches_seq; [exact H|]. apply matches_right. constructor.
    + subst v. apply literal_app in H; [|done..]. inversion H as [| |? ? ? k1 ? H1 H2| | | | | | |]; subst.
      eapply matches_seq; [exact H1|]. by apply matches_left.
Qed.

Lemma spells_alternatives rs ws : Forall2 spells rs ws → spells (alternatives rs) (concat ws).
Proof.
  induction 1 as [|r l rs ws Hr Hrs IH]; intros k k'.
  - split; [by inversion 1|by intros (? & ?%not_elem_of_nil & _)].
  - assert (matches (ignore_case (alternatives (r :: rs))) k k' ↔
      matches (ignore_case r) k k' ∨ matches (ignore_case (alternatives rs)) k k') as ->.
    { destruct rs as [|r' rs]; cbn [alternatives ignore_case].
      - split; [by left|]. intros [H|H]; [done|]. by inversion H.
      - split; [inversion 1; subst; auto|]. intros [H|H]; [by apply matches_left|by apply matches_right]. }
    rewrite (Hr k k'), (IH k k'). cbn [concat]. setoid_rewrite elem_of_app. naive_solver.
Qed.

Definition PROTECTED_NAMES : list string :=
  ["identity"; "authorization"; "secret"; "secrets"; "audit"; "trust-root";
   "model-disclosure"; "upgrade"; "capabilitie"; "capabilities"].

Lemma lower_slash s : has_char SLASH (lower_string s) = has_char SLASH s.
Proof.
  unfold has_char. f_equal. induction s as [|c s IH]; [done|]. cbn. rewrite IH. f_equal.
  clear. destruct c as [[] [] [] [] [] [] [] []]; reflexivity.
Qed.

Lemma matches_slash k k' : matches (ignore_case (literal "/")) k k' ↔ reads_text "/" k k'.
Proof.
  rewrite matches_literal by done. split; [|by exists "/"]. intros (u & Hu & Hr). assert (u = "/") as <-; [|done].
  destruct u as [|c [|d u]]; [done| |done]. cbn in Hu. apply String_inv in Hu as [Hc _]. f_equal.
  clear -Hc. by destruct c as [[] [] [] [] [] [] [] []].
Qed.

(** A segment lies between two slashes or ends of the text. *)
Definition ends_slash (a : string) : Prop := a = "" ∨ ∃ a', a = a' +:+ "/".
Definition begins_slash (b : string) : Prop := b = "" ∨ ∃ b', b = String SLASH b'.

Lemma segment_between s p : has_char SLASH p = false →
  p ∈ split_on SLASH s ↔ ∃ a b, s = a +:+ p +:+ b ∧ ends_slash a ∧ begins_slash b.
Proof.
  intros Hp. split.
  - intros (l1 & l2 & Hl)%list_elem_of_split. rewrite <-(join_split SLASH s), Hl. clear Hl s.
    assert (∃ b, join_with SLASH (p :: l2) = p +:+ b ∧ begins_slash b) as (b & Hb & Hbs).
    { destruct l2 as [|q l2]; [exists ""; rewrite append_nil_r; split; [done|by left]|]. rewrite join_cons by done.
      eexists. split; [done|]. right. by eexists. }
    destruct (decide (l1 = [])) as [->|Hne]; [exists "", b; rewrite app_nil_l; split; [done|]; split; [by left|done]|].
    rewrite join_app, Hb by done. exists (join_with SLASH l1 +:+ "/"), b. split; [by rewrite append_assoc|].
    split; [right; by eexists|done].
  - intros (a & b & -> & Ha & Hb). assert (p ∈ split_on SLASH (p +:+ b)) as Hpb.
    { destruct Hb as [->|[b' ->]]; [rewrite append_nil_r|rewrite split_app]; rewrite (split_segment SLASH p Hp); [|apply elem_of_app; left]; by left. }
    destruct Ha as [->|[a' ->]]; [done|]. rewrite append_assoc. change ("/" +:+ p +:+ b) with (String SLASH (p +:+ b)).
    rewrite split_app. apply elem_of_app. by right.
Qed.

(** The cursor at the beginning of a segment. *)
Lemma matches_before k k1 s a : reads_text a (mkCursor None s) k → matches (ignore_case (Alt Begin (literal "/"))) k k1 →
  ∃ a', s = a' +:+ cur_after k1 ∧ ends_slash a'.
Proof.
  intros [Ha Hb] H. cbn in Ha, Hb. inversion H as [| | |? ? ? ? H1|? ? ? ? H1| | | | |]; subst.
  - inversion H1; subst. exists "". split; [|by left]. destruct a as [|c a]; [done|]. exfalso.
    assert (∀ a o, o ≠ None → read_before o a ≠ None) as Hr by (clear; induction a; intros; cbn; [done|by auto]).
    cbn in Hb. apply (Hr a (Some c)); [done|congruence].
  - apply matches_slash in H1 as [Hk _]. exists (a +:+ "/"). rewrite Hk. split; [by rewrite append_assoc|]. right. by exists a.
Qed.

Lemma matches_after_segment k : (∃ k', matches (ignore_case (Alt (literal "/") End)) k k') ↔ begins_slash (cur_after k).
Proof.
  split.
  - intros (k' & H). inversion H as [| | |? ? ? ? H1|? ? ? ? H1| | | | |]; subst.
    + apply matches_slash in H1 as [Hk _]. right. by eexists.
    + inversion H1; subst. by left.
  - intros [He|[b He]]; destruct k as [o t]; cbn in He; subst t.
    + exists (mkCursor o ""). apply matches_right. by apply matches_end.
    + exists (mkCursor (Some SLASH) b). by apply matches_left, matches_slash.
Qed.

(** A pattern of protected words occurs when a segment is one of the words, in any case. *)
Lemma segment_of_spec rs ws s : spells (alternatives rs) ws →
  Forall (λ w, lower_string w = w ∧ has_char SLASH w = false) ws →
  occurs (segment_of rs) s ↔ ∃ p, p ∈ split_on SLASH s ∧ lower_string p ∈ ws.
Proof.
  intros Hs Hw. rewrite Forall_forall in Hw. unfold occurs, segment_of. cbn [sequence ignore_case]. split.
  - intros (k & k' & Hk & H). apply after_reads in Hk as (a & Ha).
    inversion H as [| |? ? ? k1 ? H1 H2| | | | | | |]; subst. inversion H2 as [| |? ? ? k2 ? H3 H4| | | | | | |]; subst.
    apply (matches_before _ _ _ _ Ha) in H1 as (a' & -> & Ha').
    apply Hs in H3 as (w & Hin & Hm). destruct (Hw _ Hin) as [Hl Hsl]. apply matches_literal in Hm as (u & <- & Hu & _); [|done].
    exists u. split; [|done]. apply segment_between; [by rewrite <-lower_slash|]. exists a', (cur_after k2).
    split; [by rewrite Hu|]. split; [done|]. apply matches_after_segment. by exists k'.
  - intros (p & Hp & Hin). destruct (Hw _ Hin) as [Hl Hsl]. rewrite lower_slash in Hsl.
    apply (segment_between _ _ Hsl) in Hp as (a & b & -> & Ha & Hb).
    assert (∀ k, cur_after k = p +:+ b → ∃ k', matches (Seq (ignore_case (alternatives rs)) (ignore_case (Alt (literal "/") End))) k k') as Hrest.
    { intros k Hk. destruct (proj2 (matches_after_segment (mkCursor (read_before (cur_before k) p) b)) Hb) as [k' Hk']. exists k'.
      eapply matches_seq; [|exact Hk']. apply Hs. exists (lower_string p). split; [done|]. apply matches_literal; [done|]. by exists p. }
    destruct Ha as [->|[a' ->]].
    + destruct (Hrest (mkCursor None (p +:+ b)) eq_refl) as [k' Hk']. exists (mkCursor None (p +:+ b)), k'.
      split; [apply after_here|]. eapply matches_seq; [|exact Hk']. apply matches_left. by apply matches_begin.
    + destruct (Hrest (mkCursor (Some SLASH) (p +:+ b)) eq_refl) as [k' Hk'].
      exists (mkCursor (read_before None a') (String SLASH (p +:+ b))), k'. split.
      * apply after_reads. exists a'. split; [by rewrite append_assoc|done].
      * eapply matches_seq; [|exact Hk']. by apply matches_right, matches_slash.
Qed.

Ltac spelled := repeat first [apply Forall2_nil | apply Forall2_cons; split; [first [apply spells_literal | by apply spells_plural]|]].

(** A path is protected exactly when one of its segments is, in any case, one
    of the protected names. *)
Theorem protected_roots path :
  is_protected path = true ↔ ∃ p, p ∈ split_on SLASH path ∧ lower_string p ∈ PROTECTED_NAMES.
Proof.
  unfold is_protected, PROTECTED_ROOT_PATTERNS. cbn [existsb]. rewrite orb_false_r, orb_true_iff, !test_spec.
  assert (∀ rs ws, Forall2 spells rs ws → forallb (λ w, (lower_string w === w) && negb (has_char SLASH w)) (concat ws) = true →
    occurs (segment_of rs) path ↔ ∃ p, p ∈ split_on SLASH path ∧ lower_string p ∈ concat ws) as Hspec.
  { intros rs ws Hs Hw. apply segment_of_spec; [by apply spells_alternatives|]. apply Forall_forall. intros w Hin.
    rewrite forallb_elem in Hw. specialize (Hw w Hin). by guards. }
  rewrite (Hspec _ [["identity"]; ["authorization"]; ["secret"; "secrets"]; ["audit"]; ["trust-root"]]); [|by spelled|done].
  rewrite (Hspec _ [["model-disclosure"]; ["upgrade"]; ["capabilitie"; "capabilities"]]); [|by spelled|done].
  assert (∀ l1 l2 : list string, l1 ++ l2 = PROTECTED_NAMES →
    (∃ p, p ∈ split_on SLASH path ∧ lower_string p ∈ l1) ∨ (∃ p, p ∈ split_on SLASH path ∧ lower_string p ∈ l2) ↔
    ∃ p, p ∈ split_on SLASH path ∧ lower_string p ∈ PROTECTED_NAMES) as H.
  { intros l1 l2 <-. setoid_rewrite elem_of_app. naive_solver. }
  by apply H.
Qed.

(** The singular is no protected name. *)
Example capability_unprotected : is_protected <$> ["src/capability"; "src/Capabilities/a"; "src/audited"] = [false; true; false].
Proof. vm_compute. reflexivity. Qed.
