(* ===== verification/ProactivityBed.v ===== *)
(** A concrete world for the suggestion service: the durable adapter over the
    in-memory store, a table of Tasks, an inbox, a clock and identifiers, with
    one time zone; and the theorems of SuggestionRuns.v and SuggestionAdapter.v
    on the suggestions of a sample day. *)
From S2P Require Import Prelude Js JsDate JsJson JsParse Identifiers Contract AuthTypes.
From S2P Require Import Deterministic InMemoryAuth Persistence DurableEntities Delegation WorkspaceService.
From S2P Require Import SuggestionService SuggestionContract SuggestionRuns SuggestionAdapter.
From S2P Require Import MachineSecrets Reflection ReflectionRuns.
Local Open Scope Z_scope.

Record SuggestionWorld := mkSuggestionWorld {
  sb_store : InMemoryStateStore; sb_tasks : gmap string string; sb_inbox : list string; sb_now : string;
  sb_ids : DeterministicIdGenerator }.

#[global] Instance eta_SuggestionWorld : Eta SuggestionWorld := λ r,
  mkSuggestionWorld (sb_store r) (sb_tasks r) (sb_inbox r) (sb_now r) (sb_ids r).

Definition two_digits (n : Z) : string := (if n <? 10 then "0" else "") +:+ pretty n.

(** One zone, without offset. *)
#[export] Instance utc_zone : TimeZones := {|
  zone_known zone := zone === "UTC";
  zone_date _ t := let c := civilFromDay (t / msPerDay) in
    (pretty (c_year c), two_digits (c_month c), two_digits (c_day c));
|}.

#[export] Instance sb_digest : HostFileDigestPort := λ text, text.

#[export] Instance sb_store_port : StateStorePort SuggestionWorld := {|
  store_read k := zoom sb_store (λ s w, w <| sb_store := s |>) (store_read k);
  compareAndSet i := zoom sb_store (λ s w, w <| sb_store := s |>) (compareAndSet i);
|}.
#[export] Instance sb_clock : ClockPort SuggestionWorld := gets sb_now.
#[export] Instance sb_ids_port : IdGeneratorPort SuggestionWorld := λ ns,
  zoom sb_ids (λ i w, w <| sb_ids := i |>) (Deterministic.next ns).
#[export] Instance sb_delivery : SuggestionDeliveryPort SuggestionWorld := λ _ key _,
  modify (λ w, w <| sb_inbox := sb_inbox w ++ [key] |>) ;; mret ("inbox:" +:+ key).
#[export] Instance sb_creation : SuggestionTaskCreationPort SuggestionWorld := λ input w,
  match sb_tasks w !! ot_idempotencyKey input with
  | Some taskRef => (Ok taskRef, w)
  | None => let taskRef := "task-of-" +:+ ot_suggestionId input in
            (Ok taskRef, w <| sb_tasks := <[ot_idempotencyKey input := taskRef]> (sb_tasks w) |>)
  end.

Definition sb_pair (w : SuggestionWorld) : store_state * gmap string string := (ss_view (sb_store w), sb_tasks w).

(** ** It keeps to the promises *)
Lemma sb_zoom {A} step (effect : A → store_state → store_state → Prop) (m : M exn InMemoryStateStore A) :
  gen_op_law (λ _ _, False) ss_view (λ _, True) effect m →
  gen_op_law step sb_pair (λ _, True) (λ r p p', effect r p.1 p'.1 ∧ p'.2 = p.2)
    (zoom sb_store (λ s w, w <| sb_store := s |>) m).
Proof.
  intros Hm w r w' _ H. unfold zoom in H. destruct (m (sb_store w)) as [r0 s0] eqn:E. injection H as <- <-.
  split; [done|]. exists (sb_pair w). split; [done|]. destruct (Hm _ _ _ I E) as (_ & s & Hs & He).
  assert (s = ss_view (sb_store w)) as ->. { destruct Hs as [|? ? ? []]. done. }
  destruct r0; [done|]. unfold sb_pair. cbn. by rewrite He.
Qed.

Lemma sb_read step k : gen_op_law step sb_pair (λ _, True) (gen_reads (λ o p, o = p.1 !! k)) (store_read k).
Proof.
  intros w r w' Hi H. destruct (sb_zoom step _ _ (law_store_read k) w r w' Hi H) as (Hi' & p & Hp & He).
  split; [done|]. exists p. split; [done|]. destruct r; [|done]. destruct He as [[He H1] H2]. split; [done|].
  destruct p. cbn in *. unfold sb_pair in *. cbn in *. congruence.
Qed.

Lemma sb_cas step input : gen_op_law step sb_pair (λ _, True)
  (λ r p p', store_cas input r p.1 p'.1 ∧ p'.2 = p.2) (compareAndSet input).
Proof. exact (sb_zoom step _ _ (law_store_cas input)). Qed.

Abbreviation sb_step := (suggestion_step "owner-1" "agent-1").
Abbreviation sb_view := (adapter_view "owner-1" "agent-1" sb_pair).
Abbreviation sb_inv := (adapter_inv "owner-1" "agent-1" sb_pair (λ _, True)).

#[export] Instance sb_state_laws maximum : ProactivityStateLaws "owner-1" "agent-1" maximum sb_view sb_inv.
Proof.
  constructor.
  - apply adapter_read. intros k. apply sb_read.
  - intros revision st Ho Ha. apply adapter_cas; [|done|done]. intros input. apply sb_cas.
Qed.

(** Calls that leave the store and the Tasks alone. *)
Lemma sb_frame {A} maximum (m : M exn SuggestionWorld A) :
  (∀ w, sb_pair (m w).2 = sb_pair w) → gen_frame_law (sb_step maximum) sb_view sb_inv m.
Proof.
  intros Hm w r w' Hi H. specialize (Hm w). rewrite H in Hm. cbn [snd] in Hm.
  unfold adapter_inv, adapter_view in *. by rewrite Hm.
Qed.

#[export] Instance sb_port_laws maximum : SuggestionPortLaws "owner-1" "agent-1" maximum sb_view sb_inv.
Proof.
  constructor.
  - intros input w r w' [_ Hok] Hp H. unfold createOrdinaryTask, sb_creation in H.
    destruct (sb_tasks w !! ot_idempotencyKey input) as [t|] eqn:E; injection H as <- <-; [done|].
    split; [done|]. split; [|exact (lookup_insert_eq _ _ _)]. apply rtc_once.
    exact (step_task "owner-1" "agent-1" maximum (sb_view w) _ _ E Hp).
  - intros c key ref. by apply sb_frame.
  - by apply sb_frame.
  - intros prefix. apply sb_frame. intros w. unfold ids_next, sb_ids_port, zoom. by destruct (Deterministic.next prefix (sb_ids w)).
Qed.

(** ** A sample day *)
Definition sample_task : SuggestionTaskDraft := mkTaskDraft "goal-1" [] sensitive 100 "UTC" 60000.

Definition draft_of (kind : string) : ReflectionCandidateDraft :=
  mkDraft kind "title-1" "body-1" ["evidence-2"; "evidence-1"] "watermark-1" None None sample_task 900 500 "entity-1"
    "action-1" 1 [] "2026-01-03T00:00:00.000Z".

Definition proposal_of (kind : string) : ProposeInput := mkPropose "owner-1" "agent-1" "run-1" "trace-1" (draft_of kind) None.

Definition response_to (id : string) (d : SuggestionDecision) (key : string) : SuggestionResponse :=
  mkSuggestionResponse "owner-1" "agent-1" id d key (Some 2).

Definition morning : SuggestionWorld :=
  mkSuggestionWorld (new_state_store NO_FAILURES) ∅ [] "2026-01-01T09:00:00.000Z" [].

(** Two suggestions, the second one proposed twice; then the first is approved. *)
Definition morning_calls : list suggestion_call :=
  [call_propose (proposal_of "kind-1"); call_propose (proposal_of "kind-2"); call_propose (proposal_of "kind-2");
   call_respond (response_to "suggestion-0001" approve_suggestion "answer-1")].

Definition after_morning : SuggestionWorld := (run_calls "owner-1" "agent-1" morning_calls morning).2.

Definition one_task : gmap string string :=
  {[ "suggestion:owner-1:agent-1:suggestion-0001:task" := "task-of-suggestion-0001" ]}.

Example morning_sample :
  (λ c, (sg_id c, sg_revision c, sg_status c, sg_taskRef c)) <$> suggestions (sb_view after_morning) =
    [("suggestion-0001", 4, suggestion_approved, Some "task-of-suggestion-0001");
     ("suggestion-0002", 2, suggestion_delivered, None)] ∧
  bool_decide (sb_tasks after_morning = one_task) = true ∧
  sb_inbox after_morning = ["suggestion-0001"; "suggestion-0002"].
Proof. vm_compute. repeat split. Qed.

(** The fourth suggestion of the day finds the quota spent; a repeated answer changes nothing, a different one throws. *)
Definition third_day : SuggestionWorld :=
  (run_calls "owner-1" "agent-1" [call_propose (proposal_of "kind-3")] after_morning).2.

Example quota_sample : (propose (proposal_of "kind-4") third_day).1 = Ok proposal_quota_exhausted.
Proof. vm_compute. reflexivity. Qed.

Example answers_sample :
  (suggestion_respond (response_to "suggestion-0001" approve_suggestion "answer-1") after_morning).2 = after_morning ∧
  (suggestion_respond (response_to "suggestion-0001" reject_suggestion "answer-1") after_morning) =
    (Err key_changed_decision, after_morning).
Proof. vm_compute. repeat split. Qed.

Abbreviation sb_sound := (suggestions_sound "owner-1" "agent-1" 3).

Lemma sound_morning : sb_inv morning ∧ sb_sound (sb_view morning).
Proof.
  assert (suggestions (sb_view morning) = []) as He by reflexivity.
  split; [split; [done|]; intros r Hr; discriminate Hr|]. split; rewrite ?He.
  - done.
  - constructor.
  - intros d [=].
  - intros i c Hi. by rewrite lookup_nil in Hi.
  - intros i j c c' _ Hi. by rewrite lookup_nil in Hi.
  - intros key t Hk. discriminate Hk.
  - intros c t Hc. by apply not_elem_of_nil in Hc.
Qed.

Lemma sound_after cs : Forall (call_valid "owner-1" "agent-1" 3) cs →
  let w := (run_calls "owner-1" "agent-1" cs morning).2 in sb_inv w ∧ sb_sound (sb_view w).
Proof.
  intros Hcs w. subst w. destruct (run_calls _ _ cs morning) as [r w] eqn:E. destruct sound_morning as [Hi Hs].
  destruct (run_calls_triple "owner-1" "agent-1" 3 sb_view sb_inv cs Hcs _ _ _ Hi Hs E) as (Hi' & Hsteps & _).
  split; [done|]. exact (stable_rtc (sb_step 3) sb_sound _ _ Hs Hsteps).
Qed.

Lemma valid_morning : Forall (call_valid "owner-1" "agent-1" 3) morning_calls.
Proof. repeat constructor; vm_compute; congruence. Qed.

Lemma valid_proposals : Forall (call_valid "owner-1" "agent-1" 3) (take 3 morning_calls).
Proof. exact (Forall_take _ _ _ valid_morning). Qed.

Definition proposed : SuggestionWorld := (run_calls "owner-1" "agent-1" (take 3 morning_calls) morning).2.

Lemma suggestions_stay_sound_witness :
  sb_inv after_morning ∧ sb_sound (sb_view after_morning) ∧
  ∀ zone day, named_count zone day (suggestions (sb_view after_morning)) ≤ Z.max 0 3.
Proof.
  unfold after_morning. destruct sound_morning as [Hi Hs].
  destruct (run_calls "owner-1" "agent-1" morning_calls morning) as [r w'] eqn:E.
  exact (suggestions_stay_sound "owner-1" "agent-1" 3 sb_view sb_inv _ _ _ _ valid_morning Hi Hs E).
Defined.

Lemma respond_decides_witness :
  match suggestion_respond (response_to "suggestion-0001" approve_suggestion "answer-1") proposed with
  | (Ok c, w') => sg_status c = suggestion_approved ∧ ∃ key taskRef, sg_taskRef c = Some taskRef ∧ sb_tasks w' !! key = Some taskRef
  | _ => False
  end.
Proof.
  destruct (suggestion_respond _ proposed) as [[c|x] w'] eqn:E; [|vm_compute in E; discriminate E].
  destruct (sound_after _ valid_proposals) as [Hi Hs].
  destruct (respond_decides "owner-1" "agent-1" 3 sb_view sb_inv
    (response_to "suggestion-0001" approve_suggestion "answer-1") proposed c w' eq_refl eq_refl Hi Hs E) as (_ & Hst & Ht).
  split; [exact Hst|]. destruct (Ht eq_refl) as (key & t & _ & Hr & Hk). exists key, t. split; [exact Hr|exact Hk].
Defined.

Lemma expire_closes_witness :
  match suggestion_expire "owner-1" "agent-1" (Some "2026-01-04T00:00:00.000Z") proposed with
  | (Ok l, _) => length l = 2%nat ∧ Forall (λ c, str_le (sg_expiresAt c) "2026-01-04T00:00:00.000Z" = true →
      sg_status c ≠ suggestion_candidate ∧ sg_status c ≠ suggestion_delivered) l
  | _ => False
  end.
Proof.
  destruct (suggestion_expire _ _ _ proposed) as [[l|x] w'] eqn:E; [|vm_compute in E; discriminate E].
  destruct (sound_after _ valid_proposals) as [Hi Hs]. split.
  - vm_compute in E. injection E as <- _. reflexivity.
  - exact (expire_closes "owner-1" "agent-1" 3 sb_view sb_inv _ _ _ _ Hi Hs E).
Defined.

Lemma suggestion_decision_final_witness :
  (sg_status <$> suggestions (sb_view after_morning) !! 0%nat) = Some suggestion_approved ∧
  ∀ s', rtc (sb_step 3) (sb_view after_morning) s' →
    ∃ c', suggestions s' !! 0%nat = Some c' ∧ sg_status c' = suggestion_approved ∧ sg_taskRef c' = Some "task-of-suggestion-0001".
Proof.
  split; [vm_compute; reflexivity|]. intros s' Hs.
  destruct (suggestions (sb_view after_morning) !! 0%nat) as [c|] eqn:E; [|vm_compute in E; discriminate E].
  assert (sg_status c = suggestion_approved ∧ sg_taskRef c = Some "task-of-suggestion-0001") as [H1 H2].
  { vm_compute in E. injection E as <-. split; reflexivity. }
  destruct (suggestion_decision_final "owner-1" "agent-1" 3 _ s' 0%nat c Hs E (or_introl H1)) as (c' & Hc & Hst & _ & Ht).
  exists c'. split; [exact Hc|]. split; [congruence|]. exact (Ht _ H2).
Defined.

Definition stored_proactivity (w : SuggestionWorld) : ProactivityState := pv_state (sh_stored (sb_view w)).

Lemma proactivity_roundtrip_witness :
  length (ps_suggestions (stored_proactivity after_morning)) = 2%nat ∧
  ∃ o, JSON_parse (stringify (JObj (proactivity_object (stored_proactivity after_morning)))) = Some (JObj o) ∧
    proactivity_of_object o = Some (stored_proactivity after_morning).
Proof.
  split; [vm_compute; reflexivity|]. apply proactivity_roundtrip. vm_compute. split; constructor.
Defined.

Lemma durable_proactivity_refines_witness : ProactivityStateLaws "owner-1" "agent-1" 3 sb_view sb_inv.
Proof.
  apply durable_proactivity_refines; [intros k; apply sb_read|intros input; apply sb_cas].
Defined.

(** ** The theorems of ReflectionRuns.v on a sample reflection in the world of
    ProactivityBed.v, with a scripted context and a scripted model; and how the
    daily quota depends on the time zone a draft names. *)

(** ** The two ports *)
#[export] Instance scripted_context : ReflectionContextPort SuggestionWorld := λ _ _ _ _,
  mret (mkReflectionContext "context-1" "watermark-2" 4).

Definition scripted_model (answer : result exn ReflectionOutput) : ReflectionModelPort SuggestionWorld := λ _, lift answer.

Abbreviation rb_sound := (state_sound "owner-1" "agent-1" 3).

Lemma rb_reflection_laws answer :
  @ReflectionPortLaws _ "owner-1" "agent-1" 3 _ _ (scripted_model answer) sb_view sb_inv.
Proof.
  constructor.
  - intros o a after items. by apply sb_frame.
  - intros input w r w' Hi _ H. injection H as <- <-. split; [done|]. split; [done|]. by destruct answer.
Qed.

(** ** A sample reflection *)
Definition sample_definition : ReflectionDefinition :=
  mkReflectionDefinition "global-reflection" 1 "owner-1" "agent-1" "daily" "UTC" 3 10 500 60000 2 true.

Definition sample_output (metadata : string) : ReflectionOutput :=
  mkReflectionOutput true [draft_of "kind-1"; draft_of "kind-2"] 400 [("note", JStr metadata)].

Definition scheduled (at_ : string) (online : bool) : RunReflectionInput :=
  mkRunReflection "owner-1" "agent-1" "run-1" "trace-1" at_ online "watermark-1".

Definition schedule_1 : RunReflectionInput := scheduled "2026-01-01T08:00:00.000Z" true.

Section sample.
Context (answer : result exn ReflectionOutput).
#[local] Instance sample_model : ReflectionModelPort SuggestionWorld := scripted_model answer.

Definition configured : SuggestionWorld := (configure sample_definition morning).2.
Definition reflected (w : SuggestionWorld) : SuggestionWorld := (run_reflection schedule_1 w).2.
Definition reflected_thrice : SuggestionWorld := reflected (reflected (reflected configured)).
Definition reflection_calls : list autonomy_call := [call_configure sample_definition; call_reflection schedule_1].
Definition reflected_calls : SuggestionWorld := (run_autonomy "owner-1" "agent-1" reflection_calls morning).2.
End sample.

Definition seen_checkpoints (w : SuggestionWorld) :=
  (λ c, (rf_outcome c, rf_attempts c, rf_candidateRefs c, rf_costMicros c, rf_errorCode c)) <$> checkpoints (sb_view w).

(** Two suggestions are found and delivered; a second run changes nothing. *)
Example reflection_sample :
  let w := reflected (Ok (sample_output "fine")) (configured) in
  seen_checkpoints w = [(reflection_candidates, 1, ["suggestion-0001"; "suggestion-0002"], 400, None)] ∧
  sg_status <$> suggestions (sb_view w) = [suggestion_delivered; suggestion_delivered] ∧
  sb_store (reflected (Ok (sample_output "fine")) w) = sb_store w.
Proof. vm_compute. repeat split. Qed.

(** A model that fails, or that gives a secret away, is asked three times. *)
Example failing_model_sample :
  seen_checkpoints (reflected_thrice (Err (portError PROVIDER_FAILURE "no answer" []))) =
    [(reflection_failed, 3, [], 0, Some "PORT_PROVIDER_FAILURE")] ∧
  seen_checkpoints (reflected_thrice (Ok (sample_output "password=abcdefghijklmnop"))) =
    [(reflection_failed, 3, [], 0, Some "MACHINE_SECRET_EXCLUDED")] ∧
  seen_checkpoints (run_reflection (ReflectionModelPort0 := scripted_model (Ok (sample_output "")))
    (scheduled "2026-01-01T08:00:00.000Z" false) configured).2 = [(reflection_missed, 0, [], 0, None)].
Proof. vm_compute. repeat split. Qed.

(** ** The theorems on the sample *)
Lemma rb_sound_morning : sb_inv morning ∧ rb_sound (sb_view morning).
Proof.
  destruct sound_morning as [Hi Hs]. split; [done|]. split; [done|]. split; [apply NoDup_nil_2|constructor].
Qed.

Lemma valid_reflection_calls : Forall (autonomy_valid "owner-1" "agent-1" 3) reflection_calls.
Proof. repeat constructor; vm_compute; congruence. Qed.

Lemma reflections_stay_sound_witness :
  length (checkpoints (sb_view (reflected_calls (Ok (sample_output "fine"))))) = 1%nat ∧
  rb_sound (sb_view (reflected_calls (Ok (sample_output "fine")))) ∧
  ∀ zone day, named_count zone day (suggestions (sb_view (reflected_calls (Ok (sample_output "fine"))))) ≤ Z.max 0 3.
Proof.
  split; [vm_compute; reflexivity|]. unfold reflected_calls. destruct rb_sound_morning as [Hi Hs].
  pose proof (rb_reflection_laws (Ok (sample_output "fine"))) as Hlaws.
  destruct (run_autonomy "owner-1" "agent-1" reflection_calls morning) as [r w'] eqn:E.
  exact (proj2 (reflections_stay_sound "owner-1" "agent-1" 3 sb_view sb_inv _ _ _ _
    valid_reflection_calls Hi Hs E)).
Defined.

Definition morning_configured : SuggestionWorld := (configure sample_definition morning).2.

Lemma rb_sound_configured : sb_inv morning_configured ∧ rb_sound (sb_view morning_configured).
Proof.
  unfold morning_configured. destruct rb_sound_morning as [Hi Hs].
  pose proof (rb_reflection_laws (Ok (sample_output "fine"))) as Hlaws.
  destruct (configure sample_definition morning) as [r w'] eqn:E.
  destruct (configure_triple "owner-1" "agent-1" 3 sb_view sb_inv sample_definition eq_refl eq_refl (Z.le_refl 3) _ _ _ Hi Hs E) as (Hi' & Hsteps & _).
  split; [exact Hi'|]. exact (stable_rtc (sb_step 3) rb_sound (Stable0 := state_sound_stable _ _ _) _ _ Hs Hsteps).
Qed.

#[local] Instance fine_model : ReflectionModelPort SuggestionWorld := scripted_model (Ok (sample_output "fine")).

Lemma run_settles : match run_reflection schedule_1 morning_configured with
  (Ok c, _) => rf_outcome c = reflection_candidates | _ => False end.
Proof. vm_compute. reflexivity. Qed.

Lemma run_reflects_witness :
  match run_reflection schedule_1 morning_configured with
  | (Ok c, w') => rf_id c = "reflection:owner-1:agent-1:2026-01-01T08:00:00.000Z" ∧ c ∈ checkpoints (sb_view w')
  | _ => False
  end.
Proof.
  pose proof run_settles as Hset. destruct (run_reflection schedule_1 morning_configured) as [[c|x] w'] eqn:E; [|exact Hset].
  destruct rb_sound_configured as [Hi Hs]. pose proof (rb_reflection_laws (Ok (sample_output "fine"))) as Hlaws.
  destruct (run_reflects "owner-1" "agent-1" 3 sb_view sb_inv schedule_1 morning_configured c w'
    eq_refl eq_refl Hi Hs E) as (Hid & _ & c' & Hin & _ & _ & Hc).
  split; [exact Hid|]. rewrite <-(Hc ltac:(rewrite Hset; discriminate)). exact Hin.
Defined.

Definition evening : SuggestionWorld := (run_reflection schedule_1 morning_configured).2.

Lemma rb_sound_evening : rb_sound (sb_view evening).
Proof.
  unfold evening. destruct (run_reflection schedule_1 morning_configured) as [r w'] eqn:E.
  destruct rb_sound_configured as [Hi Hs]. pose proof (rb_reflection_laws (Ok (sample_output "fine"))) as Hlaws.
  destruct (run_reflection_triple "owner-1" "agent-1" 3 sb_view sb_inv schedule_1 eq_refl eq_refl _ _ _ Hi Hs E)
    as (_ & Hsteps & _).
  exact (stable_rtc (sb_step 3) rb_sound (Stable0 := state_sound_stable _ _ _) _ _ Hs Hsteps).
Qed.

Lemma reflection_settled_final_witness :
  rf_outcome <$> checkpoints (sb_view evening) !! 0%nat = Some reflection_candidates ∧
  ∀ c s', checkpoints (sb_view evening) !! 0%nat = Some c → rtc (sb_step 3) (sb_view evening) s' → c ∈ checkpoints s'.
Proof.
  split; [vm_compute; reflexivity|]. intros c s' Hc Hs.
  assert (rf_outcome c = reflection_candidates) as Ho.
  { pose proof (f_equal (fmap rf_outcome) Hc) as H. vm_compute in H. injection H as H. exact (eq_sym H). }
  destruct (reflection_settled_final "owner-1" "agent-1" 3 (sb_view evening) s' c Hs (proj2 rb_sound_evening)
    (list_elem_of_lookup_2 _ _ _ Hc)) as (c' & Hin & _ & _ & _ & _ & Hsame).
  rewrite <-(Hsame ltac:(rewrite Ho; discriminate)). exact Hin.
Defined.

(** ** The zone of a draft decides which day it counts on

    The quota is counted on the civil day of the zone that the draft names; the
    zone of the definition is only validated. With a quota of one, a model that
    names a zone where the day is over gets a second suggestion on the Owner's
    day. *)
Definition two_zones : TimeZones := {|
  zone_known zone := (zone === "UTC") || (zone === "Asia/Tokyo");
  zone_date zone t :=
    let c := civilFromDay ((t + if zone === "Asia/Tokyo" then 32400000 else 0) / msPerDay) in
    (pretty (c_year c), two_digits (c_month c), two_digits (c_day c));
|}.

Definition one_a_day (kind zone : string) : ProposeInput :=
  mkPropose "owner-1" "agent-1" "run-1" "trace-1"
    ((draft_of kind) <| rd_taskDraft := mkTaskDraft "goal-1" [] sensitive 100 zone 60000 |>) (Some 1).

Definition afternoon (hour : string) (w : SuggestionWorld) : SuggestionWorld :=
  w <| sb_now := "2026-01-01T" +:+ hour +:+ ":00:00.000Z" |>.

Lemma quota_depends_on_zone :
  let w1 := (propose (zones := two_zones) (one_a_day "kind-1" "UTC") (afternoon "14" morning)).2 in
  (propose (zones := two_zones) (one_a_day "kind-2" "UTC") (afternoon "16" w1)).1 = Ok proposal_quota_exhausted ∧
  let w2 := (propose (zones := two_zones) (one_a_day "kind-2" "Asia/Tokyo") (afternoon "16" w1)).2 in
  accepted_today (zones := two_zones) "UTC" "2026-01-01" (suggestions (sb_view w2)) = Ok 2.
Proof. vm_compute. repeat split. Qed.
