(* ===== verification/Improvement.v ===== *)
(** packages/application/src/ports/improvement.ts and
    services/improvement-candidate-service.ts: a change of the product proposed
    by the Agent itself is prepared in an isolated workspace, validated and
    compared, and then only reviewed by the Owner. *)
From S2P Require Import Prelude Js JsJson MachineSecrets Identifiers Contract AuthTypes Deterministic.
From S2P Require Import Persistence Delegation CandidatePaths.
Local Open Scope Z_scope.

(** ** Data *)
Inductive CommandNetwork := network_none | network_declared.
Inductive SandboxTier := native_low_risk | isolated_high_risk.

#[global] Instance CommandNetwork_eq_dec : EqDecision CommandNetwork.
Proof. solve_decision. Defined.
#[global] Instance SandboxTier_eq_dec : EqDecision SandboxTier.
Proof. solve_decision. Defined.

(** CPU time, memory and processes. *)
Record CommandResources := mkResources { cr_maxCpuTimeMs : Z; cr_maxMemoryBytes : Z; cr_maxProcesses : Z }.

Record CommandProfile := mkProfile {
  pf_id : string; pf_revision : Z; pf_workspaceId : string; pf_argvPattern : list string; pf_workdir : string;
  pf_environmentNames : list string; pf_fileScopes : list string; pf_network : CommandNetwork; pf_timeoutMs : Z;
  pf_maxOutputBytes : Z; pf_resources : CommandResources; pf_sandboxTier : SandboxTier;
  pf_sandboxRuntimeIdentity : string; pf_scriptDigest : option string; pf_scriptSource : option string;
  pf_authorizationRef : string; pf_expiresAt : string; pf_revokedAt : option string }.

Inductive ValidationOutcome := validation_passed | validation_failed.

#[global] Instance ValidationOutcome_eq_dec : EqDecision ValidationOutcome.
Proof. solve_decision. Defined.

Record ImprovementValidation := mkValidation {
  iv_profileId : string; iv_commandObservationRef : string; iv_outcome : ValidationOutcome }.

Record ImprovementComparison := mkComparison {
  im_inputSetDigest : string; im_baseResultRef : string; im_candidateResultRef : string;
  im_qualityDeltaPermille : Z; im_performanceDeltaPermille : Z; im_resourceDeltaPermille : Z;
  im_regressionRefs : list string }.

Inductive ImprovementRisk := risk_low | risk_medium | risk_high | risk_critical.

#[global] Instance ImprovementRisk_eq_dec : EqDecision ImprovementRisk.
Proof. solve_decision. Defined.

Inductive CandidateStatus :=
  | candidate_proposed | candidate_patching | candidate_validating | candidate_rejected_by_validation
  | candidate_security_failure | candidate_review_required | candidate_rejected | candidate_revision_requested
  | candidate_expired.

#[global] Instance CandidateStatus_eq_dec : EqDecision CandidateStatus.
Proof. solve_decision. Defined.

Inductive Cleanup :=
  | cleanup_not_requested
  | cleanup_pending (requestedAt : string) (lastErrorCode : option string)
  | cleanup_completed (requestedAt completedAt : string).

#[global] Instance Cleanup_eq_dec : EqDecision Cleanup.
Proof. solve_decision. Defined.

Inductive ResponseStatus := quarantine_pending | attention_pending | response_completed.

#[global] Instance ResponseStatus_eq_dec : EqDecision ResponseStatus.
Proof. solve_decision. Defined.

(** [None] is [not_requested]. *)
Record SecurityResponse := mkResponse {
  sx_status : ResponseStatus; sx_reasonCode : string; sx_requestedAt : string; sx_attentionIdempotencyKey : string }.

#[global] Instance eta_SecurityResponse : Eta SecurityResponse := λ r,
  mkResponse (sx_status r) (sx_reasonCode r) (sx_requestedAt r) (sx_attentionIdempotencyKey r).

(** The fields of a candidate that no update touches. *)
Record CandidateProposal := mkProposal {
  pr_id : string; pr_ownerId : OwnerId; pr_agentId : AgentId; pr_generationRunId : RunId; pr_traceRef : string;
  pr_observableProblemRef : string; pr_goalRef : string; pr_invariantRefs : list string; pr_baseRevision : string;
  pr_baseDigest : string; pr_allowedPaths : list string; pr_workspaceRef : string; pr_reasonRef : string;
  pr_expiresAt : string; pr_spaceBudgetBytes : Z; pr_createdAt : string }.

(** [reviewRequired] is always [true]. *)
Record CandidateCore := mkCore {
  cc_proposal : CandidateProposal; cc_revision : Z; cc_patchRef : option string; cc_patchDigest : option string;
  cc_risk : ImprovementRisk; cc_protectedRootFacts : list string; cc_validation : list ImprovementValidation;
  cc_comparison : option ImprovementComparison; cc_artifactRef : option string; cc_artifactDigest : option string;
  cc_status : CandidateStatus; cc_updatedAt : string }.

#[global] Instance eta_CandidateCore : Eta CandidateCore := λ r,
  mkCore (cc_proposal r) (cc_revision r) (cc_patchRef r) (cc_patchDigest r) (cc_risk r) (cc_protectedRootFacts r)
    (cc_validation r) (cc_comparison r) (cc_artifactRef r) (cc_artifactDigest r) (cc_status r) (cc_updatedAt r).

Record ImprovementCandidate := mkCandidate {
  ic_core :> CandidateCore; ic_cleanup : Cleanup; ic_security : option SecurityResponse }.

#[global] Instance eta_ImprovementCandidate : Eta ImprovementCandidate := λ r,
  mkCandidate (ic_core r) (ic_cleanup r) (ic_security r).

Definition ic_id (c : ImprovementCandidate) : string := pr_id (cc_proposal c).
Definition ic_workspaceRef (c : ImprovementCandidate) : string := pr_workspaceRef (cc_proposal c).
Definition ic_expiresAt (c : ImprovementCandidate) : string := pr_expiresAt (cc_proposal c).
Definition candidate_scope (c : ImprovementCandidate) : AutonomyScope :=
  mkScope_ (pr_ownerId (cc_proposal c)) (pr_agentId (cc_proposal c)).

Definition attention_key (ownerId : OwnerId) (agentId : AgentId) (id : string) : string :=
  stringify (JStrs ["improvement.security"; ownerId; agentId; id]).

Definition candidateSecurityAttentionKey (c : CandidateCore) : string :=
  attention_key (pr_ownerId (cc_proposal c)) (pr_agentId (cc_proposal c)) (pr_id (cc_proposal c)).

(** ** Ports *)
Class ImprovementStatePort (W : Type) := {
  improvement_read : AutonomyScope → string → M exn W (option ImprovementCandidate);
  improvement_list : OwnerId → AgentId → M exn W (list ImprovementCandidate);
  improvement_create : ImprovementCandidate → M exn W ImprovementCandidate;
  improvement_save : ImprovementCandidate → Z → M exn W ImprovementCandidate;
}.

Record SecurityAttention := mkAttention {
  at_idempotencyKey : string; at_ownerId : OwnerId; at_agentId : AgentId; at_candidateId : string;
  at_traceRef : string; at_reasonCode : string; at_risk : ImprovementRisk }.

Class ImprovementSecurityAttentionPort (W : Type) := attention_raise : SecurityAttention → M exn W unit.

Record CreateWorkspaceInput := mkCreateWorkspace {
  cw_candidateId : string; cw_baseRevision : string; cw_baseDigest : string; cw_allowedPaths : list string;
  cw_spaceBudgetBytes : Z }.

Record PatchInput := mkPatch {
  pt_workspaceRef : string; pt_patchRef : string; pt_expectedBaseDigest : string; pt_allowedPaths : list string }.

(** What is read of the results of [qualify] (whether it is, and the reasons),
    [patch] (digest and changed paths) and [packageArtifact] (reference and digest). *)
Class CandidateWorkspacePort (W : Type) := {
  workspace_qualify : M exn W (bool * list string);
  workspace_create : CreateWorkspaceInput → M exn W string;
  workspace_patch : PatchInput → M exn W (string * list string);
  workspace_validate : string → list CommandProfile → M exn W (list ImprovementValidation);
  workspace_compare : string → string → JsonObject → M exn W ImprovementComparison;
  workspace_packageArtifact : string → string → Z → M exn W (string * string);
  workspace_quarantine : string → string → M exn W unit;
  workspace_dispose : string → M exn W unit;
}.

(** ** The service *)
Definition SELF_ACTIVATION_ACTIONS : list string :=
  ["apply"; "commit"; "push"; "merge"; "deploy"; "restart"; "install"; "activate"; "switch-version"].

(** [/^sha256:[a-f0-9]{64}$/] *)
Definition sha256_digest : regex :=
  sequence [Begin; literal "sha256:"; times 64 (Chr (λ c, between "a" "f" c || between "0" "9" c)); End].

Definition is_digest (s : string) : bool := test sha256_digest s.

(** [s.toUpperCase()] *)
Fixpoint toUpperCase (s : string) : string :=
  match s with EmptyString => "" | String c s => String (upper c) (toUpperCase s) end.

Record ProposeImprovementInput := mkProposeImprovement {
  pi_ownerId : OwnerId; pi_agentId : AgentId; pi_generationRunId : RunId; pi_traceRef : string;
  pi_observableProblemRef : string; pi_goalRef : string; pi_invariantRefs : list string; pi_baseRevision : string;
  pi_baseDigest : string; pi_allowedPaths : list string; pi_reasonRef : string; pi_risk : ImprovementRisk;
  pi_expiresAt : string; pi_spaceBudgetBytes : Z }.

Record PatchValidateInput := mkPatchValidate {
  pv_scope : AutonomyScope; pv_candidateId : string; pv_patchRef : string; pv_profiles : list CommandProfile;
  pv_inputSetDigest : string; pv_comparisonDefinition : JsonObject }.

Inductive ReviewDecision := review_reject | review_request_revision.

#[global] Instance ReviewDecision_eq_dec : EqDecision ReviewDecision.
Proof. solve_decision. Defined.

Record ReviewInput := mkReview {
  rw_scope : AutonomyScope; rw_expectedRevision : Z; rw_candidateId : string; rw_decision : ReviewDecision }.

Definition proposal_error : exn :=
  portError INVALID_OPERATION "Improvement proposal does not freeze a safe base, scope, expiry, and space budget" [].
Definition unqualified_error (reasonCodes : list string) : exn :=
  portError NOT_AUTHORITATIVE "Candidate workspace isolation is not qualified"
    [("reasonCodes", join_with "," reasonCodes)].
Definition candidate_missing : exn := portError NOT_FOUND "Improvement candidate not found" [].
Definition candidate_expired_error : exn := portError INVALID_OPERATION "Candidate has expired" [].
Definition patch_state_error : exn :=
  portError INVALID_OPERATION "Candidate cannot be patched in its current state" [].
Definition review_error : exn := portError NOT_AUTHORITATIVE "Only the Owner can review a completed candidate" [].
Definition self_activation_error : exn :=
  portError NOT_AUTHORITATIVE "Improvement candidates cannot apply, commit, deploy, or activate themselves" [].
Definition disappeared_error : exn := portError NOT_FOUND "Candidate disappeared during cleanup" [].
Definition profiles_error : exn :=
  portError NOT_AUTHORITATIVE
    "Candidate validation profiles require network, secrets, expired authority, or wider files" [].

Definition execution_error_code (error : exn) : string :=
  match error with PortError e => PORT_ERROR_CODES (pe_code e) | _ => "CANDIDATE_EXECUTION_FAILED" end.

(** What is wrong with a profile whatever the time. *)
Definition profile_escalates (candidate : ImprovementCandidate) (p : CommandProfile) : bool :=
  (pf_network p !== network_none) || negb (bool_decide (pf_environmentNames p = []))
  || (pf_workspaceId p !== ic_workspaceRef candidate) || negb (startsWith (pf_workdir p) "/")
  || (pf_workdir p !== ic_workspaceRef candidate) || (pf_fileScopes p !== [ic_workspaceRef candidate])
  || (pf_sandboxTier p !== isolated_high_risk) || negb (is_none (pf_revokedAt p)).

(** The candidate a proposal makes, in its workspace. *)
Definition proposed_candidate (input : ProposeImprovementInput) (id workspaceRef : string) (allowedPaths : list string)
    (now : string) : ImprovementCandidate :=
  let protectedRootFacts := protected_facts allowedPaths in
  mkCandidate
    (mkCore
      (mkProposal id (pi_ownerId input) (pi_agentId input) (pi_generationRunId input) (pi_traceRef input)
        (pi_observableProblemRef input) (pi_goalRef input) (pi_invariantRefs input) (pi_baseRevision input)
        (pi_baseDigest input) allowedPaths workspaceRef (pi_reasonRef input) (pi_expiresAt input)
        (pi_spaceBudgetBytes input) now)
      1 None None (if bool_decide (protectedRootFacts = []) then pi_risk input else risk_critical) protectedRootFacts
      [] None None None candidate_proposed now)
    cleanup_not_requested None.

(** *** The updates of a candidate *)
Definition with_response (status : ResponseStatus) (candidate : ImprovementCandidate) (response : SecurityResponse)
    : ImprovementCandidate := candidate <| ic_security := Some (response <| sx_status := status |>) |>.

Definition is_closed (status : CandidateStatus) : bool :=
  includes status [candidate_expired; candidate_security_failure; candidate_rejected; candidate_revision_requested].

(** A security failure goes on record. *)
Definition failed_candidate (candidate : ImprovementCandidate) (reasonCode now : string) : ImprovementCandidate :=
  candidate
    <| ic_core := (ic_core candidate) <| cc_status := candidate_security_failure |>
         <| cc_protectedRootFacts := cc_protectedRootFacts candidate ++ ["security-failure:" +:+ reasonCode] |>
         <| cc_risk := risk_critical |> |>
    <| ic_security := Some (mkResponse quarantine_pending reasonCode now (candidateSecurityAttentionKey candidate)) |>.

Definition patching_candidate (candidate : ImprovementCandidate) (patchRef : string) : ImprovementCandidate :=
  candidate <| ic_core := (ic_core candidate) <| cc_status := candidate_patching |> <| cc_patchRef := Some patchRef |> |>.

Definition validating_candidate (candidate : ImprovementCandidate) (patchDigest : string) : ImprovementCandidate :=
  candidate <| ic_core := (ic_core candidate) <| cc_status := candidate_validating |>
    <| cc_patchDigest := Some patchDigest |> |>.

Definition invalid_candidate (candidate : ImprovementCandidate) (validation : list ImprovementValidation)
    : ImprovementCandidate :=
  candidate <| ic_core := (ic_core candidate) <| cc_status := candidate_rejected_by_validation |>
    <| cc_validation := validation |> |>.

Definition completed_candidate (candidate : ImprovementCandidate) (validation : list ImprovementValidation)
    (comparison : ImprovementComparison) (artifactRef artifactDigest : string) : ImprovementCandidate :=
  candidate <| ic_core := (ic_core candidate) <| cc_status := candidate_review_required |>
    <| cc_validation := validation |> <| cc_comparison := Some comparison |>
    <| cc_artifactRef := Some artifactRef |> <| cc_artifactDigest := Some artifactDigest |> |>.

Definition reviewed_candidate (candidate : ImprovementCandidate) (decision : ReviewDecision) : ImprovementCandidate :=
  candidate <| ic_core := (ic_core candidate)
    <| cc_status := if decision === review_reject then candidate_rejected else candidate_revision_requested |> |>.

Definition expired_candidate (candidate : ImprovementCandidate) (now : string) : ImprovementCandidate :=
  candidate
    <| ic_core := (ic_core candidate)
         <| cc_status := if cc_status candidate === candidate_security_failure then candidate_security_failure
                         else candidate_expired |> |>
    <| ic_cleanup := cleanup_pending now None |>.

Definition with_cleanup (candidate : ImprovementCandidate) (cleanup : Cleanup) : ImprovementCandidate :=
  candidate <| ic_cleanup := cleanup |>.

Definition attention_of (current : ImprovementCandidate) (response : SecurityResponse) : SecurityAttention :=
  mkAttention (sx_attentionIdempotencyKey response) (pr_ownerId (cc_proposal current)) (pr_agentId (cc_proposal current))
    (ic_id current) (pr_traceRef (cc_proposal current)) (sx_reasonCode response) risk_critical.

(** The next revision of a candidate. *)
Definition stamped (candidate updated : ImprovementCandidate) (now : string) : ImprovementCandidate :=
  updated <| ic_core := (ic_core updated) <| cc_revision := cc_revision candidate + 1 |> <| cc_updatedAt := now |> |>.

Section service.
Context {W : Type} `{!ImprovementStatePort W, !CandidateWorkspacePort W, !ClockPort W, !IdGeneratorPort W}.
Context `{!ImprovementSecurityAttentionPort W}.

(** [#save]: [updated] is the candidate with the updates. *)
Definition save_candidate (candidate updated : ImprovementCandidate) : M exn W ImprovementCandidate :=
  now ← clock_now; improvement_save (stamped candidate updated now) (cc_revision candidate).

Definition propose_improvement (input : ProposeImprovementInput) : M exn W ImprovementCandidate :=
  allowedPaths ← lift (normalizeCandidateScopes (pi_allowedPaths input));
  unsafe ←
    (if negb (is_digest (pi_baseDigest input)) || bool_decide (pi_allowedPaths input = [])
        || bool_decide (pi_invariantRefs input = []) then mret true
     else
       now ← clock_now;
       mret (str_le (pi_expiresAt input) now || (pi_spaceBudgetBytes input <? 1)
             || negb (isSafeInteger (pi_spaceBudgetBytes input))));
  throwM_if unsafe proposal_error ;;
  qualification ← workspace_qualify;
  throwM_if (negb qualification.1) (unqualified_error qualification.2) ;;
  id ← ids_next "improvement";
  workspaceRef ← workspace_create (mkCreateWorkspace id (pi_baseRevision input) (pi_baseDigest input) allowedPaths
    (pi_spaceBudgetBytes input));
  now ← clock_now;
  improvement_create (proposed_candidate input id workspaceRef allowedPaths now).

(** [#required] *)
Definition required_candidate (scope : AutonomyScope) (candidateId : string) : M exn W ImprovementCandidate :=
  candidate ← improvement_read scope candidateId;
  match (candidate : option ImprovementCandidate) with
  | None => throw candidate_missing
  | Some candidate =>
      now ← clock_now;
      throwM_if (str_le (ic_expiresAt candidate) now) candidate_expired_error ;;
      mret candidate
  end.

Definition quarantine_step (current : ImprovementCandidate) : M exn W ImprovementCandidate :=
  match ic_security current with
  | Some response =>
      if sx_status response === quarantine_pending then
        workspace_quarantine (ic_workspaceRef current) (sx_reasonCode response) ;;
        save_candidate current (with_response attention_pending current response)
      else mret current
  | None => mret current
  end.

Definition attention_step (current : ImprovementCandidate) : M exn W ImprovementCandidate :=
  match ic_security current with
  | Some response =>
      if sx_status response === attention_pending then
        attention_raise (attention_of current response) ;;
        save_candidate current (with_response response_completed current response)
      else mret current
  | None => mret current
  end.

Definition resumeSecurityResponse (candidate : ImprovementCandidate) : M exn W ImprovementCandidate :=
  current ← quarantine_step candidate; attention_step current.

Definition securityFailure (candidate : ImprovementCandidate) (reasonCode : string) : M exn W ImprovementCandidate :=
  if is_closed (cc_status candidate) then resumeSecurityResponse candidate
  else
    now ← clock_now;
    failed ← save_candidate candidate (failed_candidate candidate reasonCode now);
    resumeSecurityResponse failed.

(** [#assertProfiles]; the clock is read for each profile. *)
Fixpoint check_profiles (candidate : ImprovementCandidate) (profiles : list CommandProfile) : M exn W unit :=
  match profiles with
  | [] => mret tt
  | profile :: profiles =>
      throwM_if (profile_escalates candidate profile) profiles_error ;;
      now ← clock_now;
      throwM_if (str_le (pf_expiresAt profile) now) profiles_error ;;
      check_profiles candidate profiles
  end.

Definition assertProfiles (candidate : ImprovementCandidate) (profiles : list CommandProfile) : M exn W unit :=
  throwM_if (bool_decide (profiles = [])) profiles_error ;; check_profiles candidate profiles.

(** The body of the [try]; what it returns without [await] is the result. *)
Definition patch_body (input : PatchValidateInput) (patching : ImprovementCandidate)
    : M exn W (M exn W ImprovementCandidate) :=
  let proposal := cc_proposal patching in
  patch ← workspace_patch (mkPatch (pr_workspaceRef proposal) (pv_patchRef input) (pr_baseDigest proposal)
    (pr_allowedPaths proposal));
  inside ← lift (candidatePathsWithinScopes patch.2 (pr_allowedPaths proposal));
  if negb inside then mret (securityFailure patching "CANDIDATE_SCOPE_ESCAPE")
  else
    validating ← save_candidate patching (validating_candidate patching patch.1);
    validation ← workspace_validate (ic_workspaceRef validating) (pv_profiles input);
    if existsb (λ v, iv_outcome v !== validation_passed) validation then
      mret (save_candidate validating (invalid_candidate validating validation))
    else
      comparison ← workspace_compare (ic_workspaceRef validating) (pv_inputSetDigest input) (pv_comparisonDefinition input);
      if im_inputSetDigest comparison !== pv_inputSetDigest input then
        mret (securityFailure validating "COMPARISON_INPUT_CHANGED")
      else
        artifact ← workspace_packageArtifact (ic_workspaceRef validating) (ic_expiresAt validating)
          (pr_spaceBudgetBytes (cc_proposal validating));
        if negb (is_digest artifact.2) then mret (securityFailure validating "CANDIDATE_ARTIFACT_INVALID")
        else
          mret (save_candidate validating (completed_candidate validating validation comparison artifact.1 artifact.2)).

Definition patch_failed (patching : ImprovementCandidate) (error : exn) : M exn W ImprovementCandidate :=
  latest ← improvement_read (candidate_scope patching) (ic_id patching);
  securityFailure (default patching latest) (execution_error_code error).

Definition patchValidateCompare (input : PatchValidateInput) : M exn W ImprovementCandidate :=
  candidate ← required_candidate (pv_scope input) (pv_candidateId input);
  throwM_if ((cc_status candidate !== candidate_proposed) && (cc_status candidate !== candidate_rejected_by_validation))
    patch_state_error ;;
  allowed ← try_catch (assertProfiles candidate (pv_profiles input) ;; mret true) (λ _, mret false);
  if negb allowed then securityFailure candidate "CANDIDATE_VALIDATION_SCOPE_ESCALATION"
  else
    patching ← save_candidate candidate (patching_candidate candidate (pv_patchRef input));
    try_tail (patch_body input patching) (patch_failed patching).

Definition review_candidate (input : ReviewInput) : M exn W ImprovementCandidate :=
  candidate ← required_candidate (rw_scope input) (rw_candidateId input);
  throwM_if ((cc_revision candidate !== rw_expectedRevision input) || (cc_status candidate !== candidate_review_required))
    review_error ;;
  save_candidate candidate (reviewed_candidate candidate (rw_decision input)).

(** What it does before it throws. *)
Definition record_self_activation (scope : AutonomyScope) (candidateId requestedAction : string) : M exn W ImprovementCandidate :=
  candidate ← required_candidate scope candidateId;
  if includes requestedAction SELF_ACTIVATION_ACTIONS
  then securityFailure candidate ("SELF_ACTIVATION_" +:+ toUpperCase requestedAction)
  else mret candidate.

Definition rejectSelfActivation (scope : AutonomyScope) (candidateId requestedAction : string) : M exn W Empty_set :=
  record_self_activation scope candidateId requestedAction ;; throw self_activation_error.

(** ** Expiry *)
Definition cleanup_is_pending (c : Cleanup) : bool := match c with cleanup_pending _ _ => true | _ => false end.

(** The cleanup of one candidate, requested if it is not yet. *)
Definition request_cleanup (candidate : ImprovementCandidate) (now : string) : M exn W ImprovementCandidate :=
  if cleanup_is_pending (ic_cleanup candidate) then mret candidate
  else save_candidate candidate (expired_candidate candidate now).

Definition dispose_failed (scope : AutonomyScope) (saved : ImprovementCandidate) (error : exn) : M exn W unit :=
  latest ← improvement_read scope (ic_id saved);
  match latest with
  | Some latest =>
      match ic_cleanup latest with
      | cleanup_pending requestedAt _ =>
          save_candidate latest (with_cleanup latest (cleanup_pending requestedAt (Some "CANDIDATE_DISPOSAL_FAILED"))) ;;
          mret tt
      | _ => mret tt
      end
  | None => mret tt
  end ;;
  throw error.

Definition clean_up (scope : AutonomyScope) (candidate : ImprovementCandidate) (now : string) : M exn W ImprovementCandidate :=
  saved ← request_cleanup candidate now;
  try_catch (workspace_dispose (ic_workspaceRef saved)) (dispose_failed scope saved) ;;
  latest ← improvement_read scope (ic_id saved);
  match latest with
  | None => throw disappeared_error
  | Some latest =>
      match ic_cleanup latest with
      | cleanup_pending requestedAt _ =>
          save_candidate latest (with_cleanup latest (cleanup_completed requestedAt now))
      | _ => mret latest
      end
  end.

(** Nothing is left to do for a candidate. *)
Definition needs_no_cleanup (candidate : ImprovementCandidate) (now : string) : bool :=
  match ic_cleanup candidate with
  | cleanup_completed _ _ => true
  | cleanup_pending _ _ => false
  | cleanup_not_requested => str_lt now (ic_expiresAt candidate)
  end.

Fixpoint expire_each (scope : AutonomyScope) (now : string) (candidates : list ImprovementCandidate)
    : M exn W (list ImprovementCandidate) :=
  match candidates with
  | [] => mret []
  | observation :: candidates =>
      observed ← improvement_read scope (ic_id observation);
      match observed with
      | None => expire_each scope now candidates
      | Some observed =>
          candidate ← resumeSecurityResponse observed;
          if needs_no_cleanup candidate now then expire_each scope now candidates
          else
            cleaned ← clean_up scope candidate now;
            expired ← expire_each scope now candidates;
            mret (cleaned :: expired)
      end
  end.

(** Without [now] the clock is read. *)
Definition expire_candidates (ownerId : OwnerId) (agentId : AgentId) (now : option string)
    : M exn W (list ImprovementCandidate) :=
  now ← match now with Some now => mret now | None => clock_now end;
  candidates ← improvement_list ownerId agentId;
  expire_each (mkScope_ ownerId agentId) now candidates.
End service.

(** ** How improvement candidates change, whoever changes them: the updates of one
    candidate, the steps of their table, what every step keeps, and the promise
    of [ImprovementStatePort]. *)

Abbreviation candidates := (gmap string ImprovementCandidate) (only parsing).

#[local] Arguments candidateSecurityAttentionKey : simpl never.

(** What the candidate workspace reports: in this workspace, the patch with
    this digest changed these paths. *)
Class PatchReports := patch_reported : string → string → list string → Prop.

Definition in_paths (c : ImprovementCandidate) (digest : string) `{PatchReports} : Prop :=
  ∃ paths, patch_reported (ic_workspaceRef c) digest paths ∧
    candidatePathsWithinScopes paths (pr_allowedPaths (cc_proposal c)) = Ok true.

Definition all_passed (validation : list ImprovementValidation) : Prop :=
  Forall (λ v, iv_outcome v = validation_passed) validation.

Section steps.
Context {reports : PatchReports}.

(** ** One update *)
Inductive candidate_update (p : ImprovementCandidate) : ImprovementCandidate → Prop :=
  | update_patching ref :
      cc_status p = candidate_proposed ∨ cc_status p = candidate_rejected_by_validation →
      candidate_update p (patching_candidate p ref)
  | update_validating digest :
      cc_status p = candidate_patching → in_paths p digest → candidate_update p (validating_candidate p digest)
  | update_invalid validation :
      cc_status p = candidate_validating → candidate_update p (invalid_candidate p validation)
  | update_completed validation comparison ref digest :
      cc_status p = candidate_validating → all_passed validation → is_digest digest = true →
      candidate_update p (completed_candidate p validation comparison ref digest)
  | update_reviewed decision :
      cc_status p = candidate_review_required → candidate_update p (reviewed_candidate p decision)
  | update_failed reasonCode now :
      is_closed (cc_status p) = false → candidate_update p (failed_candidate p reasonCode now)
  | update_quarantined response :
      ic_security p = Some response → sx_status response = quarantine_pending →
      candidate_update p (with_response attention_pending p response)
  | update_raised response :
      ic_security p = Some response → sx_status response = attention_pending →
      candidate_update p (with_response response_completed p response)
  | update_expired now :
      ic_cleanup p = cleanup_not_requested → str_le (ic_expiresAt p) now = true → candidate_update p (expired_candidate p now)
  | update_undisposed requestedAt error code :
      ic_cleanup p = cleanup_pending requestedAt error →
      candidate_update p (with_cleanup p (cleanup_pending requestedAt (Some code)))
  | update_cleaned requestedAt error now :
      ic_cleanup p = cleanup_pending requestedAt error →
      candidate_update p (with_cleanup p (cleanup_completed requestedAt now)).

Definition candidate_move (p c : ImprovementCandidate) : Prop :=
  ∃ q now, candidate_update p q ∧ c = stamped p q now.

(** ** The table *)
Record fresh_candidate (c : ImprovementCandidate) : Prop := {
  fn_made : ∃ input id ref allowed now, c = proposed_candidate input id ref allowed now ∧
    normalizeCandidateScopes (pi_allowedPaths input) = Ok allowed ∧ is_digest (pi_baseDigest input) = true ∧
    pi_invariantRefs input ≠ [] ∧ 1 ≤ pi_spaceBudgetBytes input ≤ MAX_SAFE_INTEGER;
}.

Inductive improvement_step (s : candidates) : candidates → Prop :=
  | step_proposed c : s !! ic_id c = None → fresh_candidate c → improvement_step s (<[ic_id c := c]> s)
  | step_updated p c : s !! ic_id p = Some p → candidate_move p c → improvement_step s (<[ic_id c := c]> s).

(** ** What always holds of a candidate *)
Definition patched_status (status : CandidateStatus) : bool :=
  includes status [candidate_validating; candidate_rejected_by_validation; candidate_review_required; candidate_rejected;
    candidate_revision_requested].

Definition reviewed_status (status : CandidateStatus) : bool :=
  includes status [candidate_review_required; candidate_rejected; candidate_revision_requested].

Record proposal_sound (p : CandidateProposal) : Prop := {
  os_base : is_digest (pr_baseDigest p) = true;
  os_invariants : pr_invariantRefs p ≠ [];
  os_space : 1 ≤ pr_spaceBudgetBytes p ≤ MAX_SAFE_INTEGER;
  os_paths : pr_allowedPaths p ≠ [] ∧ NoDup (pr_allowedPaths p) ∧
    ∀ a, a ∈ pr_allowedPaths p → normalizeCandidatePath a = Ok a;
}.

Record candidate_sound (c : ImprovementCandidate) : Prop := {
  so_revision : 1 ≤ cc_revision c;
  so_proposal : proposal_sound (cc_proposal c);
  so_risk : existsb is_protected (pr_allowedPaths (cc_proposal c)) = true → cc_risk c = risk_critical;
  so_facts : protected_facts (pr_allowedPaths (cc_proposal c)) `prefix_of` cc_protectedRootFacts c;
  so_patched : patched_status (cc_status c) = true → ∃ digest, cc_patchDigest c = Some digest ∧ in_paths c digest;
  so_reviewed : reviewed_status (cc_status c) = true →
    all_passed (cc_validation c) ∧ cc_comparison c ≠ None ∧
    ∃ ref digest, cc_artifactRef c = Some ref ∧ cc_artifactDigest c = Some digest ∧ is_digest digest = true;
  so_security : cc_status c = candidate_security_failure ↔ ic_security c ≠ None;
  so_response : ∀ response, ic_security c = Some response →
    sx_attentionIdempotencyKey response = candidateSecurityAttentionKey c ∧ cc_risk c = risk_critical;
  so_cleanup : (ic_cleanup c ≠ cleanup_not_requested → cc_status c = candidate_expired ∨ cc_status c = candidate_security_failure) ∧
    (cc_status c = candidate_expired → ic_cleanup c ≠ cleanup_not_requested);
}.

Definition table_sound (s : candidates) : Prop := map_Forall (λ id c, ic_id c = id ∧ candidate_sound c) s.

(** ** One move *)
Definition response_rank (r : option SecurityResponse) : Z :=
  match r with
  | None => 0
  | Some r => match sx_status r with quarantine_pending => 1 | attention_pending => 2 | response_completed => 3 end
  end.

Definition cleanup_rank (c : Cleanup) : Z :=
  match c with cleanup_not_requested => 0 | cleanup_pending _ _ => 1 | cleanup_completed _ _ => 2 end.

(** What moves never lose. *)
Record evolves (p c : ImprovementCandidate) : Prop := {
  ev_proposal : cc_proposal c = cc_proposal p;
  ev_closed : is_closed (cc_status p) = true → is_closed (cc_status c) = true;
  ev_cleanup : cleanup_rank (ic_cleanup p) ≤ cleanup_rank (ic_cleanup c);
  ev_response : ∀ r, ic_security p = Some r → ∃ r', ic_security c = Some r' ∧ response_rank (Some r) ≤ response_rank (Some r') ∧
    sx_reasonCode r' = sx_reasonCode r ∧ sx_attentionIdempotencyKey r' = sx_attentionIdempotencyKey r ∧
    sx_requestedAt r' = sx_requestedAt r;
  ev_quiet : is_closed (cc_status p) = true → ic_security p = None → ic_security c = None;
  ev_facts : cc_protectedRootFacts p `prefix_of` cc_protectedRootFacts c;
}.

#[export] Instance evolves_preorder : PreOrder evolves.
Proof.
  split.
  - intros p. split; try done; try lia. intros r Hr. by exists r.
  - intros p c d [H1 H2 H3 H4 H5 H6] [K1 K2 K3 K4 K5 K6]. split; [congruence|auto|lia| |auto|by etrans].
    intros r Hr. destruct (H4 r Hr) as (r1 & Hr1 & ? & ? & ? & ?). destruct (K4 r1 Hr1) as (r2 & ? & ? & ? & ? & ?).
    exists r2. repeat split; try congruence; lia.
Qed.

Lemma move_revision p c : candidate_move p c → cc_revision c = cc_revision p + 1.
Proof. by intros (q & now & _ & ->). Qed.

(** An open candidate has no response, and none has a cleanup but closed ones. *)
Lemma open_candidate p : candidate_sound p → is_closed (cc_status p) = false →
  ic_security p = None ∧ ic_cleanup p = cleanup_not_requested.
Proof.
  intros Hp Ho. split.
  - destruct (ic_security p) eqn:E; [|done]. assert (cc_status p = candidate_security_failure) as Hs by (apply Hp; congruence).
    by rewrite Hs in Ho.
  - destruct (decide (ic_cleanup p = cleanup_not_requested)) as [|Hn]; [done|].
    destruct (proj1 (so_cleanup p Hp) Hn) as [Hs|Hs]; by rewrite Hs in Ho.
Qed.

Lemma update_evolves p q : candidate_sound p → candidate_update p q → evolves p q.
Proof.
  intros Hp H. assert (∀ r, ic_security p = Some r → ∃ r', ic_security p = Some r' ∧ response_rank (Some r) ≤ response_rank (Some r') ∧
    sx_reasonCode r' = sx_reasonCode r ∧ sx_attentionIdempotencyKey r' = sx_attentionIdempotencyKey r ∧
    sx_requestedAt r' = sx_requestedAt r) as Hsame by (intros r Hr; by exists r).
  destruct H as [ref [Hs|Hs]|digest Hs _|validation Hs|validation comparison ref digest Hs _ _|decision Hs|reasonCode now Hs
    |response Hr Hx|response Hr Hx|now Hc|requestedAt error code Hc|requestedAt error now Hc];
    (constructor; cbn; [done| | |try exact Hsame|try done|try done]); try done; try (by rewrite Hs); try (by rewrite Hc).
  - destruct (open_candidate p Hp Hs) as [-> _]. done.
  - by eexists.
  - intros r Hr'. eexists. split; [done|]. cbn. replace r with response by congruence. by rewrite Hx.
  - intros; congruence.
  - intros r Hr'. eexists. split; [done|]. cbn. replace r with response by congruence. by rewrite Hx.
  - intros; congruence.
  - intros _. by case_bool_decide.
Qed.

Lemma move_evolves p c : candidate_sound p → candidate_move p c → evolves p c.
Proof.
  intros Hp (q & now & Hu & ->). apply update_evolves in Hu; [|done]. destruct Hu. by split.
Qed.

Lemma update_sound p q : candidate_sound p → candidate_update p q → candidate_sound q.
Proof.
  intros Hp H. pose proof (update_evolves p q Hp H) as [_ _ _ _ _ Hfacts].
  pose proof Hp as [H1 H2 H3 H4 H5 H6 H7 H8 H9]. assert (protected_facts (pr_allowedPaths (cc_proposal p)) `prefix_of` cc_protectedRootFacts q) as Hf
    by (by etrans).
  destruct H as [ref Hs|digest Hs Hin|validation Hs|validation comparison ref digest Hs Hv Hd|decision Hs|reasonCode now Hs
    |response Hr Hx|response Hr Hx|now Hc Hx|requestedAt error code Hc|requestedAt error now Hc].
  - assert (is_closed (cc_status p) = false) as Ho by (by destruct Hs as [-> | ->]).
    destruct (open_candidate p Hp Ho) as [Hn Hc]. constructor; cbn; rewrite ?Hn, ?Hc; done.
  - assert (is_closed (cc_status p) = false) as Ho by (by rewrite Hs). destruct (open_candidate p Hp Ho) as [Hn Hc].
    constructor; cbn; rewrite ?Hn, ?Hc; try done. intros _. exists digest. by split.
  - assert (is_closed (cc_status p) = false) as Ho by (by rewrite Hs). destruct (open_candidate p Hp Ho) as [Hn Hc].
    rewrite Hs in H5. constructor; cbn; rewrite ?Hn, ?Hc; done || (intros _; by apply H5).
  - assert (is_closed (cc_status p) = false) as Ho by (by rewrite Hs). destruct (open_candidate p Hp Ho) as [Hn Hc].
    rewrite Hs in H5. constructor; cbn; rewrite ?Hn, ?Hc; try done. intros _. split; [done|]. split; [done|]. eauto.
  - assert (is_closed (cc_status p) = false) as Ho by (by rewrite Hs). destruct (open_candidate p Hp Ho) as [Hn Hc].
    rewrite Hs in H5, H6. constructor; cbn; rewrite ?Hn, ?Hc; try done; case_bool_decide; try done;
      intros _; by first [apply H5 | apply H6].
  - destruct (open_candidate p Hp Hs) as [Hn Hc]. constructor; cbn; rewrite ?Hc; try done. by intros r [= <-].
  - assert (cc_status p = candidate_security_failure) as Hs by (apply H7; congruence).
    constructor; cbn; try done. intros r [= <-]. cbn. by apply H8.
  - assert (cc_status p = candidate_security_failure) as Hs by (apply H7; congruence).
    constructor; cbn; try done. intros r [= <-]. cbn. by apply H8.
  - constructor; cbn; try done; try (by case_bool_decide).
    + rewrite <-H7. by case_bool_decide.
    + split; [|done]. intros _. case_bool_decide; [by right|by left].
  - constructor; cbn; try done. split; [|done]. intros _. apply H9. congruence.
  - constructor; cbn; try done. split; [|done]. intros _. apply H9. congruence.
Qed.

Lemma stamped_sound (p q : ImprovementCandidate) now : 1 ≤ cc_revision p → candidate_sound q → candidate_sound (stamped p q now).
Proof. intros Hr [H1 H2 H3 H4 H5 H6 H7 H8 H9]. constructor; cbn; try done. lia. Qed.

Lemma candidate_move_sound p c : candidate_sound p → candidate_move p c → candidate_sound c.
Proof.
  intros Hp (q & now & Hu & ->). apply stamped_sound; [apply Hp|]. by eapply update_sound.
Qed.

Lemma scopes_sound values allowed : normalizeCandidateScopes values = Ok allowed →
  allowed ≠ [] ∧ NoDup allowed ∧ ∀ a, a ∈ allowed → normalizeCandidatePath a = Ok a.
Proof.
  intros H. destruct (scopes_Ok _ _ H) as (Hne & Ht & Ha). split; [|split].
  - intros ->. destruct values as [|v values]; [done|]. destruct (Ht v) as [n Hn]; [by left|].
    apply (not_elem_of_nil n). apply Ha. exists v. split; [by left|done].
  - unfold normalizeCandidateScopes in H. inv_ok. unfold sort_strings. rewrite sort_by_perm. by apply unique_spec.
  - intros a (v & _ & Hv)%Ha. by eapply normalize_idem.
Qed.

Lemma fresh_candidate_sound c : fresh_candidate c → candidate_sound c.
Proof.
  intros [(input & id & ref & allowed & now & -> & Ha & Hd & Hi & Hs)]. constructor; cbn; try done.
  - constructor; cbn; try done. by eapply scopes_sound.
  - intros (path & Hp & Hx)%existsb_elem. rewrite bool_decide_eq_false_2; [done|]. unfold protected_facts.
    intros Hn%fmap_nil_inv. assert (path ∈ List.filter is_protected allowed) as Hin; [|rewrite Hn in Hin; by apply not_elem_of_nil in Hin].
    by apply list_elem_of_In, filter_In; split; [apply list_elem_of_In|].
Qed.

Lemma step_table_sound s s' : table_sound s → improvement_step s s' → table_sound s'.
Proof.
  intros Hs [c Hn Hf|p c Hp Hm].
  - apply map_Forall_insert_2; [|done]. split; [done|]. by apply fresh_candidate_sound.
  - apply map_Forall_insert_2; [|done]. split; [done|]. eapply candidate_move_sound; [|exact Hm]. by apply (Hs _ _ Hp).
Qed.

#[export] Instance table_sound_stable : Stable improvement_step table_sound.
Proof. exact step_table_sound. Qed.

(** ** What is known of a candidate that was seen *)
Definition known (c : ImprovementCandidate) (s : candidates) : Prop :=
  candidate_sound c ∧ ∃ c', s !! ic_id c = Some c' ∧ rtc candidate_move c c'.

Lemma candidate_moves_sound c c' : rtc candidate_move c c' → candidate_sound c → candidate_sound c' ∧ evolves c c'.
Proof.
  induction 1 as [c|c c1 c2 H _ IH]; intros Hc; [split; [done|reflexivity]|].
  destruct IH as [H1 H2]; [by eapply candidate_move_sound|]. split; [done|]. etrans; [by apply move_evolves|done].
Qed.

Lemma move_id p c : candidate_sound p → candidate_move p c → ic_id c = ic_id p.
Proof. intros Hp Hm. unfold ic_id. by rewrite (ev_proposal _ _ (move_evolves _ _ Hp Hm)). Qed.

Lemma moves_revision (c c' : ImprovementCandidate) : rtc candidate_move c c' → c' = c ∨ cc_revision c < cc_revision c'.
Proof.
  induction 1 as [c|c c1 c2 H _ IH]; [by left|]. right. apply move_revision in H. destruct IH as [->|]; lia.
Qed.

#[export] Instance known_stable c : Stable improvement_step (λ s, table_sound s ∧ known c s).
Proof.
  intros s s' [Hs [Hc (c' & Hk & Hm)]] Hst. split; [by eapply step_table_sound|]. split; [done|].
  pose proof (Hs _ _ Hk) as [Hid Hsc']. destruct Hst as [d Hn _|p d Hp Hd].
  - exists c'. split; [|done]. rewrite lookup_insert_ne by congruence. done.
  - pose proof (proj2 (Hs _ _ Hp)) as Hsp. pose proof (move_id _ _ Hsp Hd) as Hidd.
    destruct (decide (ic_id d = ic_id c)) as [He|Hne].
    + exists d. rewrite He, lookup_insert_eq. split; [done|]. assert (p = c') as -> by congruence. by eapply rtc_r.
    + exists c'. by rewrite lookup_insert_ne.
Qed.

Lemma stored_known s id c : table_sound s → s !! id = Some c → known c s.
Proof. intros Hs Hk. destruct (Hs _ _ Hk) as [Hid Hc]. split; [done|]. exists c. by rewrite Hid. Qed.

(** ** The promise of [ImprovementStatePort] *)
Definition lookup_candidate (scope : AutonomyScope) (id : string) (s : candidates) : option ImprovementCandidate :=
  s !! id ≫= λ c : ImprovementCandidate,
  if (pr_ownerId (cc_proposal c) === sp_ownerId scope) && (pr_agentId (cc_proposal c) === sp_agentId scope)
  then Some c else None.

Definition created_effect (c r : ImprovementCandidate) (s s' : candidates) : Prop :=
  cc_revision c = 1 ∧ s !! ic_id c = None ∧ r = c ∧ s' = <[ic_id c := c]> s.

Definition saved_effect (next : ImprovementCandidate) (expectedRevision : Z) (r : ImprovementCandidate) (s s' : candidates) : Prop :=
  ∃ p : ImprovementCandidate, s !! ic_id next = Some p ∧ cc_revision p = expectedRevision ∧ cc_revision next = expectedRevision + 1 ∧
    candidate_scope p = candidate_scope next ∧ r = next ∧ s' = <[ic_id next := next]> s.

Class ImprovementStateLaws {W : Type} `{!ImprovementStatePort W} (view : W → candidates) (inv : W → Prop) : Prop := {
  law_improvement_read : ∀ scope id, gen_op_law improvement_step view inv
    (gen_reads (λ o s, o = lookup_candidate scope id s)) (improvement_read scope id);
  law_improvement_list : ∀ ownerId agentId, gen_op_law improvement_step view inv
    (gen_reads (λ l s, ∀ c, c ∈ l ↔ ∃ id, lookup_candidate (mkScope_ ownerId agentId) id s = Some c))
    (improvement_list ownerId agentId);
  law_improvement_create : ∀ c, gen_op_law improvement_step view inv (created_effect c) (improvement_create c);
  law_improvement_save : ∀ c v, gen_op_law improvement_step view inv (saved_effect c v) (improvement_save c v);
}.
End steps.
