(* ===== verification/ImprovementRuns.v ===== *)
(** What the improvement service guarantees (Improvement.v), from the promises
    of its ports: candidates only move along the allowed updates, reach review
    only when everything passed, and neither a security failure nor an expired
    workspace is forgotten. *)
From S2P Require Import Prelude Js JsJson MachineSecrets Identifiers Contract AuthTypes Deterministic Persistence.
From S2P Require Import Delegation CandidatePaths Improvement.
Local Open Scope Z_scope.

#[local] Arguments candidateSecurityAttentionKey : simpl never.

(** ** What holds of the store when the ports are called *)
Definition stored_with (φ : ImprovementCandidate → Prop) (s : candidates) : Prop :=
  ∃ c, s !! ic_id c = Some c ∧ φ c.

Definition prepared (input : PatchInput) : candidates → Prop := stored_with (λ c,
  pt_workspaceRef input = ic_workspaceRef c ∧ pt_expectedBaseDigest input = pr_baseDigest (cc_proposal c) ∧
  pt_allowedPaths input = pr_allowedPaths (cc_proposal c)).

(** A security failure is on record for the workspace, with this reason. *)
Definition quarantined (ref reasonCode : string) : candidates → Prop := stored_with (λ c,
  ic_workspaceRef c = ref ∧ ∃ r, ic_security c = Some r ∧ sx_reasonCode r = reasonCode).

(** The workspace is in quarantine, and this is the one notice of it. *)
Definition announced (a : SecurityAttention) : candidates → Prop := stored_with (λ c,
  ∃ r, ic_security c = Some r ∧ sx_status r ≠ quarantine_pending ∧ a = attention_of c r ∧
    at_idempotencyKey a = candidateSecurityAttentionKey c).

Definition disposable (ref : string) : candidates → Prop := stored_with (λ c,
  ic_workspaceRef c = ref ∧ ic_cleanup c ≠ cleanup_not_requested).

(** The promises of the ports: they leave the candidates to others, and the
    ones with a condition are only trusted when it holds. *)
Class CandidatePortLaws {reports : PatchReports} {W : Type} `{!CandidateWorkspacePort W, !ClockPort W, !IdGeneratorPort W}
    `{!ImprovementSecurityAttentionPort W} (view : W → candidates) (inv : W → Prop) : Prop := {
  frame_candidate_clock : gen_frame_law improvement_step view inv clock_now;
  frame_candidate_ids : ∀ ns, gen_frame_law improvement_step view inv (ids_next ns);
  frame_qualify : gen_frame_law improvement_step view inv workspace_qualify;
  frame_workspace_create : ∀ input, gen_frame_law improvement_step view inv (workspace_create input);
  frame_workspace_validate : ∀ ref profiles, gen_frame_law improvement_step view inv (workspace_validate ref profiles);
  frame_workspace_compare : ∀ ref inputs d, gen_frame_law improvement_step view inv (workspace_compare ref inputs d);
  frame_packageArtifact : ∀ ref e space, gen_frame_law improvement_step view inv (workspace_packageArtifact ref e space);
  law_workspace_patch : ∀ input, triple improvement_step view inv (λ s, table_sound s ∧ prepared input s)
    (workspace_patch input) (λ r _, patch_reported (pt_workspaceRef input) r.1 r.2);
  law_quarantine : ∀ ref reasonCode, triple improvement_step view inv (λ s, table_sound s ∧ quarantined ref reasonCode s)
    (workspace_quarantine ref reasonCode) (λ _ _, True);
  law_raise : ∀ a, triple improvement_step view inv (λ s, table_sound s ∧ announced a s) (attention_raise a) (λ _ _, True);
  law_dispose : ∀ ref, triple improvement_step view inv (λ s, table_sound s ∧ disposable ref s) (workspace_dispose ref)
    (λ _ _, True);
}.

Section runs.
Context {reports : PatchReports} {W : Type}.
Context `{!ImprovementStatePort W, !CandidateWorkspacePort W, !ClockPort W, !IdGeneratorPort W}.
Context `{!ImprovementSecurityAttentionPort W} (view : W → candidates) (inv : W → Prop).
Context `{!ImprovementStateLaws view inv, !CandidatePortLaws view inv}.
Abbreviation step := improvement_step (only parsing).
Abbreviation triple := (triple improvement_step view inv) (only parsing).
Abbreviation frame := (gen_frame_law improvement_step view inv) (only parsing).
Abbreviation moves := (rtc candidate_move) (only parsing).
Hint Resolve frame_candidate_clock frame_candidate_ids frame_qualify frame_workspace_create frame_workspace_validate
  frame_workspace_compare frame_packageArtifact : frames.

(** [c] was seen in a sound table. *)
Definition tracks (c : ImprovementCandidate) (s : candidates) : Prop := table_sound s ∧ known c s.

#[local] Instance tracks_stable c : Stable step (tracks c) := known_stable c.

Lemma tracks_sound c s : tracks c s → candidate_sound c.
Proof. by intros [_ [H _]]. Qed.

(** The stored candidate evolved from the one that was seen. *)
Lemma tracks_stored c s : tracks c s → ∃ c', s !! ic_id c = Some c' ∧ ic_id c' = ic_id c ∧ candidate_sound c' ∧ evolves c c' ∧ moves c c'.
Proof.
  intros [Hs [Hc (c' & Hk & Hm)]]. exists c'. destruct (Hs _ _ Hk) as [Hid Hc']. do 3 (split; [done|]).
  split; [|done]. by apply candidate_moves_sound.
Qed.

Lemma tracks_with c s (φ : ImprovementCandidate → Prop) : tracks c s → (∀ c', evolves c c' → φ c') → stored_with φ s.
Proof.
  intros H Hφ. destruct (tracks_stored _ _ H) as (c' & Hk & Hid & _ & He & _). exists c'. rewrite Hid. auto.
Qed.

(** ** Saving *)
Lemma candidate_save_triple p q : candidate_update p q →
  triple (tracks p) (save_candidate p q) (λ c s, tracks c s ∧ ∃ now, c = stamped p q now).
Proof.
  intros Hu. unfold save_candidate. apply triple_bind_frame; [apply _|solve_frame|]. intros now.
  eapply triple_op; [apply _|apply law_improvement_save|]. intros c s s' Ht (p' & Hk & Hv & _ & _ & -> & ->).
  destruct (tracks_stored _ _ Ht) as (p1 & Hk1 & Hid & _ & _ & Hm). pose proof (tracks_sound _ _ Ht) as Hp.
  assert (candidate_move p (stamped p q now)) as Hmove by (by exists q, now).
  assert (ic_id (stamped p q now) = ic_id p) as Hid' by (by eapply move_id).
  rewrite Hid' in Hk. assert (p' = p1) as -> by congruence.
  assert (p1 = p) as -> by (destruct (moves_revision _ _ Hm) as [->|]; [done|lia]).
  assert (step s (<[ic_id (stamped p q now) := stamped p q now]> s)) as Hs by (by eapply step_updated).
  split; [by apply rtc_once|]. split; [|by exists now]. destruct Ht as [Hts _]. pose proof (step_table_sound _ _ Hts Hs) as Hts'.
  split; [done|]. eapply stored_known; [done|]. apply lookup_insert_eq.
Qed.

(** Saving what was seen leads to a later revision. *)
Definition leads (p c : ImprovementCandidate) (s : candidates) : Prop := tracks c s ∧ moves p c.

#[local] Instance leads_stable p c : Stable step (leads p c).
Proof. apply stable_and; apply _. Qed.

Lemma save_leads p0 p q : candidate_update p q →
  triple (leads p0 p) (save_candidate p q) (λ c s, leads p0 c s ∧ ∃ now, c = stamped p q now).
Proof.
  intros Hu. eapply triple_conseq; [exact (triple_keep _ _ _ (λ _, moves p0 p) _ _ _ (candidate_save_triple p q Hu))|intros s [? ?]; by split|].
  intros c s (Hm & Ht & now & ->). split; [|by exists now]. split; [done|]. eapply rtc_r; [done|]. by exists q, now.
Qed.

Lemma candidate_read_triple scope id (P : candidates → Prop) `{!Stable step (λ s, table_sound s ∧ P s)} :
  triple (λ s, table_sound s ∧ P s) (improvement_read scope id) (λ o s, (table_sound s ∧ P s) ∧ o = lookup_candidate scope id s).
Proof. apply triple_reads; [apply _|apply law_improvement_read]. Qed.

Lemma lookup_tracks scope id c s : table_sound s → lookup_candidate scope id s = Some c → tracks c s ∧ ic_id c = id ∧ candidate_scope c = scope.
Proof.
  unfold lookup_candidate. intros Hs H. destruct (s !! id) as [c'|] eqn:Hk; [|done]. cbn in H. destruct (_ && _) eqn:E; [|done].
  injection H as ->. split; [split; [done|by eapply stored_known]|]. split; [by apply (Hs _ _ Hk)|].
  guards_in E. destruct E as [E1 E2]. destruct scope. cbn in *. unfold candidate_scope. by rewrite E1, E2.
Qed.

Lemma lookup_found c s : tracks c s → ∃ c', lookup_candidate (candidate_scope c) (ic_id c) s = Some c' ∧ evolves c c'.
Proof.
  intros H. destruct (tracks_stored _ _ H) as (c' & Hk & _ & _ & He & _). exists c'. split; [|done].
  unfold lookup_candidate. rewrite Hk. cbn. rewrite (ev_proposal _ _ He). by rewrite !bool_decide_eq_true_2.
Qed.

(** ** The response to a security failure *)
Definition resolved (c : ImprovementCandidate) : Prop :=
  ∀ r, ic_security c = Some r → sx_status r = response_completed.

(** A call that is trusted when a condition holds of the stored candidate. *)
Lemma port_call {A} (P Pre : candidates → Prop) `{!Stable step P} (m : M exn W A) :
  triple (λ s, table_sound s ∧ Pre s) m (λ _ _, True) → (∀ s, P s → table_sound s ∧ Pre s) → triple P m (λ _, P).
Proof.
  intros H HP. eapply triple_conseq; [exact (triple_keep _ _ _ P _ _ _ H)| |].
  - intros s Hs. split; [done|]. by apply HP.
  - by intros a s [Hs _].
Qed.

Lemma quarantine_triple p0 c : triple (leads p0 c) (quarantine_step c)
  (λ c' s, leads p0 c' s ∧ ∀ r, ic_security c' = Some r → sx_status r ≠ quarantine_pending).
Proof.
  unfold quarantine_step. destruct (ic_security c) as [r|] eqn:Er; [|apply triple_ret; intros s Hs; split; [done|]; by rewrite Er].
  case_bool_decide as Hr; [|apply triple_ret; intros s Hs; split; [done|]; rewrite Er; by intros r' [= <-]].
  eapply triple_bind.
  - apply (port_call _ (quarantined (ic_workspaceRef c) (sx_reasonCode r))); [apply law_quarantine|].
    intros s [Ht _]. split; [apply Ht|]. apply (tracks_with c); [done|]. intros c' He. split; [unfold ic_workspaceRef; by rewrite (ev_proposal _ _ He)|].
    destruct (ev_response _ _ He r Er) as (r' & Hr' & _ & Hc & _). by exists r'.
  - intros []. cbn beta. eapply triple_post; [by apply save_leads, update_quarantined|]. intros c' s (Hs & now & ->).
    split; [done|]. by intros r' [= <-].
Qed.

Lemma attention_triple p0 c : (∀ r, ic_security c = Some r → sx_status r ≠ quarantine_pending) →
  triple (leads p0 c) (attention_step c) (λ c' s, leads p0 c' s ∧ resolved c').
Proof.
  intros Hq. unfold attention_step, resolved. destruct (ic_security c) as [r|] eqn:Er; [|apply triple_ret; intros s Hs; split; [done|]; by rewrite Er].
  case_bool_decide as Hr; [|apply triple_ret; intros s Hs; split; [done|]; rewrite Er; intros r' [= <-]; specialize (Hq r eq_refl); by destruct (sx_status r)].
  eapply triple_bind.
  - apply (port_call _ (announced (attention_of c r))); [apply law_raise|]. intros s [Ht _]. split; [apply Ht|]. apply (tracks_with c); [done|].
    intros c' He. destruct (ev_response _ _ He r Er) as (r' & Hr' & Hle & Hc & Hkey & _). exists r'. split; [done|]. split.
    { intros Hx. cbn in Hle. rewrite Hr, Hx in Hle. lia. }
    pose proof (ev_proposal _ _ He) as Hp. unfold attention_of, ic_id, candidateSecurityAttentionKey. rewrite Hp, Hc, Hkey. split; [done|].
    cbn. by apply (so_response c (tracks_sound _ _ Ht)).
  - intros []. cbn beta. eapply triple_post; [by apply save_leads, update_raised|]. intros c' s (Hs & now & ->).
    split; [done|]. by intros r' [= <-].
Qed.

Lemma resume_triple p0 c : triple (leads p0 c) (resumeSecurityResponse c) (λ c' s, leads p0 c' s ∧ resolved c').
Proof.
  eapply triple_bind; [apply quarantine_triple|]. intros c'. cbn beta.
  apply (triple_pre _ _ _ (λ s, (∀ r, ic_security c' = Some r → sx_status r ≠ quarantine_pending) ∧ leads p0 c' s)); [|by intros s [? ?]].
  apply triple_pure, attention_triple.
Qed.

Lemma leads_closed p c s : tracks p s → leads p c s → is_closed (cc_status p) = true → is_closed (cc_status c) = true.
Proof. intros Hp [_ Hm]. by apply (candidate_moves_sound _ _ Hm (tracks_sound _ _ Hp)). Qed.

Definition closed_off (p c : ImprovementCandidate) (s : candidates) : Prop :=
  leads p c s ∧ is_closed (cc_status c) = true ∧ resolved c.

Lemma leads_refl c s : tracks c s → leads c c s.
Proof. by split. Qed.

Lemma failure_triple c reasonCode : triple (tracks c) (securityFailure c reasonCode) (closed_off c).
Proof.
  unfold securityFailure. destruct (is_closed (cc_status c)) eqn:Hc.
  - eapply triple_conseq; [exact (triple_keep _ _ _ (tracks c) _ _ _ (resume_triple c c))|intros s Hs; split; [done|by apply leads_refl]|].
    intros c' s (Ht & Hl & Hr). split; [done|]. split; [by eapply leads_closed|done].
  - apply triple_bind_frame; [apply _|solve_frame|]. intros now. eapply triple_bind.
    { eapply triple_pre; [by apply (save_leads c), update_failed|]. intros s. apply leads_refl. }
    intros failed. cbn beta. eapply (triple_pre _ _ _ (λ s, (∃ now', failed = stamped c (failed_candidate c reasonCode now) now') ∧ leads c failed s)).
    2: { intros s [? ?]. by split. }
    apply triple_pure. intros (now' & Hf).
    eapply triple_conseq; [exact (triple_keep _ _ _ (leads c failed) _ _ _ (resume_triple failed failed))| |].
    { intros s Hs. split; [done|]. apply leads_refl, Hs. }
    intros c' s ([Ht Hm] & [Ht' Hm'] & Hr). split; [split; [done|by transitivity failed]|]. split; [|done].
    apply (leads_closed failed _ s); [done|by split|]. by rewrite Hf.
Qed.

(** ** Proposing, and what is required *)
Lemma propose_improvement_triple input : triple table_sound (propose_improvement input) (λ c s, tracks c s ∧ fresh_candidate c).
Proof.
  unfold propose_improvement. set (ok := λ allowed, normalizeCandidateScopes (pi_allowedPaths input) = Ok allowed).
  eapply triple_bind with (Q := λ allowed s, ok allowed ∧ table_sound s); [apply triple_lift; by intros allowed s|].
  intros allowed. apply triple_pure. intros Ha.
  eapply triple_bind with (Q := λ unsafe s, (unsafe = false → is_digest (pi_baseDigest input) = true ∧ pi_invariantRefs input ≠ [] ∧
    1 ≤ pi_spaceBudgetBytes input ≤ MAX_SAFE_INTEGER) ∧ table_sound s).
  { destruct (_ || _) eqn:E; [by apply triple_ret|]. apply orb_false_iff in E as [[E1 _]%orb_false_iff E3].
    apply negb_false_iff in E1. apply bool_decide_eq_false in E3.
    apply triple_bind_frame; [apply _|solve_frame|]. intros now. apply triple_ret. intros s Hs. split; [|done].
    rewrite !orb_false_iff, Z.ltb_ge, negb_false_iff. unfold isSafeInteger. rewrite Z.leb_le. intros [[_ H1] H2].
    split; [done|]. split; [done|]. unfold MAX_SAFE_INTEGER in *. lia. }
  intros unsafe. apply triple_pure. intros Hsafe.
  eapply triple_bind with (Q := λ _ s, unsafe = false ∧ table_sound s); [apply triple_throwM_if; by intros s ? ?|].
  intros []. apply triple_pure. intros Hu. destruct (Hsafe Hu) as (Hd & Hi & Hspace).
  apply triple_bind_frame; [apply _|solve_frame|]. intros qualification.
  eapply triple_bind with (Q := λ _, table_sound); [by apply triple_throwM_if|]. intros [].
  apply triple_bind_frame; [apply _|solve_frame|]. intros id.
  apply triple_bind_frame; [apply _|solve_frame|]. intros ref.
  apply triple_bind_frame; [apply _|solve_frame|]. intros now.
  assert (fresh_candidate (proposed_candidate input id ref allowed now)) as Hf.
  { split. exists input, id, ref, allowed, now. auto. }
  eapply triple_op; [apply _|apply law_improvement_create|]. intros c s s' Hs (_ & Hn & -> & ->).
  assert (step s (<[ic_id (proposed_candidate input id ref allowed now) := proposed_candidate input id ref allowed now]> s)) as Hst
    by by apply step_proposed.
  split; [by apply rtc_once|]. split; [|done]. pose proof (step_table_sound _ _ Hs Hst) as Hs'. split; [done|].
  eapply stored_known; [done|]. apply lookup_insert_eq.
Qed.

Lemma required_triple scope id : triple table_sound (required_candidate scope id)
  (λ c s, tracks c s ∧ ic_id c = id ∧ candidate_scope c = scope).
Proof.
  unfold required_candidate. eapply triple_bind.
  - eapply triple_pre; [apply (candidate_read_triple scope id (λ _, True))|]. by intros s Hs.
  - intros [c|]; cbn beta iota; [|apply triple_throw].
    apply (triple_pre _ _ _ (λ s, (ic_id c = id ∧ candidate_scope c = scope) ∧ tracks c s)).
    2: { intros s [[Hs _] Hl]. by apply and_comm, lookup_tracks. }
    apply triple_pure. intros Hid. apply triple_bind_frame; [apply _|solve_frame|]. intros now.
    eapply triple_bind with (Q := λ _, tracks c); [by apply triple_throwM_if|]. intros []. by apply triple_ret.
Qed.

Lemma review_triple input : triple table_sound (review_candidate input)
  (λ c s, tracks c s ∧ ic_id c = rw_candidateId input ∧ cc_revision c = rw_expectedRevision input + 1 ∧
     cc_status c = if rw_decision input === review_reject then candidate_rejected else candidate_revision_requested).
Proof.
  unfold review_candidate. eapply triple_bind; [apply required_triple|]. intros p. cbn beta.
  apply (triple_pre _ _ _ (λ s, (ic_id p = rw_candidateId input) ∧ tracks p s)); [|by intros s (? & ? & _)].
  apply triple_pure. intros Hid. eapply triple_bind with (Q := λ _ s, (cc_revision p = rw_expectedRevision input ∧
    cc_status p = candidate_review_required) ∧ tracks p s).
  { apply triple_throwM_if. intros s Hg Hs. apply orb_false_iff in Hg as [H1 H2]. guards_in H1. guards_in H2. done. }
  intros []. apply triple_pure. intros [Hr Hs]. eapply triple_post; [by apply candidate_save_triple, update_reviewed|].
  intros c s (Ht & now & ->). split; [done|]. split; [exact Hid|]. cbn. split; [lia|done].
Qed.

(** ** Patch, validate, compare *)
Definition checked (input : PatchValidateInput) (c : ImprovementCandidate) : Prop :=
  is_closed (cc_status c) = true ∨ cc_status c = candidate_rejected_by_validation ∨
  (cc_status c = candidate_review_required ∧ cc_patchRef c = Some (pv_patchRef input) ∧
   ∃ comparison, cc_comparison c = Some comparison ∧ im_inputSetDigest comparison = pv_inputSetDigest input).

Definition check_result (input : PatchValidateInput) (c : ImprovementCandidate) (s : candidates) : Prop :=
  tracks c s ∧ ic_id c = pv_candidateId input ∧ checked input c.

Lemma failure_result input p reasonCode : ic_id p = pv_candidateId input →
  triple (tracks p) (securityFailure p reasonCode) (check_result input).
Proof.
  intros Hid. eapply triple_conseq; [exact (triple_keep _ _ _ (tracks p) _ _ _ (failure_triple p reasonCode))|by intros s Hs|].
  intros c s (Hp & [Ht Hm] & Hc & _). split; [done|]. split; [|by left].
  unfold ic_id. rewrite (ev_proposal _ _ (proj2 (candidate_moves_sound _ _ Hm (tracks_sound _ _ Hp)))). exact Hid.
Qed.

(** The promise a body returns leads to a result. *)
Definition promises (input : PatchValidateInput) (m : M exn W ImprovementCandidate) (s : candidates) : Prop :=
  ∃ R : candidates → Prop, R s ∧ triple R m (check_result input).

Lemma promise_failure input p reasonCode : ic_id p = pv_candidateId input →
  triple (tracks p) (mret (securityFailure p reasonCode) : M exn W (M exn W ImprovementCandidate)) (promises input).
Proof. intros Hid. apply triple_ret. intros s Hs. exists (tracks p). split; [done|]. by apply failure_result. Qed.

Lemma promise_save input p q : candidate_update p q → ic_id q = pv_candidateId input → (∀ now, checked input (stamped p q now)) →
  triple (tracks p) (mret (save_candidate p q) : M exn W (M exn W ImprovementCandidate)) (promises input).
Proof.
  intros Hu Hid Hc. apply triple_ret. intros s Hs. exists (tracks p). split; [done|].
  eapply triple_post; [by apply candidate_save_triple|]. intros c s' (Ht & now & ->). split; [done|]. split; [exact Hid|apply Hc].
Qed.

Lemma patch_triple input patching : ic_id patching = pv_candidateId input →
  cc_status patching = candidate_patching → cc_patchRef patching = Some (pv_patchRef input) →
  triple (tracks patching) (patch_body input patching) (promises input).
Proof.
  intros Hid Hs Hr. unfold patch_body. set (request := mkPatch _ _ _ _).
  eapply triple_bind.
  { eapply triple_pre; [exact (triple_keep _ _ _ (tracks patching) _ _ _ (law_workspace_patch request))|].
    intros s Ht. split; [done|]. split; [apply Ht|]. apply (tracks_with patching); [done|]. intros c' He. unfold ic_workspaceRef.
    by rewrite (ev_proposal _ _ He). }
  intros [digest paths]. cbn [fst snd]. apply (triple_pre _ _ _ (λ s, patch_reported (ic_workspaceRef patching) digest paths ∧ tracks patching s));
    [|by intros s [? ?]]. apply triple_pure. intros Hrep.
  eapply triple_bind with (Q := λ inside s, candidatePathsWithinScopes paths (pr_allowedPaths (cc_proposal patching)) = Ok inside ∧
    tracks patching s); [by apply triple_lift|].
  intros inside. apply triple_pure. intros Hin. destruct inside; cbn [negb]; [|by apply promise_failure].
  eapply triple_bind; [apply candidate_save_triple, update_validating; [done|]; by exists paths|]. intros v. cbn beta.
  apply (triple_pre _ _ _ (λ s, (∃ now, v = stamped patching (validating_candidate patching digest) now) ∧ tracks v s)); [|by intros s [? ?]].
  apply triple_pure. intros (now & Hv).
  assert (ic_id v = pv_candidateId input ∧ cc_status v = candidate_validating ∧ cc_patchRef v = Some (pv_patchRef input)) as (Hidv & Hsv & Hrv)
    by (rewrite Hv; cbn; split; [exact Hid|by split]).
  clear Hv. apply triple_bind_frame; [apply _|solve_frame|]. intros validation.
  destruct (existsb _ validation) eqn:Ev.
  { apply promise_save; [by apply update_invalid|exact Hidv|]. intros now'. right. by left. }
  apply triple_bind_frame; [apply _|solve_frame|]. intros comparison.
  case_bool_decide as Hcmp; cbn [negb]; [|by apply promise_failure].
  apply triple_bind_frame; [apply _|solve_frame|]. intros [ref d]. cbn [fst snd].
  destruct (is_digest d) eqn:Ed; cbn [negb]; [|by apply promise_failure].
  apply promise_save; [apply update_completed; [done| |done]|exact Hidv|].
  - apply Forall_forall. intros x Hx. apply existsb_false with (x := x) in Ev; [|done]. by guards_in Ev.
  - intros now'. right; right. split; [done|]. split; [exact Hrv|]. by exists comparison.
Qed.

Lemma patch_failed_triple input patching error : ic_id patching = pv_candidateId input →
  triple (tracks patching) (patch_failed patching error) (check_result input).
Proof.
  intros Hid. unfold patch_failed. eapply triple_bind; [apply (candidate_read_triple _ _ (known patching))|]. intros latest. cbn beta.
  apply (triple_pre _ _ _ (λ s, ic_id (default patching latest) = pv_candidateId input ∧ tracks (default patching latest) s)).
  - apply triple_pure. intros Hl. by apply failure_result.
  - intros s [Ht ->]. destruct (lookup_candidate _ _ s) as [c|] eqn:El; cbn; [|done].
    destruct (lookup_tracks _ _ _ _ (proj1 Ht) El) as (Hc & Hidc & _). split; [congruence|done].
Qed.

Lemma check_profiles_frame c profiles : frame (check_profiles c profiles).
Proof. induction profiles as [|p profiles IH]; cbn [check_profiles]; [apply frame_ret|]. unfold throwM_if. solve_frame. Qed.

Lemma patchValidateCompare_triple input : triple table_sound (patchValidateCompare input) (check_result input).
Proof.
  unfold patchValidateCompare. eapply triple_bind; [apply required_triple|]. intros p. cbn beta.
  apply (triple_pre _ _ _ (λ s, ic_id p = pv_candidateId input ∧ tracks p s)); [|by intros s (? & ? & _)].
  apply triple_pure. intros Hid. eapply triple_bind with (Q := λ _ s,
    (cc_status p = candidate_proposed ∨ cc_status p = candidate_rejected_by_validation) ∧ tracks p s).
  { apply triple_throwM_if. intros s Hg Hs. split; [|done]. apply andb_false_iff in Hg as [Hg|Hg]; guards_in Hg; [by left|by right]. }
  intros []. apply triple_pure. intros Hs.
  apply triple_bind_frame; [apply _| |].
  { apply frame_try_catch; [|intros x; apply frame_ret]. apply frame_bind; [|intros []; apply frame_ret].
    unfold assertProfiles, throwM_if. apply frame_bind; [apply frame_lift|intros []; apply check_profiles_frame]. }
  intros allowed. destruct allowed; cbn [negb]; [|by apply failure_result].
  eapply triple_bind; [by apply candidate_save_triple, update_patching|]. intros patching. cbn beta.
  apply (triple_pre _ _ _ (λ s, (∃ now, patching = stamped p (patching_candidate p (pv_patchRef input)) now) ∧ tracks patching s)); [|by intros s [? ?]].
  apply triple_pure. intros (now & Hp). assert (ic_id patching = pv_candidateId input) as Hidp by (by rewrite Hp).
  apply triple_try_tail; [apply _| |].
  - apply patch_triple; [done|by rewrite Hp..].
  - intros x. by apply patch_failed_triple.
Qed.

(** ** Self-activation *)
Lemma self_activation_triple scope id action : triple table_sound (record_self_activation scope id action)
  (λ c s, tracks c s ∧ ic_id c = id ∧ (action ∈ SELF_ACTIVATION_ACTIONS → is_closed (cc_status c) = true ∧ resolved c)).
Proof.
  unfold record_self_activation. eapply triple_bind; [apply required_triple|]. intros p. cbn beta.
  apply (triple_pre _ _ _ (λ s, ic_id p = id ∧ tracks p s)); [|by intros s (? & ? & _)]. apply triple_pure. intros Hid.
  unfold includes. case_bool_decide as Ha; [|apply triple_ret; intros s Hs; by split].
  eapply triple_conseq; [exact (triple_keep _ _ _ (tracks p) _ _ _ (failure_triple p _))|by intros s Hs|].
  intros c s (Hp & [Ht Hm] & Hc & Hr). split; [done|]. split; [|done].
  unfold ic_id. by rewrite (ev_proposal _ _ (proj2 (candidate_moves_sound _ _ Hm (tracks_sound _ _ Hp)))).
Qed.

(** ** Expiry *)
Definition cleaned (c : ImprovementCandidate) : Prop := cleanup_rank (ic_cleanup c) = 2 ∧ resolved c.

Lemma cleanup_closed c : candidate_sound c → ic_cleanup c ≠ cleanup_not_requested → is_closed (cc_status c) = true.
Proof. intros Hc Hn. by destruct (proj1 (so_cleanup _ Hc) Hn) as [-> | ->]. Qed.

Lemma resolved_evolves p c : evolves p c → is_closed (cc_status p) = true → resolved p → resolved c.
Proof.
  intros He Hc Hp r Hr. destruct (ic_security p) as [r0|] eqn:E.
  - destruct (ev_response _ _ He r0 E) as (r' & Hr' & Hle & _). assert (r' = r) as -> by congruence.
    cbn in Hle. rewrite (Hp r0 E) in Hle. destruct (sx_status r); [lia|lia|done].
  - rewrite (ev_quiet _ _ He Hc E) in Hr. done.
Qed.

Lemma cleaned_evolves p c : candidate_sound p → evolves p c → cleaned p → cleaned c.
Proof.
  intros Hp He [Hc Hr]. split.
  - pose proof (ev_cleanup _ _ He) as Hle. rewrite Hc in Hle. by destruct (ic_cleanup c).
  - apply (resolved_evolves p); [done| |done]. apply cleanup_closed; [done|]. intros E. by rewrite E in Hc.
Qed.

Definition cleaned_in (id : string) (s : candidates) : Prop := ∃ c, s !! id = Some c ∧ cleaned c.

#[local] Instance cleaned_stable id : Stable step (λ s, table_sound s ∧ cleaned_in id s).
Proof.
  intros s s' [Hs (c & Hk & Hc)] Hst. split; [by eapply step_table_sound|].
  pose proof (stored_known _ _ _ Hs Hk) as Hkn. destruct (known_stable c _ _ (conj Hs Hkn) Hst) as [Hs' Hkn'].
  destruct (tracks_stored c s' (conj Hs' Hkn')) as (c' & Hk' & Hid & _ & He & _). exists c'.
  rewrite <-(proj1 (Hs _ _ Hk)). split; [done|]. eapply cleaned_evolves; [by apply (Hs _ _ Hk)|done|done].
Qed.

Lemma request_triple c now : needs_no_cleanup c now = false →
  triple (tracks c) (request_cleanup c now) (λ c' s, leads c c' s ∧ ic_cleanup c' ≠ cleanup_not_requested ∧ ic_security c' = ic_security c).
Proof.
  intros Hn. unfold request_cleanup, needs_no_cleanup in *. destruct (ic_cleanup c) as [|a e|a b] eqn:Ec; cbn; [| |done].
  - eapply triple_conseq; [apply (save_leads c c), update_expired; [done|]|intros s Hs; by apply leads_refl|].
    + unfold str_le. apply negb_true_iff. exact Hn.
    + intros c' s (Hl & now' & ->). by split.
  - apply triple_ret. intros s Hs. split; [by apply leads_refl|by rewrite Ec].
Qed.

Lemma leads_evolves p c s : candidate_sound p → leads p c s → evolves p c.
Proof. intros Hp [_ Hm]. by apply (candidate_moves_sound _ _ Hm). Qed.

Lemma dispose_failed_triple saved error (Q : unit → candidates → Prop) :
  triple (tracks saved) (dispose_failed (candidate_scope saved) saved error) Q.
Proof.
  unfold dispose_failed. eapply triple_bind; [apply (candidate_read_triple _ _ (known saved))|]. intros latest. cbn beta.
  eapply triple_bind with (Q := λ _ _, True); [|intros _; apply triple_throw].
  destruct latest as [latest|]; [|by apply triple_ret]. apply (triple_pre _ _ _ (tracks latest)).
  - destruct (ic_cleanup latest) eqn:Ec; try by apply triple_ret.
    eapply triple_bind; [by eapply candidate_save_triple, update_undisposed|]. intros c. by apply triple_ret.
  - intros s [Ht Hl]. by destruct (lookup_tracks _ _ _ _ (proj1 Ht) (eq_sym Hl)).
Qed.

Lemma clean_up_triple c now : needs_no_cleanup c now = false → resolved c →
  triple (tracks c) (clean_up (candidate_scope c) c now) (λ c' s, tracks c' s ∧ ic_id c' = ic_id c ∧ cleaned c').
Proof.
  intros Hn Hr. apply (triple_pre _ _ _ (λ s, candidate_sound c ∧ tracks c s)); [|intros s Hs; split; [by eapply tracks_sound|done]].
  apply triple_pure. intros Hc. unfold clean_up.
  eapply triple_bind; [by apply request_triple|]. intros saved. cbn beta.
  apply (triple_pre _ _ _ (λ s, (candidate_sound saved ∧ evolves c saved ∧ ic_cleanup saved ≠ cleanup_not_requested ∧ resolved saved) ∧ tracks saved s)).
  2: { intros s (Hl & Hcl & Hse). split; [|apply Hl]. split; [by eapply tracks_sound, Hl|].
       split; [by eapply leads_evolves|]. split; [done|]. unfold resolved. by rewrite Hse. }
  apply triple_pure. intros (Hsaved & He & Hcl & Hrs).
  assert (candidate_scope c = candidate_scope saved ∧ ic_id saved = ic_id c) as [-> Hid]
    by (unfold candidate_scope, ic_id; by rewrite (ev_proposal _ _ He)).
  eapply triple_bind with (Q := λ _, tracks saved).
  { apply triple_try_catch; [apply _| |intros x; apply dispose_failed_triple].
    apply (port_call _ (disposable (ic_workspaceRef saved))); [apply law_dispose|]. intros s Ht. split; [apply Ht|].
    apply (tracks_with saved); [done|]. intros c' He'. split; [unfold ic_workspaceRef; by rewrite (ev_proposal _ _ He')|].
    pose proof (ev_cleanup _ _ He') as Hle. intros E. rewrite E in Hle. by destruct (ic_cleanup saved). }
  intros []. cbn beta. eapply triple_bind; [apply (candidate_read_triple _ _ (known saved))|]. intros latest. cbn beta.
  destruct latest as [latest|]; [|apply triple_throw].
  apply (triple_pre _ _ _ (λ s, evolves saved latest ∧ tracks latest s)).
  2: { intros s [Ht Hl]. destruct (lookup_tracks _ _ _ _ (proj1 Ht) (eq_sym Hl)) as [Htl _]. split; [|done].
       destruct (lookup_found _ _ Ht) as (c' & Hc' & He'). by replace latest with c' by congruence. }
  apply triple_pure. intros Hel.
  assert (resolved latest) as Hrl by (eapply resolved_evolves; [exact Hel|by apply cleanup_closed|done]).
  assert (ic_id latest = ic_id c) as Hidl by (rewrite <-Hid; unfold ic_id; by rewrite (ev_proposal _ _ Hel)).
  pose proof (ev_cleanup _ _ Hel) as Hle. destruct (ic_cleanup latest) as [|a e|a b] eqn:Ec.
  - destruct (ic_cleanup saved); done.
  - eapply triple_post; [by eapply candidate_save_triple, update_cleaned|]. intros c' s (Ht & now' & ->). split; [done|].
    split; [exact Hidl|]. by split.
  - apply triple_ret. intros s Hs. split; [done|]. split; [done|]. split; [by rewrite Ec|done].
Qed.

(** Candidates seen earlier, in scope. *)
Definition all_tracked (scope : AutonomyScope) (l : list ImprovementCandidate) (s : candidates) : Prop :=
  table_sound s ∧ Forall (λ c, known c s ∧ candidate_scope c = scope) l.

#[local] Instance all_tracked_stable scope l : Stable step (all_tracked scope l).
Proof.
  intros s s' [Hs Hl] Hst. split; [by eapply step_table_sound|]. eapply Forall_impl; [exact Hl|].
  intros c [Hc Hsc]. split; [|done]. by apply (known_stable c s s').
Qed.

(** What the expiry of these candidates has reached. *)
Definition expired_all (now : string) (l : list ImprovementCandidate) (s : candidates) : Prop :=
  table_sound s ∧ Forall (λ c, str_le (ic_expiresAt c) now = true → cleaned_in (ic_id c) s) l.

#[local] Instance expired_all_stable now l : Stable step (expired_all now l).
Proof.
  intros s s' [Hs Hl] Hst. split; [by eapply step_table_sound|]. eapply Forall_impl; [exact Hl|].
  intros c Hc Hx. by apply (cleaned_stable (ic_id c) s s' (conj Hs (Hc Hx)) Hst).
Qed.

(** One candidate, whose response is resumed first. *)
Lemma expire_each_triple scope now l : triple (all_tracked scope l) (expire_each scope now l)
  (λ cleanedUp s, expired_all now l s ∧ Forall cleaned cleanedUp).
Proof.
  induction l as [|o l IH]; cbn [expire_each]; [apply triple_ret; intros s [Hs _]; split; [split; [done|constructor]|constructor]|].
  apply (triple_pre _ _ _ (λ s, candidate_scope o = scope ∧ (all_tracked scope l s ∧ tracks o s))).
  2: { intros s [Hs [[Ho Hsc] Hl]%Forall_cons]. split; [done|]. by split. }
  apply triple_pure. intros <-. set (scope := candidate_scope o).
  eapply triple_bind; [exact (triple_keep _ _ _ (all_tracked scope l) _ _ _ (candidate_read_triple scope (ic_id o) (known o)))|].
  intros observed. cbn beta. destruct observed as [c|].
  2: { intros w r w' _ (_ & Ht & Hr) _. destruct (lookup_found _ _ Ht) as (c & Hc & _). subst scope. congruence. }
  apply (triple_pre _ _ _ (λ s, (evolves o c ∧ candidate_sound c) ∧ (all_tracked scope l s ∧ tracks c s))).
  2: { intros s (Hl & Ht & Hr). destruct (lookup_found _ _ Ht) as (c' & Hc & He). assert (c' = c) as -> by (subst scope; congruence).
       destruct (lookup_tracks _ _ _ _ (proj1 Ht) (eq_sym Hr)) as [Htc _]. split; [|done]. split; [done|]. by eapply tracks_sound. }
  apply triple_pure. intros [He Hc].
  eapply triple_bind; [exact (triple_keep _ _ _ (all_tracked scope l) _ _ _ (triple_pre _ _ _ _ _ _ _ (resume_triple c c) (leads_refl c)))|].
  intros p. cbn beta. apply (triple_pre _ _ _ (λ s, (evolves o p ∧ candidate_sound p ∧ resolved p) ∧ (all_tracked scope l s ∧ tracks p s))).
  2: { intros s (Hl & Hp & Hr). split; [|split; [done|apply Hp]]. split; [etrans; [exact He|by eapply leads_evolves]|].
       split; [|done]. by eapply tracks_sound, Hp. }
  apply triple_pure. intros (Hop & Hp & Hr).
  assert (candidate_scope p = scope ∧ ic_id p = ic_id o ∧ ic_expiresAt p = ic_expiresAt o) as (Hscope & Hid & Hexp)
    by (unfold scope, candidate_scope, ic_id, ic_expiresAt; by rewrite (ev_proposal _ _ Hop)).
  destruct (needs_no_cleanup p now) eqn:En.
  - eapply triple_conseq; [exact (triple_keep _ _ _ (tracks p) _ _ _ IH)|by intros s [? ?]|].
    intros cs s (Htp & [Hts Hl] & Hcs). split; [|done]. split; [done|]. constructor; [|done]. intros Hx.
    unfold needs_no_cleanup in En. rewrite Hexp in En. destruct (tracks_stored _ _ Htp) as (p' & Hk & _ & _ & Hep & _).
    exists p'. rewrite <-Hid. split; [done|]. destruct (ic_cleanup p) eqn:Ec; [|done|].
    + exfalso. unfold str_le in Hx. unfold str_lt in En. by rewrite En in Hx.
    + eapply cleaned_evolves; [exact Hp|exact Hep|]. split; [by rewrite Ec|done].
  - pose proof (clean_up_triple p now En Hr) as Hclean. rewrite Hscope in Hclean.
    eapply triple_bind; [exact (triple_keep _ _ _ (all_tracked scope l) _ _ _ Hclean)|].
    intros q. cbn beta. apply (triple_pre _ _ _ (λ s, (ic_id q = ic_id p ∧ cleaned q) ∧ (all_tracked scope l s ∧ tracks q s)));
      [|by intros s (? & ? & ? & ?)]. apply triple_pure. intros [Hq Hcq].
    eapply triple_bind; [eapply triple_pre; [exact (triple_keep _ _ _ (tracks q) _ _ _ IH)|by intros s [? ?]]|].
    intros cs. cbn beta. apply triple_ret. intros s (Htq & [Hts Hl] & Hcs). split; [|by constructor]. split; [done|].
    constructor; [|done]. intros _. destruct (tracks_stored _ _ Htq) as (q' & Hk & _ & _ & Heq & _).
    exists q'. rewrite <-Hid, <-Hq. split; [done|]. eapply cleaned_evolves; [by eapply tracks_sound|done|done].
Qed.

Lemma expire_candidates_triple ownerId agentId now : triple table_sound (expire_candidates ownerId agentId now)
  (λ l s, table_sound s ∧ Forall cleaned l).
Proof.
  unfold expire_candidates. apply triple_bind_frame; [apply _|destruct now; solve_frame|]. intros now'. clear now.
  eapply triple_bind; [apply triple_reads; [apply _|apply law_improvement_list]|]. intros l. cbn beta.
  eapply triple_conseq; [apply expire_each_triple| |by intros cs s [[Hs _] Hc]].
  intros s [Hs Hl]. split; [done|]. apply Forall_forall. intros c [id Hc]%Hl. by destruct (lookup_tracks _ _ _ _ Hs Hc) as ([_ ?] & _ & ?).
Qed.

(** ** The calls of the service, in any order *)
Inductive improvement_call :=
  | call_propose (input : ProposeImprovementInput)
  | call_patch (input : PatchValidateInput)
  | call_review (input : ReviewInput)
  | call_activate (scope : AutonomyScope) (candidateId action : string)
  | call_expire (ownerId : OwnerId) (agentId : AgentId) (now : option string).

Definition run_improvement_call (c : improvement_call) : M exn W unit :=
  match c with
  | call_propose input => propose_improvement input ;; mret tt
  | call_patch input => patchValidateCompare input ;; mret tt
  | call_review input => review_candidate input ;; mret tt
  | call_activate scope id action => rejectSelfActivation scope id action ;; mret tt
  | call_expire ownerId agentId now => expire_candidates ownerId agentId now ;; mret tt
  end.

(** Whether a call throws or not, the next one follows. *)
Fixpoint run_improvements (cs : list improvement_call) : M exn W unit :=
  match cs with
  | [] => mret tt
  | c :: cs => try_catch (run_improvement_call c) (λ _, mret tt) ;; run_improvements cs
  end.

Lemma run_improvement_call_triple c : triple table_sound (run_improvement_call c) (λ _, table_sound).
Proof.
  destruct c as [input|input|input|scope id action|ownerId agentId now]; cbn [run_improvement_call]; (eapply triple_bind; [|]).
  - apply propose_improvement_triple.
  - intros c. apply triple_ret. by intros s [[Hs _] _].
  - apply patchValidateCompare_triple.
  - intros c. apply triple_ret. by intros s [[Hs _] _].
  - apply review_triple.
  - intros c. apply triple_ret. by intros s [[Hs _] _].
  - unfold rejectSelfActivation. eapply triple_bind; [apply self_activation_triple|]. intros c. apply (triple_throw _ _ _ _ (λ _, table_sound)).
  - intros c. apply triple_ret. by intros s Hs.
  - apply expire_candidates_triple.
  - intros c. apply triple_ret. by intros s [Hs _].
Qed.

Lemma run_improvements_triple cs : triple table_sound (run_improvements cs) (λ _, table_sound).
Proof.
  induction cs as [|c cs IH]; [by apply triple_ret|]. cbn [run_improvements].
  eapply triple_bind with (Q := λ _, table_sound); [|intros _; exact IH].
  apply triple_try_catch; [apply _|apply run_improvement_call_triple|]. intros x. by apply triple_ret.
Qed.

(** C17 Improvement candidates stay well formed through any sequence of calls of
    the service, whether they throw or not and with anyone else calling it
    meanwhile: the proposal is frozen over a digest and normal paths; a
    candidate with a protected path is critical; it is up for review or decided
    only with every validation passed, a comparison and an artifact digest, and
    a patch that was reported to change paths within its scopes; a security
    failure always has a response. And no candidate disappears, re-opens after
    it was closed, or loses a fact, a cleanup or a response. *)
Theorem candidates_stay_sound cs w r w' :
  inv w → table_sound (view w) → run_improvements cs w = (r, w') →
  inv w' ∧ table_sound (view w') ∧
  ∀ id c, view w !! id = Some c → ∃ c', view w' !! id = Some c' ∧ evolves c c'.
Proof.
  intros Hi Hs H. destruct (run_improvements_triple cs _ _ _ Hi Hs H) as (Hi' & Hst & _). split; [done|].
  split; [exact (stable_rtc step table_sound _ _ Hs Hst)|]. intros id c Hk.
  pose proof (stored_known _ _ _ Hs Hk) as Hc. pose proof (stable_rtc step (tracks c) _ _ (conj Hs Hc) Hst) as Ht.
  destruct (tracks_stored _ _ Ht) as (c' & Hk' & _ & _ & He & _). exists c'. by rewrite <-(proj1 (Hs _ _ Hk)).
Qed.


(** A candidate is never activated: the call throws, and unless a port failed
    before, it throws its own error with the candidate closed and answered for. *)
Theorem self_activation_refused scope id action w r w' :
  inv w → table_sound (view w) → rejectSelfActivation scope id action w = (r, w') →
  ∃ x, r = Err x ∧
    (record_self_activation scope id action w = (Err x, w') ∨
     x = self_activation_error ∧
     (action ∈ SELF_ACTIVATION_ACTIONS →
        ∃ c : ImprovementCandidate, view w' !! id = Some c ∧ is_closed (cc_status c) = true ∧ resolved c)).
Proof.
  intros Hi Hs H. unfold rejectSelfActivation, mbind, M_bind in H.
  destruct (record_self_activation scope id action w) as [[c|x] w1] eqn:E; injection H as <- <-; [|exists x; by split; [|left]].
  exists self_activation_error. split; [done|]. right. split; [done|]. intros Ha.
  destruct (self_activation_triple scope id action _ _ _ Hi Hs E) as (_ & _ & Ht & Hid & Hc). destruct (Hc Ha) as [Hcl Hr].
  destruct (tracks_stored _ _ Ht) as (c' & Hk & _ & _ & He & _). rewrite Hid in Hk. exists c'. split; [done|].
  split; [by apply He|by eapply resolved_evolves].
Qed.

(** When an expiry returns, nothing that was stored and expired is left to
    do: each such candidate of the Owner and Agent is stored with its cleanup
    completed, after its workspace was disposed of, and with the response to a
    security failure completed; and so is each candidate it returns. *)
Theorem expired_candidates_cleaned ownerId agentId now w l w' :
  inv w → table_sound (view w) → expire_candidates ownerId agentId (Some now) w = (Ok l, w') →
  Forall cleaned l ∧
  ∀ id c, view w !! id = Some c → candidate_scope c = mkScope_ ownerId agentId → str_le (ic_expiresAt c) now = true →
    ∃ c', view w' !! id = Some c' ∧ evolves c c' ∧ cleaned c'.
Proof.
  intros Hi Hs H. unfold expire_candidates in H. change (mret now) with (@mret _ _ _ now : M exn W string) in H.
  unfold mbind, M_bind in H. cbn [mret M_ret] in H. unfold M_ret in H.
  destruct (improvement_list ownerId agentId w) as [[cs|x] w1] eqn:E; [|discriminate H].
  destruct (law_improvement_list ownerId agentId _ _ _ Hi E) as (Hi1 & s & Hst & Hl & Hv). rewrite <-Hv in *. clear s Hv.
  assert (∀ id c, view w !! id = Some c → tracks c (view w1)) as Htracks.
  { intros id c Hk. eapply (stable_rtc step (tracks c)); [|exact Hst]. split; [done|by eapply stored_known]. }
  assert (table_sound (view w1)) as Hs1 by exact (stable_rtc step table_sound _ _ Hs Hst).
  assert (all_tracked (mkScope_ ownerId agentId) cs (view w1)) as Hall.
  { split; [done|]. apply Forall_forall. intros c [id Hc]%Hl. by destruct (lookup_tracks _ _ _ _ Hs1 Hc) as ([_ ?] & _ & ?). }
  destruct (expire_each_triple _ _ _ _ _ _ Hi1 Hall H) as (_ & Hst2 & [Hs2 Hexp] & Hcl). split; [done|].
  intros id c Hk Hsc Hx. destruct (lookup_found _ _ (Htracks _ _ Hk)) as (c1 & Hc1 & He1). rewrite Hsc in Hc1.
  assert (c1 ∈ cs) as Hin by (apply Hl; by eexists).
  pose proof (proj1 (Hs _ _ Hk)) as Hid.
  assert (ic_id c1 = id ∧ ic_expiresAt c1 = ic_expiresAt c) as [Hid1 Hx1]
    by (rewrite <-Hid; unfold ic_id, ic_expiresAt; by rewrite (ev_proposal _ _ He1)).
  destruct (proj1 (Forall_forall _ _) Hexp c1 Hin) as (c2 & Hk2 & Hc2); [by rewrite Hx1|]. rewrite Hid1 in Hk2.
  pose proof (stable_rtc step (tracks c) _ _ (Htracks _ _ Hk) Hst2) as Ht2. destruct (tracks_stored _ _ Ht2) as (c3 & Hk3 & _ & _ & He3 & _).
  exists c2. split; [done|]. split; [|done]. rewrite Hid in Hk3. by replace c2 with c3 by congruence.
Qed.
End runs.
