(* ===== verification/ImprovementAdapter.v ===== *)
(** packages/application/src/services/durable-autonomy-state-adapter.ts, the
    class [DurableImprovementStateAdapter]: improvement candidates as JSON,
    with the recovery of those stored before cleanups and responses were; and
    the proof that the adapter keeps the promise of [ImprovementStatePort] that
    the improvement service is verified against, over any state store. *)
From S2P Require Import Prelude Js JsJson Identifiers Contract AuthTypes Deterministic InMemoryAuth Persistence DurableEntities.
From S2P Require Import Delegation CandidatePaths Improvement.
Local Open Scope Z_scope.

(** ** What is stored: a cleanup or a response may be missing *)
Record StoredCandidate := mkStoredCandidate {
  si_core : CandidateCore; si_cleanup : option Cleanup; si_security : option (option SecurityResponse) }.

Definition stored_candidate (c : ImprovementCandidate) : StoredCandidate :=
  mkStoredCandidate (ic_core c) (Some (ic_cleanup c)) (Some (ic_security c)).

Definition FAILURE_FACT : string := "security-failure:".

Definition recovered_reason (facts : list string) : string :=
  or_else
    (truthy ((λ fact, substring (String.length FAILURE_FACT) (String.length fact - String.length FAILURE_FACT) fact)
      <$> List.find (λ fact, startsWith fact FAILURE_FACT) facts))
    "CANDIDATE_RECOVERED_SECURITY_FAILURE".

Definition withRecoveryState (x : StoredCandidate) : ImprovementCandidate :=
  let core := si_core x in
  mkCandidate core (default cleanup_not_requested (si_cleanup x))
    (match si_security x with
     | Some response => response
     | None =>
         if cc_status core === candidate_security_failure then
           Some (mkResponse quarantine_pending (recovered_reason (cc_protectedRootFacts core)) (cc_updatedAt core)
             (candidateSecurityAttentionKey core))
         else None
     end).

Lemma recover_stored c : withRecoveryState (stored_candidate c) = c.
Proof. by destruct c. Qed.

(** ** Enumerations *)
Definition risk_name (r : ImprovementRisk) : string :=
  match r with risk_low => "low" | risk_medium => "medium" | risk_high => "high" | risk_critical => "critical" end.

Definition parse_risk (s : string) : option ImprovementRisk :=
  List.find (λ r, String.eqb s (risk_name r)) [risk_low; risk_medium; risk_high; risk_critical].

Definition candidate_status_name (s : CandidateStatus) : string :=
  match s with
  | candidate_proposed => "proposed" | candidate_patching => "patching" | candidate_validating => "validating"
  | candidate_rejected_by_validation => "rejected_by_validation" | candidate_security_failure => "security_failure"
  | candidate_review_required => "review_required" | candidate_rejected => "rejected"
  | candidate_revision_requested => "revision_requested" | candidate_expired => "expired"
  end.

Definition parse_candidate_status (s : string) : option CandidateStatus :=
  List.find (λ c, String.eqb s (candidate_status_name c))
    [candidate_proposed; candidate_patching; candidate_validating; candidate_rejected_by_validation;
     candidate_security_failure; candidate_review_required; candidate_rejected; candidate_revision_requested;
     candidate_expired].

Definition outcome_name (o : ValidationOutcome) : string :=
  match o with validation_passed => "passed" | validation_failed => "failed" end.

Definition parse_outcome (s : string) : option ValidationOutcome :=
  List.find (λ o, String.eqb s (outcome_name o)) [validation_passed; validation_failed].

Definition response_name (s : ResponseStatus) : string :=
  match s with
  | quarantine_pending => "quarantine_pending" | attention_pending => "attention_pending"
  | response_completed => "completed"
  end.

Definition parse_response (s : string) : option ResponseStatus :=
  List.find (λ o, String.eqb s (response_name o)) [quarantine_pending; attention_pending; response_completed].

(** ** The parts of a candidate *)
Definition cleanup_json (c : Cleanup) : json :=
  match c with
  | cleanup_not_requested => JObj [("status", JStr "not_requested")]
  | cleanup_pending requestedAt lastErrorCode =>
      JObj [("status", JStr "pending"); ("requestedAt", JStr requestedAt); ("lastErrorCode", JOptStr lastErrorCode)]
  | cleanup_completed requestedAt completedAt =>
      JObj [("status", JStr "completed"); ("requestedAt", JStr requestedAt); ("completedAt", JStr completedAt)]
  end.

Definition cleanup_of_json (j : json) : option Cleanup :=
  o ← as_object j;
  status ← read as_str o "status";
  if String.eqb status "not_requested" then Some cleanup_not_requested
  else
    requestedAt ← read as_str o "requestedAt";
    if String.eqb status "pending" then
      lastErrorCode ← read (or_null as_str) o "lastErrorCode"; Some (cleanup_pending requestedAt lastErrorCode)
    else if String.eqb status "completed" then
      completedAt ← read as_str o "completedAt"; Some (cleanup_completed requestedAt completedAt)
    else None.

Definition response_json (r : option SecurityResponse) : json :=
  match r with
  | None => JObj [("status", JStr "not_requested")]
  | Some r => JObj [("status", JStr (response_name (sx_status r))); ("reasonCode", JStr (sx_reasonCode r));
      ("requestedAt", JStr (sx_requestedAt r)); ("attentionIdempotencyKey", JStr (sx_attentionIdempotencyKey r))]
  end.

Definition response_of_json (j : json) : option (option SecurityResponse) :=
  o ← as_object j;
  status ← read as_str o "status";
  if String.eqb status "not_requested" then Some None
  else
    status ← parse_response status;
    reasonCode ← read as_str o "reasonCode";
    requestedAt ← read as_str o "requestedAt";
    attentionIdempotencyKey ← read as_str o "attentionIdempotencyKey";
    Some (Some (mkResponse status reasonCode requestedAt attentionIdempotencyKey)).

Definition validation_json (v : ImprovementValidation) : json :=
  JObj [("profileId", JStr (iv_profileId v)); ("commandObservationRef", JStr (iv_commandObservationRef v));
        ("outcome", JStr (outcome_name (iv_outcome v)))].

Definition validation_of_json (j : json) : option ImprovementValidation :=
  o ← as_object j;
  profileId ← read as_str o "profileId";
  commandObservationRef ← read as_str o "commandObservationRef";
  outcome ← read (named parse_outcome) o "outcome";
  Some (mkValidation profileId commandObservationRef outcome).

Definition comparison_json (c : option ImprovementComparison) : json :=
  match c with
  | None => JNull
  | Some c =>
      JObj [("inputSetDigest", JStr (im_inputSetDigest c)); ("baseResultRef", JStr (im_baseResultRef c));
            ("candidateResultRef", JStr (im_candidateResultRef c)); ("qualityDeltaPermille", JNum (im_qualityDeltaPermille c));
            ("performanceDeltaPermille", JNum (im_performanceDeltaPermille c));
            ("resourceDeltaPermille", JNum (im_resourceDeltaPermille c)); ("regressionRefs", JStrs (im_regressionRefs c))]
  end.

Definition comparison_of_json (j : json) : option ImprovementComparison :=
  o ← as_object j;
  inputSetDigest ← read as_str o "inputSetDigest";
  baseResultRef ← read as_str o "baseResultRef";
  candidateResultRef ← read as_str o "candidateResultRef";
  qualityDeltaPermille ← read as_num o "qualityDeltaPermille";
  performanceDeltaPermille ← read as_num o "performanceDeltaPermille";
  resourceDeltaPermille ← read as_num o "resourceDeltaPermille";
  regressionRefs ← read as_strs o "regressionRefs";
  Some (mkComparison inputSetDigest baseResultRef candidateResultRef qualityDeltaPermille performanceDeltaPermille
    resourceDeltaPermille regressionRefs).

Lemma parse_risk_name r : named parse_risk (JStr (risk_name r)) = Some r.
Proof. by destruct r. Qed.
Lemma parse_candidate_status_name s : named parse_candidate_status (JStr (candidate_status_name s)) = Some s.
Proof. by destruct s. Qed.
Lemma parse_outcome_name o : named parse_outcome (JStr (outcome_name o)) = Some o.
Proof. by destruct o. Qed.
#[export] Hint Rewrite parse_risk_name parse_candidate_status_name parse_outcome_name : codec.

Lemma cleanup_codec c : cleanup_of_json (cleanup_json c) = Some c.
Proof. destruct c; unfold cleanup_of_json; repeat (cbn; autorewrite with codec); done. Qed.
Lemma response_codec r : response_of_json (response_json r) = Some r.
Proof. by destruct r as [[[] ? ? ?]|]. Qed.
Lemma validation_codec v : validation_of_json (validation_json v) = Some v.
Proof. destruct v. unfold validation_of_json, validation_json. repeat (cbn; autorewrite with codec). done. Qed.
Lemma validations_codec l : as_values validation_of_json (JArr (validation_json <$> l)) = Some l.
Proof. apply as_values_list, validation_codec. Qed.
Lemma comparison_codec c : or_null comparison_of_json (comparison_json c) = Some c.
Proof.
  destruct c as [[]|]; [|done]. unfold comparison_json, or_null, comparison_of_json.
  repeat (cbn; autorewrite with codec). done.
Qed.
#[export] Hint Rewrite cleanup_codec response_codec validations_codec comparison_codec : codec.
Arguments cleanup_of_json : simpl never.
Arguments cleanup_json : simpl never.
Arguments response_of_json : simpl never.
Arguments response_json : simpl never.
Arguments comparison_of_json : simpl never.
Arguments comparison_json : simpl never.

(** ** Candidates *)
Definition optional_field (field : string) (o : option json) : JsonObject :=
  match o with Some j => [(field, j)] | None => [] end.

Definition candidate_json (x : StoredCandidate) : json :=
  let core := si_core x in let p := cc_proposal core in
  JObj ([("id", JStr (pr_id p)); ("revision", JNum (cc_revision core)); ("ownerId", JStr (pr_ownerId p));
         ("agentId", JStr (pr_agentId p)); ("generationRunId", JStr (pr_generationRunId p));
         ("traceRef", JStr (pr_traceRef p)); ("observableProblemRef", JStr (pr_observableProblemRef p));
         ("goalRef", JStr (pr_goalRef p)); ("invariantRefs", JStrs (pr_invariantRefs p));
         ("baseRevision", JStr (pr_baseRevision p)); ("baseDigest", JStr (pr_baseDigest p));
         ("allowedPaths", JStrs (pr_allowedPaths p)); ("workspaceRef", JStr (pr_workspaceRef p))]
        ++ optional_field "cleanup" (cleanup_json <$> si_cleanup x)
        ++ optional_field "securityResponse" (response_json <$> si_security x)
        ++ [("patchRef", JOptStr (cc_patchRef core)); ("patchDigest", JOptStr (cc_patchDigest core));
            ("reasonRef", JStr (pr_reasonRef p)); ("risk", JStr (risk_name (cc_risk core)));
            ("protectedRootFacts", JStrs (cc_protectedRootFacts core));
            ("validation", JArr (validation_json <$> cc_validation core)); ("comparison", comparison_json (cc_comparison core));
            ("artifactRef", JOptStr (cc_artifactRef core)); ("artifactDigest", JOptStr (cc_artifactDigest core));
            ("status", JStr (candidate_status_name (cc_status core))); ("reviewRequired", JBool true);
            ("expiresAt", JStr (pr_expiresAt p)); ("spaceBudgetBytes", JNum (pr_spaceBudgetBytes p));
            ("createdAt", JStr (pr_createdAt p)); ("updatedAt", JStr (cc_updatedAt core))]).

Definition proposal_of_json (o : JsonObject) : option CandidateProposal :=
  id ← read as_str o "id";
  ownerId ← read as_str o "ownerId";
  agentId ← read as_str o "agentId";
  generationRunId ← read as_str o "generationRunId";
  traceRef ← read as_str o "traceRef";
  observableProblemRef ← read as_str o "observableProblemRef";
  goalRef ← read as_str o "goalRef";
  invariantRefs ← read as_strs o "invariantRefs";
  baseRevision ← read as_str o "baseRevision";
  baseDigest ← read as_str o "baseDigest";
  allowedPaths ← read as_strs o "allowedPaths";
  workspaceRef ← read as_str o "workspaceRef";
  reasonRef ← read as_str o "reasonRef";
  expiresAt ← read as_str o "expiresAt";
  spaceBudgetBytes ← read as_num o "spaceBudgetBytes";
  createdAt ← read as_str o "createdAt";
  Some (mkProposal id ownerId agentId generationRunId traceRef observableProblemRef goalRef invariantRefs baseRevision
    baseDigest allowedPaths workspaceRef reasonRef expiresAt spaceBudgetBytes createdAt).

Definition candidate_of_json (j : json) : option StoredCandidate :=
  o ← as_object j;
  proposal ← proposal_of_json o;
  revision ← read as_num o "revision";
  cleanup ← read_optional cleanup_of_json o "cleanup";
  securityResponse ← read_optional response_of_json o "securityResponse";
  patchRef ← read (or_null as_str) o "patchRef";
  patchDigest ← read (or_null as_str) o "patchDigest";
  risk ← read (named parse_risk) o "risk";
  protectedRootFacts ← read as_strs o "protectedRootFacts";
  validation ← read (as_values validation_of_json) o "validation";
  comparison ← read (or_null comparison_of_json) o "comparison";
  artifactRef ← read (or_null as_str) o "artifactRef";
  artifactDigest ← read (or_null as_str) o "artifactDigest";
  status ← read (named parse_candidate_status) o "status";
  updatedAt ← read as_str o "updatedAt";
  Some (mkStoredCandidate
    (mkCore proposal revision patchRef patchDigest risk protectedRootFacts validation comparison artifactRef artifactDigest
      status updatedAt) cleanup securityResponse).

Lemma candidate_codec x : candidate_of_json (candidate_json x) = Some x.
Proof.
  destruct x as [[[]] cleanup security]. unfold candidate_of_json, proposal_of_json, candidate_json, read_optional.
  destruct cleanup, security; repeat (cbn; autorewrite with codec); done.
Qed.

(** ** The adapter *)
#[export] Instance durable_improvement : DurableEntity StoredCandidate := {|
  ent_id x := pr_id (cc_proposal (si_core x));
  ent_revision x := cc_revision (si_core x);
  ent_ownerId x := pr_ownerId (cc_proposal (si_core x));
  ent_agentId x := pr_agentId (cc_proposal (si_core x));
  ent_json := candidate_json;
  ent_of_json := candidate_of_json;
  ent_prefix := "improvement";
  validateTransition _ _ := Ok tt;
  ent_roundtrip := candidate_codec;
|}.

Section adapter.
Context {W : Type} `{!StateStorePort W}.

Definition durable_read (scope : AutonomyScope) (id : string) : M exn W (option ImprovementCandidate) :=
  candidate ← readEntity scope id; mret (withRecoveryState <$> candidate).

Definition durable_list (ownerId : OwnerId) (agentId : AgentId) : M exn W (list ImprovementCandidate) :=
  candidates ← listEntities ownerId agentId; mret (withRecoveryState <$> candidates).

(** [create] and [save] give back the candidate they were given. *)
#[export] Instance DurableImprovementStateAdapter : ImprovementStatePort W := {|
  improvement_read := durable_read;
  improvement_list := durable_list;
  improvement_create c := createEntity (stored_candidate c) ;; mret c;
  improvement_save c v := saveEntity (stored_candidate c) v ;; mret c;
|}.
End adapter.

(** ** The refinement *)
Definition recovered (e : gmap string StoredCandidate) : candidates := withRecoveryState <$> e.

(** The other users of the table are improvement services. *)
Definition improvement_rely `{PatchReports} (e e' : gmap string StoredCandidate) : Prop :=
  improvement_step (recovered e) (recovered e').

Lemma recovered_steps `{PatchReports} e e' : rtc improvement_rely e e' → rtc improvement_step (recovered e) (recovered e').
Proof. induction 1; [done|]. by eapply rtc_l. Qed.

Lemma lookup_recovered scope id e : withRecoveryState <$> ent_lookup scope id e = lookup_candidate scope id (recovered e).
Proof.
  unfold ent_lookup, lookup_candidate, recovered. rewrite lookup_fmap. destruct (e !! id) as [x|]; [|done]. cbn.
  by destruct (_ && _).
Qed.

Section refinement.
Context {reports : PatchReports} {W : Type} `{!StateStorePort W} (sview : W → store_state) (sinv : W → Prop).
Context `{!StateStoreLaws W (ent_store_step improvement_rely) sview sinv}.

Definition improvements_view (w : W) : candidates := recovered (eview sview w).

Lemma op_law_recovered {A B} effect (effect' : B → candidates → candidates → Prop) (m : M exn W A) (f : A → B) :
  (∀ a e e', effect a e e' → effect' (f a) (recovered e) (recovered e')) →
  gen_op_law improvement_rely (eview sview) (einv sview sinv) effect m →
  gen_op_law improvement_step improvements_view (einv sview sinv) effect' (a ← m; mret (f a)).
Proof.
  intros He H w r w' Hw Hm. unfold mbind, M_bind in Hm. destruct (m w) as [[a|x] w1] eqn:E;
    destruct (H _ _ _ Hw E) as (Hw' & e & Hs & Hr); injection Hm as <- <-; (split; [done|]); exists (recovered e);
    (split; [by apply recovered_steps|]).
  - by apply He.
  - unfold improvements_view. by rewrite Hr.
Qed.

Lemma durable_improvements_law : ImprovementStateLaws improvements_view (einv sview sinv).
Proof.
  constructor; intros.
  - refine (op_law_recovered _ _ _ (fmap withRecoveryState) _ (reads_table_law _ _ _ (λ o e, o = ent_lookup scope id e) _ (read_law _ _ _ scope id))).
    intros o e e' [-> ->]. split; [|done]. apply lookup_recovered.
  - refine (op_law_recovered _ _ _ (fmap withRecoveryState) _ (reads_table_law _ _ _
      (λ l e, ∀ x, x ∈ l ↔ ∃ k, ent_lookup (mkScope_ ownerId agentId) k e = Some x) _ (list_law _ _ _ ownerId agentId))).
    intros l e e' [Hl ->]. split; [|done]. intros c. rewrite list_elem_of_fmap. setoid_rewrite <-lookup_recovered.
    setoid_rewrite fmap_Some. setoid_rewrite Hl. naive_solver.
  - refine (op_law_recovered _ _ _ (λ _, c) _ (writes_table_law _ _ _ _ _ (create_law _ _ _ (stored_candidate c)))).
    intros x e e' (H1 & H2 & -> & ->). split; [done|]. unfold recovered. rewrite lookup_fmap, fmap_insert, recover_stored.
    change (ic_id c) with (ent_id (stored_candidate c)). by rewrite H2.
  - refine (op_law_recovered _ _ _ (λ _, c) _ (writes_table_law _ _ _ _ _ (save_law _ _ _ (stored_candidate c) v))).
    intros x e e' (p & Hp & Hv & Hr & Ho & Ha & _ & -> & ->). exists (withRecoveryState p). unfold recovered.
    rewrite lookup_fmap, fmap_insert, recover_stored. change (ic_id c) with (ent_id (stored_candidate c)). rewrite Hp.
    do 3 (split; [done|]). split; [|done]. unfold candidate_scope. cbn in *. by rewrite Ho, Ha.
Qed.

(** The durable improvement adapter keeps the promise of the port that the
    improvement service is verified against, on any state store whose other
    users change the candidates only as that service does: each operation fails
    without effect or is one atomic step of a table of candidates, and what was
    stored before cleanups and responses were kept is read with them: nothing
    requested, except that a security failure is waiting for its quarantine. *)
Theorem durable_improvements_refine :
  ImprovementStateLaws improvements_view (einv sview sinv) ∧
  (∀ w id x, eview sview w !! id = Some x → ∃ c, improvements_view w !! id = Some c ∧ ic_core c = si_core x ∧
     (∀ cleanup, si_cleanup x = Some cleanup → ic_cleanup c = cleanup) ∧
     (∀ response, si_security x = Some response → ic_security c = response) ∧
     (si_cleanup x = None → ic_cleanup c = cleanup_not_requested) ∧
     (si_security x = None → (ic_security c ≠ None ↔ cc_status c = candidate_security_failure) ∧
        ∀ r, ic_security c = Some r → sx_status r = quarantine_pending ∧
          sx_attentionIdempotencyKey r = candidateSecurityAttentionKey c)).
Proof.
  split; [apply durable_improvements_law|].
  intros w id x Hx. exists (withRecoveryState x). unfold improvements_view, recovered. rewrite lookup_fmap, Hx.
  split; [done|]. split; [done|]. split; [by intros ? Hc; cbn; rewrite Hc|]. split; [by intros ? Hc; cbn; rewrite Hc|].
  split; [by intros Hc; cbn; rewrite Hc|]. intros Hc. cbn. rewrite Hc. case_bool_decide; [|naive_solver].
  split; [done|]. by intros r [= <-].
Qed.
End refinement.
