(* ===== verification/ImprovementBed.v ===== *)
(** A concrete world for the improvement service: the durable adapter over the
    in-memory store, a workspace that does what a script says and logs what it
    is asked, and the theorems of ImprovementRuns.v and ImprovementAdapter.v on
    the life of one candidate. *)
From S2P Require Import Prelude Js JsJson MachineSecrets Identifiers Contract AuthTypes Deterministic InMemoryAuth.
From S2P Require Import Persistence DurableEntities Delegation CandidatePaths Improvement ImprovementRuns.
From S2P Require Import ImprovementAdapter.
Local Open Scope Z_scope.

(** What the workspace does: the paths a patch changes, the outcome of each
    validation, and whether quarantine, notice and disposal fail. *)
Record Script := mkScript {
  st_paths : list string; st_outcome : ValidationOutcome; st_quarantine_fails : bool; st_notice_fails : bool;
  st_disposal_fails : bool }.

Record ImprovementWorld := mkImprovementWorld {
  iw_store : InMemoryStateStore; iw_now : string; iw_ids : DeterministicIdGenerator; iw_log : list string }.

#[global] Instance eta_ImprovementWorld : Eta ImprovementWorld := λ r,
  mkImprovementWorld (iw_store r) (iw_now r) (iw_ids r) (iw_log r).

Definition sample_digest (c : ascii) : string := "sha256:" +:+ repeat_char 64 c.

#[export] Instance iw_store_port : StateStorePort ImprovementWorld := {|
  store_read k := zoom iw_store (λ s w, w <| iw_store := s |>) (store_read k);
  compareAndSet i := zoom iw_store (λ s w, w <| iw_store := s |>) (compareAndSet i);
|}.
#[export] Instance iw_clock : ClockPort ImprovementWorld := gets iw_now.
#[export] Instance iw_ids_port : IdGeneratorPort ImprovementWorld := λ ns,
  zoom iw_ids (λ i w, w <| iw_ids := i |>) (Deterministic.next ns).

(** An entry in the log; then success or failure. *)
Definition logged (entry : string) (fails : bool) : M exn ImprovementWorld unit := λ w,
  (if fails then Err (OtherError "Error" entry) else Ok tt, w <| iw_log := iw_log w ++ [entry] |>).

#[export] Instance scripted_reports : PatchReports := λ _ digest paths,
  digest = sample_digest "a" ∧ (paths = ["src/a.ts"] ∨ paths = ["src/a.ts"; "doc/b.md"]).

Definition iw_sview (w : ImprovementWorld) : store_state := ss_view (iw_store w).
Abbreviation iw_view := (improvements_view iw_sview).
Abbreviation iw_inv := (einv iw_sview (λ _, True)).

#[export] Instance iw_laws : StateStoreLaws ImprovementWorld (ent_store_step improvement_rely) iw_sview (λ _, True).
Proof.
  destruct (ss_laws (ent_store_step improvement_rely)). constructor; intros;
    by apply (op_law_zoom (ent_store_step improvement_rely) iw_store _ ss_view (λ _, True)); [|auto].
Qed.

#[export] Instance iw_state_laws : ImprovementStateLaws iw_view iw_inv :=
  durable_improvements_law iw_sview (λ _, True).

(** Calls that leave the store alone. *)
Lemma iw_frame {A} (m : M exn ImprovementWorld A) :
  (∀ w, iw_store (m w).2 = iw_store w) → gen_frame_law improvement_step iw_view iw_inv m.
Proof.
  intros Hm w r w' Hi H. specialize (Hm w). rewrite H in Hm. cbn in Hm.
  unfold improvements_view, eview, einv, iw_sview in *. by rewrite Hm.
Qed.

Lemma iw_triple {A} (P : candidates → Prop) (Q : A → Prop) (m : M exn ImprovementWorld A) :
  (∀ w, iw_store (m w).2 = iw_store w) → (∀ w a, (m w).1 = Ok a → Q a) → triple improvement_step iw_view iw_inv P m (λ a _, Q a).
Proof.
  intros Hm HQ w r w' Hi _ H. destruct (iw_frame m Hm _ _ _ Hi H) as [Hi' Hs]. do 2 (split; [done|]).
  specialize (HQ w). rewrite H in HQ. destruct r; [by apply HQ|done].
Qed.

Section script.
Context (script : Script).

#[local] Instance scripted_attention : ImprovementSecurityAttentionPort ImprovementWorld := λ a,
  logged ("notice " +:+ at_reasonCode a) (st_notice_fails script).

#[local] Instance scripted_workspace : CandidateWorkspacePort ImprovementWorld := {|
  workspace_qualify := mret (true, []);
  workspace_create input := mret ("/workspaces/" +:+ cw_candidateId input);
  workspace_patch input := mret (sample_digest "a", st_paths script);
  workspace_validate ref profiles := mret ((λ p, mkValidation (pf_id p) "observation-1" (st_outcome script)) <$> profiles);
  workspace_compare ref inputs _ := mret (mkComparison inputs "base-1" "candidate-1" 1 0 0 []);
  workspace_packageArtifact ref _ _ := mret ("artifact-1", sample_digest "c");
  workspace_quarantine ref reason := logged ("quarantine " +:+ reason) (st_quarantine_fails script);
  workspace_dispose ref := logged ("dispose " +:+ ref) (st_disposal_fails script);
|}.

Lemma iw_port_laws : st_paths script = ["src/a.ts"] ∨ st_paths script = ["src/a.ts"; "doc/b.md"] →
  CandidatePortLaws iw_view iw_inv.
Proof.
  intros Hp. constructor.
  - by apply iw_frame.
  - intros ns. apply iw_frame. intros w. unfold ids_next, iw_ids_port, zoom. by destruct (Deterministic.next ns (iw_ids w)).
  - by apply iw_frame.
  - intros input. by apply iw_frame.
  - intros ref profiles. by apply iw_frame.
  - intros ref inputs d. by apply iw_frame.
  - intros ref e space. by apply iw_frame.
  - intros input. apply (iw_triple _ (λ r, patch_reported (pt_workspaceRef input) r.1 r.2)); [done|]. intros w r [= <-]. by split.
  - intros ref reason. by apply (iw_triple _ (λ _, True)).
  - intros a. by apply (iw_triple _ (λ _, True)).
  - intros ref. by apply (iw_triple _ (λ _, True)).
Qed.
End script.

(** ** A candidate's life *)
Definition sample_scope : AutonomyScope := mkScope_ "owner-1" "agent-1".

Definition sample_proposal (paths : list string) : ProposeImprovementInput :=
  mkProposeImprovement "owner-1" "agent-1" "run-1" "trace-1" "problem-1" "goal-1" ["invariant-1"] "base"
    (sample_digest "b") paths "reason-1" risk_low "2026-08-29T00:00:00.000Z" 1000000.

Definition candidate_workspace : string := "/workspaces/improvement-0001".

Definition sample_profile : CommandProfile :=
  mkProfile "profile-1" 1 candidate_workspace ["npm"; "test"] candidate_workspace [] [candidate_workspace] network_none 1000
    1024 (mkResources 1000 1000000 2) isolated_high_risk "runtime-1" None None "authorization-1" "2026-08-29T00:00:00.000Z" None.

Definition sample_check (profile : CommandProfile) : PatchValidateInput :=
  mkPatchValidate sample_scope "improvement-0001" "patch-1" [profile] (sample_digest "d") [].

Definition workshop : ImprovementWorld :=
  mkImprovementWorld (new_state_store NO_FAILURES) "2026-08-28T00:00:00.000Z" [] [].

Definition good : Script := mkScript ["src/a.ts"] validation_passed false false false.

Definition run_script (script : Script) (cs : list improvement_call) (w : ImprovementWorld) : ImprovementWorld :=
  (run_improvements (ImprovementSecurityAttentionPort0 := scripted_attention script)
    (CandidateWorkspacePort0 := scripted_workspace script) cs w).2.

Definition candidate_summary (w : ImprovementWorld) :=
  (λ c : ImprovementCandidate, (cc_status c, ic_cleanup c, sx_status <$> ic_security c, cc_risk c)) <$> iw_view w !! "improvement-0001".

Definition proposed (paths : list string) : ImprovementWorld := run_script good [call_propose (sample_proposal paths)] workshop.

Example candidate_sample :
  let w := proposed ["src/"] in
  candidate_summary w = Some (candidate_proposed, cleanup_not_requested, None, risk_low) ∧
  candidate_summary (run_script good [call_patch (sample_check sample_profile)] w) =
    Some (candidate_review_required, cleanup_not_requested, None, risk_low) ∧
  candidate_summary (run_script good [call_patch (sample_check sample_profile); call_review (mkReview sample_scope 4 "improvement-0001" review_reject)] w) =
    Some (candidate_rejected, cleanup_not_requested, None, risk_low) ∧
  candidate_summary (run_script (mkScript ["src/a.ts"; "doc/b.md"] validation_passed false false false)
    [call_patch (sample_check sample_profile)] w) =
    Some (candidate_security_failure, cleanup_not_requested, Some response_completed, risk_critical) ∧
  candidate_summary (proposed ["src/Audit/"; "doc"]) = Some (candidate_proposed, cleanup_not_requested, None, risk_critical).
Proof. vm_compute. repeat split. Qed.

(** A quarantine that fails is taken up again by the next expiry, and not
    repeated once it has succeeded; a disposal that fails is tried again. *)
Definition fails (quarantine notice disposal : bool) : Script :=
  mkScript ["src/a.ts"] validation_passed quarantine notice disposal.

Definition activate : improvement_call := call_activate sample_scope "improvement-0001" "apply".
Definition expire_at (now : string) : improvement_call := call_expire "owner-1" "agent-1" (Some now).

Example resumed_sample :
  let w1 := run_script (fails true false false) [activate] (proposed ["src/"]) in
  let w2 := run_script (fails false true false) [expire_at "2026-08-28T01:00:00.000Z"] w1 in
  let w3 := run_script good [activate] w2 in
  let w4 := run_script (fails false false true) [expire_at "2026-08-30T00:00:00.000Z"] w3 in
  let w5 := run_script good [expire_at "2026-08-30T00:00:00.000Z"] w4 in
  (λ w, (candidate_summary w, length (iw_log w))) <$> [w1; w2; w3; w4; w5] =
    [(Some (candidate_security_failure, cleanup_not_requested, Some quarantine_pending, risk_critical), 1%nat);
     (Some (candidate_security_failure, cleanup_not_requested, Some attention_pending, risk_critical), 3%nat);
     (Some (candidate_security_failure, cleanup_not_requested, Some response_completed, risk_critical), 4%nat);
     (Some (candidate_security_failure, cleanup_pending "2026-08-30T00:00:00.000Z" (Some "CANDIDATE_DISPOSAL_FAILED"),
        Some response_completed, risk_critical), 5%nat);
     (Some (candidate_security_failure, cleanup_completed "2026-08-30T00:00:00.000Z" "2026-08-30T00:00:00.000Z",
        Some response_completed, risk_critical), 6%nat)] ∧
  iw_log w5 = ["quarantine SELF_ACTIVATION_APPLY"; "quarantine SELF_ACTIVATION_APPLY"; "notice SELF_ACTIVATION_APPLY";
    "notice SELF_ACTIVATION_APPLY"; "dispose /workspaces/improvement-0001"; "dispose /workspaces/improvement-0001"].
Proof. vm_compute. repeat split. Qed.

(** ** The theorems on the sample *)
Lemma workshop_sound : iw_inv workshop ∧ table_sound (iw_view workshop).
Proof.
  split; [split; [done|]; intros r Hr; discriminate Hr|]. assert (iw_view workshop = ∅) as -> by (vm_compute; reflexivity).
  apply map_Forall_empty.
Qed.

Lemma run_script_sound script cs w :
  st_paths script = ["src/a.ts"] ∨ st_paths script = ["src/a.ts"; "doc/b.md"] →
  iw_inv w ∧ table_sound (iw_view w) → iw_inv (run_script script cs w) ∧ table_sound (iw_view (run_script script cs w)).
Proof.
  intros Hp [Hi Hs]. unfold run_script. pose proof (iw_port_laws script Hp) as Hlaws.
  destruct (run_improvements cs w) as [r w'] eqn:E. destruct (run_improvements_triple iw_view iw_inv cs _ _ _ Hi Hs E) as (Hi' & Hst & _).
  split; [exact Hi'|]. exact (stable_rtc improvement_step table_sound _ _ Hs Hst).
Qed.

Lemma good_paths : st_paths good = ["src/a.ts"] ∨ st_paths good = ["src/a.ts"; "doc/b.md"].
Proof. by left. Qed.

Lemma proposed_world_sound : iw_inv (proposed ["src/"]) ∧ table_sound (iw_view (proposed ["src/"])).
Proof. apply run_script_sound; [apply good_paths|apply workshop_sound]. Qed.

Definition sample_calls : list improvement_call :=
  [call_propose (sample_proposal ["src/"]); call_patch (sample_check sample_profile); activate; expire_at "2026-08-30T00:00:00.000Z"].

Lemma candidates_stay_sound_witness : table_sound (iw_view (run_script good sample_calls workshop)).
Proof.
  unfold run_script. destruct workshop_sound as [Hi Hs]. pose proof (iw_port_laws good good_paths) as Hlaws.
  destruct (run_improvements sample_calls workshop) as [r w'] eqn:E.
  exact (proj1 (proj2 (candidates_stay_sound iw_view iw_inv sample_calls workshop r w' Hi Hs E))).
Defined.

#[local] Instance good_attention : ImprovementSecurityAttentionPort ImprovementWorld := scripted_attention good.
#[local] Instance good_workspace : CandidateWorkspacePort ImprovementWorld := scripted_workspace good.

Lemma checked_status : match patchValidateCompare (sample_check sample_profile) (proposed ["src/"]) with
  (Ok c, _) => cc_status (ic_core c) = candidate_review_required | _ => False end.
Proof. vm_compute. reflexivity. Qed.


Lemma stored_proposal : match iw_view (proposed ["src/"]) !! "improvement-0001" with
  | Some c => candidate_scope c = sample_scope ∧ str_le (ic_expiresAt c) "2026-08-30T00:00:00.000Z" = true
  | None => False
  end.
Proof. vm_compute. by split. Qed.

Lemma expiry_returns : match expire_candidates "owner-1" "agent-1" (Some "2026-08-30T00:00:00.000Z") (proposed ["src/"]) with
  (Ok _, _) => True | _ => False end.
Proof. vm_compute. exact I. Qed.

Lemma expired_candidates_cleaned_witness :
  match expire_candidates "owner-1" "agent-1" (Some "2026-08-30T00:00:00.000Z") (proposed ["src/"]) with
  | (Ok _, w') => ∃ c, iw_view w' !! "improvement-0001" = Some c ∧ cleaned c
  | _ => False
  end.
Proof.
  pose proof expiry_returns as Hret. pose proof stored_proposal as Hst.
  destruct (iw_view (proposed ["src/"]) !! "improvement-0001") as [c|] eqn:Ec; [|destruct Hst]. destruct Hst as [Hsc Hx].
  destruct (expire_candidates "owner-1" "agent-1" (Some "2026-08-30T00:00:00.000Z") (proposed ["src/"])) as [[l|x] w'] eqn:E; [|exact Hret].
  destruct proposed_world_sound as [Hi Hs]. pose proof (iw_port_laws good good_paths) as Hlaws.
  destruct (proj2 (expired_candidates_cleaned iw_view iw_inv "owner-1" "agent-1" "2026-08-30T00:00:00.000Z" (proposed ["src/"]) l w' Hi Hs E)
    "improvement-0001" c Ec Hsc Hx) as (c' & Hk & _ & Hc).
  exists c'. split; [exact Hk|exact Hc].
Defined.

Lemma durable_improvements_refine_witness : ImprovementStateLaws iw_view iw_inv ∧
  candidate_summary (proposed ["src/"]) = Some (candidate_proposed, cleanup_not_requested, None, risk_low).
Proof.
  split; [exact (proj1 (durable_improvements_refine iw_sview (λ _, True)))|]. vm_compute. reflexivity.
Defined.

(** A candidate stored by an earlier version, with a security failure on record. *)
Definition legacy_candidate : StoredCandidate :=
  let c := proposed_candidate (sample_proposal ["src"]) "improvement-0001" candidate_workspace ["src"] "2026-08-28T00:00:00.000Z" in
  mkStoredCandidate ((ic_core c) <| cc_status := candidate_security_failure |>
    <| cc_protectedRootFacts := ["security-failure:LEGACY_FAILURE"] |>) None None.

Definition legacy_world : ImprovementWorld := (createEntity legacy_candidate workshop).2.

Example legacy_sample :
  (λ c, (ic_cleanup c, ic_security c)) <$> iw_view legacy_world !! "improvement-0001" =
    Some (cleanup_not_requested, Some (mkResponse quarantine_pending "LEGACY_FAILURE" "2026-08-28T00:00:00.000Z"
      (attention_key "owner-1" "agent-1" "improvement-0001"))) ∧
  (λ w, (sx_status <$> (iw_view w !! "improvement-0001" ≫= ic_security), iw_log w))
    (run_script good [expire_at "2026-08-28T01:00:00.000Z"] legacy_world) =
    (Some response_completed, ["quarantine LEGACY_FAILURE"; "notice LEGACY_FAILURE"]).
Proof. vm_compute. repeat split. Qed.

(** A scope that holds a protected root without naming it: a patch of the
    authorization code goes to review at a low risk, without a fact about it. *)
Lemma unmarked_protected_change :
  is_protected "src/authorization/policy.ts" = true ∧
  let w := run_script (mkScript ["src/authorization/policy.ts"] validation_passed false false false)
    [call_patch (sample_check sample_profile)] (proposed ["src"]) in
  candidate_summary w = Some (candidate_review_required, cleanup_not_requested, None, risk_low) ∧
  (λ c : ImprovementCandidate, cc_protectedRootFacts c) <$> iw_view w !! "improvement-0001" = Some [].
Proof. vm_compute. repeat split. Qed.
