(* ===== verification/PiProgress.v ===== *)
(** packages/runtime-pi/src/pi-tool-progress-guard.ts: a Run that keeps making
    the same tool calls is stopped.  The guard keeps hashes of the last sixteen
    calls; what it decides is a property of the whole history of calls. *)
From S2P Require Import Prelude Js JsJson MachineSecrets Identifiers.
Local Open Scope Z_scope.

(** ** The canonical text of a value: [stable], on values without [undefined] *)
Definition by_key {A} (a b : string * A) : Z := compareStrings a.1 b.1.

Fixpoint joined (l : list string) : string :=
  match l with [] => "" | [s] => s | s :: l => s +:+ String "," (joined l) end.

Fixpoint stable (value : json) : string :=
  match value with
  | JArr l => String "[" (joined (stable <$> l) +:+ "]")
  | JObj l =>
      String "{" (joined
        (snd <$> sort_by by_key ((λ e, (e.1, quote e.1 +:+ String ":" (stable e.2))) <$> l)) +:+ "}")
  | _ => stringify value
  end.

Definition hex_digit (c : ascii) : bool := between "a" "f" c || between "0" "9" c.

(** [/^[a-f0-9]{64}$/] *)
Definition validHash (s : string) : bool := test (sequence [Begin; times 64 (Chr hex_digit); End]) s.

Arguments validHash : simpl never.

Class Sha256Law `{Sha256} : Prop := sha256_valid : ∀ s, validHash (sha256_hex s) = true.

(** ** The order of an object's fields does not matter *)
Definition key_le {A} (a b : string * A) : bool := by_key a b <=? 0.

Lemma key_le_spec {A} (a b : string * A) : key_le a b = true ↔ str_le a.1 b.1 = true.
Proof.
  unfold key_le, by_key, compareStrings, str_le. fold (str_lt b.1 a.1). destruct (str_lt a.1 b.1) eqn:E1.
  - by rewrite (str_lt_asym _ _ E1).
  - by destruct (str_lt b.1 a.1).
Qed.

Lemma key_le_false {A} (a b : string * A) : key_le a b = false ↔ str_lt b.1 a.1 = true.
Proof. rewrite <-str_le_false, <-!not_true_iff_false. by rewrite key_le_spec. Qed.

Lemma sort_insert_comm {A} (x y : string * A) l : x.1 ≠ y.1 →
  sort_insert by_key x (sort_insert by_key y l) = sort_insert by_key y (sort_insert by_key x l).
Proof.
  intros Hne. assert (Hxy : key_le x y = negb (key_le y x)).
  { destruct (key_le y x) eqn:E; cbn.
    - apply key_le_spec, str_le_spec in E as [E|E]; [by apply key_le_false|congruence].
    - apply key_le_false in E. apply key_le_spec, str_le_spec. by left. }
  induction l as [|z l IH]; cbn; fold (key_le x y) (key_le y x); [by rewrite Hxy; destruct (key_le y x)|].
  fold (key_le x z) (key_le y z).
  destruct (key_le y z) eqn:Ey, (key_le x z) eqn:Ex; cbn; fold (key_le x y) (key_le y x) (key_le x z) (key_le y z).
  - rewrite Hxy, Ex, Ey. by destruct (key_le y x).
  - destruct (key_le x y) eqn:E; rewrite ?Ex, ?Ey; [|done].
    exfalso. apply key_le_spec in E, Ey. apply key_le_false in Ex. pose proof (str_le_trans _ _ _ E Ey) as H.
    by rewrite (str_lt_le_false _ _ Ex) in H.
  - destruct (key_le y x) eqn:E; rewrite ?Ex, ?Ey; [|done].
    exfalso. apply key_le_spec in E, Ex. apply key_le_false in Ey. pose proof (str_le_trans _ _ _ E Ex) as H.
    by rewrite (str_lt_le_false _ _ Ey) in H.
  - by rewrite Ex, Ey, IH.
Qed.

Lemma stable_fields l l' : NoDup l.*1 → l ≡ₚ l' → stable (JObj l) = stable (JObj l').
Proof.
  intros Hnd Hp. cbn [stable]. do 4 f_equal. unfold sort_by.
  apply (foldr_permutation (=) (sort_insert by_key) []); [|by rewrite Hp].
  intros j1 [k1 s1] j2 [k2 s2] b Hne H1 H2. apply sort_insert_comm. cbn. intros ->. apply Hne.
  rewrite list_lookup_fmap in H1, H2. destruct (l !! j1) as [e1|] eqn:E1, (l !! j2) as [e2|] eqn:E2; simplify_eq/=.
  eapply (NoDup_lookup l.*1); [done|rewrite list_lookup_fmap, E1; reflexivity|rewrite list_lookup_fmap, E2; cbn; congruence].
Qed.

(** ** The guard *)
Record PiToolProgressState := mkProgress {
  gs_version : string; gs_recent : list string; gs_lastResult : option string; gs_consecutive : Z; gs_stopped : bool }.

Record PiToolProgressGuard := mkGuard {
  pg_recent : list string; pg_lastResult : option string; pg_consecutive : Z; pg_stopped : bool }.

Definition PROGRESS_VERSION : string := "pi-tool-progress.v1".
Definition progress_invalid : exn := OtherError "Error" "PI_TOOL_PROGRESS_STATE_INVALID".
Definition new_guard : PiToolProgressGuard := mkGuard [] None 0 false.

Definition restore_guard (state : option PiToolProgressState) : result exn PiToolProgressGuard :=
  match state with
  | None => Ok new_guard
  | Some state =>
      throw_if ((gs_version state !== PROGRESS_VERSION) || (16 <? Z.of_nat (length (gs_recent state)))
        || negb (forallb validHash (gs_recent state))
        || negb (match gs_lastResult state with None => true | Some hash => validHash hash end)
        || negb (isSafeInteger (gs_consecutive state)) || (gs_consecutive state <? 0) || (4 <? gs_consecutive state))
        progress_invalid ;;
      Ok (mkGuard (gs_recent state) (gs_lastResult state) (gs_consecutive state) (gs_stopped state))
  end.

Definition snapshot_guard (g : PiToolProgressGuard) : PiToolProgressState :=
  mkProgress PROGRESS_VERSION (pg_recent g) (pg_lastResult g) (pg_consecutive g) (pg_stopped g).

(** [new Set(l).size] *)
Definition distinct (l : list string) : Z := Z.of_nat (length (unique l)).

(** [l.slice(-n)] *)
Definition last_of {A} (n : nat) (l : list A) : list A := drop (length l - n) l.

Section guard.
Context {sha : Sha256}.

Definition digest (value : json) : string := sha256_hex (stable value).
Definition call_digest (name : string) (input : json) : string := digest (JArr [JStr name; input]).
Definition result_digest (call : string) (output : json) (isError : bool) : string :=
  digest (JArr [JStr call; output; JBool isError]).

(** One call and its result, hashed. *)
Definition note (call result : string) (g : PiToolProgressGuard) : PiToolProgressGuard :=
  let consecutive := if Some result === pg_lastResult g then pg_consecutive g + 1 else 1 in
  let pushed := pg_recent g ++ [call] in
  let recent := if (16 <? length pushed)%nat then tail pushed else pushed in
  mkGuard recent (Some result) consecutive
    ((4 <=? consecutive) || ((12 <=? length recent)%nat && (distinct (last_of 12 recent) <=? 2))
     || ((length recent =? 16)%nat && (distinct recent <=? 4))).

Definition observe (name : string) (input output : json) (isError : bool) (g : PiToolProgressGuard) : PiToolProgressGuard :=
  if pg_stopped g then g
  else
    let call := call_digest name input in
    note call (result_digest call output isError) g.
End guard.

(** ** The history of calls *)
Section history.

(** How many equal elements a list ends with. *)
Fixpoint leading (r : string) (l : list string) : Z :=
  match l with [] => 0 | x :: l => if x === r then 1 + leading r l else 0 end.

Definition trailing (l : list string) : Z :=
  match reverse l with [] => 0 | r :: l => 1 + leading r l end.

(** Calls and their results. *)
Abbreviation history := (list (string * string)) (only parsing).

(** The last four results are one, the last twelve calls are at most two
    different ones, or the last sixteen at most four. *)
Definition looping (h : history) : bool :=
  (4 <=? trailing h.*2)
  || ((12 <=? length h)%nat && (distinct (last_of 12 h.*1) <=? 2))
  || ((16 <=? length h)%nat && (distinct (last_of 16 h.*1) <=? 4)).

Definition noted (g : PiToolProgressGuard) (o : string * string) : PiToolProgressGuard :=
  if pg_stopped g then g else note o.1 o.2 g.

Definition guard_of (h : history) : PiToolProgressGuard := foldl noted new_guard h.

(** The guard that remembers the whole history. *)
Definition remembered (h : history) (stopped : bool) : PiToolProgressGuard :=
  mkGuard (last_of 16 h.*1) (last h.*2) (trailing h.*2) stopped.

Lemma last_of_length {A} n (l : list A) : length (last_of n l) = Nat.min n (length l).
Proof. unfold last_of. rewrite length_drop. lia. Qed.

Lemma last_of_all {A} n (l : list A) : (length l ≤ n)%nat → last_of n l = l.
Proof. intros H. unfold last_of. by replace (length l - n)%nat with 0%nat by lia. Qed.

Lemma last_of_last_of {A} m n (l : list A) : (m ≤ n)%nat → last_of m (last_of n l) = last_of m l.
Proof.
  intros H. unfold last_of at 1. rewrite last_of_length. unfold last_of. rewrite drop_drop. f_equal. lia.
Qed.

Lemma last_of_snoc {A} n (l : list A) x : (0 < n)%nat →
  last_of n (l ++ [x]) = if (n <? length (last_of n l ++ [x]))%nat then tail (last_of n l ++ [x]) else last_of n l ++ [x].
Proof.
  intros Hn. rewrite length_app, last_of_length. cbn [length]. destruct (Nat.ltb_spec n (Nat.min n (length l) + 1)) as [H|H].
  - unfold last_of. rewrite length_app. cbn [length]. replace (length l + 1 - n)%nat with (S (length l - n)) by lia.
    rewrite drop_app_le by lia. rewrite <-(drop_drop l 1 (length l - n)) || rewrite <-Nat.add_1_r.
    destruct (drop (length l - n) l) as [|y k] eqn:E.
    { apply (f_equal length) in E. rewrite length_drop in E. cbn in E. lia. }
    cbn. f_equal. rewrite <-drop_drop, E. done.
  - rewrite !last_of_all; [done|lia|rewrite length_app; cbn; lia].
Qed.

Lemma trailing_snoc l r : trailing (l ++ [r]) = if Some r === last l then trailing l + 1 else 1.
Proof.
  unfold trailing. rewrite reverse_app. cbn. destruct (reverse l) as [|x k] eqn:E.
  - apply (f_equal reverse) in E. rewrite reverse_involutive in E. subst l. done.
  - apply (f_equal reverse) in E. rewrite reverse_involutive in E. subst l. rewrite reverse_cons, last_snoc. cbn.
    destruct (decide (r = x)) as [->|Hne].
    + rewrite !bool_decide_eq_true_2 by done. lia.
    + rewrite !bool_decide_eq_false_2 by congruence. lia.
Qed.

(** One more call on a guard that is not stopped. *)
Lemma note_remembered h o : note o.1 o.2 (remembered h false) = remembered (h ++ [o]) (looping (h ++ [o])).
Proof.
  unfold note, remembered, looping. cbn [pg_recent pg_lastResult pg_consecutive]. cbv zeta.
  rewrite <-last_of_snoc by lia. rewrite <-trailing_snoc, !fmap_app. cbn [fmap list_fmap]. rewrite last_snoc.
  rewrite last_of_last_of, last_of_length, !length_app, length_fmap by lia. cbn [length].
  replace (12 <=? 16 `min` (length h + 1))%nat with (12 <=? length h + 1)%nat
    by (destruct (Nat.leb_spec 12 (length h + 1)); symmetry; [apply Nat.leb_le|apply Nat.leb_gt]; lia).
  replace (16 `min` (length h + 1) =? 16)%nat with (16 <=? length h + 1)%nat
    by (destruct (Nat.leb_spec 16 (length h + 1)); symmetry; [apply Nat.eqb_eq|apply Nat.eqb_neq]; lia).
  done.
Qed.

(** Some history up to now was a loop. *)
Definition looped (h : history) : Prop := ∃ n, (n ≤ length h)%nat ∧ looping (take n h) = true.

Lemma looped_snoc h o : looped (h ++ [o]) ↔ looped h ∨ looping (h ++ [o]) = true.
Proof.
  unfold looped. rewrite length_app. cbn [length]. split.
  - intros (n & Hn & Hl). destruct (decide (n ≤ length h)%nat) as [Hle|Hgt].
    + left. exists n. split; [done|]. by rewrite take_app_le in Hl.
    + right. rewrite take_ge in Hl; [done|]. rewrite length_app. cbn. lia.
  - intros [(n & Hn & Hl)|Hl].
    + exists n. split; [lia|]. by rewrite take_app_le.
    + exists (length h + 1)%nat. split; [done|]. rewrite take_ge; [done|]. rewrite length_app. cbn. lia.
Qed.

Lemma guard_remembered h : (¬ looped h → guard_of h = remembered h false) ∧ (looped h → pg_stopped (guard_of h) = true).
Proof.
  induction h as [|o h [IH1 IH2]] using rev_ind.
  - split; [done|]. intros (n & Hn & Hl). cbn in Hn. replace n with 0%nat in Hl by lia. discriminate Hl.
  - unfold guard_of. rewrite foldl_snoc. fold (guard_of h). rewrite looped_snoc. split.
    + intros Hno. rewrite IH1 by tauto. unfold noted. cbn [pg_stopped remembered]. rewrite note_remembered.
      destruct (looping _); [tauto|done].
    + intros Hl. destruct (pg_stopped (guard_of h)) eqn:E; unfold noted; rewrite E; [exact E|].
      destruct Hl as [Hl|Hl]; [discriminate (IH2 Hl)|].
      assert (¬ looped h) as Hno by (intros Hl'; discriminate (IH2 Hl')). rewrite IH1 by done. by rewrite note_remembered, Hl.
Qed.

Lemma looped_dec h : looped h ∨ ¬ looped h.
Proof.
  destruct (existsb (λ n, looping (take n h)) (seq 0 (S (length h)))) eqn:E.
  - left. apply existsb_exists in E as (n & Hn & Hl). apply in_seq in Hn. exists n. split; [lia|done].
  - right. intros (n & Hn & Hl). rewrite existsb_false in E. rewrite E in Hl; [done|]. apply list_elem_of_In, in_seq. lia.
Qed.

(** What the guard decides from the hashes it keeps is what the whole history
    of calls says: it has stopped exactly when, at some point, the last four
    results were the same, the last twelve calls at most two different ones, or
    the last sixteen at most four; it never starts again; and until it stops it
    knows the last sixteen calls, the last result and how often it came in a row. *)
Theorem progress_guard_spec h :
  (pg_stopped (guard_of h) = true ↔ looped h) ∧
  (¬ looped h → guard_of h = remembered h false) ∧
  (∀ h', looped h → guard_of (h ++ h') = guard_of h).
Proof.
  destruct (guard_remembered h) as [H1 H2]. split; [|split].
  - split; [|done]. intros Hs. destruct (looped_dec h) as [|Hno]; [done|]. by rewrite (H1 Hno) in Hs.
  - done.
  - intros h' Hl. unfold guard_of. rewrite foldl_app. specialize (H2 Hl). unfold guard_of in H2.
    revert H2. generalize (foldl noted new_guard h). clear. intros g Hg. induction h' as [|o h' IH]; [done|]. cbn.
    assert (noted g o = g) as -> by (unfold noted; by rewrite Hg). exact IH.
Qed.
End history.

(** ** The state that travels in snapshots *)
Record guard_wf (g : PiToolProgressGuard) : Prop := {
  gw_recent : (length (pg_recent g) ≤ 16)%nat ∧ ∀ hash, hash ∈ pg_recent g → validHash hash = true;
  gw_result : ∀ hash, pg_lastResult g = Some hash → validHash hash = true;
  gw_count : 0 ≤ pg_consecutive g ≤ 4 ∧ (pg_stopped g = false → pg_consecutive g < 4);
}.

(** What is accepted. *)
Lemma restore_Ok state g : restore_guard (Some state) = Ok g ↔
  state = snapshot_guard g ∧ (length (pg_recent g) ≤ 16)%nat ∧ (∀ hash, hash ∈ pg_recent g → validHash hash = true) ∧
  (∀ hash, pg_lastResult g = Some hash → validHash hash = true) ∧ 0 ≤ pg_consecutive g ≤ 4.
Proof.
  unfold restore_guard. rewrite throw_if_bind. destruct state as [v recent result count stopped].
  cbn [gs_version gs_recent gs_lastResult gs_consecutive gs_stopped]. split.
  - destruct (_ || _) eqn:E; [done|]. intros [= <-]. cbn [pg_recent pg_lastResult pg_consecutive].
    rewrite !orb_false_iff, !Z.ltb_ge, !negb_false_iff, bool_decide_eq_true in E.
    destruct E as ((((((-> & H1) & H2) & H3) & _) & H4) & H5). rewrite forallb_elem in H2. split; [done|]. split; [lia|].
    split; [done|]. split; [|lia]. by intros hash ->.
  - intros (Heq & H1 & H2 & H3 & H4). unfold snapshot_guard in Heq. simplify_eq. destruct g as [recent result count stopped].
    cbn [pg_recent pg_lastResult pg_consecutive pg_stopped] in *.
    rewrite bool_decide_eq_true_2 by done. rewrite (proj2 (forallb_elem _ _) H2).
    replace (match result with None => true | Some hash => validHash hash end) with true by (destruct result; [by rewrite H3|done]).
    replace (isSafeInteger count) with true by (symmetry; apply Z.leb_le; unfold MAX_SAFE_INTEGER; lia).
    by rewrite !(proj2 (Z.ltb_ge _ _)) by lia.
Qed.

Lemma note_wf call result g : validHash call = true → validHash result = true → guard_wf g → pg_stopped g = false →
  guard_wf (note call result g).
Proof.
  intros Hc Hr [[H1 H2] H3 [H4 H5]] Hs. specialize (H5 Hs).
  split; cbn [note pg_recent pg_lastResult pg_consecutive pg_stopped].
  - assert (∀ hash, hash ∈ pg_recent g ++ [call] → validHash hash = true) as Hall
      by (intros hash [Hh| ->%list_elem_of_singleton]%elem_of_app; auto).
    destruct (Nat.ltb_spec 16 (length (pg_recent g ++ [call]))) as [Hlt|Hle]; [|by split].
    rewrite length_app in Hlt. cbn in Hlt. destruct (pg_recent g) as [|x l] eqn:E; [cbn in *; lia|]. cbn [app tail].
    rewrite length_app. cbn in *. split; [lia|]. intros hash Hh. apply Hall. by right.
  - by intros hash [= <-].
  - split; [case_bool_decide; lia|]. rewrite !orb_false_iff, Z.leb_gt. tauto.
Qed.

(** A call of a tool: its name, its input, its output and whether that is an error. *)
Definition tool_call : Type := string * json * json * bool.

Section runs.
Context `{Hsha : Sha256Law}.

Definition observed (g : PiToolProgressGuard) (c : tool_call) : PiToolProgressGuard :=
  let '(name, input, output, isError) := c in observe name input output isError g.

Definition hashed (c : tool_call) : string * string :=
  let '(name, input, output, isError) := c in
  let call := call_digest name input in (call, result_digest call output isError).

Lemma observed_noted g c : observed g c = noted g (hashed c).
Proof. by destruct c as [[[name input] output] isError]. Qed.

Lemma observed_guard calls : foldl observed new_guard calls = guard_of (hashed <$> calls).
Proof.
  unfold guard_of. generalize new_guard. induction calls as [|c calls IH]; intros g; [done|]. cbn. by rewrite IH, observed_noted.
Qed.

Lemma observed_wf calls : guard_wf (foldl observed new_guard calls).
Proof.
  induction calls as [|c calls IH] using rev_ind; [split; cbn; [split; [lia|]; intros hash Hh; by apply elem_of_nil in Hh|done|split; [lia|done]]|]. rewrite foldl_snoc, observed_noted.
  unfold noted. destruct (pg_stopped _) eqn:E; [done|]. destruct c as [[[name input] output] isError].
  apply note_wf; [apply sha256_valid..|done|done].
Qed.

Lemma wf_restored g : guard_wf g → restore_guard (Some (snapshot_guard g)) = Ok g.
Proof. intros [[H1 H2] H3 [H4 H5]]. by apply restore_Ok. Qed.
End runs.

(** C32 A Run that waits for an approval takes its guard along: whatever calls it
    made, the snapshot of the guard is accepted when the Run continues, and the
    guard then decides about the later calls what it would have decided without
    the interruption: what the whole history of calls says. *)
Theorem progress_guard_restored `{Hsha : Sha256Law} calls later :
  ∃ g, restore_guard (Some (snapshot_guard (foldl observed new_guard calls))) = Ok g ∧
    foldl observed g later = guard_of (hashed <$> (calls ++ later)) ∧
    (pg_stopped (foldl observed g later) = true ↔ looped (hashed <$> (calls ++ later))).
Proof.
  exists (foldl observed new_guard calls). split; [apply wf_restored, observed_wf|].
  rewrite <-foldl_app, observed_guard. split; [done|]. destruct (guard_remembered (hashed <$> (calls ++ later))) as [H1 H2].
  split; [|done]. intros Hs. destruct (looped_dec (hashed <$> (calls ++ later))) as [|Hno]; [done|]. by rewrite (H1 Hno) in Hs.
Qed.

(** Two tools that alternate are stopped at the twelfth call, although no result repeats. *)
Definition pair_of (n : nat) : string * string := (if Nat.odd n then "a" else "b", pretty (Z.of_nat n)).
Example alternating : looping (pair_of <$> seq 0 12) = true ∧ existsb (λ n, looping (pair_of <$> seq 0 n)) (seq 0 12) = false.
Proof. split; vm_compute; reflexivity. Qed.

(** A hash of the length of a text. *)
Definition length_hash : Sha256 := λ s, if Nat.odd (String.length s) then repeat_char 64 "0" else repeat_char 64 "a".
Lemma length_hash_law : @Sha256Law length_hash.
Proof. intros s. unfold sha256_hex, length_hash. destruct (Nat.odd _); vm_compute; reflexivity. Qed.

Definition same_call : tool_call := ("read", JObj [("path", JStr "a")], JNull, true).
Lemma same_call_loops : looped (@hashed length_hash <$> [same_call; same_call; same_call] ++ [same_call]).
Proof. exists 4%nat. split; [cbn; lia|vm_compute; reflexivity]. Qed.

Lemma progress_guard_restored_witness :
  ∃ g, restore_guard (Some (snapshot_guard (foldl (@observed length_hash) new_guard [same_call; same_call; same_call]))) = Ok g ∧
    pg_stopped (foldl (@observed length_hash) g [same_call]) = true.
Proof.
  destruct (@progress_guard_restored length_hash length_hash_law [same_call; same_call; same_call] [same_call])
    as (g & H1 & _ & H2). exists g. split; [exact H1|]. apply H2. exact same_call_loops.
Defined.
