(* ===== verification/Sqlite.v ===== *)
(** The database under packages/persistence-sqlite/src: tables with their
    constraints, transactions, and what a request to the worker that owns the
    database can end with. *)
From S2P Require Import Prelude Js Identifiers.
Local Open Scope Z_scope.

(** ** What a request ends with besides a value

    [applicationFailure] throws the first; an error of SQLite, or any other
    error, is the second, with the [code] it has, but a [TypeError], which some
    operations catch, is the third; the last is the end of the process. *)
Inductive failure :=
  | application_failure (e : ApplicationPortError)
  | database_error (code : option string) (message : string)
  | type_error (message : string)
  | process_exit (status : Z).

#[global] Instance failure_eq_dec : EqDecision failure.
Proof. solve_decision. Defined.

Definition applicationFailure (code : PortErrorCode) (message : string) (details : list (string * string)) : failure :=
  application_failure (mkPortError code message details).

(** [throw new Error(message)] *)
Definition plain_error (message : string) : failure := database_error None message.

(** ** Tables

    A table is the list of its rows.  [SELECT ... WHERE p] is a filter, [.get]
    its first row, [UPDATE ... SET f WHERE p] a map. *)
Section table.
Context {R : Type}.
Implicit Types (t : list R) (p : R → bool) (f : R → R).

Definition all_where p t : list R := List.filter p t.
Definition get_where p t : option R := List.find p t.
Definition exists_where p t : bool := existsb p t.
Definition update_where p f t : list R := (λ r, if p r then f r else r) <$> t.
Definition insert_row (r : R) t : list R := t ++ [r].

(** [ORDER BY ... LIMIT n] *)
Definition order_limit (compare : R → R → Z) (limit : Z) t : list R :=
  take (Z.to_nat limit) (sort_by compare t).
End table.

(** A constraint of the schema: a statement that violates it fails. *)
Definition constraint (kind message : string) (b : bool) : result failure unit :=
  throw_if (negb b) (database_error (Some ("SQLITE_CONSTRAINT_" +:+ kind)) message).

Definition check_holds (what : string) (b : bool) : result failure unit :=
  constraint "CHECK" ("CHECK constraint failed: " +:+ what) b.
Definition unique_holds (what : string) (b : bool) : result failure unit :=
  constraint "UNIQUE" ("UNIQUE constraint failed: " +:+ what) b.
Definition primary_holds (what : string) (b : bool) : result failure unit :=
  constraint "PRIMARYKEY" ("UNIQUE constraint failed: " +:+ what) b.
Definition foreign_holds (b : bool) : result failure unit :=
  constraint "FOREIGNKEY" "FOREIGN KEY constraint failed" b.

(** No row has the key yet; no two rows have the same. *)
Definition fresh_key {R K} `{EqDecision K} (key : R → K) (x : K) (t : list R) : bool :=
  negb (exists_where (λ r, key r === x) t).
Definition keys_unique {R K} `{EqDecision K} (key : R → K) (t : list R) : bool :=
  negb (has_duplicates (key <$> t)).

(** [database.transaction(f).immediate()]: all of it, or nothing.  A process that
    ends inside it leaves nothing either: the log is not committed. *)
Definition transaction {D A} (m : M failure D A) : M failure D A := λ d,
  match m d with
  | (Ok a, d') => (Ok a, d')
  | (Err x, _) => (Err x, d)
  end.

(** ** Lemmas on tables *)
Lemma constraint_Ok kind message b u : constraint kind message b = Ok u ↔ b = true.
Proof. unfold constraint. rewrite throw_if_Ok, negb_false_iff. done. Qed.

Lemma transaction_Ok {D A} (m : M failure D A) d a d' : transaction m d = (Ok a, d') ↔ m d = (Ok a, d').
Proof. unfold transaction. destruct (m d) as [[] ?]; naive_solver. Qed.

Lemma transaction_Err {D A} (m : M failure D A) d x d' :
  transaction m d = (Err x, d') ↔ d' = d ∧ ∃ d1, m d = (Err x, d1).
Proof. unfold transaction. destruct (m d) as [[] ?]; naive_solver. Qed.

Section elements.
Context {R : Type}.
Implicit Types (t : list R) (r : R).

Lemma elem_where p t r : r ∈ all_where p t ↔ r ∈ t ∧ p r = true.
Proof. unfold all_where. rewrite !list_elem_of_In, filter_In. done. Qed.

Lemma get_elem p t r : get_where p t = Some r → r ∈ t ∧ p r = true.
Proof. apply find_elem. Qed.

Lemma get_None p t : get_where p t = None ↔ ∀ r, r ∈ t → p r = false.
Proof. apply find_None. Qed.

Lemma elem_insert r r' t : r' ∈ insert_row r t ↔ r' ∈ t ∨ r' = r.
Proof. unfold insert_row. set_solver. Qed.

Lemma elem_update p f t r : r ∈ update_where p f t ↔
  (∃ r0, r0 ∈ t ∧ p r0 = true ∧ r = f r0) ∨ r ∈ t ∧ p r = false.
Proof.
  unfold update_where. rewrite list_elem_of_fmap. split.
  - intros (r0 & -> & H0). destruct (p r0) eqn:E; [left; eauto|by right].
  - intros [(r0 & H0 & Hp & ->)|[H0 Hp]]; [exists r0|exists r]; by rewrite Hp.
Qed.

Lemma update_cons p f r t : update_where p f (r :: t) = (if p r then f r else r) :: update_where p f t.
Proof. done. Qed.

Lemma update_where_none p f t : (∀ r, r ∈ t → p r = false) → update_where p f t = t.
Proof.
  intros H. unfold update_where. rewrite <-(list_fmap_id t) at 2. apply list_fmap_ext. intros i r Hi. cbn.
  by rewrite H by (by eapply list_elem_of_lookup_2).
Qed.

Lemma order_limit_elem (compare : R → R → Z) limit t r : r ∈ order_limit compare limit t → r ∈ t.
Proof.
  unfold order_limit. intros (i & H & _)%elem_of_take. apply list_elem_of_lookup_2 in H. by rewrite sort_by_perm in H.
Qed.

Lemma order_limit_all (compare : R → R → Z) limit t r :
  (List.length t ≤ Z.to_nat limit)%nat ∨ (List.length (order_limit compare limit t) < Z.to_nat limit)%nat →
  r ∈ t → r ∈ order_limit compare limit t.
Proof.
  unfold order_limit. rewrite length_take. pose proof (sort_by_perm compare t) as Hp.
  pose proof (Permutation_length Hp). intros H' Hr. rewrite take_ge by lia. by rewrite Hp.
Qed.
End elements.

Section lemmas.
Context {R K : Type} `{EqDecision K} (key : R → K).
Implicit Types (t : list R) (r : R).

Lemma key_inj t r r' : NoDup (key <$> t) → r ∈ t → r' ∈ t → key r = key r' → r = r'.
Proof.
  intros Hn Hr Hr' Hk. apply list_elem_of_lookup in Hr as [i Hi]. apply list_elem_of_lookup in Hr' as [j Hj].
  assert (i = j) as ->; [|congruence].
  eapply (NoDup_lookup (key <$> t)); [done|rewrite list_lookup_fmap, Hi; reflexivity|].
  rewrite list_lookup_fmap, Hj. cbn. congruence.
Qed.

Lemma get_key t k r : NoDup (key <$> t) → get_where (λ r, key r === k) t = Some r ↔ r ∈ t ∧ key r = k.
Proof.
  intros Hn. split.
  - by intros [? ?%bool_decide_eq_true]%get_elem.
  - intros [Hr Hk]. destruct (get_where _ t) as [r'|] eqn:E.
    + apply get_elem in E as [Hr' Hk'%bool_decide_eq_true]. f_equal. eapply key_inj; [done..|congruence].
    + rewrite get_None in E. apply E in Hr. rewrite bool_decide_eq_false in Hr. done.
Qed.

Lemma fresh_spec k t : fresh_key key k t = true ↔ k ∉ key <$> t.
Proof.
  unfold fresh_key, exists_where. rewrite negb_true_iff, existsb_false, list_elem_of_fmap. split.
  - intros H (r & -> & Hr). specialize (H r Hr). rewrite bool_decide_eq_false in H. done.
  - intros H r Hr. apply bool_decide_eq_false. intros <-. eauto.
Qed.

Lemma keys_unique_spec t : keys_unique key t = true ↔ NoDup (key <$> t).
Proof. unfold keys_unique, has_duplicates. by rewrite negb_involutive, bool_decide_eq_true. Qed.

Lemma insert_keys r t : NoDup (key <$> t) → fresh_key key (key r) t = true → NoDup (key <$> insert_row r t).
Proof.
  rewrite fresh_spec. intros Hn Hf. unfold insert_row. rewrite fmap_app. cbn. apply NoDup_app.
  split; [done|]. split; [|apply NoDup_singleton]. intros x Hx ->%list_elem_of_singleton. done.
Qed.

Lemma update_key p f t : (∀ r, key (f r) = key r) → key <$> update_where p f t = key <$> t.
Proof.
  intros Hf. unfold update_where. rewrite <-list_fmap_compose. apply list_fmap_ext. intros i r _. cbn.
  by destruct (p r).
Qed.

Lemma order_limit_keys (compare : R → R → Z) limit t : NoDup (key <$> t) → NoDup (key <$> order_limit compare limit t).
Proof.
  intros Hn. unfold order_limit. rewrite fmap_take. eapply sublist_NoDup; [|apply sublist_take].
  by rewrite (sort_by_perm compare t).
Qed.
End lemmas.
