(* ===== verification/SqliteSchema.v ===== *)
(** The tables of the database (packages/persistence-sqlite/src/migrations) that
    the modelled operations read or write, the constraints of those they write,
    and a write of each. *)
From S2P Require Import Prelude Js JsJson JsParse Identifiers Entities DurableState.
From S2P Require Import Coordination Persistence RunCoordination Sqlite.
Local Open Scope Z_scope.

(** ** Rows

    A deployment has the columns of a [DeploymentAuthorityState], a command
    result those of a [CommandResultRecord] and four more. *)
Record PayloadRow := mkPayloadRow {
  pl_ref : string; pl_ownerId : string; pl_agentId : string; pl_classification : ProductDataClassification }.

Record TriggerRow := mkTriggerRow {
  tg_id : string; tg_ownerId : string; tg_agentId : string; tg_payloadRef : string }.

Record RunRow := mkRunRow {
  ru_id : RunId; ru_ownerId : OwnerId; ru_agentId : AgentId; ru_threadId : option ThreadId; ru_sessionId : string;
  ru_triggerId : string; ru_revision : Z; ru_status : RunStatus; ru_createdAt : string; ru_updatedAt : string }.

#[global] Instance eta_RunRow : Eta RunRow := λ r,
  mkRunRow (ru_id r) (ru_ownerId r) (ru_agentId r) (ru_threadId r) (ru_sessionId r) (ru_triggerId r) (ru_revision r)
    (ru_status r) (ru_createdAt r) (ru_updatedAt r).

Record TurnRow := mkTurnRow {
  tu_ownerId : OwnerId; tu_agentId : AgentId; tu_threadId : option ThreadId; tu_runId : RunId; tu_turnIndex : Z }.

Record CheckpointRow := mkCheckpointRow {
  kp_runId : RunId; kp_ownerId : OwnerId; kp_agentId : AgentId; kp_revision : Z; kp_phase : RunCheckpointPhase;
  kp_contextRef : option string; kp_runtimeEventCount : Z; kp_lastTraceEventId : option string;
  kp_terminalStatus : option CheckpointTerminalStatus; kp_outputKind : option string; kp_finalAnswerRef : option string;
  kp_diagnosticCode : option string; kp_updatedAt : string; kp_suspensionJson : option string }.

#[global] Instance eta_CheckpointRow : Eta CheckpointRow := λ r,
  mkCheckpointRow (kp_runId r) (kp_ownerId r) (kp_agentId r) (kp_revision r) (kp_phase r) (kp_contextRef r)
    (kp_runtimeEventCount r) (kp_lastTraceEventId r) (kp_terminalStatus r) (kp_outputKind r) (kp_finalAnswerRef r)
    (kp_diagnosticCode r) (kp_updatedAt r) (kp_suspensionJson r).

Record ApprovalRow := mkApprovalRow {
  ap_id : string; ap_ownerId : OwnerId; ap_agentId : AgentId; ap_runId : RunId; ap_status : string;
  ap_semanticSnapshotHash : string }.

Record ExecutionLeaseRow := mkExecutionLease {
  xl_ownerId : OwnerId; xl_agentId : AgentId; xl_runId : RunId; xl_revision : Z; xl_authorityLeaseId : AuthorityLeaseId;
  xl_deploymentId : DeploymentId; xl_authorityEpoch : Z; xl_fencingToken : Z; xl_consumerId : string;
  xl_executionLeaseId : string; xl_claimedAt : string; xl_initialExpiresAt : string; xl_expiresAt : string;
  xl_releasedAt : option string }.

#[global] Instance eta_ExecutionLeaseRow : Eta ExecutionLeaseRow := λ r,
  mkExecutionLease (xl_ownerId r) (xl_agentId r) (xl_runId r) (xl_revision r) (xl_authorityLeaseId r) (xl_deploymentId r)
    (xl_authorityEpoch r) (xl_fencingToken r) (xl_consumerId r) (xl_executionLeaseId r) (xl_claimedAt r)
    (xl_initialExpiresAt r) (xl_expiresAt r) (xl_releasedAt r).

Record MemoryRow := mkMemoryRow {
  me_id : string; me_ownerId : string; me_agentId : string; me_revision : Z; me_status : string;
  me_classification : ProductDataClassification }.

Record ProjectionJobRow := mkProjectionJob {
  pj_id : string; pj_memoryId : string; pj_memoryRevision : Z; pj_status : string; pj_claimedBy : option string;
  pj_attemptCount : Z; pj_claimExpiresAt : option string }.

Record LeaseRow := mkLeaseRow {
  le_id : AuthorityLeaseId; le_ownerId : OwnerId; le_agentId : AgentId; le_deploymentId : DeploymentId;
  le_holderId : AuthorityHolderId; le_authorityEpoch : Z; le_fencingToken : Z; le_acquiredAt : string;
  le_expiresAt : string; le_releasedAt : option string }.

#[global] Instance eta_LeaseRow : Eta LeaseRow := λ r,
  mkLeaseRow (le_id r) (le_ownerId r) (le_agentId r) (le_deploymentId r) (le_holderId r) (le_authorityEpoch r)
    (le_fencingToken r) (le_acquiredAt r) (le_expiresAt r) (le_releasedAt r).

Record StateRow := mkStateRow {
  st_key : string; st_ownerId : OwnerId; st_agentId : AgentId; st_revision : Z; st_valueJson : string;
  st_updatedAt : string }.

Record CommandResultRow := mkResultRow {
  re_id : string; re_record : CommandResultRecord; re_deploymentId : DeploymentId; re_authorityEpoch : Z;
  re_fencingToken : Z }.

Inductive PublicationState := publication_pending | publication_claimed | publication_published.

#[global] Instance PublicationState_eq_dec : EqDecision PublicationState.
Proof. solve_decision. Defined.

Record EventRow := mkEventRow {
  eo_ownerId : OwnerId; eo_agentId : AgentId; eo_event : ReliableEvent; eo_state : PublicationState;
  eo_claimId : option string; eo_claimExpiresAt : option string; eo_publishedAt : option string;
  eo_acknowledgementRef : option string }.

#[global] Instance eta_EventRow : Eta EventRow := λ r,
  mkEventRow (eo_ownerId r) (eo_agentId r) (eo_event r) (eo_state r) (eo_claimId r) (eo_claimExpiresAt r)
    (eo_publishedAt r) (eo_acknowledgementRef r).

Record ConsumptionRow := mkConsumption { co_consumerId : string; co_eventId : string; co_processedAt : string }.

(** *** The model budget *)
Inductive AccountParentKind := kind_run | kind_occurrence | kind_projection.
Inductive AccountStatus := account_active | account_reconcile_required | account_over_budget.
Inductive AllocationStatus :=
  allocation_reserved | allocation_started | allocation_unknown | allocation_settled | allocation_released.
Inductive UnknownReason := provider_unresolved | transport_unresolved | cancel_unresolved.

#[global] Instance AccountParentKind_eq_dec : EqDecision AccountParentKind.
Proof. solve_decision. Defined.
#[global] Instance AccountStatus_eq_dec : EqDecision AccountStatus.
Proof. solve_decision. Defined.
#[global] Instance AllocationStatus_eq_dec : EqDecision AllocationStatus.
Proof. solve_decision. Defined.
#[global] Instance UnknownReason_eq_dec : EqDecision UnknownReason.
Proof. solve_decision. Defined.

Record AccountRow := mkAccountRow {
  ac_ownerId : string; ac_agentId : string; ac_accountId : string; ac_parentKind : AccountParentKind;
  ac_runId : option string; ac_occurrenceId : option string; ac_projectionJobId : option string;
  ac_dataClassification : ProductDataClassification; ac_reservedCostMicros : Z; ac_spentCostMicros : Z;
  ac_status : AccountStatus; ac_revision : Z }.

#[global] Instance eta_AccountRow : Eta AccountRow := λ r,
  mkAccountRow (ac_ownerId r) (ac_agentId r) (ac_accountId r) (ac_parentKind r) (ac_runId r) (ac_occurrenceId r)
    (ac_projectionJobId r) (ac_dataClassification r) (ac_reservedCostMicros r) (ac_spentCostMicros r) (ac_status r)
    (ac_revision r).

Record AllocationRow := mkAllocationRow {
  al_ownerId : string; al_agentId : string; al_accountId : string; al_operationKey : string; al_modelRef : string;
  al_dataClassification : ProductDataClassification; al_estimatedCostMicros : Z; al_actualCostMicros : option Z;
  al_status : AllocationStatus; al_reservedAt : string; al_startedAt : option string; al_observedAt : option string;
  al_settledAt : option string; al_reasonCode : option UnknownReason }.

#[global] Instance eta_AllocationRow : Eta AllocationRow := λ r,
  mkAllocationRow (al_ownerId r) (al_agentId r) (al_accountId r) (al_operationKey r) (al_modelRef r)
    (al_dataClassification r) (al_estimatedCostMicros r) (al_actualCostMicros r) (al_status r) (al_reservedAt r)
    (al_startedAt r) (al_observedAt r) (al_settledAt r) (al_reasonCode r).

#[global] Instance AllocationRow_eq_dec : EqDecision AllocationRow.
Proof. solve_decision. Defined.

(** Owners, Agents, payloads, triggers, jobs, memories, turns and approval
    requests are only read.  The row of an occurrence holds the whole record
    ([record_json]). *)
Record Database := mkDatabase {
  t_owners : list string; t_agents : list string; t_payloads : list PayloadRow; t_triggers : list TriggerRow;
  t_runs : list RunRow; t_jobs : list BackgroundJobState; t_memories : list MemoryRow;
  t_projectionJobs : list ProjectionJobRow;
  t_deployments : list DeploymentAuthorityState; t_leases : list LeaseRow; t_states : list StateRow;
  t_results : list CommandResultRow; t_events : list EventRow; t_consumptions : list ConsumptionRow;
  t_executionLeases : list ExecutionLeaseRow; t_occurrences : list BackgroundOccurrence;
  t_accounts : list AccountRow; t_allocations : list AllocationRow;
  t_turns : list TurnRow; t_checkpoints : list CheckpointRow; t_approvals : list ApprovalRow }.

#[global] Instance eta_Database : Eta Database := λ r,
  mkDatabase (t_owners r) (t_agents r) (t_payloads r) (t_triggers r) (t_runs r) (t_jobs r) (t_memories r)
    (t_projectionJobs r) (t_deployments r) (t_leases r) (t_states r) (t_results r) (t_events r) (t_consumptions r)
    (t_executionLeases r) (t_occurrences r) (t_accounts r) (t_allocations r) (t_turns r) (t_checkpoints r) (t_approvals r).

Abbreviation Wk := (M failure Database) (only parsing).

Definition eo_id (r : EventRow) : string := ev_id (eo_event r).
Definition result_lookup (r : CommandResultRow) : CommandResultLookup := cr_lookup (re_record r).

#[global] Instance CommandResultLookup_eq_dec : EqDecision CommandResultLookup.
Proof. solve_decision. Defined.

(** ** The constraints of the schema *)
Definition deployments_hold (d : Database) : result failure unit :=
  let t := t_deployments d in
  check_holds "deployments" (forallb (λ r, (0 <=? dep_revision r) && (0 <=? dep_authorityEpoch r) && (0 <=? dep_fencingToken r)) t) ;;
  primary_holds "deployments.id" (keys_unique dep_id t) ;;
  unique_holds "deployments.agent_id, deployments.authority_epoch"
    (keys_unique (λ r, (dep_agentId r, dep_authorityEpoch r)) t) ;;
  unique_holds "deployments.agent_id" (keys_unique dep_agentId (all_where (λ r, dep_status r === deployment_active) t)) ;;
  foreign_holds (forallb (λ r, includes (dep_ownerId r) (t_owners d) && includes (dep_agentId r) (t_agents d)) t).

Definition leases_hold (d : Database) : result failure unit :=
  let t := t_leases d in
  check_holds "authority_leases" (forallb (λ r, (1 <=? le_authorityEpoch r) && (1 <=? le_fencingToken r)) t) ;;
  primary_holds "authority_leases.id" (keys_unique le_id t) ;;
  unique_holds "authority_leases.deployment_id, authority_leases.authority_epoch, authority_leases.fencing_token"
    (keys_unique (λ r, (le_deploymentId r, le_authorityEpoch r, le_fencingToken r)) t) ;;
  foreign_holds (forallb (λ r, includes (le_ownerId r) (t_owners d) && includes (le_agentId r) (t_agents d)
    && includes (le_deploymentId r) (dep_id <$> t_deployments d)) t).

(** The trigger of migration 0018: coordination checkpoints have a table of their own. *)
Definition typed_store_only (r : StateRow) : bool := startsWith (st_key r) "run-checkpoint:".

Definition states_hold (d : Database) : result failure unit :=
  let t := t_states d in
  constraint "TRIGGER" "Run coordination checkpoints require the typed store" (negb (existsb typed_store_only t)) ;;
  check_holds "product_state_records" (forallb (λ r, (1 <=? st_revision r) && negb (is_none (JSON_parse (st_valueJson r)))) t) ;;
  primary_holds "product_state_records.key" (keys_unique st_key t) ;;
  foreign_holds (forallb (λ r, includes (st_ownerId r) (t_owners d) && includes (st_agentId r) (t_agents d)) t).

Definition results_hold (d : Database) : result failure unit :=
  let t := t_results d in
  check_holds "command_results" (forallb (λ r, (1 <=? re_authorityEpoch r) && (1 <=? re_fencingToken r)
    && (0 <=? cr_stateRevision (re_record r))) t) ;;
  primary_holds "command_results.id" (keys_unique re_id t) ;;
  unique_holds "command_results.owner_id, command_results.agent_id, command_results.idempotency_key"
    (keys_unique result_lookup t) ;;
  foreign_holds (forallb (λ r, includes (lk_ownerId (result_lookup r)) (t_owners d)
    && includes (lk_agentId (result_lookup r)) (t_agents d) && includes (re_deploymentId r) (dep_id <$> t_deployments d)) t).

Definition events_hold (d : Database) : result failure unit :=
  let t := t_events d in
  check_holds "reliable_events" (forallb (λ r, (eo_state r === publication_published) === negb (is_none (eo_publishedAt r))) t) ;;
  primary_holds "reliable_events.id" (keys_unique eo_id t) ;;
  foreign_holds (forallb (λ r, includes (eo_ownerId r) (t_owners d) && includes (eo_agentId r) (t_agents d)
    && includes (ev_payloadRef (eo_event r)) (pl_ref <$> t_payloads d)) t).

(** SQL's [length(trim(s)) > 0]: not only spaces. *)
Fixpoint not_blank (s : string) : bool :=
  match s with EmptyString => false | String c s => negb (Ascii.eqb c " "%char) || not_blank s end.

Definition in_safe_range (n : Z) : bool := (0 <=? n) && (n <=? 9007199254740991).

Definition only_parent (k : AccountParentKind) (r : AccountRow) : bool :=
  negb (is_none (ac_runId r) === (k === kind_run)) && negb (is_none (ac_occurrenceId r) === (k === kind_occurrence))
  && negb (is_none (ac_projectionJobId r) === (k === kind_projection)).

(** [account_id = 'run:' || run_id] and the like. *)
Definition account_id_of (r : AccountRow) : option string :=
  match ac_parentKind r with
  | kind_run => (λ x, "run:" +:+ x) <$> ac_runId r
  | kind_occurrence => (λ x, "occurrence:" +:+ x) <$> ac_occurrenceId r
  | kind_projection => (λ x, "memory-projection:" +:+ x) <$> ac_projectionJobId r
  end.

Definition account_checks (r : AccountRow) : bool :=
  not_blank (ac_accountId r) && in_safe_range (ac_reservedCostMicros r) && in_safe_range (ac_spentCostMicros r)
  && in_safe_range (ac_revision r) && (ac_reservedCostMicros r <=? 9007199254740991 - ac_spentCostMicros r)
  && only_parent (ac_parentKind r) r && (account_id_of r === Some (ac_accountId r)).

(** A nullable column is unique among the rows that have it. *)
Definition unique_parent (column : AccountRow → option string) (t : list AccountRow) : bool :=
  keys_unique (λ r, (ac_ownerId r, ac_agentId r, column r)) (all_where (λ r, negb (is_none (column r))) t).

Definition account_key (r : AccountRow) : string * string * string := (ac_ownerId r, ac_agentId r, ac_accountId r).

Definition account_references (d : Database) (r : AccountRow) : bool :=
  includes (ac_ownerId r) (t_owners d) && includes (ac_agentId r) (t_agents d)
  && match ac_runId r with
     | None => true
     | Some x => existsb (λ run, (ru_ownerId run, ru_agentId run, ru_id run) === (ac_ownerId r, ac_agentId r, x)) (t_runs d)
     end
  && match ac_occurrenceId r with
     | None => true
     | Some x => existsb (λ o, (bo_ownerId o, bo_agentId o, bo_id o) === (ac_ownerId r, ac_agentId r, x)) (t_occurrences d)
     end
  && match ac_projectionJobId r with None => true | Some x => includes x (pj_id <$> t_projectionJobs d) end.

Definition accounts_hold (d : Database) : result failure unit :=
  let t := t_accounts d in
  check_holds "model_budget_accounts" (forallb account_checks t) ;;
  primary_holds "model_budget_accounts.owner_id, model_budget_accounts.agent_id, model_budget_accounts.account_id"
    (keys_unique account_key t) ;;
  unique_holds "model_budget_accounts.owner_id, model_budget_accounts.agent_id, model_budget_accounts.run_id"
    (unique_parent ac_runId t) ;;
  unique_holds "model_budget_accounts.owner_id, model_budget_accounts.agent_id, model_budget_accounts.occurrence_id"
    (unique_parent ac_occurrenceId t) ;;
  unique_holds "model_budget_accounts.owner_id, model_budget_accounts.agent_id, model_budget_accounts.projection_job_id"
    (unique_parent ac_projectionJobId t) ;;
  foreign_holds (forallb (account_references d) t).

Definition allocation_checks (r : AllocationRow) : bool :=
  not_blank (al_operationKey r) && not_blank (al_modelRef r) && in_safe_range (al_estimatedCostMicros r)
  && match al_actualCostMicros r with None => true | Some c => in_safe_range c end
  && ((al_status r === allocation_unknown) === negb (is_none (al_reasonCode r)))
  && (if al_status r === allocation_settled
      then negb (is_none (al_actualCostMicros r)) && negb (is_none (al_settledAt r))
      else is_none (al_actualCostMicros r) && is_none (al_settledAt r))
  && ((al_status r !== allocation_unknown) || negb (is_none (al_observedAt r))).

Definition allocation_account (r : AllocationRow) : string * string * string :=
  (al_ownerId r, al_agentId r, al_accountId r).
Definition allocation_key (r : AllocationRow) : string * string * string * string :=
  (allocation_account r, al_operationKey r).

Definition allocations_hold (d : Database) : result failure unit :=
  let t := t_allocations d in
  check_holds "model_budget_allocations" (forallb allocation_checks t) ;;
  primary_holds "model_budget_allocations.owner_id, model_budget_allocations.agent_id, model_budget_allocations.account_id, model_budget_allocations.operation_key"
    (keys_unique allocation_key t) ;;
  foreign_holds (forallb (λ r, includes (allocation_account r) (account_key <$> t_accounts d)) t).

Definition occurrence_checks (r : BackgroundOccurrence) : bool :=
  (1 <=? bo_revision r) && (1 <=? fence_authorityEpoch (bo_authority r)) && (1 <=? fence_fencingToken (bo_authority r))
  && (0 <=? bo_estimatedCostMicros r) && (0 <=? bo_reservedCostMicros r) && (0 <=? bo_spentCostMicros r)
  && (0 <=? bo_attemptCount r).

Definition occurrences_hold (d : Database) : result failure unit :=
  let t := t_occurrences d in
  check_holds "job_occurrences" (forallb occurrence_checks t) ;;
  primary_holds "job_occurrences.id" (keys_unique bo_id t) ;;
  unique_holds "job_occurrences.job_id, job_occurrences.stable_key" (keys_unique (λ r, (bo_jobId r, bo_stableKey r)) t) ;;
  foreign_holds (forallb (λ r, includes (bo_jobId r) (bj_id <$> t_jobs d) && includes (bo_ownerId r) (t_owners d)
    && includes (bo_agentId r) (t_agents d) && includes (fence_deploymentId (bo_authority r)) (dep_id <$> t_deployments d)
    && match bo_runId r with None => true | Some x => includes x (ru_id <$> t_runs d) end) t).

(** A Run keeps its Thread: the reference is not written. *)
Definition run_references (d : Database) (r : RunRow) : bool :=
  includes (ru_ownerId r) (t_owners d) && includes (ru_agentId r) (t_agents d)
  && includes (ru_triggerId r) (tg_id <$> t_triggers d).

Definition runs_hold (d : Database) : result failure unit :=
  let t := t_runs d in
  check_holds "runs" (forallb (λ r, 0 <=? ru_revision r) t) ;;
  primary_holds "runs.id" (keys_unique ru_id t) ;;
  unique_holds "runs.trigger_id" (keys_unique ru_triggerId t) ;;
  foreign_holds (forallb (run_references d) t).

Definition run_key (r : RunRow) : string * string * string := (ru_ownerId r, ru_agentId r, ru_id r).
Definition lease_key (r : ExecutionLeaseRow) : string * string * string := (xl_ownerId r, xl_agentId r, xl_runId r).

Definition execution_checks (r : ExecutionLeaseRow) : bool :=
  in_safe_range (xl_revision r) && (1 <=? xl_authorityEpoch r) && (xl_authorityEpoch r <=? 9007199254740991)
  && (1 <=? xl_fencingToken r) && (xl_fencingToken r <=? 9007199254740991)
  && not_blank (xl_consumerId r) && not_blank (xl_executionLeaseId r)
  && str_lt (xl_claimedAt r) (xl_initialExpiresAt r) && str_lt (xl_claimedAt r) (xl_expiresAt r)
  && match xl_releasedAt r with None => true | Some at_ => str_le (xl_claimedAt r) at_ end.

Definition execution_references (d : Database) (r : ExecutionLeaseRow) : bool :=
  includes (lease_key r) (run_key <$> t_runs d) && includes (xl_authorityLeaseId r) (le_id <$> t_leases d)
  && existsb (λ e, (dep_ownerId e, dep_agentId e, dep_id e) === (xl_ownerId r, xl_agentId r, xl_deploymentId r))
       (t_deployments d).

Definition executionLeases_hold (d : Database) : result failure unit :=
  let t := t_executionLeases d in
  check_holds "run_execution_leases" (forallb execution_checks t) ;;
  primary_holds "run_execution_leases.owner_id, run_execution_leases.agent_id, run_execution_leases.run_id"
    (keys_unique lease_key t) ;;
  unique_holds "run_execution_leases.execution_lease_id" (keys_unique xl_executionLeaseId t) ;;
  foreign_holds (forallb (execution_references d) t).

Definition optional_not_blank (s : option string) : bool := match s with None => true | Some s => not_blank s end.

Definition checkpoint_checks (r : CheckpointRow) : bool :=
  (1 <=? kp_revision r) && (kp_revision r <=? 9007199254740991) && optional_not_blank (kp_contextRef r)
  && in_safe_range (kp_runtimeEventCount r) && optional_not_blank (kp_finalAnswerRef r)
  && match kp_suspensionJson r with None => true | Some s => negb (is_none (JSON_parse s)) end
  && ((kp_outputKind r === Some "assistant-answer") === negb (is_none (kp_finalAnswerRef r))).

Definition checkpoint_payload (d : Database) (r : CheckpointRow) (ref : option string) : bool :=
  match ref with
  | None => true
  | Some ref => existsb (λ p, (pl_ownerId p, pl_agentId p, pl_ref p) === (kp_ownerId r, kp_agentId r, ref)) (t_payloads d)
  end.

(** A checkpoint keeps its last trace event: the reference is not written. *)
Definition checkpoint_references (d : Database) (r : CheckpointRow) : bool :=
  includes (kp_ownerId r, kp_agentId r, kp_runId r) (run_key <$> t_runs d)
  && checkpoint_payload d r (kp_contextRef r) && checkpoint_payload d r (kp_finalAnswerRef r).

Definition checkpoints_hold (d : Database) : result failure unit :=
  let t := t_checkpoints d in
  check_holds "run_coordination_checkpoints" (forallb checkpoint_checks t) ;;
  primary_holds "run_coordination_checkpoints.run_id" (keys_unique kp_runId t) ;;
  foreign_holds (forallb (checkpoint_references d) t).

(** A statement that writes a table: its constraints hold afterwards, or nothing is written. *)
Definition write (holds : Database → result failure unit) (f : Database → Database) : Wk unit := λ d,
  match holds (f d) with Ok _ => (Ok tt, f d) | Err x => (Err x, d) end.

Definition write_deployments (f : list DeploymentAuthorityState → list DeploymentAuthorityState) : Wk unit :=
  write deployments_hold (λ d, d <| t_deployments := f (t_deployments d) |>).
Definition write_leases (f : list LeaseRow → list LeaseRow) : Wk unit :=
  write leases_hold (λ d, d <| t_leases := f (t_leases d) |>).
Definition write_states (f : list StateRow → list StateRow) : Wk unit :=
  write states_hold (λ d, d <| t_states := f (t_states d) |>).
Definition write_results (f : list CommandResultRow → list CommandResultRow) : Wk unit :=
  write results_hold (λ d, d <| t_results := f (t_results d) |>).
Definition write_events (f : list EventRow → list EventRow) : Wk unit :=
  write events_hold (λ d, d <| t_events := f (t_events d) |>).
Definition write_accounts (f : list AccountRow → list AccountRow) : Wk unit :=
  write accounts_hold (λ d, d <| t_accounts := f (t_accounts d) |>).
Definition write_allocations (f : list AllocationRow → list AllocationRow) : Wk unit :=
  write allocations_hold (λ d, d <| t_allocations := f (t_allocations d) |>).
Definition write_runs (f : list RunRow → list RunRow) : Wk unit :=
  write runs_hold (λ d, d <| t_runs := f (t_runs d) |>).
Definition write_executionLeases (f : list ExecutionLeaseRow → list ExecutionLeaseRow) : Wk unit :=
  write executionLeases_hold (λ d, d <| t_executionLeases := f (t_executionLeases d) |>).
Definition write_checkpoints (f : list CheckpointRow → list CheckpointRow) : Wk unit :=
  write checkpoints_hold (λ d, d <| t_checkpoints := f (t_checkpoints d) |>).
Definition write_occurrences (f : list BackgroundOccurrence → list BackgroundOccurrence) : Wk unit :=
  write occurrences_hold (λ d, d <| t_occurrences := f (t_occurrences d) |>).
