(* ===== verification/SqliteWorker.v ===== *)
(** packages/persistence-sqlite/src/sqlite-worker.ts: the operations of the
    worker on the tables of the product core:
    deployments, authority leases, product state, commands and their events. *)
From S2P Require Import Prelude Js JsDate JsJson JsParse Identifiers Entities DurableState.
From S2P Require Import AuthTypes Deterministic InMemoryAuth Coordination Persistence Sqlite SqliteSchema.
Local Open Scope Z_scope.

(** ** Records from rows *)
Definition invalid_json : failure := plain_error "Unexpected token in JSON".

Definition stateFromRow (row : StateRow) : result failure StateRecord :=
  match JSON_parse (st_valueJson row) with
  | Some (JObj value) => Ok (mkStateRecord (st_key row) (st_revision row) value)
  | _ => Err invalid_json
  end.

Definition eventFromRow (row : EventRow) : ReliableEventRecord := mkEventRecord (eo_event row) (eo_publishedAt row).

Definition leaseFromRow (row : LeaseRow) : AuthorityLeaseRecord :=
  mkLeaseRecord (mkLease (le_id row) (le_agentId row) (le_ownerId row) (le_holderId row))
    (le_fencingToken row) (le_acquiredAt row) (le_expiresAt row).

(** ** Operations *)
Inductive CrashPoint := after_state | after_result | after_event | after_commit.

#[global] Instance CrashPoint_eq_dec : EqDecision CrashPoint.
Proof. solve_decision. Defined.

(** [crashAt] ends the process at a point of a commit; it is set in
    qualification runs, and stands here for any end of the process. *)
Record SqliteWorkerConfiguration := mkWorkerConfiguration {
  wc_minimumFreeBytes : Z; wc_crashAt : option CrashPoint }.

(** [validDeploymentTransition] *)
Definition validDeploymentTransition (current next : DeploymentAuthorityState) : bool :=
  match dep_status current, dep_status next with
  | deployment_inactive_ready, deployment_active =>
      (dep_authorityEpoch current <? dep_authorityEpoch next) && (0 <? dep_fencingToken next)
      && (dep_transferId next === dep_transferId current)
  | deployment_active, deployment_retired_pending_transfer
  | deployment_retired_pending_transfer, deployment_retired =>
      (dep_authorityEpoch next === dep_authorityEpoch current) && (dep_fencingToken next === dep_fencingToken current)
      && (dep_transferId next === dep_transferId current)
  | _, _ => false
  end.

Definition assertLeaseDuration (durationMs : Z) : result failure unit :=
  throw_if (negb (isSafeInteger durationMs) || (durationMs <=? 0))
    (applicationFailure INVALID_OPERATION "Authority lease duration must be positive"
       [("durationMs", numToString durationMs)]).

(** [new Date(new Date(now).valueOf() + durationMs).toISOString()] *)
Definition expiresAt (now : string) (durationMs : Z) : result failure string :=
  match dateParse now ≫= λ t, match isoOfTime (t + durationMs) with Ok s => Some s | Err _ => None end with
  | Some s => Ok s
  | None => Err (plain_error "Invalid time value")
  end.

(** [(row.released_at IS NULL) AND expires_at > now] of the Agent's leases, the last token first. *)
Definition live_lease (agentId : AgentId) (now : string) (r : LeaseRow) : bool :=
  (le_agentId r === agentId) && is_none (le_releasedAt r) && str_lt now (le_expiresAt r).

Definition later_token (a b : LeaseRow) : Z := le_fencingToken b - le_fencingToken a.

Definition current_lease_row (agentId : AgentId) (now : string) (d : Database) : option LeaseRow :=
  head (order_limit later_token 1 (all_where (live_lease agentId now) (t_leases d))).

Definition currentLease (agentId : AgentId) (now : string) : Wk (option AuthorityLeaseRecord) :=
  gets (λ d, leaseFromRow <$> current_lease_row agentId now d).

(** [COALESCE(MAX(fencing_token), 0)] *)
Definition last_token (agentId : AgentId) (d : Database) : Z :=
  foldr Z.max 0 (le_fencingToken <$> all_where (λ r, le_agentId r === agentId) (t_leases d)).

(** [ORDER BY occurred_at, id] *)
Definition event_order (a b : EventRow) : Z :=
  match compareStrings (ev_occurredAt (eo_event a)) (ev_occurredAt (eo_event b)) with
  | 0 => compareStrings (eo_id a) (eo_id b)
  | c => c
  end.

Definition of_command (lookup : CommandResultLookup) (r : EventRow) : bool :=
  mkLookup (eo_ownerId r) (eo_agentId r) (ev_idempotencyKey (eo_event r)) === lookup.

Section worker.
Context {sha : Sha256} (configuration : SqliteWorkerConfiguration) (freeBytes : Z).

Definition assertDiskHeadroom : result failure unit :=
  throw_if (freeBytes <? wc_minimumFreeBytes configuration)
    (applicationFailure CONFLICT "SQLite writes are restricted by disk headroom"
       [("reason", "disk_headroom"); ("freeBytes", numToString freeBytes);
        ("minimumFreeBytes", numToString (wc_minimumFreeBytes configuration))]).

Definition maybeCrash (point : CrashPoint) : Wk unit :=
  throwM_if (wc_crashAt configuration === Some point) (process_exit 86).

(** *** Deployments *)
Definition deployment_row (deploymentId : DeploymentId) (d : Database) : option DeploymentAuthorityState :=
  get_where (λ r, dep_id r === deploymentId) (t_deployments d).

Definition readDeployment (deploymentId : DeploymentId) : Wk (option DeploymentAuthorityState) :=
  gets (deployment_row deploymentId).

Definition saveDeployment (deployment : DeploymentAuthorityState) (expectedRevision : Z)
    : Wk DeploymentAuthorityState :=
  lift assertDiskHeadroom ;;
  transaction (
    current ← readDeployment (dep_id deployment);
    match current with
    | None =>
        throwM_if ((expectedRevision !== 0) || (dep_revision deployment !== 0)
                   || (dep_status deployment !== deployment_inactive_ready) || (dep_fencingToken deployment !== 0))
          (applicationFailure CONFLICT "A new deployment must start inactive at revision 0"
             [("deploymentId", dep_id deployment); ("expectedRevision", numToString expectedRevision)]) ;;
        write_deployments (insert_row deployment) ;;
        mret deployment
    | Some current =>
        throwM_if ((dep_revision current !== expectedRevision) || (dep_revision deployment !== (expectedRevision + 1))
                   || (dep_ownerId current !== dep_ownerId deployment) || (dep_agentId current !== dep_agentId deployment)
                   || negb (validDeploymentTransition current deployment))
          (applicationFailure CONFLICT "Deployment revision or lifecycle transition conflicts"
             [("deploymentId", dep_id deployment); ("currentRevision", numToString (dep_revision current));
              ("expectedRevision", numToString expectedRevision);
              ("currentStatus", deployment_name (dep_status current)); ("nextStatus", deployment_name (dep_status deployment))]) ;;
        write_deployments (update_where (λ r, dep_id r === dep_id deployment)
          (λ r, r <| dep_revision := dep_revision deployment |> <| dep_status := dep_status deployment |>
                  <| dep_authorityEpoch := dep_authorityEpoch deployment |>
                  <| dep_fencingToken := dep_fencingToken deployment |>
                  <| dep_transferId := dep_transferId deployment |>)) ;;
        mret deployment
    end).

Definition assertCurrentDeployment (fence : ProductAuthorityFence) : Wk DeploymentAuthorityState :=
  deployment ← readDeployment (fence_deploymentId fence);
  let stale := applicationFailure NOT_AUTHORITATIVE "Deployment authority fence is stale"
    [("deploymentId", fence_deploymentId fence); ("authorityEpoch", numToString (fence_authorityEpoch fence));
     ("fencingToken", numToString (fence_fencingToken fence))] in
  match deployment with
  | None => throw stale
  | Some deployment =>
      throwM_if ((dep_status deployment !== deployment_active)
                 || (dep_authorityEpoch deployment !== fence_authorityEpoch fence)
                 || (dep_fencingToken deployment !== fence_fencingToken fence)) stale ;;
      mret deployment
  end.

(** *** Authority leases *)
Definition claimLease (lease : AgentAuthorityLease) (durationMs : Z) (now : string) : Wk AuthorityLeaseRecord :=
  lift (assertLeaseDuration durationMs) ;;
  lift assertDiskHeadroom ;;
  transaction (
    current ← currentLease (lease_agentId lease) now;
    match current with
    | Some current =>
        throwM_if (negb ((lease_id (lr_lease current) === lease_id lease)
                         && (lease_holderId (lr_lease current) === lease_holderId lease)
                         && (lease_ownerId (lr_lease current) === lease_ownerId lease)))
          (applicationFailure CONFLICT ("Agent " +:+ lease_agentId lease +:+ " already has a live lease")
             [("agentId", lease_agentId lease); ("currentLeaseId", lease_id (lr_lease current))]) ;;
        mret current
    | None =>
        deployment ← gets (λ d, get_where (λ r, (dep_ownerId r === lease_ownerId lease)
          && (dep_agentId r === lease_agentId lease) && (dep_status r === deployment_active)) (t_deployments d));
        match deployment with
        | None => throw (applicationFailure NOT_AUTHORITATIVE "No active deployment can claim authority"
                           [("agentId", lease_agentId lease)])
        | Some deployment =>
            previousToken ← gets (last_token (lease_agentId lease));
            let fencingToken := previousToken + 1 in
            write_deployments (update_where (λ r, dep_id r === dep_id deployment)
              (λ r, r <| dep_revision := dep_revision r + (if dep_fencingToken r === fencingToken then 0 else 1) |>
                      <| dep_fencingToken := fencingToken |>)) ;;
            leaseExpiresAt ← lift (expiresAt now durationMs);
            write_leases (insert_row (mkLeaseRow (lease_id lease) (lease_ownerId lease) (lease_agentId lease)
              (dep_id deployment) (lease_holderId lease) (dep_authorityEpoch deployment) fencingToken now leaseExpiresAt None)) ;;
            mret (mkLeaseRecord lease fencingToken now leaseExpiresAt)
        end
    end).

Definition lease_row (leaseId : AuthorityLeaseId) (d : Database) : option LeaseRow :=
  get_where (λ r, le_id r === leaseId) (t_leases d).

Definition renewLease (leaseId : AuthorityLeaseId) (durationMs : Z) (now : string) : Wk AuthorityLeaseRecord :=
  lift (assertLeaseDuration durationMs) ;;
  row ← gets (lease_row leaseId);
  let not_live := applicationFailure NOT_FOUND ("Authority lease " +:+ leaseId +:+ " is not live") [("leaseId", leaseId)] in
  match row with
  | None => throw not_live
  | Some row =>
      throwM_if (negb (is_none (le_releasedAt row)) || str_le (le_expiresAt row) now) not_live ;;
      leaseExpiresAt ← lift (expiresAt now durationMs);
      write_leases (update_where (λ r, le_id r === leaseId) (λ r, r <| le_expiresAt := leaseExpiresAt |>)) ;;
      mret (leaseFromRow (row <| le_expiresAt := leaseExpiresAt |>))
  end.

Definition releaseLease (leaseId : AuthorityLeaseId) (now : string) : Wk unit :=
  row ← gets (lease_row leaseId);
  throwM_if (match row with None => true | Some row => negb (is_none (le_releasedAt row)) end)
    (applicationFailure NOT_FOUND ("Authority lease " +:+ leaseId +:+ " not found") [("leaseId", leaseId)]) ;;
  write_leases (update_where (λ r, le_id r === leaseId) (λ r, r <| le_releasedAt := Some now |>)).

(** *** Product state *)
Definition state_row (key : string) (d : Database) : option StateRow :=
  get_where (λ r, st_key r === key) (t_states d).

Definition optional_state (row : option StateRow) : result failure (option StateRecord) :=
  match row with None => Ok None | Some row => state ← stateFromRow row; mret (Some state) end.

Definition readState (key : string) : Wk (option StateRecord) :=
  row ← gets (state_row key);
  lift (optional_state row).

Definition readScopedState (ownerId : OwnerId) (agentId : AgentId) (key : string) : Wk (option StateRecord) :=
  row ← gets (λ d, get_where (λ r, (st_key r === key) && (st_ownerId r === ownerId) && (st_agentId r === agentId)) (t_states d));
  lift (optional_state row).

(** *** Commands *)
Definition result_row (lookup : CommandResultLookup) (d : Database) : option CommandResultRow :=
  get_where (λ r, result_lookup r === lookup) (t_results d).

Definition findCommandResult (lookup : CommandResultLookup) : Wk (option CommandResultRecord) :=
  gets (λ d, re_record <$> result_row lookup d).

Definition events_of (lookup : CommandResultLookup) (d : Database) : list ReliableEventRecord :=
  eventFromRow <$> sort_by event_order (all_where (of_command lookup) (t_events d)).

Definition eventsForCommand (lookup : CommandResultLookup) : Wk (list ReliableEventRecord) := gets (events_of lookup).

Definition findCommandCommit (lookup : CommandResultLookup) (replayed : bool) : Wk (option CommitStateAndEventsResult) :=
  commandResult ← findCommandResult lookup;
  match commandResult with
  | None => mret None
  | Some commandResult =>
      state ← readState (cr_stateKey commandResult);
      let behind := plain_error ("Committed state " +:+ cr_stateKey commandResult +:+ " is missing or behind its result") in
      match state with
      | None => throw behind
      | Some state =>
          throwM_if (sr_revision state <? cr_stateRevision commandResult) behind ;;
          events ← eventsForCommand lookup;
          mret (Some (mkCommitResult state events commandResult replayed))
      end
  end.

Definition idempotency_reused (key : IdempotencyKey) : failure :=
  applicationFailure CONFLICT ("Idempotency key " +:+ key +:+ " was already used by another command")
    [("idempotencyKey", key)].

Definition replayExisting (input : CommitStateAndEventsInput) : Wk (option CommitStateAndEventsResult) :=
  let command := ci_command input in
  existing ← findCommandCommit (cmd_lookup command) true;
  match existing with
  | None => mret None
  | Some existing =>
      throwM_if (negb ((cr_commandType (cm_commandResult existing) === cmd_commandType command)
                       && (cr_commandFingerprint (cm_commandResult existing) === cmd_commandFingerprint command)))
        (idempotency_reused (lk_idempotencyKey (cmd_lookup command))) ;;
      mret (Some existing)
  end.

(** The lease that authorizes a command joined with its deployment, and the
    epoch that is read again. *)
Definition joined_authority (input : CommitStateAndEventsInput) (d : Database)
    : option (LeaseRow * DeploymentAuthorityState) :=
  let command := ci_command input in
  lease ← get_where (λ r, (le_id r === af_leaseId (cmd_authority command))
    && (le_ownerId r === lk_ownerId (cmd_lookup command)) && (le_agentId r === lk_agentId (cmd_lookup command)))
    (t_leases d);
  deployment ← get_where (λ r, (dep_id r === le_deploymentId lease) && (dep_ownerId r === le_ownerId lease)
    && (dep_agentId r === le_agentId lease)) (t_deployments d);
  Some (lease, deployment).

Definition not_current (input : CommitStateAndEventsInput) : failure :=
  let command := ci_command input in
  applicationFailure NOT_AUTHORITATIVE
    ("Command does not hold the current authority fence for Agent " +:+ lk_agentId (cmd_lookup command))
    [("agentId", lk_agentId (cmd_lookup command)); ("leaseId", af_leaseId (cmd_authority command));
     ("fencingToken", numToString (af_fencingToken (cmd_authority command)))].

Definition currentAuthority (input : CommitStateAndEventsInput) (now : string) : Wk LeaseRow :=
  let command := ci_command input in
  row ← gets (joined_authority input);
  match row with
  | None => throw (not_current input)
  | Some (lease, deployment) =>
      throwM_if ((dep_status deployment !== deployment_active) || negb (is_none (le_releasedAt lease))
                 || str_le (le_expiresAt lease) now
                 || (le_fencingToken lease !== af_fencingToken (cmd_authority command))
                 || (dep_fencingToken deployment !== af_fencingToken (cmd_authority command)))
        (not_current input) ;;
      throwM_if (dep_authorityEpoch deployment !== le_authorityEpoch lease)
        (applicationFailure NOT_AUTHORITATIVE "Authority epoch does not match deployment"
           [("agentId", lk_agentId (cmd_lookup command)); ("leaseId", af_leaseId (cmd_authority command))]) ;;
      mret lease
  end.

(** The loop over the events of a commit. *)
Fixpoint check_events (key : IdempotencyKey) (stored : list EventRow) (eventIds : list string)
    (events : list ReliableEvent) : result failure unit :=
  match events with
  | [] => Ok tt
  | event :: events =>
      throw_if (ev_idempotencyKey event !== key)
        (applicationFailure INVALID_OPERATION
           "Reliable events in a product-state commit must share the command idempotency key"
           [("eventId", ev_id event)]) ;;
      throw_if (includes (ev_id event) eventIds)
        (applicationFailure CONFLICT ("Reliable event " +:+ ev_id event +:+ " is duplicated") [("eventId", ev_id event)]) ;;
      throw_if (exists_where (λ r, eo_id r === ev_id event) stored)
        (applicationFailure CONFLICT ("Reliable event " +:+ ev_id event +:+ " already exists") [("eventId", ev_id event)]) ;;
      check_events key stored (ev_id event :: eventIds) events
  end.

(** [INSERT INTO product_state_records ... ON CONFLICT(key) DO UPDATE] *)
Definition upsert_state (row : StateRow) (t : list StateRow) : list StateRow :=
  if fresh_key st_key (st_key row) t then insert_row row t
  else update_where (λ r, st_key r === st_key row)
    (λ r, mkStateRow (st_key r) (st_ownerId r) (st_agentId r) (st_revision row) (st_valueJson row) (st_updatedAt row)) t.

Definition command_result_id (lookup : CommandResultLookup) : string :=
  "command-result:" +:+ sha256_hex (stringify (JStrs [lk_ownerId lookup; lk_agentId lookup; lk_idempotencyKey lookup])).

Definition state_written (input : CommitStateAndEventsInput) (revision : Z) : StateRow :=
  let lookup := cmd_lookup (ci_command input) in
  mkStateRow (cs_key (ci_state input)) (lk_ownerId lookup) (lk_agentId lookup) revision
    (stringify (JObj (cs_value (ci_state input)))) (ci_committedAt input).

Definition result_written (input : CommitStateAndEventsInput) (authority : LeaseRow) (revision : Z) : CommandResultRow :=
  let command := ci_command input in
  mkResultRow (command_result_id (cmd_lookup command))
    (mkCommandResult (cmd_lookup command) (cmd_commandType command) (cmd_commandFingerprint command)
       (ci_resultRef input) (cs_key (ci_state input)) revision (ci_committedAt input))
    (le_deploymentId authority) (le_authorityEpoch authority) (le_fencingToken authority).

Definition event_written (lookup : CommandResultLookup) (event : ReliableEvent) : EventRow :=
  mkEventRow (lk_ownerId lookup) (lk_agentId lookup) event publication_pending None None None None.

Fixpoint insert_events (lookup : CommandResultLookup) (events : list ReliableEvent) : Wk unit :=
  match events with
  | [] => mret tt
  | event :: events => write_events (insert_row (event_written lookup event)) ;; insert_events lookup events
  end.

Definition state_conflict (input : CommitStateAndEventsInput) (currentRevision : option Z) : failure :=
  applicationFailure CONFLICT ("State revision conflict for " +:+ cs_key (ci_state input))
    [("key", cs_key (ci_state input)); ("expectedRevision", nullableNumber (cs_expectedRevision (ci_state input)));
     ("currentRevision", nullableNumber currentRevision)].

Definition relational_run (key : string) (d : Database) : bool :=
  startsWith key "run:" && includes (substring 4 (String.length key - 4) key) (ru_id <$> t_runs d).

(** What a commit writes, when the command is not answered from its result. *)
Definition commit_writes (input : CommitStateAndEventsInput) (authority : LeaseRow) (nextRevision : Z) : Wk unit :=
  write_states (upsert_state (state_written input nextRevision)) ;;
  maybeCrash after_state ;;
  write_results (insert_row (result_written input authority nextRevision)) ;;
  maybeCrash after_result ;;
  insert_events (cmd_lookup (ci_command input)) (ci_events input) ;;
  maybeCrash after_event.

Definition commit_transaction (input : CommitStateAndEventsInput) (now : string) : Wk CommitStateAndEventsResult :=
  concurrentReplay ← replayExisting input;
  match concurrentReplay with
  | Some replay => mret replay
  | None =>
      authority ← currentAuthority input now;
      relational ← gets (relational_run (cs_key (ci_state input)));
      throwM_if relational
        (applicationFailure INVALID_OPERATION "A relational Run cannot also be stored as a product-state Run" []) ;;
      currentRow ← gets (state_row (cs_key (ci_state input)));
      let currentRevision := st_revision <$> currentRow in
      let lookup := cmd_lookup (ci_command input) in
      throwM_if ((currentRevision !== cs_expectedRevision (ci_state input))
                 || match currentRow with
                    | Some row => (st_ownerId row !== lk_ownerId lookup) || (st_agentId row !== lk_agentId lookup)
                    | None => false
                    end)
        (state_conflict input currentRevision) ;;
      stored ← gets t_events;
      lift (check_events (lk_idempotencyKey lookup) stored [] (ci_events input)) ;;
      commit_writes input authority (default 0 currentRevision + 1) ;;
      committed ← findCommandCommit lookup false;
      match committed with
      | Some committed => mret committed
      | None => throw (plain_error "The committed state could not be reconstructed")
      end
  end.

Definition commitStateAndEvents (input : CommitStateAndEventsInput) (now : string) : Wk CommitStateAndEventsResult :=
  replay ← replayExisting input;
  match replay with
  | Some replay => mret replay
  | None =>
      lift assertDiskHeadroom ;;
      result ← transaction (commit_transaction input now);
      maybeCrash after_commit ;;
      mret result
  end.

(** *** Pending events *)
Definition listPending (limit : Z) : Wk (list ReliableEventRecord) :=
  throwM_if ((limit <? 0) || (1000 <? limit))
    (applicationFailure INVALID_OPERATION "Pending event limit must be between 0 and 1000" []) ;;
  gets (λ d, eventFromRow <$> order_limit event_order limit (all_where (λ r, is_none (eo_publishedAt r)) (t_events d))).

Definition event_row (eventId : string) (d : Database) : option EventRow :=
  get_where (λ r, eo_id r === eventId) (t_events d).

Definition markPublished (eventId publishedAt : string) : Wk ReliableEventRecord :=
  existing ← gets (event_row eventId);
  match existing with
  | None => throw (applicationFailure NOT_FOUND ("Event " +:+ eventId +:+ " not found") [("eventId", eventId)])
  | Some existing =>
      if negb (is_none (eo_publishedAt existing)) then mret (eventFromRow existing)
      else
        write_events (update_where (λ r, eo_id r === eventId)
          (λ r, r <| eo_state := publication_published |> <| eo_publishedAt := Some publishedAt |>)) ;;
        mret (eventFromRow (existing <| eo_publishedAt := Some publishedAt |>))
  end.
End worker.
