(* ===== verification/SqliteEvents.v ===== *)
(** The outbox operations of packages/persistence-sqlite/src/sqlite-durable-operations.ts
    (append, claims with an expiry, acknowledgement, consumption once), and the
    publisher of durable-adapters.ts that runs on them. *)
From S2P Require Import Prelude Js JsDate JsJson Identifiers AuthTypes Deterministic InMemoryAuth.
From S2P Require Import Coordination Persistence Sqlite SqliteSchema SqliteWorker.
Local Open Scope Z_scope.

Record ReliableEventClaim := mkClaim { rc_claimId : string; rc_expiresAt : string; rc_event : ReliableEventRecord }.

Record ClaimEventsInput := mkClaimEvents {
  ce_ownerId : OwnerId; ce_agentId : AgentId; ce_claimId : string; ce_claimedAt : string; ce_expiresAt : string;
  ce_limit : Z }.

Record AcknowledgeEventInput := mkAcknowledge {
  ak_eventId : string; ak_claimId : string; ak_publishedAt : string; ak_acknowledgementRef : string }.

Definition assertLimit (limit : Z) : result failure unit :=
  throw_if ((limit <? 0) || (1000 <? limit))
    (applicationFailure INVALID_OPERATION "Query limit must be between 0 and 1000" [("limit", numToString limit)]).

Definition in_scope (ownerId : OwnerId) (agentId : AgentId) (r : EventRow) : bool :=
  (eo_ownerId r === ownerId) && (eo_agentId r === agentId).

(** [publication_state = 'claimed' AND claim_expires_at <= now] *)
Definition claim_expired (now : string) (r : EventRow) : bool :=
  (eo_state r === publication_claimed)
  && match eo_claimExpiresAt r with Some e => str_le e now | None => false end.

Definition unclaimed (r : EventRow) : EventRow :=
  r <| eo_state := publication_pending |> <| eo_claimId := None |> <| eo_claimExpiresAt := None |>.

Definition claimed_by (claimId expiresAt : string) (r : EventRow) : EventRow :=
  r <| eo_state := publication_claimed |> <| eo_claimId := Some claimId |> <| eo_claimExpiresAt := Some expiresAt |>.

(** [WHERE id = ? AND publication_state = 'claimed' AND claim_id = ? AND claim_expires_at > ?] *)
Definition held_by (eventId claimId now : string) (r : EventRow) : bool :=
  (eo_id r === eventId) && (eo_state r === publication_claimed) && (eo_claimId r === Some claimId)
  && match eo_claimExpiresAt r with Some e => str_lt now e | None => false end.

Definition claim_row (claimId expiresAt : string) (eventId : string) (t : list EventRow) : list EventRow :=
  update_where (λ r, (eo_id r === eventId) && (eo_state r === publication_pending)) (claimed_by claimId expiresAt) t.

Section events.
Context (configuration : SqliteWorkerConfiguration) (freeBytes : Z).
Local Abbreviation assertDiskHeadroom := (assertDiskHeadroom configuration freeBytes).

Definition assertPayloadScope (ref : string) (ownerId : OwnerId) (agentId : AgentId) : Wk unit :=
  owned ← gets (λ d, exists_where (λ p, (pl_ref p === ref) && (pl_ownerId p === ownerId) && (pl_agentId p === agentId))
                       (t_payloads d));
  throwM_if (negb owned)
    (applicationFailure INVALID_OPERATION ("Payload " +:+ ref +:+ " is outside the requested scope") [("payloadRef", ref)]).

Definition scoped_event (ownerId : OwnerId) (agentId : AgentId) (eventId : string) (d : Database) : option EventRow :=
  get_where (λ r, (eo_id r === eventId) && in_scope ownerId agentId r) (t_events d).

Definition appendEvent (ownerId : OwnerId) (agentId : AgentId) (event : ReliableEvent) : Wk ReliableEventRecord :=
  lift assertDiskHeadroom ;;
  assertPayloadScope (ev_payloadRef event) ownerId agentId ;;
  existing ← gets (scoped_event ownerId agentId (ev_id event));
  match existing with
  | Some existing =>
      let record := eo_event existing in
      if (ev_idempotencyKey record === ev_idempotencyKey event) && (ev_topic record === ev_topic event)
         && (ev_payloadRef record === ev_payloadRef event) && (ev_occurredAt record === ev_occurredAt event)
      then mret (eventFromRow existing)
      else throw (applicationFailure CONFLICT ("Reliable event " +:+ ev_id event +:+ " has different content")
                    [("eventId", ev_id event)])
  | None =>
      write_events (insert_row (mkEventRow ownerId agentId event publication_pending None None None None)) ;;
      mret (mkEventRecord event None)
  end.

Definition listPendingEvents (ownerId : OwnerId) (agentId : AgentId) (limit : Z) : Wk (list ReliableEventRecord) :=
  lift (assertLimit limit) ;;
  gets (λ d, eventFromRow <$> order_limit event_order limit
    (all_where (λ r, in_scope ownerId agentId r && is_none (eo_publishedAt r)) (t_events d))).

Definition markEventPublished (ownerId : OwnerId) (agentId : AgentId) (eventId publishedAt : string)
    : Wk ReliableEventRecord :=
  lift assertDiskHeadroom ;;
  row ← gets (scoped_event ownerId agentId eventId);
  match row with
  | None => throw (applicationFailure NOT_FOUND ("Reliable event " +:+ eventId +:+ " not found") [])
  | Some row =>
      if negb (is_none (eo_publishedAt row)) then mret (eventFromRow row)
      else
        write_events (update_where (λ r, eo_id r === eventId)
          (λ r, r <| eo_state := publication_published |> <| eo_publishedAt := Some publishedAt |>
                  <| eo_claimId := None |> <| eo_claimExpiresAt := None |>)) ;;
        mret (eventFromRow (row <| eo_publishedAt := Some publishedAt |>))
  end.

(** [for (const row of rows) claim.run(...)] *)
Fixpoint claim_rows (claimId expiresAt : string) (rows : list EventRow) : Wk unit :=
  match rows with
  | [] => mret tt
  | row :: rows => write_events (claim_row claimId expiresAt (eo_id row)) ;; claim_rows claimId expiresAt rows
  end.

Definition claimEvents (input : ClaimEventsInput) : Wk (list ReliableEventClaim) :=
  lift (assertLimit (ce_limit input)) ;;
  lift assertDiskHeadroom ;;
  transaction (
    write_events (update_where (claim_expired (ce_claimedAt input)) unclaimed) ;;
    rows ← gets (λ d, order_limit event_order (ce_limit input)
      (all_where (λ r, in_scope (ce_ownerId input) (ce_agentId input) r && (eo_state r === publication_pending)) (t_events d)));
    claim_rows (ce_claimId input) (ce_expiresAt input) rows ;;
    mret ((λ row, mkClaim (ce_claimId input) (ce_expiresAt input) (eventFromRow row)) <$> rows)).

Definition acknowledgeEvent (input : AcknowledgeEventInput) : Wk ReliableEventRecord :=
  lift assertDiskHeadroom ;;
  row ← gets (event_row (ak_eventId input));
  match row with
  | None => throw (applicationFailure NOT_FOUND ("Reliable event " +:+ ak_eventId input +:+ " not found") [])
  | Some row =>
      if negb (is_none (eo_publishedAt row)) then mret (eventFromRow row)
      else
        let mine := held_by (ak_eventId input) (ak_claimId input) (ak_publishedAt input) in
        changes ← gets (λ d, List.length (all_where mine (t_events d)));
        write_events (update_where mine
          (λ r, r <| eo_state := publication_published |> <| eo_publishedAt := Some (ak_publishedAt input) |>
                  <| eo_acknowledgementRef := Some (ak_acknowledgementRef input) |>
                  <| eo_claimId := None |> <| eo_claimExpiresAt := None |>)) ;;
        throwM_if (negb (changes =? 1)%nat)
          (applicationFailure CONFLICT ("Reliable event " +:+ ak_eventId input +:+ " is not owned by this claim")
             [("eventId", ak_eventId input); ("claimId", ak_claimId input)]) ;;
        mret (eventFromRow (row <| eo_publishedAt := Some (ak_publishedAt input) |>))
  end.

Definition consumptions_hold (d : Database) : result failure unit :=
  primary_holds "reliable_event_consumptions.consumer_id, reliable_event_consumptions.event_id"
    (keys_unique (λ r, (co_consumerId r, co_eventId r)) (t_consumptions d)) ;;
  foreign_holds (forallb (λ r, includes (co_eventId r) (eo_id <$> t_events d)) (t_consumptions d)).

(** [INSERT ... ON CONFLICT(consumer_id, event_id) DO NOTHING] *)
Definition consumeEventOnce (consumerId eventId processedAt : string) : Wk bool :=
  lift assertDiskHeadroom ;;
  changes ← gets (λ d, fresh_key (λ r, (co_consumerId r, co_eventId r)) (consumerId, eventId) (t_consumptions d));
  (if changes : bool
   then write consumptions_hold
          (λ d, d <| t_consumptions := insert_row (mkConsumption consumerId eventId processedAt) (t_consumptions d) |>)
   else mret tt) ;;
  mret changes.

(** [recoverStartupInTransaction], its statement on this table. *)
Definition recover_claims (now : string) : Wk unit :=
  write_events (update_where (claim_expired now) unclaimed).
End events.

(** ** SqliteReliableEventPublisher *)
Class ReliableEventOutbox (W : Type) := {
  outbox_claim : ClaimEventsInput → M exn W (list ReliableEventClaim);
  outbox_acknowledge : AcknowledgeEventInput → M exn W ReliableEventRecord;
}.

(** [claimId: () => string] *)
Class ClaimIdSource (W : Type) := new_claim_id : M exn W string.

Section publisher.
Context {W : Type} `{!ReliableEventOutbox W, !ReliableEventSinkPort W, !ClockPort W, !ClaimIdSource W}.
Context (ownerId : OwnerId) (agentId : AgentId) (claimDurationMs : Z).

Definition outcome_name (o : DeliveredOutcome) : string :=
  match o with event_published => "published" | event_duplicate => "duplicate" end.

(** The loop over the claims. *)
Fixpoint publish_claims (claimId : string) (claims : list ReliableEventClaim) : M exn W (list ReliableEventRecord) :=
  match claims with
  | [] => mret []
  | claim :: claims =>
      delivery ← sink_publish (rc_event claim);
      publishedAt ← clock_now;
      record ← outbox_acknowledge (mkAcknowledge (er_id (rc_event claim)) claimId publishedAt
                 (outcome_name (ed_outcome delivery) +:+ ":" +:+ ed_eventId delivery));
      rest ← publish_claims claimId claims;
      mret (record :: rest)
  end.

Definition publishBatch (limit : Z) : M exn W (list ReliableEventRecord) :=
  claimedAt ← clock_now;
  expiresAt ← lift (match dateParse claimedAt with None => Err invalidTime | Some t => isoOfTime (t + claimDurationMs) end);
  claimId ← new_claim_id;
  claims ← outbox_claim (mkClaimEvents ownerId agentId claimId claimedAt expiresAt limit);
  publish_claims claimId claims.
End publisher.
