(* ===== verification/SqliteStep.v ===== *)
(** What the operations of the worker do to the database: each one leaves it as
    it is or takes one of the steps below, whatever point it fails at. *)
From S2P Require Import Prelude Js JsDate JsJson JsParse Identifiers Entities DurableState.
From S2P Require Import AuthTypes Deterministic InMemoryAuth Coordination Persistence Sqlite SqliteSchema SqliteWorker SqliteEvents.
Local Open Scope Z_scope.

(** ** The databases after each kind of write *)
Definition activated (next : DeploymentAuthorityState) (d : Database) : Database :=
  d <| t_deployments := update_where (λ r, dep_id r === dep_id next)
    (λ r, r <| dep_revision := dep_revision next |> <| dep_status := dep_status next |>
            <| dep_authorityEpoch := dep_authorityEpoch next |> <| dep_fencingToken := dep_fencingToken next |>
            <| dep_transferId := dep_transferId next |>) (t_deployments d) |>.

Definition fenced (id : DeploymentId) (token : Z) (d : Database) : Database :=
  d <| t_deployments := update_where (λ r, dep_id r === id)
    (λ r, r <| dep_revision := dep_revision r + (if dep_fencingToken r === token then 0 else 1) |>
            <| dep_fencingToken := token |>) (t_deployments d) |>.

Definition with_lease (l : LeaseRow) (d : Database) : Database := d <| t_leases := insert_row l (t_leases d) |>.

Definition on_leases (id : AuthorityLeaseId) (f : LeaseRow → LeaseRow) (d : Database) : Database :=
  d <| t_leases := update_where (λ r, le_id r === id) f (t_leases d) |>.

Definition committed `{Sha256} (input : CommitStateAndEventsInput) (authority : LeaseRow) (revision : Z) (d : Database)
    : Database :=
  d <| t_states := upsert_state (state_written input revision) (t_states d) |>
    <| t_results := insert_row (result_written input authority revision) (t_results d) |>
    <| t_events := t_events d ++ (event_written (cmd_lookup (ci_command input)) <$> ci_events input) |>.

Definition on_events (f : list EventRow → list EventRow) (d : Database) : Database := d <| t_events := f (t_events d) |>.

(** The authority of a command: a lease that is not released and not expired, of
    the deployment that is active, whose tokens and epochs agree. *)
Definition authorizes (input : CommitStateAndEventsInput) (now : string) (l : LeaseRow) (d : Database) : Prop :=
  let command := ci_command input in
  l ∈ t_leases d ∧ le_id l = af_leaseId (cmd_authority command) ∧
  le_ownerId l = lk_ownerId (cmd_lookup command) ∧ le_agentId l = lk_agentId (cmd_lookup command) ∧
  le_fencingToken l = af_fencingToken (cmd_authority command) ∧ le_releasedAt l = None ∧
  str_lt now (le_expiresAt l) = true ∧
  ∃ deployment, deployment ∈ t_deployments d ∧ dep_id deployment = le_deploymentId l ∧
    dep_ownerId deployment = le_ownerId l ∧ dep_agentId deployment = le_agentId l ∧
    dep_status deployment = deployment_active ∧ dep_fencingToken deployment = le_fencingToken l ∧
    dep_authorityEpoch deployment = le_authorityEpoch l.

(** What a commit checked before it wrote. *)
Record commit_ready (input : CommitStateAndEventsInput) (now : string) (authority : LeaseRow) (revision : Z)
    (d : Database) : Prop := mk_commit_ready {
  cy_new : result_row (cmd_lookup (ci_command input)) d = None;
  cy_authority : authorizes input now authority d;
  cy_revision : st_revision <$> state_row (cs_key (ci_state input)) d = cs_expectedRevision (ci_state input);
  cy_next : revision = default 0 (st_revision <$> state_row (cs_key (ci_state input)) d) + 1;
  cy_owner : ∀ row, state_row (cs_key (ci_state input)) d = Some row →
    st_ownerId row = lk_ownerId (cmd_lookup (ci_command input)) ∧ st_agentId row = lk_agentId (cmd_lookup (ci_command input));
  cy_events : ∀ e, e ∈ ci_events input →
    ev_idempotencyKey e = lk_idempotencyKey (cmd_lookup (ci_command input)) ∧ (ev_id e ∉ eo_id <$> t_events d);
  cy_once : NoDup (ev_id <$> ci_events input);
}.

(** A row of the outbox as it was appended. *)
Definition appended (r : EventRow) : Prop :=
  eo_state r = publication_pending ∧ eo_claimId r = None ∧ eo_claimExpiresAt r = None ∧ eo_publishedAt r = None.

(** What may become of one row of the outbox. *)
Inductive event_move (now : string) : EventRow → EventRow → Prop :=
  | move_publish r t : eo_publishedAt r = None →
      event_move now r (r <| eo_state := publication_published |> <| eo_publishedAt := Some t |>)
  | move_publish_unclaim r t a : eo_publishedAt r = None →
      event_move now r (r <| eo_state := publication_published |> <| eo_publishedAt := Some t |>
        <| eo_acknowledgementRef := a |> <| eo_claimId := None |> <| eo_claimExpiresAt := None |>)
  | move_expire r : claim_expired now r = true → event_move now r (unclaimed r)
  | move_claim r claimId expiresAt : eo_state r = publication_pending →
      event_move now r (claimed_by claimId expiresAt r).

(** The steps.  [now] is the time the request carries. *)
Inductive db_step `{Sha256} (now : string) (d d' : Database) : Prop :=
  | step_deployment_new next : dep_status next = deployment_inactive_ready →
      d' = d <| t_deployments := insert_row next (t_deployments d) |> → deployments_hold d' = Ok tt → db_step now d d'
  | step_deployment current next : current ∈ t_deployments d → dep_id current = dep_id next →
      dep_ownerId current = dep_ownerId next → dep_agentId current = dep_agentId next →
      validDeploymentTransition current next = true → d' = activated next d → deployments_hold d' = Ok tt → db_step now d d'
  | step_claim l deployment : current_lease_row (le_agentId l) now d = None → deployment ∈ t_deployments d →
      dep_id deployment = le_deploymentId l → dep_ownerId deployment = le_ownerId l →
      dep_agentId deployment = le_agentId l → dep_status deployment = deployment_active →
      dep_authorityEpoch deployment = le_authorityEpoch l → le_fencingToken l = last_token (le_agentId l) d + 1 →
      le_releasedAt l = None → d' = with_lease l (fenced (dep_id deployment) (le_fencingToken l) d) →
      deployments_hold d' = Ok tt → leases_hold d' = Ok tt → db_step now d d'
  | step_renew l e : l ∈ t_leases d → le_releasedAt l = None → str_lt now (le_expiresAt l) = true →
      d' = on_leases (le_id l) (λ r, r <| le_expiresAt := e |>) d → db_step now d d'
  | step_release l t : l ∈ t_leases d → le_releasedAt l = None →
      d' = on_leases (le_id l) (λ r, r <| le_releasedAt := Some t |>) d → db_step now d d'
  | step_commit input authority revision : json_wf (JObj (cs_value (ci_state input))) →
      commit_ready input now authority revision d → d' = committed input authority revision d →
      results_hold d' = Ok tt → db_step now d d'
  | step_append r : appended r → (eo_id r ∉ eo_id <$> t_events d) → d' = on_events (insert_row r) d → db_step now d d'
  | step_events p f : (∀ r, r ∈ t_events d → p r = true → event_move now r (f r)) →
      d' = on_events (update_where p f) d → db_step now d d'
  | step_consume row : d' = d <| t_consumptions := insert_row row (t_consumptions d) |> → db_step now d d'.

Definition db_steps `{Sha256} : Database → Database → Prop := rtc (λ d d', ∃ now, db_step now d d').

(** ** What a computation that succeeded did *)
Lemma write_Ok holds f d u d' : write holds f d = (Ok u, d') ↔ holds (f d) = Ok tt ∧ d' = f d.
Proof. unfold write. destruct u, (holds (f d)) as [[]|x]; naive_solver. Qed.

Lemma write_cases holds f d r d' : write holds f d = (r, d') → d' = d ∨ holds (f d) = Ok tt ∧ d' = f d ∧ r = Ok tt.
Proof. unfold write. destruct (holds (f d)) as [[]|x]; naive_solver. Qed.

Lemma lift_Ok {A} (r : result failure A) (d : Database) a d' : lift r d = (Ok a, d') ↔ r = Ok a ∧ d' = d.
Proof. unfold lift. naive_solver. Qed.

Lemma throwM_Ok b (x : failure) (d : Database) (u : unit) d' : throwM_if b x d = (Ok u, d') ↔ b = false ∧ d' = d.
Proof. unfold throwM_if. by rewrite lift_Ok, throw_if_Ok. Qed.

Lemma gets_Ok {A} (f : Database → A) d a d' : (gets f : Wk A) d = (Ok a, d') ↔ a = f d ∧ d' = d.
Proof. unfold gets. naive_solver. Qed.

Lemma mret_Ok {A} (x a : A) (d d' : Database) : (mret x : Wk A) d = (Ok a, d') ↔ a = x ∧ d' = d.
Proof. unfold mret, M_ret. naive_solver. Qed.

Ltac run_Ok :=
  repeat match goal with
  | H : mbind _ _ _ = (Ok _, _) |- _ => apply M_bind_Ok in H as (? & ? & ? & H)
  | H : transaction _ _ = (Ok _, _) |- _ => apply (proj1 (transaction_Ok _ _ _ _)) in H
  | H : lift _ _ = (Ok _, _) |- _ => apply lift_Ok in H as [H ?]; subst
  | H : throwM_if _ _ _ = (Ok _, _) |- _ => apply throwM_Ok in H as [H ?]; subst
  | H : gets _ _ = (Ok _, _) |- _ => apply gets_Ok in H as [? ?]; subst
  | H : mret _ _ = (Ok _, _) |- _ => apply mret_Ok in H as [? ?]; subst
  | H : write_deployments _ _ = (Ok _, _) |- _ => apply write_Ok in H as [? ?]; subst
  | H : write_leases _ _ = (Ok _, _) |- _ => apply write_Ok in H as [? ?]; subst
  | H : write_states _ _ = (Ok _, _) |- _ => apply write_Ok in H as [? ?]; subst
  | H : write_results _ _ = (Ok _, _) |- _ => apply write_Ok in H as [? ?]; subst
  | H : write_events _ _ = (Ok _, _) |- _ => apply write_Ok in H as [? ?]; subst
  | H : write_runs _ _ = (Ok _, _) |- _ => apply write_Ok in H as [? ?]; subst
  | H : write_executionLeases _ _ = (Ok _, _) |- _ => apply write_Ok in H as [? ?]; subst
  | H : write_checkpoints _ _ = (Ok _, _) |- _ => apply write_Ok in H as [? ?]; subst
  | H : throw _ _ = (Ok _, _) |- _ => discriminate H
  end.

(** Reading leaves the database alone. *)
Definition reads {A} (m : Wk A) : Prop := ∀ d, (m d).2 = d.

Lemma reads_lift {A} (r : result failure A) : reads (lift r).
Proof. done. Qed.
Lemma reads_gets {A} (f : Database → A) : reads (gets f).
Proof. done. Qed.
Lemma reads_ret {A} (a : A) : reads (mret a).
Proof. done. Qed.
Lemma reads_bind {A B} (m : Wk A) (f : A → Wk B) : reads m → (∀ a, reads (f a)) → reads (a ← m; f a).
Proof.
  intros Hm Hf d. unfold mbind, M_bind. specialize (Hm d). destruct (m d) as [[a|x] d1]; cbn in *; [|done].
  subst. apply Hf.
Qed.

(** A chain of reads. *)
Create HintDb reads.
Ltac only_reads :=
  intros;
  repeat first
  [ apply reads_lift | apply reads_gets | apply reads_ret
  | solve [eauto with reads nocore]
  | apply reads_bind; [|intros ?]
  | match goal with
    | |- reads (throwM_if _ _) => apply reads_lift
    | |- reads (throw _) => apply reads_lift
    | |- reads (match ?x with _ => _ end) => destruct x
    | |- reads (match ?x with _ => _ end _) => destruct x
    end ].

Section reads.
Context `{Sha256} (configuration : SqliteWorkerConfiguration) (freeBytes : Z).

Lemma readState_reads key : reads (readState key).
Proof. unfold readState. only_reads. Qed.
Lemma findCommandCommit_reads lookup replayed : reads (findCommandCommit lookup replayed).
Proof. unfold findCommandCommit, readState. only_reads. Qed.
Lemma replayExisting_reads input : reads (replayExisting input).
Proof. unfold replayExisting, findCommandCommit, readState. only_reads. Qed.
Lemma currentAuthority_reads input now : reads (currentAuthority input now).
Proof. unfold currentAuthority. only_reads. Qed.
Lemma assertPayloadScope_reads ref o a : reads (assertPayloadScope ref o a).
Proof. unfold assertPayloadScope. only_reads. Qed.
End reads.

Lemma operation_reads_Ok {A} (m : Wk A) d r d' : reads m → m d = (r, d') → d' = d.
Proof. intros Hm E. by rewrite <-(Hm d), E. Qed.

(** A step of a chain that only reads, in a chain that ended anyhow. *)
Lemma bind_reads {A B} (m : Wk A) (f : A → Wk B) d r d' : reads m → (a ← m; f a) d = (r, d') →
  d' = d ∨ ∃ a, m d = (Ok a, d) ∧ f a d = (r, d').
Proof.
  intros Hm. unfold mbind, M_bind. specialize (Hm d). destruct (m d) as [[a|x] d1]; cbn in Hm; subst; intros E.
  - right. eauto.
  - left. by injection E as _ <-.
Qed.

Lemma bind_run {A B} (m : Wk A) (f : A → Wk B) d a d1 : m d = (Ok a, d1) → (x ← m; f x) d = f a d1.
Proof. intros E. unfold mbind, M_bind. by rewrite E. Qed.

Lemma ok_bind {X A B} (r : result X A) (f : A → result X B) a : r = Ok a → (x ← r; f x) = f a.
Proof. by intros ->. Qed.

(** A chain that ends well, with the reads in it left out. *)
Ltac wk_Ok :=
  repeat match goal with
  | _ => progress run_Ok
  | H : ?m ?d = (Ok _, ?d') |- _ =>
      lazymatch d' with d => fail | _ => idtac end;
      let E := fresh in assert (E : d' = d) by (refine (operation_reads_Ok m d _ d' _ H); solve [only_reads]);
      first [subst d' | subst d | rewrite E in * ]
  end.

(** ** Every operation is a sequence of steps *)
Section refines.
Context `{Sha256} (configuration : SqliteWorkerConfiguration) (freeBytes : Z).

Definition steps_at {A} (now : string) (m : Wk A) (d : Database) : Prop :=
  ∀ r d', m d = (r, d') → rtc (db_step now) d d'.

Lemma steps_reads {A} now (m : Wk A) d : reads m → steps_at now m d.
Proof. intros Hm r d' ->%operation_reads_Ok; [apply rtc_refl|done]. Qed.

Lemma steps_bind_reads {A B} now (m : Wk A) (f : A → Wk B) d : reads m →
  (∀ a, m d = (Ok a, d) → steps_at now (f a) d) → steps_at now (a ← m; f a) d.
Proof.
  intros Hm Hf r d' E. apply bind_reads in E as [->|(a & Ha & E)]; [apply rtc_refl|exact (Hf _ Ha _ _ E)|done].
Qed.

Lemma steps_bind {A B} now (m : Wk A) (f : A → Wk B) d : steps_at now m d →
  (∀ a d1, m d = (Ok a, d1) → steps_at now (f a) d1) → steps_at now (a ← m; f a) d.
Proof.
  intros Hm Hf r d' E. unfold mbind, M_bind in E. specialize (Hm _ _ (surjective_pairing _)).
  destruct (m d) as [[a|x] d1] eqn:Em; cbn in Hm; [|by injection E as _ <-].
  transitivity d1; [done|]. exact (Hf _ _ eq_refl _ _ E).
Qed.

Lemma steps_transaction {A} now (m : Wk A) d :
  (∀ a d', m d = (Ok a, d') → rtc (db_step now) d d') → steps_at now (transaction m) d.
Proof.
  intros Hm r d' E. destruct r as [a|x]; [apply (proj1 (transaction_Ok _ _ _ _)) in E; exact (Hm _ _ E)|].
  by apply (proj1 (transaction_Err _ _ _ _)) in E as [-> _].
Qed.

Lemma steps_write now holds f d : (holds (f d) = Ok tt → rtc (db_step now) d (f d)) → steps_at now (write holds f) d.
Proof. intros Hs r d' [->|(Hh & -> & _)]%write_cases; [apply rtc_refl|by apply Hs]. Qed.

(** A single write at the end of a chain. *)
Lemma steps_write_ret {A} now holds f (k : unit → Wk A) d : (holds (f d) = Ok tt → rtc (db_step now) d (f d)) →
  (∀ u, reads (k u)) → steps_at now (u ← write holds f; k u) d.
Proof.
  intros Hw Hk. apply steps_bind; [by apply steps_write|]. intros u d1 _. by apply steps_reads.
Qed.

Lemma saveDeployment_steps now deployment revision d :
  steps_at now (saveDeployment configuration freeBytes deployment revision) d.
Proof.
  unfold saveDeployment. apply steps_bind_reads; [apply reads_lift|]. intros _ _. apply steps_transaction.
  intros a d' E. unfold readDeployment in E. run_Ok. destruct (deployment_row _ _) as [current|] eqn:Ec; run_Ok.
  - apply get_elem in Ec as [Hin Hk%bool_decide_eq_true]. guards.
    match goal with H : _ ∧ _ |- _ => destruct H as ((((? & ?) & ?) & ?) & ?) end.
    apply rtc_once. by eapply (step_deployment _ _ _ current deployment).
  - guards. match goal with H : _ ∧ _ |- _ => destruct H as (((? & ?) & ?) & ?) end.
    apply rtc_once. by eapply step_deployment_new.
Qed.

Lemma claimLease_steps lease durationMs now d :
  steps_at now (claimLease configuration freeBytes lease durationMs now) d.
Proof.
  unfold claimLease. apply steps_bind_reads; [apply reads_lift|]. intros _ _.
  apply steps_bind_reads; [apply reads_lift|]. intros _ _. apply steps_transaction. intros a d' E.
  unfold currentLease in E. run_Ok. destruct (current_lease_row _ _ _) as [l|] eqn:El; cbn in E; run_Ok; [apply rtc_refl|].
  destruct (get_where _ _) as [deployment|] eqn:Edep; run_Ok. apply get_elem in Edep as [Hin Hd]. guards.
  destruct Hd as ((? & ?) & ?). apply rtc_once. 
  eapply (step_claim now d _ (mkLeaseRow (lease_id lease) (lease_ownerId lease) (lease_agentId lease)
    (dep_id deployment) (lease_holderId lease) (dep_authorityEpoch deployment) (last_token (lease_agentId lease) d + 1) now _ None)
    deployment); try done; eassumption.
Qed.

Lemma renewLease_steps leaseId durationMs now d : steps_at now (renewLease leaseId durationMs now) d.
Proof.
  unfold renewLease. apply steps_bind_reads; [apply reads_lift|]. intros _ _.
  apply steps_bind_reads; [apply reads_gets|]. intros row [-> _]%gets_Ok. destruct (lease_row leaseId d) as [l|] eqn:El; [|by apply steps_reads].
  apply get_elem in El as [Hin Hk%bool_decide_eq_true].
  apply steps_bind_reads; [apply reads_lift|]. intros _ [Hg _]%throwM_Ok. apply orb_false_iff in Hg as [H1 H2].
  apply steps_bind_reads; [apply reads_lift|]. intros e _. apply steps_write_ret; [|by intros]. intros Hh.
  apply rtc_once, (step_renew _ _ _ l e); [done| | |by rewrite Hk].
  - by match goal with |- le_releasedAt ?l = None => destruct (le_releasedAt l) end.
  - unfold str_le in H2. by apply negb_false_iff in H2.
Qed.

Lemma releaseLease_steps leaseId now d : steps_at now (releaseLease leaseId now) d.
Proof.
  unfold releaseLease. apply steps_bind_reads; [apply reads_gets|]. intros row [-> _]%gets_Ok.
  apply steps_bind_reads; [apply reads_lift|]. intros _ [Hg _]%throwM_Ok.
  destruct (lease_row leaseId d) as [l|] eqn:El; [|done]. apply get_elem in El as [Hin Hk%bool_decide_eq_true].
  apply steps_write. intros Hh. apply rtc_once, (step_release _ _ _ l now); [done| |by rewrite Hk]. by destruct (le_releasedAt l).
Qed.

(** *** A commit *)
Lemma findCommandCommit_None lookup replayed d d' :
  findCommandCommit lookup replayed d = (Ok None, d') → result_row lookup d = None.
Proof.
  unfold findCommandCommit, findCommandResult, eventsForCommand, readState. intros E. run_Ok.
  destruct (result_row lookup d) as [row|]; [|done]. cbn in E. run_Ok. destruct (state_row _ _) as [st|]; cbn in *.
  - destruct (stateFromRow st); [|done]. inv_ok. run_Ok. done.
  - by simplify_eq.
Qed.

Lemma replayExisting_None input d d' : replayExisting input d = (Ok None, d') →
  result_row (cmd_lookup (ci_command input)) d = None.
Proof.
  unfold replayExisting. intros E. run_Ok. match goal with H : findCommandCommit _ _ _ = (Ok ?o, _) |- _ => destruct o end; run_Ok; [done|].
  by eapply findCommandCommit_None.
Qed.

Lemma currentAuthority_Ok input now d l d' : currentAuthority input now d = (Ok l, d') → authorizes input now l d.
Proof.
  unfold currentAuthority, joined_authority. intros E. run_Ok. destruct (get_where _ (t_leases d)) as [l'|] eqn:El; [|discriminate E].
  cbn in E. destruct (get_where _ (t_deployments d)) as [dep|] eqn:Ed; [|discriminate E]. cbn in E. run_Ok.
  apply get_elem in El as [Hl Hg1], Ed as [Hd Hg2]. guards. destruct_and!.
  split; [done|]. repeat split; try done.
  - by match goal with |- le_releasedAt ?l = None => destruct (le_releasedAt l) end.
  - match goal with Hs : str_le _ _ = false |- _ => unfold str_le in Hs; by apply negb_false_iff in Hs end.
  - exists dep. repeat split; congruence.
Qed.

Lemma check_events_Ok key stored seen events u : check_events key stored seen events = Ok u →
  (∀ e, e ∈ events → ev_idempotencyKey e = key ∧ (ev_id e ∉ eo_id <$> stored) ∧ ev_id e ∉ seen) ∧ NoDup (ev_id <$> events).
Proof.
  revert seen. induction events as [|e events IH]; intros seen E; cbn in E; [split; [set_solver|constructor]|].
  rewrite !throw_if_bind in E. destruct (_ !== _) eqn:E1; [done|]. destruct (includes _ _) eqn:E2; [done|].
  destruct (exists_where _ _) eqn:E3; [done|]. apply IH in E as [Hall Hn].
  apply negb_false_iff, bool_decide_eq_true in E1. apply bool_decide_eq_false in E2.
  assert (ev_id e ∉ eo_id <$> stored) as E3' by (apply fresh_spec; unfold fresh_key; by rewrite E3).
  split.
  - intros x [-> |Hx]%elem_of_cons; [done|]. destruct (Hall x Hx) as (H1 & H2 & H3). split; [done|]. split; [done|set_solver].
  - cbn. constructor; [|done]. intros (x & Hk & Hx)%list_elem_of_fmap. destruct (Hall x Hx) as (_ & _ & H3). set_solver.
Qed.

Lemma insert_events_Ok lookup events d u d' : insert_events lookup events d = (Ok u, d') →
  d' = on_events (λ t, t ++ (event_written lookup <$> events)) d.
Proof.
  revert d. induction events as [|e events IH]; intros d E; cbn in E.
  - run_Ok. unfold on_events. cbn. rewrite app_nil_r. by destruct d.
  - run_Ok. apply IH in E as ->. unfold on_events, insert_row. cbn. by rewrite <-app_assoc.
Qed.

Lemma commit_writes_Ok input authority revision d u d' :
  commit_writes configuration input authority revision d = (Ok u, d') →
  d' = committed input authority revision d ∧ results_hold d' = Ok tt.
Proof.
  unfold commit_writes, maybeCrash. intros E. run_Ok.
  match goal with H : insert_events _ _ _ = _ |- _ => apply insert_events_Ok in H; subst end. by split.
Qed.

Lemma commit_transaction_Ok input now d result d' :
  commit_transaction configuration input now d = (Ok result, d') →
  d' = d ∧ replayExisting input d = (Ok (Some result), d) ∨
  ∃ authority revision, commit_ready input now authority revision d ∧ d' = committed input authority revision d ∧
    results_hold d' = Ok tt ∧ findCommandCommit (cmd_lookup (ci_command input)) false d' = (Ok (Some result), d').
Proof.
  unfold commit_transaction. intros E. run_Ok.
  match goal with H : replayExisting _ _ = (Ok ?o, _) |- _ => pose proof (operation_reads_Ok _ _ _ _ (replayExisting_reads input) H); subst; destruct o as [c|]; [|apply replayExisting_None in H] end.
  { run_Ok. by left. }
  right. run_Ok. match goal with H : currentAuthority _ _ _ = _ |- _ =>
    pose proof (operation_reads_Ok _ _ _ _ (currentAuthority_reads input now) H); subst; apply currentAuthority_Ok in H end.
  match goal with H : check_events _ _ _ _ = _ |- _ => apply check_events_Ok in H as [Hev Hn] end.
  match goal with H : commit_writes _ _ _ _ _ = _ |- _ => apply commit_writes_Ok in H as [-> Hres] end.
  match goal with H : findCommandCommit _ _ _ = _ |- _ =>
    pose proof (operation_reads_Ok _ _ _ _ (findCommandCommit_reads _ _) H); subst; rename H into Hf end.
  match goal with H : orb _ _ = false |- _ => apply orb_false_iff in H as [Hr Ho] end. guards_in Hr.
  match type of Hf with _ = (Ok ?o, _) => destruct o as [c|]; [|discriminate E] end. run_Ok.
  eexists _, _. split; [|by eauto]. split; [done|done|done|done| | |done].
  - intros row Hrow. rewrite Hrow in Ho. by guards_in Ho.
  - intros e He. destruct (Hev e He) as (? & ? & _). done.
Qed.

Lemma commit_steps input now d : json_wf (JObj (cs_value (ci_state input))) →
  steps_at now (commitStateAndEvents configuration freeBytes input now) d.
Proof.
  intros Hj. unfold commitStateAndEvents. apply steps_bind_reads; [apply replayExisting_reads|]. intros [c|] _; [apply steps_reads, reads_ret|].
  apply steps_bind_reads; [apply reads_lift|]. intros _ _. apply steps_bind; [|intros c d1 _; apply steps_reads, reads_bind; [apply reads_lift|intros; apply reads_ret]].
  apply steps_transaction. intros a d' [[-> _]|(l & revision & Hr & -> & Hres & _)]%commit_transaction_Ok; [apply rtc_refl|].
  apply rtc_once. by eapply step_commit.
Qed.


(** *** The outbox *)
Lemma update_events_ids p f t : (∀ r, eo_id (f r) = eo_id r) → eo_id <$> update_where p f t = eo_id <$> t.
Proof. apply update_key. Qed.

Lemma events_hold_keys d : events_hold d = Ok tt → NoDup (eo_id <$> t_events d).
Proof. unfold events_hold. intros E. inv_ok. by apply constraint_Ok, keys_unique_spec in H1. Qed.

Lemma event_move_id now r r' : event_move now r r' → eo_id r' = eo_id r.
Proof. by intros []. Qed.

(** A row that is found by its identifier is the only one an update of that
    identifier changes. *)
Lemma update_found eventId row p f d r : event_row eventId d = Some row →
  (∀ r, p r = true → eo_id r = eventId) → (∀ r, eo_id (f r) = eo_id r) →
  events_hold (on_events (update_where p f) d) = Ok tt → r ∈ t_events d → p r = true → r = row.
Proof.
  intros [Hrow Hk%bool_decide_eq_true]%get_elem Hp Hf Hh%events_hold_keys Hr Hpr. cbn in Hh. rewrite update_events_ids in Hh by done.
  eapply (key_inj eo_id); [done..|]. rewrite Hk. by apply Hp.
Qed.

Lemma markPublished_steps now eventId t d : steps_at now (markPublished eventId t) d.
Proof.
  unfold markPublished. apply steps_bind_reads; [apply reads_gets|]. intros row [-> _]%gets_Ok.
  destruct (event_row eventId d) as [row|] eqn:Er; [|apply steps_reads, reads_lift].
  destruct (eo_publishedAt row) eqn:Ep; [apply steps_reads, reads_ret|]. cbn.
  apply steps_write_ret; [|intros; apply reads_ret]. intros Hh. apply rtc_once. eapply step_events; [|reflexivity].
  intros r Hr Hp. assert (r = row) as -> by (refine (update_found _ _ _ _ _ _ Er _ _ Hh Hr Hp); [by intros ? Hx%bool_decide_eq_true|done]).
  by constructor.
Qed.

Lemma appendEvent_steps now o a event d : steps_at now (appendEvent configuration freeBytes o a event) d.
Proof.
  unfold appendEvent. apply steps_bind_reads; [apply reads_lift|]. intros _ _.
  apply steps_bind_reads; [apply assertPayloadScope_reads|]. intros _ _.
  apply steps_bind_reads; [apply reads_gets|]. intros row _. destruct row as [row|].
  { destruct (_ && _); apply steps_reads; [apply reads_ret|apply reads_lift]. }
  apply steps_write_ret; [|intros; apply reads_ret]. intros Hh%events_hold_keys. apply rtc_once.
  eapply step_append; [| |reflexivity]; [done|]. cbn in Hh. unfold insert_row in Hh. rewrite fmap_app in Hh.
  apply NoDup_app in Hh as (_ & Hd & _). intros Hin. apply (Hd _ Hin). cbn. set_solver.
Qed.

Lemma markEventPublished_steps now o a eventId t d : steps_at now (markEventPublished configuration freeBytes o a eventId t) d.
Proof.
  unfold markEventPublished. apply steps_bind_reads; [apply reads_lift|]. intros _ _.
  apply steps_bind_reads; [apply reads_gets|]. intros row [-> _]%gets_Ok.
  destruct (scoped_event _ _ _ _) as [row|] eqn:Er; [|apply steps_reads, reads_lift].
  destruct (eo_publishedAt row) eqn:Ep; [apply steps_reads, reads_ret|]. cbn.
  apply steps_write_ret; [|intros; apply reads_ret]. intros Hh. apply rtc_once. eapply step_events; [|reflexivity].
  intros r Hr Hp. apply get_elem in Er as [Hrow [Hk%bool_decide_eq_true _]%andb_true_iff].
  apply events_hold_keys in Hh. cbn in Hh. rewrite update_events_ids in Hh by done.
  apply bool_decide_eq_true in Hp. assert (r = row) as -> by (eapply (key_inj eo_id); [done..|congruence]).
  by apply (move_publish_unclaim now row t (eo_acknowledgementRef row)).
Qed.

Lemma claim_rows_steps now claimId expiresAt rows d u d' :
  claim_rows claimId expiresAt rows d = (Ok u, d') → rtc (db_step now) d d'.
Proof.
  revert d. induction rows as [|row rows IH]; intros d E; cbn in E; run_Ok; [done|].
  apply IH in E. eapply rtc_l; [|exact E]. unfold claim_row. eapply step_events; [|reflexivity].
  intros r _ [_ Hs%bool_decide_eq_true]%andb_true_iff. by constructor.
Qed.

Lemma claimEvents_steps input d : steps_at (ce_claimedAt input) (claimEvents configuration freeBytes input) d.
Proof.
  unfold claimEvents. apply steps_bind_reads; [apply reads_lift|]. intros _ _.
  apply steps_bind_reads; [apply reads_lift|]. intros _ _. apply steps_transaction. intros a d' E. run_Ok.
  match goal with H : claim_rows _ _ _ _ = _ |- _ => apply (claim_rows_steps (ce_claimedAt input)) in H end.
  eapply rtc_l; [|eassumption]. eapply step_events; [|reflexivity]. intros r _ Hp. by constructor.
Qed.

Lemma acknowledgeEvent_steps now input d : steps_at now (acknowledgeEvent configuration freeBytes input) d.
Proof.
  unfold acknowledgeEvent. apply steps_bind_reads; [apply reads_lift|]. intros _ _.
  apply steps_bind_reads; [apply reads_gets|]. intros row [-> _]%gets_Ok.
  destruct (event_row _ d) as [row|] eqn:Er; [|apply steps_reads, reads_lift].
  destruct (eo_publishedAt row) eqn:Ep; [apply steps_reads, reads_ret|]. cbn.
  apply steps_bind_reads; [apply reads_gets|]. intros changes _. apply steps_write_ret.
  - intros Hh. apply rtc_once. eapply step_events; [|reflexivity]. intros r Hr Hp.
    assert (Hids : ∀ r, held_by (ak_eventId input) (ak_claimId input) (ak_publishedAt input) r = true → eo_id r = ak_eventId input).
    { intros r0 Hh0. unfold held_by in Hh0. guards. by destruct_and!. }
    assert (r = row) as -> by (refine (update_found _ _ _ _ _ _ Er Hids _ Hh Hr Hp); done). by apply move_publish_unclaim.
  - intros u. apply reads_bind; [apply reads_lift|intros; apply reads_ret].
Qed.

Lemma consumeEventOnce_steps now consumerId eventId t d :
  steps_at now (consumeEventOnce configuration freeBytes consumerId eventId t) d.
Proof.
  unfold consumeEventOnce. apply steps_bind_reads; [apply reads_lift|]. intros _ _.
  apply steps_bind_reads; [apply reads_gets|]. intros changes _. apply steps_bind; [|intros; apply steps_reads, reads_ret].
  destruct changes; [|apply steps_reads, reads_ret]. apply steps_write. intros _. apply rtc_once. by eapply step_consume.
Qed.

Lemma recover_claims_steps now d : steps_at now (recover_claims now) d.
Proof.
  unfold recover_claims. apply steps_write. intros _. apply rtc_once. eapply step_events; [|reflexivity].
  intros r _ Hp. by constructor.
Qed.
End refines.
