(* ===== verification/SqliteAuthority.v ===== *)
(** Who may write: the invariant of the deployments and the leases in the
    database, and that only the last lease of an Agent authorizes its commands. *)
From S2P Require Import Prelude Js JsDate JsJson Identifiers Entities DurableState AuthTypes.
From S2P Require Import Deterministic InMemoryAuth Coordination Persistence Sqlite SqliteSchema SqliteWorker.
From S2P Require Import SqliteEvents SqliteStep.
Local Open Scope Z_scope.

Definition retired (deployment : DeploymentAuthorityState) : Prop :=
  dep_status deployment = deployment_retired_pending_transfer ∨ dep_status deployment = deployment_retired.

(** The deployment a lease was claimed for. *)
Definition claimed_for (l : LeaseRow) (deployment : DeploymentAuthorityState) : Prop :=
  dep_id deployment = le_deploymentId l ∧ dep_ownerId deployment = le_ownerId l ∧ dep_agentId deployment = le_agentId l ∧
  dep_status deployment ≠ deployment_inactive_ready ∧ le_fencingToken l ≤ dep_fencingToken deployment ∧
  dep_authorityEpoch deployment = le_authorityEpoch l.

Record authority_wf (deployments : list DeploymentAuthorityState) (leases : list LeaseRow) : Prop := mk_authority_wf {
  aw_keys : NoDup (dep_id <$> deployments);
  aw_active : ∀ x y, x ∈ deployments → y ∈ deployments → dep_status x = deployment_active →
    dep_status y = deployment_active → dep_agentId x = dep_agentId y → x = y;
  aw_leases : NoDup (le_id <$> leases);
  aw_claimed : ∀ l, l ∈ leases → ∃ deployment, deployment ∈ deployments ∧ claimed_for l deployment;
  aw_tokens : ∀ l c, l ∈ leases → c ∈ leases → le_agentId l = le_agentId c → le_fencingToken l = le_fencingToken c → l = c;
  aw_order : ∀ l c, l ∈ leases → c ∈ leases → le_agentId l = le_agentId c → le_fencingToken l < le_fencingToken c →
    le_deploymentId l = le_deploymentId c ∨
    ∃ deployment, deployment ∈ deployments ∧ dep_id deployment = le_deploymentId l ∧ retired deployment;
}.

Definition db_authority_wf (d : Database) : Prop := authority_wf (t_deployments d) (t_leases d).

(** *** What the constraints of the schema give *)
Lemma deployments_hold_keys d : deployments_hold d = Ok tt →
  NoDup (dep_id <$> t_deployments d) ∧
  NoDup (dep_agentId <$> all_where (λ r, dep_status r === deployment_active) (t_deployments d)).
Proof.
  unfold deployments_hold. intros E. inv_ok. split.
  - by match goal with H : primary_holds _ _ = Ok _ |- _ => apply constraint_Ok, keys_unique_spec in H end.
  - by match goal with H : unique_holds "deployments.agent_id" _ = Ok _ |- _ => apply constraint_Ok, keys_unique_spec in H end.
Qed.

Lemma hold_active d : deployments_hold d = Ok tt → ∀ x y, x ∈ t_deployments d → y ∈ t_deployments d →
  dep_status x = deployment_active → dep_status y = deployment_active → dep_agentId x = dep_agentId y → x = y.
Proof.
  intros [_ Hn]%deployments_hold_keys x y Hx Hy Sx Sy Ha. eapply (key_inj dep_agentId); [exact Hn|..|done];
    apply elem_where; (split; [done|by apply bool_decide_eq_true]).
Qed.

Lemma leases_hold_keys d : leases_hold d = Ok tt → NoDup (le_id <$> t_leases d).
Proof.
  unfold leases_hold. intros E. inv_ok.
  by match goal with H : primary_holds _ _ = Ok _ |- _ => apply constraint_Ok, keys_unique_spec in H end.
Qed.

Lemma last_token_max agentId d l : l ∈ t_leases d → le_agentId l = agentId → le_fencingToken l ≤ last_token agentId d.
Proof.
  intros Hl Ha. unfold last_token. assert (l ∈ all_where (λ r, le_agentId r === agentId) (t_leases d)) as Hin
    by (apply elem_where; split; [done|by apply bool_decide_eq_true]).
  clear Hl. induction Hin as [l t|l x t _ IH]; cbn in *; [lia|]. specialize (IH Ha). lia.
Qed.

(** *** Changes of the two tables that keep it *)
Section keeps.
Implicit Types (deps : list DeploymentAuthorityState) (ls : list LeaseRow).

(** Leases change in the time they last only. *)
Definition same_claim (l l' : LeaseRow) : Prop :=
  le_id l' = le_id l ∧ le_ownerId l' = le_ownerId l ∧ le_agentId l' = le_agentId l ∧
  le_deploymentId l' = le_deploymentId l ∧ le_fencingToken l' = le_fencingToken l ∧ le_authorityEpoch l' = le_authorityEpoch l.

Lemma wf_leases_updated deps ls p f : (∀ l, same_claim l (f l)) → authority_wf deps ls → authority_wf deps (update_where p f ls).
Proof.
  intros Hf [H1 H2 H3 H4 H5 H6].
  assert (Hback : ∀ l', l' ∈ update_where p f ls → ∃ l, l ∈ ls ∧ same_claim l l' ∧ (l' = if p l then f l else l)).
  { intros l' [(l & Hl & Hp & ->)|[Hl Hp]]%elem_update; [exists l|exists l']; rewrite Hp; split; [done|by split|done|by repeat split]. }
  split; [done|done| |..].
  - rewrite update_key; [done|]. intros l. apply Hf.
  - intros l' (l & Hl & (E1 & E2 & E3 & E4 & E5 & E6) & _)%Hback. destruct (H4 _ Hl) as (dep & Hd & C). exists dep. split; [done|].
    unfold claimed_for in *. by rewrite E2, E3, E4, E5, E6.
  - intros l' c' (l & Hl & (_ & _ & E3 & _ & E5 & _) & ->)%Hback (c & Hc & (_ & _ & F3 & _ & F5 & _) & ->)%Hback Ha Ht.
    rewrite E3, F3 in Ha. rewrite E5, F5 in Ht. assert (l = c) as -> by eauto. done.
  - intros l' c' (l & Hl & (_ & _ & E3 & E4 & E5 & _) & _)%Hback (c & Hc & (_ & _ & F3 & F4 & F5 & _) & _)%Hback Ha Ht.
    rewrite E3, F3 in Ha. rewrite E5, F5 in Ht. rewrite E4, F4. eauto.
Qed.

(** How one deployment becomes another. *)
Definition deployment_moves (x x' : DeploymentAuthorityState) : Prop :=
  dep_id x' = dep_id x ∧ dep_ownerId x' = dep_ownerId x ∧ dep_agentId x' = dep_agentId x ∧
  (dep_status x ≠ deployment_inactive_ready →
     dep_status x' ≠ deployment_inactive_ready ∧ dep_authorityEpoch x' = dep_authorityEpoch x) ∧
  (retired x → retired x').

Lemma wf_deployments_updated deps deps' ls :
  (∀ x, x ∈ deps → ∃ x', x' ∈ deps' ∧ deployment_moves x x' ∧
     ∀ l, l ∈ ls → le_deploymentId l = dep_id x → le_fencingToken l ≤ dep_fencingToken x → le_fencingToken l ≤ dep_fencingToken x') →
  NoDup (dep_id <$> deps') →
  (∀ x y, x ∈ deps' → y ∈ deps' → dep_status x = deployment_active → dep_status y = deployment_active →
     dep_agentId x = dep_agentId y → x = y) →
  authority_wf deps ls → authority_wf deps' ls.
Proof.
  intros Hm Hk Ha [H1 H2 H3 H4 H5 H6]. split; [done|done|done| |done|].
  - intros l Hl. destruct (H4 _ Hl) as (x & Hx & (E1 & E2 & E3 & E4 & E5 & E6)).
    destruct (Hm _ Hx) as (x' & Hx' & (F1 & F2 & F3 & F4 & _) & Ht). destruct (F4 E4) as [F5 F6].
    exists x'. split; [done|]. unfold claimed_for. rewrite F1, F2, F3, F6. repeat split; auto.
  - intros l c Hl Hc Hag Htok. destruct (H6 l c Hl Hc Hag Htok) as [E|(x & Hx & E & Hr)]; [by left|]. right.
    destruct (Hm _ Hx) as (x' & Hx' & (F1 & _ & _ & _ & F5) & _). exists x'. split; [done|]. split; [congruence|auto].
Qed.

(** A lease with a greater token than the Agent's others, for the deployment that is active. *)
Lemma wf_lease_added deps ls l deployment : deployment ∈ deps → claimed_for l deployment → dep_status deployment = deployment_active →
  (∀ c, c ∈ ls → le_agentId c = le_agentId l → le_fencingToken c < le_fencingToken l) →
  NoDup (le_id <$> insert_row l ls) → authority_wf deps ls → authority_wf deps (insert_row l ls).
Proof.
  intros Hd Hcl Hact Hlast Hk [H1 H2 H3 H4 H5 H6]. split; [done|done|done|..].
  - intros x [Hx| ->]%elem_insert; [by apply H4|]. by exists deployment.
  - intros x y [Hx| ->]%elem_insert [Hy| ->]%elem_insert Ha Ht; [by apply H5| | |done].
    + specialize (Hlast x Hx Ha). lia.
    + specialize (Hlast y Hy (eq_sym Ha)). lia.
  - intros x y [Hx| ->]%elem_insert [Hy| ->]%elem_insert Ha Ht; [by apply H6| | |lia].
    + destruct (H4 _ Hx) as (dx & Hdx & (E1 & _ & E3 & E4 & _)). destruct Hcl as (F1 & _ & F3 & _).
      destruct (dep_status dx) eqn:Es; [done| |right; exists dx; split; [done|]; split; [done|by left]|right; exists dx; split; [done|]; split; [done|by right]].
      left. assert (dx = deployment) as -> by (apply H2; [done|done|done|done|congruence]). congruence.
    + specialize (Hlast y Hy (eq_sym Ha)). lia.
Qed.
End keeps.

(** *** Every step keeps it *)
Lemma move_refl x : deployment_moves x x.
Proof. repeat split; done. Qed.

Lemma transition_moves current next : dep_ownerId current = dep_ownerId next → dep_agentId current = dep_agentId next →
  dep_id current = dep_id next → validDeploymentTransition current next = true →
  deployment_moves current next ∧ (dep_status current ≠ deployment_inactive_ready → dep_fencingToken next = dep_fencingToken current).
Proof.
  unfold validDeploymentTransition, deployment_moves, retired. intros E1 E2 E3 Hv.
  destruct (dep_status current) eqn:S1, (dep_status next) eqn:S2; try done; guards; destruct_and!; naive_solver.
Qed.

Section step.
Context `{Sha256}.

Lemma step_authority_wf now d d' : db_step now d d' → db_authority_wf d → db_authority_wf d'.
Proof.
  unfold db_authority_wf. intros Hs Hwf. destruct Hs as [next Hst -> Hh|current next Hin Hid Ho Ha Hv -> Hh
    |l dep Hcur Hin Hid Ho Ha Hst Hep Htok Hrel -> Hh Hl|l e Hin Hr Hlt ->|l t Hin Hr ->|input l rev Hj Hr -> Hh|r Hap Hnew ->|p f Hp ->|row ->];
    try exact Hwf.
  - eapply wf_deployments_updated; [|apply (deployments_hold_keys _ Hh)|by apply (hold_active _ Hh)|exact Hwf].
    intros x Hx. exists x. split; [apply elem_insert; by left|]. split; [apply move_refl|done].
  - eapply wf_deployments_updated; [|apply (deployments_hold_keys _ Hh)|by apply (hold_active _ Hh)|exact Hwf].
    intros x Hx. cbn. destruct (decide (dep_id x = dep_id next)) as [E|E].
    + assert (x = current) as -> by (eapply (key_inj dep_id); [apply Hwf|done|done|congruence]).
      destruct (transition_moves current next Ho Ha Hid Hv) as [(M1 & M2 & M3 & M4 & M5) Mt].
      eexists. split; [apply elem_update; left; exists current; split; [done|]; split; [by apply bool_decide_eq_true|reflexivity]|].
      split; [split; [done|split; [done|split; [done|split; [exact M4|exact M5]]]]|]. intros l Hl Hd Hle. cbn.
      destruct (aw_claimed _ _ Hwf _ Hl) as (x & Hx' & (F1 & _ & _ & F4 & F5 & _)).
      assert (x = current) as -> by (eapply (key_inj dep_id); [apply Hwf|done|done|congruence]). by rewrite Mt.
    + exists x. split; [apply elem_update; right; split; [done|by apply bool_decide_eq_false]|]. split; [apply move_refl|done].
  - set (token := le_fencingToken l) in *.
    assert (Hin' : ∃ x, x ∈ t_deployments (fenced (dep_id dep) token d) ∧ claimed_for l x ∧ dep_status x = deployment_active).
    { eexists. split; [apply elem_update; left; exists dep; split; [done|]; split; [by apply bool_decide_eq_true|reflexivity]|].
      cbn. split; [|done]. repeat split; cbn; try done; congruence. }
    destruct Hin' as (x & Hx & Hcl & Hac).
    eapply (wf_lease_added _ _ _ x); [exact Hx|done|done| |by apply (leases_hold_keys _ Hl)|].
    { intros c Hc Hac'. pose proof (last_token_max (le_agentId l) d c Hc Hac'). lia. }
    eapply wf_deployments_updated; [|apply (deployments_hold_keys _ Hh)|by apply (hold_active _ Hh)|exact Hwf].
    intros y Hy. cbn. destruct (decide (dep_id y = dep_id dep)) as [E|E].
    + assert (y = dep) as -> by (eapply (key_inj dep_id); [apply Hwf|done..]).
      eexists. split; [apply elem_update; left; exists dep; split; [done|]; split; [by apply bool_decide_eq_true|reflexivity]|].
      split; [by repeat split|]. intros c Hc Hd Hle. cbn.
      destruct (aw_claimed _ _ Hwf _ Hc) as (z & Hz & (F1 & _ & F3 & _)).
      assert (z = dep) as -> by (eapply (key_inj dep_id); [apply Hwf|done|done|congruence]).
      pose proof (last_token_max (le_agentId l) d c Hc ltac:(congruence)). subst token. lia.
    + exists y. split; [apply elem_update; right; split; [done|by apply bool_decide_eq_false]|]. split; [apply move_refl|done].
  - cbn. apply wf_leases_updated; [|exact Hwf]. by repeat split.
  - cbn. apply wf_leases_updated; [|exact Hwf]. by repeat split.
Qed.

Lemma steps_authority_wf d d' : db_steps d d' → db_authority_wf d → db_authority_wf d'.
Proof. induction 1 as [|d d1 d2 (now & Hs) _ IH]; [done|]. intros Hwf. by eapply IH, step_authority_wf. Qed.

(** Rows of leases stay. *)
Lemma step_lease_stays now d d' l : db_step now d d' → l ∈ t_leases d → ∃ l', l' ∈ t_leases d' ∧ same_claim l l'.
Proof.
  intros Hs Hl. assert (Hself : l ∈ t_leases d → ∃ l', l' ∈ t_leases d ∧ same_claim l l') by (exists l; by repeat split).
  destruct Hs as [? ? ->| |? ? ? ? ? ? ? ? ? ? ? -> ? ?|l0 e ? ? ? ->|l0 t ? ? ->|? ? ? ? ? -> ?|? ? ? ->|? ? ? ->|? ->]; subst; cbn; auto.
  - exists l. split; [apply elem_insert; by left|by repeat split].
  - destruct (decide (le_id l = le_id l0)) as [E|E].
    + eexists. split; [apply elem_update; left; exists l; split; [done|]; split; [by apply bool_decide_eq_true|reflexivity]|by repeat split].
    + exists l. split; [apply elem_update; right; split; [done|by apply bool_decide_eq_false]|by repeat split].
  - destruct (decide (le_id l = le_id l0)) as [E|E].
    + eexists. split; [apply elem_update; left; exists l; split; [done|]; split; [by apply bool_decide_eq_true|reflexivity]|by repeat split].
    + exists l. split; [apply elem_update; right; split; [done|by apply bool_decide_eq_false]|by repeat split].
Qed.

Lemma steps_lease_stays d d' l : db_steps d d' → l ∈ t_leases d → ∃ l', l' ∈ t_leases d' ∧ same_claim l l'.
Proof.
  intros Hs. revert l. induction Hs as [d|d d1 d2 (now & Hs) _ IH]; intros l Hl; [exists l; by repeat split|].
  destruct (step_lease_stays _ _ _ _ Hs Hl) as (l1 & Hl1 & (E1 & E2 & E3 & E4 & E5 & E6)).
  destruct (IH _ Hl1) as (l2 & Hl2 & (F1 & F2 & F3 & F4 & F5 & F6)). exists l2. split; [done|]. repeat split; congruence.
Qed.

(** ** Only the last lease of an Agent authorizes its commands *)
Lemma authority_is_last input now l d c : db_authority_wf d → authorizes input now l d → c ∈ t_leases d →
  le_agentId c = le_agentId l → le_fencingToken c ≤ le_fencingToken l.
Proof.
  intros Hwf (Hl & _ & _ & _ & _ & _ & _ & dep & Hd & E1 & _ & E3 & Hact & Htok & _) Hc Ha.
  destruct (decide (le_fencingToken c ≤ le_fencingToken l)) as [|Hgt]; [done|exfalso].
  destruct (aw_order _ _ Hwf l c Hl Hc (eq_sym Ha) ltac:(lia)) as [Hdep|(x & Hx & Ex & Hr)].
  - destruct (aw_claimed _ _ Hwf _ Hc) as (y & Hy & (F1 & _ & _ & _ & F5 & _)).
    assert (y = dep) as -> by (eapply (key_inj dep_id); [apply Hwf|done|done|congruence]). lia.
  - assert (x = dep) as -> by (eapply (key_inj dep_id); [apply Hwf|done|done|congruence]). destruct Hr; congruence.
Qed.
End step.

(** ** What a claim of an Agent's authority gives, and that at most one lease of an
    Agent is live at a time, as long as the clock does not go back. *)

Lemma current_lease_None agentId now d : current_lease_row agentId now d = None ↔
  ∀ l, l ∈ t_leases d → live_lease agentId now l = false.
Proof.
  unfold current_lease_row, order_limit. set (live := all_where _ _).
  assert (Hp : live = [] ↔ ∀ l, l ∈ t_leases d → live_lease agentId now l = false).
  { subst live. split.
    - intros E l Hl. apply not_true_iff_false. intros Hlive.
      assert (l ∈ all_where (live_lease agentId now) (t_leases d)) as Hin by by apply elem_where. rewrite E in Hin. by apply elem_of_nil in Hin.
    - intros Hall. destruct (all_where _ _) as [|l t] eqn:E; [done|].
      assert (l ∈ all_where (live_lease agentId now) (t_leases d)) as [Hl Hlive]%elem_where by (rewrite E; by left).
      by rewrite Hall in Hlive. }
  rewrite <-Hp. pose proof (sort_by_perm later_token live) as Hs. split.
  - destruct (sort_by later_token live) as [|l t]; [by apply Permutation_nil_l in Hs|done].
  - intros E. rewrite E in *. by apply Permutation_nil_r in Hs as ->.
Qed.

Lemma current_lease_Some agentId now d l : current_lease_row agentId now d = Some l →
  l ∈ t_leases d ∧ live_lease agentId now l = true.
Proof.
  unfold current_lease_row. intros E. apply elem_where, (order_limit_elem later_token 1).
  destruct (order_limit later_token 1 _) as [|x t]; [done|]. injection E as ->. by left.
Qed.

Lemma live_spec agentId now l : live_lease agentId now l = true ↔
  le_agentId l = agentId ∧ le_releasedAt l = None ∧ str_lt now (le_expiresAt l) = true.
Proof. unfold live_lease. guards. destruct (le_releasedAt l); cbn; naive_solver. Qed.

(** At most one lease of an Agent is live at [now]. *)
Definition live_unique (now : string) (d : Database) : Prop := ∀ l c, l ∈ t_leases d → c ∈ t_leases d →
  live_lease (le_agentId l) now l = true → live_lease (le_agentId l) now c = true → l = c.

Section leases.
Context `{Sha256}.

(** Steps whose times do not go back. *)
Inductive timed_steps : string → Database → string → Database → Prop :=
  | timed_refl now d : timed_steps now d now d
  | timed_wait now now' d : str_le now now' = true → timed_steps now d now' d
  | timed_step now now' d d1 : str_le now now' = true → db_step now' d d1 → timed_steps now d now' d1
  | timed_trans t1 d1 t2 d2 t3 d3 : timed_steps t1 d1 t2 d2 → timed_steps t2 d2 t3 d3 → timed_steps t1 d1 t3 d3.

Lemma live_earlier agentId now now' l : str_le now now' = true → live_lease agentId now' l = true → live_lease agentId now l = true.
Proof. rewrite !live_spec. intros Hle (? & ? & ?). repeat split; try done. by eapply str_le_lt_trans. Qed.

Lemma live_unique_later now now' d : str_le now now' = true → live_unique now d → live_unique now' d.
Proof. intros Hle Hu l c Hl Hc L1 L2. apply Hu; [done|done|by eapply live_earlier|by eapply live_earlier]. Qed.

(** A lease that is changed was live, or is not any more. *)
Lemma live_unique_updated now d id f : (∀ l, same_claim l (f l)) → db_authority_wf d →
  (∀ l, l ∈ t_leases d → le_id l = id → live_lease (le_agentId l) now (f l) = true → live_lease (le_agentId l) now l = true) →
  live_unique now d → live_unique now (on_leases id f d).
Proof.
  intros Hf Hwf Hlive Hu.
  assert (Hback : ∀ x, x ∈ t_leases (on_leases id f d) → ∃ y, y ∈ t_leases d ∧ same_claim y x ∧
    x = (if le_id y === id then f y else y) ∧ (live_lease (le_agentId y) now x = true → live_lease (le_agentId y) now y = true)).
  { intros x [(y & Hy & Hp & ->)|[Hx Hp]]%elem_update; [exists y|exists x]; rewrite Hp; (split; [done|]).
    - split; [done|]. split; [done|]. apply Hlive; [done|by apply bool_decide_eq_true in Hp].
    - split; [by repeat split|]. by split. }
  intros l c (y & Hy & (_ & _ & Ey & _) & -> & Ly)%Hback (z & Hz & (_ & _ & Ez & _) & -> & Lz)%Hback L1 L2.
  rewrite Ey in L1, L2. assert (le_agentId z = le_agentId y) as Ha.
  { apply live_spec in L2 as [L2 _]. congruence. }
  rewrite Ha in Lz. assert (y = z) as -> by (apply Hu; auto). done.
Qed.

Lemma step_live_unique now d d' : db_authority_wf d → db_step now d d' → live_unique now d → live_unique now d'.
Proof.
  intros Hwf Hs Hu. destruct Hs as [next Hst -> Hh|current next Hin Hid Ho Ha Hv -> Hh
    |l dep Hcur Hin Hid Ho Ha Hst Hep Htok Hrel -> Hh Hl|l e Hin Hr Hlt ->|l t Hin Hr ->|input l rev Hj Hr -> Hh|r Hap Hnew ->|p f Hp ->|row ->];
    try exact Hu.
  - rewrite current_lease_None in Hcur. intros x y [Hx| ->]%elem_insert [Hy| ->]%elem_insert L1 L2; [by apply Hu| | |done].
    + pose proof (proj1 (live_spec _ _ _) L2) as [E _]. cbn in Hx. rewrite <-E in L1. by rewrite (Hcur _ Hx) in L1.
    + cbn in Hy. by rewrite (Hcur _ Hy) in L2.
  - apply live_unique_updated; [by repeat split|done| |done]. intros x Hx Ex _.
    assert (x = l) as -> by (eapply (key_inj le_id); [apply Hwf|done..]). by apply live_spec.
  - apply live_unique_updated; [by repeat split|done| |done]. intros x Hx Ex [_ [Hn _]]%live_spec. done.
Qed.

Lemma timed_steps_db now d now' d' : timed_steps now d now' d' → db_steps d d'.
Proof.
  induction 1 as [| |now now' d d1 _ Hs|t1 d1 t2 d2 t3 d3 _ IH1 _ IH2]; [apply rtc_refl..|apply rtc_once; by exists now'|].
  etrans; [exact IH1|exact IH2].
Qed.

Lemma timed_live_unique now d now' d' : timed_steps now d now' d' → db_authority_wf d → live_unique now d → live_unique now' d'.
Proof.
  induction 1 as [|now now' d Hle|now now' d d1 Hle Hs|t1 d1 t2 d2 t3 d3 H1 IH1 H2 IH2]; intros Hwf Hu; [done|by eapply live_unique_later| |].
  - eapply step_live_unique; [done..|]. by eapply live_unique_later.
  - apply IH2; [|by apply IH1]. eapply steps_authority_wf; [|exact Hwf]. by eapply timed_steps_db.
Qed.

Lemma same_time_live_unique now d d' : rtc (db_step now) d d' → db_authority_wf d → live_unique now d → live_unique now d'.
Proof.
  induction 1 as [|d d1 d2 Hs _ IH]; intros Hwf Hu; [done|]. apply IH; [by eapply step_authority_wf|by eapply step_live_unique].
Qed.

End leases.

(** C21 The authority of an Agent is claimed exclusively.  A claim that succeeds
    returns the live lease, unchanged, to the holder it belongs to; or no lease
    of the Agent was live, the Agent has an active deployment, and a row is added
    whose token is greater than every token the Agent ever had and which
    authorizes commands until it expires.  And as long as the times of the
    requests do not go back, an Agent never has two live leases. *)
Theorem sqlite_claims_exclusive `{Sha256} configuration freeBytes lease durationMs now d r d' :
  db_authority_wf d → claimLease configuration freeBytes lease durationMs now d = (Ok r, d') →
  (d' = d ∧ (∃ l, l ∈ t_leases d ∧ live_lease (lease_agentId lease) now l = true ∧ r = leaseFromRow l ∧
     le_id l = lease_id lease ∧ le_holderId l = lease_holderId lease ∧ le_ownerId l = lease_ownerId lease) ∨
   (∀ l, l ∈ t_leases d → live_lease (lease_agentId lease) now l = false) ∧
   (∀ l, l ∈ t_leases d → le_agentId l = lease_agentId lease → le_fencingToken l < lr_fencingToken r) ∧
   lr_lease r = lease ∧
   ∃ l, l ∈ t_leases d' ∧ leaseFromRow l = r ∧
     ∀ input now', lk_ownerId (cmd_lookup (ci_command input)) = lease_ownerId lease →
       lk_agentId (cmd_lookup (ci_command input)) = lease_agentId lease →
       cmd_authority (ci_command input) = mkFence (lease_id lease) (lr_fencingToken r) →
       str_lt now' (lr_expiresAt r) = true → authorizes input now' l d') ∧
  ∀ now0 d0, db_authority_wf d0 → live_unique now0 d0 → timed_steps now0 d0 now d → live_unique now d'.
Proof.
  intros Hwf E. split.
  2: { intros now0 d0 Hwf0 Hu Ht. eapply same_time_live_unique; [by eapply claimLease_steps|done|].
    by eapply timed_live_unique. }
  unfold claimLease, currentLease in E. run_Ok. destruct (current_lease_row _ _ _) as [l|] eqn:El; cbn in E.
  - left. run_Ok. split; [done|]. apply current_lease_Some in El as [Hl Hlive]. exists l. split; [done|]. split; [done|].
    split; [done|]. by guards; destruct_and!.
  - right. run_Ok. destruct (get_where _ _) as [dep|] eqn:Edep; run_Ok. apply get_elem in Edep as [Hin Hg]. guards. destruct_and!.
    split; [by apply current_lease_None|]. split.
    { intros l Hl Ha. pose proof (last_token_max _ _ _ Hl Ha). cbn. lia. }
    split; [by destruct lease|]. eexists. split; [cbn; apply elem_insert; by right|]. split; [by destruct lease|].
    intros input now' Eo Ea Ef Hlt. unfold authorizes. rewrite Ef, Eo, Ea.
    split; [cbn; apply elem_insert; by right|]. do 6 (split; [done|]).
    eexists. split; [apply elem_update; left; exists dep; split; [done|]; split; [by apply bool_decide_eq_true|reflexivity]|].
    by repeat split.
Qed.
