(* ===== verification/SqliteCommit.v ===== *)
(** Product state, commands and events in the database: the invariant of their
    tables, what a commit does on every branch, that a command is executed once,
    that only the last lease writes, and that a crash is all or nothing. *)
From S2P Require Import Prelude Js JsDate JsJson JsParse Identifiers Entities DurableState.
From S2P Require Import AuthTypes Deterministic InMemoryAuth Coordination Persistence Sqlite SqliteSchema SqliteWorker SqliteEvents SqliteStep SqliteAuthority.
Local Open Scope Z_scope.

(** The text of a state record is that of an object. *)
Definition holds_value (row : StateRow) (value : JsonObject) : Prop :=
  st_valueJson row = stringify (JObj value) ∧ json_wf (JObj value).

(** The record a command wrote is there, at its revision or a later one. *)
Definition state_behind (states : list StateRow) (r : CommandResultRow) : Prop :=
  ∃ row, row ∈ states ∧ st_key row = cr_stateKey (re_record r) ∧ st_ownerId row = lk_ownerId (result_lookup r) ∧
    st_agentId row = lk_agentId (result_lookup r) ∧ cr_stateRevision (re_record r) ≤ st_revision row.

Definition event_wf (r : EventRow) : Prop :=
  (eo_state r = publication_published ↔ is_Some (eo_publishedAt r)) ∧
  (eo_state r = publication_claimed → is_Some (eo_claimId r) ∧ is_Some (eo_claimExpiresAt r)).

Record records_wf (d : Database) : Prop := mk_records_wf {
  cw_keys : NoDup (st_key <$> t_states d);
  cw_values : ∀ row, row ∈ t_states d → 1 ≤ st_revision row ∧ ∃ value, holds_value row value;
  cw_commands : NoDup (result_lookup <$> t_results d);
  cw_results : ∀ r, r ∈ t_results d → state_behind (t_states d) r;
  cw_events : NoDup (eo_id <$> t_events d);
  cw_event : ∀ r, r ∈ t_events d → event_wf r;
}.

Lemma results_hold_keys d : results_hold d = Ok tt → NoDup (result_lookup <$> t_results d).
Proof.
  unfold results_hold. intros E. inv_ok.
  by match goal with H : unique_holds _ _ = Ok _ |- _ => apply constraint_Ok, keys_unique_spec in H end.
Qed.

(** ** The row an upsert leaves *)
Lemma upsert_keys row t : NoDup (st_key <$> t) → NoDup (st_key <$> upsert_state row t).
Proof.
  intros Hn. unfold upsert_state. destruct (fresh_key _ _ _) eqn:E; [by apply insert_keys|]. by rewrite update_key.
Qed.

Lemma upsert_elem row t x : NoDup (st_key <$> t) →
  (∀ y, y ∈ t → st_key y = st_key row → st_ownerId y = st_ownerId row ∧ st_agentId y = st_agentId row) →
  x ∈ upsert_state row t ↔ x = row ∨ x ∈ t ∧ st_key x ≠ st_key row.
Proof.
  intros Hn Ho. unfold upsert_state. destruct (fresh_key st_key (st_key row) t) eqn:E.
  - apply fresh_spec in E. rewrite elem_insert. split; [|naive_solver].
    intros [Hx| ->]; [|by left]. right. split; [done|]. intros Hk. apply E. rewrite <-Hk. by apply list_elem_of_fmap_2.
  - rewrite elem_update. split.
    + intros [(y & Hy & Hk%bool_decide_eq_true & ->)|[Hx Hk%bool_decide_eq_false]]; [left|by right].
      destruct (Ho y Hy Hk) as [E1 E2]. destruct row; cbn in *. congruence.
    + intros [->|[Hx Hk]]; [left|right; split; [done|by apply bool_decide_eq_false]].
      assert (st_key row ∈ st_key <$> t) as (y & Hk & Hy)%list_elem_of_fmap.
      { destruct (decide (st_key row ∈ st_key <$> t)) as [|Hno]; [done|]. apply fresh_spec in Hno. congruence. }
      exists y. split; [done|]. split; [by apply bool_decide_eq_true|]. destruct (Ho y Hy (eq_sym Hk)) as [E1 E2].
      destruct row; cbn in *. congruence.
Qed.

(** ** Every step keeps the invariant *)
Lemma event_move_wf now r r' : event_move now r r' → event_wf r → event_wf r'.
Proof.
  unfold event_wf. intros [r0 t Hp|r0 t a Hp|r0 He|r0 c e Hs] [H1 H2]; cbn in *; (split; [|naive_solver]).
  - split; [eauto|done].
  - split; [eauto|done].
  - split; [done|]. intros [t Ht]. exfalso. unfold claim_expired in He. guards. destruct He as [He _].
    assert (eo_state r0 = publication_published) by (apply H1; eauto). congruence.
  - split; [done|]. intros [t Ht]. exfalso. assert (eo_state r0 = publication_published) by (apply H1; eauto). congruence.
Qed.

Section commit.
Context `{Sha256}.

(** The state row of a commit that was ready. *)
Lemma ready_owner input now authority revision d : records_wf d → commit_ready input now authority revision d →
  ∀ y, y ∈ t_states d → st_key y = st_key (state_written input revision) →
  st_ownerId y = st_ownerId (state_written input revision) ∧ st_agentId y = st_agentId (state_written input revision).
Proof.
  intros Hwf Hr y Hy Hk. apply (cy_owner _ _ _ _ _ Hr). by apply (get_key st_key); [apply Hwf|].
Qed.

Lemma committed_wf input now authority revision d : json_wf (JObj (cs_value (ci_state input))) →
  commit_ready input now authority revision d → results_hold (committed input authority revision d) = Ok tt →
  records_wf d → records_wf (committed input authority revision d).
Proof.
  intros Hj Hr Hh Hwf. pose proof (ready_owner _ _ _ _ _ Hwf Hr) as Ho. pose proof (cw_keys _ Hwf) as Hk.
  assert (Hpos : ∀ row, state_row (cs_key (ci_state input)) d = Some row → st_revision row < revision).
  { intros row Hrow. rewrite (cy_next _ _ _ _ _ Hr), Hrow. cbn. lia. }
  assert (Hrev : 1 ≤ revision).
  { rewrite (cy_next _ _ _ _ _ Hr). destruct (state_row _ d) as [row|] eqn:E; cbn; [|lia].
    apply get_elem in E as [E _]. apply (cw_values _ Hwf) in E. lia. }
  split; cbn.
  - by apply upsert_keys.
  - intros row [->|[Hx _]]%upsert_elem; [|by apply Hwf|done|done]. cbn. split; [done|]. by exists (cs_value (ci_state input)).
  - by apply results_hold_keys in Hh.
  - intros r [Hx| ->]%elem_insert.
    + destruct (cw_results _ Hwf _ Hx) as (row & Hrow & E1 & E2 & E3 & E4).
      destruct (decide (st_key row = cs_key (ci_state input))) as [Hsame|Hne].
      * exists (state_written input revision). split; [apply upsert_elem; [done|done|by left]|]. cbn.
        assert (state_row (cs_key (ci_state input)) d = Some row) as Hs by (apply (get_key st_key); [done|by split]).
        destruct (cy_owner _ _ _ _ _ Hr _ Hs) as [F1 F2]. pose proof (Hpos _ Hs).
        split; [congruence|]. split; [congruence|]. split; [congruence|lia].
      * exists row. split; [apply upsert_elem; [done|done|by right]|done].
    + exists (state_written input revision). split; [apply upsert_elem; [done|done|by left]|]. cbn. repeat split; lia.
  - rewrite fmap_app. apply NoDup_app. split; [apply Hwf|]. rewrite <-list_fmap_compose. split.
    + intros x Hx (e & -> & He)%list_elem_of_fmap. by apply (cy_events _ _ _ _ _ Hr e He).
    + exact (cy_once _ _ _ _ _ Hr).
  - intros r [Hx|(e & -> & He)%list_elem_of_fmap]%elem_of_app; [by apply Hwf|].
    split; cbn; [split; [done|by intros []]|done].
Qed.

Lemma step_records_wf now d d' : db_step now d d' → records_wf d → records_wf d'.
Proof.
  intros Hs Hwf. destruct Hs as [? ? ->| | | | |input l rev Hj Hr -> Hh|r Hap Hnew ->|p f Hp ->|row ->];
    try (subst; destruct Hwf; by split).
  - by eapply committed_wf.
  - destruct Hwf as [H1 H2 H3 H4 H5 H6]. split; try done; cbn.
    + by apply (insert_keys eo_id), fresh_spec.
    + intros x [Hx| ->]%elem_insert; [auto|]. destruct Hap as (E1 & E2 & E3 & E4). unfold event_wf. rewrite E1, E4. split; [|done].
      split; [done|by intros []].
  - destruct Hwf as [H1 H2 H3 H4 H5 H6]. split; try done; cbn.
    + assert (eo_id <$> update_where p f (t_events d) = eo_id <$> t_events d) as ->; [|done].
      unfold update_where. rewrite <-list_fmap_compose. apply list_fmap_ext. intros i x Hx. cbn.
      destruct (p x) eqn:E; [|done]. apply list_elem_of_lookup_2 in Hx. by eapply event_move_id, Hp.
    + intros x [(r & Hr & E & ->)|[Hx _]]%elem_update; [|auto]. eapply event_move_wf; eauto.
Qed.

Lemma steps_records_wf d d' : db_steps d d' → records_wf d → records_wf d'.
Proof. induction 1 as [|d d1 d2 (now & Hs) _ IH]; [done|]. intros Hwf. by eapply IH, step_records_wf. Qed.
End commit.

(** ** What a command is answered from *)
Record answers (row : CommandResultRow) (d : Database) (replayed : bool) (a : CommitStateAndEventsResult) : Prop := mk_answers {
  an_result : cm_commandResult a = re_record row;
  an_replayed : cm_replayed a = replayed;
  an_events : cm_events a = events_of (result_lookup row) d;
  an_state : ∃ srow value, srow ∈ t_states d ∧ st_key srow = cr_stateKey (re_record row) ∧ holds_value srow value ∧
    cm_state a = mkStateRecord (st_key srow) (st_revision srow) value ∧ cr_stateRevision (re_record row) ≤ st_revision srow;
}.

Definition same_command (input : CommitStateAndEventsInput) (r : CommandResultRecord) : Prop :=
  cr_commandType r = cmd_commandType (ci_command input) ∧ cr_commandFingerprint r = cmd_commandFingerprint (ci_command input).

Lemma stateFromRow_value row value : holds_value row value →
  stateFromRow row = Ok (mkStateRecord (st_key row) (st_revision row) value).
Proof. intros [E Hw]. unfold stateFromRow. by rewrite E, JSON_parse_stringify. Qed.

Lemma result_row_spec lookup d row : records_wf d → result_row lookup d = Some row ↔ row ∈ t_results d ∧ result_lookup row = lookup.
Proof. intros Hwf. apply get_key, Hwf. Qed.

Lemma findCommandCommit_run lookup replayed d : records_wf d →
  match result_row lookup d with
  | None => findCommandCommit lookup replayed d = (Ok None, d)
  | Some row => ∃ a, findCommandCommit lookup replayed d = (Ok (Some a), d) ∧ answers row d replayed a
  end.
Proof.
  intros Hwf. unfold findCommandCommit, findCommandResult, eventsForCommand, readState.
  unfold mbind, M_bind, gets, lift, throwM_if, throw, mret, M_ret. destruct (result_row lookup d) as [row|] eqn:Er; cbn; [|done].
  apply result_row_spec in Er as [Hrow Hl]; [|done].
  destruct (cw_results _ Hwf _ Hrow) as (srow & Hs & Hk & _ & _ & Hrev).
  destruct (cw_values _ Hwf _ Hs) as (_ & value & Hv). assert (state_row (cr_stateKey (re_record row)) d = Some srow) as -> by
    (apply (get_key st_key); [apply Hwf|by split]). cbn. unfold mbind, result_bind, mret, result_ret. rewrite (stateFromRow_value _ _ Hv). cbn. unfold lift.
  rewrite (proj2 (Z.ltb_ge _ _)) by done. eexists. split; [reflexivity|]. split; cbn; [done|done|by rewrite Hl|].
  by exists srow, value.
Qed.

Lemma replayExisting_run input d : records_wf d →
  match result_row (cmd_lookup (ci_command input)) d with
  | None => replayExisting input d = (Ok None, d)
  | Some row =>
      same_command input (re_record row) ∧ (∃ a, replayExisting input d = (Ok (Some a), d) ∧ answers row d true a) ∨
      ¬ same_command input (re_record row) ∧
        replayExisting input d = (Err (idempotency_reused (lk_idempotencyKey (cmd_lookup (ci_command input)))), d)
  end.
Proof.
  intros Hwf. pose proof (findCommandCommit_run (cmd_lookup (ci_command input)) true d Hwf) as Hf. unfold replayExisting.
  unfold mbind, M_bind. destruct (result_row _ d) as [row|]; [|by rewrite Hf].
  destruct Hf as (a & -> & Ha). rewrite (an_result _ _ _ _ Ha). unfold throwM_if, lift, same_command.
  destruct (_ && _) eqn:E; cbn; guards.
  - left. split; [done|]. by exists a.
  - right. split; [naive_solver|done].
Qed.

Section theorems.
Context `{Sha256}.

Lemma authority_writes input now l d d' : authorizes input now l d → t_deployments d' = t_deployments d →
  t_leases d' = t_leases d → authorizes input now l d'.
Proof. unfold authorizes. by intros Ha -> ->. Qed.

(** What a commit that is not answered from the result of its command wrote. *)
Definition executed (input : CommitStateAndEventsInput) (now : string) (d d' : Database) (row : CommandResultRow) : Prop :=
  ∃ authority revision, commit_ready input now authority revision d ∧ d' = committed input authority revision d ∧
    row = result_written input authority revision ∧ records_wf d' ∧ result_row (cmd_lookup (ci_command input)) d' = Some row.

Lemma commit_transaction_run configuration input now d result d' : records_wf d → json_wf (JObj (cs_value (ci_state input))) →
  result_row (cmd_lookup (ci_command input)) d = None →
  commit_transaction configuration input now d = (Ok result, d') →
  ∃ row, executed input now d d' row ∧ answers row d' false result.
Proof.
  intros Hwf Hj Hn [[-> Hr]|(l & rev & Hr & -> & Hh & Hf)]%commit_transaction_Ok.
  { pose proof (replayExisting_run input d Hwf) as Hrun. rewrite Hn in Hrun. congruence. }
  pose proof (committed_wf _ _ _ _ _ Hj Hr Hh Hwf) as Hwf'. set (row := result_written input l rev).
  assert (result_row (cmd_lookup (ci_command input)) (committed input l rev d) = Some row) as Hrow.
  { apply result_row_spec; [done|]. split; [|done]. cbn. apply elem_insert. by right. }
  exists row. split; [by exists l, rev|].
  pose proof (findCommandCommit_run (cmd_lookup (ci_command input)) false _ Hwf') as Hrun. rewrite Hrow in Hrun.
  destruct Hrun as (a & Ha & Han). rewrite Ha in Hf. by injection Hf as <-.
Qed.

(** Every branch of a commit. *)
Lemma commit_run configuration freeBytes input now d r d' : records_wf d → json_wf (JObj (cs_value (ci_state input))) →
  commitStateAndEvents configuration freeBytes input now d = (r, d') →
  match result_row (cmd_lookup (ci_command input)) d with
  | Some row => d' = d ∧
      (same_command input (re_record row) ∧ (∃ a, r = Ok a ∧ answers row d true a) ∨
       ¬ same_command input (re_record row) ∧
         r = Err (idempotency_reused (lk_idempotencyKey (cmd_lookup (ci_command input)))))
  | None =>
      d' = d ∧ (∃ x, r = Err x) ∨
      ∃ row, executed input now d d' row ∧
        ((∃ a, r = Ok a ∧ answers row d' false a) ∨ r = Err (process_exit 86) ∧ wc_crashAt configuration = Some after_commit)
  end.
Proof.
  intros Hwf Hj E. pose proof (replayExisting_run input d Hwf) as Hr. unfold commitStateAndEvents in E.
  unfold mbind, M_bind in E. destruct (result_row _ d) as [row|] eqn:Erow.
  - destruct Hr as [[Hs (a & Ha & Han)]|[Hs Ha]]; rewrite Ha in E; injection E as <- <-; (split; [done|]);
      [left; eauto|by right].
  - rewrite Hr in E. unfold lift in E at 1.
    destruct (assertDiskHeadroom _ _) as [[]|x]; [|injection E as <- <-; left; eauto].
    unfold mbind, M_bind in E.
    destruct (transaction _ d) as [[result|x] d1] eqn:Et.
    2: { apply (proj1 (transaction_Err _ _ _ _)) in Et as [-> _]. injection E as <- <-. left. eauto. }
    apply (proj1 (transaction_Ok _ _ _ _)) in Et. right.
    destruct (commit_transaction_run _ _ _ _ _ _ Hwf Hj Erow Et) as (row & Hex & Han).
    unfold maybeCrash, throwM_if, lift in E. destruct (_ === _) eqn:Ec; cbn in E; injection E as <- <-;
      exists row; (split; [done|]); [right|left; eauto]. split; [done|]. by apply bool_decide_eq_true in Ec.
Qed.

(** ** How the records evolve *)
Lemma upsert_evolves row t x : NoDup (st_key <$> t) →
  (∀ y, y ∈ t → st_key y = st_key row → st_ownerId y = st_ownerId row ∧ st_agentId y = st_agentId row) →
  (∀ y, y ∈ t → st_key y = st_key row → st_revision y ≤ st_revision row) → x ∈ t →
  ∃ x', x' ∈ upsert_state row t ∧ st_key x' = st_key x ∧ st_revision x ≤ st_revision x'.
Proof.
  intros Hn Ho Hle Hx. destruct (decide (st_key x = st_key row)) as [E|E].
  - exists row. split; [apply upsert_elem; [done|done|by left]|]. split; [done|auto].
  - exists x. split; [apply upsert_elem; [done|done|by right]|]. split; [done|lia].
Qed.

Record evolved (d d' : Database) : Prop := mk_evolved {
  ev_results : ∀ row, row ∈ t_results d → row ∈ t_results d';
  ev_states : ∀ x, x ∈ t_states d → ∃ x', x' ∈ t_states d' ∧ st_key x' = st_key x ∧ st_revision x ≤ st_revision x';
  ev_events : ∀ e, e ∈ t_events d → ∃ e', e' ∈ t_events d' ∧ eo_event e' = eo_event e ∧ eo_ownerId e' = eo_ownerId e ∧
    eo_agentId e' = eo_agentId e;
}.

#[global] Instance evolved_preorder : PreOrder evolved.
Proof.
  split.
  - intros d. split; [done|intros x Hx; exists x; split; [done|]; split; [done|lia]|intros e He; by exists e].
  - intros d1 d2 d3 [R1 S1 E1] [R2 S2 E2]. split.
    + auto.
    + intros x (y & Hy & K1 & L1)%S1. destruct (S2 _ Hy) as (z & Hz & K2 & L2). exists z. split; [done|]. split; [congruence|lia].
    + intros x (y & Hy & K1 & L1 & M1)%E1. destruct (E2 _ Hy) as (z & Hz & K2 & L2 & M2). exists z. split; [done|]. repeat split; congruence.
Qed.

Lemma event_move_same now r r' : event_move now r r' →
  eo_event r' = eo_event r ∧ eo_ownerId r' = eo_ownerId r ∧ eo_agentId r' = eo_agentId r.
Proof. by intros []. Qed.

Lemma evolved_same d d' : t_states d' = t_states d → t_results d' = t_results d → t_events d' = t_events d → evolved d d'.
Proof.
  intros E1 E2 E3. split; rewrite ?E1, ?E2, ?E3; [done| |].
  - intros x Hx. exists x. split; [done|]. split; [done|lia].
  - intros e He. by exists e.
Qed.

Lemma step_evolved now d d' : records_wf d → db_step now d d' → evolved d d'.
Proof.
  intros Hwf Hs.
  destruct Hs as [? ? ->| | | | |input l rev Hj Hr -> Hh|r Hap Hnew ->|p f Hp ->|row ->]; try (subst; by apply evolved_same).
  - split; cbn.
    + intros row Hrow. apply elem_insert. by left.
    + intros x Hx. apply upsert_evolves; [apply Hwf|by eapply ready_owner| |done].
      intros y Hy Hk. cbn. rewrite (cy_next _ _ _ _ _ Hr).
      assert (state_row (cs_key (ci_state input)) d = Some y) as -> by (apply (get_key st_key); [apply Hwf|by split]). cbn. lia.
    + intros e He. exists e. split; [apply elem_of_app; by left|done].
  - split; [done|intros x Hx; exists x; split; [done|]; split; [done|lia]|].
    intros e He. exists e. split; [apply elem_insert; by left|done].
  - split; [done|intros x Hx; exists x; split; [done|]; split; [done|lia]|].
    intros e He. cbn. destruct (p e) eqn:Ep.
    + exists (f e). split; [apply elem_update; left; eauto|]. by eapply event_move_same, Hp.
    + exists e. split; [apply elem_update; by right|done].
Qed.

Lemma steps_evolved d d' : records_wf d → db_steps d d' → evolved d d'.
Proof.
  intros Hwf Hs. induction Hs as [|d d1 d2 (now & Hs) _ IH]; [done|]. transitivity d1; [by eapply step_evolved|].
  apply IH. by eapply step_records_wf.
Qed.

(** A command that has a result is answered from it, whatever the disk, the
    clock and the authority are. *)
Lemma commit_answered_run configuration freeBytes input now d row : records_wf d →
  result_row (cmd_lookup (ci_command input)) d = Some row →
  same_command input (re_record row) ∧
    (∃ a, commitStateAndEvents configuration freeBytes input now d = (Ok a, d) ∧ answers row d true a) ∨
  ¬ same_command input (re_record row) ∧ commitStateAndEvents configuration freeBytes input now d =
    (Err (idempotency_reused (lk_idempotencyKey (cmd_lookup (ci_command input)))), d).
Proof.
  intros Hwf Hrow. pose proof (replayExisting_run input d Hwf) as Hr. rewrite Hrow in Hr.
  unfold commitStateAndEvents, mbind, M_bind. destruct Hr as [[Hs (a & Ha & Han)]|[Hs Ha]]; rewrite Ha; [left|right]; eauto.
Qed.

(** A later answer to the same command reports at least what the earlier one did. *)
Definition reports_more (r a : CommitStateAndEventsResult) : Prop :=
  cm_commandResult a = cm_commandResult r ∧ sr_key (cm_state a) = sr_key (cm_state r) ∧
  sr_revision (cm_state r) ≤ sr_revision (cm_state a) ∧
  ∀ e, e ∈ cm_events r → ∃ e', e' ∈ cm_events a ∧ er_event e' = er_event e.

Lemma answers_evolve row d1 d2 b1 b2 r a : records_wf d1 → records_wf d2 → evolved d1 d2 →
  answers row d1 b1 r → answers row d2 b2 a → reports_more r a.
Proof.
  intros Hwf1 Hwf2 Hev [R1 _ E1 (s1 & v1 & Hs1 & K1 & _ & V1 & _)] [R2 _ E2 (s2 & v2 & Hs2 & K2 & _ & V2 & _)].
  unfold reports_more. rewrite V1, V2.
  split; [congruence|]. split; [cbn; congruence|]. split; cbn.
  - destruct (ev_states _ _ Hev _ Hs1) as (x & Hx & Kx & Hle).
    assert (x = s2) as -> by (eapply (key_inj st_key); [apply Hwf2|done|done|congruence]). done.
  - rewrite E1, E2. unfold events_of. intros e (x & -> & Hx)%list_elem_of_fmap. rewrite sort_by_perm in Hx.
    apply elem_where in Hx as [Hx Hc]. destruct (ev_events _ _ Hev _ Hx) as (y & Hy & F1 & F2 & F3).
    exists (eventFromRow y). split; [|cbn; congruence]. apply list_elem_of_fmap_2. rewrite sort_by_perm. apply elem_where.
    split; [done|]. unfold of_command in *. by rewrite F1, F2, F3.
Qed.

Lemma commit_has_row configuration freeBytes input now d r d1 : records_wf d → json_wf (JObj (cs_value (ci_state input))) →
  commitStateAndEvents configuration freeBytes input now d = (Ok r, d1) →
  ∃ row b, result_row (cmd_lookup (ci_command input)) d1 = Some row ∧ same_command input (re_record row) ∧
    answers row d1 b r ∧ records_wf d1.
Proof.
  intros Hwf Hj E. pose proof (commit_run _ _ _ _ _ _ _ Hwf Hj E) as Hr. destruct (result_row _ d) as [row|] eqn:Erow.
  - destruct Hr as [-> [[Hs (a & [= <-] & Ha)]|[_ Hx]]]; [|done]. by exists row, true.
  - destruct Hr as [[_ [x Hx]]|(row & (l & rev & _ & -> & -> & Hwf' & Hrow) & [(a & [= <-] & Ha)|[Hx _]])]; try done.
    eexists _, false. split; [exact Hrow|]. split; [done|]. by split.
Qed.
End theorems.

(** C5 The commit of the SQLite worker, on every branch.  A command whose key has
    a result changes nothing: the same command (type and fingerprint) is answered
    from the tables, marked as a replay, and another one fails.  A new command
    either fails and changes nothing, whatever it failed at and wherever the
    process died inside the transaction; or the command held the authority, the
    record had the expected revision and Owner, the events were new, and record,
    result and events are all written; then it is answered with them, unless the
    process died after the transaction, and a restarted one, whatever its
    configuration, disk and clock, answers the same command from its result. *)
Theorem sqlite_commit_decides `{Sha256} configuration freeBytes input now d r d' :
  records_wf d → json_wf (JObj (cs_value (ci_state input))) →
  commitStateAndEvents configuration freeBytes input now d = (r, d') →
  records_wf d' ∧
  match result_row (cmd_lookup (ci_command input)) d with
  | Some row => d' = d ∧
      (same_command input (re_record row) ∧ (∃ a, r = Ok a ∧ answers row d true a) ∨
       ¬ same_command input (re_record row) ∧
         r = Err (idempotency_reused (lk_idempotencyKey (cmd_lookup (ci_command input)))))
  | None =>
      d' = d ∧ (∃ x, r = Err x) ∨
      ∃ row, executed input now d d' row ∧ same_command input (re_record row) ∧
        ((∃ a, r = Ok a ∧ answers row d' false a) ∨
         r = Err (process_exit 86) ∧ wc_crashAt configuration = Some after_commit ∧
           ∀ configuration' freeBytes' now', ∃ a,
             commitStateAndEvents configuration' freeBytes' input now' d' = (Ok a, d') ∧ answers row d' true a)
  end.
Proof.
  intros Hwf Hj E. pose proof (commit_run _ _ _ _ _ _ _ Hwf Hj E) as Hr. destruct (result_row _ d) as [row|] eqn:Erow.
  - destruct Hr as [-> Hr]. done.
  - destruct Hr as [[-> Hx]|(row & Hex & Hr)]; [split; [done|by left]|].
    pose proof Hex as (l & rev & _ & _ & Erw & Hwf' & Hrow). split; [done|]. right. exists row. split; [done|].
    assert (Hs : same_command input (re_record row)) by (by rewrite Erw). split; [done|].
    destruct Hr as [Ha|[-> Hc]]; [by left|right]. split; [done|]. split; [done|]. intros configuration' freeBytes' now'.
    by destruct (commit_answered_run configuration' freeBytes' input now' d' row Hwf' Hrow) as [[_ Ha]|[? _]].
Qed.

(** C6 A command is executed once: after it was answered, whatever the worker did
    for others in between, a command with its key changes nothing, and it is
    answered exactly when it is the same command: with the same result, marked as
    a replay, with the events of the first answer among its events, and with the
    record of the first answer at its revision or, unlike the in-memory
    repository, at the later one it has by then. *)
Theorem sqlite_command_once `{Sha256} configuration freeBytes input now d r d1 d2 configuration' freeBytes' input' now' r' d3 :
  records_wf d → json_wf (JObj (cs_value (ci_state input))) →
  commitStateAndEvents configuration freeBytes input now d = (Ok r, d1) → db_steps d1 d2 →
  cmd_lookup (ci_command input') = cmd_lookup (ci_command input) →
  commitStateAndEvents configuration' freeBytes' input' now' d2 = (r', d3) →
  d3 = d2 ∧
  (is_ok r' = true ↔ cmd_commandType (ci_command input') = cmd_commandType (ci_command input) ∧
     cmd_commandFingerprint (ci_command input') = cmd_commandFingerprint (ci_command input)) ∧
  ∀ a, r' = Ok a → cm_replayed a = true ∧ reports_more r a.
Proof.
  intros Hwf Hj E Hs Hl E'. destruct (commit_has_row _ _ _ _ _ _ _ Hwf Hj E) as (row & b & Hrow & [T1 T2] & Han & Hwf1).
  pose proof (steps_evolved _ _ Hwf1 Hs) as Hev. pose proof (steps_records_wf _ _ Hs Hwf1) as Hwf2.
  assert (result_row (cmd_lookup (ci_command input')) d2 = Some row) as Hrow2.
  { rewrite Hl. apply result_row_spec; [done|]. apply result_row_spec in Hrow as [? ?]; [|done]. split; [|done]. by apply (ev_results _ _ Hev). }
  destruct (commit_answered_run configuration' freeBytes' input' now' d2 row Hwf2 Hrow2) as [[[S1 S2] (a & Ha & Han')]|[Hne Ha]];
    rewrite Ha in E'; injection E' as <- <-; (split; [done|]).
  - split; [split; [intros _; split; congruence|done]|]. intros a' [= <-]. split; [apply Han'|].
    exact (answers_evolve _ _ _ _ _ _ _ Hwf1 Hwf2 Hev Han Han').
  - split; [|done]. split; [done|]. intros [F1 F2]. exfalso. apply Hne. split; congruence.
Qed.

(** C7 Fencing inside the database: a commit that changes it holds a lease that is
    not released and not expired, for the active deployment, and every other lease
    of the Agent has a smaller token; so once a lease has been followed by another
    one of the same Agent, no command that names it is ever executed again,
    whatever the worker does in between. *)
Theorem sqlite_last_lease_writes `{Sha256} configuration freeBytes input now d r d' :
  db_authority_wf d → commitStateAndEvents configuration freeBytes input now d = (r, d') →
  (d' ≠ d → ∃ l, authorizes input now l d ∧
     ∀ c, c ∈ t_leases d → le_agentId c = le_agentId l → c ≠ l → le_fencingToken c < le_fencingToken l) ∧
  ∀ d0 l c, db_authority_wf d0 → db_steps d0 d → l ∈ t_leases d0 → c ∈ t_leases d0 → le_agentId l = le_agentId c →
    le_fencingToken l < le_fencingToken c → af_leaseId (cmd_authority (ci_command input)) = le_id l → d' = d.
Proof.
  intros Hwf E. assert (Hex : d' = d ∨ ∃ l, authorizes input now l d).
  { unfold commitStateAndEvents in E. apply bind_reads in E as [->|([c|] & _ & E)]; [by left| | |apply replayExisting_reads].
    - injection E as _ <-. by left.
    - apply bind_reads in E as [->|(u & _ & E)]; [by left| |apply reads_lift]. unfold mbind, M_bind in E.
      destruct (transaction _ d) as [[result|x] d1] eqn:Et.
      + apply (proj1 (transaction_Ok _ _ _ _)) in Et. apply commit_transaction_Ok in Et as [[-> _]|(l & rev & Hr & _)].
        * unfold maybeCrash, throwM_if, lift in E. destruct (throw_if _ _); injection E as _ <-; by left.
        * right. exists l. apply Hr.
      + apply (proj1 (transaction_Err _ _ _ _)) in Et as [-> _]. injection E as _ <-. by left. }
  split.
  - intros Hne. destruct Hex as [|[l Hl]]; [done|]. exists l. split; [done|]. intros c Hc Ha Hcl.
    pose proof (authority_is_last _ _ _ _ _ Hwf Hl Hc Ha). destruct (decide (le_fencingToken c = le_fencingToken l)) as [Ht|]; [|lia].
    destruct Hcl. eapply (aw_tokens _ _ Hwf); [done|apply Hl|done|done].
  - intros d0 l c Hwf0 Hs Hl Hc Ha Ht Hid. destruct Hex as [|[l2 Hl2]]; [done|exfalso].
    destruct (steps_lease_stays _ _ _ Hs Hl) as (l' & Hl' & (E1 & _ & E3 & _ & E5 & _)).
    destruct (steps_lease_stays _ _ _ Hs Hc) as (c' & Hc' & (_ & _ & F3 & _ & F5 & _)).
    assert (l' = l2) as ->.
    { eapply (key_inj le_id); [apply Hwf|done|apply Hl2|]. destruct Hl2 as (_ & Hid2 & _). congruence. }
    assert (le_agentId c' = le_agentId l2) as Ha' by congruence. pose proof (authority_is_last _ _ _ _ _ Hwf Hl2 Hc' Ha'). lia.
Qed.
