(* ===== verification/SqliteOutbox.v ===== *)
(** Claims of events in the outbox: while a claim lasts, its events belong to
    one publisher. *)
From S2P Require Import Prelude Js JsDate JsJson JsParse Identifiers Entities.
From S2P Require Import AuthTypes Deterministic InMemoryAuth Coordination Persistence.
From S2P Require Import Sqlite SqliteSchema SqliteWorker SqliteEvents SqliteStep SqliteAuthority SqliteCommit.
Local Open Scope Z_scope.

Definition claimed_until (claimId expires : string) (r : EventRow) : Prop :=
  eo_state r = publication_claimed ∧ eo_claimId r = Some claimId ∧ eo_claimExpiresAt r = Some expires.

(** The event belongs to the claim until it expires, unless it is published before. *)
Definition held (claimId expires eventId : string) (d : Database) : Prop :=
  ∃ r, r ∈ t_events d ∧ eo_id r = eventId ∧ (eo_state r = publication_published ∨ claimed_until claimId expires r).

(** *** What the updates of a claim leave *)
Definition claim_taken (claimId expires : string) (ids : list string) (r : EventRow) : EventRow :=
  if includes (eo_id r) ids && (eo_state r === publication_pending) then claimed_by claimId expires r else r.

Lemma claim_rows_Ok claimId expires rows d u d' : claim_rows claimId expires rows d = (Ok u, d') →
  d' = on_events (λ t, claim_taken claimId expires (eo_id <$> rows) <$> t) d.
Proof.
  revert d. induction rows as [|row rows IH]; intros d E; cbn in E; run_Ok.
  - unfold on_events. transitivity (d <| t_events := t_events d |>); [by destruct d|]. cbn. f_equal.
    rewrite <-(list_fmap_id (t_events d)) at 1. symmetry. apply list_fmap_ext. intros i0 r _. unfold claim_taken, includes. by rewrite bool_decide_eq_false_2 by set_solver.
  - apply IH in E as ->. unfold on_events, claim_row, update_where. cbn. f_equal. rewrite <-list_fmap_compose.
    apply list_fmap_ext. intros i r _. cbn. unfold claim_taken, includes. cbn.
    destruct (decide (eo_id r = eo_id row)) as [Heq|Hne].
    + rewrite (bool_decide_eq_true_2 (eo_id r = eo_id row)) by done.
      rewrite (bool_decide_eq_true_2 (eo_id r ∈ eo_id row :: _)) by (rewrite Heq; by left). cbn.
      destruct (decide (eo_state r = publication_pending)) as [Hp|Hp].
      * rewrite !(bool_decide_eq_true_2 (eo_state r = _)) by done. cbn. by rewrite andb_false_r.
      * rewrite !(bool_decide_eq_false_2 (eo_state r = _)) by done. by rewrite andb_false_r.
    + rewrite (bool_decide_eq_false_2 (eo_id r = eo_id row)) by done. cbn.
      by rewrite (bool_decide_ext (eo_id r ∈ eo_id row :: (eo_id <$> rows)) (eo_id r ∈ eo_id <$> rows)) by (rewrite elem_of_cons; naive_solver).
Qed.

(** The events a claim may take: of the scope, not published, and not held by a
    claim that lasts. *)
Definition claimable (input : ClaimEventsInput) (r : EventRow) : Prop :=
  in_scope (ce_ownerId input) (ce_agentId input) r = true ∧
  (eo_state r = publication_pending ∨ claim_expired (ce_claimedAt input) r = true).

Lemma claimEvents_Ok configuration freeBytes input d claims d' :
  claimEvents configuration freeBytes input d = (Ok claims, d') → records_wf d →
  (∀ c, c ∈ claims → rc_claimId c = ce_claimId input ∧ rc_expiresAt c = ce_expiresAt input ∧
     (∃ r, r ∈ t_events d ∧ eventFromRow r = rc_event c ∧ claimable input r) ∧
     held (ce_claimId input) (ce_expiresAt input) (er_id (rc_event c)) d' ∧ er_publishedAt (rc_event c) = None) ∧
  NoDup ((λ c, er_id (rc_event c)) <$> claims) ∧ (List.length claims ≤ Z.to_nat (ce_limit input))%nat ∧
  0 ≤ ce_limit input ≤ 1000.
Proof.
  unfold claimEvents. intros E Hwf. run_Ok. repeat match goal with H : unit |- _ => destruct H end. match goal with H : claim_rows _ _ _ _ = _ |- _ => apply claim_rows_Ok in H as -> end.
  match goal with H : assertLimit _ = Ok _ |- _ => apply throw_if_Ok in H; guards_in H; destruct H as [Hl1 Hl2] end.
  set (d1 := d <| t_events := _ |>). set (rows := order_limit _ _ _).
  assert (Hrows : ∀ x, x ∈ rows → x ∈ t_events d1 ∧ in_scope (ce_ownerId input) (ce_agentId input) x = true ∧ eo_state x = publication_pending).
  { intros y Hy%order_limit_elem. apply elem_where in Hy as [Hy Hg]. guards. by destruct_and!. }
  assert (Hd1 : ∀ x, x ∈ t_events d1 → ∃ r, r ∈ t_events d ∧ event_wf x ∧ eventFromRow r = eventFromRow x ∧
      in_scope (ce_ownerId input) (ce_agentId input) r = in_scope (ce_ownerId input) (ce_agentId input) x ∧
      (eo_state x = publication_pending → eo_state r = publication_pending ∨ claim_expired (ce_claimedAt input) r = true)).
  { intros y [(r & Hr & Hp & ->)|[Hr Hp]]%elem_update; [exists r|exists y].
    - split; [done|]. split; [eapply (event_move_wf (ce_claimedAt input)); [by constructor|by apply Hwf]|]. by repeat split; auto.
    - split; [done|]. split; [by apply Hwf|]. repeat split; auto. }
  assert (Hkeys : NoDup (eo_id <$> t_events d1)) by (cbn; rewrite update_events_ids; [apply Hwf|done]).
  split; [|split; [|split; [|done]]].
  - intros c (y & -> & Hy)%list_elem_of_fmap. cbn. destruct (Hrows _ Hy) as (Hx1 & Hsc & Hp).
    destruct (Hd1 _ Hx1) as (r & Hr & [Hw1 Hw2] & Hf & Hs & Hst). split; [done|]. split; [done|]. split; [|split].
    + exists r. split; [done|]. split; [done|]. split; [by rewrite Hs|auto].
    + exists (claimed_by (ce_claimId input) (ce_expiresAt input) y). split; [|split; [done|by right]].
      cbn. apply list_elem_of_fmap. exists y. split; [|done]. unfold claim_taken, includes.
      rewrite !bool_decide_eq_true_2; [done|done|]. by apply list_elem_of_fmap_2.
    + destruct (eo_publishedAt y) eqn:Ep; [|done]. exfalso. assert (eo_state y = publication_published) by (apply Hw1; eauto). congruence.
  - rewrite <-list_fmap_compose. apply (order_limit_keys eo_id). unfold all_where.
    eapply sublist_NoDup; [exact Hkeys|]. apply fmap_sublist, filter_bool_sublist.
  - rewrite length_fmap. subst rows. unfold order_limit. rewrite length_take. lia.
Qed.

(** ** A claim lasts *)
Section outbox.
Context `{Sha256}.

(** Steps at times before [limit]. *)
Definition steps_before (limit : string) : Database → Database → Prop :=
  rtc (λ d d', ∃ now, str_lt now limit = true ∧ db_step now d d').

Lemma steps_before_db limit d d' : steps_before limit d d' → db_steps d d'.
Proof. induction 1 as [|d d1 d2 (now & _ & Hs) _ IH]; [done|]. eapply rtc_l; [by exists now|done]. Qed.

Lemma move_held now claimId expires r r' : event_move now r r' → event_wf r → str_lt now expires = true →
  eo_state r = publication_published ∨ claimed_until claimId expires r →
  eo_state r' = publication_published ∨ claimed_until claimId expires r'.
Proof.
  intros Hm [Hw _] Hlt Hh. destruct Hm as [r t Hp|r t a Hp|r He|r c e Hs]; [by left|by left|exfalso|exfalso].
  - unfold claim_expired in He. guards. destruct He as [He1 He2]. destruct Hh as [Hh|(_ & _ & Hh)]; [congruence|].
    rewrite Hh in He2. by rewrite (str_lt_le_false _ _ Hlt) in He2.
  - destruct Hh as [Hh|(Hh & _)]; congruence.
Qed.

Lemma step_held now claimId expires eventId d d' : records_wf d → db_step now d d' → str_lt now expires = true →
  held claimId expires eventId d → held claimId expires eventId d'.
Proof.
  intros Hwf Hs Hlt (r & Hr & Hid & Hh).
  destruct Hs as [? ? ->| | | | |input l rev Hj Hrd -> Hh'|x Hap Hnew ->|p f Hp ->|row ->]; try (subst; exists r; done).
  - exists r. split; [apply elem_of_app; by left|done].
  - exists r. split; [apply elem_insert; by left|done].
  - cbn. destruct (p r) eqn:Ep; [|exists r; split; [apply elem_update; by right|done]].
    pose proof (Hp _ Hr Ep) as Hm. exists (f r). split; [apply elem_update; left; eauto|].
    split; [by rewrite (event_move_id _ _ _ Hm)|]. by eapply move_held; [|apply Hwf|..].
Qed.

Lemma steps_held claimId expires eventId d d' : records_wf d → steps_before expires d d' →
  held claimId expires eventId d → held claimId expires eventId d'.
Proof.
  intros Hwf Hs. induction Hs as [|d d1 d2 (now & Hlt & Hs) _ IH]; [done|]. intros Hh.
  apply IH; [by eapply step_records_wf|by eapply step_held].
Qed.

(** The row of an event that is held. *)
Lemma held_row claimId expires eventId d r : records_wf d → held claimId expires eventId d → r ∈ t_events d → eo_id r = eventId →
  eo_state r = publication_published ∨ claimed_until claimId expires r.
Proof.
  intros Hwf (x & Hx & Hid & Hh) Hr Hk. assert (r = x) as -> by (eapply (key_inj eo_id); [apply Hwf|done|done|congruence]). done.
Qed.

Lemma event_row_Some eventId d r : records_wf d → event_row eventId d = Some r ↔ r ∈ t_events d ∧ eo_id r = eventId.
Proof. intros Hwf. apply (get_key eo_id), Hwf. Qed.

Definition event_references (d : Database) (r : EventRow) : Prop :=
  eo_ownerId r ∈ t_owners d ∧ eo_agentId r ∈ t_agents d ∧ ev_payloadRef (eo_event r) ∈ pl_ref <$> t_payloads d.

Lemma events_hold_spec d : events_hold d = Ok tt ↔
  (∀ r, r ∈ t_events d → (eo_state r = publication_published ↔ is_Some (eo_publishedAt r))) ∧
  NoDup (eo_id <$> t_events d) ∧ ∀ r, r ∈ t_events d → event_references d r.
Proof.
  unfold events_hold, check_holds, primary_holds, foreign_holds, constraint. rewrite !throw_if_bind.
  set (check := forallb (λ r, (eo_state r === _) === _) _). set (unique := keys_unique _ _). set (foreign := forallb _ _).
  assert (Hc : check = true ↔ ∀ r, r ∈ t_events d → (eo_state r = publication_published ↔ is_Some (eo_publishedAt r))).
  { subst check. rewrite forallb_elem. apply forall_proper. intros r. apply imp_iff_compat_l. rewrite bool_decide_eq_true.
    destruct (eo_publishedAt r); cbn; [rewrite bool_decide_eq_true|rewrite bool_decide_eq_false]; split.
    - intros HP. split; [eauto|done].
    - intros [_ Hn]. apply Hn. eauto.
    - intros Hn. split; [done|by intros []].
    - intros [Hn _] Hp. by destruct (Hn Hp). }
  assert (Hf : foreign = true ↔ ∀ r, r ∈ t_events d → event_references d r).
  { subst foreign. rewrite forallb_elem. apply forall_proper. intros r. apply imp_iff_compat_l. unfold event_references.
    rewrite !andb_true_iff, !includes_spec. tauto. }
  rewrite <-Hc, <-Hf, <-keys_unique_spec. fold unique. destruct check, unique, foreign; cbn; naive_solver.
Qed.

(** What an acknowledgement does to an event that is held. *)
Lemma acknowledge_held configuration freeBytes input claimId expires d r d' : records_wf d →
  held claimId expires (ak_eventId input) d → str_lt (ak_publishedAt input) expires = true →
  acknowledgeEvent configuration freeBytes input d = (r, d') →
  (ak_claimId input ≠ claimId → d' = d) ∧
  (ak_claimId input = claimId → wc_minimumFreeBytes configuration ≤ freeBytes →
     events_hold d = Ok tt → is_ok r = true).
Proof.
  intros Hwf Hh Hlt E. unfold acknowledgeEvent, mbind, M_bind, lift in E.
  pose proof Hh as (x & Hx & Hid & _).
  assert (event_row (ak_eventId input) d = Some x) as Hrow by by apply event_row_Some.
  destruct (assertDiskHeadroom _ _) as [[]|e] eqn:Edisk.
  2: { injection E as <- <-. split; [done|]. intros _ Hfree. unfold assertDiskHeadroom, throw_if in Edisk.
    destruct (Z.ltb_spec freeBytes (wc_minimumFreeBytes configuration)); [lia|done]. }
  cbn in E. rewrite Hrow in E. destruct (eo_publishedAt x) eqn:Ep; cbn in E; [injection E as <- <-; by split|].
  set (mine := held_by _ _ _) in *. destruct (write_events _ d) as [w d1] eqn:Ew.
  assert (Hst : claimed_until claimId expires x).
  { destruct (held_row _ _ _ _ _ Hwf Hh Hx Hid) as [Hp|]; [|done]. apply (cw_event _ Hwf _ Hx) in Hp as [t Ht]. congruence. }
  assert (Hmine : ∀ y, y ∈ t_events d → mine y = true ↔ y = x ∧ ak_claimId input = claimId).
  { intros y Hy. unfold mine, held_by. destruct Hst as (S1 & S2 & S3). split.
    - intros Hm. guards. destruct_and!. assert (y = x) as -> by (eapply (key_inj eo_id); [apply Hwf|done|done|congruence]).
      split; [done|congruence].
    - intros [-> Hc]. rewrite S1, S2, S3, Hid, Hc, !bool_decide_eq_true_2 by done. by rewrite Hlt. }
  split.
  - intros Hne. assert (∀ f, update_where mine f (t_events d) = t_events d) as Hsame.
    { intros f. unfold update_where. rewrite <-(list_fmap_id (t_events d)) at 2. apply list_fmap_ext. intros i y Hy%list_elem_of_lookup_2. cbn.
      destruct (mine y) eqn:Em; [|done]. by apply Hmine in Em as [_ ?]. }
    assert (d1 = d) as ->.
    { apply write_cases in Ew as [->|(_ & -> & _)]; [done|]. rewrite Hsame. by destruct d. }
    destruct w; [|by injection E as _ <-]. by destruct (throw_if _ _); injection E as _ <-.
  - intros Hc _ Hhold. apply events_hold_spec in Hhold as (C1 & C2 & C3).
    unfold write_events, write in Ew. rewrite (proj2 (events_hold_spec _)) in Ew.
    { injection Ew as <- <-. rewrite (proj2 (Nat.eqb_eq _ _)) in E; [by injection E as <- _|].
      assert (all_where mine (t_events d) ≡ₚ [x]) as ->; [|done].
      apply NoDup_Permutation; [|apply NoDup_singleton|].
      - eapply (NoDup_fmap_1 eo_id), sublist_NoDup; [exact C2|]. apply fmap_sublist, filter_bool_sublist.
      - intros y. rewrite elem_where, list_elem_of_singleton. split; [intros [Hy Hm]; by apply Hmine in Hm as [-> _]|].
        intros ->. split; [done|]. by apply Hmine. }
    cbn. split; [|split].
    + intros y [(z & Hz & _ & ->)|[Hy _]]%elem_update; [cbn; split; eauto|by apply C1].
    + by rewrite update_events_ids.
    + intros y [(z & Hz & _ & ->)|[Hy _]]%elem_update; [exact (C3 z Hz)|by apply C3].
Qed.
End outbox.

(** C22 An event is claimed by one publisher at a time.  What a claim returns are
    stored events of its scope, none twice, no more than asked for, not published
    and not under a claim that lasts; and until the claim expires, whatever the
    worker does for others: no other claim returns one of them, an
    acknowledgement under another claim changes nothing, and one under this claim
    succeeds (when the disk has room and the references of the outbox hold). *)
Theorem sqlite_claims_hold `{Sha256} configuration freeBytes input d claims d1 :
  records_wf d → claimEvents configuration freeBytes input d = (Ok claims, d1) →
  (∀ c, c ∈ claims → rc_claimId c = ce_claimId input ∧ er_publishedAt (rc_event c) = None ∧
     ∃ r, r ∈ t_events d ∧ eventFromRow r = rc_event c ∧ claimable input r) ∧
  NoDup ((λ c, er_id (rc_event c)) <$> claims) ∧ (List.length claims ≤ Z.to_nat (ce_limit input))%nat ∧
  ∀ d2 configuration' freeBytes', steps_before (ce_expiresAt input) d1 d2 →
    (∀ input' claims' d3, str_lt (ce_claimedAt input') (ce_expiresAt input) = true →
       claimEvents configuration' freeBytes' input' d2 = (Ok claims', d3) →
       ∀ c c', c ∈ claims → c' ∈ claims' → er_id (rc_event c') ≠ er_id (rc_event c)) ∧
    ∀ c acknowledgement r d3, c ∈ claims → ak_eventId acknowledgement = er_id (rc_event c) →
      str_lt (ak_publishedAt acknowledgement) (ce_expiresAt input) = true →
      acknowledgeEvent configuration' freeBytes' acknowledgement d2 = (r, d3) →
      (ak_claimId acknowledgement ≠ ce_claimId input → d3 = d2) ∧
      (ak_claimId acknowledgement = ce_claimId input → wc_minimumFreeBytes configuration' ≤ freeBytes' →
         events_hold d2 = Ok tt → is_ok r = true).
Proof.
  intros Hwf E. destruct (claimEvents_Ok _ _ _ _ _ _ E Hwf) as (Hc & Hn & Hl & _).
  split; [intros c (? & _ & ? & _ & ?)%Hc; done|]. split; [done|]. split; [done|].
  intros d2 configuration' freeBytes' Hs. assert (Hwf1 : records_wf d1).
  { eapply steps_records_wf; [|exact Hwf]. pose proof (claimEvents_steps configuration freeBytes input d _ _ E) as Hr.
    clear -Hr. induction Hr as [|d0 d1 d2 Hs _ IH]; [apply rtc_refl|]. eapply rtc_l; [by eexists|done]. }
  pose proof (steps_records_wf _ _ (steps_before_db _ _ _ Hs) Hwf1) as Hwf2.
  assert (Hheld : ∀ c, c ∈ claims → held (ce_claimId input) (ce_expiresAt input) (er_id (rc_event c)) d2).
  { intros c (_ & _ & _ & Hh & _)%Hc. exact (steps_held _ _ _ _ _ Hwf1 Hs Hh). }
  split.
  - intros input' claims' d3 Hlt E' c c' Hcin Hcin' Heq.
    destruct (claimEvents_Ok _ _ _ _ _ _ E' Hwf2) as (Hc' & _). destruct (Hc' _ Hcin') as (_ & _ & (r & Hr & Hf & _ & Hcl) & _ & _).
    assert (eo_id r = er_id (rc_event c)) as Hid by (rewrite <-Heq, <-Hf; done).
    destruct (held_row _ _ _ _ _ Hwf2 (Hheld _ Hcin) Hr Hid) as [Hp|(S1 & S2 & S3)].
    + destruct Hcl as [Hcl|Hcl]; [congruence|]. unfold claim_expired in Hcl. guards. destruct_and!. congruence.
    + destruct Hcl as [Hcl|Hcl]; [congruence|]. unfold claim_expired in Hcl. rewrite S3 in Hcl. guards. destruct Hcl as [_ Hcl].
      by rewrite (str_lt_le_false _ _ Hlt) in Hcl.
  - intros c ack r d3 Hcin Hid Hlt E'. eapply acknowledge_held; [exact Hwf2| |exact Hlt|exact E']. rewrite Hid. by apply Hheld.
Qed.
