(* ===== verification/SqliteRepository.v ===== *)
(** packages/persistence-sqlite/src/sqlite-execution-context.ts and
    product-state-repository.ts: how requests reach the worker, what becomes of
    its failures, and the ports that the repository implements with them; and the
    publisher that runs on the outbox, against the contract of the sink. *)
From S2P Require Import Prelude Js JsDate JsJson JsParse Identifiers Contract Entities DurableState AuthTypes.
From S2P Require Import Deterministic InMemoryAuth Coordination Persistence ProductState Outbox Sqlite.
From S2P Require Import SqliteSchema SqliteWorker SqliteEvents SqliteStep SqliteAuthority SqliteCommit.
From S2P Require Import SqliteOutbox.
Local Open Scope Z_scope.

Record SqliteProductStateRepository := mkRepository {
  rp_database : Database; rp_configuration : SqliteWorkerConfiguration; rp_freeBytes : Z; rp_exited : bool;
  rp_closed : bool; rp_queuedWriters : Z; rp_maxObservedQueuedWriters : Z; rp_now : string }.

#[global] Instance eta_Repository : Eta SqliteProductStateRepository := λ r,
  mkRepository (rp_database r) (rp_configuration r) (rp_freeBytes r) (rp_exited r) (rp_closed r) (rp_queuedWriters r)
    (rp_maxObservedQueuedWriters r) (rp_now r).

Abbreviation Rp := (M exn SqliteProductStateRepository) (only parsing).

(** [new SqlitePersistenceError(code, message, details)] *)
Definition persistenceError (message : string) : exn := OtherError "SqlitePersistenceError" message.

(** [failureResponse] in the worker, and [receive] or the exit of the worker on this side. *)
Definition failureResponse (x : failure) : exn :=
  match x with
  | application_failure e => PortError e
  | database_error code message =>
      let sqliteCode := default "SQLITE_WORKER_ERROR" code in
      if (sqliteCode === "SQLITE_BUSY") || (sqliteCode === "SQLITE_FULL")
      then portError CONFLICT (if sqliteCode === "SQLITE_BUSY" then "SQLite writer remained busy" else "SQLite is full")
             [("sqliteCode", sqliteCode)]
      else persistenceError message
  | type_error message => persistenceError message
  | process_exit status => persistenceError ("The SQLite execution worker exited with status " +:+ numToString status)
  end.

Definition exits (x : failure) : bool := match x with process_exit _ => true | _ => false end.

(** The worker runs one message at a time. *)
Definition worker_run {A} (operation : SqliteWorkerConfiguration → Z → Wk A) : Rp A := λ w,
  match operation (rp_configuration w) (rp_freeBytes w) (rp_database w) with
  | (Ok a, d) => (Ok a, w <| rp_database := d |>)
  | (Err x, d) => (Err (failureResponse x), w <| rp_database := d |> <| rp_exited := exits x |>)
  end.

(** [SqliteExecutionContext.request] *)
Definition request {A} (operation : SqliteWorkerConfiguration → Z → Wk A) : Rp A :=
  exited ← gets rp_exited;
  throwM_if exited (persistenceError "The SQLite execution worker is not running") ;;
  worker_run operation.

Definition assertOpen : Rp unit :=
  closed ← gets rp_closed;
  throwM_if closed (persistenceError "The SQLite product-state repository is closed").

Definition readRequest {A} (operation : SqliteWorkerConfiguration → Z → Wk A) : Rp A := assertOpen ;; request operation.

Definition writeRequest {A} (operation : SqliteWorkerConfiguration → Z → Wk A) : Rp A :=
  assertOpen ;;
  modify (λ w, w <| rp_queuedWriters := rp_queuedWriters w + 1 |>) ;;
  modify (λ w, w <| rp_maxObservedQueuedWriters := Z.max (rp_maxObservedQueuedWriters w) (rp_queuedWriters w) |>) ;;
  try_finally (request operation) (modify (λ w, w <| rp_queuedWriters := rp_queuedWriters w - 1 |>)).

(** The worker closes its channel, and ends. *)
Definition close_repository : Rp unit :=
  closed ← gets rp_closed;
  if closed : bool then mret tt
  else
    modify (λ w, w <| rp_closed := true |>) ;;
    exited ← gets rp_exited;
    if exited : bool then mret tt
    else modify (λ w, w <| rp_exited := true |>).

Section repository.
Context `{Sha256}.

#[export] Instance repository_clock : ClockPort SqliteProductStateRepository := gets rp_now.

#[export] Instance repository_product : ProductStateRepositoryPort SqliteProductStateRepository := {|
  product_read key := readRequest (λ _ _, readState key);
  product_listPending limit := readRequest (λ _ _, listPending limit);
  product_markPublished eventId publishedAt := writeRequest (λ _ _, markPublished eventId publishedAt);
  Persistence.findCommandResult lookup := readRequest (λ _ _, findCommandResult lookup);
  Persistence.findCommandCommit lookup := readRequest (λ _ _, findCommandCommit lookup false);
  Persistence.commitStateAndEvents input :=
    now ← clock_now;
    writeRequest (λ configuration freeBytes, commitStateAndEvents configuration freeBytes input now);
|}.

#[export] Instance repository_authority : AuthorityLeasePort SqliteProductStateRepository := {|
  lease_claim lease durationMs :=
    now ← clock_now;
    writeRequest (λ configuration freeBytes, claimLease configuration freeBytes lease durationMs now);
  lease_current agentId := now ← clock_now; request (λ _ _, currentLease agentId now);
  lease_renew leaseId durationMs := now ← clock_now; writeRequest (λ _ _, renewLease leaseId durationMs now);
  lease_release leaseId := now ← clock_now; writeRequest (λ _ _, releaseLease leaseId now);
|}.

#[export] Instance repository_events ownerId agentId : ReliableEventPort SqliteProductStateRepository := {|
  event_append event := writeRequest (λ configuration freeBytes, appendEvent configuration freeBytes ownerId agentId event);
  event_listPending limit := request (λ _ _, listPendingEvents ownerId agentId limit);
  event_markPublished eventId publishedAt :=
    writeRequest (λ configuration freeBytes, markEventPublished configuration freeBytes ownerId agentId eventId publishedAt);
|}.

#[export] Instance repository_outbox : ReliableEventOutbox SqliteProductStateRepository := {|
  outbox_claim input := writeRequest (λ configuration freeBytes, claimEvents configuration freeBytes input);
  outbox_acknowledge input := writeRequest (λ configuration freeBytes, acknowledgeEvent configuration freeBytes input);
|}.

Definition consumeOnce (consumerId eventId processedAt : string) : Rp bool :=
  writeRequest (λ configuration freeBytes, consumeEventOnce configuration freeBytes consumerId eventId processedAt).

Definition readScopedState_request (ownerId : OwnerId) (agentId : AgentId) (key : string) : Rp (option StateRecord) :=
  readRequest (λ _ _, readScopedState ownerId agentId key).

Definition saveDeployment_request (deployment : DurableState.DeploymentAuthorityState) (expectedRevision : Z)
    : Rp DurableState.DeploymentAuthorityState :=
  writeRequest (λ configuration freeBytes, saveDeployment configuration freeBytes deployment expectedRevision).

(** ** What a request does *)
Lemma request_run {A} (operation : SqliteWorkerConfiguration → Z → Wk A) w r w' : request operation w = (r, w') →
  rp_exited w = true ∧ w' = w ∧ is_ok r = false ∨
  rp_exited w = false ∧ ∃ r0 d, operation (rp_configuration w) (rp_freeBytes w) (rp_database w) = (r0, d) ∧
    rp_database w' = d ∧ rp_closed w' = rp_closed w ∧ rp_queuedWriters w' = rp_queuedWriters w ∧
    (∀ a, r = Ok a ↔ r0 = Ok a).
Proof.
  unfold request, worker_run, mbind, M_bind, gets, throwM_if, lift. destruct (rp_exited w) eqn:Ex; cbn.
  - intros E. injection E as <- <-. left. by repeat split.
  - intros E. right. split; [done|]. destruct (operation _ _ _) as [[a|x] d] eqn:Eo; injection E as <- <-;
      eexists _, d; (split; [reflexivity|]); repeat split; naive_solver.
Qed.

(** A write leaves the number of waiting writers as it was, whatever it ends with,
    and a repository that is closed, or whose worker ended, does nothing. *)
Lemma write_run {A} (operation : SqliteWorkerConfiguration → Z → Wk A) w r w' : writeRequest operation w = (r, w') →
  rp_queuedWriters w' = rp_queuedWriters w ∧ rp_closed w' = rp_closed w ∧
  (rp_database w' = rp_database w ∧ is_ok r = false ∨
   ∃ r0 d, operation (rp_configuration w) (rp_freeBytes w) (rp_database w) = (r0, d) ∧ rp_database w' = d ∧
     (∀ a, r = Ok a ↔ r0 = Ok a)).
Proof.
  unfold writeRequest, assertOpen, try_finally, modify. intros E. unfold mbind, M_bind, gets, throwM_if, lift in E.
  destruct (rp_closed w) eqn:Ec; cbn in E; [injection E as <- <-; split; [done|]; split; [done|]; by left|].
  destruct (request operation _) as [r1 w1] eqn:Er. apply request_run in Er. injection E as <- <-. cbn in *.
  destruct Er as [(_ & -> & Hr)|(_ & r0 & d & Ho & Hd & Hc & Hq & Hok)]; cbn.
  - split; [lia|]. split; [done|]. by left.
  - split; [lia|]. split; [congruence|]. right. by exists r0, d.
Qed.
End repository.

(** ** The publisher *)
Section publisher.
Context {W : Type} `{!ReliableEventOutbox W, !ReliableEventSinkPort W, !ClockPort W}.
Context (view : W → sink_state) (inv : W → Prop) `{!SinkLaws W view inv}.
Context (clock_frame : gen_frame_law sink_step view inv clock_now)
  (acknowledge_frame : ∀ input, gen_frame_law sink_step view inv (outbox_acknowledge input))
  (acknowledge_id : ∀ input w r w', outbox_acknowledge input w = (Ok r, w') → er_id r = ak_eventId input).

(** What is acknowledged has been delivered: each record that is returned is one of
    a claimed event the sink has taken. *)
Lemma publish_claims_delivered claimId claims w records w' : inv w →
  publish_claims claimId claims w = (Ok records, w') →
  inv w' ∧ rtc sink_step (view w) (view w') ∧ List.length records = List.length claims ∧
  ∀ r, r ∈ records → ∃ c, c ∈ claims ∧ er_id r = er_id (rc_event c) ∧ view w' !! er_id r = Some (rc_event c).
Proof.
  revert w records w'. induction claims as [|c claims IH]; intros w records w' Hi E; cbn in E.
  { injection E as <- <-. split; [done|]. split; [done|]. split; [done|]. intros r Hr. by apply elem_of_nil in Hr. }
  apply M_bind_Ok in E as (delivery & w1 & Ep & E). apply M_bind_Ok in E as (t & w2 & Et & E).
  apply M_bind_Ok in E as (record & w3 & Ea & E). apply M_bind_Ok in E as (rest & w4 & Er & E). injection E as <- <-.
  destruct (op_law_Ok _ _ _ _ _ _ _ _ (law_publish _) Hi Ep) as (Hi1 & s & Hs1 & [_ He]).
  destruct (clock_frame _ _ _ Hi1 Et) as [Hi2 Hs2]. destruct (acknowledge_frame _ _ _ _ Hi2 Ea) as [Hi3 Hs3].
  destruct (IH _ _ _ Hi3 Er) as (Hi4 & Hs4 & Hl & Hall).
  assert (Htaken : view w1 !! er_id (rc_event c) = Some (rc_event c) ∧ rtc sink_step s (view w1)).
  { destruct (s !! er_id (rc_event c)) as [existing|] eqn:Hex.
    - destruct He as (-> & _ & ->). by split.
    - destruct He as [Ho He]. split; [rewrite He; apply lookup_insert_eq|]. apply rtc_once.
      eapply (sink_published _ _ (rc_event c) (mkEventDelivery (er_id (rc_event c)) (ed_outcome delivery))).
      split; [done|]. by rewrite Hex. }
  destruct Htaken as [Htaken Hs1']. split; [done|].
  assert (rtc sink_step (view w1) (view w4)) as Hlater by (etrans; [exact Hs2|]; by etrans).
  split; [etrans; [exact Hs1|]; by etrans|]. split; [cbn; lia|]. intros r [->|Hr]%elem_of_cons.
  - exists c. split; [by left|]. rewrite (acknowledge_id _ _ _ _ Ea). split; [done|]. by eapply sink_steps_keep.
  - destruct (Hall _ Hr) as (c0 & Hc0 & ? & ?). exists c0. split; [by right|done].
Qed.
End publisher.

(** The worker's outbox names the event it acknowledged. *)
Lemma acknowledgeEvent_id configuration freeBytes input d r d' :
  acknowledgeEvent configuration freeBytes input d = (Ok r, d') → er_id r = ak_eventId input.
Proof.
  unfold acknowledgeEvent. intros E. run_Ok. destruct (event_row _ _) as [row|] eqn:Er; run_Ok.
  apply get_elem in Er as [_ Hk%bool_decide_eq_true]. destruct (negb _); run_Ok; done.
Qed.

Lemma repository_acknowledge_id input w r w' :
  outbox_acknowledge input w = (Ok r, w' : SqliteProductStateRepository) → er_id r = ak_eventId input.
Proof.
  intros E. apply write_run in E as (_ & _ & [[_ Hr]|(r0 & d & Ho & _ & Hok)]); [done|].
  assert (r0 = Ok r) as -> by by apply Hok. by eapply acknowledgeEvent_id.
Qed.

(** ** A concrete database, at which the theorems on the worker apply, and a
    command whose replay reports a later state than its first answer. *)

#[local] Instance sample_sha : Sha256 := λ s, s.

Definition worker_configuration : SqliteWorkerConfiguration := mkWorkerConfiguration 1000 None.
Definition crashing_configuration : SqliteWorkerConfiguration := mkWorkerConfiguration 1000 (Some after_commit).

Definition sample_deployment : DeploymentAuthorityState :=
  mkDeployment "deployment" "owner" "agent" 1 deployment_active 1 1 None.

Definition sample_database : Database :=
  mkDatabase ["owner"] ["agent"] [mkPayloadRow "payload" "owner" "agent" data_private] [] [] [] [] [] [sample_deployment] [] [] [] [] []
    [] [] [] [] [] [] [].

Definition time_0 := "2026-01-01T12:00:00.000Z".
Definition time_1 := "2026-01-01T12:00:10.000Z".
Definition time_2 := "2026-01-01T12:00:20.000Z".

Definition lease_1 : AgentAuthorityLease := mkLease "lease-1" "agent" "owner" "host-1".
Definition lease_2 : AgentAuthorityLease := mkLease "lease-2" "agent" "owner" "host-2".

(** The first lease is released, the second one is claimed. *)
Definition database_1 : Database := Eval vm_compute in (claimLease worker_configuration 5000 lease_1 60000 time_0 sample_database).2.
Definition database_2 : Database := Eval vm_compute in (releaseLease "lease-1" time_1 database_1).2.
Definition database_3 : Database := Eval vm_compute in (claimLease worker_configuration 5000 lease_2 60000 time_1 database_2).2.

Definition command_of (key lease : string) (token : Z) : IdempotentAgentCommand :=
  mkCommand (mkLookup "owner" "agent" key) "state.put" "fingerprint" (mkFence lease token).

Definition put (key lease : string) (token : Z) (expected : option Z) (n : Z) (events : list ReliableEvent)
    : CommitStateAndEventsInput :=
  mkCommit (command_of key lease token) (mkCas "state" expected [("n", JNum n)]) events "result" time_2.

Definition event_of (id key : string) : ReliableEvent := mkEvent id key "topic" "payload" time_2.

Definition first_put := put "key-1" "lease-2" 2 None 1 [event_of "event-1" "key-1"].
Definition second_put := put "key-2" "lease-2" 2 (Some 1) 2 [event_of "event-2" "key-2"].
Definition stale_put := put "key-3" "lease-1" 1 None 3 [].

Definition database_4 : Database := Eval vm_compute in (commitStateAndEvents worker_configuration 5000 first_put time_2 database_3).2.
Definition database_5 : Database := Eval vm_compute in (commitStateAndEvents worker_configuration 5000 second_put time_2 database_4).2.

Definition first_answer : CommitStateAndEventsResult :=
  mkCommitResult (mkStateRecord "state" 1 [("n", JNum 1)]) [mkEventRecord (event_of "event-1" "key-1") None]
    (mkCommandResult (mkLookup "owner" "agent" "key-1") "state.put" "fingerprint" "result" "state" 1 time_2) false.

Lemma first_put_run : commitStateAndEvents worker_configuration 5000 first_put time_2 database_3 = (Ok first_answer, database_4).
Proof. vm_compute. reflexivity. Qed.

Lemma second_put_run : (commitStateAndEvents worker_configuration 5000 second_put time_2 database_4).2 = database_5.
Proof. vm_compute. reflexivity. Qed.

(** The same command again: the in-memory repository returns the record the command
    wrote, the SQLite worker the record as it is by then. *)
Lemma replay_reports_later_state : ∃ a, commitStateAndEvents worker_configuration 5000 first_put time_2 database_5 = (Ok a, database_5) ∧
  cm_replayed a = true ∧ cm_state first_answer = mkStateRecord "state" 1 [("n", JNum 1)] ∧
  cm_state a = mkStateRecord "state" 2 [("n", JNum 2)].
Proof. eexists. split; [vm_compute; reflexivity|]. by split. Qed.

(** *** The invariants hold here *)
Lemma sample_authority_wf : db_authority_wf sample_database.
Proof.
  assert (Hnil : ∀ l : LeaseRow, l ∉ t_leases sample_database) by (intros l; apply not_elem_of_nil).
  split; cbn.
  - apply NoDup_singleton.
  - by intros x y ->%list_elem_of_singleton ->%list_elem_of_singleton.
  - constructor.
  - intros l Hl. by destruct (Hnil l).
  - intros l c Hl. by destruct (Hnil l).
  - intros l c Hl. by destruct (Hnil l).
Qed.

Lemma sample_records_wf : records_wf sample_database.
Proof. split; cbn; try apply NoDup_nil_2; intros r Hr; by apply elem_of_nil in Hr. Qed.

Lemma step_at_db now d d' : rtc (db_step now) d d' → db_steps d d'.
Proof. induction 1 as [|d d1 d2 Hs _ IH]; [apply rtc_refl|]. eapply rtc_l; [by exists now|done]. Qed.

Lemma value_wf n : json_wf (JObj [("n", JNum n)]).
Proof. apply json_wf_obj. split; [apply NoDup_singleton|]. by repeat constructor. Qed.

Lemma claim_1_steps : db_steps sample_database database_1.
Proof.
  apply (step_at_db time_0). eapply (claimLease_steps worker_configuration 5000 lease_1 60000 time_0). vm_compute. reflexivity.
Qed.

Lemma to_database_3 : db_steps database_1 database_3.
Proof.
  transitivity database_2.
  - apply (step_at_db time_1). eapply (releaseLease_steps "lease-1" time_1). vm_compute. reflexivity.
  - apply (step_at_db time_1). eapply (claimLease_steps worker_configuration 5000 lease_2 60000 time_1). vm_compute. reflexivity.
Qed.

Lemma to_database_5 : db_steps database_4 database_5.
Proof.
  apply (step_at_db time_2). eapply (commit_steps worker_configuration 5000 second_put time_2); [apply value_wf|]. vm_compute. reflexivity.
Qed.

Lemma database_3_records : records_wf database_3.
Proof.
  eapply steps_records_wf; [etrans; [exact claim_1_steps|exact to_database_3]|exact sample_records_wf].
Qed.

Lemma database_3_authority : db_authority_wf database_3.
Proof.
  eapply steps_authority_wf; [etrans; [exact claim_1_steps|exact to_database_3]|exact sample_authority_wf].
Qed.

Lemma database_4_records : records_wf database_4.
Proof.
  eapply steps_records_wf; [|exact database_3_records]. apply (step_at_db time_2).
  eapply (commit_steps worker_configuration 5000 first_put time_2); [apply value_wf|exact first_put_run].
Qed.

(** *** The theorems apply *)
Lemma crashed_run : commitStateAndEvents crashing_configuration 5000 first_put time_2 database_3 = (Err (process_exit 86), database_4).
Proof. vm_compute. reflexivity. Qed.

Lemma first_put_new : result_row (cmd_lookup (ci_command first_put)) database_3 = None.
Proof. vm_compute. reflexivity. Qed.

Lemma sqlite_commit_decides_witness : ∃ a, commitStateAndEvents worker_configuration 5000 first_put time_2 database_4 = (Ok a, database_4) ∧
  cm_replayed a = true.
Proof.
  pose proof (sqlite_commit_decides crashing_configuration 5000 first_put time_2 database_3 _ _ database_3_records (value_wf 1) crashed_run) as [_ H].
  rewrite first_put_new in H. destruct H as [[Heq _]|(row & _ & _ & [(a & Ha & _)|(_ & _ & H)])].
  - apply (f_equal (λ d, List.length (t_states d))) in Heq. discriminate Heq.
  - discriminate Ha.
  - destruct (H worker_configuration 5000 time_2) as (a & Ha & Han). exists a. split; [exact Ha|]. exact (an_replayed _ _ _ _ Han).
Defined.

Lemma sqlite_command_once_witness :
  (commitStateAndEvents worker_configuration 0 first_put time_0 database_5).2 = database_5.
Proof.
  destruct (commitStateAndEvents worker_configuration 0 first_put time_0 database_5) as [r d] eqn:E.
  exact (proj1 (sqlite_command_once _ _ first_put _ _ _ _ _ _ _ first_put _ _ _ database_3_records (value_wf 1) first_put_run to_database_5 eq_refl E)).
Defined.

Definition row_1 : LeaseRow := mkLeaseRow "lease-1" "owner" "agent" "deployment" "host-1" 1 1 time_0 "2026-01-01T12:01:00.000Z" None.
Definition row_1' : LeaseRow := row_1 <| le_releasedAt := Some time_1 |>.
Definition row_2 : LeaseRow := mkLeaseRow "lease-2" "owner" "agent" "deployment" "host-2" 1 2 time_1 "2026-01-01T12:01:10.000Z" None.

Lemma rows_of_3 : t_leases database_3 = [row_1'; row_2].
Proof. vm_compute. reflexivity. Qed.

Lemma rows_of_1 : t_leases database_1 = [row_1].
Proof. vm_compute. reflexivity. Qed.

Lemma sqlite_last_lease_writes_witness :
  (commitStateAndEvents worker_configuration 5000 stale_put time_2 database_3).2 = database_3 ∧
  ∃ l, authorizes first_put time_2 l database_3.
Proof.
  split.
  - destruct (commitStateAndEvents worker_configuration 5000 stale_put time_2 database_3) as [r d] eqn:E.
    refine (proj2 (sqlite_last_lease_writes _ _ _ _ _ _ _ database_3_authority E) database_3 row_1' row_2 database_3_authority (rtc_refl _ _) _ _ eq_refl _ eq_refl).
    + rewrite rows_of_3. by left.
    + rewrite rows_of_3. right. by left.
    + done.
  - destruct (proj1 (sqlite_last_lease_writes _ _ _ _ _ _ _ database_3_authority first_put_run)) as (l & Hl & _); [|by exists l].
    intros Heq. apply (f_equal (λ d, List.length (t_states d))) in Heq. discriminate Heq.
Defined.

Definition record_1 : AuthorityLeaseRecord := leaseFromRow row_1.

Lemma claim_1_run : claimLease worker_configuration 5000 lease_1 60000 time_0 sample_database = (Ok record_1, database_1).
Proof. vm_compute. reflexivity. Qed.

Lemma sqlite_claims_exclusive_witness : lr_lease record_1 = lease_1 ∧ live_unique time_0 database_1.
Proof.
  destruct (sqlite_claims_exclusive _ _ _ _ _ _ _ _ sample_authority_wf claim_1_run) as [[[Heq _]|(_ & _ & Hl & _)] Hu].
  - apply (f_equal (λ d, List.length (t_leases d))) in Heq. discriminate Heq.
  - split; [exact Hl|]. apply (Hu time_0 sample_database sample_authority_wf); [|apply timed_refl].
    intros l c Hin. exfalso. exact (not_elem_of_nil _ Hin).
Defined.

Definition claim_a : ClaimEventsInput := mkClaimEvents "owner" "agent" "claim-a" time_0 time_2 10.
Definition claim_b : ClaimEventsInput := mkClaimEvents "owner" "agent" "claim-b" time_1 time_2 10.
Definition claims_a : list ReliableEventClaim := [mkClaim "claim-a" time_2 (mkEventRecord (event_of "event-1" "key-1") None)].
Definition database_6 : Database := Eval vm_compute in (claimEvents worker_configuration 5000 claim_a database_4).2.

Lemma claim_a_run : claimEvents worker_configuration 5000 claim_a database_4 = (Ok claims_a, database_6).
Proof. vm_compute. reflexivity. Qed.

Lemma claim_b_run : claimEvents worker_configuration 5000 claim_b database_6 = (Ok [], database_6).
Proof. vm_compute. reflexivity. Qed.

Lemma sqlite_claims_hold_witness :
  (acknowledgeEvent worker_configuration 5000 (mkAcknowledge "event-1" "claim-b" time_1 "x") database_6).2 = database_6 ∧
  is_ok (acknowledgeEvent worker_configuration 5000 (mkAcknowledge "event-1" "claim-a" time_1 "x") database_6).1 = true.
Proof.
  destruct (sqlite_claims_hold _ _ _ _ _ _ database_4_records claim_a_run) as (_ & _ & _ & H).
  destruct (H database_6 worker_configuration 5000 (rtc_refl _ _)) as [_ Hack]. split.
  - destruct (acknowledgeEvent worker_configuration 5000 (mkAcknowledge "event-1" "claim-b" time_1 "x") database_6) as [r d] eqn:E.
    refine (proj1 (Hack _ _ _ _ _ _ _ E) _); [by left|done|done|done].
  - destruct (acknowledgeEvent worker_configuration 5000 (mkAcknowledge "event-1" "claim-a" time_1 "x") database_6) as [r d] eqn:E.
    refine (proj2 (Hack _ _ _ _ _ _ _ E) _ _ _); [by left|done|done|done|done|vm_compute; reflexivity].
Defined.
