(* ===== verification/RunDispatch.v ===== *)
(** packages/persistence-sqlite/src/sqlite-run-dispatch-operations.ts (with the
    data of packages/application/src/ports/run-dispatch.ts): which Runs may be
    executed or need to be reconciled, the lease under which one consumer
    executes a Run, and the quarantine of a Run whose effects are not known. *)
From S2P Require Import Prelude Js JsDate JsJson JsParse Identifiers Entities.
From S2P Require Import Coordination Persistence RunCoordination DurableState Sqlite SqliteSchema.
Local Open Scope Z_scope.

(** ** Data *)
Record RunExecutionLease := mkRunLease {
  hd_ownerId : OwnerId; hd_agentId : AgentId; hd_runId : RunId; hd_authorityLeaseId : AuthorityLeaseId;
  hd_deploymentId : DeploymentId; hd_authorityEpoch : Z; hd_fencingToken : Z; hd_consumerId : string;
  hd_executionLeaseId : string; hd_revision : Z; hd_claimedAt : string; hd_expiresAt : string;
  hd_releasedAt : option string }.

Record RunExecutionLeaseReceipt := mkLeaseReceipt { hr_lease : RunExecutionLease; hr_replayed : bool }.

Definition claimFromRunExecutionLease (lease : RunExecutionLease) : result failure RunExecutionLeaseClaim :=
  throw_if (negb (is_none (hd_releasedAt lease))) (type_error "Cannot claim from a released execution lease") ;;
  Ok (mkLeaseClaim (hd_executionLeaseId lease) (hd_revision lease) (hd_authorityLeaseId lease) (hd_fencingToken lease)
        (hd_deploymentId lease) (hd_authorityEpoch lease) (hd_fencingToken lease) (hd_consumerId lease)).

Inductive RunDispatchAction := action_start | action_resume | action_reconcile.

Record RunDispatchCandidate := mkCandidate {
  dx_ownerId : OwnerId; dx_agentId : AgentId; dx_runId : RunId; dx_sessionId : string; dx_triggerId : string;
  dx_threadId : option ThreadId; dx_runRevision : Z; dx_runStatus : RunStatus;
  dx_checkpointPhase : option RunCheckpointPhase; dx_leaseRevision : Z; dx_action : RunDispatchAction }.

Record RunListInput := mkRunList { li_now : string; li_limit : Z }.
Record RunClaimInput := mkRunClaim {
  qc_runId : RunId; qc_expectedRunRevision : Z; qc_expectedLeaseRevision : Z; qc_executionLeaseId : string;
  qc_claimedAt : string; qc_expiresAt : string }.
Record RunRenewInput := mkRunRenew {
  qw_runId : RunId; qw_expectedLeaseRevision : Z; qw_executionLeaseId : string; qw_renewedAt : string;
  qw_expiresAt : string }.
Record RunReleaseInput := mkRunRelease {
  qe_runId : RunId; qe_expectedLeaseRevision : Z; qe_executionLeaseId : string; qe_releasedAt : string }.
Record RunQuarantineInput := mkRunQuarantine {
  qn_runId : RunId; qn_expectedRunRevision : Z; qn_expectedLeaseRevision : Z; qn_executionLeaseId : option string;
  qn_reasonCode : string; qn_at : string }.

(** The scope a request is bound to, but for the consumer. *)
Record RunScope := mkRunScope {
  sc_ownerId : OwnerId; sc_agentId : AgentId; sc_authority : ProductAuthorityFence; sc_authorityLease : AuthorityFence }.

(** ** Fields *)
Definition dispatch_text (value field : string) : result failure string :=
  throw_if (value === "") (type_error (field +:+ " must be a nonempty string")) ;;
  Ok value.

Definition dispatch_machineText (value field : string) : result failure string :=
  result ← dispatch_text value field;
  throw_if (negb (MACHINE_IDENTIFIER_PATTERN result)) (type_error (field +:+ " must be a machine identifier")) ;;
  Ok result.

Definition safeInteger (value : Z) (field : string) (minimum : Z) : result failure Z :=
  throw_if (negb (isSafeInteger value) || (value <? minimum))
    (type_error (field +:+ " must be a safe integer >= " +:+ numToString minimum)) ;;
  Ok value.

Definition dispatch_instant (value field : string) : result failure string :=
  result ← dispatch_text value field;
  throw_if (is_none (dateParse result)) (type_error (field +:+ " must be an ISO time")) ;;
  Ok result.

(** Both [isAfter]s. *)
Definition isAfter (value boundary : string) : bool :=
  match dateParse value, dateParse boundary with Some v, Some b => b <? v | _, _ => false end.

Definition isAtOrAfter (value boundary : string) : bool :=
  match dateParse value, dateParse boundary with Some v, Some b => b <=? v | _, _ => false end.

Definition assertTimeOrder (earlier later field : string) : result failure unit :=
  throw_if (negb (isAfter later earlier)) (type_error (field +:+ " must be after its start time")).

(** [createOwnerId] and the like throw a [DomainError]. *)
Definition identified (value kind : string) : result failure string :=
  match createIdentifier value kind with Ok v => Ok v | Err e => Err (plain_error (de_message e)) end.

(** The constructor of [SqliteRunDispatchOperations]. *)
Definition dispatch_scope (scope : RunScope) (consumerId : string) : result failure unit :=
  identified (sc_ownerId scope) "OwnerId" ;;
  identified (sc_agentId scope) "AgentId" ;;
  identified (fence_deploymentId (sc_authority scope)) "DeploymentId" ;;
  safeInteger (fence_authorityEpoch (sc_authority scope)) "authorityEpoch" 1 ;;
  safeInteger (fence_fencingToken (sc_authority scope)) "fencingToken" 1 ;;
  identified (af_leaseId (sc_authorityLease scope)) "AuthorityLeaseId" ;;
  safeInteger (af_fencingToken (sc_authorityLease scope)) "lease.fencingToken" 1 ;;
  dispatch_machineText consumerId "consumerId" ;;
  Ok tt.

(** The fields a request about a lease begins with. *)
Definition parse_run (runId : RunId) : result failure unit :=
  dispatch_machineText runId "runId" ;;
  identified runId "RunId" ;;
  Ok tt.
Definition parse_lease (runId : RunId) (expectedLeaseRevision : Z) (executionLeaseId : string) : result failure unit :=
  parse_run runId ;;
  safeInteger expectedLeaseRevision "expectedLeaseRevision" 0 ;;
  dispatch_machineText executionLeaseId "executionLeaseId" ;;
  Ok tt.

(** ** The authority of a request *)
Definition authority_row (scope : RunScope) (d : Database) : option (LeaseRow * DeploymentAuthorityState) :=
  lease ← get_where (λ r, (le_id r === af_leaseId (sc_authorityLease scope)) && (le_ownerId r === sc_ownerId scope)
            && (le_agentId r === sc_agentId scope)) (t_leases d);
  deployment ← get_where (λ r, (dep_id r === le_deploymentId lease) && (dep_ownerId r === le_ownerId lease)
                 && (dep_agentId r === le_agentId lease)) (t_deployments d);
  Some (lease, deployment).

(** The fence is stale, or the lease has ended. *)
Definition authority_stale (scope : RunScope) (now : string) (lease : LeaseRow) (deployment : DeploymentAuthorityState)
    : bool :=
  (dep_status deployment !== deployment_active) || negb (is_none (le_releasedAt lease))
  || negb (isAfter (le_expiresAt lease) now)
  || (le_deploymentId lease !== fence_deploymentId (sc_authority scope))
  || (le_authorityEpoch lease !== fence_authorityEpoch (sc_authority scope))
  || (le_authorityEpoch lease !== dep_authorityEpoch deployment)
  || (le_fencingToken lease !== fence_fencingToken (sc_authority scope))
  || (le_fencingToken lease !== af_fencingToken (sc_authorityLease scope))
  || (dep_fencingToken deployment !== fence_fencingToken (sc_authority scope)).

Definition dispatch_assertCurrentAuthority (scope : RunScope) (now : string) : Wk unit :=
  row ← gets (authority_row scope);
  match row with
  | None => throw (applicationFailure NOT_AUTHORITATIVE "Authority lease is outside the bound scope" [])
  | Some (lease, deployment) =>
      lift (safeInteger (le_authorityEpoch lease) "authority_epoch" 0) ;;
      lift (safeInteger (le_fencingToken lease) "fencing_token" 0) ;;
      lift (safeInteger (dep_authorityEpoch deployment) "deployment_epoch" 0) ;;
      lift (safeInteger (dep_fencingToken deployment) "deployment_fencing_token" 0) ;;
      throwM_if (authority_stale scope now lease deployment)
        (applicationFailure NOT_AUTHORITATIVE "Authority fence is stale or expired"
           [("deploymentId", fence_deploymentId (sc_authority scope))])
  end.

(** ** The execution lease of a Run *)
Definition parseLease (row : ExecutionLeaseRow) : result failure ExecutionLeaseRow :=
  dispatch_text (xl_ownerId row) "owner_id" ;;
  dispatch_text (xl_agentId row) "agent_id" ;;
  dispatch_text (xl_runId row) "run_id" ;;
  safeInteger (xl_revision row) "revision" 0 ;;
  dispatch_text (xl_authorityLeaseId row) "authority_lease_id" ;;
  dispatch_text (xl_deploymentId row) "deployment_id" ;;
  safeInteger (xl_authorityEpoch row) "authority_epoch" 1 ;;
  safeInteger (xl_fencingToken row) "fencing_token" 1 ;;
  dispatch_text (xl_consumerId row) "consumer_id" ;;
  dispatch_text (xl_executionLeaseId row) "execution_lease_id" ;;
  dispatch_text (xl_claimedAt row) "claimed_at" ;;
  dispatch_text (xl_initialExpiresAt row) "initial_expires_at" ;;
  dispatch_text (xl_expiresAt row) "expires_at" ;;
  match xl_releasedAt row with None => Ok tt | Some t => dispatch_text t "released_at" ;; Ok tt end ;;
  Ok row.

Definition readLease (scope : RunScope) (runId : RunId) : Wk (option ExecutionLeaseRow) :=
  row ← gets (λ d, get_where (λ r, (xl_ownerId r === sc_ownerId scope) && (xl_agentId r === sc_agentId scope)
                && (xl_runId r === runId)) (t_executionLeases d));
  match row with None => mret None | Some row => row ← lift (parseLease row); mret (Some row) end.

(** [assertLeaseScope(row, true)] *)
Definition assertLeaseScope (scope : RunScope) (consumerId : string) (row : ExecutionLeaseRow) : result failure unit :=
  throw_if ((xl_authorityLeaseId row !== af_leaseId (sc_authorityLease scope))
            || (xl_deploymentId row !== fence_deploymentId (sc_authority scope))
            || (xl_authorityEpoch row !== fence_authorityEpoch (sc_authority scope))
            || (xl_fencingToken row !== fence_fencingToken (sc_authority scope))
            || (xl_fencingToken row !== af_fencingToken (sc_authorityLease scope)))
    (applicationFailure NOT_AUTHORITATIVE "Execution lease authority is stale" [("runId", xl_runId row)]) ;;
  throw_if (xl_consumerId row !== consumerId)
    (applicationFailure CONFLICT "Execution lease belongs to another consumer" [("runId", xl_runId row)]).

Definition lease_outside (runId : RunId) : failure :=
  applicationFailure NOT_AUTHORITATIVE "Run is outside the bound scope" [("runId", runId)].
Definition lease_conflict (message : string) (runId : RunId) : failure :=
  applicationFailure CONFLICT message [("runId", runId)].

Definition readLeaseByExecutionId (executionLeaseId : string) : Wk (option ExecutionLeaseRow) :=
  row ← gets (λ d, get_where (λ r, xl_executionLeaseId r === executionLeaseId) (t_executionLeases d));
  match row with None => mret None | Some row => row ← lift (parseLease row); mret (Some row) end.

Definition toLease (row : ExecutionLeaseRow) : result failure RunExecutionLease :=
  identified (xl_ownerId row) "OwnerId" ;;
  identified (xl_agentId row) "AgentId" ;;
  identified (xl_runId row) "RunId" ;;
  identified (xl_authorityLeaseId row) "AuthorityLeaseId" ;;
  identified (xl_deploymentId row) "DeploymentId" ;;
  identified (xl_executionLeaseId row) "RunExecutionLeaseId" ;;
  Ok (mkRunLease (xl_ownerId row) (xl_agentId row) (xl_runId row) (xl_authorityLeaseId row) (xl_deploymentId row)
        (xl_authorityEpoch row) (xl_fencingToken row) (xl_consumerId row) (xl_executionLeaseId row) (xl_revision row)
        (xl_claimedAt row) (xl_expiresAt row) (xl_releasedAt row)).

(** ** A Run joined with its checkpoint, its lease and its turns

    [current_turn] has a group for each Thread the turns of a Run are in. *)
Record JoinedRun := mkJoined {
  jo_run : RunRow; jo_checkpoint : option CheckpointRow; jo_lease : option ExecutionLeaseRow;
  jo_turn : option (option ThreadId * Z) }.

Definition jo_phase (row : JoinedRun) : option RunCheckpointPhase := kp_phase <$> jo_checkpoint row.
Definition jo_leaseRevision (row : JoinedRun) : Z := match jo_lease row with Some l => xl_revision l | None => 0 end.
Definition jo_turnIndex (row : JoinedRun) : option Z := snd <$> jo_turn row.

Definition minimum (n : Z) (l : list Z) : Z := foldr Z.min n l.

Definition turn_groups (run : RunRow) (d : Database) : list (option ThreadId * Z) :=
  let turns := all_where (λ t, (tu_runId t === ru_id run) && (tu_ownerId t === ru_ownerId run)
                           && (tu_agentId t === ru_agentId run)) (t_turns d) in
  (λ thread, (thread, match tu_turnIndex <$> all_where (λ t, tu_threadId t === thread) turns with
                      | [] => 0 | n :: l => minimum n l end)) <$> remove_dups (tu_threadId <$> turns).

Definition joined (run : RunRow) (d : Database) : list JoinedRun :=
  let checkpoint := get_where (λ c, (kp_runId c === ru_id run) && (kp_ownerId c === ru_ownerId run)
                                && (kp_agentId c === ru_agentId run)) (t_checkpoints d) in
  let lease := get_where (λ l, (xl_runId l === ru_id run) && (xl_ownerId l === ru_ownerId run)
                           && (xl_agentId l === ru_agentId run)) (t_executionLeases d) in
  match turn_groups run d with
  | [] => [mkJoined run checkpoint lease None]
  | groups => (λ turn, mkJoined run checkpoint lease (Some turn)) <$> groups
  end.

(** The joined rows of the Runs of the scope. *)
Definition joined_runs (scope : RunScope) (d : Database) : list JoinedRun :=
  flat_map (λ run, joined run d)
    (all_where (λ r, (ru_ownerId r === sc_ownerId scope) && (ru_agentId r === sc_agentId scope)) (t_runs d)).

(** What [readRun] and [candidate] read of a row after its identifiers. *)
Definition parse_joined_rest (row : JoinedRun) : result failure unit :=
  let run := jo_run row in
  dispatch_text (ru_sessionId run) "session_id" ;;
  dispatch_text (ru_triggerId run) "trigger_id" ;;
  match ru_threadId run with None => Ok tt | Some t => dispatch_text t "thread_id" ;; Ok tt end ;;
  safeInteger (ru_revision run) "revision" 0 ;;
  safeInteger (jo_leaseRevision row) "lease_revision" 0 ;;
  Ok tt.

Definition parse_joined (row : JoinedRun) : result failure unit :=
  dispatch_text (ru_id (jo_run row)) "id" ;;
  dispatch_text (ru_ownerId (jo_run row)) "owner_id" ;;
  dispatch_text (ru_agentId (jo_run row)) "agent_id" ;;
  parse_joined_rest row ;;
  match jo_turnIndex row with None => Ok tt | Some n => safeInteger n "turn_index" 0 ;; Ok tt end.

Definition readRun (scope : RunScope) (runId : RunId) : Wk (option JoinedRun) :=
  row ← gets (λ d, get_where (λ row, ru_id (jo_run row) === runId) (joined_runs scope d));
  match row with
  | None => mret None
  | Some row =>
      lift (parse_joined row) ;;
      mret (Some row)
  end.

(** [json_extract(suspension_json, '$.a.b')], where it is a text. *)
Fixpoint json_path (path : list string) (j : json) : option string :=
  match path, j with
  | [], JStr s => Some s
  | name :: path, JObj members => j ← map_get name members; json_path path j
  | _, _ => None
  end.
Definition suspension_text (path : list string) (c : CheckpointRow) : option string :=
  s ← kp_suspensionJson c; j ← JSON_parse s; json_path path j.

(** The approval has expired, or the time for the execution has. *)
Definition approval_due (now : string) (c : CheckpointRow) : bool :=
  match suspension_text ["approval"; "expiresAt"] c with
  | None => false
  | Some expiresAt =>
      let deadline := match suspension_text ["executionDeadlineAt"] c with Some t => t | None => expiresAt end in
      str_le (if str_lt deadline expiresAt then deadline else expiresAt) now
  end.

Definition approval_ready (now : string) (d : Database) (c : CheckpointRow) : bool :=
  exists_where (λ a, (Some (ap_id a) === suspension_text ["approval"; "approvalRequestId"] c)
    && (ap_ownerId a === kp_ownerId c) && (ap_agentId a === kp_agentId c) && (ap_runId a === kp_runId c)
    && (Some (ap_semanticSnapshotHash a) === suspension_text ["approval"; "semanticSnapshotHash"] c)
    && ((ap_status a !== "pending") || approval_due now c)) (t_approvals d).

Definition executing (status : RunStatus) : bool :=
  includes status [accepted; building_context; running; reconciling_external_result].

(** An earlier turn of the Thread, among those of which [p] holds, has a Run that
    is still executing. *)
Definition earlier_executing (p : TurnRow → bool) (thread : ThreadId) (index : Z) (d : Database) : bool :=
  exists_where (λ t, p t && (tu_threadId t === Some thread) && (tu_turnIndex t <? index)
    && exists_where (λ r, (ru_id r === tu_runId t) && (ru_ownerId r === tu_ownerId t)
         && (ru_agentId r === tu_agentId t) && executing (ru_status r)) (t_runs d)) (t_turns d).

Definition reconcile_account (ownerId agentId : string) (runId : RunId) (d : Database) : bool :=
  exists_where (λ a, (ac_ownerId a === ownerId) && (ac_agentId a === agentId) && (ac_runId a === Some runId)
    && (ac_status a === account_reconcile_required)) (t_accounts d).

(** ** The lists *)
Definition RUN_DISPATCHABLE_STATUSES : list RunStatus := [accepted; building_context; running; awaiting_approval].
Definition RESUMABLE_CHECKPOINT_PHASES : list RunCheckpointPhase :=
  [phase_context_formed; phase_runtime_settled; phase_awaiting_approval].
Definition RECONCILIATION_CHECKPOINT_PHASES : list RunCheckpointPhase :=
  [phase_workers_running; phase_runtime_running; phase_reconciling_external_result].

Definition lease_over (now : string) (lease : option ExecutionLeaseRow) : bool :=
  match lease with None => true | Some l => negb (is_none (xl_releasedAt l)) || str_le (xl_expiresAt l) now end.

Definition run_reconciles (row : JoinedRun) (d : Database) : bool :=
  reconcile_account (ru_ownerId (jo_run row)) (ru_agentId (jo_run row)) (ru_id (jo_run row)) d.

Definition resumable (now : string) (row : JoinedRun) (d : Database) : bool :=
  match jo_checkpoint row with
  | None => ru_status (jo_run row) === accepted
  | Some c =>
      ((ru_status (jo_run row) === accepted) && (kp_phase c === phase_accepted))
      || includes (kp_phase c) [phase_context_formed; phase_runtime_settled]
      || ((kp_phase c === phase_awaiting_approval) && approval_ready now d c)
  end.

Definition claimable (now : string) (d : Database) (row : JoinedRun) : bool :=
  includes (ru_status (jo_run row)) RUN_DISPATCHABLE_STATUSES
  && resumable now row d && lease_over now (jo_lease row) && negb (run_reconciles row d)
  && match jo_turn row with
     | Some (Some thread, index) => negb (earlier_executing (λ _, true) thread index d)
     | _ => true
     end.

Definition needs_reconciling (now : string) (d : Database) (row : JoinedRun) : bool :=
  includes (ru_status (jo_run row)) [accepted; building_context; running; reconciling_external_result]
  && negb ((ru_status (jo_run row) === reconciling_external_result)
           && (jo_phase row === Some phase_reconciling_external_result))
  && (match jo_phase row with
      | Some phase => includes phase RECONCILIATION_CHECKPOINT_PHASES
      | None => includes (ru_status (jo_run row)) [building_context; running]
      end || run_reconciles row d)
  && lease_over now (jo_lease row).

(** [ORDER BY r.created_at, r.id] *)
Definition run_order (a b : JoinedRun) : Z :=
  match compareStrings (ru_createdAt (jo_run a)) (ru_createdAt (jo_run b)) with
  | 0 => compareStrings (ru_id (jo_run a)) (ru_id (jo_run b))
  | c => c
  end.

Definition candidate (reconciliation : bool) (row : JoinedRun) : result failure RunDispatchCandidate :=
  let run := jo_run row in
  dispatch_text (ru_ownerId run) "owner_id" ;;
  identified (ru_ownerId run) "OwnerId" ;;
  dispatch_text (ru_agentId run) "agent_id" ;;
  identified (ru_agentId run) "AgentId" ;;
  dispatch_text (ru_id run) "id" ;;
  identified (ru_id run) "RunId" ;;
  parse_joined_rest row ;;
  Ok (mkCandidate (ru_ownerId run) (ru_agentId run) (ru_id run) (ru_sessionId run) (ru_triggerId run) (ru_threadId run)
        (ru_revision run) (ru_status run) (jo_phase row) (jo_leaseRevision row)
        (if reconciliation then action_reconcile
         else if includes (jo_phase row) [None; Some phase_accepted] then action_start else action_resume)).

Fixpoint candidates (reconciliation : bool) (rows : list JoinedRun) : result failure (list RunDispatchCandidate) :=
  match rows with
  | [] => Ok []
  | row :: rows => c ← candidate reconciliation row; l ← candidates reconciliation rows; Ok (c :: l)
  end.

Definition listed (reconciliation : bool) (p : Database → JoinedRun → bool) (scope : RunScope) (input : RunListInput)
    : Wk (list RunDispatchCandidate) :=
  lift (dispatch_instant (li_now input) "now") ;;
  lift (safeInteger (li_limit input) "limit" 1) ;;
  dispatch_assertCurrentAuthority scope (li_now input) ;;
  rows ← gets (λ d, order_limit run_order (li_limit input) (all_where (p d) (joined_runs scope d)));
  lift (candidates reconciliation rows).

Definition listClaimable (scope : RunScope) (input : RunListInput) : Wk (list RunDispatchCandidate) :=
  listed false (claimable (li_now input)) scope input.
Definition listReconciliationRequired (scope : RunScope) (input : RunListInput) : Wk (list RunDispatchCandidate) :=
  listed true (needs_reconciling (li_now input)) scope input.

(** ** Claims *)
Definition live_at (at_ : string) (row : ExecutionLeaseRow) : bool :=
  is_none (xl_releasedAt row) && isAfter (xl_expiresAt row) at_.

Definition assertRunBudgetDispatchable (scope : RunScope) (runId : RunId) : Wk unit :=
  found ← gets (reconcile_account (sc_ownerId scope) (sc_agentId scope) runId);
  throwM_if found (lease_conflict "Run model budget requires reconciliation" runId).

Definition assertDispatchable (scope : RunScope) (row : JoinedRun) (now : string) : Wk unit :=
  let run := jo_run row in
  let conflict message := lease_conflict message (ru_id run) in
  (if jo_phase row === Some phase_awaiting_approval then
     ready ← gets (λ d, exists_where (λ c, (kp_runId c === ru_id run) && (kp_ownerId c === sc_ownerId scope)
               && (kp_agentId c === sc_agentId scope) && approval_ready now d c) (t_checkpoints d));
     throwM_if (negb ready) (conflict "Run approval is still pending")
   else mret tt) ;;
  throwM_if (negb (includes (ru_status run) RUN_DISPATCHABLE_STATUSES)) (conflict "Run is not execution-eligible") ;;
  throwM_if match jo_phase row with Some phase => includes phase RECONCILIATION_CHECKPOINT_PHASES | None => false end
    (conflict "Run requires external-result reconciliation") ;;
  throwM_if match jo_phase row with
            | Some phase => negb (includes phase RESUMABLE_CHECKPOINT_PHASES) && (phase !== phase_accepted)
            | None => false
            end (conflict "Run checkpoint is not claimable") ;;
  throwM_if (is_none (jo_phase row) && (ru_status run !== accepted)) (conflict "Run lacks a durable dispatch checkpoint") ;;
  match ru_threadId run, jo_turnIndex row with
  | Some thread, Some index =>
      earlier ← gets (earlier_executing (λ t, (tu_ownerId t === sc_ownerId scope) && (tu_agentId t === sc_agentId scope))
                        thread index);
      throwM_if earlier (conflict "An earlier Run in this Thread is still executing")
  | _, _ => mret tt
  end.

Definition parseClaim (input : RunClaimInput) : result failure unit :=
  parse_run (qc_runId input) ;;
  safeInteger (qc_expectedRunRevision input) "expectedRunRevision" 0 ;;
  safeInteger (qc_expectedLeaseRevision input) "expectedLeaseRevision" 0 ;;
  dispatch_machineText (qc_executionLeaseId input) "executionLeaseId" ;;
  dispatch_instant (qc_claimedAt input) "claimedAt" ;;
  dispatch_instant (qc_expiresAt input) "expiresAt" ;;
  assertTimeOrder (qc_claimedAt input) (qc_expiresAt input) "expiresAt".

(** The lease the Run has: the claim is answered by it, is refused, or goes on. *)
Definition claim_replayed (scope : RunScope) (consumerId : string) (input : RunClaimInput) (current : ExecutionLeaseRow)
    : result failure bool :=
  let live := live_at (qc_claimedAt input) current in
  let same := xl_executionLeaseId current === qc_executionLeaseId input in
  (if live then assertLeaseScope scope consumerId current else Ok tt) ;;
  throw_if (same && negb (is_none (xl_releasedAt current)))
    (lease_conflict "Execution lease identity has already ended" (qc_runId input)) ;;
  if same && (xl_revision current === (qc_expectedLeaseRevision input + 1)) && live
     && (xl_claimedAt current === qc_claimedAt input) && (xl_initialExpiresAt current === qc_expiresAt input)
  then Ok true
  else
    throw_if (xl_revision current !== qc_expectedLeaseRevision input)
      (lease_conflict "Run execution lease revision conflict" (qc_runId input)) ;;
    throw_if live (lease_conflict "Run is already claimed by another consumer" (qc_runId input)) ;;
    Ok false.

Definition claimed_row (scope : RunScope) (consumerId : string) (input : RunClaimInput) : ExecutionLeaseRow :=
  mkExecutionLease (sc_ownerId scope) (sc_agentId scope) (qc_runId input) (qc_expectedLeaseRevision input + 1)
    (af_leaseId (sc_authorityLease scope)) (fence_deploymentId (sc_authority scope))
    (fence_authorityEpoch (sc_authority scope)) (fence_fencingToken (sc_authority scope)) consumerId
    (qc_executionLeaseId input) (qc_claimedAt input) (qc_expiresAt input) (qc_expiresAt input) None.

(** The upsert writes every column but the key. *)
Definition upsert_lease (row : ExecutionLeaseRow) (t : list ExecutionLeaseRow) : list ExecutionLeaseRow :=
  if fresh_key lease_key (lease_key row) t then insert_row row t
  else update_where (λ r, lease_key r === lease_key row) (λ _, row) t.

(** A lease that was written is read back. *)
Definition lease_receipt (scope : RunScope) (runId : RunId) (replayed : bool) (unread : string) : Wk RunExecutionLeaseReceipt :=
  row ← readLease scope runId;
  match row with
  | None => throw (applicationFailure INVALID_OPERATION unread [("runId", runId)])
  | Some row => lease ← lift (toLease row); mret (mkLeaseReceipt lease replayed)
  end.

(** What a claim that goes on asks for. *)
Definition assertClaimable (scope : RunScope) (input : RunClaimInput) (run : JoinedRun) : Wk unit :=
  let runId := qc_runId input in
  assertRunBudgetDispatchable scope runId ;;
  existingIdentity ← readLeaseByExecutionId (qc_executionLeaseId input);
  throwM_if match existingIdentity with
            | None => false
            | Some r => (xl_ownerId r !== sc_ownerId scope) || (xl_agentId r !== sc_agentId scope)
                        || (xl_runId r !== runId)
            end (lease_conflict "Execution lease identity is already in use" runId) ;;
  throwM_if (ru_revision (jo_run run) !== qc_expectedRunRevision input) (lease_conflict "Run revision conflict" runId) ;;
  assertDispatchable scope run (qc_claimedAt input).

Definition claim_transaction (scope : RunScope) (consumerId : string) (input : RunClaimInput) : Wk RunExecutionLeaseReceipt :=
  let runId := qc_runId input in
  dispatch_assertCurrentAuthority scope (qc_claimedAt input) ;;
  run ← readRun scope runId;
  match run with
  | None => throw (lease_outside runId)
  | Some run =>
      current ← readLease scope runId;
      replayed ← match current with
                 | Some current => lift (claim_replayed scope consumerId input current)
                 | None =>
                     throwM_if (qc_expectedLeaseRevision input !== 0)
                       (lease_conflict "Run execution lease revision conflict" runId) ;;
                     mret false
                 end;
      match current, replayed with
      | Some current, true => lease ← lift (toLease current); mret (mkLeaseReceipt lease true)
      | _, _ =>
          assertClaimable scope input run ;;
          write_executionLeases (upsert_lease (claimed_row scope consumerId input)) ;;
          lease_receipt scope runId false "Claimed lease could not be read"
      end
  end.

Definition claimSync (scope : RunScope) (consumerId : string) (input : RunClaimInput) : Wk RunExecutionLeaseReceipt :=
  lift (parseClaim input) ;;
  transaction (claim_transaction scope consumerId input).

(** ** Renewal and release *)
Definition parseRenew (input : RunRenewInput) : result failure unit :=
  parse_lease (qw_runId input) (qw_expectedLeaseRevision input) (qw_executionLeaseId input) ;;
  dispatch_instant (qw_renewedAt input) "renewedAt" ;;
  dispatch_instant (qw_expiresAt input) "expiresAt" ;;
  assertTimeOrder (qw_renewedAt input) (qw_expiresAt input) "expiresAt".

(** The row a renewal or a release writes. *)
Definition held_row (scope : RunScope) (runId : RunId) (revision : Z) (r : ExecutionLeaseRow) : bool :=
  (xl_ownerId r === sc_ownerId scope) && (xl_agentId r === sc_agentId scope) && (xl_runId r === runId)
  && (xl_revision r === revision) && is_none (xl_releasedAt r).

Definition holds_lease (executionLeaseId : string) (revision : Z) (at_ : string) (row : ExecutionLeaseRow) : bool :=
  (xl_executionLeaseId row === executionLeaseId) && (xl_revision row === revision) && live_at at_ row.

Definition renew_transaction (scope : RunScope) (consumerId : string) (input : RunRenewInput) : Wk RunExecutionLeaseReceipt :=
  let runId := qw_runId input in
  let revision := qw_expectedLeaseRevision input in
  let executionLeaseId := qw_executionLeaseId input in
  dispatch_assertCurrentAuthority scope (qw_renewedAt input) ;;
  current ← readLease scope runId;
  match current with
  | None => throw (lease_conflict "Run execution lease is not renewable" runId)
  | Some current =>
      throwM_if (negb (holds_lease executionLeaseId revision (qw_renewedAt input) current))
        (lease_conflict "Run execution lease is not renewable" runId) ;;
      throwM_if (negb (isAtOrAfter (qw_renewedAt input) (xl_claimedAt current)))
        (lease_conflict "Run execution lease renewal time precedes its claim" runId) ;;
      throwM_if (negb (isAtOrAfter (qw_expiresAt input) (xl_expiresAt current)))
        (lease_conflict "Run execution lease expiry cannot move backwards" runId) ;;
      lift (assertLeaseScope scope consumerId current) ;;
      let replayed := qw_expiresAt input === xl_expiresAt current in
      (if replayed then mret tt
       else write_executionLeases (update_where
              (λ r, held_row scope runId revision r && (xl_executionLeaseId r === executionLeaseId))
              (λ r, r <| xl_expiresAt := qw_expiresAt input |>))) ;;
      lease_receipt scope runId replayed "Renewed lease could not be read"
  end.

Definition renewSync (scope : RunScope) (consumerId : string) (input : RunRenewInput) : Wk RunExecutionLeaseReceipt :=
  lift (parseRenew input) ;;
  transaction (renew_transaction scope consumerId input).

Definition parseRelease (input : RunReleaseInput) : result failure unit :=
  parse_lease (qe_runId input) (qe_expectedLeaseRevision input) (qe_executionLeaseId input) ;;
  dispatch_instant (qe_releasedAt input) "releasedAt" ;;
  Ok tt.

Definition ended (revision : Z) (at_ : string) (r : ExecutionLeaseRow) : ExecutionLeaseRow :=
  r <| xl_revision := revision |> <| xl_releasedAt := Some at_ |>.

Definition release_transaction (scope : RunScope) (consumerId : string) (input : RunReleaseInput) : Wk RunExecutionLeaseReceipt :=
  let runId := qe_runId input in
  let revision := qe_expectedLeaseRevision input in
  let executionLeaseId := qe_executionLeaseId input in
  dispatch_assertCurrentAuthority scope (qe_releasedAt input) ;;
  current ← readLease scope runId;
  match current with
  | None => throw (lease_conflict "Run execution lease is not releasable" runId)
  | Some current =>
      throwM_if (xl_executionLeaseId current !== executionLeaseId)
        (lease_conflict "Run execution lease is not releasable" runId) ;;
      lift (assertLeaseScope scope consumerId current) ;;
      throwM_if ((xl_revision current !== revision) || negb (live_at (qe_releasedAt input) current))
        (lease_conflict "Run execution lease is not releasable" runId) ;;
      write_executionLeases (update_where
        (λ r, held_row scope runId revision r && (xl_executionLeaseId r === executionLeaseId))
        (ended (revision + 1) (qe_releasedAt input))) ;;
      lease_receipt scope runId false "Released lease could not be read"
  end.

Definition releaseSync (scope : RunScope) (consumerId : string) (input : RunReleaseInput) : Wk RunExecutionLeaseReceipt :=
  lift (parseRelease input) ;;
  transaction (release_transaction scope consumerId input).

(** ** The guard of other writers *)
Definition parseHeld (runId : RunId) (expectedLeaseRevision : Z) (executionLeaseId at_ : string) : result failure unit :=
  parse_lease runId expectedLeaseRevision executionLeaseId ;;
  dispatch_instant at_ "at" ;;
  Ok tt.

Definition assertHeldParsed (scope : RunScope) (consumerId : string) (runId : RunId) (expectedLeaseRevision : Z)
    (executionLeaseId at_ : string) : Wk RunExecutionLease :=
  dispatch_assertCurrentAuthority scope at_ ;;
  current ← readLease scope runId;
  match current with
  | None => throw (lease_conflict "Run execution lease is not held" runId)
  | Some current =>
      throwM_if (negb (holds_lease executionLeaseId expectedLeaseRevision at_ current))
        (lease_conflict "Run execution lease is not held" runId) ;;
      lift (assertLeaseScope scope consumerId current) ;;
      run ← readRun scope runId;
      throwM_if (is_none run) (lease_outside runId) ;;
      lift (toLease current)
  end.

Definition assertHeldInTransaction (scope : RunScope) (consumerId : string) (runId : RunId) (expectedLeaseRevision : Z)
    (executionLeaseId at_ : string) : Wk RunExecutionLease :=
  lift (dispatch_scope scope consumerId) ;;
  lift (parseHeld runId expectedLeaseRevision executionLeaseId at_) ;;
  assertHeldParsed scope consumerId runId expectedLeaseRevision executionLeaseId at_.

Definition assertHeldSync (scope : RunScope) (consumerId : string) (runId : RunId) (expectedLeaseRevision : Z)
    (executionLeaseId at_ : string) : Wk RunExecutionLease :=
  lift (parseHeld runId expectedLeaseRevision executionLeaseId at_) ;;
  transaction (assertHeldParsed scope consumerId runId expectedLeaseRevision executionLeaseId at_).

(** Runs in the transaction in which the Owner cancels a Run. *)
Definition invalidateForOwnerCancellationInTransaction (scope : RunScope) (runId : RunId) (at_ : string)
    : Wk (option RunExecutionLease) :=
  lift (parse_run runId) ;;
  lift (dispatch_instant at_ "at") ;;
  dispatch_assertCurrentAuthority scope at_ ;;
  run ← readRun scope runId;
  throwM_if (is_none run) (lease_outside runId) ;;
  current ← readLease scope runId;
  match current with
  | None => mret None
  | Some current =>
      if negb (is_none (xl_releasedAt current)) then mret None
      else
        write_executionLeases (update_where (held_row scope runId (xl_revision current))
          (ended (xl_revision current + 1) at_)) ;;
        invalidated ← readLease scope runId;
        match invalidated with
        | None => throw (applicationFailure INVALID_OPERATION "Owner cancellation lease invalidation could not be read"
                           [("runId", runId)])
        | Some row => lease ← lift (toLease row); mret (Some lease)
        end
  end.

(** ** Quarantine *)
Definition parseQuarantine (input : RunQuarantineInput) : result failure unit :=
  identified (qn_runId input) "RunId" ;;
  dispatch_instant (qn_at input) "at" ;;
  safeInteger (qn_expectedRunRevision input) "expectedRunRevision" 1 ;;
  safeInteger (qn_expectedLeaseRevision input) "expectedLeaseRevision" 0 ;;
  dispatch_machineText (qn_reasonCode input) "reasonCode" ;;
  Ok tt.

Definition scoped_run (scope : RunScope) (runId : RunId) (r : RunRow) : bool :=
  (ru_id r === runId) && (ru_ownerId r === sc_ownerId scope) && (ru_agentId r === sc_agentId scope).
Definition scoped_lease (scope : RunScope) (runId : RunId) (r : ExecutionLeaseRow) : bool :=
  (xl_runId r === runId) && (xl_ownerId r === sc_ownerId scope) && (xl_agentId r === sc_agentId scope).

(** Preserves every context, observed output and Worker result reference. *)
Definition upsert_reconciling (scope : RunScope) (input : RunQuarantineInput) (t : list CheckpointRow) : list CheckpointRow :=
  if fresh_key kp_runId (qn_runId input) t then
    insert_row (mkCheckpointRow (qn_runId input) (sc_ownerId scope) (sc_agentId scope) 1 phase_reconciling_external_result
      None 0 None None None None (Some (qn_reasonCode input)) (qn_at input) None) t
  else update_where (λ r, kp_runId r === qn_runId input)
    (λ r, r <| kp_revision := kp_revision r + 1 |> <| kp_phase := phase_reconciling_external_result |>
            <| kp_diagnosticCode := Some (qn_reasonCode input) |> <| kp_updatedAt := qn_at input |>) t.

(** A lease that lasts is ended only by its consumer, and only when it is named. *)
Definition end_lease (scope : RunScope) (consumerId : string) (input : RunQuarantineInput) (lease : ExecutionLeaseRow)
    : Wk unit :=
  (if live_at (qn_at input) lease then
     lift (assertLeaseScope scope consumerId lease) ;;
     throwM_if (Some (xl_executionLeaseId lease) !== qn_executionLeaseId input)
       (lease_conflict "Cannot interrupt another live execution" (qn_runId input))
   else mret tt) ;;
  if is_none (xl_releasedAt lease) then
    write_executionLeases (update_where (scoped_lease scope (qn_runId input))
      (λ r, ended (xl_revision r + 1) (qn_at input) r))
  else mret tt.

Definition reconcile_run (scope : RunScope) (input : RunQuarantineInput) (run : JoinedRun) : Wk unit :=
  if (ru_status (jo_run run) === reconciling_external_result) && (jo_phase run === Some phase_reconciling_external_result)
  then mret tt
  else
    write_runs (update_where (scoped_run scope (qn_runId input))
      (λ r, r <| ru_status := reconciling_external_result |> <| ru_revision := ru_revision r + 1 |>
              <| ru_updatedAt := qn_at input |>)) ;;
    write_checkpoints (upsert_reconciling scope input).

Definition quarantine_transaction (scope : RunScope) (consumerId : string) (input : RunQuarantineInput) : Wk unit :=
  let runId := qn_runId input in
  dispatch_assertCurrentAuthority scope (qn_at input) ;;
  run ← readRun scope runId;
  match run with
  | None => throw (applicationFailure NOT_AUTHORITATIVE "Run is outside the bound scope" [])
  | Some run =>
      let status := ru_status (jo_run run) in
      throwM_if ((ru_revision (jo_run run) !== qn_expectedRunRevision input)
                 || (jo_leaseRevision run !== qn_expectedLeaseRevision input))
        (lease_conflict "Run changed before reconciliation" runId) ;;
      if includes status [completed; failed; cancelled] then mret tt
      else
        throwM_if (negb (includes status [accepted; building_context; running; reconciling_external_result]))
          (lease_conflict "Run is not eligible for reconciliation" runId) ;;
        lease ← readLease scope runId;
        match lease with Some lease => end_lease scope consumerId input lease | None => mret tt end ;;
        reconcile_run scope input run
  end.

Definition quarantineSync (scope : RunScope) (consumerId : string) (input : RunQuarantineInput) : Wk unit :=
  lift (parseQuarantine input) ;;
  transaction (quarantine_transaction scope consumerId input).

(** ** Requests

    [executeRunDispatch] of sqlite-durable-operations.ts: the scope is checked,
    and a [TypeError] of the operation is an invalid operation. *)
Definition executeRunDispatch {A} (scope : RunScope) (consumerId : string) (operation : Wk A) : Wk A := λ d,
  match dispatch_scope scope consumerId with
  | Err x => (Err x, d)
  | Ok _ =>
      match operation d with
      | (Err (type_error message), d') => (Err (applicationFailure INVALID_OPERATION message []), d')
      | other => other
      end
  end.

Definition runDispatch_listClaimable (scope : RunScope) (consumerId : string) (input : RunListInput) :=
  executeRunDispatch scope consumerId (listClaimable scope input).
Definition runDispatch_listReconciliationRequired (scope : RunScope) (consumerId : string) (input : RunListInput) :=
  executeRunDispatch scope consumerId (listReconciliationRequired scope input).
Definition runDispatch_quarantine (scope : RunScope) (consumerId : string) (input : RunQuarantineInput) :=
  executeRunDispatch scope consumerId (quarantineSync scope consumerId input).
Definition runDispatch_claim (scope : RunScope) (consumerId : string) (input : RunClaimInput) :=
  executeRunDispatch scope consumerId (claimSync scope consumerId input).
Definition runDispatch_renew (scope : RunScope) (consumerId : string) (input : RunRenewInput) :=
  executeRunDispatch scope consumerId (renewSync scope consumerId input).
Definition runDispatch_release (scope : RunScope) (consumerId : string) (input : RunReleaseInput) :=
  executeRunDispatch scope consumerId (releaseSync scope consumerId input).
Definition runDispatch_assertHeld (scope : RunScope) (consumerId : string) (runId : RunId) (expectedLeaseRevision : Z)
    (executionLeaseId at_ : string) :=
  executeRunDispatch scope consumerId (assertHeldSync scope consumerId runId expectedLeaseRevision executionLeaseId at_).
