(* ===== verification/DispatchGuarantees.v ===== *)
(** What holds of the dispatch of Runs (RunDispatch.v): a lease is kept until it
    expires, what a claim was checked for, that the Runs which are listed can be
    claimed, and that the Runs to be reconciled can be quarantined. *)
From S2P Require Import Prelude Js JsDate JsJson JsParse Identifiers Entities.
From S2P Require Import Deterministic InMemoryAuth Coordination Persistence RunCoordination DurableState.
From S2P Require Import Sqlite SqliteSchema SqliteWorker SqliteStep RunDispatch.
Local Open Scope Z_scope.

(** ** Reading *)
Lemma dispatchAuthority_reads scope t : reads (dispatch_assertCurrentAuthority scope t).
Proof. unfold dispatch_assertCurrentAuthority. only_reads. Qed.
Lemma readLease_reads scope runId : reads (readLease scope runId).
Proof. unfold readLease. only_reads. Qed.
Lemma readRun_reads scope runId : reads (readRun scope runId).
Proof. unfold readRun. only_reads. Qed.
Lemma receipt_reads scope runId b s : reads (lease_receipt scope runId b s).
Proof. unfold lease_receipt, readLease. only_reads. Qed.
Lemma assertClaimable_reads scope input run : reads (assertClaimable scope input run).
Proof. unfold assertClaimable, assertRunBudgetDispatchable, readLeaseByExecutionId, assertDispatchable. only_reads. Qed.
Lemma assertHeldParsed_reads scope c r n x t : reads (assertHeldParsed scope c r n x t).
Proof. unfold assertHeldParsed, dispatch_assertCurrentAuthority, readLease, readRun. only_reads. Qed.
#[export] Hint Resolve dispatchAuthority_reads readLease_reads readRun_reads receipt_reads assertClaimable_reads
  assertHeldParsed_reads : reads.

Lemma get_where_ext {R} (p q : R → bool) t : (∀ r, p r = q r) → get_where p t = get_where q t.
Proof. intros E. unfold get_where. induction t as [|r t IH]; [done|]. cbn. by rewrite E, IH. Qed.

Abbreviation run_of scope runId := (sc_ownerId scope, sc_agentId scope, runId) (only parsing).

Definition lease_at (scope : RunScope) (runId : RunId) (d : Database) : option ExecutionLeaseRow :=
  get_where (λ r, lease_key r === run_of scope runId) (t_executionLeases d).

Lemma lease_key_spec r o a x : (lease_key r === (o, a, x)) = (xl_ownerId r === o) && (xl_agentId r === a) && (xl_runId r === x).
Proof.
  unfold lease_key. apply eq_iff_eq_true. rewrite !andb_true_iff, !bool_decide_eq_true. naive_solver.
Qed.

Lemma parseLease_Ok row row' : parseLease row = Ok row' → row' = row.
Proof. unfold parseLease. intros E. inv_ok. done. Qed.

Lemma readLease_run scope runId d : readLease scope runId d =
  (match lease_at scope runId d with None => Ok None | Some row => row ← parseLease row; Ok (Some row) end, d).
Proof.
  unfold readLease, lease_at. rewrite (get_where_ext (λ r, lease_key r === _) (λ r, (xl_ownerId r === sc_ownerId scope)
    && (xl_agentId r === sc_agentId scope) && (xl_runId r === runId))) by (intros; apply lease_key_spec).
  unfold gets, mbind at 1, M_bind. cbn. destruct (get_where _ _) as [row|]; [|done].
  unfold mbind at 1, M_bind, lift. by destruct (parseLease row).
Qed.

Lemma readLease_Ok scope runId d o d' : readLease scope runId d = (Ok o, d') →
  d' = d ∧ lease_at scope runId d = o ∧ ∀ r, o = Some r → parseLease r = Ok r.
Proof.
  rewrite readLease_run. intros E. injection E as E <-. split; [done|].
  destruct (lease_at scope runId d) as [row|]; [|by injection E as <-].
  destruct (parseLease row) as [row'|] eqn:Ep; [|done]. cbn in E. injection E as <-. apply parseLease_Ok in Ep as Er. subst row'.
  split; [done|]. by intros r [= <-].
Qed.

Definition lease_keys (d : Database) : Prop := NoDup (lease_key <$> t_executionLeases d).

Lemma lease_at_elem scope runId d r : lease_at scope runId d = Some r → r ∈ t_executionLeases d ∧ lease_key r = run_of scope runId.
Proof. by intros [Hr Hk%bool_decide_eq_true]%get_elem. Qed.

Lemma lease_at_found scope runId d r : lease_keys d → r ∈ t_executionLeases d → lease_key r = run_of scope runId →
  lease_at scope runId d = Some r.
Proof. intros Hn Hr Hk. unfold lease_at. by apply (get_key lease_key). Qed.

(** ** What an operation that succeeds did *)
Definition on_executions (f : list ExecutionLeaseRow → list ExecutionLeaseRow) (d : Database) : Database :=
  d <| t_executionLeases := f (t_executionLeases d) |>.

Lemma receipt_Ok scope runId b s d receipt d' : lease_receipt scope runId b s d = (Ok receipt, d') →
  ∃ row, d' = d ∧ lease_at scope runId d = Some row ∧ parseLease row = Ok row ∧ toLease row = Ok (hr_lease receipt) ∧
    hr_replayed receipt = b.
Proof.
  unfold lease_receipt. intros E. wk_Ok. match goal with H : readLease _ _ _ = _ |- _ => apply readLease_Ok in H as (_ & Hr & Hp) end.
  match goal with H : match ?x with _ => _ end _ = _ |- _ => destruct x as [row|]; wk_Ok end. exists row. eauto 10.
Qed.

(** The lease a claim found. *)
Definition claim_over (scope : RunScope) (consumerId : string) (input : RunClaimInput) (current : option ExecutionLeaseRow) : Prop :=
  match current with
  | None => qc_expectedLeaseRevision input = 0
  | Some current => claim_replayed scope consumerId input current = Ok false
  end.

Record claimed (scope : RunScope) (consumerId : string) (input : RunClaimInput) (run : JoinedRun) (lease : RunExecutionLease)
    (d d' : Database) : Prop := mk_claimed {
  cm_authority : dispatch_assertCurrentAuthority scope (qc_claimedAt input) d = (Ok tt, d);
  cm_run : readRun scope (qc_runId input) d = (Ok (Some run), d);
  cm_over : claim_over scope consumerId input (lease_at scope (qc_runId input) d);
  cm_claimable : assertClaimable scope input run d = (Ok tt, d);
  cm_holds : executionLeases_hold d' = Ok tt;
  cm_written : d' = on_executions (upsert_lease (claimed_row scope consumerId input)) d;
  cm_parsed : parseLease (claimed_row scope consumerId input) = Ok (claimed_row scope consumerId input);
  cm_lease : toLease (claimed_row scope consumerId input) = Ok lease }.

Lemma upsert_lease_key row t : lease_key row ∈ lease_key <$> upsert_lease row t.
Proof.
  unfold upsert_lease. destruct (fresh_key _ _ _) eqn:E.
  - apply list_elem_of_fmap. exists row. split; [done|]. apply elem_insert. by right.
  - apply list_elem_of_fmap. apply not_true_iff_false in E. rewrite fresh_spec in E. apply dec_stable in E.
    apply list_elem_of_fmap in E as (r & Hk & Hr). exists row. split; [done|]. apply elem_update. left. exists r.
    split; [done|]. split; [by apply bool_decide_eq_true|done].
Qed.

Lemma upsert_lease_elem row t r : NoDup (lease_key <$> t) → r ∈ upsert_lease row t ↔ r = row ∨ r ∈ t ∧ lease_key r ≠ lease_key row.
Proof.
  intros Hn. unfold upsert_lease. destruct (fresh_key _ _ _) eqn:E.
  - rewrite elem_insert. apply fresh_spec in E. rewrite list_elem_of_fmap in E. split; [|naive_solver].
    intros [Hr|Hr]; [|by left]. right. split; [done|]. intros Hk. apply E. eauto.
  - rewrite elem_update. apply not_true_iff_false in E. rewrite fresh_spec in E. apply dec_stable in E.
    apply list_elem_of_fmap in E as (r0 & Hk0 & Hr0). split.
    + intros [(r1 & Hr1 & Hk & ->)|[Hr Hk]]; [by left|]. right. rewrite bool_decide_eq_false in Hk. done.
    + intros [->|[Hr Hk]]; [left; exists r0; repeat split; try done; by apply bool_decide_eq_true|right].
      split; [done|]. by apply bool_decide_eq_false.
Qed.

Lemma executionLeases_hold_keys d : executionLeases_hold d = Ok tt → lease_keys d.
Proof.
  unfold executionLeases_hold, check_holds, primary_holds, unique_holds, foreign_holds. intros E. inv_ok.
  repeat match goal with H : constraint _ _ _ = Ok _ |- _ => apply constraint_Ok in H end. by apply keys_unique_spec.
Qed.

Lemma claim_written scope c input run d receipt d' : lease_keys d →
  dispatch_assertCurrentAuthority scope (qc_claimedAt input) d = (Ok tt, d) →
  readRun scope (qc_runId input) d = (Ok (Some run), d) →
  claim_over scope c input (lease_at scope (qc_runId input) d) →
  (assertClaimable scope input run ;; write_executionLeases (upsert_lease (claimed_row scope c input)) ;;
   lease_receipt scope (qc_runId input) false "Claimed lease could not be read") d = (Ok receipt, d') →
  hr_replayed receipt = false ∧ claimed scope c input run (hr_lease receipt) d d'.
Proof.
  intros Hn Ha Hr Ho E. wk_Ok.
  match goal with H : lease_receipt _ _ _ _ _ = _ |- _ => apply receipt_Ok in H as (row & _ & Hrow & Hp & Ht & Hb) end.
  split; [done|]. apply lease_at_elem in Hrow as [Hrow Hkey]. cbn in Hrow.
  apply upsert_lease_elem in Hrow as [->|[_ []]]; [|done|done].
  match goal with H : assertClaimable _ _ _ _ = (Ok ?u, _) |- _ => destruct u end. by constructor.
Qed.

Lemma claim_Ok scope c input d receipt d' : lease_keys d → claim_transaction scope c input d = (Ok receipt, d') →
  (d' = d ∧ hr_replayed receipt = true ∧ ∃ current, lease_at scope (qc_runId input) d = Some current ∧
     claim_replayed scope c input current = Ok true ∧ parseLease current = Ok current ∧ toLease current = Ok (hr_lease receipt)) ∨
  (hr_replayed receipt = false ∧ ∃ run, claimed scope c input run (hr_lease receipt) d d').
Proof.
  intros Hn. unfold claim_transaction. intros E. apply M_bind_Ok in E as ([] & d1 & Ha & E).
  pose proof (operation_reads_Ok _ _ _ _ (dispatchAuthority_reads _ _) Ha) as ->.
  apply M_bind_Ok in E as (run & d1 & Hr & E). pose proof (operation_reads_Ok _ _ _ _ (readRun_reads _ _) Hr) as ->.
  destruct run as [run|]; [|wk_Ok; done]. apply M_bind_Ok in E as (current & d1 & Hl & E).
  apply readLease_Ok in Hl as (-> & Hl & Hp). apply M_bind_Ok in E as (replayed & d1 & Hc & E).
  destruct current as [current|].
  - apply lift_Ok in Hc as [Hc ->]. destruct replayed.
    + left. wk_Ok. eauto 12.
    + right. apply claim_written in E as [Hb Hm]; try done; [by eauto|]. by rewrite Hl.
  - right. apply M_bind_Ok in Hc as (u & d2 & Hc & Hb). apply throwM_Ok in Hc as [Hc ->]. apply mret_Ok in Hb as [-> ->].
    assert (claim_over scope c input (lease_at scope (qc_runId input) d)) as Ho by (rewrite Hl; cbn; by guards).
    apply claim_written in E as [Hb Hm]; try done; by eauto.
Qed.

(** ** A lease is kept until it expires *)
Inductive DispatchRequest :=
  | ask_claim (scope : RunScope) (consumerId : string) (input : RunClaimInput)
  | ask_renew (scope : RunScope) (consumerId : string) (input : RunRenewInput)
  | ask_release (scope : RunScope) (consumerId : string) (input : RunReleaseInput)
  | ask_quarantine (scope : RunScope) (consumerId : string) (input : RunQuarantineInput)
  | ask_cancellation (scope : RunScope) (runId : RunId) (at_ : string).

Definition after_request (q : DispatchRequest) (d : Database) : Database :=
  match q with
  | ask_claim scope c input => (runDispatch_claim scope c input d).2
  | ask_renew scope c input => (runDispatch_renew scope c input d).2
  | ask_release scope c input => (runDispatch_release scope c input d).2
  | ask_quarantine scope c input => (runDispatch_quarantine scope c input d).2
  | ask_cancellation scope runId at_ => (transaction (invalidateForOwnerCancellationInTransaction scope runId at_) d).2
  end.

Definition asked_at (q : DispatchRequest) : string :=
  match q with
  | ask_claim _ _ input => qc_claimedAt input
  | ask_renew _ _ input => qw_renewedAt input
  | ask_release _ _ input => qe_releasedAt input
  | ask_quarantine _ _ input => qn_at input
  | ask_cancellation _ _ at_ => at_
  end.

(** The request names the lease, or cancels its Run. *)
Definition concerns (q : DispatchRequest) (r : ExecutionLeaseRow) : bool :=
  match q with
  | ask_claim _ _ input => qc_executionLeaseId input === xl_executionLeaseId r
  | ask_renew _ _ input => qw_executionLeaseId input === xl_executionLeaseId r
  | ask_release _ _ input => qe_executionLeaseId input === xl_executionLeaseId r
  | ask_quarantine _ _ input => qn_executionLeaseId input === Some (xl_executionLeaseId r)
  | ask_cancellation scope runId _ => lease_key r === run_of scope runId
  end.

Lemma transaction_result {A} (m : Wk A) d : (transaction m d).2 = d ∨ ∃ a d', m d = (Ok a, d') ∧ (transaction m d).2 = d'.
Proof. unfold transaction. destruct (m d) as [[a|x] d']; [right|left]; eauto. Qed.

Lemma dispatch_result {A} scope c (p : result failure unit) (m : Wk A) d :
  (executeRunDispatch scope c (lift p ;; transaction m) d).2 = d ∨
  ∃ a d', m d = (Ok a, d') ∧ (executeRunDispatch scope c (lift p ;; transaction m) d).2 = d'.
Proof.
  unfold executeRunDispatch. destruct (dispatch_scope scope c); [|by left]. unfold mbind, M_bind, lift.
  destruct p as [[]|x]; [|left; by destruct x]. destruct (transaction_result m d) as [E|(a' & d' & E & Ed)].
  - left. destruct (transaction m d) as [[a'|x] d']; cbn in *; [done|by destruct x].
  - right. exists a', d'. split; [done|]. unfold transaction in *. by rewrite E.
Qed.

Lemma renew_Ok scope c input d r d' : renew_transaction scope c input d = (Ok r, d') → d' = d ∨
  executionLeases_hold d' = Ok tt ∧ d' = on_executions (update_where
    (λ r, held_row scope (qw_runId input) (qw_expectedLeaseRevision input) r && (xl_executionLeaseId r === qw_executionLeaseId input))
    (λ r, r <| xl_expiresAt := qw_expiresAt input |>)) d.
Proof.
  unfold renew_transaction. intros E. wk_Ok.
  match goal with H : match ?x with _ => _ end _ = _ |- _ => destruct x as [current|]; wk_Ok end.
  match goal with H : (if ?b then _ else _) _ = _ |- _ => destruct b; wk_Ok end; [by left|by right].
Qed.

Lemma release_Ok scope c input d r d' : release_transaction scope c input d = (Ok r, d') →
  executionLeases_hold d' = Ok tt ∧ d' = on_executions (update_where
    (λ r, held_row scope (qe_runId input) (qe_expectedLeaseRevision input) r && (xl_executionLeaseId r === qe_executionLeaseId input))
    (ended (qe_expectedLeaseRevision input + 1) (qe_releasedAt input))) d.
Proof.
  unfold release_transaction. intros E. wk_Ok.
  match goal with H : match ?x with _ => _ end _ = _ |- _ => destruct x as [current|]; wk_Ok end. done.
Qed.

Lemma cancellation_Ok scope runId at_ d r d' : invalidateForOwnerCancellationInTransaction scope runId at_ d = (Ok r, d') → d' = d ∨
  ∃ revision, executionLeases_hold d' = Ok tt ∧
    d' = on_executions (update_where (held_row scope runId revision) (ended (revision + 1) at_)) d.
Proof.
  unfold invalidateForOwnerCancellationInTransaction. intros E. wk_Ok.
  match goal with H : match ?x with _ => _ end _ = _ |- _ => destruct x as [current|]; wk_Ok end; [|by left].
  match goal with H : (if ?b then _ else _) _ = _ |- _ => destruct b; wk_Ok end; [by left|].
  right. eauto.
Qed.

Lemma reconcile_run_Ok scope input run d u d' : reconcile_run scope input run d = (Ok u, d') →
  t_executionLeases d' = t_executionLeases d.
Proof. unfold reconcile_run. intros E. destruct (_ && _); wk_Ok; done. Qed.

Lemma end_lease_Ok scope c input lease d u d' : end_lease scope c input lease d = (Ok u, d') → d' = d ∨
  (live_at (qn_at input) lease = true → Some (xl_executionLeaseId lease) = qn_executionLeaseId input) ∧
  executionLeases_hold d' = Ok tt ∧
  d' = on_executions (update_where (scoped_lease scope (qn_runId input)) (λ r, ended (xl_revision r + 1) (qn_at input) r)) d.
Proof.
  unfold end_lease. intros E. wk_Ok. destruct (is_none _); wk_Ok; [right|by left]. split; [|done]. intros Hl.
  rewrite Hl in *. wk_Ok. by guards.
Qed.

(** Quarantine ends a lease that lasts only if it is named. *)
Lemma quarantine_Ok scope c input d u d' : quarantine_transaction scope c input d = (Ok u, d') →
  t_executionLeases d' = t_executionLeases d ∨
  lease_keys d' ∧
  (∀ l, lease_at scope (qn_runId input) d = Some l → live_at (qn_at input) l = true →
     Some (xl_executionLeaseId l) = qn_executionLeaseId input) ∧
  t_executionLeases d' = update_where (scoped_lease scope (qn_runId input)) (λ r, ended (xl_revision r + 1) (qn_at input) r)
    (t_executionLeases d).
Proof.
  unfold quarantine_transaction. intros E. wk_Ok.
  match goal with H : match ?x with _ => _ end _ = _ |- _ => destruct x as [run|]; wk_Ok end.
  match goal with H : (if ?b then _ else _) _ = _ |- _ => destruct b; wk_Ok end; [by left|].
  match goal with H : readLease _ _ _ = _ |- _ => apply readLease_Ok in H as (_ & Hl & _) end.
  apply reconcile_run_Ok in E as Et.
  match goal with H : match ?x with _ => _ end _ = (Ok _, _) |- _ => rename H into He; destruct x as [lease|]; wk_Ok end; [|by left].
  apply end_lease_Ok in He as [->|(Hn & Hh & ->)]; [by left|right]. split; [|split; [|done]].
  - unfold lease_keys. rewrite Et. by apply executionLeases_hold_keys.
  - rewrite Hl. by intros l [= <-].
Qed.

Lemma held_key scope runId revision r : held_row scope runId revision r = true → lease_key r = run_of scope runId.
Proof. unfold held_row. intros H. guards. destruct_and!. unfold lease_key. congruence. Qed.

(** A write to other rows of the table. *)
Lemma kept_elem (p : ExecutionLeaseRow → bool) f r d : r ∈ t_executionLeases d → p r = false →
  r ∈ t_executionLeases (on_executions (update_where p f) d).
Proof. intros Hr Hp. cbn. apply elem_update. by right. Qed.

Lemma replayed_live scope c input r : live_at (qc_claimedAt input) r = true → qc_executionLeaseId input ≠ xl_executionLeaseId r →
  ∃ x, claim_replayed scope c input r = Err x.
Proof.
  intros Hl Hn. unfold claim_replayed. rewrite Hl, bool_decide_false by done. cbn. destruct (assertLeaseScope _ _ _); [|by eexists].
  cbn. destruct (_ !== _); by eexists.
Qed.

Lemma request_keeps q d r : lease_keys d → r ∈ t_executionLeases d → live_at (asked_at q) r = true → concerns q r = false →
  lease_keys (after_request q d) ∧ r ∈ t_executionLeases (after_request q d).
Proof.
  intros Hn Hr Hl Hq. destruct q as [scope c input|scope c input|scope c input|scope c input|scope runId at_]; cbn in *.
  - unfold runDispatch_claim, claimSync. destruct (dispatch_result scope c (parseClaim input) (claim_transaction scope c input) d)
      as [->|(a & d' & E & ->)]; [done|]. apply claim_Ok in E as [(-> & _)|(_ & run & [_ _ Ho _ Hh -> _ _])]; [done| |done].
    split; [by apply executionLeases_hold_keys|]. cbn. apply upsert_lease_elem; [done|]. right. split; [done|]. intros Hk.
    rewrite (lease_at_found _ _ _ r) in Ho by done. cbn in Ho. rewrite bool_decide_eq_false in Hq.
    destruct (replayed_live scope c input r Hl Hq) as [x Hx]. congruence.
  - unfold runDispatch_renew, renewSync. destruct (dispatch_result scope c (parseRenew input) (renew_transaction scope c input) d)
      as [->|(a & d' & E & ->)]; [done|]. apply renew_Ok in E as [->|[Hh ->]]; [done|].
    split; [by apply executionLeases_hold_keys|]. apply kept_elem; [done|]. rewrite bool_decide_eq_false in *.
    apply andb_false_iff. right. apply bool_decide_eq_false. congruence.
  - unfold runDispatch_release, releaseSync. destruct (dispatch_result scope c (parseRelease input) (release_transaction scope c input) d)
      as [->|(a & d' & E & ->)]; [done|]. apply release_Ok in E as [Hh ->].
    split; [by apply executionLeases_hold_keys|]. apply kept_elem; [done|]. rewrite bool_decide_eq_false in *.
    apply andb_false_iff. right. apply bool_decide_eq_false. congruence.
  - unfold runDispatch_quarantine, quarantineSync.
    destruct (dispatch_result scope c (parseQuarantine input) (quarantine_transaction scope c input) d)
      as [->|(a & d' & E & ->)]; [done|]. apply quarantine_Ok in E as [E|(Hk & Ho & E)]; [unfold lease_keys; by rewrite E|].
    split; [done|]. rewrite E. apply elem_update. right. split; [done|]. apply not_true_iff_false. intros Hs.
    unfold scoped_lease in Hs. guards. destruct_and!. apply Hq. symmetry. apply Ho; [|done].
    apply lease_at_found; [done..|]. unfold lease_key. congruence.
  - destruct (transaction_result (invalidateForOwnerCancellationInTransaction scope runId at_) d) as [->|(a & d' & E & ->)]; [done|].
    apply cancellation_Ok in E as [->|(revision & Hh & ->)]; [done|]. split; [by apply executionLeases_hold_keys|].
    apply kept_elem; [done|]. apply not_true_iff_false. intros Hk%held_key. rewrite bool_decide_eq_false in Hq. done.
Qed.

(** Requests about any Runs by anyone, up to the expiry of a lease, but for those
    that name it and the cancellation of its Run; and anything that other
    components do to the other tables. *)
Inductive dispatched (r : ExecutionLeaseRow) : Database → Database → Prop :=
  | dispatched_none d : dispatched r d d
  | dispatched_request q d d' : live_at (asked_at q) r = true → concerns q r = false →
      dispatched r (after_request q d) d' → dispatched r d d'
  | dispatched_other d d1 d' : t_executionLeases d1 = t_executionLeases d → dispatched r d1 d' → dispatched r d d'.

Lemma dispatched_keeps r d d' : dispatched r d d' → lease_keys d → r ∈ t_executionLeases d →
  lease_keys d' ∧ r ∈ t_executionLeases d'.
Proof.
  induction 1 as [d|q d d' Hl Hq _ IH|d d1 d' E _ IH]; intros Hn Hr; [done| |].
  - apply IH; by destruct (request_keeps q d r).
  - apply IH; [unfold lease_keys|]; by rewrite E.
Qed.

(** The lease a claim was answered with, as the table has it. *)
Record answered_by (scope : RunScope) (consumerId : string) (input : RunClaimInput) (lease : RunExecutionLease)
    (row : ExecutionLeaseRow) (d : Database) : Prop := mk_answered {
  an_elem : row ∈ t_executionLeases d;
  an_key : lease_key row = run_of scope (qc_runId input);
  an_id : xl_executionLeaseId row = qc_executionLeaseId input;
  an_open : xl_releasedAt row = None;
  an_parsed : parseLease row = Ok row;
  an_scope : assertLeaseScope scope consumerId row = Ok tt;
  an_lease : toLease row = Ok lease }.

Lemma authority_Ok scope now d u d' : dispatch_assertCurrentAuthority scope now d = (Ok u, d') →
  ∃ lease deployment, authority_row scope d = Some (lease, deployment) ∧ authority_stale scope now lease deployment = false.
Proof.
  unfold dispatch_assertCurrentAuthority. intros E. wk_Ok. destruct (authority_row scope d) as [[lease deployment]|]; wk_Ok.
  eauto.
Qed.

Lemma authority_tokens scope now d u d' : dispatch_assertCurrentAuthority scope now d = (Ok u, d') →
  fence_fencingToken (sc_authority scope) = af_fencingToken (sc_authorityLease scope).
Proof.
  intros (lease & deployment & _ & Hs)%authority_Ok. unfold authority_stale in Hs. guards. destruct_and!. congruence.
Qed.

Lemma execute_Ok {A} scope c (p : result failure unit) (m : Wk A) d a d' :
  executeRunDispatch scope c (lift p ;; transaction m) d = (Ok a, d') →
  dispatch_scope scope c = Ok tt ∧ p = Ok tt ∧ m d = (Ok a, d').
Proof.
  unfold executeRunDispatch. destruct (dispatch_scope scope c) as [[]|]; [|done]. intros E. split; [done|].
  assert ((lift p ;; transaction m) d = (Ok a, d')) as E'.
  { destruct ((lift p ;; transaction m) d) as [[b|x] d1]; [done|]. by destruct x. }
  apply M_bind_Ok in E' as ([] & d1 & Hp & Hm). apply lift_Ok in Hp as [Hp ->]. by apply (proj1 (transaction_Ok _ _ _ _)) in Hm.
Qed.

Lemma replayed_same scope c input r : claim_replayed scope c input r = Ok true →
  assertLeaseScope scope c r = Ok tt ∧ live_at (qc_claimedAt input) r = true ∧ xl_executionLeaseId r = qc_executionLeaseId input.
Proof.
  unfold claim_replayed. intros E. inv_ok.
  match type of E with (if ?b then _ else _) = _ => destruct b eqn:Eb; [|inv_ok; done] end. guards. destruct_and!.
  match goal with H : live_at _ _ = true |- _ => rewrite H in * end. by destruct x.
Qed.

Lemma claimed_answered scope c input run lease d d' : lease_keys d → claimed scope c input run lease d d' →
  answered_by scope c input lease (claimed_row scope c input) d'.
Proof.
  intros Hn [Ha _ _ _ Hh Hd Hp Ht]. constructor; try done.
  - rewrite Hd. cbn. apply upsert_lease_elem; [done|by left].
  - unfold assertLeaseScope. cbn. rewrite (authority_tokens _ _ _ _ _ Ha), !bool_decide_true by done. done.
Qed.

Lemma claim_answered scope c input d receipt d' : lease_keys d → claim_transaction scope c input d = (Ok receipt, d') →
  lease_keys d' ∧ ∃ row, answered_by scope c input (hr_lease receipt) row d'.
Proof.
  intros Hn E. apply claim_Ok in E as [(-> & _ & row & Hl & Hc & Hp & Ht)|(_ & run & Hm)]; [| |done].
  - split; [done|]. exists row. apply lease_at_elem in Hl as [Hr Hk]. apply replayed_same in Hc as (Hs & Hl & Hi).
    unfold live_at in Hl. guards. destruct_and!. constructor; try done. by destruct (xl_releasedAt row).
  - split; [by apply executionLeases_hold_keys, (cm_holds _ _ _ _ _ _ _ Hm)|]. exists (claimed_row scope c input).
    by eapply claimed_answered.
Qed.

Lemma isAfter_instant value boundary name : isAfter value boundary = true → dispatch_instant boundary name = Ok boundary.
Proof.
  unfold isAfter, dispatch_instant, dispatch_text. intros H. destruct (dateParse value), (dateParse boundary) as [t|] eqn:E; try done.
  destruct (decide (boundary = "")) as [->|Hb]; [by vm_compute in E|]. rewrite bool_decide_false by done. cbn. by rewrite E.
Qed.

Lemma safeInteger_iff n name minimum m : safeInteger n name minimum = Ok m ↔ m = n ∧ minimum ≤ n ∧ Z.abs n ≤ MAX_SAFE_INTEGER.
Proof.
  unfold safeInteger, isSafeInteger. rewrite throw_if_bind.
  destruct (Z.leb_spec (Z.abs n) MAX_SAFE_INTEGER), (Z.ltb_spec n minimum); cbn; (split; [naive_solver lia|]); intros (-> & ? & ?); [lia|done|lia..].
Qed.

Lemma safeInteger_Ok n name minimum m : safeInteger n name minimum = Ok m → m = n ∧ ∀ name', safeInteger n name' minimum = Ok n.
Proof. intros [-> H]%safeInteger_iff. split; [done|]. intros name'. by apply safeInteger_iff. Qed.

Lemma parseHeld_run input row at_ : parseClaim input = Ok tt → parseLease row = Ok row → live_at at_ row = true →
  parseHeld (qc_runId input) (xl_revision row) (qc_executionLeaseId input) at_ = Ok tt.
Proof.
  unfold parseClaim, parseLease, parseHeld, parse_lease. intros Hp Hl Ha. unfold live_at in Ha. guards. destruct Ha as [_ Ha].
  inv_ok. repeat match goal with H : safeInteger (xl_revision row) _ _ = _ |- _ => apply safeInteger_Ok in H as [_ Hrev] end.
  repeat match goal with H : ?x = Ok _ |- context [?x] => rewrite H; cbn end. rewrite Hrev. cbn.
  repeat match goal with H : ?x = Ok _ |- context [?x] => rewrite H; cbn end. by rewrite (isAfter_instant _ _ _ Ha).
Qed.

Lemma lease_at_run scope runId row d : lease_keys d → row ∈ t_executionLeases d → lease_key row = run_of scope runId →
  parseLease row = Ok row → readLease scope runId d = (Ok (Some row), d).
Proof. intros Hn Hr Hk Hp. rewrite readLease_run, (lease_at_found _ _ _ row) by done. by rewrite Hp. Qed.

Lemma execute_Err {A} scope c (p : result failure unit) (m : Wk A) d x d' :
  executeRunDispatch scope c (lift p ;; transaction m) d = (Err x, d') → d' = d.
Proof.
  intros E. destruct (dispatch_result scope c p m d) as [H|(a & d1 & Hm & H)]; rewrite E in H; cbn in H; [done|].
  subst d1. revert E. unfold executeRunDispatch, transaction, mbind, M_bind, lift. destruct (dispatch_scope scope c); [|by intros [= _ <-]].
  destruct p as [?|[]]; rewrite ?Hm; by intros [= _ <-].
Qed.

Lemma assertHeldParsed_run scope c runId row lease run at_ d : lease_keys d → row ∈ t_executionLeases d →
  lease_key row = run_of scope runId → parseLease row = Ok row → assertLeaseScope scope c row = Ok tt → toLease row = Ok lease →
  live_at at_ row = true → dispatch_assertCurrentAuthority scope at_ d = (Ok tt, d) → readRun scope runId d = (Ok (Some run), d) →
  assertHeldParsed scope c runId (xl_revision row) (xl_executionLeaseId row) at_ d = (Ok lease, d).
Proof.
  intros Hn Hr Hk Hp Hs Ht Hl Ha Hrun. unfold assertHeldParsed.
  rewrite (bind_run _ _ _ _ _ Ha), (bind_run _ _ _ _ _ (lease_at_run _ _ _ _ Hn Hr Hk Hp)).
  unfold holds_lease. rewrite Hl, !bool_decide_true by done. cbn [negb andb]. rewrite (bind_run _ _ d tt d) by done.
  rewrite (bind_run _ _ d tt d) by (unfold lift; by rewrite Hs). rewrite (bind_run _ _ _ _ _ Hrun), (bind_run _ _ d tt d) by done.
  unfold lift. by rewrite Ht.
Qed.

(** C8 A lease that a claim was answered with, by a request that was answered before,
    is kept whatever is asked for until it expires (but for requests that name it,
    and the cancellation of its Run by the Owner): its consumer is found to hold it
    as long as the authority is current, and every claim for the Run under another
    name is refused. *)
Theorem execution_lease_kept scope c input d receipt d1 : lease_keys d →
  runDispatch_claim scope c input d = (Ok receipt, d1) →
  ∃ row, answered_by scope c input (hr_lease receipt) row d1 ∧ ∀ d2, dispatched row d1 d2 →
    (∀ at_ run, live_at at_ row = true → dispatch_assertCurrentAuthority scope at_ d2 = (Ok tt, d2) →
       readRun scope (qc_runId input) d2 = (Ok (Some run), d2) →
       runDispatch_assertHeld scope c (qc_runId input) (xl_revision row) (qc_executionLeaseId input) at_ d2
         = (Ok (hr_lease receipt), d2)) ∧
    (∀ scope' c' input', run_of scope' (qc_runId input') = run_of scope (qc_runId input) →
       qc_executionLeaseId input' ≠ qc_executionLeaseId input → live_at (qc_claimedAt input') row = true →
       ∃ x, runDispatch_claim scope' c' input' d2 = (Err x, d2)).
Proof.
  intros Hn E. apply execute_Ok in E as (Hs & Hp & E). apply claim_answered in E as [Hn1 [row Ha]]; [|done].
  exists row. split; [done|]. intros d2 Hd. destruct Ha as [Hr Hk Hi Ho Hparse Hscope Ht].
  destruct (dispatched_keeps _ _ _ Hd Hn1 Hr) as [Hn2 Hr2]. split.
  - intros at_ run Hl Hau Hrun. unfold runDispatch_assertHeld, executeRunDispatch, assertHeldSync. rewrite Hs.
    rewrite (bind_run _ _ d2 tt d2) by (unfold lift; by rewrite parseHeld_run).
    unfold transaction. rewrite <-Hi, (assertHeldParsed_run scope c _ row (hr_lease receipt) run) by done. done.
  - intros scope' c' input' Hrun Hid Hl. unfold runDispatch_claim, claimSync.
    destruct (executeRunDispatch _ _ _ d2) as [[receipt'|x] d'] eqn:E'; [|apply execute_Err in E' as ->; eauto].
    apply execute_Ok in E' as (_ & _ & E'). rewrite <-Hrun in Hk. apply (lease_at_found _ _ _ _ Hn2 Hr2) in Hk.
    destruct (replayed_live scope' c' input' row Hl) as [x Hx]; [congruence|].
    apply claim_Ok in E' as [(_ & _ & row' & Hrow' & Hc & _)|(_ & run & [_ _ Hc _ _ _ _ _])]; [|rewrite Hk in Hc; cbn in Hc|done]; congruence.
Qed.

(** ** What a claim was checked for *)
Lemma joined_elem run row d : row ∈ joined run d → jo_run row = run ∧
  jo_checkpoint row = get_where (λ c, (kp_runId c === ru_id run) && (kp_ownerId c === ru_ownerId run)
    && (kp_agentId c === ru_agentId run)) (t_checkpoints d) ∧
  jo_lease row = get_where (λ l, (xl_runId l === ru_id run) && (xl_ownerId l === ru_ownerId run)
    && (xl_agentId l === ru_agentId run)) (t_executionLeases d) ∧
  match jo_turn row with Some turn => turn ∈ turn_groups run d | None => turn_groups run d = [] end.
Proof.
  unfold joined. destruct (turn_groups run d) as [|g groups] eqn:E.
  - intros ->%list_elem_of_singleton. cbn. done.
  - rewrite <-E. intros (turn & -> & Ht)%list_elem_of_fmap. cbn. done.
Qed.

Lemma joined_runs_elem scope row d : row ∈ joined_runs scope d →
  jo_run row ∈ t_runs d ∧ ru_ownerId (jo_run row) = sc_ownerId scope ∧ ru_agentId (jo_run row) = sc_agentId scope ∧
  row ∈ joined (jo_run row) d.
Proof.
  unfold joined_runs. intros Hr. apply list_elem_of_In, in_flat_map in Hr as (run & Hrun & Hr). apply list_elem_of_In in Hrun, Hr.
  apply elem_where in Hrun as [Hrun Hs]. apply joined_elem in Hr as Hj. destruct Hj as [-> _]. guards. destruct_and!. done.
Qed.

Lemma joinedRun_Ok scope runId d row d' : readRun scope runId d = (Ok (Some row), d') →
  d' = d ∧ row ∈ joined_runs scope d ∧ ru_id (jo_run row) = runId ∧ parse_joined row = Ok tt.
Proof.
  unfold readRun. intros E. wk_Ok. destruct (get_where _ _) as [row'|] eqn:Er; wk_Ok; [|done].
  match goal with H : Some _ = Some _ |- _ => injection H as -> end. apply get_elem in Er as [Hr Hi]. guards.
  match goal with H : parse_joined _ = Ok ?u |- _ => destruct u end. done.
Qed.

(** Where the execution of a Run that is claimed may go on from. *)
Inductive goes_on (d : Database) (now : string) : RunStatus → option CheckpointRow → Prop :=
  | goes_on_new : goes_on d now accepted None
  | goes_on_accepted status c : kp_phase c = phase_accepted → goes_on d now status (Some c)
  | goes_on_resumed status c : kp_phase c = phase_context_formed ∨ kp_phase c = phase_runtime_settled → goes_on d now status (Some c)
  | goes_on_approved status c : kp_phase c = phase_awaiting_approval → approval_ready now d c = true → goes_on d now status (Some c).

Record claim_checked (scope : RunScope) (input : RunClaimInput) (row : JoinedRun) (d : Database) : Prop := mk_checked {
  ch_joined : row ∈ joined_runs scope d;
  ch_run : ru_id (jo_run row) = qc_runId input;
  ch_revision : ru_revision (jo_run row) = qc_expectedRunRevision input;
  ch_status : ru_status (jo_run row) ∈ RUN_DISPATCHABLE_STATUSES;
  ch_phase : goes_on d (qc_claimedAt input) (ru_status (jo_run row)) (jo_checkpoint row);
  ch_budget : ∀ a, a ∈ t_accounts d → (ac_ownerId a, ac_agentId a) = (sc_ownerId scope, sc_agentId scope) →
    ac_runId a = Some (qc_runId input) → ac_status a ≠ account_reconcile_required;
  ch_order : ∀ thread index t r, ru_threadId (jo_run row) = Some thread → jo_turnIndex row = Some index →
    t ∈ t_turns d → (tu_ownerId t, tu_agentId t) = (sc_ownerId scope, sc_agentId scope) → tu_threadId t = Some thread →
    tu_turnIndex t < index → r ∈ t_runs d → run_key r = (tu_ownerId t, tu_agentId t, tu_runId t) → executing (ru_status r) = false;
  ch_over : ∀ l, l ∈ t_executionLeases d → lease_key l = run_of scope (qc_runId input) →
    live_at (qc_claimedAt input) l = false ∧ xl_revision l = qc_expectedLeaseRevision input;
  ch_name : ∀ l, l ∈ t_executionLeases d → xl_executionLeaseId l = qc_executionLeaseId input →
    lease_key l = run_of scope (qc_runId input);
}.

Lemma exists_where_false {R} (p : R → bool) t r : exists_where p t = false → r ∈ t → p r = false.
Proof. unfold exists_where. rewrite existsb_false. auto. Qed.

Lemma order_Ok (p : TurnRow → bool) thread index d t r : earlier_executing p thread index d = false → t ∈ t_turns d → p t = true →
  tu_threadId t = Some thread → tu_turnIndex t < index → r ∈ t_runs d → run_key r = (tu_ownerId t, tu_agentId t, tu_runId t) →
  executing (ru_status r) = false.
Proof.
  intros He Ht Hp Hth Hi Hr Hk. apply (exists_where_false _ _ t He) in Ht as Hx. rewrite Hp, bool_decide_true in Hx by done.
  replace (tu_turnIndex t <? index) with true in Hx by lia. cbn in Hx. apply (exists_where_false _ _ r Hx) in Hr as Hy.
  unfold run_key in Hk. injection Hk as Ho Ha Hid. by rewrite !bool_decide_true in Hy by done.
Qed.

Definition checkpoint_keys (d : Database) : Prop := NoDup (kp_runId <$> t_checkpoints d).

Lemma joined_checkpoint scope row c d : checkpoint_keys d → row ∈ joined_runs scope d → jo_checkpoint row = Some c →
  c ∈ t_checkpoints d ∧ kp_runId c = ru_id (jo_run row) ∧
  ∀ c', c' ∈ t_checkpoints d → kp_runId c' = ru_id (jo_run row) → c' = c.
Proof.
  intros Hn Hj Hc. apply joined_runs_elem in Hj as (_ & _ & _ & Hj). apply joined_elem in Hj as (_ & E & _).
  rewrite E in Hc. apply get_elem in Hc as [Hc Hk]. guards. destruct_and!. split; [done|]. split; [done|].
  intros c' Hc' Hk'. apply (key_inj kp_runId (t_checkpoints d)); try done. congruence.
Qed.

Lemma phase_goes_on scope row now d : checkpoint_keys d → row ∈ joined_runs scope d →
  (jo_phase row = Some phase_awaiting_approval → ∃ c, c ∈ t_checkpoints d ∧ kp_runId c = ru_id (jo_run row) ∧ approval_ready now d c = true) →
  match jo_phase row with
  | Some phase => includes phase RESUMABLE_CHECKPOINT_PHASES || (phase === phase_accepted)
  | None => ru_status (jo_run row) === accepted
  end = true → goes_on d now (ru_status (jo_run row)) (jo_checkpoint row).
Proof.
  intros Hn Hj Hw. unfold jo_phase in *. destruct (jo_checkpoint row) as [c|] eqn:Ec; cbn in *.
  - intros H. guards. destruct H as [H|H]; [|by apply goes_on_accepted]. unfold RESUMABLE_CHECKPOINT_PHASES in H.
    destruct (kp_phase c) eqn:Ep; try by (exfalso; set_solver).
    + apply goes_on_resumed. by left.
    + apply goes_on_approved; [done|]. destruct Hw as (c' & Hc' & Hk & Hr); [done|].
      destruct (joined_checkpoint scope row c d Hn Hj Ec) as (_ & _ & Hu). by rewrite <-(Hu c').
    + apply goes_on_resumed. by right.
  - intros H. guards. rewrite H. constructor.
Qed.

Lemma dispatchable_Ok scope row now d u d' : assertDispatchable scope row now d = (Ok u, d') → checkpoint_keys d → row ∈ joined_runs scope d →
  ru_status (jo_run row) ∈ RUN_DISPATCHABLE_STATUSES ∧ goes_on d now (ru_status (jo_run row)) (jo_checkpoint row) ∧
  ∀ thread index, ru_threadId (jo_run row) = Some thread → jo_turnIndex row = Some index →
    earlier_executing (λ t, (tu_ownerId t === sc_ownerId scope) && (tu_agentId t === sc_agentId scope)) thread index d = false.
Proof.
  unfold assertDispatchable. intros E Hn Hj. wk_Ok. split; [by guards|]. split.
  - eapply phase_goes_on; [done..| |].
    + intros Hp. match goal with H : (if _ then _ else _) _ = _ |- _ => rewrite bool_decide_true in H by done; wk_Ok end.
      match goal with H : negb _ = false |- _ => apply negb_false_iff, existsb_elem in H as (c & Hc & Hk) end.
      guards. destruct_and!. exists c. done.
    + destruct (jo_phase row); guards; naive_solver.
  - intros thread index Ht Hi. rewrite Ht, Hi in E. by wk_Ok.
Qed.

Record dispatch_keys (d : Database) : Prop := mk_dispatch_keys {
  dk_leases : lease_keys d;
  dk_names : NoDup (xl_executionLeaseId <$> t_executionLeases d);
  dk_checkpoints : checkpoint_keys d }.

Lemma replayed_over scope c input l : claim_replayed scope c input l = Ok false →
  live_at (qc_claimedAt input) l = false ∧ xl_revision l = qc_expectedLeaseRevision input.
Proof.
  unfold claim_replayed. intros E. inv_ok. match type of E with (if ?b then _ else _) = _ => destruct b; [done|] end.
  inv_ok. by guards.
Qed.

Lemma reconcile_account_spec o a x d : reconcile_account o a x d = false ↔
  ∀ r, r ∈ t_accounts d → (ac_ownerId r, ac_agentId r) = (o, a) → ac_runId r = Some x → ac_status r ≠ account_reconcile_required.
Proof.
  unfold reconcile_account, exists_where. rewrite existsb_false. split.
  - intros H r Hr [= Ho Ha] Hx Hs. specialize (H r Hr). by rewrite !bool_decide_true in H.
  - intros H r Hr. apply not_true_iff_false. intros E. guards. destruct_and!. eapply H; [done|congruence|done|done].
Qed.

Lemma readLeaseById_Ok id d o d' : readLeaseByExecutionId id d = (Ok o, d') →
  d' = d ∧ get_where (λ r, xl_executionLeaseId r === id) (t_executionLeases d) = o.
Proof.
  unfold readLeaseByExecutionId. intros E. wk_Ok. destruct (get_where _ _) as [row|]; wk_Ok; [|done].
  match goal with H : parseLease _ = Ok _ |- _ => by apply parseLease_Ok in H as -> end.
Qed.

Lemma claimed_checked scope c input row lease d d' : dispatch_keys d → claimed scope c input row lease d d' → claim_checked scope input row d.
Proof.
  intros [Hn Hx Hc] [_ Hrun Hover Hok _ _ _ _]. apply joinedRun_Ok in Hrun as (_ & Hj & Hi & _).
  unfold assertClaimable, assertRunBudgetDispatchable in Hok. wk_Ok.
  match goal with H : readLeaseByExecutionId _ _ = _ |- _ => apply readLeaseById_Ok in H as [_ Hid] end.
  apply dispatchable_Ok in Hok as (Hs & Hp & Ho); [|done..]. constructor; try done.
  - by guards.
  - by apply reconcile_account_spec.
  - intros thread index t r Ht Hti Hin [= Hto Hta] Hth Hlt Hr Hkey. eapply order_Ok; [by eapply Ho|exact Hin| |done..].
    cbn. by rewrite !bool_decide_true.
  - intros l Hl Hk. rewrite (lease_at_found _ _ _ l) in Hover by done. by eapply replayed_over.
  - intros l Hl Hk. apply (get_key xl_executionLeaseId _ (qc_executionLeaseId input) l) in Hx as [_ Hg].
    specialize (Hg (conj Hl Hk)). rewrite Hid in Hg. match goal with H : match ?o with _ => _ end = false |- _ => rewrite Hg in H; guards; destruct_and! end. unfold lease_key. congruence.
Qed.

(** C9 What a claim that is not a replay was checked for, and what it changes: the
    authority is current; the Run has the revision the claim expects, is not
    finished, and goes on from the start or from a checkpoint at which nothing is
    left unknown, an approval being answered or overdue; the budget of its models
    needs no reconciliation; no earlier turn of its Thread is still executing; the
    lease it had is released or expired; no other Run has a lease of that name.
    The lease is written, and nothing else. *)
Theorem claim_sound scope c input d receipt d' : dispatch_keys d →
  runDispatch_claim scope c input d = (Ok receipt, d') → hr_replayed receipt = false →
  (∃ lease deployment, authority_row scope d = Some (lease, deployment) ∧
     authority_stale scope (qc_claimedAt input) lease deployment = false) ∧
  (∃ row, claim_checked scope input row d) ∧
  answered_by scope c input (hr_lease receipt) (claimed_row scope c input) d' ∧
  d' = on_executions (upsert_lease (claimed_row scope c input)) d ∧
  (∀ l, l ∈ t_executionLeases d' ↔ l = claimed_row scope c input ∨ l ∈ t_executionLeases d ∧ lease_key l ≠ run_of scope (qc_runId input)).
Proof.
  intros Hk E Hb. pose proof (dk_leases _ Hk) as Hn.
  apply execute_Ok in E as (_ & _ & E). apply claim_Ok in E as [(_ & Hb' & _)|(_ & row & Hm)]; [congruence| |done].
  split; [by eapply authority_Ok, cm_authority|]. split; [exists row; by eapply claimed_checked|].
  split; [by eapply claimed_answered|]. split; [by destruct Hm|]. destruct Hm as [_ _ _ _ _ -> _ _]. intros l.
  by apply upsert_lease_elem.
Qed.

(** ** A database with four Runs

    [run-1] is new; [run-2] was lost while its workers ran; [run-3] is a later turn
    of the Thread of [run-1]; [run-4] was lost after its context was formed. *)
Definition dispatch_scope_1 : RunScope :=
  mkRunScope "owner" "agent" (DurableState.mkFence "deployment" 1 1) (Persistence.mkFence "authority" 1).
Definition dispatch_at_0 := "2026-01-01T12:00:00.000Z".
Definition dispatch_at_1 := "2026-01-01T12:00:10.000Z".
Definition dispatch_at_2 := "2026-01-01T12:00:20.000Z".
Definition dispatch_at_3 := "2026-01-01T12:00:30.000Z".
Definition dispatch_at_9 := "2026-01-01T13:00:00.000Z".

Definition dispatch_run (id trigger : string) (thread : option ThreadId) (revision : Z) (status : RunStatus) (createdAt : string)
    : RunRow := mkRunRow id "owner" "agent" thread "session" trigger revision status createdAt createdAt.
Definition dispatch_checkpoint (id : RunId) (phase : RunCheckpointPhase) : CheckpointRow :=
  mkCheckpointRow id "owner" "agent" 3 phase (Some "context") 2 None None None None None dispatch_at_0 None.
Definition dispatch_lost (id : RunId) (name : string) : ExecutionLeaseRow :=
  mkExecutionLease "owner" "agent" id 1 "authority" "deployment" 1 1 "worker-1" name dispatch_at_0 dispatch_at_1 dispatch_at_1 None.

Definition dispatch_database : Database :=
  mkDatabase ["owner"] ["agent"] [mkPayloadRow "context" "owner" "agent" data_private]
    [mkTriggerRow "trigger-1" "owner" "agent" "context"; mkTriggerRow "trigger-2" "owner" "agent" "context";
     mkTriggerRow "trigger-3" "owner" "agent" "context"; mkTriggerRow "trigger-4" "owner" "agent" "context"]
    [dispatch_run "run-1" "trigger-1" (Some "thread") 0 accepted dispatch_at_0;
     dispatch_run "run-2" "trigger-2" None 2 running dispatch_at_0;
     dispatch_run "run-3" "trigger-3" (Some "thread") 0 accepted dispatch_at_1;
     dispatch_run "run-4" "trigger-4" None 2 building_context dispatch_at_1]
    [] [] []
    [mkDeployment "deployment" "owner" "agent" 1 deployment_active 1 1 None]
    [mkLeaseRow "authority" "owner" "agent" "deployment" "host" 1 1 dispatch_at_0 dispatch_at_9 None] [] [] [] []
    [dispatch_lost "run-2" "execution-2"; dispatch_lost "run-4" "execution-4"]
    [] [] []
    [mkTurnRow "owner" "agent" (Some "thread") "run-1" 0; mkTurnRow "owner" "agent" (Some "thread") "run-3" 1]
    [dispatch_checkpoint "run-2" phase_workers_running; dispatch_checkpoint "run-4" phase_context_formed] [].

Definition claim_4 : RunClaimInput := mkRunClaim "run-4" 2 1 "execution-5" dispatch_at_2 dispatch_at_3.

Lemma claim_4_answered : ∃ receipt d, runDispatch_claim dispatch_scope_1 "worker-2" claim_4 dispatch_database = (Ok receipt, d) ∧
  hr_replayed receipt = false.
Proof. eexists _, _. vm_compute. done. Qed.

Lemma dispatch_database_keys : dispatch_keys dispatch_database.
Proof. constructor; apply keys_unique_spec; by vm_compute. Qed.

Lemma execution_lease_kept_witness : ∃ receipt d1 row, hr_replayed receipt = false ∧
  answered_by dispatch_scope_1 "worker-2" claim_4 (hr_lease receipt) row d1 ∧ ∀ d2, dispatched row d1 d2 →
  ∀ c input, qc_runId input = "run-4" → qc_executionLeaseId input ≠ "execution-5" → live_at (qc_claimedAt input) row = true →
  ∃ x, runDispatch_claim dispatch_scope_1 c input d2 = (Err x, d2).
Proof.
  destruct claim_4_answered as (receipt & d1 & E & Hb).
  destruct (execution_lease_kept _ _ _ _ _ _ (dk_leases _ dispatch_database_keys) E) as (row & Ha & H).
  exists receipt, d1, row. split; [exact Hb|]. split; [exact Ha|]. intros d2 Hd c input Hr Hx Hl. destruct (H d2 Hd) as [_ Hother].
  apply Hother; [by rewrite Hr|exact Hx|exact Hl].
Defined.

Lemma claim_sound_witness : ∃ receipt d1, answered_by dispatch_scope_1 "worker-2" claim_4 (hr_lease receipt)
    (claimed_row dispatch_scope_1 "worker-2" claim_4) d1 ∧
  (∃ row, claim_checked dispatch_scope_1 claim_4 row dispatch_database) ∧ dispatch_lost "run-2" "execution-2" ∈ t_executionLeases d1.
Proof.
  destruct claim_4_answered as (receipt & d1 & E & Hb).
  destruct (claim_sound _ _ _ _ _ _ dispatch_database_keys E Hb) as (_ & Hc & Ha & _ & Hl).
  exists receipt, d1. split; [exact Ha|]. split; [exact Hc|]. apply Hl. right. split; [by left|done].
Defined.
