(* ===== verification/DispatchProgress.v ===== *)
(** What the lists of RunDispatch.v are worth: a Run that is listed as claimable
    can be claimed, and one that is listed for reconciliation can be quarantined
    and is then listed no more. *)
From S2P Require Import Prelude Js JsDate JsJson JsParse Identifiers Entities.
From S2P Require Import Deterministic InMemoryAuth Coordination Persistence RunCoordination DurableState.
From S2P Require Import Sqlite SqliteSchema SqliteWorker SqliteStep RunDispatch DispatchGuarantees.
Local Open Scope Z_scope.

(** ** A database in order *)
Record dispatch_wf (d : Database) : Prop := mk_dispatch_wf {
  dw_leases : executionLeases_hold d = Ok tt;
  dw_runs : runs_hold d = Ok tt;
  dw_checkpoints : checkpoints_hold d = Ok tt;
  dw_readable : ∀ l, l ∈ t_executionLeases d → parseLease l = Ok l ∧ isCanonicalTimestamp (xl_expiresAt l) = true;
  dw_turns : ∀ t r, t ∈ t_turns d → r ∈ t_runs d → run_key r = (tu_ownerId t, tu_agentId t, tu_runId t) →
    tu_threadId t = ru_threadId r ∧ 0 ≤ tu_turnIndex t ≤ MAX_SAFE_INTEGER }.

Ltac holds_iff :=
  split;
  [ intros; inv_ok; repeat match goal with H : constraint _ _ _ = Ok _ |- _ => apply constraint_Ok in H end; done
  | intros; destruct_and?; repeat (rewrite (proj2 (constraint_Ok _ _ _ tt)); [cbn [mbind result_bind]|]); done ].

Lemma leases_hold_iff d : executionLeases_hold d = Ok tt ↔
  (∀ l, l ∈ t_executionLeases d → execution_checks l = true) ∧ lease_keys d ∧
  NoDup (xl_executionLeaseId <$> t_executionLeases d) ∧ ∀ l, l ∈ t_executionLeases d → execution_references d l = true.
Proof.
  unfold executionLeases_hold, lease_keys, check_holds, primary_holds, unique_holds, foreign_holds.
  rewrite <-!forallb_elem, <-!keys_unique_spec. holds_iff.
Qed.

Lemma runs_hold_iff d : runs_hold d = Ok tt ↔
  (∀ r, r ∈ t_runs d → (0 <=? ru_revision r) = true) ∧ NoDup (ru_id <$> t_runs d) ∧ NoDup (ru_triggerId <$> t_runs d) ∧
  ∀ r, r ∈ t_runs d → run_references d r = true.
Proof.
  unfold runs_hold, check_holds, primary_holds, unique_holds, foreign_holds.
  rewrite <-(forallb_elem (λ r, 0 <=? ru_revision r)), <-(forallb_elem (run_references d)), <-!keys_unique_spec. holds_iff.
Qed.

Lemma checkpoints_hold_iff d : checkpoints_hold d = Ok tt ↔
  (∀ c, c ∈ t_checkpoints d → checkpoint_checks c = true) ∧ checkpoint_keys d ∧
  ∀ c, c ∈ t_checkpoints d → checkpoint_references d c = true.
Proof.
  unfold checkpoints_hold, checkpoint_keys, check_holds, primary_holds, foreign_holds.
  rewrite <-!forallb_elem, <-!keys_unique_spec. holds_iff.
Qed.

(** *** The row of a Run *)
Lemma minimum_range (P : Z → Prop) n l : P n → (∀ x, x ∈ l → P x) → P (minimum n l).
Proof.
  unfold minimum. intros Hn Hl. induction l as [|x l IH]; [done|]. cbn.
  destruct (Z.min_dec x (foldr Z.min n l)) as [->| ->]; [apply Hl; left|]. apply IH. intros y Hy. apply Hl. by right.
Qed.

Lemma NoDup_all_same {A} (x : A) l : NoDup l → (∀ y, y ∈ l → y = x) → l = [] ∨ l = [x].
Proof.
  intros Hn Hl. destruct l as [|y l]; [by left|right]. rewrite (Hl y) in * by left. f_equal.
  destruct l as [|z l]; [done|]. apply NoDup_cons in Hn as [Hx _]. destruct Hx. rewrite (Hl z); [left|]. right. left.
Qed.

Section joined.
Context (d : Database) (Hwf : dispatch_wf d).

Lemma turns_of_run run t : run ∈ t_runs d → t ∈ all_where (λ t, (tu_runId t === ru_id run) && (tu_ownerId t === ru_ownerId run)
    && (tu_agentId t === ru_agentId run)) (t_turns d) →
  tu_threadId t = ru_threadId run ∧ 0 ≤ tu_turnIndex t ≤ MAX_SAFE_INTEGER.
Proof.
  intros Hr [Ht Hk]%elem_where. guards. destruct_and!. apply (dw_turns _ Hwf); [done..|]. unfold run_key. congruence.
Qed.

Lemma turn_groups_one run : run ∈ t_runs d → turn_groups run d = [] ∨
  ∃ n, turn_groups run d = [(ru_threadId run, n)] ∧ 0 ≤ n ≤ MAX_SAFE_INTEGER.
Proof.
  intros Hr. unfold turn_groups. set (turns := all_where _ _).
  destruct (NoDup_all_same (ru_threadId run) (remove_dups (tu_threadId <$> turns))) as [-> | ->].
  - apply NoDup_remove_dups.
  - intros y Hy. rewrite elem_of_remove_dups in Hy. apply list_elem_of_fmap in Hy as (t & -> & Ht). by apply turns_of_run.
  - by left.
  - right. eexists. split; [done|]. destruct (tu_turnIndex <$> _) as [|n l] eqn:E; [done|].
    assert (∀ x, x ∈ n :: l → 0 ≤ x ≤ MAX_SAFE_INTEGER) as Hx.
    { rewrite <-E. intros x (t & -> & [Ht _]%elem_where)%list_elem_of_fmap. by apply (turns_of_run run). }
    apply (minimum_range (λ x, 0 ≤ x ≤ MAX_SAFE_INTEGER)); intros; apply Hx; by constructor.
Qed.

Lemma joined_one run row row' : run ∈ t_runs d → row ∈ joined run d → row' ∈ joined run d → row = row'.
Proof.
  intros Hr. unfold joined. destruct (turn_groups_one run Hr) as [-> | (n & -> & _)]; set_solver.
Qed.

Lemma joined_runs_one scope row row' : row ∈ joined_runs scope d → row' ∈ joined_runs scope d →
  ru_id (jo_run row) = ru_id (jo_run row') → row = row'.
Proof.
  intros (Hr & _ & _ & Hj)%joined_runs_elem (Hr' & _ & _ & Hj')%joined_runs_elem Hid.
  pose proof (proj1 (runs_hold_iff d) (dw_runs _ Hwf)) as (_ & Hn & _).
  assert (jo_run row = jo_run row') as E by by apply (key_inj ru_id (t_runs d)). rewrite <-E in Hj'. exact (joined_one _ _ _ Hr Hj Hj').
Qed.

Lemma joined_turn scope row : row ∈ joined_runs scope d → match jo_turn row with
  | Some (thread, n) => thread = ru_threadId (jo_run row) ∧ 0 ≤ n ≤ MAX_SAFE_INTEGER
  | None => True
  end.
Proof.
  intros (Hr & _ & _ & Hj)%joined_runs_elem. apply joined_elem in Hj as (_ & _ & _ & Ht).
  destruct (jo_turn row) as [[thread n]|]; [|done]. destruct (turn_groups_one _ Hr) as [E|(m & E & Hm)]; rewrite E in Ht; set_solver.
Qed.

Lemma readRun_run scope row : row ∈ joined_runs scope d → parse_joined row = Ok tt →
  readRun scope (ru_id (jo_run row)) d = (Ok (Some row), d).
Proof.
  intros Hj Hp. unfold readRun, gets, mbind at 1, M_bind. destruct (get_where _ _) as [row'|] eqn:E.
  - apply get_elem in E as [Hj' Hid]. guards. apply (joined_runs_one scope row' row) in Hid as ->; [|done..].
    rewrite (bind_run _ _ d tt d) by (unfold lift; by rewrite Hp). done.
  - rewrite get_None in E. specialize (E row Hj). guards. done.
Qed.

Lemma lease_at_joined scope row : row ∈ joined_runs scope d → lease_at scope (ru_id (jo_run row)) d = jo_lease row.
Proof.
  intros (Hr & Ho & Ha & Hj)%joined_runs_elem. apply joined_elem in Hj as (_ & _ & -> & _). unfold lease_at.
  apply get_where_ext. intros r. rewrite lease_key_spec, Ho, Ha. destruct (_ === _), (_ === _), (_ === _); done.
Qed.
End joined.

(** ** Fields that pass *)
Lemma machine_text s : MACHINE_IDENTIFIER_PATTERN s = true → s ≠ "" ∧ not_blank s = true.
Proof.
  destruct s as [|c s]; [done|]. intros H. split; [done|]. cbn [not_blank]. destruct (Ascii.eqb c " ") eqn:E; [|done].
  apply Ascii.eqb_eq in E as ->. by cbn in H.
Qed.

Lemma machine_nonempty s : MACHINE_IDENTIFIER_PATTERN s = true → s ≠ "".
Proof. by intros [? _]%machine_text. Qed.

Lemma machine_not_blank s : MACHINE_IDENTIFIER_PATTERN s = true → not_blank s = true.
Proof. by intros [_ ?]%machine_text. Qed.

Lemma dispatch_text_run s name : s ≠ "" → dispatch_text s name = Ok s.
Proof. intros H. unfold dispatch_text. by rewrite bool_decide_false. Qed.

Lemma machineText_run s name : MACHINE_IDENTIFIER_PATTERN s = true → dispatch_machineText s name = Ok s.
Proof. intros H. unfold dispatch_machineText. rewrite dispatch_text_run by by apply machine_nonempty. cbn. by rewrite H. Qed.

Lemma identified_iff s kind v : identified s kind = Ok v ↔ v = s ∧ MACHINE_IDENTIFIER_PATTERN s = true.
Proof.
  unfold identified. pose proof (createIdentifier_Ok s kind v) as H. destruct (createIdentifier s kind); naive_solver.
Qed.

Lemma identified_run s kind : MACHINE_IDENTIFIER_PATTERN s = true → identified s kind = Ok s.
Proof. intros H. by apply identified_iff. Qed.

Lemma isAfter_canonical a b : isCanonicalTimestamp a = true → isCanonicalTimestamp b = true → isAfter a b = str_lt b a.
Proof.
  intros (t & Ht & -> & Hp)%isCanonicalTimestamp_inv (u & Hu & -> & Hq)%isCanonicalTimestamp_inv.
  unfold isAfter. rewrite Hp, Hq. symmetry. by apply toISOString_lt.
Qed.

Lemma instant_run s name : isCanonicalTimestamp s = true → dispatch_instant s name = Ok s.
Proof.
  intros (t & Ht & Hs & Hp)%isCanonicalTimestamp_inv. unfold dispatch_instant.
  rewrite dispatch_text_run by (intros ->; by vm_compute in Hp). cbn. by rewrite Hp.
Qed.

Lemma over_not_live now l : isCanonicalTimestamp now = true → isCanonicalTimestamp (xl_expiresAt l) = true →
  lease_over now (Some l) = true → live_at now l = false.
Proof.
  intros Hn Hx Ho. unfold live_at. rewrite isAfter_canonical by done. cbn in Ho. guards.
  destruct Ho as [Ho|Ho]; [by left|right]. unfold str_le in Ho. guards. done.
Qed.

(** ** Writing a lease *)
Lemma upsert_lease_keys row t : NoDup (lease_key <$> t) → NoDup (lease_key <$> upsert_lease row t).
Proof.
  intros Hn. unfold upsert_lease. destruct (fresh_key _ _ _) eqn:E.
  - apply fresh_spec in E. unfold insert_row. rewrite fmap_app. apply NoDup_app. split; [done|]. split; [|apply NoDup_singleton].
    intros k Hk. cbn. rewrite list_elem_of_singleton. by intros ->.
  - clear E. replace (lease_key <$> update_where _ _ t) with (lease_key <$> t); [done|].
    unfold update_where. rewrite <-list_fmap_compose. apply list_fmap_ext. intros i r _. cbn.
    destruct (lease_key r === lease_key row) eqn:E; [|done]. by guards.
Qed.

Lemma upsert_names row t : NoDup (lease_key <$> t) → NoDup (xl_executionLeaseId <$> t) →
  (xl_executionLeaseId row ∉ xl_executionLeaseId <$> t) → NoDup (xl_executionLeaseId <$> upsert_lease row t).
Proof.
  intros Hn Hx Hr. unfold upsert_lease. destruct (fresh_key _ _ _).
  - unfold insert_row. rewrite fmap_app. apply NoDup_app. split; [done|]. split; [|apply NoDup_singleton].
    intros k Hk. cbn. rewrite list_elem_of_singleton. by intros ->.
  - induction t as [|r t IH]; [done|]. rewrite update_cons. rewrite !fmap_cons in *.
    apply NoDup_cons in Hn as [Hk Hn], Hx as [Hi Hx].
    apply not_elem_of_cons in Hr as [Hne Hr]. destruct (lease_key r === lease_key row) eqn:E.
    + guards. rewrite (update_where_none _ _ t); [by apply NoDup_cons|]. intros r' Hr'. apply bool_decide_eq_false.
      intros E'. apply Hk. apply list_elem_of_fmap. exists r'. split; [congruence|done].
    + apply NoDup_cons. split; [|by apply IH]. rewrite list_elem_of_fmap. intros (r' & Hr' & He).
      apply elem_update in He as [(r0 & _ & _ & ->)|[He _]]; [congruence|]. apply Hi. apply list_elem_of_fmap. eauto.
Qed.

Lemma upsert_holds row d : executionLeases_hold d = Ok tt → execution_checks row = true → execution_references d row = true →
  (xl_executionLeaseId row ∉ xl_executionLeaseId <$> t_executionLeases d) →
  executionLeases_hold (on_executions (upsert_lease row) d) = Ok tt.
Proof.
  rewrite !leases_hold_iff. intros (Hc & Hk & Hn & Hr) Hrow Href Hx. unfold lease_keys in *. cbn.
  split; [|split; [by apply upsert_lease_keys|split; [by apply upsert_names|]]]; intros l Hl; apply upsert_lease_elem in Hl; try done.
  - destruct Hl as [->|[Hl _]]; auto.
  - destruct Hl as [->|[Hl _]]; [done|]. by apply Hr.
Qed.

Lemma update_holds p f d : executionLeases_hold d = Ok tt →
  (∀ l, lease_key (f l) = lease_key l ∧ xl_executionLeaseId (f l) = xl_executionLeaseId l
    ∧ execution_references d (f l) = execution_references d l) →
  (∀ l, l ∈ t_executionLeases d → p l = true → execution_checks (f l) = true) →
  executionLeases_hold (on_executions (update_where p f) d) = Ok tt.
Proof.
  rewrite !leases_hold_iff. intros (Hc & Hk & Hn & Hr) Hf Hp. unfold lease_keys in *. cbn.
  rewrite !update_key by apply Hf. split; [|split; [done|split; [done|]]]; intros l Hl; apply elem_update in Hl.
  - destruct Hl as [(l0 & Hl & Hpl & ->)|[Hl _]]; auto.
  - change (execution_references d l = true). destruct Hl as [(l0 & Hl & _ & ->)|[Hl _]]; [|by apply Hr].
    destruct (Hf l0) as (_ & _ & ->). by apply Hr.
Qed.

(** ** The candidates of a list *)
Record candidate_of (scope : RunScope) (row : JoinedRun) (c : RunDispatchCandidate) (d : Database) : Prop := mk_candidate_of {
  co_joined : row ∈ joined_runs scope d;
  co_parsed : parse_joined_rest row = Ok tt;
  co_ids : MACHINE_IDENTIFIER_PATTERN (ru_ownerId (jo_run row)) = true ∧ MACHINE_IDENTIFIER_PATTERN (ru_agentId (jo_run row)) = true ∧
    MACHINE_IDENTIFIER_PATTERN (ru_id (jo_run row)) = true;
  co_run : dx_runId c = ru_id (jo_run row);
  co_revision : dx_runRevision c = ru_revision (jo_run row);
  co_lease : dx_leaseRevision c = jo_leaseRevision row }.

Lemma candidates_elem b rows l c : candidates b rows = Ok l → c ∈ l → ∃ row, row ∈ rows ∧ candidate b row = Ok c.
Proof.
  revert l. induction rows as [|row rows IH]; cbn; intros l E Hc; inv_ok; [set_solver|].
  apply elem_of_cons in Hc as [->|Hc]; [exists row; by split; [left|]|].
  edestruct IH as (row' & Hr & Hrow); [done..|]. exists row'. by split; [right|].
Qed.

Lemma candidate_Ok b scope row c d : row ∈ joined_runs scope d → candidate b row = Ok c → candidate_of scope row c d.
Proof.
  intros Hj E. unfold candidate in E. inv_ok. repeat match goal with H : identified _ _ = Ok _ |- _ => apply identified_iff in H as [-> ?] end.
  match goal with H : parse_joined_rest _ = Ok ?u |- _ => destruct u end. by constructor.
Qed.

Lemma execute_inner {A} scope c (m : Wk A) d a d' : executeRunDispatch scope c m d = (Ok a, d') →
  dispatch_scope scope c = Ok tt ∧ m d = (Ok a, d').
Proof.
  unfold executeRunDispatch. destruct (dispatch_scope scope c) as [[]|]; [|done]. intros E. split; [done|].
  destruct (m d) as [[b|x] d1]; [done|]. by destruct x.
Qed.

Lemma listed_Ok b p scope input d l d' : listed b p scope input d = (Ok l, d') →
  dispatch_assertCurrentAuthority scope (li_now input) d = (Ok tt, d) ∧
  ∀ c, c ∈ l → ∃ row, p d row = true ∧ candidate_of scope row c d.
Proof.
  unfold listed. intros E. wk_Ok. split.
  { match goal with H : dispatch_assertCurrentAuthority _ _ _ = (Ok ?u, _) |- _ => by destruct u end. }
  intros c Hc. eapply candidates_elem in Hc as (row & Hr & Hrow); [|done].
  apply order_limit_elem in Hr. apply elem_where in Hr as [Hr Hp]. exists row. split; [done|]. by eapply candidate_Ok.
Qed.

Lemma candidate_parsed scope row c d : dispatch_wf d → candidate_of scope row c d → parse_joined row = Ok tt.
Proof.
  intros Hwf [Hj Hp (Ho & Ha & Hi) _ _ _]. unfold parse_joined.
  rewrite !dispatch_text_run by by apply machine_nonempty. cbn. rewrite Hp. cbn.
  apply (joined_turn d Hwf) in Hj. unfold jo_turnIndex. destruct (jo_turn row) as [[thread n]|]; [|done]. destruct Hj as [_ Hn]. cbn.
  unfold safeInteger, isSafeInteger. replace (Z.abs n <=? MAX_SAFE_INTEGER) with true by lia.
  by replace (n <? 0) with false by lia.
Qed.

Lemma earlier_false (p : TurnRow → bool) thread index d : earlier_executing (λ _, true) thread index d = false →
  earlier_executing p thread index d = false.
Proof.
  unfold earlier_executing, exists_where at 1 3. rewrite !existsb_false. intros H t Ht. specialize (H t Ht). cbn in H.
  destruct (p t); [done|]. done.
Qed.

Lemma awaiting_run scope row now d : row ∈ joined_runs scope d → resumable now row d = true →
  jo_phase row = Some phase_awaiting_approval →
  exists_where (λ c, (kp_runId c === ru_id (jo_run row)) && (kp_ownerId c === sc_ownerId scope)
    && (kp_agentId c === sc_agentId scope) && approval_ready now d c) (t_checkpoints d) = true.
Proof.
  intros (_ & Ho & Ha & Hj)%joined_runs_elem Hr Hp. apply joined_elem in Hj as (_ & Hc & _). unfold jo_phase, resumable in *.
  destruct (jo_checkpoint row) as [c|]; [|done]. injection Hp as Hp. symmetry in Hc. apply get_elem in Hc as [Hc Hk].
  unfold exists_where. apply existsb_elem. exists c. split; [done|]. rewrite <-Ho, <-Ha, Hk. cbn. rewrite Hp in Hr.
  rewrite !(bool_decide_false (phase_awaiting_approval = _)), andb_false_r in Hr by done. by rewrite bool_decide_true in Hr.
Qed.

Lemma dispatchable_run scope row now d : dispatch_wf d → row ∈ joined_runs scope d → claimable now d row = true →
  assertDispatchable scope row now d = (Ok tt, d).
Proof.
  intros Hwf Hj Hc. unfold claimable in Hc. rewrite !andb_true_iff in Hc. destruct Hc as [[[[Hs Hr] _] _] Ht].
  unfold assertDispatchable. rewrite Hs. cbn [negb]. rewrite (bind_run _ _ d tt d).
  2:{ destruct (jo_phase row === Some phase_awaiting_approval) eqn:E; [|done]. apply bool_decide_eq_true in E.
      rewrite (bind_run _ _ d true d); [done|]. unfold gets. by rewrite awaiting_run. }
  rewrite (bind_run _ _ d tt d) by done. unfold jo_phase. unfold resumable in Hr.
  assert (match kp_phase <$> jo_checkpoint row with
    | Some phase => negb (includes phase RECONCILIATION_CHECKPOINT_PHASES)
        && (includes phase RESUMABLE_CHECKPOINT_PHASES || (phase === phase_accepted))
    | None => ru_status (jo_run row) === accepted end = true) as Hp.
  { destruct (jo_checkpoint row) as [c|]; [|done]. cbn. destruct (kp_phase c); try done; by rewrite andb_false_r in Hr. }
  clear Hr. rewrite (bind_run _ _ d tt d); [rewrite (bind_run _ _ d tt d); [rewrite (bind_run _ _ d tt d)|]|].
  - apply (joined_turn d Hwf) in Hj. unfold jo_turnIndex. destruct (ru_threadId (jo_run row)) as [thread|]; [|done].
    destruct (jo_turn row) as [[th n]|]; [|done]. destruct Hj as [-> _]. apply negb_true_iff in Ht. cbn.
    rewrite (bind_run _ _ d false d); [done|]. unfold gets. by rewrite (earlier_false _ thread n).
  - destruct (kp_phase <$> jo_checkpoint row); cbn; [done|]. by rewrite Hp.
  - destruct (kp_phase <$> jo_checkpoint row); [|done]. apply andb_true_iff in Hp as [_ Hp]. by rewrite <-negb_orb, Hp.
  - destruct (kp_phase <$> jo_checkpoint row); [|done]. apply andb_true_iff in Hp as [Hp%negb_true_iff _]. by rewrite Hp.
Qed.

Lemma authority_rows scope d l dep : authority_row scope d = Some (l, dep) →
  l ∈ t_leases d ∧ le_id l = af_leaseId (sc_authorityLease scope) ∧ dep ∈ t_deployments d ∧
  dep_ownerId dep = sc_ownerId scope ∧ dep_agentId dep = sc_agentId scope ∧ dep_id dep = le_deploymentId l.
Proof.
  unfold authority_row. intros E. destruct (get_where _ (t_leases d)) as [l'|] eqn:El; [|done]. cbn in E.
  destruct (get_where _ (t_deployments d)) as [dep'|] eqn:Ed; [|done]. injection E as -> ->.
  apply get_elem in El as [? ?], Ed as [? ?]. guards. destruct_and!. repeat split; try done; congruence.
Qed.

Lemma stale_deployment scope now l dep : authority_stale scope now l dep = false →
  le_deploymentId l = fence_deploymentId (sc_authority scope).
Proof. unfold authority_stale. intros H. guards. by destruct_and!. Qed.

Lemma machineText_Ok s name v : dispatch_machineText s name = Ok v → MACHINE_IDENTIFIER_PATTERN s = true.
Proof.
  unfold dispatch_machineText, dispatch_text. intros E. inv_ok. by guards.
Qed.

Record scope_ready (scope : RunScope) (consumerId : string) : Prop := mk_scope_ready {
  sr_owner : MACHINE_IDENTIFIER_PATTERN (sc_ownerId scope) = true;
  sr_agent : MACHINE_IDENTIFIER_PATTERN (sc_agentId scope) = true;
  sr_deployment : MACHINE_IDENTIFIER_PATTERN (fence_deploymentId (sc_authority scope)) = true;
  sr_lease : MACHINE_IDENTIFIER_PATTERN (af_leaseId (sc_authorityLease scope)) = true;
  sr_consumer : MACHINE_IDENTIFIER_PATTERN consumerId = true;
  sr_epoch : 1 ≤ fence_authorityEpoch (sc_authority scope) ≤ MAX_SAFE_INTEGER;
  sr_token : 1 ≤ fence_fencingToken (sc_authority scope) ≤ MAX_SAFE_INTEGER }.

Lemma dispatch_scope_ready scope c : dispatch_scope scope c = Ok tt → scope_ready scope c.
Proof.
  unfold dispatch_scope. intros E. inv_ok.
  repeat match goal with
  | H : identified _ _ = Ok _ |- _ => apply identified_iff in H as [_ ?]
  | H : safeInteger _ _ _ = Ok _ |- _ => apply safeInteger_iff in H as (_ & ? & ?)
  | H : dispatch_machineText _ _ = Ok _ |- _ => apply machineText_Ok in H
  end. constructor; try done; lia.
Qed.

Lemma safeInteger_run' n name minimum : minimum ≤ n → Z.abs n ≤ MAX_SAFE_INTEGER → safeInteger n name minimum = Ok n.
Proof. intros. by apply safeInteger_iff. Qed.

Section claim.
Context (scope : RunScope) (consumerId : string) (input : RunClaimInput).
Context (Hready : scope_ready scope consumerId) (Hrun : MACHINE_IDENTIFIER_PATTERN (qc_runId input) = true)
  (Hid : MACHINE_IDENTIFIER_PATTERN (qc_executionLeaseId input) = true)
  (Hrev : 0 ≤ qc_expectedLeaseRevision input < MAX_SAFE_INTEGER)
  (Hnow : isCanonicalTimestamp (qc_claimedAt input) = true) (Hexp : isCanonicalTimestamp (qc_expiresAt input) = true)
  (Hlt : str_lt (qc_claimedAt input) (qc_expiresAt input) = true).

Lemma canonical_nonempty s : isCanonicalTimestamp s = true → s ≠ "".
Proof. by intros H ->. Qed.

Lemma claimed_parsed : parseLease (claimed_row scope consumerId input) = Ok (claimed_row scope consumerId input).
Proof.
  destruct Hready. unfold parseLease. cbn. rewrite !dispatch_text_run by (first [by apply machine_nonempty|by apply canonical_nonempty]).
  rewrite !safeInteger_run' by lia. done.
Qed.

Lemma claimed_lease : ∃ lease, toLease (claimed_row scope consumerId input) = Ok lease.
Proof. destruct Hready. unfold toLease. cbn. rewrite !identified_run by done. by eexists. Qed.

Lemma claimed_checks : execution_checks (claimed_row scope consumerId input) = true.
Proof.
  destruct Hready. unfold execution_checks, in_safe_range. cbn. rewrite Hlt, !machine_not_blank by done.
  unfold MAX_SAFE_INTEGER in *. rewrite !andb_true_iff, !Z.leb_le. lia.
Qed.

Lemma claimed_references row now d : row ∈ joined_runs scope d → ru_id (jo_run row) = qc_runId input →
  dispatch_assertCurrentAuthority scope now d = (Ok tt, d) →
  execution_references d (claimed_row scope consumerId input) = true.
Proof.
  intros (Hr & Ho & Ha & _)%joined_runs_elem Hrow Hauth.
  apply authority_Ok in Hauth as (l & dep & Hrows & Hs). apply authority_rows in Hrows as (Hl & Hl' & Hdep & Hdo & Hda & Hdi).
  apply stale_deployment in Hs. unfold execution_references. cbn.
  rewrite !andb_true_iff, existsb_elem. repeat split.
  - apply includes_spec, list_elem_of_fmap. exists (jo_run row). split; [|done]. unfold run_key, lease_key. cbn. congruence.
  - apply includes_spec, list_elem_of_fmap. by exists l.
  - exists dep. split; [done|]. apply bool_decide_eq_true. congruence.
Qed.
End claim.

Lemma unused_identity id d : (id ∉ xl_executionLeaseId <$> t_executionLeases d) → readLeaseByExecutionId id d = (Ok None, d).
Proof.
  intros H. unfold readLeaseByExecutionId. rewrite (bind_run _ _ d None d); [done|]. unfold gets.
  replace (get_where _ _) with (@None ExecutionLeaseRow); [done|]. symmetry. apply get_None. intros r Hr. apply bool_decide_eq_false.
  intros E. apply H, list_elem_of_fmap. eauto.
Qed.

(** A Run that may be claimed is. *)
Lemma claim_run scope consumerId input row d : dispatch_wf d → scope_ready scope consumerId →
  dispatch_assertCurrentAuthority scope (qc_claimedAt input) d = (Ok tt, d) →
  row ∈ joined_runs scope d → parse_joined row = Ok tt → claimable (qc_claimedAt input) d row = true →
  MACHINE_IDENTIFIER_PATTERN (qc_runId input) = true → ru_id (jo_run row) = qc_runId input →
  ru_revision (jo_run row) = qc_expectedRunRevision input →
  jo_leaseRevision row = qc_expectedLeaseRevision input → 0 ≤ qc_expectedLeaseRevision input < MAX_SAFE_INTEGER →
  MACHINE_IDENTIFIER_PATTERN (qc_executionLeaseId input) = true →
  (qc_executionLeaseId input ∉ xl_executionLeaseId <$> t_executionLeases d) →
  isCanonicalTimestamp (qc_claimedAt input) = true → isCanonicalTimestamp (qc_expiresAt input) = true →
  str_lt (qc_claimedAt input) (qc_expiresAt input) = true →
  ∃ lease, claim_transaction scope consumerId input d =
    (Ok (mkLeaseReceipt lease false), on_executions (upsert_lease (claimed_row scope consumerId input)) d).
Proof.
  intros Hwf Hready Hauth Hj Hp Hcl Hrun Hid Hrev Hlr Hmax Hx Hnew Hnow Hexp Hlt.
  destruct (claimed_lease scope consumerId input) as [lease Hlease]; [done..|]. exists lease. unfold claim_transaction.
  rewrite (bind_run _ _ d tt d) by done.
  rewrite (bind_run _ _ d (Some row) d) by (rewrite <-Hid; by apply readRun_run).
  pose proof (lease_at_joined d scope row Hj) as Hat. rewrite Hid in Hat.
  pose proof Hcl as Hcl'. unfold claimable in Hcl'. rewrite !andb_true_iff in Hcl'. destruct Hcl' as [[[_ Hover] Hrec%negb_true_iff] _].
  rewrite (bind_run _ _ d (jo_lease row) d).
  2:{ rewrite readLease_run, Hat. destruct (jo_lease row) as [l|]; [|done]. apply lease_at_elem in Hat as [Hl _].
      apply (dw_readable _ Hwf) in Hl as [-> _]. done. }
  rewrite (bind_run _ _ d false d).
  2:{ unfold jo_leaseRevision in Hlr. destruct (jo_lease row) as [l|]; [|by rewrite <-Hlr].
      apply lease_at_elem in Hat as [Hl _]. unfold lift, claim_replayed.
      rewrite (over_not_live _ l) by (try done; by apply (dw_readable _ Hwf) in Hl as []).
      rewrite (bool_decide_false (xl_executionLeaseId l = _)).
      - cbn. by rewrite Hlr, bool_decide_true.
      - intros E. apply Hnew, list_elem_of_fmap. eauto. }
  replace (match jo_lease row with Some _ => _ | None => _ end) with
    (assertClaimable scope input row ;; write_executionLeases (upsert_lease (claimed_row scope consumerId input)) ;;
     lease_receipt scope (qc_runId input) false "Claimed lease could not be read") by (by destruct (jo_lease row)).
  rewrite (bind_run _ _ d tt d).
  2:{ unfold assertClaimable, assertRunBudgetDispatchable. pose proof Hj as (_ & Ho & Ha & _)%joined_runs_elem.
      rewrite (bind_run _ _ d tt d).
      2:{ rewrite (bind_run _ _ d false d); [done|]. unfold gets. unfold run_reconciles in Hrec. by rewrite Ho, Ha, Hid in Hrec; rewrite Hrec. }
      rewrite (bind_run _ _ d None d) by by apply unused_identity. rewrite (bind_run _ _ d tt d) by done.
      rewrite (bind_run _ _ d tt d) by (by rewrite Hrev, bool_decide_true). by apply dispatchable_run. }
  set (d' := on_executions _ _).
  assert (executionLeases_hold d' = Ok tt) as Hholds.
  { apply upsert_holds; [apply Hwf|by apply claimed_checks|by eapply claimed_references|done]. }
  rewrite (bind_run _ _ d tt d') by by apply write_Ok.
  unfold lease_receipt. rewrite (bind_run _ _ d' (Some (claimed_row scope consumerId input)) d').
  - rewrite (bind_run _ _ d' lease d'); [done|]. unfold lift. by rewrite Hlease.
  - rewrite readLease_run. rewrite (lease_at_found _ _ _ (claimed_row scope consumerId input)).
    + by rewrite claimed_parsed.
    + by apply executionLeases_hold_keys.
    + apply upsert_lease_elem; [by apply executionLeases_hold_keys, Hwf|]. by left.
    + done.
Qed.

Lemma parseClaim_run input : MACHINE_IDENTIFIER_PATTERN (qc_runId input) = true →
  MACHINE_IDENTIFIER_PATTERN (qc_executionLeaseId input) = true →
  0 ≤ qc_expectedRunRevision input ≤ MAX_SAFE_INTEGER → 0 ≤ qc_expectedLeaseRevision input ≤ MAX_SAFE_INTEGER →
  isCanonicalTimestamp (qc_claimedAt input) = true → isCanonicalTimestamp (qc_expiresAt input) = true →
  str_lt (qc_claimedAt input) (qc_expiresAt input) = true → parseClaim input = Ok tt.
Proof.
  intros Hrun Hid Hr Hl Hn He Hlt. unfold parseClaim, parse_run, assertTimeOrder.
  rewrite !machineText_run, !identified_run by done. cbn. rewrite !safeInteger_run' by lia. cbn.
  rewrite !instant_run by done. cbn. by rewrite isAfter_canonical, Hlt.
Qed.

Lemma candidate_revision scope row c d : candidate_of scope row c d → 0 ≤ dx_runRevision c ≤ MAX_SAFE_INTEGER.
Proof.
  intros [_ Hp _ _ -> _]. unfold parse_joined_rest in Hp. inv_ok.
  repeat match goal with H : safeInteger _ _ _ = Ok _ |- _ => apply safeInteger_iff in H as (_ & ? & ?) end. lia.
Qed.

Lemma candidate_leaseRevision scope row c d : candidate_of scope row c d → 0 ≤ dx_leaseRevision c.
Proof.
  intros [_ Hp _ _ _ ->]. unfold parse_joined_rest in Hp. inv_ok.
  repeat match goal with H : safeInteger _ _ _ = Ok _ |- _ => apply safeInteger_iff in H as (_ & ? & ?) end. lia.
Qed.

Lemma execute_dispatch {A} scope c (p : result failure unit) (m : Wk A) d a d' : dispatch_scope scope c = Ok tt → p = Ok tt →
  m d = (Ok a, d') → executeRunDispatch scope c (lift p ;; transaction m) d = (Ok a, d').
Proof.
  intros Hs Hp Hm. unfold executeRunDispatch. rewrite Hs.
  assert ((lift p ;; transaction m) d = (Ok a, d')) as ->; [|done].
  rewrite (bind_run _ _ d tt d) by (unfold lift; by rewrite Hp). by apply transaction_Ok.
Qed.

(** C10 Every Run that is listed as claimable can be claimed.  The consumer that
    was given the list claims it, at the time of the list, with the revisions
    the list names, under an identity no lease has: it gets the lease, and
    nothing but this lease is written.  The Run can be at any of its stages: accepted, with its
    context formed, its runtime settled, or waiting for an approval that was
    decided or came too late. *)
Theorem listed_run_claimable scope consumerId input d l d' c executionLeaseId expiresAt : dispatch_wf d →
  runDispatch_listClaimable scope consumerId input d = (Ok l, d') → c ∈ l →
  isCanonicalTimestamp (li_now input) = true → isCanonicalTimestamp expiresAt = true →
  str_lt (li_now input) expiresAt = true → MACHINE_IDENTIFIER_PATTERN executionLeaseId = true →
  (executionLeaseId ∉ xl_executionLeaseId <$> t_executionLeases d) → dx_leaseRevision c < MAX_SAFE_INTEGER →
  let claim := mkRunClaim (dx_runId c) (dx_runRevision c) (dx_leaseRevision c) executionLeaseId (li_now input) expiresAt in
  ∃ lease, runDispatch_claim scope consumerId claim d = (Ok (mkLeaseReceipt lease false),
    on_executions (upsert_lease (claimed_row scope consumerId claim)) d).
Proof.
  intros Hwf E Hc Hn He Hlt Hx Hnew Hmax claim. apply execute_inner in E as [Hs E]. unfold listClaimable in E.
  apply listed_Ok in E as [Hauth Hl]. apply Hl in Hc as (row & Hcl & Hrow).
  pose proof (candidate_revision _ _ _ _ Hrow). pose proof (candidate_leaseRevision _ _ _ _ Hrow).
  pose proof (candidate_parsed _ _ _ _ Hwf Hrow). destruct Hrow as [Hj _ (_ & _ & Hid) Er Ev El].
  edestruct (claim_run scope consumerId claim row d) as [lease Hclaim]; subst claim; cbn; rewrite ?Er, ?Ev, ?El in *;
    [try done; try lia; by apply dispatch_scope_ready..|].
  exists lease. apply execute_dispatch; [done| |done]. apply parseClaim_run; cbn; try done; lia.
Qed.

(** ** Quarantine *)
Definition on_runs (f : list RunRow → list RunRow) (d : Database) : Database := d <| t_runs := f (t_runs d) |>.
Definition on_checkpoints (f : list CheckpointRow → list CheckpointRow) (d : Database) : Database :=
  d <| t_checkpoints := f (t_checkpoints d) |>.

Lemma ended_checks now l : execution_checks l = true → lease_over now (Some l) = true → xl_releasedAt l = None →
  xl_revision l < MAX_SAFE_INTEGER → execution_checks (ended (xl_revision l + 1) now l) = true.
Proof.
  unfold execution_checks, in_safe_range, MAX_SAFE_INTEGER. cbn. intros H Ho Hr Hm. rewrite Hr in *. cbn in Ho.
  rewrite !andb_true_iff, ?Z.leb_le in *. destruct H as (((((((((?&?)&?)&?)&?)&?)&?)&?)&He)&_).
  assert (str_le (xl_claimedAt l) now = true); [|repeat split; try done; lia].
  apply (str_le_trans _ (xl_expiresAt l)); [|done]. apply str_le_spec. by left.
Qed.

Section quarantine.
Context (scope : RunScope) (consumerId : string) (input : RunQuarantineInput) (row : JoinedRun) (d : Database).
Context (Hwf : dispatch_wf d) (Hj : row ∈ joined_runs scope d) (Hid : ru_id (jo_run row) = qn_runId input)
  (Hnow : isCanonicalTimestamp (qn_at input) = true) (Hover : lease_over (qn_at input) (jo_lease row) = true)
  (Hrev : jo_leaseRevision row < MAX_SAFE_INTEGER)
  (Hck : ∀ k, k ∈ t_checkpoints d → kp_runId k = qn_runId input → kp_revision k < MAX_SAFE_INTEGER).

Definition lease_ended : Database := match jo_lease row with
  | Some l => if is_none (xl_releasedAt l) then
      on_executions (update_where (scoped_lease scope (qn_runId input)) (λ r, ended (xl_revision r + 1) (qn_at input) r)) d
    else d
  | None => d
  end.
Definition run_marked : Database := on_runs (update_where (scoped_run scope (qn_runId input))
  (λ r, r <| ru_status := reconciling_external_result |> <| ru_revision := ru_revision r + 1 |>
          <| ru_updatedAt := qn_at input |>)) lease_ended.
Definition quarantined : Database := on_checkpoints (upsert_reconciling scope input) run_marked.

Lemma scoped_key l : scoped_lease scope (qn_runId input) l = true ↔ lease_key l = run_of scope (qn_runId input).
Proof.
  unfold scoped_lease, lease_key. rewrite !andb_true_iff, !bool_decide_eq_true.
  split; [by intros [[-> ->] ->]|by intros [= -> -> ->]].
Qed.

Lemma lease_of_run : lease_at scope (qn_runId input) d = jo_lease row.
Proof. rewrite <-Hid. by apply lease_at_joined. Qed.

Lemma scoped_unique l l' : jo_lease row = Some l → l' ∈ t_executionLeases d →
  scoped_lease scope (qn_runId input) l' = true → l' = l.
Proof.
  intros Hl Hl' Hs%scoped_key. rewrite <-lease_of_run in Hl. apply lease_at_elem in Hl as [Hl Hk].
  apply (key_inj lease_key (t_executionLeases d)); try done; [|congruence]. apply executionLeases_hold_keys, Hwf.
Qed.

Lemma end_lease_run l : jo_lease row = Some l → end_lease scope consumerId input l d = (Ok tt, lease_ended).
Proof.
  intros Hl. pose proof lease_of_run as Hat. rewrite Hl in Hat. apply lease_at_elem in Hat as [Hin _].
  unfold end_lease, lease_ended. rewrite Hl in *. rewrite (over_not_live _ l) by (try done; by apply (dw_readable _ Hwf)).
  rewrite (bind_run _ _ d tt d) by done. destruct (xl_releasedAt l) eqn:Er; [done|]. apply write_Ok. split; [|done].
  apply update_holds; [apply Hwf|done|]. intros l' Hl' Hs. rewrite (scoped_unique l l') by done. apply ended_checks; try done.
  - pose proof (proj1 (leases_hold_iff d) (dw_leases _ Hwf)) as (Hc & _). by apply Hc.
  - unfold jo_leaseRevision in Hrev. by rewrite Hl in Hrev.
Qed.

Lemma ended_runs : t_runs lease_ended = t_runs d ∧ t_checkpoints lease_ended = t_checkpoints d ∧
  (∀ r, run_references lease_ended r = run_references d r) ∧ t_payloads lease_ended = t_payloads d.
Proof. clear Hover Hrev. unfold lease_ended. destruct (jo_lease row) as [l|]; [|done]. by destruct (is_none _). Qed.

Lemma marked_holds : runs_hold run_marked = Ok tt.
Proof.
  pose proof (dw_runs _ Hwf) as H. destruct ended_runs as (Er & _ & Ef & _). rewrite runs_hold_iff in *.
  destruct H as (Hc & Hn & Ht & Hr). unfold run_marked. cbn. rewrite Er, !update_key by done.
  split; [|split; [done|split; [done|]]]; intros r [(r0 & Hr0 & _ & ->)|[Hr0 _]]%elem_update.
  - apply Hc in Hr0. cbn. rewrite Z.leb_le in *. lia.
  - by apply Hc.
  - change (run_references lease_ended r0 = true). rewrite Ef. by apply Hr.
  - change (run_references lease_ended r = true). rewrite Ef. by apply Hr.
Qed.

Lemma marked_keys : run_key <$> t_runs run_marked = run_key <$> t_runs d.
Proof. destruct ended_runs as (Er & _). unfold run_marked. cbn. rewrite Er. by apply update_key. Qed.

Lemma marked_references k : checkpoint_references run_marked k = checkpoint_references d k.
Proof.
  destruct ended_runs as (_ & _ & _ & Ep). unfold checkpoint_references, checkpoint_payload. rewrite marked_keys.
  change (t_payloads run_marked) with (t_payloads lease_ended). by rewrite Ep.
Qed.

Definition reconciling (k : CheckpointRow) : CheckpointRow :=
  k <| kp_revision := kp_revision k + 1 |> <| kp_phase := phase_reconciling_external_result |>
    <| kp_diagnosticCode := Some (qn_reasonCode input) |> <| kp_updatedAt := qn_at input |>.

Lemma checkpoint_scoped k : k ∈ t_checkpoints d → kp_runId k = qn_runId input →
  kp_ownerId k = sc_ownerId scope ∧ kp_agentId k = sc_agentId scope.
Proof.
  intros Hk Hr. pose proof (proj1 (checkpoints_hold_iff d) (dw_checkpoints _ Hwf)) as (_ & _ & Hf). apply Hf in Hk.
  unfold checkpoint_references in Hk. rewrite !andb_true_iff, includes_spec in Hk. destruct Hk as [[Hk _] _].
  apply list_elem_of_fmap in Hk as (r & E & Hrr). injection E as Eo Ea Er. pose proof Hj as (Hrow & Ho & Ha & _)%joined_runs_elem.
  pose proof (proj1 (runs_hold_iff d) (dw_runs _ Hwf)) as (_ & Hn & _).
  assert (r = jo_run row) as ->; [|by rewrite Eo, Ea]. apply (key_inj ru_id (t_runs d)); try done. congruence.
Qed.

Lemma checkpoint_of_run k : k ∈ t_checkpoints d → kp_runId k = qn_runId input → jo_checkpoint row = Some k.
Proof.
  intros Hk Hr. destruct (checkpoint_scoped k) as [Ho Ha]; [done..|]. pose proof Hj as Hj'.
  apply joined_runs_elem in Hj' as (_ & Eo & Ea & (_ & E & _)%joined_elem). destruct (jo_checkpoint row) as [k'|] eqn:Ek.
  - destruct (joined_checkpoint scope row k' d) as (_ & _ & Hu); try done; [apply (checkpoints_hold_iff d), Hwf|].
    f_equal. symmetry. apply Hu; congruence.
  - symmetry in E. rewrite get_None in E. specialize (E k Hk). by rewrite Eo, Ea, Hid, !bool_decide_true in E by done.
Qed.

(** The checkpoint a quarantine leaves. *)
Inductive quarantine_checkpoint : CheckpointRow → Prop :=
  | quarantine_first : jo_checkpoint row = None →
      quarantine_checkpoint (mkCheckpointRow (qn_runId input) (sc_ownerId scope) (sc_agentId scope) 1
        phase_reconciling_external_result None 0 None None None None (Some (qn_reasonCode input)) (qn_at input) None)
  | quarantine_next k : jo_checkpoint row = Some k → k ∈ t_checkpoints d → kp_runId k = qn_runId input →
      quarantine_checkpoint (reconciling k).

Lemma quarantined_elem k : k ∈ t_checkpoints quarantined ↔
  quarantine_checkpoint k ∨ k ∈ t_checkpoints d ∧ kp_runId k ≠ qn_runId input.
Proof.
  destruct ended_runs as (_ & Ec & _). change (t_checkpoints quarantined) with
    (upsert_reconciling scope input (t_checkpoints lease_ended)). rewrite Ec. unfold upsert_reconciling.
  destruct (fresh_key _ _ _) eqn:E.
  - apply fresh_spec in E. rewrite list_elem_of_fmap in E. rewrite elem_insert. split.
    + intros [Hk| ->]; [right; split; [done|]; intros Hr; apply E; eauto|left]. apply quarantine_first.
      destruct (jo_checkpoint row) as [k|] eqn:Ek; [|done]. destruct (joined_checkpoint scope row k d) as (Hk & Hr & _); try done.
      { apply (checkpoints_hold_iff d), Hwf. } destruct E. exists k. split; [congruence|done].
    + intros [[_|k' _ Hk' Hr]|[Hk _]]; [by right| |by left]. destruct E. eauto.
  - apply not_true_iff_false in E. rewrite fresh_spec in E. apply dec_stable in E.
    apply list_elem_of_fmap in E as (k0 & Hr0 & Hk0). rewrite elem_update. split.
    + intros [(k1 & Hk1 & Hr1%bool_decide_eq_true & ->)|[Hk Hr%bool_decide_eq_false]]; [left|by right].
      apply quarantine_next; try done. by apply checkpoint_of_run.
    + intros [[Hn|k' _ Hk' Hr]|[Hk Hr]].
      * rewrite (checkpoint_of_run k0) in Hn; done.
      * left. exists k'. split; [done|]. split; [by apply bool_decide_eq_true|done].
      * right. split; [done|]. by apply bool_decide_eq_false.
Qed.

Lemma quarantined_keys : checkpoint_keys d → checkpoint_keys quarantined.
Proof.
  destruct ended_runs as (_ & Ec & _). unfold checkpoint_keys. change (t_checkpoints quarantined) with
    (upsert_reconciling scope input (t_checkpoints lease_ended)). rewrite Ec. unfold upsert_reconciling. intros Hn.
  destruct (fresh_key _ _ _) eqn:E; [by apply insert_keys|]. by rewrite update_key.
Qed.

Lemma quarantined_holds : checkpoints_hold quarantined = Ok tt.
Proof.
  pose proof (proj1 (checkpoints_hold_iff d) (dw_checkpoints _ Hwf)) as (Hc & Hn & Hf). apply checkpoints_hold_iff.
  assert (∀ k, checkpoint_references quarantined k = checkpoint_references d k) as Er by exact marked_references.
  split; [|split; [by apply quarantined_keys|]]; intros k Hk%quarantined_elem; rewrite ?Er.
  - destruct Hk as [[_|k' _ Hk' Hr]|[Hk _]]; [done| |by apply Hc]. pose proof (Hck k' Hk' Hr) as Hm. apply Hc in Hk'.
    unfold checkpoint_checks, MAX_SAFE_INTEGER in *. cbn. rewrite !andb_true_iff, !Z.leb_le in *. destruct_and!. repeat split; try done; lia.
  - destruct Hk as [[_|k' _ Hk' Hr]|[Hk _]]; [|by apply (Hf k')|by apply Hf].
    pose proof Hj as (Hr & Ho & Ha & _)%joined_runs_elem. unfold checkpoint_references. cbn. rewrite !andb_true_r.
    apply includes_spec, list_elem_of_fmap. exists (jo_run row). split; [|done]. unfold run_key. congruence.
Qed.

Lemma quarantine_run : dispatch_assertCurrentAuthority scope (qn_at input) d = (Ok tt, d) → parse_joined row = Ok tt →
  needs_reconciling (qn_at input) d row = true → ru_revision (jo_run row) = qn_expectedRunRevision input →
  jo_leaseRevision row = qn_expectedLeaseRevision input →
  quarantine_transaction scope consumerId input d = (Ok tt, quarantined).
Proof.
  intros Hauth Hp Hneed Hrr Hlr. unfold needs_reconciling in Hneed. rewrite !andb_true_iff in Hneed.
  destruct Hneed as [[[Hst Hnot%negb_true_iff] _] _]. unfold quarantine_transaction.
  rewrite (bind_run _ _ d tt d) by done.
  rewrite (bind_run _ _ d (Some row) d) by (rewrite <-Hid; by apply readRun_run).
  rewrite (bind_run _ _ d tt d) by (by rewrite Hrr, Hlr, !bool_decide_true).
  replace (includes (ru_status (jo_run row)) [completed; failed; cancelled]) with false
    by (by destruct (ru_status (jo_run row))).
  rewrite Hst. rewrite (bind_run _ _ d tt d) by done. rewrite (bind_run _ _ d (jo_lease row) d).
  2:{ rewrite readLease_run, lease_of_run. destruct (jo_lease row) as [l|] eqn:El; [|done].
      pose proof lease_of_run as Hl. rewrite El in Hl. apply lease_at_elem in Hl as [Hl _].
      apply (dw_readable _ Hwf) in Hl as [-> _]. done. }
  rewrite (bind_run _ _ d tt lease_ended).
  2:{ pose proof end_lease_run as He. destruct (jo_lease row) as [l|] eqn:El; [by apply He|]. unfold lease_ended. by rewrite El. }
  unfold reconcile_run. rewrite Hnot. rewrite (bind_run _ _ _ tt run_marked) by (apply write_Ok; split; [apply marked_holds|done]).
  apply write_Ok. split; [apply quarantined_holds|done].
Qed.
End quarantine.

(** What a quarantine leaves of a Run. *)
Record settled (scope : RunScope) (input : RunQuarantineInput) (d d' : Database) : Prop := mk_settled {
  sl_runs : ∀ r, r ∈ t_runs d' ↔ ∃ r0, r0 ∈ t_runs d ∧ r = if ru_id r0 === qn_runId input
    then r0 <| ru_status := reconciling_external_result |> <| ru_revision := ru_revision r0 + 1 |> <| ru_updatedAt := qn_at input |>
    else r0;
  sl_checkpoint : ∃ k, k ∈ t_checkpoints d' ∧ kp_runId k = qn_runId input ∧ kp_ownerId k = sc_ownerId scope ∧
    kp_agentId k = sc_agentId scope ∧ kp_phase k = phase_reconciling_external_result ∧
    kp_diagnosticCode k = Some (qn_reasonCode input) ∧
    ∀ k0, k0 ∈ t_checkpoints d → kp_runId k0 = qn_runId input →
      kp_contextRef k = kp_contextRef k0 ∧ kp_runtimeEventCount k = kp_runtimeEventCount k0 ∧
      kp_lastTraceEventId k = kp_lastTraceEventId k0 ∧ kp_terminalStatus k = kp_terminalStatus k0 ∧
      kp_outputKind k = kp_outputKind k0 ∧ kp_finalAnswerRef k = kp_finalAnswerRef k0 ∧
      kp_suspensionJson k = kp_suspensionJson k0;
  sl_others : ∀ k, kp_runId k ≠ qn_runId input → k ∈ t_checkpoints d' ↔ k ∈ t_checkpoints d;
  sl_ended : ∀ l, l ∈ t_executionLeases d' → lease_key l = run_of scope (qn_runId input) → xl_releasedAt l ≠ None;
  sl_leases : ∀ l, lease_key l ≠ run_of scope (qn_runId input) → l ∈ t_executionLeases d' ↔ l ∈ t_executionLeases d }.

Lemma get_unique {R} (p : R → bool) t r : r ∈ t → p r = true → (∀ r', r' ∈ t → p r' = true → r' = r) → get_where p t = Some r.
Proof.
  intros Hr Hp Hu. destruct (get_where p t) as [r'|] eqn:E.
  - apply get_elem in E as [Hr' Hp']. by rewrite (Hu r').
  - rewrite get_None in E. by rewrite E in Hp.
Qed.

Section settled.
Context (scope : RunScope) (input : RunQuarantineInput) (row : JoinedRun) (d : Database).
Context (Hwf : dispatch_wf d) (Hj : row ∈ joined_runs scope d) (Hid : ru_id (jo_run row) = qn_runId input).

Lemma scoped_run_spec r : r ∈ t_runs d → scoped_run scope (qn_runId input) r = (ru_id r === qn_runId input).
Proof.
  intros Hr. unfold scoped_run. destruct (ru_id r === _) eqn:E; [|done]. apply bool_decide_eq_true in E.
  pose proof Hj as (Hrow & Ho & Ha & _)%joined_runs_elem. pose proof (proj1 (runs_hold_iff d) (dw_runs _ Hwf)) as (_ & Hn & _).
  assert (r = jo_run row) as -> by (apply (key_inj ru_id (t_runs d)); try done; congruence). by rewrite !bool_decide_true.
Qed.

Lemma marked_runs r : r ∈ t_runs (quarantined scope input row d) ↔ ∃ r0, r0 ∈ t_runs d ∧ r = if ru_id r0 === qn_runId input
    then r0 <| ru_status := reconciling_external_result |> <| ru_revision := ru_revision r0 + 1 |> <| ru_updatedAt := qn_at input |>
    else r0.
Proof.
  destruct (ended_runs scope input row d) as (Er & _). unfold quarantined, run_marked. cbn. rewrite Er, elem_update. split.
  - intros [(r0 & Hr0 & Hp & ->)|[Hr Hp]]; rewrite scoped_run_spec in Hp by done; eexists; (split; [done|]); by rewrite Hp.
  - intros (r0 & Hr0 & ->). destruct (ru_id r0 === _) eqn:E; [left; exists r0|right];
      (split; [done|]); rewrite scoped_run_spec by done; done.
Qed.

Lemma quarantined_lease l : l ∈ t_executionLeases (quarantined scope input row d) →
  lease_key l = run_of scope (qn_runId input) → xl_releasedAt l ≠ None.
Proof.
  pose proof (lease_of_run scope input row d Hj Hid) as Hat. unfold quarantined, run_marked, lease_ended. cbn. intros Hl Hk.
  destruct (jo_lease row) as [l0|].
  - destruct (xl_releasedAt l0) eqn:Er; cbn in Hl.
    + intros Hn. rewrite (lease_at_found _ _ _ l) in Hat; [congruence|apply executionLeases_hold_keys, Hwf|done..].
    + apply elem_update in Hl as [(l1 & _ & _ & ->)|[_ Hs]]; [done|]. by apply not_true_iff_false in Hs; rewrite scoped_key in Hs.
  - cbn in Hl. rewrite (lease_at_found _ _ _ l) in Hat; [done|apply executionLeases_hold_keys, Hwf|done..].
Qed.

Lemma quarantined_leases l : lease_key l ≠ run_of scope (qn_runId input) →
  l ∈ t_executionLeases (quarantined scope input row d) ↔ l ∈ t_executionLeases d.
Proof.
  unfold quarantined, run_marked, lease_ended. cbn. intros Hk. destruct (jo_lease row) as [l0|]; [|done]. destruct (is_none _); [|done].
  cbn. rewrite elem_update. split.
  - intros [(l1 & _ & Hs%scoped_key & ->)|[Hl _]]; [|done]. by destruct Hk.
  - intros Hl. right. split; [done|]. apply not_true_iff_false. by rewrite scoped_key.
Qed.

Lemma quarantined_settled : settled scope input d (quarantined scope input row d).
Proof.
  constructor.
  - apply marked_runs.
  - destruct (jo_checkpoint row) as [k|] eqn:Ek.
    + assert (checkpoint_keys d) as Hn by apply (checkpoints_hold_iff d), Hwf.
      destruct (joined_checkpoint scope row k d Hn Hj Ek) as (Hk & Hr & Hu). rewrite Hid in Hr, Hu. exists (reconciling input k).
      rewrite quarantined_elem by done. split; [left; by apply quarantine_next|].
      destruct (checkpoint_scoped scope input row d Hwf Hj Hid k) as [Ho Ha]; [done..|].
      do 5 (split; [done|]). intros k0 Hk0 Hr0. by rewrite (Hu k0).
    + eexists. rewrite quarantined_elem by done. split; [left; by apply quarantine_first|]. do 5 (split; [done|]);
      intros k0 Hk0 Hr0; by rewrite (checkpoint_of_run scope input row d Hwf Hj Hid k0) in Ek.
  - intros k Hk. rewrite quarantined_elem by done. split; [|by right]. intros [H|[H _]]; [|done]. destruct Hk. by destruct H.
  - apply quarantined_lease.
  - apply quarantined_leases.
Qed.
End settled.

Lemma settled_row scope input d d' row : settled scope input d d' → checkpoint_keys d' → row ∈ joined_runs scope d' →
  ru_id (jo_run row) = qn_runId input →
  ru_status (jo_run row) = reconciling_external_result ∧ jo_phase row = Some phase_reconciling_external_result.
Proof.
  intros Hs Hn (Hr & Ho & Ha & Hj)%joined_runs_elem Hid. split.
  - apply (sl_runs _ _ _ _ Hs) in Hr as (r0 & _ & E). destruct (ru_id r0 === _) eqn:E0; [by rewrite E|].
    apply bool_decide_eq_false in E0. congruence.
  - destruct (sl_checkpoint _ _ _ _ Hs) as (k & Hk & Hkr & Hko & Hka & Hkp & _). apply joined_elem in Hj as (_ & E & _). unfold jo_phase.
    rewrite E, (get_unique _ _ k); cbn; [by rewrite Hkp|done|by rewrite Hkr, Hko, Hka, Hid, Ho, Ha, !bool_decide_true|].
    intros k' Hk' Hp. rewrite !andb_true_iff, !bool_decide_eq_true in Hp. destruct Hp as [[Hr' _] _].
    apply (key_inj kp_runId (t_checkpoints d')); try done. congruence.
Qed.

Lemma settled_off_lists scope input d d' row now : settled scope input d d' → checkpoint_keys d' → row ∈ joined_runs scope d' →
  ru_id (jo_run row) = qn_runId input → claimable now d' row = false ∧ needs_reconciling now d' row = false.
Proof.
  intros Hs Hn Hj Hid. destruct (settled_row _ _ _ _ _ Hs Hn Hj Hid) as [Hst Hp].
  unfold claimable, needs_reconciling. by rewrite Hst, Hp.
Qed.

Lemma listed_off b p scope consumerId input' input d d' l d2 : settled scope input d d' → checkpoint_keys d' →
  (∀ row, claimable (li_now input') d' row = false ∧ needs_reconciling (li_now input') d' row = false → p d' row = false) →
  executeRunDispatch scope consumerId (listed b p scope input') d' = (Ok l, d2) → qn_runId input ∉ dx_runId <$> l.
Proof.
  intros Hs Hn Hp [_ [_ Hl]%listed_Ok]%execute_inner (c & Hid & Hc)%list_elem_of_fmap. apply Hl in Hc as (row & Hrow & Hc).
  rewrite Hp in Hrow; [done|]. destruct Hc as [Hj _ _ Er _ _]. apply (settled_off_lists scope input d d'); try done. congruence.
Qed.

(** C11 Every Run that is listed for reconciliation can be quarantined, by any
    consumer of the scope and without naming a lease: the lease of a consumer that was
    lost is ended, the Run and its checkpoint are marked as waiting for an external
    result, with the reason, and everything else that was observed of the Run
    (its context, the events and the outputs of the runtime, the suspension) is kept.
    No other Run is touched.  From then on no list names the Run, so it is
    neither executed again nor quarantined a second time. *)
Theorem quarantine_settles scope consumerId input d l d' c reasonCode : dispatch_wf d →
  runDispatch_listReconciliationRequired scope consumerId input d = (Ok l, d') → c ∈ l →
  isCanonicalTimestamp (li_now input) = true → MACHINE_IDENTIFIER_PATTERN reasonCode = true →
  1 ≤ dx_runRevision c → dx_leaseRevision c < MAX_SAFE_INTEGER →
  (∀ k, k ∈ t_checkpoints d → kp_runId k = dx_runId c → kp_revision k < MAX_SAFE_INTEGER) →
  let quarantine := mkRunQuarantine (dx_runId c) (dx_runRevision c) (dx_leaseRevision c) None reasonCode (li_now input) in
  ∃ d1, runDispatch_quarantine scope consumerId quarantine d = (Ok tt, d1) ∧ settled scope quarantine d d1 ∧
    ∀ input' l' d2, runDispatch_listClaimable scope consumerId input' d1 = (Ok l', d2) ∨
      runDispatch_listReconciliationRequired scope consumerId input' d1 = (Ok l', d2) → dx_runId c ∉ dx_runId <$> l'.
Proof.
  intros Hwf E Hc Hnow Hcode Hrr Hmax Hck quarantine. apply execute_inner in E as [Hs E].
  unfold listReconciliationRequired in E. apply listed_Ok in E as [Hauth Hl]. apply Hl in Hc as (row & Hneed & Hrow).
  pose proof (candidate_revision _ _ _ _ Hrow). pose proof (candidate_leaseRevision _ _ _ _ Hrow).
  pose proof (candidate_parsed _ _ _ _ Hwf Hrow) as Hp. destruct Hrow as [Hj _ (_ & _ & Hid) Er Ev El].
  assert (lease_over (li_now input) (jo_lease row) = true) as Hover.
  { unfold needs_reconciling in Hneed. by apply andb_true_iff in Hneed as [_ Hneed]. }
  assert (settled scope quarantine d (quarantined scope quarantine row d)) as Hset by by apply quarantined_settled.
  assert (checkpoint_keys (quarantined scope quarantine row d)) as Hkeys
    by (by apply quarantined_keys, (checkpoints_hold_iff d), Hwf).
  exists (quarantined scope quarantine row d). split; [|split; [done|]].
  - apply execute_dispatch; [done| |].
    + unfold parseQuarantine. cbn. rewrite Er in *. rewrite identified_run, instant_run, !safeInteger_run', machineText_run by (done || lia). done.
    + apply quarantine_run; cbn; try done; congruence.
  - intros input' l' d2 [E'|E']; refine (listed_off _ _ _ _ _ quarantine d _ _ _ Hset Hkeys _ E'); by intros ? [].
Qed.

(** ** The lists of the database of DispatchGuarantees.v *)
Lemma dispatch_database_wf : dispatch_wf dispatch_database.
Proof.
  constructor; [by vm_compute..| |].
  - intros l Hl. cbn in Hl. repeat (apply elem_of_cons in Hl as [->|Hl]; [by vm_compute|]). by apply not_elem_of_nil in Hl.
  - intros t r Ht Hr Hk. cbn in Ht, Hr.
    repeat (apply elem_of_cons in Ht as [->|Ht]; [
      repeat (apply elem_of_cons in Hr as [->|Hr]; [by vm_compute in Hk |- *; split|]); by apply not_elem_of_nil in Hr|]).
    by apply not_elem_of_nil in Ht.
Qed.

Lemma listed_4 : ∃ l d, runDispatch_listClaimable dispatch_scope_1 "worker-2" (mkRunList dispatch_at_2 10) dispatch_database = (Ok l, d) ∧
  dx_runId <$> l = ["run-1"; "run-4"] ∧
  mkCandidate "owner" "agent" "run-4" "session" "trigger-4" None 2 building_context (Some phase_context_formed) 1 action_resume ∈ l.
Proof. eexists _, _. split; [vm_compute; reflexivity|]. split; [done|]. right. left. Qed.

Lemma listed_run_claimable_witness : ∃ lease,
  (runDispatch_claim dispatch_scope_1 "worker-2" claim_4 dispatch_database).1 = Ok (mkLeaseReceipt lease false).
Proof.
  destruct listed_4 as (l & d & E & _ & Hc).
  destruct (listed_run_claimable _ _ _ _ _ _ _ "execution-5" dispatch_at_3 dispatch_database_wf E Hc) as (lease & H);
    [by vm_compute..| |by vm_compute|].
  - cbn. set_solver.
  - exists lease. unfold claim_4. cbn in H. by rewrite H.
Defined.

Lemma listed_2 : ∃ l d, runDispatch_listReconciliationRequired dispatch_scope_1 "worker-2" (mkRunList dispatch_at_2 10) dispatch_database = (Ok l, d) ∧
  mkCandidate "owner" "agent" "run-2" "session" "trigger-2" None 2 running (Some phase_workers_running) 1 action_reconcile ∈ l.
Proof. eexists _, _. split; [vm_compute; reflexivity|]. left. Qed.

Lemma quarantine_settles_witness : ∃ d, settled dispatch_scope_1 (mkRunQuarantine "run-2" 2 1 None "worker_lost" dispatch_at_2) dispatch_database d ∧
  runDispatch_quarantine dispatch_scope_1 "worker-2" (mkRunQuarantine "run-2" 2 1 None "worker_lost" dispatch_at_2) dispatch_database = (Ok tt, d).
Proof.
  destruct listed_2 as (l & d & E & Hc).
  destruct (quarantine_settles _ _ _ _ _ _ _ "worker_lost" dispatch_database_wf E Hc) as (d1 & H & Hs & _); [by vm_compute..| |].
  - intros k Hk _. cbn in Hk. repeat (apply elem_of_cons in Hk as [->|Hk]; [by vm_compute|]). by apply not_elem_of_nil in Hk.
  - exists d1. split; [exact Hs|exact H].
Defined.
