(* ===== verification/ModelBudget.v ===== *)
(** packages/persistence-sqlite/src/sqlite-model-budget-operations.ts (with the
    data of packages/application/src/ports/model-budget.ts): the ledger of what
    calls of models may cost.  Every Run, background occurrence and memory
    projection has an account; a call reserves its estimate, is started, and is
    settled with what it cost, or its result is unknown until it is. *)
From S2P Require Import Prelude Js JsDate Identifiers Entities.
From S2P Require Import Deterministic InMemoryAuth Coordination Persistence DurableState.
From S2P Require Import Sqlite SqliteSchema SqliteWorker RunDispatch.
Local Open Scope Z_scope.

(** ** Data *)
Inductive ModelBudgetAccountParent :=
  | run_parent (runId : RunId)
  | occurrence_parent (occurrenceId : OccurrenceId)
  | projection_parent (jobId : string).

#[global] Instance ModelBudgetAccountParent_eq_dec : EqDecision ModelBudgetAccountParent.
Proof. solve_decision. Defined.

Inductive ModelBudgetActiveParent :=
  | active_run (runId : RunId) (executionLease : RunExecutionLeaseClaim)
  | active_occurrence (occurrenceId : OccurrenceId) (expectedRevision : Z) (workLeaseId workLeaseHolderId : string)
  | active_projection (jobId claimedBy : string) (attemptCount : Z).

(** An active parent is used where an account parent is expected. *)
Definition account_parent (parent : ModelBudgetActiveParent) : ModelBudgetAccountParent :=
  match parent with
  | active_run runId _ => run_parent runId
  | active_occurrence occurrenceId _ _ _ => occurrence_parent occurrenceId
  | active_projection jobId _ _ => projection_parent jobId
  end.

Record ModelBudgetLimits := mkBudgetLimits {
  ml_accountCostMicros : Z; ml_globalCostMicros : Z; ml_perClassificationCostMicros : ProductDataClassification → Z }.

Record ModelBudgetReserveInput := mkReserve {
  rs_parent : ModelBudgetActiveParent; rs_operationKey : string; rs_modelRef : string;
  rs_dataClassification : ProductDataClassification; rs_estimatedCostMicros : Z; rs_limits : ModelBudgetLimits;
  rs_reservedAt : string }.

Record ModelBudgetMarkStartedInput := mkMarkStarted {
  ms_parent : ModelBudgetActiveParent; ms_operationKey : string; ms_startedAt : string }.

Record ModelBudgetSettlementInput := mkBudgetSettlement {
  bs_parent : ModelBudgetAccountParent; bs_operationKey : string; bs_actualCostMicros : Z; bs_settledAt : string }.

Record ModelBudgetUnknownInput := mkBudgetUnknown {
  bu_parent : ModelBudgetAccountParent; bu_operationKey : string; bu_observedAt : string;
  bu_reasonCode : UnknownReason }.

Record ModelBudgetReleaseReservedInput := mkBudgetRelease {
  bl_parent : ModelBudgetAccountParent; bl_operationKey : string; bl_releasedAt : string }.

Record ModelBudgetFinalizeInput := mkBudgetFinalize { bf_runId : RunId; bf_finalizedAt : string }.

Record ModelBudgetReadInput := mkBudgetRead {
  bd_parent : ModelBudgetAccountParent; bd_limit : Z; bd_afterOperationKey : option string }.

Record ModelBudgetAccount := mkBudgetAccount {
  ba_ownerId : OwnerId; ba_agentId : AgentId; ba_accountId : string; ba_parent : ModelBudgetAccountParent;
  ba_dataClassification : ProductDataClassification; ba_reservedCostMicros : Z; ba_spentCostMicros : Z;
  ba_status : AccountStatus; ba_revision : Z }.

(** [ModelBudgetAllocation] has the columns of its row. *)
Record ModelBudgetOperationResult := mkBudgetResult {
  br_account : ModelBudgetAccount; br_allocation : AllocationRow; br_replayed : bool }.

Record ModelBudgetSnapshot := mkBudgetSnapshot {
  bn_account : ModelBudgetAccount; bn_allocations : list AllocationRow; bn_nextOperationKey : option string }.

(** Of packages/application/src/ports/durability.ts: what background work brings. *)
Record BackgroundAdmissionLimits := mkAdmissionLimits {
  bm_globalCostMicros : Z; bm_perRunCostMicros : Z; bm_perClassificationCostMicros : ProductDataClassification → Z;
  bm_totalRuns : Z; bm_foregroundReserved : Z; bm_perCategory : list (string * Z) }.

Inductive SettlementOutcome := settled_completed | settled_failed | settled_model_blocked | settled_unknown.
Inductive BackgroundFailureClass :=
  failure_transport | failure_provider | failure_credential | failure_authorization | failure_policy | failure_invalid_input.

#[global] Instance SettlementOutcome_eq_dec : EqDecision SettlementOutcome.
Proof. solve_decision. Defined.
#[global] Instance BackgroundFailureClass_eq_dec : EqDecision BackgroundFailureClass.
Proof. solve_decision. Defined.

Record RetryPolicy := mkRetryPolicy { rt_maxAttempts : Z; rt_baseDelayMs : Z; rt_maxDelayMs : Z; rt_jitterSeed : Z }.

Record BackgroundOccurrenceSettlement := mkSettlement {
  os_occurrenceId : OccurrenceId; os_expectedRevision : Z; os_authority : ProductAuthorityFence; os_leaseId : string;
  os_settledAt : string; os_outcome : SettlementOutcome; os_spentCostMicros : Z; os_errorCode : option string;
  os_failureClass : option BackgroundFailureClass; os_retry : RetryPolicy }.

(** [accountId] *)
Definition accountId (parent : ModelBudgetAccountParent) : string :=
  match parent with
  | projection_parent jobId => "memory-projection:" +:+ jobId
  | run_parent runId => "run:" +:+ runId
  | occurrence_parent occurrenceId => "occurrence:" +:+ occurrenceId
  end.

(** ** Costs *)
Definition addCost (left right : Z) (name : string) : result failure Z :=
  throw_if (negb (isSafeInteger left) || negb (isSafeInteger right) || (right <? 0) || (left <? 0))
    (applicationFailure INVALID_OPERATION (name +:+ " must be a nonnegative safe integer") []) ;;
  throw_if (MAX_SAFE_INTEGER - right <? left)
    (applicationFailure INVALID_OPERATION (name +:+ " addition exceeds the safe integer limit") []) ;;
  Ok (left + right).

Definition subtractCost (left right : Z) (name : string) : result failure Z :=
  throw_if (negb (isSafeInteger left) || negb (isSafeInteger right) || (left <? 0) || (right <? 0))
    (applicationFailure INVALID_OPERATION (name +:+ " must be a nonnegative safe integer") []) ;;
  throw_if (left <? right) (applicationFailure CONFLICT (name +:+ " reservation is inconsistent") []) ;;
  Ok (left - right).

Definition classificationRank (value : ProductDataClassification) : Z :=
  match value with data_public => 0 | data_private => 1 | data_sensitive => 2 | data_restricted => 3 end.

(** ** Reading the fields of requests and rows

    The values have the types the callers declare; the bounds of texts and
    numbers are checked here. *)
Definition bounded_text (value name : string) (maximum : nat) : result failure string :=
  throw_if ((trim value === "") || (maximum <? String.length value)%nat)
    (type_error (name +:+ " must be a nonempty bounded string")) ;;
  Ok value.

Definition machineText (value name : string) : result failure string :=
  result ← bounded_text value name 128;
  throw_if (negb (MACHINE_IDENTIFIER_PATTERN result)) (type_error (name +:+ " must be a machine identifier")) ;;
  Ok result.

(** [new Date(value).toISOString() === value] *)
Definition instant (value name : string) : result failure string :=
  result ← bounded_text value name 64;
  throw_if (match dateParse result with None => true | Some t => isoOfTime t !== Ok result end)
    (type_error (name +:+ " must be an ISO timestamp")) ;;
  Ok result.

Definition optionalText (value : option string) (name : string) : result failure (option string) :=
  match value with None => Ok None | Some value => t ← bounded_text value name 512; Ok (Some t) end.

Definition optional_instant (value : option string) (name : string) : result failure unit :=
  match value with None => Ok tt | Some value => instant value name ;; Ok tt end.

(** [parseEnvelope], its scope. *)
Definition parseEnvelope (scope : RunScope) : result failure unit :=
  machineText (sc_ownerId scope) "ownerId" ;;
  machineText (sc_agentId scope) "agentId" ;;
  machineText (fence_deploymentId (sc_authority scope)) "deploymentId" ;;
  safeInteger (fence_authorityEpoch (sc_authority scope)) "authorityEpoch" 1 ;;
  safeInteger (fence_fencingToken (sc_authority scope)) "fencingToken" 1 ;;
  machineText (af_leaseId (sc_authorityLease scope)) "leaseId" ;;
  safeInteger (af_fencingToken (sc_authorityLease scope)) "lease.fencingToken" 1 ;;
  Ok tt.

Definition parseAccountParent (parent : ModelBudgetAccountParent) : result failure unit :=
  match parent with
  | run_parent runId => machineText runId "runId" ;; Ok tt
  | occurrence_parent occurrenceId => machineText occurrenceId "occurrenceId" ;; Ok tt
  | projection_parent jobId => bounded_text jobId "jobId" 512 ;; Ok tt
  end.

Definition parseParent (parent : ModelBudgetActiveParent) : result failure unit :=
  match parent with
  | active_run runId claim =>
      machineText runId "runId" ;;
      machineText (el_executionLeaseId claim) "executionLeaseId" ;;
      safeInteger (el_expectedLeaseRevision claim) "expectedLeaseRevision" 0 ;;
      machineText (el_authorityLeaseId claim) "authorityLeaseId" ;;
      safeInteger (el_authorityFencingToken claim) "authorityFencingToken" 1 ;;
      machineText (el_deploymentId claim) "deploymentId" ;;
      safeInteger (el_authorityEpoch claim) "authorityEpoch" 1 ;;
      safeInteger (el_fencingToken claim) "fencingToken" 1 ;;
      machineText (el_consumerId claim) "consumerId" ;;
      Ok tt
  | active_occurrence occurrenceId expectedRevision workLeaseId workLeaseHolderId =>
      machineText occurrenceId "occurrenceId" ;;
      safeInteger expectedRevision "expectedRevision" 0 ;;
      machineText workLeaseId "workLeaseId" ;;
      machineText workLeaseHolderId "workLeaseHolderId" ;;
      Ok tt
  | active_projection jobId claimedBy attemptCount =>
      bounded_text jobId "jobId" 512 ;;
      bounded_text claimedBy "claimedBy" 512 ;;
      safeInteger attemptCount "attemptCount" 1 ;;
      Ok tt
  end.

Definition parseLimits (limits : ModelBudgetLimits) : result failure unit :=
  let class := ml_perClassificationCostMicros limits in
  safeInteger (ml_accountCostMicros limits) "accountCostMicros" 0 ;;
  safeInteger (ml_globalCostMicros limits) "globalCostMicros" 0 ;;
  safeInteger (class data_public) "perClassificationCostMicros.public" 0 ;;
  safeInteger (class data_private) "perClassificationCostMicros.private" 0 ;;
  safeInteger (class data_sensitive) "perClassificationCostMicros.sensitive" 0 ;;
  safeInteger (class data_restricted) "perClassificationCostMicros.restricted" 0 ;;
  Ok tt.

Definition parseReserve (input : ModelBudgetReserveInput) : result failure unit :=
  parseParent (rs_parent input) ;;
  bounded_text (rs_operationKey input) "operationKey" 512 ;;
  bounded_text (rs_modelRef input) "modelRef" 256 ;;
  safeInteger (rs_estimatedCostMicros input) "estimatedCostMicros" 0 ;;
  parseLimits (rs_limits input) ;;
  instant (rs_reservedAt input) "reservedAt" ;;
  Ok tt.

Definition parseMarkStarted (input : ModelBudgetMarkStartedInput) : result failure unit :=
  parseParent (ms_parent input) ;;
  bounded_text (ms_operationKey input) "operationKey" 512 ;;
  instant (ms_startedAt input) "startedAt" ;;
  Ok tt.

Definition parseSettlement (input : ModelBudgetSettlementInput) : result failure unit :=
  parseAccountParent (bs_parent input) ;;
  bounded_text (bs_operationKey input) "operationKey" 512 ;;
  safeInteger (bs_actualCostMicros input) "actualCostMicros" 0 ;;
  instant (bs_settledAt input) "settledAt" ;;
  Ok tt.

Definition parseUnknown (input : ModelBudgetUnknownInput) : result failure unit :=
  parseAccountParent (bu_parent input) ;;
  bounded_text (bu_operationKey input) "operationKey" 512 ;;
  instant (bu_observedAt input) "observedAt" ;;
  Ok tt.

Definition parseReleaseReserved (input : ModelBudgetReleaseReservedInput) : result failure unit :=
  parseAccountParent (bl_parent input) ;;
  bounded_text (bl_operationKey input) "operationKey" 512 ;;
  instant (bl_releasedAt input) "releasedAt" ;;
  Ok tt.

Definition parseFinalize (input : ModelBudgetFinalizeInput) : result failure unit :=
  parseAccountParent (run_parent (bf_runId input)) ;;
  instant (bf_finalizedAt input) "finalizedAt" ;;
  Ok tt.

Definition parseRead (input : ModelBudgetReadInput) : result failure unit :=
  safeInteger (bd_limit input) "limit" 1 ;;
  throw_if (1000 <? bd_limit input) (type_error "limit must be <= 1000") ;;
  parseAccountParent (bd_parent input) ;;
  optionalText (bd_afterOperationKey input) "afterOperationKey" ;;
  Ok tt.

Definition parseLegacyLimits (limits : BackgroundAdmissionLimits) : result failure ModelBudgetLimits :=
  let class := bm_perClassificationCostMicros limits in
  safeInteger (bm_perRunCostMicros limits) "perRunCostMicros" 0 ;;
  safeInteger (bm_globalCostMicros limits) "globalCostMicros" 0 ;;
  safeInteger (class data_public) "public budget" 0 ;;
  safeInteger (class data_private) "private budget" 0 ;;
  safeInteger (class data_sensitive) "sensitive budget" 0 ;;
  safeInteger (class data_restricted) "restricted budget" 0 ;;
  Ok (mkBudgetLimits (bm_perRunCostMicros limits) (bm_globalCostMicros limits) class).

(** What [readAccount] and [parseAllocation] require of a row. *)
Definition account_row_valid (row : AccountRow) : result failure unit :=
  bounded_text (ac_ownerId row) "ownerId" 128 ;;
  bounded_text (ac_agentId row) "agentId" 128 ;;
  bounded_text (ac_accountId row) "accountId" 512 ;;
  optionalText (ac_runId row) "runId" ;;
  optionalText (ac_occurrenceId row) "occurrenceId" ;;
  optionalText (ac_projectionJobId row) "projectionJobId" ;;
  safeInteger (ac_reservedCostMicros row) "reservedCostMicros" 0 ;;
  safeInteger (ac_spentCostMicros row) "spentCostMicros" 0 ;;
  safeInteger (ac_revision row) "revision" 0 ;;
  Ok tt.

Definition allocation_row_valid (row : AllocationRow) : result failure unit :=
  bounded_text (al_ownerId row) "ownerId" 128 ;;
  bounded_text (al_agentId row) "agentId" 128 ;;
  bounded_text (al_accountId row) "accountId" 512 ;;
  bounded_text (al_operationKey row) "operationKey" 512 ;;
  bounded_text (al_modelRef row) "modelRef" 256 ;;
  safeInteger (al_estimatedCostMicros row) "estimatedCostMicros" 0 ;;
  match al_actualCostMicros row with None => Ok tt | Some c => safeInteger c "actualCostMicros" 0 ;; Ok tt end ;;
  instant (al_reservedAt row) "reservedAt" ;;
  optional_instant (al_startedAt row) "startedAt" ;;
  optional_instant (al_observedAt row) "observedAt" ;;
  optional_instant (al_settledAt row) "settledAt" ;;
  Ok tt.

(** ** Queries *)
Definition of_account (ownerId agentId accountIdValue : string) (r : AllocationRow) : bool :=
  (al_ownerId r === ownerId) && (al_agentId r === agentId) && (al_accountId r === accountIdValue).

Definition account_row (ownerId agentId accountIdValue : string) (d : Database) : option AccountRow :=
  get_where (λ r, (ac_ownerId r === ownerId) && (ac_agentId r === agentId) && (ac_accountId r === accountIdValue))
    (t_accounts d).

Definition readAccount (ownerId agentId accountIdValue : string) : Wk (option AccountRow) :=
  row ← gets (account_row ownerId agentId accountIdValue);
  match row with None => mret None | Some row => lift (account_row_valid row) ;; mret (Some row) end.

Definition allocation_row (ownerId agentId accountIdValue operationKey : string) (d : Database) : option AllocationRow :=
  get_where (λ r, of_account ownerId agentId accountIdValue r && (al_operationKey r === operationKey)) (t_allocations d).

Definition readAllocation (ownerId agentId accountIdValue operationKey : string) : Wk (option AllocationRow) :=
  row ← gets (allocation_row ownerId agentId accountIdValue operationKey);
  match row with None => mret None | Some row => lift (allocation_row_valid row) ;; mret (Some row) end.

(** The loop of [readUsage]: the total of the scope, and of each classification. *)
Fixpoint usage_loop (rows : list AccountRow) (global : Z) (byClassification : ProductDataClassification → Z)
    : result failure (Z * (ProductDataClassification → Z)) :=
  match rows with
  | [] => Ok (global, byClassification)
  | row :: rows =>
      safeInteger (ac_reservedCostMicros row) "reservedCostMicros" 0 ;;
      safeInteger (ac_spentCostMicros row) "spentCostMicros" 0 ;;
      total ← addCost (ac_reservedCostMicros row) (ac_spentCostMicros row) "Budget usage";
      global ← addCost global total "Global budget usage";
      let kind := ac_dataClassification row in
      next ← addCost (byClassification kind) total "Classification budget usage";
      usage_loop rows global (λ c, if c === kind then next else byClassification c)
  end.

Definition readUsage (ownerId agentId : string) : Wk (Z * (ProductDataClassification → Z)) :=
  rows ← gets (λ d, all_where (λ r, (ac_ownerId r === ownerId) && (ac_agentId r === agentId)) (t_accounts d));
  lift (usage_loop rows 0 (λ _, 0)).

Definition is_open (status : AllocationStatus) : bool :=
  includes status [allocation_reserved; allocation_started; allocation_unknown].

Definition children (ownerId agentId accountIdValue : string) (d : Database) : list AllocationRow :=
  all_where (of_account ownerId agentId accountIdValue) (t_allocations d).

Definition any_child (p : AllocationStatus → bool) (ownerId agentId accountIdValue : string) : Wk bool :=
  gets (λ d, existsb (λ r, p (al_status r)) (children ownerId agentId accountIdValue d)).

(** The three answers of [childAllocationState]. *)
Definition child_open (s : AllocationStatus) : bool := includes s [allocation_reserved; allocation_started].
Definition child_unknown (s : AllocationStatus) : bool := s === allocation_unknown.
Definition child_settled (s : AllocationStatus) : bool := s === allocation_settled.

Definition remainingUnknown (accountIdValue : string) (scope : RunScope) (excludedOperationKey : string) : Wk bool :=
  gets (λ d, exists_where (λ r, of_account (sc_ownerId scope) (sc_agentId scope) accountIdValue r
    && (al_status r === allocation_unknown) && (al_operationKey r !== excludedOperationKey)) (t_allocations d)).

Fixpoint outstanding_loop (rows : list AllocationRow) (total : Z) : result failure Z :=
  match rows with
  | [] => Ok total
  | row :: rows =>
      safeInteger (al_estimatedCostMicros row) "estimatedCostMicros" 0 ;;
      total ← addCost total (al_estimatedCostMicros row) "Open budget reservation";
      outstanding_loop rows total
  end.

Definition outstandingChildReservation (ownerId agentId accountIdValue : string) : Wk Z :=
  rows ← gets (λ d, all_where (λ r, is_open (al_status r)) (children ownerId agentId accountIdValue d));
  lift (outstanding_loop rows 0).

Definition run_row (scope : RunScope) (runId : RunId) (d : Database) : option RunRow :=
  get_where (λ r, (ru_id r === runId) && (ru_ownerId r === sc_ownerId scope) && (ru_agentId r === sc_agentId scope))
    (t_runs d).

Definition occurrence_row (scope : RunScope) (occurrenceId : OccurrenceId) (d : Database) : option BackgroundOccurrence :=
  get_where (λ r, (bo_id r === occurrenceId) && (bo_ownerId r === sc_ownerId scope) && (bo_agentId r === sc_agentId scope))
    (t_occurrences d).

(** The projection job joined with its memory record. *)
Definition projection_row (scope : RunScope) (jobId : string) (d : Database) : option (ProjectionJobRow * MemoryRow) :=
  job ← get_where (λ j, pj_id j === jobId) (t_projectionJobs d);
  memory ← get_where (λ m, (me_id m === pj_memoryId job) && (me_ownerId m === sc_ownerId scope)
             && (me_agentId m === sc_agentId scope)) (t_memories d);
  Some (job, memory).

Definition projectionJob (scope : RunScope) (jobId : string) : Wk (ProjectionJobRow * MemoryRow) :=
  row ← gets (projection_row scope jobId);
  match row with
  | None => throw (applicationFailure NOT_AUTHORITATIVE "Memory projection is outside the budget scope" [])
  | Some row => mret row
  end.

(** The classification of the payload of the trigger of a Run. *)
Definition run_classification (scope : RunScope) (runId : RunId) (d : Database) : option ProductDataClassification :=
  run ← run_row scope runId d;
  trigger ← get_where (λ t, (tg_id t === ru_triggerId run) && (tg_ownerId t === ru_ownerId run)
              && (tg_agentId t === ru_agentId run)) (t_triggers d);
  payload ← get_where (λ p, (pl_ref p === tg_payloadRef trigger) && (pl_ownerId p === tg_ownerId trigger)
              && (pl_agentId p === tg_agentId trigger)) (t_payloads d);
  Some (pl_classification payload).

Definition runClassification (scope : RunScope) (runId : RunId) : Wk ProductDataClassification :=
  row ← gets (run_classification scope runId);
  match row with
  | None => throw (applicationFailure NOT_AUTHORITATIVE "Run trigger payload classification is unavailable" [])
  | Some c => mret c
  end.

Definition assertRunClassification (scope : RunScope) (runId : RunId) (requested : ProductDataClassification) : Wk unit :=
  minimum ← runClassification scope runId;
  throwM_if (classificationRank requested <? classificationRank minimum)
    (applicationFailure NOT_AUTHORITATIVE "Model allocation classification is below Run input classification" []).

(** ** Guards *)
Definition assertCurrentAuthority (scope : RunScope) (at_ : string) : Wk unit :=
  row ← gets (authority_row scope);
  throwM_if match row with None => true | Some (lease, deployment) => authority_stale scope at_ lease deployment end
    (applicationFailure NOT_AUTHORITATIVE "Current product authority is stale or expired" []).

Definition assertAccountParent (account : AccountRow) (parent : ModelBudgetAccountParent) : result failure unit :=
  throw_if
    match parent with
    | projection_parent jobId =>
        (ac_parentKind account !== kind_projection) || (ac_projectionJobId account !== Some jobId)
        || (ac_runId account !== None) || (ac_occurrenceId account !== None)
    | run_parent runId =>
        (ac_parentKind account !== kind_run) || (ac_runId account !== Some runId) || (ac_occurrenceId account !== None)
    | occurrence_parent occurrenceId =>
        (ac_parentKind account !== kind_occurrence) || (ac_occurrenceId account !== Some occurrenceId)
        || (ac_runId account !== None)
    end
    (applicationFailure CONFLICT "Budget account parent identity is inconsistent" []).

Definition assertAccountClassification (account : AccountRow) (c : ProductDataClassification) : result failure unit :=
  throw_if (ac_dataClassification account !== c)
    (applicationFailure CONFLICT "Budget account classification is immutable" []).

Definition assertAccountParentScope (scope : RunScope) (parent : ModelBudgetAccountParent) : Wk unit :=
  match parent with
  | projection_parent jobId => projectionJob scope jobId ;; mret tt
  | run_parent runId =>
      row ← gets (run_row scope runId);
      throwM_if (is_none row) (applicationFailure NOT_AUTHORITATIVE "Run is outside the budget scope" [])
  | occurrence_parent occurrenceId =>
      row ← gets (occurrence_row scope occurrenceId);
      throwM_if (is_none row) (applicationFailure NOT_AUTHORITATIVE "Occurrence is outside the budget scope" [])
  end.

Definition execution_eligible (status : RunStatus) : bool := includes status [accepted; building_context; running].

(** [assertParent(scope, parent, at, true)]; every caller requires an active parent. *)
Definition assertParent (scope : RunScope) (parent : ModelBudgetActiveParent) (at_ : string) : Wk unit :=
  match parent with
  | active_run runId claim =>
      throwM_if ((el_authorityLeaseId claim !== af_leaseId (sc_authorityLease scope))
                 || (el_authorityFencingToken claim !== fence_fencingToken (sc_authority scope))
                 || (el_deploymentId claim !== fence_deploymentId (sc_authority scope))
                 || (el_authorityEpoch claim !== fence_authorityEpoch (sc_authority scope))
                 || (el_fencingToken claim !== fence_fencingToken (sc_authority scope)))
        (applicationFailure NOT_AUTHORITATIVE "Run execution claim is outside the current authority" []) ;;
      run ← gets (run_row scope runId);
      match run with
      | None => throw (applicationFailure NOT_AUTHORITATIVE "Run is outside the budget scope" [])
      | Some run =>
          assertHeldInTransaction scope (el_consumerId claim) runId (el_expectedLeaseRevision claim)
            (el_executionLeaseId claim) at_ ;;
          throwM_if (negb (execution_eligible (ru_status run)))
            (applicationFailure CONFLICT "Run is not execution-eligible for a new model allocation" [])
      end
  | active_projection jobId claimedBy attemptCount =>
      row ← projectionJob scope jobId;
      let '(job, memory) := row in
      throwM_if ((pj_status job !== "claimed") || (pj_claimedBy job !== Some claimedBy)
                 || (pj_attemptCount job !== attemptCount)
                 || match pj_claimExpiresAt job with
                    | None => true
                    | Some e => (e === "") || negb (isAfter e at_)
                    end
                 || (me_status memory !== "active") || (pj_memoryRevision job !== me_revision memory))
        (applicationFailure CONFLICT "Memory projection execution lease is not held" [])
  | active_occurrence occurrenceId expectedRevision workLeaseId workLeaseHolderId =>
      row ← gets (occurrence_row scope occurrenceId);
      match row with
      | None => throw (applicationFailure NOT_AUTHORITATIVE "Occurrence is outside the budget scope" [])
      | Some occurrence =>
          throwM_if ((bo_revision occurrence !== expectedRevision) || (bo_status occurrence !== occurrence_running)
                     || match bo_workLease occurrence with
                        | None => true
                        | Some l => (wl_id l !== workLeaseId) || (wl_holderId l !== workLeaseHolderId)
                                    || negb (isAfter (wl_expiresAt l) at_)
                        end)
            (applicationFailure CONFLICT "Occurrence execution lease is not held" [])
      end
  end.

Definition assertNoRunBudgetAccountWithinTransaction (ownerId agentId runId : string) : Wk unit :=
  row ← gets (λ d, exists_where (λ r, (ac_ownerId r === ownerId) && (ac_agentId r === agentId)
                && (ac_runId r === Some runId)) (t_accounts d));
  throwM_if row
    (applicationFailure CONFLICT "A Run already owns a model budget account and cannot admit a background occurrence" []).

Definition assertNoBackgroundOccurrenceParentWithinTransaction (ownerId agentId runId : string) : Wk unit :=
  row ← gets (λ d, exists_where (λ r, (bo_ownerId r === ownerId) && (bo_agentId r === agentId)
                && (bo_runId r === Some runId)) (t_occurrences d));
  throwM_if row
    (applicationFailure CONFLICT
       "A Run is already owned by a background occurrence and cannot create a Run budget account" []).

Definition occurrenceRequiresReconciliationWithinTransaction (ownerId agentId occurrenceId : string) : Wk bool :=
  gets (λ d, exists_where (λ r, (ac_ownerId r === ownerId) && (ac_agentId r === agentId)
    && (ac_occurrenceId r === Some occurrenceId) && (ac_status r === account_reconcile_required)) (t_accounts d)).

(** ** Writing the tables *)
Definition new_account (ownerId agentId : string) (parent : ModelBudgetAccountParent) (c : ProductDataClassification)
    : AccountRow :=
  mkAccountRow ownerId agentId (accountId parent)
    match parent with run_parent _ => kind_run | occurrence_parent _ => kind_occurrence | projection_parent _ => kind_projection end
    match parent with run_parent runId => Some runId | _ => None end
    match parent with occurrence_parent occurrenceId => Some occurrenceId | _ => None end
    match parent with projection_parent jobId => Some jobId | _ => None end
    c 0 0 account_active 0.

Definition insertAccount (ownerId agentId : string) (parent : ModelBudgetAccountParent) (c : ProductDataClassification)
    : Wk AccountRow :=
  write_accounts (insert_row (new_account ownerId agentId parent c)) ;;
  account ← readAccount ownerId agentId (accountId parent);
  match account with
  | None => throw (applicationFailure INVALID_OPERATION "Budget account could not be read" [])
  | Some account => mret account
  end.

Definition ensureAccount (ownerId agentId : string) (parent : ModelBudgetAccountParent) (c : ProductDataClassification)
    : Wk AccountRow :=
  existing ← readAccount ownerId agentId (accountId parent);
  match existing with
  | Some existing =>
      lift (assertAccountParent existing parent) ;;
      lift (assertAccountClassification existing c) ;;
      mret existing
  | None => insertAccount ownerId agentId parent c
  end.

Definition same_account (account r : AccountRow) : bool :=
  (ac_ownerId r === ac_ownerId account) && (ac_agentId r === ac_agentId account)
  && (ac_accountId r === ac_accountId account) && (ac_revision r === ac_revision account).

Definition account_with (reserved spent : Z) (status : AccountStatus) (revision : Z) (r : AccountRow) : AccountRow :=
  r <| ac_reservedCostMicros := reserved |> <| ac_spentCostMicros := spent |> <| ac_status := status |>
    <| ac_revision := revision |>.

Definition updateAccount (account : AccountRow) (reserved spent : Z) (status : AccountStatus) : Wk AccountRow :=
  lift (addCost reserved spent "Budget account total") ;;
  revision ← lift (addCost (ac_revision account) 1 "Budget account revision");
  write_accounts (update_where (same_account account) (account_with reserved spent status revision)) ;;
  updated ← readAccount (ac_ownerId account) (ac_agentId account) (ac_accountId account);
  match updated with
  | None => throw (applicationFailure INVALID_OPERATION "Budget account update could not be read" [])
  | Some updated => mret updated
  end.

(** [UPDATE model_budget_allocations SET f WHERE <key> AND status IN (...)], then the row. *)
Definition update_allocation (scope : RunScope) (id operationKey : string) (from : list AllocationStatus)
    (f : AllocationRow → AllocationRow) (missing : string) : Wk AllocationRow :=
  write_allocations (update_where (λ r, of_account (sc_ownerId scope) (sc_agentId scope) id r
    && (al_operationKey r === operationKey) && includes (al_status r) from) f) ;;
  updated ← readAllocation (sc_ownerId scope) (sc_agentId scope) id operationKey;
  match updated with
  | None => throw (applicationFailure INVALID_OPERATION missing [])
  | Some updated => mret updated
  end.

(** ** Records from rows *)
Definition invalidRow (field : string) : failure := type_error ("Budget row is missing " +:+ field).

Definition toAccount (row : AccountRow) : result failure ModelBudgetAccount :=
  ownerId ← identified (ac_ownerId row) "OwnerId";
  agentId ← identified (ac_agentId row) "AgentId";
  parent ← match ac_parentKind row with
           | kind_projection =>
               match ac_projectionJobId row with None => Err (invalidRow "projection_job_id") | Some j => Ok (projection_parent j) end
           | kind_run =>
               match ac_runId row with
               | None => Err (invalidRow "run_id")
               | Some runId => runId ← identified runId "RunId"; Ok (run_parent runId)
               end
           | kind_occurrence =>
               match ac_occurrenceId row with
               | None => Err (invalidRow "occurrence_id")
               | Some o => o ← identified o "OccurrenceId"; Ok (occurrence_parent o)
               end
           end;
  Ok (mkBudgetAccount ownerId agentId (ac_accountId row) parent (ac_dataClassification row)
        (ac_reservedCostMicros row) (ac_spentCostMicros row) (ac_status row) (ac_revision row)).

Definition toAllocation (row : AllocationRow) : result failure AllocationRow :=
  identified (al_ownerId row) "OwnerId" ;;
  identified (al_agentId row) "AgentId" ;;
  Ok row.

(** [rows.map((row) => this.toAllocation(this.parseAllocation(row)))] *)
Fixpoint page_rows (rows : list AllocationRow) : result failure (list AllocationRow) :=
  match rows with
  | [] => Ok []
  | row :: rows =>
      allocation_row_valid row ;;
      allocation ← toAllocation row;
      rest ← page_rows rows;
      Ok (allocation :: rest)
  end.

Definition budget_result (account : AccountRow) (allocation : AllocationRow) (replayed : bool)
    : Wk ModelBudgetOperationResult :=
  account ← lift (toAccount account);
  allocation ← lift (toAllocation allocation);
  mret (mkBudgetResult account allocation replayed).

(** ** Operations inside a transaction *)
Definition reserveWithinTransaction (scope : RunScope) (input : ModelBudgetReserveInput) : Wk ModelBudgetOperationResult :=
  let ownerId := sc_ownerId scope in
  let agentId := sc_agentId scope in
  let parent := rs_parent input in
  let id := accountId (account_parent parent) in
  let estimate := rs_estimatedCostMicros input in
  let limits := rs_limits input in
  assertCurrentAuthority scope (rs_reservedAt input) ;;
  (match parent with active_projection _ _ _ => assertParent scope parent (rs_reservedAt input) | _ => mret tt end) ;;
  existingAccount ← readAccount ownerId agentId id;
  existing ← readAllocation ownerId agentId id (rs_operationKey input);
  match existing with
  | Some existing =>
      throwM_if ((al_modelRef existing !== rs_modelRef input)
                 || (al_dataClassification existing !== rs_dataClassification input)
                 || (al_estimatedCostMicros existing !== estimate))
        (applicationFailure CONFLICT "Model budget operation identity has conflicting semantics" []) ;;
      match existingAccount with
      | None => throw (applicationFailure INVALID_OPERATION "Budget allocation has no parent account" [])
      | Some account =>
          lift (assertAccountParent account (account_parent parent)) ;;
          budget_result account existing true
      end
  | None =>
      assertParent scope parent (rs_reservedAt input) ;;
      (match parent with
       | active_run runId _ =>
           assertNoBackgroundOccurrenceParentWithinTransaction ownerId agentId runId ;;
           assertRunClassification scope runId (rs_dataClassification input)
       | active_projection jobId _ _ =>
           row ← projectionJob scope jobId;
           throwM_if (me_classification row.2 !== rs_dataClassification input)
             (applicationFailure NOT_AUTHORITATIVE "Memory projection classification mismatch" [])
       | active_occurrence _ _ _ _ =>
           throwM_if (is_none existingAccount)
             (applicationFailure NOT_FOUND "Occurrence budget account must be admitted before model allocation" [])
       end) ;;
      account ← match existingAccount with
                | Some account => mret account
                | None => insertAccount ownerId agentId (account_parent parent) (rs_dataClassification input)
                end;
      lift (assertAccountClassification account (rs_dataClassification input)) ;;
      throwM_if (ac_status account !== account_active)
        (applicationFailure CONFLICT "Budget account is not available for a new allocation" []) ;;
      accountTotal ← lift (addCost (ac_reservedCostMicros account) (ac_spentCostMicros account) "Account budget");
      nextReserved ← match parent with
        | active_occurrence _ _ _ _ =>
            outstanding ← outstandingChildReservation ownerId agentId (ac_accountId account);
            available ← lift (subtractCost (ac_reservedCostMicros account) outstanding "Occurrence budget");
            throwM_if (available <? estimate)
              (applicationFailure CONFLICT "Occurrence budget reservation is exhausted" []) ;;
            mret (ac_reservedCostMicros account)
        | _ =>
            next ← lift (addCost accountTotal estimate "Account budget");
            throwM_if (ml_accountCostMicros limits <? next)
              (applicationFailure CONFLICT "Run budget limit is exhausted" []) ;;
            usage ← readUsage ownerId agentId;
            next ← lift (addCost usage.1 estimate "Global budget");
            throwM_if (ml_globalCostMicros limits <? next)
              (applicationFailure CONFLICT "Global model budget is exhausted" []) ;;
            next ← lift (addCost (usage.2 (rs_dataClassification input)) estimate "Classification budget");
            throwM_if (ml_perClassificationCostMicros limits (rs_dataClassification input) <? next)
              (applicationFailure CONFLICT "Classification model budget is exhausted" []) ;;
            lift (addCost (ac_reservedCostMicros account) estimate "Reserved budget")
        end;
      write_allocations (insert_row (mkAllocationRow ownerId agentId (ac_accountId account) (rs_operationKey input)
        (rs_modelRef input) (rs_dataClassification input) estimate None allocation_reserved (rs_reservedAt input)
        None None None None)) ;;
      updated ← updateAccount account nextReserved (ac_spentCostMicros account) account_active;
      allocation ← readAllocation ownerId agentId (ac_accountId account) (rs_operationKey input);
      match allocation with
      | None => throw (applicationFailure INVALID_OPERATION "Budget allocation could not be read" [])
      | Some allocation => budget_result updated allocation false
      end
  end.

(** The account and the allocation an operation names. *)
Definition find_allocation (scope : RunScope) (parent : ModelBudgetAccountParent) (operationKey : string)
    : Wk (AccountRow * AllocationRow) :=
  account ← readAccount (sc_ownerId scope) (sc_agentId scope) (accountId parent);
  allocation ← readAllocation (sc_ownerId scope) (sc_agentId scope) (accountId parent) operationKey;
  match account, allocation with
  | Some account, Some allocation =>
      lift (assertAccountParent account parent) ;;
      mret (account, allocation)
  | _, _ => throw (applicationFailure NOT_FOUND "Model budget allocation was not found" [])
  end.

Definition markStartedWithinTransaction (scope : RunScope) (input : ModelBudgetMarkStartedInput)
    : Wk ModelBudgetOperationResult :=
  let parent := ms_parent input in
  assertCurrentAuthority scope (ms_startedAt input) ;;
  (match parent with active_projection _ _ _ => assertParent scope parent (ms_startedAt input) | _ => mret tt end) ;;
  found ← find_allocation scope (account_parent parent) (ms_operationKey input);
  let '(account, allocation) := found in
  if al_status allocation === allocation_started then budget_result account allocation true
  else
    throwM_if (al_status allocation !== allocation_reserved)
      (applicationFailure CONFLICT "Model budget allocation cannot be started" []) ;;
    assertParent scope parent (ms_startedAt input) ;;
    throwM_if (ac_status account !== account_active)
      (applicationFailure CONFLICT "Budget account is not active" []) ;;
    updated ← update_allocation scope (accountId (account_parent parent)) (ms_operationKey input) [allocation_reserved]
      (λ r, r <| al_status := allocation_started |> <| al_startedAt := Some (ms_startedAt input) |>)
      "Started budget allocation could not be read";
    budget_result account updated false.

Definition settleWithinTransaction (scope : RunScope) (input : ModelBudgetSettlementInput)
    : Wk ModelBudgetOperationResult :=
  let id := accountId (bs_parent input) in
  let actual := bs_actualCostMicros input in
  assertCurrentAuthority scope (bs_settledAt input) ;;
  found ← find_allocation scope (bs_parent input) (bs_operationKey input);
  let '(account, allocation) := found in
  if al_status allocation === allocation_settled then
    throwM_if (al_actualCostMicros allocation !== Some actual)
      (applicationFailure CONFLICT "Settled model budget cost is immutable" []) ;;
    budget_result account allocation true
  else
    throwM_if ((al_status allocation !== allocation_started) && (al_status allocation !== allocation_unknown))
      (applicationFailure CONFLICT "Only started or unknown allocations can be settled" []) ;;
    assertAccountParentScope scope (bs_parent input) ;;
    reserved ← lift (subtractCost (ac_reservedCostMicros account) (al_estimatedCostMicros allocation) "Reserved budget");
    spent ← lift (addCost (ac_spentCostMicros account) actual "Spent budget");
    status ← (if (ac_status account === account_over_budget) || (al_estimatedCostMicros allocation <? actual)
              then mret account_over_budget
              else unknown ← remainingUnknown id scope (bs_operationKey input);
                   mret (if unknown : bool then account_reconcile_required else account_active));
    updatedAccount ← updateAccount account reserved spent status;
    updated ← update_allocation scope id (bs_operationKey input) [allocation_reserved; allocation_started; allocation_unknown]
      (λ r, r <| al_status := allocation_settled |> <| al_actualCostMicros := Some actual |>
              <| al_settledAt := Some (bs_settledAt input) |> <| al_reasonCode := None |>)
      "Settled budget allocation could not be read";
    budget_result updatedAccount updated false.

Definition markUnknownWithinTransaction (scope : RunScope) (input : ModelBudgetUnknownInput)
    : Wk ModelBudgetOperationResult :=
  assertCurrentAuthority scope (bu_observedAt input) ;;
  found ← find_allocation scope (bu_parent input) (bu_operationKey input);
  let '(account, allocation) := found in
  if al_status allocation === allocation_unknown then
    throwM_if (al_reasonCode allocation !== Some (bu_reasonCode input))
      (applicationFailure CONFLICT "Unknown model budget reason is immutable" []) ;;
    budget_result account allocation true
  else
    throwM_if (al_status allocation !== allocation_started)
      (applicationFailure CONFLICT "Only started allocations can become unknown" []) ;;
    assertAccountParentScope scope (bu_parent input) ;;
    updatedAccount ← updateAccount account (ac_reservedCostMicros account) (ac_spentCostMicros account)
      (if ac_status account === account_over_budget then account_over_budget else account_reconcile_required);
    updated ← update_allocation scope (accountId (bu_parent input)) (bu_operationKey input) [allocation_started]
      (λ r, r <| al_status := allocation_unknown |> <| al_observedAt := Some (bu_observedAt input) |>
              <| al_reasonCode := Some (bu_reasonCode input) |>)
      "Unknown budget allocation could not be read";
    budget_result updatedAccount updated false.

Definition releaseReservedWithinTransaction (scope : RunScope) (input : ModelBudgetReleaseReservedInput)
    : Wk ModelBudgetOperationResult :=
  assertCurrentAuthority scope (bl_releasedAt input) ;;
  found ← find_allocation scope (bl_parent input) (bl_operationKey input);
  let '(account, allocation) := found in
  if al_status allocation === allocation_released then budget_result account allocation true
  else
    throwM_if (al_status allocation !== allocation_reserved)
      (applicationFailure CONFLICT "Only reserved model budget allocations can be released" []) ;;
    assertAccountParentScope scope (bl_parent input) ;;
    reserved ← lift (subtractCost (ac_reservedCostMicros account) (al_estimatedCostMicros allocation) "Reserved budget");
    updatedAccount ← updateAccount account reserved (ac_spentCostMicros account) (ac_status account);
    updated ← update_allocation scope (accountId (bl_parent input)) (bl_operationKey input) [allocation_reserved]
      (λ r, r <| al_status := allocation_released |> <| al_reasonCode := None |>)
      "Released budget allocation could not be read";
    budget_result updatedAccount updated false.

Definition terminated (status : RunStatus) : bool := includes status [completed; failed; cancelled].

(** The body of the transaction of [finalizeSync]. *)
Definition finalizeWithinTransaction (scope : RunScope) (input : ModelBudgetFinalizeInput) : Wk ModelBudgetAccount :=
  let ownerId := sc_ownerId scope in
  let agentId := sc_agentId scope in
  let parent := run_parent (bf_runId input) in
  assertCurrentAuthority scope (bf_finalizedAt input) ;;
  assertAccountParentScope scope parent ;;
  run ← gets (run_row scope (bf_runId input));
  throwM_if match run with None => true | Some run => negb (terminated (ru_status run)) end
    (applicationFailure CONFLICT "A model budget account can finalize only after Run termination" []) ;;
  existing ← readAccount ownerId agentId (accountId parent);
  account ← match existing with
            | Some account => mret account
            | None =>
                assertNoBackgroundOccurrenceParentWithinTransaction ownerId agentId (bf_runId input) ;;
                c ← runClassification scope (bf_runId input);
                insertAccount ownerId agentId parent c
            end;
  lift (assertAccountParent account parent) ;;
  write_allocations (update_where (λ r, of_account ownerId agentId (ac_accountId account) r
    && (al_status r === allocation_reserved)) (λ r, r <| al_status := allocation_released |>)) ;;
  outstanding ← outstandingChildReservation ownerId agentId (ac_accountId account);
  throwM_if (ac_reservedCostMicros account <? outstanding)
    (applicationFailure CONFLICT "Budget account reservation is below open child allocations" []) ;;
  left ← any_child (λ s, child_open s || child_unknown s) ownerId agentId (ac_accountId account);
  updated ← updateAccount account outstanding (ac_spentCostMicros account)
    (if ac_status account === account_over_budget then account_over_budget
     else if left : bool then account_reconcile_required else account_active);
  lift (toAccount updated).

Definition readSync (scope : RunScope) (input : ModelBudgetReadInput) : Wk (option ModelBudgetSnapshot) :=
  account ← readAccount (sc_ownerId scope) (sc_agentId scope) (accountId (bd_parent input));
  match account with
  | None => mret None
  | Some account =>
      lift (assertAccountParent account (bd_parent input)) ;;
      rows ← gets (λ d, order_limit (λ a b, compareStrings (al_operationKey a) (al_operationKey b)) (bd_limit input + 1)
        (all_where (λ r, match bd_afterOperationKey input with None => true | Some k => str_lt k (al_operationKey r) end)
          (children (sc_ownerId scope) (sc_agentId scope) (ac_accountId account) d)));
      let hasMore := bd_limit input <? Z.of_nat (List.length rows) in
      let pageRows := take (Z.to_nat (bd_limit input)) rows in
      allocations ← lift (page_rows pageRows);
      snapshot ← lift (toAccount account);
      mret (Some (mkBudgetSnapshot snapshot allocations
        (if hasMore then al_operationKey <$> last allocations else None)))
  end.

(** *** What background occurrences use *)
Definition BudgetAdmission : Type := (Z * Z * option string)%type.

Definition reserveOccurrenceWithinTransaction (occurrence : BackgroundOccurrence) (limits : BackgroundAdmissionLimits)
    : Wk BudgetAdmission :=
  account ← ensureAccount (bo_ownerId occurrence) (bo_agentId occurrence) (occurrence_parent (bo_id occurrence))
    (bo_dataClassification occurrence);
  limits ← lift (parseLegacyLimits limits);
  let estimate := bo_estimatedCostMicros occurrence in
  let refused reasonCode : BudgetAdmission :=
    (ac_reservedCostMicros account, ac_spentCostMicros account, Some reasonCode) in
  if (ac_status account === account_reconcile_required) || (ac_status account === account_over_budget)
  then mret (refused "RUN_BUDGET_EXCEEDED")
  else
    total ← lift (addCost (ac_reservedCostMicros account) (ac_spentCostMicros account) "Run budget");
    nextTotal ← lift (addCost total estimate "Run budget");
    if ml_accountCostMicros limits <? nextTotal then mret (refused "RUN_BUDGET_EXCEEDED")
    else
      usage ← readUsage (bo_ownerId occurrence) (bo_agentId occurrence);
      globalNext ← lift (addCost usage.1 estimate "Global budget");
      if ml_globalCostMicros limits <? globalNext then mret (refused "GLOBAL_BUDGET_EXHAUSTED")
      else
        let c := bo_dataClassification occurrence in
        classificationNext ← lift (addCost (usage.2 c) estimate "Classification budget");
        if ml_perClassificationCostMicros limits c <? classificationNext
        then mret (refused "CLASSIFICATION_BUDGET_EXHAUSTED")
        else
          reserved ← lift (addCost (ac_reservedCostMicros account) estimate "Reserved budget");
          updateAccount account reserved (ac_spentCostMicros account) account_active ;;
          mret (reserved, ac_spentCostMicros account, None).

Definition settleOccurrenceWithinTransaction (occurrence : BackgroundOccurrence)
    (settlement : BackgroundOccurrenceSettlement) : Wk (Z * Z) :=
  let ownerId := bo_ownerId occurrence in
  let agentId := bo_agentId occurrence in
  account ← ensureAccount ownerId agentId (occurrence_parent (bo_id occurrence)) (bo_dataClassification occurrence);
  unsettled ← any_child (λ s, child_open s || child_unknown s) ownerId agentId (ac_accountId account);
  settled ← any_child child_settled ownerId agentId (ac_accountId account);
  throwM_if (unsettled || (settled && (os_spentCostMicros settlement !== 0)))
    (applicationFailure CONFLICT "Occurrence settlement cannot rewrite or release child model allocation facts" []) ;;
  if os_outcome settlement === settled_unknown then
    updateAccount account (ac_reservedCostMicros account) (ac_spentCostMicros account) account_reconcile_required ;;
    mret (ac_reservedCostMicros account, ac_spentCostMicros account)
  else
    spent ← lift (addCost (ac_spentCostMicros account) (os_spentCostMicros settlement) "Spent budget");
    let overBudget := (ac_status account === account_over_budget)
                      || (bo_reservedCostMicros occurrence <? os_spentCostMicros settlement) in
    updateAccount account 0 spent (if overBudget then account_over_budget else account_active) ;;
    mret (0, spent).

(** ** Requests *)
Section requests.
Context (configuration : SqliteWorkerConfiguration) (freeBytes : Z).

Definition runImmediateTransaction {A} (operation : Wk A) : Wk A :=
  lift (assertDiskHeadroom configuration freeBytes) ;;
  transaction operation.

(** [execute]: a [TypeError], wherever it is thrown, is an invalid operation. *)
Definition execute {A} (scope : RunScope) (operation : Wk A) : Wk A := λ d,
  match (lift (parseEnvelope scope) ;; operation) d with
  | (Err (type_error message), d') => (Err (applicationFailure INVALID_OPERATION message []), d')
  | other => other
  end.

Definition modelBudget_read (scope : RunScope) (input : ModelBudgetReadInput) : Wk (option ModelBudgetSnapshot) :=
  execute scope (lift (parseRead input) ;; readSync scope input).

Definition modelBudget_reserve (scope : RunScope) (input : ModelBudgetReserveInput) : Wk ModelBudgetOperationResult :=
  execute scope (lift (parseReserve input) ;; runImmediateTransaction (reserveWithinTransaction scope input)).

Definition modelBudget_markStarted (scope : RunScope) (input : ModelBudgetMarkStartedInput) : Wk ModelBudgetOperationResult :=
  execute scope (lift (parseMarkStarted input) ;; runImmediateTransaction (markStartedWithinTransaction scope input)).

Definition modelBudget_settle (scope : RunScope) (input : ModelBudgetSettlementInput) : Wk ModelBudgetOperationResult :=
  execute scope (lift (parseSettlement input) ;; runImmediateTransaction (settleWithinTransaction scope input)).

Definition modelBudget_markUnknown (scope : RunScope) (input : ModelBudgetUnknownInput) : Wk ModelBudgetOperationResult :=
  execute scope (lift (parseUnknown input) ;; runImmediateTransaction (markUnknownWithinTransaction scope input)).

Definition modelBudget_releaseReserved (scope : RunScope) (input : ModelBudgetReleaseReservedInput)
    : Wk ModelBudgetOperationResult :=
  execute scope (lift (parseReleaseReserved input) ;; runImmediateTransaction (releaseReservedWithinTransaction scope input)).

Definition modelBudget_finalize (scope : RunScope) (input : ModelBudgetFinalizeInput) : Wk ModelBudgetAccount :=
  execute scope (lift (parseFinalize input) ;; runImmediateTransaction (finalizeWithinTransaction scope input)).
End requests.
