(* ===== verification/BackgroundWork.v ===== *)
(** The background occurrences of
    packages/persistence-sqlite/src/sqlite-durable-operations.ts (with the data
    of packages/application/src/ports/durability.ts): queued, admitted within
    capacity and budget, claimed under a work lease, and settled. *)
From S2P Require Import Prelude Js JsDate Identifiers Entities.
From S2P Require Import Deterministic InMemoryAuth Coordination Persistence DurableState.
From S2P Require Import Sqlite SqliteSchema SqliteWorker RunDispatch ModelBudget.
Local Open Scope Z_scope.

(** ** Data *)
Record BackgroundAdmissionReservation := mkAdmissionReservation {
  bq_occurrenceId : OccurrenceId; bq_expectedRevision : Z; bq_runId : RunId; bq_authority : ProductAuthorityFence;
  bq_limits : BackgroundAdmissionLimits; bq_admittedAt : string }.

Inductive AdmissionOutcome :=
  | outcome_admitted | outcome_budget_blocked | outcome_capacity_blocked | outcome_deadline_exceeded | outcome_blocked
  | outcome_reconcile_required | outcome_duplicate.

Record BackgroundAdmissionResult := mkAdmissionResult {
  bx_occurrence : BackgroundOccurrence; bx_outcome : AdmissionOutcome; bx_reasonCode : string }.

Record BackgroundOccurrenceClaim := mkOccurrenceClaim {
  bc_occurrenceId : OccurrenceId; bc_expectedRevision : Z; bc_authority : ProductAuthorityFence; bc_leaseId : string;
  bc_holderId : string; bc_claimedAt : string; bc_expiresAt : string }.

(** [!Number.isNaN(new Date(value).valueOf()) && new Date(value).toISOString() === value] *)
Definition iso_time (value : string) : option Z :=
  match dateParse value with Some t => if isoOfTime t === Ok value then Some t else None | None => None end.

(** ** Queries and guards *)
Definition readOccurrence (occurrenceId : OccurrenceId) : Wk (option BackgroundOccurrence) :=
  gets (λ d, get_where (λ r, bo_id r === occurrenceId) (t_occurrences d)).

Definition readOccurrenceByStableKey (jobId : JobId) (stableKey : string) : Wk (option BackgroundOccurrence) :=
  gets (λ d, get_where (λ r, (bo_jobId r === jobId) && (bo_stableKey r === stableKey)) (t_occurrences d)).

Definition assertBackgroundFence (ownerId agentId : string) (fence : ProductAuthorityFence) : Wk unit :=
  current ← gets (λ d, get_where (λ r, (dep_id r === fence_deploymentId fence) && (dep_ownerId r === ownerId)
                    && (dep_agentId r === agentId)) (t_deployments d));
  throwM_if
    match current with
    | None => true
    | Some current =>
        (dep_status current !== deployment_active) || (dep_authorityEpoch current !== fence_authorityEpoch fence)
        || (dep_fencingToken current !== fence_fencingToken fence)
    end
    (applicationFailure NOT_AUTHORITATIVE "Background work carries a stale authority fence"
       [("deploymentId", fence_deploymentId fence)]).

Definition nonnegative_safe (n : Z) : bool := isSafeInteger n && (0 <=? n).

Definition assertOccurrenceShape (occurrence : BackgroundOccurrence) : result failure unit :=
  throw_if
    (negb (forallb nonnegative_safe
       [bo_revision occurrence; bo_estimatedCostMicros occurrence; bo_reservedCostMicros occurrence;
        bo_spentCostMicros occurrence; bo_attemptCount occurrence])
     || (bo_revision occurrence <? 1)
     || (String.length (bo_stableKey occurrence) =? 0)%nat || (512 <? String.length (bo_stableKey occurrence))%nat
     || (String.length (bo_category occurrence) =? 0)%nat || (64 <? String.length (bo_category occurrence))%nat
     || is_none (iso_time (bo_deadlineAt occurrence)))
    (applicationFailure INVALID_OPERATION ("Background occurrence " +:+ bo_id occurrence +:+ " is invalid") []).

Definition writeOccurrence (occurrence : BackgroundOccurrence) : Wk unit :=
  write_occurrences (update_where (λ r, bo_id r === bo_id occurrence) (λ r, occurrence
    <| bo_jobId := bo_jobId r |> <| bo_ownerId := bo_ownerId r |> <| bo_agentId := bo_agentId r |>
    <| bo_stableKey := bo_stableKey r |>)).

Definition occurrence_not_found (occurrenceId : OccurrenceId) : failure :=
  applicationFailure NOT_FOUND ("Occurrence " +:+ occurrenceId +:+ " not found") [].
Definition occurrence_conflict (occurrenceId : OccurrenceId) : failure :=
  applicationFailure CONFLICT ("Occurrence " +:+ occurrenceId +:+ " revision conflict") [].

(** [occurrence.lastErrorCode === "EXTERNAL_RESULT_UNKNOWN" || ...] *)
Definition requires_reconciliation (current : BackgroundOccurrence) : Wk bool :=
  if bo_lastErrorCode current === Some "EXTERNAL_RESULT_UNKNOWN" then mret true
  else occurrenceRequiresReconciliationWithinTransaction (bo_ownerId current) (bo_agentId current) (bo_id current).

Section operations.
Context (configuration : SqliteWorkerConfiguration) (freeBytes : Z).

(** ** A new occurrence *)
Definition createOccurrence (occurrence : BackgroundOccurrence) : Wk BackgroundOccurrence :=
  lift (assertDiskHeadroom configuration freeBytes) ;;
  lift (assertOccurrenceShape occurrence) ;;
  assertBackgroundFence (bo_ownerId occurrence) (bo_agentId occurrence) (bo_authority occurrence) ;;
  duplicate ← readOccurrenceByStableKey (bo_jobId occurrence) (bo_stableKey occurrence);
  match duplicate with
  | Some duplicate =>
      throwM_if ((bo_ownerId duplicate !== bo_ownerId occurrence) || (bo_agentId duplicate !== bo_agentId occurrence)
                 || (bo_category duplicate !== bo_category occurrence)
                 || (bo_dataClassification duplicate !== bo_dataClassification occurrence)
                 || (bo_estimatedCostMicros duplicate !== bo_estimatedCostMicros occurrence)
                 || negb (eqb (bo_foreground duplicate) (bo_foreground occurrence))
                 || negb (eqb (bo_parallelSafe duplicate) (bo_parallelSafe occurrence)))
        (applicationFailure CONFLICT "Background occurrence stable identity has conflicting semantics" []) ;;
      mret duplicate
  | None =>
      existing ← readOccurrence (bo_id occurrence);
      throwM_if (negb (is_none existing))
        (applicationFailure CONFLICT ("Background occurrence " +:+ bo_id occurrence +:+ " already exists") []) ;;
      job ← gets (λ d, get_where (λ r, bj_id r === bo_jobId occurrence) (t_jobs d));
      throwM_if
        match job with
        | None => true
        | Some job => (bj_ownerId job !== bo_ownerId occurrence) || (bj_agentId job !== bo_agentId occurrence)
        end
        (applicationFailure INVALID_OPERATION ("Background job " +:+ bo_jobId occurrence +:+ " is outside scope") []) ;;
      throwM_if ((bo_status occurrence !== occurrence_queued) || negb (is_none (bo_runId occurrence))
                 || negb (is_none (bo_workLease occurrence)) || (bo_reservedCostMicros occurrence !== 0)
                 || (bo_spentCostMicros occurrence !== 0) || (bo_attemptCount occurrence !== 0))
        (applicationFailure INVALID_OPERATION "A new background occurrence must start queued" []) ;;
      write_occurrences (insert_row occurrence) ;;
      mret occurrence
  end.

(** ** Admission *)
Definition occupies_job (status : BackgroundOccurrenceStatus) : bool :=
  includes status [occurrence_admitted; occurrence_running; occurrence_retry_wait; occurrence_blocked_credentials;
                   occurrence_blocked_approval].

(** The other occurrences of the job that have a Run, of which [p] holds. *)
Definition active_for_job (current : BackgroundOccurrence) (p : BackgroundOccurrence → bool) (d : Database) : Z :=
  Z.of_nat (List.length (all_where (λ r, (bo_jobId r === bo_jobId current) && (bo_id r !== bo_id current)
    && negb (is_none (bo_runId r)) && p r && occupies_job (bo_status r)) (t_occurrences d))).

(** The admitted and running occurrences of the scope. *)
Definition capacity_of (current : BackgroundOccurrence) (p : BackgroundOccurrence → bool) (d : Database) : Z :=
  Z.of_nat (List.length (all_where (λ r, (bo_ownerId r === bo_ownerId current) && (bo_agentId r === bo_agentId current)
    && includes (bo_status r) [occurrence_admitted; occurrence_running] && p r) (t_occurrences d))).

Definition limits_invalid (limits : BackgroundAdmissionLimits) : bool :=
  let class := bm_perClassificationCostMicros limits in
  negb (isSafeInteger (bm_totalRuns limits) && (0 <? bm_totalRuns limits)
        && isSafeInteger (bm_foregroundReserved limits) && (0 <=? bm_foregroundReserved limits)
        && (bm_foregroundReserved limits <=? bm_totalRuns limits))
  || negb (forallb nonnegative_safe
       [bm_globalCostMicros limits; bm_perRunCostMicros limits; class data_public; class data_private;
        class data_sensitive; class data_restricted]).

(** [limits.perCategory[category]] *)
Definition category_limit (limits : BackgroundAdmissionLimits) (category : string) : option Z :=
  snd <$> List.find (λ p, p.1 === category) (bm_perCategory limits).

(** The first capacity the occurrence does not fit in. *)
Definition capacity_reason (current : BackgroundOccurrence) (limits : BackgroundAdmissionLimits) : Wk (option string) :=
  activeForJob ← gets (active_for_job current (λ _, true));
  unsafeActiveForJob ← gets (active_for_job current (λ r, negb (bo_parallelSafe r)));
  total ← gets (capacity_of current (λ _, true));
  background ← gets (capacity_of current (λ r, negb (bo_foreground r)));
  let reason :=
    if (negb (bo_parallelSafe current) || (0 <? unsafeActiveForJob)) && (0 <? activeForJob)
    then Some "JOB_ALREADY_ACTIVE"
    else if bm_totalRuns limits <=? total then Some "TOTAL_CAPACITY_EXHAUSTED"
    else if negb (bo_foreground current) && (bm_totalRuns limits - bm_foregroundReserved limits <=? background)
    then Some "FOREGROUND_CAPACITY_RESERVED" else None in
  match category_limit limits (bo_category current) with
  | None => mret reason
  | Some categoryLimit =>
      throwM_if (negb (nonnegative_safe categoryLimit))
        (applicationFailure INVALID_OPERATION ("Category " +:+ bo_category current +:+ " limit is invalid") []) ;;
      categoryActive ← gets (capacity_of current (λ r, bo_category r === bo_category current));
      mret (match reason with
            | Some _ => reason
            | None => if categoryLimit <=? categoryActive then Some "CATEGORY_CAPACITY_EXHAUSTED" else None
            end)
  end.

Definition blocked_by_budget (reasonCode : option string) : bool :=
  includes reasonCode [Some "RUN_BUDGET_EXCEEDED"; Some "GLOBAL_BUDGET_EXHAUSTED"; Some "CLASSIFICATION_BUDGET_EXHAUSTED"].

(** The occurrence has its answer already, or may not be admitted yet. *)
Definition admission_answered (current : BackgroundOccurrence) (input : BackgroundAdmissionReservation)
    : option BackgroundAdmissionResult :=
  if includes (bo_status current) [occurrence_completed; occurrence_failed_terminal; occurrence_missed]
     || includes (bo_status current) [occurrence_admitted; occurrence_running]
        && (bo_runId current === Some (bq_runId input))
  then Some (mkAdmissionResult current outcome_duplicate "ALREADY_ADMITTED")
  else None.

Definition admission_blocked (current : BackgroundOccurrence) (input : BackgroundAdmissionReservation)
    : option BackgroundAdmissionResult :=
  match bo_status current with
  | occurrence_blocked_credentials => Some (mkAdmissionResult current outcome_blocked "CREDENTIALS_BLOCKED")
  | occurrence_blocked_approval =>
      Some (mkAdmissionResult current outcome_blocked
        (if bo_lastErrorCode current === Some "MODEL_BLOCKED" then "MODEL_BLOCKED" else "AUTHORIZATION_BLOCKED"))
  | occurrence_retry_wait =>
      match bo_nextRetryAt current with
      | Some t => if str_lt (bq_admittedAt input) t
                  then Some (mkAdmissionResult current outcome_blocked "RETRY_NOT_DUE") else None
      | None => None
      end
  | _ => None
  end.

(** Past its deadline the occurrence fails; within it, it is admitted if there is
    capacity and then budget. *)
Definition admit_occurrence (current : BackgroundOccurrence) (input : BackgroundAdmissionReservation)
    : Wk BackgroundAdmissionResult :=
  let limits := bq_limits input in
  let next := current <| bo_revision := bo_revision current + 1 |> <| bo_authority := bq_authority input |>
                <| bo_runId := Some (bq_runId input) |> <| bo_nextRetryAt := None |> in
  if str_le (bo_deadlineAt current) (bq_admittedAt input) then
    let expired := next <| bo_status := occurrence_failed_terminal |> <| bo_reservedCostMicros := 0 |>
                        <| bo_lastErrorCode := Some "DEADLINE_EXCEEDED" |> in
    writeOccurrence expired ;;
    mret (mkAdmissionResult expired outcome_deadline_exceeded "DEADLINE_EXCEEDED")
  else
    throwM_if (limits_invalid limits)
      (applicationFailure INVALID_OPERATION "Background admission limits are invalid" []) ;;
    capacity ← capacity_reason current limits;
    budget ← match capacity with
             | Some _ => mret (bo_reservedCostMicros current, bo_spentCostMicros current, None)
             | None => reserveOccurrenceWithinTransaction current limits
             end;
    let reasonCode := match capacity with Some _ => capacity | None => budget.2 end in
    let stored := next
      <| bo_status := match reasonCode with
                      | None => occurrence_admitted
                      | Some _ => if blocked_by_budget reasonCode then occurrence_budget_blocked else occurrence_capacity_blocked
                      end |>
      <| bo_reservedCostMicros := budget.1.1 |> <| bo_spentCostMicros := budget.1.2 |> <| bo_lastErrorCode := reasonCode |> in
    writeOccurrence stored ;;
    mret (mkAdmissionResult stored
      match reasonCode with
      | None => outcome_admitted
      | Some _ => if blocked_by_budget reasonCode then outcome_budget_blocked else outcome_capacity_blocked
      end
      (default "ADMITTED" reasonCode)).

Definition reserveBackgroundAdmission (input : BackgroundAdmissionReservation) : Wk BackgroundAdmissionResult :=
  lift (assertDiskHeadroom configuration freeBytes) ;;
  transaction (
    current ← readOccurrence (bq_occurrenceId input);
    match current with
    | None => throw (occurrence_not_found (bq_occurrenceId input))
    | Some current =>
        assertBackgroundFence (bo_ownerId current) (bo_agentId current) (bq_authority input) ;;
        run ← gets (λ d, get_where (λ r, ru_id r === bq_runId input) (t_runs d));
        throwM_if
          match run with
          | None => true
          | Some run => (ru_ownerId run !== bo_ownerId current) || (ru_agentId run !== bo_agentId current)
          end
          (applicationFailure INVALID_OPERATION ("Run " +:+ bq_runId input +:+ " is outside occurrence scope") []) ;;
        assertNoRunBudgetAccountWithinTransaction (bo_ownerId current) (bo_agentId current) (bq_runId input) ;;
        requiresReconciliation ← requires_reconciliation current;
        if requiresReconciliation : bool then
          mret (mkAdmissionResult current outcome_reconcile_required "EXTERNAL_RESULT_RECONCILIATION_REQUIRED")
        else
          match admission_answered current input with
          | Some answer => mret answer
          | None =>
              throwM_if (bo_revision current !== bq_expectedRevision input)
                (occurrence_conflict (bq_occurrenceId input)) ;;
              match admission_blocked current input with
              | Some answer => mret answer
              | None =>
                  throwM_if (negb (includes (bo_status current)
                      [occurrence_queued; occurrence_retry_wait; occurrence_budget_blocked; occurrence_capacity_blocked]))
                    (applicationFailure INVALID_OPERATION
                       ("Occurrence " +:+ bq_occurrenceId input +:+ " cannot be admitted") []) ;;
                  throwM_if (is_none (iso_time (bq_admittedAt input)))
                    (applicationFailure INVALID_OPERATION "Background admission time is invalid" []) ;;
                  admit_occurrence current input
              end
          end
    end).

(** ** Claim *)
Definition claimOccurrence (input : BackgroundOccurrenceClaim) : Wk BackgroundOccurrence :=
  lift (assertDiskHeadroom configuration freeBytes) ;;
  transaction (
    current ← readOccurrence (bc_occurrenceId input);
    match current with
    | None => throw (occurrence_not_found (bc_occurrenceId input))
    | Some current =>
        assertBackgroundFence (bo_ownerId current) (bo_agentId current) (bc_authority input) ;;
        throwM_if (bo_revision current !== bc_expectedRevision input) (occurrence_conflict (bc_occurrenceId input)) ;;
        requiresReconciliation ← requires_reconciliation current;
        throwM_if requiresReconciliation
          (applicationFailure CONFLICT
             ("Occurrence " +:+ bc_occurrenceId input +:+ " requires reconciliation before it can be claimed") []) ;;
        throwM_if
          match iso_time (bc_claimedAt input), iso_time (bc_expiresAt input) with
          | Some claimedAt, Some expiresAt => (expiresAt <=? claimedAt) || str_lt (bo_deadlineAt current) (bc_expiresAt input)
          | _, _ => true
          end
          (applicationFailure INVALID_OPERATION "Background work lease is invalid" []) ;;
        let reclaiming := (bo_status current === occurrence_running)
          && match bo_workLease current with None => false | Some l => str_le (wl_expiresAt l) (bc_claimedAt input) end in
        throwM_if ((bo_status current !== occurrence_admitted) && negb reclaiming)
          (applicationFailure CONFLICT ("Occurrence " +:+ bc_occurrenceId input +:+ " is not claimable") []) ;;
        let claimed := current <| bo_revision := bo_revision current + 1 |> <| bo_status := occurrence_running |>
          <| bo_authority := bc_authority input |> <| bo_attemptCount := bo_attemptCount current + 1 |>
          <| bo_workLease := Some (mkWorkLease (bc_leaseId input) (bc_holderId input) (bc_claimedAt input) (bc_expiresAt input)) |>
          <| bo_lastErrorCode := if reclaiming then Some "WORK_LEASE_EXPIRED" else None |> in
        writeOccurrence claimed ;;
        mret claimed
    end).

(** ** Settlement *)
Definition retry_valid (retry : RetryPolicy) : bool :=
  isSafeInteger (rt_maxAttempts retry) && (1 <=? rt_maxAttempts retry)
  && isSafeInteger (rt_baseDelayMs retry) && (1 <=? rt_baseDelayMs retry)
  && isSafeInteger (rt_maxDelayMs retry) && (rt_baseDelayMs retry <=? rt_maxDelayMs retry)
  && isSafeInteger (rt_jitterSeed retry) && (0 <=? rt_jitterSeed retry).

(** The delay doubles with every attempt up to its maximum, and a fifth is added at most. *)
Definition retry_delay (retry : RetryPolicy) (attemptCount : Z) : Z :=
  let exponential := Z.min (rt_maxDelayMs retry) (rt_baseDelayMs retry * 2 ^ Z.max 0 (attemptCount - 1)) in
  exponential + exponential * (rt_jitterSeed retry mod 201) / 1000.

(** The status, the time of the next attempt and the error code. *)
Definition settled_status (current : BackgroundOccurrence) (input : BackgroundOccurrenceSettlement) (settledAt : Z)
    : result failure (BackgroundOccurrenceStatus * option string * option string) :=
  let errorCode := os_errorCode input in
  let over := bo_reservedCostMicros current <? os_spentCostMicros input in
  if (os_outcome input === settled_completed) && negb over then Ok (occurrence_completed, None, None)
  else if os_outcome input === settled_model_blocked
  then Ok (occurrence_blocked_approval, None, Some (default "MODEL_BLOCKED" errorCode))
  else if os_outcome input === settled_unknown
  then Ok (occurrence_retry_wait, None, Some (default "EXTERNAL_RESULT_UNKNOWN" errorCode))
  else if over then Ok (occurrence_failed_terminal, None, Some "RUN_BUDGET_EXCEEDED")
  else match os_failureClass input with
  | Some failure_credential => Ok (occurrence_blocked_credentials, None, errorCode)
  | Some failure_authorization => Ok (occurrence_blocked_approval, None, errorCode)
  | Some failure_transport | Some failure_provider =>
      let retry := os_retry input in
      throw_if (negb (retry_valid retry)) (applicationFailure INVALID_OPERATION "Retry policy is invalid" []) ;;
      if bo_attemptCount current <? rt_maxAttempts retry then
        retryAt ← match isoOfTime (settledAt + retry_delay retry (bo_attemptCount current)) with
                  | Ok s => Ok s
                  | Err _ => Err (plain_error "Invalid time value")
                  end;
        Ok (if str_lt retryAt (bo_deadlineAt current) then (occurrence_retry_wait, Some retryAt, errorCode)
            else (occurrence_failed_terminal, None, errorCode))
      else Ok (occurrence_failed_terminal, None, errorCode)
  | _ => Ok (occurrence_failed_terminal, None, errorCode)
  end.

Definition settleOccurrence (input : BackgroundOccurrenceSettlement) : Wk BackgroundOccurrence :=
  lift (assertDiskHeadroom configuration freeBytes) ;;
  transaction (
    current ← readOccurrence (os_occurrenceId input);
    match current with
    | None => throw (occurrence_not_found (os_occurrenceId input))
    | Some current =>
        assertBackgroundFence (bo_ownerId current) (bo_agentId current) (os_authority input) ;;
        throwM_if ((bo_revision current !== os_expectedRevision input) || (bo_status current !== occurrence_running)
                   || match bo_workLease current with None => true | Some l => wl_id l !== os_leaseId input end)
          (applicationFailure CONFLICT ("Occurrence " +:+ os_occurrenceId input +:+ " cannot settle") []) ;;
        throwM_if (negb (nonnegative_safe (os_spentCostMicros input)))
          (applicationFailure INVALID_OPERATION "Background settlement cost is invalid" []) ;;
        match iso_time (os_settledAt input) with
        | None => throw (applicationFailure INVALID_OPERATION "Background settlement time is invalid" [])
        | Some settledAt =>
            decided ← lift (settled_status current input settledAt);
            let '(status, nextRetryAt, errorCode) := decided in
            budget ← settleOccurrenceWithinTransaction current input;
            let settled := current <| bo_revision := bo_revision current + 1 |> <| bo_status := status |>
              <| bo_authority := os_authority input |> <| bo_reservedCostMicros := budget.1 |>
              <| bo_spentCostMicros := budget.2 |> <| bo_nextRetryAt := nextRetryAt |> <| bo_workLease := None |>
              <| bo_lastErrorCode := errorCode |> in
            writeOccurrence settled ;;
            mret settled
        end
    end).
End operations.
