(* ===== verification/BudgetLedger.v ===== *)
(** The ledger behind the model budget: the steps that the operations of
    ModelBudget.v and BackgroundWork.v take on the accounts and allocations, and
    the accounting that every step keeps. *)
From S2P Require Import Prelude Js JsDate Identifiers Entities.
From S2P Require Import Deterministic InMemoryAuth Coordination Persistence DurableState.
From S2P Require Import Sqlite SqliteSchema SqliteWorker RunDispatch ModelBudget.
Local Open Scope Z_scope.

(** ** Sums over tables *)
Definition total {R} (f : R → Z) (t : list R) : Z := foldr (λ r n, f r + n) 0 t.

Section total.
Context {R : Type}.
Implicit Types (f : R → Z) (t : list R).

Lemma total_cons f r t : total f (r :: t) = f r + total f t.
Proof. done. Qed.

Lemma total_nil f : total f [] = 0.
Proof. done. Qed.

Lemma total_app f t t' : total f (t ++ t') = total f t + total f t'.
Proof. induction t as [|r t IH]; [done|]. rewrite <-app_comm_cons, !total_cons, IH. lia. Qed.

Lemma total_insert f r t : total f (insert_row r t) = total f t + f r.
Proof. unfold insert_row. rewrite total_app. cbn. lia. Qed.

Lemma total_where f p t : total f (all_where p t) = total (λ r, if p r then f r else 0) t.
Proof. unfold all_where. induction t as [|r t IH]; [done|]. cbn [List.filter]. rewrite total_cons. destruct (p r); rewrite ?total_cons; lia. Qed.

Lemma total_ext f f' t : (∀ r, r ∈ t → f r = f' r) → total f t = total f' t.
Proof.
  intros H. induction t as [|r t IH]; [done|]. rewrite !total_cons, (H r) by (by left).
  rewrite IH; [done|]. intros r' Hr'. apply H. by right.
Qed.

Lemma total_update_same f p g t : (∀ r, r ∈ t → p r = true → f (g r) = f r) → total f (update_where p g t) = total f t.
Proof.
  intros H. induction t as [|r t IH]; [done|]. rewrite update_cons, !total_cons, IH by (intros r' Hr'; apply H; by right).
  f_equal. destruct (p r) eqn:E; [|done]. apply H; [by left|done].
Qed.

(** An update of the one row that [p] selects. *)
Lemma total_update f p g t x : NoDup t → x ∈ t → (∀ r, r ∈ t → p r = true ↔ r = x) →
  total f (update_where p g t) = total f t - f x + f (g x).
Proof.
  intros Hn Hx Hp. induction t as [|r t IH]; [by apply not_elem_of_nil in Hx|]. apply NoDup_cons in Hn as [Hr Hn].
  rewrite update_cons, !total_cons. apply elem_of_cons in Hx as [->|Hx].
  - rewrite (proj2 (Hp r ltac:(by left))) by done. rewrite update_where_none; [lia|].
    intros r' Hr'. apply not_true_iff_false. intros Hr2. apply Hp in Hr2 as ->; [done|by right].
  - assert (p r = false) as ->.
    { apply not_true_iff_false. intros Hr2. apply Hp in Hr2 as ->; [done|by left]. }
    rewrite IH; [lia|done|done|]. intros r' Hr'. apply Hp. by right.
Qed.

Lemma total_nonneg f t : (∀ r, r ∈ t → 0 ≤ f r) → 0 ≤ total f t.
Proof.
  intros H. induction t as [|r t IH]; [done|]. rewrite total_cons. assert (0 ≤ f r) by (apply H; by left).
  assert (0 ≤ total f t) by (apply IH; intros r' Hr'; apply H; by right). lia.
Qed.

Lemma total_elem f t x : (∀ r, r ∈ t → 0 ≤ f r) → x ∈ t → f x ≤ total f t.
Proof.
  intros H Hx. induction t as [|r t IH]; [by apply not_elem_of_nil in Hx|]. rewrite total_cons.
  assert (0 ≤ total f t) by (apply total_nonneg; intros r' Hr'; apply H; by right).
  apply elem_of_cons in Hx as [->|Hx]; [lia|]. assert (0 ≤ f r) by (apply H; by left).
  assert (f x ≤ total f t) by (apply IH; [intros r' Hr'; apply H; by right|done]). lia.
Qed.

(** Filters and updates that do not move rows across the filter. *)
Lemma where_insert p r t : all_where p (insert_row r t) = all_where p t ++ (if p r then [r] else []).
Proof. unfold all_where, insert_row. rewrite List.filter_app. cbn. by destruct (p r). Qed.

Lemma where_update p q g t : (∀ r, r ∈ t → q r = true → p (g r) = p r) →
  all_where p (update_where q g t) = update_where q g (all_where p t).
Proof.
  intros H. unfold all_where, update_where. induction t as [|r t IH]; [done|]. cbn.
  rewrite IH by (intros r' Hr'; apply H; by right). destruct (q r) eqn:Eq.
  - rewrite H by (by left || done). destruct (p r) eqn:Ep; cbn; by rewrite ?Eq.
  - destruct (p r) eqn:Ep; cbn; by rewrite ?Eq.
Qed.
End total.

(** ** The accounting *)
Definition key : Type := string * string * string.

(** The allocations of an account. *)
Definition kids (k : key) (t : list AllocationRow) : list AllocationRow := all_where (λ r, allocation_account r === k) t.

Definition open_cost (r : AllocationRow) : Z := if is_open (al_status r) then al_estimatedCostMicros r else 0.
Definition charged_cost (r : AllocationRow) : Z :=
  if al_status r === allocation_settled then default 0 (al_actualCostMicros r) else 0.

(** A call that cost more than its estimate. *)
Definition overrun (r : AllocationRow) : bool :=
  (al_status r === allocation_settled) && (al_estimatedCostMicros r <? default 0 (al_actualCostMicros r)).

(** What an account says about its allocations.  An occurrence is given its
    reservation when it is admitted, and may spend without an allocation. *)
Record balanced (a : AccountRow) (t : list AllocationRow) : Prop := mk_balanced {
  bal_reserved : match ac_parentKind a with
                 | kind_occurrence => total open_cost t ≤ ac_reservedCostMicros a
                 | _ => ac_reservedCostMicros a = total open_cost t
                 end;
  bal_spent : match ac_parentKind a with
              | kind_occurrence => total charged_cost t ≤ ac_spentCostMicros a
              | _ => ac_spentCostMicros a = total charged_cost t
              end;
  bal_unknown : ∀ r, r ∈ t → al_status r = allocation_unknown → ac_status a ≠ account_active;
  bal_overrun : ac_parentKind a ≠ kind_occurrence →
    ac_status a = account_over_budget ↔ ∃ r, r ∈ t ∧ overrun r = true;
}.

Record accounts_sound (t : list AccountRow) : Prop := mk_accounts_sound {
  as_keys : NoDup (account_key <$> t);
  as_checks : ∀ a, a ∈ t → account_checks a = true }.

Record allocations_sound (accounts : list AccountRow) (t : list AllocationRow) : Prop := mk_allocations_sound {
  ls_keys : NoDup (allocation_key <$> t);
  ls_checks : ∀ x, x ∈ t → allocation_checks x = true;
  ls_parents : ∀ x, x ∈ t → allocation_account x ∈ account_key <$> accounts }.

Record ledger_wf (d : Database) : Prop := mk_ledger_wf {
  lw_accounts : accounts_sound (t_accounts d);
  lw_allocations : allocations_sound (t_accounts d) (t_allocations d);
  lw_balanced : ∀ a, a ∈ t_accounts d → balanced a (kids (account_key a) (t_allocations d)) }.

(** ** The steps *)
Definition set_account (a : AccountRow) (reserved spent : Z) (status : AccountStatus) (d : Database) : Database :=
  d <| t_accounts := update_where (same_account a)
         (account_with reserved spent status (ac_revision a + 1)) (t_accounts d) |>.
Definition set_allocations (f : list AllocationRow → list AllocationRow) (d : Database) : Database :=
  d <| t_allocations := f (t_allocations d) |>.

Definition is_allocation (x r : AllocationRow) : bool := allocation_key r === allocation_key x.

(** What the accounts of which [p] holds may cost: those of a scope, those of a
    classification in it, and one account. *)
Definition cost (r : AccountRow) : Z := ac_reservedCostMicros r + ac_spentCostMicros r.
Definition cost_of (p : AccountRow → bool) (d : Database) : Z := total (λ r, if p r then cost r else 0) (t_accounts d).
Definition in_scope (o a : string) (r : AccountRow) : bool := (ac_ownerId r === o) && (ac_agentId r === a).
Definition in_class (o a : string) (c : ProductDataClassification) (r : AccountRow) : bool :=
  in_scope o a r && (ac_dataClassification r === c).
Definition is_account (k : key) (r : AccountRow) : bool := account_key r === k.

(** A further cost of an account is within the limits. *)
Record affordable (limits : ModelBudgetLimits) (a : AccountRow) (n : Z) (d : Database) : Prop := mk_affordable {
  af_account : cost a + n ≤ ml_accountCostMicros limits;
  af_global : cost_of (in_scope (ac_ownerId a) (ac_agentId a)) d + n ≤ ml_globalCostMicros limits;
  af_class : cost_of (in_class (ac_ownerId a) (ac_agentId a) (ac_dataClassification a)) d + n
    ≤ ml_perClassificationCostMicros limits (ac_dataClassification a) }.

Definition tables_sound (d : Database) : Prop :=
  accounts_sound (t_accounts d) ∧ allocations_sound (t_accounts d) (t_allocations d).

(** The third argument is what the step costs beyond what was reserved for it. *)
Inductive ledger_step (limits : ModelBudgetLimits) (d : Database) : Z → Database → Prop :=
  | step_open o a parent c d' : d' = d <| t_accounts := insert_row (new_account o a parent c) (t_accounts d) |> →
      tables_sound d' → ledger_step limits d 0 d'
  | step_reserve a x next d' : a ∈ t_accounts d → ac_status a = account_active → allocation_account x = account_key a →
      al_status x = allocation_reserved → 0 ≤ al_estimatedCostMicros x →
      match ac_parentKind a with
      | kind_occurrence => next = ac_reservedCostMicros a ∧
          total open_cost (kids (account_key a) (t_allocations d)) + al_estimatedCostMicros x ≤ ac_reservedCostMicros a
      | _ => next = ac_reservedCostMicros a + al_estimatedCostMicros x ∧ affordable limits a (al_estimatedCostMicros x) d
      end →
      d' = set_account a next (ac_spentCostMicros a) account_active (set_allocations (insert_row x) d) →
      tables_sound d' → ledger_step limits d 0 d'
  | step_start a x t d' : a ∈ t_accounts d → x ∈ t_allocations d → allocation_account x = account_key a →
      al_status x = allocation_reserved → ac_status a = account_active →
      d' = set_allocations (update_where (is_allocation x)
             (λ r, r <| al_status := allocation_started |> <| al_startedAt := Some t |>)) d →
      tables_sound d' → ledger_step limits d 0 d'
  | step_settle a x actual status t d' : a ∈ t_accounts d → x ∈ t_allocations d → allocation_account x = account_key a →
      includes (al_status x) [allocation_started; allocation_unknown] = true →
      status = (if (ac_status a === account_over_budget) || (al_estimatedCostMicros x <? actual) then account_over_budget
                else if existsb (λ r, (al_status r === allocation_unknown) && (al_operationKey r !== al_operationKey x))
                          (kids (account_key a) (t_allocations d))
                then account_reconcile_required else account_active) →
      d' = set_allocations (update_where (is_allocation x) (λ r, r <| al_status := allocation_settled |>
             <| al_actualCostMicros := Some actual |> <| al_settledAt := Some t |> <| al_reasonCode := None |>))
             (set_account a (ac_reservedCostMicros a - al_estimatedCostMicros x) (ac_spentCostMicros a + actual) status d) →
      tables_sound d' → ledger_step limits d (Z.max 0 (actual - al_estimatedCostMicros x)) d'
  | step_unknown a x reason t d' : a ∈ t_accounts d → x ∈ t_allocations d → allocation_account x = account_key a →
      al_status x = allocation_started →
      d' = set_allocations (update_where (is_allocation x) (λ r, r <| al_status := allocation_unknown |>
             <| al_observedAt := Some t |> <| al_reasonCode := Some reason |>))
             (set_account a (ac_reservedCostMicros a) (ac_spentCostMicros a)
                (if ac_status a === account_over_budget then account_over_budget else account_reconcile_required) d) →
      tables_sound d' → ledger_step limits d 0 d'
  | step_release a x d' : a ∈ t_accounts d → x ∈ t_allocations d → allocation_account x = account_key a →
      al_status x = allocation_reserved →
      d' = set_allocations (update_where (is_allocation x)
             (λ r, r <| al_status := allocation_released |> <| al_reasonCode := None |>))
             (set_account a (ac_reservedCostMicros a - al_estimatedCostMicros x) (ac_spentCostMicros a) (ac_status a) d) →
      tables_sound d' → ledger_step limits d 0 d'
  | step_finalize a d1 status d' : a ∈ t_accounts d → ac_parentKind a = kind_run →
      d1 = set_allocations (update_where (λ r, (allocation_account r === account_key a) && (al_status r === allocation_reserved))
             (λ r, r <| al_status := allocation_released |>)) d →
      total open_cost (kids (account_key a) (t_allocations d1)) ≤ ac_reservedCostMicros a →
      status = (if ac_status a === account_over_budget then account_over_budget
                else if existsb (λ r, child_open (al_status r) || child_unknown (al_status r))
                          (kids (account_key a) (t_allocations d1))
                then account_reconcile_required else account_active) →
      d' = set_account a (total open_cost (kids (account_key a) (t_allocations d1))) (ac_spentCostMicros a) status d1 →
      tables_sound d' → ledger_step limits d 0 d'
  | step_admit a n d' : a ∈ t_accounts d → ac_parentKind a = kind_occurrence → ac_status a = account_active → 0 ≤ n →
      affordable limits a n d →
      d' = set_account a (ac_reservedCostMicros a + n) (ac_spentCostMicros a) account_active d →
      tables_sound d' → ledger_step limits d 0 d'
  | step_retain a d' : a ∈ t_accounts d → ac_parentKind a = kind_occurrence →
      d' = set_account a (ac_reservedCostMicros a) (ac_spentCostMicros a) account_reconcile_required d →
      tables_sound d' → ledger_step limits d 0 d'
  | step_close a n status d' : a ∈ t_accounts d → ac_parentKind a = kind_occurrence → 0 ≤ n →
      (∀ r, r ∈ kids (account_key a) (t_allocations d) → is_open (al_status r) = false) →
      d' = set_account a 0 (ac_spentCostMicros a + n) status d →
      tables_sound d' → ledger_step limits d (Z.max 0 (n - ac_reservedCostMicros a)) d'
  | step_other d' : t_accounts d' = t_accounts d → t_allocations d' = t_allocations d → ledger_step limits d 0 d'.

(** ** What a step does to the allocations of an account *)
Lemma elem_kids k t r : r ∈ kids k t ↔ r ∈ t ∧ allocation_account r = k.
Proof. unfold kids. rewrite elem_where, bool_decide_eq_true. done. Qed.

Lemma NoDup_where {R K} (f : R → K) p (t : list R) : NoDup (f <$> t) → NoDup (f <$> all_where p t).
Proof.
  intros Hn. unfold all_where. induction t as [|r t IH]; [done|]. apply NoDup_cons in Hn as [Hr Hn]. cbn.
  destruct (p r); [|by apply IH]. apply NoDup_cons. split; [|by apply IH]. intros (r' & E & Hr')%list_elem_of_fmap.
  apply Hr. apply list_elem_of_fmap. exists r'. split; [done|]. by apply elem_where in Hr' as [? _].
Qed.

Lemma kids_keys k t : NoDup (allocation_key <$> t) → NoDup (allocation_key <$> kids k t).
Proof. apply NoDup_where. Qed.

Section kid.
Context (K : list AllocationRow) (x : AllocationRow).
Hypothesis Hn : NoDup (allocation_key <$> K).
Hypothesis Hx : x ∈ K.

Lemma is_allocation_spec r : r ∈ K → is_allocation x r = true ↔ r = x.
Proof.
  intros Hr. unfold is_allocation. rewrite bool_decide_eq_true. split; [|by intros ->].
  by apply (key_inj allocation_key K).
Qed.

Lemma total_update_kid f g : total f (update_where (is_allocation x) g K) = total f K - f x + f (g x).
Proof. apply total_update; [by eapply NoDup_fmap_1|done|]. apply is_allocation_spec. Qed.

Lemma elem_update_kid g r : r ∈ update_where (is_allocation x) g K ↔ r = g x ∨ r ∈ K ∧ r ≠ x.
Proof.
  rewrite elem_update. split.
  - intros [(r0 & Hr0 & ->%is_allocation_spec & ->)|[Hr Hp]]; [by left|done|right]. split; [done|].
    intros ->. rewrite (proj2 (is_allocation_spec x Hx)) in Hp; done.
  - intros [->|[Hr Hne]]; [left|right].
    + exists x. split; [done|]. split; [by apply is_allocation_spec|done].
    + split; [done|]. apply not_true_iff_false. by rewrite is_allocation_spec.
Qed.
End kid.

Lemma kids_update_other k t x g : (∀ r, allocation_account (g r) = allocation_account r) → allocation_account x ≠ k →
  kids k (update_where (is_allocation x) g t) = kids k t.
Proof.
  intros Hg Hk. unfold kids. rewrite where_update by (intros; by rewrite Hg). apply update_where_none.
  intros r [_ Hr]%elem_kids. apply not_true_iff_false. intros E%bool_decide_eq_true. apply Hk.
  unfold allocation_key in E. congruence.
Qed.

Lemma kids_update_own t x g : (∀ r, allocation_account (g r) = allocation_account r) →
  kids (allocation_account x) (update_where (is_allocation x) g t) = update_where (is_allocation x) g (kids (allocation_account x) t).
Proof. intros Hg. apply where_update. intros; by rewrite Hg. Qed.

Lemma kids_insert k x t : kids k (insert_row x t) = kids k t ++ (if allocation_account x === k then [x] else []).
Proof. unfold kids. by rewrite where_insert. Qed.

(** ** The rows of accounts *)
Lemma same_account_spec t a r : accounts_sound t → a ∈ t → r ∈ t → same_account a r = true ↔ r = a.
Proof.
  intros Hs Ha Hr. unfold same_account. guards. split; [|by intros ->]. intros (((? & ?) & ?) & ?).
  eapply (key_inj account_key); [apply Hs|done|done|]. unfold account_key. congruence.
Qed.

Lemma elem_set_account t a f r : accounts_sound t → a ∈ t →
  r ∈ update_where (same_account a) f t ↔ r = f a ∨ r ∈ t ∧ r ≠ a.
Proof.
  intros Hs Ha. rewrite elem_update. split.
  - intros [(r0 & Hr0 & E & ->)|[Hr Hp]].
    + apply (same_account_spec t) in E as ->; [by left|done..].
    + right. split; [done|]. intros ->. by rewrite (proj2 (same_account_spec t a a Hs Ha Ha)) in Hp.
  - intros [->|[Hr Hne]]; [left|right].
    + exists a. split; [done|]. split; [by apply (same_account_spec t)|done].
    + split; [done|]. apply not_true_iff_false. by rewrite (same_account_spec t).
Qed.

Lemma total_set_account t a f g : accounts_sound t → a ∈ t →
  total f (update_where (same_account a) g t) = total f t - f a + f (g a).
Proof.
  intros Hs Ha. apply total_update; [|done|by intros r Hr; apply (same_account_spec t)].
  eapply NoDup_fmap_1. apply Hs.
Qed.

(** A change of one account and of its own allocations. *)
Lemma account_step_wf d a f d' : ledger_wf d → a ∈ t_accounts d → account_key (f a) = account_key a →
  t_accounts d' = update_where (same_account a) f (t_accounts d) → tables_sound d' →
  (∀ k, k ≠ account_key a → kids k (t_allocations d') = kids k (t_allocations d)) →
  balanced (f a) (kids (account_key a) (t_allocations d')) → ledger_wf d'.
Proof.
  intros [W1 W2 W3] Ha Hk Et [S1 S2] Hother Hown. split; [done|done|]. intros b Hb. rewrite Et in Hb.
  apply elem_set_account in Hb as [->|[Hb Hne]]; [by rewrite Hk| |done|done].
  rewrite Hother; [by apply W3|]. intros E. apply Hne. by apply (key_inj account_key (t_accounts d)); [apply W1|..].
Qed.

Lemma account_status_wf d a d' : ledger_wf d → a ∈ t_accounts d → t_accounts d' = t_accounts d → tables_sound d' →
  (∀ k, k ≠ account_key a → kids k (t_allocations d') = kids k (t_allocations d)) →
  balanced a (kids (account_key a) (t_allocations d')) → ledger_wf d'.
Proof.
  intros Hwf Ha Et Hs Hother Hown. apply (account_step_wf d a (λ a, a)); try done. rewrite Et. unfold update_where.
  rewrite <-(list_fmap_id (t_accounts d)) at 1. apply list_fmap_ext. intros i r _. by destruct (same_account a r).
Qed.

(** A cost is only recorded with a settlement. *)
Lemma charged_none x : allocation_checks x = true → al_status x ≠ allocation_settled → al_actualCostMicros x = None.
Proof. unfold allocation_checks. intros H Hs. guards. rewrite (bool_decide_eq_false_2 _ Hs) in H. guards. destruct_and!. by destruct (al_actualCostMicros x). Qed.

(** ** Every step keeps the accounting *)
Lemma total_zero {R} (f : R → Z) t : (∀ r, r ∈ t → f r = 0) → total f t = 0.
Proof. intros H. rewrite (total_ext _ (λ _, 0)) by done. induction t as [|r t IH]; [done|]. rewrite total_cons, IH; [done|]. intros r' Hr'. apply H. by right. Qed.

Lemma balanced_insert a K x next : balanced a K → ac_status a = account_active → al_status x = allocation_reserved →
  match ac_parentKind a with
  | kind_occurrence => next = ac_reservedCostMicros a ∧ total open_cost K + al_estimatedCostMicros x ≤ ac_reservedCostMicros a
  | _ => next = ac_reservedCostMicros a + al_estimatedCostMicros x
  end →
  balanced (account_with next (ac_spentCostMicros a) account_active (ac_revision a + 1) a) (K ++ [x]).
Proof.
  intros [B1 B2 B3 B4] Ha Hx Hnext. split; cbn.
  - rewrite total_app, (total_cons _ x), total_nil.
    assert (open_cost x = al_estimatedCostMicros x) by (unfold open_cost; by rewrite Hx). destruct (ac_parentKind a); lia.
  - rewrite total_app, (total_cons _ x), total_nil.
    assert (charged_cost x = 0) by (unfold charged_cost; by rewrite Hx). destruct (ac_parentKind a); lia.
  - intros r [Hr|Hr%list_elem_of_singleton]%elem_of_app E; [by specialize (B3 r Hr E)|congruence].
  - intros Hk. split; [done|]. intros (r & [Hr|Hr%list_elem_of_singleton]%elem_of_app & E).
    + rewrite Ha in B4. apply B4; [done|]. by exists r.
    + subst r. unfold overrun in E. by rewrite Hx in E.
Qed.

Lemma balanced_update a a' K x g : NoDup (allocation_key <$> K) → x ∈ K → balanced a K →
  ac_parentKind a' = ac_parentKind a → overrun x = false →
  ac_reservedCostMicros a' = ac_reservedCostMicros a - open_cost x + open_cost (g x) →
  ac_spentCostMicros a' = ac_spentCostMicros a - charged_cost x + charged_cost (g x) →
  (∀ r, r = g x ∨ r ∈ K ∧ r ≠ x → al_status r = allocation_unknown → ac_status a' ≠ account_active) →
  (ac_status a' = account_over_budget ↔ ac_status a = account_over_budget ∨ overrun (g x) = true) →
  balanced a' (update_where (is_allocation x) g K).
Proof.
  intros Hn Hx [B1 B2 B3 B4] Ek Ho E1 E2 Hu Hover. split; rewrite ?Ek.
  - rewrite total_update_kid by done. destruct (ac_parentKind a); lia.
  - rewrite total_update_kid by done. destruct (ac_parentKind a); lia.
  - intros r Hr%elem_update_kid; [|done..]. by apply Hu.
  - intros Hk. rewrite Hover, (B4 Hk). split.
    + intros [(r & Hr & E)|E]; [exists r|exists (g x)]; (split; [apply elem_update_kid; [done..|]|done]); [right|by left].
      split; [done|]. intros ->. congruence.
    + intros (r & [->|[Hr Hne]]%elem_update_kid & E); [by right| |done..]. left. by exists r.
Qed.

(** What a row of a known status costs. *)
Ltac kid_cost C :=
  rewrite C; unfold open_cost, charged_cost; cbn;
  repeat match goal with
  | |- context [is_open ?s] => let v := eval vm_compute in (is_open s) in change (is_open s) with v
  | |- context [bool_decide (?s = allocation_settled)] =>
      let v := eval vm_compute in (bool_decide (s = allocation_settled)) in change (bool_decide (s = allocation_settled)) with v
  end; cbn; lia.

Section steps.

Lemma kid_in d a x : x ∈ t_allocations d → allocation_account x = account_key a → x ∈ kids (account_key a) (t_allocations d).
Proof. intros. by apply elem_kids. Qed.

Lemma wf_kids_keys d k : ledger_wf d → NoDup (allocation_key <$> kids k (t_allocations d)).
Proof. intros Hwf. apply kids_keys, Hwf. Qed.

Lemma not_settled_costs d x : ledger_wf d → x ∈ t_allocations d → al_status x ≠ allocation_settled →
  charged_cost x = 0 ∧ overrun x = false.
Proof. intros _ _ Hs. unfold charged_cost, overrun. by rewrite (bool_decide_eq_false_2 _ Hs). Qed.

Lemma open_wf d o a parent c d' : ledger_wf d →
  d' = d <| t_accounts := insert_row (new_account o a parent c) (t_accounts d) |> → tables_sound d' → ledger_wf d'.
Proof.
  intros [W1 W2 W3] -> [S1 S2]. split; [done|done|]. cbn in S1, S2 |- . change (∀ b, b ∈ insert_row (new_account o a parent c) (t_accounts d) → balanced b (kids (account_key b) (t_allocations d))). intros b [Hb| ->]%elem_insert; [by apply W3|].
  set (r := new_account o a parent c) in *.
  assert (kids (account_key r) (t_allocations d) = []) as ->.
  { destruct (kids _ _) as [|x K] eqn:E; [done|exfalso]. assert (Hx : x ∈ kids (account_key r) (t_allocations d)) by (rewrite E; by left).
    apply elem_kids in Hx as [Hx Hk]. apply (ls_parents _ _ W2) in Hx. rewrite Hk in Hx.
    pose proof (as_keys _ S1) as Hn. unfold insert_row in Hn. rewrite fmap_app in Hn. apply NoDup_app in Hn as (_ & Hn & _).
    apply (Hn _ Hx). by left. }
  split; cbn; try (destruct parent; done); [intros ? Hy; by apply not_elem_of_nil in Hy|]. intros _. split; [done|].
  intros (y & Hy & _). by apply not_elem_of_nil in Hy.
Qed.

(** A step on an account and one of its allocations. *)
Lemma move_wf d a x f g d' : ledger_wf d → a ∈ t_accounts d → x ∈ t_allocations d → allocation_account x = account_key a →
  account_key (f a) = account_key a → (∀ r, allocation_account (g r) = allocation_account r) →
  t_accounts d' = update_where (same_account a) f (t_accounts d) →
  t_allocations d' = update_where (is_allocation x) g (t_allocations d) → tables_sound d' →
  balanced (f a) (update_where (is_allocation x) g (kids (account_key a) (t_allocations d))) → ledger_wf d'.
Proof.
  intros Hwf Ha Hx Hxa Hf Hg E1 E2 Hs Hb. apply (account_step_wf d a f); try done.
  - intros k Hk. rewrite E2. apply kids_update_other; [done|congruence].
  - rewrite E2, <-Hxa, kids_update_own, Hxa by done. done.
Qed.

Lemma open_kid_costs x : is_open (al_status x) = true →
  open_cost x = al_estimatedCostMicros x ∧ charged_cost x = 0 ∧ overrun x = false.
Proof. unfold open_cost, charged_cost, overrun. by destruct (al_status x). Qed.

Lemma reserve_wf d a x next d' : ledger_wf d → a ∈ t_accounts d → ac_status a = account_active →
  allocation_account x = account_key a → al_status x = allocation_reserved →
  match ac_parentKind a with
  | kind_occurrence => next = ac_reservedCostMicros a ∧
      total open_cost (kids (account_key a) (t_allocations d)) + al_estimatedCostMicros x ≤ ac_reservedCostMicros a
  | _ => next = ac_reservedCostMicros a + al_estimatedCostMicros x
  end →
  d' = set_account a next (ac_spentCostMicros a) account_active (set_allocations (insert_row x) d) →
  tables_sound d' → ledger_wf d'.
Proof.
  intros Hwf Ha Hs Hxa Hx Hnext E Hd'.
  apply (account_step_wf d a (account_with next (ac_spentCostMicros a) account_active (ac_revision a + 1))); subst d'; try done.
  - intros k Hk. cbn [t_allocations set_account set_allocations]. setoid_rewrite kids_insert.
    rewrite bool_decide_eq_false_2 by congruence. by rewrite app_nil_r.
  - setoid_rewrite kids_insert. rewrite bool_decide_eq_true_2 by done. apply balanced_insert; [by apply Hwf|done..].
Qed.

Lemma start_wf d a x t d' : ledger_wf d → a ∈ t_accounts d → x ∈ t_allocations d → allocation_account x = account_key a →
  al_status x = allocation_reserved → ac_status a = account_active →
  d' = set_allocations (update_where (is_allocation x)
         (λ r, r <| al_status := allocation_started |> <| al_startedAt := Some t |>)) d →
  tables_sound d' → ledger_wf d'.
Proof.
  intros Hwf Ha Hx Hxa Hxs Hs E Hd'. destruct (open_kid_costs x) as (C1 & C2 & C3); [by rewrite Hxs|].
  pose proof (kid_in _ _ _ Hx Hxa) as Hk. pose proof (lw_balanced _ Hwf _ Ha) as Hb.
  apply (account_status_wf d a); subst d'; try done.
  - intros k Hk'. apply kids_update_other; [done|congruence].
  - rewrite <-Hxa. setoid_rewrite kids_update_own; [|done]. rewrite Hxa.
    apply (balanced_update a a _ x); try done; [by apply wf_kids_keys| | | |].
    + kid_cost C1.
    + kid_cost C2.
    + intros r [->|[Hr _]] Hu; [done|]. by apply (bal_unknown _ _ Hb r).
    + unfold overrun. cbn. naive_solver.
Qed.

Lemma settle_wf d a x actual status t d' : ledger_wf d → a ∈ t_accounts d → x ∈ t_allocations d →
  allocation_account x = account_key a → includes (al_status x) [allocation_started; allocation_unknown] = true →
  status = (if (ac_status a === account_over_budget) || (al_estimatedCostMicros x <? actual) then account_over_budget
            else if existsb (λ r, (al_status r === allocation_unknown) && (al_operationKey r !== al_operationKey x))
                      (kids (account_key a) (t_allocations d))
            then account_reconcile_required else account_active) →
  d' = set_allocations (update_where (is_allocation x) (λ r, r <| al_status := allocation_settled |>
         <| al_actualCostMicros := Some actual |> <| al_settledAt := Some t |> <| al_reasonCode := None |>))
         (set_account a (ac_reservedCostMicros a - al_estimatedCostMicros x) (ac_spentCostMicros a + actual) status d) →
  tables_sound d' → ledger_wf d'.
Proof.
  intros Hwf Ha Hx Hxa Hxs Hst E Hd'. destruct (open_kid_costs x) as (C1 & C2 & C3); [by destruct (al_status x)|].
  pose proof (kid_in _ _ _ Hx Hxa) as Hk. pose proof (lw_balanced _ Hwf _ Ha) as Hb.
  eapply (move_wf d a x); [done..| | |by subst d'|by subst d'|done|]; [done..|].
  apply (balanced_update a _ _ x); [by apply wf_kids_keys|done|done|done|done| | | |]; cbn [ac_reservedCostMicros ac_spentCostMicros ac_status account_with].
  - kid_cost C1.
  - kid_cost C2.
  - intros r [->|[Hr Hne]] Hu; [done|]. cbn. subst status. destruct (_ || _); [done|].
    destruct (existsb _ _) eqn:Ex; [done|]. exfalso. apply not_true_iff_false in Ex. apply Ex.
    apply existsb_exists. exists r. split; [by apply list_elem_of_In|]. rewrite Hu, bool_decide_eq_true_2 by done. cbn.
    apply negb_true_iff, bool_decide_eq_false. intros Ek. apply Hne.
    apply (key_inj allocation_key (kids (account_key a) (t_allocations d))); [by apply wf_kids_keys|done|done|].
    apply elem_kids in Hr as [_ Hr]. unfold allocation_key. congruence.
  - cbn. unfold overrun. cbn. subst status. rewrite (bool_decide_eq_true_2 (allocation_settled = allocation_settled)) by done. cbn.
    destruct (al_estimatedCostMicros x <? actual); [rewrite orb_true_r; split; [by right|done]|]. rewrite orb_false_r.
    destruct (bool_decide_reflect (ac_status a = account_over_budget)); [naive_solver|].
    destruct (existsb _ _); naive_solver.
Qed.

Lemma unknown_wf d a x reason t d' : ledger_wf d → a ∈ t_accounts d → x ∈ t_allocations d →
  allocation_account x = account_key a → al_status x = allocation_started →
  d' = set_allocations (update_where (is_allocation x) (λ r, r <| al_status := allocation_unknown |>
         <| al_observedAt := Some t |> <| al_reasonCode := Some reason |>))
         (set_account a (ac_reservedCostMicros a) (ac_spentCostMicros a)
            (if ac_status a === account_over_budget then account_over_budget else account_reconcile_required) d) →
  tables_sound d' → ledger_wf d'.
Proof.
  intros Hwf Ha Hx Hxa Hxs E Hd'. destruct (open_kid_costs x) as (C1 & C2 & C3); [by rewrite Hxs|].
  pose proof (kid_in _ _ _ Hx Hxa) as Hk. pose proof (lw_balanced _ Hwf _ Ha) as Hb.
  eapply (move_wf d a x); [done..| | |by subst d'|by subst d'|done|]; [done..|].
  apply (balanced_update a _ _ x); [by apply wf_kids_keys|done|done|done|done| | | |]; cbn.
  - kid_cost C1.
  - kid_cost C2.
  - intros _ _ _. by destruct (bool_decide_reflect (ac_status a = account_over_budget)).
  - unfold overrun. cbn. destruct (bool_decide_reflect (ac_status a = account_over_budget)); naive_solver.
Qed.

Lemma release_wf d a x d' : ledger_wf d → a ∈ t_accounts d → x ∈ t_allocations d →
  allocation_account x = account_key a → al_status x = allocation_reserved →
  d' = set_allocations (update_where (is_allocation x)
         (λ r, r <| al_status := allocation_released |> <| al_reasonCode := None |>))
         (set_account a (ac_reservedCostMicros a - al_estimatedCostMicros x) (ac_spentCostMicros a) (ac_status a) d) →
  tables_sound d' → ledger_wf d'.
Proof.
  intros Hwf Ha Hx Hxa Hxs E Hd'. destruct (open_kid_costs x) as (C1 & C2 & C3); [by rewrite Hxs|].
  pose proof (kid_in _ _ _ Hx Hxa) as Hk. pose proof (lw_balanced _ Hwf _ Ha) as Hb.
  eapply (move_wf d a x); [done..| | |by subst d'|by subst d'|done|]; [done..|].
  apply (balanced_update a _ _ x); [by apply wf_kids_keys|done|done|done|done| | | |]; cbn.
  - kid_cost C1.
  - kid_cost C2.
  - intros r [->|[Hr _]] Hu; [done|]. by apply (bal_unknown _ _ Hb r).
  - unfold overrun. cbn. naive_solver.
Qed.

(** What the end of a Run does to the calls that were not started. *)
Lemma released_kids k t : kids k (update_where (λ r, (allocation_account r === k) && (al_status r === allocation_reserved))
    (λ r, r <| al_status := allocation_released |>) t)
  = update_where (λ r, (allocation_account r === k) && (al_status r === allocation_reserved))
      (λ r, r <| al_status := allocation_released |>) (kids k t).
Proof. by apply where_update. Qed.

Lemma released_other k k' t : k' ≠ k →
  kids k' (update_where (λ r, (allocation_account r === k) && (al_status r === allocation_reserved))
    (λ r, r <| al_status := allocation_released |>) t) = kids k' t.
Proof.
  intros Hk. unfold kids. rewrite where_update by done. apply update_where_none. intros r [_ Hr]%elem_kids.
  by rewrite bool_decide_eq_false_2 by congruence.
Qed.

Lemma finalize_wf d a d1 status d' : ledger_wf d → a ∈ t_accounts d → ac_parentKind a = kind_run →
  d1 = set_allocations (update_where (λ r, (allocation_account r === account_key a) && (al_status r === allocation_reserved))
         (λ r, r <| al_status := allocation_released |>)) d →
  status = (if ac_status a === account_over_budget then account_over_budget
            else if existsb (λ r, child_open (al_status r) || child_unknown (al_status r))
                      (kids (account_key a) (t_allocations d1))
            then account_reconcile_required else account_active) →
  d' = set_account a (total open_cost (kids (account_key a) (t_allocations d1))) (ac_spentCostMicros a) status d1 →
  tables_sound d' → ledger_wf d'.
Proof.
  intros Hwf Ha Hk E1 Est E Hd'. pose proof (lw_balanced _ Hwf _ Ha) as [B1 B2 B3 B4]. rewrite Hk in B1, B2.
  apply (account_step_wf d a (account_with (total open_cost (kids (account_key a) (t_allocations d1)))
    (ac_spentCostMicros a) status (ac_revision a + 1))); [done|done|done|by subst d' d1|done| |].
  { intros k Hk'. subst d' d1. by apply released_other. }
  replace (t_allocations d') with (t_allocations d1) by (by subst d').
  assert (HK : kids (account_key a) (t_allocations d1) = update_where _ _ (kids (account_key a) (t_allocations d)))
    by (subst d1; apply released_kids).
  split; cbn; rewrite ?Hk; [done| | |].
  - rewrite B2, HK. symmetry. apply total_update_same. intros r _ [_ Hr%bool_decide_eq_true]%andb_true_iff.
    unfold charged_cost. by rewrite Hr.
  - intros r Hr Hu. rewrite Est. destruct (_ === _); [done|]. destruct (existsb _ _) eqn:Ex; [done|]. exfalso.
    apply not_true_iff_false in Ex. apply Ex. apply existsb_exists. exists r. split; [by apply list_elem_of_In|]. by rewrite Hu.
  - intros _. rewrite Hk in B4. specialize (B4 ltac:(done)).
    transitivity (ac_status a = account_over_budget).
    { rewrite Est. destruct (bool_decide_reflect (ac_status a = account_over_budget)); [naive_solver|]. destruct (existsb _ _); naive_solver. }
    rewrite B4, HK. split; intros (r & Hr & Ho); exists r; (split; [|done]).
    + apply elem_update. right. split; [done|]. unfold overrun in Ho. destruct (al_status r); try done. by rewrite andb_false_r.
    + apply elem_update in Hr as [(r0 & Hr0 & _ & ->)|[Hr _]]; [done|done].
Qed.

(** An occurrence is admitted, kept for reconciliation or closed. *)
Lemma occurrence_wf d a reserved spent status d' : ledger_wf d → a ∈ t_accounts d → ac_parentKind a = kind_occurrence →
  d' = set_account a reserved spent status d → tables_sound d' → ac_spentCostMicros a ≤ spent →
  total open_cost (kids (account_key a) (t_allocations d)) ≤ reserved →
  ac_status a = account_active ∨ status ≠ account_active
    ∨ (∀ r, r ∈ kids (account_key a) (t_allocations d) → is_open (al_status r) = false) →
  ledger_wf d'.
Proof.
  intros Hwf Ha Hk E Hd' Hsp Hop Hst. pose proof (lw_balanced _ Hwf _ Ha) as [B1 B2 B3 B4]. rewrite Hk in B1, B2.
  apply (account_step_wf d a (account_with reserved spent status (ac_revision a + 1))); subst d'; try done.
  split; cbn -[kids total]; rewrite ?Hk; [done|lia| |done]. intros r Hr Hu. destruct Hst as [H|[H|H]].
  - by destruct (B3 r Hr Hu).
  - done.
  - specialize (H r Hr). by rewrite Hu in H.
Qed.

Theorem step_wf limits d e d' : ledger_step limits d e d' → ledger_wf d → ledger_wf d'.
Proof.
  intros Hs Hwf. destruct Hs.
  - by eapply open_wf.
  - eapply reserve_wf; try done. destruct (ac_parentKind a); naive_solver.
  - by eapply start_wf.
  - by eapply settle_wf.
  - by eapply unknown_wf.
  - by eapply release_wf.
  - by eapply finalize_wf.
  - pose proof (lw_balanced _ Hwf a ltac:(done)) as [B1 _ _ _]. eapply occurrence_wf; try done; [|by left].
    match goal with H : ac_parentKind a = _ |- _ => rewrite H in B1 end. lia.
  - pose proof (lw_balanced _ Hwf a ltac:(done)) as [B1 _ _ _]. eapply occurrence_wf; try done; [|by right; left].
    match goal with H : ac_parentKind a = _ |- _ => by rewrite H in B1 end.
  - eapply occurrence_wf; try done; [lia| |by right; right]. rewrite total_zero; [done|]. intros r Hr. unfold open_cost.
    match goal with H : ∀ r, _ → is_open _ = false |- _ => by rewrite (H r Hr) end.
  - destruct Hwf as [W1 W2 W3]. split; congruence || (intros b; intros Hb; rewrite ?H0; apply W3; congruence).
Qed.
End steps.

(** ** Sequences of steps *)
Inductive ledger_steps (limits : ModelBudgetLimits) : Database → Z → Database → Prop :=
  | ledger_done d : ledger_steps limits d 0 d
  | ledger_next d e d1 n d' : ledger_step limits d e d1 → ledger_steps limits d1 n d' → ledger_steps limits d (e + n) d'.

Lemma ledger_once limits d e d' : ledger_step limits d e d' → ledger_steps limits d e d'.
Proof. intros Hs. rewrite <-(Z.add_0_r e). eapply ledger_next; [done|constructor]. Qed.

Lemma ledger_trans limits d n d1 m d' : ledger_steps limits d n d1 → ledger_steps limits d1 m d' →
  ledger_steps limits d (n + m) d'.
Proof.
  intros Hs Hs'. induction Hs as [d|d e d1 n d2 H1 _ IH]; [done|]. rewrite <-Z.add_assoc. by eapply ledger_next; [|apply IH].
Qed.

Lemma steps_wf limits d n d' : ledger_steps limits d n d' → ledger_wf d → ledger_wf d'.
Proof. intros Hs. induction Hs; [done|]. intros Hwf. by eapply IHHs, step_wf. Qed.

(** Limits that are no wider than others. *)
Record limits_within (limits limits' : ModelBudgetLimits) : Prop := mk_limits_within {
  lw_account : ml_accountCostMicros limits ≤ ml_accountCostMicros limits';
  lw_global : ml_globalCostMicros limits ≤ ml_globalCostMicros limits';
  lw_class : ∀ c, ml_perClassificationCostMicros limits c ≤ ml_perClassificationCostMicros limits' c }.

Lemma affordable_within limits limits' a n d : limits_within limits limits' → affordable limits a n d → affordable limits' a n d.
Proof. intros [L1 L2 L3] [H1 H2 H3]. split; [lia|lia|]. specialize (L3 (ac_dataClassification a)). lia. Qed.

Lemma step_within limits limits' d e d' : limits_within limits limits' → ledger_step limits d e d' → ledger_step limits' d e d'.
Proof.
  intros L []; [by eapply step_open| |by eapply step_start|by eapply step_settle|by eapply step_unknown|by eapply step_release
    |by eapply step_finalize| |by eapply step_retain|by eapply step_close|by apply step_other].
  - eapply step_reserve; try done. pose proof (affordable_within limits limits' a (al_estimatedCostMicros x) d L).
    destruct (ac_parentKind a); naive_solver.
  - eapply step_admit; try done. by eapply affordable_within.
Qed.

Lemma steps_within limits limits' d n d' : limits_within limits limits' → ledger_steps limits d n d' → ledger_steps limits' d n d'.
Proof. intros L Hs. induction Hs; [constructor|]. eapply ledger_next; [by eapply step_within|done]. Qed.

(** *** What is charged *)
Section charged.
Context (limits : ModelBudgetLimits) (p : AccountRow → bool) (limit : Z).
Hypothesis Hp : ∀ a reserved spent status revision, p (account_with reserved spent status revision a) = p a.
Hypothesis Hlimit : ∀ a n d, ledger_wf d → a ∈ t_accounts d → p a = true → affordable limits a n d → cost_of p d + n ≤ limit.

Lemma cost_set_account d a reserved spent status : accounts_sound (t_accounts d) → a ∈ t_accounts d →
  cost_of p (set_account a reserved spent status d) = cost_of p d + (if p a then reserved + spent - cost a else 0).
Proof.
  intros Hs Ha. unfold cost_of, set_account. setoid_rewrite total_set_account; [|done|done].
  rewrite Hp. unfold cost. cbn. destruct (p a); lia.
Qed.

Lemma cost_allocations f d : cost_of p (set_allocations f d) = cost_of p d.
Proof. done. Qed.

Lemma estimate_nonneg d x : ledger_wf d → x ∈ t_allocations d → 0 ≤ al_estimatedCostMicros x.
Proof.
  intros Hwf Hx. apply (ls_checks _ _ (lw_allocations _ Hwf)) in Hx. unfold allocation_checks, in_safe_range in Hx. guards.
  destruct_and!. lia.
Qed.

Lemma step_cost d e d' : ledger_wf d → ledger_step limits d e d' → cost_of p d' ≤ Z.max (cost_of p d) limit + e.
Proof.
  intros Hwf Hs. pose proof (lw_accounts _ Hwf) as Hac. destruct Hs as [o ag parent c d' -> _|a x next d' Ha _ _ _ Hx Hn -> _|a x t d' _ _ _ _ _ -> _
    |a x actual status t d' Ha Hx _ _ _ -> _|a x reason t d' Ha _ _ _ -> _|a x d' Ha Hx _ _ -> _
    |a d1 status d' Ha _ -> Hle _ -> _|a n d' Ha _ _ Hn Haf -> _|a d' Ha _ -> _|a n status d' Ha _ Hn _ -> _|d' E1 E2].
  - unfold cost_of. cbn [t_accounts]. setoid_rewrite total_insert. unfold cost. cbn. destruct (p _); lia.
  - rewrite cost_set_account, ?cost_allocations by done. destruct (p a) eqn:Ep; [|lia]. unfold cost.
    destruct (ac_parentKind a); [|lia|]; destruct Hn as [-> Haf]; specialize (Hlimit _ _ _ Hwf Ha Ep Haf); lia.
  - rewrite cost_allocations. lia.
  - rewrite cost_allocations, cost_set_account by done. unfold cost. destruct (p a); lia.
  - rewrite cost_allocations, cost_set_account by done. unfold cost. destruct (p a); lia.
  - rewrite cost_allocations, cost_set_account by done. apply (estimate_nonneg d) in Hx; [|done]. unfold cost. destruct (p a); lia.
  - rewrite cost_set_account, ?cost_allocations by done. unfold cost. destruct (p a); lia.
  - rewrite cost_set_account by done. destruct (p a) eqn:Ep; [|lia]. specialize (Hlimit _ _ _ Hwf Ha Ep Haf). unfold cost. lia.
  - rewrite cost_set_account by done. unfold cost. destruct (p a); lia.
  - rewrite cost_set_account by done. unfold cost. destruct (p a); lia.
  - unfold cost_of. rewrite E1. lia.
Qed.

Lemma step_excess d e d' : ledger_step limits d e d' → 0 ≤ e.
Proof. intros []; lia. Qed.

Lemma steps_excess d n d' : ledger_steps limits d n d' → 0 ≤ n.
Proof. intros Hs. induction Hs as [|d e d1 n d' H1 _ IH]; [done|]. apply step_excess in H1. lia. Qed.

Lemma steps_cost d n d' : ledger_wf d → ledger_steps limits d n d' → cost_of p d' ≤ Z.max (cost_of p d) limit + n.
Proof.
  intros Hwf Hs. induction Hs as [d|d e d1 n d' H1 Hs IH]; [lia|]. pose proof (step_cost _ _ _ Hwf H1).
  specialize (IH (step_wf _ _ _ _ H1 Hwf)). pose proof (step_excess _ _ _ H1). pose proof (steps_excess _ _ _ Hs). lia.
Qed.
End charged.
