(* ===== verification/BudgetOperations.v ===== *)
(** The operations of ModelBudget.v and BackgroundWork.v are steps of the ledger
    of BudgetLedger.v, whatever point they fail at; and what holds along any
    sequence of requests. *)
From S2P Require Import Prelude Js JsDate Identifiers Entities.
From S2P Require Import Deterministic InMemoryAuth Coordination Persistence DurableState.
From S2P Require Import Sqlite SqliteSchema SqliteWorker SqliteStep RunDispatch ModelBudget BackgroundWork BudgetLedger.
Local Open Scope Z_scope.

(** ** What only reads *)
Lemma readAccount_reads o a id : reads (readAccount o a id).
Proof. unfold readAccount. only_reads. Qed.
Lemma readAllocation_reads o a id k : reads (readAllocation o a id k).
Proof. unfold readAllocation. only_reads. Qed.
Lemma readUsage_reads o a : reads (readUsage o a).
Proof. unfold readUsage. only_reads. Qed.
Lemma outstanding_reads o a id : reads (outstandingChildReservation o a id).
Proof. unfold outstandingChildReservation. only_reads. Qed.
Lemma projectionJob_reads scope jobId : reads (projectionJob scope jobId).
Proof. unfold projectionJob. only_reads. Qed.
Lemma runClassification_reads scope runId : reads (runClassification scope runId).
Proof. unfold runClassification. only_reads. Qed.
Lemma authority_reads scope t : reads (assertCurrentAuthority scope t).
Proof. unfold assertCurrentAuthority. only_reads. Qed.
#[export] Hint Resolve readAccount_reads readAllocation_reads readUsage_reads outstanding_reads projectionJob_reads
  runClassification_reads authority_reads : reads.

Lemma assertHeld_reads scope c r n x t : reads (assertHeldInTransaction scope c r n x t).
Proof. unfold assertHeldInTransaction, dispatch_assertCurrentAuthority, readLease. only_reads. Qed.
Lemma accountParentScope_reads scope parent : reads (assertAccountParentScope scope parent).
Proof. unfold assertAccountParentScope. only_reads. Qed.
Lemma runClass_reads scope runId c : reads (assertRunClassification scope runId c).
Proof. unfold assertRunClassification. only_reads. Qed.
Lemma noOccurrence_reads o a runId : reads (assertNoBackgroundOccurrenceParentWithinTransaction o a runId).
Proof. unfold assertNoBackgroundOccurrenceParentWithinTransaction. only_reads. Qed.
Lemma noRunAccount_reads o a runId : reads (assertNoRunBudgetAccountWithinTransaction o a runId).
Proof. unfold assertNoRunBudgetAccountWithinTransaction. only_reads. Qed.
Lemma findAllocation_reads scope parent k : reads (find_allocation scope parent k).
Proof. unfold find_allocation. only_reads. Qed.
Lemma budgetResult_reads account x b : reads (budget_result account x b).
Proof. unfold budget_result. only_reads. Qed.
#[export] Hint Resolve assertHeld_reads accountParentScope_reads runClass_reads noOccurrence_reads noRunAccount_reads
  findAllocation_reads budgetResult_reads : reads.

Lemma assertParent_reads scope parent t : reads (assertParent scope parent t).
Proof. unfold assertParent. only_reads. Qed.
Lemma backgroundFence_reads o a fence : reads (assertBackgroundFence o a fence).
Proof. unfold assertBackgroundFence. only_reads. Qed.
Lemma requiresReconciliation_reads current : reads (requires_reconciliation current).
Proof. unfold requires_reconciliation, occurrenceRequiresReconciliationWithinTransaction. only_reads. Qed.
Lemma capacityReason_reads current limits : reads (capacity_reason current limits).
Proof. unfold capacity_reason. only_reads. Qed.
#[export] Hint Resolve assertParent_reads backgroundFence_reads requiresReconciliation_reads capacityReason_reads : reads.

(** ** The tables after a write *)
Lemma accounts_hold_sound d : accounts_hold d = Ok tt → accounts_sound (t_accounts d).
Proof.
  unfold accounts_hold, check_holds, primary_holds, unique_holds, foreign_holds. intros E. inv_ok.
  repeat match goal with H : constraint _ _ _ = Ok _ |- _ => apply constraint_Ok in H end.
  split; [by apply keys_unique_spec|]. guards. done.
Qed.

Lemma allocations_hold_sound d : allocations_hold d = Ok tt → allocations_sound (t_accounts d) (t_allocations d).
Proof.
  unfold allocations_hold, check_holds, primary_holds, foreign_holds. intros E. inv_ok.
  repeat match goal with H : constraint _ _ _ = Ok _ |- _ => apply constraint_Ok in H end.
  split; [by apply keys_unique_spec|by guards|]. intros y Hy. rewrite forallb_elem in E. by apply includes_spec, E.
Qed.

Lemma allocations_sound_keys t t' l : (∀ k, k ∈ account_key <$> t → k ∈ account_key <$> t') →
  allocations_sound t l → allocations_sound t' l.
Proof. intros Hk [L1 L2 L3]. split; [done|done|]. intros x Hx. by apply Hk, L3. Qed.

Lemma set_account_keys a reserved spent status d :
  account_key <$> t_accounts (set_account a reserved spent status d) = account_key <$> t_accounts d.
Proof. apply update_key. done. Qed.

Lemma set_account_sound a reserved spent status d : allocations_sound (t_accounts d) (t_allocations d) →
  accounts_hold (set_account a reserved spent status d) = Ok tt → tables_sound (set_account a reserved spent status d).
Proof.
  intros Hl Ha. split; [by apply accounts_hold_sound|]. eapply allocations_sound_keys; [|exact Hl]. by rewrite set_account_keys.
Qed.

Lemma addCost_Ok l r name n : addCost l r name = Ok n → n = l + r ∧ 0 ≤ l ∧ 0 ≤ r.
Proof. unfold addCost. intros E. inv_ok. guards. lia. Qed.

Lemma subtractCost_Ok l r name n : subtractCost l r name = Ok n → n = l - r ∧ 0 ≤ n ∧ 0 ≤ r.
Proof. unfold subtractCost. intros E. inv_ok. guards. lia. Qed.

Ltac cost_Ok :=
  repeat match goal with
  | H : addCost _ _ _ = Ok _ |- _ => apply addCost_Ok in H as (-> & ? & ?)
  | H : subtractCost _ _ _ = Ok _ |- _ => apply subtractCost_Ok in H as (-> & ? & ?)
  end.

(** ** Rows that were read *)
Lemma readAccount_Ok o a id d r d' : readAccount o a id d = (Ok r, d') →
  d' = d ∧ account_row o a id d = r ∧ ∀ x, r = Some x → x ∈ t_accounts d ∧ account_key x = (o, a, id).
Proof.
  unfold readAccount. intros E. run_Ok. destruct (account_row o a id d) as [x|] eqn:Ex; run_Ok; (split; [done|]); (split; [done|]);
    intros y Hy; [|done]. injection Hy as <-. apply get_elem in Ex as [Hx Hk]. guards. destruct_and!.
  split; [done|]. unfold account_key. congruence.
Qed.

Lemma readAllocation_Ok o a id k d r d' : readAllocation o a id k d = (Ok r, d') →
  d' = d ∧ allocation_row o a id k d = r ∧ ∀ x, r = Some x → x ∈ t_allocations d ∧ allocation_key x = (o, a, id, k).
Proof.
  unfold readAllocation. intros E. run_Ok. destruct (allocation_row o a id k d) as [x|] eqn:Ex; run_Ok; (split; [done|]); (split; [done|]);
    intros y Hy; [|done]. injection Hy as <-. apply get_elem in Ex as [Hx Hk]. unfold of_account in Hk. guards. destruct_and!.
  split; [done|]. unfold allocation_key, allocation_account. congruence.
Qed.

Lemma find_allocation_Ok scope parent k d a x d' : find_allocation scope parent k d = (Ok (a, x), d') →
  d' = d ∧ a ∈ t_accounts d ∧ x ∈ t_allocations d ∧ allocation_account x = account_key a ∧ al_operationKey x = k
  ∧ account_key a = (sc_ownerId scope, sc_agentId scope, accountId parent)
  ∧ allocation_row (sc_ownerId scope) (sc_agentId scope) (accountId parent) k d = Some x.
Proof.
  unfold find_allocation. intros E. run_Ok.
  repeat match goal with
  | H : readAccount _ _ _ _ = (Ok ?o, _) |- _ => apply readAccount_Ok in H as (-> & ? & ?); destruct o; cbn in *; [|done]
  | H : readAllocation _ _ _ _ _ = (Ok ?o, _) |- _ => apply readAllocation_Ok in H as (-> & ? & ?); destruct o; cbn in *; [|done]
  end. run_Ok. simplify_eq. 
  repeat match goal with H : ∀ _, Some _ = Some _ → _ |- _ => specialize (H _ eq_refl) as [? ?] end.
  unfold allocation_key in *. repeat split; congruence.
Qed.

Lemma updateAccount_Ok a reserved spent status d r d' : updateAccount a reserved spent status d = (Ok r, d') →
  d' = set_account a reserved spent status d ∧ accounts_hold d' = Ok tt ∧ 0 ≤ reserved ∧ 0 ≤ spent.
Proof.
  unfold updateAccount, write_accounts. intros E. run_Ok.
  cost_Ok.
  repeat match goal with
  | H : write _ _ _ = (Ok _, _) |- _ => apply write_Ok in H as [? ->]
  | H : readAccount _ _ _ _ = (Ok ?o, _) |- _ => apply readAccount_Ok in H as (-> & ? & ?); destruct o; [|done]
  end. by run_Ok.
Qed.

Lemma update_allocation_Ok scope id k from f missing d r d' : update_allocation scope id k from f missing d = (Ok r, d') →
  d' = set_allocations (update_where (λ r, of_account (sc_ownerId scope) (sc_agentId scope) id r
         && (al_operationKey r === k) && includes (al_status r) from) f) d ∧ allocations_hold d' = Ok tt.
Proof.
  unfold update_allocation, write_allocations. intros E. run_Ok.
  repeat match goal with
  | H : write _ _ _ = (Ok _, _) |- _ => apply write_Ok in H as [? ->]
  | H : readAllocation _ _ _ _ _ = (Ok ?o, _) |- _ => apply readAllocation_Ok in H as (-> & ? & ?); destruct o; [|done]
  end. by run_Ok.
Qed.

(** The update of the row an operation found. *)
Lemma update_found_allocation scope id k from f d x : NoDup (allocation_key <$> t_allocations d) → x ∈ t_allocations d →
  allocation_key x = (sc_ownerId scope, sc_agentId scope, id, k) → includes (al_status x) from = true →
  set_allocations (update_where (λ r, of_account (sc_ownerId scope) (sc_agentId scope) id r && (al_operationKey r === k)
    && includes (al_status r) from) f) d = set_allocations (update_where (is_allocation x) f) d.
Proof.
  intros Hn Hx Hk Hs. unfold set_allocations. f_equal. apply list_fmap_ext. intros i r Hr%list_elem_of_lookup_2.
  unfold is_allocation. destruct (bool_decide_reflect (allocation_key r = allocation_key x)) as [E|E].
  - assert (r = x) as -> by by apply (key_inj allocation_key (t_allocations d)). rewrite Hs. unfold of_account.
    unfold allocation_key, allocation_account in Hk. simplify_eq. by rewrite !bool_decide_eq_true_2.
  - destruct (_ && _) eqn:Ep; [|done]. exfalso. apply E. rewrite Hk. unfold of_account in Ep. guards. destruct_and!.
    unfold allocation_key, allocation_account. congruence.
Qed.

(** ** Sums that were read *)
Lemma where_ext {R} (p q : R → bool) t : (∀ r, r ∈ t → p r = q r) → all_where p t = all_where q t.
Proof.
  intros H. unfold all_where. induction t as [|r t IH]; [done|]. cbn. rewrite (H r) by (by left).
  rewrite IH; [done|]. intros r' Hr'. apply H. by right.
Qed.

Lemma of_account_key o a id r : of_account o a id r = (allocation_account r === (o, a, id)).
Proof.
  unfold of_account, allocation_account. destruct (bool_decide_reflect ((al_ownerId r, al_agentId r, al_accountId r) = (o, a, id))) as [E|E].
  - simplify_eq. by rewrite !bool_decide_eq_true_2.
  - apply not_true_iff_false. guards. intros H. apply E. destruct_and!. congruence.
Qed.

Lemma children_kids o a id d : children o a id d = kids (o, a, id) (t_allocations d).
Proof. apply where_ext. intros r _. apply of_account_key. Qed.

Lemma outstanding_loop_Ok rows n n' : outstanding_loop rows n = Ok n' → n' = n + total al_estimatedCostMicros rows.
Proof.
  revert n. induction rows as [|r rows IH]; intros n E; cbn [outstanding_loop] in E; inv_ok; [rewrite total_nil; lia|].
  match goal with H : addCost _ _ _ = Ok _ |- _ => apply addCost_Ok in H as (-> & _ & _) end.
  rewrite total_cons. apply IH in E. lia.
Qed.

Lemma outstanding_Ok o a id d n d' : outstandingChildReservation o a id d = (Ok n, d') →
  d' = d ∧ n = total open_cost (kids (o, a, id) (t_allocations d)).
Proof.
  unfold outstandingChildReservation. intros E. run_Ok. split; [done|]. apply outstanding_loop_Ok in E as ->.
  rewrite total_where, children_kids. done.
Qed.

Lemma usage_loop_Ok rows global classes u : usage_loop rows global classes = Ok u →
  u.1 = global + total cost rows ∧
  ∀ c, u.2 c = classes c + total (λ r, if ac_dataClassification r === c then cost r else 0) rows.
Proof.
  revert global classes. induction rows as [|r rows IH]; intros global classes E; cbn [usage_loop] in E; inv_ok.
  { cbn. split; [lia|intros; lia]. }
  cost_Ok.
  apply IH in E as [-> Hc]. rewrite !total_cons. split; [unfold cost; lia|]. intros c. rewrite Hc, total_cons.
  destruct (bool_decide_reflect (c = ac_dataClassification r)) as [->|Hne].
  - rewrite bool_decide_eq_true_2 by done. unfold cost. lia.
  - rewrite bool_decide_eq_false_2 by congruence. lia.
Qed.

Lemma readUsage_Ok o a d u d' : readUsage o a d = (Ok u, d') →
  d' = d ∧ u.1 = cost_of (in_scope o a) d ∧ ∀ c, u.2 c = cost_of (in_class o a c) d.
Proof.
  unfold readUsage. intros E. run_Ok. split; [done|]. apply usage_loop_Ok in E as [-> H]. split.
  - rewrite Z.add_0_l. apply total_where.
  - intros c. rewrite H, Z.add_0_l, total_where. apply total_ext. intros r _. unfold in_class, in_scope.
    by destruct (_ && _), (_ === _).
Qed.

(** ** The account of a parent *)
Definition parent_kind (parent : ModelBudgetAccountParent) : AccountParentKind :=
  match parent with run_parent _ => kind_run | occurrence_parent _ => kind_occurrence | projection_parent _ => kind_projection end.

Lemma account_kind a parent : account_checks a = true → ac_accountId a = accountId parent → ac_parentKind a = parent_kind parent.
Proof.
  unfold account_checks, account_id_of. intros Hc Hid. guards. destruct_and!.
  match goal with H : _ = Some (ac_accountId a) |- _ => rename H into E end. rewrite Hid in E.
  destruct (ac_parentKind a); [destruct (ac_runId a)|destruct (ac_occurrenceId a)|destruct (ac_projectionJobId a)];
    cbn in E; try done; destruct parent; try done; cbn in E; discriminate E.
Qed.

Lemma found_kind d a o g parent : ledger_wf d → a ∈ t_accounts d → account_key a = (o, g, accountId parent) →
  ac_parentKind a = parent_kind parent.
Proof.
  intros Hwf Ha Hk. apply account_kind; [by apply (as_checks _ (lw_accounts _ Hwf))|]. unfold account_key in Hk. congruence.
Qed.

Lemma opened_sound d o a parent c d1 : ledger_wf d →
  write_accounts (insert_row (new_account o a parent c)) d = (Ok tt, d1) →
  d1 = d <| t_accounts := insert_row (new_account o a parent c) (t_accounts d) |> ∧ tables_sound d1.
Proof.
  unfold write_accounts. intros Hwf [Hh ->]%write_Ok. split; [done|]. split; [by apply accounts_hold_sound|].
  eapply allocations_sound_keys; [|apply Hwf]. intros k Hk. cbn. unfold insert_row. rewrite fmap_app. apply elem_of_app. by left.
Qed.

(** An account that is needed is found or opened. *)
Lemma insertAccount_Ok limits o a parent c d r d' : ledger_wf d → insertAccount o a parent c d = (Ok r, d') →
  ledger_step limits d 0 d' ∧ r ∈ t_accounts d' ∧ account_key r = (o, a, accountId parent).
Proof.
  unfold insertAccount. intros Hwf E. run_Ok.
  match goal with H : write_accounts _ _ = (Ok ?u, _) |- _ => destruct u; apply opened_sound in H as [E1 Hs]; [|done] end.
  match goal with H : readAccount _ _ _ _ = (Ok ?o, _) |- _ => apply readAccount_Ok in H as (-> & _ & Hr); destruct o as [r'|]; [|done] end.
  run_Ok. destruct (Hr _ eq_refl). split; [by eapply step_open|done].
Qed.

Lemma ensureAccount_Ok limits o a parent c d r d' : ledger_wf d → ensureAccount o a parent c d = (Ok r, d') →
  ledger_step limits d 0 d' ∧ r ∈ t_accounts d' ∧ account_key r = (o, a, accountId parent) ∧ ac_dataClassification r = c
  ∧ (account_row o a (accountId parent) d = Some r
    ∨ account_row o a (accountId parent) d = None ∧ ac_reservedCostMicros r = 0).
Proof.
  unfold ensureAccount. intros Hwf E. run_Ok.
  match goal with H : readAccount _ _ _ _ = (Ok ?o, _) |- _ => apply readAccount_Ok in H as (-> & Hrow & Hr); destruct o as [r'|] end.
  - run_Ok. destruct (Hr _ eq_refl). unfold assertAccountClassification in *. inv_ok. guards.
    split; [by apply step_other|]. split; [done|]. split; [done|]. split; [done|]. by left.
  - pose proof E as E'. apply (insertAccount_Ok limits) in E as (Hs & Hin & Hk); [|done]. split; [done|]. split; [done|]. split; [done|].
    unfold insertAccount in E'. run_Ok.
    match goal with H : write_accounts _ _ = (Ok ?u, _) |- _ => destruct u; apply opened_sound in H as [E1 [Hs1 _]]; [|done] end.
    match goal with H : readAccount _ _ _ _ = (Ok ?o, _) |- _ => apply readAccount_Ok in H as (-> & _ & _); destruct o as [r'|]; [|done] end.
    apply mret_Ok in E' as [-> ->]. assert (r' = new_account o a parent c) as ->; [|by auto].
    apply (key_inj account_key (t_accounts x0)); [apply Hs1|done| |by rewrite Hk].
    rewrite E1. apply elem_insert. by right.
Qed.

(** ** Every operation is a few steps *)
Definition named_allocation (scope : RunScope) (parent : ModelBudgetAccountParent) (operationKey : string) (d : Database)
    : option AllocationRow :=
  allocation_row (sc_ownerId scope) (sc_agentId scope) (accountId parent) operationKey d.

(** What a settlement charges beyond the estimate. *)
Definition settle_excess (scope : RunScope) (input : ModelBudgetSettlementInput) (d : Database) : Z :=
  match named_allocation scope (bs_parent input) (bs_operationKey input) d with
  | Some x => Z.max 0 (bs_actualCostMicros input - al_estimatedCostMicros x)
  | None => 0
  end.

Lemma steps_none limits d : ledger_steps limits d 0 d.
Proof. constructor. Qed.

Lemma existsb_where {R} (p q : R → bool) t : existsb q (all_where p t) = existsb (λ r, p r && q r) t.
Proof. unfold all_where. induction t as [|r t IH]; [done|]. cbn. destruct (p r); cbn; by rewrite IH. Qed.

Lemma existsb_ext' {R} (p q : R → bool) t : (∀ r, p r = q r) → existsb p t = existsb q t.
Proof. intros H. induction t as [|r t IH]; [done|]. cbn. by rewrite H, IH. Qed.

Lemma remaining_kids o a id k t :
  exists_where (λ r, of_account o a id r && (al_status r === allocation_unknown) && (al_operationKey r !== k)) t
  = existsb (λ r, (al_status r === allocation_unknown) && (al_operationKey r !== k)) (kids (o, a, id) t).
Proof.
  unfold kids. rewrite existsb_where. apply existsb_ext'. intros r. by rewrite of_account_key, andb_assoc.
Qed.

Lemma named_key scope parent k a x : allocation_account x = account_key a → al_operationKey x = k →
  account_key a = (sc_ownerId scope, sc_agentId scope, accountId parent) →
  allocation_key x = (sc_ownerId scope, sc_agentId scope, accountId parent, k).
Proof. unfold allocation_key. congruence. Qed.

Lemma allocations_kept d f : allocations_hold (set_allocations f d) = Ok tt → accounts_sound (t_accounts d) →
  tables_sound (set_allocations f d).
Proof. intros H%allocations_hold_sound Ha. by split. Qed.

(** The account and the allocation the operation found, and the updates of them. *)
Ltac found_allocation :=
  match goal with
  | H : find_allocation _ _ _ _ = (Ok ?f, _) |- _ =>
      destruct f as [acc al]; apply find_allocation_Ok in H as (_ & Ha & Hx & Hxa & Hk & Hak & Hrow)
  end.

Ltac updated :=
  repeat match goal with
  | H : updateAccount _ _ _ _ _ = (Ok _, _) |- _ => apply updateAccount_Ok in H as (-> & ? & ? & ?)
  | H : update_allocation _ _ _ _ _ _ _ = (Ok _, _) |- _ => apply update_allocation_Ok in H as [-> Hh]
  end.

Section operations.
Context (limits : ModelBudgetLimits).

Lemma markStarted_steps scope input d r d' : ledger_wf d → markStartedWithinTransaction scope input d = (Ok r, d') →
  ledger_steps limits d 0 d'.
Proof.
  unfold markStartedWithinTransaction. intros Hwf E. wk_Ok. found_allocation.
  destruct (al_status al === allocation_started); [wk_Ok; apply steps_none|]. wk_Ok. guards. updated.
  pose proof (named_key _ _ _ _ _ Hxa Hk Hak) as Hkey.
  rewrite (update_found_allocation _ _ _ _ _ _ al) in Hh |- * by (apply Hwf || done || by (match goal with H : al_status al = _ |- _ => rewrite H end)).
  apply ledger_once. eapply step_start; try done. apply allocations_kept; [done|apply Hwf].
Qed.

Lemma settle_steps scope input d r d' : ledger_wf d → settleWithinTransaction scope input d = (Ok r, d') →
  ∃ n, ledger_steps limits d n d' ∧ n ≤ settle_excess scope input d.
Proof.
  unfold settleWithinTransaction. intros Hwf E. wk_Ok. found_allocation.
  unfold settle_excess, named_allocation. rewrite Hrow. pose proof (named_key _ _ _ _ _ Hxa Hk Hak) as Hkey.
  destruct (al_status al === allocation_settled); [wk_Ok; exists 0; split; [apply steps_none|lia]|].
  wk_Ok. cost_Ok. updated.
  match goal with H : (_ !== _) && _ = false |- _ =>
    assert (Hs : includes (al_status al) [allocation_started; allocation_unknown] = true) by (destruct (al_status al); done || discriminate H) end.
  rewrite (update_found_allocation _ _ _ _ _ _ al) in Hh |- * by (apply Hwf || done || by destruct (al_status al)).
  eexists. split; [|reflexivity]. apply ledger_once.
  eapply (step_settle _ _ acc al); [done|done|done|done| |reflexivity|].
  - destruct (_ || _); [by run_Ok|]. unfold remainingUnknown in *. run_Ok. by rewrite remaining_kids, <-Hak, Hk.
  - apply allocations_kept; [done|]. by apply accounts_hold_sound.
Qed.

Lemma markUnknown_steps scope input d r d' : ledger_wf d → markUnknownWithinTransaction scope input d = (Ok r, d') →
  ledger_steps limits d 0 d'.
Proof.
  unfold markUnknownWithinTransaction. intros Hwf E. wk_Ok. found_allocation.
  pose proof (named_key _ _ _ _ _ Hxa Hk Hak) as Hkey.
  destruct (al_status al === allocation_unknown); [wk_Ok; apply steps_none|]. wk_Ok. updated. guards.
  rewrite (update_found_allocation _ _ _ _ _ _ al) in Hh |- * by (apply Hwf || done || by (match goal with H : al_status al = _ |- _ => rewrite H end)).
  apply ledger_once. eapply step_unknown; try done. apply allocations_kept; [done|]. by apply accounts_hold_sound.
Qed.

Lemma releaseReserved_steps scope input d r d' : ledger_wf d → releaseReservedWithinTransaction scope input d = (Ok r, d') →
  ledger_steps limits d 0 d'.
Proof.
  unfold releaseReservedWithinTransaction. intros Hwf E. wk_Ok. found_allocation.
  pose proof (named_key _ _ _ _ _ Hxa Hk Hak) as Hkey.
  destruct (al_status al === allocation_released); [wk_Ok; apply steps_none|]. wk_Ok. cost_Ok. updated. guards.
  rewrite (update_found_allocation _ _ _ _ _ _ al) in Hh |- * by (apply Hwf || done || by (match goal with H : al_status al = _ |- _ => rewrite H end)).
  apply ledger_once. eapply step_release; try done. apply allocations_kept; [done|]. by apply accounts_hold_sound.
Qed.
End operations.

Lemma checked_estimate x : allocation_checks x = true → 0 ≤ al_estimatedCostMicros x.
Proof. unfold allocation_checks, in_safe_range. intros H. guards. destruct_and!. lia. Qed.

(** The two writes of a reservation. *)
Lemma reserve_writes limits d acc x next u d1 u' d' : acc ∈ t_accounts d → ac_status acc = account_active →
  allocation_account x = account_key acc → al_status x = allocation_reserved →
  match ac_parentKind acc with
  | kind_occurrence => next = ac_reservedCostMicros acc ∧
      total open_cost (kids (account_key acc) (t_allocations d)) + al_estimatedCostMicros x ≤ ac_reservedCostMicros acc
  | _ => next = ac_reservedCostMicros acc + al_estimatedCostMicros x ∧ affordable limits acc (al_estimatedCostMicros x) d
  end →
  write_allocations (insert_row x) d = (Ok u, d1) →
  updateAccount acc next (ac_spentCostMicros acc) account_active d1 = (Ok u', d') → ledger_step limits d 0 d'.
Proof.
  intros Ha Hs Hk Hx Hnext [Hh ->]%write_Ok (-> & Hh' & _ & _)%updateAccount_Ok.
  apply allocations_hold_sound in Hh as Hl. apply (step_reserve _ _ acc x next); try done.
  - apply checked_estimate, (ls_checks _ _ Hl). cbn. apply elem_insert. by right.
  - by apply set_account_sound.
Qed.

(** What a reservation of a call checked. *)
Lemma reserve_affordable limits o a acc c n d : account_key acc = (o, a, ac_accountId acc) → ac_dataClassification acc = c →
  cost acc + n ≤ ml_accountCostMicros limits → cost_of (in_scope o a) d + n ≤ ml_globalCostMicros limits →
  cost_of (in_class o a c) d + n ≤ ml_perClassificationCostMicros limits c → affordable limits acc n d.
Proof. unfold account_key. intros Hk <- H1 H2 H3. injection Hk as <- <-. by split. Qed.

Lemma reserve_steps scope input d r d' : ledger_wf d → reserveWithinTransaction scope input d = (Ok r, d') →
  ledger_steps (rs_limits input) d 0 d'.
Proof.
  unfold reserveWithinTransaction. intros Hwf E. wk_Ok.
  match goal with H : readAccount _ _ _ _ = (Ok ?o, _) |- _ => apply readAccount_Ok in H as (_ & _ & Hacc); set (found := o) in *; clearbody found end.
  match goal with H : readAllocation _ _ _ _ _ = (Ok ?o, _) |- _ => destruct o as [al|] end.
  { destruct found; wk_Ok; apply steps_none. }
  wk_Ok.
  match goal with H : match found with _ => _ end d = (Ok ?x, ?y) |- _ =>
    rename H into Hfound; set (acc := x) in *; clearbody acc; set (d1 := y) in *; clearbody d1 end.
  assert (ledger_step (rs_limits input) d 0 d1 ∧ acc ∈ t_accounts d1
    ∧ account_key acc = (sc_ownerId scope, sc_agentId scope, accountId (account_parent (rs_parent input)))) as (Ho & Hin & Hk).
  { destruct found as [f|]; [|exact (insertAccount_Ok _ _ _ _ _ _ _ _ Hwf Hfound)].
    apply mret_Ok in Hfound as [-> ->]. destruct (Hacc _ eq_refl). split; [by apply step_other|done]. }
  pose proof (step_wf _ _ _ _ Ho Hwf) as Hwf1. rewrite <-(Z.add_0_l 0). eapply ledger_next; [done|]. apply ledger_once.
  assert (Hacs : ac_accountId acc = accountId (account_parent (rs_parent input))) by (unfold account_key in Hk; congruence).
  match goal with
  | Hw : write_allocations _ d1 = _, Hu : updateAccount _ _ _ _ _ = _ |- _ =>
      refine (reserve_writes _ _ acc _ _ _ _ _ _ Hin _ _ _ _ Hw Hu); clear Hw Hu
  end; [by guards|unfold allocation_account; cbn; by rewrite Hk, Hacs|done|cbn].
  rewrite (found_kind _ _ _ _ _ Hwf1 Hin Hk). unfold assertAccountClassification in *. inv_ok. cost_Ok. guards.
  assert (Hcalls : ∀ u, readUsage (sc_ownerId scope) (sc_agentId scope) d1 = (Ok u, d1) →
    cost acc + rs_estimatedCostMicros input ≤ ml_accountCostMicros (rs_limits input) →
    u.1 + rs_estimatedCostMicros input ≤ ml_globalCostMicros (rs_limits input) →
    u.2 (rs_dataClassification input) + rs_estimatedCostMicros input
      ≤ ml_perClassificationCostMicros (rs_limits input) (rs_dataClassification input) →
    affordable (rs_limits input) acc (rs_estimatedCostMicros input) d1).
  { intros u (_ & H1' & H2')%readUsage_Ok L1 L2 L3. rewrite H1' in L2. rewrite H2' in L3.
    eapply reserve_affordable; [by rewrite Hacs|done..]. }
  clear E. match goal with H : match rs_parent input with active_run _ _ => lift _ ;; _ | _ => _ end d1 = _ |- _ => rename H into Hnext end.
  destruct (rs_parent input); cbn [account_parent parent_kind] in *; wk_Ok; cost_Ok; guards.
  - split; [done|]. eapply Hcalls; [done|unfold cost; lia|lia|lia].
  - match goal with H : outstandingChildReservation _ _ _ _ = _ |- _ => apply outstanding_Ok in H as (_ & ->) end.
    rewrite Hacs, <-Hk in *. split; [done|lia].
  - split; [done|]. eapply Hcalls; [done|unfold cost; lia|lia|lia].
Qed.

Lemma any_child_Ok p o a id d b d' : any_child p o a id d = (Ok b, d') →
  d' = d ∧ b = existsb (λ r, p (al_status r)) (kids (o, a, id) (t_allocations d)).
Proof. unfold any_child. intros E. run_Ok. by rewrite children_kids. Qed.

(** The account of a Run that ended. *)
Lemma finalize_writes limits d acc d1 d2 outstanding left u d' : ledger_wf d → acc ∈ t_accounts d → ac_parentKind acc = kind_run →
  write_allocations (update_where (λ r, of_account (ac_ownerId acc) (ac_agentId acc) (ac_accountId acc) r
    && (al_status r === allocation_reserved)) (λ r, r <| al_status := allocation_released |>)) d = (Ok tt, d1) →
  outstandingChildReservation (ac_ownerId acc) (ac_agentId acc) (ac_accountId acc) d1 = (Ok outstanding, d2) →
  (ac_reservedCostMicros acc <? outstanding) = false →
  left = existsb (λ r, child_open (al_status r) || child_unknown (al_status r)) (kids (account_key acc) (t_allocations d1)) →
  updateAccount acc outstanding (ac_spentCostMicros acc)
    (if ac_status acc === account_over_budget then account_over_budget
     else if left : bool then account_reconcile_required else account_active) d1 = (Ok u, d') →
  ledger_step limits d 0 d'.
Proof.
  intros Hwf Ha Hk [Hh Ed1]%write_Ok (_ & ->)%outstanding_Ok Hle -> (-> & Hh' & _ & _)%updateAccount_Ok.
  rewrite <-Ed1 in Hh. apply allocations_hold_sound in Hh. guards.
  eapply (step_finalize _ _ acc d1 _ _ Ha Hk); [|done|reflexivity|reflexivity|by apply set_account_sound].
  rewrite Ed1. unfold set_allocations. f_equal. apply list_fmap_ext. intros i r _. by rewrite of_account_key.
Qed.

Lemma finalize_steps limits scope input d r d' : ledger_wf d → finalizeWithinTransaction scope input d = (Ok r, d') →
  ledger_steps limits d 0 d'.
Proof.
  unfold finalizeWithinTransaction. intros Hwf E. wk_Ok.
  match goal with H : readAccount _ _ _ _ = (Ok ?o, _) |- _ => apply readAccount_Ok in H as (_ & _ & Hacc); set (found := o) in *; clearbody found end.
  match goal with H : match found with _ => _ end d = (Ok ?x, ?y) |- _ =>
    rename H into Hfound; set (acc := x) in *; clearbody acc; set (d1 := y) in *; clearbody d1 end.
  assert (ledger_step limits d 0 d1 ∧ acc ∈ t_accounts d1
    ∧ account_key acc = (sc_ownerId scope, sc_agentId scope, accountId (run_parent (bf_runId input)))) as (Ho & Hin & Hk).
  { destruct found as [f|]; wk_Ok; [|by apply (insertAccount_Ok limits) in Hfound].
    destruct (Hacc _ eq_refl). split; [by apply step_other|done]. }
  pose proof (step_wf _ _ _ _ Ho Hwf) as Hwf1. rewrite <-(Z.add_0_l 0). eapply ledger_next; [done|]. apply ledger_once.
  pose proof (found_kind _ _ _ _ _ Hwf1 Hin Hk) as Hkind.
  match goal with H : any_child _ _ _ _ _ = _ |- _ => apply any_child_Ok in H as (_ & ->) end.
  unfold account_key in Hk. injection Hk as Eo Ea Ei. rewrite <-Eo, <-Ea in *.
  match goal with H : write_allocations _ _ = (Ok ?u, _) |- _ => destruct u; by eapply (finalize_writes limits d1 acc) end.
Qed.

(** *** The budget of an occurrence *)
Definition admission_limits (limits : BackgroundAdmissionLimits) : ModelBudgetLimits :=
  mkBudgetLimits (bm_perRunCostMicros limits) (bm_globalCostMicros limits) (bm_perClassificationCostMicros limits).

Lemma parseLegacyLimits_Ok limits l : parseLegacyLimits limits = Ok l → l = admission_limits limits.
Proof. unfold parseLegacyLimits. intros E. by inv_ok. Qed.

(** What the account of an admitted occurrence was, and is. *)
Record budget_admitted (occurrence : BackgroundOccurrence) (limits : ModelBudgetLimits) (d d' : Database) (acc : AccountRow)
    : Prop := mk_budget_admitted {
  ab_found : acc ∈ t_accounts d;
  ab_key : account_key acc = (bo_ownerId occurrence, bo_agentId occurrence, accountId (occurrence_parent (bo_id occurrence)));
  ab_class : ac_dataClassification acc = bo_dataClassification occurrence;
  ab_active : ac_status acc = account_active;
  ab_estimate : 0 ≤ bo_estimatedCostMicros occurrence;
  ab_affordable : affordable limits acc (bo_estimatedCostMicros occurrence) d;
  ab_after : d' = set_account acc (ac_reservedCostMicros acc + bo_estimatedCostMicros occurrence) (ac_spentCostMicros acc) account_active d;
  ab_sound : tables_sound d' }.

Lemma reserveOccurrence_cases occurrence limits d r d' : ledger_wf d →
  reserveOccurrenceWithinTransaction occurrence limits d = (Ok r, d') →
  ∃ d1, ledger_step (admission_limits limits) d 0 d1 ∧
    (r.2 ≠ None ∧ d' = d1 ∨ ∃ acc, budget_admitted occurrence (admission_limits limits) d1 d' acc ∧
       r = (ac_reservedCostMicros acc + bo_estimatedCostMicros occurrence, ac_spentCostMicros acc, None)).
Proof.
  unfold reserveOccurrenceWithinTransaction. intros Hwf E. wk_Ok.
  match goal with H : ensureAccount _ _ _ _ _ = (Ok ?x, ?y) |- _ =>
    apply (ensureAccount_Ok (admission_limits limits)) in H as (Ho & Hin & Hk & Hc & _); [|done];
    set (acc := x) in *; clearbody acc; set (d1 := y) in *; clearbody d1 end.
  exists d1. split; [done|]. pose proof (step_wf _ _ _ _ Ho Hwf) as Hwf1.
  match goal with H : parseLegacyLimits _ = _ |- _ => apply parseLegacyLimits_Ok in H as -> end.
  destruct (_ || _) eqn:Hs; [wk_Ok; by left|]. wk_Ok. cost_Ok.
  destruct (_ <? _) eqn:L1; [wk_Ok; by left|]. wk_Ok. cost_Ok.
  match goal with H : readUsage _ _ _ = (Ok _, _) |- _ => apply readUsage_Ok in H as (_ & U1 & U2) end.
  destruct (ml_globalCostMicros _ <? _) eqn:L2; [wk_Ok; by left|]. wk_Ok. cost_Ok.
  destruct (ml_perClassificationCostMicros _ _ <? _) eqn:L3; [wk_Ok; by left|]. wk_Ok. cost_Ok. updated.
  right. exists acc. split; [|done]. guards. rewrite U1 in L2. rewrite U2 in L3. split; try done.
  - destruct (ac_status acc); naive_solver.
  - eapply reserve_affordable; [by rewrite Hk; unfold account_key in Hk; injection Hk as _ _ ->|done|unfold cost; lia|lia|lia].
  - apply set_account_sound; [apply Hwf1|done].
Qed.

Lemma admitted_step occurrence limits d d' acc : ledger_wf d → budget_admitted occurrence limits d d' acc → ledger_step limits d 0 d'.
Proof.
  intros Hwf [Hin Hk Hc Ha Hn Haf -> Hs]. apply (step_admit _ _ acc (bo_estimatedCostMicros occurrence)); try done.
  exact (found_kind _ _ _ _ _ Hwf Hin Hk).
Qed.

Lemma reserveOccurrence_steps occurrence limits d r d' : ledger_wf d →
  reserveOccurrenceWithinTransaction occurrence limits d = (Ok r, d') → ledger_steps (admission_limits limits) d 0 d'.
Proof.
  intros Hwf E. destruct (reserveOccurrence_cases _ _ _ _ _ Hwf E) as (d1 & Ho & [[_ ->]|(acc & Had & _)]); [by apply ledger_once|].
  rewrite <-(Z.add_0_l 0). eapply ledger_next; [done|]. apply ledger_once. by eapply admitted_step, Had; eapply step_wf.
Qed.

(** What the settlement of an occurrence charges beyond its reservation. *)
Definition spent_excess (occurrence : BackgroundOccurrence) (spent : Z) (d : Database) : Z :=
  Z.max 0 (spent - match account_row (bo_ownerId occurrence) (bo_agentId occurrence)
                           (accountId (occurrence_parent (bo_id occurrence))) d with
                   | Some a => ac_reservedCostMicros a
                   | None => 0
                   end).

Lemma settleOccurrence_budget limits occurrence settlement d r d' : ledger_wf d →
  settleOccurrenceWithinTransaction occurrence settlement d = (Ok r, d') →
  ∃ n, ledger_steps limits d n d' ∧ n ≤ spent_excess occurrence (os_spentCostMicros settlement) d.
Proof.
  unfold settleOccurrenceWithinTransaction, spent_excess. intros Hwf E. wk_Ok.
  match goal with H : ensureAccount _ _ _ _ _ = (Ok ?x, ?y) |- _ =>
    apply (ensureAccount_Ok limits) in H as (Ho & Hin & Hk & _ & Hrow); [|done];
    set (acc := x) in *; clearbody acc; set (d1 := y) in *; clearbody d1 end.
  pose proof (step_wf _ _ _ _ Ho Hwf) as Hwf1.
  pose proof (found_kind _ _ _ _ _ Hwf1 Hin Hk) as Hkind.
  repeat match goal with H : any_child _ _ _ _ _ = _ |- _ => apply any_child_Ok in H as (_ & ->) end.
  match goal with H : _ || _ = false |- _ => apply orb_false_iff in H as [Hopen _] end.
  destruct (os_outcome settlement === settled_unknown); wk_Ok; cost_Ok; updated.
  - exists (0 + (0 + 0)). split; [|lia]. eapply ledger_next; [done|]. apply ledger_once. eapply step_retain; [done|done|reflexivity|].
    apply set_account_sound; [apply Hwf1|done].
  - eexists (0 + _). split.
    + eapply ledger_next; [done|]. apply ledger_once. eapply (step_close _ _ acc); [done|done| | |reflexivity|].
      * done.
      * rewrite existsb_false in Hopen. intros y Hy. unfold account_key in Hk. injection Hk as Eo Ea Ei.
        rewrite <-Eo, <-Ea in Hopen. specialize (Hopen y Hy). by destruct (al_status y).
      * apply set_account_sound; [apply Hwf1|done].
    + destruct Hrow as [->|[-> Hz]]; lia.
Qed.

(** *** Work in the background *)
Definition same_ledger (d d' : Database) : Prop := t_accounts d' = t_accounts d ∧ t_allocations d' = t_allocations d.

(** What a computation leaves as it is. *)
Definition keeps {T A} (f : Database → T) (m : Wk A) : Prop := ∀ d, f (m d).2 = f d.

Lemma keeps_reads {T A} (f : Database → T) (m : Wk A) : reads m → keeps f m.
Proof. intros Hm d. by rewrite Hm. Qed.

Lemma keeps_bind {T A B} (f : Database → T) (m : Wk A) (g : A → Wk B) : keeps f m → (∀ a, keeps f (g a)) → keeps f (a ← m; g a).
Proof.
  intros Hm Hg d. unfold mbind, M_bind. specialize (Hm d). destruct (m d) as [[a|x] d1]; cbn in *; [|done].
  by rewrite Hg.
Qed.

Lemma keeps_transaction {T A} (f : Database → T) (m : Wk A) : keeps f m → keeps f (transaction m).
Proof.
  intros Hm d. specialize (Hm d). destruct (transaction m d) as [[a|x] d'] eqn:E; cbn.
  - apply (proj1 (transaction_Ok _ _ _ _)) in E. by rewrite E in Hm.
  - by apply (proj1 (transaction_Err _ _ _ _)) in E as [-> _].
Qed.

Lemma keeps_write {T} (f : Database → T) holds g : (∀ d, f (g d) = f d) → keeps f (write holds g).
Proof. intros Hg d. unfold write. destruct (holds (g d)); [apply Hg|done]. Qed.

Ltac kept :=
  repeat first
  [ solve [apply keeps_reads; only_reads]
  | apply keeps_write; intros; reflexivity
  | apply keeps_transaction
  | apply keeps_bind; [|intros ?]
  | match goal with
    | |- keeps _ (match ?x with _ => _ end) => destruct x
    | |- keeps _ (match ?x with _ => _ end _) => destruct x
    end ].

Definition ledger_of (d : Database) : list AccountRow * list AllocationRow := (t_accounts d, t_allocations d).

Lemma ledger_kept {A} (m : Wk A) d : keeps ledger_of m → same_ledger d (m d).2.
Proof. intros Hm. specialize (Hm d). unfold ledger_of in Hm. by injection Hm. Qed.

Lemma writeOccurrence_keeps o : keeps ledger_of (writeOccurrence o).
Proof. unfold writeOccurrence, write_occurrences. kept. Qed.

Lemma reserveOccurrence_keeps occurrence limits : keeps t_occurrences (reserveOccurrenceWithinTransaction occurrence limits).
Proof.
  unfold reserveOccurrenceWithinTransaction, ensureAccount, insertAccount, updateAccount, write_accounts. kept.
Qed.

Section background.
Context (configuration : SqliteWorkerConfiguration) (freeBytes : Z).

Lemma createOccurrence_keeps o : keeps ledger_of (createOccurrence configuration freeBytes o).
Proof. unfold createOccurrence, readOccurrenceByStableKey, readOccurrence, write_occurrences. kept. Qed.

Lemma claimOccurrence_keeps input : keeps ledger_of (claimOccurrence configuration freeBytes input).
Proof. unfold claimOccurrence, readOccurrence, writeOccurrence, write_occurrences. kept. Qed.

Lemma keeps_Ok {A} (m : Wk A) d a d' : keeps ledger_of m → m d = (Ok a, d') → same_ledger d d'.
Proof. intros Hm E. apply (ledger_kept m d) in Hm. by rewrite E in Hm. Qed.

Lemma keeps_step limits d d' : same_ledger d d' → ledger_step limits d 0 d'.
Proof. intros [H1 H2]. by apply step_other. Qed.

Lemma admit_steps current input d r d' : ledger_wf d → admit_occurrence current input d = (Ok r, d') →
  ledger_steps (admission_limits (bq_limits input)) d 0 d'.
Proof.
  unfold admit_occurrence. intros Hwf E. destruct (str_le _ _).
  { apply ledger_once, keeps_step. refine (keeps_Ok _ _ _ _ _ E). unfold writeOccurrence, write_occurrences. kept. }
  wk_Ok. rewrite <-(Z.add_0_l 0). 
  match goal with H : match ?c with Some _ => _ | None => _ end d = (Ok _, ?y), Hw : writeOccurrence _ ?y = (Ok _, ?z) |- _ =>
    apply ledger_trans with y; [|apply ledger_once, keeps_step, (keeps_Ok _ _ _ _ (writeOccurrence_keeps _) Hw)];
    destruct c; [apply mret_Ok in H as [_ ->]; apply steps_none|exact (reserveOccurrence_steps _ _ _ _ _ Hwf H)] end.
Qed.

Definition found_occurrence (occurrenceId : OccurrenceId) (d : Database) : option BackgroundOccurrence :=
  get_where (λ r, bo_id r === occurrenceId) (t_occurrences d).

Definition occurrence_excess (input : BackgroundOccurrenceSettlement) (d : Database) : Z :=
  match found_occurrence (os_occurrenceId input) d with
  | Some occurrence => spent_excess occurrence (os_spentCostMicros input) d
  | None => 0
  end.

(** A request that runs in a transaction. *)
Lemma immediate_kept {A} (P : Database → Prop) (m : Wk A) d : P d → (∀ a d', m d = (Ok a, d') → P d') →
  P ((lift (assertDiskHeadroom configuration freeBytes) ;; transaction m) d).2.
Proof.
  intros Hd Hm. unfold mbind, M_bind, lift. cbn. destruct (assertDiskHeadroom _ _); [|done].
  destruct (transaction m d) as [[b|x] d1] eqn:E; cbn.
  - apply (proj1 (transaction_Ok _ _ _ _)) in E. by eapply Hm.
  - by apply (proj1 (transaction_Err _ _ _ _)) in E as [-> _].
Qed.

Lemma execute_kept {A} (P : Database → Prop) scope (parsed : result failure unit) (m : Wk A) d : P d → (∀ a d', m d = (Ok a, d') → P d') →
  P (execute scope (lift parsed ;; runImmediateTransaction configuration freeBytes m) d).2.
Proof.
  intros Hd Hm. unfold execute. assert (H : P ((lift (parseEnvelope scope) ;; lift parsed ;;
    runImmediateTransaction configuration freeBytes m) d).2).
  { unfold mbind at 1, M_bind at 1, lift at 1. destruct (parseEnvelope scope); [|done].
    unfold mbind at 1, M_bind at 1, lift at 1. destruct parsed; [|done]. exact (immediate_kept P m d Hd Hm). }
  match type of H with P (snd ?t) => destruct t as [[b|[]] d1] end; done.
Qed.

Lemma reserveBackgroundAdmission_steps input d : ledger_wf d →
  ledger_steps (admission_limits (bq_limits input)) d 0 (reserveBackgroundAdmission configuration freeBytes input d).2.
Proof.
  intros Hwf. unfold reserveBackgroundAdmission.
  apply (immediate_kept (ledger_steps (admission_limits (bq_limits input)) d 0)); [apply steps_none|].
  intros a d' E. unfold readOccurrence in E. wk_Ok. destruct (get_where _ _) as [current|]; [|by wk_Ok]. wk_Ok.
  match type of E with (if ?b then _ else _) _ = _ => destruct b; [wk_Ok; apply steps_none|] end.
  destruct (admission_answered _ _); [wk_Ok; apply steps_none|]. wk_Ok.
  destruct (admission_blocked _ _); [wk_Ok; apply steps_none|]. wk_Ok. by eapply admit_steps.
Qed.

Lemma settleOccurrence_steps limits input d : ledger_wf d →
  ∃ n, ledger_steps limits d n (settleOccurrence configuration freeBytes input d).2 ∧ n ≤ occurrence_excess input d.
Proof.
  intros Hwf. unfold settleOccurrence.
  apply (immediate_kept (λ d', ∃ n, ledger_steps limits d n d' ∧ n ≤ occurrence_excess input d)).
  { exists 0. split; [apply steps_none|]. unfold occurrence_excess. destruct (found_occurrence _ _); [unfold spent_excess|]; lia. }
  intros a d' E. unfold readOccurrence in E. wk_Ok. unfold occurrence_excess, found_occurrence.
  destruct (get_where _ _) as [current|]; [|by wk_Ok]. wk_Ok. destruct (iso_time _) as [settledAt|]; [|by wk_Ok]. wk_Ok.
  match goal with H : settled_status _ _ _ = Ok ?x |- _ => destruct x as [[status nextRetryAt] errorCode] end. wk_Ok.
  match goal with H : settleOccurrenceWithinTransaction _ _ _ = (Ok _, _), Hw : writeOccurrence _ _ = (Ok _, _) |- _ =>
    apply (settleOccurrence_budget limits) in H as (n & Hn & Hle); [|done];
    pose proof (keeps_step limits _ _ (keeps_Ok _ _ _ _ (writeOccurrence_keeps _) Hw)) as Hlast end.
  exists (n + 0). split; [|lia]. eapply ledger_trans; [done|by apply ledger_once].
Qed.
End background.

(** ** Requests *)
Inductive BudgetRequest :=
  | request_read (scope : RunScope) (input : ModelBudgetReadInput)
  | request_reserve (scope : RunScope) (input : ModelBudgetReserveInput)
  | request_markStarted (scope : RunScope) (input : ModelBudgetMarkStartedInput)
  | request_settle (scope : RunScope) (input : ModelBudgetSettlementInput)
  | request_markUnknown (scope : RunScope) (input : ModelBudgetUnknownInput)
  | request_releaseReserved (scope : RunScope) (input : ModelBudgetReleaseReservedInput)
  | request_finalize (scope : RunScope) (input : ModelBudgetFinalizeInput)
  | request_createOccurrence (occurrence : BackgroundOccurrence)
  | request_admission (input : BackgroundAdmissionReservation)
  | request_claimOccurrence (input : BackgroundOccurrenceClaim)
  | request_settleOccurrence (input : BackgroundOccurrenceSettlement).

(** The database after a request, whether it succeeds or fails. *)
Definition perform (configuration : SqliteWorkerConfiguration) (freeBytes : Z) (request : BudgetRequest) (d : Database)
    : Database :=
  match request with
  | request_read scope input => (modelBudget_read scope input d).2
  | request_reserve scope input => (modelBudget_reserve configuration freeBytes scope input d).2
  | request_markStarted scope input => (modelBudget_markStarted configuration freeBytes scope input d).2
  | request_settle scope input => (modelBudget_settle configuration freeBytes scope input d).2
  | request_markUnknown scope input => (modelBudget_markUnknown configuration freeBytes scope input d).2
  | request_releaseReserved scope input => (modelBudget_releaseReserved configuration freeBytes scope input d).2
  | request_finalize scope input => (modelBudget_finalize configuration freeBytes scope input d).2
  | request_createOccurrence occurrence => (createOccurrence configuration freeBytes occurrence d).2
  | request_admission input => (reserveBackgroundAdmission configuration freeBytes input d).2
  | request_claimOccurrence input => (claimOccurrence configuration freeBytes input d).2
  | request_settleOccurrence input => (settleOccurrence configuration freeBytes input d).2
  end.

(** What a request may charge beyond what was reserved for it, and the limits it brings. *)
Definition excess (request : BudgetRequest) (d : Database) : Z :=
  match request with
  | request_settle scope input => settle_excess scope input d
  | request_settleOccurrence input => occurrence_excess input d
  | _ => 0
  end.

Definition keeps_to (limits : ModelBudgetLimits) (request : BudgetRequest) : Prop :=
  match request with
  | request_reserve _ input => limits_within (rs_limits input) limits
  | request_admission input => limits_within (admission_limits (bq_limits input)) limits
  | _ => True
  end.

Lemma excess_nonneg request d : 0 ≤ excess request d.
Proof.
  destruct request; try done; cbn; [unfold settle_excess; destruct (named_allocation _ _ _ _); lia|].
  unfold occurrence_excess, spent_excess. destruct (found_occurrence _ _); lia.
Qed.

Lemma read_reads scope input : reads (modelBudget_read scope input).
Proof.
  intros d. unfold modelBudget_read, execute, readSync.
  match goal with |- (match ?m d with _ => _ end).2 = d => assert (H : reads m) by only_reads; specialize (H d); destruct (m d) as [[a|[]] d1] end; done.
Qed.

Lemma perform_steps configuration freeBytes limits request d : ledger_wf d → keeps_to limits request →
  ∃ n, ledger_steps limits d n (perform configuration freeBytes request d) ∧ n ≤ excess request d.
Proof.
  intros Hwf Hl. set (P := λ d', ∃ n, ledger_steps limits d n d' ∧ n ≤ excess request d).
  assert (HP : ∀ d', ledger_steps limits d 0 d' → P d') by (intros d' Hs; exists 0; split; [done|apply excess_nonneg]).
  assert (P d) as Hd by apply HP, steps_none. change (P (perform configuration freeBytes request d)). destruct request; cbn [perform];
    unfold modelBudget_reserve, modelBudget_markStarted, modelBudget_settle, modelBudget_markUnknown,
      modelBudget_releaseReserved, modelBudget_finalize.
  - by rewrite read_reads.
  - apply (execute_kept _ _ P); [done|]. intros a d' E. apply HP. eapply steps_within; [exact Hl|]. by eapply reserve_steps.
  - apply (execute_kept _ _ P); [done|]. intros a d' E. apply HP. by eapply markStarted_steps.
  - apply (execute_kept _ _ P); [done|]. intros a d' E. by eapply settle_steps.
  - apply (execute_kept _ _ P); [done|]. intros a d' E. apply HP. by eapply markUnknown_steps.
  - apply (execute_kept _ _ P); [done|]. intros a d' E. apply HP. by eapply releaseReserved_steps.
  - apply (execute_kept _ _ P); [done|]. intros a d' E. apply HP. by eapply finalize_steps.
  - apply HP, ledger_once, keeps_step, ledger_kept, createOccurrence_keeps.
  - apply HP. eapply steps_within; [exact Hl|]. by apply reserveBackgroundAdmission_steps.
  - apply HP, ledger_once, keeps_step, ledger_kept, claimOccurrence_keeps.
  - by apply settleOccurrence_steps.
Qed.

(** Requests of any kind and number, each with the free space it met, between
    writes of other tables.  The number is the sum of what they charge beyond
    what was reserved. *)
Inductive performed (configuration : SqliteWorkerConfiguration) (limits : ModelBudgetLimits) : Database → Z → Database → Prop :=
  | performed_none d : performed configuration limits d 0 d
  | performed_request d request freeBytes n d' : keeps_to limits request →
      performed configuration limits (perform configuration freeBytes request d) n d' →
      performed configuration limits d (excess request d + n) d'
  | performed_elsewhere d d1 n d' : same_ledger d d1 → performed configuration limits d1 n d' →
      performed configuration limits d n d'.

Lemma performed_steps configuration limits d n d' : performed configuration limits d n d' → ledger_wf d →
  ∃ m, ledger_steps limits d m d' ∧ m ≤ n.
Proof.
  intros Hp. induction Hp as [d|d request freeBytes n d' Hl _ IH|d d1 n d' Hs _ IH]; intros Hwf.
  - exists 0. split; [constructor|done].
  - destruct (perform_steps configuration freeBytes limits request d Hwf Hl) as (m & Hm & Hle).
    destruct (IH (steps_wf _ _ _ _ Hm Hwf)) as (m' & Hm' & Hle'). exists (m + m'). split; [by eapply ledger_trans|lia].
  - apply (keeps_step limits) in Hs. destruct (IH (step_wf _ _ _ _ Hs Hwf)) as (m & Hm & Hle). exists (0 + m).
    split; [by eapply ledger_next|lia].
Qed.
