(* ===== verification/BudgetGuarantees.v ===== *)
(** What holds of the model budget along any sequence of requests, on the steps
    of BudgetLedger.v and BudgetOperations.v, and a database to try it on. *)
From S2P Require Import Prelude Js JsDate Identifiers Entities.
From S2P Require Import Deterministic InMemoryAuth Coordination Persistence DurableState.
From S2P Require Import Sqlite SqliteSchema SqliteWorker SqliteStep RunDispatch ModelBudget BackgroundWork BudgetLedger BudgetOperations.
Local Open Scope Z_scope.

(** ** What a step may do to an allocation *)
Inductive status_next : AllocationStatus → AllocationStatus → Prop :=
  | next_start : status_next allocation_reserved allocation_started
  | next_release : status_next allocation_reserved allocation_released
  | next_unknown : status_next allocation_started allocation_unknown
  | next_settle : status_next allocation_started allocation_settled
  | next_resolve : status_next allocation_unknown allocation_settled.

Definition final (s : AllocationStatus) : bool := includes s [allocation_settled; allocation_released].

Record allocation_progress (x x' : AllocationRow) : Prop := mk_progress {
  pr_key : allocation_key x' = allocation_key x;
  pr_model : al_modelRef x' = al_modelRef x;
  pr_class : al_dataClassification x' = al_dataClassification x;
  pr_estimate : al_estimatedCostMicros x' = al_estimatedCostMicros x;
  pr_reserved : al_reservedAt x' = al_reservedAt x;
  pr_status : rtc status_next (al_status x) (al_status x');
  pr_final : final (al_status x) = true → x' = x }.

#[export] Instance allocation_progress_preorder : PreOrder allocation_progress.
Proof.
  split; [by split|]. intros x y z [] []. split; try congruence; [by etrans|]. intros Hf. rewrite pr_final1; naive_solver.
Qed.

Definition progressed (t t' : list AllocationRow) : Prop := ∀ x, x ∈ t → ∃ x', x' ∈ t' ∧ allocation_progress x x'.

#[export] Instance progressed_preorder : PreOrder progressed.
Proof.
  split.
  - intros t x Hx. by exists x.
  - intros t1 t2 t3 H1 H2 x Hx. destruct (H1 x Hx) as (y & Hy & P1), (H2 y Hy) as (z & Hz & P2). exists z. split; [done|by etrans].
Qed.

Lemma progressed_update p f t : (∀ r, r ∈ t → p r = true → allocation_progress r (f r)) → progressed t (update_where p f t).
Proof.
  intros Hf x Hx. destruct (p x) eqn:Ep.
  - exists (f x). split; [|by apply Hf]. apply elem_update. left. eauto.
  - exists x. split; [|done]. apply elem_update. by right.
Qed.

Lemma progressed_one x f t : NoDup (allocation_key <$> t) → x ∈ t → allocation_progress x (f x) →
  progressed t (update_where (is_allocation x) f t).
Proof.
  intros Hn Hx Hp. apply progressed_update. intros r Hr E%bool_decide_eq_true.
  by rewrite (key_inj allocation_key t r x Hn Hr Hx E).
Qed.

Lemma moved x x' : status_next (al_status x) (al_status x') → allocation_key x' = allocation_key x →
  al_modelRef x' = al_modelRef x → al_dataClassification x' = al_dataClassification x →
  al_estimatedCostMicros x' = al_estimatedCostMicros x → al_reservedAt x' = al_reservedAt x → allocation_progress x x'.
Proof. intros Hs. split; try done; [by apply rtc_once|]. intros Hf. by destruct Hs. Qed.

Lemma step_progress limits d e d' : ledger_wf d → ledger_step limits d e d' → progressed (t_allocations d) (t_allocations d').
Proof.
  intros Hwf Hs. pose proof (ls_keys _ _ (lw_allocations _ Hwf)) as Hn.
  destruct Hs as [o ag parent c d' -> _|a x next d' _ _ _ _ _ _ -> _|a x t d' _ Hx _ Hs _ -> _
    |a x actual status t d' _ Hx _ Hs _ -> _|a x reason t d' _ Hx _ Hs -> _|a x d' _ Hx _ Hs -> _
    |a d1 status d' _ _ -> _ _ -> _|a n d' _ _ _ _ _ -> _|a d' _ _ -> _|a n status d' _ _ _ _ -> _|d' _ E2]; try (cbn; reflexivity).
  - intros y Hy. exists y. split; [|done]. cbn. apply elem_insert. by left.
  - apply progressed_one; [done|done|]. apply moved; try done. rewrite Hs. constructor.
  - apply progressed_one; [done|done|]. apply moved; try done. destruct (al_status x); done || constructor.
  - apply progressed_one; [done|done|]. apply moved; try done. rewrite Hs. constructor.
  - apply progressed_one; [done|done|]. apply moved; try done. rewrite Hs. constructor.
  - apply progressed_update. intros r _ [_ Hr%bool_decide_eq_true]%andb_true_iff. apply moved; try done. rewrite Hr. constructor.
  - by rewrite E2.
Qed.

Lemma steps_progress limits d n d' : ledger_steps limits d n d' → ledger_wf d → progressed (t_allocations d) (t_allocations d').
Proof.
  intros Hs. induction Hs as [d|d e d1 n d' H1 _ IH]; [done|]. intros Hwf. etrans; [by eapply step_progress|].
  by eapply IH, step_wf.
Qed.

(** ** What is charged, by scope, classification and account *)
Lemma scope_limited limits o ag a n d : ledger_wf d → a ∈ t_accounts d → in_scope o ag a = true → affordable limits a n d →
  cost_of (in_scope o ag) d + n ≤ ml_globalCostMicros limits.
Proof. unfold in_scope. intros _ _ Hp [_ H _]. guards. destruct Hp as [<- <-]. exact H. Qed.

Lemma class_limited limits o ag c a n d : ledger_wf d → a ∈ t_accounts d → in_class o ag c a = true → affordable limits a n d →
  cost_of (in_class o ag c) d + n ≤ ml_perClassificationCostMicros limits c.
Proof. unfold in_class, in_scope. intros _ _ Hp [_ _ H]. guards. destruct Hp as [[<- <-] <-]. exact H. Qed.

Lemma cost_of_account a d : accounts_sound (t_accounts d) → a ∈ t_accounts d → cost_of (is_account (account_key a)) d = cost a.
Proof.
  intros [Hn _] Ha. unfold cost_of. induction (t_accounts d) as [|r t IH]; [by apply not_elem_of_nil in Ha|].
  apply NoDup_cons in Hn as [Hr Hn]. rewrite total_cons. unfold is_account in *. apply elem_of_cons in Ha as [->|Ha].
  - rewrite bool_decide_eq_true_2 by done. rewrite total_zero; [lia|]. intros y Hy. rewrite bool_decide_eq_false_2; [done|].
    intros E. apply Hr. rewrite <-E. by apply list_elem_of_fmap_2.
  - rewrite bool_decide_eq_false_2; [by rewrite IH|]. intros E. apply Hr. rewrite E. by apply list_elem_of_fmap_2.
Qed.

Lemma account_limited limits k a n d : ledger_wf d → a ∈ t_accounts d → is_account k a = true → affordable limits a n d →
  cost_of (is_account k) d + n ≤ ml_accountCostMicros limits.
Proof. intros Hwf Ha <-%bool_decide_eq_true [H _ _]. rewrite cost_of_account; [lia|apply Hwf|done]. Qed.

Section guarantees.
Context (configuration : SqliteWorkerConfiguration) (limits : ModelBudgetLimits).

(** ** The guarantees *)

(** C12 Along any requests, those that fail included, every account agrees with its
    allocations: what a Run or a memory projection has reserved is the sum of the
    estimates of its open calls, and what it spent the sum of the costs of the settled
    ones (an occurrence has at least as much); an account with a call of an unknown
    result is not active; and the account of a Run or a projection is over its budget
    exactly when a call of it cost more than its estimate. *)
Theorem budget_balances d n d' : ledger_wf d → performed configuration limits d n d' → ledger_wf d'.
Proof. intros Hwf Hp. destruct (performed_steps _ _ _ _ _ Hp Hwf) as (m & Hm & _). by eapply steps_wf. Qed.

(** C14 Along any requests that bring no wider limits than these, what is reserved and
    spent by a scope, by each classification in it and by each account stays within
    its limit, or where it was, but for what was charged beyond the estimates. *)
Theorem budget_limits_kept d n d' : ledger_wf d → performed configuration limits d n d' →
  (∀ o a, cost_of (in_scope o a) d' ≤ Z.max (cost_of (in_scope o a) d) (ml_globalCostMicros limits) + n) ∧
  (∀ o a c, cost_of (in_class o a c) d' ≤ Z.max (cost_of (in_class o a c) d) (ml_perClassificationCostMicros limits c) + n) ∧
  (∀ k, cost_of (is_account k) d' ≤ Z.max (cost_of (is_account k) d) (ml_accountCostMicros limits) + n).
Proof.
  intros Hwf Hp. destruct (performed_steps _ _ _ _ _ Hp Hwf) as (m & Hm & Hle).
  assert (Hkept : ∀ p limit, (∀ a reserved spent status revision, p (account_with reserved spent status revision a) = p a) →
    (∀ a n d, ledger_wf d → a ∈ t_accounts d → p a = true → affordable limits a n d → cost_of p d + n ≤ limit) →
    cost_of p d' ≤ Z.max (cost_of p d) limit + n).
  { intros p limit H1 H2. pose proof (steps_cost limits p limit H1 H2 d m d' Hwf Hm). lia. }
  split; [|split]; intros; apply Hkept; try done; eauto using scope_limited, class_limited, account_limited.
Qed.

(** Along any requests, an allocation is never lost and keeps its identity, model,
    classification and estimate; it is started or released only when it was
    reserved, settled only when it was started or its result unknown; and once it
    is settled or released nothing of it changes, its cost included. *)
Theorem allocation_lifetime d n d' x : ledger_wf d → performed configuration limits d n d' → x ∈ t_allocations d →
  ∃ x', x' ∈ t_allocations d' ∧ allocation_progress x x'.
Proof.
  intros Hwf Hp Hx. destruct (performed_steps _ _ _ _ _ Hp Hwf) as (m & Hm & _). by apply (steps_progress _ _ _ _ Hm Hwf).
Qed.
End guarantees.

(** ** The admission of background work *)
Lemma get_update {R} (p : R → bool) f t : (∀ r, p r = true → p (f r) = true) → get_where p (update_where p f t) = f <$> get_where p t.
Proof.
  intros Hf. unfold get_where, update_where. induction t as [|r t IH]; [done|]. cbn. destruct (p r) eqn:E.
  - by rewrite Hf.
  - by rewrite E.
Qed.

(** There is room for the occurrence beside the work that is admitted or runs. *)
Record capacity_left (current : BackgroundOccurrence) (limits : BackgroundAdmissionLimits) (d : Database) : Prop := mk_capacity {
  cp_job : active_for_job current (λ _, true) d = 0 ∨
    bo_parallelSafe current = true ∧ active_for_job current (λ r, negb (bo_parallelSafe r)) d = 0;
  cp_total : capacity_of current (λ _, true) d < bm_totalRuns limits;
  cp_foreground : bo_foreground current = true ∨
    capacity_of current (λ r, negb (bo_foreground r)) d < bm_totalRuns limits - bm_foregroundReserved limits;
  cp_category : ∀ n, category_limit limits (bo_category current) = Some n →
    capacity_of current (λ r, bo_category r === bo_category current) d < n }.

Lemma capacity_reason_None current limits d d' : capacity_reason current limits d = (Ok None, d') → capacity_left current limits d.
Proof.
  assert (Hnat : ∀ p, 0 ≤ active_for_job current p d) by (intros p; unfold active_for_job; lia).
  unfold capacity_reason. intros E. wk_Ok.
  destruct ((_ || _) && _) eqn:E1; [destruct (category_limit _ _); wk_Ok; done|].
  destruct (bm_totalRuns limits <=? _) eqn:E2; [destruct (category_limit _ _); wk_Ok; done|].
  destruct (negb (bo_foreground current) && _) eqn:E3; [destruct (category_limit _ _); wk_Ok; done|].
  pose proof (Hnat (λ _, true)). pose proof (Hnat (λ r, negb (bo_parallelSafe r))). guards.
  split; [|lia|destruct E3 as [E3|E3]; [left; done|right; lia]|].
  - destruct E1 as [[E1 E1']|E1]; [right|left]; [|lia]. split; [done|lia].
  - intros n Hn. rewrite Hn in E. wk_Ok. destruct (n <=? _) eqn:E4; [done|]. guards. lia.
Qed.

Lemma writeOccurrence_found o d u d' : writeOccurrence o d = (Ok u, d') →
  found_occurrence (bo_id o) d' = (λ r, o <| bo_jobId := bo_jobId r |> <| bo_ownerId := bo_ownerId r |>
    <| bo_agentId := bo_agentId r |> <| bo_stableKey := bo_stableKey r |>) <$> found_occurrence (bo_id o) d.
Proof.
  unfold writeOccurrence, write_occurrences. intros [_ ->]%write_Ok. unfold found_occurrence. cbn. apply get_update.
  intros r _. by apply bool_decide_eq_true_2.
Qed.

Lemma kept_identity o o' : bo_jobId o' = bo_jobId o → bo_ownerId o' = bo_ownerId o → bo_agentId o' = bo_agentId o →
  bo_stableKey o' = bo_stableKey o →
  o <| bo_jobId := bo_jobId o' |> <| bo_ownerId := bo_ownerId o' |> <| bo_agentId := bo_agentId o' |>
    <| bo_stableKey := bo_stableKey o' |> = o.
Proof. intros -> -> -> ->. by destruct o. Qed.

Section admission.
Context (configuration : SqliteWorkerConfiguration) (freeBytes : Z).

(** What an occurrence and its account are when it was admitted. *)
Record admission (input : BackgroundAdmissionReservation) (current admitted : BackgroundOccurrence) (acc : AccountRow)
    (d d' : Database) : Prop := mk_admission {
  am_found : found_occurrence (bq_occurrenceId input) d = Some current;
  am_revision : bo_revision current = bq_expectedRevision input;
  am_waiting : includes (bo_status current)
    [occurrence_queued; occurrence_retry_wait; occurrence_budget_blocked; occurrence_capacity_blocked] = true;
  am_due : ∀ t, bo_status current = occurrence_retry_wait → bo_nextRetryAt current = Some t → str_lt (bq_admittedAt input) t = false;
  am_deadline : str_lt (bq_admittedAt input) (bo_deadlineAt current) = true;
  am_known : requires_reconciliation current d = (Ok false, d);
  am_fence : assertBackgroundFence (bo_ownerId current) (bo_agentId current) (bq_authority input) d = (Ok tt, d);
  am_capacity : capacity_left current (bq_limits input) d;
  am_kept : found_occurrence (bq_occurrenceId input) d' = Some admitted;
  am_admitted : bo_status admitted = occurrence_admitted ∧ bo_runId admitted = Some (bq_runId input) ∧
    bo_revision admitted = bo_revision current + 1;
  am_account : acc ∈ t_accounts d' ∧ account_key acc = (bo_ownerId current, bo_agentId current, accountId (occurrence_parent (bo_id current)));
  am_reserved : bo_reservedCostMicros admitted = ac_reservedCostMicros acc ∧ bo_spentCostMicros admitted = ac_spentCostMicros acc;
  am_affordable : cost acc ≤ bm_perRunCostMicros (bq_limits input) ∧
    cost_of (in_scope (bo_ownerId current) (bo_agentId current)) d' ≤ bm_globalCostMicros (bq_limits input) ∧
    cost_of (in_class (bo_ownerId current) (bo_agentId current) (bo_dataClassification current)) d'
      ≤ bm_perClassificationCostMicros (bq_limits input) (bo_dataClassification current) }.

(** The costs after the account of the occurrence took the estimate on. *)
Lemma admitted_costs occurrence limits d d1 acc : ledger_wf d → budget_admitted occurrence limits d d1 acc →
  let acc' := account_with (ac_reservedCostMicros acc + bo_estimatedCostMicros occurrence) (ac_spentCostMicros acc) account_active
                (ac_revision acc + 1) acc in
  acc' ∈ t_accounts d1 ∧ cost acc' ≤ ml_accountCostMicros limits ∧
  cost_of (in_scope (bo_ownerId occurrence) (bo_agentId occurrence)) d1 ≤ ml_globalCostMicros limits ∧
  cost_of (in_class (bo_ownerId occurrence) (bo_agentId occurrence) (bo_dataClassification occurrence)) d1
    ≤ ml_perClassificationCostMicros limits (bo_dataClassification occurrence).
Proof.
  intros Hwf [Hin Hk Hc Ha Hn [A1 A2 A3] -> _] acc'. unfold account_key in Hk. injection Hk as Eo Ea Ei.
  split; [apply (elem_set_account (t_accounts d) acc _ _ (lw_accounts _ Hwf) Hin); by left|].
  split; [unfold cost in *; cbn; lia|]. rewrite !cost_set_account by (done || apply Hwf).
  rewrite Eo, Ea in A2, A3. rewrite Hc in A3. unfold cost in *. split; [destruct (in_scope _ _ acc)|destruct (in_class _ _ _ acc)]; lia.
Qed.

Lemma admit_Ok current input d r d' : ledger_wf d → admit_occurrence current input d = (Ok r, d') → bx_outcome r = outcome_admitted →
  let o := bx_occurrence r in ∃ d1 d2 acc, t_occurrences d2 = t_occurrences d ∧
    ledger_step (admission_limits (bq_limits input)) d 0 d1 ∧
    budget_admitted current (admission_limits (bq_limits input)) d1 d2 acc ∧ writeOccurrence o d2 = (Ok tt, d') ∧
    str_lt (bq_admittedAt input) (bo_deadlineAt current) = true ∧ capacity_left current (bq_limits input) d ∧
    o = current <| bo_revision := bo_revision current + 1 |> <| bo_authority := bq_authority input |>
          <| bo_runId := Some (bq_runId input) |> <| bo_nextRetryAt := None |> <| bo_status := occurrence_admitted |>
          <| bo_reservedCostMicros := ac_reservedCostMicros acc + bo_estimatedCostMicros current |>
          <| bo_spentCostMicros := ac_spentCostMicros acc |> <| bo_lastErrorCode := None |>.
Proof.
  unfold admit_occurrence. intros Hwf E Ho. destruct (str_le _ _) eqn:El; [wk_Ok; done|]. wk_Ok.
  match goal with H : capacity_reason _ _ _ = (Ok ?c, _) |- _ => destruct c; [cbn in Ho; by destruct (blocked_by_budget _)|];
    apply capacity_reason_None in H end.
  match goal with H : reserveOccurrenceWithinTransaction _ _ _ = (Ok ?b, ?y) |- _ =>
    destruct (reserveOccurrence_cases _ _ _ _ _ Hwf H) as (d1 & Hs & [[Hb _]|(acc & Hb & ->)]) end.
  { cbn in Ho. destruct (_.2); [by destruct (blocked_by_budget _)|done]. }
  match goal with H : writeOccurrence _ _ = (Ok ?u, _) |- _ => destruct u end.
  match goal with H : reserveOccurrenceWithinTransaction _ _ _ = (Ok ?b, ?y) |- _ =>
    pose proof (reserveOccurrence_keeps current (bq_limits input) d) as Hkept; rewrite H in Hkept end.
  eexists d1, _, acc. split; [done|]. split; [done|]. split; [done|]. split; [done|]. split; [|done]. unfold str_le in El. by apply negb_false_iff in El.
Qed.

Lemma blocked_outcome current input answer : admission_blocked current input = Some answer → bx_outcome answer ≠ outcome_admitted.
Proof.
  unfold admission_blocked. intros E. destruct (bo_status current); simplify_eq; try done.
  destruct (bo_nextRetryAt current); [|done]. destruct (str_lt _ _); by simplify_eq.
Qed.

Lemma blocked_due current input t : admission_blocked current input = None → bo_status current = occurrence_retry_wait →
  bo_nextRetryAt current = Some t → str_lt (bq_admittedAt input) t = false.
Proof. unfold admission_blocked. intros E Es Et. rewrite Es, Et in E. by destruct (str_lt _ _). Qed.

(** C15 An occurrence of background work is admitted only when its revision is the one
    expected, it waits for admission and is due, its deadline has not passed, its
    authority is current and no result of it is unknown; when there is room beside
    the work that is admitted or runs; and when the estimate fits in the limits of
    its account, its classification and its scope, which then hold with the
    estimate reserved. *)
Theorem admission_sound input d r d' : ledger_wf d → reserveBackgroundAdmission configuration freeBytes input d = (Ok r, d') →
  bx_outcome r = outcome_admitted → ∃ current acc, admission input current (bx_occurrence r) acc d d'.
Proof.
  intros Hwf E Ho. unfold reserveBackgroundAdmission, readOccurrence in E. wk_Ok.
  destruct (get_where _ _) as [current|] eqn:Ec; [|by wk_Ok]. wk_Ok.
  match type of E with (if ?b then _ else _) _ = _ => destruct b; [wk_Ok; done|] end.
  destruct (admission_answered _ _) as [answer|] eqn:Ea.
  { wk_Ok. unfold admission_answered in Ea. destruct (_ || _); [|done]. by injection Ea as <-. }
  wk_Ok. destruct (admission_blocked _ _) as [answer|] eqn:Eb; [wk_Ok; by destruct (blocked_outcome _ _ _ Eb)|].
  wk_Ok. destruct (admit_Ok _ _ _ _ _ Hwf E Ho) as (d1 & d2 & acc & Hocc & Hs & Hb & Hw & Hdl & Hcap & Eo).
  destruct (admitted_costs _ _ _ _ _ (step_wf _ _ _ _ Hs Hwf) Hb) as (Hin & C1 & C2 & C3).
  assert (Hid : bo_id (bx_occurrence r) = bq_occurrenceId input).
  { rewrite Eo. cbn. by apply get_elem in Ec as [_ Ec%bool_decide_eq_true]. }
  assert (Hd : same_ledger d2 d') by exact (keeps_Ok _ _ _ _ (writeOccurrence_keeps _) Hw). destruct Hd as [Et _].
  apply writeOccurrence_found in Hw as Hf. rewrite Hid in Hf. unfold found_occurrence in Hf at 2. rewrite Hocc, Ec in Hf. cbn in Hf.
  unfold cost_of in C2, C3. rewrite <-Et in Hin, C2, C3.
  exists current. eexists. split; [done|by guards|by guards|intros t; by apply (blocked_due current input)|done|done| |done| |by rewrite Eo|split; [done|apply Hb]|by rewrite Eo|by split].
  - match goal with H : assertBackgroundFence _ _ _ _ = (Ok ?u, _) |- _ => by destruct u end.
  - rewrite Hf. f_equal. apply kept_identity; by rewrite Eo.
Qed.
End admission.

(** ** A database with two Runs and an occurrence *)
Definition budget_configuration : SqliteWorkerConfiguration := mkWorkerConfiguration 1000 None.
Definition at_0 := "2026-01-01T12:00:00.000Z".
Definition at_1 := "2026-01-01T12:00:10.000Z".
Definition at_2 := "2026-01-01T12:00:20.000Z".
Definition at_9 := "2026-01-01T13:00:00.000Z".

Definition budget_fence : ProductAuthorityFence := DurableState.mkFence "deployment" 1 1.
Definition budget_scope : RunScope := mkRunScope "owner" "agent" budget_fence (Persistence.mkFence "lease-1" 1).

Definition budget_occurrence : BackgroundOccurrence :=
  mkOccurrence "occurrence-1" "job-1" "owner" "agent" 1 "key" occurrence_queued budget_fence "reflection" data_private false true
    500 0 0 0 None at_9 None None None.

Definition budget_database : Database :=
  mkDatabase ["owner"] ["agent"] [mkPayloadRow "payload" "owner" "agent" data_private]
    [mkTriggerRow "trigger-1" "owner" "agent" "payload"; mkTriggerRow "trigger-2" "owner" "agent" "payload"]
    [mkRunRow "run-1" "owner" "agent" None "session" "trigger-1" 1 running at_0 at_0;
     mkRunRow "run-2" "owner" "agent" None "session" "trigger-2" 1 running at_0 at_0]
    [mkBackgroundJob "job-1" "owner" "agent" None 1 job_active "authorization" None] [] []
    [mkDeployment "deployment" "owner" "agent" 1 deployment_active 1 1 None]
    [mkLeaseRow "lease-1" "owner" "agent" "deployment" "host-1" 1 1 at_0 at_9 None] [] [] [] []
    [mkExecutionLease "owner" "agent" "run-1" 0 "lease-1" "deployment" 1 1 "worker" "execution-1" at_0 at_9 at_9 None]
    [budget_occurrence] [] [] [] [] [].

Definition execution_claim : RunExecutionLeaseClaim := mkLeaseClaim "execution-1" 0 "lease-1" 1 "deployment" 1 1 "worker".
Definition run_1 : ModelBudgetActiveParent := active_run "run-1" execution_claim.
Definition budget_limits : ModelBudgetLimits := mkBudgetLimits 1000 1500 (λ _, 1200).

Definition reserve_call (parent : ModelBudgetActiveParent) (key : string) (estimate : Z) : BudgetRequest :=
  request_reserve budget_scope (mkReserve parent key "model" data_private estimate budget_limits at_0).
Definition start_call (parent : ModelBudgetActiveParent) (key : string) : BudgetRequest :=
  request_markStarted budget_scope (mkMarkStarted parent key at_1).
Definition settle_call (parent : ModelBudgetAccountParent) (key : string) (actual : Z) : BudgetRequest :=
  request_settle budget_scope (mkBudgetSettlement parent key actual at_2).
Definition unknown_call (parent : ModelBudgetAccountParent) (key : string) : BudgetRequest :=
  request_markUnknown budget_scope (mkBudgetUnknown parent key at_2 provider_unresolved).
Definition release_call (parent : ModelBudgetAccountParent) (key : string) : BudgetRequest :=
  request_releaseReserved budget_scope (mkBudgetRelease parent key at_2).

Definition after (request : BudgetRequest) (d : Database) : Database := perform budget_configuration 5000 request d.
Definition sequence (requests : list BudgetRequest) (d : Database) : Database := foldl (λ d r, after r d) d requests.

Definition states_of (d : Database) : list (Z * Z * AccountStatus) :=
  (λ a, (ac_reservedCostMicros a, ac_spentCostMicros a, ac_status a)) <$> t_accounts d.

Fixpoint sequence_excess (requests : list BudgetRequest) (d : Database) : Z :=
  match requests with [] => 0 | r :: requests => excess r d + sequence_excess requests (after r d) end.

Lemma sequence_performed requests d : Forall (keeps_to budget_limits) requests →
  performed budget_configuration budget_limits d (sequence_excess requests d) (sequence requests d).
Proof.
  intros Hl. revert d. induction Hl as [|r requests Hr _ IH]; intros d; [constructor|].
  cbn [sequence_excess]. eapply (performed_request _ _ _ _ 5000); [done|]. apply IH.
Qed.

Lemma empty_ledger_wf d : t_accounts d = [] → t_allocations d = [] → ledger_wf d.
Proof.
  intros E1 E2. assert (H : ∀ {A} (x : A), x ∉ []) by (intros; apply not_elem_of_nil).
  split; [split|split|]; rewrite ?E1, ?E2; try apply NoDup_nil_2; intros ? Hin; by apply H in Hin.
Qed.

Lemma limits_refl l : limits_within l l.
Proof. by split. Qed.

(** Two calls of a Run, of which the first costs more than its estimate and the
    second is released. *)
Definition two_calls : list BudgetRequest :=
  [reserve_call run_1 "call-1" 300; reserve_call run_1 "call-2" 400; start_call run_1 "call-1"; unknown_call (run_parent "run-1") "call-1";
   settle_call (run_parent "run-1") "call-1" 350; release_call (run_parent "run-1") "call-2"].

Lemma two_calls_within : Forall (keeps_to budget_limits) two_calls.
Proof. repeat constructor; apply limits_refl. Qed.

Lemma two_calls_states : states_of (sequence two_calls budget_database) = [(0, 350, account_over_budget)]
  ∧ states_of (sequence (take 4 two_calls) budget_database) = [(700, 0, account_reconcile_required)].
Proof. split; vm_compute; reflexivity. Qed.

Lemma two_calls_excess : sequence_excess two_calls budget_database = 50.
Proof. vm_compute. reflexivity. Qed.

Lemma budget_balances_witness : ledger_wf (sequence two_calls budget_database)
  ∧ states_of (sequence two_calls budget_database) = [(0, 350, account_over_budget)].
Proof.
  split; [|exact (proj1 two_calls_states)].
  exact (budget_balances _ _ _ _ _ (empty_ledger_wf budget_database eq_refl eq_refl) (sequence_performed _ _ two_calls_within)).
Defined.

(** The third call does not fit: it is refused, and nothing changes. *)
Definition three_calls : list BudgetRequest := two_calls ++ [reserve_call run_1 "call-3" 900].

Lemma three_calls_within : Forall (keeps_to budget_limits) three_calls.
Proof. repeat constructor; apply limits_refl. Qed.

Lemma budget_limits_kept_witness : cost_of (in_scope "owner" "agent") (sequence three_calls budget_database) = 350
  ∧ cost_of (in_scope "owner" "agent") (sequence three_calls budget_database) ≤ 1550.
Proof.
  split; [vm_compute; reflexivity|].
  pose proof (proj1 (budget_limits_kept _ _ _ _ _ (empty_ledger_wf budget_database eq_refl eq_refl)
    (sequence_performed _ _ three_calls_within)) "owner" "agent") as H.
  assert (E : sequence_excess three_calls budget_database = 50) by (vm_compute; reflexivity).
  rewrite E in H. exact H.
Defined.

Definition first_allocation : AllocationRow :=
  mkAllocationRow "owner" "agent" "run:run-1" "call-1" "model" data_private 300 None allocation_reserved at_0 None None None None.

Definition reserved_database : Database := sequence (take 1 three_calls) budget_database.

Lemma reserved_wf : ledger_wf reserved_database.
Proof.
  destruct (performed_steps _ _ _ _ _ (sequence_performed (take 1 three_calls) budget_database
    (Forall_take _ _ _ three_calls_within)) (empty_ledger_wf budget_database eq_refl eq_refl)) as (m & Hm & _).
  exact (steps_wf _ _ _ _ Hm (empty_ledger_wf budget_database eq_refl eq_refl)).
Qed.

Lemma first_reserved : first_allocation ∈ t_allocations reserved_database.
Proof. vm_compute. left. Qed.

Lemma allocation_lifetime_witness : ∃ x', x' ∈ t_allocations (sequence (drop 1 three_calls) reserved_database)
  ∧ allocation_progress first_allocation x'.
Proof.
  exact (allocation_lifetime _ _ _ _ _ first_allocation reserved_wf
    (sequence_performed (drop 1 three_calls) reserved_database (Forall_drop _ _ _ three_calls_within)) first_reserved).
Defined.

(** The cost of the settled call is what the provider charged. *)
Lemma first_settled : al_actualCostMicros <$> t_allocations (sequence (drop 1 three_calls) reserved_database) = [Some 350; None].
Proof. vm_compute. reflexivity. Qed.

(** *** The budget of an occurrence *)
Definition admission_of (run : RunId) : BudgetRequest :=
  request_admission (mkAdmissionReservation "occurrence-1" 1 run budget_fence (mkAdmissionLimits 1500 1000 (λ _, 1200) 4 1 []) at_0).
Definition claim_of : BudgetRequest :=
  request_claimOccurrence (mkOccurrenceClaim "occurrence-1" 2 budget_fence "work-1" "worker" at_0 at_2).
Definition occurrence_1 : ModelBudgetActiveParent := active_occurrence "occurrence-1" 3 "work-1" "worker".
Definition settlement_of (outcome : SettlementOutcome) (spent : Z) : BudgetRequest :=
  request_settleOccurrence (mkSettlement "occurrence-1" 3 budget_fence "work-1" at_1 outcome spent None None (mkRetryPolicy 1 1 1 0)).

Definition running_occurrence : Database := sequence [admission_of "run-2"; claim_of] budget_database.

(** A call of an occurrence that is reserved and released takes its estimate off the
    occurrence's reservation, though reserving it added nothing: the next call does not fit. *)
Lemma occurrence_release_shrinks : states_of running_occurrence = [(500, 0, account_active)] ∧
  states_of (sequence [reserve_call occurrence_1 "call-1" 500; release_call (occurrence_parent "occurrence-1") "call-1"] running_occurrence)
    = [(0, 0, account_active)] ∧
  List.length (t_allocations (sequence [reserve_call occurrence_1 "call-1" 500; release_call (occurrence_parent "occurrence-1") "call-1";
    reserve_call occurrence_1 "call-2" 500] running_occurrence)) = 1%nat.
Proof. repeat split; vm_compute; reflexivity. Qed.

(** An occurrence whose account is over its budget and whose settlement is unknown is
    no longer over its budget. *)
Lemma occurrence_over_budget_lost :
  states_of (sequence [reserve_call occurrence_1 "call-1" 300; start_call occurrence_1 "call-1";
    settle_call (occurrence_parent "occurrence-1") "call-1" 900] running_occurrence) = [(200, 900, account_over_budget)] ∧
  states_of (sequence [reserve_call occurrence_1 "call-1" 300; start_call occurrence_1 "call-1";
    settle_call (occurrence_parent "occurrence-1") "call-1" 900; settlement_of settled_unknown 0] running_occurrence)
    = [(200, 900, account_reconcile_required)].
Proof. split; vm_compute; reflexivity. Qed.

Definition admission_input : BackgroundAdmissionReservation :=
  mkAdmissionReservation "occurrence-1" 1 "run-2" budget_fence (mkAdmissionLimits 1500 1000 (λ _, 1200) 4 1 []) at_0.

Lemma admission_succeeds : ∃ r d', reserveBackgroundAdmission budget_configuration 5000 admission_input budget_database = (Ok r, d')
  ∧ bx_outcome r = outcome_admitted.
Proof. eexists _, _. split; vm_compute; reflexivity. Qed.

Lemma admission_sound_witness : ∃ r d' current acc,
  reserveBackgroundAdmission budget_configuration 5000 admission_input budget_database = (Ok r, d') ∧
  admission admission_input current (bx_occurrence r) acc budget_database d'.
Proof.
  destruct admission_succeeds as (r & d' & E & Ho).
  destruct (admission_sound _ _ _ _ _ _ (empty_ledger_wf budget_database eq_refl eq_refl) E Ho) as (current & acc & H).
  exists r, d', current, acc. split; [exact E|exact H].
Defined.
