(* ===== verification/BudgetSettlement.v ===== *)
(** A charge of a provider can always be recorded: the settlement of a call that
    was started never finds the account short of what the call reserved, whatever
    happened before. *)
From S2P Require Import Prelude Js JsDate Identifiers Entities.
From S2P Require Import Deterministic InMemoryAuth Coordination Persistence DurableState.
From S2P Require Import Sqlite SqliteSchema SqliteWorker SqliteStep RunDispatch ModelBudget BackgroundWork.
From S2P Require Import BudgetLedger BudgetOperations BudgetGuarantees.
Local Open Scope Z_scope.

(** ** Writes that keep the constraints *)
Lemma accounts_hold_iff d : accounts_hold d = Ok tt ↔
  (∀ a, a ∈ t_accounts d → account_checks a = true) ∧ NoDup (account_key <$> t_accounts d) ∧
  unique_parent ac_runId (t_accounts d) = true ∧ unique_parent ac_occurrenceId (t_accounts d) = true ∧
  unique_parent ac_projectionJobId (t_accounts d) = true ∧ ∀ a, a ∈ t_accounts d → account_references d a = true.
Proof.
  unfold accounts_hold, check_holds, primary_holds, unique_holds, foreign_holds.
  rewrite <-!forallb_elem, <-(keys_unique_spec account_key). split.
  - intros E. inv_ok. repeat match goal with H : constraint _ _ _ = Ok _ |- _ => apply constraint_Ok in H end. done.
  - intros (H1 & H2 & H3 & H4 & H5 & H6).
    repeat (rewrite (proj2 (constraint_Ok _ _ _ tt)); [cbn [mbind result_bind]|]); done.
Qed.

Lemma allocations_hold_iff d : allocations_hold d = Ok tt ↔
  (∀ x, x ∈ t_allocations d → allocation_checks x = true) ∧ NoDup (allocation_key <$> t_allocations d) ∧
  ∀ x, x ∈ t_allocations d → includes (allocation_account x) (account_key <$> t_accounts d) = true.
Proof.
  unfold allocations_hold, check_holds, primary_holds, foreign_holds.
  rewrite <-(forallb_elem allocation_checks), <-(forallb_elem (λ x, includes (allocation_account x) (account_key <$> t_accounts d))),
    <-(keys_unique_spec allocation_key). split.
  - intros E. inv_ok. repeat match goal with H : constraint _ _ _ = Ok _ |- _ => apply constraint_Ok in H end. done.
  - intros (H1 & H2 & H3). repeat (rewrite (proj2 (constraint_Ok _ _ _ tt)); [cbn [mbind result_bind]|]); done.
Qed.

Lemma unique_parent_kept column p f t : (∀ r, column (f r) = column r) → (∀ r, account_key (f r) = account_key r) →
  unique_parent column (update_where p f t) = unique_parent column t.
Proof.
  intros Hc Hk. unfold unique_parent. rewrite where_update by (intros; by rewrite Hc). unfold keys_unique. f_equal. f_equal.
  apply update_key. intros r. unfold account_key in Hk. specialize (Hk r). rewrite Hc. congruence.
Qed.

Lemma set_account_holds d a reserved spent status : accounts_hold d = Ok tt → a ∈ t_accounts d →
  account_checks (account_with reserved spent status (ac_revision a + 1) a) = true →
  accounts_hold (set_account a reserved spent status d) = Ok tt.
Proof.
  rewrite !accounts_hold_iff. intros (H1 & H2 & H3 & H4 & H5 & H6) Ha Hc.
  assert (Hs : accounts_sound (t_accounts d)) by by split.
  assert (Hin : ∀ r, r ∈ t_accounts (set_account a reserved spent status d) →
    r = account_with reserved spent status (ac_revision a + 1) a ∨ r ∈ t_accounts d).
  { intros r Hr. apply (elem_set_account (t_accounts d) a _ r Hs Ha) in Hr as [->|[Hr _]]; auto. }
  split; [|split; [|split; [|split; [|split]]]].
  - intros r [->|Hr]%Hin; auto.
  - by rewrite set_account_keys.
  - setoid_rewrite unique_parent_kept; done.
  - setoid_rewrite unique_parent_kept; done.
  - setoid_rewrite unique_parent_kept; done.
  - intros r [->|Hr]%Hin; [exact (H6 a Ha)|exact (H6 r Hr)].
Qed.

Lemma update_allocation_holds d x f : allocations_hold d = Ok tt → x ∈ t_allocations d →
  (∀ r, allocation_key (f r) = allocation_key r) → allocation_checks (f x) = true →
  allocations_hold (set_allocations (update_where (is_allocation x) f) d) = Ok tt.
Proof.
  rewrite !allocations_hold_iff. intros (H1 & H2 & H3) Hx Hk Hc.
  assert (Hin : ∀ r, r ∈ update_where (is_allocation x) f (t_allocations d) → r = f x ∨ r ∈ t_allocations d).
  { intros r Hr. apply (elem_update_kid (t_allocations d) x H2 Hx) in Hr as [->|[Hr _]]; auto. }
  assert (Hka : allocation_account (f x) = allocation_account x) by (specialize (Hk x); unfold allocation_key in Hk; congruence).
  split; [|split].
  - intros r [->|Hr]%Hin; auto.
  - cbn. by rewrite update_key.
  - intros r [->|Hr]%Hin; [rewrite Hka; by apply (H3 x)|by apply (H3 r)].
Qed.

(** ** Reading a row by its key *)
Lemma account_row_found o a id d r : accounts_sound (t_accounts d) → r ∈ t_accounts d → account_key r = (o, a, id) →
  account_row o a id d = Some r.
Proof.
  intros Hs Hr Hk. unfold account_row. destruct (get_where _ _) as [r'|] eqn:E.
  - apply get_elem in E as [Hr' E]. guards. f_equal. apply (key_inj account_key (t_accounts d)); [apply Hs|done|done|].
    rewrite Hk. destruct_and!. unfold account_key. congruence.
  - rewrite get_None in E. specialize (E r Hr). unfold account_key in Hk. simplify_eq. by rewrite !bool_decide_eq_true_2 in E.
Qed.

Lemma allocation_row_found o a id k d x : NoDup (allocation_key <$> t_allocations d) → x ∈ t_allocations d →
  allocation_key x = (o, a, id, k) → allocation_row o a id k d = Some x.
Proof.
  intros Hn Hx Hk. unfold allocation_row, of_account. destruct (get_where _ _) as [y|] eqn:E.
  - apply get_elem in E as [Hy E]. guards. f_equal. apply (key_inj allocation_key (t_allocations d)); [done|done|done|].
    rewrite Hk. destruct_and!. unfold allocation_key, allocation_account. congruence.
  - rewrite get_None in E. specialize (E x Hx). unfold allocation_key, allocation_account in Hk. simplify_eq.
    by rewrite !bool_decide_eq_true_2 in E.
Qed.

(** ** Rows an operation can return *)
Definition readable_account (a : AccountRow) : Prop := account_row_valid a = Ok tt ∧ ∃ record, toAccount a = Ok record.
Definition readable_allocation (x : AllocationRow) : Prop := allocation_row_valid x = Ok tt ∧ toAllocation x = Ok x.

Lemma safeInteger_run n name : 0 ≤ n ≤ MAX_SAFE_INTEGER → safeInteger n name 0 = Ok n.
Proof.
  intros H. unfold safeInteger, isSafeInteger. replace (Z.abs n <=? MAX_SAFE_INTEGER) with true by (symmetry; apply Z.leb_le; lia).
  by replace (n <? 0) with false by (symmetry; apply Z.ltb_ge; lia).
Qed.

Lemma addCost_run l r name : 0 ≤ l → 0 ≤ r → l + r ≤ MAX_SAFE_INTEGER → addCost l r name = Ok (l + r).
Proof.
  intros Hl Hr Hs. unfold addCost, isSafeInteger.
  replace (Z.abs l <=? MAX_SAFE_INTEGER) with true by (symmetry; apply Z.leb_le; lia).
  replace (Z.abs r <=? MAX_SAFE_INTEGER) with true by (symmetry; apply Z.leb_le; lia).
  replace (l <? 0) with false by (symmetry; apply Z.ltb_ge; lia). replace (r <? 0) with false by (symmetry; apply Z.ltb_ge; lia).
  by replace (MAX_SAFE_INTEGER - r <? l) with false by (symmetry; apply Z.ltb_ge; lia).
Qed.

Lemma subtractCost_run l r name : 0 ≤ r → r ≤ l → l ≤ MAX_SAFE_INTEGER → subtractCost l r name = Ok (l - r).
Proof.
  intros Hr Hle Hs. unfold subtractCost, isSafeInteger.
  replace (Z.abs l <=? MAX_SAFE_INTEGER) with true by (symmetry; apply Z.leb_le; lia).
  replace (Z.abs r <=? MAX_SAFE_INTEGER) with true by (symmetry; apply Z.leb_le; lia).
  replace (l <? 0) with false by (symmetry; apply Z.ltb_ge; lia). replace (r <? 0) with false by (symmetry; apply Z.ltb_ge; lia).
  by replace (l <? r) with false by (symmetry; apply Z.ltb_ge; lia).
Qed.

Lemma account_readable a reserved spent status revision : readable_account a → 0 ≤ reserved ≤ MAX_SAFE_INTEGER →
  0 ≤ spent ≤ MAX_SAFE_INTEGER → 0 ≤ revision ≤ MAX_SAFE_INTEGER →
  readable_account (account_with reserved spent status revision a) ∧
  ∃ record, toAccount (account_with reserved spent status revision a) = Ok record ∧ ba_reservedCostMicros record = reserved ∧
    ba_spentCostMicros record = spent ∧ ba_status record = status.
Proof.
  intros [Hv (record & Hr)] H1 H2 H3.
  assert (Ht : ∃ record, toAccount (account_with reserved spent status revision a) = Ok record ∧ ba_reservedCostMicros record = reserved ∧
    ba_spentCostMicros record = spent ∧ ba_status record = status).
  { unfold toAccount in *. cbn [account_with ac_ownerId ac_agentId ac_parentKind ac_runId ac_occurrenceId ac_projectionJobId].
    apply result_bind_Ok in Hr as (o & Ho & Hr). apply result_bind_Ok in Hr as (g & Hg & Hr). apply result_bind_Ok in Hr as (p & Hp & _).
    cbn. rewrite Ho, Hg. cbn. rewrite Hp. eexists. split; [reflexivity|]. done. }
  split; [|exact Ht]. split; [|destruct Ht as (r' & Hr' & _); by exists r'].
  unfold account_row_valid in *. cbn. inv_ok. 
  repeat match goal with H : ?r = Ok _ |- context [?r] => rewrite H; cbn [mbind result_bind] end.
  by rewrite !safeInteger_run.
Qed.

Definition settled_allocation (input : ModelBudgetSettlementInput) (x : AllocationRow) : AllocationRow :=
  x <| al_status := allocation_settled |> <| al_actualCostMicros := Some (bs_actualCostMicros input) |>
    <| al_settledAt := Some (bs_settledAt input) |> <| al_reasonCode := None |>.

Lemma parseSettlement_Ok input : parseSettlement input = Ok tt →
  0 ≤ bs_actualCostMicros input ≤ MAX_SAFE_INTEGER ∧ is_ok (instant (bs_settledAt input) "settledAt") = true.
Proof.
  unfold parseSettlement. intros E. inv_ok. unfold safeInteger, isSafeInteger in *. inv_ok. guards.
  split; [lia|]. match goal with H : instant _ _ = Ok _ |- _ => by rewrite H end.
Qed.

Lemma settled_readable input x : readable_allocation x → parseSettlement input = Ok tt → readable_allocation (settled_allocation input x).
Proof.
  intros [Hv Ht] [Ha Hi]%parseSettlement_Ok. split.
  - unfold allocation_row_valid in *. cbn. inv_ok.
    repeat match goal with H : ?r = Ok _ |- context [?r] => rewrite H; cbn [mbind result_bind] end.
    rewrite safeInteger_run by done. cbn. 
    repeat match goal with H : ?r = Ok _ |- context [?r] => rewrite H; cbn [mbind result_bind] end.
    by destruct (instant (bs_settledAt input) _).
  - unfold toAllocation in *. cbn. apply result_bind_Ok in Ht as (o & Ho & Ht). apply result_bind_Ok in Ht as (g & Hg & _).
    by rewrite Ho, Hg.
Qed.

Lemma settled_checks input x : allocation_checks x = true → 0 ≤ bs_actualCostMicros input ≤ MAX_SAFE_INTEGER →
  allocation_checks (settled_allocation input x) = true.
Proof.
  unfold allocation_checks, in_safe_range, MAX_SAFE_INTEGER. cbn. intros H Ha. guards. destruct_and!. repeat split; try done; lia || by left.
Qed.

(** *** The two updates *)
Lemma updateAccount_run a reserved spent status d : accounts_hold d = Ok tt → a ∈ t_accounts d → readable_account a →
  0 ≤ reserved → 0 ≤ spent → reserved + spent ≤ MAX_SAFE_INTEGER → ac_revision a + 1 ≤ MAX_SAFE_INTEGER →
  updateAccount a reserved spent status d =
    (Ok (account_with reserved spent status (ac_revision a + 1) a), set_account a reserved spent status d)
  ∧ accounts_hold (set_account a reserved spent status d) = Ok tt.
Proof.
  intros Hh Ha Hread Hr Hs Hsum Hrev. pose proof (proj1 (accounts_hold_iff d) Hh) as (Hc & Hn & _).
  assert (Hca := Hc a Ha). assert (0 ≤ ac_revision a) by (unfold account_checks, in_safe_range in Hca; guards; destruct_and!; lia).
  assert (Hh' : accounts_hold (set_account a reserved spent status d) = Ok tt).
  { apply set_account_holds; [done|done|]. unfold account_checks, in_safe_range, MAX_SAFE_INTEGER in *. cbn. guards. destruct_and!.
    repeat split; try done; lia. }
  split; [|done]. unfold updateAccount.
  rewrite (bind_run _ _ d (reserved + spent) d) by (unfold lift; by rewrite addCost_run).
  rewrite (bind_run _ _ d (ac_revision a + 1) d) by (unfold lift; rewrite addCost_run by lia; done).
  rewrite (bind_run _ _ d tt (set_account a reserved spent status d)).
  2: { unfold write_accounts, write. change (d <| t_accounts := _ |>) with (set_account a reserved spent status d). by rewrite Hh'. }
  assert (Hin : account_with reserved spent status (ac_revision a + 1) a ∈ t_accounts (set_account a reserved spent status d)).
  { apply (elem_set_account (t_accounts d) a _ _ ltac:(by split) Ha). by left. }
  destruct (account_readable a reserved spent status (ac_revision a + 1) Hread) as [[Hv _] _]; [lia..|].
  rewrite (bind_run _ _ _ (Some (account_with reserved spent status (ac_revision a + 1) a)) (set_account a reserved spent status d)); [done|].
  unfold readAccount. rewrite (bind_run _ _ _ (Some (account_with reserved spent status (ac_revision a + 1) a)) (set_account a reserved spent status d)).
  - by rewrite (bind_run _ _ _ tt (set_account a reserved spent status d)) by (unfold lift; by rewrite Hv).
  - unfold gets. f_equal. f_equal. by apply account_row_found; [apply accounts_hold_sound| |].
Qed.

Lemma own_parent a parent : account_checks a = true → ac_accountId a = accountId parent → assertAccountParent a parent = Ok tt.
Proof.
  intros Hc Hid. pose proof (account_kind a parent Hc Hid) as Hk. unfold account_checks, account_id_of, only_parent in Hc.
  rewrite Hk, Hid in Hc. guards. destruct_and!. unfold assertAccountParent. rewrite Hk.
  destruct parent; cbn [parent_kind accountId] in *;
    destruct (ac_runId a), (ac_occurrenceId a), (ac_projectionJobId a);
    try (exfalso; match goal with H : is_none _ ≠ _ |- _ => apply H; reflexivity end);
    match goal with H : _ <$> Some _ = Some _ |- _ => vm_compute in H; injection H as -> end;
    rewrite !bool_decide_eq_true_2 by done; reflexivity.
Qed.

Lemma find_allocation_run scope parent k d a x : account_row (sc_ownerId scope) (sc_agentId scope) (accountId parent) d = Some a →
  named_allocation scope parent k d = Some x → readable_account a → readable_allocation x → account_checks a = true →
  ac_accountId a = accountId parent → find_allocation scope parent k d = (Ok (a, x), d).
Proof.
  unfold named_allocation. intros Ha Hx [Hva _] [Hvx _] Hc Hid. unfold find_allocation, readAccount, readAllocation.
  rewrite (bind_run _ _ d (Some a) d).
  - rewrite (bind_run _ _ d (Some x) d).
    + by rewrite (bind_run _ _ d tt d) by (unfold lift; by rewrite own_parent).
    + rewrite (bind_run _ _ d (Some x) d) by (unfold gets; by rewrite Hx).
      by rewrite (bind_run _ _ d tt d) by (unfold lift; by rewrite Hvx).
  - rewrite (bind_run _ _ d (Some a) d) by (unfold gets; by rewrite Ha).
    by rewrite (bind_run _ _ d tt d) by (unfold lift; by rewrite Hva).
Qed.

Lemma update_allocation_run scope id k from f missing d x : allocations_hold d = Ok tt → x ∈ t_allocations d →
  allocation_key x = (sc_ownerId scope, sc_agentId scope, id, k) → includes (al_status x) from = true →
  (∀ r, allocation_key (f r) = allocation_key r) → allocation_checks (f x) = true → allocation_row_valid (f x) = Ok tt →
  update_allocation scope id k from f missing d = (Ok (f x), set_allocations (update_where (is_allocation x) f) d)
  ∧ allocations_hold (set_allocations (update_where (is_allocation x) f) d) = Ok tt.
Proof.
  intros Hh Hx Hkey Hs Hf Hc Hv. pose proof (proj1 (allocations_hold_iff d) Hh) as (_ & Hn & _).
  pose proof (update_allocation_holds d x f Hh Hx Hf Hc) as Hh'. split; [|done]. unfold update_allocation.
  set (d1 := set_allocations (update_where (is_allocation x) f) d) in *.
  rewrite (bind_run _ _ d tt d1).
  2: { unfold write_allocations, write. match goal with |- context [allocations_hold ?e] =>
      assert (E : e = d1) by (exact (update_found_allocation _ _ _ _ _ _ _ Hn Hx Hkey Hs)); rewrite !E end. by rewrite Hh'. }
  assert (Hin : f x ∈ t_allocations d1) by (apply (elem_update_kid (t_allocations d) x Hn Hx); by left).
  rewrite (bind_run _ _ _ (Some (f x)) d1); [done|]. unfold readAllocation.
  rewrite (bind_run _ _ _ (Some (f x)) d1).
  - by rewrite (bind_run _ _ _ tt d1) by (unfold lift; by rewrite Hv).
  - unfold gets. f_equal. f_equal. apply allocation_row_found; [|done|by rewrite Hf].
    by apply (proj1 (allocations_hold_iff d1)).
Qed.

(** ** The settlement of a call that was started *)
Section settlement.
Context (configuration : SqliteWorkerConfiguration) (freeBytes : Z) (scope : RunScope).
Context (input : ModelBudgetSettlementInput) (a : AccountRow) (x : AllocationRow) (d : Database).

(** The request is well formed, its authority is current, and it names an account and
    a call that can be read; the totals stay safe integers. *)
Record settlement_ready : Prop := mk_settlement_ready {
  se_wf : ledger_wf d;
  se_accounts : accounts_hold d = Ok tt;
  se_allocations : allocations_hold d = Ok tt;
  se_account : account_row (sc_ownerId scope) (sc_agentId scope) (accountId (bs_parent input)) d = Some a;
  se_allocation : named_allocation scope (bs_parent input) (bs_operationKey input) d = Some x;
  se_readable : readable_account a ∧ readable_allocation x;
  se_called : includes (al_status x) [allocation_started; allocation_unknown] = true;
  se_headroom : assertDiskHeadroom configuration freeBytes = Ok tt;
  se_envelope : parseEnvelope scope = Ok tt;
  se_input : parseSettlement input = Ok tt;
  se_authority : assertCurrentAuthority scope (bs_settledAt input) d = (Ok tt, d);
  se_parent : assertAccountParentScope scope (bs_parent input) d = (Ok tt, d);
  se_sum : cost a + bs_actualCostMicros input ≤ MAX_SAFE_INTEGER;
  se_revision : ac_revision a < MAX_SAFE_INTEGER }.

Definition settled_account_status : AccountStatus :=
  if (ac_status a === account_over_budget) || (al_estimatedCostMicros x <? bs_actualCostMicros input) then account_over_budget
  else if existsb (λ r, (al_status r === allocation_unknown) && (al_operationKey r !== bs_operationKey input))
            (kids (account_key a) (t_allocations d))
  then account_reconcile_required else account_active.

Definition settled_account : AccountRow :=
  account_with (ac_reservedCostMicros a - al_estimatedCostMicros x) (ac_spentCostMicros a + bs_actualCostMicros input)
    settled_account_status (ac_revision a + 1) a.

Definition settled_database : Database :=
  set_allocations (update_where (is_allocation x) (settled_allocation input))
    (set_account a (ac_reservedCostMicros a - al_estimatedCostMicros x) (ac_spentCostMicros a + bs_actualCostMicros input)
       settled_account_status d).

Hypothesis Hready : settlement_ready.

Lemma named_rows : a ∈ t_accounts d ∧ x ∈ t_allocations d ∧ account_checks a = true ∧ allocation_checks x = true
  ∧ account_key a = (sc_ownerId scope, sc_agentId scope, accountId (bs_parent input))
  ∧ allocation_key x = (account_key a, bs_operationKey input).
Proof.
  destruct Hready as [Hwf _ _ Ha Hx _ _ _ _ _ _ _ _ _]. apply get_elem in Ha as [Hina Ha]. apply get_elem in Hx as [Hinx Hx].
  unfold of_account in Hx. guards. destruct_and!. unfold allocation_key, allocation_account, account_key.
  split; [done|]. split; [done|]. split; [by apply (as_checks _ (lw_accounts _ Hwf))|].
  split; [by apply (ls_checks _ _ (lw_allocations _ Hwf))|]. split; congruence.
Qed.

(** The account has what the call reserved. *)
Lemma reservation_covers : 0 ≤ al_estimatedCostMicros x ≤ ac_reservedCostMicros a ∧ 0 ≤ ac_spentCostMicros a.
Proof.
  destruct named_rows as (Ha & Hx & Hca & _ & _ & Hk). pose proof (se_wf Hready) as Hwf.
  assert (Hka : allocation_account x = account_key a) by (unfold allocation_key in Hk; congruence).
  assert (H0 : 0 ≤ ac_spentCostMicros a) by (unfold account_checks, in_safe_range in Hca; guards; destruct_and!; lia).
  destruct (open_kid_costs x) as (C & _ & _); [pose proof (se_called Hready); by destruct (al_status x)|].
  pose proof (kid_in d a x Hx Hka) as Hkid. pose proof (bal_reserved _ _ (lw_balanced _ Hwf a Ha)) as Hb.
  assert (Hpos : ∀ r, r ∈ kids (account_key a) (t_allocations d) → 0 ≤ open_cost r).
  { intros r [Hr _]%elem_kids. unfold open_cost. pose proof (estimate_nonneg d r Hwf Hr). destruct (is_open _); lia. }
  pose proof (total_elem open_cost _ x Hpos Hkid) as Hle. pose proof (estimate_nonneg d x Hwf Hx).
  destruct (ac_parentKind a); lia.
Qed.

Lemma settled_rows : settled_account ∈ t_accounts settled_database ∧ settled_allocation input x ∈ t_allocations settled_database.
Proof.
  destruct named_rows as (Ha & Hx & _ & _ & _ & _). pose proof (se_wf Hready) as Hwf. split.
  - apply (elem_set_account (t_accounts d) a _ _ (lw_accounts _ Hwf) Ha). by left.
  - apply (elem_update_kid (t_allocations d) x (ls_keys _ _ (lw_allocations _ Hwf)) Hx). by left.
Qed.

Lemma settled_totals : 0 ≤ ac_reservedCostMicros a - al_estimatedCostMicros x ∧ 0 ≤ ac_spentCostMicros a + bs_actualCostMicros input
  ∧ (ac_reservedCostMicros a - al_estimatedCostMicros x) + (ac_spentCostMicros a + bs_actualCostMicros input) ≤ MAX_SAFE_INTEGER
  ∧ 0 ≤ bs_actualCostMicros input ≤ MAX_SAFE_INTEGER ∧ 0 ≤ ac_revision a.
Proof.
  destruct reservation_covers as [? ?], (parseSettlement_Ok _ (se_input Hready)) as [? _]. pose proof (se_sum Hready) as Hs.
  destruct named_rows as (_ & _ & Hca & _). unfold account_checks, in_safe_range in Hca. guards. destruct_and!.
  unfold cost in Hs. repeat split; lia.
Qed.

Lemma settled_record : ∃ record, toAccount settled_account = Ok record
  ∧ ba_reservedCostMicros record = ac_reservedCostMicros a - al_estimatedCostMicros x
  ∧ ba_spentCostMicros record = ac_spentCostMicros a + bs_actualCostMicros input ∧ ba_status record = settled_account_status.
Proof.
  destruct settled_totals as (H1 & H2 & H3 & _ & H4). pose proof (se_revision Hready).
  apply account_readable; [apply Hready|lia|lia|lia].
Qed.

Lemma remaining_run : remainingUnknown (accountId (bs_parent input)) scope (bs_operationKey input) d
  = (Ok (existsb (λ r, (al_status r === allocation_unknown) && (al_operationKey r !== bs_operationKey input))
          (kids (account_key a) (t_allocations d))), d).
Proof. destruct named_rows as (_ & _ & _ & _ & Hk & _). unfold remainingUnknown, gets. by rewrite remaining_kids, <-Hk. Qed.

Lemma status_run {B} (f : AccountStatus → Wk B) :
  (status ← (if (ac_status a === account_over_budget) || (al_estimatedCostMicros x <? bs_actualCostMicros input)
             then mret account_over_budget
             else unknown ← remainingUnknown (accountId (bs_parent input)) scope (bs_operationKey input);
                  mret (if unknown : bool then account_reconcile_required else account_active)); f status) d
  = f settled_account_status d.
Proof.
  apply bind_run. unfold settled_account_status. destruct (_ || _); [done|]. by rewrite (bind_run _ _ _ _ _ remaining_run).
Qed.

Lemma settle_run record : toAccount settled_account = Ok record →
  settleWithinTransaction scope input d = (Ok (mkBudgetResult record (settled_allocation input x) false), settled_database).
Proof.
  intros Hrec. destruct named_rows as (Ha & Hx & Hca & Hcx & Hka & Hkx), settled_totals as (T1 & T2 & T3 & T4 & T5), reservation_covers as [R1 R2].
  pose proof Hready as [Hwf Hac Hal Hrow Hrow' [Hra Hrx] Hcalled _ _ Hin Hauth Hpar Hsum Hrev].
  unfold settleWithinTransaction. rewrite (bind_run _ _ _ _ _ Hauth).
  rewrite (bind_run _ _ d (a, x) d) by (apply find_allocation_run; try done; unfold account_key in Hka; congruence).
  replace (al_status x === allocation_settled) with false by (by destruct (al_status x)).
  rewrite (bind_run _ _ d tt d) by (by destruct (al_status x)). rewrite (bind_run _ _ _ _ _ Hpar).
  rewrite (bind_run _ _ d (ac_reservedCostMicros a - al_estimatedCostMicros x) d)
    by (unfold lift; rewrite subtractCost_run; [done|lia|lia|unfold cost in Hsum; lia]).
  rewrite (bind_run _ _ d (ac_spentCostMicros a + bs_actualCostMicros input) d)
    by (unfold lift; rewrite addCost_run; [done|lia|lia|unfold cost in Hsum; lia]).
  rewrite status_run.
  destruct (updateAccount_run a _ _ settled_account_status d Hac Ha Hra T1 T2 T3 ltac:(lia)) as [Hup Hac'].
  rewrite (bind_run _ _ _ _ _ Hup).
  set (d1 := set_account a _ _ settled_account_status d) in *.
  assert (Hal1 : allocations_hold d1 = Ok tt).
  { apply allocations_hold_iff in Hal as (L1 & L2 & L3). apply allocations_hold_iff. split; [done|]. split; [done|].
    intros y Hy. unfold d1. rewrite set_account_keys. by apply L3. }
  destruct (update_allocation_run scope (accountId (bs_parent input)) (bs_operationKey input)
    [allocation_reserved; allocation_started; allocation_unknown] (settled_allocation input)
    "Settled budget allocation could not be read" d1 x Hal1 Hx) as [Hupx _]; [by rewrite Hkx, Hka|by destruct (al_status x)|done
    |by apply settled_checks|by apply settled_readable|].
  rewrite (bind_run _ _ _ _ _ Hupx). unfold budget_result.
  rewrite (bind_run _ _ _ record settled_database) by (unfold lift; by rewrite <-Hrec).
  by rewrite (bind_run _ _ _ (settled_allocation input x) settled_database) by (unfold lift; by rewrite (proj2 (settled_readable input x Hrx Hin))).
Qed.

(** Asked again, the answer is the same; another cost is refused. *)
Lemma settled_again record input' : toAccount settled_account = Ok record → bs_parent input' = bs_parent input →
  bs_operationKey input' = bs_operationKey input → bs_settledAt input' = bs_settledAt input →
  settleWithinTransaction scope input' settled_database =
    (if bs_actualCostMicros input' === bs_actualCostMicros input
     then Ok (mkBudgetResult record (settled_allocation input x) true)
     else Err (applicationFailure CONFLICT "Settled model budget cost is immutable" []), settled_database).
Proof.
  intros Hrec Ep Ek Et. destruct named_rows as (Ha & Hx & Hca & Hcx & Hka & Hkx), settled_totals as (T1 & T2 & T3 & T4 & T5).
  pose proof Hready as [Hwf Hac Hal Hrow Hrow' [Hra Hrx] Hcalled _ _ Hin Hauth Hpar Hsum Hrev].
  destruct (updateAccount_run a _ _ settled_account_status d Hac Ha Hra T1 T2 T3 ltac:(lia)) as [_ Hac'].
  destruct settled_rows as [Hina Hinx].
  unfold settleWithinTransaction. rewrite Ep, Ek, Et. rewrite (bind_run _ _ settled_database tt settled_database) by
    (pose proof Hauth as Hauth'; unfold assertCurrentAuthority, throwM_if, lift, gets, mbind, M_bind in Hauth' |- *;
     change (authority_row scope settled_database) with (authority_row scope d); injection Hauth' as Hauth'; by rewrite Hauth').
  rewrite (bind_run _ _ settled_database (settled_account, settled_allocation input x) settled_database).
  - replace (al_status (settled_allocation input x) === allocation_settled) with true by (symmetry; by apply bool_decide_eq_true_2).
    cbn [al_actualCostMicros settled_allocation]. destruct (bool_decide_reflect (bs_actualCostMicros input' = bs_actualCostMicros input)) as [E|E].
    + rewrite (bind_run _ _ _ tt settled_database) by (unfold throwM_if, lift; rewrite E, bool_decide_eq_true_2 by done; done).
      unfold budget_result. rewrite (bind_run _ _ _ record settled_database) by (unfold lift; by rewrite Hrec).
      by rewrite (bind_run _ _ _ (settled_allocation input x) settled_database) by (unfold lift; by rewrite (proj2 (settled_readable input x Hrx Hin))).
    + unfold throwM_if, lift, mbind, M_bind. rewrite bool_decide_eq_false_2 by (cbn; congruence). done.
  - assert (Hs' : accounts_sound (t_accounts settled_database)) by exact (accounts_hold_sound _ Hac').
    apply find_allocation_run; [apply account_row_found; [done|done|by rewrite <-Hka]| | | | |].
    + apply allocation_row_found; [|done|]; [change (NoDup (allocation_key <$> update_where (is_allocation x) (settled_allocation input) (t_allocations d)));
        rewrite update_key by done; apply (ls_keys _ _ (lw_allocations _ Hwf))|].
      change (allocation_key (settled_allocation input x)) with (allocation_key x). by rewrite Hkx, Hka.
    + destruct (account_readable a (ac_reservedCostMicros a - al_estimatedCostMicros x) (ac_spentCostMicros a + bs_actualCostMicros input)
        settled_account_status (ac_revision a + 1) Hra) as [Hr _]; [lia..|exact Hr].
    + by apply settled_readable.
    + by apply (as_checks _ Hs').
    + cbn. unfold account_key in Hka. congruence.
Qed.

Lemma execute_run {A} (m : Wk A) (parsed : result failure unit) d0 r d1 : parseEnvelope scope = Ok tt → parsed = Ok tt →
  assertDiskHeadroom configuration freeBytes = Ok tt → m d0 = (r, d1) → (is_ok r = true ∨ d1 = d0) →
  (∀ message, r ≠ Err (type_error message)) →
  execute scope (lift parsed ;; runImmediateTransaction configuration freeBytes m) d0 = (r, d1).
Proof.
  intros He -> Hh Hm Hr Ht. unfold execute. rewrite (bind_run _ _ d0 tt d0) by (unfold lift; by rewrite He).
  rewrite (bind_run _ _ d0 tt d0) by done. unfold runImmediateTransaction.
  rewrite (bind_run _ _ d0 tt d0) by (unfold lift; by rewrite Hh).
  assert (E : transaction m d0 = (r, d1)).
  { destruct r as [v|e]; [by apply transaction_Ok|]. apply transaction_Err. destruct Hr as [Hr | ->]; [done|]. eauto. }
  rewrite E. destruct r as [v|[]]; try done. by destruct (Ht message).
Qed.
End settlement.

(** C13 Whatever happened to a ledger that balances: a charge for a call that was started,
    by an authority that is current, is recorded.  The account gives up what the
    call had reserved and takes on what it cost; asked again, the answer is the
    same and nothing changes; and a different cost is refused as a conflict. *)
Theorem settlement_recorded configuration freeBytes scope input a x d :
  settlement_ready configuration freeBytes scope input a x d →
  ∃ record, modelBudget_settle configuration freeBytes scope input d =
      (Ok (mkBudgetResult record (settled_allocation input x) false), settled_database input a x d) ∧
    ba_reservedCostMicros record = ac_reservedCostMicros a - al_estimatedCostMicros x ∧
    ba_spentCostMicros record = ac_spentCostMicros a + bs_actualCostMicros input ∧
    ba_status record = settled_account_status input a x d ∧
    ∀ input', parseSettlement input' = Ok tt → bs_parent input' = bs_parent input → bs_operationKey input' = bs_operationKey input →
      bs_settledAt input' = bs_settledAt input →
      modelBudget_settle configuration freeBytes scope input' (settled_database input a x d) =
        (if bs_actualCostMicros input' === bs_actualCostMicros input
         then Ok (mkBudgetResult record (settled_allocation input x) true)
         else Err (applicationFailure CONFLICT "Settled model budget cost is immutable" []), settled_database input a x d).
Proof.
  intros Hready. destruct (settled_record _ _ _ _ _ _ _ Hready) as (record & Hrec & H1 & H2 & H3).
  pose proof Hready as [_ _ _ _ _ _ _ Hh He Hin _ _ _ _]. exists record. split; [|split; [done|split; [done|split; [done|]]]].
  - apply execute_run; try done; [by apply (settle_run configuration freeBytes)|by left].
  - intros input' Hin' Ep Ek Et. apply execute_run; try done; [by apply (settled_again configuration freeBytes)|by right|].
    intros message. by destruct (_ === _).
Qed.

(** A call of the first Run whose result was unknown. *)
Definition unknown_database : Database := sequence (take 4 two_calls) budget_database.

Lemma unknown_wf' : ledger_wf unknown_database.
Proof.
  destruct (performed_steps _ _ _ _ _ (sequence_performed (take 4 two_calls) budget_database
    (Forall_take _ _ _ two_calls_within)) (empty_ledger_wf budget_database eq_refl eq_refl)) as (m & Hm & _).
  exact (steps_wf _ _ _ _ Hm (empty_ledger_wf budget_database eq_refl eq_refl)).
Qed.

Definition unknown_account : AccountRow :=
  mkAccountRow "owner" "agent" "run:run-1" kind_run (Some "run-1") None None data_private 700 0 account_reconcile_required 3.
Definition unknown_allocation : AllocationRow :=
  mkAllocationRow "owner" "agent" "run:run-1" "call-1" "model" data_private 300 None allocation_unknown at_0 (Some at_1) (Some at_2) None
    (Some provider_unresolved).
Definition late_settlement : ModelBudgetSettlementInput := mkBudgetSettlement (run_parent "run-1") "call-1" 350 at_2.

Lemma late_ready : settlement_ready budget_configuration 5000 budget_scope late_settlement unknown_account unknown_allocation unknown_database.
Proof.
  split; [exact unknown_wf'|vm_compute; reflexivity..| | | | | | | | |]; try (vm_compute; reflexivity).
  - split; (split; [vm_compute; reflexivity|]); [eexists|]; vm_compute; reflexivity.
  - vm_compute. discriminate.
Qed.

Lemma settlement_recorded_witness : ∃ record d',
  modelBudget_settle budget_configuration 5000 budget_scope late_settlement unknown_database
    = (Ok (mkBudgetResult record (settled_allocation late_settlement unknown_allocation) false), d') ∧
  ba_reservedCostMicros record = 400 ∧ ba_spentCostMicros record = 350 ∧ ba_status record = account_over_budget.
Proof.
  destruct (settlement_recorded _ _ _ _ _ _ _ late_ready) as (record & Hrun & H1 & H2 & H3 & _).
  exists record, (settled_database late_settlement unknown_account unknown_allocation unknown_database).
  split; [exact Hrun|]. split; [exact H1|]. split; [exact H2|]. rewrite H3. vm_compute. reflexivity.
Defined.
